(* ===== verification/_CoqProject ===== *)
-Q . S2P
Prelude.v
CString.v
ShLexer.v
ShParser.v
Peek.v
Riscv.v
Mlfq.v
Proc.v
ProcInv.v
Sched.v
Printf.v
Grep.v
Pipe.v
Bio.v
Cache.v
Log.v
Txn.v
Words.v
FsBlk.v
FsInode.v
FsData.v
FsTable.v
FsDir.v
Kalloc.v
Vm.v
VmMap.v
VmUser.v
VmKernel.v
VmSpace.v
VmFree.v
ShRedir.v
ShJobs.v
ShMain.v
ShExec.v
ShPipe.v
Reveal.v
ShHop.v
Lock.v
Umalloc.v
UserSh.v
UserShRun.v
Console.v
Uart.v
File.v
FileRefs.v
SysFile.v
SysFileInv.v
FileIO.v
Virtio.v
VirtioInv.v
VirtioRun.v
VirtioInit.v
Syscall.v
Trap.v
Mkfs.v
MkfsBoot.v
Exec.v
ExecSpace.v
ExecRun.v
ExecFile.v
