(* ===== verification/Prelude.v ===== *)
(** * xv6 with an MLFQ scheduler, and the POSIX shell cshell

    The repository holds two programs.  [src/xv6] is the teaching kernel xv6 for
    RISC-V with a multi-level feedback queue (MLFQ) and a FIFO scheduler added, its
    user programs and the tool that makes its disk image.  [src/c-shell] is a POSIX
    shell with job control.  This library translates their C code to executable
    definitions, function by function, and proves what makes them correct.

    ** How C is modelled

    - Integers are [Z] with the wrap-around of each width written out ([wrap],
      [swrap]).  Memory that is addressed is a function from addresses to bytes
      ([CString], [Kalloc]); a C string that is only read or built is the list of its
      bytes without the NUL.
    - Code that keeps state is in the monad [M S A := S -> res (A * S)] below; [Ret] is a
      return, [Panic] the kernel's [panic], [Undef] something C leaves undefined (an
      access outside an array, a null pointer, a double free).
    - Loops that are not structural have fuel.  Where a theorem says that code
      returns, it is proved for the fuel the definition itself passes; running out is
      [Undef], so it cannot be mistaken for a result.
    - A call that waits (a sleep lock, a pipe, [sleep]) ends the run; waking up starts a
      new one.  Where interleavings are treated, a step is a critical section (one lock
      held), or one access where code and a device or another hart race without a lock
      ([Lock], [Uart], the interrupt handler of [Virtio]), and theorems quantify over all
      sequences of such steps on all harts.
    - What is not in the repository (the devices, the operating system under the
      shell, the linker) is an argument of the definitions that use it.

    ** The kernel ([src/xv6/kernel])

    - [Riscv]: macros of [riscv.h], [memlayout.h], [param.h].
    - [Mlfq], [Proc], [ProcInv], [Sched]: [proc.c] and the timer of [trap.c].  [Mlfq] shows
      that the queue arrays are four FIFO lists; [Proc] has every operation on the
      process table and the three schedulers, cut where a function lets go of its lock;
      [ProcInv] the invariant (a process is on exactly one queue, once, if and only if it
      is runnable); [Sched] that the invariant holds and nothing panics for every
      interleaving of these critical sections on all harts, what each scheduler picks, when
      [yield] demotes and preempts, what [wakeup], [kkill] and the clock do.  That a process
      stands on the queue of its own level does not hold: [boost_race] is a run in which the boost
      of one hart and a [yield] on another part the two.
    - [Pipe]: [pipe.c].  Bytes leave in the order they were written, for every
      interleaving, and sleepers are woken.
    - [Bio], [Cache]: [bio.c].  The list of buffers is always one ring, a block is in one
      buffer, [bread] recycles the least recently used.  [Cache] is the interface the
      log is proved against.
    - [Log], [Txn]: [log.c].  A group of file-system calls is atomic under a crash
      between any two disk writes, also during recovery, as long as a call logs at most
      nine distinct blocks.
    - [Words], [FsBlk], [FsInode], [FsData], [FsTable], [FsDir]: [fs.c], on the class [HasDisk]
      of the blocks the log presents: allocation of blocks and inodes, contents of
      files, the inode table, directories, path names.
    - [Kalloc], [Vm], [VmMap], [VmUser], [VmKernel]: [kalloc.c], [vm.c] and the page tables of
      [proc.c].  Page tables are trees in byte-addressed memory, seen as functions from
      virtual addresses to entries; theorems on [mappages], [uvmunmap], [vmfault], [copyout]
      and [copyin], and the layout [kvmmake] builds whenever enough pages are free.
    - [VmSpace], [VmFree]: [uvmalloc], [uvmdealloc], [uvmcopy], [uvmfree] and [freewalk]: what a growing,
      shrinking, copied or freed address space has mapped, and where its pages go.
    - [Syscall]: [syscall.c], with [sbrk] ([growproc]), where every page comes from and goes to, and
      the arguments of [exec], which cross from user memory byte by byte.
    - [Trap]: [trap.c]: what [usertrap], [prepare_return] and [kerneltrap] do with the control
      registers, the trap frame and the process, for every cause.
    - [Exec], [ExecSpace], [ExecRun], [ExecFile]: [exec.c].  [ExecSpace] follows an address space while it is
      built from free pages; [ExecRun] has the image an ELF file describes and that [kexec] makes
      it or changes nothing and loses no page; [ExecFile] ties the contents to [readi].
    - [File], [FileRefs], [SysFile], [SysFileInv], [FileIO]: [file.c] and [sysfile.c], with what [fork],
      [exit] and [userinit] do to files.  [FileRefs] specifies every function of [fs.c] by the
      references and locks it takes and gives; [SysFile] has the invariant that ties
      descriptors, files, inodes, pipes and transactions together; [SysFileInv] that every
      system call keeps it on every path, from boot on; [FileIO] that [filewrite] is one write
      when it fits in a file.  Of the log these files keep the count of open transactions, with
      the panics that depend on it; waiting and committing are in [Txn].
    - [Virtio], [VirtioInv], [VirtioRun], [VirtioInit]: [virtio_disk.c] with the device and its
      interrupt status: for every order of calls, steps of the handler and device actions a
      request that returns has been carried out, and none is lost, also when it completes
      while the handler runs; the handshake at boot.  A stretch of [virtio_disk_rw] between
      two sleeps is one step: the device acts before or after it.
    - [Lock]: [spinlock.c], access by access, and [sleeplock.c]: mutual exclusion.
    - [Console]: [console.c]: line editing and reading refine a queue of bytes and a line.
    - [Uart]: [uart.c], access by access on several harts, with the transmitter.
    - [CString], [Printf]: [string.c], [printk.c] (with [user/ulib.c] and [user/printf.c]).

    ** User programs ([src/xv6/user])

    - [Grep]: [grep.c] and [wc.c]: the matcher decides the language of its pattern, and
      both programs are right for every way [read] cuts their input.
    - [Umalloc]: [umalloc.c] on byte memory: the heap stays intact for every sequence of
      [malloc] (of up to [2^31 - 64] bytes), [free] and writes into blocks.
    - [UserSh], [UserShRun]: [sh.c]: the parser against a grammar, [nulterminate] on the line
      buffer, [runcmd] with the descriptors of every process it makes, the main loop.

    ** The disk image ([src/xv6/mkfs])

    - [Mkfs], [MkfsBoot]: [mkfs.c]; the image satisfies what [fs.c] assumes, and the kernel's
      own lookup and read give back each file.

    ** The shell ([src/c-shell/src])

    - [ShLexer], [ShParser]: [lexer.c], [parser.c], against a grammar.
    - [ShMain]: the loop of [main.c] and the pipelines of [pipe.c].
    - [ShRedir]: [redirection.c] and [execute_single], with the buffer of [stdout] that a
      builtin prints through: programs are redirected, a builtin's output only where the C
      library writes it out in time.
    - [ShPipe]: [execute_pipeline] with the pipes and the descriptor table of each child.
    - [ShJobs]: the job table, the [SIGCHLD] handler, [activities], [ping], [resume], a background
      pipeline cut short by a failed [fork].
    - [ShExec], [ShHop], [Peek], [Reveal]: command search and [locate], [hop] and the prompt, [peek],
      [reveal].

    ** Fuel and bounds

    The fuel of a loop is what its own measure needs: the length of the input for
    scanners ([2 * length + 2] steps for the lexer, a character and a word end each),
    the number of queue slots for the scheduler, the number of blocks, pages or
    entries for loops over them.  [Sched] has the 8 harts and 64 slots of the source, [Lock]
    any number of harts; the file system over any layout with the superblock's
    constraints; [VmUser.Sample] and the other witnesses are small instances.

    ** Not modelled

    Assembly, [start.c], [main.c] of the kernel beyond the order of initialisation, [plic.c];
    interleavings inside one system call on files ([SysFileInv] takes calls one after the other;
    [Txn], [Bio], [Pipe] and [Lock] treat the interleavings of their own layers); the device between
    the stores of one [virtio_disk_rw]; the children of a shell pipeline running at once; test
    programs ([usertests.c], [grind.c] and others); in the shell [spy], [snoop], signal dispositions and
    terminal control. *)

From stdpp Require Export base list gmap strings numbers.
From Stdlib Require Export Lia ZArith.

Declare Scope xv6_scope.
Delimit Scope xv6_scope with xv6.
#[global] Open Scope Z_scope.

(** ** Machine integers

    A C integer is a [Z]; the wrap-around of each width is explicit. *)

Definition wrap (w x : Z) : Z := x mod 2 ^ w.
Abbreviation u8 := (wrap 8).
Abbreviation u16 := (wrap 16).
Abbreviation u32 := (wrap 32).
Abbreviation u64 := (wrap 64).

(** Two's-complement reading of the low [w] bits. *)
Definition swrap (w x : Z) : Z :=
  let y := x mod 2 ^ w in if y <? 2 ^ (w - 1) then y else y - 2 ^ w.
Abbreviation i32 := (swrap 32).

(** C truth value of an integer expression. *)
Definition c_true (x : Z) : bool := negb (x =? 0).

Lemma wrap_range w x : 0 <= w -> 0 <= wrap w x < 2 ^ w.
Proof. intros Hw. apply Z.mod_pos_bound, Z.pow_pos_nonneg; lia. Qed.

Lemma wrap_small w x : 0 <= x < 2 ^ w -> wrap w x = x.
Proof. apply Z.mod_small. Qed.

Lemma wrap_idem w x : 0 <= w -> wrap w (wrap w x) = wrap w x.
Proof. intros Hw. apply wrap_small, wrap_range, Hw. Qed.

Lemma swrap_small w x : 0 < w -> - 2 ^ (w - 1) <= x < 2 ^ (w - 1) -> swrap w x = x.
Proof.
  intros Hw Hx. unfold swrap.
  assert (2 ^ w = 2 * 2 ^ (w - 1)) as E
    by (rewrite <- Z.pow_succ_r by lia; f_equal; lia).
  destruct (Z.ltb_spec (x mod 2 ^ w) (2 ^ (w - 1))) as [H|H];
    destruct (Z.lt_ge_cases x 0) as [Hn|Hn];
    try (rewrite Z.mod_small in * by lia; lia).
  - replace (x mod 2 ^ w) with (x + 2 ^ w) in H; [lia|].
    symmetry. rewrite <- (Z.mod_add x 1 (2 ^ w)) by lia.
    rewrite Z.mul_1_l. apply Z.mod_small. lia.
  - replace (x mod 2 ^ w) with (x + 2 ^ w); [lia|].
    symmetry. rewrite <- (Z.mod_add x 1 (2 ^ w)) by lia.
    rewrite Z.mul_1_l. apply Z.mod_small. lia.
Qed.

(** ** Characters

    A C [char] is a byte value; the character constants the sources use are
    abbreviations of their codes, so that [lia] sees numbers. *)

Abbreviation chNUL := 0 (only parsing).
Abbreviation chTAB := 9 (only parsing).
Abbreviation chNL := 10 (only parsing).
Abbreviation chVT := 11 (only parsing).
Abbreviation chCR := 13 (only parsing).
Abbreviation chSPACE := 32 (only parsing).
Abbreviation chDQUOTE := 34 (only parsing).
Abbreviation chDOLLAR := 36 (only parsing).
Abbreviation chPERCENT := 37 (only parsing).
Abbreviation chAMP := 38 (only parsing).
Abbreviation chSQUOTE := 39 (only parsing).
Abbreviation chLPAR := 40 (only parsing).
Abbreviation chRPAR := 41 (only parsing).
Abbreviation chSTAR := 42 (only parsing).
Abbreviation chPLUS := 43 (only parsing).
Abbreviation chMINUS := 45 (only parsing).
Abbreviation chDOT := 46 (only parsing).
Abbreviation chSLASH := 47 (only parsing).
Abbreviation ch0 := 48 (only parsing).
Abbreviation ch9 := 57 (only parsing).
Abbreviation chSEMI := 59 (only parsing).
Abbreviation chLT := 60 (only parsing).
Abbreviation chGT := 62 (only parsing).
Abbreviation chBSLASH := 92 (only parsing).
Abbreviation chCARET := 94 (only parsing).
Abbreviation chPIPE := 124 (only parsing).

(** The bytes of a string literal. *)
Fixpoint bytes (s : string) : list Z :=
  match s with
  | EmptyString => []
  | String a s' => Z.of_N (Ascii.N_of_ascii a) :: bytes s'
  end.

(** ** Lists *)

(** Replacing an element of a list replaces what it contributes. *)
Lemma bind_insert {A B} (g : A -> list B) l i x y :
  l !! i = Some x -> g x ++ (<[i := y]> l ≫= g) ≡ₚ g y ++ (l ≫= g).
Proof.
  revert i. induction l as [|z l IH]; intros [|i] H; [done|done| |].
  - injection H as ->. cbn. rewrite !(assoc_L (++)). apply Permutation_app_tail, Permutation_app_comm.
  - cbn in *. rewrite (Permutation_app_swap_app (g x)), (Permutation_app_swap_app (g y)). by apply Permutation_app_head, IH.
Qed.

Lemma bind_insert_same {A B} (g : A -> list B) l i x y :
  l !! i = Some x -> g y = g x -> (<[i := y]> l ≫= g) = (l ≫= g).
Proof.
  revert i. induction l as [|z l IH]; intros [|i] H E; [done|done| |]; cbn in *.
  - injection H as ->. by rewrite E.
  - f_equal. by apply IH.
Qed.

(** ** Outcomes and state passing

    Kernel code returns, ends in [panic] (which never returns), or does
    something C leaves undefined, such as an access outside an array. *)

Inductive res (A : Type) : Type :=
| Ret (a : A)
| Panic (msg : string)
| Undef (what : string).
Arguments Ret {A} a.
Arguments Panic {A} msg.
Arguments Undef {A} what.

Definition M (S A : Type) : Type := S -> res (A * S).

#[export] Instance M_ret S : MRet (M S) := fun A a s => Ret (a, s).
#[export] Instance M_bind S : MBind (M S) := fun A B f m s =>
  match m s with
  | Ret (a, s') => f a s'
  | Panic e => Panic e
  | Undef e => Undef e
  end.

Definition undef {S A} (what : string) : M S A := fun _ => Undef what.
Definition panic {S A} (msg : string) : M S A := fun _ => Panic msg.
Definition get {S} : M S S := fun s => Ret (s, s).
Definition put {S} (s : S) : M S unit := fun _ => Ret (tt, s).
Definition gets {S A} (f : S -> A) : M S A := fun s => Ret (f s, s).
Definition modify {S} (f : S -> S) : M S unit := fun s => Ret (tt, f s).
(** [if (b) panic(msg);] *)
Definition panic_if {S} (b : bool) (msg : string) : M S unit :=
  if b then panic msg else mret tt.

Arguments panic {S A} msg _ /.
Arguments undef {S A} what _ /.
Arguments get {S} _ /.
Arguments put {S} s _ /.
Arguments gets {S A} f _ /.
Arguments modify {S} f _ /.

Lemma M_bind_Ret {S A B} (m : M S A) (f : A -> M S B) s a s' :
  m s = Ret (a, s') -> (m ≫= f) s = f a s'.
Proof. intros E. unfold mbind, M_bind. by rewrite E. Qed.

Lemma M_bind_inv {S A B} (m : M S A) (f : A -> M S B) s b s'' :
  (m ≫= f) s = Ret (b, s'') ->
  exists a s', m s = Ret (a, s') /\ f a s' = Ret (b, s'').
Proof.
  unfold mbind, M_bind. destruct (m s) as [[a s']|e|e] eqn:E; [|done|done].
  intros H. by exists a, s'.
Qed.

(** ** Weakest preconditions

    [wp F m Q s]: from [s], [m] returns in a state satisfying [Q], or it panics
    or is undefined and then [F] holds.  With [F] false this is total
    correctness: the code returns. *)

Definition wp {S A} (F : Prop) (m : M S A) (Q : A -> S -> Prop) (s : S) : Prop :=
  match m s with Ret (a, s') => Q a s' | Panic _ | Undef _ => F end.

Section wp.
Context {S : Type} (F : Prop).
Implicit Types s : S.

Lemma wp_ret {A} (a : A) (Q : A -> S -> Prop) s : Q a s -> wp F (mret a) Q s.
Proof. done. Qed.

Lemma wp_bind {A B} (m : M S A) (f : A -> M S B) (Q : B -> S -> Prop) s :
  wp F m (fun a => wp F (f a) Q) s -> wp F (m ≫= f) Q s.
Proof. unfold wp, mbind, M_bind. by destruct (m s) as [[a s']|e|e]. Qed.

Lemma wp_mono {A} (m : M S A) (P Q : A -> S -> Prop) s :
  wp F m P s -> (forall a s', P a s' -> Q a s') -> wp F m Q s.
Proof. unfold wp. destruct (m s) as [[a s']|e|e]; auto. Qed.

(** A total fact and a fact about returning runs. *)
Lemma wp_conj {A} (m : M S A) (P Q : A -> S -> Prop) s :
  wp F m P s -> wp True m Q s -> wp F m (fun a s' => P a s' /\ Q a s') s.
Proof. unfold wp. destruct (m s) as [[a s']|e|e]; auto. Qed.

Lemma wp_get (Q : S -> S -> Prop) s : Q s s -> wp F get Q s.
Proof. done. Qed.

Lemma wp_gets {A} (f : S -> A) (Q : A -> S -> Prop) s : Q (f s) s -> wp F (gets f) Q s.
Proof. done. Qed.

Lemma wp_put s' (Q : unit -> S -> Prop) s : Q tt s' -> wp F (put s') Q s.
Proof. done. Qed.

Lemma wp_modify (f : S -> S) (Q : unit -> S -> Prop) s : Q tt (f s) -> wp F (modify f) Q s.
Proof. done. Qed.

Lemma wp_panic_if b msg (Q : unit -> S -> Prop) s :
  b = false -> Q tt s -> wp F (panic_if b msg) Q s.
Proof. by intros ->. Qed.

Lemma wp_Ret {A} (m : M S A) (Q : A -> S -> Prop) s a s' :
  wp F m Q s -> m s = Ret (a, s') -> Q a s'.
Proof. unfold wp. intros H E. by rewrite E in H. Qed.

Lemma wp_total {A} (m : M S A) (Q : A -> S -> Prop) s :
  wp F m Q s -> ~ F -> exists a s', m s = Ret (a, s') /\ Q a s'.
Proof. unfold wp. destruct (m s) as [[a s']|e|e]; [eauto|done|done]. Qed.
End wp.

(** Step through straight-line monadic code. *)
Ltac wp_step :=
  lazymatch goal with
  | |- wp _ (mbind _ _) _ _ => apply wp_bind
  | |- wp _ (mret _) _ _ => apply wp_ret
  | |- wp _ get _ _ => apply wp_get
  | |- wp _ (gets _) _ _ => apply wp_gets
  | |- wp _ (put _) _ _ => apply wp_put
  | |- wp _ (modify _) _ _ => apply wp_modify
  end.

(** ** Automation *)

Create HintDb xv6.

(** Case analysis on every boolean comparison in the goal or a hypothesis. *)
Ltac zcase :=
  repeat match goal with
  | |- context [?a =? ?b] => destruct (Z.eqb_spec a b)
  | |- context [?a <? ?b] => destruct (Z.ltb_spec a b)
  | |- context [?a <=? ?b] => destruct (Z.leb_spec a b)
  | H : context [?a =? ?b] |- _ => destruct (Z.eqb_spec a b)
  | H : context [?a <? ?b] |- _ => destruct (Z.ltb_spec a b)
  | H : context [?a <=? ?b] |- _ => destruct (Z.leb_spec a b)
  end.

Ltac zsolve := zcase; simpl in *; try lia; try congruence.

(** [Forall P l] for a concrete [l] whose elements satisfy [P] by arithmetic. *)
Ltac forall_lia := repeat (constructor; [simpl; lia|]); constructor.
