(* ===== verification/CString.v ===== *)
(** * Byte strings: [kernel/string.c] and the string half of [user/ulib.c]

    Memory is a total map from addresses to byte values; a pointer is an
    address.  Each C loop is a [Fixpoint] on its own counter (the counters are
    at most [n]); the two loops with no counter, [strlen] and [strcpy], take
    fuel and return [None] when it runs out, with theorems that a terminated
    string always supplies enough.  [KString] models the kernel's file,
    [ULib] the user library's; both define a [memmove], written differently. *)

From S2P Require Import Prelude.

(** ** Byte memory *)

Definition mem : Type := Z -> Z.

Definition upd (m : mem) (a v : Z) : mem := fun x => if x =? a then v else m x.

Lemma upd_eq m a v : upd m a v a = v.
Proof. unfold upd. by rewrite Z.eqb_refl. Qed.

Lemma upd_ne m a v x : x ≠ a -> upd m a v x = m x.
Proof. intros H. unfold upd. zsolve. Qed.

(** [s] is the NUL-terminated string at address [p]. *)
Fixpoint cstr (m : mem) (p : Z) (s : list Z) : Prop :=
  match s with
  | [] => m p = 0
  | c :: s' => m p = c /\ c ≠ 0 /\ cstr m (p + 1) s'
  end.

(** The [n] bytes from [p]. *)
Fixpoint load (m : mem) (p : Z) (n : nat) : list Z :=
  match n with
  | O => []
  | S n' => m p :: load m (p + 1) n'
  end.

Module KString.

(** [memset(dst, c, n)]; the stored value is the low byte of [c]. *)
Fixpoint memset_loop (m : mem) (dst c i : Z) (k : nat) : mem :=
  match k with
  | O => m
  | S k' => memset_loop (upd m (dst + i) (u8 c)) dst c (i + 1) k'
  end.

Definition memset (m : mem) (dst c : Z) (n : nat) : mem := memset_loop m dst c 0 n.

Fixpoint memcmp (m : mem) (s1 s2 : Z) (n : nat) : Z :=
  match n with
  | O => 0
  | S n' => if negb (m s1 =? m s2) then m s1 - m s2
            else memcmp m (s1 + 1) (s2 + 1) n'
  end.

(** [while (n-- > 0) *--d = *--s;] *)
Fixpoint copy_backward (m : mem) (d s : Z) (n : nat) : mem :=
  match n with
  | O => m
  | S n' => let s' := s - 1 in let d' := d - 1 in
            copy_backward (upd m d' (m s')) d' s' n'
  end.

(** [while (n-- > 0) *d++ = *s++;] *)
Fixpoint copy_forward (m : mem) (d s : Z) (n : nat) : mem :=
  match n with
  | O => m
  | S n' => copy_forward (upd m d (m s)) (d + 1) (s + 1) n'
  end.

Definition memmove (m : mem) (dst src : Z) (n : nat) : mem :=
  match n with
  | O => m
  | _ => if (src <? dst) && (dst <? src + Z.of_nat n)
         then copy_backward m (dst + Z.of_nat n) (src + Z.of_nat n) n
         else copy_forward m dst src n
  end.

Definition memcpy (m : mem) (dst src : Z) (n : nat) : mem := memmove m dst src n.

Fixpoint strncmp (m : mem) (p q : Z) (n : nat) : Z :=
  match n with
  | O => 0
  | S n' => if c_true (m p) && (m p =? m q) then strncmp m (p + 1) (q + 1) n'
            else u8 (m p) - u8 (m q)
  end.

(** Second loop of [strncpy]: [while (n-- > 0) *s++ = 0;] *)
Fixpoint pad_zero (m : mem) (s : Z) (n : nat) : mem :=
  match n with
  | O => m
  | S n' => pad_zero (upd m s 0) (s + 1) n'
  end.

Fixpoint strncpy (m : mem) (s t : Z) (n : nat) : mem :=
  match n with
  | O => m
  | S n' => let c := m t in
            let m' := upd m s c in
            if c_true c then strncpy m' (s + 1) (t + 1) n'
            else pad_zero m' (s + 1) n'
  end.

(** [while (--n > 0 && ( *s++ = *t++ ) != 0);] with [n] copies left; returns
    the memory and the advanced [s]. *)
Fixpoint safe_loop (m : mem) (s t : Z) (n : nat) : mem * Z :=
  match n with
  | O => (m, s)
  | S n' => let c := m t in
            let m' := upd m s c in
            if c_true c then safe_loop m' (s + 1) (t + 1) n'
            else (m', s + 1)
  end.

Definition safestrcpy (m : mem) (s t : Z) (n : nat) : mem :=
  match n with
  | O => m
  | S n' => let '(m', s') := safe_loop m s t n' in upd m' s' 0
  end.

Fixpoint strlen_loop (fuel : nat) (m : mem) (s n : Z) : option Z :=
  match fuel with
  | O => None
  | S fuel' => if c_true (m (s + n)) then strlen_loop fuel' m s (n + 1) else Some n
  end.

Definition strlen (fuel : nat) (m : mem) (s : Z) : option Z := strlen_loop fuel m s 0.

End KString.

Module ULib.

Fixpoint strcpy (fuel : nat) (m : mem) (s t : Z) : option mem :=
  match fuel with
  | O => None
  | S fuel' => let c := m t in
               let m' := upd m s c in
               if c_true c then strcpy fuel' m' (s + 1) (t + 1) else Some m'
  end.

Fixpoint strcmp (fuel : nat) (m : mem) (p q : Z) : option Z :=
  match fuel with
  | O => None
  | S fuel' => if c_true (m p) && (m p =? m q) then strcmp fuel' m (p + 1) (q + 1)
               else Some (u8 (m p) - u8 (m q))
  end.

(** [strchr(s, c)]: the address of the first [c], or 0. *)
Fixpoint strchr (fuel : nat) (m : mem) (s c : Z) : option Z :=
  match fuel with
  | O => None
  | S fuel' => if c_true (m s) then
                 if m s =? c then Some s else strchr fuel' m (s + 1) c
               else Some 0
  end.

(** [atoi(s)], the loop from accumulator [n]; [int] arithmetic wraps. *)
Fixpoint atoi_loop (fuel : nat) (m : mem) (s n : Z) : option Z :=
  match fuel with
  | O => None
  | S fuel' => if (48 <=? m s) && (m s <=? 57)
               then atoi_loop fuel' m (s + 1) (i32 (n * 10 + m s - 48))
               else Some n
  end.

Definition atoi (fuel : nat) (m : mem) (s : Z) : option Z := atoi_loop fuel m s 0.

(** The user library's [memmove] picks the direction by [src > dst] alone. *)
Definition memmove (m : mem) (vdst vsrc : Z) (n : nat) : mem :=
  if vdst <? vsrc then KString.copy_forward m vdst vsrc n
  else KString.copy_backward m (vdst + Z.of_nat n) (vsrc + Z.of_nat n) n.

Fixpoint memcmp (m : mem) (p1 p2 : Z) (n : nat) : Z :=
  match n with
  | O => 0
  | S n' => if negb (m p1 =? m p2) then m p1 - m p2
            else memcmp m (p1 + 1) (p2 + 1) n'
  end.

Definition memcpy (m : mem) (dst src : Z) (n : nat) : mem := memmove m dst src n.

End ULib.

(** ** Lemmas *)

Import KString.

Lemma memset_loop_spec m dst c i k a :
  memset_loop m dst c i k a =
  if (dst + i <=? a) && (a <? dst + i + Z.of_nat k) then u8 c else m a.
Proof.
  revert m i. induction k as [|k IH]; intros m i; simpl memset_loop.
  - zsolve.
  - rewrite IH. unfold upd. zsolve.
Qed.

(** Copying upwards is right when the destination does not start inside the
    source. *)
Lemma copy_forward_spec m d s n a :
  d <= s \/ s + Z.of_nat n <= d ->
  copy_forward m d s n a =
  if (d <=? a) && (a <? d + Z.of_nat n) then m (s + (a - d)) else m a.
Proof.
  revert m d s. induction n as [|n IH]; intros m d s H; simpl copy_forward.
  - zsolve.
  - rewrite IH by lia.
    destruct (decide (a = d)) as [->|Hd].
    + zsolve. rewrite upd_eq. f_equal; lia.
    + zcase; simpl; try lia; rewrite ?upd_ne by lia; try done; f_equal; lia.
Qed.

(** Copying downwards is right when the source does not start inside the
    destination. *)
Lemma copy_backward_spec m d s n a :
  s <= d \/ d <= s - Z.of_nat n ->
  copy_backward m d s n a =
  if (d - Z.of_nat n <=? a) && (a <? d) then m (s + (a - d)) else m a.
Proof.
  revert m d s. induction n as [|n IH]; intros m d s H; simpl copy_backward.
  - zsolve.
  - rewrite IH by lia.
    destruct (decide (a = d - 1)) as [->|Hd].
    + zsolve. rewrite upd_eq. f_equal; lia.
    + zcase; simpl; try lia; rewrite ?upd_ne by lia; try done; f_equal; lia.
Qed.

(** What a block move does, whatever the overlap. *)
Definition moved (m : mem) (dst src : Z) (n : nat) (m' : mem) : Prop :=
  forall a, m' a = if (dst <=? a) && (a <? dst + Z.of_nat n) then m (src + (a - dst))
                   else m a.

Lemma copy_forward_moved m d s n :
  d <= s \/ s + Z.of_nat n <= d -> moved m d s n (copy_forward m d s n).
Proof. intros H a. by apply copy_forward_spec. Qed.

Lemma copy_backward_moved m d s n :
  s <= d \/ d + Z.of_nat n <= s ->
  moved m d s n (copy_backward m (d + Z.of_nat n) (s + Z.of_nat n) n).
Proof.
  intros H a. rewrite copy_backward_spec by lia.
  replace (d + Z.of_nat n - Z.of_nat n) with d by lia.
  zcase; simpl; try done; f_equal; lia.
Qed.

Lemma pad_zero_spec m s n a :
  pad_zero m s n a = if (s <=? a) && (a <? s + Z.of_nat n) then 0 else m a.
Proof.
  revert m s. induction n as [|n IH]; intros m s; simpl pad_zero.
  - zsolve.
  - rewrite IH. unfold upd. zsolve.
Qed.

Lemma load_ext m m' p n :
  (forall a, p <= a < p + Z.of_nat n -> m a = m' a) -> load m p n = load m' p n.
Proof.
  revert p. induction n as [|n IH]; intros p H; [done|].
  simpl. f_equal; [apply H; lia|]. apply IH. intros a Ha. apply H. lia.
Qed.

Lemma load_zero m p n :
  (forall a, p <= a < p + Z.of_nat n -> m a = 0) -> load m p n = replicate n 0.
Proof.
  revert p. induction n as [|n IH]; intros p H; [done|].
  simpl. f_equal; [apply H; lia|]. apply IH. intros a Ha. apply H. lia.
Qed.

Lemma cstr_ext m m' p s :
  (forall a, p <= a <= p + Z.of_nat (length s) -> m a = m' a) ->
  cstr m p s -> cstr m' p s.
Proof.
  revert p. induction s as [|c s IH]; intros p H; simpl.
  - intros <-. symmetry. apply H. simpl. lia.
  - intros (<- & Hc & Hs). repeat split; [symmetry; apply H; simpl; lia|done|].
    apply IH; [|done]. intros a Ha. apply H. simpl. lia.
Qed.

(** [strncpy] writes exactly the [n] bytes from [s]. *)
Lemma strncpy_frame m s t n a :
  a < s \/ s + Z.of_nat n <= a -> strncpy m s t n a = m a.
Proof.
  revert m s t. induction n as [|n IH]; intros m s t H; simpl; [done|].
  unfold c_true. destruct (Z.eqb_spec (m t) 0); simpl.
  - rewrite pad_zero_spec, upd_ne by lia. zsolve.
  - rewrite IH, upd_ne by lia. done.
Qed.

Lemma strncpy_load m s t n str :
  cstr m t str ->
  t + Z.of_nat (length str) < s \/ s + Z.of_nat n <= t ->
  load (strncpy m s t n) s n = take n str ++ replicate (n - length str) 0.
Proof.
  revert m s t str. induction n as [|n IH]; intros m s t str Hs Hd; [done|].
  destruct str as [|c str]; simpl in Hs.
  - cbn [strncpy load]. rewrite Hs. cbn. f_equal.
    + by rewrite pad_zero_spec, upd_eq; zsolve.
    + apply load_zero. intros a Ha. rewrite pad_zero_spec. zsolve.
  - destruct Hs as (Hc & Hc0 & Hs). cbn [strncpy load]. rewrite Hc.
    unfold c_true. destruct (Z.eqb_spec c 0) as [?|_]; [done|]. cbn. f_equal.
    + rewrite strncpy_frame by lia. apply upd_eq.
    + apply IH; [|simpl in Hd; lia].
      apply (cstr_ext m); [|done]. intros a Ha. simpl in Hd.
      rewrite upd_ne; [done|lia].
Qed.

Lemma safe_loop_frame m s t n a :
  a < s \/ s + Z.of_nat n <= a -> fst (safe_loop m s t n) a = m a.
Proof.
  revert m s t. induction n as [|n IH]; intros m s t H; simpl; [done|].
  unfold c_true. destruct (Z.eqb_spec (m t) 0); simpl.
  - by rewrite upd_ne by lia.
  - rewrite IH, upd_ne by lia. done.
Qed.

Lemma safestrcpy_cstr m s t n str :
  cstr m t str ->
  t + Z.of_nat (length str) < s \/ s + Z.of_nat n < t ->
  let r := safe_loop m s t n in
  s <= snd r <= s + Z.of_nat n /\ cstr (upd (fst r) (snd r) 0) s (take n str).
Proof.
  revert m s t str. induction n as [|n IH]; intros m s t str Hs Hd; cbn.
  { split; [lia|]. apply upd_eq. }
  destruct str as [|c str]; simpl in Hs.
  - rewrite Hs. cbn. split; [lia|]. rewrite upd_ne by lia. apply upd_eq.
  - destruct Hs as (Hc & Hc0 & Hs). rewrite Hc.
    unfold c_true. destruct (Z.eqb_spec c 0) as [?|_]; [done|]. cbn.
    simpl in Hd.
    destruct (IH (upd m s c) (s + 1) (t + 1) str) as [Hr1 Hr2]; [|lia|].
    { apply (cstr_ext m); [|done]. intros a Ha. rewrite upd_ne; [done|lia]. }
    split; [lia|]. repeat split; [|done|done].
    rewrite upd_ne by lia. rewrite safe_loop_frame by lia. apply upd_eq.
Qed.

Lemma strncmp_cstr m p q n s1 s2 :
  cstr m p s1 -> cstr m q s2 ->
  Forall (fun c => 0 <= c < 256) s1 -> Forall (fun c => 0 <= c < 256) s2 ->
  strncmp m p q n = 0 <-> take n s1 = take n s2.
Proof.
  revert p q s1 s2. induction n as [|n IH]; intros p q s1 s2 H1 H2 B1 B2; [done|].
  assert (forall c, 0 <= c < 256 -> u8 c = c) as Hu by (intros; apply wrap_small; lia).
  destruct s1 as [|c1 s1], s2 as [|c2 s2]; simpl in H1, H2; cbn [strncmp take].
  - rewrite H1, H2. done.
  - destruct H2 as (H2 & Hc & _). rewrite H1, H2. inversion B2; subst.
    cbn [c_true Z.eqb negb andb]. rewrite Hu by lia. rewrite Hu by lia.
    split; [lia|done].
  - destruct H1 as (H1 & Hc & _). rewrite H1, H2. inversion B1; subst.
    unfold c_true. destruct (Z.eqb_spec (m p) 0); [done|]. cbn [negb andb].
    rewrite !Hu by lia. split; [lia|done].
  - destruct H1 as (H1 & Hc1 & H1'), H2 as (H2 & Hc2 & H2').
    rewrite H1, H2. inversion B1; inversion B2; subst.
    unfold c_true. destruct (Z.eqb_spec (m p) 0); [done|].
    destruct (Z.eqb_spec (m p) (m q)) as [E|E]; cbn [negb andb].
    + rewrite (IH (p + 1) (q + 1) s1 s2) by done. rewrite E. split; [by intros ->|].
      intros [= ?]. done.
    + rewrite !Hu by lia. split; [lia|]. intros [=]. done.
Qed.

Lemma strlen_loop_cstr m s n str fuel :
  cstr m (s + n) str -> (length str < fuel)%nat ->
  strlen_loop fuel m s n = Some (n + Z.of_nat (length str)).
Proof.
  revert n fuel. induction str as [|c str IH]; intros n [|fuel] H Hf;
    try (simpl in Hf; lia); simpl in *.
  - rewrite H. cbn. f_equal; lia.
  - destruct H as (-> & Hc & H). unfold c_true.
    destruct (Z.eqb_spec c 0); [done|]. cbn.
    rewrite IH; [f_equal; lia| |lia]. by rewrite Z.add_assoc.
Qed.

(** ** Properties *)

(** Both [memmove] routines, the kernel's and the user library's, move the
    [n] source bytes as they were before the call, for every overlap of source
    and destination, and change no byte outside the destination. *)
Theorem memmove_correct m dst src n :
  moved m dst src n (KString.memmove m dst src n) /\
  moved m dst src n (ULib.memmove m dst src n).
Proof.
  split.
  - destruct n as [|n]; [intros a; simpl; zsolve|].
    unfold KString.memmove.
    destruct (Z.ltb_spec src dst), (Z.ltb_spec dst (src + Z.of_nat (S n))); simpl andb;
      first [apply copy_backward_moved | apply copy_forward_moved]; lia.
  - unfold ULib.memmove. destruct (Z.ltb_spec dst src);
      first [apply copy_forward_moved | apply copy_backward_moved]; lia.
Qed.

(** C2: [strncpy(s, t, n)], for a string [t] that does not overlap the
    destination, leaves in the [n] bytes at [s] the first [n] characters of the
    string padded with NULs to exactly [n], and [safestrcpy(s, t, n+1)] leaves a
    NUL-terminated string, the first [n] characters of [t], and neither writes
    outside its buffer. *)
Theorem string_copies m s t n str
    (Ht : cstr m t str)
    (Hd : t + Z.of_nat (length str) < s \/ s + Z.of_nat n < t) :
  load (KString.strncpy m s t n) s n = take n str ++ replicate (n - length str) 0 /\
  cstr (KString.safestrcpy m s t (S n)) s (take n str) /\
  (forall a, a < s \/ s + Z.of_nat n <= a -> KString.strncpy m s t n a = m a) /\
  (forall a, a < s \/ s + Z.of_nat n < a -> KString.safestrcpy m s t (S n) a = m a).
Proof.
  destruct (safestrcpy_cstr m s t n str Ht Hd) as [Hr Hc].
  unfold safestrcpy. destruct (safe_loop m s t n) as [m' s'] eqn:E; simpl in *.
  split; [apply strncpy_load; [done|lia]|]. split; [done|].
  split; [apply strncpy_frame|]. intros a Ha.
  rewrite upd_ne by lia.
  transitivity (fst (safe_loop m s t n) a); [by rewrite E|].
  apply safe_loop_frame. lia.
Qed.

(** C3: [strncmp(p, q, n)] is 0 exactly when the two strings agree on their
    first [n] characters (so [namecmp] compares directory names up to [DIRSIZ]),
    and [strlen] returns the length of the string. *)
Theorem string_compare m p q n s1 s2 fuel
    (H1 : cstr m p s1) (H2 : cstr m q s2)
    (B1 : Forall (fun c => 0 <= c < 256) s1) (B2 : Forall (fun c => 0 <= c < 256) s2)
    (Hf : (length s1 < fuel)%nat) :
  (KString.strncmp m p q n = 0 <-> take n s1 = take n s2) /\
  KString.strlen fuel m p = Some (Z.of_nat (length s1)).
Proof.
  split; [by apply strncmp_cstr|].
  unfold strlen. rewrite (strlen_loop_cstr m p 0 s1); [f_equal; lia| |done].
  by rewrite Z.add_0_r.
Qed.

(** ** Witnesses *)

(** "ab" at 100, "abc" at 200. *)
Definition wmem : mem := fun a =>
  if a =? 100 then 97 else if a =? 101 then 98 else
  if a =? 200 then 97 else if a =? 201 then 98 else if a =? 202 then 99 else 0.

Lemma string_copies_witness :
  load (KString.strncpy wmem 300 200 5) 300 5 = [97; 98; 99; 0; 0] /\
  load (KString.strncpy wmem 300 200 2) 300 2 = [97; 98].
Proof.
  split.
  - apply (string_copies wmem 300 200 5 [97; 98; 99]);
      [repeat split; done | simpl; lia].
  - apply (string_copies wmem 300 200 2 [97; 98; 99]);
      [repeat split; done | simpl; lia].
Defined.

Lemma string_compare_witness :
  KString.strncmp wmem 100 200 2 = 0 /\ KString.strncmp wmem 100 200 3 <> 0.
Proof.
  split.
  - apply (string_compare wmem 100 200 2 [97; 98] [97; 98; 99] 3);
      [repeat split; done | repeat split; done
      | forall_lia | forall_lia | simpl; lia | reflexivity].
  - vm_compute. discriminate.
Defined.
