(* ===== verification/ShLexer.v ===== *)
(** * The shell's tokenizer: [c-shell/src/lexer.c]

    The lexer is a five-state machine over the characters of one line.  Its
    word buffer is [char buffer\[4096\]] with no bounds check, so a write at
    index 4096 or beyond is the outcome [Overflow].  The position
    [line\[curr_char\]] is the suffix of the line still to be read; reading at
    the end of the suffix, or a NUL in it, is the end of the line. *)

From S2P Require Import Prelude.

(** ** Data *)

(** [enum TokenType] of [token.h]. *)
Inductive TokenType :=
| OP_PIPE | OP_AMP | OP_SEMI | OP_LT | OP_LTLT | OP_GT | OP_GTGT | WORD.

#[export] Instance TokenType_eq_dec : EqDecision TokenType.
Proof. solve_decision. Defined.

(** [struct token]; the list of tokens is the [next_token] chain. *)
Record token := mkToken { content : list Z; type : TokenType }.

Inductive lexer_states := START | IN_WORD | IN_DQUOTE | IN_SQUOTE | AFTER_ESCAPE.

(** The locals of [lexer]: [curr_state], the unread suffix, the used part of
    [buffer] (so [buf_idx] is its length), and the token list built so far. *)
Record lexst := mkLex {
  curr_state : lexer_states;
  rest : list Z;
  buffer : list Z;
  toks : list token
}.

(** [char buffer\[4096\]] *)
Definition BUFSZ : nat := 4096%nat.

(** Outcome of one iteration of [while (1)]. *)
Inductive lexstep :=
| Next (s : lexst)
| Break (s : lexst) (ok : bool)
| Overflow.

Inductive lexres :=
| Lexed (ts : list token) (ok : bool)
| LexOverflow
| LexFuel.

(** ** Operations *)

(** [line\[curr_char\]] and [line\[curr_char + 1\]]. *)
Definition cur (s : list Z) : Z := match s with [] => 0 | c :: _ => c end.

Definition append_token (ts : list token) (content : list Z) (ty : TokenType) : list token :=
  ts ++ [mkToken content ty].

(** [buffer\[buf_idx++\] = c;] *)
Definition push (b : list Z) (c : Z) : option (list Z) :=
  if (length b <? BUFSZ)%nat then Some (b ++ [c]) else None.

(** [buffer\[buf_idx\] = '\0'; append_token(..., strdup(buffer), WORD);] *)
Definition emit_word (s : lexst) : option (list token) :=
  if (length (buffer s) <? BUFSZ)%nat
  then Some (append_token (toks s) (buffer s) WORD) else None.

Definition is_space4 (c : Z) : bool :=
  (c =? chSPACE) || (c =? chTAB) || (c =? chNL) || (c =? chCR).

(** The characters that end a word in [IN_WORD]. *)
Definition ends_word (c : Z) : bool :=
  (c =? chNUL) || (c =? chSPACE) || (c =? chTAB) || (c =? chNL) ||
  (c =? chPIPE) || (c =? chAMP) || (c =? chSEMI) || (c =? chLT) || (c =? chGT).

Definition goto (s : lexst) (st : lexer_states) (r : list Z) : lexstep :=
  Next (mkLex st r (buffer s) (toks s)).

Definition emit_op (s : lexst) (txt : list Z) (ty : TokenType) (r : list Z) : lexstep :=
  Next (mkLex (curr_state s) r (buffer s) (append_token (toks s) txt ty)).

(** Store [c], continue in state [st] at [r]. *)
Definition store (s : lexst) (c : Z) (st : lexer_states) (r : list Z) : lexstep :=
  match push (buffer s) c with
  | Some b => Next (mkLex st r b (toks s))
  | None => Overflow
  end.

Definition step_START (s : lexst) : lexstep :=
  match rest s with
  | [] => Break s true
  | c :: r =>
    if c =? chNUL then Break s true
    else if is_space4 c then goto s START r
    else if c =? chPIPE then emit_op s [chPIPE] OP_PIPE r
    else if c =? chAMP then emit_op s [chAMP] OP_AMP r
    else if c =? chSEMI then emit_op s [chSEMI] OP_SEMI r
    else if c =? chLT then
      if cur r =? chLT then emit_op s [chLT; chLT] OP_LTLT (tail r)
      else emit_op s [chLT] OP_LT r
    else if c =? chGT then
      if cur r =? chGT then emit_op s [chGT; chGT] OP_GTGT (tail r)
      else emit_op s [chGT] OP_GT r
    else if c =? chDQUOTE then goto s IN_DQUOTE r
    else if c =? chSQUOTE then goto s IN_SQUOTE r
    else if c =? chBSLASH then goto s AFTER_ESCAPE r
    else store s c IN_WORD r
  end.

Definition step_IN_WORD (s : lexst) : lexstep :=
  let c := cur (rest s) in
  if ends_word c then
    match emit_word s with
    | Some ts => Next (mkLex START (rest s) [] ts)
    | None => Overflow
    end
  else if c =? chDQUOTE then goto s IN_DQUOTE (tail (rest s))
  else if c =? chSQUOTE then goto s IN_SQUOTE (tail (rest s))
  else if c =? chBSLASH then goto s AFTER_ESCAPE (tail (rest s))
  else store s c IN_WORD (tail (rest s)).

Definition step_IN_DQUOTE (s : lexst) : lexstep :=
  match rest s with
  | [] => Break s false
  | c :: r =>
    if c =? chNUL then Break s false
    else if c =? chDQUOTE then goto s IN_WORD r
    else if c =? chBSLASH then
      let next_char := cur r in
      if (next_char =? chDQUOTE) || (next_char =? chBSLASH)
      then store s next_char IN_DQUOTE (tail r)
      else if next_char =? chNUL then Break s false
      else match push (buffer s) chBSLASH with
           | Some b => match push b next_char with
                       | Some b' => Next (mkLex IN_DQUOTE (tail r) b' (toks s))
                       | None => Overflow
                       end
           | None => Overflow
           end
    else store s c IN_DQUOTE r
  end.

Definition step_IN_SQUOTE (s : lexst) : lexstep :=
  match rest s with
  | [] => Break s false
  | c :: r => if c =? chNUL then Break s false
              else if c =? chSQUOTE then goto s IN_WORD r else store s c IN_SQUOTE r
  end.

Definition step_AFTER_ESCAPE (s : lexst) : lexstep :=
  match rest s with
  | [] => Break s false
  | c :: r => if c =? chNUL then Break s false else store s c IN_WORD r
  end.

Definition lexer_step (s : lexst) : lexstep :=
  match curr_state s with
  | START => step_START s
  | IN_WORD => step_IN_WORD s
  | IN_DQUOTE => step_IN_DQUOTE s
  | IN_SQUOTE => step_IN_SQUOTE s
  | AFTER_ESCAPE => step_AFTER_ESCAPE s
  end.

(** The code after the loop. *)
Definition lexer_exit (s : lexst) (ok : bool) : lexres :=
  match curr_state s with
  | IN_WORD =>
    if (0 <? length (buffer s))%nat
    then match emit_word s with
         | Some ts => Lexed ts ok
         | None => LexOverflow
         end
    else Lexed (toks s) ok
  | START => Lexed (toks s) ok
  | _ => Lexed (toks s) false
  end.

Fixpoint lexer_loop (fuel : nat) (s : lexst) : lexres :=
  match fuel with
  | O => LexFuel
  | S fuel' => match lexer_step s with
               | Next s' => lexer_loop fuel' s'
               | Break s' ok => lexer_exit s' ok
               | Overflow => LexOverflow
               end
  end.

Definition lex_init (line : list Z) : lexst := mkLex START line [] [].

(** Each character costs at most one iteration, and each word one more. *)
Definition lexer (line : list Z) : lexres :=
  lexer_loop (2 * length line + 2) (lex_init line).

Example lexer_ex :
  lexer (bytes "ls -l 'a b'>>o&") =
  Lexed [mkToken (bytes "ls") WORD; mkToken (bytes "-l") WORD;
         mkToken (bytes "a b") WORD; mkToken (bytes ">>") OP_GTGT;
         mkToken (bytes "o") WORD; mkToken (bytes "&") OP_AMP] true.
Proof. vm_compute. reflexivity. Qed.

(** ** Termination *)

Definition mu (s : lexst) : nat :=
  (2 * length (rest s) + match curr_state s with IN_WORD => 1 | _ => 0 end)%nat.

(** Unfold one iteration down to its tests and split them. *)
Ltac lex_step :=
  unfold lexer_step, step_START, step_IN_WORD, step_IN_DQUOTE, step_IN_SQUOTE,
    step_AFTER_ESCAPE, goto, emit_op, store, push, emit_word in *.

Ltac lex_cases :=
  repeat (case_match; simplify_eq/=).

Lemma tail_length {A} (l : list A) : (length (tail l) <= length l)%nat.
Proof. destruct l; simpl; lia. Qed.

Lemma cur_nonzero_tail (l : list Z) : cur l <> 0 -> length l = S (length (tail l)).
Proof. destruct l; simpl; [done|lia]. Qed.

Lemma ends_word_false c : ends_word c = false -> c <> 0.
Proof. intros H ->. done. Qed.

(** What an iteration may do to the unread suffix and the buffer. *)
Lemma lexer_step_inv s s' :
  lexer_step s = Next s' ->
  (mu s' < mu s)%nat /\
  (length (buffer s') + length (rest s') <= length (buffer s) + length (rest s))%nat.
Proof.
  destruct s as [st r b ts]. unfold mu.
  destruct st; lex_step; simpl; intros H.
  - destruct r as [|c r]; [done|].
    pose proof (tail_length r). lex_cases; rewrite ?length_app; simpl; lia.
  - destruct (ends_word (cur r)) eqn:E; [lex_cases; simpl; lia|].
    pose proof (cur_nonzero_tail r (ends_word_false _ E)).
    lex_cases; rewrite ?length_app; simpl; lia.
  - destruct r as [|c r]; [done|].
    pose proof (cur_nonzero_tail r). pose proof (tail_length r).
    lex_cases; rewrite ?length_app; simpl in *; try lia;
    repeat match goal with
    | H : (_ || _)%bool = true |- _ => apply orb_true_iff in H as [H|H]
    | H : (_ =? _) = true |- _ => apply Z.eqb_eq in H
    | H : (_ =? _) = false |- _ => apply Z.eqb_neq in H
    end; lia.
  - destruct r as [|c r]; [done|]. lex_cases; rewrite ?length_app; simpl; lia.
  - destruct r as [|c r]; [done|]. lex_cases; rewrite ?length_app; simpl; lia.
Qed.

(** Past [mu], fuel does not matter. *)
Lemma lexer_loop_enough f1 f2 s :
  (mu s < f1)%nat -> (mu s < f2)%nat -> lexer_loop f1 s = lexer_loop f2 s.
Proof.
  revert f2 s. induction f1 as [|f1 IH]; intros [|f2] s H1 H2; try lia.
  simpl. destruct (lexer_step s) as [s'| |] eqn:E; [|done|done].
  apply lexer_step_inv in E as [? _]. apply IH; lia.
Qed.

Lemma lexer_exit_not_fuel s ok : lexer_exit s ok <> LexFuel.
Proof. unfold lexer_exit. lex_cases; done. Qed.

Lemma lexer_loop_total f s : (mu s < f)%nat -> lexer_loop f s <> LexFuel.
Proof.
  revert s. induction f as [|f IH]; intros s H; [lia|]. simpl.
  destruct (lexer_step s) as [s'| |] eqn:E; [|apply lexer_exit_not_fuel|done].
  apply lexer_step_inv in E as [? _]. apply IH. lia.
Qed.

(** The result of running from [s] to completion. *)
Definition run (s : lexst) : lexres := lexer_loop (S (mu s)) s.
Arguments run : simpl never.

Lemma lexer_run line : lexer line = run (lex_init line).
Proof. apply lexer_loop_enough; unfold mu; simpl; lia. Qed.

Lemma run_step s s' : lexer_step s = Next s' -> run s = run s'.
Proof.
  intros E. unfold run at 1. simpl. rewrite E.
  apply lexer_step_inv in E as [? _]. apply lexer_loop_enough; lia.
Qed.

(** ** Buffer bound *)

Lemma push_fits b c : (length b < BUFSZ)%nat -> push b c = Some (b ++ [c]).
Proof. intros H. unfold push. by rewrite (proj2 (Nat.ltb_lt _ _) H). Qed.

Lemma lexer_step_fits s :
  (length (buffer s) + length (rest s) < BUFSZ)%nat -> lexer_step s <> Overflow.
Proof.
  destruct s as [st r b ts]. cbn [buffer rest]. intros H.
  assert ((length b <? BUFSZ)%nat = true) as Hb by (apply Nat.ltb_lt; lia).
  destruct st; lex_step; cbn [buffer rest curr_state toks]; rewrite ?Hb.
  - destruct r as [|c r]; [done|]. lex_cases; done.
  - lex_cases; done.
  - destruct r as [|c r]; [done|]. cbn [length] in H. rewrite ?length_app. cbn [length].
    pose proof (cur_nonzero_tail r).
    destruct (Z.eqb_spec c 0), (Z.eqb_spec c 34), (Z.eqb_spec c 92); try done.
    destruct (Z.eqb_spec (cur r) 34), (Z.eqb_spec (cur r) 92), (Z.eqb_spec (cur r) 0);
      cbn [orb]; try done.
    rewrite (proj2 (Nat.ltb_lt (length b + 1) BUFSZ)) by lia. done.
  - destruct r as [|c r]; [done|]. lex_cases; done.
  - destruct r as [|c r]; [done|]. lex_cases; done.
Qed.

Lemma lexer_exit_fits s ok :
  (length (buffer s) < BUFSZ)%nat -> lexer_exit s ok <> LexOverflow.
Proof.
  intros H. unfold lexer_exit, emit_word. rewrite (proj2 (Nat.ltb_lt _ _) H).
  lex_cases; done.
Qed.

Lemma lexer_step_break s s' ok : lexer_step s = Break s' ok -> s' = s.
Proof.
  destruct s as [st r b ts]; destruct st; lex_step; simpl; intros H;
    try (destruct r; [by simplify_eq|]); lex_cases; done.
Qed.

Lemma lexer_loop_fits f s :
  (length (buffer s) + length (rest s) < BUFSZ)%nat -> lexer_loop f s <> LexOverflow.
Proof.
  revert s. induction f as [|f IH]; intros s H; [done|]. simpl.
  pose proof (lexer_step_fits s H).
  destruct (lexer_step s) as [s'|s' ok|] eqn:E; [|..|done].
  - apply lexer_step_inv in E as [_ ?]. apply IH. lia.
  - apply lexer_step_break in E as ->. apply lexer_exit_fits. lia.
Qed.

(** ** Printing tokens back *)

(** Inside double quotes only the double quote and the backslash need escaping. *)
Definition esc (c : Z) : list Z :=
  if (c =? chDQUOTE) || (c =? chBSLASH) then [chBSLASH; c] else [c].

Definition quote (w : list Z) : list Z := chDQUOTE :: (w ≫= esc) ++ [chDQUOTE].

Definition op_text (ty : TokenType) : list Z :=
  match ty with
  | OP_PIPE => [chPIPE] | OP_AMP => [chAMP] | OP_SEMI => [chSEMI]
  | OP_LT => [chLT] | OP_LTLT => [chLT; chLT]
  | OP_GT => [chGT] | OP_GTGT => [chGT; chGT]
  | WORD => []
  end.

Definition print_token (t : token) : list Z :=
  match type t with WORD => quote (content t) | ty => op_text ty end.

Definition print_tokens (ts : list token) : list Z :=
  ts ≫= fun t => print_token t ++ [chSPACE].

(** Tokens the lexer can produce: operators carry their spelling, words any
    non-NUL bytes that fit the buffer. *)
Definition wf_token (t : token) : Prop :=
  match type t with
  | WORD => (length (content t) < BUFSZ)%nat /\ Forall (fun c => c <> 0) (content t)
  | ty => content t = op_text ty
  end.

Lemma run_dquote w b r ts :
  Forall (fun c => c <> 0) w ->
  (length b + length w <= BUFSZ)%nat ->
  run (mkLex IN_DQUOTE ((w ≫= esc) ++ chDQUOTE :: r) b ts) =
  run (mkLex IN_WORD r (b ++ w) ts).
Proof.
  revert b. induction w as [|c w IH]; intros b Hw Hl.
  - rewrite app_nil_r. by apply run_step.
  - inversion Hw as [|?? Hc Hw']; subst. cbn [length] in Hl.
    change ((c :: w) ≫= esc) with (esc c ++ (w ≫= esc)). rewrite <- app_assoc.
    replace (b ++ c :: w) with ((b ++ [c]) ++ w) by (by rewrite <- app_assoc).
    rewrite <- IH; [|done|rewrite length_app; cbn [length]; lia].
    apply run_step. unfold esc, lexer_step, step_IN_DQUOTE, store.
    cbn [curr_state rest buffer].
    destruct (decide (c = 34)) as [->|N1]; [cbn -[push]; by rewrite push_fits by lia|].
    destruct (decide (c = 92)) as [->|N2]; [cbn -[push]; by rewrite push_fits by lia|].
    apply Z.eqb_neq in N1, N2, Hc. rewrite N1, N2. cbn -[push]. rewrite Hc, N1, N2.
    by rewrite push_fits by lia.
Qed.

Lemma run_quoted_word w r ts :
  Forall (fun c => c <> 0) w -> (length w < BUFSZ)%nat ->
  run (mkLex START (quote w ++ chSPACE :: r) [] ts) =
  run (mkLex START r [] (ts ++ [mkToken w WORD])).
Proof.
  intros Hw Hl. unfold quote. cbn [app]. rewrite <- app_assoc.
  transitivity (run (mkLex IN_DQUOTE ((w ≫= esc) ++ [chDQUOTE] ++ chSPACE :: r) [] ts)).
  { by apply run_step. }
  cbn [app]. rewrite run_dquote; [|done|simpl; lia]. cbn [app].
  transitivity (run (mkLex START (chSPACE :: r) [] (ts ++ [mkToken w WORD]))).
  { apply run_step. unfold lexer_step, step_IN_WORD, emit_word. cbn -[Nat.ltb BUFSZ].
    by rewrite (proj2 (Nat.ltb_lt _ _) Hl). }
  by apply run_step.
Qed.

Lemma run_printed_token t r ts :
  wf_token t ->
  run (mkLex START (print_token t ++ chSPACE :: r) [] ts) =
  run (mkLex START r [] (ts ++ [t])).
Proof.
  destruct t as [w ty]. unfold wf_token, print_token. cbn.
  destruct ty; [intros ->; cbn ..|intros [? ?]; by apply run_quoted_word].
  all: etransitivity; [by apply run_step|by apply run_step].
Qed.

Lemma run_printed us ts :
  Forall wf_token us ->
  run (mkLex START (print_tokens us) [] ts) = Lexed (ts ++ us) true.
Proof.
  revert ts. induction us as [|u us IH]; intros ts Hw.
  - by rewrite app_nil_r.
  - inversion Hw; subst.
    change (print_tokens (u :: us)) with ((print_token u ++ [chSPACE]) ++ print_tokens us).
    rewrite <- app_assoc. cbn [app].
    rewrite run_printed_token, IH by done. by rewrite <- app_assoc.
Qed.

(** ** Properties *)

(** C39: [lexer] terminates on every line, whatever its length and bytes, within
    two iterations per character and two more: it returns a token list, or it
    has written past its 4096-byte word buffer, which happens only for lines of
    at least 4096 bytes; more iterations would change nothing. *)
Theorem lexer_total_safe line fuel :
  (2 * length line + 2 <= fuel)%nat ->
  lexer_loop fuel (lex_init line) = lexer line /\
  ((exists ts ok, lexer line = Lexed ts ok) \/ (lexer line = LexOverflow /\ (BUFSZ <= length line)%nat)).
Proof.
  intros Hf. split; [apply lexer_loop_enough; unfold mu; simpl; lia|].
  pose proof (lexer_loop_total (2 * length line + 2) (lex_init line)) as Ht.
  pose proof (lexer_loop_fits (2 * length line + 2) (lex_init line)) as Hl.
  unfold lexer. destruct (lexer_loop (2 * length line + 2) _) as [ts ok| |]; [by eauto|right|exfalso].
  - split; [done|]. destruct (Nat.lt_ge_cases (length line) BUFSZ); [|done].
    exfalso. apply Hl; [cbn [buffer rest lex_init length]; lia|done].
  - apply Ht; [unfold mu; simpl; lia|done].
Qed.

(** C23: tokenizing the quoted spelling of a token list gives the list back:
    words with any non-NUL bytes, quotes, backslashes, blanks and operator
    characters included, come back unchanged and in order. *)
Theorem lexer_roundtrip us (Hw : Forall wf_token us) :
  lexer (print_tokens us) = Lexed us true.
Proof. rewrite lexer_run. by apply run_printed. Qed.

(** The word buffer is not bounds-checked: a word of 4096 characters makes
    [lexer] write past the end of [buffer]. *)
Theorem lexer_overflows : lexer (replicate 4096 97) = LexOverflow.
Proof. vm_compute. reflexivity. Qed.

(** ** Witnesses *)

Lemma lexer_total_safe_witness :
  lexer_loop 100 (lex_init (bytes "cat < f | wc")) = lexer (bytes "cat < f | wc") /\
  exists ts ok, lexer (bytes "cat < f | wc") = Lexed ts ok.
Proof.
  destruct (lexer_total_safe (bytes "cat < f | wc") 100) as [H1 [H2|[_ H2]]]; [apply Nat.leb_le; reflexivity|..].
  - split; [exact H1|exact H2].
  - apply Nat.leb_le in H2. vm_compute in H2. discriminate.
Defined.

Lemma lexer_roundtrip_witness :
  let us := [mkToken (bytes "echo") WORD; mkToken [34; 92; 32; 124] WORD;
             mkToken [62; 62] OP_GTGT; mkToken [] WORD] in
  lexer (print_tokens us) = Lexed us true.
Proof.
  apply lexer_roundtrip.
  repeat (constructor;
    [first [reflexivity
           |split; [apply Nat.ltb_lt; reflexivity
                   |repeat (constructor; [discriminate|]); constructor]]|]).
  constructor.
Defined.
