(* ===== verification/ShParser.v ===== *)
(** * The shell's syntax check: [c-shell/src/parser.c]

    [parser] is a finite automaton over token types.  The grammar below is the
    independent specification: a command line is a sequence of simple commands
    separated by [|], [;] or [&], each a word followed by words and
    redirections, with an optional final [&]. *)

From S2P Require Import Prelude ShLexer.

(** ** The automaton *)

Inductive parser_states := q_start | q_arg | q_cmd | q_tgt | q_bg | q_error.

(** The body of the [while] loop: the next state for one token. *)
Definition parser_step (q : parser_states) (ty : TokenType) : parser_states :=
  match q with
  | q_start => match ty with WORD => q_arg | _ => q_error end
  | q_arg => match ty with
             | WORD => q_arg
             | OP_LT | OP_GT | OP_GTGT | OP_LTLT => q_tgt
             | OP_PIPE | OP_SEMI => q_cmd
             | OP_AMP => q_bg
             end
  | q_cmd => match ty with WORD => q_arg | _ => q_error end
  | q_tgt => match ty with WORD => q_arg | _ => q_error end
  | q_bg => match ty with WORD => q_arg | _ => q_error end
  | q_error => q_error
  end.

(** [while (head != NULL)], with its [break] on [q_error]. *)
Fixpoint parser_loop (q : parser_states) (head : list token) : parser_states :=
  match head with
  | [] => q
  | t :: next => match parser_step q (type t) with
                 | q_error => q_error
                 | q' => parser_loop q' next
                 end
  end.

Definition parser (head : list token) : Z :=
  match parser_loop q_start head with
  | q_error | q_cmd | q_tgt => 1
  | _ => 0
  end.

(** ** The grammar *)

Definition is_redir (ty : TokenType) : bool :=
  match ty with OP_LT | OP_GT | OP_GTGT | OP_LTLT => true | _ => false end.

Definition is_sep (ty : TokenType) : bool :=
  match ty with OP_PIPE | OP_SEMI | OP_AMP => true | _ => false end.

Inductive simple_cmd : list TokenType -> Prop :=
| simple_word : simple_cmd [WORD]
| simple_arg l : simple_cmd l -> simple_cmd (l ++ [WORD])
| simple_redir l r : simple_cmd l -> is_redir r = true -> simple_cmd (l ++ [r; WORD]).

Inductive cmd_list : list TokenType -> Prop :=
| list_one l : simple_cmd l -> cmd_list l
| list_sep l o r : cmd_list l -> is_sep o = true -> simple_cmd r ->
    cmd_list (l ++ o :: r).

Inductive cmd_line : list TokenType -> Prop :=
| line_empty : cmd_line []
| line_fg l : cmd_list l -> cmd_line l
| line_bg l : cmd_list l -> cmd_line (l ++ [OP_AMP]).

(** ** The automaton without its early exit *)

Definition run_types (q : parser_states) (l : list TokenType) : parser_states :=
  foldl parser_step q l.

Lemma run_types_error l : run_types q_error l = q_error.
Proof. induction l as [|ty l IH]; [done|]. apply IH. Qed.

Lemma parser_loop_run q ts : parser_loop q ts = run_types q (type <$> ts).
Proof.
  revert q. induction ts as [|t ts IH]; intros q; [done|].
  change (run_types q (type <$> t :: ts))
    with (run_types (parser_step q (type t)) (type <$> ts)).
  simpl. destruct (parser_step q (type t)) eqn:E; rewrite ?run_types_error; auto.
Qed.

Lemma run_types_snoc q l ty : run_types q (l ++ [ty]) = parser_step (run_types q l) ty.
Proof. unfold run_types. by rewrite foldl_app. Qed.

(** Words are accepted in [q_start] exactly as after a separator. *)
Definition fresh (q : parser_states) : bool :=
  match q with q_start | q_cmd | q_bg => true | _ => false end.

Lemma simple_run q l : simple_cmd l -> fresh q = true -> run_types q l = q_arg.
Proof.
  intros H Hq. induction H as [|l H IH|l r H IH Hr].
  - by destruct q.
  - by rewrite run_types_snoc, IH.
  - replace (l ++ [r; WORD]) with ((l ++ [r]) ++ [WORD]) by (by rewrite <- app_assoc).
    rewrite !run_types_snoc, IH. by destruct r.
Qed.

Lemma list_run l : cmd_list l -> run_types q_start l = q_arg.
Proof.
  induction 1 as [l H|l o r H IH Ho Hr]; [by apply simple_run|].
  change (l ++ o :: r) with (l ++ [o] ++ r). rewrite app_assoc.
  unfold run_types. rewrite foldl_app.
  fold (run_types q_start (l ++ [o])). rewrite run_types_snoc, IH.
  apply simple_run; [done|]. by destruct o.
Qed.

(** What each state says about the tokens read so far. *)
Definition read_so_far (q : parser_states) (l : list TokenType) : Prop :=
  match q with
  | q_start => l = []
  | q_arg => cmd_list l
  | q_cmd => exists l' o, l = l' ++ [o] /\ cmd_list l' /\ (o = OP_PIPE \/ o = OP_SEMI)
  | q_bg => exists l', l = l' ++ [OP_AMP] /\ cmd_list l'
  | q_tgt => exists l' r, l = l' ++ [r] /\ cmd_list l' /\ is_redir r = true
  | q_error => True
  end.

Lemma cmd_list_arg l : cmd_list l -> cmd_list (l ++ [WORD]).
Proof.
  destruct 1 as [l H|l o r H Ho Hr]; [by do 2 constructor|].
  rewrite <- app_assoc. cbn. apply list_sep; [done..|]. by constructor.
Qed.

Lemma cmd_list_redir l r : cmd_list l -> is_redir r = true -> cmd_list (l ++ [r; WORD]).
Proof.
  destruct 1 as [l H|l o c H Ho Hc]; intros Hr; [by do 2 constructor|].
  rewrite <- app_assoc. cbn. apply list_sep; [done..|]. by constructor.
Qed.

Lemma read_so_far_run l : read_so_far (run_types q_start l) l.
Proof.
  induction l as [|ty l IH] using rev_ind; [done|].
  rewrite run_types_snoc. destruct (run_types q_start l) eqn:E; simpl in IH.
  - subst l. destruct ty; try done. by do 2 constructor.
  - destruct ty; cbn; try by eauto 6. by apply cmd_list_arg.
  - destruct IH as (l' & o & -> & Hl & Ho). destruct ty; try done. cbn.
    rewrite <- app_assoc. cbn. apply list_sep; [done| |constructor].
    by destruct Ho as [->| ->].
  - destruct IH as (l' & r & -> & Hl & Hr). destruct ty; try done. cbn.
    rewrite <- app_assoc. cbn. by apply cmd_list_redir.
  - destruct IH as (l' & -> & Hl). destruct ty; try done. cbn.
    rewrite <- app_assoc. cbn. apply list_sep; [done..|constructor].
  - done.
Qed.

(** ** Properties *)

(** C22: [parser] accepts (returns 0 on) exactly the token lists of the command
    line grammar. *)
Theorem parser_grammar ts : parser ts = 0 <-> cmd_line (type <$> ts).
Proof.
  unfold parser. rewrite parser_loop_run.
  pose proof (read_so_far_run (type <$> ts)) as R.
  set (l := type <$> ts) in *. clearbody l.
  split.
  - destruct (run_types q_start l); simpl in R; try done; intros _.
    + subst. constructor.
    + by apply line_fg.
    + destruct R as (l' & -> & H). by apply line_bg.
  - destruct 1 as [|l H|l H]; [done|by rewrite list_run|].
    by rewrite run_types_snoc, list_run.
Qed.
