(* ===== verification/Peek.v ===== *)
(** * The pager built-in: [c-shell/src/peek.c]

    [peek] prints files forwards or (with [-r]) last line first, optionally
    numbering the non-blank lines.  A reversed file is read backwards in
    [CHUNK_SIZE] blocks and its lines are reassembled across block boundaries;
    the model keeps that algorithm and the block size is a parameter of the
    loop, so that the theorem covers every block size, 4096 included.

    The host file system is an argument of the model: what [stat], [fopen] and
    [open] say of a path. *)

From S2P Require Import Prelude.
From stdpp Require Import pretty.
Local Open Scope Z_scope.

(** ** Host environment *)

(** What a path names: a directory, or a file with its bytes, which may not be
    readable. *)
Inductive node := NDir | NFile (readable : bool) (data : list Z).

Definition hostfs : Type := list Z -> option node.

(** [printf("%d")] *)
Definition dec (n : Z) : list Z := bytes (pretty n).

(** The C string at the start of a byte buffer: the bytes before the first NUL. *)
Fixpoint c_str (l : list Z) : list Z :=
  match l with
  | [] => []
  | c :: l' => if c =? 0 then [] else c :: c_str l'
  end.

(** [getline] until end of file: each line keeps its newline, the last may lack
    one. *)
Fixpoint getlines_from (acc l : list Z) : list (list Z) :=
  match l with
  | [] => match acc with [] => [] | _ => [acc] end
  | c :: l' => if c =? chNL then (acc ++ [c]) :: getlines_from [] l'
               else getlines_from (acc ++ [c]) l'
  end.
Definition getlines (l : list Z) : list (list Z) := getlines_from [] l.

(** The effects of [peek]: bytes on standard output, messages on standard error,
    the unread standard input and [global_line_num]. *)
Record pst := mkPst {
  out : list Z;
  err : list string;
  inp : list Z;
  global_line_num : Z
}.

(** ** Operations *)

Definition CHUNK_SIZE : nat := 4096%nat.

(** [is_not_empty(line)]; stops at NUL. *)
Fixpoint is_not_empty (line : list Z) : bool :=
  match line with
  | [] => false
  | c :: l => if c =? 0 then false
              else if negb (c =? chSPACE) && negb (c =? chTAB) &&
                      negb (c =? chNL) && negb (c =? chCR) then true
              else is_not_empty l
  end.

(** [printf("%d %s", n, line)] or [printf("%s", line)]: the bytes, and whether
    the number was used. *)
Definition show_line (number_lines : bool) (n : Z) (line : list Z) : list Z * bool :=
  if number_lines && is_not_empty line then (dec n ++ [chSPACE] ++ c_str line, true)
  else (c_str line, false).

(** [if (line\[strlen(line) - 1\] != '\n') printf("\n");]; a line that starts
    with NUL reads before its buffer. *)
Definition close_line (line : list Z) : option (list Z) :=
  match last (c_str line) with
  | None => None
  | Some c => Some (if c =? chNL then [] else [chNL])
  end.

(** The option loop: [Some (number, reverse, files)], or the error message. *)
Fixpoint scan_flags (fl : list Z) (nr : bool * bool) : option (bool * bool) :=
  match fl with
  | [] => Some nr
  | c :: fl' => if c =? 110 then scan_flags fl' (true, snd nr)
                else if c =? 114 then scan_flags fl' (fst nr, true)
                else None
  end.

Fixpoint scan_args (args : list (list Z)) (nr : bool * bool) (files : list (list Z))
  : (bool * bool * list (list Z)) + string :=
  match args with
  | [] => inl (nr, files)
  | a :: args' =>
    match a with
    | c :: (_ :: _) as fl =>
      if c =? chMINUS then
        match scan_flags (tail a) nr with
        | Some nr' => scan_args args' nr' files
        | None => inr "peek: invalid syntax"%string
        end
      else if (length files <? 1024)%nat then scan_args args' nr (files ++ [a])
      else inr "peek: too many arguments"%string
    | _ => if (length files <? 1024)%nat then scan_args args' nr (files ++ [a])
           else inr "peek: too many arguments"%string
    end
  end.

(** The forward loop over the lines of [fp]. *)
Fixpoint print_forward (number_lines : bool) (lines : list (list Z)) (n : Z)
  : option (list Z * Z) :=
  match lines with
  | [] => Some ([], n)
  | line :: rest =>
    let '(o, used) := show_line number_lines n line in
    match close_line line with
    | None => None
    | Some nl =>
      match print_forward number_lines rest (if used then n + 1 else n) with
      | None => None
      | Some (o', n') => Some (o ++ nl ++ o', n')
      end
    end
  end.

(** Number of non-blank lines, as both reverse branches count them. *)
Definition count_non_empty (lines : list (list Z)) : Z :=
  Z.of_nat (length (filter (fun l => is_not_empty l = true) lines)).

(** The loop [for (j = count - 1; j >= 0; j--)] over the saved lines of
    standard input, given last line first. *)
Fixpoint print_backward (number_lines : bool) (rlines : list (list Z)) (cur : Z)
  : option (list Z) :=
  match rlines with
  | [] => Some []
  | line :: rest =>
    let '(o, used) := show_line number_lines cur line in
    match close_line line with
    | None => None
    | Some nl =>
      match print_backward number_lines rest (if used then cur - 1 else cur) with
      | None => None
      | Some o' => Some (o ++ nl ++ o')
      end
    end
  end.

(** State of the backward file scan. *)
Record rst := mkRst { leftover : list Z; current_line_num : Z; rout : list Z }.

(** Print [full_line] and adjust the number. *)
Definition put_full (number_lines : bool) (full : list Z) (s : rst) : Z * list Z :=
  let '(o, used) := show_line number_lines (current_line_num s) full in
  (if used then current_line_num s - 1 else current_line_num s, rout s ++ o).

(** The inner loop over a chunk from index [j - 1] down to 0. *)
Fixpoint scan_chunk (number_lines : bool) (chunk : list Z) (j segment_end : nat) (s : rst)
  : nat * rst :=
  match j with
  | O => (segment_end, s)
  | S j' =>
    if nth j' chunk 0 =? chNL then
      let seg := take (segment_end - (j' + 1)) (drop (j' + 1) chunk) in
      let full := seg ++ leftover s ++ [chNL] in
      let '(n, o) := put_full number_lines full s in
      scan_chunk number_lines chunk j' j' (mkRst [] n o)
    else scan_chunk number_lines chunk j' segment_end s
  end.

(** [while (pos > 0)]: one block per iteration, from the end of the file. *)
Fixpoint reverse_loop (fuel chunk_size : nat) (number_lines : bool) (data : list Z)
    (pos : nat) (s : rst) : option rst :=
  match fuel with
  | O => None
  | S fuel' =>
    if (0 <? pos)%nat then
      let read_size := if (pos <? chunk_size)%nat then pos else chunk_size in
      let pos' := (pos - read_size)%nat in
      let chunk := take read_size (drop pos' data) in
      let '(segment_end, s') := scan_chunk number_lines chunk read_size read_size s in
      let left := if (0 <? segment_end)%nat
                  then take segment_end chunk ++ leftover s' else leftover s' in
      reverse_loop fuel' chunk_size number_lines data pos'
        (mkRst left (current_line_num s') (rout s'))
    else Some s
  end.

(** The whole backward print of an open file, leftover first line included. *)
Definition reverse_file (chunk_size : nat) (number_lines : bool) (data : list Z) (cur : Z)
  : option (list Z) :=
  match reverse_loop (S (length data)) chunk_size number_lines data (length data)
          (mkRst [] cur []) with
  | None => None
  | Some s =>
    match leftover s with
    | [] => Some (rout s)
    | l => Some (snd (put_full number_lines (l ++ [chNL]) s))
    end
  end.

Definition add_err (s : pst) (e : string) : pst :=
  mkPst (out s) (err s ++ [e]) (inp s) (global_line_num s).

(** One iteration of the loop over the file names. *)
Definition peek_file (fs : hostfs) (number_lines reverse_lines : bool)
    (current_file : list Z) (s : pst) : option pst :=
  let is_stdin := bool_decide (current_file = [chMINUS]) in
  let nd := fs current_file in
  let bad := if is_stdin then None else
    match nd with
    | None => Some "peek: no such file or directory"%string
    | Some NDir => Some "peek: is a directory"%string
    | _ => None
    end in
  match bad with
  | Some e => Some (add_err s e)
  | None =>
    let src := if is_stdin then Some (inp s) else
      match nd with Some (NFile true d) => Some d | _ => None end in
    let inp' := if is_stdin then [] else inp s in
    if negb reverse_lines then
      match src with
      | None => Some (add_err s "peek: cannot open")
      | Some d =>
        match print_forward number_lines (getlines d) (global_line_num s) with
        | None => None
        | Some (o, n) => Some (mkPst (out s ++ o) (err s) inp' n)
        end
      end
    else if is_stdin then
      let lines := getlines (inp s) in
      let total := count_non_empty lines in
      match print_backward number_lines (rev lines) (global_line_num s + total - 1) with
      | None => None
      | Some o => Some (mkPst (out s ++ o) (err s) [] (global_line_num s + total))
      end
    else
      match src with
      | None => Some (add_err s "peek: cannot open")
      | Some d =>
        let total := count_non_empty (getlines d) in
        match reverse_file CHUNK_SIZE number_lines d (global_line_num s + total - 1) with
        | None => None
        | Some o => Some (mkPst (out s ++ o) (err s) (inp s) (global_line_num s + total))
        end
      end
  end.

Fixpoint peek_files (fs : hostfs) (number_lines reverse_lines : bool)
    (files : list (list Z)) (s : pst) : option pst :=
  match files with
  | [] => Some s
  | f :: rest => match peek_file fs number_lines reverse_lines f s with
                 | None => None
                 | Some s' => peek_files fs number_lines reverse_lines rest s'
                 end
  end.

(** [peek(argc, argv)], [argv\[0\]] included: the return code and the effects. *)
Definition peek (fs : hostfs) (stdin : list Z) (argv : list (list Z)) : option (Z * pst) :=
  match scan_args (tail argv) (false, false) [] with
  | inr e => Some (1, mkPst [] [e] stdin 1)
  | inl (nr, files) =>
    let files' := match files with [] => [[chMINUS]] | _ => files end in
    match peek_files fs (fst nr) (snd nr) files' (mkPst [] [] stdin 1) with
    | None => None
    | Some s => Some (0, s)
    end
  end.

(** ** Reference: the lines of a file *)

(** The pieces between newlines; never empty, the last one follows the last
    newline. *)
Fixpoint split_nl (l : list Z) : list (list Z) :=
  match l with
  | [] => [[]]
  | c :: l' => if c =? chNL then [] :: split_nl l'
               else match split_nl l' with
                    | p :: ps => (c :: p) :: ps
                    | [] => [[c]]
                    end
  end.

(** The printed form of lines [ps], numbered upwards from [n]. *)
Fixpoint numbered (b : bool) (n : Z) (ps : list (list Z)) : list (list Z) :=
  match ps with
  | [] => []
  | p :: ps' => let '(o, used) := show_line b n (p ++ [chNL]) in
                o :: numbered b (if used then n + 1 else n) ps'
  end.

(** The same lines printed in the given order, numbered downwards. *)
Fixpoint print_down (b : bool) (cur : Z) (ps : list (list Z)) : list Z * Z :=
  match ps with
  | [] => ([], cur)
  | p :: ps' => let '(o, used) := show_line b cur (p ++ [chNL]) in
                let '(o', cur') := print_down b (if used then cur - 1 else cur) ps' in
                (o ++ o', cur')
  end.

(** The line that backward printing leaves out: an empty first line. *)
Definition drop_first_empty (ps : list (list Z)) : list (list Z) :=
  match ps with [] :: ps' => ps' | _ => ps end.

(** The line that forward printing does not see: what follows a final newline. *)
Definition drop_last_empty (ps : list (list Z)) : list (list Z) :=
  match last ps with Some [] => removelast ps | _ => ps end.

(** ** Lemmas *)

Lemma split_nl_cons_inv l : exists p ps, split_nl l = p :: ps.
Proof.
  destruct l as [|c l]; simpl; [eauto|].
  case_match; [eauto|]. destruct (split_nl l); eauto.
Qed.

Lemma print_down_app b cur ps qs :
  print_down b cur (ps ++ qs) =
  let '(o, cur1) := print_down b cur ps in
  let '(o', cur2) := print_down b cur1 qs in (o ++ o', cur2).
Proof.
  revert cur. induction ps as [|p ps IH]; intros cur; simpl.
  - by destruct (print_down b cur qs).
  - destruct (show_line b cur (p ++ [10])) as [o used]. rewrite IH.
    destruct (print_down b _ ps) as [o1 c1]. destruct (print_down b c1 qs).
    by rewrite app_assoc.
Qed.

(** The invariant of the backward scan: [suf] is the part of the file already
    read, [pend] the bytes between the scan position and the segment end. *)
Definition scanned (b : bool) (cur0 : Z) (suf pend : list Z) (s : rst) : Prop :=
  exists qs, split_nl suf = (pend ++ leftover s) :: qs /\
             print_down b cur0 (rev qs) = (rout s, current_line_num s).

Lemma scanned_char b cur0 c suf pend s :
  c <> chNL -> scanned b cur0 suf pend s -> scanned b cur0 (c :: suf) (c :: pend) s.
Proof.
  intros Hc (qs & E & H). exists qs. split; [|done]. simpl. rewrite E.
  by rewrite (proj2 (Z.eqb_neq c 10)).
Qed.

Lemma scanned_newline b cur0 suf pend s :
  scanned b cur0 suf pend s ->
  let '(n, o) := put_full b (pend ++ leftover s ++ [chNL]) s in
  scanned b cur0 (chNL :: suf) [] (mkRst [] n o).
Proof.
  intros (qs & E & H). unfold put_full.
  destruct (show_line b (current_line_num s) _) as [o used] eqn:Es.
  exists ((pend ++ leftover s) :: qs). split; [simpl; by rewrite E|].
  simpl. rewrite print_down_app, H. simpl. rewrite <- app_assoc, Es.
  by rewrite app_nil_r.
Qed.

Lemma drop_S_nth (chunk : list Z) j :
  (j < length chunk)%nat -> drop j chunk = nth j chunk 0 :: drop (S j) chunk.
Proof.
  revert j. induction chunk as [|c chunk IH]; intros [|j] H; simpl in *;
    try lia; [done|]. apply IH. lia.
Qed.

Lemma scan_chunk_inv b cur0 chunk suf j se s se' s' :
  (j <= se <= length chunk)%nat ->
  scanned b cur0 (drop j chunk ++ suf) (take (se - j) (drop j chunk)) s ->
  scan_chunk b chunk j se s = (se', s') ->
  (se' <= length chunk)%nat /\ scanned b cur0 (chunk ++ suf) (take se' chunk) s'.
Proof.
  revert se s. induction j as [|j IH]; intros se s Hj H E; simpl in E.
  - simplify_eq. rewrite Nat.sub_0_r in H. split; [lia|done].
  - assert (drop j chunk = nth j chunk 0 :: drop (S j) chunk) as D
      by (apply drop_S_nth; lia).
    destruct (Z.eqb_spec (nth j chunk 0) 10) as [Hn|Hn].
    + pose proof (scanned_newline b cur0 _ _ s H) as N.
      replace (j + 1)%nat with (S j) in E by lia.
      destruct (put_full b _ s) as [n o]. eapply IH; [|..|exact E]; [lia|].
      rewrite D, Hn, Nat.sub_diag. exact N.
    + eapply IH; [|..|exact E]; [lia|]. rewrite D.
      replace (se - j)%nat with (S (se - S j)) by lia. simpl.
      by apply scanned_char.
Qed.

Lemma reverse_loop_inv fuel cs b data cur0 pos s :
  (0 < cs)%nat -> (pos < fuel)%nat -> (pos <= length data)%nat ->
  scanned b cur0 (drop pos data) [] s ->
  exists s', reverse_loop fuel cs b data pos s = Some s' /\ scanned b cur0 data [] s'.
Proof.
  intros Hcs. revert pos s. induction fuel as [|fuel IH]; intros pos s Hf Hp H; [lia|].
  simpl. destruct (Nat.ltb_spec 0 pos) as [Hpos|Hpos].
  2: { exists s. by replace pos with 0%nat in H by lia. }
  set (rs := if (pos <? cs)%nat then pos else cs).
  assert (0 < rs <= pos)%nat as Hrs by (unfold rs; destruct (Nat.ltb_spec pos cs); lia).
  set (chunk := take rs (drop (pos - rs) data)).
  assert (length chunk = rs) as Lc.
  { unfold chunk. rewrite length_take, length_drop. lia. }
  destruct (scan_chunk b chunk rs rs s) as [se s'] eqn:E.
  apply (scan_chunk_inv b cur0 chunk (drop pos data)) in E as [Hse Hs']; [|lia|].
  2: { rewrite Nat.sub_diag. rewrite drop_ge by lia. exact H. }
  apply IH; [lia|lia|].
  replace (drop (pos - rs) data) with (chunk ++ drop pos data).
  2: { unfold chunk. replace pos with (rs + (pos - rs))%nat at 2 by lia.
       rewrite Nat.add_comm, <- drop_drop. apply take_drop. }
  destruct Hs' as (qs & E1 & E2). exists qs. split; [|done]. rewrite E1. simpl.
  f_equal. destruct (Nat.ltb_spec 0 se); [done|]. by replace se with 0%nat by lia.
Qed.

Lemma is_not_empty_snoc_nl l : is_not_empty (l ++ [chNL]) = is_not_empty l.
Proof.
  induction l as [|c l IH]; [done|]. simpl. by rewrite IH.
Qed.

Definition cnt (ps : list (list Z)) : Z := count_non_empty ps.

Lemma cnt_cons p ps :
  cnt (p :: ps) = (if is_not_empty p then 1 else 0) + cnt ps.
Proof.
  unfold cnt, count_non_empty. rewrite filter_cons.
  destruct (is_not_empty p); [rewrite decide_True by done|rewrite decide_False by done];
    simpl length; lia.
Qed.

Lemma cnt_nonneg ps : 0 <= cnt ps.
Proof. unfold cnt, count_non_empty. lia. Qed.

(** Counting the lines [getline] returns counts the pieces. *)
Lemma cnt_getlines_from acc l :
  cnt (getlines_from acc l) =
  match split_nl l with p :: ps => cnt ((acc ++ p) :: ps) | [] => 0 end.
Proof.
  revert acc. induction l as [|c l IH]; intros acc; simpl.
  - rewrite app_nil_r. destruct acc; [done|]. by rewrite cnt_cons.
  - destruct (Z.eqb_spec c 10) as [->|Hc].
    + rewrite !cnt_cons, app_nil_r, is_not_empty_snoc_nl, IH.
      destruct (split_nl_cons_inv l) as (p & ps & ->). done.
    + rewrite IH. destruct (split_nl_cons_inv l) as (p & ps & ->).
      by rewrite <- app_assoc.
Qed.

Lemma cnt_getlines l : cnt (getlines l) = cnt (split_nl l).
Proof.
  unfold getlines. rewrite cnt_getlines_from.
  by destruct (split_nl_cons_inv l) as (p & ps & ->).
Qed.

(** Printing in reverse order, numbering down from the last number, renders
    every line as printing upwards does. *)
Lemma print_down_rev_true n ps :
  print_down true (n + cnt ps - 1) (rev ps) = (concat (rev (numbered true n ps)), n - 1).
Proof.
  revert n. induction ps as [|p ps IH]; intros n; simpl.
  - f_equal. unfold cnt, count_non_empty. simpl. lia.
  - rewrite print_down_app, cnt_cons. unfold show_line.
    rewrite is_not_empty_snoc_nl. cbn [andb].
    destruct (is_not_empty p) eqn:E; cbn [rev].
    + replace (n + (1 + cnt ps) - 1) with ((n + 1) + cnt ps - 1) by lia.
      rewrite IH. simpl. unfold show_line. rewrite is_not_empty_snoc_nl, E. simpl.
      rewrite concat_app. simpl. replace (n + 1 - 1) with n by lia.
      rewrite !app_nil_r. done.
    + replace (n + (0 + cnt ps) - 1) with (n + cnt ps - 1) by lia.
      rewrite IH. simpl. unfold show_line. rewrite is_not_empty_snoc_nl, E. simpl.
      rewrite concat_app. simpl. by rewrite !app_nil_r.
Qed.

Lemma print_down_rev_false cur n ps :
  print_down false cur (rev ps) = (concat (rev (numbered false n ps)), cur).
Proof.
  induction ps as [|p ps IH]; simpl; [done|].
  rewrite print_down_app, IH. simpl. rewrite concat_app. simpl.
  by rewrite !app_nil_r.
Qed.

Lemma fst_print_down_rev b n ps :
  fst (print_down b (n + cnt ps - 1) (rev ps)) = concat (rev (numbered b n ps)).
Proof.
  destruct b; [by rewrite print_down_rev_true|].
  by rewrite (print_down_rev_false _ n).
Qed.

Lemma c_str_id l : Forall (fun c => c <> 0) l -> c_str l = l.
Proof.
  induction 1 as [|c l Hc Hl IH]; [done|]. simpl.
  by rewrite (proj2 (Z.eqb_neq c 0)), IH.
Qed.

Lemma drop_last_empty_cons p q ps :
  drop_last_empty (p :: q :: ps) = p :: drop_last_empty (q :: ps).
Proof.
  unfold drop_last_empty. change (last (p :: q :: ps)) with (last (q :: ps)).
  destruct (last (q :: ps)) as [[|]|]; done.
Qed.

Lemma last_snoc_ne (l : list Z) c : last (l ++ [c]) = Some c.
Proof. apply last_snoc. Qed.

(** A line printed forwards: with its newline, or with one supplied. *)
Lemma close_line_nl l :
  Forall (fun c => c <> 0) l ->
  close_line (l ++ [chNL]) = Some [].
Proof.
  intros Hl. unfold close_line.
  rewrite c_str_id by (apply Forall_app; repeat constructor; done).
  by rewrite last_snoc_ne.
Qed.

Lemma show_line_supplied b n l :
  Forall (fun c => c <> 0) l ->
  show_line b n (l ++ [chNL]) =
  (fst (show_line b n l) ++ [chNL], snd (show_line b n l)).
Proof.
  intros Hl. unfold show_line. rewrite is_not_empty_snoc_nl.
  rewrite !c_str_id by (try (apply Forall_app; repeat constructor); done).
  destruct (b && is_not_empty l); [|done]. cbn [fst snd]. by rewrite <- !app_assoc.
Qed.

Lemma close_line_supplied l c :
  Forall (fun c => c <> 0) (l ++ [c]) -> c <> chNL ->
  close_line (l ++ [c]) = Some [chNL].
Proof.
  intros Hl Hc. unfold close_line. rewrite c_str_id, last_snoc_ne by done.
  by rewrite (proj2 (Z.eqb_neq c 10)).
Qed.

Lemma print_forward_last b n a l :
  Forall (fun c => c <> 0) (a :: l) -> Forall (fun c => c <> chNL) (a :: l) ->
  exists n', print_forward b [a :: l] n =
             Some (concat (numbered b n (drop_last_empty [a :: l])), n').
Proof.
  intros Hz Hn. change (drop_last_empty [a :: l]) with [a :: l].
  cbn [print_forward numbered]. rewrite show_line_supplied by done.
  destruct (show_line b n (a :: l)) as [o used]. cbn [fst snd].
  destruct (exists_last (l := a :: l)) as (l' & c & E); [done|]. rewrite E in *.
  rewrite close_line_supplied; [|done|by apply Forall_app in Hn as [_ [? _]%Forall_cons]].
  eexists. cbn. by rewrite !app_nil_r.
Qed.

Definition forward_pieces (acc l : list Z) : list (list Z) :=
  match split_nl l with p :: ps => drop_last_empty ((acc ++ p) :: ps) | [] => [] end.

Lemma print_forward_pieces b n acc l :
  Forall (fun c => c <> 0) l -> Forall (fun c => c <> 0) acc ->
  Forall (fun c => c <> chNL) acc ->
  exists n', print_forward b (getlines_from acc l) n =
             Some (concat (numbered b n (forward_pieces acc l)), n').
Proof.
  revert n acc. induction l as [|c l IH]; intros n acc Hl Ha Hna; unfold forward_pieces; simpl.
  - rewrite app_nil_r. destruct acc as [|a acc]; [by eexists|].
    by apply print_forward_last.
  - inversion Hl as [|?? Hc Hl']; subst.
    destruct (Z.eqb_spec c 10) as [->|Hc10].
    + cbn [print_forward]. rewrite close_line_nl by done.
      destruct (split_nl_cons_inv l) as (p & ps & E). rewrite E, app_nil_r.
      rewrite drop_last_empty_cons. cbn [numbered].
      destruct (show_line b n (acc ++ [10])) as [o used].
      destruct (IH (if used then n + 1 else n) [] Hl' ltac:(constructor) ltac:(constructor))
        as [n' ->].
      unfold forward_pieces. rewrite E. exists n'. done.
    + destruct (IH n (acc ++ [c]) Hl') as [n' ->];
        [by apply Forall_app; repeat constructor..|].
      exists n'. unfold forward_pieces.
      destruct (split_nl_cons_inv l) as (p & ps & ->). by rewrite <- app_assoc.
Qed.

(** ** Properties *)

(** The backward scan prints, for every block size, the lines of the file
    last to first (all of them but an empty first line), each rendered and
    numbered exactly as the forward print renders and numbers it; and the
    forward print writes the lines in order (all but the empty piece after a
    final newline), supplying a missing final newline. *)
Theorem peek_lines_correct cs b data n
    (Hcs : (0 < cs)%nat) (Hz : Forall (fun c => c <> 0) data) :
  reverse_file cs b data (n + count_non_empty (getlines data) - 1) =
    Some (concat (rev (numbered b n (drop_first_empty (split_nl data))))) /\
  exists n', print_forward b (getlines data) n =
    Some (concat (numbered b n (drop_last_empty (split_nl data))), n').
Proof.
  split.
  2: { destruct (print_forward_pieces b n [] data Hz) as [n' E]; [constructor..|].
       exists n'. unfold getlines. rewrite E. unfold forward_pieces.
       by destruct (split_nl_cons_inv data) as (p & ps & ->). }
  fold (cnt (getlines data)). rewrite cnt_getlines.
  unfold reverse_file.
  destruct (reverse_loop_inv (S (length data)) cs b data (n + cnt (split_nl data) - 1)
              (length data) (mkRst [] (n + cnt (split_nl data) - 1) []))
    as (s & -> & qs & E & H); [lia..| |].
  { exists []. rewrite drop_ge by lia. done. }
  simpl in E. rewrite E in *. destruct (leftover s) as [|a l] eqn:El; cbn [drop_first_empty].
  - rewrite <- fst_print_down_rev. rewrite cnt_cons in H. cbn in H.
    by rewrite <- (Z.add_0_l (cnt qs)), H.
  - rewrite <- fst_print_down_rev. cbn [rev]. rewrite print_down_app, H.
    cbn [print_down]. unfold put_full.
    destruct (show_line b (current_line_num s) _) as [o used]. cbn.
    by rewrite app_nil_r.
Qed.

(** With [-r], a file that ends in a newline is printed with a spurious
    blank first line and a blank first line is lost, while the same bytes on
    standard input are printed correctly reversed. *)
Theorem peek_reverse_blank_lines :
  let fs (p : list Z) := Some (NFile true (bytes "a
b
")) in
  let fs2 (p : list Z) := Some (NFile true (bytes "
b")) in
  let cmd := [bytes "peek"; bytes "-r"; bytes "f"] in
  (exists s, peek fs [] cmd = Some (0, s) /\ out s = bytes "
b
a
") /\
  (exists s, peek fs2 [] cmd = Some (0, s) /\ out s = bytes "b
") /\
  (exists s, peek fs (bytes "a
b
") [bytes "peek"; bytes "-r"] = Some (0, s) /\ out s = bytes "b
a
").
Proof. vm_compute. eauto 10. Qed.

(** ** Witnesses *)

Lemma peek_lines_correct_witness :
  reverse_file 2 true (bytes "ab

c") (1 + count_non_empty (getlines (bytes "ab

c")) - 1) = Some (bytes "2 c

1 ab
").
Proof.
  rewrite (proj1 (peek_lines_correct 2 true (bytes "ab

c") 1 ltac:(lia) ltac:(repeat (constructor; [discriminate|]); constructor))).
  vm_compute. reflexivity.
Defined.
