(* ===== verification/Mlfq.v ===== *)
(** * The run queues of the MLFQ scheduler: [kernel/proc.c], lines 13-105

    Four arrays of [NPROC] process slots with a count each.  A process is named
    by its index in [proc\[\]].  The queue a level stands for is the first
    [qcount] cells of its array; [enqueue] and [dequeue] are shown to be the two
    ends of a FIFO list, and the second half of [boost_priority] to move all
    levels, in order, to level 0.  Each operation holds [mlfq_lock] throughout,
    so it is one atomic state change. *)

From S2P Require Import Prelude.

Definition NPROC : nat := 64%nat.

(** [int qcount\[4\]; struct proc *mlfq\[4\]\[NPROC\];] *)
Record mlfq_state := mkMlfq { qcount : list Z; mlfq : list (list nat) }.

Definition mlfq_init : mlfq_state := mkMlfq [0; 0; 0; 0] (replicate 4 (replicate NPROC 0%nat)).

Definition qc (s : mlfq_state) (q : Z) : Z := nth (Z.to_nat q) (qcount s) 0.
Definition row (s : mlfq_state) (q : Z) : list nat := nth (Z.to_nat q) (mlfq s) [].

Definition set_level (s : mlfq_state) (q n : Z) (r : list nat) : mlfq_state :=
  mkMlfq (<[Z.to_nat q := n]> (qcount s)) (<[Z.to_nat q := r]> (mlfq s)).

(** ** Operations *)

Definition enqueue (q : Z) (p : nat) : M mlfq_state unit :=
  _ ← panic_if ((q <? 0) || (3 <? q)) "enqueue: invalid queue number";
  s ← get;
  if Z.of_nat NPROC <=? qc s q then panic "enqueue: queue is full"
  else put (set_level s q (qc s q + 1) (<[Z.to_nat (qc s q) := p]> (row s q))).

(** [for (i = 0; i < qcount\[q\] - 1; i++) mlfq\[q\]\[i\] = mlfq\[q\]\[i + 1\];] *)
Fixpoint shift_down (r : list nat) (i k : nat) : list nat :=
  match k with
  | O => r
  | S k' => shift_down (<[i := nth (i + 1) r 0%nat]> r) (i + 1) k'
  end.

(** The null pointer is [None]. *)
Definition dequeue (q : Z) : M mlfq_state (option nat) :=
  _ ← panic_if ((q <? 0) || (3 <? q)) "dequeue: invalid queue number";
  s ← get;
  if qc s q =? 0 then mret None
  else
    let p := nth 0 (row s q) 0%nat in
    let r := shift_down (row s q) 0 (Z.to_nat (qc s q - 1)) in
    _ ← put (set_level s q (qc s q - 1) r);
    mret (Some p).

(** [for (j = 0; j < qcount\[i\]; j++) temp\[temp_count++\] = mlfq\[i\]\[j\];] with
    [temp\[NPROC\]]: [None] is a write past its end. *)
Fixpoint collect_row (r : list nat) (j k : nat) (temp : list nat) : option (list nat) :=
  match k with
  | O => Some temp
  | S k' => if (length temp <? NPROC)%nat
            then collect_row r (j + 1) k' (temp ++ [nth j r 0%nat]) else None
  end.

(** The loop over the four levels; each level's count is reset once copied. *)
Fixpoint collect_levels (levels : list Z) (s : mlfq_state) (temp : list nat)
  : option (mlfq_state * list nat) :=
  match levels with
  | [] => Some (s, temp)
  | i :: rest =>
    match collect_row (row s i) 0 (Z.to_nat (qc s i)) temp with
    | None => None
    | Some temp' => collect_levels rest (set_level s i 0 (row s i)) temp'
    end
  end.

(** [for (i = 0; i < temp_count; i++) mlfq\[0\]\[qcount\[0\]++\] = temp\[i\];] *)
Fixpoint refill (s : mlfq_state) (temp : list nat) : mlfq_state :=
  match temp with
  | [] => s
  | p :: temp' =>
    refill (set_level s 0 (qc s 0 + 1) (<[Z.to_nat (qc s 0) := p]> (row s 0))) temp'
  end.

(** The part of [boost_priority] under [mlfq_lock]. *)
Definition boost_queues : M mlfq_state unit :=
  s ← get;
  match collect_levels [0; 1; 2; 3] s [] with
  | None => undef "boost_priority: temp overflow"
  | Some (s', temp) => put (refill s' temp)
  end.

(** ** Abstraction: a level is a list *)

Definition level (s : mlfq_state) (q : Z) : list nat :=
  take (Z.to_nat (qc s q)) (row s q).

Definition valid_level (q : Z) : Prop := 0 <= q <= 3.

Definition all_levels (s : mlfq_state) : list nat :=
  level s 0 ++ level s 1 ++ level s 2 ++ level s 3.

(** Array sizes and counts in range. *)
Record mlfq_wf (s : mlfq_state) : Prop := {
  wf_counts : length (qcount s) = 4%nat;
  wf_rows : length (mlfq s) = 4%nat;
  wf_row : forall q, valid_level q -> length (row s q) = NPROC;
  wf_count : forall q, valid_level q -> 0 <= qc s q <= Z.of_nat NPROC
}.

Lemma nth_insert_eq {A} (l : list A) i x d :
  (i < length l)%nat -> nth i (<[i := x]> l) d = x.
Proof.
  revert i. induction l as [|a l IH]; intros [|i] H; simpl in *; try lia; [done|].
  apply IH. lia.
Qed.

Lemma nth_insert_ne {A} (l : list A) i j x d :
  i <> j -> nth j (<[i := x]> l) d = nth j l d.
Proof.
  revert i j. induction l as [|a l IH]; intros [|i] [|j] H; simpl; try done.
  apply IH. lia.
Qed.

Section set_level.
Context (s : mlfq_state) (Hwf : mlfq_wf s) (q : Z) (Hq : valid_level q).

Lemma qc_set_eq n r : qc (set_level s q n r) q = n.
Proof.
  destruct Hwf. unfold qc, set_level, valid_level in *. simpl.
  apply nth_insert_eq. lia.
Qed.

Lemma row_set_eq n r : row (set_level s q n r) q = r.
Proof.
  destruct Hwf. unfold row, set_level, valid_level in *. simpl.
  apply nth_insert_eq. lia.
Qed.

Lemma qc_set_ne n r q' : valid_level q' -> q' <> q -> qc (set_level s q n r) q' = qc s q'.
Proof. intros H1 H2. unfold valid_level in *. apply nth_insert_ne. lia. Qed.

Lemma row_set_ne n r q' : valid_level q' -> q' <> q -> row (set_level s q n r) q' = row s q'.
Proof. intros H1 H2. unfold valid_level in *. apply nth_insert_ne. lia. Qed.

Lemma level_set_ne n r q' :
  valid_level q' -> q' <> q -> level (set_level s q n r) q' = level s q'.
Proof. intros H1 H2. unfold level. by rewrite qc_set_ne, row_set_ne. Qed.

Lemma set_level_wf n r :
  length r = NPROC -> 0 <= n <= Z.of_nat NPROC -> mlfq_wf (set_level s q n r).
Proof.
  intros Hr Hn. pose proof Hwf as [H1 H2 H3 H4]. split.
  - unfold set_level. simpl. by rewrite length_insert.
  - unfold set_level. simpl. by rewrite length_insert.
  - intros q' Hq'. destruct (decide (q' = q)) as [->|N].
    + by rewrite row_set_eq. + rewrite row_set_ne by done. auto.
  - intros q' Hq'. destruct (decide (q' = q)) as [->|N].
    + by rewrite qc_set_eq. + rewrite qc_set_ne by done. auto.
Qed.
End set_level.

Lemma mlfq_init_wf : mlfq_wf mlfq_init.
Proof.
  split; [done|done|..]; intros q Hq; unfold valid_level in Hq;
    assert (q = 0 \/ q = 1 \/ q = 2 \/ q = 3) as [-> |[-> |[-> | ->]]] by lia;
    unfold qc; cbn; try done; lia.
Qed.

Lemma valid_level_test q : valid_level q -> (q <? 0) || (3 <? q) = false.
Proof. unfold valid_level. zsolve. Qed.

Lemma qc_level s q : mlfq_wf s -> valid_level q -> qc s q = Z.of_nat (length (level s q)).
Proof.
  intros [] Hq. unfold level. rewrite length_take, wf_row0 by done.
  specialize (wf_count0 q Hq). lia.
Qed.

(** The new level after writing cell [qcount] and incrementing. *)
Lemma level_push s q p :
  mlfq_wf s -> valid_level q -> qc s q < Z.of_nat NPROC ->
  level (set_level s q (qc s q + 1) (<[Z.to_nat (qc s q) := p]> (row s q))) q =
  level s q ++ [p].
Proof.
  intros Hwf Hq Hn. unfold level. rewrite qc_set_eq, row_set_eq by done.
  pose proof (wf_count s Hwf q Hq). pose proof (wf_row s Hwf q Hq).
  replace (Z.to_nat (qc s q + 1)) with (S (Z.to_nat (qc s q))) by lia.
  rewrite (take_S_r _ _ p).
  - rewrite take_insert_ge by lia. done.
  - apply list_lookup_insert_eq. lia.
Qed.

Lemma shift_down_spec r i k :
  (i + k < length r)%nat ->
  shift_down r i k = take i r ++ take k (drop (S i) r) ++ drop (i + k) r.
Proof.
  revert r i. induction k as [|k IH]; intros r i H; simpl.
  - rewrite Nat.add_0_r. by rewrite take_drop.
  - rewrite IH by (rewrite length_insert; lia).
    assert (exists x, r !! (i + 1)%nat = Some x) as [x Hx]
      by (apply lookup_lt_is_Some_2; lia).
    rewrite (nth_lookup_Some _ _ _ _ Hx).
    replace (i + 1)%nat with (S i) in * by lia.
    rewrite (take_S_r _ i x) by (apply list_lookup_insert_eq; lia).
    rewrite take_insert_ge, drop_insert_lt by lia.
    rewrite <- app_assoc. f_equal. simpl.
    rewrite (drop_S r x (S i)) by done. simpl. f_equal. f_equal.
    rewrite drop_insert_lt by lia. f_equal. lia.
Qed.

Lemma length_shift_down r i k : length (shift_down r i k) = length r.
Proof.
  revert r i. induction k as [|k IH]; intros r i; simpl; [done|].
  by rewrite IH, length_insert.
Qed.

Lemma level_pop s q :
  mlfq_wf s -> valid_level q -> qc s q <> 0 ->
  level (set_level s q (qc s q - 1) (shift_down (row s q) 0 (Z.to_nat (qc s q - 1)))) q =
    tail (level s q) /\
  head (level s q) = Some (nth 0 (row s q) 0%nat).
Proof.
  intros Hwf Hq Hn. unfold level. rewrite qc_set_eq, row_set_eq by done.
  pose proof (wf_count s Hwf q Hq). pose proof (wf_row s Hwf q Hq).
  rewrite shift_down_spec by lia. simpl.
  destruct (row s q) as [|x r]; [simpl in *; unfold NPROC in *; lia|].
  replace (Z.to_nat (qc s q)) with (S (Z.to_nat (qc s q - 1))) by lia. simpl.
  split; [|done]. rewrite drop_0.
  rewrite take_app_le by (rewrite length_take; simpl in *; lia).
  rewrite take_take. f_equal. lia.
Qed.

Lemma collect_row_spec r j k temp :
  (j + k <= length r)%nat -> (length temp + k <= NPROC)%nat ->
  collect_row r j k temp = Some (temp ++ take k (drop j r)).
Proof.
  revert j temp. induction k as [|k IH]; intros j temp Hr Ht; simpl.
  - by rewrite app_nil_r.
  - rewrite (proj2 (Nat.ltb_lt _ _)) by lia.
    assert (exists x, r !! j = Some x) as [x Hx] by (apply lookup_lt_is_Some_2; lia).
    rewrite (nth_lookup_Some _ _ _ _ Hx), IH; [|lia|rewrite length_app; simpl; lia].
    rewrite (drop_S r x j) by done. simpl. rewrite <- app_assoc. simpl.
    by replace (S j) with (j + 1)%nat by lia.
Qed.

Lemma collect_levels_spec levels s temp :
  mlfq_wf s -> NoDup levels -> Forall valid_level levels ->
  (length temp + length (levels ≫= level s) <= NPROC)%nat ->
  exists s', collect_levels levels s temp = Some (s', temp ++ (levels ≫= level s)) /\
    mlfq_wf s' /\
    (forall q, valid_level q -> level s' q = if bool_decide (q ∈ levels) then [] else level s q).
Proof.
  revert s temp. induction levels as [|i levels IH]; intros s temp Hwf Hnd Hv Hl.
  - exists s. cbn [collect_levels mbind list_bind]. rewrite app_nil_r.
    split; [done|]. split; [done|]. intros q _. by rewrite bool_decide_false by set_solver.
  - inversion Hnd as [|?? Hi Hnd']; inversion Hv as [|?? Hvi Hv']; subst.
    cbn [mbind list_bind] in Hl |- *. rewrite length_app in Hl.
    pose proof (wf_count s Hwf i Hvi). pose proof (wf_row s Hwf i Hvi).
    assert (length (level s i) = Z.to_nat (qc s i)) as Hli
      by (unfold level; rewrite length_take; lia).
    cbn [collect_levels]. rewrite collect_row_spec by lia. rewrite drop_0.
    fold (level s i). set (s1 := set_level s i 0 (row s i)).
    assert (mlfq_wf s1) as Hwf1 by (apply set_level_wf; [done..|lia]).
    assert (forall q, valid_level q -> q <> i -> level s1 q = level s q) as Hne
      by (intros; by apply level_set_ne).
    assert (levels ≫= level s1 = levels ≫= level s) as Hb.
    { clear -Hne Hv' Hi. induction levels as [|a l IH]; [done|].
      inversion Hv'; subst. cbn [mbind list_bind]. rewrite Hne; [|done|set_solver].
      f_equal. apply IH; [set_solver|done]. }
    destruct (IH s1 (temp ++ level s i) Hwf1 Hnd' Hv') as (s' & E & Hwf' & Hlev).
    { rewrite Hb, length_app. lia. }
    exists s'. rewrite E, Hb. split; [by rewrite app_assoc|]. split; [done|].
    intros q Hq. rewrite Hlev by done. destruct (decide (q = i)) as [->|N].
    + rewrite (bool_decide_true (i ∈ i :: levels)) by set_solver.
      rewrite bool_decide_false by done.
      unfold level, s1. by rewrite qc_set_eq.
    + rewrite Hne by done. do 2 case_bool_decide; set_solver.
Qed.

Lemma refill_spec s temp :
  mlfq_wf s -> (length (level s 0) + length temp <= NPROC)%nat ->
  mlfq_wf (refill s temp) /\ level (refill s temp) 0 = level s 0 ++ temp /\
  (forall q, valid_level q -> q <> 0 -> level (refill s temp) q = level s q).
Proof.
  revert s. induction temp as [|p temp IH]; intros s Hwf Hl; cbn [refill].
  - rewrite app_nil_r. done.
  - assert (valid_level 0) as H0 by (unfold valid_level; lia).
    pose proof (qc_level s 0 Hwf H0) as Hq. cbn [length] in Hl.
    pose proof (wf_row s Hwf 0 H0).
    assert (qc s 0 < Z.of_nat NPROC) as Hlt by lia.
    pose proof (level_push s 0 p Hwf H0 Hlt) as Hp.
    set (s1 := set_level s 0 _ _) in *.
    assert (mlfq_wf s1) as Hwf1
      by (apply set_level_wf; [done|done|by rewrite length_insert|lia]).
    destruct (IH s1 Hwf1) as (W & E & O).
    { rewrite Hp, length_app. simpl. lia. }
    split; [done|]. split; [rewrite E, Hp; by rewrite <- app_assoc|].
    intros q Hv Hn. rewrite O by done. by apply level_set_ne.
Qed.

(** ** What the rest of the scheduler uses *)

Lemma enqueue_spec s q p :
  mlfq_wf s -> valid_level q -> (length (level s q) < NPROC)%nat ->
  exists s', enqueue q p s = Ret (tt, s') /\ mlfq_wf s' /\
    level s' q = level s q ++ [p] /\
    (forall q', valid_level q' -> q' <> q -> level s' q' = level s q').
Proof.
  intros Hwf Hq Hl. pose proof (qc_level s q Hwf Hq) as Hc.
  pose proof (wf_row s Hwf q Hq).
  unfold enqueue, panic_if, mbind, M_bind. rewrite valid_level_test by done. cbn.
  destruct (Z.leb_spec (Z.of_nat NPROC) (qc s q)); [lia|]. cbn.
  eexists. split; [done|]. split.
  - apply set_level_wf; [done|done|by rewrite length_insert|lia].
  - split; [apply level_push; [done|done|lia]|]. intros. by apply level_set_ne.
Qed.

Lemma dequeue_empty s q :
  mlfq_wf s -> valid_level q -> level s q = [] -> dequeue q s = Ret (None, s).
Proof.
  intros Hwf Hq Hl. pose proof (qc_level s q Hwf Hq) as Hc. rewrite Hl in Hc.
  unfold dequeue, panic_if, mbind, M_bind. rewrite valid_level_test by done. cbn.
  by rewrite Hc.
Qed.

Lemma dequeue_spec s q p l :
  mlfq_wf s -> valid_level q -> level s q = p :: l ->
  exists s', dequeue q s = Ret (Some p, s') /\ mlfq_wf s' /\
    level s' q = l /\
    (forall q', valid_level q' -> q' <> q -> level s' q' = level s q').
Proof.
  intros Hwf Hq Hl. pose proof (qc_level s q Hwf Hq) as Hc. rewrite Hl in Hc. simpl in Hc.
  pose proof (wf_count s Hwf q Hq). pose proof (wf_row s Hwf q Hq).
  destruct (level_pop s q) as [Ht Hh]; [done|done|lia|]. rewrite Hl in Ht, Hh. simpl in *.
  injection Hh as Hh.
  unfold dequeue, panic_if, mbind, M_bind. rewrite valid_level_test by done. cbn.
  destruct (Z.eqb_spec (qc s q) 0); [lia|]. cbn. rewrite <- Hh.
  eexists. split; [done|]. split.
  - apply set_level_wf; [done|done|by rewrite length_shift_down|lia].
  - split; [done|]. intros. by apply level_set_ne.
Qed.

Lemma boost_queues_spec s :
  mlfq_wf s -> (length (all_levels s) <= NPROC)%nat ->
  exists s', boost_queues s = Ret (tt, s') /\ mlfq_wf s' /\
    level s' 0 = all_levels s /\
    (forall q, valid_level q -> q <> 0 -> level s' q = []).
Proof.
  intros Hwf Hl.
  assert ([0; 1; 2; 3] ≫= level s = all_levels s) as Ha.
  { unfold all_levels. cbn. by rewrite app_nil_r. }
  destruct (collect_levels_spec [0; 1; 2; 3] s []) as (s1 & E & W & L).
  - done.
  - repeat constructor; set_solver.
  - unfold valid_level. forall_lia.
  - rewrite Ha. done.
  - rewrite Ha in E. cbn [app] in E.
    assert (level s1 0 = []) as L0 by (rewrite L by (unfold valid_level; lia); done).
    destruct (refill_spec s1 (all_levels s)) as (W' & E' & O); [done|by rewrite L0|].
    exists (refill s1 (all_levels s)).
    unfold boost_queues, mbind, M_bind. cbn [get]. rewrite E. cbn.
    split; [done|]. split; [done|]. split; [by rewrite E', L0|].
    intros q Hq Hn. rewrite O, L by done. unfold valid_level in Hq.
    rewrite bool_decide_true; [done|].
    assert (q = 1 \/ q = 2 \/ q = 3) as [-> |[-> | ->]] by lia; set_solver.
Qed.

(** ** Specification: four FIFO lists *)

Module QSpec.
Definition queues : Type := Z -> list nat.
Definition push (f : queues) (q : Z) (p : nat) : queues :=
  fun q' => if q' =? q then f q ++ [p] else f q'.
Definition pop (f : queues) (q : Z) : option nat * queues :=
  (head (f q), fun q' => if q' =? q then tail (f q) else f q').
Definition everything (f : queues) : list nat := f 0 ++ f 1 ++ f 2 ++ f 3.
Definition boost (f : queues) : queues :=
  fun q' => if q' =? 0 then everything f else [].
End QSpec.

(** The arrays represent the lists [f]. *)
Definition represents (s : mlfq_state) (f : QSpec.queues) : Prop :=
  mlfq_wf s /\ forall q, valid_level q -> level s q = f q.

(** ** Properties *)

(** C8: the queue arrays implement FIFO lists: [enqueue] on a level that is not
    full appends, [dequeue] returns and removes the oldest element (or the null
    pointer on an empty level), the boost concatenates the levels into level 0,
    and none of them touches another level; [enqueue] on a full level, and [enqueue]
    and [dequeue] on a level number outside 0..3, panic. *)
Theorem mlfq_refines s f q p
    (Hr : represents s f) :
  (valid_level q ->
     ((length (f q) < NPROC)%nat ->
        exists s', enqueue q p s = Ret (tt, s') /\ represents s' (QSpec.push f q p)) /\
     ((NPROC <= length (f q))%nat -> enqueue q p s = Panic "enqueue: queue is full") /\
     exists s', dequeue q s = Ret (fst (QSpec.pop f q), s') /\
       represents s' (snd (QSpec.pop f q))) /\
  (~ valid_level q ->
     enqueue q p s = Panic "enqueue: invalid queue number" /\
     dequeue q s = Panic "dequeue: invalid queue number") /\
  ((length (QSpec.everything f) <= NPROC)%nat ->
     exists s', boost_queues s = Ret (tt, s') /\ represents s' (QSpec.boost f)).
Proof.
  destruct Hr as [Hwf Hf]. split; [intros Hq; split; [|split]|split].
  - intros Hl. rewrite <- Hf in Hl by done.
    destruct (enqueue_spec s q p Hwf Hq Hl) as (s' & E & W & L & O).
    exists s'. split; [done|]. split; [done|]. intros q' Hq'. unfold QSpec.push.
    destruct (Z.eqb_spec q' q) as [->|N]; [by rewrite L, Hf|by rewrite O, Hf].
  - intros Hl. rewrite <- Hf in Hl by done. pose proof (qc_level s q Hwf Hq).
    unfold enqueue, panic_if, mbind, M_bind. rewrite valid_level_test by done. cbn.
    destruct (Z.leb_spec (Z.of_nat NPROC) (qc s q)); [done|lia].
  - unfold QSpec.pop. cbn. rewrite <- Hf by done.
    destruct (level s q) as [|x l] eqn:El.
    + exists s. split; [by apply dequeue_empty|]. split; [done|]. intros q' Hq'.
      destruct (Z.eqb_spec q' q) as [->|N]; [done|by apply Hf].
    + destruct (dequeue_spec s q x l Hwf Hq El) as (s' & E & W & L & O).
      exists s'. split; [done|]. split; [done|]. intros q' Hq'.
      destruct (Z.eqb_spec q' q) as [->|N]; [done|by rewrite O, Hf].
  - intros Hq. assert ((q <? 0) || (3 <? q) = true) as Eq.
    { unfold valid_level in Hq. destruct (Z.ltb_spec q 0), (Z.ltb_spec 3 q); try done. lia. }
    unfold enqueue, dequeue, panic_if, mbind, M_bind. by rewrite Eq.
  - intros Hl. unfold QSpec.everything in Hl.
    rewrite <- !Hf in Hl by (unfold valid_level; lia).
    destruct (boost_queues_spec s Hwf Hl) as (s' & E & W & L & O).
    exists s'. split; [done|]. split; [done|]. intros q' Hq'. unfold QSpec.boost.
    destruct (Z.eqb_spec q' 0) as [->|N]; [|by apply O].
    rewrite L. unfold all_levels, QSpec.everything. by rewrite !Hf by (unfold valid_level; lia).
Qed.

(** ** Witnesses *)

Lemma mlfq_init_represents : represents mlfq_init (fun _ => []).
Proof.
  split; [apply mlfq_init_wf|]. intros q Hq. unfold level.
  unfold valid_level in Hq.
  by assert (q = 0 \/ q = 1 \/ q = 2 \/ q = 3) as [-> |[-> |[-> | ->]]] by lia.
Qed.

Lemma mlfq_refines_witness :
  exists s', enqueue 2 7 mlfq_init = Ret (tt, s') /\ level s' 2 = [7%nat].
Proof.
  destruct (mlfq_refines mlfq_init (fun _ => []) 2 7 mlfq_init_represents) as [H _].
  destruct (H ltac:(unfold valid_level; lia)) as [H' _].
  destruct H' as (s' & E & W & L); [unfold NPROC; simpl; lia|].
  exists s'. split; [exact E|]. rewrite L by (unfold valid_level; lia). reflexivity.
Defined.
