(* ===== verification/Proc.v ===== *)
(** * Processes and scheduling: [kernel/proc.c], [kernel/proc.h], and the timer
    half of [kernel/trap.c]

    A process is named by its index in [proc\[NPROC\]].  Each operation below is
    one C function; it takes the hart it runs on ([h]) where the code asks for
    [mycpu()] or [myproc()].  Memory, files and inodes belong to other
    components and are reached through the interface [ProcEnv].

    Spinlocks are not part of this state.  A function that releases a process
    lock and takes another on its way is composed of one definition per critical
    section ([boost_one], [charge], [wakeup_one], [fork_new], [fork_link],
    [fork_run], [reap], [kill_one], [dispatch], ...); [Sched] interleaves these.  A call of
    [sched()] ends the step of the process that makes it: the process keeps the state it set for
    itself, and the hart is back in [scheduler()] with [c->proc = 0]. *)

From S2P Require Import Prelude Riscv Mlfq.

(** ** Data *)

Inductive procstate := UNUSED | USED | SLEEPING | RUNNABLE | RUNNING | ZOMBIE.

#[export] Instance procstate_eq_dec : EqDecision procstate.
Proof. solve_decision. Defined.

(** What a wait channel ([void *chan]) points to: a process slot, the global
    [ticks], or some other kernel object. *)
Inductive channel := ChProc (i : nat) | ChTicks | ChAddr (a : Z).

#[export] Instance channel_eq_dec : EqDecision channel.
Proof. solve_decision. Defined.

(** [struct proc] (MLFQ build).  Null pointers are 0, except [parent] and
    [chan], where they are [None]; [p_ticks] is the field [ticks]; [name] is the C
    string held by [name\[16\]], without its terminator. *)
Record proc := mkProc {
  state : procstate;
  chan : option channel;
  killed : Z;
  xstate : Z;
  pid : Z;
  creation_time : Z;
  ctime : Z;
  rtime : Z;
  etime : Z;
  iotime : Z;
  first_run_time : Z;
  parent : option nat;
  kstack : Z;
  sz : Z;
  pagetable : Z;
  trapframe : Z;
  context : option (string * Z);
  ofile : list Z;
  cwd : Z;
  name : list Z;
  queue : Z;
  p_ticks : Z
}.

Definition set_state (v : procstate) (p : proc) : proc :=
  mkProc v (chan p) (killed p) (xstate p) (pid p) (creation_time p) (ctime p)
    (rtime p) (etime p) (iotime p) (first_run_time p) (parent p) (kstack p)
    (sz p) (pagetable p) (trapframe p) (context p) (ofile p) (cwd p) (name p)
    (queue p) (p_ticks p).
Definition set_chan (v : option channel) (p : proc) : proc :=
  mkProc (state p) v (killed p) (xstate p) (pid p) (creation_time p) (ctime p)
    (rtime p) (etime p) (iotime p) (first_run_time p) (parent p) (kstack p)
    (sz p) (pagetable p) (trapframe p) (context p) (ofile p) (cwd p) (name p)
    (queue p) (p_ticks p).
Definition set_killed (v : Z) (p : proc) : proc :=
  mkProc (state p) (chan p) v (xstate p) (pid p) (creation_time p) (ctime p)
    (rtime p) (etime p) (iotime p) (first_run_time p) (parent p) (kstack p)
    (sz p) (pagetable p) (trapframe p) (context p) (ofile p) (cwd p) (name p)
    (queue p) (p_ticks p).
Definition set_xstate (v : Z) (p : proc) : proc :=
  mkProc (state p) (chan p) (killed p) v (pid p) (creation_time p) (ctime p)
    (rtime p) (etime p) (iotime p) (first_run_time p) (parent p) (kstack p)
    (sz p) (pagetable p) (trapframe p) (context p) (ofile p) (cwd p) (name p)
    (queue p) (p_ticks p).
Definition set_pid (v : Z) (p : proc) : proc :=
  mkProc (state p) (chan p) (killed p) (xstate p) v (creation_time p) (ctime
    p) (rtime p) (etime p) (iotime p) (first_run_time p) (parent p) (kstack p)
    (sz p) (pagetable p) (trapframe p) (context p) (ofile p) (cwd p) (name p)
    (queue p) (p_ticks p).
Definition set_creation_time (v : Z) (p : proc) : proc :=
  mkProc (state p) (chan p) (killed p) (xstate p) (pid p) v (ctime p) (rtime
    p) (etime p) (iotime p) (first_run_time p) (parent p) (kstack p) (sz p)
    (pagetable p) (trapframe p) (context p) (ofile p) (cwd p) (name p) (queue
    p) (p_ticks p).
Definition set_ctime (v : Z) (p : proc) : proc :=
  mkProc (state p) (chan p) (killed p) (xstate p) (pid p) (creation_time p) v
    (rtime p) (etime p) (iotime p) (first_run_time p) (parent p) (kstack p)
    (sz p) (pagetable p) (trapframe p) (context p) (ofile p) (cwd p) (name p)
    (queue p) (p_ticks p).
Definition set_rtime (v : Z) (p : proc) : proc :=
  mkProc (state p) (chan p) (killed p) (xstate p) (pid p) (creation_time p)
    (ctime p) v (etime p) (iotime p) (first_run_time p) (parent p) (kstack p)
    (sz p) (pagetable p) (trapframe p) (context p) (ofile p) (cwd p) (name p)
    (queue p) (p_ticks p).
Definition set_etime (v : Z) (p : proc) : proc :=
  mkProc (state p) (chan p) (killed p) (xstate p) (pid p) (creation_time p)
    (ctime p) (rtime p) v (iotime p) (first_run_time p) (parent p) (kstack p)
    (sz p) (pagetable p) (trapframe p) (context p) (ofile p) (cwd p) (name p)
    (queue p) (p_ticks p).
Definition set_iotime (v : Z) (p : proc) : proc :=
  mkProc (state p) (chan p) (killed p) (xstate p) (pid p) (creation_time p)
    (ctime p) (rtime p) (etime p) v (first_run_time p) (parent p) (kstack p)
    (sz p) (pagetable p) (trapframe p) (context p) (ofile p) (cwd p) (name p)
    (queue p) (p_ticks p).
Definition set_first_run_time (v : Z) (p : proc) : proc :=
  mkProc (state p) (chan p) (killed p) (xstate p) (pid p) (creation_time p)
    (ctime p) (rtime p) (etime p) (iotime p) v (parent p) (kstack p) (sz p)
    (pagetable p) (trapframe p) (context p) (ofile p) (cwd p) (name p) (queue
    p) (p_ticks p).
Definition set_parent (v : option nat) (p : proc) : proc :=
  mkProc (state p) (chan p) (killed p) (xstate p) (pid p) (creation_time p)
    (ctime p) (rtime p) (etime p) (iotime p) (first_run_time p) v (kstack p)
    (sz p) (pagetable p) (trapframe p) (context p) (ofile p) (cwd p) (name p)
    (queue p) (p_ticks p).
Definition set_kstack (v : Z) (p : proc) : proc :=
  mkProc (state p) (chan p) (killed p) (xstate p) (pid p) (creation_time p)
    (ctime p) (rtime p) (etime p) (iotime p) (first_run_time p) (parent p) v
    (sz p) (pagetable p) (trapframe p) (context p) (ofile p) (cwd p) (name p)
    (queue p) (p_ticks p).
Definition set_sz (v : Z) (p : proc) : proc :=
  mkProc (state p) (chan p) (killed p) (xstate p) (pid p) (creation_time p)
    (ctime p) (rtime p) (etime p) (iotime p) (first_run_time p) (parent p)
    (kstack p) v (pagetable p) (trapframe p) (context p) (ofile p) (cwd p)
    (name p) (queue p) (p_ticks p).
Definition set_pagetable (v : Z) (p : proc) : proc :=
  mkProc (state p) (chan p) (killed p) (xstate p) (pid p) (creation_time p)
    (ctime p) (rtime p) (etime p) (iotime p) (first_run_time p) (parent p)
    (kstack p) (sz p) v (trapframe p) (context p) (ofile p) (cwd p) (name p)
    (queue p) (p_ticks p).
Definition set_trapframe (v : Z) (p : proc) : proc :=
  mkProc (state p) (chan p) (killed p) (xstate p) (pid p) (creation_time p)
    (ctime p) (rtime p) (etime p) (iotime p) (first_run_time p) (parent p)
    (kstack p) (sz p) (pagetable p) v (context p) (ofile p) (cwd p) (name p)
    (queue p) (p_ticks p).
Definition set_context (v : option (string * Z)) (p : proc) : proc :=
  mkProc (state p) (chan p) (killed p) (xstate p) (pid p) (creation_time p)
    (ctime p) (rtime p) (etime p) (iotime p) (first_run_time p) (parent p)
    (kstack p) (sz p) (pagetable p) (trapframe p) v (ofile p) (cwd p) (name p)
    (queue p) (p_ticks p).
Definition set_ofile (v : list Z) (p : proc) : proc :=
  mkProc (state p) (chan p) (killed p) (xstate p) (pid p) (creation_time p)
    (ctime p) (rtime p) (etime p) (iotime p) (first_run_time p) (parent p)
    (kstack p) (sz p) (pagetable p) (trapframe p) (context p) v (cwd p) (name
    p) (queue p) (p_ticks p).
Definition set_cwd (v : Z) (p : proc) : proc :=
  mkProc (state p) (chan p) (killed p) (xstate p) (pid p) (creation_time p)
    (ctime p) (rtime p) (etime p) (iotime p) (first_run_time p) (parent p)
    (kstack p) (sz p) (pagetable p) (trapframe p) (context p) (ofile p) v
    (name p) (queue p) (p_ticks p).
Definition set_name (v : list Z) (p : proc) : proc :=
  mkProc (state p) (chan p) (killed p) (xstate p) (pid p) (creation_time p)
    (ctime p) (rtime p) (etime p) (iotime p) (first_run_time p) (parent p)
    (kstack p) (sz p) (pagetable p) (trapframe p) (context p) (ofile p) (cwd
    p) v (queue p) (p_ticks p).
Definition set_queue (v : Z) (p : proc) : proc :=
  mkProc (state p) (chan p) (killed p) (xstate p) (pid p) (creation_time p)
    (ctime p) (rtime p) (etime p) (iotime p) (first_run_time p) (parent p)
    (kstack p) (sz p) (pagetable p) (trapframe p) (context p) (ofile p) (cwd
    p) (name p) v (p_ticks p).
Definition set_p_ticks (v : Z) (p : proc) : proc :=
  mkProc (state p) (chan p) (killed p) (xstate p) (pid p) (creation_time p)
    (ctime p) (rtime p) (etime p) (iotime p) (first_run_time p) (parent p)
    (kstack p) (sz p) (pagetable p) (trapframe p) (context p) (ofile p) (cwd
    p) (name p) (queue p) v.

Definition NCPU : nat := 8%nat.
Definition NOFILE : nat := 16%nat.

(** The statically zeroed slot. *)
Definition proc_zero : proc :=
  mkProc UNUSED None 0 0 0 0 0 0 0 0 0 None 0 0 0 0 None (replicate NOFILE 0) 0 [] 0 0.

(** Console output of the scheduler. *)
Inductive kevent :=
| EMetrics (pid turnaround waiting response : Z)
| EPlot (tick pid queue : Z)
| EDump (pid : Z) (state : string) (name : list Z) (queue ticks : Z).

(** ** Interface to memory, files and inodes *)

(** Operations of [kalloc.c], [vm.c], [file.c] and [fs.c] that [proc.c] calls,
    over their own state [E]; a null result is 0. *)
Class ProcEnv (E : Type) := {
  pe_kalloc : M E Z;
  pe_kfree : Z -> M E unit;
  pe_proc_pagetable : Z -> M E Z;
  pe_proc_freepagetable : Z -> Z -> M E unit;
  pe_uvmcopy : Z -> Z -> Z -> M E Z;
  pe_uvmalloc : Z -> Z -> Z -> Z -> M E Z;
  pe_uvmdealloc : Z -> Z -> Z -> M E Z;
  (** [*(np->trapframe) = *(p->trapframe); np->trapframe->a0 = 0;] *)
  pe_copy_trapframe : Z -> Z -> M E unit;
  pe_copyout_int : Z -> Z -> Z -> M E Z;
  pe_filedup : Z -> M E Z;
  pe_fileclose : Z -> M E unit;
  pe_idup : Z -> M E Z;
  (** [begin_op(); iput(ip); end_op();] *)
  pe_iput : Z -> M E unit;
  pe_namei_root : M E Z
}.

Section Proc.
Context {E : Type} `{PE : ProcEnv E}.

(** The globals of [proc.c] and [ticks] of [trap.c]; [cpus\[h\].proc]. *)
Record kstate := mkK {
  procs : list proc;
  mq : mlfq_state;
  nextpid : Z;
  kticks : Z;
  cpus : list (option nat);
  initproc : option nat;
  klog : list kevent;
  env : E
}.

Definition K := M kstate.

Definition set_procs v (k : kstate) : kstate :=
  mkK v (mq k) (nextpid k) (kticks k) (cpus k) (initproc k) (klog k) (env k).
Definition set_mq v (k : kstate) : kstate :=
  mkK (procs k) v (nextpid k) (kticks k) (cpus k) (initproc k) (klog k) (env k).
Definition set_nextpid v (k : kstate) : kstate :=
  mkK (procs k) (mq k) v (kticks k) (cpus k) (initproc k) (klog k) (env k).
Definition set_kticks v (k : kstate) : kstate :=
  mkK (procs k) (mq k) (nextpid k) v (cpus k) (initproc k) (klog k) (env k).
Definition set_cpus v (k : kstate) : kstate :=
  mkK (procs k) (mq k) (nextpid k) (kticks k) v (initproc k) (klog k) (env k).
Definition set_initproc v (k : kstate) : kstate :=
  mkK (procs k) (mq k) (nextpid k) (kticks k) (cpus k) v (klog k) (env k).
Definition set_klog v (k : kstate) : kstate :=
  mkK (procs k) (mq k) (nextpid k) (kticks k) (cpus k) (initproc k) v (env k).
Definition set_env v (k : kstate) : kstate :=
  mkK (procs k) (mq k) (nextpid k) (kticks k) (cpus k) (initproc k) (klog k) v.

(** Run an operation of another component on its part of the state. *)
Definition liftQ {A} (m : M mlfq_state A) : K A := fun k =>
  match m (mq k) with
  | Ret (a, q) => Ret (a, set_mq q k)
  | Panic e => Panic e
  | Undef e => Undef e
  end.
Definition liftE {A} (m : M E A) : K A := fun k =>
  match m (env k) with
  | Ret (a, e) => Ret (a, set_env e k)
  | Panic e => Panic e
  | Undef e => Undef e
  end.

Definition getp (k : kstate) (i : nat) : proc := nth i (procs k) proc_zero.
Definition upd_proc (i : nat) (f : proc -> proc) (k : kstate) : kstate :=
  set_procs (<[i := f (getp k i)]> (procs k)) k.
Definition modp (i : nat) (f : proc -> proc) : K unit := modify (upd_proc i f).
Definition readp (i : nat) : K proc := gets (fun k => getp k i).
Definition log_event (e : kevent) : K unit := modify (fun k => set_klog (klog k ++ [e]) k).

(** [for (p = proc; p < &proc\[NPROC\]; p++)] *)
Definition all_procs : list nat := seq 0 NPROC.
Fixpoint for_each (l : list nat) (body : nat -> K unit) : K unit :=
  match l with
  | [] => mret tt
  | i :: l' => _ ← body i; for_each l' body
  end.

(** [mycpu()->proc] *)
Definition myproc (h : nat) : K (option nat) := gets (fun k => nth h (cpus k) None).
(** [myproc()] where the code dereferences it. *)
Definition curproc (h : nat) : K nat :=
  o ← myproc h;
  match o with Some p => mret p | None => undef "myproc() is null" end.
Definition set_cpu (h : nat) (o : option nat) : K unit :=
  modify (fun k => set_cpus (<[h := o]> (cpus k)) k).

(** ** Operations *)

(** Under [p->lock]; [boost_queues] runs later, under [mlfq_lock]. *)
Definition boost_one (i : nat) : K unit := modp i (fun p => set_p_ticks 0 (set_queue 0 p)).

Definition boost_priority : K unit :=
  _ ← for_each all_procs boost_one;
  liftQ boost_queues.

Definition procinit : K unit :=
  for_each all_procs (fun i =>
    modp i (fun p => set_kstack (KSTACK (Z.of_nat i)) (set_state UNUSED p))).

Definition allocpid : K Z :=
  k ← get;
  _ ← put (set_nextpid (i32 (nextpid k + 1)) k);
  mret (nextpid k).

Definition freeproc (i : nat) : K unit :=
  p ← readp i;
  _ ← (if c_true (trapframe p) then liftE (pe_kfree (trapframe p)) else mret tt);
  _ ← modp i (set_trapframe 0);
  _ ← (if c_true (pagetable p) then liftE (pe_proc_freepagetable (pagetable p) (sz p))
       else mret tt);
  modp i (fun p => set_state UNUSED (set_xstate 0 (set_killed 0 (set_chan None
    (set_name [] (set_pid 0 (set_sz 0 (set_pagetable 0 p)))))))).

(** The scan of [allocproc] for an [UNUSED] slot. *)
Fixpoint find_unused (l : list nat) (k : kstate) : option nat :=
  match l with
  | [] => None
  | i :: l' => if bool_decide (state (getp k i) = UNUSED) then Some i else find_unused l' k
  end.

Definition allocproc : K (option nat) :=
  o ← gets (find_unused all_procs);
  match o with
  | None => mret None
  | Some i =>
    id ← allocpid;
    now ← gets kticks;
    _ ← modp i (fun p => set_p_ticks 0 (set_queue 0 (set_first_run_time 0 (set_iotime 0
          (set_etime 0 (set_rtime 0 (set_ctime now (set_creation_time now
          (set_state USED (set_pid id p))))))))));
    tf ← liftE pe_kalloc;
    _ ← modp i (set_trapframe tf);
    if negb (c_true tf) then _ ← freeproc i; mret None
    else
      pt ← liftE (pe_proc_pagetable tf);
      _ ← modp i (set_pagetable pt);
      if negb (c_true pt) then _ ← freeproc i; mret None
      else
        _ ← modp i (fun p => set_context (Some ("forkret"%string, kstack p + PGSIZE)) p);
        mret (Some i)
  end.

Definition userinit : K unit :=
  o ← allocproc;
  _ ← modify (set_initproc o);
  match o with
  | None => undef "userinit: null process"
  | Some i =>
    ip ← liftE pe_namei_root;
    _ ← modp i (set_cwd ip);
    _ ← modp i (set_state RUNNABLE);
    p ← readp i;
    liftQ (enqueue (queue p) i)
  end.

Definition growproc (h : nat) (n : Z) : K Z :=
  i ← curproc h;
  p ← readp i;
  if 0 <? n then
    if TRAPFRAME <? u64 (sz p + n) then mret (-1)
    else
      s ← liftE (pe_uvmalloc (pagetable p) (sz p) (u64 (sz p + n)) PTE_W);
      if s =? 0 then mret (-1) else _ ← modp i (set_sz s); mret 0
  else if n <? 0 then
    s ← liftE (pe_uvmdealloc (pagetable p) (sz p) (u64 (sz p + n)));
    _ ← modp i (set_sz s); mret 0
  else _ ← modp i (set_sz (sz p)); mret 0.

(** [for (i = 0; i < NOFILE; i++) if (p->ofile\[i\]) np->ofile\[i\] = filedup(...)] *)
Fixpoint dup_files (np : nat) (l : list Z) (fd : nat) : K unit :=
  match l with
  | [] => mret tt
  | f :: l' =>
    _ ← (if c_true f then
           g ← liftE (pe_filedup f);
           modp np (fun p => set_ofile (<[fd := g]> (ofile p)) p)
         else mret tt);
    dup_files np l' (S fd)
  end.

(** [kfork] up to [release(&np->lock)]: the child and its pid. *)
Definition fork_new (h : nat) : K (option (nat * Z)) :=
  i ← curproc h;
  o ← allocproc;
  match o with
  | None => mret None
  | Some np =>
    p ← readp i;
    n ← readp np;
    r ← liftE (pe_uvmcopy (pagetable p) (pagetable n) (sz p));
    if r <? 0 then _ ← freeproc np; mret None
    else
      _ ← modp np (set_sz (sz p));
      _ ← liftE (pe_copy_trapframe (trapframe n) (trapframe p));
      _ ← dup_files np (ofile p) 0;
      c ← liftE (pe_idup (cwd p));
      _ ← modp np (set_cwd c);
      _ ← modp np (set_name (take 15 (name p)));  (* safestrcpy, name\[16\] *)
      n' ← readp np;
      mret (Some (np, pid n'))
  end.

(** Under [wait_lock]. *)
Definition fork_link (h np : nat) : K unit := i ← curproc h; modp np (set_parent (Some i)).

(** Under [np->lock] again. *)
Definition fork_run (np : nat) : K unit :=
  _ ← modp np (set_state RUNNABLE);
  n ← readp np;
  liftQ (enqueue (queue n) np).

Definition kfork (h : nat) : K Z :=
  o ← fork_new h;
  match o with
  | None => mret (-1)
  | Some (np, pid) => _ ← fork_link h np; _ ← fork_run np; mret pid
  end.

(** [sched()]: the panic on a process still marked [RUNNING]; control returns to
    [scheduler()], which clears [c->proc]. *)
Definition sched (h : nat) : K unit :=
  i ← curproc h;
  p ← readp i;
  _ ← panic_if (bool_decide (state p = RUNNING)) "sched RUNNING";
  set_cpu h None.

(** Body of [wakeup]'s loop. *)
Definition wakeup_one (h : nat) (c : option channel) (i : nat) : K unit :=
  me ← myproc h;
  if bool_decide (Some i = me) then mret tt
  else
    p ← readp i;
    if bool_decide (state p = SLEEPING /\ chan p = c) then
      _ ← modp i (set_state RUNNABLE);
      liftQ (enqueue (queue p) i)
    else mret tt.

Definition wakeup (h : nat) (c : option channel) : K unit :=
  for_each all_procs (wakeup_one h c).

(** [pp->parent = initproc], for a child of [p]. *)
Definition give_child (p i : nat) : K bool :=
  pp ← readp i;
  if bool_decide (parent pp = Some p) then
    ip ← gets initproc;
    _ ← modp i (set_parent ip);
    mret true
  else mret false.

Definition reparent (h p : nat) : K unit :=
  for_each all_procs (fun i =>
    b ← give_child p i;
    if (b : bool) then
      ip ← gets initproc;
      wakeup h (ChProc <$> ip)
    else mret tt).

(** Close every open descriptor. *)
Definition close_fd (i fd : nat) : K unit :=
  p ← readp i;
  let f := nth fd (ofile p) 0 in
  if c_true f then
    _ ← liftE (pe_fileclose f);
    modp i (fun p => set_ofile (<[fd := 0]> (ofile p)) p)
  else mret tt.

Definition close_files (i : nat) : K unit := for_each (seq 0 NOFILE) (close_fd i).

(** [begin_op(); iput(p->cwd); end_op(); p->cwd = 0;] *)
Definition drop_cwd (i : nat) : K unit :=
  p ← readp i;
  _ ← liftE (pe_iput (cwd p));
  modp i (set_cwd 0).

(** The numbers [kexit] reports for process [p]; [uint64] differences stored in
    [int]. *)
Definition metrics (p : proc) : Z * Z * Z :=
  let turnaround := i32 (u64 (etime p - creation_time p)) in
  let waiting := i32 (u64 (turnaround - rtime p - iotime p)) in
  let response := i32 (u64 (first_run_time p - creation_time p)) in
  (turnaround, waiting, response).

(** [kexit] from [acquire(&p->lock)] on. *)
Definition exit_end (h : nat) (status : Z) : K unit :=
  i ← curproc h;
  now ← gets kticks;
  _ ← modp i (fun p => set_etime now (set_state ZOMBIE (set_xstate status p)));
  p ← readp i;
  _ ← (if 2 <? pid p then
         let '(t, w, r) := metrics p in log_event (EMetrics (pid p) t w r)
       else mret tt);
  sched h.

Definition kexit (h : nat) (status : Z) : K unit :=
  i ← curproc h;
  ip ← gets initproc;
  _ ← panic_if (bool_decide (Some i = ip)) "init exiting";
  _ ← close_files i;
  _ ← drop_cwd i;
  _ ← reparent h i;
  p ← readp i;
  _ ← wakeup h (ChProc <$> parent p);
  exit_end h status.

Definition sleep (h : nat) (c : channel) : K unit :=
  i ← curproc h;
  _ ← modp i (fun p => set_p_ticks 0 (set_state SLEEPING (set_chan (Some c) p)));
  sched h.

(** The last lines of [sleep], run when the sleeper is scheduled again. *)
Definition sleep_resume (i : nat) : K unit := modp i (set_chan None).

Definition setkilled (i : nat) : K unit := modp i (set_killed 1).
Definition killed_ (i : nat) : K Z := p ← readp i; mret (killed p).

(** One pass of [kwait]'s loop over the table. *)
Inductive scan_res := ScanNone (havekids : bool) | ScanRet (r : Z).

(** Child [c] of [i] has exited: [copyout] of its status, and its slot is freed. *)
Definition reap (i : nat) (addr : Z) (c : nat) : K Z :=
  p ← readp i;
  pp ← readp c;
  r ← (if c_true addr then liftE (pe_copyout_int (pagetable p) addr (xstate pp))
       else mret 0);
  if r <? 0 then mret (-1)
  else
    _ ← modp c (set_parent None);
    _ ← freeproc c;
    mret (pid pp).

Fixpoint wait_scan (i : nat) (addr : Z) (l : list nat) (havekids : bool) : K scan_res :=
  match l with
  | [] => mret (ScanNone havekids)
  | c :: l' =>
    pp ← readp c;
    if bool_decide (parent pp = Some i) then
      if bool_decide (state pp = ZOMBIE) then
        r ← reap i addr c;
        mret (ScanRet r)
      else wait_scan i addr l' true
    else wait_scan i addr l' havekids
  end.

(** [kwait] up to its return or its [sleep(p, &wait_lock)] ([None]); a woken
    caller runs it again. *)
Definition kwait (h : nat) (addr : Z) : K (option Z) :=
  i ← curproc h;
  r ← wait_scan i addr all_procs false;
  match r with
  | ScanRet v => mret (Some v)
  | ScanNone havekids =>
    kl ← killed_ i;
    if negb havekids || c_true kl then mret (Some (-1))
    else _ ← sleep h (ChProc i); mret None
  end.

(** [p->state = RUNNING; c->proc = p; first_run_time; swtch(...)] *)
Definition switch_to (h i : nat) : K unit :=
  now ← gets kticks;
  _ ← modp i (set_state RUNNING);
  _ ← set_cpu h (Some i);
  modp i (fun p => if first_run_time p =? 0 then set_first_run_time now p else p).

(** Under [p->lock], once [i] is off its queue: it runs if it still can. *)
Definition dispatch (h i : nat) : K bool :=
  p ← readp i;
  if bool_decide (state p = RUNNABLE) then _ ← switch_to h i; mret true else mret false.

(** [while (1)] over level [q]: non-runnable entries are dropped.  A level holds
    at most [NPROC] entries and each iteration removes one. *)
Fixpoint sched_level (fuel : nat) (h : nat) (q : Z) : K (option nat) :=
  match fuel with
  | O => undef "sched_level: out of fuel"
  | S fuel' =>
    o ← liftQ (dequeue q);
    match o with
    | None => mret None
    | Some i =>
      b ← dispatch h i;
      if (b : bool) then mret (Some i) else sched_level fuel' h q
    end
  end.

Fixpoint sched_levels (h : nat) (levels : list Z) : K (option nat) :=
  match levels with
  | [] => mret None
  | q :: rest =>
    o ← sched_level (S NPROC) h q;
    match o with
    | Some i => mret (Some i)
    | None => sched_levels h rest
    end
  end.

(** One iteration of [scheduler()], MLFQ build, up to the switch ([Some i]) or
    the [wfi] ([None]). *)
Definition scheduler_mlfq (h : nat) : K (option nat) :=
  _ ← set_cpu h None;
  sched_levels h [0; 1; 2; 3].

(** FIFO build: the scan for the oldest runnable process. *)
Fixpoint oldest (k : kstate) (l : list nat) (min_p : option nat) : option nat :=
  match l with
  | [] => min_p
  | i :: l' =>
    if bool_decide (state (getp k i) = RUNNABLE) then
      match min_p with
      | None => oldest k l' (Some i)
      | Some m => if creation_time (getp k i) <? creation_time (getp k m)
                  then oldest k l' (Some i) else oldest k l' min_p
      end
    else oldest k l' min_p
  end.

Definition scheduler_fifo (h : nat) : K (option nat) :=
  _ ← set_cpu h None;
  o ← gets (fun k => oldest k all_procs None);
  match o with
  | None => mret None
  | Some i => _ ← switch_to h i; mret (Some i)
  end.

(** Round-robin build: the scan from slot [i] of the pass to the next runnable
    process; the pass resumes after it. *)
Fixpoint next_runnable (k : kstate) (l : list nat) : option nat :=
  match l with
  | [] => None
  | i :: l' => if bool_decide (state (getp k i) = RUNNABLE) then Some i
               else next_runnable k l'
  end.

Definition scheduler_rr (h from : nat) : K (option nat) :=
  _ ← set_cpu h None;
  o ← gets (fun k => next_runnable k (drop from all_procs));
  match o with
  | None => mret None
  | Some i => _ ← switch_to h i; mret (Some i)
  end.

(** The time slice of a level. *)
Definition slice (q : Z) : Z :=
  if q =? 1 then 4 else if q =? 2 then 8 else if q =? 3 then 16 else 1.

(** [for (i = 0; i < p->queue; i++) if (qcount\[i\] > 0) preempt = 1;] *)
Fixpoint any_above (s : mlfq_state) (i : Z) (n : nat) : bool :=
  match n with
  | O => false
  | S n' => (0 <? qc s i) || any_above s (i + 1) n'
  end.

(** MLFQ [yield]; true when the process gave up the hart.  [preempt] is read
    under [mlfq_lock], which [enqueue] takes again later. *)
Definition yield_with (h : nat) (read_preempt : proc -> K bool) : K bool :=
  i ← curproc h;
  _ ← modp i (fun p => set_p_ticks (p_ticks p + 1) p);
  p ← readp i;
  let sl := slice (queue p) in
  preempt ← read_preempt p;
  if (sl <=? p_ticks p) || preempt then
    _ ← (if sl <=? p_ticks p then
           modp i (fun p => set_p_ticks 0
                     (if queue p <? 3 then set_queue (queue p + 1) p else p))
         else mret tt);
    _ ← modp i (set_state RUNNABLE);
    p' ← readp i;
    _ ← liftQ (enqueue (queue p') i);
    _ ← sched h;
    mret true
  else mret false.

Definition work_above (p : proc) : K bool := gets (fun k => any_above (mq k) 0 (Z.to_nat (queue p))).

Definition yield (h : nat) : K bool := yield_with h work_above.

(** [yield] of the builds without run queues. *)
Definition yield_rr (h : nat) : K unit :=
  i ← curproc h;
  _ ← modp i (set_state RUNNABLE);
  sched h.

(** The body of [kkill]'s loop: was it this process? *)
Definition kill_one (target : Z) (i : nat) : K bool :=
  p ← readp i;
  if pid p =? target then
    _ ← modp i (set_killed 1);
    _ ← (if bool_decide (state p = SLEEPING) then
           _ ← modp i (set_state RUNNABLE);
           liftQ (enqueue (queue p) i)
         else mret tt);
    mret true
  else mret false.

Fixpoint kill_scan (target : Z) (l : list nat) : K Z :=
  match l with
  | [] => mret (-1)
  | i :: l' =>
    b ← kill_one target i;
    if (b : bool) then mret 0 else kill_scan target l'
  end.

Definition kkill (target : Z) : K Z := kill_scan target all_procs.

(** The body of [update_time]'s loop: charge the tick and trace the queue level. *)
Definition charge (i : nat) : K unit :=
  p ← readp i;
  _ ← (if bool_decide (state p = RUNNING) then modp i (set_rtime (u64 (rtime p + 1)))
       else if bool_decide (state p = SLEEPING)
            then modp i (set_iotime (u64 (iotime p + 1)))
       else mret tt);
  if (2 <? pid p) && negb (bool_decide (state p = UNUSED)) &&
     negb (bool_decide (state p = ZOMBIE)) then
    now ← gets kticks;
    log_event (EPlot now (pid p) (queue p))
  else mret tt.

Definition update_time : K unit := for_each all_procs charge.

(** [ticks++], under [tickslock]. *)
Definition tick : K unit := modify (fun k => set_kticks (u32 (kticks k + 1)) k).

(** [clockintr]: only hart 0 keeps time.  Re-arming the timer is not modelled. *)
Definition clockintr (h : nat) : K unit :=
  if (h =? 0)%nat then
    _ ← tick;
    _ ← update_time;
    _ ← wakeup h (Some ChTicks);
    now ← gets kticks;
    if now mod 48 =? 0 then boost_priority else mret tt
  else mret tt.

Definition state_name (s : procstate) : string :=
  match s with
  | UNUSED => "unused" | USED => "used" | SLEEPING => "sleep " | RUNNABLE => "runble"
  | RUNNING => "run   " | ZOMBIE => "zombie"
  end.

Definition dump_one (i : nat) : K unit :=
  p ← readp i;
  if bool_decide (state p = UNUSED) then mret tt
  else log_event (EDump (pid p) (state_name (state p)) (name p) (queue p) (p_ticks p)).

Definition procdump : K unit := for_each all_procs dump_one.

End Proc.
