(* ===== verification/ProcInv.v ===== *)
(** * Invariants of the process table and the run queues

    The invariant of [proc.c] between two kernel calls, in three parts: run
    queues ([QInv]), harts ([CInv]) and process ids ([PInv]), and that every
    call preserves it and does not panic. *)

From S2P Require Import Prelude Riscv Mlfq Proc.

(** ** The environment's calls return *)

Definition total {E A} (m : M E A) : Prop := forall e, exists a e', m e = Ret (a, e').

Record env_total (E : Type) `{PE : ProcEnv E} : Prop := {
  tot_kalloc : total pe_kalloc;
  tot_kfree : forall a, total (pe_kfree a);
  tot_pagetable : forall a, total (pe_proc_pagetable a);
  tot_freepagetable : forall a b, total (pe_proc_freepagetable a b);
  tot_uvmcopy : forall a b c, total (pe_uvmcopy a b c);
  tot_uvmalloc : forall a b c d, total (pe_uvmalloc a b c d);
  tot_uvmdealloc : forall a b c, total (pe_uvmdealloc a b c);
  tot_copy_trapframe : forall a b, total (pe_copy_trapframe a b);
  tot_copyout : forall a b c, total (pe_copyout_int a b c);
  tot_filedup : forall a, total (pe_filedup a);
  tot_fileclose : forall a, total (pe_fileclose a);
  tot_idup : forall a, total (pe_idup a);
  tot_iput : forall a, total (pe_iput a);
  tot_namei_root : total pe_namei_root
}.

Section Inv.
Context {E : Type} `{PE : ProcEnv E}.
Implicit Types k : kstate (E := E).

(** ** The invariant *)

(** [X] are the runnable processes that are not queued: taken off a queue by a
    hart that has not switched to them yet, or about to be queued.  The level an
    entry waits at is not always the one in its process: see
    [Sched.boost_race]. *)
Record QInv (X : list nat) k : Prop := {
  q_len : length (procs k) = NPROC;
  q_wf : mlfq_wf (mq k);
  q_entry : forall q i, valid_level q -> i ∈ level (mq k) q ->
    (i < NPROC)%nat /\ state (getp k i) = RUNNABLE /\ i ∉ X;
  q_nodup : NoDup (all_levels (mq k));
  q_off : NoDup X /\ forall i, i ∈ X -> (i < NPROC)%nat /\ state (getp k i) = RUNNABLE;
  q_runnable : forall i, (i < NPROC)%nat -> state (getp k i) = RUNNABLE -> i ∉ X ->
    i ∈ all_levels (mq k);
  q_range : forall i, valid_level (queue (getp k i)) /\
    0 <= p_ticks (getp k i) < slice (queue (getp k i))
}.

(** A process is [RUNNING] exactly when it is the current process of one hart;
    [X] is a process that has left that state and is about to call [sched]. *)
Record CInv (X : option nat) k : Prop := {
  c_len : length (cpus k) = NCPU;
  c_cur : forall h i, cpus k !! h = Some (Some i) ->
    (i < NPROC)%nat /\ (X <> Some i -> state (getp k i) = RUNNING);
  c_inj : forall h h' i, cpus k !! h = Some (Some i) -> cpus k !! h' = Some (Some i) -> h = h';
  c_running : forall i, (i < NPROC)%nat -> state (getp k i) = RUNNING ->
    exists h, cpus k !! h = Some (Some i)
}.

(** Live processes have distinct positive pids below [nextpid]. *)
Record PInv k : Prop := {
  p_unused : forall i, (i < NPROC)%nat -> state (getp k i) = UNUSED -> pid (getp k i) = 0;
  p_live : forall i, (i < NPROC)%nat -> state (getp k i) <> UNUSED ->
    0 < pid (getp k i) < nextpid k;
  p_inj : forall i j, (i < NPROC)%nat -> (j < NPROC)%nat -> state (getp k i) <> UNUSED ->
    state (getp k j) <> UNUSED -> pid (getp k i) = pid (getp k j) -> i = j;
  p_next : 0 < nextpid k
}.

(** [hs] are the processes in the hands of the schedulers. *)
Definition KInv (hs : list nat) k : Prop := QInv hs k /\ CInv None k /\ PInv k.

(** ** Reading an updated process *)

Lemma getp_upd k i j f :
  getp (upd_proc i f k) j =
  if bool_decide (i = j /\ (i < length (procs k))%nat) then f (getp k i) else getp k j.
Proof.
  unfold getp, upd_proc. simpl. case_bool_decide as H.
  - destruct H as [<- H]. by rewrite nth_insert_eq.
  - destruct (decide (i = j)) as [<-|N]; [|by apply nth_insert_ne].
    rewrite list_insert_ge by (apply Nat.nlt_ge; tauto). done.
Qed.

Lemma getp_upd_eq k i f :
  (i < length (procs k))%nat -> getp (upd_proc i f k) i = f (getp k i).
Proof. intros H. rewrite getp_upd, bool_decide_true; done. Qed.

Lemma getp_upd_ne k i j f : i <> j -> getp (upd_proc i f k) j = getp k j.
Proof. intros H. rewrite getp_upd, bool_decide_false; tauto. Qed.

Lemma length_upd k i f : length (procs (upd_proc i f k)) = length (procs k).
Proof. apply length_insert. Qed.

(** ** The part of the state the invariant reads *)

Definition pview (p : proc) := (state p, queue p, p_ticks p, pid p).

Record same_view k k' : Prop := {
  sv_len : length (procs k') = length (procs k);
  sv_proc : forall i, pview (getp k' i) = pview (getp k i);
  sv_mq : mq k' = mq k;
  sv_cpus : cpus k' = cpus k;
  sv_next : nextpid k' = nextpid k
}.

Lemma pview_inv p p' :
  pview p' = pview p -> state p' = state p /\ queue p' = queue p /\
    p_ticks p' = p_ticks p /\ pid p' = pid p.
Proof. unfold pview. intros H. by simplify_eq. Qed.

Lemma same_view_refl k : same_view k k.
Proof. done. Qed.

Lemma same_view_trans k1 k2 k3 : same_view k1 k2 -> same_view k2 k3 -> same_view k1 k3.
Proof.
  intros [] []. split; try congruence; intros i; etransitivity; eauto.
Qed.

Lemma same_view_upd k i f :
  (forall p, pview (f p) = pview p) -> same_view k (upd_proc i f k).
Proof.
  intros Hf. split; try done; [apply length_upd|].
  intros j. rewrite getp_upd. case_bool_decide as H; [|done]. destruct H as [-> _]. apply Hf.
Qed.

Ltac view_rewrite SV :=
  let L := fresh "L" in
  pose proof (fun i => proj1 (pview_inv _ _ (sv_proc _ _ SV i))) as Hst;
  pose proof (fun i => proj1 (proj2 (pview_inv _ _ (sv_proc _ _ SV i)))) as Hqu;
  pose proof (fun i => proj1 (proj2 (proj2 (pview_inv _ _ (sv_proc _ _ SV i))))) as Htk;
  pose proof (fun i => proj2 (proj2 (proj2 (pview_inv _ _ (sv_proc _ _ SV i))))) as Hpid.

Lemma QInv_view X k k' : same_view k k' -> QInv X k -> QInv X k'.
Proof.
  intros SV []. view_rewrite SV. destruct SV as [L _ EM _ _].
  split; rewrite ?EM; try done; try congruence.
  - intros q i Hq Hi. rewrite Hst. exact (q_entry0 q i Hq Hi).
  - destruct q_off0 as [? Ho]. split; [done|]. intros i Hi. rewrite Hst. auto.
  - intros i. rewrite Hst. auto.
  - intros i. rewrite Hqu, Htk. auto.
Qed.

Lemma CInv_view X k k' : same_view k k' -> CInv X k -> CInv X k'.
Proof.
  intros SV []. view_rewrite SV. destruct SV as [_ _ _ EC _].
  split; rewrite ?EC; try done; intros *; rewrite ?Hst; eauto.
Qed.

Lemma PInv_view k k' : same_view k k' -> PInv k -> PInv k'.
Proof.
  intros SV []. view_rewrite SV. destruct SV as [_ _ _ _ EN].
  split; rewrite ?EN; try done; intros *; rewrite ?Hst, ?Hpid; eauto.
Qed.

Lemma KInv_view hs k k' : same_view k k' -> KInv hs k -> KInv hs k'.
Proof.
  intros SV (HQ & HC & HP). unfold KInv.
  split_and!; eauto using QInv_view, CInv_view, PInv_view.
Qed.

(** ** Updates of one process *)

Lemma QInv_upd_off X k i f :
  QInv X k -> state (getp k i) <> RUNNABLE -> state (f (getp k i)) <> RUNNABLE ->
  valid_level (queue (f (getp k i))) ->
  0 <= p_ticks (f (getp k i)) < slice (queue (f (getp k i))) ->
  QInv X (upd_proc i f k).
Proof.
  intros [] Ho Hn Hv Ht. split; try done.
  - by rewrite length_upd.
  - intros q j Hq Hj. destruct (q_entry0 q j Hq Hj) as (? & Hs & ?).
    rewrite getp_upd_ne by congruence. done.
  - destruct q_off0 as [? Hx]. split; [done|]. intros j Hj. destruct (Hx j Hj).
    rewrite getp_upd_ne by congruence. done.
  - intros j Hj. rewrite getp_upd. case_bool_decide; [done|]. by apply q_runnable0.
  - intros j. rewrite getp_upd. by case_bool_decide.
Qed.

(** The state stays; level and ticks may change. *)
Lemma QInv_upd_same X k i f :
  QInv X k -> state (f (getp k i)) = state (getp k i) ->
  valid_level (queue (f (getp k i))) ->
  0 <= p_ticks (f (getp k i)) < slice (queue (f (getp k i))) ->
  QInv X (upd_proc i f k).
Proof.
  intros [] Hs Hv Ht.
  assert (forall j, state (getp (upd_proc i f k) j) = state (getp k j)) as E1.
  { intros j. rewrite getp_upd. case_bool_decide as B; [|done]. by destruct B as [<- _]. }
  split; try done.
  - by rewrite length_upd.
  - intros q j Hq Hj. rewrite E1. exact (q_entry0 q j Hq Hj).
  - destruct q_off0 as [? Hx]. split; [done|]. intros j Hj. rewrite E1. auto.
  - intros j Hj. rewrite E1. by apply q_runnable0.
  - intros j. rewrite getp_upd. by case_bool_decide.
Qed.

Lemma QInv_upd_on hs k i f :
  QInv hs k -> (i < NPROC)%nat -> state (getp k i) <> RUNNABLE -> state (f (getp k i)) = RUNNABLE ->
  valid_level (queue (f (getp k i))) ->
  0 <= p_ticks (f (getp k i)) < slice (queue (f (getp k i))) ->
  QInv (i :: hs) (upd_proc i f k).
Proof.
  intros [] Hi Ho Hf Hv Ht. destruct q_off0 as [Hnd Hx].
  assert (i ∉ hs) as Hni by (intros Hin; by destruct (Hx i Hin)).
  split; try done.
  - by rewrite length_upd.
  - intros q j Hq Hj. destruct (q_entry0 q j Hq Hj) as (? & Hs & ?).
    assert (i <> j) by congruence. rewrite getp_upd_ne by done. set_solver.
  - split; [by constructor|]. intros j [->|Hj]%elem_of_cons.
    + rewrite getp_upd_eq by lia. done.
    + rewrite getp_upd_ne by (by intros ->). auto.
  - intros j Hj Hs [N HX]%not_elem_of_cons. rewrite getp_upd_ne in Hs by congruence. by apply q_runnable0.
  - intros j. rewrite getp_upd. by case_bool_decide.
Qed.

Lemma CInv_upd X k i f :
  CInv X k -> state (getp k i) <> RUNNING -> state (f (getp k i)) <> RUNNING ->
  CInv X (upd_proc i f k).
Proof.
  intros [] Ho Hn. split; try done; simpl.
  - intros h j Hh. destruct (c_cur0 h j Hh) as [Hj Hs]. split; [done|].
    intros HX. rewrite getp_upd. case_bool_decide as B; [|auto].
    destruct B as [-> _]. destruct Ho. auto.
  - intros j Hj. rewrite getp_upd. case_bool_decide as B; [done|]. apply c_running0, Hj.
Qed.

Lemma CInv_upd_run X k i f :
  CInv X k -> state (getp k i) = RUNNING -> state (f (getp k i)) = RUNNING ->
  CInv X (upd_proc i f k).
Proof.
  intros [] Ho Hn. split; try done; simpl.
  - intros h j Hh. destruct (c_cur0 h j Hh) as [Hj Hs]. split; [done|].
    intros HX. rewrite getp_upd. case_bool_decide; [done|auto].
  - intros j Hj. rewrite getp_upd. case_bool_decide as B; [|apply c_running0, Hj].
    destruct B as [-> _]. intros _. by apply c_running0.
Qed.

Lemma CInv_leave k h i f :
  CInv None k -> cpus k !! h = Some (Some i) -> state (f (getp k i)) <> RUNNING ->
  CInv (Some i) (upd_proc i f k).
Proof.
  intros [] Hc Hn. split; try done; simpl.
  - intros h' j Hh. destruct (c_cur0 h' j Hh) as [Hj Hs]. split; [done|].
    intros HX. rewrite getp_upd_ne by congruence. by apply Hs.
  - intros j Hj. rewrite getp_upd. case_bool_decide as B; [done|]. apply c_running0, Hj.
Qed.

Lemma PInv_upd k i f :
  PInv k -> pid (f (getp k i)) = pid (getp k i) ->
  (state (f (getp k i)) = UNUSED <-> state (getp k i) = UNUSED) ->
  PInv (upd_proc i f k).
Proof.
  intros [] Hp Hs.
  assert (forall j, pid (getp (upd_proc i f k) j) = pid (getp k j)) as Ep.
  { intros j. rewrite getp_upd. case_bool_decide as B; [|done]. by destruct B as [-> _]. }
  assert (forall j, state (getp (upd_proc i f k) j) = UNUSED <-> state (getp k j) = UNUSED) as Es.
  { intros j. rewrite getp_upd. case_bool_decide as B; [|done]. by destruct B as [-> _]. }
  split; try done; intros *; rewrite ?Es, ?Ep; eauto.
Qed.

Lemma QInv_perm X X' k : X ≡ₚ X' -> QInv X k -> QInv X' k.
Proof.
  intros HX [L0 W0 E0 N0 [Hnd Hx] R0 G0]. split; try done.
  - intros q i Hq Hi. rewrite <- HX. exact (E0 q i Hq Hi).
  - split; [by rewrite <- HX|]. intros i. rewrite <- HX. apply Hx.
  - intros i Hi Hs. rewrite <- HX. by apply R0.
Qed.

Lemma KInv_perm X X' k : X ≡ₚ X' -> KInv X k -> KInv X' k.
Proof. intros HX [HQ HK]. split; [by eapply QInv_perm|done]. Qed.

Lemma CInv_set_mq X k s : CInv X k -> CInv X (set_mq s k).
Proof. intros []. by split. Qed.
Lemma PInv_set_mq k s : PInv k -> PInv (set_mq s k).
Proof. intros []. by split. Qed.
Lemma QInv_set_cpus X k c : QInv X k -> QInv X (set_cpus c k).
Proof. intros []. by split. Qed.
Lemma PInv_set_cpus k c : PInv k -> PInv (set_cpus c k).
Proof. intros []. by split. Qed.

(** ** Rules for the state's operations *)

Lemma wp_modp F i f (Q : unit -> kstate -> Prop) k : Q tt (upd_proc i f k) -> wp F (modp i f) Q k.
Proof. done. Qed.

Lemma wp_readp F i (Q : proc -> kstate -> Prop) k : Q (getp k i) k -> wp F (readp i) Q k.
Proof. done. Qed.

Lemma same_view_upd' k k' i f :
  same_view k k' -> (forall p, pview (f p) = pview p) -> same_view k (upd_proc i f k').
Proof. intros H1 H2. eapply same_view_trans; [exact H1|by apply same_view_upd]. Qed.
Lemma same_view_klog k k' l : same_view k k' -> same_view k (set_klog l k').
Proof. by intros []. Qed.
Lemma same_view_kticks k k' l : same_view k k' -> same_view k (set_kticks l k').
Proof. by intros []. Qed.
Lemma same_view_env k k' e : same_view k k' -> same_view k (set_env e k').
Proof. by intros []. Qed.
Lemma same_view_initproc k k' e : same_view k k' -> same_view k (set_initproc e k').
Proof. by intros []. Qed.

End Inv.

(** Solve [same_view] goals by peeling the updates off the second state. *)
Ltac solve_view := repeat first
  [ done
  | apply same_view_klog | apply same_view_kticks | apply same_view_env
  | apply same_view_initproc
  | apply same_view_upd'; [|done] ].

(** Step through code over the process table. *)
Ltac kstep := lazymatch goal with
  | |- wp _ (modp _ _) _ _ => apply wp_modp
  | |- wp _ (readp _) _ _ => apply wp_readp
  | |- wp _ (if ?b then _ else _) _ _ => destruct b eqn:?;
    repeat match goal with
    | H : bool_decide _ = true |- _ => apply bool_decide_eq_true in H
    | H : bool_decide _ = false |- _ => apply bool_decide_eq_false in H
    end
  | _ => wp_step
  end.
Ltac ksteps := repeat kstep.

Section InvOps.
Context {E : Type} `{PE : ProcEnv E}.
Implicit Types k : kstate (E := E).
Context {F : Prop} {hs : list nat}.
Abbreviation kwp := (wp F).

Lemma wp_for_each l body (I : kstate -> Prop) k :
  (forall i k', i ∈ l -> I k' -> kwp (body i) (fun _ => I) k') -> I k ->
  kwp (for_each l body) (fun _ => I) k.
Proof.
  revert k. induction l as [|i l IH]; intros k Hb Hk; cbn [for_each].
  - by apply wp_ret.
  - apply wp_bind. eapply wp_mono; [apply Hb; [set_solver|done]|].
    intros [] k' Hk'. apply IH; [|done]. intros; apply Hb; [set_solver|done].
Qed.

Lemma wp_curproc h i (Q : nat -> kstate -> Prop) k :
  cpus k !! h = Some (Some i) -> Q i k -> kwp (curproc h) Q k.
Proof.
  intros Hc HQ. unfold curproc, myproc. apply wp_bind, wp_gets.
  rewrite (nth_lookup_Some _ _ _ _ Hc). by apply wp_ret.
Qed.

(** Fewer than [NPROC] distinct slots leave room for one more. *)
Lemma slots_bound (l : list nat) n :
  NoDup l -> (forall i, i ∈ l -> (i < n)%nat) -> (length l <= n)%nat.
Proof.
  intros Hnd Hl. transitivity (length (seq 0 n)); [|by rewrite length_seq].
  apply submseteq_length, NoDup_submseteq; [done|].
  intros i Hi. apply elem_of_seq. specialize (Hl i Hi). lia.
Qed.

Lemma elem_of_all_levels s i :
  i ∈ all_levels s <-> exists q, valid_level q /\ i ∈ level s q.
Proof.
  unfold all_levels, valid_level. rewrite !elem_of_app. split.
  - intros [Hi|[Hi|[Hi|Hi]]]; [exists 0|exists 1|exists 2|exists 3]; (split; [lia|done]).
  - intros (q & Hq & Hi).
    assert (q = 0 \/ q = 1 \/ q = 2 \/ q = 3) as [-> |[-> |[-> | ->]]] by lia; tauto.
Qed.

(** Two queue states that differ in one level. *)
Lemma all_levels_one s s' q :
  valid_level q -> (forall q', valid_level q' -> q' <> q -> level s' q' = level s q') ->
  exists a b, all_levels s = a ++ level s q ++ b /\ all_levels s' = a ++ level s' q ++ b.
Proof.
  unfold all_levels, valid_level. intros Hq Ho.
  assert (q = 0 \/ q = 1 \/ q = 2 \/ q = 3) as [-> |[-> |[-> | ->]]] by lia.
  - exists [], (level s 1 ++ level s 2 ++ level s 3). by rewrite (Ho 1), (Ho 2), (Ho 3) by lia.
  - exists (level s 0), (level s 2 ++ level s 3). by rewrite (Ho 0), (Ho 2), (Ho 3) by lia.
  - exists (level s 0 ++ level s 1), (level s 3). by rewrite (Ho 0), (Ho 1), (Ho 3), <- !app_assoc by lia.
  - exists (level s 0 ++ level s 1 ++ level s 2), []. by rewrite (Ho 0), (Ho 1), (Ho 2), <- !app_assoc, !app_nil_r by lia.
Qed.

Lemma all_levels_push s s' q i :
  valid_level q -> (forall q', valid_level q' -> q' <> q -> level s' q' = level s q') ->
  level s' q = level s q ++ [i] -> all_levels s' ≡ₚ i :: all_levels s.
Proof.
  intros Hq Ho Hl. destruct (all_levels_one s s' q Hq Ho) as (a & b & -> & ->). rewrite Hl. solve_Permutation.
Qed.

Lemma all_levels_pop s s' q i :
  valid_level q -> (forall q', valid_level q' -> q' <> q -> level s' q' = level s q') ->
  level s q = i :: level s' q -> all_levels s ≡ₚ i :: all_levels s'.
Proof.
  intros Hq Ho Hl. destruct (all_levels_one s s' q Hq Ho) as (a & b & -> & ->). rewrite Hl. solve_Permutation.
Qed.

Lemma all_entry X k i : QInv X k -> i ∈ all_levels (mq k) -> (i < NPROC)%nat /\ state (getp k i) = RUNNABLE /\ i ∉ X.
Proof. intros HQ (q & Hq & Hi)%elem_of_all_levels. by apply (q_entry _ _ HQ q i). Qed.

(** The invariant from the entries as one list. *)
Lemma QInv_entries X k : length (procs k) = NPROC -> mlfq_wf (mq k) ->
  (forall i, i ∈ all_levels (mq k) -> (i < NPROC)%nat /\ state (getp k i) = RUNNABLE /\ i ∉ X) ->
  NoDup (all_levels (mq k)) ->
  (NoDup X /\ forall i, i ∈ X -> (i < NPROC)%nat /\ state (getp k i) = RUNNABLE) ->
  (forall i, (i < NPROC)%nat -> state (getp k i) = RUNNABLE -> i ∉ X -> i ∈ all_levels (mq k)) ->
  (forall i, valid_level (queue (getp k i)) /\ 0 <= p_ticks (getp k i) < slice (queue (getp k i))) -> QInv X k.
Proof.
  intros H1 H2 H3 H4 H5 H6 H7. split; try done. intros q i Hq Hi. apply H3, elem_of_all_levels. eauto.
Qed.

Lemma all_levels_short X k : QInv X k -> (length (X ++ all_levels (mq k)) <= NPROC)%nat.
Proof.
  intros HQ. pose proof HQ as [_ _ _ Hn [Hnd Hx] _ _]. apply slots_bound.
  - apply list.NoDup_app. split; [done|]. split; [|done]. intros i Hi Hin. by destruct (all_entry _ _ _ HQ Hin) as (_ & _ & ?).
  - intros i [Hi|Hi]%elem_of_app; [by apply Hx|]. by apply (all_entry _ _ _ HQ).
Qed.

Lemma level_room k i q :
  QInv (i :: hs) k -> valid_level q -> (length (level (mq k) q) < NPROC)%nat.
Proof.
  intros HQ Hq. pose proof (all_levels_short _ _ HQ) as Hs.
  destruct (all_levels_one (mq k) (mq k) q Hq ltac:(done)) as (a & b & Ea & _). rewrite Ea, !length_app in Hs. cbn [length] in Hs. lia.
Qed.

Lemma wp_enqueue k i (Q : unit -> kstate -> Prop) :
  QInv (i :: hs) k ->
  (forall s, QInv hs (set_mq s k) ->
     level s (queue (getp k i)) = level (mq k) (queue (getp k i)) ++ [i] ->
     (forall q, valid_level q -> q <> queue (getp k i) -> level s q = level (mq k) q) ->
     Q tt (set_mq s k)) ->
  kwp (liftQ (enqueue (queue (getp k i)) i)) Q k.
Proof.
  intros HI HQ. pose proof HI as [L0 W0 _ N0 [Hnd Hx] R0 G0]. destruct (G0 i) as [Hv _].
  destruct (enqueue_spec (mq k) (queue (getp k i)) i W0 Hv (level_room k i _ HI Hv))
    as (s & Es & Hwf & Hl & Ho).
  pose proof (all_levels_push _ _ _ _ Hv Ho Hl) as Hp. apply list.NoDup_cons in Hnd as [Hni Hnd].
  unfold wp, liftQ. rewrite Es. apply HQ; [|done|done].
  apply QInv_entries; try done; cbn [mq set_mq].
  - intros j. rewrite Hp. change (getp (set_mq s k) j) with (getp k j). intros [->|Hj]%elem_of_cons.
    + destruct (Hx i ltac:(set_solver)). done.
    + destruct (all_entry _ _ _ HI Hj) as (? & ? & ?). set_solver.
  - rewrite Hp. constructor; [|done]. intros Hj. destruct (all_entry _ _ _ HI Hj) as (_ & _ & ?). set_solver.
  - split; [done|]. intros j Hj. apply Hx. set_solver.
  - intros j Hj Hr HX. rewrite Hp. change (getp (set_mq s k) j) with (getp k j) in Hr.
    destruct (decide (j = i)) as [->|N]; [set_solver|]. apply elem_of_cons. right. apply R0; [done|done|set_solver].
Qed.

(** ** The scheduling operations *)

Lemma wp_sched k h i (Q : unit -> kstate -> Prop) :
  CInv (Some i) k -> cpus k !! h = Some (Some i) -> state (getp k i) <> RUNNING ->
  (forall k', k' = set_cpus (<[h := None]> (cpus k)) k -> CInv None k' -> Q tt k') ->
  kwp (sched h) Q k.
Proof.
  intros [] Hc Hs HQ. unfold sched. apply wp_bind, (wp_curproc h i); [done|].
  ksteps. apply wp_panic_if; [by apply bool_decide_false|].
  unfold set_cpu. ksteps. apply HQ; [done|].
  split; simpl; rewrite ?length_insert; try done.
  - intros h' j Hh. destruct (decide (h' = h)) as [->|N].
    + rewrite list_lookup_insert_eq in Hh by (apply lookup_lt_Some in Hc; lia).
      done.
    + rewrite list_lookup_insert_ne in Hh by done. destruct (c_cur0 h' j Hh) as [? H].
      split; [done|]. intros _. apply H. intros [= ->]. by apply N, (c_inj0 h' h j).
  - intros h1 h2 j [(_ & ? & _)|[_ H1]]%list_lookup_insert_Some
      [(_ & ? & _)|[_ H2]]%list_lookup_insert_Some; [done..|eauto].
  - intros j Hj Hr. destruct (c_running0 j Hj Hr) as [h' Hh']. exists h'.
    rewrite list_lookup_insert_ne; [done|]. intros <-.
    change (getp (set_cpus _ k) j) with (getp k j) in Hr. congruence.
Qed.

(** A sleeping or newly built process becomes runnable. *)
Lemma wp_make_runnable k i (Q : unit -> kstate -> Prop) :
  KInv hs k -> (i < NPROC)%nat -> (state (getp k i) = SLEEPING \/ state (getp k i) = USED) ->
  (forall s, KInv hs (set_mq s (upd_proc i (set_state RUNNABLE) k)) ->
     level s (queue (getp k i)) = level (mq k) (queue (getp k i)) ++ [i] ->
     (forall q, valid_level q -> q <> queue (getp k i) -> level s q = level (mq k) q) ->
     Q tt (set_mq s (upd_proc i (set_state RUNNABLE) k))) ->
  kwp (liftQ (enqueue (queue (getp k i)) i)) Q (upd_proc i (set_state RUNNABLE) k).
Proof.
  intros (HQ & HC & HP) Hi Hs Hpost.
  set (k1 := upd_proc i (set_state RUNNABLE) k).
  assert (getp k1 i = set_state RUNNABLE (getp k i)) as E1
    by (apply getp_upd_eq; destruct HQ; lia).
  replace (queue (getp k i)) with (queue (getp k1 i)) in * by (by rewrite E1).
  destruct (q_range _ _ HQ i) as [Hv Ht].
  apply wp_enqueue.
  - apply QInv_upd_on; [done|done|destruct Hs as [-> | ->]; done|done|done|done].
  - intros s HQ' Hl Ho. apply Hpost; [|done|done]. split; [done|]. split.
    + apply CInv_set_mq, CInv_upd; [done|destruct Hs as [-> | ->]; done|done].
    + apply PInv_set_mq, PInv_upd; [done|done|]. destruct Hs as [-> | ->]; done.
Qed.

(** The invariant holds and no hart has switched since [k0]. *)
Definition still k0 k : Prop := KInv hs k /\ cpus k = cpus k0.

Lemma wp_wakeup_one k0 k h c i : (i < NPROC)%nat -> still k0 k -> kwp (wakeup_one h c i) (fun _ => still k0) k.
Proof.
  intros Hi [HK Hc]. unfold wakeup_one, myproc. ksteps; [done| |done].
  match goal with H : _ /\ _ |- _ => destruct H as [Hs _] end.
  apply wp_make_runnable; [done|done|by left|by intros; split].
Qed.

Lemma wp_wakeup k0 k h c : still k0 k -> kwp (wakeup h c) (fun _ => still k0) k.
Proof.
  intros HK. apply wp_for_each; [|done]. intros i k' Hi. apply wp_wakeup_one. apply elem_of_seq in Hi. lia.
Qed.

Lemma slice_pos q : 0 < slice q.
Proof. unfold slice. zsolve. Qed.

Lemma slice_step q : valid_level q -> q < 3 -> slice q < slice (q + 1).
Proof. unfold slice, valid_level. zsolve. Qed.

(** The current process of hart [h] leaves the hart through [sched]. *)
Lemma cur_proc k h i :
  KInv hs k -> cpus k !! h = Some (Some i) ->
  (i < NPROC)%nat /\ state (getp k i) = RUNNING /\ length (procs k) = NPROC.
Proof.
  intros (HQ & HC & _) Hc. destruct (c_cur _ _ HC h i Hc) as [Hi Hs].
  split; [done|]. split; [by apply Hs|]. by destruct HQ.
Qed.

Lemma wp_sleep k h i c (Q : unit -> kstate -> Prop) :
  KInv hs k -> cpus k !! h = Some (Some i) ->
  (forall k', KInv hs k' ->
     k' = set_cpus (<[h := None]> (cpus k)) (upd_proc i (fun p => set_p_ticks 0
            (set_state SLEEPING (set_chan (Some c) p))) k) -> Q tt k') ->
  kwp (sleep h c) Q k.
Proof.
  intros HK Hc Hpost. destruct (cur_proc k h i HK Hc) as (Hi & Hs & Hl).
  destruct HK as (HQ & HC & HP). destruct (q_range _ _ HQ i) as [Hv _].
  unfold sleep. apply wp_bind, (wp_curproc h i); [done|]. ksteps.
  set (f := fun p => set_p_ticks 0 (set_state SLEEPING (set_chan (Some c) p))).
  apply (wp_sched _ h i); [by apply (CInv_leave k h)|done|rewrite getp_upd_eq by lia; done|].
  intros k' -> HC'. apply Hpost; [|done]. split; [|split; [done|]].
  - apply QInv_set_cpus, QInv_upd_off; simpl; try done; [by rewrite Hs|].
    pose proof (slice_pos (queue (getp k i))). lia.
  - apply PInv_set_cpus, PInv_upd; [done|done|]. simpl. rewrite Hs. done.
Qed.

(** The state in which [yield] queues the process: after the tick is counted
    and, when the slice is used up, the level lowered. *)
Definition after_tick (p : proc) : proc :=
  if slice (queue p) <=? p_ticks p + 1
  then set_p_ticks 0 (if queue p <? 3 then set_queue (queue p + 1) p else p)
  else set_p_ticks (p_ticks p + 1) p.

Lemma after_tick_range p :
  valid_level (queue p) -> 0 <= p_ticks p < slice (queue p) ->
  valid_level (queue (after_tick p)) /\
  0 <= p_ticks (after_tick p) < slice (queue (after_tick p)).
Proof.
  intros Hv Ht. unfold after_tick, valid_level in *.
  destruct (Z.leb_spec (slice (queue p)) (p_ticks p + 1)); simpl; [|split; lia].
  destruct (Z.ltb_spec (queue p) 3); simpl;
    pose proof (slice_pos (queue p)); pose proof (slice_pos (queue p + 1)); split; lia.
Qed.

Lemma wp_kill_one target k i : KInv hs k -> (i < NPROC)%nat -> kwp (kill_one target i) (fun _ => still k) k.
Proof.
  intros HK Hi. unfold kill_one. ksteps; [|split; [|done]; eapply KInv_view; [by apply same_view_upd|done]|done].
  assert (KInv hs (upd_proc i (set_killed 1) k)) as HK'
    by (eapply KInv_view; [by apply same_view_upd|done]).
  replace (queue (getp k i)) with (queue (getp (upd_proc i (set_killed 1) k) i))
    by (rewrite getp_upd; by case_bool_decide).
  apply wp_make_runnable; [done|done| |].
  - left. rewrite getp_upd. by case_bool_decide.
  - intros. ksteps. by split.
Qed.

Lemma upd_upd k i f g :
  (i < length (procs k))%nat ->
  upd_proc i g (upd_proc i f k) = upd_proc i (fun p => g (f p)) k.
Proof.
  intros Hi. unfold upd_proc at 1 3, set_procs. rewrite getp_upd_eq by done. simpl.
  by rewrite list_insert_insert_eq.
Qed.

Lemma upd_ext k i f g : f (getp k i) = g (getp k i) -> upd_proc i f k = upd_proc i g k.
Proof. intros Hfg. unfold upd_proc. by rewrite Hfg. Qed.

(** Does the process give up the hart at this tick, having read [preempt]? *)
Definition gives_up (preempt : bool) k i : bool :=
  (slice (queue (getp k i)) <=? p_ticks (getp k i) + 1) || preempt.

(** The last lines of [yield], once the process is marked [RUNNABLE]. *)
Lemma wp_requeue k h i f (Q : bool -> kstate -> Prop) :
  KInv hs k -> cpus k !! h = Some (Some i) ->
  state (f (getp k i)) = RUNNABLE -> pid (f (getp k i)) = pid (getp k i) ->
  valid_level (queue (f (getp k i))) ->
  0 <= p_ticks (f (getp k i)) < slice (queue (f (getp k i))) ->
  (forall s k', KInv hs k' -> k' = set_cpus (<[h := None]> (cpus k)) (set_mq s (upd_proc i f k)) ->
     let q := queue (f (getp k i)) in
     level s q = level (mq k) q ++ [i] ->
     (forall q', valid_level q' -> q' <> q -> level s q' = level (mq k) q') ->
     Q true k') ->
  kwp (p ← readp i; _ ← liftQ (enqueue (queue p) i); _ ← sched h; mret true) Q (upd_proc i f k).
Proof.
  intros HK Hc Hs Hp Hv Ht Hpost. destruct (cur_proc k h i HK Hc) as (Hi & Hr & Hl).
  pose proof HK as (HQ & HC & HP).
  assert (getp (upd_proc i f k) i = f (getp k i)) as Eg by (apply getp_upd_eq; lia).
  apply wp_bind, wp_readp, wp_bind, wp_enqueue.
  { apply QInv_upd_on; try done. by rewrite Hr. }
  rewrite Eg. intros s HQ' Hlev Hoth. apply wp_bind.
  apply (wp_sched _ h i); [|done|change (state (getp (upd_proc i f k) i) <> RUNNING);
                             by rewrite Eg, Hs|].
  { apply CInv_set_mq, (CInv_leave k h); [done|done|by rewrite Hs]. }
  intros k' -> HC'. apply wp_ret, (Hpost s); [|done|done|done].
  split; [by apply QInv_set_cpus|]. split; [done|].
  apply PInv_set_cpus, PInv_set_mq, PInv_upd; [done|done|]. by rewrite Hs, Hr.
Qed.

Lemma wp_yield k h i read b (Q : bool -> kstate -> Prop) :
  (forall p k', queue p = queue (getp k i) -> mq k' = mq k -> read p k' = Ret (b, k')) ->
  KInv hs k -> cpus k !! h = Some (Some i) ->
  (gives_up b k i = false ->
     KInv hs (upd_proc i after_tick k) -> Q false (upd_proc i after_tick k)) ->
  (gives_up b k i = true -> forall s k', KInv hs k' ->
     k' = set_cpus (<[h := None]> (cpus k))
            (set_mq s (upd_proc i (fun p => set_state RUNNABLE (after_tick p)) k)) ->
     let q := queue (after_tick (getp k i)) in
     level s q = level (mq k) q ++ [i] ->
     (forall q', valid_level q' -> q' <> q -> level s q' = level (mq k) q') ->
     Q true k') ->
  kwp (yield_with h read) Q k.
Proof.
  intros Hread HK Hc Hstay Hleave. destruct (cur_proc k h i HK Hc) as (Hi & Hs & Hl).
  pose proof HK as (HQ & HC & HP). destruct (q_range _ _ HQ i) as [Hv Ht].
  destruct (after_tick_range _ Hv Ht) as [Hv' Ht'].
  assert (state (after_tick (getp k i)) = RUNNING /\ pid (after_tick (getp k i)) = pid (getp k i))
    as [Hs' Hp'].
  { unfold after_tick. by repeat case_match. }
  set (G := fun p => set_state RUNNABLE (after_tick p)).
  unfold yield_with. apply wp_bind, (wp_curproc h i); [done|].
  apply wp_bind, wp_modp, wp_bind, wp_readp.
  rewrite getp_upd_eq by lia. cbv zeta. apply wp_bind.
  unfold wp at 1. rewrite Hread by done. cbv beta iota.
  change (queue (set_p_ticks ?n ?p)) with (queue p).
  change (p_ticks (set_p_ticks ?n ?p)) with n.
  fold (gives_up b k i). unfold gives_up in *.
  destruct (Z.leb_spec (slice (queue (getp k i))) (p_ticks (getp k i) + 1)) as [Hx|Hx].
  2: destruct b.
  - simpl orb in *. cbv iota. apply wp_bind, wp_modp, wp_bind, wp_modp.
    rewrite !upd_upd by (rewrite ?length_upd; lia). rewrite (upd_ext _ _ _ G).
    { apply wp_requeue; try done. by apply Hleave. }
    unfold G, after_tick. simpl. destruct (Z.leb_spec (slice (queue (getp k i))) (p_ticks (getp k i) + 1)); [|lia].
    by destruct (queue (getp k i) <? 3).
  - simpl orb in *. cbv iota. apply wp_bind, wp_ret, wp_bind, wp_modp.
    rewrite !upd_upd by (rewrite ?length_upd; lia). rewrite (upd_ext _ _ _ G).
    { apply wp_requeue; try done. by apply Hleave. }
    unfold G, after_tick. destruct (Z.leb_spec (slice (queue (getp k i))) (p_ticks (getp k i) + 1)); [lia|done].
  - simpl orb in *. cbv iota. apply wp_ret. rewrite (upd_ext _ _ _ after_tick).
    { apply Hstay; [done|]. split; [|split].
      - apply QInv_upd_off; try done; [by rewrite Hs|by rewrite Hs'].
      - apply CInv_upd_run; congruence.
      - apply PInv_upd; [done|done|]. by rewrite Hs, Hs'. }
    unfold after_tick. destruct (Z.leb_spec (slice (queue (getp k i))) (p_ticks (getp k i) + 1)); [lia|done].
Qed.

(** ** The scheduler *)

Lemma QInv_dequeued k q i s :
  QInv hs k -> valid_level q -> level (mq k) q = i :: level s q -> mlfq_wf s ->
  (forall q', valid_level q' -> q' <> q -> level s q' = level (mq k) q') ->
  QInv (i :: hs) (set_mq s k).
Proof.
  intros HQ Hq Hl Hwf Ho. pose proof HQ as [L0 W0 _ N0 [Hnd Hx] R0 G0].
  pose proof (all_levels_pop _ _ _ _ Hq Ho Hl) as Hp. rewrite Hp in N0. apply list.NoDup_cons in N0 as [Hni N0].
  assert (forall j, j ∈ i :: all_levels s -> (j < NPROC)%nat /\ state (getp k j) = RUNNABLE /\ j ∉ hs) as He.
  { intros j. rewrite <- Hp. by apply all_entry. }
  apply QInv_entries; try done; cbn [mq set_mq].
  - intros j Hj. change (getp (set_mq s k) j) with (getp k j). destruct (He j ltac:(set_solver)) as (? & ? & ?).
    split; [done|]. split; [done|]. apply not_elem_of_cons. split; [by intros ->|done].
  - destruct (He i ltac:(set_solver)) as (? & ? & ?). split; [by constructor|].
    intros j [->|Hj]%elem_of_cons; [done|by apply Hx].
  - intros j Hj Hr [N HX]%not_elem_of_cons. specialize (R0 j Hj Hr HX). rewrite Hp in R0. set_solver.
Qed.

Lemma QInv_picked k i f :
  QInv (i :: hs) k -> state (f (getp k i)) <> RUNNABLE ->
  queue (f (getp k i)) = queue (getp k i) -> p_ticks (f (getp k i)) = p_ticks (getp k i) ->
  QInv hs (upd_proc i f k).
Proof.
  intros [L0 W0 E0 N0 [Hnd Hx] R0 G0] Hs Hq Ht. apply list.NoDup_cons in Hnd as [Hni Hnd].
  destruct (Hx i ltac:(set_solver)) as [Hi _]. split; try done.
  - by rewrite length_upd.
  - intros q j Hv Hj. destruct (E0 q j Hv Hj) as (? & ? & [??]%not_elem_of_cons).
    rewrite getp_upd_ne by congruence. done.
  - split; [done|]. intros j Hj. rewrite getp_upd_ne by (by intros ->). apply Hx. set_solver.
  - intros j Hj. destruct (decide (i = j)) as [<-|N].
    + rewrite getp_upd_eq by lia. done.
    + rewrite getp_upd_ne by done. intros. apply R0; set_solver.
  - intros j. rewrite getp_upd. case_bool_decide; [|done]. rewrite Hq, Ht. done.
Qed.

Lemma CInv_enter k h i f :
  CInv None k -> cpus k !! h = Some None -> state (getp k i) <> RUNNING ->
  state (f (getp k i)) = RUNNING -> (i < NPROC)%nat -> length (procs k) = NPROC ->
  CInv None (set_cpus (<[h := Some i]> (cpus k)) (upd_proc i f k)).
Proof.
  intros [] Hc Hs Hr Hi Hl. assert (h < length (cpus k))%nat by (by eapply lookup_lt_Some).
  split; simpl; rewrite ?length_insert; try done.
  - intros h' j [(<- & [= <-] & _)|[N Hh]]%list_lookup_insert_Some.
    + split; [done|]. intros _. change (state (getp (upd_proc i f k) i) = RUNNING).
      by rewrite getp_upd_eq by lia.
    + destruct (c_cur0 h' j Hh) as [? Hj]. split; [done|]. intros HX.
      change (state (getp (upd_proc i f k) j) = RUNNING).
      rewrite getp_upd. case_bool_decide as B; [destruct B as [-> _]; done|auto].
  - intros h1 h2 j [(<- & [= <-] & _)|[N1 H1]]%list_lookup_insert_Some
      [(<- & Ej & _)|[N2 H2]]%list_lookup_insert_Some; simplify_eq; try done.
    + destruct (c_cur0 h2 i H2) as [_ ?]. destruct Hs. auto.
    + destruct (c_cur0 h1 j H1) as [_ ?]. destruct Hs. auto.
    + eauto.
  - intros j Hj. change (state (getp (upd_proc i f k) j) = RUNNING -> exists h0, <[h:=Some i]> (cpus k) !! h0 = Some (Some j)).
    destruct (decide (i = j)) as [<-|N].
    + intros _. exists h. by apply list_lookup_insert_eq.
    + rewrite getp_upd_ne by done. intros Hrj. destruct (c_running0 j Hj Hrj) as [h' Hh'].
      exists h'. rewrite list_lookup_insert_ne; [done|]. congruence.
Qed.

(** What [switch_to] does to the chosen process at tick [now]. *)
Definition dispatched (now : Z) (p : proc) : proc :=
  if first_run_time p =? 0 then set_first_run_time now (set_state RUNNING p)
  else set_state RUNNING p.

Lemma switch_to_run k h i :
  (i < length (procs k))%nat ->
  switch_to h i k =
    Ret (tt, set_cpus (<[h := Some i]> (cpus k)) (upd_proc i (dispatched (kticks k)) k)).
Proof.
  intros Hi. unfold switch_to, mbind, M_bind, modp, set_cpu. cbn. do 2 f_equal.
  change (upd_proc i ?g (set_cpus ?c ?k0)) with (set_cpus c (upd_proc i g k0)).
  rewrite upd_upd by done. f_equal.
Qed.

(** State after hart [h] takes the head [i] of the queues. *)
Definition run_next h i s k : kstate :=
  set_cpus (<[h := Some i]> (cpus k)) (upd_proc i (dispatched (kticks k)) (set_mq s k)).

Lemma dispatched_view now p :
  state (dispatched now p) = RUNNING /\ queue (dispatched now p) = queue p /\
  p_ticks (dispatched now p) = p_ticks p /\ pid (dispatched now p) = pid p.
Proof. unfold dispatched. by case_match. Qed.

(** A hart switches to the process it has taken. *)
Lemma dispatch_run k h i :
  KInv (i :: hs) k -> cpus k !! h = Some None ->
  let k' := set_cpus (<[h := Some i]> (cpus k)) (upd_proc i (dispatched (kticks k)) k) in
  dispatch h i k = Ret (true, k') /\ KInv hs k'.
Proof.
  intros (HQ & HC & HP) Hc k'. pose proof HQ as [Hlen _ _ _ [_ Hx] _ _].
  destruct (Hx i ltac:(set_solver)) as [Hi Hr].
  destruct (dispatched_view (kticks k) (getp k i)) as (D1 & D2 & D3 & D4). split.
  - unfold dispatch, mbind, M_bind, readp, gets. rewrite bool_decide_true by done. cbv beta iota.
    by rewrite switch_to_run by lia.
  - split; [|split].
    + apply QInv_set_cpus, QInv_picked; try done. by rewrite D1.
    + apply CInv_enter; try done. by rewrite Hr.
    + apply PInv_set_cpus, PInv_upd; [done|done|]. by rewrite D1, Hr.
Qed.

(** A hart takes the head of a level. *)
Lemma dequeue_run k q :
  KInv hs k -> valid_level q ->
  match level (mq k) q with
  | [] => liftQ (dequeue q) k = Ret (None, k)
  | i :: l => exists s, liftQ (dequeue q) k = Ret (Some i, set_mq s k) /\ mlfq_wf s /\ level s q = l /\
      (forall q', valid_level q' -> q' <> q -> level s q' = level (mq k) q') /\ KInv (i :: hs) (set_mq s k)
  end.
Proof.
  intros (HQ & HC & HP) Hq. unfold liftQ. destruct (level (mq k) q) as [|i l] eqn:El.
  - rewrite dequeue_empty by (done || apply HQ). by destruct k.
  - destruct (dequeue_spec (mq k) q i l (q_wf _ _ HQ) Hq El) as (s & -> & Hws & Hls & Hos).
    exists s. split_and!; try done. split; [|split; [by apply CInv_set_mq|by apply PInv_set_mq]].
    apply (QInv_dequeued k q); try done. by rewrite El, Hls.
Qed.

Lemma sched_level_run k h q fuel :
  KInv hs k -> cpus k !! h = Some None -> valid_level q ->
  match level (mq k) q with
  | [] => sched_level (S fuel) h q k = Ret (None, k)
  | i :: l => exists s, sched_level (S fuel) h q k = Ret (Some i, run_next h i s k) /\
      mlfq_wf s /\ level s q = l /\
      (forall q', valid_level q' -> q' <> q -> level s q' = level (mq k) q') /\
      KInv hs (run_next h i s k)
  end.
Proof.
  intros HK Hc Hq. pose proof (dequeue_run k q HK Hq) as Hd. cbn [sched_level].
  destruct (level (mq k) q) as [|i l].
  - by rewrite (M_bind_Ret _ _ _ _ _ Hd).
  - destruct Hd as (s & Ed & Hws & Hls & Hos & HK1). exists s. rewrite (M_bind_Ret _ _ _ _ _ Ed).
    destruct (dispatch_run (set_mq s k) h i HK1 Hc) as [Er HK2]. by rewrite (M_bind_Ret _ _ _ _ _ Er).
Qed.

Lemma bind_level_ext (f g : Z -> list nat) levels :
  (forall q, q ∈ levels -> f q = g q) -> levels ≫= f = levels ≫= g.
Proof.
  intros H. induction levels as [|q levels IH]; [done|]. cbn [mbind list_bind].
  rewrite H by set_solver. f_equal. apply IH. set_solver.
Qed.

Lemma sched_levels_cons k h q levels o k' :
  sched_level (S NPROC) h q k = Ret (o, k') ->
  sched_levels h (q :: levels) k =
    match o with Some i => Ret (Some i, k') | None => sched_levels h levels k' end.
Proof. intros H. cbn [sched_levels]. rewrite (M_bind_Ret _ _ _ _ _ H). by destruct o. Qed.

Lemma sched_levels_run k h levels :
  KInv hs k -> cpus k !! h = Some None -> NoDup levels -> Forall valid_level levels ->
  match levels ≫= level (mq k) with
  | [] => sched_levels h levels k = Ret (None, k)
  | i :: l => exists s, sched_levels h levels k = Ret (Some i, run_next h i s k) /\
      mlfq_wf s /\ levels ≫= level s = l /\
      (forall q, valid_level q -> q ∉ levels -> level s q = level (mq k) q) /\
      KInv hs (run_next h i s k)
  end.
Proof.
  intros HK Hc. induction levels as [|q levels IH]; intros Hnd Hv; [done|].
  apply list.NoDup_cons in Hnd as [Hq Hnd]. inversion Hv as [|?? Hvq Hvl]; subst.
  pose proof (sched_level_run k h q NPROC HK Hc Hvq) as Hrun.
  cbn [mbind list_bind].
  destruct (level (mq k) q) as [|i l] eqn:El; cbn [app].
  - rewrite (sched_levels_cons _ _ _ _ _ _ Hrun). specialize (IH Hnd Hvl).
    destruct (levels ≫= level (mq k)) as [|i l] eqn:Eb; [done|].
    destruct IH as (s & Er & Hwf & Hl & Ho & HK').
    exists s. rewrite Er. split_and!; try done.
    + rewrite (Ho q Hvq Hq), El. done.
    + intros q' Hq' Hn. apply not_elem_of_cons in Hn as []. by apply Ho.
  - destruct Hrun as (s & Er & Hwf & Hl & Ho & HK'). exists s.
    rewrite (sched_levels_cons _ _ _ _ _ _ Er). split_and!; try done.
    + rewrite Hl. f_equal. apply bind_level_ext. intros q' Hq'.
      apply Ho; [by eapply list.Forall_forall|]. by intros ->.
    + intros q' Hq' Hn. apply not_elem_of_cons in Hn as []. by apply Ho.
Qed.

Lemma all_levels_bind s : all_levels s = [0; 1; 2; 3] ≫= level s.
Proof. unfold all_levels. cbn. by rewrite app_nil_r. Qed.

Lemma four_NoDup : NoDup [0; 1; 2; 3].
Proof. by apply (bool_decide_unpack _). Qed.
Lemma four_valid : Forall valid_level [0; 1; 2; 3].
Proof. unfold valid_level. forall_lia. Qed.

Lemma scheduler_run k h :
  KInv hs k -> cpus k !! h = Some None ->
  match all_levels (mq k) with
  | [] => scheduler_mlfq h k = Ret (None, k)
  | i :: l => exists s, scheduler_mlfq h k = Ret (Some i, run_next h i s k) /\
      all_levels s = l /\ KInv hs (run_next h i s k)
  end.
Proof.
  intros HK Hc. unfold scheduler_mlfq, set_cpu, mbind, M_bind. cbn [modify].
  rewrite list_insert_id by done.
  replace (set_cpus (cpus k) k) with k by (by destruct k).
  rewrite !all_levels_bind.
  pose proof (sched_levels_run k h [0; 1; 2; 3] HK Hc four_NoDup four_valid) as Hr.
  destruct ([0; 1; 2; 3] ≫= level (mq k)) as [|i l] eqn:Eb.
  - exact Hr.
  - destruct Hr as (s & Er & _ & Hl & _ & HK').
    exists s. by rewrite all_levels_bind.
Qed.

(** ** Time *)

(** A loop that applies [f] to every process. *)
Lemma for_each_modp f l k :
  NoDup l -> (forall i, i ∈ l -> (i < length (procs k))%nat) ->
  exists ps, for_each l (fun i => modp i f) k = Ret (tt, set_procs ps k) /\
    length ps = length (procs k) /\
    (forall j, nth j ps proc_zero = if bool_decide (j ∈ l) then f (getp k j) else getp k j).
Proof.
  revert k. induction l as [|i l IH]; intros k Hnd Hl.
  - exists (procs k). destruct k. done.
  - apply list.NoDup_cons in Hnd as [Hi Hnd].
    destruct (IH (upd_proc i f k) Hnd) as (ps & Er & Hlen & Hps).
    { intros j Hj. rewrite length_upd. set_solver. }
    exists ps. cbn [for_each]. rewrite (M_bind_Ret _ _ k tt (upd_proc i f k)), Er by done.
    split; [done|]. split; [by rewrite Hlen, length_upd|].
    intros j. rewrite Hps. destruct (decide (j = i)) as [->|N].
    + rewrite bool_decide_false, bool_decide_true by set_solver.
      apply getp_upd_eq. set_solver.
    + rewrite getp_upd_ne by done. by do 2 case_bool_decide; set_solver.
Qed.

Lemma all_procs_lt i : i ∈ all_procs <-> (i < NPROC)%nat.
Proof. unfold all_procs. rewrite elem_of_seq. lia. Qed.

(** What a boost does to each process. *)
Definition boosted (p : proc) : proc := set_p_ticks 0 (set_queue 0 p).

Lemma KInv_boosted k i : KInv hs k -> KInv hs (upd_proc i boosted k).
Proof.
  intros (HQ & HC & HP). split; [|split].
  - apply QInv_upd_same; [done|done|..]; unfold valid_level, slice; cbn; lia.
  - destruct (decide (state (getp k i) = RUNNING)); [by apply CInv_upd_run|by apply CInv_upd].
  - by apply PInv_upd.
Qed.

(** The second half of a boost, under [mlfq_lock]. *)
Lemma boost_queues_run k :
  KInv hs k ->
  exists s, liftQ boost_queues k = Ret (tt, set_mq s k) /\
    level s 0 = all_levels (mq k) /\ (forall q, valid_level q -> q <> 0 -> level s q = []) /\
    KInv hs (set_mq s k).
Proof.
  intros (HQ & HC & HP). pose proof (all_levels_short _ _ HQ) as Hsh. rewrite length_app in Hsh.
  destruct (boost_queues_spec (mq k) (q_wf _ _ HQ) ltac:(lia)) as (s & Es & Hws & Hl0 & Hlq).
  exists s. unfold liftQ. rewrite Es. split_and!; try done.
  assert (all_levels s = all_levels (mq k)) as Ea.
  { unfold all_levels at 1. rewrite Hl0, (Hlq 1), (Hlq 2), (Hlq 3) by (unfold valid_level; lia). by rewrite !app_nil_r. }
  split; [|split; [by apply CInv_set_mq|by apply PInv_set_mq]].
  pose proof HQ as [L0 W0 _ N0 X0 R0 G0]. apply QInv_entries; try done; cbn [mq set_mq]; rewrite Ea; [|done|done].
  intros i. by apply (all_entry hs k).
Qed.

Lemma boost_run k :
  KInv hs k ->
  exists ps s, boost_priority k = Ret (tt, set_mq s (set_procs ps k)) /\
    (forall i, (i < NPROC)%nat -> nth i ps proc_zero = boosted (getp k i)) /\
    level s 0 = all_levels (mq k) /\ (forall q, valid_level q -> q <> 0 -> level s q = []) /\
    KInv hs (set_mq s (set_procs ps k)).
Proof.
  intros HK. pose proof HK as (HQ & _).
  destruct (for_each_modp boosted all_procs k) as (ps & Ep & Hl & Hps).
  { apply NoDup_seq. }
  { intros i Hi%all_procs_lt. by rewrite (q_len _ _ HQ). }
  assert (KInv hs (set_procs ps k)) as HK1.
  { refine (wp_Ret F (for_each all_procs boost_one) (fun _ => KInv hs) k tt _ _ Ep).
    apply wp_for_each; [|done]. intros i k' _ HK'. apply wp_modp. by apply KInv_boosted. }
  destruct (boost_queues_run _ HK1) as (s & Es & Hl0 & Hlq & HK2).
  exists ps, s. split.
  { unfold boost_priority. by rewrite (M_bind_Ret _ _ k tt (set_procs ps k)). }
  split; [|done]. intros i Hi. rewrite Hps. by rewrite bool_decide_true by (by apply all_procs_lt).
Qed.

Lemma wp_charge k0 k i : same_view k0 k -> kwp (charge i) (fun _ => same_view k0) k.
Proof. intros Hk. unfold charge, log_event. ksteps; solve_view. Qed.

Lemma wp_update_time k : kwp update_time (fun _ => same_view k) k.
Proof.
  apply wp_for_each; [|done]. intros i k' _ Hk. by apply wp_charge.
Qed.

End InvOps.

(** ** Creation and removal *)

Section InvEnv.
Context {E : Type} `{PE : ProcEnv E}.
Implicit Types k : kstate (E := E).
(** A call that does not return was failed by the environment. *)
Context {F : Prop} (HF : ~ env_total E -> F) {hs : list nat}.
Abbreviation kwp := (wp F).

Lemma wp_liftE {A} (m : M E A) (Q : A -> kstate -> Prop) k :
  (env_total E -> total m) -> (forall a e, Q a (set_env e k)) -> kwp (liftE m) Q k.
Proof.
  intros Ht HQ. unfold wp, liftE. destruct (m (env k)) as [[a e]|s|s] eqn:Em; [apply HQ|..]; apply HF;
    intros HE; destruct (Ht HE (env k)) as (? & ? & ?); congruence.
Qed.


Lemma KInv_cpus_of k k' : same_view k k' -> cpus k' = cpus k.
Proof. by intros []. Qed.

Lemma wp_liftE_view {A} (m : M E A) k0 (Q : A -> kstate -> Prop) k :
  (env_total E -> total m) -> same_view k0 k ->
  (forall a k', same_view k0 k' -> procs k' = procs k -> Q a k') -> kwp (liftE m) Q k.
Proof. intros Hm Hv HQ. apply wp_liftE; [done|]. intros a e. apply HQ; [|done]. solve_view. Qed.

(** An [UNUSED] slot may hold no pid. *)
Lemma PInv_free k i f :
  PInv k -> (i < length (procs k))%nat -> state (f (getp k i)) = UNUSED ->
  pid (f (getp k i)) = 0 -> PInv (upd_proc i f k).
Proof.
  intros [] Hi Hs Hp.
  assert (forall j, j = i /\ getp (upd_proc i f k) j = f (getp k i) \/
                    j <> i /\ getp (upd_proc i f k) j = getp k j) as Hg.
  { intros j. destruct (decide (j = i)) as [->|N].
    - left. by rewrite getp_upd_eq. - right. by rewrite getp_upd_ne. }
  split; [..|done].
  - intros j Hj. destruct (Hg j) as [[-> ->]|[_ ->]]; auto.
  - intros j Hj. destruct (Hg j) as [[-> ->]|[_ ->]]; [by rewrite Hs|auto].
  - intros j j' Hj Hj'. destruct (Hg j) as [[-> ->]|[_ ->]]; [by rewrite Hs|].
    destruct (Hg j') as [[-> ->]|[_ ->]]; [by rewrite Hs|auto].
Qed.

Lemma wp_freeproc k i (Q : unit -> kstate -> Prop) :
  KInv hs k -> (i < NPROC)%nat -> (state (getp k i) = USED \/ state (getp k i) = ZOMBIE) ->
  (forall k', KInv hs k' -> cpus k' = cpus k -> Q tt k') ->
  kwp (freeproc i) Q k.
Proof.
  intros HK Hi Hs HQ. unfold freeproc.
  assert (forall k1, same_view k k1 ->
    Q tt (upd_proc i (fun p => set_state UNUSED (set_xstate 0 (set_killed 0 (set_chan None
      (set_name [] (set_pid 0 (set_sz 0 (set_pagetable 0 p)))))))) k1)) as Hend.
  { intros k1 Hv. pose proof (KInv_view _ _ _ Hv HK) as (HQ1 & HC1 & HP1).
    destruct (pview_inv _ _ (sv_proc _ _ Hv i)) as (Es & _).
    destruct (q_range _ _ HQ1 i) as [Hvl Ht]. apply HQ; [|exact (sv_cpus _ _ Hv)].
    split; [|split].
    - apply QInv_upd_off; try done. rewrite Es. by destruct Hs as [-> | ->].
    - apply CInv_upd; [done| |done]. rewrite Es. by destruct Hs as [-> | ->].
    - apply PInv_free; try done. rewrite (q_len _ _ HQ1). done. }
  apply wp_bind, wp_readp. ksteps.
  - apply (wp_liftE_view _ k); [intros []; auto|done|]. intros _ k1 Hv1 _. ksteps.
    + apply (wp_liftE_view _ k); [intros []; auto|solve_view|]. intros _ k2 Hv2 _. ksteps.
      by apply Hend.
    + apply Hend. solve_view.
  - apply (wp_liftE_view _ k); [intros []; auto|solve_view|]. intros _ k1 Hv1 _. ksteps.
    by apply Hend.
  - apply Hend. solve_view.
Qed.

Lemma find_unused_spec l k i : find_unused l k = Some i -> i ∈ l /\ state (getp k i) = UNUSED.
Proof.
  induction l as [|j l IH]; cbn; [done|]. case_bool_decide as B.
  - intros [= ->]. set_solver.
  - intros H. destruct (IH H). set_solver.
Qed.

(** Slot [i] takes the pid [nextpid]. *)
Lemma PInv_alloc k i f :
  PInv k -> (i < length (procs k))%nat -> state (f (getp k i)) <> UNUSED ->
  pid (f (getp k i)) = nextpid k ->
  PInv (upd_proc i f (set_nextpid (nextpid k + 1) k)).
Proof.
  intros [] Hi Hs Hp. set (k1 := set_nextpid _ k).
  assert (forall j, j = i /\ getp (upd_proc i f k1) j = f (getp k i) \/
                    j <> i /\ getp (upd_proc i f k1) j = getp k j) as Hg.
  { intros j. destruct (decide (j = i)) as [->|N].
    - left. by rewrite getp_upd_eq. - right. by rewrite getp_upd_ne. }
  split; cbn [nextpid upd_proc set_procs k1 set_nextpid]; [..|lia].
  - intros j Hj. destruct (Hg j) as [[-> ->]|[_ ->]]; [done|auto].
  - intros j Hj. destruct (Hg j) as [[-> ->]|[_ ->]]; [lia|].
    intros Hu. specialize (p_live0 j Hj Hu). lia.
  - intros j j' Hj Hj'. destruct (Hg j) as [[-> ->]|[N ->]]; destruct (Hg j') as [[-> ->]|[N' ->]];
      [done|..|auto]; intros H1 H2 H3.
    + specialize (p_live0 j' Hj' H2). lia.
    + specialize (p_live0 j Hj H1). lia.
Qed.

Definition pids_left k : Prop := nextpid k < 2 ^ 31 - 1.

Lemma wp_allocproc k (Q : option nat -> kstate -> Prop) :
  KInv hs k -> pids_left k ->
  (forall k', KInv hs k' -> cpus k' = cpus k -> Q None k') ->
  (forall i k', KInv hs k' -> cpus k' = cpus k -> (i < NPROC)%nat -> state (getp k' i) = USED ->
     pid (getp k' i) = nextpid k -> Q (Some i) k') ->
  kwp allocproc Q k.
Proof.
  intros HK Hpid HN HS. unfold allocproc. apply wp_bind, wp_gets.
  destruct (find_unused all_procs k) as [i|] eqn:Ef; [|apply wp_ret; by apply HN].
  apply find_unused_spec in Ef as [Hi%all_procs_lt Hu].
  pose proof HK as (HQ & HC & HP). pose proof (p_next _ HP). unfold pids_left in Hpid.
  pose proof (q_len _ _ HQ) as Hlen.
  apply wp_bind. unfold allocpid. apply wp_bind, wp_get, wp_bind, wp_put, wp_ret.
  rewrite swrap_small by (change (2 ^ (32 - 1)) with (2 ^ 31); lia).
  apply wp_bind, wp_gets, wp_bind, wp_modp. cbv beta.
  set (f := fun p => set_p_ticks 0 _). set (k1 := upd_proc i f _).
  assert (state (getp (set_nextpid (nextpid k + 1) k) i) = UNUSED) as Hu1 by exact Hu.
  assert (KInv hs k1) as HK1.
  { split; [|split].
    - apply QInv_upd_off; [by destruct HQ|by rewrite Hu1|done|..];
        unfold f, valid_level, slice; simpl; lia.
    - apply CInv_upd; [by destruct HC|by rewrite Hu1|done].
    - by apply PInv_alloc; [|rewrite Hlen|..]. }
  assert (getp k1 i = f (getp (set_nextpid (nextpid k + 1) k) i)) as Eg
    by (apply getp_upd_eq; simpl; lia).
  assert (forall k', same_view k1 k' -> KInv hs k' /\ cpus k' = cpus k /\
            state (getp k' i) = USED /\ pid (getp k' i) = nextpid k) as Hv.
  { intros k' Hv. split; [by eapply KInv_view|]. split; [apply (sv_cpus _ _ Hv)|].
    destruct (pview_inv _ _ (sv_proc _ _ Hv i)) as (-> & _ & _ & ->). by rewrite Eg. }
  assert (forall k', same_view k1 k' -> kwp (_ ← freeproc i; mret None) Q k') as Hfree.
  { intros k' Hv'. destruct (Hv k' Hv') as (? & Hc' & ? & ?).
    apply wp_bind, wp_freeproc; [done|done|by left|]. intros k2 HK2 Hc2.
    apply wp_ret, HN; [done|congruence]. }
  apply wp_bind, (wp_liftE_view _ k1); [intros []; auto|done|]. intros tf k2 Hv2 _.
  apply wp_bind, wp_modp. destruct (negb (c_true tf)); [apply Hfree; solve_view|].
  apply wp_bind, (wp_liftE_view _ k1); [intros []; auto|solve_view|]. intros pt k3 Hv3 _.
  apply wp_bind, wp_modp. destruct (negb (c_true pt)); [apply Hfree; solve_view|].
  apply wp_bind, wp_modp, wp_ret.
  edestruct Hv as (? & ? & ? & ?); [|by apply HS]. solve_view.
Qed.

Lemma wp_dup_files np l fd k0 k (Q : unit -> kstate -> Prop) :
  same_view k0 k -> (forall k', same_view k0 k' -> Q tt k') -> kwp (dup_files np l fd) Q k.
Proof.
  revert fd k. induction l as [|f l IH]; intros fd k Hv HQ; cbn [dup_files].
  - apply wp_ret, HQ, Hv.
  - apply wp_bind. destruct (c_true f); [|apply wp_ret; by apply IH].
    apply wp_bind, (wp_liftE_view _ k0); [intros []; auto|done|]. intros g k1 Hv1 _.
    apply wp_modp, IH; [solve_view|done].
Qed.

Lemma wp_close_fd k0 k i fd : same_view k0 k -> kwp (close_fd i fd) (fun _ => same_view k0) k.
Proof.
  intros Hv. unfold close_fd. apply wp_bind, wp_readp. cbv zeta. destruct (c_true _); [|by apply wp_ret].
  apply wp_bind, (wp_liftE_view _ k0); [intros []; auto|done|]. intros g k1 Hv1 _. apply wp_modp. solve_view.
Qed.

Lemma wp_drop_cwd k0 k i : same_view k0 k -> kwp (drop_cwd i) (fun _ => same_view k0) k.
Proof.
  intros Hv. unfold drop_cwd. apply wp_bind, wp_readp.
  apply wp_bind, (wp_liftE_view _ k0); [intros []; auto|done|]. intros g k1 Hv1 _. apply wp_modp. solve_view.
Qed.

(** The child that [fork_new] leaves: [USED], with the pid it returns. *)
Lemma wp_fork_new k h i :
  KInv hs k -> pids_left k -> cpus k !! h = Some (Some i) ->
  kwp (fork_new h) (fun o k' => KInv hs k' /\ cpus k' = cpus k /\
    match o with None => True | Some (np, id) => (np < NPROC)%nat /\ state (getp k' np) = USED /\ id = pid (getp k' np) /\ id = nextpid k end) k.
Proof.
  intros HK Hp Hc. unfold fork_new. apply wp_bind, (wp_curproc h i); [done|].
  apply wp_bind, wp_allocproc; [done|done|intros k' HK' ?; by apply wp_ret|].
  intros np k1 HK1 Hc1 Hnp Hs Hpid. apply wp_bind, wp_readp, wp_bind, wp_readp.
  apply wp_bind, (wp_liftE_view _ k1); [intros []; auto|done|]. intros r k2 Hv2 _.
  destruct (r <? 0).
  { apply wp_bind, wp_freeproc; [by eapply KInv_view|done| |].
    - left. by destruct (pview_inv _ _ (sv_proc _ _ Hv2 np)) as (-> & _).
    - intros k' HK' Hc'. apply wp_ret. split; [done|]. split; [|done]. rewrite Hc', (sv_cpus _ _ Hv2). done. }
  apply wp_bind, wp_modp, wp_bind, (wp_liftE_view _ k1); [intros []; auto|solve_view|].
  intros _ k3 Hv3 _. apply wp_bind, (wp_dup_files _ _ _ k1); [done|]. intros k4 Hv4.
  apply wp_bind, (wp_liftE_view _ k1); [intros []; auto|done|]. intros c k5 Hv5 _.
  do 2 (apply wp_bind, wp_modp). set (k6 := upd_proc np (set_name _) _).
  assert (same_view k1 k6) as Hv6 by (unfold k6; solve_view).
  destruct (pview_inv _ _ (sv_proc _ _ Hv6 np)) as (E1 & _ & _ & E2).
  apply wp_bind, wp_readp, wp_ret. split; [by eapply KInv_view|].
  split; [by rewrite (sv_cpus _ _ Hv6)|]. split_and!; [done|congruence|done|congruence].
Qed.

Lemma wp_fork_link k0 k h i np : same_view k0 k -> cpus k !! h = Some (Some i) -> kwp (fork_link h np) (fun _ => same_view k0) k.
Proof. intros Hv Hc. unfold fork_link. apply wp_bind, (wp_curproc h i); [done|]. apply wp_modp. solve_view. Qed.

Lemma wp_fork_run k np : KInv hs k -> (np < NPROC)%nat -> state (getp k np) = USED ->
  kwp (fork_run np) (fun _ k' => KInv hs k' /\ cpus k' = cpus k) k.
Proof.
  intros HK Hnp Hs. unfold fork_run. apply wp_bind, wp_modp, wp_bind, wp_readp.
  rewrite getp_upd_eq by (rewrite (q_len _ _ (proj1 HK)); done).
  change (queue (set_state ?s ?p)) with (queue p). apply (wp_make_runnable (hs := hs)); [done|done|by right|]. by intros s HK' _ _.
Qed.

Lemma wp_give_child k0 k p i : same_view k0 k -> kwp (give_child p i) (fun _ => same_view k0) k.
Proof. intros Hv. unfold give_child. ksteps; solve_view. Qed.

Lemma wp_exit_end k h i status :
  KInv hs k -> cpus k !! h = Some (Some i) ->
  kwp (exit_end h status) (fun _ k' => KInv hs k' /\ cpus k' = <[h := None]> (cpus k)) k.
Proof.
  intros HK Hc. destruct (cur_proc k h i HK Hc) as (Hi & Hs & Hl). destruct HK as (HQ & HC & HP).
  destruct (q_range _ _ HQ i) as [Hvl Ht]. unfold exit_end. apply wp_bind, (wp_curproc h i); [done|].
  apply wp_bind, wp_gets, wp_bind, wp_modp, wp_bind, wp_readp.
  set (f := fun p => set_etime _ _). set (k5 := upd_proc i f k).
  assert (QInv hs k5) as HQ5 by (apply QInv_upd_off; try done; by rewrite Hs).
  assert (CInv (Some i) k5) as HC5 by (by apply (CInv_leave k h)).
  assert (PInv k5) as HP5 by (apply PInv_upd; [done|done|]; by rewrite Hs).
  assert (forall k6, same_view k5 k6 -> kwp (sched h) (fun _ k' => KInv hs k' /\ cpus k' = <[h := None]> (cpus k)) k6) as Hend.
  { intros k6 Hv. apply (wp_sched _ h i).
    - by eapply CInv_view.
    - by rewrite (sv_cpus _ _ Hv).
    - destruct (pview_inv _ _ (sv_proc _ _ Hv i)) as (-> & _).
      unfold k5. by rewrite getp_upd_eq by lia.
    - intros k' -> HC'. split; [|cbn; by rewrite (sv_cpus _ _ Hv)]. split; [apply QInv_set_cpus; by eapply QInv_view|].
      split; [done|]. apply PInv_set_cpus. by eapply PInv_view. }
  apply wp_bind. unfold log_event. ksteps; [|by apply Hend].
  destruct (metrics _) as [[t w] r]. ksteps. apply Hend. solve_view.
Qed.

Lemma wp_reap k i addr c :
  KInv hs k -> (c < NPROC)%nat -> state (getp k c) = ZOMBIE -> kwp (reap i addr c) (fun _ k' => KInv hs k' /\ cpus k' = cpus k) k.
Proof.
  intros HK Hc Hz. unfold reap. apply wp_bind, wp_readp, wp_bind, wp_readp, wp_bind.
  assert (forall r k', same_view k k' -> kwp
    (if r <? 0 then mret (-1)
     else _ ← modp c (set_parent None); _ ← freeproc c; mret (pid (getp k c))) (fun _ k' => KInv hs k' /\ cpus k' = cpus k) k') as Hend.
  { intros r k' Hv. destruct (r <? 0); [apply wp_ret; split; [by eapply KInv_view|apply (sv_cpus _ _ Hv)]|].
    apply wp_bind, wp_modp, wp_bind.
    assert (same_view k (upd_proc c (set_parent None) k')) as Hv' by solve_view.
    apply wp_freeproc; [by eapply KInv_view|done| |].
    - destruct (pview_inv _ _ (sv_proc _ _ Hv' c)) as (-> & _). by right.
    - intros k2 HK2 Hc2. apply wp_ret. split; [done|]. rewrite Hc2. apply (sv_cpus _ _ Hv'). }
  destruct (c_true addr); [|by apply wp_ret, Hend].
  apply (wp_liftE_view _ k); [intros []; auto|done|]. intros r k' Hv _. by apply Hend.
Qed.

Lemma wp_growproc k0 k h i n :
  same_view k0 k -> cpus k !! h = Some (Some i) -> kwp (growproc h n) (fun _ => same_view k0) k.
Proof.
  intros HK Hc. unfold growproc. apply wp_bind, (wp_curproc h i); [done|].
  apply wp_bind, wp_readp. destruct (0 <? n); [|destruct (n <? 0)].
  - destruct (_ <? _); [by apply wp_ret|].
    apply wp_bind, (wp_liftE_view _ k0); [intros []; auto|done|]. intros s k1 Hv _. ksteps; solve_view.
  - apply wp_bind, (wp_liftE_view _ k0); [intros []; auto|done|]. intros s k1 Hv _. ksteps. solve_view.
  - ksteps. solve_view.
Qed.

End InvEnv.
