(* ===== verification/Sched.v ===== *)
(** * The scheduler as a transition system

    Kernel entry points as labelled steps over the process table, starting from
    boot; reachable states satisfy the invariant of [ProcInv], no step panics,
    and the scheduling policy behaves as its parts intend. *)

From S2P Require Import Prelude Riscv Mlfq Proc ProcInv.

Section Sched.
Context {E : Type} `{PE : ProcEnv E}.
Implicit Types k : kstate (E := E).
Implicit Types hs : list nat.

(** ** Boot *)

Definition k_zero (e : E) : kstate :=
  mkK (replicate NPROC proc_zero) mlfq_init 1 0 (replicate NCPU None) None [] e.

(** [procinit(); ... userinit();] of [main.c]. *)
Definition boot : K unit := _ ← procinit; userinit.

(** ** Critical sections *)

(** The kernel and, per hart, the process its scheduler has taken off a queue
    and not locked yet. *)
Record sys := mkSys { ks : kstate (E := E); hand : list (option nat) }.
Definition held (s : sys) : list nat := omap id (hand s).

(** One section of code under a lock, with the hart that runs it where it
    matters. *)
Inductive kstep :=
| SDequeue (h : nat) (q : Z)
| SDispatch (h : nat)
| SYield (h : nat) (preempt : bool)
| SSleep (h : nat) (c : channel)
| SResume (h : nat)
| SWake (h : nat) (c : option channel) (i : nat)
| SForkNew (h : nat)
| SForkLink (h np : nat)
| SForkRun (np : nat)
| SCloseFd (h fd : nat)
| SDropCwd (h : nat)
| SGiveChild (h i : nat)
| SExitEnd (h : nat) (status : Z)
| SReap (h : nat) (addr : Z) (c : nat)
| SGrow (h : nat) (n : Z)
| SKill (pid : Z) (i : nat)
| SSetKilled (i : nat)
| STick
| SCharge (i : nat)
| SBoost (i : nat)
| SBoostQueues
| SDump (i : nat).

Definition on_k {A} (m : K A) (s : sys) : res sys :=
  match m (ks s) with
  | Ret (_, k) => Ret (mkSys k (hand s))
  | Panic e => Panic e
  | Undef e => Undef e
  end.

(** [preempt] of [SYield] is what the process read, perhaps some steps ago. *)
Definition run_step (c : kstep) (s : sys) : res sys :=
  match c with
  | SDequeue h q =>
    match liftQ (dequeue q) (ks s) with
    | Ret (o, k) => Ret (mkSys k (<[h := o]> (hand s)))
    | Panic e => Panic e
    | Undef e => Undef e
    end
  | SDispatch h =>
    match nth h (hand s) None with
    | None => Undef "nothing in hand"
    | Some i => on_k (dispatch h i) (mkSys (ks s) (<[h := None]> (hand s)))
    end
  | SYield h b => on_k (yield_with h (fun _ => mret b)) s
  | SSleep h c => on_k (sleep h c) s
  | SResume h => on_k (i ← curproc h; sleep_resume i) s
  | SWake h c i => on_k (wakeup_one h c i) s
  | SForkNew h => on_k (fork_new h) s
  | SForkLink h np => on_k (fork_link h np) s
  | SForkRun np => on_k (fork_run np) s
  | SCloseFd h fd => on_k (i ← curproc h; close_fd i fd) s
  | SDropCwd h => on_k (i ← curproc h; drop_cwd i) s
  | SGiveChild h i => on_k (p ← curproc h; give_child p i) s
  | SExitEnd h st => on_k (exit_end h st) s
  | SReap h a c => on_k (i ← curproc h; reap i a c) s
  | SGrow h n => on_k (growproc h n) s
  | SKill p i => on_k (kill_one p i) s
  | SSetKilled i => on_k (setkilled i) s
  | STick => on_k tick s
  | SCharge i => on_k (charge i) s
  | SBoost i => on_k (boost_one i) s
  | SBoostQueues => on_k (liftQ boost_queues) s
  | SDump i => on_k (dump_one i) s
  end.

Definition running k (h i : nat) : Prop := cpus k !! h = Some (Some i).

(** A scheduler looks for work when its hart runs nothing and it has nothing in
    hand; code of a process runs on its hart.  [init] does not exit. *)
Definition enabled (c : kstep) (s : sys) : Prop :=
  let k := ks s in
  match c with
  | SDequeue h q => cpus k !! h = Some None /\ hand s !! h = Some None /\ valid_level q
  | SDispatch h => exists i, hand s !! h = Some (Some i)
  | SYield h _ | SSleep h _ | SResume h | SForkLink h _ | SCloseFd h _ | SDropCwd h | SGiveChild h _ | SGrow h _ =>
    exists i, running k h i
  | SForkNew h => pids_left k /\ exists i, running k h i
  | SForkRun np => (np < NPROC)%nat /\ state (getp k np) = USED
  | SExitEnd h _ => exists i, running k h i /\ initproc k <> Some i
  | SReap h _ c => (c < NPROC)%nat /\ exists i, running k h i /\ parent (getp k c) = Some i /\ state (getp k c) = ZOMBIE
  | SWake _ _ i | SKill _ i => (i < NPROC)%nat
  | _ => True
  end.

Inductive reachable : sys -> Prop :=
| reach_boot e k : boot (k_zero e) = Ret (tt, k) -> reachable (mkSys k (replicate NCPU None))
| reach_step c s s' :
    reachable s -> enabled c s -> run_step c s = Ret s' -> reachable s'.

(** ** The functions of [proc.c] are sequences of these sections *)

Fixpoint run_steps (l : list kstep) (s : sys) : res sys :=
  match l with
  | [] => Ret s
  | c :: l' => match run_step c s with Ret s' => run_steps l' s' | r => r end
  end.

Lemma run_steps_app l l' s :
  run_steps (l ++ l') s = match run_steps l s with Ret s' => run_steps l' s' | r => r end.
Proof. revert s. induction l as [|c l IH]; intros s; cbn; [done|]. by destruct (run_step c s). Qed.

Lemma run_steps_each (f : nat -> kstep) body l s :
  (forall i s, run_step (f i) s = on_k (body i) s) ->
  run_steps (f <$> l) s = on_k (for_each l body) s.
Proof.
  intros Hf. revert s. induction l as [|i l IH]; intros [k hd]; [done|]. cbn [fmap list_fmap run_steps for_each].
  rewrite Hf. unfold on_k, mbind, M_bind. cbn [ks hand]. destruct (body i k) as [[[] k']|e|e]; [|done|done]. apply IH.
Qed.

Lemma on_k_bind {A B} (m : K A) (f : A -> K B) s :
  on_k (m ≫= f) s = match m (ks s) with Ret (a, k) => on_k (f a) (mkSys k (hand s)) | Panic e => Panic e | Undef e => Undef e end.
Proof. unfold on_k, mbind, M_bind. by destruct (m (ks s)) as [[a k]|e|e]. Qed.

Definition boost_steps : list kstep := (SBoost <$> all_procs) ++ [SBoostQueues].
Definition clock_steps k : list kstep :=
  STick :: (SCharge <$> all_procs) ++ (SWake 0 (Some ChTicks) <$> all_procs) ++
  if u32 (kticks k + 1) mod 48 =? 0 then boost_steps else [].

Lemma boost_is_steps s : run_steps boost_steps s = on_k boost_priority s.
Proof.
  unfold boost_steps, boost_priority. rewrite run_steps_app, (run_steps_each _ boost_one), on_k_bind by done.
  unfold on_k at 1. destruct (for_each _ _ _) as [[[] k]|e|e]; [|done|done]. cbn. by destruct (on_k _ _).
Qed.

(** ** Invariance *)

Lemma getp_k_zero e i : getp (k_zero e) i = proc_zero.
Proof.
  unfold getp. destruct (Nat.lt_ge_cases i NPROC).
  - apply nth_lookup_Some. apply lookup_replicate. done.
  - apply nth_overflow. cbn [procs k_zero]. by rewrite length_replicate.
Qed.

Lemma level_init q : valid_level q -> level mlfq_init q = [].
Proof.
  unfold valid_level. intros Hq.
  by assert (q = 0 \/ q = 1 \/ q = 2 \/ q = 3) as [-> |[-> |[-> | ->]]] by lia.
Qed.

Lemma KInv_zero e : KInv [] (k_zero e).
Proof.
  split; [|split].
  - split; try done.
    + apply mlfq_init_wf.
    + intros q i Hq. cbn [mq k_zero]. rewrite level_init by done. set_solver.
    + constructor.
    + split; [constructor|set_solver].
    + intros i Hi. by rewrite getp_k_zero.
    + intros i. rewrite getp_k_zero. unfold valid_level, slice. simpl. lia.
  - split; try done.
    + intros h i Hh%lookup_replicate. by destruct Hh.
    + intros h h' i Hh%lookup_replicate. by destruct Hh.
    + intros i _. by rewrite getp_k_zero.
  - split; try done; intros *; by rewrite ?getp_k_zero.
Qed.

Lemma wp_procinit hs k :
  KInv hs k -> (forall i, state (getp k i) = UNUSED) ->
  wp (~ env_total E) procinit (fun _ => KInv hs) k.
Proof.
  intros HK Hu.
  apply (wp_mono _ _ (fun _ k => KInv hs k /\ forall i, state (getp k i) = UNUSED)); [|tauto].
  apply wp_for_each; [|done]. clear k HK Hu. intros i k _ [HK Hu]. apply wp_modp.
  destruct HK as (HQ & HC & HP). destruct (q_range _ _ HQ i) as [Hv Ht].
  split; [split; [|split]|].
  - apply QInv_upd_off; try done. by rewrite Hu.
  - apply CInv_upd; try done. by rewrite Hu.
  - by apply PInv_upd; simpl; rewrite ?Hu.
  - intros j. rewrite getp_upd. by case_bool_decide.
Qed.

Lemma procinit_nextpid k : wp False procinit (fun _ k' => nextpid k' = nextpid k) k.
Proof.
  unfold procinit. generalize all_procs as l. intros l. revert k.
  induction l as [|i l IH]; intros k; [done|].
  cbn [for_each]. apply wp_bind, wp_modify. exact (IH (upd_proc i _ k)).
Qed.

Lemma wp_userinit_inv hs k k' :
  KInv hs k -> pids_left k -> userinit k = Ret (tt, k') -> KInv hs k'.
Proof.
  intros HK Hp (o & k1 & H1 & H2)%M_bind_inv.
  assert (match o with None => True | Some i => KInv hs k1 /\ (i < NPROC)%nat /\
            state (getp k1 i) = USED end) as Ho.
  { refine (wp_Ret (~ env_total E) allocproc (fun o k1 => match o with None => True
      | Some i => KInv hs k1 /\ (i < NPROC)%nat /\ state (getp k1 i) = USED end) _ _ _ _ H1).
    by apply (wp_allocproc id (hs := hs)). }
  rewrite (M_bind_Ret _ _ k1 tt (set_initproc o k1)) in H2 by done.
  destruct o as [i|]; [|done]. destruct Ho as (HK1 & Hi & Hs).
  revert H2. apply (wp_Ret (~ env_total E) _ (fun _ => KInv hs)).
  apply wp_bind, (wp_liftE_view id _ k1); [intros []; auto|solve_view|]. intros ip k2 Hv2 _.
  apply wp_bind, wp_modp. set (k3 := upd_proc i _ k2).
  assert (same_view k1 k3) as Hv3 by (unfold k3; solve_view).
  destruct (pview_inv _ _ (sv_proc _ _ Hv3 i)) as (E1 & _).
  pose proof (KInv_view _ _ _ Hv3 HK1) as HK3.
  apply wp_bind, wp_modp, wp_bind, wp_readp.
  rewrite getp_upd_eq by (rewrite (q_len _ _ (proj1 HK3)); done).
  apply (wp_make_runnable (hs := hs)); [done|done|right; congruence|done].
Qed.

Lemma boot_split k u k' :
  boot k = Ret (u, k') -> exists k1, procinit k = Ret (tt, k1) /\ userinit k1 = Ret (u, k').
Proof.
  unfold boot, mbind, M_bind. generalize (procinit k).
  intros [[[] k1]|e|e] H; [|done|done]. exists k1. split; [done|exact H].
Qed.

Lemma boot_from hs k u k' :
  KInv hs k -> (forall i, state (getp k i) = UNUSED) -> pids_left k -> boot k = Ret (u, k') -> KInv hs k'.
Proof.
  intros HK Hu Hp (k1 & H1 & H2)%boot_split. destruct u.
  apply (wp_userinit_inv hs k1); [| |exact H2].
  - exact (wp_Ret _ _ _ _ _ _ (wp_procinit hs k HK Hu) H1).
  - unfold pids_left. by rewrite (wp_Ret _ _ _ _ _ _ (procinit_nextpid k) H1).
Qed.

Lemma boot_inv e k : boot (k_zero e) = Ret (tt, k) -> KInv [] k.
Proof.
  apply boot_from; [apply KInv_zero|intros i; by rewrite getp_k_zero|].
  unfold pids_left. cbn [nextpid k_zero]. lia.
Qed.

(** The invariant of the whole system: a hart with a process in hand runs
    none. *)
Record SysInv (s : sys) : Prop := {
  s_len : length (hand s) = NCPU;
  s_inv : KInv (held s) (ks s);
  s_hand : forall h i, hand s !! h = Some (Some i) -> cpus (ks s) !! h = Some None
}.

Lemma held_insert (l : list (option nat)) h i :
  l !! h = Some None -> omap id (<[h := Some i]> l) ≡ₚ i :: omap id l.
Proof.
  revert h. induction l as [|o l IH]; intros [|h] Hh; [done|done|by simplify_eq/=|]. cbn in Hh |- *.
  destruct o as [j|]; cbn; rewrite (IH h Hh); [apply Permutation_swap|done].
Qed.

Lemma held_remove (l : list (option nat)) h i :
  l !! h = Some (Some i) -> omap id l ≡ₚ i :: omap id (<[h := None]> l).
Proof.
  revert h. induction l as [|o l IH]; intros [|h] Hh; [done|done|by simplify_eq/=|]. cbn in Hh |- *.
  destruct o as [j|]; cbn; rewrite (IH h Hh); [apply Permutation_swap|done].
Qed.

(** What a step that is not the scheduler's does: harts may only let go of
    their process. *)
Definition kept (hs : list nat) k k' : Prop :=
  KInv hs k' /\ forall h, cpus k !! h = Some None -> cpus k' !! h = Some None.

Lemma kept_view hs k k' : KInv hs k -> same_view k k' -> kept hs k k'.
Proof. intros HK Hv. split; [by eapply KInv_view|]. intros h. by rewrite (sv_cpus _ _ Hv). Qed.

Lemma kept_cpus hs k k' : KInv hs k' /\ cpus k' = cpus k -> kept hs k k'.
Proof. intros [HK Hc]. split; [done|]. intros h. by rewrite Hc. Qed.

Lemma kept_left hs k k' h i : running k h i -> KInv hs k' /\ cpus k' = <[h := None]> (cpus k) -> kept hs k k'.
Proof.
  intros Hr [HK Hc]. split; [done|]. intros h' Hh. rewrite Hc, list_lookup_insert_ne; [done|].
  intros ->. unfold running in Hr. congruence.
Qed.

Abbreviation stays := (fun m s => wp (~ env_total E) m (fun _ => kept (held s) (ks s)) (ks s)).

Lemma stays_view {A} (m : K A) s : KInv (held s) (ks s) ->
  wp (~ env_total E) m (fun _ => same_view (ks s)) (ks s) -> stays m s.
Proof. intros HK Hw. eapply wp_mono; [exact Hw|]. intros a k' Hv. by apply kept_view. Qed.

Lemma stays_cur {A} (f : nat -> K A) s h i : running (ks s) h i -> stays (f i) s -> stays (i ← curproc h; f i) s.
Proof. intros Hr Hs. apply wp_bind, (wp_curproc h i); [done|exact Hs]. Qed.

Lemma stays_yield s h b : KInv (held s) (ks s) -> (exists i, running (ks s) h i) -> stays (yield_with h (fun _ => mret b)) s.
Proof.
  intros HK [i Hc]. apply (wp_yield (hs := held s) _ h i _ b); [done|done|done|..].
  - intros _ HK'. by apply kept_cpus.
  - intros _ mq' k' HK' -> q _ _. by apply (kept_left _ _ _ h i).
Qed.

Abbreviation safe_result r := (match r with Ret s' => SysInv s' | _ => ~ env_total E end).

Lemma on_k_inv {A} (m : K A) s : SysInv s -> stays m s -> safe_result (on_k m s).
Proof.
  intros [Hl HK Hh] Hs. unfold on_k. unfold wp in Hs. destruct (m (ks s)) as [[a k']|e|e]; [|done|done].
  destruct Hs as [HK' Hc]. split; [done|done|]. intros h i Hi. apply Hc, (Hh h i Hi).
Qed.

Lemma dequeue_inv h q s : SysInv s -> enabled (SDequeue h q) s -> safe_result (run_step (SDequeue h q) s).
Proof.
  intros [Hl HK Hh] (Hc & Hn & Hq). pose proof (dequeue_run (ks s) q HK Hq) as Hd. cbn [run_step].
  destruct (level (mq (ks s)) q) as [|i l].
  - rewrite Hd. split; cbn; rewrite ?list_insert_id by done; done.
  - destruct Hd as (m & -> & _ & _ & _ & HK'). split; cbn; [by rewrite length_insert|..].
    + eapply KInv_perm; [|exact HK']. symmetry. by apply held_insert.
    + intros h' j [(<- & _ & _)|[_ Hj]]%list_lookup_insert_Some; [done|by apply (Hh h' j)].
Qed.

Lemma dispatch_inv h s : SysInv s -> enabled (SDispatch h) s -> safe_result (run_step (SDispatch h) s).
Proof.
  intros [Hl HK Hh] [i Hi]. cbn [run_step]. rewrite (nth_lookup_Some _ _ _ _ Hi).
  pose proof (Hh h i Hi) as Hc.
  apply (KInv_perm _ (i :: omap id (<[h := None]> (hand s)))) in HK; [|by apply held_remove].
  destruct (dispatch_run (ks s) h i HK Hc) as [Ed HK']. unfold on_k. cbn [ks hand]. rewrite Ed.
  split; cbn; [by rewrite length_insert|done|].
  intros h' j [(_ & ? & _)|[N Hj]]%list_lookup_insert_Some; [done|].
  rewrite list_lookup_insert_ne by done. by apply (Hh h' j).
Qed.

Lemma step_inv c s : SysInv s -> enabled c s -> safe_result (run_step c s).
Proof.
  intros HS. pose proof (s_inv _ HS) as HK. destruct c as [h q|h|h b|h c|h|h c i|h|h np|np|h fd|h|h i|h st|h a c|h n|p i|i| |i|i| |i];
    [by apply dequeue_inv|by apply dispatch_inv|..]; cbn [enabled run_step]; intros He; apply on_k_inv; try done.
  - by apply stays_yield.
  - destruct He as [i Hc]. apply (wp_sleep (hs := held s) _ h i); [done|done|]. intros k' HK' ->. by apply (kept_left _ _ _ h i).
  - destruct He as [i Hc]. apply (stays_cur _ s h i Hc), stays_view; [done|]. apply wp_modp. solve_view.
  - eapply wp_mono; [by apply (wp_wakeup_one (hs := held s) (ks s))|]. intros [] k'. apply kept_cpus.
  - destruct He as [Hp [i Hc]]. eapply wp_mono; [by apply (wp_fork_new (hs := held s) id (ks s) h i)|]. intros o k' (? & ? & _). by apply kept_cpus.
  - destruct He as [i Hc]. apply stays_view; [done|]. by apply (wp_fork_link _ _ h i).
  - destruct He as [Hn Hu]. eapply wp_mono; [by apply (wp_fork_run (hs := held s))|]. intros [] k'. apply kept_cpus.
  - destruct He as [i Hc]. apply (stays_cur _ s h i Hc), stays_view; [done|]. by apply (wp_close_fd id).
  - destruct He as [i Hc]. apply (stays_cur _ s h i Hc), stays_view; [done|]. by apply (wp_drop_cwd id).
  - destruct He as [j Hc]. apply (stays_cur _ s h j Hc), stays_view; [done|]. by apply wp_give_child.
  - destruct He as (i & Hc & _). eapply wp_mono; [by apply (wp_exit_end (hs := held s) (ks s) h i)|]. intros [] k'. by apply kept_left with i.
  - destruct He as (Hn & i & Hc & _ & Hz). apply (stays_cur _ s h i Hc). eapply wp_mono; [by apply (wp_reap id (hs := held s))|]. intros r k'. apply kept_cpus.
  - destruct He as [i Hc]. apply stays_view; [done|]. by apply (wp_growproc id _ _ h i).
  - eapply wp_mono; [by apply (wp_kill_one (hs := held s) p (ks s) i)|]. intros r k'. apply kept_cpus.
  - apply stays_view; [done|]. apply wp_modp. solve_view.
  - apply stays_view; [done|]. apply wp_modify. solve_view.
  - apply stays_view; [done|]. by apply wp_charge.
  - apply wp_modp. apply kept_cpus. split; [by apply KInv_boosted|done].
  - destruct (boost_queues_run _ HK) as (m & Es & _ & _ & HK'). unfold wp. rewrite Es. by apply kept_cpus.
  - apply stays_view; [done|]. unfold dump_one. apply wp_bind, wp_readp. case_bool_decide; [by apply wp_ret|]. apply wp_modify. solve_view.
Qed.

Lemma reachable_inv s : reachable s -> SysInv s.
Proof.
  induction 1 as [e k Hb|c s s' _ IH He Hr].
  - apply boot_inv in Hb as HK. split; cbn [hand ks]; [done| |].
    + unfold held. cbn [hand]. by rewrite (eq_refl : omap id (replicate NCPU None) = []).
    + by intros h i [? _]%lookup_replicate.
  - pose proof (step_inv c s IH He) as Hs. by rewrite Hr in Hs.
Qed.

Lemma SysInv_held s hs : SysInv s -> held s = hs -> KInv hs (ks s).
Proof. intros HS <-. apply HS. Qed.

Lemma KInv_set_kticks hs k t : KInv hs k -> KInv hs (set_kticks t k).
Proof. apply KInv_view. solve_view. Qed.

(** ** Policy lemmas *)

Section Policy.
(** The processes in the hands of schedulers. *)
Context {hs : list nat}.
Abbreviation still := (ProcInv.still (hs := hs)).

(** Process [j] is queued at level [q]. *)
Definition waits k (q : Z) (j : nat) : Prop := valid_level q /\ j ∈ level (mq k) q.

(** Every entry is at the level its process has: so it is unless a boost was
    overtaken ([boost_race]). *)
Definition levels_agree k : Prop := forall q j, waits k q j -> queue (getp k j) = q.

Lemma runnable_queued k j :
  KInv hs k -> (j < NPROC)%nat -> state (getp k j) = RUNNABLE -> j ∉ hs -> exists q, waits k q j.
Proof. intros (HQ & _ & _) Hj Hr Hn. by apply elem_of_all_levels, (q_runnable _ _ HQ). Qed.

Lemma queued_runnable k j :
  KInv hs k -> j ∈ all_levels (mq k) -> (j < NPROC)%nat /\ state (getp k j) = RUNNABLE /\ j ∉ hs.
Proof. intros (HQ & _ & _). by apply all_entry. Qed.

(** The first queued process heads the best level that has entries. *)
Lemma head_is_best k i l :
  all_levels (mq k) = i :: l ->
  exists q, valid_level q /\ head (level (mq k) q) = Some i /\
    forall q', valid_level q' -> q' < q -> level (mq k) q' = [].
Proof.
  intros Hl. unfold all_levels, valid_level in *.
  destruct (level (mq k) 0) as [|x l0] eqn:E0; cbn in Hl.
  2:{ exists 0. rewrite E0. split; [lia|]. split; [cbn; congruence|lia]. }
  destruct (level (mq k) 1) as [|x l1] eqn:E1; cbn in Hl.
  2:{ exists 1. rewrite E1. split; [lia|]. split; [cbn; congruence|].
      intros q' ? ?. by replace q' with 0 by lia. }
  destruct (level (mq k) 2) as [|x l2] eqn:E2; cbn in Hl.
  2:{ exists 2. rewrite E2. split; [lia|]. split; [cbn; congruence|].
      intros q' ? ?. by assert (q' = 0 \/ q' = 1) as [-> | ->] by lia. }
  exists 3. rewrite Hl. split; [lia|]. split; [done|].
  intros q' ? ?. by assert (q' = 0 \/ q' = 1 \/ q' = 2) as [-> |[-> | ->]] by lia.
Qed.

Lemma head_waits k q i : valid_level q -> head (level (mq k) q) = Some i -> waits k q i.
Proof. intros Hq Hh. split; [done|]. destruct (level (mq k) q); simplify_eq/=. set_solver. Qed.

Lemma any_above_spec s i n :
  any_above s i n = true <-> exists q, i <= q < i + Z.of_nat n /\ 0 < qc s q.
Proof.
  revert i. induction n as [|n IH]; intros i; cbn [any_above].
  - split; [done|]. intros (q & Hq & _). lia.
  - rewrite orb_true_iff, IH, Z.ltb_lt. split.
    + intros [H|(q & Hq & H)]; [exists i; split; [lia|done]|exists q; split; [lia|done]].
    + intros (q & Hq & H). destruct (decide (q = i)) as [->|N]; [by left|].
      right. exists q. split; [lia|done].
Qed.

(** [preempt] means: some process waits at a better level. *)
Lemma preempt_spec k q :
  KInv hs k -> valid_level q ->
  any_above (mq k) 0 (Z.to_nat q) = true <-> exists j q', waits k q' j /\ q' < q.
Proof.
  intros HK Hq. pose proof HK as (HQ & _ & _). unfold valid_level in Hq.
  rewrite any_above_spec. split.
  - intros (q' & Hq' & Hc). assert (valid_level q') as Hv by (unfold valid_level; lia).
    rewrite (qc_level _ _ (q_wf _ _ HQ) Hv) in Hc.
    destruct (level (mq k) q') as [|j l] eqn:El; [cbn in Hc; lia|].
    exists j, q'. split; [|lia]. split; [done|]. rewrite El. set_solver.
  - intros (j & q' & [Hv Hin] & Hlt). exists q'.
    rewrite (qc_level _ _ (q_wf _ _ HQ) Hv). unfold valid_level in Hv. split; [lia|].
    destruct (level (mq k) q'); [set_solver|cbn; lia].
Qed.

(** ** Wakeup *)

(** Process [i] is asleep on [c] and is not the caller. *)
Definition wakes (h : nat) (c : option channel) k (i : nat) : bool :=
  bool_decide (state (getp k i) = SLEEPING /\ chan (getp k i) = c) &&
  negb (bool_decide (Some i = nth h (cpus k) None)).

(** The processes of level [q] that a wakeup appends, in table order. *)
Definition woken (h : nat) (c : option channel) k (q : Z) (l : list nat) : list nat :=
  filter (fun i => wakes h c k i = true /\ queue (getp k i) = q) l.

Lemma wakeup_one_run k h c i :
  KInv hs k -> (i < NPROC)%nat ->
  exists k', wakeup_one h c i k = Ret (tt, k') /\ still k k' /\
    (forall j, getp k' j = if bool_decide (j = i) && wakes h c k i
                           then set_state RUNNABLE (getp k j) else getp k j) /\
    (forall q, valid_level q -> level (mq k') q = level (mq k) q ++ woken h c k q [i]).
Proof.
  intros HK Hi.
  set (Post := fun (_ : unit) k' => still k k' /\
    (forall j, getp k' j = if bool_decide (j = i) && wakes h c k i
                           then set_state RUNNABLE (getp k j) else getp k j) /\
    (forall q, valid_level q -> level (mq k') q = level (mq k) q ++ woken h c k q [i])).
  assert (wakes h c k i = false -> Post tt k) as Hno.
  { intros Hw. unfold Post, still. rewrite Hw. split; [done|]. split.
    - intros j. by rewrite andb_false_r.
    - intros q _. unfold woken. cbn. rewrite decide_False by (rewrite Hw; by intros [? _]).
      by rewrite app_nil_r. }
  assert (wp False (wakeup_one h c i) Post k) as Hp.
  { unfold wakeup_one, myproc. apply wp_bind, wp_gets.
    case_bool_decide as Hme.
    { apply wp_ret, Hno. unfold wakes. rewrite (bool_decide_true (Some i = _)) by done.
      by rewrite andb_false_r. }
    apply wp_bind, wp_readp. case_bool_decide as Hs.
    2:{ apply wp_ret, Hno. unfold wakes. by rewrite bool_decide_false. }
    assert (wakes h c k i = true) as Hw.
    { unfold wakes. by rewrite bool_decide_true, bool_decide_false. }
    apply wp_bind, wp_modp, (wp_make_runnable (hs := hs)); [done|done|left; tauto|].
    intros s HK' Hl Ho. split; [by split|]. split.
    - intros j. rewrite Hw, andb_true_r.
      change (getp (set_mq s ?k0) j) with (getp k0 j). case_bool_decide as Hj.
      + subst j. apply getp_upd_eq. by rewrite (q_len _ _ (proj1 HK)).
      + by apply getp_upd_ne.
    - intros q Hq. unfold woken. cbn. destruct (decide (q = queue (getp k i))) as [->|N].
      + rewrite decide_True by done. exact Hl.
      + rewrite decide_False by (intros [_ ?]; congruence). rewrite app_nil_r. by apply Ho. }
  destruct (wp_total _ _ _ _ Hp) as ([] & k' & Hr & HP); [tauto|]. by exists k'.
Qed.

Lemma filter_ext_in (P Q : nat -> Prop) `{!forall x, Decision (P x), !forall x, Decision (Q x)} (l : list nat) :
  (forall x, x ∈ l -> P x <-> Q x) -> filter P l = filter Q l.
Proof.
  induction l as [|x l IH]; intros Hx; [done|]. rewrite !filter_cons.
  pose proof (Hx x ltac:(set_solver)). rewrite IH by set_solver. repeat case_decide; tauto.
Qed.

Lemma wakeup_run h c l k :
  KInv hs k -> NoDup l -> (forall i, i ∈ l -> (i < NPROC)%nat) ->
  exists k', for_each l (wakeup_one h c) k = Ret (tt, k') /\ still k k' /\
    (forall j, getp k' j = if bool_decide (j ∈ l) && wakes h c k j
                           then set_state RUNNABLE (getp k j) else getp k j) /\
    (forall q, valid_level q -> level (mq k') q = level (mq k) q ++ woken h c k q l).
Proof.
  revert k. induction l as [|i l IH]; intros k HK Hnd Hl.
  { exists k. split; [done|]. split; [done|]. split; [done|]. intros. by rewrite app_nil_r. }
  apply list.NoDup_cons in Hnd as [Hi Hnd].
  destruct (wakeup_one_run k h c i HK) as (k1 & E1 & [HK1 Hc1] & G1 & L1); [set_solver|].
  destruct (IH k1 HK1 Hnd) as (k2 & E2 & [HK2 Hc2] & G2 & L2); [set_solver|].
  assert (forall j, j <> i -> getp k1 j = getp k j) as Hne.
  { intros j N. by rewrite G1, bool_decide_false. }
  assert (forall j, j <> i -> wakes h c k1 j = wakes h c k j) as Hw.
  { intros j N. unfold wakes. by rewrite Hne, Hc1. }
  exists k2. split; [cbn [for_each]; by rewrite (M_bind_Ret _ _ _ _ _ E1)|].
  split; [split; [done|congruence]|]. split.
  - intros j. rewrite G2. destruct (decide (j = i)) as [->|N].
    + rewrite (bool_decide_false (i ∈ l)), (bool_decide_true (i ∈ i :: l)) by set_solver.
      cbn. rewrite G1. by rewrite bool_decide_true.
    + rewrite Hne, Hw by done. by do 2 case_bool_decide; set_solver.
  - intros q Hq. rewrite L2, L1 by done. unfold woken. rewrite <- app_assoc. f_equal.
    rewrite (filter_cons _ i l), (filter_cons _ i []).
    rewrite (filter_ext_in (fun i => wakes h c k1 i = true /\ queue (getp k1 i) = q)
               (fun i => wakes h c k i = true /\ queue (getp k i) = q)).
    + case_decide; [done|]. done.
    + intros j Hj. assert (j <> i) by (by intros ->). by rewrite Hw, Hne.
Qed.

(** ** Operations that leave the clock alone *)

Lemma for_each_ticks body l k :
  (forall i k', wp True (body i) (fun _ k'' => kticks k'' = kticks k') k') ->
  wp True (for_each l body) (fun _ k' => kticks k' = kticks k) k.
Proof.
  intros Hb. revert k. induction l as [|i l IH]; intros k; cbn [for_each]; [by apply wp_ret|].
  apply wp_bind. eapply wp_mono; [apply Hb|]. intros [] k' Hk'.
  eapply wp_mono; [apply IH|]. intros [] k'' Hk''. congruence.
Qed.

Lemma update_time_ticks k : wp True update_time (fun _ k' => kticks k' = kticks k) k.
Proof. apply for_each_ticks. intros i k'. unfold charge, log_event. by ksteps. Qed.

Lemma liftQ_ticks {A} (m : M mlfq_state A) k :
  wp True (liftQ m) (fun _ k' => kticks k' = kticks k) k.
Proof. unfold wp, liftQ. by destruct (m (mq k)) as [[a q]|e|e]. Qed.

Lemma wakeup_ticks h c k : wp True (wakeup h c) (fun _ k' => kticks k' = kticks k) k.
Proof.
  apply for_each_ticks. intros i k'. unfold wakeup_one, myproc. ksteps; [done| |done].
  eapply wp_mono; [apply liftQ_ticks|]. done.
Qed.

(** The clock interrupt of hart 0 is the sequence of its critical sections. *)
Lemma clock_is_steps s : run_steps (clock_steps (ks s)) s = on_k (clockintr 0) s.
Proof.
  unfold clock_steps, clockintr. cbn [Nat.eqb run_steps run_step]. rewrite on_k_bind. unfold tick at 1 2, on_k at 1, modify. cbv beta iota.
  set (k1 := set_kticks _ (ks s)). rewrite run_steps_app, (run_steps_each _ charge) by done.
  rewrite on_k_bind. unfold on_k at 1. cbn [ks hand]. pose proof (update_time_ticks k1) as H1. unfold wp, update_time in H1. unfold update_time.
  destruct (for_each all_procs charge k1) as [[[] k2]|e|e]; [|done|done].
  rewrite run_steps_app, (run_steps_each _ (wakeup_one 0 (Some ChTicks))) by done.
  rewrite on_k_bind. unfold on_k at 1. cbn [ks hand]. pose proof (wakeup_ticks 0 (Some ChTicks) k2) as H2. unfold wp, wakeup in H2. unfold wakeup.
  destruct (for_each all_procs (wakeup_one 0 (Some ChTicks)) k2) as [[[] k3]|e|e]; [|done|done].
  rewrite on_k_bind. unfold gets. cbv beta iota. cbn [ks hand]. rewrite H2, H1. change (kticks k1) with (u32 (kticks (ks s) + 1)).
  destruct (u32 (kticks (ks s) + 1) mod 48 =? 0); [apply boost_is_steps|done].
Qed.

(** ** The FIFO and round-robin scans *)

Lemma oldest_spec k l m :
  (forall j, m = Some j -> state (getp k j) = RUNNABLE) ->
  match oldest k l m with
  | None => m = None /\ forall j, j ∈ l -> state (getp k j) <> RUNNABLE
  | Some i => state (getp k i) = RUNNABLE /\ (m = Some i \/ i ∈ l) /\
      (forall j, m = Some j -> creation_time (getp k i) <= creation_time (getp k j)) /\
      (forall j, j ∈ l -> state (getp k j) = RUNNABLE ->
         creation_time (getp k i) <= creation_time (getp k j))
  end.
Proof.
  revert m. induction l as [|a l IH]; intros m Hm; cbn [oldest].
  - destruct m as [j|]; [|split; [done|set_solver]].
    split_and!; [by apply Hm|by left|intros j' [= <-]; lia|set_solver].
  - case_bool_decide as Ha.
    + destruct m as [b|].
      * destruct (Z.ltb_spec (creation_time (getp k a)) (creation_time (getp k b))) as [Hl|Hl].
        -- specialize (IH (Some a)). destruct (oldest k l (Some a)) as [i|].
           2:{ destruct IH; [by intros ? [= <-]|done]. }
           destruct IH as (H1 & H2 & H3 & H4); [by intros ? [= <-]|].
           specialize (H3 a eq_refl). split_and!; [done|right; set_solver| |].
           ++ intros j [= <-]. lia.
           ++ intros j [->|Hj]%elem_of_cons; [done|auto].
        -- specialize (IH (Some b) Hm). destruct (oldest k l (Some b)) as [i|].
           2:{ by destruct IH. }
           destruct IH as (H1 & H2 & H3 & H4). specialize (H3 b eq_refl).
           split_and!; [done|set_solver|by intros j [= <-]|].
           intros j [->|Hj]%elem_of_cons; [lia|auto].
      * specialize (IH (Some a)). destruct (oldest k l (Some a)) as [i|].
        2:{ destruct IH; [by intros ? [= <-]|done]. }
        destruct IH as (H1 & H2 & H3 & H4); [by intros ? [= <-]|].
        specialize (H3 a eq_refl). split_and!; [done|right; set_solver|done|].
        intros j [->|Hj]%elem_of_cons; [done|auto].
    + specialize (IH m Hm). destruct (oldest k l m) as [i|].
      * destruct IH as (H1 & H2 & H3 & H4). split_and!; [done|set_solver|done|].
        intros j [->|Hj]%elem_of_cons; [done|auto].
      * destruct IH as [-> IH]. split; [done|]. intros j [->|Hj]%elem_of_cons; auto.
Qed.

Lemma next_runnable_spec k l :
  match next_runnable k l with
  | None => forall j, j ∈ l -> state (getp k j) <> RUNNABLE
  | Some i => state (getp k i) = RUNNABLE /\ exists l1 l2, l = l1 ++ i :: l2 /\
      forall j, j ∈ l1 -> state (getp k j) <> RUNNABLE
  end.
Proof.
  induction l as [|a l IH]; cbn [next_runnable]; [set_solver|]. case_bool_decide as Ha.
  - split; [done|]. exists [], l. split; [done|set_solver].
  - destruct (next_runnable k l) as [i|].
    + destruct IH as (H1 & l1 & l2 & -> & H2). split; [done|]. exists (a :: l1), l2.
      split; [done|]. intros j [->|Hj]%elem_of_cons; auto.
    + intros j [->|Hj]%elem_of_cons; auto.
Qed.

(** ** Kill *)

Lemma kill_one_miss target k i : pid (getp k i) <> target -> kill_one target i k = Ret (false, k).
Proof. intros N. unfold kill_one, mbind, M_bind, readp, gets. by rewrite (proj2 (Z.eqb_neq _ _) N). Qed.

Lemma kill_scan_miss target l k :
  (forall i, i ∈ l -> pid (getp k i) <> target) -> kill_scan target l k = Ret (-1, k).
Proof.
  induction l as [|i l IH]; intros H; [done|]. cbn [kill_scan].
  rewrite (M_bind_Ret _ _ k false k) by (apply kill_one_miss, H; set_solver). apply IH. set_solver.
Qed.

Lemma wp_kill_hit target k i :
  KInv hs k -> (i < NPROC)%nat -> pid (getp k i) = target ->
  wp False (kill_one target i) (fun r k' => r = true /\
    (forall j, j <> i -> getp k' j = getp k j) /\
    getp k' i = set_killed 1 (if bool_decide (state (getp k i) = SLEEPING)
                              then set_state RUNNABLE (getp k i) else getp k i)) k.
Proof.
  intros HK Hi Hp. unfold kill_one. apply wp_bind, wp_readp. rewrite Hp, Z.eqb_refl.
  assert (i < length (procs k))%nat as Hlen by (by rewrite (q_len _ _ (proj1 HK))).
  apply wp_bind, wp_modp, wp_bind. set (k1 := upd_proc i (set_killed 1) k).
  assert (KInv hs k1) as HK1 by (eapply KInv_view; [|done]; unfold k1; solve_view).
  assert (getp k1 i = set_killed 1 (getp k i)) as E1 by (by apply getp_upd_eq).
  case_bool_decide as Hs.
  - apply wp_bind, wp_modp.
    replace (queue (getp k i)) with (queue (getp k1 i)) by (by rewrite E1).
    apply (wp_make_runnable (hs := hs)); [done|done|left; by rewrite E1|].
    intros s _ _ _. apply wp_ret. split; [done|].
    change (getp (set_mq s ?k0) ?j) with (getp k0 j). split.
    + intros j N. change (getp (set_mq s ?k0) ?j) with (getp k0 j).
      unfold k1. by rewrite !getp_upd_ne by congruence.
    + rewrite getp_upd_eq by (unfold k1; by rewrite length_upd). by rewrite E1.
  - do 2 apply wp_ret. split; [done|]. split; [|done].
    intros j N. unfold k1. by rewrite getp_upd_ne by congruence.
Qed.

Lemma kill_scan_hit target l k i :
  KInv hs k -> i ∈ l -> (i < NPROC)%nat -> pid (getp k i) = target ->
  (forall j, j ∈ l -> j <> i -> pid (getp k j) <> target) ->
  exists k', kill_scan target l k = Ret (0, k') /\ (forall j, j <> i -> getp k' j = getp k j) /\
    getp k' i = set_killed 1 (if bool_decide (state (getp k i) = SLEEPING)
                              then set_state RUNNABLE (getp k i) else getp k i).
Proof.
  intros HK. induction l as [|a l IH]; intros Hin Hi Hp Hu; [set_solver|]. cbn [kill_scan].
  destruct (decide (a = i)) as [->|N].
  - destruct (wp_total _ _ _ _ (wp_kill_hit target k i HK Hi Hp)) as (r & k' & Er & -> & Hk); [tauto|].
    exists k'. by rewrite (M_bind_Ret _ _ _ _ _ Er).
  - rewrite (M_bind_Ret _ _ k false k) by (apply kill_one_miss, Hu; set_solver). apply IH; set_solver.
Qed.

(** ** Specifications of the policies *)

(** [i] waits longest at its level and no level above has work; of processes at
    the level they are queued at, none has a better one. *)
Definition best_runnable k (i : nat) : Prop :=
  (i < NPROC)%nat /\ state (getp k i) = RUNNABLE /\
  exists q, head (level (mq k) q) = Some i /\ waits k q i /\
    (forall j, (j < NPROC)%nat -> state (getp k j) = RUNNABLE -> j ∉ hs -> exists q', waits k q' j /\ q <= q') /\
    (levels_agree k -> queue (getp k i) = q /\
       forall j, (j < NPROC)%nat -> state (getp k j) = RUNNABLE -> j ∉ hs -> queue (getp k i) <= queue (getp k j)).

(** No process is runnable but those that a hart is about to run. *)
Definition none_runnable k : Prop :=
  forall j, (j < NPROC)%nat -> state (getp k j) = RUNNABLE -> j ∈ hs.

(** The slice of process [i] ends with this tick. *)
Definition expires k (i : nat) : bool :=
  slice (queue (getp k i)) <=? p_ticks (getp k i) + 1.

(** Some process waits at a better level than that of [i]. *)
Definition outranked k (i : nat) : Prop :=
  exists j q, waits k q j /\ q < queue (getp k i).

(** Some runnable process has a better level than [i]. *)
Definition has_better k (i : nat) : Prop :=
  exists j, (j < NPROC)%nat /\ state (getp k j) = RUNNABLE /\ j ∉ hs /\
    queue (getp k j) < queue (getp k i).

(** Every process is at level 0 with an unused slice, and all runnable ones are
    queued there. *)
Definition fresh_start k : Prop :=
  (forall i, (i < NPROC)%nat -> queue (getp k i) = 0 /\ p_ticks (getp k i) = 0) /\
  (forall i, (i < NPROC)%nat -> state (getp k i) = RUNNABLE -> i ∉ hs -> i ∈ level (mq k) 0) /\
  (forall q, valid_level q -> q <> 0 -> level (mq k) q = []).

Definition oldest_runnable k (i : nat) : Prop :=
  (i < NPROC)%nat /\ state (getp k i) = RUNNABLE /\
  (forall j, (j < NPROC)%nat -> state (getp k j) = RUNNABLE ->
     creation_time (getp k i) <= creation_time (getp k j)).

(** A process after a kill request. *)
Definition kill_marked (p : proc) : proc :=
  set_killed 1 (if bool_decide (state p = SLEEPING) then set_state RUNNABLE p else p).

Lemma elem_of_all_levels' k q j : waits k q j -> j ∈ all_levels (mq k).
Proof. intros [? ?]. apply elem_of_all_levels. eauto. Qed.

Lemma best_level k i l : KInv hs k -> all_levels (mq k) = i :: l ->
  exists q, head (level (mq k) q) = Some i /\ waits k q i /\
    (forall j, (j < NPROC)%nat -> state (getp k j) = RUNNABLE -> j ∉ hs -> exists q', waits k q' j /\ q <= q') /\
    (levels_agree k -> queue (getp k i) = q /\
       forall j, (j < NPROC)%nat -> state (getp k j) = RUNNABLE -> j ∉ hs -> queue (getp k i) <= queue (getp k j)).
Proof.
  intros HK El. destruct (head_is_best k i l El) as (q & Hq & Hh & He). pose proof (head_waits k q i Hq Hh) as Hw.
  assert (forall j, (j < NPROC)%nat -> state (getp k j) = RUNNABLE -> j ∉ hs -> exists q', waits k q' j /\ q <= q') as Hb.
  { intros j Hj Hr Hn. destruct (runnable_queued k j HK Hj Hr Hn) as (q' & Hv & Hin). exists q'. split; [done|].
    destruct (Z.lt_ge_cases q' q); [|done]. rewrite He in Hin by done. set_solver. }
  exists q. split_and!; try done. intros Ha. rewrite (Ha q i Hw). split; [done|]. intros j Hj Hr Hn.
  destruct (Hb j Hj Hr Hn) as (q' & Hw' & ?). by rewrite (Ha q' j Hw').
Qed.

Lemma outranked_agree k i : KInv hs k -> levels_agree k -> outranked k i <-> has_better k i.
Proof.
  intros HK Ha. split.
  - intros (j & q & Hw & Hlt). destruct (queued_runnable k j HK (elem_of_all_levels' _ _ _ Hw)) as (? & ? & ?).
    exists j. rewrite (Ha q j Hw). done.
  - intros (j & Hj & Hr & Hn & Hlt). destruct (runnable_queued k j HK Hj Hr Hn) as (q & Hw). exists j, q.
    rewrite (Ha q j Hw) in Hlt. done.
Qed.

(** ** Properties *)

(** C1: from boot, however the harts interleave the critical sections of the
    scheduler, of [yield], [sleep], [wakeup], [fork], [exit], [wait], [kill],
    [sbrk] and of the clock interrupt with its priority boost, the scheduler's
    invariant holds: every runnable process is on exactly one queue, once, or in
    the hand of one hart that is about to run it; nothing else is queued; each
    running process is current on exactly one hart; levels and used ticks are in
    range; live pids are distinct.  And every section that can be entered ends,
    without a panic or an undefined access, provided the memory and file system
    calls it makes return and process ids have not run out. *)
Theorem kernel_safe s c :
  reachable s ->
  KInv (held s) (ks s) /\
  (forall h i, hand s !! h = Some (Some i) -> cpus (ks s) !! h = Some None) /\
  (env_total E -> enabled c s -> exists s', run_step c s = Ret s' /\ reachable s').
Proof.
  intros Hr. pose proof (reachable_inv s Hr) as HS. split; [apply HS|]. split; [apply HS|]. intros Ht He.
  pose proof (step_inv c s HS He) as Hs. destruct (run_step c s) as [s'|e|e] eqn:Es; [|done|done].
  exists s'. split; [done|]. by eapply reach_step.
Qed.

(** C6: an idle hart's scheduler picks the longest-waiting process of the best
    non-empty level: every runnable process that no other hart has taken waits at that level or a worse one, and
    none has a smaller level where entries are at the level of their process.  It marks it
    [RUNNING] on this hart and touches no other process; it finds nothing only
    when no process is runnable but those other harts have taken. *)
Theorem scheduler_picks_best k h :
  KInv hs k -> cpus k !! h = Some None ->
  match scheduler_mlfq h k with
  | Ret (Some i, k') =>
    best_runnable k i /\
    getp k' i = dispatched (kticks k) (getp k i) /\ cpus k' !! h = Some (Some i) /\
    (forall j, j <> i -> getp k' j = getp k j) /\
    all_levels (mq k) = i :: all_levels (mq k')
  | Ret (None, k') => k' = k /\ none_runnable k
  | Panic _ | Undef _ => False
  end.
Proof.
  intros HK Hc. pose proof (scheduler_run k h HK Hc) as Hr.
  destruct (all_levels (mq k)) as [|i l] eqn:El.
  - rewrite Hr. split; [done|]. intros j Hj Hs. destruct (decide (j ∈ hs)) as [|Hn]; [done|].
    destruct (runnable_queued k j HK Hj Hs Hn) as (q & Hq). apply elem_of_all_levels' in Hq. rewrite El in Hq. set_solver.
  - destruct Hr as (s & -> & Hl & HK').
    destruct (queued_runnable k i HK) as (Hi & Hs & _); [rewrite El; set_solver|].
    assert (i < length (procs k))%nat by (rewrite (q_len _ _ (proj1 HK)); done).
    split_and!; try done.
    + split; [done|]. split; [done|]. by apply (best_level k i l).
    + unfold run_next. change (getp (set_cpus ?c ?k0) ?j) with (getp k0 j).
      rewrite getp_upd_eq by done. done.
    + cbn. apply list_lookup_insert_eq. by eapply lookup_lt_Some.
    + intros j N. unfold run_next. change (getp (set_cpus ?c ?k0) ?j) with (getp k0 j).
      by rewrite getp_upd_ne by congruence.
    + cbn. by rewrite Hl.
Qed.

(** C7: at a timer tick the running process keeps the hart unless its slice
    (1, 4, 8 or 16 ticks at levels 0 to 3) is used up or a process of a better
    level waits (where entries are at the level of their process: is runnable).  A used-up slice moves it one level down, but not below
    3, with a fresh slice; preemption leaves its level and used ticks as they
    are.  A process that gives up the hart goes to the back of its level. *)
Theorem yield_policy k h i :
  KInv hs k -> cpus k !! h = Some (Some i) ->
  let p := getp k i in
  exists r k', yield h k = Ret (r, k') /\
    (r = true <-> expires k i = true \/ outranked k i) /\
    (levels_agree k -> outranked k i <-> has_better k i) /\
    queue (getp k' i) = (if expires k i then Z.min 3 (queue p + 1) else queue p) /\
    p_ticks (getp k' i) = (if expires k i then 0 else p_ticks p + 1) /\
    (forall j, j <> i -> getp k' j = getp k j) /\
    (if r then state (getp k' i) = RUNNABLE /\ cpus k' = <[h := None]> (cpus k) /\
                level (mq k') (queue (getp k' i)) = level (mq k) (queue (getp k' i)) ++ [i]
     else state (getp k' i) = RUNNING /\ cpus k' = cpus k /\ mq k' = mq k).
Proof.
  intros HK Hc p. unfold outranked. set (expired := expires k i).
  destruct (cur_proc k h i HK Hc) as (Hi & Hs & Hl).
  destruct (q_range _ _ (proj1 HK) i) as [Hv Ht]. fold p in Hv, Ht, Hs.
  set (b := any_above (mq k) 0 (Z.to_nat (queue p))).
  assert (gives_up b k i = true <-> expired = true \/ exists j q, waits k q j /\ q < queue p) as Hg.
  { unfold gives_up, b. fold p. change (_ <=? _) with expired. rewrite orb_true_iff.
    by rewrite (preempt_spec k (queue p) HK Hv). }
  assert (queue (after_tick p) = (if expired then Z.min 3 (queue p + 1) else queue p) /\
          p_ticks (after_tick p) = (if expired then 0 else p_ticks p + 1) /\
          state (after_tick p) = RUNNING) as (A1 & A2 & A3).
  { unfold after_tick. change (_ <=? _) with expired. unfold valid_level in Hv. destruct expired; [|done].
    destruct (Z.ltb_spec (queue p) 3); cbn; split_and!; try done; lia. }
  set (Post := fun r k' => (r = gives_up b k i) /\
    getp k' i = (if r then set_state RUNNABLE (after_tick p) else after_tick p) /\
    (forall j, j <> i -> getp k' j = getp k j) /\
    (if r then cpus k' = <[h := None]> (cpus k) /\
        level (mq k') (queue (after_tick p)) = level (mq k) (queue (after_tick p)) ++ [i]
     else cpus k' = cpus k /\ mq k' = mq k)).
  assert (wp False (yield h) Post k) as Hw.
  { apply (wp_yield (hs := hs) k h i _ b); [|done|done|..]; unfold Post.
    { intros p' k' Eq Em. unfold work_above, gets, b. by rewrite Eq, Em. }
    - intros Hgu _. rewrite Hgu. split; [done|]. rewrite getp_upd_eq by lia.
      split; [done|]. split; [|done]. intros j N. by rewrite getp_upd_ne by congruence.
    - intros Hgu s k' _ -> Hlev _. rewrite Hgu. split; [done|].
      change (getp (set_cpus ?c (set_mq ?s ?k0)) ?j) with (getp k0 j).
      rewrite getp_upd_eq by lia. split; [done|]. split; [|done].
      intros j N. change (getp (set_cpus ?c (set_mq ?s ?k0)) ?j) with (getp k0 j).
      by rewrite getp_upd_ne by congruence. }
  destruct (wp_total _ _ _ _ Hw) as (r & k' & Hy & -> & Hg' & Ho & Hr); [tauto|].
  exists (gives_up b k i), k'. split; [done|]. split; [done|]. split; [by apply outranked_agree|]. rewrite Hg'.
  destruct (gives_up b k i); cbn [queue p_ticks state set_state]; rewrite ?A1, ?A2 in *;
    split_and!; try done; apply Hr.
Qed.

(** C31: [wakeup] makes runnable exactly the processes asleep on the channel, the
    caller excepted, and changes nothing else of any process; each woken process
    is appended to its own level, in table order. *)
Theorem wakeup_exact k h c :
  KInv hs k ->
  exists k', wakeup h c k = Ret (tt, k') /\ cpus k' = cpus k /\
    (forall j, (j < NPROC)%nat ->
       getp k' j = if wakes h c k j then set_state RUNNABLE (getp k j) else getp k j) /\
    (forall q, valid_level q -> level (mq k') q = level (mq k) q ++ woken h c k q all_procs).
Proof.
  intros HK. destruct (wakeup_run h c all_procs k HK) as (k' & Er & [_ Hc] & G & L).
  { apply NoDup_seq. } { intros i. apply all_procs_lt. }
  exists k'. split; [done|]. split; [done|]. split; [|done].
  intros j Hj. rewrite G. by rewrite bool_decide_true by (by apply all_procs_lt).
Qed.

(** Every 48th tick undoes all demotions: hart 0's clock interrupt, if no other
    hart schedules meanwhile, leaves every process at level 0 with an unused slice, every runnable process queued
    there and the other levels empty. *)
Theorem clock_boosts_alone k :
  KInv hs k -> u32 (kticks k + 1) mod 48 = 0 ->
  exists k', clockintr 0 k = Ret (tt, k') /\ kticks k' = u32 (kticks k + 1) /\
    fresh_start k'.
Proof.
  intros HK Hmod.
  assert (wp False (clockintr 0) (fun _ k' => kticks k' = u32 (kticks k + 1) /\
    fresh_start k') k) as Hw; [|].
  2:{ destruct (wp_total _ _ _ _ Hw) as ([] & k' & ? & ?); [tauto|]. by exists k'. }
  unfold clockintr. cbn [Nat.eqb]. apply wp_bind, wp_modify, wp_bind.
  set (k0 := set_kticks _ k).
  eapply wp_mono; [apply (wp_conj _ _ (fun _ => same_view k0) (fun _ k' => kticks k' = kticks k0));
                   [apply wp_update_time|apply update_time_ticks]|].
  intros [] k1 [Hv Ht1]. assert (KInv hs k1) as HK1.
  { eapply KInv_view; [exact Hv|]. eapply KInv_view; [|exact HK]. unfold k0. solve_view. }
  apply wp_bind. eapply wp_mono; [apply (wp_conj _ _ (fun _ => still k1)
    (fun _ k' => kticks k' = kticks k1)); [by apply (wp_wakeup (hs := hs))|apply wakeup_ticks]|].
  intros [] k2 [[HK2 _] Ht2]. apply wp_bind, wp_gets.
  rewrite Ht2, Ht1. cbn [k0 set_kticks kticks]. rewrite Hmod. cbn [Z.eqb].
  destruct (boost_run (F := False) k2 HK2) as (ps & s & Er & Hps & Hl0 & Hlq & HK').
  unfold wp. rewrite Er. cbn [mq set_mq kticks set_procs].
  split; [rewrite Ht2, Ht1; done|]. split; [|split; [|done]].
  - intros i Hi. change (getp _ i) with (nth i ps proc_zero). by rewrite Hps.
  - intros i Hi Hs Hn. destruct (runnable_queued _ i HK' Hi Hs Hn) as (q & Hq & Hin).
    destruct (decide (q = 0)) as [->|N]; [done|]. cbn in Hin. rewrite Hlq in Hin by done. set_solver.
Qed.

(** The FIFO build runs a runnable process with the least creation time, the
    first such slot scanned; it finds nothing only when nothing is runnable. *)
Theorem fifo_oldest k h :
  length (procs k) = NPROC ->
  match scheduler_fifo h k with
  | Ret (Some i, k') => oldest_runnable k i /\
      getp k' i = dispatched (kticks k) (getp k i) /\ cpus k' = <[h := Some i]> (cpus k)
  | Ret (None, k') => procs k' = procs k /\ forall j, (j < NPROC)%nat -> state (getp k j) <> RUNNABLE
  | Panic _ | Undef _ => False
  end.
Proof.
  intros Hlen. unfold scheduler_fifo, mbind, M_bind, set_cpu. cbn [modify gets].
  set (k1 := set_cpus _ k). pose proof (oldest_spec k1 all_procs None ltac:(done)) as Ho.
  destruct (oldest k1 all_procs None) as [i|].
  - destruct Ho as (H1 & [?|H2%all_procs_lt] & _ & H4); [done|].
    rewrite switch_to_run by (cbn; lia). cbn [mret M_ret].
    split.
    { split; [done|]. split; [done|]. intros j Hj. apply H4. by apply all_procs_lt. }
    split.
    + change (getp (set_cpus ?c ?k0) ?j) with (getp k0 j). by rewrite getp_upd_eq by (cbn; lia).
    + cbn. by rewrite list_insert_insert_eq.
  - destruct Ho as [_ Ho]. split; [done|]. intros j Hj. apply Ho. by apply all_procs_lt.
Qed.

(** C33: [kkill] with the pid of a live process marks that process, and only it,
    as killed, waking it if it sleeps, and returns 0; with a positive pid that
    no process has it returns -1 and changes nothing. *)
Theorem kill_target k target :
  KInv hs k -> 0 < target ->
  (forall i, (i < NPROC)%nat -> pid (getp k i) = target ->
     exists k', kkill target k = Ret (0, k') /\
       (forall j, j <> i -> getp k' j = getp k j) /\
       getp k' i = kill_marked (getp k i)) /\
  ((forall i, (i < NPROC)%nat -> pid (getp k i) <> target) -> kkill target k = Ret (-1, k)).
Proof.
  intros HK Ht. pose proof HK as (_ & _ & HP). split.
  - intros i Hi Hp.
    assert (forall j, (j < NPROC)%nat -> pid (getp k j) = target -> state (getp k j) <> UNUSED) as Hl.
    { intros j Hj Hpj Hu. rewrite (p_unused _ HP j Hj Hu) in Hpj. lia. }
    assert (forall j, j ∈ all_procs -> j <> i -> pid (getp k j) <> target) as Hne.
    { intros j Hj%all_procs_lt N Hpj. apply N. apply (p_inj _ HP); auto. congruence. }
    apply kill_scan_hit; try done. by apply all_procs_lt.
  - intros H. apply kill_scan_miss. intros i Hi. by apply H, all_procs_lt.
Qed.
End Policy.
End Sched.

(** ** A concrete environment

    Pages are handed out one after the other; the other calls succeed. *)

Module TestEnv.
#[export] Instance env_Z : ProcEnv Z := {
  pe_kalloc := fun e => Ret (e, e + 4096);
  pe_kfree := fun _ => mret tt;
  pe_proc_pagetable := fun _ e => Ret (e, e + 4096);
  pe_proc_freepagetable := fun _ _ => mret tt;
  pe_uvmcopy := fun _ _ _ => mret 0;
  pe_uvmalloc := fun _ _ n _ => mret n;
  pe_uvmdealloc := fun _ _ n => mret n;
  pe_copy_trapframe := fun _ _ => mret tt;
  pe_copyout_int := fun _ _ _ => mret 0;
  pe_filedup := mret;
  pe_fileclose := fun _ => mret tt;
  pe_idup := mret;
  pe_iput := fun _ => mret tt;
  pe_namei_root := mret 1
}.

Lemma env_Z_total : env_total Z.
Proof. split; intros; intros e; eexists _, _; reflexivity. Qed.

Definition sys_booted : sys (E := Z) :=
  mkSys (match boot (k_zero 4096) with Ret (_, k) => k | _ => k_zero 4096 end) (replicate NCPU None).
Definition booted : kstate (E := Z) := ks sys_booted.

Lemma booted_reachable : reachable sys_booted.
Proof. apply (reach_boot 4096). vm_compute. reflexivity. Qed.

Definition after (c : kstep) (s : sys (E := Z)) : sys := match run_step c s with Ret s' => s' | _ => s end.

(** Hart [h] takes the initial process, then runs it. *)
Definition s_taken (h : nat) : sys := after (SDequeue h 0) sys_booted.
Definition s_run (h : nat) : sys := after (SDispatch h) (s_taken h).
Definition k_run : kstate (E := Z) := ks (s_run 0).

Lemma s_taken_reachable : reachable (s_taken 1).
Proof.
  apply (reach_step (SDequeue 1 0) sys_booted); [apply booted_reachable|vm_compute; done|].
  vm_compute. reflexivity.
Qed.

Lemma s_run_reachable : reachable (s_run 0).
Proof.
  apply (reach_step (SDispatch 0) (s_taken 0)); [|vm_compute; eauto|vm_compute; reflexivity].
  apply (reach_step (SDequeue 0 0) sys_booted); [apply booted_reachable|vm_compute; done|].
  vm_compute. reflexivity.
Qed.
End TestEnv.

(** ** Witnesses *)

Import TestEnv.

(** A hart has taken [init]; another enters the boost. *)
Lemma kernel_safe_witness :
  held (s_taken 1) = [0%nat] /\ KInv (held (s_taken 1)) (ks (s_taken 1)) /\
  exists s', run_step (SBoost 0) (s_taken 1) = Ret s' /\ reachable s'.
Proof.
  destruct (kernel_safe (s_taken 1) (SBoost 0) s_taken_reachable) as (H1 & _ & H2).
  split; [vm_compute; reflexivity|]. split; [exact H1|]. exact (H2 env_Z_total I).
Defined.

Lemma booted_inv : KInv [] booted.
Proof. unfold booted. apply (SysInv_held sys_booted []); [apply reachable_inv, booted_reachable|vm_compute; reflexivity]. Qed.

Lemma k_run_inv : KInv [] k_run.
Proof. unfold k_run. apply (SysInv_held (s_run 0) []); [apply reachable_inv, s_run_reachable|vm_compute; reflexivity]. Qed.

Lemma scheduler_picks_best_witness :
  match scheduler_mlfq 0 booted with
  | Ret (Some i, k') => best_runnable (hs := []) booted i /\ cpus k' !! 0%nat = Some (Some i)
  | Ret (None, _) => none_runnable (hs := []) booted
  | _ => False
  end.
Proof.
  pose proof (scheduler_picks_best booted 0 booted_inv ltac:(vm_compute; reflexivity)) as H.
  destruct (scheduler_mlfq 0 booted) as [[[i|] k']|e|e]; tauto.
Defined.

Lemma yield_policy_witness :
  exists k', yield 0 k_run = Ret (true, k') /\ queue (getp k' 0) = 1.
Proof.
  destruct (yield_policy k_run 0 0 k_run_inv ltac:(vm_compute; reflexivity))
    as (r & k' & Hr & Hg & _ & Hq & _).
  assert (r = true) as -> by (apply Hg; left; vm_compute; reflexivity).
  exists k'. split; [exact Hr|]. rewrite Hq. vm_compute. reflexivity.
Defined.

Lemma wakeup_exact_witness :
  exists k', wakeup 1 (Some ChTicks) k_run = Ret (tt, k') /\ cpus k' = cpus k_run.
Proof.
  destruct (wakeup_exact k_run 1 (Some ChTicks) k_run_inv) as (k' & H1 & H2 & _).
  exists k'. split; assumption.
Defined.

(** [ticks] is 47. *)
Definition k_47 : kstate (E := Z) := set_kticks 47 k_run.

Lemma k_47_inv : KInv [] k_47.
Proof. exact (KInv_set_kticks _ k_run 47 k_run_inv). Qed.

Lemma clock_boosts_alone_witness :
  exists k', clockintr 0 k_47 = Ret (tt, k') /\ kticks k' = 48.
Proof.
  destruct (clock_boosts_alone k_47 k_47_inv ltac:(vm_compute; reflexivity)) as (k' & H1 & H2 & _).
  exists k'. split; [exact H1|]. rewrite H2. vm_compute. reflexivity.
Defined.

Lemma fifo_oldest_witness :
  match scheduler_fifo 0 booted with
  | Ret (Some i, _) => oldest_runnable booted i
  | Ret (None, _) => forall j, (j < NPROC)%nat -> state (getp booted j) <> RUNNABLE
  | _ => False
  end.
Proof.
  pose proof (fifo_oldest booted 0 ltac:(vm_compute; reflexivity)) as H.
  destruct (scheduler_fifo 0 booted) as [[[i|] k']|e|e]; tauto.
Defined.

Lemma kill_target_witness :
  exists k', kkill 1 k_run = Ret (0, k') /\ killed (getp k' 0) = 1.
Proof.
  destruct (kill_target k_run 1 k_run_inv ltac:(lia)) as [H _].
  destruct (H 0%nat ltac:(unfold NPROC; lia) ltac:(vm_compute; reflexivity)) as (k' & H1 & _ & H2).
  exists k'. split; [exact H1|]. rewrite H2. vm_compute. reflexivity.
Defined.

(** C18: [kill(0)] succeeds although no process has pid 0: it marks the first
    [UNUSED] slot as killed, nothing clears the mark when the slot is allocated,
    and the next child forked is born killed. *)
Theorem kill_zero_poisons_next_fork :
  match (_ ← kkill 0; kfork 0) k_run with
  | Ret (r, k') => r = 2 /\ pid (getp k' 1) = 2 /\ state (getp k' 1) = RUNNABLE /\
                   killed (getp k' 1) = 1
  | _ => False
  end.
Proof. vm_compute. split_and!; reflexivity. Qed.

(** A boost overtaken by a [yield]: the process has been put back to level 0, uses
    up its slice on another hart and is queued at level 1, and the second half of the boost moves
    that entry to level 0.  The process then waits at level 0 with the slice of level 1. *)
Theorem boost_race :
  exists s, run_steps ([SDequeue 1 0; SDispatch 1] ++ (SBoost <$> all_procs) ++ [SYield 1 false; SBoostQueues]) sys_booted = Ret s /\
    level (mq (ks s)) 0 = [0%nat] /\ queue (getp (ks s) 0) = 1.
Proof. eexists. vm_compute. split_and!; reflexivity. Qed.
