(* ===== verification/Printf.v ===== *)
(** * Formatted output: [kernel/printk.c] and [user/printf.c]

    The two printers share a design: [printint] writes digits backwards into
    [char buf\[20\]], and a loop over the format consumes one argument per
    conversion.  Output is the list of bytes given to [consputc] or [putc].  A
    write past [buf], or a conversion without an argument, is [Undef]. *)

From S2P Require Import Prelude.

(** A variadic argument: a register value, or a string ([None] is the null
    pointer). *)
Inductive arg := AInt (v : Z) | AStr (s : option (list Z)).

Abbreviation i64 := (swrap 64).
Definition BUFLEN : nat := 20%nat.

Definition va_int (ap : list arg) : res (Z * list arg) :=
  match ap with AInt v :: ap' => Ret (v, ap') | _ => Undef "va_arg" end.
Definition va_str (ap : list arg) : res (option (list Z) * list arg) :=
  match ap with AStr s :: ap' => Ret (s, ap') | _ => Undef "va_arg" end.

(** ** Digits *)

Section Digits.
Context (digits : list Z).

(** [do { buf\[i++\] = digits\[x % base\]; } while ((x /= base) != 0);] *)
Fixpoint digit_loop (fuel : nat) (x base : Z) (buf : list Z) : res (list Z) :=
  match fuel with
  | O => Undef "digit_loop: out of fuel"
  | S fuel' =>
    if (length buf <? BUFLEN)%nat then
      let buf' := buf ++ [nth (Z.to_nat (x mod base)) digits 0] in
      if x / base =? 0 then Ret buf' else digit_loop fuel' (x / base) base buf'
    else Undef "buf overflow"
  end.

(** The whole of [printint]; a 64-bit value has at most 64 digits in base 2. *)
Definition printint (xx base : Z) (sign : bool) : res (list Z) :=
  let neg := sign && (xx <? 0) in
  let x := if neg then u64 (- xx) else u64 xx in
  match digit_loop 65 x base [] with
  | Ret buf =>
    if neg then
      if (length buf <? BUFLEN)%nat then Ret (rev (buf ++ [chMINUS])) else Undef "buf overflow"
    else Ret (rev buf)
  | r => r
  end.

(** [for (i = 0; i < 16; i++, x <<= 4) consputc(digits\[x >> 60\]);] *)
Fixpoint ptr_loop (n : nat) (x : Z) : list Z :=
  match n with
  | O => []
  | S n' => nth (Z.to_nat (Z.shiftr x 60)) digits 0 :: ptr_loop n' (u64 (Z.shiftl x 4))
  end.
Definition printptr (x : Z) : list Z := ch0 :: 120 :: ptr_loop 16 x.

End Digits.

(** Digit tables of the kernel and of the user library. *)
Definition kdigits : list Z := bytes "0123456789abcdef".
Definition udigits : list Z := bytes "0123456789ABCDEF".

(** ** The format loops *)

Abbreviation ch_d := 100 (only parsing).
Abbreviation ch_l := 108 (only parsing).
Abbreviation ch_u := 117 (only parsing).
Abbreviation ch_x := 120 (only parsing).
Abbreviation ch_p := 112 (only parsing).
Abbreviation ch_c := 99 (only parsing).
Abbreviation ch_s := 115 (only parsing).

(** Run a conversion: the text it prints, the remaining arguments, the number of
    format bytes it consumes beyond the first. *)
Definition conv_res : Type := res (list Z * list arg * nat).

Definition conv_int (digits : list Z) (cast : Z -> Z) (base : Z) (sign : bool) (skip : nat)
    (ap : list arg) : conv_res :=
  match va_int ap with
  | Ret (v, ap') =>
    match printint digits (i64 (cast v)) base sign with
    | Ret out => Ret (out, ap', skip)
    | Panic e => Panic e
    | Undef e => Undef e
    end
  | Panic e => Panic e
  | Undef e => Undef e
  end.

Definition conv_ptr (digits : list Z) (ap : list arg) : conv_res :=
  match va_int ap with
  | Ret (v, ap') => Ret (printptr digits (u64 v), ap', 0%nat)
  | Panic e => Panic e
  | Undef e => Undef e
  end.

Definition conv_char (ap : list arg) : conv_res :=
  match va_int ap with
  | Ret (v, ap') => Ret ([u8 v], ap', 0%nat)
  | Panic e => Panic e
  | Undef e => Undef e
  end.

Definition conv_str (ap : list arg) : conv_res :=
  match va_str ap with
  | Ret (Some s, ap') => Ret (s, ap', 0%nat)
  | Ret (None, ap') => Ret (bytes "(null)", ap', 0%nat)
  | Panic e => Panic e
  | Undef e => Undef e
  end.

(** [fmt\[i\]]; a format is a C string, its terminator reads as 0. *)
Definition peekc (fmt : list Z) : Z := match fmt with [] => 0 | c :: _ => c end.

Module Kernel.
(** The [if] chain of [printk] for conversion bytes [c0 c1 c2], [c0 <> 0]. *)
Definition conv (digits : list Z) (c0 c1 c2 : Z) (ap : list arg) : conv_res :=
  if c0 =? ch_d then conv_int digits i32 10 true 0 ap
  else if (c0 =? ch_l) && (c1 =? ch_d) then conv_int digits u64 10 true 1 ap
  else if (c0 =? ch_l) && (c1 =? ch_l) && (c2 =? ch_d) then conv_int digits u64 10 true 2 ap
  else if c0 =? ch_u then conv_int digits u32 10 false 0 ap
  else if (c0 =? ch_l) && (c1 =? ch_u) then conv_int digits u64 10 false 1 ap
  else if (c0 =? ch_l) && (c1 =? ch_l) && (c2 =? ch_u) then conv_int digits u64 10 false 2 ap
  else if c0 =? ch_x then conv_int digits u32 16 false 0 ap
  else if (c0 =? ch_l) && (c1 =? ch_x) then conv_int digits u64 16 false 1 ap
  else if (c0 =? ch_l) && (c1 =? ch_l) && (c2 =? ch_x) then conv_int digits u64 16 false 2 ap
  else if c0 =? ch_p then conv_ptr digits ap
  else if c0 =? ch_c then conv_char ap
  else if c0 =? ch_s then conv_str ap
  else if c0 =? chPERCENT then Ret ([chPERCENT], ap, 0%nat)
  else Ret ([chPERCENT; c0], ap, 0%nat).

(** [for (i = 0; (cx = fmt\[i\] & 0xff) != 0; i++)], the bytes from [i] on; each
    iteration consumes one or more. *)
Fixpoint printk_loop (digits : list Z) (fuel : nat) (fmt : list Z) (ap : list arg) (out : list Z)
  : res (list Z) :=
  match fuel with
  | O => Undef "printk_loop: out of fuel"
  | S fuel' =>
    match fmt with
    | [] => Ret out
    | cx :: fmt1 =>
      if negb (cx =? chPERCENT) then printk_loop digits fuel' fmt1 ap (out ++ [cx])
      else
        let c0 := peekc fmt1 in
        let c1 := if c0 =? 0 then 0 else peekc (tail fmt1) in
        let c2 := if c1 =? 0 then 0 else peekc (tail (tail fmt1)) in
        if c0 =? 0 then Ret out
        else
          match conv digits c0 c1 c2 ap with
          | Ret (txt, ap', skip) => printk_loop digits fuel' (drop (S skip) fmt1) ap' (out ++ txt)
          | Panic e => Panic e
          | Undef e => Undef e
          end
    end
  end.

Definition printk (fmt : list Z) (ap : list arg) : res (list Z) :=
  printk_loop kdigits (S (length fmt)) fmt ap [].
End Kernel.

Module User.
(** The [if] chain of [vprintf] in state ['%']. *)
Definition conv (digits : list Z) (c0 c1 c2 : Z) (ap : list arg) : conv_res :=
  if c0 =? ch_d then conv_int digits i32 10 true 0 ap
  else if (c0 =? ch_l) && (c1 =? ch_d) then conv_int digits u64 10 true 1 ap
  else if (c0 =? ch_l) && (c1 =? ch_l) && (c2 =? ch_d) then conv_int digits u64 10 true 2 ap
  else if c0 =? ch_u then conv_int digits u32 10 false 0 ap
  else if (c0 =? ch_l) && (c1 =? ch_u) then conv_int digits u64 10 false 1 ap
  else if (c0 =? ch_l) && (c1 =? ch_l) && (c2 =? ch_u) then conv_int digits u64 10 false 2 ap
  else if c0 =? ch_x then conv_int digits u32 16 false 0 ap
  else if (c0 =? ch_l) && (c1 =? ch_x) then conv_int digits u64 16 false 1 ap
  else if (c0 =? ch_l) && (c1 =? ch_l) && (c2 =? ch_x) then conv_int digits u64 16 false 2 ap
  else if c0 =? ch_p then conv_ptr digits ap
  else if c0 =? ch_c then conv_char ap
  else if c0 =? ch_s then conv_str ap
  else if c0 =? chPERCENT then Ret ([chPERCENT], ap, 0%nat)
  else Ret ([chPERCENT; c0], ap, 0%nat).

(** [pct] is [state == '%']. *)
Fixpoint vprintf_loop (digits : list Z) (fuel : nat) (pct : bool) (fmt : list Z) (ap : list arg) (out : list Z)
  : res (list Z) :=
  match fuel with
  | O => Undef "vprintf_loop: out of fuel"
  | S fuel' =>
    match fmt with
    | [] => Ret out
    | c0 :: fmt1 =>
      if negb pct then
        if c0 =? chPERCENT then vprintf_loop digits fuel' true fmt1 ap out
        else vprintf_loop digits fuel' false fmt1 ap (out ++ [c0])
      else
        let c1 := if c0 =? 0 then 0 else peekc fmt1 in
        let c2 := if c1 =? 0 then 0 else peekc (tail fmt1) in
        match conv digits c0 c1 c2 ap with
        | Ret (txt, ap', skip) => vprintf_loop digits fuel' false (drop skip fmt1) ap' (out ++ txt)
        | Panic e => Panic e
        | Undef e => Undef e
        end
    end
  end.

Definition vprintf (fmt : list Z) (ap : list arg) : res (list Z) :=
  vprintf_loop udigits (S (length fmt)) false fmt ap [].
End User.

Example printk_ex :
  Kernel.printk (bytes "pid %d: %s 0x%lx%%") [AInt (-12); AStr (Some (bytes "sh")); AInt 48879]
  = Ret (bytes "pid -12: sh 0xbeef%").
Proof. vm_compute. reflexivity. Qed.

(** ** Numerals *)

(** Value of a list of digits, most significant first. *)
Definition horner (base : Z) (ds : list Z) : Z := fold_left (fun v d => v * base + d) ds 0.

(** [ds] is the numeral of [x]: digits in range, no superfluous leading zero. *)
Definition numeral (base x : Z) (ds : list Z) : Prop :=
  Forall (fun d => 0 <= d < base) ds /\ horner base ds = x /\
  (ds = [0] \/ exists d ds', ds = d :: ds' /\ d <> 0).

(** Characters of digit values. *)
Definition spell (digits ds : list Z) : list Z := (fun d => nth (Z.to_nat d) digits 0) <$> ds.

Lemma horner_snoc base ds d : horner base (ds ++ [d]) = horner base ds * base + d.
Proof. unfold horner. by rewrite fold_left_app. Qed.

Lemma digit_loop_spec digits base fuel n x buf :
  2 <= base -> 0 <= x < base ^ Z.of_nat n -> (0 < n)%nat -> (n <= fuel)%nat ->
  (length buf + n <= BUFLEN)%nat ->
  exists ds, digit_loop digits fuel x base buf = Ret (buf ++ rev (spell digits ds)) /\
    numeral base x ds /\ (length ds <= n)%nat.
Proof.
  intros Hb. revert n x buf. induction fuel as [|fuel IH]; intros n x buf Hx Hn Hf Hl; [lia|].
  cbn [digit_loop]. rewrite (proj2 (Nat.ltb_lt _ _)) by lia.
  pose proof (Z.mod_pos_bound x base ltac:(lia)) as Hm.
  destruct (Z.eqb_spec (x / base) 0) as [Hz|Hz].
  - exists [x mod base]. split; [done|].
    assert (x mod base = x) as Ex by (pose proof (Z.div_mod x base ltac:(lia)); lia).
    rewrite Ex. split; [|cbn; lia]. split; [constructor; [lia|constructor]|].
    split; [unfold horner; cbn; lia|].
    destruct (decide (x = 0)) as [->|N]; [by left|]. right. by eexists _, _.
  - destruct n as [|[|n]]; [lia| |].
    { rewrite Z.pow_1_r in Hx. rewrite Z.div_small in Hz by lia. done. }
    destruct (IH (S n) (x / base) (buf ++ [nth (Z.to_nat (x mod base)) digits 0]))
      as (ds & Er & (Hr & Hv & Hh) & Hlen).
    + split; [apply Z.div_pos; lia|]. apply Z.div_lt_upper_bound; [lia|].
      rewrite <- Z.pow_succ_r by lia. replace (Z.succ (Z.of_nat (S n))) with (Z.of_nat (S (S n))) by lia.
      lia.
    + lia.
    + lia.
    + rewrite length_app. cbn. lia.
    + exists (ds ++ [x mod base]). split.
      { rewrite Er. f_equal. unfold spell. rewrite fmap_app, rev_app_distr. cbn.
        by rewrite <- app_assoc. }
      split; [|rewrite length_app; cbn; lia]. split; [|split].
      * apply Forall_app. split; [done|]. constructor; [lia|constructor].
      * rewrite horner_snoc, Hv. pose proof (Z.div_mod x base ltac:(lia)). lia.
      * right. destruct Hh as [->|(d & ds' & -> & Hd)]; [|by eexists _, _].
        unfold horner in Hv. cbn in Hv. lia.
Qed.

(** The number [printint] shows, and its largest digit count. *)
Definition magnitude (xx : Z) (sign : bool) : Z := if sign then Z.abs xx else u64 xx.

Lemma printint_spec digits xx base sign :
  base = 10 \/ base = 16 -> - 2 ^ 63 <= xx < 2 ^ 63 ->
  exists ds, printint digits xx base sign =
      Ret ((if sign && (xx <? 0) then [chMINUS] else []) ++ spell digits ds) /\
    numeral base (magnitude xx sign) ds.
Proof.
  intros Hb Hx. unfold printint, magnitude.
  set (neg := sign && (xx <? 0)). set (x := if neg then _ else _).
  assert (0 <= x < base ^ (if neg then 19 else 20) /\ x = if sign then Z.abs xx else u64 xx)
    as [Hr Ex].
  { assert (2 ^ 64 < base ^ 20 /\ 2 ^ 63 < base ^ 19) as [H20 H19]
      by (destruct Hb as [-> | ->]; lia).
    subst x neg. unfold wrap. change (2 ^ 64) with 18446744073709551616 in *.
    change (2 ^ 63) with 9223372036854775808 in *.
    pose proof (Z.mod_pos_bound xx 18446744073709551616 ltac:(lia)).
    destruct sign; cbn [andb]; [|lia].
    destruct (Z.ltb_spec xx 0).
    - rewrite Z.mod_small by lia. lia.
    - rewrite Z.mod_small in * by lia. lia. }
  destruct (digit_loop_spec digits base 65 (if neg then 19 else 20) x [])
    as (ds & Er & Hnum & Hlen).
  { lia. } { by destruct neg. } { destruct neg; lia. } { destruct neg; lia. }
  { cbn. unfold BUFLEN. destruct neg; lia. }
  rewrite Er. cbn [app]. exists ds. rewrite <- Ex. split; [|done].
  destruct neg; [|by rewrite rev_involutive].
  rewrite (proj2 (Nat.ltb_lt _ _)).
  - by rewrite rev_app_distr, rev_involutive.
  - rewrite length_rev. unfold spell. rewrite length_fmap. unfold BUFLEN. lia.
Qed.

(** ** The loops agree *)

Lemma drop_le {A} n (l : list A) : (length (drop n l) <= length l)%nat.
Proof. rewrite length_drop. lia. Qed.

Lemma loops_agree digits n fmt ap out fk fu :
  Forall (fun c => c <> 0) fmt -> (length fmt <= n)%nat ->
  (length fmt < fk)%nat -> (length fmt < fu)%nat ->
  Kernel.printk_loop digits fk fmt ap out = User.vprintf_loop digits fu false fmt ap out.
Proof.
  revert fmt ap out fk fu.
  induction n as [|n IH]; intros fmt ap out fk fu Hnz Hn Hk Hu;
    (destruct fk as [|fk]; [lia|]); (destruct fu as [|fu]; [lia|]);
    (destruct fmt as [|cx fmt]; [done|cbn [length] in *; try lia]).
  inversion Hnz as [|?? Hcx Hnz']; subst.
  cbn [Kernel.printk_loop User.vprintf_loop negb].
  destruct (Z.eqb_spec cx chPERCENT) as [->|N]; cbn [negb]; [|apply IH; [done|lia..]].
  destruct fmt as [|c0 fmt].
  { destruct fu; [cbn in *; lia|done]. }
  cbn [length] in *. inversion Hnz' as [|?? Hc0 Hnz'']; subst.
  destruct fu as [|fu]; [lia|]. cbn [User.vprintf_loop negb peekc tail].
  rewrite (proj2 (Z.eqb_neq c0 0)) by done.
  change User.conv with Kernel.conv.
  destruct (Kernel.conv _ _ _ _ _) as [[[txt ap'] skip]|e|e]; [|done|done].
  cbn [drop]. pose proof (drop_le skip fmt).
  apply IH; [by apply Forall_drop|lia..].
Qed.

(** ** Conversions are safe *)

(** Returned, or the caller passed too few or wrong arguments. *)
Definition safe {A} (r : res A) : Prop :=
  match r with Ret _ => True | Panic _ => False | Undef w => w = "va_arg"%string end.

Lemma i64_range x : - 2 ^ 63 <= i64 x < 2 ^ 63.
Proof.
  unfold swrap. pose proof (Z.mod_pos_bound x (2 ^ 64) ltac:(lia)).
  destruct (Z.ltb_spec (x mod 2 ^ 64) (2 ^ (64 - 1))); lia.
Qed.

Lemma conv_int_safe digits cast base sign skip ap :
  base = 10 \/ base = 16 -> safe (conv_int digits cast base sign skip ap).
Proof.
  intros Hb. unfold conv_int. destruct ap as [|[v|s] ap]; cbn [va_int]; try done.
  destruct (printint_spec digits (i64 (cast v)) base sign Hb (i64_range _)) as (ds & -> & _).
  done.
Qed.

Lemma conv_safe digits c0 c1 c2 ap : safe (Kernel.conv digits c0 c1 c2 ap).
Proof.
  unfold Kernel.conv, conv_ptr, conv_char, conv_str.
  repeat case_match; try done; try (apply conv_int_safe; lia);
    destruct ap as [|[v|[s|]] ap]; simplify_eq/=; done.
Qed.

Lemma printk_loop_safe digits fuel fmt ap out :
  (length fmt < fuel)%nat -> safe (Kernel.printk_loop digits fuel fmt ap out).
Proof.
  revert fmt ap out. induction fuel as [|fuel IH]; intros fmt ap out Hl; [lia|].
  cbn [Kernel.printk_loop]. destruct fmt as [|cx fmt]; [done|]. cbn [length] in *.
  destruct (negb _); [apply IH; lia|]. destruct (peekc fmt =? 0) eqn:E0; [done|].
  pose proof (conv_safe digits (peekc fmt) (peekc (tail fmt))
    (if peekc (tail fmt) =? 0 then 0 else peekc (tail (tail fmt))) ap) as Hc.
  destruct (Kernel.conv _ _ _ _ _) as [[[txt ap'] skip]|e|e]; [|done|done].
  apply IH. rewrite length_drop. lia.
Qed.

(** ** Properties *)

(** For every 64-bit value, [printint] in base 10 or 16 fits its 20-byte
    buffer and prints the numeral of the value: digits in range whose value is
    the number (its magnitude after a minus sign, when signed), without leading
    zeros. *)
Theorem printint_correct digits xx base sign :
  base = 10 \/ base = 16 -> - 2 ^ 63 <= xx < 2 ^ 63 ->
  exists ds, printint digits xx base sign =
      Ret ((if sign && (xx <? 0) then [chMINUS] else []) ++ spell digits ds) /\
    numeral base (magnitude xx sign) ds.
Proof. apply printint_spec. Qed.

(** The kernel's and the user library's printers read formats alike: with
    the same digit table they print the same text for every format string and
    argument list. *)
Theorem printers_agree digits fmt ap :
  Forall (fun c => c <> 0) fmt ->
  Kernel.printk_loop digits (S (length fmt)) fmt ap [] =
  User.vprintf_loop digits (S (length fmt)) false fmt ap [].
Proof. intros H. by apply (loops_agree digits (length fmt)); [|lia..]. Qed.

(** C21: [printk] terminates on every format and never writes outside its buffer;
    the only thing that can go wrong is a conversion without a matching
    argument. *)
Theorem printk_safe fmt ap : safe (Kernel.printk fmt ap).
Proof. apply printk_loop_safe. lia. Qed.

Lemma printint_correct_witness :
  exists ds, printint kdigits (- 2 ^ 63) 10 true = Ret ([chMINUS] ++ spell kdigits ds) /\
    numeral 10 (2 ^ 63) ds.
Proof.
  exact (printint_correct kdigits (- 2 ^ 63) 10 true ltac:(left; reflexivity) ltac:(lia)).
Defined.

Lemma printers_agree_witness :
  Kernel.printk_loop kdigits 6 (bytes "%d %x") [AInt 10; AInt 255] [] =
  User.vprintf_loop kdigits 6 false (bytes "%d %x") [AInt 10; AInt 255] [].
Proof.
  exact (printers_agree kdigits (bytes "%d %x") [AInt 10; AInt 255] ltac:(cbn; forall_lia)).
Defined.
