(* ===== verification/Grep.v ===== *)
(** * Text filters of the user programs: [user/grep.c], [user/wc.c]

    The pattern matcher of [grep] is compared with the language of the pattern;
    the line loop with its 1024-byte buffer with the plain reading of its input.
    A C string is the list of its bytes, without the terminator.  The sizes that
    [read] returns are an oracle: any positive number of bytes up to what is
    asked for and left. *)

From S2P Require Import Prelude.

(** ** The matcher *)

(** The [do]-[while] of [matchstar], where [mh] is [matchhere] at [re]. *)
Fixpoint matchstar (mh : list Z -> bool) (c : Z) (text : list Z) : bool :=
  if mh text then true
  else match text with
  | [] => false
  | t :: text' => if (t =? c) || (c =? chDOT) then matchstar mh c text' else false
  end.

Fixpoint matchhere (re text : list Z) : bool :=
  match re with
  | [] => true
  | c :: re1 =>
    let plain :=
      if (c =? chDOLLAR) && match re1 with [] => true | _ => false end
      then match text with [] => true | _ => false end
      else match text with
           | [] => false
           | t :: text' => if (c =? chDOT) || (c =? t) then matchhere re1 text' else false
           end in
    match re1 with
    | s :: re2 => if s =? chSTAR then matchstar (matchhere re2) c text else plain
    | [] => plain
    end
  end.

(** The [do]-[while] of [match]: every suffix, the empty one included. *)
Fixpoint match_anywhere (re text : list Z) : bool :=
  if matchhere re text then true
  else match text with [] => false | _ :: text' => match_anywhere re text' end.

Definition match_ (re text : list Z) : bool :=
  match re with
  | c :: re' => if c =? chCARET then matchhere re' text else match_anywhere re text
  | [] => match_anywhere re text
  end.

(** ** The line loop *)

Definition GREPBUF : nat := 1024%nat.

(** [strchr(p, '\n')]: the text before the first newline and after it. *)
Fixpoint strchr_nl (p : list Z) : option (list Z * list Z) :=
  match p with
  | [] => None
  | c :: p' =>
    if c =? chNL then Some ([], p')
    else match strchr_nl p' with Some (a, b) => Some (c :: a, b) | None => None end
  end.

(** The [while] over the lines of the buffer; returns what is left of it. *)
Fixpoint line_loop (fuel : nat) (pattern p out : list Z) : list Z * list Z :=
  match fuel with
  | O => (p, out)
  | S fuel' =>
    match strchr_nl p with
    | None => (p, out)
    | Some (line, rest) =>
      line_loop fuel' pattern rest (if match_ pattern line then out ++ line ++ [chNL] else out)
    end
  end.

(** Size of the [i]-th read when [cap] bytes are asked for and [left] remain. *)
Definition read_size (rd : nat -> nat) (i cap left : nat) : nat :=
  let avail := (cap `min` left)%nat in
  match avail with O => O | S a => S (rd i mod S a) end.

(** [while ((n = read(fd, buf + m, sizeof(buf) - m - 1)) > 0)]; [carry] is the
    part of a line kept at the start of the buffer, [length carry = m]. *)
Fixpoint grep_loop (fuel : nat) (rd : nat -> nat) (pattern : list Z) (i : nat)
    (carry input out : list Z) : list Z :=
  match fuel with
  | O => out
  | S fuel' =>
    let n := read_size rd i (GREPBUF - length carry - 1) (length input) in
    match n with
    | O => out
    | _ =>
      let buf := carry ++ take n input in
      let '(p, out') := line_loop (S (length buf)) pattern buf out in
      grep_loop fuel' rd pattern (S i) p (drop n input) out'
    end
  end.

Definition grep (rd : nat -> nat) (pattern input : list Z) : list Z :=
  grep_loop (S (length input)) rd pattern 0 [] input [].

Example match_ex :
  match_ (bytes "^ab*c.$") (bytes "abbbcd") = true /\ match_ (bytes "b*d$") (bytes "abc") = false.
Proof. split; reflexivity. Qed.

(** ** The language of a pattern *)

Inductive item := One (c : Z) | Star (c : Z).

(** A parsed pattern: its items and whether it is anchored at the end. *)
Fixpoint parse_items (re : list Z) : list item * bool :=
  match re with
  | [] => ([], false)
  | c :: re1 =>
    let plain :=
      if (c =? chDOLLAR) && match re1 with [] => true | _ => false end then ([], true)
      else let '(its, e) := parse_items re1 in (One c :: its, e) in
    match re1 with
    | s :: re2 => if s =? chSTAR then let '(its, e) := parse_items re2 in (Star c :: its, e) else plain
    | [] => plain
    end
  end.

(** Character [x] is matched by [c]. *)
Definition sat (c x : Z) : Prop := c = chDOT \/ c = x.

(** The words of a list of items. *)
Inductive words : list item -> list Z -> Prop :=
| w_nil : words [] []
| w_one c x its w : sat c x -> words its w -> words (One c :: its) (x :: w)
| w_star c xs its w : Forall (sat c) xs -> words its w -> words (Star c :: its) (xs ++ w).

(** [text] begins with a word of the pattern, and ends there if it is anchored. *)
Definition begins (re text : list Z) : Prop :=
  exists w rest, text = w ++ rest /\ words (fst (parse_items re)) w /\
    (snd (parse_items re) = true -> rest = []).

(** [text] contains a word of the pattern, at its start after a [^]. *)
Definition contains (re text : list Z) : Prop :=
  match re with
  | c :: re' => if c =? chCARET then begins re' text
                else exists a b, text = a ++ b /\ begins re b
  | [] => True
  end.

Lemma matchstar_spec mh c text :
  matchstar mh c text = true <->
  exists xs rest, text = xs ++ rest /\ Forall (sat c) xs /\ mh rest = true.
Proof.
  induction text as [|t text IH]; cbn [matchstar].
  - destruct (mh []) eqn:E.
    + split; [|done]. intros _. by exists [], [].
    + split; [done|]. intros (xs & rest & H & _ & Hm).
      symmetry in H. apply app_nil in H as [-> ->]. congruence.
  - destruct (mh (t :: text)) eqn:E.
    + split; [|done]. intros _. by exists [], (t :: text).
    + assert (((t =? c) || (c =? chDOT)) = true <-> sat c t) as Hs
        by (unfold sat; rewrite orb_true_iff, !Z.eqb_eq; intuition congruence).
      destruct ((t =? c) || (c =? chDOT)).
      * rewrite IH. split.
        -- intros (xs & rest & -> & Hx & Hm). exists (t :: xs), rest.
           split; [done|]. split; [|done]. constructor; [by apply Hs|done].
        -- intros ([|x xs] & rest & Hx & Hf & Hm); cbn in Hx.
           ++ subst rest. congruence.
           ++ injection Hx as -> ->. exists xs, rest. by inversion Hf.
      * split; [done|]. intros ([|x xs] & rest & Hx & Hf & Hm); cbn in Hx.
        -- subst rest. congruence.
        -- injection Hx as -> ->. inversion Hf; subst. tauto.
Qed.

Lemma words_one_inv c its w :
  words (One c :: its) w <-> exists x w', w = x :: w' /\ sat c x /\ words its w'.
Proof.
  split; [inversion 1; subst; eauto|]. intros (x & w' & -> & ? & ?). by constructor.
Qed.

Lemma words_star_inv c its w :
  words (Star c :: its) w <-> exists xs w', w = xs ++ w' /\ Forall (sat c) xs /\ words its w'.
Proof.
  split; [inversion 1; subst; eauto|]. intros (x & w' & -> & ? & ?). by constructor.
Qed.

Lemma begins_star c re text :
  begins (c :: chSTAR :: re) text <->
  exists xs rest, text = xs ++ rest /\ Forall (sat c) xs /\ begins re rest.
Proof.
  unfold begins. cbn [parse_items]. rewrite Z.eqb_refl.
  destruct (parse_items re) as [its e]; cbn [fst snd]. split.
  - intros (w & rest & -> & Hw & He). apply words_star_inv in Hw as (xs & w' & -> & Hx & Hw).
    exists xs, (w' ++ rest). rewrite app_assoc. split; [done|]. split; [done|]. by exists w', rest.
  - intros (xs & r & -> & Hx & w & rest & -> & Hw & He). exists (xs ++ w), rest.
    rewrite app_assoc. split; [done|]. split; [by constructor|done].
Qed.

Lemma begins_nil text : begins [] text.
Proof. exists [], text. split; [done|]. split; [constructor|done]. Qed.

Lemma begins_dollar text : begins [chDOLLAR] text <-> text = [].
Proof.
  unfold begins. cbn. split.
  - intros (w & rest & -> & Hw & He). inversion Hw; subst. by rewrite He.
  - intros ->. exists [], []. split; [done|]. split; [constructor|done].
Qed.

(** The plain case of the parser. *)
Lemma begins_one c re text :
  (forall re2, re <> chSTAR :: re2) -> ~ (c = chDOLLAR /\ re = []) ->
  begins (c :: re) text <-> exists x text', text = x :: text' /\ sat c x /\ begins re text'.
Proof.
  intros Hs Hd. unfold begins.
  assert (parse_items (c :: re) = let '(its, e) := parse_items re in (One c :: its, e)) as ->.
  { cbn [parse_items]. destruct re as [|s re].
    - destruct (Z.eqb_spec c chDOLLAR); [tauto|done].
    - destruct (Z.eqb_spec s chSTAR) as [->|]; [by destruct (Hs re)|]. by rewrite andb_false_r. }
  destruct (parse_items re) as [its e]; cbn [fst snd]. split.
  - intros (w & rest & -> & Hw & He). apply words_one_inv in Hw as (x & w' & -> & Hx & Hw).
    exists x, (w' ++ rest). split; [done|]. split; [done|]. by exists w', rest.
  - intros (x & t & -> & Hx & w & rest & -> & Hw & He). exists (x :: w), rest.
    split; [done|]. split; [by constructor|done].
Qed.

Lemma matchhere_plain c re text :
  (forall re2, re <> chSTAR :: re2) ->
  matchhere (c :: re) text =
    if (c =? chDOLLAR) && match re with [] => true | _ => false end
    then match text with [] => true | _ => false end
    else match text with
         | [] => false
         | t :: text' => if (c =? chDOT) || (c =? t) then matchhere re text' else false
         end.
Proof.
  intros Hs. cbn [matchhere]. destruct re as [|s re]; [done|].
  destruct (Z.eqb_spec s chSTAR) as [->|]; [by destruct (Hs re)|done].
Qed.

Lemma matchhere_plain_spec c re text :
  (forall re2, re <> chSTAR :: re2) ->
  (forall t, matchhere re t = true <-> begins re t) ->
  matchhere (c :: re) text = true <-> begins (c :: re) text.
Proof.
  intros Hs IH. rewrite matchhere_plain by done.
  destruct (decide (c = chDOLLAR /\ re = [])) as [[-> ->]|Hd].
  { cbn. rewrite begins_dollar. by destruct text. }
  rewrite begins_one by done.
  replace ((c =? chDOLLAR) && match re with [] => true | _ => false end) with false.
  2:{ symmetry. destruct (Z.eqb_spec c chDOLLAR); [|done]. destruct re; [tauto|done]. }
  destruct text as [|t text]; [split; [done|]; by intros (? & ? & ? & _)|].
  assert (((c =? chDOT) || (c =? t)) = true <-> sat c t) as Hb
    by (unfold sat; rewrite orb_true_iff, !Z.eqb_eq; done).
  destruct ((c =? chDOT) || (c =? t)).
  - rewrite IH. split; [intros H; exists t, text; tauto|]. by intros (x & t' & [= -> ->] & _ & ?).
  - split; [done|]. intros (x & t' & [= -> ->] & Hx & _). tauto.
Qed.

Lemma matchhere_spec n re text :
  (length re <= n)%nat -> matchhere re text = true <-> begins re text.
Proof.
  revert re text. induction n as [|n IH]; intros re text Hn;
    (destruct re as [|c re]; [split; [intros _; apply begins_nil|done]|]); cbn [length] in Hn; [lia|].
  assert ((exists re2, re = chSTAR :: re2) \/ forall re2, re <> chSTAR :: re2) as [[re2 ->]|Hs].
  { destruct re as [|s re]; [by right|]. destruct (decide (s = chSTAR)) as [->|N]; [eauto|].
    right. congruence. }
  - rewrite begins_star. cbn [matchhere]. rewrite Z.eqb_refl, matchstar_spec.
    cbn [length] in Hn. split; intros (xs & rest & ? & ? & H); exists xs, rest;
      (split; [done|]; split; [done|]); apply IH in H; try done; lia.
  - apply matchhere_plain_spec; [done|]. intros t. apply IH. lia.
Qed.

Lemma match_anywhere_spec re text :
  match_anywhere re text = true <-> exists a b, text = a ++ b /\ begins re b.
Proof.
  induction text as [|t text IH]; cbn [match_anywhere];
    pose proof (fun t => matchhere_spec (length re) re t (le_n _)) as Hm.
  - destruct (matchhere re []) eqn:E.
    + split; [|done]. intros _. exists [], []. split; [done|by apply Hm].
    + split; [done|]. intros (a & b & H & Hb). symmetry in H. apply app_nil in H as [-> ->].
      apply Hm in Hb. congruence.
  - destruct (matchhere re (t :: text)) eqn:E.
    + split; [|done]. intros _. exists [], (t :: text). split; [done|by apply Hm].
    + rewrite IH. split.
      * intros (a & b & -> & Hb). by exists (t :: a), b.
      * intros ([|x a] & b & H & Hb); cbn in H.
        -- subst b. apply Hm in Hb. congruence.
        -- injection H as -> ->. by exists a, b.
Qed.

(** ** Lines *)

(** The complete lines of the input, and the unfinished last one. *)
Fixpoint split_lines (acc l : list Z) : list (list Z) * list Z :=
  match l with
  | [] => ([], acc)
  | c :: l' =>
    if c =? chNL then let '(ls, r) := split_lines [] l' in (acc :: ls, r)
    else split_lines (acc ++ [c]) l'
  end.

(** What a filter that sees whole lines would print. *)
Definition select (pattern : list Z) (ls : list (list Z)) : list Z :=
  ls ≫= (fun line => if match_ pattern line then line ++ [chNL] else []).

(** No line needs more room than the buffer has. *)
Fixpoint short_lines (k : nat) (l : list Z) : bool :=
  match l with
  | [] => (k <? GREPBUF - 1)%nat
  | c :: l' => (k <? GREPBUF - 1)%nat && (if c =? chNL then short_lines 0 l' else short_lines (S k) l')
  end.

Lemma split_lines_app acc l1 l2 :
  split_lines acc (l1 ++ l2) =
    let '(ls1, r1) := split_lines acc l1 in
    let '(ls2, r2) := split_lines r1 l2 in (ls1 ++ ls2, r2).
Proof.
  revert acc. induction l1 as [|c l1 IH]; intros acc; cbn [app split_lines].
  - by destruct (split_lines acc l2).
  - destruct (c =? chNL).
    + rewrite IH. destruct (split_lines [] l1) as [ls1 r1].
      by destruct (split_lines r1 l2) as [ls2 r2].
    + apply IH.
Qed.

(** A prefix without newline only extends the current line. *)
Lemma split_lines_plain acc p l :
  chNL ∉ p -> split_lines acc (p ++ l) = split_lines (acc ++ p) l.
Proof.
  revert acc. induction p as [|c p IH]; intros acc Hp; cbn [app].
  - by rewrite app_nil_r.
  - cbn [split_lines]. apply not_elem_of_cons in Hp as [Hc Hp].
    rewrite (proj2 (Z.eqb_neq c chNL)) by congruence. rewrite IH by done. by rewrite <- app_assoc.
Qed.

Lemma strchr_nl_Some p a b : strchr_nl p = Some (a, b) -> p = a ++ chNL :: b /\ chNL ∉ a.
Proof.
  revert a b. induction p as [|c p IH]; intros a b; cbn; [done|].
  destruct (Z.eqb_spec c chNL) as [->|N]; [intros [= <- <-]; split; [done|set_solver]|].
  destruct (strchr_nl p) as [[a' b']|]; [|done]. intros [= <- <-].
  destruct (IH a' b' eq_refl) as [-> Ha]. split; [done|]. by apply not_elem_of_cons.
Qed.

Lemma strchr_nl_None p : strchr_nl p = None -> chNL ∉ p.
Proof.
  induction p as [|c p IH]; cbn; [set_solver|].
  destruct (Z.eqb_spec c chNL) as [->|N]; [done|].
  destruct (strchr_nl p) as [[a b]|]; [done|]. intros H. apply not_elem_of_cons. auto.
Qed.

Lemma line_loop_spec fuel pattern p out :
  (length p < fuel)%nat ->
  line_loop fuel pattern p out =
    let '(ls, r) := split_lines [] p in (r, out ++ select pattern ls).
Proof.
  revert p out. induction fuel as [|fuel IH]; intros p out Hf; [lia|]. cbn [line_loop].
  destruct (strchr_nl p) as [[a b]|] eqn:E.
  - apply strchr_nl_Some in E as [-> Ha]. rewrite length_app in Hf. cbn [length] in Hf.
    rewrite IH by lia. rewrite (split_lines_plain [] a) by done. cbn [app split_lines].
    rewrite Z.eqb_refl. destruct (split_lines [] b) as [ls r]. f_equal.
    cbn [select mbind list_bind]. unfold select. cbn.
    destruct (match_ pattern a); cbn; by rewrite <- ?app_assoc.
  - apply strchr_nl_None in E. rewrite <- (app_nil_r p) at 2.
    rewrite split_lines_plain by done. cbn. by rewrite app_nil_r.
Qed.

Lemma split_lines_rest_short k acc l :
  (length acc <= k)%nat -> short_lines k l = true ->
  (length (snd (split_lines acc l)) < GREPBUF - 1)%nat.
Proof.
  revert k acc. induction l as [|c l IH]; intros k acc Ha; cbn [short_lines split_lines].
  - intros Hk%Nat.ltb_lt. cbn [snd]. lia.
  - intros [_ Hs]%andb_true_iff. destruct (c =? chNL).
    + specialize (IH 0%nat [] ltac:(cbn; lia) Hs).
      by destruct (split_lines [] l) as [ls r].
    + apply (IH (S k)); [rewrite length_app; cbn; lia|done].
Qed.

Lemma short_lines_split k l1 l2 :
  short_lines k (l1 ++ l2) = true ->
  short_lines k l1 = true /\
  exists k', short_lines k' l2 = true /\
    forall acc, length acc = k -> length (snd (split_lines acc l1)) = k'.
Proof.
  revert k. induction l1 as [|c l1 IH]; intros k; cbn [app short_lines split_lines].
  - intros H. split; [|by exists k].
    destruct l2; cbn in H; [done|by apply andb_true_iff in H as [? _]].
  - intros [Hk H]%andb_true_iff. rewrite Hk. destruct (c =? chNL).
    + destruct (IH 0%nat H) as [-> (k' & H2 & H3)]. split; [done|]. exists k'.
      split; [done|]. intros acc _. specialize (H3 [] eq_refl).
      by destruct (split_lines [] l1) as [ls r].
    + destruct (IH (S k) H) as [-> (k' & H2 & H3)]. split; [done|]. exists k'.
      split; [done|]. intros acc Ha. apply H3. rewrite length_app. cbn. lia.
Qed.

Lemma read_size_le rd i cap left : (read_size rd i cap left <= left)%nat.
Proof.
  unfold read_size. destruct (cap `min` left)%nat as [|a] eqn:E; [lia|].
  pose proof (Nat.mod_upper_bound (rd i) (S a) ltac:(lia)). lia.
Qed.

Lemma read_size_pos rd i cap left :
  (0 < cap)%nat -> (0 < left)%nat -> (0 < read_size rd i cap left)%nat.
Proof. intros H1 H2. unfold read_size. destruct (cap `min` left)%nat eqn:E; lia. Qed.

Lemma split_lines_rest_nl acc l : chNL ∉ acc -> chNL ∉ snd (split_lines acc l).
Proof.
  revert acc. induction l as [|c l IH]; intros acc Ha; cbn [split_lines]; [done|].
  destruct (Z.eqb_spec c chNL) as [->|N].
  - specialize (IH [] ltac:(set_solver)). by destruct (split_lines [] l).
  - apply IH. set_solver.
Qed.

Lemma grep_loop_spec fuel rd pattern i carry input out :
  (length input < fuel)%nat -> chNL ∉ carry -> short_lines (length carry) input = true ->
  grep_loop fuel rd pattern i carry input out =
    out ++ select pattern (fst (split_lines carry input)).
Proof.
  revert i carry input out.
  induction fuel as [|fuel IH]; intros i carry input out Hf Hnl Hs; [lia|].
  cbn [grep_loop].
  assert (length carry < GREPBUF - 1)%nat as Hc
    by (destruct input; cbn [short_lines] in Hs; [|apply andb_true_iff in Hs as [Hs _]];
        by apply Nat.ltb_lt in Hs).
  remember (read_size rd i (GREPBUF - length carry - 1) (length input)) as n eqn:En.
  assert (n <= length input)%nat as Hle by (subst n; apply read_size_le).
  destruct n as [|n'].
  { destruct input as [|c input]; [cbn; by rewrite app_nil_r|].
    pose proof (read_size_pos rd i (GREPBUF - length carry - 1) (length (c :: input))
      ltac:(lia) ltac:(cbn; lia)). lia. }
  remember (S n') as n eqn:Hn'.
  rewrite line_loop_spec by lia. rewrite split_lines_plain by done. cbn [app].
  rewrite <- (take_drop n input) in Hs.
  destruct (short_lines_split _ _ _ Hs) as [_ (k' & Hs2 & Hk)]. specialize (Hk carry eq_refl).
  pose proof (split_lines_rest_nl carry (take n input) Hnl) as Hr.
  pose proof (split_lines_app carry (take n input) (drop n input)) as Ea.
  rewrite take_drop in Ea. rewrite Ea. clear Ea.
  destruct (split_lines carry (take n input)) as [ls r]; cbn [snd] in *.
  rewrite IH; [|rewrite length_drop; lia|done|by rewrite Hk].
  destruct (split_lines r (drop n input)) as [ls2 r2]. cbn [fst].
  unfold select. rewrite bind_app. by rewrite app_assoc.
Qed.

(** ** Counting: [wc] *)

Definition wc_space (c : Z) : bool :=
  (c =? chSPACE) || (c =? chCR) || (c =? chTAB) || (c =? chNL) || (c =? chVT).

Record wcst := mkWc { wl : Z; ww : Z; wchars : Z; inword : bool }.

(** Body of [wc]'s inner loop. *)
Definition wc_byte (s : wcst) (b : Z) : wcst :=
  let l := if b =? chNL then wl s + 1 else wl s in
  if wc_space b then mkWc l (ww s) (wchars s + 1) false
  else if negb (inword s) then mkWc l (ww s + 1) (wchars s + 1) true
  else mkWc l (ww s) (wchars s + 1) (inword s).

(** The two loops over the blocks that [read] returns. *)
Fixpoint wc_loop (s : wcst) (blocks : list (list Z)) : wcst :=
  match blocks with
  | [] => s
  | b :: blocks' => wc_loop (fold_left wc_byte b s) blocks'
  end.

(** The line, word and byte counts [wc] prints. *)
Definition wc (blocks : list (list Z)) : Z * Z * Z :=
  let s := wc_loop (mkWc 0 0 0 false) blocks in (wl s, ww s, wchars s).

(** Maximal runs of non-space bytes. *)
Fixpoint runs (cur : list Z) (l : list Z) : list (list Z) :=
  match l with
  | [] => match cur with [] => [] | _ => [cur] end
  | c :: l' =>
    if wc_space c then match cur with [] => runs [] l' | _ => cur :: runs [] l' end
    else runs (cur ++ [c]) l'
  end.

Definition newlines (l : list Z) : nat := length (filter (fun c => c = chNL) l).

Lemma wc_fold l s cur :
  inword s = match cur with [] => false | _ => true end ->
  let s' := fold_left wc_byte l s in
  wl s' = wl s + Z.of_nat (newlines l) /\ wchars s' = wchars s + Z.of_nat (length l) /\
  ww s' = ww s + Z.of_nat (length (runs cur l)) - (if inword s then 1 else 0).
Proof.
  revert s cur. induction l as [|c l IH]; intros s cur Hs; cbn [fold_left runs].
  - unfold newlines. cbn. rewrite Hs. destruct cur; cbn; lia.
  - assert (newlines (c :: l) = (if (c =? chNL) then S (newlines l) else newlines l)) as Hnl.
    { unfold newlines. rewrite filter_cons. destruct (Z.eqb_spec c chNL); case_decide; try done; cbn; lia. }
    rewrite Hnl. set (s1 := wc_byte s c).
    assert (wl s1 = wl s + (if c =? chNL then 1 else 0) /\ wchars s1 = wchars s + 1) as [E1 E2].
    { unfold s1, wc_byte. destruct (c =? chNL), (wc_space c), (inword s); cbn; lia. }
    destruct (wc_space c) eqn:Esp.
    + assert (inword s1 = false /\ ww s1 = ww s) as [E3 E4]
        by (unfold s1, wc_byte; by rewrite Esp).
      destruct (IH s1 [] E3) as (H1 & H2 & H3). rewrite E3 in H3.
      rewrite H1, H2, H3, E1, E2, E4, Hs. cbn [length].
      destruct cur; cbn [length]; destruct (c =? chNL); lia.
    + assert (inword s1 = true /\ ww s1 = ww s + (if inword s then 0 else 1)) as [E3 E4]
        by (unfold s1, wc_byte; rewrite Esp; destruct (inword s) eqn:Ew; cbn; rewrite ?Ew; lia).
      destruct (IH s1 (cur ++ [c])) as (H1 & H2 & H3); [rewrite E3; by destruct cur|].
      rewrite E3 in H3. rewrite H1, H2, H3, E1, E2, E4. cbn [length].
      destruct (inword s), (c =? chNL); lia.
Qed.

Lemma wc_loop_concat s blocks : wc_loop s blocks = fold_left wc_byte (concat blocks) s.
Proof.
  revert s. induction blocks as [|b blocks IH]; intros s; cbn [wc_loop concat]; [done|].
  by rewrite IH, fold_left_app.
Qed.

(** ** Properties *)

(** C40: [match] decides the language of its pattern: it answers 1 exactly when
    the text contains (after a leading caret: begins with) a word matched by the
    pattern's items, reaching to the end of the text if the pattern ends in a
    dollar sign. *)
Theorem match_language re text : match_ re text = true <-> contains re text.
Proof.
  unfold match_, contains. destruct re as [|c re].
  - rewrite match_anywhere_spec. split; [done|]. intros _. exists [], text.
    split; [done|apply begins_nil].
  - destruct (c =? chCARET); [by apply (matchhere_spec (length re))|].
    apply match_anywhere_spec.
Qed.

(** However [read] cuts its input into blocks, [grep] prints exactly the
    complete lines that match, in order, provided no line is longer than 1022
    bytes. *)
Theorem grep_selects rd pattern input :
  short_lines 0 input = true ->
  grep rd pattern input = select pattern (fst (split_lines [] input)).
Proof. intros H. unfold grep. apply (grep_loop_spec _ rd pattern 0 [] input []); [lia|set_solver|done]. Qed.

(** A line of 1023 bytes fills the buffer, the next read is asked for 0
    bytes and [grep] stops there as at the end of the file: a later line that
    matches is not printed. *)
Theorem grep_stops_at_long_line :
  let input := replicate 1023 97 ++ chNL :: bytes "hit" ++ [chNL] in
  grep (fun _ => 1022%nat) (bytes "hit") input = [] /\
  select (bytes "hit") (fst (split_lines [] input)) = bytes "hit" ++ [chNL].
Proof. vm_compute. split; reflexivity. Qed.

(** C25: [wc] counts the newlines, the maximal runs of non-space bytes and the
    bytes of its input, however the input is cut into blocks. *)
Theorem wc_counts blocks :
  wc blocks = (Z.of_nat (newlines (concat blocks)),
               Z.of_nat (length (runs [] (concat blocks))),
               Z.of_nat (length (concat blocks))).
Proof.
  unfold wc. rewrite wc_loop_concat.
  destruct (wc_fold (concat blocks) (mkWc 0 0 0 false) [] eq_refl) as (-> & -> & ->).
  cbn [wl ww wchars inword]. by rewrite !Z.add_0_l, Z.sub_0_r.
Qed.

Lemma grep_selects_witness :
  grep (fun i => i) (bytes "b$") (bytes "ab" ++ [chNL] ++ bytes "ba" ++ [chNL] ++ bytes "b") =
  bytes "ab" ++ [chNL].
Proof.
  rewrite (grep_selects (fun i => i) (bytes "b$")
    (bytes "ab" ++ [chNL] ++ bytes "ba" ++ [chNL] ++ bytes "b") ltac:(vm_compute; reflexivity)).
  vm_compute. reflexivity.
Defined.
