(* ===== verification/Pipe.v ===== *)
(** * Pipes: [kernel/pipe.c]

    A pipe is a ring of 512 bytes between two [uint] counters that are never
    reset and wrap.  A call of [pipewrite] or [piperead] runs under the pipe's
    lock until it returns or sleeps, so each such run is one atomic step; a
    writer that was asleep runs again from the byte it had reached.  User memory
    and [killed()] are oracles of the call: [src i] is the byte at [addr + i] or
    [None] where [copyin] fails, [dst i] tells whether [copyout] to [addr + i]
    succeeds, [kl i] is the answer of [killed()] at byte [i]. *)

From S2P Require Import Prelude Mlfq.

Definition PIPESIZE : Z := 512.

Record pipe := mkPipe {
  data : list Z; nread : Z; nwrite : Z; readopen : Z; writeopen : Z
}.

(** The channels [&pi->nread] and [&pi->nwrite]. *)
Inductive pchan := ChNread | ChNwrite.

(** A pipe and the number of processes asleep on each of its channels. *)
Record pst := mkPst { pp : pipe; rwait : nat; wwait : nat }.

Definition set_pp (pi : pipe) (s : pst) : pst := mkPst pi (rwait s) (wwait s).

Definition wakeup (c : pchan) : M pst unit :=
  modify (fun s => match c with
                   | ChNread => mkPst (pp s) 0 (wwait s)
                   | ChNwrite => mkPst (pp s) (rwait s) 0
                   end).
Definition sleep_on (c : pchan) : M pst unit :=
  modify (fun s => match c with
                   | ChNread => mkPst (pp s) (S (rwait s)) (wwait s)
                   | ChNwrite => mkPst (pp s) (rwait s) (S (wwait s))
                   end).

(** ** Operations *)

(** The fields [pipealloc] sets in the fresh page, whose bytes are [junk]. *)
Definition pipealloc (junk : list Z) : pipe := mkPipe junk 0 0 1 1.

Definition pipe_full (pi : pipe) : bool := nwrite pi =? u32 (nread pi + PIPESIZE).
Definition pipe_empty (pi : pipe) : bool := nread pi =? nwrite pi.

(** [pi->data\[pi->nwrite++ % PIPESIZE\] = ch;] *)
Definition put_byte (ch : Z) (pi : pipe) : pipe :=
  mkPipe (<[Z.to_nat (nwrite pi mod PIPESIZE) := ch]> (data pi)) (nread pi)
    (u32 (nwrite pi + 1)) (readopen pi) (writeopen pi).

(** [ch = pi->data\[pi->nread % PIPESIZE\];] and [pi->nread++;] *)
Definition next_byte (pi : pipe) : Z := nth (Z.to_nat (nread pi mod PIPESIZE)) (data pi) 0.
Definition take_byte (pi : pipe) : pipe :=
  mkPipe (data pi) (u32 (nread pi + 1)) (nwrite pi) (readopen pi) (writeopen pi).

(** A run ends with a return value or asleep at byte [i]. *)
Inductive run_end := Done (r : Z) | Asleep (i : nat).

Section Calls.
Context (kl : nat -> bool) (src : nat -> option Z) (dst : nat -> bool) (n : Z).

(** The [while] of [pipewrite] from byte [i]; [w] is what this run has put into
    the pipe.  Every iteration that goes on writes a byte. *)
Fixpoint write_loop (fuel i : nat) (w : list Z) : M pst (run_end * list Z) :=
  let finish := _ ← wakeup ChNread; mret (Done (Z.of_nat i), w) in
  match fuel with
  | O => undef "write_loop: out of fuel"
  | S fuel' =>
    if Z.of_nat i <? n then
      s ← get;
      if (readopen (pp s) =? 0) || kl i then mret (Done (-1), w)
      else if pipe_full (pp s) then
        _ ← wakeup ChNread;
        _ ← sleep_on ChNwrite;
        mret (Asleep i, w)
      else
        match src i with
        | None => finish
        | Some ch =>
          _ ← modify (fun s => set_pp (put_byte ch (pp s)) s);
          write_loop fuel' (S i) (w ++ [ch])
        end
    else finish
  end.

(** [pipewrite] from byte [i]: 0 when called, later when woken. *)
Definition pipewrite (i : nat) : M pst (run_end * list Z) :=
  write_loop (S (Z.to_nat n - i)) i [].

(** The copy loop of [piperead]; [out] is what it has handed to the user. *)
Fixpoint read_loop (fuel i : nat) (out : list Z) : M pst (run_end * list Z) :=
  let finish r := _ ← wakeup ChNwrite; mret (Done r, out) in
  match fuel with
  | O => undef "read_loop: out of fuel"
  | S fuel' =>
    if Z.of_nat i <? n then
      s ← get;
      if pipe_empty (pp s) then finish (Z.of_nat i)
      else if dst i then
        _ ← put (set_pp (take_byte (pp s)) s);
        read_loop fuel' (S i) (out ++ [next_byte (pp s)])
      else finish (if (i =? 0)%nat then -1 else Z.of_nat i)
    else finish (Z.of_nat i)
  end.

Definition piperead : M pst (run_end * list Z) :=
  s ← get;
  if pipe_empty (pp s) && c_true (writeopen (pp s)) then
    if kl 0%nat then mret (Done (-1), [])
    else _ ← sleep_on ChNread; mret (Asleep 0, [])
  else read_loop (S (Z.to_nat n)) 0 [].
End Calls.

(** [pipeclose] up to the [kfree], which happens when the result is [true]. *)
Definition pipeclose (writable : bool) : M pst bool :=
  s ← get;
  let pi := pp s in
  _ ← (if writable then
         _ ← put (set_pp (mkPipe (data pi) (nread pi) (nwrite pi) (readopen pi) 0) s);
         wakeup ChNread
       else
         _ ← put (set_pp (mkPipe (data pi) (nread pi) (nwrite pi) 0 (writeopen pi)) s);
         wakeup ChNwrite);
  s' ← get;
  mret ((readopen (pp s') =? 0) && (writeopen (pp s') =? 0)).

(** ** Contents *)

(** Number of bytes between the counters. *)
Definition fill (pi : pipe) : nat := Z.to_nat (u32 (nwrite pi - nread pi)).

(** The bytes between the counters, oldest first. *)
Definition contents (pi : pipe) : list Z :=
  (fun j => nth (Z.to_nat ((nread pi + Z.of_nat j) mod PIPESIZE)) (data pi) 0) <$> seq 0 (fill pi).

Record pipe_wf (pi : pipe) : Prop := {
  pw_data : length (data pi) = 512%nat;
  pw_nread : 0 <= nread pi < 2 ^ 32;
  pw_nwrite : 0 <= nwrite pi < 2 ^ 32;
  pw_fill : (fill pi <= 512)%nat
}.

(** Both counters count bytes modulo [2^32]. *)
Lemma u32_sub_succ a b : u32 (u32 (a + 1) - b) = u32 (u32 (a - b) + 1).
Proof. unfold wrap. rewrite Zminus_mod_idemp_l, Zplus_mod_idemp_l. f_equal. lia. Qed.

Lemma u32_mod_512 a : u32 a mod PIPESIZE = a mod PIPESIZE.
Proof. unfold wrap, PIPESIZE. change (2 ^ 32) with (8388608 * 512). rewrite Z.mul_comm.
  rewrite Z.rem_mul_r by lia. rewrite Z.mul_comm, Z.mod_add by lia. by rewrite Z.mod_mod. Qed.

Lemma pipe_empty_fill pi : pipe_wf pi -> pipe_empty pi = true <-> fill pi = 0%nat.
Proof.
  intros []. unfold pipe_empty, fill, wrap. rewrite Z.eqb_eq. split.
  - intros ->. by rewrite Z.sub_diag.
  - intros H. pose proof (Z.mod_pos_bound (nwrite pi - nread pi) (2 ^ 32) ltac:(lia)).
    destruct (Z.lt_ge_cases (nwrite pi) (nread pi)).
    + assert (0 = (nwrite pi - nread pi + 1 * 2 ^ 32)) as E; [|lia].
      rewrite <- (Z.mod_small (nwrite pi - nread pi + 1 * 2 ^ 32) (2 ^ 32)) by lia.
      rewrite Z.mod_add by lia. lia.
    + rewrite Z.mod_small in H by lia. lia.
Qed.

Lemma pipe_full_fill pi : pipe_wf pi -> pipe_full pi = true <-> fill pi = 512%nat.
Proof.
  intros []. unfold pipe_full, fill, wrap, PIPESIZE in *. rewrite Z.eqb_eq.
  pose proof (Z.mod_pos_bound (nwrite pi - nread pi) (2 ^ 32) ltac:(lia)). split.
  - intros H1. rewrite H1, Zminus_mod_idemp_l.
    replace (nread pi + 512 - nread pi) with 512 by lia. done.
  - intros H1. assert ((nwrite pi - nread pi) mod 2 ^ 32 = 512) as E by lia.
    rewrite <- (Z.mod_small (nwrite pi) (2 ^ 32)) by lia.
    replace (nwrite pi) with (nwrite pi - nread pi + nread pi) by lia.
    rewrite <- Zplus_mod_idemp_l, E. f_equal. lia.
Qed.

Lemma nwrite_index pi :
  pipe_wf pi -> nwrite pi mod PIPESIZE = (nread pi + Z.of_nat (fill pi)) mod PIPESIZE.
Proof.
  intros []. rewrite <- (u32_mod_512 (nread pi + Z.of_nat (fill pi))).
  unfold fill, wrap. pose proof (Z.mod_pos_bound (nwrite pi - nread pi) (2 ^ 32) ltac:(lia)).
  rewrite Z2Nat.id by lia. rewrite Zplus_mod_idemp_r.
  replace (nread pi + (nwrite pi - nread pi)) with (nwrite pi) by lia.
  rewrite (Z.mod_small _ (2 ^ 32)) by lia. done.
Qed.

(** Distinct offsets within one turn of the ring are distinct cells. *)
Lemma ring_inj a i j :
  0 <= i < PIPESIZE -> 0 <= j < PIPESIZE -> (a + i) mod PIPESIZE = (a + j) mod PIPESIZE -> i = j.
Proof.
  unfold PIPESIZE. intros Hi Hj H.
  assert (((a + i) - (a + j)) mod 512 = 0) as E.
  { rewrite Zminus_mod, H, Z.sub_diag. done. }
  apply Z.mod_divide in E as [q Hq]; [|lia]. lia.
Qed.

Lemma fill_put ch pi :
  pipe_wf pi -> pipe_full pi = false -> fill (put_byte ch pi) = S (fill pi).
Proof.
  intros Hwf Hf.
  assert (fill pi <> 512%nat) as Hn by (intros H; apply (pipe_full_fill pi Hwf) in H; congruence).
  destruct Hwf. unfold fill, put_byte in *. cbn [nwrite nread].
  rewrite u32_sub_succ. set (d := u32 (nwrite pi - nread pi)) in *.
  assert (0 <= d) by (unfold d, wrap; apply Z.mod_pos_bound; lia).
  rewrite wrap_small by lia. lia.
Qed.

Lemma put_byte_spec ch pi :
  pipe_wf pi -> pipe_full pi = false ->
  pipe_wf (put_byte ch pi) /\ contents (put_byte ch pi) = contents pi ++ [ch].
Proof.
  intros Hwf Hf. pose proof (fill_put ch pi Hwf Hf) as Efill.
  assert (fill pi < 512)%nat as Hlt.
  { destruct Hwf. assert (fill pi <> 512%nat); [|lia].
    intros H. apply (pipe_full_fill pi) in H; [congruence|done]. }
  pose proof (nwrite_index pi Hwf) as Hw. pose proof Hwf as []. split.
  - split; cbn; [by rewrite length_insert|done| |rewrite Efill; lia].
    unfold wrap. apply Z.mod_pos_bound. lia.
  - unfold contents. rewrite Efill, seq_S, fmap_app. cbn [nread put_byte data].
    assert (0 <= nwrite pi mod PIPESIZE < 512) as Hb by (apply Z.mod_pos_bound; done).
    f_equal.
    + apply list_fmap_ext. intros k j Hj. apply lookup_seq in Hj as [-> Hj]. cbn [Nat.add].
      apply nth_insert_ne. rewrite Hw. intros E.
      assert ((nread pi + Z.of_nat (fill pi)) mod PIPESIZE = (nread pi + Z.of_nat k) mod PIPESIZE) as E2.
      { pose proof (Z.mod_pos_bound (nread pi + Z.of_nat k) PIPESIZE ltac:(done)).
        pose proof (Z.mod_pos_bound (nread pi + Z.of_nat (fill pi)) PIPESIZE ltac:(done)). lia. }
      apply ring_inj in E2; unfold PIPESIZE; lia.
    + cbn. rewrite Hw, nth_insert_eq; [done|]. rewrite pw_data0, <- Hw. lia.
Qed.

Lemma u32_sub_pred a b : u32 (a - u32 (b + 1)) = u32 (u32 (a - b) - 1).
Proof. unfold wrap. rewrite Zminus_mod_idemp_r, Zminus_mod_idemp_l. f_equal. lia. Qed.

Lemma take_byte_spec pi :
  pipe_wf pi -> pipe_empty pi = false ->
  pipe_wf (take_byte pi) /\ contents pi = next_byte pi :: contents (take_byte pi).
Proof.
  intros Hwf He.
  assert (fill pi <> 0%nat) as Hn by (intros H; apply (pipe_empty_fill pi Hwf) in H; congruence).
  pose proof Hwf as [].
  assert (fill (take_byte pi) = (fill pi - 1)%nat) as Efill.
  { unfold fill, take_byte in *. cbn [nwrite nread]. rewrite u32_sub_pred.
    set (d := u32 (nwrite pi - nread pi)) in *.
    assert (0 <= d < 2 ^ 32) by (unfold d, wrap; apply Z.mod_pos_bound; lia).
    rewrite wrap_small by lia. lia. }
  split.
  - split; cbn; [done| |done|rewrite Efill; lia]. unfold wrap. apply Z.mod_pos_bound. lia.
  - unfold contents. rewrite Efill. destruct (fill pi) as [|m]; [done|].
    rewrite <- cons_seq. cbn [fmap list_fmap Nat.sub]. rewrite Nat.sub_0_r. f_equal.
    + unfold next_byte. do 3 f_equal. lia.
    + rewrite <- fmap_S_seq, <- list_fmap_compose. apply list_fmap_ext. intros k j _.
      cbn [take_byte data nread compose]. f_equal. f_equal.
      rewrite <- (Zplus_mod_idemp_l (u32 _)), u32_mod_512, Zplus_mod_idemp_l. f_equal. lia.
Qed.

Lemma contents_flags d r w ro wo ro' wo' :
  contents (mkPipe d r w ro wo) = contents (mkPipe d r w ro' wo').
Proof. done. Qed.

(** ** What a run does *)

(** [ws] are the user's bytes from offset [i] on. *)
Definition from_user (src : nat -> option Z) (i : nat) (ws : list Z) : Prop :=
  forall j b, ws !! j = Some b -> src (i + j)%nat = Some b.

(** A writing run from byte [i] in state [s] that put [ws] into the pipe. *)
Definition write_post (kl : nat -> bool) (src : nat -> option Z) (n : Z) (i : nat) (s : pst)
    (e : run_end) (ws : list Z) (s' : pst) : Prop :=
  let i' := (i + length ws)%nat in
  from_user src i ws /\
  match e with
  | Done r =>
    (r = -1 /\ (readopen (pp s) = 0 \/ kl i' = true) /\
     (ws <> [] -> readopen (pp s) <> 0 /\ kl i = false) /\
     rwait s' = rwait s /\ wwait s' = wwait s)
    \/ (r = Z.of_nat i' /\ (n <= r \/ src i' = None) /\ rwait s' = 0%nat /\ wwait s' = wwait s)
  | Asleep j =>
    j = i' /\ Z.of_nat j < n /\ length (contents (pp s')) = 512%nat /\ readopen (pp s) <> 0 /\
    rwait s' = 0%nat /\ wwait s' = S (wwait s)
  end.

(** Only the ring and its counters differ between [pi] and [pi']. *)
Definition same_ends (pi pi' : pipe) : Prop :=
  readopen pi' = readopen pi /\ writeopen pi' = writeopen pi.

Lemma length_contents pi : length (contents pi) = fill pi.
Proof. unfold contents. by rewrite length_fmap, length_seq. Qed.

Lemma from_user_nil src i : from_user src i [].
Proof. by intros j b ?. Qed.

Lemma from_user_cons src i b ws :
  src i = Some b -> from_user src (S i) ws -> from_user src i (b :: ws).
Proof.
  intros Hb Hws [|j] b'; cbn.
  - intros [= <-]. by rewrite Nat.add_0_r.
  - intros Hj. rewrite Nat.add_succ_r. by apply (Hws j b').
Qed.

Lemma wp_write_loop kl src n fuel i w s :
  pipe_wf (pp s) -> (Z.to_nat n - i < fuel)%nat ->
  wp False (write_loop kl src n fuel i w) (fun r s' =>
    pipe_wf (pp s') /\ same_ends (pp s) (pp s') /\
    exists ws, snd r = w ++ ws /\ contents (pp s') = contents (pp s) ++ ws /\
      write_post kl src n i s (fst r) ws s') s.
Proof.
  revert i w s. induction fuel as [|fuel IH]; intros i w s Hwf Hf; [lia|].
  cbn [write_loop].
  assert (forall s1, s1 = s -> Z.of_nat i >= n \/ src i = None ->
    wp False (_ ← wakeup ChNread; mret (Done (Z.of_nat i), w)) (fun r s' =>
      pipe_wf (pp s') /\ same_ends (pp s) (pp s') /\
      exists ws, snd r = w ++ ws /\ contents (pp s') = contents (pp s) ++ ws /\
        write_post kl src n i s (fst r) ws s') s1) as Hfin.
  { intros s1 -> Hend. apply wp_bind, wp_modify, wp_ret. split; [done|]. split; [done|].
    exists []. rewrite !app_nil_r. split; [done|]. split; [done|].
    split; [apply from_user_nil|]. right. cbn [length]. rewrite Nat.add_0_r.
    split; [done|]. split; [destruct Hend; [left; lia|by right]|done]. }
  destruct (Z.ltb_spec (Z.of_nat i) n) as [Hi|Hi]; [|apply Hfin; [done|lia]].
  apply wp_bind, wp_get.
  destruct ((readopen (pp s) =? 0) || kl i) eqn:Ek.
  { apply wp_ret. split; [done|]. split; [done|]. exists []. rewrite !app_nil_r.
    split; [done|]. split; [done|]. split; [apply from_user_nil|]. left.
    cbn [length]. rewrite Nat.add_0_r. split; [done|]. split; [|done].
    apply orb_true_iff in Ek as [->%Z.eqb_eq|?]; tauto. }
  apply orb_false_iff in Ek as [Hro%Z.eqb_neq Hkl].
  destruct (pipe_full (pp s)) eqn:Efull.
  { apply wp_bind, wp_modify, wp_bind, wp_modify, wp_ret. cbn [pp fst snd].
    split; [done|]. split; [done|]. exists []. rewrite !app_nil_r.
    split; [done|]. split; [done|]. split; [apply from_user_nil|].
    cbn [length rwait wwait]. rewrite Nat.add_0_r, length_contents.
    split_and!; try done. by apply pipe_full_fill. }
  destruct (src i) as [ch|] eqn:Es; [|by apply Hfin; auto].
  apply wp_bind, wp_modify. destruct (put_byte_spec ch (pp s) Hwf Efull) as [Hwf' Hc].
  eapply wp_mono; [apply IH; [done|lia]|].
  intros [e w'] s' (Hw' & [Hr Hwo] & ws & Hs & Hc' & Hu & Hpost).
  split; [done|]. split; [done|]. exists (ch :: ws). cbn [fst snd pp set_pp] in *.
  split; [by rewrite Hs, <- app_assoc|]. split; [by rewrite Hc', Hc, <- app_assoc|].
  split; [by apply from_user_cons|]. cbn [length]. rewrite Nat.add_succ_r.
  destruct e as [r|j]; [|done]. destruct Hpost as [(? & ? & _ & ?)|?]; [left|by right]. done.
Qed.

(** A reading run that took [out] from the pipe. *)
Definition read_post (dst : nat -> bool) (n : Z) (e : run_end) (out : list Z) (s s' : pst) : Prop :=
  contents (pp s) = out ++ contents (pp s') /\ rwait s' = rwait s /\ wwait s' = 0%nat /\
  ((e = Done (Z.of_nat (length out)) /\
    (n <= Z.of_nat (length out) \/ contents (pp s') = [] \/ dst (length out) = false)) \/
   (e = Done (-1) /\ out = [] /\ dst 0%nat = false)).

Lemma wp_read_loop dst n fuel i out s :
  pipe_wf (pp s) -> length out = i -> (Z.to_nat n - i < fuel)%nat ->
  wp False (read_loop dst n fuel i out) (fun r s' =>
    pipe_wf (pp s') /\ same_ends (pp s) (pp s') /\
    exists o, snd r = out ++ o /\
      contents (pp s) = o ++ contents (pp s') /\ rwait s' = rwait s /\ wwait s' = 0%nat /\
      ((fst r = Done (Z.of_nat (length (snd r))) /\
        (n <= Z.of_nat (length (snd r)) \/ contents (pp s') = [] \/
         dst (length (snd r)) = false)) \/
       (fst r = Done (-1) /\ snd r = [] /\ dst 0%nat = false))) s.
Proof.
  revert i out s. induction fuel as [|fuel IH]; intros i out s Hwf Ho Hf; [lia|].
  cbn [read_loop]. set (Post := fun (r : run_end * list Z) (s' : pst) => _).
  assert (forall r, (r = Z.of_nat i /\ (n <= r \/ contents (pp s) = [] \/ dst i = false)) \/
                    (r = -1 /\ out = [] /\ dst 0%nat = false) ->
    wp False (_ ← wakeup ChNwrite; mret (Done r, out)) Post s) as Hfin.
  { intros r Hr. apply wp_bind, wp_modify, wp_ret. split; [done|]. split; [done|].
    exists []. cbn [fst snd pp rwait wwait]. rewrite app_nil_r, Ho.
    split_and!; try done. destruct Hr as [[-> Hr]|(-> & Hr)]; [by left|by right]. }
  destruct (Z.ltb_spec (Z.of_nat i) n) as [Hi|Hi]; [|apply Hfin; left; split; [done|by left; lia]].
  apply wp_bind, wp_get. destruct (pipe_empty (pp s)) eqn:Ee.
  { apply Hfin. left. split; [done|]. right. left. apply nil_length_inv.
    rewrite length_contents. by apply pipe_empty_fill. }
  destruct (take_byte_spec (pp s) Hwf Ee) as [Hwf' Hc].
  destruct (dst i) eqn:Ed.
  2:{ apply Hfin. destruct (Nat.eqb_spec i 0) as [->|N].
      - right. split; [done|]. split; [by apply nil_length_inv|done].
      - left. split; [done|]. by right; right. }
  apply wp_bind, wp_put. eapply wp_mono; [apply IH; [done|rewrite length_app; cbn; lia|lia]|].
  intros [e o'] s' (Hw' & [Hr Hwo] & o & Hs & Hc' & Hrw & Hww & Hend).
  split; [done|]. split; [done|]. exists (next_byte (pp s) :: o). cbn [fst snd pp set_pp rwait] in *.
  split; [by rewrite Hs, <- app_assoc|]. split; [by rewrite Hc, Hc'|]. done.
Qed.

(** ** The pipe as a system of readers and writers *)

Inductive op :=
| OWrite (kl : nat -> bool) (src : nat -> option Z) (n : Z) (i : nat)
| ORead (kl : nat -> bool) (dst : nat -> bool) (n : Z)
| OClose (writable : bool).

(** The pipe with the bytes ever put into it and ever taken out of it. *)
Record sys := mkSys { st : pst; wlog : list Z; rlog : list Z }.

Definition run_op (o : op) (y : sys) : res sys :=
  match o with
  | OWrite kl src n i =>
    match pipewrite kl src n i (st y) with
    | Ret ((_, ws), s') => Ret (mkSys s' (wlog y ++ ws) (rlog y))
    | Panic e => Panic e
    | Undef e => Undef e
    end
  | ORead kl dst n =>
    match piperead kl dst n (st y) with
    | Ret ((_, out), s') => Ret (mkSys s' (wlog y) (rlog y ++ out))
    | Panic e => Panic e
    | Undef e => Undef e
    end
  | OClose w =>
    match pipeclose w (st y) with
    | Ret (_, s') => Ret (mkSys s' (wlog y) (rlog y))
    | Panic e => Panic e
    | Undef e => Undef e
    end
  end.

Definition init_sys (junk : list Z) : sys := mkSys (mkPst (pipealloc junk) 0 0) [] [].

(** States reached by runs that satisfy [P]. *)
Inductive reach (P : op -> Prop) : sys -> Prop :=
| r_init junk : length junk = 512%nat -> reach P (init_sys junk)
| r_step o y y' : reach P y -> P o -> run_op o y = Ret y' -> reach P y'.

Lemma pipealloc_wf junk : length junk = 512%nat -> pipe_wf (pipealloc junk).
Proof. intros H. split; [done|cbn; lia|cbn; lia|by apply Nat.leb_le]. Qed.

Lemma wp_piperead kl dst n s :
  pipe_wf (pp s) ->
  wp False (piperead kl dst n) (fun r s' =>
    pipe_wf (pp s') /\ same_ends (pp s) (pp s') /\
    if decide (contents (pp s) = [] /\ writeopen (pp s) <> 0) then
      snd r = [] /\ pp s' = pp s /\ wwait s' = wwait s /\
      (if kl 0%nat then fst r = Done (-1) /\ rwait s' = rwait s
       else fst r = Asleep 0 /\ rwait s' = S (rwait s))
    else read_post dst n (fst r) (snd r) s s') s.
Proof.
  intros Hwf. unfold piperead. apply wp_bind, wp_get.
  assert (pipe_empty (pp s) = true <-> contents (pp s) = []) as He.
  { rewrite pipe_empty_fill, <- length_contents by done. by destruct (contents (pp s)). }
  assert (c_true (writeopen (pp s)) = true <-> writeopen (pp s) <> 0) as Hw.
  { unfold c_true. by rewrite negb_true_iff, Z.eqb_neq. }
  case_decide as Hd.
  - destruct Hd as [Hc Hwo]. rewrite (proj2 He Hc), (proj2 Hw Hwo). cbn [andb].
    destruct (kl 0%nat); [by apply wp_ret|]. apply wp_bind, wp_modify, wp_ret. done.
  - replace (pipe_empty (pp s) && c_true (writeopen (pp s))) with false
      by (symmetry; apply andb_false_iff; rewrite <- !not_true_iff_false, He, Hw;
          destruct (decide (contents (pp s) = [])); tauto).
    eapply wp_mono; [apply (wp_read_loop dst n _ 0 []); [done|done|lia]|].
    intros [e out] s' (H1 & H2 & o & Ho & Hc & Hr & Hww & Hend). cbn [fst snd app] in *. subst o.
    split_and!; try done.
Qed.

Lemma wp_pipewrite kl src n i s :
  pipe_wf (pp s) ->
  wp False (pipewrite kl src n i) (fun r s' =>
    pipe_wf (pp s') /\ same_ends (pp s) (pp s') /\
    contents (pp s') = contents (pp s) ++ snd r /\ write_post kl src n i s (fst r) (snd r) s') s.
Proof.
  intros Hwf. eapply wp_mono; [apply wp_write_loop; [done|lia]|].
  intros [e w] s' (H1 & H2 & ws & Hs & Hc & Hp). cbn [fst snd app] in *. by subst w.
Qed.

Lemma pipeclose_spec w s :
  exists b s', pipeclose w s = Ret (b, s') /\ contents (pp s') = contents (pp s) /\
    (pipe_wf (pp s) -> pipe_wf (pp s')) /\
    (if w then writeopen (pp s') = 0 /\ readopen (pp s') = readopen (pp s) /\ rwait s' = 0%nat /\
               wwait s' = wwait s
     else readopen (pp s') = 0 /\ writeopen (pp s') = writeopen (pp s) /\ wwait s' = 0%nat /\
          rwait s' = rwait s) /\
    b = (readopen (pp s') =? 0) && (writeopen (pp s') =? 0).
Proof.
  destruct w; unfold pipeclose, mbind, M_bind; cbn;
    (eexists _, _; split; [reflexivity|]; cbn; split; [done|]; split; [|done]);
    intros []; by split.
Qed.

(** Bytes put in are bytes taken out followed by the contents. *)
Definition fifo_inv (y : sys) : Prop :=
  pipe_wf (pp (st y)) /\ wlog y = rlog y ++ contents (pp (st y)).

Lemma run_op_fifo o y :
  fifo_inv y -> exists y', run_op o y = Ret y' /\ fifo_inv y'.
Proof.
  intros [Hwf Hlog]. destruct o as [kl src n i|kl dst n|w]; cbn [run_op].
  - destruct (wp_total _ _ _ _ (wp_pipewrite kl src n i (st y) Hwf))
      as ([e ws] & s' & -> & H1 & _ & H3 & _); [tauto|].
    eexists. split; [done|]. split; [done|]. cbn [wlog rlog st snd] in *.
    by rewrite Hlog, H3, app_assoc.
  - destruct (wp_total _ _ _ _ (wp_piperead kl dst n (st y) Hwf))
      as ([e out] & s' & -> & H1 & _ & H3); [tauto|].
    eexists. split; [done|]. split; [done|]. cbn [wlog rlog st snd fst] in *.
    case_decide.
    + destruct H3 as (-> & -> & _). by rewrite app_nil_r.
    + destruct H3 as (H3 & _). by rewrite Hlog, H3, app_assoc.
  - destruct (pipeclose_spec w (st y)) as (b & s' & -> & Hc & Hw & _).
    eexists. split; [done|]. split; [by apply Hw|]. cbn [wlog rlog st]. by rewrite Hc.
Qed.

Lemma reach_fifo P y : reach P y -> fifo_inv y.
Proof.
  induction 1 as [junk Hj|o y y' _ IH _ Hr].
  - split; [by apply pipealloc_wf|done].
  - destruct (run_op_fifo o y IH) as (y2 & E2 & H). rewrite Hr in E2. by injection E2 as ->.
Qed.

(** Readers sleep only on an empty pipe whose write end is open, writers only on
    a full pipe whose read end is open. *)
Definition no_one_forgotten (s : pst) : Prop :=
  (rwait s <> 0%nat -> contents (pp s) = [] /\ writeopen (pp s) <> 0) /\
  (wwait s <> 0%nat -> length (contents (pp s)) = 512%nat /\ readopen (pp s) <> 0).

(** [killed()] does not change its answer within one run. *)
Definition steady (o : op) : Prop :=
  match o with OWrite kl _ _ _ => forall i j, kl i = kl j | _ => True end.

Lemma run_op_awake o y y' :
  fifo_inv y -> steady o -> no_one_forgotten (st y) -> run_op o y = Ret y' ->
  no_one_forgotten (st y').
Proof.
  intros [Hwf _] Hst [Hr Hw]. destruct o as [kl src n i|kl dst n|w]; cbn [run_op].
  - destruct (wp_total _ _ _ _ (wp_pipewrite kl src n i (st y) Hwf))
      as ([e ws] & s' & -> & H1 & [E1 E2] & H3 & _ & H4); [tauto|].
    intros [= <-]. unfold no_one_forgotten. cbn [st fst snd] in *. rewrite E1, E2, H3.
    assert (ws <> [] -> (length (contents (pp (st y))) < 512)%nat) as Hroom.
    { intros Hne. pose proof (pw_fill _ H1) as Hf. rewrite <- length_contents, H3, length_app in Hf.
      destruct ws; [done|]. cbn in Hf. lia. }
    destruct e as [r|j].
    + destruct H4 as [(_ & Hk & Hne & -> & ->)|(_ & _ & -> & ->)].
      * assert (ws = []) as ->.
        { destruct ws; [done|]. destruct (Hne ltac:(done)) as [Hro Hkf].
          destruct Hk as [?|Hk]; [done|]. rewrite (Hst _ i) in Hk. congruence. }
        rewrite app_nil_r. done.
      * split; [done|]. intros Hww. destruct (Hw Hww) as [Hl ?]. split; [|done].
        destruct ws; [by rewrite app_nil_r|]. specialize (Hroom ltac:(done)). lia.
    + destruct H4 as (_ & _ & Hl & Hro & -> & _). rewrite H3 in Hl. done.
  - destruct (wp_total _ _ _ _ (wp_piperead kl dst n (st y) Hwf))
      as ([e out] & s' & -> & H1 & [E1 E2] & H3); [tauto|].
    intros [= <-]. unfold no_one_forgotten. cbn [st fst snd] in *. rewrite E1, E2.
    case_decide as Hd.
    + destruct H3 as (-> & -> & -> & Hk). split; [by intros _|done].
    + destruct H3 as (Hc & -> & -> & _). split; [|done]. intros Hrw. by destruct Hd; apply Hr.
  - destruct (pipeclose_spec w (st y)) as (b & s' & -> & Hc & _ & Hf & _).
    intros [= <-]. unfold no_one_forgotten. cbn [st]. rewrite Hc.
    destruct w; destruct Hf as (H1 & -> & -> & ->); split; try done; tauto.
Qed.

(** ** Properties *)

(** C4: whatever the readers, writers and closers of a pipe do and however their
    runs interleave, the bytes ever written are the bytes ever read followed by
    the at most 512 bytes in the ring: nothing is lost, duplicated or reordered,
    also when the 32-bit counters wrap; and every run ends. *)
Theorem pipe_fifo P y o :
  reach P y ->
  wlog y = rlog y ++ contents (pp (st y)) /\ (length (contents (pp (st y))) <= 512)%nat /\
  exists y', run_op o y = Ret y'.
Proof.
  intros H. pose proof (reach_fifo P y H) as Hi. pose proof Hi as [Hwf Hlog].
  split; [done|]. split; [rewrite length_contents; apply Hwf|].
  destruct (run_op_fifo o y Hi) as (y' & ? & _). by exists y'.
Qed.

(** A run of [pipewrite] takes the user's bytes in order.  It sleeps only on
    a full ring with the read end open; it returns -1 only when the read end is
    closed or the caller is killed, and otherwise the number of bytes written,
    short of [n] only where user memory could not be read. *)
Theorem pipewrite_behaviour kl src n i s :
  pipe_wf (pp s) ->
  exists e ws s', pipewrite kl src n i s = Ret ((e, ws), s') /\
    contents (pp s') = contents (pp s) ++ ws /\ write_post kl src n i s e ws s'.
Proof.
  intros Hwf. destruct (wp_total _ _ _ _ (wp_pipewrite kl src n i s Hwf))
    as ([e ws] & s' & E & _ & _ & Hc & Hp); [tauto|]. by exists e, ws, s'.
Qed.

(** A run of [piperead] on an empty pipe that still has a writer sleeps (or
    fails if the caller is killed); otherwise it takes a prefix of the contents,
    short of [n] only when the pipe ran empty or user memory could not be
    written, so 0 bytes for [n > 0] means that the pipe is empty and no writer
    is left. *)
Theorem piperead_behaviour kl dst n s :
  pipe_wf (pp s) ->
  exists e out s', piperead kl dst n s = Ret ((e, out), s') /\
    if decide (contents (pp s) = [] /\ writeopen (pp s) <> 0)
    then out = [] /\ contents (pp s') = [] /\ (if kl 0%nat then e = Done (-1) else e = Asleep 0)
    else read_post dst n e out s s' /\
         (e = Done 0 -> 0 < n -> contents (pp s) = [] /\ writeopen (pp s) = 0 \/ dst 0%nat = false).
Proof.
  intros Hwf. destruct (wp_total _ _ _ _ (wp_piperead kl dst n s Hwf))
    as ([e out] & s' & E & _ & _ & Hc); [tauto|]. exists e, out, s'. split; [done|].
  case_decide as Hd; cbn [fst snd] in *.
  - destruct Hc as (-> & -> & _ & Hk). split; [done|]. split; [tauto|]. destruct (kl 0%nat); tauto.
  - split; [done|]. destruct Hc as (Hc & _ & _ & Hend). intros -> Hn.
    destruct Hend as [[He Ho]|[? _]]; [|done]. injection He as He.
    destruct out; [|cbn in He; lia]. cbn [app length] in *.
    destruct Ho as [?|[Ho|?]]; [lia| |by right]. left. rewrite Hc. split; [done|].
    destruct (decide (writeopen (pp s) = 0)) as [|N]; [done|]. destruct Hd. by rewrite Hc.
Qed.

(** C37: no wakeup is lost as long as no writer is killed in the middle of a
    run: a reader is asleep only while the pipe is empty and has a writer, a
    writer only while the pipe is full and has a reader. *)
Theorem pipe_no_lost_wakeup y : reach steady y -> no_one_forgotten (st y).
Proof.
  induction 1 as [junk Hj|o y y' Hy IH Hs Hr]; [done|].
  eapply run_op_awake; [by eapply reach_fifo|done|done|done].
Qed.

(** A writer that is killed after its first bytes returns -1 without waking
    the readers: a reader stays asleep on a pipe that has data. *)
Theorem killed_writer_strands_reader :
  exists y1 y2,
    run_op (ORead (fun _ => false) (fun _ => true) 1) (init_sys (replicate 512 0)) = Ret y1 /\
    run_op (OWrite (fun i => (1 <=? i)%nat) (fun _ => Some 65) 2 0) y1 = Ret y2 /\
    rwait (st y2) = 1%nat /\ contents (pp (st y2)) = [65].
Proof.
  eexists _, _. split; [vm_compute; reflexivity|]. split; [vm_compute; reflexivity|].
  vm_compute. split; reflexivity.
Qed.

(** ** Witnesses *)

Definition junk0 : list Z := replicate 512 0.

Lemma pipe_fifo_witness :
  exists y', run_op (OWrite (fun _ => false) (fun _ => Some 65) 3 0) (init_sys junk0) = Ret y'.
Proof.
  destruct (pipe_fifo (fun _ => True) (init_sys junk0)
    (OWrite (fun _ => false) (fun _ => Some 65) 3 0)) as (_ & _ & H).
  - apply r_init. reflexivity.
  - exact H.
Defined.

Lemma pipewrite_behaviour_witness :
  exists e ws s', pipewrite (fun _ => false) (fun _ => Some 65) 3 0 (st (init_sys junk0)) =
    Ret ((e, ws), s') /\ contents (pp s') = ws.
Proof.
  destruct (pipewrite_behaviour (fun _ => false) (fun _ => Some 65) 3 0 (st (init_sys junk0)))
    as (e & ws & s' & E & Hc & _); [apply pipealloc_wf; reflexivity|].
  exists e, ws, s'. split; [exact E|]. rewrite Hc. reflexivity.
Defined.

Lemma piperead_behaviour_witness :
  exists e out s', piperead (fun _ => false) (fun _ => true) 3 (st (init_sys junk0)) =
    Ret ((e, out), s').
Proof.
  destruct (piperead_behaviour (fun _ => false) (fun _ => true) 3 (st (init_sys junk0)))
    as (e & out & s' & E & _); [apply pipealloc_wf; reflexivity|].
  exists e, out, s'. exact E.
Defined.

(** A reader that finds the pipe empty sleeps; a writer of 600 bytes wakes it, fills
    the pipe and sleeps itself; the reader takes 100 bytes and wakes the writer. *)
Definition nap (n : Z) : op := ORead (fun _ => false) (fun _ => true) n.
Definition pour (n : Z) : op := OWrite (fun _ => false) (fun _ => Some 65) n 0.
Definition after (o : op) (y : sys) : sys := match run_op o y with Ret y' => y' | _ => y end.

Lemma pipe_no_lost_wakeup_witness :
  let y1 := after (nap 100) (init_sys junk0) in
  let y2 := after (pour 600) y1 in
  (rwait (st y1) = 1%nat /\ pipe_empty (pp (st y1)) = true /\ no_one_forgotten (st y1)) /\
  (rwait (st y2) = 0%nat /\ wwait (st y2) = 1%nat /\ pipe_full (pp (st y2)) = true /\ no_one_forgotten (st y2)) /\
  (wwait (st (after (nap 100) y2)) = 0%nat).
Proof.
  intros y1 y2.
  assert (reach steady y1) as R1.
  { apply (r_step steady (nap 100) (init_sys junk0)); [apply r_init; reflexivity|exact I|vm_compute; reflexivity]. }
  assert (reach steady y2) as R2.
  { apply (r_step steady (pour 600) y1); [exact R1|intros i j; reflexivity|vm_compute; reflexivity]. }
  split; [|split; [|vm_compute; reflexivity]].
  - split; [vm_compute; reflexivity|]. split; [vm_compute; reflexivity|]. exact (pipe_no_lost_wakeup y1 R1).
  - split; [vm_compute; reflexivity|]. split; [vm_compute; reflexivity|]. split; [vm_compute; reflexivity|].
    exact (pipe_no_lost_wakeup y2 R2).
Defined.
