(* ===== verification/Bio.v ===== *)
(** * The buffer cache: [kernel/bio.c]

    [NBUF] buffers, named by their index, on a circular doubly linked list kept
    in most-recently-used order; the list head is node [NBUF].  The [next] and
    [prev] pointers are functions from node to node.  A block is a list of
    words; the disk maps block numbers to blocks ([virtio_disk_rw] addresses the
    one disk by block number only), and records the order of its writes.

    Waiting for a buffer's sleep-lock ends the modelled run ([Undef]); callers
    take the step when the lock is free. *)

From S2P Require Import Prelude Mlfq.

Definition NBUF : nat := 30%nat.
Definition HEAD : nat := NBUF.

Abbreviation block := (list Z).

Record buf := mkBuf {
  valid : bool; bdev : Z; blockno : Z; refcnt : Z; blocked : bool; bdata : block
}.

Definition buf_zero : buf := mkBuf false 0 0 0 false [].

Record bstate := mkB {
  bufs : list buf;
  next : nat -> nat;
  prev : nat -> nat;
  disk : Z -> block;
  dwrites : list (Z * block)
}.

Definition fset {A} (f : nat -> A) (i : nat) (v : A) : nat -> A :=
  fun j => if (j =? i)%nat then v else f j.
Definition zset {A} (f : Z -> A) (i : Z) (v : A) : Z -> A :=
  fun j => if j =? i then v else f j.

Definition getb (s : bstate) (i : nat) : buf := nth i (bufs s) buf_zero.
Definition upd_buf (i : nat) (f : buf -> buf) (s : bstate) : bstate :=
  mkB (<[i := f (getb s i)]> (bufs s)) (next s) (prev s) (disk s) (dwrites s).
Definition set_links (n p : nat -> nat) (s : bstate) : bstate :=
  mkB (bufs s) n p (disk s) (dwrites s).

Definition set_refcnt (r : Z) (b : buf) : buf :=
  mkBuf (valid b) (bdev b) (blockno b) r (blocked b) (bdata b).
Definition set_blocked (x : bool) (b : buf) : buf :=
  mkBuf (valid b) (bdev b) (blockno b) (refcnt b) x (bdata b).
Definition set_bdata (d : block) (b : buf) : buf :=
  mkBuf (valid b) (bdev b) (blockno b) (refcnt b) (blocked b) d.

Definition B := M bstate.

(** ** Operations *)

(** [b->next = head.next; b->prev = &head; head.next->prev = b; head.next = b;] *)
Definition push_front (b : nat) (s : bstate) : bstate :=
  let n1 := fset (next s) b (next s HEAD) in
  let p1 := fset (prev s) b HEAD in
  let p2 := fset p1 (n1 HEAD) b in
  let n2 := fset n1 HEAD b in
  set_links n2 p2 s.

(** [b->next->prev = b->prev; b->prev->next = b->next;] *)
Definition unlink (b : nat) (s : bstate) : bstate :=
  let p1 := fset (prev s) (next s b) (prev s b) in
  let n1 := fset (next s) (p1 b) (next s b) in
  set_links n1 p1 s.

Fixpoint link_all (l : list nat) (s : bstate) : bstate :=
  match l with
  | [] => s
  | b :: l' => link_all l' (push_front b s)
  end.

(** [binit] on the zeroed buffers. *)
Definition binit (d : Z -> block) : bstate :=
  link_all (seq 0 NBUF)
    (mkB (replicate NBUF buf_zero) (fset (fun _ => O) HEAD HEAD) (fset (fun _ => O) HEAD HEAD) d []).

(** [acquiresleep(&b->lock)] *)
Definition acquiresleep (i : nat) : B unit :=
  s ← get;
  if blocked (getb s i) then undef "acquiresleep: would sleep"
  else put (upd_buf i (set_blocked true) s).

(** The first scan of [bget], towards [next]. *)
Fixpoint scan_next (fuel : nat) (s : bstate) (dev bno : Z) (b : nat) : option nat :=
  match fuel with
  | O => None
  | S fuel' =>
    if (b =? HEAD)%nat then None
    else if (bdev (getb s b) =? dev) && (blockno (getb s b) =? bno) then Some b
    else scan_next fuel' s dev bno (next s b)
  end.

(** The second scan, towards [prev]. *)
Fixpoint scan_prev (fuel : nat) (s : bstate) (b : nat) : option nat :=
  match fuel with
  | O => None
  | S fuel' =>
    if (b =? HEAD)%nat then None
    else if refcnt (getb s b) =? 0 then Some b
    else scan_prev fuel' s (prev s b)
  end.

(** The list has [NBUF] nodes, so [NBUF + 1] steps end each scan. *)
Definition bget (dev bno : Z) : B nat :=
  s ← get;
  match scan_next (S NBUF) s dev bno (next s HEAD) with
  | Some b =>
    _ ← put (upd_buf b (fun x => set_refcnt (u32 (refcnt x + 1)) x) s);
    _ ← acquiresleep b;
    mret b
  | None =>
    match scan_prev (S NBUF) s (prev s HEAD) with
    | Some b =>
      _ ← put (upd_buf b (fun x => mkBuf false dev bno 1 (blocked x) (bdata x)) s);
      _ ← acquiresleep b;
      mret b
    | None => panic "bget: no buffers"
    end
  end.

Definition virtio_disk_rw (i : nat) (write : bool) : B unit :=
  modify (fun s =>
    let b := getb s i in
    if write
    then mkB (bufs s) (next s) (prev s) (zset (disk s) (blockno b) (bdata b))
           (dwrites s ++ [(blockno b, bdata b)])
    else upd_buf i (set_bdata (disk s (blockno b))) s).

Definition bread (dev bno : Z) : B nat :=
  i ← bget dev bno;
  b ← gets (fun s => getb s i);
  _ ← (if negb (valid b) then
         _ ← virtio_disk_rw i false;
         modify (upd_buf i (fun x => mkBuf true (bdev x) (blockno x) (refcnt x) (blocked x) (bdata x)))
       else mret tt);
  mret i.

Definition bwrite (i : nat) : B unit :=
  b ← gets (fun s => getb s i);
  _ ← panic_if (negb (blocked b)) "bwrite";
  virtio_disk_rw i true.

Definition brelse (i : nat) : B unit :=
  b ← gets (fun s => getb s i);
  _ ← panic_if (negb (blocked b)) "brelse";
  _ ← modify (upd_buf i (set_blocked false));
  _ ← modify (upd_buf i (fun x => set_refcnt (u32 (refcnt x - 1)) x));
  b' ← gets (fun s => getb s i);
  if refcnt b' =? 0 then modify (fun s => push_front i (unlink i s)) else mret tt.

Definition bpin (i : nat) : B unit :=
  modify (upd_buf i (fun x => set_refcnt (u32 (refcnt x + 1)) x)).
Definition bunpin (i : nat) : B unit :=
  modify (upd_buf i (fun x => set_refcnt (u32 (refcnt x - 1)) x)).

(** ** The list the links stand for *)

(** Following [n] from [a] leads through [l] to [z], and [p] leads back. *)
Fixpoint path (n p : nat -> nat) (a : nat) (l : list nat) (z : nat) : Prop :=
  match l with
  | [] => n a = z /\ p z = a
  | b :: l' => n a = b /\ p b = a /\ path n p b l' z
  end.

(** The links form the ring [HEAD, l]. *)
Definition ring (s : bstate) (l : list nat) : Prop :=
  path (next s) (prev s) HEAD l HEAD /\ NoDup l /\ HEAD ∉ l.

Lemma fset_eq {A} (f : nat -> A) i v : fset f i v i = v.
Proof. unfold fset. by rewrite Nat.eqb_refl. Qed.
Lemma fset_ne {A} (f : nat -> A) i j v : i <> j -> fset f i v j = f j.
Proof. intros H. unfold fset. destruct (Nat.eqb_spec j i); [congruence|done]. Qed.
Lemma zset_eq {A} (f : Z -> A) i v : zset f i v i = v.
Proof. unfold zset. by rewrite Z.eqb_refl. Qed.
Lemma zset_ne {A} (f : Z -> A) i j v : i <> j -> zset f i v j = f j.
Proof. intros H. unfold zset. destruct (Z.eqb_spec j i); [congruence|done]. Qed.

Lemma path_app n p a l1 b l2 z :
  path n p a (l1 ++ b :: l2) z <-> path n p a l1 b /\ path n p b l2 z.
Proof.
  revert a. induction l1 as [|c l1 IH]; intros a; cbn [app path].
  - tauto.
  - rewrite IH. tauto.
Qed.

(** Links of nodes off the path do not matter. *)
Lemma path_ext n p n' p' a l z :
  path n p a l z -> (forall x, x = a \/ x ∈ l -> n' x = n x) ->
  (forall x, x = z \/ x ∈ l -> p' x = p x) -> path n' p' a l z.
Proof.
  revert a. induction l as [|b l IH]; intros a; cbn [path].
  - intros [H1 H2] Hn Hp. rewrite Hn, Hp by tauto. done.
  - intros (H1 & H2 & H3) Hn Hp. rewrite Hn, Hp by (rewrite ?elem_of_cons; tauto).
    split; [done|]. split; [done|]. apply IH; [done|..]; intros x Hx.
    + apply Hn. rewrite elem_of_cons. tauto.
    + apply Hp. rewrite elem_of_cons. tauto.
Qed.

Lemma path_first n p a l z : path n p a l z -> n a = match l with [] => z | b :: _ => b end.
Proof. destruct l; cbn; tauto. Qed.

(** The last node of [a :: l]. *)
Fixpoint lst (a : nat) (l : list nat) : nat :=
  match l with [] => a | b :: l' => lst b l' end.

Lemma path_last n p a l z : path n p a l z -> p z = lst a l.
Proof.
  revert a. induction l as [|b l IH]; intros a; cbn [path lst]; [tauto|].
  intros (_ & _ & H). by apply IH.
Qed.

Lemma lst_in a l : lst a l = a \/ lst a l ∈ l.
Proof.
  revert a. induction l as [|b l IH]; intros a; cbn [lst]; [by left|]. right.
  destruct (IH b) as [-> |H]; set_solver.
Qed.

(** Redirect the end of a path. *)
Lemma path_retarget n p a l b z :
  path n p a l b -> NoDup (a :: l) -> z ∉ l ->
  path (fset n (lst a l) z) (fset p z (lst a l)) a l z.
Proof.
  revert a. induction l as [|x l IH]; intros a; cbn [path lst].
  - intros _ _ _. by rewrite !fset_eq.
  - intros (H1 & H2 & H3) Hnd Hz. apply list.NoDup_cons in Hnd as [Ha Hnd].
    apply not_elem_of_cons in Hz as [Hzx Hz].
    rewrite fset_ne by (intros Ex; apply Ha; rewrite <- Ex;
                        destruct (lst_in x l) as [->|?]; rewrite elem_of_cons; tauto).
    rewrite fset_ne by done. split; [done|]. split; [done|]. by apply IH.
Qed.

Lemma push_front_ring s l b :
  ring s l -> b <> HEAD -> b ∉ l -> ring (push_front b s) (b :: l).
Proof.
  intros (Hp & Hnd & Hh) Hb Hbl. pose proof (path_first _ _ _ _ _ Hp) as Hf.
  split; [|split; [by apply list.NoDup_cons|set_solver]].
  unfold push_front. cbn [next prev set_links]. rewrite (fset_ne _ b HEAD) by done.
  cbn [path]. rewrite fset_eq. split; [done|].
  destruct l as [|f l]; cbn [path] in *.
  - rewrite Hf. rewrite (fset_ne _ HEAD b) by done. rewrite !fset_eq.
    split; [done|]. rewrite fset_ne by done. rewrite fset_eq. done.
  - destruct Hp as (H1 & H2 & H3). rewrite H1.
    apply list.NoDup_cons in Hnd as [Hf1 Hnd].
    rewrite (fset_ne _ f b) by set_solver. rewrite fset_eq.
    split; [done|]. rewrite (fset_ne _ HEAD b), !fset_eq by done. split; [done|]. split; [done|].
    eapply path_ext; [exact H3|..]; intros x Hx.
    + rewrite !fset_ne; [done|..]; set_solver.
    + rewrite !fset_ne; [done|..]; set_solver.
Qed.

Lemma unlink_ring s l1 b l2 :
  ring s (l1 ++ b :: l2) -> ring (unlink b s) (l1 ++ l2).
Proof.
  intros (Hp & Hnd & Hh). apply path_app in Hp as [P1 P2].
  apply list.NoDup_app in Hnd as (N1 & N12 & N2). apply list.NoDup_cons in N2 as [Nb N2].
  assert (HEAD ∉ l1 /\ HEAD <> b /\ HEAD ∉ l2 /\ b ∉ l1) as (Hh1 & Hhb & Hh2 & Hb1) by set_solver.
  split; [|split; [apply list.NoDup_app; set_solver|set_solver]].
  unfold unlink. cbn [next prev set_links].
  pose proof (path_first _ _ _ _ _ P2) as Hn. pose proof (path_last _ _ _ _ _ P1) as Hl.
  assert (lst HEAD l1 <> b) as Hlb by (intros Ex; destruct (lst_in HEAD l1) as [?|?]; [congruence|]; apply Hb1; congruence).
  assert (NoDup (HEAD :: l1)) as N1' by (by apply list.NoDup_cons).
  rewrite (fset_ne _ (next s b) b) by (rewrite Hn; destruct l2; set_solver). rewrite Hl, Hn.
  destruct l2 as [|c l2].
  - rewrite app_nil_r. by apply (path_retarget _ _ _ _ b).
  - apply path_app. split; [apply (path_retarget _ _ _ _ b); [done|done|set_solver]|].
    cbn [path] in P2. destruct P2 as (_ & _ & P2). apply list.NoDup_cons in N2 as [Nc N2].
    eapply path_ext; [exact P2|..]; intros x Hx.
    + apply fset_ne. intros <-. destruct (lst_in HEAD l1) as [E|?]; [rewrite E in Hx|]; set_solver.
    + apply fset_ne. set_solver.
Qed.

Lemma link_all_ring l s l0 :
  ring s l0 -> NoDup l -> HEAD ∉ l -> (forall b, b ∈ l -> b ∉ l0) ->
  ring (link_all l s) (rev l ++ l0).
Proof.
  revert s l0. induction l as [|b l IH]; intros s l0 Hr Hnd Hh Hd; cbn [link_all rev app]; [done|].
  apply list.NoDup_cons in Hnd as [Hb Hnd]. rewrite <- app_assoc. cbn [app].
  apply IH; [apply push_front_ring; set_solver|done|set_solver|set_solver].
Qed.

Lemma bufs_link_all l s : bufs (link_all l s) = bufs s.
Proof. revert s. induction l as [|b l IH]; intros s; [done|]. cbn. by rewrite IH. Qed.

Lemma binit_ring d : ring (binit d) (rev (seq 0 NBUF)).
Proof.
  rewrite <- (app_nil_r (rev _)). apply link_all_ring.
  - split; [|split; [constructor|set_solver]]. cbn [path next prev]. by rewrite !fset_eq.
  - apply NoDup_seq.
  - rewrite elem_of_seq. unfold HEAD. lia.
  - set_solver.
Qed.

(** The scans follow the list. *)
Lemma scan_next_spec s dev bno l a fuel :
  path (next s) (prev s) a l HEAD -> HEAD ∉ l -> (length l < fuel)%nat ->
  scan_next fuel s dev bno (next s a) =
    head (filter (fun b => bdev (getb s b) = dev /\ blockno (getb s b) = bno) l).
Proof.
  revert a fuel. induction l as [|b l IH]; intros a fuel Hp Hh Hf; cbn [path] in Hp;
    (destruct fuel as [|fuel]; [cbn in Hf; lia|]); cbn [scan_next].
  - destruct Hp as [-> _]. done.
  - destruct Hp as (-> & _ & Hp). apply not_elem_of_cons in Hh as [Hb Hh].
    rewrite (proj2 (Nat.eqb_neq b HEAD)) by congruence. rewrite filter_cons.
    case_decide as Hm.
    + by rewrite (proj2 (Z.eqb_eq _ _) (proj1 Hm)), (proj2 (Z.eqb_eq _ _) (proj2 Hm)).
    + replace ((bdev (getb s b) =? dev) && (blockno (getb s b) =? bno)) with false.
      * apply IH; [done|done|cbn in Hf; lia].
      * symmetry. apply not_true_iff_false. by rewrite andb_true_iff, !Z.eqb_eq.
Qed.

Lemma path_back n p a l z :
  path n p a l z -> path p n z (rev l) a.
Proof.
  revert a. induction l as [|b l IH]; intros a; cbn [path rev]; [tauto|].
  intros (H1 & H2 & H3). apply path_app. cbn [path]. split; [by apply IH|done].
Qed.

Lemma scan_prev_spec s l z fuel :
  path (prev s) (next s) z l HEAD -> HEAD ∉ l -> (length l < fuel)%nat ->
  scan_prev fuel s (prev s z) = head (filter (fun b => refcnt (getb s b) = 0) l).
Proof.
  revert z fuel. induction l as [|b l IH]; intros z fuel Hp Hh Hf; cbn [path] in Hp;
    (destruct fuel as [|fuel]; [cbn in Hf; lia|]); cbn [scan_prev].
  - destruct Hp as [-> _]. done.
  - destruct Hp as (-> & _ & Hp). apply not_elem_of_cons in Hh as [Hb Hh].
    rewrite (proj2 (Nat.eqb_neq b HEAD)) by congruence. rewrite filter_cons.
    case_decide as Hm; [by rewrite (proj2 (Z.eqb_eq _ _) Hm)|].
    rewrite (proj2 (Z.eqb_neq _ _) Hm). apply IH; [done|done|cbn in Hf; lia].
Qed.

(** ** The cache invariant *)

(** [l] lists the buffers from most to least recently used; a block of a real
    device ([dev <> 0]) is in at most one buffer; a locked buffer is
    referenced. *)
Record BInv (s : bstate) (l : list nat) : Prop := {
  bi_ring : ring s l;
  bi_perm : l ≡ₚ seq 0 NBUF;
  bi_len : length (bufs s) = NBUF;
  bi_uniq : forall i j, (i < NBUF)%nat -> (j < NBUF)%nat -> bdev (getb s i) <> 0 ->
    bdev (getb s i) = bdev (getb s j) -> blockno (getb s i) = blockno (getb s j) -> i = j;
  bi_ref : forall i, 0 <= refcnt (getb s i) < 2 ^ 32;
  bi_lock : forall i, blocked (getb s i) = true -> 0 < refcnt (getb s i)
}.

Lemma getb_upd s i j f :
  getb (upd_buf i f s) j =
  if bool_decide (i = j /\ (i < length (bufs s))%nat) then f (getb s i) else getb s j.
Proof.
  unfold getb, upd_buf. cbn [bufs]. case_bool_decide as H.
  - destruct H as [<- H]. by rewrite nth_insert_eq.
  - destruct (decide (i = j)) as [<-|N]; [|by apply nth_insert_ne].
    rewrite list_insert_ge by (apply Nat.nlt_ge; tauto). done.
Qed.

Lemma getb_upd_eq s i f : (i < length (bufs s))%nat -> getb (upd_buf i f s) i = f (getb s i).
Proof. intros H. by rewrite getb_upd, bool_decide_true. Qed.

Lemma getb_upd_ne s i j f : i <> j -> getb (upd_buf i f s) j = getb s j.
Proof. intros H. rewrite getb_upd, bool_decide_false; tauto. Qed.

Lemma upd_buf_buf s i f g :
  (i < length (bufs s))%nat -> upd_buf i g (upd_buf i f s) = upd_buf i (fun x => g (f x)) s.
Proof.
  intros Hi. unfold upd_buf at 1 3. rewrite getb_upd_eq by done. cbn.
  by rewrite list_insert_insert_eq.
Qed.

Lemma upd_buf_ext s i f g : f (getb s i) = g (getb s i) -> upd_buf i f s = upd_buf i g s.
Proof. intros H. unfold upd_buf. by rewrite H. Qed.

Lemma in_list s l i : BInv s l -> i ∈ l <-> (i < NBUF)%nat.
Proof. intros []. rewrite bi_perm0, elem_of_seq. lia. Qed.

(** An update of one buffer that keeps the cache consistent. *)
Lemma BInv_upd s l i f :
  BInv s l -> (i < NBUF)%nat ->
  0 <= refcnt (f (getb s i)) < 2 ^ 32 -> (blocked (f (getb s i)) = true -> 0 < refcnt (f (getb s i))) ->
  (forall j, (j < NBUF)%nat -> j <> i -> bdev (f (getb s i)) <> 0 ->
     bdev (f (getb s i)) = bdev (getb s j) -> blockno (f (getb s i)) <> blockno (getb s j)) ->
  BInv (upd_buf i f s) l.
Proof.
  intros [] Hi Hr Hl Hu. split; try done.
  - by unfold upd_buf; cbn; rewrite length_insert.
  - intros a b Ha Hb. destruct (decide (a = b)) as [|N]; [done|].
    destruct (decide (a = i)) as [->|Na]; [|destruct (decide (b = i)) as [->|Nb]].
    + rewrite getb_upd_eq, getb_upd_ne by (congruence || lia). intros H1 H2 H3.
      by destruct (Hu b Hb ltac:(congruence) H1 H2).
    + rewrite getb_upd_eq, getb_upd_ne by (congruence || lia). intros H1 H2 H3.
      destruct (Hu a Ha Na); congruence.
    + rewrite !getb_upd_ne by congruence. by apply bi_uniq0.
  - intros j. rewrite getb_upd. by case_bool_decide.
  - intros j. rewrite getb_upd. by case_bool_decide; [|apply bi_lock0].
Qed.

Lemma getb_binit d i : getb (binit d) i = buf_zero.
Proof.
  unfold getb, binit. rewrite bufs_link_all. cbn [bufs]. destruct (Nat.lt_ge_cases i NBUF).
  - apply nth_lookup_Some. by apply lookup_replicate.
  - apply nth_overflow. by rewrite length_replicate.
Qed.

Lemma BInv_binit d : BInv (binit d) (rev (seq 0 NBUF)).
Proof.
  pose proof (getb_binit d) as Hz. split.
  - apply binit_ring.
  - by rewrite Permutation_rev.
  - unfold binit. rewrite bufs_link_all. apply length_replicate.
  - intros i j _ _. by rewrite Hz.
  - intros i. rewrite Hz. cbn. lia.
  - intros i. by rewrite Hz.
Qed.

(** ** What [bread] returns *)

Definition holds (s : bstate) (dev bno : Z) (i : nat) : Prop :=
  bdev (getb s i) = dev /\ blockno (getb s i) = bno.

#[export] Instance holds_dec s dev bno i : Decision (holds s dev bno i).
Proof. unfold holds. solve_decision. Defined.

(** The buffer for a block: the one that has it, else the least recently used
    one that nobody references. *)
Definition choose (s : bstate) (l : list nat) (dev bno : Z) : option nat :=
  match head (filter (holds s dev bno) l) with
  | Some i => Some i
  | None => head (filter (fun b => refcnt (getb s b) = 0) (rev l))
  end.

(** Its contents when [bread] returns it. *)
Definition loaded (s : bstate) (dev bno : Z) (b : buf) : buf :=
  if decide (bdev b = dev /\ blockno b = bno)
  then mkBuf true dev bno (refcnt b + 1) true (if valid b then bdata b else disk s bno)
  else mkBuf true dev bno 1 true (disk s bno).

Lemma head_filter_in {P : nat -> Prop} `{!forall x, Decision (P x)} (l : list nat) i :
  head (filter P l) = Some i -> i ∈ l /\ P i.
Proof.
  intros Hh. assert (i ∈ filter P l) as Hi by (destruct (filter P l); simplify_eq/=; set_solver).
  apply list_elem_of_filter in Hi. tauto.
Qed.

Lemma head_filter_split {P : nat -> Prop} `{!forall x, Decision (P x)} (l : list nat) i :
  head (filter P l) = Some i -> exists l1 l2, l = l1 ++ i :: l2 /\ forall j, j ∈ l1 -> ~ P j.
Proof.
  induction l as [|x l IH]; [done|]. rewrite filter_cons. case_decide as Hx.
  - intros [= ->]. exists [], l. split; [done|set_solver].
  - intros Hh. destruct (IH Hh) as (l1 & l2 & -> & Hl). exists (x :: l1), l2. split; [done|].
    intros j [->|?]%elem_of_cons; auto.
Qed.

Lemma head_filter_None {P : nat -> Prop} `{!forall x, Decision (P x)} (l : list nat) :
  head (filter P l) = None -> forall i, i ∈ l -> ~ P i.
Proof.
  intros Hh i Hi HP. assert (i ∈ filter P l) as Hf by (by apply list_elem_of_filter).
  destruct (filter P l); [set_solver|done].
Qed.

Lemma elem_of_rev (l : list nat) i : i ∈ rev l <-> i ∈ l.
Proof. by rewrite <- Permutation_rev. Qed.

Lemma acquiresleep_run i s :
  blocked (getb s i) = false ->
  acquiresleep i s = Ret (tt, upd_buf i (set_blocked true) s).
Proof. intros H. unfold acquiresleep, mbind, M_bind. cbn. by rewrite H. Qed.

Lemma bget_scans s l dev bno :
  BInv s l ->
  scan_next (S NBUF) s dev bno (next s HEAD) = head (filter (holds s dev bno) l) /\
  scan_prev (S NBUF) s (prev s HEAD) = head (filter (fun b => refcnt (getb s b) = 0) (rev l)).
Proof.
  intros []. destruct bi_ring0 as (Hp & _ & Hh).
  assert (length l = NBUF) as Hl by (by rewrite bi_perm0, length_seq). split.
  - rewrite (scan_next_spec s dev bno l HEAD) by (done || lia). done.
  - apply path_back in Hp. rewrite (scan_prev_spec s (rev l) HEAD); [done|done|..].
    + by rewrite elem_of_rev.
    + rewrite length_rev. lia.
Qed.

(** A chosen buffer is in range and not locked. *)
Lemma choose_ok s l dev bno i :
  BInv s l ->
  (forall i, (i < NBUF)%nat -> holds s dev bno i ->
     blocked (getb s i) = false /\ refcnt (getb s i) + 1 < 2 ^ 32) ->
  choose s l dev bno = Some i ->
  (i < NBUF)%nat /\ blocked (getb s i) = false /\
  (holds s dev bno i /\ refcnt (getb s i) + 1 < 2 ^ 32 \/
   (forall j, (j < NBUF)%nat -> ~ holds s dev bno j) /\ refcnt (getb s i) = 0).
Proof.
  intros HI Hfree. unfold choose.
  destruct (head (filter (holds s dev bno) l)) as [j|] eqn:Eh.
  - intros [= ->]. apply head_filter_in in Eh as [Hi Hh]. apply (in_list s l i HI) in Hi.
    destruct (Hfree i Hi Hh). tauto.
  - intros Hi. apply head_filter_in in Hi as [Hi Hz].
    rewrite elem_of_rev in Hi. apply (in_list s l i HI) in Hi. split; [done|]. split.
    + destruct (blocked (getb s i)) eqn:Eb; [|done]. apply (bi_lock s l HI) in Eb. lia.
    + right. split; [|done]. intros j Hj. apply (head_filter_None _ Eh).
      by apply (in_list s l j HI).
Qed.

Lemma bget_run s l dev bno i :
  BInv s l ->
  (forall i, (i < NBUF)%nat -> holds s dev bno i ->
     blocked (getb s i) = false /\ refcnt (getb s i) + 1 < 2 ^ 32) ->
  choose s l dev bno = Some i ->
  bget dev bno s = Ret (i, upd_buf i (fun b =>
    if decide (bdev b = dev /\ blockno b = bno)
    then set_blocked true (set_refcnt (refcnt b + 1) b)
    else mkBuf false dev bno 1 true (bdata b)) s).
Proof.
  intros HI Hfree Hch. destruct (choose_ok s l dev bno i HI Hfree Hch) as (Hi & Hb & Hor).
  pose proof HI as [_ _ Hlen _ Href _].
  destruct (bget_scans s l dev bno HI) as [E1 E2]. unfold choose in Hch.
  unfold bget. rewrite (M_bind_Ret _ _ s s s) by done. rewrite E1.
  destruct (head (filter (holds s dev bno) l)) as [j|] eqn:Eh.
  - injection Hch as ->. apply head_filter_in in Eh as [_ Hh].
    destruct (Hfree i Hi Hh) as [_ Hr]. specialize (Href i).
    match goal with |- context [put (upd_buf i ?f s)] =>
      assert (blocked (getb (upd_buf i f s) i) = false) as Hb1 by (rewrite getb_upd_eq by lia; done);
      rewrite (M_bind_Ret (put (upd_buf i f s)) _ s tt (upd_buf i f s)) by done
    end.
    rewrite (M_bind_Ret _ _ _ _ _ (acquiresleep_run i _ Hb1)).
    rewrite upd_buf_buf by lia. unfold mret, M_ret. do 2 f_equal. apply upd_buf_ext.
    rewrite decide_True by done. unfold set_blocked, set_refcnt. cbn.
    by rewrite wrap_small by lia.
  - rewrite E2, Hch.
    match goal with |- context [put (upd_buf i ?f s)] =>
      assert (blocked (getb (upd_buf i f s) i) = false) as Hb1 by (rewrite getb_upd_eq by lia; done);
      rewrite (M_bind_Ret (put (upd_buf i f s)) _ s tt (upd_buf i f s)) by done
    end.
    rewrite (M_bind_Ret _ _ _ _ _ (acquiresleep_run i _ Hb1)).
    rewrite upd_buf_buf by lia. unfold mret, M_ret. do 2 f_equal. apply upd_buf_ext.
    rewrite decide_False; [done|]. destruct Hor as [[Hh _]|[Hno _]]; [|by apply Hno].
    apply (head_filter_None _ Eh). by apply (in_list s l i HI).
Qed.

Lemma bread_run s l dev bno i :
  BInv s l ->
  (forall i, (i < NBUF)%nat -> holds s dev bno i ->
     blocked (getb s i) = false /\ refcnt (getb s i) + 1 < 2 ^ 32) ->
  choose s l dev bno = Some i ->
  bread dev bno s = Ret (i, upd_buf i (loaded s dev bno) s).
Proof.
  intros HI Hfree Hch. destruct (choose_ok s l dev bno i HI Hfree Hch) as (Hi & Hb & Hor).
  pose proof (bi_len _ _ HI) as Hlen.
  unfold bread. rewrite (M_bind_Ret _ _ _ _ _ (bget_run s l dev bno i HI Hfree Hch)).
  unfold mbind, M_bind. cbn [gets]. rewrite getb_upd_eq by lia.
  destruct (decide (bdev (getb s i) = dev /\ blockno (getb s i) = bno)) as [[H1 H2]|Hn].
  - cbn [valid set_blocked set_refcnt]. destruct (valid (getb s i)) eqn:Ev; cbn [negb].
    + unfold mret, M_ret. do 2 f_equal. apply upd_buf_ext. rewrite decide_True by done.
      unfold loaded, set_blocked, set_refcnt. cbn. rewrite decide_True by done.
      by rewrite Ev, H1, H2.
    + unfold virtio_disk_rw, modify, mret, M_ret; cbv beta. rewrite getb_upd_eq by lia.
      rewrite !upd_buf_buf by (unfold upd_buf; cbn; rewrite ?length_insert; lia). do 2 f_equal. apply upd_buf_ext. rewrite !decide_True by done.
      unfold loaded, set_blocked, set_refcnt, set_bdata. cbn. rewrite decide_True by done.
      by rewrite Ev, H1, H2.
  - cbn [valid negb]. unfold virtio_disk_rw, modify, mret, M_ret; cbv beta. rewrite getb_upd_eq by lia.
    rewrite !upd_buf_buf by (unfold upd_buf; cbn; rewrite ?length_insert; lia). do 2 f_equal. apply upd_buf_ext. rewrite !decide_False by done.
    unfold loaded, set_bdata. cbn. by rewrite decide_False.
Qed.

Lemma bread_panics s l dev bno :
  BInv s l -> choose s l dev bno = None -> bread dev bno s = Panic "bget: no buffers".
Proof.
  intros HI Hch. destruct (bget_scans s l dev bno HI) as [E1 E2]. unfold choose in Hch.
  unfold bread, bget, mbind, M_bind. cbn [get]. rewrite E1.
  destruct (head (filter (holds s dev bno) l)); [done|]. by rewrite E2, Hch.
Qed.

Lemma BInv_bread s l dev bno i :
  BInv s l ->
  (forall i, (i < NBUF)%nat -> holds s dev bno i ->
     blocked (getb s i) = false /\ refcnt (getb s i) + 1 < 2 ^ 32) ->
  choose s l dev bno = Some i -> BInv (upd_buf i (loaded s dev bno) s) l.
Proof.
  intros HI Hfree Hch. destruct (choose_ok s l dev bno i HI Hfree Hch) as (Hi & Hb & Hor).
  pose proof (bi_ref _ _ HI i) as Hr. apply BInv_upd; try done.
  - unfold loaded. case_decide; cbn; [|lia]. destruct Hor as [[_ ?]|[Hno _]]; [lia|].
    by destruct (Hno i Hi).
  - unfold loaded. case_decide; cbn; lia.
  - intros j Hj N Hd Hdj Hbj.
    assert (bdev (loaded s dev bno (getb s i)) = dev /\ blockno (loaded s dev bno (getb s i)) = bno)
      as [L1 L2] by (unfold loaded; by case_decide).
    rewrite L1 in *. rewrite L2 in *. apply N.
    destruct Hor as [[[E1 E2] _]|[Hno _]].
    + apply (bi_uniq _ _ HI); try done; congruence.
    + by destruct (Hno j Hj).
Qed.

(** ** Release *)

Definition to_front (i : nat) (l : list nat) : list nat := i :: filter (fun j => j <> i) l.

Lemma filter_ne_id (l : list nat) i : i ∉ l -> filter (fun j => j <> i) l = l.
Proof.
  induction l as [|x l IH]; intros H; [done|]. apply not_elem_of_cons in H as [Hx H].
  rewrite filter_cons, decide_True by congruence. by rewrite IH.
Qed.

Lemma to_front_ring s l i :
  ring s l -> i ∈ l -> ring (push_front i (unlink i s)) (to_front i l).
Proof.
  intros Hr Hi. apply list_elem_of_split in Hi as (l1 & l2 & ->).
  pose proof (unlink_ring s l1 i l2 Hr) as Hu. destruct Hr as (_ & Hnd & Hh).
  apply list.NoDup_app in Hnd as (N1 & N12 & N2). apply list.NoDup_cons in N2 as [Ni N2].
  assert (i ∉ l1) as Hi1 by set_solver.
  unfold to_front. rewrite list.filter_app, filter_cons, decide_False by tauto.
  rewrite !filter_ne_id by done. apply push_front_ring; [done|set_solver|set_solver].
Qed.

Lemma to_front_perm l i : NoDup l -> i ∈ l -> to_front i l ≡ₚ l.
Proof.
  intros Hnd Hi. apply list_elem_of_split in Hi as (l1 & l2 & ->).
  apply list.NoDup_app in Hnd as (N1 & N12 & N2). apply list.NoDup_cons in N2 as [Ni N2].
  unfold to_front. rewrite list.filter_app, filter_cons, decide_False by tauto.
  rewrite !filter_ne_id by set_solver. by rewrite Permutation_middle.
Qed.

Definition released (b : buf) : buf := set_refcnt (refcnt b - 1) (set_blocked false b).

Lemma brelse_run s l i :
  BInv s l -> (i < NBUF)%nat -> blocked (getb s i) = true ->
  exists s', brelse i s = Ret (tt, s') /\
    BInv s' (if refcnt (getb s i) =? 1 then to_front i l else l) /\
    bufs s' = bufs (upd_buf i released s) /\ disk s' = disk s /\ dwrites s' = dwrites s.
Proof.
  intros HI Hi Hb. pose proof (bi_lock _ _ HI i Hb) as Hr0. pose proof (bi_ref _ _ HI i) as Hr.
  pose proof (bi_len _ _ HI) as Hlen. set (s1 := upd_buf i released s).
  assert (upd_buf i (fun x => set_refcnt (u32 (refcnt x - 1)) x) (upd_buf i (set_blocked false) s)
          = s1) as E1.
  { rewrite upd_buf_buf by lia. apply upd_buf_ext. unfold released, set_refcnt, set_blocked. cbn.
    by rewrite wrap_small by lia. }
  assert (getb s1 i = released (getb s i)) as Eg by (apply getb_upd_eq; lia).
  assert (BInv s1 l) as HI1.
  { apply BInv_upd; [done|done|cbn; lia|done|].
    intros j Hj N Hd Hdj Hbj. apply N. by apply eq_sym, (bi_uniq _ _ HI i j). }
  unfold brelse. rewrite (M_bind_Ret _ _ s (getb s i) s) by done.
  rewrite (M_bind_Ret _ _ s tt s) by (by rewrite Hb).
  rewrite (M_bind_Ret _ _ s tt (upd_buf i (set_blocked false) s)) by done.
  rewrite (M_bind_Ret _ _ _ tt s1) by (unfold modify; by rewrite E1).
  rewrite (M_bind_Ret _ _ s1 (getb s1 i) s1) by done. rewrite Eg. cbn [refcnt released set_refcnt].
  destruct (Z.eqb_spec (refcnt (getb s i)) 1) as [Hone|Hone].
  - rewrite (proj2 (Z.eqb_eq _ _)) by lia. eexists. split; [done|]. split; [|done].
    destruct HI1 as [R1 R2 R3 R4 R5 R6].
    assert (i ∈ l) as Hin by (rewrite R2; apply elem_of_seq; lia).
    split; try done; [by apply to_front_ring|].
    rewrite to_front_perm; [done|by destruct R1 as (_ & ? & _)|done].
  - rewrite (proj2 (Z.eqb_neq _ _)) by lia. by eexists.
Qed.

(** ** The cache as a transition system *)

Inductive bop :=
| BRead (dev bno : Z)
| BModify (i : nat) (d : block)
| BWrite (i : nat)
| BRelse (i : nat)
| BPin (i : nat)
| BUnpin (i : nat).

Definition run_bop (o : bop) : B unit :=
  match o with
  | BRead dev bno => _ ← bread dev bno; mret tt
  | BModify i d => modify (upd_buf i (set_bdata d))
  | BWrite i => bwrite i
  | BRelse i => brelse i
  | BPin i => bpin i
  | BUnpin i => bunpin i
  end.

(** What callers of each operation guarantee: they ask for blocks of a real
    device, wait for a free buffer lock, write and release buffers they hold
    locked, and unpin what they pinned; reference counts stay far from the
    width of [uint]. *)
Definition bop_ok (o : bop) (s : bstate) : Prop :=
  match o with
  | BRead dev bno =>
    dev <> 0 /\
    (forall i, (i < NBUF)%nat -> holds s dev bno i ->
       blocked (getb s i) = false /\ refcnt (getb s i) + 1 < 2 ^ 32)
  | BModify i _ | BWrite i | BRelse i => (i < NBUF)%nat /\ blocked (getb s i) = true
  | BPin i => (i < NBUF)%nat /\ refcnt (getb s i) + 1 < 2 ^ 32
  | BUnpin i => (i < NBUF)%nat /\ (if blocked (getb s i) then 1 else 0) < refcnt (getb s i)
  end.

Inductive breach : bstate -> Prop :=
| br_init d : breach (binit d)
| br_step o s s' : breach s -> bop_ok o s -> run_bop o s = Ret (tt, s') -> breach s'.

Lemma BInv_disk s l d w : BInv s l -> BInv (mkB (bufs s) (next s) (prev s) d w) l.
Proof. intros []. by split. Qed.

Lemma run_bop_inv o s l :
  BInv s l -> bop_ok o s ->
  match run_bop o s with
  | Ret (_, s') => exists l', BInv s' l'
  | Panic m => exists dev bno, o = BRead dev bno /\ choose s l dev bno = None
  | Undef _ => False
  end.
Proof.
  intros HI. pose proof (bi_ref _ _ HI) as Hr.
  assert (forall i f, (i < NBUF)%nat -> 0 <= refcnt (f (getb s i)) < 2 ^ 32 ->
    (blocked (f (getb s i)) = true -> 0 < refcnt (f (getb s i))) ->
    bdev (f (getb s i)) = bdev (getb s i) -> blockno (f (getb s i)) = blockno (getb s i) ->
    BInv (upd_buf i f s) l) as Hupd.
  { intros i f Hi H1 H2 H3 H4. apply BInv_upd; try done.
    rewrite H3, H4. intros j Hj N Hd Hdj Hbj. apply N. by apply eq_sym, (bi_uniq _ _ HI i j). }
  destruct o as [dev bno|i d|i|i|i|i]; cbn [bop_ok run_bop].
  - intros [Hd Hf]. destruct (choose s l dev bno) as [i|] eqn:Ec.
    + rewrite (M_bind_Ret _ _ _ _ _ (bread_run s l dev bno i HI Hf Ec)).
      exists l. by apply BInv_bread.
    + unfold mbind, M_bind. rewrite (bread_panics s l dev bno HI Ec). eauto.
  - intros [Hi Hb]. exists l. apply Hupd; try done; cbn; [apply Hr|].
    intros _. by apply (bi_lock _ _ HI).
  - intros [Hi Hb]. unfold bwrite. rewrite (M_bind_Ret _ _ s (getb s i) s) by done.
    rewrite (M_bind_Ret _ _ s tt s) by (by rewrite Hb). exists l. by apply BInv_disk.
  - intros [Hi Hb]. destruct (brelse_run s l i HI Hi Hb) as (s' & -> & HI' & _). by eexists.
  - intros [Hi Hb]. exists l. specialize (Hr i). apply Hupd; try done; cbn;
      rewrite wrap_small by lia; lia.
  - intros [Hi Hb]. exists l. specialize (Hr i). apply Hupd; try done; cbn;
      (rewrite wrap_small by (destruct (blocked _); lia)); [destruct (blocked _); lia|].
    intros E. rewrite E in Hb. lia.
Qed.

Lemma breach_inv s : breach s -> exists l, BInv s l.
Proof.
  induction 1 as [d|o s s' _ [l IH] Ho Hr]; [eexists; apply BInv_binit|].
  pose proof (run_bop_inv o s l IH Ho) as H. by rewrite Hr in H.
Qed.

(** ** Properties *)

(** C11: the buffer cache stays consistent from [binit] on, whatever its clients
    do within their obligations: the links always form one ring through all
    [NBUF] buffers, and no block is ever in two buffers; the only panic is
    [bget]'s, when the block is not cached and every buffer is referenced. *)
Theorem bcache_consistent s o :
  breach s -> bop_ok o s ->
  (exists l, BInv s l) /\
  match run_bop o s with
  | Ret (_, s') => breach s'
  | Panic _ => exists dev bno, o = BRead dev bno /\
      (forall i, (i < NBUF)%nat -> ~ holds s dev bno i) /\
      (forall i, (i < NBUF)%nat -> refcnt (getb s i) <> 0)
  | Undef _ => False
  end.
Proof.
  intros Hs Ho. destruct (breach_inv s Hs) as [l HI]. split; [by eexists|].
  pose proof (run_bop_inv o s l HI Ho) as H.
  destruct (run_bop o s) as [[[] s']|m|m] eqn:E; [by eapply br_step| |done].
  destruct H as (dev & bno & -> & Hc). exists dev, bno. split; [done|]. unfold choose in Hc.
  destruct (head (filter (holds s dev bno) l)) eqn:E1; [done|]. split.
  - intros i Hi. apply (head_filter_None _ E1). by apply (in_list s l i HI).
  - intros i Hi. apply (head_filter_None _ Hc). rewrite elem_of_rev. by apply (in_list s l i HI).
Qed.

(** C25: [bread] returns a locked, referenced buffer of the asked block with the
    right contents, the cached ones if the block was cached, the disk's
    otherwise, and changes no other buffer; a buffer is recycled only if nobody
    references it, and then it is the least recently released one. *)
Theorem bread_correct s l dev bno i :
  BInv s l ->
  (forall i, (i < NBUF)%nat -> holds s dev bno i ->
     blocked (getb s i) = false /\ refcnt (getb s i) + 1 < 2 ^ 32) ->
  choose s l dev bno = Some i ->
  exists s', bread dev bno s = Ret (i, s') /\ holds s' dev bno i /\
    blocked (getb s' i) = true /\ valid (getb s' i) = true /\
    (holds s dev bno i /\ refcnt (getb s' i) = refcnt (getb s i) + 1 /\
     bdata (getb s' i) = (if valid (getb s i) then bdata (getb s i) else disk s bno) \/
     (forall j, (j < NBUF)%nat -> ~ holds s dev bno j) /\ refcnt (getb s i) = 0 /\
     refcnt (getb s' i) = 1 /\ bdata (getb s' i) = disk s bno /\
     exists l1 l2, l = l1 ++ i :: l2 /\ forall j, j ∈ l2 -> refcnt (getb s j) <> 0) /\
    (forall j, j <> i -> getb s' j = getb s j) /\ disk s' = disk s /\ dwrites s' = dwrites s.
Proof.
  intros HI Hf Hc. destruct (choose_ok s l dev bno i HI Hf Hc) as (Hi & Hb & Hor).
  pose proof (bi_len _ _ HI) as Hlen. eexists. split; [by apply (bread_run s l)|].
  assert (getb (upd_buf i (loaded s dev bno) s) i = loaded s dev bno (getb s i)) as Eg
    by (apply getb_upd_eq; lia).
  unfold holds in *. rewrite Eg.
  split; [unfold loaded; by case_decide|]. split; [unfold loaded; by case_decide|].
  split; [unfold loaded; by case_decide|].
  split; [|split; [intros j N; by rewrite getb_upd_ne by congruence|done]].
  destruct Hor as [[Hh _]|[Hno Hz]].
  - left. split; [done|]. unfold loaded. by rewrite decide_True.
  - right. split; [done|]. split; [done|]. unfold loaded. rewrite decide_False by (by apply Hno).
    split; [done|]. split; [done|].
    unfold choose in Hc. destruct (head (filter (holds s dev bno) l)) as [j|] eqn:E1.
    { apply head_filter_in in E1 as [Hj Hh]. apply (in_list s l j HI) in Hj.
      by destruct (Hno j Hj). }
    apply head_filter_split in Hc as (l1 & l2 & Hl & Hl1).
    exists (rev l2), (rev l1). split.
    + rewrite <- (rev_involutive l), Hl, rev_app_distr. cbn. by rewrite <- app_assoc.
    + intros j Hj. apply Hl1. by apply elem_of_rev.
Qed.

(** ** Witnesses *)

(** A disk whose block [b] holds the word [b]. *)
Definition disk0 : Z -> block := fun b => [b].

Lemma nothing_cached dev bno i : dev <> 0 -> ~ holds (binit disk0) dev bno i.
Proof. intros Hd [H _]. rewrite getb_binit in H. cbn in H. congruence. Qed.

Lemma bcache_consistent_witness :
  match run_bop (BRead 1 5) (binit disk0) with Ret (_, s') => breach s' | _ => False end.
Proof.
  destruct (bcache_consistent (binit disk0) (BRead 1 5)) as [_ H].
  - apply br_init.
  - split; [lia|]. intros i _ Hh. destruct (nothing_cached 1 5 i ltac:(lia) Hh).
  - destruct (run_bop (BRead 1 5) (binit disk0)) as [[u s']|m|m].
    + exact H.
    + destruct H as (dev & bno & _ & _ & H). apply (H 0%nat); [apply Nat.ltb_lt; reflexivity|].
      rewrite getb_binit. reflexivity.
    + exact H.
Defined.

Lemma bread_correct_witness :
  exists s', bread 1 5 (binit disk0) = Ret (0%nat, s') /\ bdata (getb s' 0) = [5].
Proof.
  destruct (bread_correct (binit disk0) (rev (seq 0 NBUF)) 1 5 0) as (s' & E & _ & _ & _ & H & _).
  - apply BInv_binit.
  - intros i _ Hh. destruct (nothing_cached 1 5 i ltac:(lia) Hh).
  - vm_compute. reflexivity.
  - exists s'. split; [exact E|]. destruct H as [[Hh _]|(_ & _ & _ & -> & _)].
    + destruct (nothing_cached 1 5 0 ltac:(lia) Hh).
    + reflexivity.
Defined.
