(* ===== verification/Cache.v ===== *)
(** * What the buffer cache promises to its clients

    Seen from the log and the file system, the cache is a store of block
    contents [a_dat] in front of the disk: a client holds blocks (locked,
    between [bread] and [brelse]), pins blocks, and leaves a block dirty only
    while it holds or pins it.  [CacheSpec] states this contract and the
    operations' laws; [Bio] is shown to satisfy it on device 1. *)

From S2P Require Import Prelude Mlfq Bio.

Definition ROOTDEV : Z := 1.

(** The client's view of the cache. *)
Record acache := mkA {
  a_dat : Z -> block;          (* current contents of every block *)
  a_disk : Z -> block;         (* contents on disk *)
  a_dirty : list Z;            (* blocks that may differ from the disk *)
  a_pinned : list Z;
  a_held : list Z;             (* blocks locked by the client *)
  a_trace : list (Z * block)   (* disk writes so far *)
}.

(** Blocks other than [b]. *)
Definition but (b : Z) (l : list Z) : list Z := filter (fun x => x <> b) l.
#[global] Arguments but : simpl never.
#[global] Arguments zset : simpl never.

Definition hold (b : Z) (A : acache) : acache :=
  mkA (a_dat A) (a_disk A) (a_dirty A) (a_pinned A) (b :: a_held A) (a_trace A).
Definition unhold (b : Z) (A : acache) : acache :=
  mkA (a_dat A) (a_disk A) (a_dirty A) (a_pinned A) (but b (a_held A)) (a_trace A).
Definition store (b : Z) (d : block) (A : acache) : acache :=
  mkA (zset (a_dat A) b d) (a_disk A) (b :: a_dirty A) (a_pinned A) (a_held A) (a_trace A).
Definition flush (b : Z) (A : acache) : acache :=
  mkA (a_dat A) (zset (a_disk A) b (a_dat A b)) (but b (a_dirty A)) (a_pinned A) (a_held A)
    (a_trace A ++ [(b, a_dat A b)]).
Definition pin (b : Z) (A : acache) : acache :=
  mkA (a_dat A) (a_disk A) (a_dirty A) (b :: a_pinned A) (a_held A) (a_trace A).
Definition unpin (b : Z) (A : acache) : acache :=
  mkA (a_dat A) (a_disk A) (a_dirty A) (but b (a_pinned A)) (a_held A) (a_trace A).

(** The contract.  [view s A] relates a state of the implementation to the
    client's view, [handle s b i] says that [i] is the buffer of block [b]. *)
Class CacheSpec (view : bstate -> acache -> Prop) (handle : bstate -> Z -> nat -> Prop) := {
  cs_init d : view (binit d) (mkA d d [] [] [] []);
  cs_disk s A : view s A -> (forall b, disk s b = a_disk A b) /\ dwrites s = a_trace A;
  cs_bread s A b :
    view s A -> b ∉ a_held A -> (length (a_pinned A) + length (a_held A) < NBUF)%nat ->
    exists i s', bread ROOTDEV b s = Ret (i, s') /\ view s' (hold b A) /\ handle s' b i /\
      bdata (getb s' i) = a_dat A b /\ (forall b' j, b' ∈ a_held A -> handle s b' j -> handle s' b' j);
  cs_store s A b i d :
    view s A -> b ∈ a_held A -> handle s b i ->
    view (upd_buf i (set_bdata d) s) (store b d A) /\
    (forall b' j, handle s b' j -> handle (upd_buf i (set_bdata d) s) b' j);
  cs_bwrite s A b i :
    view s A -> b ∈ a_held A -> handle s b i ->
    exists s', bwrite i s = Ret (tt, s') /\ view s' (flush b A) /\
      (forall b' j, handle s b' j -> handle s' b' j);
  cs_brelse s A b i :
    view s A -> b ∈ a_held A -> handle s b i -> (b ∈ a_dirty A -> b ∈ a_pinned A) ->
    exists s', brelse i s = Ret (tt, s') /\ view s' (unhold b A) /\
      (forall b' j, handle s b' j -> handle s' b' j);
  cs_bpin s A b i :
    view s A -> b ∈ a_held A -> b ∉ a_pinned A -> handle s b i ->
    exists s', bpin i s = Ret (tt, s') /\ view s' (pin b A) /\
      (forall b' j, handle s b' j -> handle s' b' j);
  cs_bunpin s A b i :
    view s A -> b ∈ a_held A -> b ∈ a_pinned A -> handle s b i ->
    exists s', bunpin i s = Ret (tt, s') /\ view s' (unpin b A) /\
      (forall b' j, handle s b' j -> handle s' b' j);
  cs_data s A b i : view s A -> b ∈ a_held A -> handle s b i -> bdata (getb s i) = a_dat A b;
  cs_handle s b i : handle s b i -> blockno (getb s i) = b
}.

(** ** The implementation *)

(** References of a block: one for a pin, one for its holder. *)
Definition refs (A : acache) (b : Z) : Z :=
  (if decide (b ∈ a_pinned A) then 1 else 0) + (if decide (b ∈ a_held A) then 1 else 0).

Record refines (s : bstate) (A : acache) : Prop := {
  rf_inv : exists l, BInv s l;
  rf_dev : forall i, (i < NBUF)%nat -> bdev (getb s i) = ROOTDEV \/
    (bdev (getb s i) = 0 /\ refcnt (getb s i) = 0);
  rf_data : forall i, (i < NBUF)%nat -> bdev (getb s i) = ROOTDEV -> valid (getb s i) = true ->
    bdata (getb s i) = a_dat A (blockno (getb s i));
  rf_clean : forall b, b ∉ a_dirty A -> a_disk A b = a_dat A b;
  rf_dirty : forall b, b ∈ a_dirty A -> b ∈ a_pinned A \/ b ∈ a_held A;
  rf_cached : forall b, b ∈ a_pinned A \/ b ∈ a_held A ->
    exists i, (i < NBUF)%nat /\ holds s ROOTDEV b i /\ valid (getb s i) = true;
  rf_ref : forall i, (i < NBUF)%nat -> bdev (getb s i) = ROOTDEV ->
    refcnt (getb s i) = refs A (blockno (getb s i));
  rf_lock : forall i, (i < NBUF)%nat -> blocked (getb s i) = true <->
    bdev (getb s i) = ROOTDEV /\ blockno (getb s i) ∈ a_held A;
  rf_nodup : NoDup (a_pinned A) /\ NoDup (a_held A);
  rf_disk : forall b, disk s b = a_disk A b;
  rf_trace : dwrites s = a_trace A
}.

Definition handle (s : bstate) (b : Z) (i : nat) : Prop := (i < NBUF)%nat /\ holds s ROOTDEV b i.

Lemma refs_pos A b : 0 < refs A b <-> b ∈ a_pinned A \/ b ∈ a_held A.
Proof. unfold refs. repeat case_decide; split; intros; try lia; tauto. Qed.

Lemma refs_range A b : 0 <= refs A b <= 2.
Proof. unfold refs. repeat case_decide; lia. Qed.

Lemma refs_held A b : b ∉ a_pinned A -> b ∉ a_held A -> refs A b = 0.
Proof. intros. unfold refs. by rewrite !decide_False. Qed.

(** Two buffers of one block of the device are the same. *)
Lemma handle_inj s A b i j : refines s A -> handle s b i -> handle s b j -> i = j.
Proof.
  intros [[l HI]] [Hi [D1 B1]] [Hj [D2 B2]]. apply (bi_uniq _ _ HI); try done; [by rewrite D1|congruence..].
Qed.

(** Fewer pins and holds than buffers leave one unreferenced. *)
Lemma free_buffer s A :
  refines s A -> (length (a_pinned A) + length (a_held A) < NBUF)%nat ->
  exists i, (i < NBUF)%nat /\ refcnt (getb s i) = 0.
Proof.
  intros HR Hl. pose proof HR as [[l HI] Hdev _ _ _ _ Href _ _ _ _].
  destruct (decide (Exists (fun i => refcnt (getb s i) = 0) (seq 0 NBUF))) as [He|Hn].
  { apply list.Exists_exists in He as (i & Hi%elem_of_seq & Hz). exists i. split; [lia|done]. }
  exfalso. apply not_Exists_Forall in Hn; [|apply _].
  assert (forall i, (i < NBUF)%nat -> bdev (getb s i) = ROOTDEV /\
            (blockno (getb s i) ∈ a_pinned A \/ blockno (getb s i) ∈ a_held A)) as Hall.
  { intros i Hi. pose proof (proj1 (list.Forall_forall _ _) Hn i ltac:(apply elem_of_seq; lia)) as Hz.
    cbn in Hz. destruct (Hdev i Hi) as [Hd|[_ ?]]; [|done]. split; [done|].
    rewrite (Href i Hi Hd) in Hz. apply refs_pos. pose proof (refs_range A (blockno (getb s i))). lia. }
  set (bl := (fun i => blockno (getb s i)) <$> seq 0 NBUF).
  assert (NoDup bl) as Hnd.
  { apply NoDup_fmap_2_strong; [|apply NoDup_seq]. intros i j Hi%elem_of_seq Hj%elem_of_seq Hb.
    destruct (Hall i ltac:(lia)) as [Di _]. destruct (Hall j ltac:(lia)) as [Dj _].
    apply (bi_uniq _ _ HI); try lia; unfold ROOTDEV in *; congruence || lia. }
  assert (length bl <= length (a_pinned A ++ a_held A))%nat as Hle.
  { apply submseteq_length, NoDup_submseteq; [done|]. intros b Hb.
    apply list_elem_of_fmap in Hb as (i & -> & Hi%elem_of_seq).
    destruct (Hall i ltac:(lia)) as [_ ?]. rewrite elem_of_app. done. }
  unfold bl in Hle. rewrite length_fmap, length_seq, length_app in Hle. lia.
Qed.

(** ** The laws *)

(** The view after a change of one held or recycled buffer [i]. *)
Lemma refines_upd s A A' i f :
  refines s A -> (i < NBUF)%nat -> (exists l, BInv (upd_buf i f s) l) ->
  let b := blockno (f (getb s i)) in
  bdev (f (getb s i)) = ROOTDEV -> valid (f (getb s i)) = true ->
  bdata (f (getb s i)) = a_dat A' b -> refcnt (f (getb s i)) = refs A' b ->
  (blocked (f (getb s i)) = true <-> b ∈ a_held A') ->
  (bdev (getb s i) = ROOTDEV -> blockno (getb s i) <> b -> refs A (blockno (getb s i)) = 0) ->
  (forall b', b' <> b -> a_dat A' b' = a_dat A b' /\ refs A' b' = refs A b' /\
     (b' ∈ a_held A' <-> b' ∈ a_held A)) ->
  (forall b', b' ∉ a_dirty A' -> a_disk A' b' = a_dat A' b') ->
  (forall b', b' ∈ a_dirty A' -> b' ∈ a_pinned A' \/ b' ∈ a_held A') ->
  (forall b', b' <> b -> b' ∈ a_pinned A' \/ b' ∈ a_held A' -> b' ∈ a_pinned A \/ b' ∈ a_held A) ->
  NoDup (a_pinned A') /\ NoDup (a_held A') ->
  a_disk A' = a_disk A -> a_trace A' = a_trace A ->
  (forall j, (j < NBUF)%nat -> j <> i -> ~ holds s ROOTDEV b j) ->
  refines (upd_buf i f s) A'.
Proof.
  intros HR Hi HI' b Hd Hv Hda Href Hlk Hold Hoth Hcl Hdi Hca Hnd Edk Etr Huniq.
  pose proof HR as [[l HI] R1 R2 R3 R4 R5 R6 R7 R8 R9 R10].
  pose proof (bi_len _ _ HI) as Hlen.
  assert (getb (upd_buf i f s) i = f (getb s i)) as Ei by (apply getb_upd_eq; lia).
  assert (forall j, j <> i -> getb (upd_buf i f s) j = getb s j) as Ene
    by (intros j N; by apply getb_upd_ne).
  assert (forall j, (j < NBUF)%nat -> j <> i -> bdev (getb s j) = ROOTDEV -> blockno (getb s j) <> b)
    as Hbj by (intros j Hj N D E; by apply (Huniq j Hj N)).
  split; try done; try (intros j Hj; destruct (decide (j = i)) as [->|N];
    [rewrite Ei|rewrite Ene by done]).
  - by left.
  - auto.
  - done.
  - intros D V. destruct (Hoth (blockno (getb s j))) as [-> _]; auto.
  - intros b' Hb'. destruct (decide (b' = b)) as [->|Nb].
    + exists i. split; [done|]. unfold holds. rewrite Ei. done.
    + destruct (R5 b' (Hca b' Nb Hb')) as (j & Hj & [D B] & V).
      assert (j <> i) as N.
      { intros ->. specialize (Hold D ltac:(congruence)). rewrite B in Hold.
        specialize (Hca b' Nb Hb'). apply refs_pos in Hca. lia. }
      exists j. split; [done|]. unfold holds. rewrite Ene by done. done.
  - done.
  - intros D. destruct (Hoth (blockno (getb s j))) as (_ & -> & _); auto.
  - rewrite Hlk. tauto.
  - rewrite (R7 j Hj). split; intros [D B]; (split; [done|]);
      destruct (Hoth (blockno (getb s j))) as (_ & _ & Hh); auto; by apply Hh.
  - intros b'. cbn [disk upd_buf]. by rewrite Edk.
  - by rewrite Etr.
Qed.

Lemma ref_small s A i : refines s A -> (i < NBUF)%nat -> 0 <= refcnt (getb s i) <= 2.
Proof.
  intros HR Hi. destruct (rf_dev _ _ HR i Hi) as [D|[_ ->]]; [|lia].
  rewrite (rf_ref _ _ HR i Hi D). apply refs_range.
Qed.

Lemma refines_bread s A b :
  refines s A -> b ∉ a_held A -> (length (a_pinned A) + length (a_held A) < NBUF)%nat ->
  exists i s', bread ROOTDEV b s = Ret (i, s') /\ refines s' (hold b A) /\ handle s' b i /\
    bdata (getb s' i) = a_dat A b /\ (forall b' j, b' ∈ a_held A -> handle s b' j -> handle s' b' j).
Proof.
  intros HR Hb Hl. pose proof HR as [[l HI] R1 R2 R3 R4 R5 R6 R7 R8 R9 R10].
  assert (forall i, (i < NBUF)%nat -> holds s ROOTDEV b i ->
    blocked (getb s i) = false /\ refcnt (getb s i) + 1 < 2 ^ 32) as Hfree.
  { intros i Hi [D B]. pose proof (ref_small s A i HR Hi). split; [|lia].
    apply not_true_is_false. intros Hk. apply (R7 i Hi) in Hk. rewrite B in Hk. tauto. }
  destruct (choose s l ROOTDEV b) as [i|] eqn:Ec.
  2:{ exfalso. destruct (free_buffer s A HR Hl) as (i & Hi & Hz). unfold choose in Ec.
      destruct (head (filter (holds s ROOTDEV b) l)); [done|].
      apply (head_filter_None _ Ec i); [|done]. rewrite elem_of_rev. by apply (in_list s l i HI). }
  destruct (choose_ok s l ROOTDEV b i HI Hfree Ec) as (Hi & Hbl & Hor).
  pose proof (bi_len _ _ HI) as Hlen.
  assert (refs (hold b A) b = refs A b + 1) as Er.
  { unfold refs. cbn [a_pinned a_held hold]. repeat case_decide; try lia; set_solver. }
  assert (refcnt (loaded s ROOTDEV b (getb s i)) = refs A b + 1 /\
          bdata (loaded s ROOTDEV b (getb s i)) = a_dat A b) as [L1 L2].
  { unfold loaded. case_decide as Hd; cbn.
    - destruct Hd as [D B]. rewrite (R6 i Hi D), B. split; [done|].
      destruct (valid (getb s i)) eqn:Ev; [by rewrite (R2 i Hi D Ev), B|].
      rewrite R9. apply R3. intros Hdirty. destruct (R5 b (R4 b Hdirty)) as (j & Hj & Hh & V).
      assert (j = i) as -> by (by eapply (handle_inj s A b)). congruence.
    - destruct Hor as [[Hh _]|[Hno _]]; [by destruct Hd|].
      assert (~ (b ∈ a_pinned A \/ b ∈ a_held A)) as Hnr.
      { intros Hin. destruct (R5 b Hin) as (j & Hj & Hh & _). by apply (Hno j Hj). }
      rewrite refs_held by tauto. split; [lia|]. rewrite R9. apply R3. intros Hdirty. by apply Hnr, R4. }
  assert (bdev (loaded s ROOTDEV b (getb s i)) = ROOTDEV /\
          blockno (loaded s ROOTDEV b (getb s i)) = b /\
          valid (loaded s ROOTDEV b (getb s i)) = true /\
          blocked (loaded s ROOTDEV b (getb s i)) = true) as (L3 & L4 & L5 & L6)
    by (unfold loaded; by case_decide).
  exists i, (upd_buf i (loaded s ROOTDEV b) s).
  split; [by apply (bread_run s l)|].
  assert (getb (upd_buf i (loaded s ROOTDEV b) s) i = loaded s ROOTDEV b (getb s i)) as Eg
    by (apply getb_upd_eq; lia).
  split; [|split; [|split]].
  - apply (refines_upd s A); try done; rewrite ?L4; try done.
    + exists l. by apply BInv_bread.
    + by rewrite L1, Er.
    + rewrite L6. set_solver.
    + intros D Nb. destruct Hor as [[[_ B] _]|[_ Hz]]; [done|]. by rewrite <- (R6 i Hi D).
    + intros b' Nb. split; [done|]. split; [|set_solver].
      unfold refs. cbn [a_pinned a_held hold]. f_equal. repeat case_decide; set_solver.
    + intros b' Hb'. cbn in *. destruct (R4 b' Hb'); set_solver.
    + set_solver.
    + cbn. split; [tauto|]. constructor; [done|tauto].
    + intros j Hj N Hh. destruct Hor as [[Hi' _]|[Hno _]]; [|by apply (Hno j Hj)].
      apply N. by eapply (handle_inj s A b).
  - split; [done|]. unfold holds. by rewrite Eg.
  - by rewrite Eg.
  - intros b' j Hb' [Hj [D B]]. split; [done|]. unfold holds.
    destruct (decide (j = i)) as [->|N]; [|by rewrite getb_upd_ne].
    exfalso. assert (blocked (getb s i) = true) by (apply R7; [done|by rewrite B]). congruence.
Qed.

(** Facts about the buffer of a held block. *)
Lemma held_buffer s A b i :
  refines s A -> b ∈ a_held A -> handle s b i ->
  (i < length (bufs s))%nat /\ valid (getb s i) = true /\ bdata (getb s i) = a_dat A b /\
  blocked (getb s i) = true /\ refcnt (getb s i) = refs A b /\
  (forall j, (j < NBUF)%nat -> j <> i -> ~ holds s ROOTDEV b j).
Proof.
  intros HR Hb Hh. pose proof HR as [[l HI] R1 R2 R3 R4 R5 R6 R7 R8 R9 R10].
  pose proof Hh as [Hi [D B]].
  destruct (R5 b (or_intror Hb)) as (j & Hj & Hj2 & V).
  assert (j = i) as -> by (by eapply (handle_inj s A b)).
  split; [rewrite (bi_len _ _ HI); lia|]. split; [done|].
  split; [by rewrite (R2 i Hi D V), B|]. split; [apply R7; [done|by rewrite B]|].
  split; [by rewrite (R6 i Hi D), B|].
  intros j Hj' N Hh'. apply N. by eapply (handle_inj s A b).
Qed.

(** Keeping device, number, lock and a safe count keeps the cache invariant. *)
Lemma BInv_touch s l i f :
  BInv s l -> (i < NBUF)%nat -> bdev (f (getb s i)) = bdev (getb s i) ->
  blockno (f (getb s i)) = blockno (getb s i) -> 0 <= refcnt (f (getb s i)) < 2 ^ 32 ->
  (blocked (f (getb s i)) = true -> 0 < refcnt (f (getb s i))) -> BInv (upd_buf i f s) l.
Proof.
  intros HI Hi E1 E2 Hr Hk. apply BInv_upd; try done. rewrite E1, E2.
  intros j Hj N Hd Hdj Hbj. apply N. by apply eq_sym, (bi_uniq _ _ HI i j).
Qed.

Lemma handle_upd s i f b' j :
  bdev (f (getb s i)) = bdev (getb s i) -> blockno (f (getb s i)) = blockno (getb s i) ->
  handle s b' j -> handle (upd_buf i f s) b' j.
Proof.
  intros E1 E2 [Hj [D B]]. split; [done|]. unfold holds. rewrite getb_upd.
  case_bool_decide as H; [|done]. destruct H as [-> _]. rewrite E1, E2. done.
Qed.

Lemma elem_of_but b b' l : b' ∈ but b l <-> b' ∈ l /\ b' <> b.
Proof. unfold but. rewrite list_elem_of_filter. tauto. Qed.

Lemma refs_store A b d b' : refs (store b d A) b' = refs A b'.
Proof. done. Qed.

Lemma refines_store s A b i d :
  refines s A -> b ∈ a_held A -> handle s b i ->
  refines (upd_buf i (set_bdata d) s) (store b d A) /\
  (forall b' j, handle s b' j -> handle (upd_buf i (set_bdata d) s) b' j).
Proof.
  intros HR Hb Hh. destruct (held_buffer s A b i HR Hb Hh) as (Hlt & V & Da & Lk & Rf & Hu).
  pose proof Hh as [Hi [D B]]. pose proof HR as [[l HI] R1 R2 R3 R4 R5 R6 R7 R8 R9 R10].
  split; [|intros; by apply handle_upd].
  apply (refines_upd s A); cbn [set_bdata blockno bdev valid bdata refcnt blocked]; rewrite ?B; try done.
  - exists l. apply BInv_touch; try done; cbn; [apply (bi_ref _ _ HI)|apply (bi_lock _ _ HI)].
  - cbn. by rewrite zset_eq.
  - intros b' N. cbn. by rewrite zset_ne.
  - intros b' Hb'. cbn in *. apply not_elem_of_cons in Hb' as [N Hb'].
    rewrite zset_ne by congruence. by apply R3.
  - intros b'. cbn. intros [->|Hb']%elem_of_cons; [by right|by apply R4].
Qed.

Lemma refines_bwrite s A b i :
  refines s A -> b ∈ a_held A -> handle s b i ->
  exists s', bwrite i s = Ret (tt, s') /\ refines s' (flush b A) /\
    (forall b' j, handle s b' j -> handle s' b' j).
Proof.
  intros HR Hb Hh. destruct (held_buffer s A b i HR Hb Hh) as (Hlt & V & Da & Lk & Rf & Hu).
  pose proof Hh as [Hi [D B]]. pose proof HR as [[l HI] R1 R2 R3 R4 R5 R6 R7 R8 R9 R10].
  unfold bwrite. rewrite (M_bind_Ret _ _ s (getb s i) s) by done.
  rewrite (M_bind_Ret _ _ s tt s) by (by rewrite Lk).
  exists (mkB (bufs s) (next s) (prev s) (zset (disk s) b (a_dat A b))
            (dwrites s ++ [(b, a_dat A b)])).
  split; [unfold virtio_disk_rw, modify; by rewrite B, Da|]. split; [|done]. split; try done.
  - exists l. by apply BInv_disk.
  - intros b'. cbn. rewrite elem_of_but. intros Hb'. destruct (decide (b' = b)) as [->|N].
    + by rewrite zset_eq. + rewrite zset_ne by congruence. apply R3. tauto.
  - intros b'. cbn. rewrite elem_of_but. intros [Hb' _]. by apply R4.
  - intros b'. cbn. unfold zset. by destruct (b' =? b).
  - cbn. by rewrite R10.
Qed.

Lemma refines_brelse s A b i :
  refines s A -> b ∈ a_held A -> handle s b i -> (b ∈ a_dirty A -> b ∈ a_pinned A) ->
  exists s', brelse i s = Ret (tt, s') /\ refines s' (unhold b A) /\
    (forall b' j, handle s b' j -> handle s' b' j).
Proof.
  intros HR Hb Hh Hd. destruct (held_buffer s A b i HR Hb Hh) as (Hlt & V & Da & Lk & Rf & Hu).
  pose proof Hh as [Hi [D B]]. pose proof HR as [[l HI] R1 R2 R3 R4 R5 R6 R7 R8 R9 R10].
  destruct (brelse_run s l i HI Hi Lk) as (s' & Er & HI' & Eb & Ed & Et).
  assert (forall j, getb s' j = getb (upd_buf i released s) j) as Eg
    by (intros j; unfold getb; by rewrite Eb).
  assert (refines (upd_buf i released s) (unhold b A)) as HR1.
  { apply (refines_upd s A); unfold released; cbn [set_refcnt set_blocked blockno bdev valid bdata
      refcnt blocked]; rewrite ?B; try done.
    - exists l. pose proof (bi_ref _ _ HI i). pose proof (bi_lock _ _ HI i Lk).
      apply BInv_touch; try done; cbn; lia.
    - rewrite Rf. unfold refs. cbn [unhold a_pinned a_held].
      rewrite (decide_False (P := b ∈ but b _)) by (rewrite elem_of_but; tauto).
      rewrite (decide_True (P := b ∈ a_held A)) by done. lia.
    - cbn. rewrite elem_of_but. split; [done|]. tauto.
    - intros b' N. cbn. split; [done|]. rewrite elem_of_but. split; [|tauto].
      unfold refs. cbn [unhold a_pinned a_held]. f_equal.
      repeat case_decide; try done; rewrite elem_of_but in *; tauto.
    - intros b' Hb'. cbn in *. rewrite elem_of_but. destruct (decide (b' = b)) as [->|N]; [auto|].
      destruct (R4 b' Hb'); tauto.
    - intros b' N. cbn. rewrite elem_of_but. tauto.
    - cbn. split; [tauto|]. unfold but. apply list.NoDup_filter. tauto. }
  exists s'. split; [done|]. split.
  - destruct HR1 as [_ Q1 Q2 Q3 Q4 Q5 Q6 Q7 Q8 Q9 Q10].
    split; try done; try (intros j Hj; rewrite Eg; auto; fail).
    + by eexists.
    + intros b' Hb'. destruct (Q5 b' Hb') as (j & Hj & Hh' & V'). exists j.
      unfold holds in *. rewrite Eg. done.
    + intros b'. rewrite Ed. apply R9.
    + by rewrite Et.
  - intros b' j Hj. unfold handle, holds. rewrite Eg. by apply handle_upd.
Qed.

Lemma refines_bpin s A b i :
  refines s A -> b ∈ a_held A -> b ∉ a_pinned A -> handle s b i ->
  exists s', bpin i s = Ret (tt, s') /\ refines s' (pin b A) /\
    (forall b' j, handle s b' j -> handle s' b' j).
Proof.
  intros HR Hb Hp Hh. destruct (held_buffer s A b i HR Hb Hh) as (Hlt & V & Da & Lk & Rf & Hu).
  pose proof Hh as [Hi [D B]]. pose proof HR as [[l HI] R1 R2 R3 R4 R5 R6 R7 R8 R9 R10].
  pose proof (refs_range A b) as Hrr.
  eexists. split; [done|]. split; [|intros; by apply handle_upd].
  apply (refines_upd s A); cbn [set_refcnt blockno bdev valid bdata refcnt blocked]; rewrite ?B; try done.
  - exists l. apply BInv_touch; try done; cbn; rewrite Rf, wrap_small by lia; lia.
  - rewrite Rf, wrap_small by lia. unfold refs. cbn [pin a_pinned a_held].
    rewrite (decide_True (P := b ∈ b :: _)) by set_solver. rewrite (decide_False (P := b ∈ a_pinned A)) by done. lia.
  - intros b' N. cbn. split; [done|]. split; [|done].
    unfold refs. cbn [pin a_pinned a_held]. f_equal. repeat case_decide; set_solver.
  - intros b' Hb'. cbn in *. destruct (R4 b' Hb'); set_solver.
  - intros b' N. cbn. set_solver.
  - cbn. split; [|tauto]. constructor; [done|tauto].
Qed.

Lemma refines_bunpin s A b i :
  refines s A -> b ∈ a_held A -> b ∈ a_pinned A -> handle s b i ->
  exists s', bunpin i s = Ret (tt, s') /\ refines s' (unpin b A) /\
    (forall b' j, handle s b' j -> handle s' b' j).
Proof.
  intros HR Hb Hp Hh. destruct (held_buffer s A b i HR Hb Hh) as (Hlt & V & Da & Lk & Rf & Hu).
  pose proof Hh as [Hi [D B]]. pose proof HR as [[l HI] R1 R2 R3 R4 R5 R6 R7 R8 R9 R10].
  assert (refs A b = 2) as E2 by (unfold refs; by rewrite !decide_True).
  eexists. split; [done|]. split; [|intros; by apply handle_upd].
  apply (refines_upd s A); cbn [set_refcnt blockno bdev valid bdata refcnt blocked]; rewrite ?B; try done.
  - exists l. apply BInv_touch; try done; cbn; rewrite Rf, E2, wrap_small by lia; lia.
  - rewrite Rf, E2, wrap_small by lia. unfold refs. cbn [unpin a_pinned a_held].
    rewrite (decide_False (P := b ∈ but b _)) by (rewrite elem_of_but; tauto).
    rewrite (decide_True (P := b ∈ a_held A)) by done. lia.
  - intros b' N. cbn. split; [done|]. split; [|done].
    unfold refs. cbn [unpin a_pinned a_held]. f_equal.
    repeat case_decide; try done; rewrite elem_of_but in *; tauto.
  - intros b' Hb'. cbn in *. rewrite elem_of_but. destruct (decide (b' = b)) as [->|N]; [tauto|].
    destruct (R4 b' Hb'); tauto.
  - intros b' N. cbn. rewrite elem_of_but. tauto.
  - cbn. split; [|tauto]. unfold but. apply list.NoDup_filter. tauto.
Qed.

Lemma disk_link_all l s : disk (link_all l s) = disk s /\ dwrites (link_all l s) = dwrites s.
Proof. revert s. induction l as [|x l IH]; intros s; [done|]. cbn [link_all]. exact (IH (push_front x s)). Qed.

Lemma refines_binit d : refines (binit d) (mkA d d [] [] [] []).
Proof.
  split; cbn [a_dat a_disk a_dirty a_pinned a_held a_trace].
  - eexists. apply BInv_binit.
  - intros i _. right. by rewrite getb_binit.
  - intros i _. by rewrite getb_binit.
  - done.
  - set_solver.
  - set_solver.
  - intros i _. by rewrite getb_binit.
  - intros i _. rewrite getb_binit. cbn. split; [done|]. unfold ROOTDEV. lia.
  - split; constructor.
  - intros b. unfold binit. by rewrite (proj1 (disk_link_all _ _)).
  - unfold binit. by rewrite (proj2 (disk_link_all _ _)).
Qed.

(** [bio.c] keeps the contract. *)
#[export] Instance bio_cache : CacheSpec refines handle.
Proof.
  split.
  - apply refines_binit.
  - by intros s A [].
  - apply refines_bread.
  - apply refines_store.
  - apply refines_bwrite.
  - apply refines_brelse.
  - apply refines_bpin.
  - apply refines_bunpin.
  - intros s A b i HR Hb Hh. by apply (held_buffer s A b i).
  - by intros s b i [_ [_ ?]].
Qed.
