(* ===== verification/Log.v ===== *)
(** * The write-ahead log: [kernel/log.c]

    [write_log], [write_head], [install_trans] and [recover_from_log] run over
    the buffer cache of [Bio]; their theorems use only its contract
    ([CacheSpec]).  A crash may stop the machine between any two disk writes:
    the disk then holds the effect of a prefix of them, and the cache is lost.
    A block is a list of words, so that [struct logheader] is word 0 ([n])
    followed by the words [block\[\]]. *)

From S2P Require Import Prelude Mlfq Bio Cache.

Definition MAXOPBLOCKS : Z := 10.
Definition LOGBLOCKS : Z := MAXOPBLOCKS * 3.

(** ** Transactions on disk *)

(** [hb->n = n; for (i = 0; i < n; i++) hb->block\[i\] = block\[i\];] *)
Fixpoint put_blocks (i : nat) (bl : list Z) (d : block) : block :=
  match bl with
  | [] => d
  | b :: bl' => put_blocks (S i) bl' (<[S i := b]> d)
  end.
Definition put_header (bl : list Z) (d : block) : block :=
  put_blocks 0 bl (<[0%nat := Z.of_nat (length bl)]> d).

(** One iteration of [write_log]: cache block to log block. *)
Definition write_log_one (start : Z) (tail : nat) (b : Z) : B unit :=
  to ← bread ROOTDEV (start + Z.of_nat tail + 1);
  from ← bread ROOTDEV b;
  d ← gets (fun s => bdata (getb s from));
  _ ← modify (upd_buf to (set_bdata d));
  _ ← bwrite to;
  _ ← brelse from;
  brelse to.

(** [write_log] from entry [tail] of the header on. *)
Fixpoint write_log (start : Z) (tail : nat) (bl : list Z) : B unit :=
  match bl with
  | [] => mret tt
  | b :: bl' => _ ← write_log_one start tail b; write_log start (S tail) bl'
  end.

(** One iteration of [install_trans]: log block to home block. *)
Definition install_one (recovering : bool) (start : Z) (tail : nat) (b : Z) : B unit :=
  lbuf ← bread ROOTDEV (start + Z.of_nat tail + 1);
  dbuf ← bread ROOTDEV b;
  d ← gets (fun s => bdata (getb s lbuf));
  _ ← modify (upd_buf dbuf (set_bdata d));
  _ ← bwrite dbuf;
  _ ← (if recovering then mret tt else bunpin dbuf);
  _ ← brelse lbuf;
  brelse dbuf.

Fixpoint install_trans (recovering : bool) (start : Z) (tail : nat) (bl : list Z) : B unit :=
  match bl with
  | [] => mret tt
  | b :: bl' => _ ← install_one recovering start tail b; install_trans recovering start (S tail) bl'
  end.

(** [write_head] with [log.lh] holding the blocks [bl]. *)
Definition write_head (start : Z) (bl : list Z) : B unit :=
  i ← bread ROOTDEV start;
  _ ← modify (fun s => upd_buf i (set_bdata (put_header bl (bdata (getb s i)))) s);
  _ ← bwrite i;
  brelse i.

(** [read_head]: the blocks of the on-disk header; more than [LOGBLOCKS] of them
    would be written past the end of [log.lh.block]. *)
Definition read_head (start : Z) : B (list Z) :=
  i ← bread ROOTDEV start;
  d ← gets (fun s => bdata (getb s i));
  let n := i32 (nth 0 d 0) in
  if LOGBLOCKS <? n then undef "read_head: lh.block overflow"
  else _ ← brelse i; mret (take (Z.to_nat n) (drop 1 d)).

Definition recover_from_log (start : Z) : B unit :=
  bl ← read_head start;
  _ ← install_trans true start 0 bl;
  write_head start [].

(** [commit] with [log.lh] holding the blocks [bl]. *)
Definition commit (start : Z) (bl : list Z) : B unit :=
  match bl with
  | [] => mret tt
  | _ =>
    _ ← write_log start 0 bl;
    _ ← write_head start bl;
    _ ← install_trans false start 0 bl;
    write_head start []
  end.

(** ** Disk contents *)

Definition apply_writes (d : Z -> block) (ws : list (Z * block)) : Z -> block :=
  fold_left (fun d w => zset d (fst w) (snd w)) ws d.

Lemma apply_app d ws1 ws2 : apply_writes d (ws1 ++ ws2) = apply_writes (apply_writes d ws1) ws2.
Proof. apply fold_left_app. Qed.

Lemma apply_other d ws b : b ∉ ws.*1 -> apply_writes d ws b = d b.
Proof.
  revert d. induction ws as [|[x v] ws IH]; intros d H; [done|].
  change (apply_writes d ((x, v) :: ws) b) with (apply_writes (zset d x v) ws b).
  apply not_elem_of_cons in H as [Hx H]. cbn in Hx. rewrite IH by done. by apply zset_ne.
Qed.

Lemma length_put_blocks i bl d : length (put_blocks i bl d) = length d.
Proof.
  revert i d. induction bl as [|b bl IH]; intros i d; cbn [put_blocks]; [done|].
  by rewrite IH, length_insert.
Qed.

Lemma length_put_header bl d : length (put_header bl d) = length d.
Proof. unfold put_header. by rewrite length_put_blocks, length_insert. Qed.

Lemma put_blocks_low i bl d j : (j <= i)%nat -> nth j (put_blocks i bl d) 0 = nth j d 0.
Proof.
  revert i d. induction bl as [|b bl IH]; intros i d Hj; cbn [put_blocks]; [done|].
  rewrite IH by lia. apply nth_insert_ne. lia.
Qed.

Lemma put_blocks_get i bl d j b :
  (i + length bl < length d)%nat -> bl !! j = Some b ->
  nth (S (i + j)) (put_blocks i bl d) 0 = b.
Proof.
  revert i d j. induction bl as [|x bl IH]; intros i d j Hl Hj; cbn [put_blocks]; [done|].
  cbn [length] in Hl.
  destruct j as [|j].
  - cbn in Hj. injection Hj as ->. rewrite put_blocks_low by lia. rewrite Nat.add_0_r.
    apply nth_insert_eq. lia.
  - replace (i + S j)%nat with (S i + j)%nat by lia. apply IH; [rewrite length_insert; lia|done].
Qed.

Lemma take_put_header bl d :
  (length bl < length d)%nat -> take (length bl) (drop 1 (put_header bl d)) = bl.
Proof.
  intros Hl. apply list_eq_same_length with (length bl); [done|..].
  - rewrite length_take, length_drop, length_put_header. lia.
  - intros j x y Hj Hx Hy. rewrite lookup_take, decide_True, lookup_drop in Hx by done.
    apply (nth_lookup_Some _ _ 0) in Hx. unfold put_header in Hx.
    rewrite (put_blocks_get 0 bl _ j y) in Hx; [done|rewrite length_insert; lia|done].
Qed.

Lemma header_n bl d : (0 < length d)%nat -> nth 0 (put_header bl d) 0 = Z.of_nat (length bl).
Proof. intros H. unfold put_header. rewrite put_blocks_low by lia. by apply nth_insert_eq. Qed.

(** ** The log's operations in terms of the cache contract *)

Section Steps.
Context {view : bstate -> acache -> Prop} {handle : bstate -> Z -> nat -> Prop}.
Context `{CS : !CacheSpec view handle}.

(** Block [b] is written through to disk with contents [d]. *)
Definition wrote (b : Z) (d : block) (A : acache) : acache :=
  mkA (zset (a_dat A) b d) (zset (a_disk A) b d) (but b (a_dirty A)) (a_pinned A) (a_held A)
    (a_trace A ++ [(b, d)]).

Lemma but_cons_eq b l : but b (b :: l) = but b l.
Proof. unfold but. by rewrite filter_cons, decide_False by tauto. Qed.
Lemma but_cons_ne b x l : x <> b -> but b (x :: l) = x :: but b l.
Proof. intros H. unfold but. by rewrite filter_cons, decide_True by done. Qed.

(** A read-modify-write of block [b], alone or with a second block held. *)
Lemma wrote_eq b d A :
  flush b (store b d A) = wrote b d A.
Proof.
  unfold flush, store, wrote. cbn. by rewrite zset_eq, but_cons_eq.
Qed.

Lemma write_log_one_run s A start tail b :
  let to := start + Z.of_nat tail + 1 in
  view s A -> a_held A = [] -> to <> b -> (length (a_pinned A) + 1 < NBUF)%nat ->
  (b ∈ a_dirty A -> b ∈ a_pinned A) ->
  exists s', write_log_one start tail b s = Ret (tt, s') /\ view s' (wrote to (a_dat A b) A).
Proof.
  intros to Hv Hh Hne Hl Hd. unfold write_log_one. fold to.
  destruct (cs_bread s A to Hv) as (i & s1 & E1 & V1 & H1 & _ & _);
    [rewrite Hh; set_solver|rewrite Hh; cbn; lia|].
  rewrite (M_bind_Ret _ _ _ _ _ E1).
  destruct (cs_bread s1 (hold to A) b V1) as (j & s2 & E2 & V2 & H2 & D2 & K2);
    [cbn; rewrite Hh; set_solver|cbn; rewrite Hh; cbn; lia|].
  rewrite (M_bind_Ret _ _ _ _ _ E2). rewrite (M_bind_Ret _ _ s2 (a_dat A b) s2) by (unfold gets; by rewrite D2).
  specialize (K2 to i ltac:(cbn; set_solver) H1).
  destruct (cs_store s2 _ to i (a_dat A b) V2) as [V3 K3]; [cbn; set_solver|done|].
  set (s3 := upd_buf i _ s2) in *. rewrite (M_bind_Ret _ _ s2 tt s3) by done.
  destruct (cs_bwrite s3 _ to i V3) as (s4 & E4 & V4 & K4); [cbn; set_solver|auto|].
  rewrite (M_bind_Ret _ _ _ _ _ E4). rewrite wrote_eq in V4.
  destruct (cs_brelse s4 _ b j V4) as (s5 & E5 & V5 & K5);
    [cbn; set_solver|auto|cbn; rewrite elem_of_but; tauto|].
  rewrite (M_bind_Ret _ _ _ _ _ E5).
  destruct (cs_brelse s5 _ to i V5) as (s6 & E6 & V6 & K6).
  { cbn. rewrite but_cons_eq. rewrite but_cons_ne by done. set_solver. }
  { auto. }
  { cbn. rewrite elem_of_but. tauto. }
  exists s6. split; [done|]. revert V6. unfold unhold, wrote, hold. cbn. rewrite Hh.
  rewrite but_cons_eq, but_cons_ne by done. cbn. by rewrite but_cons_eq.
Qed.

Lemma install_one_run s A recovering start tail b :
  let lb := start + Z.of_nat tail + 1 in
  view s A -> a_held A = [] -> lb <> b -> (length (a_pinned A) + 1 < NBUF)%nat ->
  lb ∉ a_dirty A -> (recovering = false -> b ∈ a_pinned A) ->
  exists s', install_one recovering start tail b s = Ret (tt, s') /\
    view s' (if recovering then wrote b (a_dat A lb) A else unpin b (wrote b (a_dat A lb) A)).
Proof.
  intros lb Hv Hh Hne Hl Hd Hp. unfold install_one. fold lb.
  destruct (cs_bread s A lb Hv) as (i & s1 & E1 & V1 & H1 & _ & _);
    [rewrite Hh; set_solver|rewrite Hh; cbn; lia|].
  rewrite (M_bind_Ret _ _ _ _ _ E1).
  destruct (cs_bread s1 (hold lb A) b V1) as (j & s2 & E2 & V2 & H2 & _ & K2);
    [cbn; rewrite Hh; set_solver|cbn; rewrite Hh; cbn; lia|].
  rewrite (M_bind_Ret _ _ _ _ _ E2).
  specialize (K2 lb i ltac:(cbn; set_solver) H1).
  assert (bdata (getb s2 i) = a_dat A lb) as D2
    by (apply (cs_data s2 _ lb i V2); [cbn; set_solver|done]).
  rewrite (M_bind_Ret _ _ s2 (a_dat A lb) s2) by (unfold gets; by rewrite D2).
  destruct (cs_store s2 _ b j (a_dat A lb) V2) as [V3 K3]; [cbn; set_solver|done|].
  set (s3 := upd_buf j _ s2) in *. rewrite (M_bind_Ret _ _ s2 tt s3) by done.
  destruct (cs_bwrite s3 _ b j V3) as (s4 & E4 & V4 & K4); [cbn; set_solver|auto|].
  rewrite (M_bind_Ret _ _ _ _ _ E4). rewrite wrote_eq in V4.
  set (A4 := wrote b (a_dat A lb) (hold b (hold lb A))) in *.
  assert (exists s5 A5, (if recovering then mret tt else bunpin j) s4 = Ret (tt, s5) /\
    view s5 A5 /\ A5 = (if recovering then A4 else unpin b A4) /\
    (forall b' k, handle s4 b' k -> handle s5 b' k)) as (s5 & A5 & E5 & V5 & EA & K5).
  { destruct recovering; [by exists s4, A4|].
    destruct (cs_bunpin s4 A4 b j V4) as (s5 & ? & ? & ?);
      [cbn; set_solver|by apply Hp|auto|]. by exists s5, (unpin b A4). }
  rewrite (M_bind_Ret _ _ _ _ _ E5).
  assert (a_held A5 = [b; lb] /\ a_dirty A5 = but b (a_dirty A)) as [Hh5 Hd5]
    by (subst A5; destruct recovering; cbn; by rewrite Hh).
  destruct (cs_brelse s5 A5 lb i V5) as (s6 & E6 & V6 & K6);
    [rewrite Hh5; set_solver|auto|rewrite Hd5, elem_of_but; tauto|].
  rewrite (M_bind_Ret _ _ _ _ _ E6).
  destruct (cs_brelse s6 _ b j V6) as (s7 & E7 & V7 & K7).
  { cbn. rewrite Hh5. rewrite but_cons_ne by congruence. set_solver. }
  { auto 7. }
  { cbn. rewrite Hd5, elem_of_but. tauto. }
  exists s7. split; [done|]. revert V7. subst A5. unfold A4, unhold, unpin, wrote, hold.
  destruct recovering; cbn; rewrite Hh, (but_cons_ne lb b), but_cons_eq by congruence;
    cbn; by rewrite but_cons_eq.
Qed.

Lemma write_head_run s A start bl :
  view s A -> a_held A = [] -> (length (a_pinned A) < NBUF)%nat ->
  exists s', write_head start bl s = Ret (tt, s') /\
    view s' (wrote start (put_header bl (a_dat A start)) A).
Proof.
  intros Hv Hh Hl. unfold write_head.
  destruct (cs_bread s A start Hv) as (i & s1 & E1 & V1 & H1 & D1 & _);
    [rewrite Hh; set_solver|rewrite Hh; cbn; lia|].
  rewrite (M_bind_Ret _ _ _ _ _ E1).
  set (d := put_header bl (a_dat A start)).
  rewrite (M_bind_Ret _ _ s1 tt (upd_buf i (set_bdata d) s1)) by (unfold modify; by rewrite D1).
  destruct (cs_store s1 _ start i d V1) as [V2 K2]; [cbn; set_solver|done|].
  destruct (cs_bwrite _ _ start i V2) as (s3 & E3 & V3 & K3); [cbn; set_solver|auto|].
  rewrite (M_bind_Ret _ _ _ _ _ E3). rewrite wrote_eq in V3.
  destruct (cs_brelse s3 _ start i V3) as (s4 & E4 & V4 & _);
    [cbn; set_solver|auto|cbn; rewrite elem_of_but; tauto|].
  exists s4. split; [done|]. revert V4. unfold unhold, wrote, hold. cbn. rewrite Hh.
  by rewrite but_cons_eq.
Qed.

Lemma read_head_run s A start :
  view s A -> a_held A = [] -> (length (a_pinned A) < NBUF)%nat -> start ∉ a_dirty A ->
  i32 (nth 0 (a_dat A start) 0) <= LOGBLOCKS ->
  exists s', read_head start s =
      Ret (take (Z.to_nat (i32 (nth 0 (a_dat A start) 0))) (drop 1 (a_dat A start)), s') /\ view s' A.
Proof.
  intros Hv Hh Hl Hd Hn. unfold read_head.
  destruct (cs_bread s A start Hv) as (i & s1 & E1 & V1 & H1 & D1 & _);
    [rewrite Hh; set_solver|rewrite Hh; cbn; lia|].
  rewrite (M_bind_Ret _ _ _ _ _ E1).
  rewrite (M_bind_Ret _ _ s1 (a_dat A start) s1) by (unfold gets; by rewrite D1).
  destruct (Z.ltb_spec LOGBLOCKS (i32 (nth 0 (a_dat A start) 0))); [lia|].
  destruct (cs_brelse s1 _ start i V1) as (s2 & E2 & V2 & _); [cbn; set_solver|done|cbn; done|].
  rewrite (M_bind_Ret _ _ _ _ _ E2). exists s2. split; [done|].
  revert V2. unfold unhold, hold. cbn. rewrite Hh, but_cons_eq. change (but start []) with (@nil Z).
  rewrite <- Hh at 1. by destruct A.
Qed.
End Steps.

(** ** Sequences of writes *)

(** Blocks of the log: the header and [LOGBLOCKS] data blocks. *)
Definition log_area (start b : Z) : Prop := start <= b <= start + LOGBLOCKS.

Fixpoint log_writes (start : Z) (tail : nat) (D : Z -> block) (bl : list Z) : list (Z * block) :=
  match bl with
  | [] => []
  | b :: bl' => (start + Z.of_nat tail + 1, D b) :: log_writes start (S tail) D bl'
  end.

Fixpoint home_writes (start : Z) (tail : nat) (D : Z -> block) (bl : list Z) : list (Z * block) :=
  match bl with
  | [] => []
  | b :: bl' => (b, D (start + Z.of_nat tail + 1)) :: home_writes start (S tail) D bl'
  end.

(** [A'] is [A] after the writes [W], nothing held. *)
Record after (A : acache) (W : list (Z * block)) (A' : acache) : Prop := {
  af_held : a_held A' = [];
  af_dat : forall b, a_dat A' b = apply_writes (a_dat A) W b;
  af_disk : forall b, a_disk A' b = apply_writes (a_disk A) W b;
  af_trace : a_trace A' = a_trace A ++ W;
  af_dirty : forall b, b ∈ a_dirty A' <-> b ∈ a_dirty A /\ b ∉ W.*1
}.

Lemma apply_ext d d' ws b : d b = d' b -> apply_writes d ws b = apply_writes d' ws b.
Proof.
  revert d d'. induction ws as [|[x v] ws IH]; intros d d' H; [done|].
  apply (IH (zset d x v) (zset d' x v)). unfold zset. by destruct (b =? x).
Qed.

Lemma after_refl A : a_held A = [] -> after A [] A.
Proof. intros H. split; try done; [by rewrite app_nil_r|]. intros b. set_solver. Qed.

Lemma after_trans A W1 A1 W2 A2 : after A W1 A1 -> after A1 W2 A2 -> after A (W1 ++ W2) A2.
Proof.
  intros [H1 H2 H3 H4 H5] [K1 K2 K3 K4 K5]. split; [done|..].
  - intros b. rewrite K2, apply_app. by apply apply_ext.
  - intros b. rewrite K3, apply_app. by apply apply_ext.
  - by rewrite K4, H4, app_assoc.
  - intros b. rewrite K5, H5, fmap_app, elem_of_app. tauto.
Qed.

Lemma after_wrote A b d : a_held A = [] -> after A [(b, d)] (wrote b d A).
Proof.
  intros H. split; try done. intros b'. cbn. rewrite elem_of_but. set_solver.
Qed.

Lemma after_unpin A b d : a_held A = [] -> after A [(b, d)] (unpin b (wrote b d A)).
Proof.
  intros H. split; try done. intros b'. cbn. rewrite elem_of_but. set_solver.
Qed.

Lemma log_writes_ext start tail D D' bl :
  (forall b, b ∈ bl -> D b = D' b) -> log_writes start tail D bl = log_writes start tail D' bl.
Proof.
  revert tail. induction bl as [|b bl IH]; intros tail H; [done|]. cbn [log_writes].
  rewrite H by set_solver. f_equal. apply IH. set_solver.
Qed.

Lemma home_writes_ext start tail D D' bl :
  (forall t, (tail <= t < tail + length bl)%nat ->
     D (start + Z.of_nat t + 1) = D' (start + Z.of_nat t + 1)) ->
  home_writes start tail D bl = home_writes start tail D' bl.
Proof.
  revert tail. induction bl as [|b bl IH]; intros tail H; [done|]. cbn [home_writes].
  rewrite H by (cbn; lia). f_equal. apply IH. intros t Ht. apply H. cbn. lia.
Qed.

Lemma log_writes_keys start tail D bl b :
  b ∈ (log_writes start tail D bl).*1 ->
  exists t, (tail <= t < tail + length bl)%nat /\ b = start + Z.of_nat t + 1.
Proof.
  revert tail. induction bl as [|x bl IH]; intros tail; cbn [log_writes fmap list_fmap]; [set_solver|].
  intros [->|H]%elem_of_cons; [exists tail; cbn; split; [lia|done]|].
  destruct (IH (S tail) H) as (t & Ht & ->). exists t. cbn. split; [lia|done].
Qed.

Lemma home_writes_keys start tail D bl : (home_writes start tail D bl).*1 = bl.
Proof. revert tail. induction bl as [|x bl IH]; intros tail; [done|]. cbn. by rewrite IH. Qed.

Section Runs.
Context {view : bstate -> acache -> Prop} {handle : bstate -> Z -> nat -> Prop}.
Context `{CS : !CacheSpec view handle}.

Lemma write_log_run start bl tail s A :
  view s A -> a_held A = [] -> (length (a_pinned A) + 1 < NBUF)%nat ->
  (tail + length bl <= Z.to_nat LOGBLOCKS)%nat ->
  (forall b, b ∈ bl -> ~ log_area start b /\ b ∈ a_pinned A) ->
  exists s' A', write_log start tail bl s = Ret (tt, s') /\ view s' A' /\
    after A (log_writes start tail (a_dat A) bl) A' /\ a_pinned A' = a_pinned A.
Proof.
  revert tail s A. induction bl as [|b bl IH]; intros tail s A Hv Hh Hl Ht Hb.
  { exists s, A. split; [done|]. split; [done|]. split; [by apply after_refl|done]. }
  cbn [write_log length] in *. destruct (Hb b ltac:(set_solver)) as [Hnb Hpb].
  destruct (write_log_one_run s A start tail b) as (s1 & E1 & V1); try done.
  { unfold log_area in Hnb. lia. }
  rewrite (M_bind_Ret _ _ _ _ _ E1).
  destruct (IH (S tail) s1 _ V1) as (s2 & A2 & E2 & V2 & F2 & P2); try done.
  { lia. }
  { intros x Hx. apply Hb. set_solver. }
  exists s2, A2. split; [done|]. split; [done|]. split; [|done].
  cbn [log_writes].
  rewrite (log_writes_ext start (S tail) (a_dat A)
    (a_dat (wrote (start + Z.of_nat tail + 1) (a_dat A b) A))).
  - apply (after_trans A [_] _ _ A2 (after_wrote A _ _ Hh) F2).
  - intros x Hx. cbn. rewrite zset_ne; [done|].
    destruct (Hb x ltac:(set_solver)) as [Hnx _]. unfold log_area in Hnx. lia.
Qed.

Lemma install_run start recovering bl tail s A :
  view s A -> a_held A = [] -> (length (a_pinned A) + 1 < NBUF)%nat -> NoDup bl ->
  (tail + length bl <= Z.to_nat LOGBLOCKS)%nat ->
  (forall b, b ∈ bl -> ~ log_area start b) -> (forall b, b ∈ a_dirty A -> ~ log_area start b) ->
  (recovering = false -> forall b, b ∈ bl -> b ∈ a_pinned A) ->
  exists s' A', install_trans recovering start tail bl s = Ret (tt, s') /\ view s' A' /\
    after A (home_writes start tail (a_dat A) bl) A' /\
    (length (a_pinned A') <= length (a_pinned A))%nat /\
    (forall x, x ∈ a_pinned A' <-> x ∈ a_pinned A /\ (recovering = false -> x ∉ bl)).
Proof.
  revert tail s A. induction bl as [|b bl IH]; intros tail s A Hv Hh Hl Hnd Ht Hb Hd Hp.
  { exists s, A. split; [done|]. split; [done|]. split; [by apply after_refl|]. split; [done|].
    intros x. split; [|tauto]. intros Hx. split; [done|]. intros _ ?%elem_of_nil. done. }
  cbn [install_trans length] in *. pose proof (Hb b ltac:(set_solver)) as Hnb.
  apply list.NoDup_cons in Hnd as [Hbb Hnd].
  assert (log_area start (start + Z.of_nat tail + 1)) as Hla
    by (unfold log_area, LOGBLOCKS, MAXOPBLOCKS in *; lia).
  destruct (install_one_run s A recovering start tail b) as (s1 & E1 & V1); try done.
  { unfold log_area in *. lia. }
  { intros Hx. by apply (Hd _ Hx). }
  { intros Hr. apply Hp; [done|set_solver]. }
  rewrite (M_bind_Ret _ _ _ _ _ E1). set (A1 := if recovering then _ else _) in V1.
  assert (after A [(b, a_dat A (start + Z.of_nat tail + 1))] A1) as F1
    by (unfold A1; destruct recovering; [by apply after_wrote|by apply after_unpin]).
  assert (length (a_pinned A1) <= length (a_pinned A))%nat as L1.
  { unfold A1; destruct recovering; [done|]. cbn. unfold but. apply length_filter. }
  assert (forall x, x ∈ a_pinned A1 <-> x ∈ a_pinned A /\ (recovering = false -> x <> b)) as K1.
  { intros x. unfold A1. destruct recovering; cbn; [naive_solver|]. rewrite elem_of_but. naive_solver. }
  destruct (IH (S tail) s1 A1 V1) as (s2 & A2 & E2 & V2 & F2 & P2 & K2); try done.
  { apply F1. } { lia. } { lia. }
  { intros x Hx. apply Hb. set_solver. }
  { intros x Hx. apply (af_dirty _ _ _ F1) in Hx as [Hx _]. by apply Hd. }
  { intros -> x Hx. unfold A1. cbn. apply elem_of_but. split; [apply Hp; set_solver|set_solver]. }
  exists s2, A2. split; [done|]. split; [done|].
  split; [|split; [lia|intros x; rewrite K2, K1, not_elem_of_cons; tauto]]. cbn [home_writes].
  rewrite (home_writes_ext start (S tail) (a_dat A) (a_dat A1)).
  - apply (after_trans A [_] A1 _ A2 F1 F2).
  - intros t Htt. rewrite (af_dat _ _ _ F1). rewrite apply_other; [done|].
    cbn. intros Hx%list_elem_of_singleton. apply Hnb. rewrite <- Hx.
    unfold log_area, LOGBLOCKS, MAXOPBLOCKS in *. lia.
Qed.
End Runs.

Lemma apply_log_writes d start tail D bl t b :
  bl !! t = Some b ->
  apply_writes d (log_writes start tail D bl) (start + Z.of_nat (tail + t) + 1) = D b.
Proof.
  revert d tail t. induction bl as [|x bl IH]; intros d tail t Ht; [done|].
  cbn [log_writes]. change (apply_writes d (?w :: ?ws)) with (apply_writes (zset d (fst w) (snd w)) ws).
  destruct t as [|t].
  - injection Ht as ->. rewrite Nat.add_0_r, apply_other; [cbn; by rewrite zset_eq|].
    intros (t' & Ht' & E)%log_writes_keys. lia.
  - rewrite Nat.add_succ_r. rewrite <- Nat.add_succ_l. by apply IH.
Qed.

Lemma apply_homes d D bl b :
  b ∈ bl -> apply_writes d ((fun b => (b, D b)) <$> bl) b = D b.
Proof.
  revert d. induction bl as [|x bl IH]; intros d Hb; [set_solver|].
  change (apply_writes d _) with (apply_writes (zset d x (D x)) ((fun b => (b, D b)) <$> bl)).
  destruct (decide (b ∈ bl)) as [Hin|Hn]; [by apply IH|].
  apply elem_of_cons in Hb as [->|?]; [|done]. rewrite apply_other; [by rewrite zset_eq|].
  rewrite <- list_fmap_compose. intros (y & -> & Hy)%list_elem_of_fmap. done.
Qed.

Lemma keys_homes (D : Z -> block) bl : (((fun b => (b, D b)) <$> bl) : list (Z * block)).*1 = bl.
Proof. induction bl as [|x bl IH]; [done|]. cbn. by f_equal. Qed.

Lemma home_writes_map start tail D D' bl :
  (forall t b, bl !! t = Some b -> D' (start + Z.of_nat (tail + t) + 1) = D b) ->
  home_writes start tail D' bl = (fun b => (b, D b)) <$> bl.
Proof.
  revert tail. induction bl as [|b bl IH]; intros tail H; [done|]. cbn [home_writes fmap list_fmap].
  pose proof (H 0%nat b eq_refl) as H0. rewrite Nat.add_0_r in H0. rewrite H0. f_equal.
  apply IH. intros t x Ht. specialize (H (S t) x Ht). by rewrite Nat.add_succ_r in H.
Qed.

(** The disk writes of a commit of the blocks [bl] with contents [D]. *)
Definition commit_trace (start : Z) (D : Z -> block) (bl : list Z) : list (Z * block) :=
  log_writes start 0 D bl ++ [(start, put_header bl (D start))] ++
  ((fun b => (b, D b)) <$> bl) ++ [(start, put_header [] (put_header bl (D start)))].

(** The disk writes of a recovery from disk [d] with logged blocks [bl]. *)
Definition recover_trace (start : Z) (d : Z -> block) (bl : list Z) : list (Z * block) :=
  home_writes start 0 d bl ++ [(start, put_header [] (d start))].

(** The logged blocks fit the log and have their home elsewhere. *)
Definition logged_ok (start : Z) (bl : list Z) : Prop :=
  NoDup bl /\ (length bl <= Z.to_nat LOGBLOCKS)%nat /\ forall b, b ∈ bl -> ~ log_area start b.

Lemma start_not_log_key start tail D bl : start ∉ (log_writes start tail D bl).*1.
Proof. intros (t & _ & E)%log_writes_keys. lia. Qed.

Lemma start_in_area start : log_area start start.
Proof. unfold log_area, LOGBLOCKS, MAXOPBLOCKS. lia. Qed.

Section Transactions.
Context {view : bstate -> acache -> Prop} {handle : bstate -> Z -> nat -> Prop}.
Context `{CS : !CacheSpec view handle}.

Lemma commit_run start bl s A :
  view s A -> a_held A = [] -> (length (a_pinned A) + 1 < NBUF)%nat -> logged_ok start bl ->
  bl <> [] -> (forall b, b ∈ bl -> b ∈ a_pinned A) -> (forall b, b ∈ a_dirty A -> b ∈ bl) ->
  exists s' A', commit start bl s = Ret (tt, s') /\ view s' A' /\
    after A (commit_trace start (a_dat A) bl) A' /\
    (forall x, x ∈ a_pinned A' <-> x ∈ a_pinned A /\ x ∉ bl).
Proof.
  intros Hv Hh Hl (Hnd & Hlen & Hna) Hne Hp Hd. set (D := a_dat A).
  assert (forall b, b ∈ bl -> b <> start) as Hns.
  { intros b Hb ->. apply (Hna start Hb), start_in_area. }
  destruct (write_log_run start bl 0 s A Hv Hh Hl) as (s1 & A1 & E1 & V1 & F1 & P1); [lia|auto|].
  pose proof (af_held _ _ _ F1) as Hh1.
  assert (a_dat A1 start = D start) as S1
    by (rewrite (af_dat _ _ _ F1); apply apply_other, start_not_log_key).
  destruct (write_head_run s1 A1 start bl V1 Hh1) as (s2 & E2 & V2); [rewrite P1; lia|].
  set (A2 := wrote start (put_header bl (a_dat A1 start)) A1) in *.
  assert (after A1 [(start, put_header bl (D start))] A2) as F2
    by (rewrite <- S1; by apply after_wrote).
  pose proof (after_trans _ _ _ _ _ F1 F2) as F12.
  destruct (install_run start false bl 0 s2 A2 V2) as (s3 & A3 & E3 & V3 & F3 & P3 & K3); try done.
  { cbn. rewrite P1. lia. }
  { intros b Hb. apply (af_dirty _ _ _ F12) in Hb as [Hb _]. auto. }
  { intros _ b Hb. cbn. rewrite P1. auto. }
  rewrite (home_writes_map start 0 D (a_dat A2)) in F3.
  2:{ intros t b Ht. rewrite (af_dat _ _ _ F12), apply_app.
      rewrite apply_other; [by apply apply_log_writes|].
      cbn. intros E%list_elem_of_singleton. lia. }
  pose proof (af_held _ _ _ F3) as Hh3.
  assert (a_dat A3 start = put_header bl (D start)) as S3.
  { rewrite (af_dat _ _ _ F3), apply_other.
    - cbn. rewrite zset_eq. by rewrite S1.
    - rewrite keys_homes. intros Hs. by apply (Hns start). }
  destruct (write_head_run s3 A3 start [] V3 Hh3) as (s4 & E4 & V4).
  { cbn in P3. rewrite P1 in P3. lia. }
  rewrite S3 in V4.
  exists s4, (wrote start (put_header [] (put_header bl (D start))) A3).
  split; [|split; [done|split]].
  - unfold commit. destruct bl; [done|]. rewrite (M_bind_Ret _ _ _ _ _ E1).
    rewrite (M_bind_Ret _ _ _ _ _ E2). by rewrite (M_bind_Ret _ _ _ _ _ E3).
  - unfold commit_trace. rewrite !app_assoc. apply (after_trans _ _ A3).
    + by apply (after_trans _ _ A2).
    + by apply after_wrote.
  - intros x. cbn. rewrite K3. cbn. rewrite P1. tauto.
Qed.

Lemma recover_run start bl s A :
  view s A -> a_held A = [] -> a_pinned A = [] -> a_dirty A = [] -> logged_ok start bl ->
  nth 0 (a_dat A start) 0 = Z.of_nat (length bl) ->
  take (length bl) (drop 1 (a_dat A start)) = bl ->
  exists s' A', recover_from_log start s = Ret (tt, s') /\ view s' A' /\
    after A (recover_trace start (a_dat A) bl) A' /\ a_pinned A' = [].
Proof.
  intros Hv Hh Hp Hd (Hnd & Hlen & Hna) Hn Hbl. unfold recover_from_log.
  assert (i32 (nth 0 (a_dat A start) 0) = Z.of_nat (length bl)) as Hi.
  { rewrite Hn. apply swrap_small; [lia|]. unfold LOGBLOCKS, MAXOPBLOCKS in Hlen. lia. }
  destruct (read_head_run s A start Hv Hh) as (s1 & E1 & V1).
  { rewrite Hp. cbn. unfold NBUF. lia. } { rewrite Hd. set_solver. }
  { rewrite Hi. unfold LOGBLOCKS, MAXOPBLOCKS in *. lia. }
  rewrite Hi, Nat2Z.id, Hbl in E1. rewrite (M_bind_Ret _ _ _ _ _ E1).
  destruct (install_run start true bl 0 s1 A V1) as (s2 & A2 & E2 & V2 & F2 & P2 & K2); try done.
  { rewrite Hp. cbn. unfold NBUF. lia. } { rewrite Hd. set_solver. }
  rewrite (M_bind_Ret _ _ _ _ _ E2).
  destruct (write_head_run s2 A2 start [] V2 (af_held _ _ _ F2)) as (s3 & E3 & V3).
  { rewrite Hp in P2. cbn in P2. unfold NBUF. lia. }
  assert (a_dat A2 start = a_dat A start) as S2.
  { rewrite (af_dat _ _ _ F2). apply apply_other. rewrite home_writes_keys. intros Hs.
    apply (Hna start Hs), start_in_area. }
  rewrite S2 in V3. exists s3, (wrote start (put_header [] (a_dat A start)) A2).
  split; [done|]. split; [done|]. split.
  - unfold recover_trace. apply (after_trans _ _ A2); [done|]. apply after_wrote, F2.
  - cbn. rewrite Hp in P2. destruct (a_pinned A2); [done|]. cbn in P2. lia.
Qed.
End Transactions.

(** ** Crashes *)

(** The log is empty and the file system's blocks are [D]. *)
Definition idle (start : Z) (d D : Z -> block) : Prop :=
  nth 0 (d start) 0 = 0 /\ (Z.to_nat LOGBLOCKS < length (d start))%nat /\
  forall b, ~ log_area start b -> d b = D b.

(** A committed transaction of the blocks [bl] is in the log; once installed, the
    file system's blocks are [D]. *)
Definition committed (start : Z) (bl : list Z) (d D : Z -> block) : Prop :=
  nth 0 (d start) 0 = Z.of_nat (length bl) /\ take (length bl) (drop 1 (d start)) = bl /\
  (Z.to_nat LOGBLOCKS < length (d start))%nat /\
  (forall t b, bl !! t = Some b -> d (start + Z.of_nat t + 1) = D b) /\
  (forall b, ~ log_area start b -> b ∉ bl -> d b = D b).

Lemma put_header_nil d : put_header [] d = <[0%nat := 0]> d.
Proof. done. Qed.

Lemma take_snoc_cases {A} k (l : list A) x :
  take k (l ++ [x]) = take k l \/ take k (l ++ [x]) = l ++ [x].
Proof.
  destruct (Nat.le_gt_cases k (length l)).
  - left. apply take_app_le. done.
  - right. apply take_ge. rewrite length_app. cbn. lia.
Qed.

Lemma take_keys k (ws : list (Z * block)) b : b ∈ (take k ws).*1 -> b ∈ ws.*1.
Proof. rewrite fmap_take. intros H. apply elem_of_take in H as (i & H & _). by eapply list_elem_of_lookup_2.  Qed.

(** Writes to a part of the homes keep a committed transaction committed. *)
Lemma committed_homes start bl d D ws :
  logged_ok start bl -> (forall b v, (b, v) ∈ ws -> b ∈ bl) ->
  committed start bl d D -> committed start bl (apply_writes d ws) D.
Proof.
  intros (Hnd & Hlen & Hna) Hws (H1 & H2 & H3 & H4 & H5).
  assert (forall b, b ∈ ws.*1 -> b ∈ bl) as Hk.
  { intros b ([b' v] & -> & Hb)%list_elem_of_fmap. by eapply Hws. }
  assert (forall b, log_area start b -> apply_writes d ws b = d b) as Ha.
  { intros b Hb. apply apply_other. intros Hin. by apply (Hna b (Hk b Hin)). }
  unfold committed. rewrite !(Ha start) by apply start_in_area.
  split; [done|]. split; [done|]. split; [done|]. split.
  - intros t b Ht. rewrite Ha; [by apply H4|]. apply lookup_lt_Some in Ht.
    unfold log_area, LOGBLOCKS, MAXOPBLOCKS in *. lia.
  - intros b Hb Hn. rewrite apply_other; [by apply H5|]. auto.
Qed.

(** All homes written and the header cleared. *)
Lemma installed_idle start bl d D :
  logged_ok start bl -> committed start bl d D ->
  idle start (apply_writes d (((fun b => (b, D b)) <$> bl) ++ [(start, put_header [] (d start))])) D.
Proof.
  intros (Hnd & Hlen & Hna) (H1 & H2 & H3 & H4 & H5).
  rewrite apply_app. set (d1 := apply_writes d _).
  change (apply_writes d1 _) with (zset d1 start (put_header [] (d start))).
  split; [|split].
  - rewrite zset_eq, put_header_nil. apply nth_insert_eq. lia.
  - by rewrite zset_eq, length_put_header.
  - intros b Hb. rewrite zset_ne by (intros <-; by apply Hb, start_in_area). unfold d1.
    destruct (decide (b ∈ bl)) as [Hin|Hn]; [by apply apply_homes|].
    rewrite apply_other; [by apply H5|]. by rewrite keys_homes.
Qed.

(** A crash after any number of a commit's writes. *)
Lemma commit_prefix start bl d0 D k :
  logged_ok start bl -> idle start d0 d0 -> D start = d0 start ->
  (forall b, ~ log_area start b -> b ∉ bl -> D b = d0 b) ->
  let d := apply_writes d0 (take k (commit_trace start D bl)) in
  if (k <=? length bl)%nat then idle start d d0
  else committed start bl d D \/ idle start d D.
Proof.
  intros Hok (I1 & I2 & _) HDs HD d. pose proof Hok as (Hnd & Hlen & Hna).
  assert (length (log_writes start 0 D bl) = length bl) as Hlw.
  { clear. generalize 0%nat. induction bl as [|b bl IH]; intros n; cbn; [done|]. by rewrite IH. }
  destruct (Nat.leb_spec k (length bl)) as [Hk|Hk].
  - unfold d, commit_trace. rewrite take_app_le by lia.
    assert (forall b, ~ log_area start b \/ b = start ->
      apply_writes d0 (take k (log_writes start 0 D bl)) b = d0 b) as Ho.
    { intros b Hb. apply apply_other. intros (t & Ht & ->)%take_keys%log_writes_keys.
      destruct Hb as [Hb|?]; [|lia]. apply Hb. unfold log_area, LOGBLOCKS, MAXOPBLOCKS in *. lia. }
    unfold idle. rewrite !(Ho start) by tauto. split; [done|]. split; [done|]. intros b Hb. apply Ho. tauto.
  - unfold d, commit_trace.
    rewrite take_app_ge by lia. rewrite Hlw.
    destruct (k - length bl)%nat as [|j] eqn:Ej; [lia|].
    cbn [app take].
    set (hd := put_header bl (D start)).
    assert (committed start bl (apply_writes d0 (log_writes start 0 D bl ++ [(start, hd)])) D) as Hc.
    { rewrite apply_app. set (d1 := apply_writes d0 _).
      change (apply_writes d1 [(start, hd)]) with (zset d1 start hd).
      unfold committed. rewrite !zset_eq. unfold hd. rewrite length_put_header.
      rewrite header_n, take_put_header by (rewrite HDs; lia).
      split; [done|]. split; [done|]. split; [by rewrite HDs|]. split.
      - intros t b Ht. rewrite zset_ne by lia. by apply (apply_log_writes d0 start 0).
      - intros b Hb Hn. rewrite zset_ne by (intros <-; by apply Hb, start_in_area).
        unfold d1. rewrite apply_other; [by rewrite HD|].
        intros (t & Ht & ->)%log_writes_keys. apply Hb.
        unfold log_area, LOGBLOCKS, MAXOPBLOCKS in *. lia. }
    rewrite (cons_middle (start, hd)), app_assoc, apply_app.
    set (d1 := apply_writes d0 (log_writes start 0 D bl ++ [(start, hd)])) in *.
    assert (d1 start = hd) as Hd1.
    { unfold d1. rewrite apply_app. cbn. by rewrite zset_eq. }
    destruct (take_snoc_cases j ((fun b => (b, D b)) <$> bl) (start, put_header [] hd)) as [->| ->].
    + left. apply committed_homes; [done| |done]. intros b v Hb.
      apply elem_of_take in Hb as (i & Hb & _). apply list_elem_of_lookup_2 in Hb.
      apply list_elem_of_fmap in Hb as (x & [= -> ->] & Hx). done.
    + right. rewrite <- Hd1. by apply installed_idle.
Qed.

(** The recovery code on the disk [d] of a crashed machine. *)
Definition reboot (start : Z) (d : Z -> block) : res (unit * bstate) :=
  recover_from_log start (binit d).

(** [d'] is left by zero or more recoveries of [d], each cut by another crash. *)
Inductive crashes (start : Z) : (Z -> block) -> (Z -> block) -> Prop :=
| cr_done d d' : (forall b, d' b = d b) -> crashes start d d'
| cr_again d s j d' :
    reboot start d = Ret (tt, s) -> crashes start (apply_writes d (take j (dwrites s))) d' ->
    crashes start d d'.

Section Recovery.
Context {view : bstate -> acache -> Prop} {handle : bstate -> Z -> nat -> Prop}.
Context `{CS : !CacheSpec view handle}.

Lemma recover_from start bl s d :
  view s (mkA d d [] [] [] []) -> logged_ok start bl -> nth 0 (d start) 0 = Z.of_nat (length bl) ->
  take (length bl) (drop 1 (d start)) = bl ->
  exists s', recover_from_log start s = Ret (tt, s') /\ dwrites s' = recover_trace start d bl /\
    forall b, disk s' b = apply_writes d (recover_trace start d bl) b.
Proof.
  intros Hv Hok Hn Hbl.
  destruct (recover_run start bl s _ Hv) as (s' & A & E & V & F & _); try done.
  destruct (cs_disk s' A V) as [Hd Hw]. exists s'. split; [done|]. split.
  - by rewrite Hw, (af_trace _ _ _ F).
  - intros b. by rewrite Hd, (af_disk _ _ _ F).
Qed.

Lemma reboot_run start bl d :
  logged_ok start bl -> nth 0 (d start) 0 = Z.of_nat (length bl) ->
  take (length bl) (drop 1 (d start)) = bl ->
  exists s, reboot start d = Ret (tt, s) /\ dwrites s = recover_trace start d bl /\
    forall b, disk s b = apply_writes d (recover_trace start d bl) b.
Proof. exact (recover_from start bl (binit d) d (cs_init d)). Qed.

#[local] Opaque reboot.

Lemma idle_ext start d d' D : (forall b, d' b = d b) -> idle start d D -> idle start d' D.
Proof. intros H (H1 & H2 & H3). unfold idle. rewrite !H. split; [done|]. split; [done|]. intros b Hb. rewrite H. auto. Qed.

Lemma committed_ext start bl d d' D :
  (forall b, d' b = d b) -> committed start bl d D -> committed start bl d' D.
Proof.
  intros H (H1 & H2 & H3 & H4 & H5). unfold committed. rewrite !H.
  split_and!; try done; intros *; rewrite H; auto.
Qed.

(** Recovery of either kind of disk, complete or cut short. *)
Lemma reboot_good start bl d D :
  logged_ok start bl -> committed start bl d D \/ idle start d D ->
  exists s, reboot start d = Ret (tt, s) /\ idle start (disk s) D /\
    forall j, let d' := apply_writes d (take j (dwrites s)) in
      committed start bl d' D \/ idle start d' D.
Proof.
  intros Hok [Hc|Hi].
  - pose proof Hc as (H1 & H2 & H3 & H4 & H5).
    destruct (reboot_run start bl d Hok H1 H2) as (s & E & W & Hd).
    assert (recover_trace start d bl = ((fun b => (b, D b)) <$> bl) ++ [(start, put_header [] (d start))])
      as ET by (unfold recover_trace; by rewrite (home_writes_map start 0 D)).
    exists s. split; [done|]. split.
    + eapply idle_ext; [exact Hd|]. rewrite ET. by apply installed_idle.
    + intros j. rewrite W, ET. cbn zeta.
      destruct (take_snoc_cases j ((fun b => (b, D b)) <$> bl) (start, put_header [] (d start)))
        as [->| ->]; [left|right; by apply installed_idle].
      apply committed_homes; [done| |done]. intros b v Hb.
      apply elem_of_take in Hb as (i & Hb & _). apply list_elem_of_lookup_2 in Hb.
      apply list_elem_of_fmap in Hb as (x & [= -> ->] & Hx). done.
  - pose proof Hi as (H1 & H2 & H3).
    assert (logged_ok start []) as Hok0 by (split; [constructor|split; [cbn; lia|set_solver]]).
    destruct (reboot_run start [] d Hok0 H1 ltac:(done)) as (s & E & W & Hd).
    assert (committed start [] d D) as Hc0.
    { split; [exact H1|]. split; [reflexivity|]. split; [exact H2|]. split; [intros t b [=]|].
      intros b Hb _. by apply H3. }
    assert (idle start (apply_writes d (recover_trace start d [])) D) as Hi'
      by (by apply (installed_idle start [] d D)).
    exists s. split; [done|]. split; [by eapply idle_ext|].
    intros j. right. rewrite W. unfold recover_trace. cbn [home_writes app].
    destruct j as [|[|j]]; cbn [take]; [done|exact Hi'|exact Hi'].
Qed.

Lemma crashes_good start bl d d' D :
  logged_ok start bl -> crashes start d d' -> committed start bl d D \/ idle start d D ->
  committed start bl d' D \/ idle start d' D.
Proof.
  intros Hok Hcr. induction Hcr as [d d' Hd|d s j d' Hr _ IH]; intros H.
  - destruct H; [left; by eapply committed_ext|right; by eapply idle_ext].
  - destruct (reboot_good start bl d D Hok H) as (s' & E & _ & Hj). rewrite Hr in E.
    injection E as <-. apply IH, Hj.
Qed.
#[local] Transparent reboot.
End Recovery.
