(* ===== verification/Txn.v ===== *)
(** * File-system transactions: [begin_op], [log_write], [end_op]

    System calls that change the disk run between [begin_op] and [end_op]; the
    last of a group to end commits the group.  The state is [struct log]
    together with the buffer cache; a call of [sleep] ends a handler's pass, and
    a handler is one step.  The theorems say that the group is atomic under
    crashes and that no step panics while every call logs at most nine distinct
    blocks, each as often as it likes; the ten that [MAXOPBLOCKS] allows can run the cache out of buffers. *)

From S2P Require Import Prelude Mlfq Bio Cache Log.

(** [struct log], its header as the list of logged blocks, and the cache. *)
Record lsys := mkL {
  outstanding : Z; committing : bool; ncommit : Z; lh : list Z; bc : bstate
}.

Definition set_bc (f : bstate) (t : lsys) : lsys :=
  mkL (outstanding t) (committing t) (ncommit t) (lh t) f.

(** Code of [bio.c] run on the cache. *)
Definition on_bio {A} (m : B A) : M lsys A := fun t =>
  match m (bc t) with
  | Ret (a, s) => Ret (a, set_bc s t)
  | Panic e => Panic e
  | Undef e => Undef e
  end.

(** [initlog] on a machine booted with disk [d]. *)
Definition initlog (start : Z) (d : Z -> block) : res (unit * lsys) :=
  on_bio (recover_from_log start) (mkL 0 false 0 [] (binit d)).

(** One pass of [begin_op]'s loop: [false] when it sleeps. *)
Definition begin_op : M lsys bool :=
  t ← get;
  if committing t then mret false
  else if LOGBLOCKS <? Z.of_nat (length (lh t)) + (outstanding t + 1) * MAXOPBLOCKS
  then mret false
  else _ ← put (mkL (outstanding t + 1) (committing t) (ncommit t) (lh t) (bc t)); mret true.

(** [end_op] up to the call of [commit]: [true] when it is made. *)
Definition end_op_begin : M lsys bool :=
  t ← get;
  let out := outstanding t - 1 in
  _ ← panic_if (committing t) "log.committing";
  if out =? 0 then _ ← put (mkL out true (ncommit t) (lh t) (bc t)); mret true
  else _ ← put (mkL out (committing t) (ncommit t) (lh t) (bc t)); mret false.

(** The commit of [end_op], which ends with [log.lh.n = 0]. *)
Definition end_op_commit (start : Z) : M lsys unit :=
  t ← get;
  _ ← on_bio (commit start (lh t));
  modify (fun t => mkL (outstanding t) false (ncommit t + 1) [] (bc t)).

Definition end_op (start : Z) : M lsys unit :=
  do_commit ← end_op_begin;
  if (do_commit : bool) then end_op_commit start else mret tt.

(** [log_write] of buffer [i]. *)
Definition log_write (i : nat) : M lsys unit :=
  t ← get;
  let b := blockno (getb (bc t) i) in
  _ ← panic_if (LOGBLOCKS <=? Z.of_nat (length (lh t))) "too big a transaction";
  _ ← panic_if (outstanding t <? 1) "log_write outside of trans";
  if bool_decide (b ∈ lh t) then mret tt
  else
    _ ← on_bio (bpin i);
    modify (fun t => mkL (outstanding t) (committing t) (ncommit t) (lh t ++ [b]) (bc t)).

(** The use the comment of [log_write] prescribes: read a block, change it to
    [d], log it, release it. *)
Definition update_block (b : Z) (d : block) : M lsys unit :=
  i ← on_bio (bread ROOTDEV b);
  _ ← on_bio (modify (upd_buf i (set_bdata d)));
  _ ← log_write i;
  on_bio (brelse i).

(** ** The system as a transition system *)

(** Ghost state: the distinct blocks each running call has logged so far, the contents
    of the file system at the last commit and now. *)
Record gsys := mkG {
  sys : lsys; ops : list (list Z); base : Z -> block; cur : Z -> block
}.

(** A call logs at most [budget] distinct blocks, [u] so far; a block it has
    logged already is absorbed. *)
Definition may_log (budget : nat) (u : list Z) (b : Z) : Prop := b ∈ u \/ (length u < budget)%nat.
#[export] Instance may_log_dec budget u b : Decision (may_log budget u b) := _.
Definition add_block (u : list Z) (b : Z) : list Z := if bool_decide (b ∈ u) then u else b :: u.

Inductive lstep (start : Z) (budget : nat) : gsys -> gsys -> Prop :=
| ls_begin t r t' us D0 D :
    begin_op t = Ret (r, t') ->
    lstep start budget (mkG t us D0 D) (mkG t' (if (r : bool) then [] :: us else us) D0 D)
| ls_update t t' us1 u us2 D0 D b d :
    may_log budget u b -> ~ log_area start b -> update_block b d t = Ret (tt, t') ->
    lstep start budget (mkG t (us1 ++ u :: us2) D0 D)
      (mkG t' (us1 ++ add_block u b :: us2) D0 (zset D b d))
| ls_end t r t' us1 u us2 D0 D :
    end_op_begin t = Ret (r, t') ->
    lstep start budget (mkG t (us1 ++ u :: us2) D0 D) (mkG t' (us1 ++ us2) D0 D)
| ls_commit t t' us D0 D :
    committing t = true -> end_op_commit start t = Ret (tt, t') ->
    lstep start budget (mkG t us D0 D) (mkG t' us D D).

Inductive lreach (start : Z) (budget : nat) (d : Z -> block) : gsys -> Prop :=
| lr_boot t : initlog start d = Ret (tt, t) -> lreach start budget d (mkG t [] d d)
| lr_step g g' : lreach start budget d g -> lstep start budget g g' -> lreach start budget d g'.

(** The next operation of every kind returns. *)
Record ready (start : Z) (budget : nat) (g : gsys) : Prop := {
  rd_begin : exists r t', begin_op (sys g) = Ret (r, t');
  rd_update : forall u b d, u ∈ ops g -> may_log budget u b -> ~ log_area start b ->
    exists t', update_block b d (sys g) = Ret (tt, t');
  rd_end : ops g <> [] -> exists r t', end_op_begin (sys g) = Ret (r, t');
  rd_commit : committing (sys g) = true -> exists t', end_op_commit start (sys g) = Ret (tt, t')
}.

(** ** The invariant *)

Lemma on_bio_Ret {A} (m : B A) t a s : m (bc t) = Ret (a, s) -> on_bio m t = Ret (a, set_bc s t).
Proof. intros E. unfold on_bio. by rewrite E. Qed.

(** Blocks that running calls may still log. *)
Definition slack (budget : nat) (us : list (list Z)) : nat := sum_list_with (fun u => budget - length u)%nat us.

Lemma slack_app budget us1 us2 : slack budget (us1 ++ us2) = (slack budget us1 + slack budget us2)%nat.
Proof. apply sum_list_with_app. Qed.

Lemma slack_le budget us : (slack budget us <= budget * length us)%nat.
Proof. induction us as [|u us IH]; cbn -[Nat.mul]; [lia|]. unfold slack in IH. lia. Qed.

Lemma apply_snoc_eq d ws b v : apply_writes d (ws ++ [(b, v)]) b = v.
Proof. rewrite apply_app. apply zset_eq. Qed.

(** A commit ends by clearing the header. *)
Lemma commit_trace_end start D bl :
  exists tr h, commit_trace start D bl = tr ++ [(start, h)] /\
    ((0 < length (D start))%nat -> nth 0 h 0 = 0) /\ length h = length (D start).
Proof.
  unfold commit_trace. rewrite !app_assoc. eexists _, _. split; [done|].
  rewrite !length_put_header. split; [|done]. intros H. apply header_n. by rewrite length_put_header.
Qed.

Lemma commit_trace_keys start D bl b : b ∈ bl -> b ∈ (commit_trace start D bl).*1.
Proof.
  intros H. unfold commit_trace. rewrite !fmap_app, !elem_of_app, keys_homes. tauto.
Qed.

(** A commit writes every block outside the log with its own contents. *)
Lemma commit_trace_same start D bl b :
  (length bl <= Z.to_nat LOGBLOCKS)%nat -> ~ log_area start b ->
  apply_writes D (commit_trace start D bl) b = D b.
Proof.
  intros Hlen Hb. assert (b <> start) as Hbs by (intros ->; apply Hb, start_in_area).
  unfold commit_trace. rewrite !apply_app.
  change (apply_writes ?d [(start, ?v)]) with (zset d start v). rewrite zset_ne by done.
  destruct (decide (b ∈ bl)) as [Hin|Hn]; [by apply apply_homes|].
  rewrite apply_other by (by rewrite keys_homes).
  change (apply_writes ?d [(start, ?v)]) with (zset d start v). rewrite zset_ne by done.
  apply apply_other. intros (t & Ht & ->)%log_writes_keys. apply Hb.
  unfold log_area, LOGBLOCKS, MAXOPBLOCKS in *. lia.
Qed.

Section System.
Context {view : bstate -> acache -> Prop} {handle : bstate -> Z -> nat -> Prop}.
Context `{CS : !CacheSpec view handle}.
Context (start : Z) (budget : nat) (Hbudget : (budget < Z.to_nat MAXOPBLOCKS)%nat).

Record TInv (g : gsys) (A : acache) : Prop := {
  ti_view : view (bc (sys g)) A;
  ti_held : a_held A = [];
  ti_out : outstanding (sys g) = Z.of_nat (length (ops g));
  ti_pin : a_pinned A ≡ₚ lh (sys g);
  ti_dirty : forall b, b ∈ a_dirty A -> b ∈ lh (sys g);
  ti_nodup : NoDup (lh (sys g));
  ti_area : forall b, b ∈ lh (sys g) -> ~ log_area start b;
  ti_ops : forall u b, u ∈ ops g -> b ∈ u -> b ∈ lh (sys g);
  ti_space : (length (lh (sys g)) + slack budget (ops g) <= NBUF - 2)%nat;
  ti_idle : committing (sys g) = false -> ops g = [] -> lh (sys g) = [];
  ti_com : committing (sys g) = true -> ops g = [];
  ti_cur : forall b, ~ log_area start b -> a_dat A b = cur g b;
  ti_same : forall b, ~ log_area start b -> b ∉ lh (sys g) -> cur g b = base g b;
  ti_base : idle start (a_disk A) (base g);
  ti_head : a_dat A start = a_disk A start
}.

Lemma tinv_logged g A : TInv g A -> logged_ok start (lh (sys g)).
Proof.
  intros H. split; [apply H|]. split; [|apply H]. pose proof (ti_space _ _ H).
  unfold LOGBLOCKS, MAXOPBLOCKS, NBUF in *. lia.
Qed.

Lemma tinv_pins g A : TInv g A -> (length (a_pinned A) + 1 < NBUF)%nat.
Proof.
  intros H. rewrite (Permutation_length (ti_pin _ _ H)). pose proof (ti_space _ _ H).
  unfold NBUF in *. lia.
Qed.

(** [log_write] of a held block. *)
Lemma log_write_run g A b i :
  view (bc (sys g)) A -> b ∈ a_held A -> handle (bc (sys g)) b i ->
  a_pinned A ≡ₚ lh (sys g) -> (length (lh (sys g)) < Z.to_nat LOGBLOCKS)%nat ->
  1 <= outstanding (sys g) ->
  exists t', log_write i (sys g) = Ret (tt, t') /\
    view (bc t') (if bool_decide (b ∈ lh (sys g)) then A else pin b A) /\
    handle (bc t') b i /\ outstanding t' = outstanding (sys g) /\
    committing t' = committing (sys g) /\
    lh t' = (if bool_decide (b ∈ lh (sys g)) then lh (sys g) else lh (sys g) ++ [b]).
Proof.
  intros Hv Hb Hh Hp Hl Ho. pose proof (cs_handle _ _ _ Hh) as Hbn. unfold log_write.
  rewrite (M_bind_Ret _ _ _ _ _ eq_refl). rewrite Hbn.
  rewrite (proj2 (Z.leb_gt _ _)) by lia. rewrite (proj2 (Z.ltb_ge _ _)) by lia.
  rewrite !(M_bind_Ret _ _ _ tt (sys g)) by done.
  case_bool_decide as Hin; [by exists (sys g)|].
  destruct (cs_bpin (bc (sys g)) A b i Hv Hb) as (s' & E & V & K); [by rewrite Hp|done|].
  rewrite (M_bind_Ret _ _ _ tt (set_bc s' (sys g))) by (by apply on_bio_Ret).
  eexists. split; [done|]. cbn. auto.
Qed.

Lemma update_run g A u b d :
  TInv g A -> u ∈ ops g -> ~ log_area start b ->
  exists t' A', update_block b d (sys g) = Ret (tt, t') /\ view (bc t') A' /\
    outstanding t' = outstanding (sys g) /\ committing t' = committing (sys g) /\
    lh t' = (if bool_decide (b ∈ lh (sys g)) then lh (sys g) else lh (sys g) ++ [b]) /\
    a_dat A' = zset (a_dat A) b d /\ a_disk A' = a_disk A /\ a_held A' = [] /\
    a_dirty A' = b :: a_dirty A /\
    a_pinned A' = (if bool_decide (b ∈ lh (sys g)) then a_pinned A else b :: a_pinned A).
Proof.
  intros HT Hu Hb. pose proof (ti_held _ _ HT) as Hh. pose proof (tinv_pins _ _ HT) as Hp.
  assert (1 <= outstanding (sys g)) as Ho.
  { rewrite (ti_out _ _ HT). destruct (ops g); [by apply elem_of_nil in Hu|cbn; lia]. }
  pose proof (ti_space _ _ HT) as Hs. unfold update_block.
  destruct (cs_bread _ A b (ti_view _ _ HT)) as (i & s1 & E1 & V1 & H1 & _ & _);
    [rewrite Hh; set_solver|rewrite Hh; cbn; lia|].
  rewrite (M_bind_Ret _ _ _ _ _ (on_bio_Ret _ _ _ _ E1)).
  destruct (cs_store s1 _ b i d V1) as [V2 K2]; [cbn; set_solver|done|].
  rewrite (M_bind_Ret _ _ _ tt (set_bc (upd_buf i (set_bdata d) s1) (sys g))) by done.
  destruct (log_write_run (mkG (set_bc (upd_buf i (set_bdata d) s1) (sys g)) [] (base g) (cur g))
    _ b i V2) as (t2 & E3 & V3 & H3 & O3 & C3 & L3); cbn [sys set_bc bc lh outstanding]; try done.
  { cbn. set_solver. } { by apply K2. } { apply HT. }
  { unfold LOGBLOCKS, MAXOPBLOCKS, NBUF in *. lia. }
  cbn [sys] in E3. rewrite (M_bind_Ret _ _ _ _ _ E3). cbn [sys set_bc lh outstanding committing] in *.
  set (A3 := if bool_decide _ then _ else _) in V3.
  destruct (cs_brelse (bc t2) A3 b i V3) as (s4 & E4 & V4 & _).
  { unfold A3. case_bool_decide; cbn; set_solver. } { done. }
  { intros _. unfold A3. case_bool_decide as Hin; cbn; [by rewrite (ti_pin _ _ HT)|set_solver]. }
  exists (set_bc s4 t2), (unhold b A3). split; [by apply on_bio_Ret|]. split; [done|].
  cbn [set_bc outstanding committing lh]. unfold A3.
  split; [done|]. split; [done|]. split; [done|].
  case_bool_decide; cbn; rewrite Hh, but_cons_eq; done.
Qed.

Lemma commit_ok g A :
  TInv g A -> committing (sys g) = true ->
  exists s' A', commit start (lh (sys g)) (bc (sys g)) = Ret (tt, s') /\ view s' A' /\
    after A (if bool_decide (lh (sys g) = []) then [] else commit_trace start (a_dat A) (lh (sys g))) A' /\
    a_pinned A' = [].
Proof.
  intros HT Hc. case_bool_decide as He.
  - exists (bc (sys g)), A. rewrite He. split; [done|]. split; [apply HT|].
    split; [by apply after_refl, HT|]. pose proof (ti_pin _ _ HT) as Hp. rewrite He in Hp.
    by apply Permutation_nil_r in Hp.
  - destruct (commit_run start (lh (sys g)) _ A (ti_view _ _ HT) (ti_held _ _ HT) (tinv_pins _ _ HT)
      (tinv_logged _ _ HT) He) as (s' & A' & E & V & F & K).
    + intros b Hb. by rewrite (ti_pin _ _ HT).
    + apply HT.
    + exists s', A'. split; [done|]. split; [done|]. split; [done|].
      destruct (a_pinned A') as [|x l]; [done|]. exfalso.
      destruct (proj1 (K x)) as [K1 K2]; [set_solver|]. apply K2. by rewrite <- (ti_pin _ _ HT).
Qed.

(** The disk after a crash during the commit's first [k] writes. *)
Lemma commit_crash g A k :
  TInv g A -> lh (sys g) <> [] ->
  let d := apply_writes (a_disk A) (take k (commit_trace start (a_dat A) (lh (sys g)))) in
  if (k <=? length (lh (sys g)))%nat then idle start d (base g)
  else committed start (lh (sys g)) d (a_dat A) \/ idle start d (a_dat A).
Proof.
  intros HT He d. pose proof (ti_base _ _ HT) as (B1 & B2 & B3).
  pose proof (commit_prefix start (lh (sys g)) (a_disk A) (a_dat A) k (tinv_logged _ _ HT)
    (conj B1 (conj B2 (fun _ _ => eq_refl))) (ti_head _ _ HT)) as H.
  cbn zeta in H. fold d in H. destruct (k <=? _)%nat.
  - destruct H as (I1 & I2 & I3).
    { intros b Hb Hn. rewrite (ti_cur _ _ HT b Hb), (ti_same _ _ HT b Hb Hn). by rewrite B3. }
    split; [done|]. split; [done|]. intros b Hb. rewrite I3 by done. by apply B3.
  - apply H. intros b Hb Hn. rewrite (ti_cur _ _ HT b Hb), (ti_same _ _ HT b Hb Hn). by rewrite B3.
Qed.

Lemma idle_outside d D D' : (forall b, ~ log_area start b -> D b = D' b) -> idle start d D -> idle start d D'.
Proof. intros H (H1 & H2 & H3). split; [done|]. split; [done|]. intros b Hb. rewrite H3; auto. Qed.

Lemma committed_outside bl d D D' :
  logged_ok start bl -> (forall b, ~ log_area start b -> D b = D' b) ->
  committed start bl d D -> committed start bl d D'.
Proof.
  intros (_ & _ & Hna) H (H1 & H2 & H3 & H4 & H5). split; [done|]. split; [done|]. split; [done|]. split.
  - intros t b Ht. rewrite <- H; [by apply H4|]. apply Hna. by eapply list_elem_of_lookup_2.
  - intros b Hb Hn. rewrite <- H; auto.
Qed.

Lemma committed_idle_full bl d D :
  committed start bl d D -> nth 0 (d start) 0 = 0 -> bl = [].
Proof. intros (H & _) H0. destruct bl; [done|]. cbn in H. lia. Qed.

(** ** Preservation *)

Lemma tinv_begin g A r t' :
  TInv g A -> begin_op (sys g) = Ret (r, t') ->
  TInv (mkG t' (if (r : bool) then [] :: ops g else ops g) (base g) (cur g)) A.
Proof.
  intros HT E. pose proof HT as [T1 T2 T3 T4 T5 T6 T7 TO T8 T9 T10 T11 T12 T13 T14].
  unfold begin_op in E. rewrite (M_bind_Ret _ _ _ _ _ eq_refl) in E.
  destruct (committing (sys g)) eqn:Ec; [injection E as <- <-; by destruct g|].
  destruct (Z.ltb_spec LOGBLOCKS (Z.of_nat (length (lh (sys g))) + (outstanding (sys g) + 1) * MAXOPBLOCKS))
    as [Hlt|Hle]; [injection E as <- <-; by destruct g|].
  rewrite (M_bind_Ret _ _ _ _ _ eq_refl) in E. injection E as <- <-. split; cbn; try done.
  - lia.
  - intros u b [->|Hu]%elem_of_cons; [intros Hb; by apply elem_of_nil in Hb|by apply TO].
  - change (sum_list_with _ (ops g)) with (slack budget (ops g)).
    pose proof (slack_le budget (ops g)). rewrite T3 in Hle.
    unfold LOGBLOCKS, MAXOPBLOCKS, NBUF in *.
    destruct (ops g) as [|u us] eqn:Eu; [rewrite T9 by done; cbn in *; lia|].
    cbn [length] in *. nia.
Qed.

Lemma tinv_update g A us1 u us2 b d t' :
  TInv g A -> ops g = us1 ++ u :: us2 -> may_log budget u b -> ~ log_area start b ->
  update_block b d (sys g) = Ret (tt, t') ->
  exists A', TInv (mkG t' (us1 ++ add_block u b :: us2) (base g) (zset (cur g) b d)) A'.
Proof.
  intros HT Eo Hu Hb E. pose proof HT as [T1 T2 T3 T4 T5 T6 T7 TO T8 T9 T10 T11 T12 T13 T14].
  assert (u ∈ ops g) as Hin by (rewrite Eo; set_solver).
  destruct (update_run g A u b d HT Hin Hb)
    as (t2 & A' & E' & V & O & C & L & Da & Dk & Hh & Di & Pi).
  rewrite E in E'. injection E' as <-.
  assert (b <> start) as Hbs by (intros ->; apply Hb, start_in_area).
  exists A'. split; cbn [sys ops base cur]; rewrite ?C, ?O, ?L, ?Da, ?Dk, ?Di, ?Pi; try done.
  - rewrite T3, Eo, !length_app. done.
  - case_bool_decide; [done|]. rewrite T4. by rewrite Permutation_app_comm.
  - intros x [->|Hx]%elem_of_cons; case_bool_decide; try done; rewrite ?elem_of_app;
      [by right; left|by apply T5|left; by apply T5].
  - case_bool_decide; [done|]. apply list.NoDup_app. split; [done|].
    split; [set_solver|apply NoDup_singleton].
  - intros x. case_bool_decide; [apply T7|].
    intros [Hx|Hx%list_elem_of_singleton]%elem_of_app; [by apply T7|by subst].
  - intros v x Hv Hx. rewrite Eo in TO.
    assert (x = b \/ x ∈ lh (sys g)) as [->|Hl]; [|case_bool_decide; set_solver..].
    unfold add_block in Hv. apply elem_of_app in Hv as [Hv|[->|Hv]%elem_of_cons].
    + right. apply (TO v); [set_solver|done].
    + case_bool_decide; [right; apply (TO u); [set_solver|done]|].
      apply elem_of_cons in Hx as [->|Hx]; [by left|]. right. apply (TO u); [set_solver|done].
    + right. apply (TO v); [set_solver|done].
  - rewrite Eo in T8. rewrite slack_app in *. unfold slack in *. cbn [sum_list_with] in *.
    unfold add_block. destruct (decide (b ∈ u)) as [Hbu|Hbu].
    + rewrite (bool_decide_true (b ∈ u)), (bool_decide_true (b ∈ lh (sys g))) by (done || by apply (TO u)). lia.
    + destruct Hu as [?|Hu]; [done|]. rewrite (bool_decide_false (b ∈ u)) by done. cbn [length].
      case_bool_decide; rewrite ?length_app; cbn [length]; lia.
  - intros _ Hn. by destruct us1.
  - intros Hc. rewrite (T10 Hc) in Eo. by destruct us1.
  - intros x Hx. unfold zset. destruct (x =? b); [done|]. by apply T11.
  - intros x Hx Hn. assert (x <> b /\ x ∉ lh (sys g)) as [N1 N2]
      by (case_bool_decide; set_solver). rewrite zset_ne by done. by apply T12.
  - by rewrite zset_ne.
Qed.

Lemma tinv_end g A us1 u us2 r t' :
  TInv g A -> ops g = us1 ++ u :: us2 -> end_op_begin (sys g) = Ret (r, t') ->
  TInv (mkG t' (us1 ++ us2) (base g) (cur g)) A.
Proof.
  intros HT Eo E. pose proof HT as [T1 T2 T3 T4 T5 T6 T7 TO T8 T9 T10 T11 T12 T13 T14].
  unfold end_op_begin in E. rewrite (M_bind_Ret _ _ _ _ _ eq_refl) in E.
  destruct (committing (sys g)) eqn:Ec; [done|]. rewrite (M_bind_Ret _ _ _ tt (sys g)) in E by done.
  rewrite Eo, length_app in T3. cbn [length] in T3.
  assert (outstanding (sys g) - 1 = Z.of_nat (length (us1 ++ us2))) as Eout
    by (rewrite length_app; lia).
  assert (slack budget (us1 ++ us2) <= slack budget (ops g))%nat as Hsl
    by (rewrite Eo, !slack_app; unfold slack; cbn; lia).
  rewrite Eout in E. destruct (Z.eqb_spec (Z.of_nat (length (us1 ++ us2))) 0) as [Hz|Hz];
    rewrite (M_bind_Ret _ _ _ _ _ eq_refl) in E; injection E as <- <-;
    split; cbn [sys ops base cur outstanding committing lh bc]; try done; try lia.
  - intros v x Hv. apply TO. rewrite Eo. set_solver.
  - intros _. apply length_zero_iff_nil. lia.
  - intros v x Hv. apply TO. rewrite Eo. set_solver.
  - intros _ Hn. rewrite Hn in Hz. done.
Qed.

Lemma tinv_commit g A t' :
  TInv g A -> committing (sys g) = true -> end_op_commit start (sys g) = Ret (tt, t') ->
  exists A', TInv (mkG t' (ops g) (cur g) (cur g)) A'.
Proof.
  intros HT Hc E. pose proof HT as [T1 T2 T3 T4 T5 T6 T7 TO T8 T9 T10 T11 T12 T13 T14].
  destruct (commit_ok g A HT Hc) as (s' & A' & E1 & V & F & P).
  unfold end_op_commit in E. rewrite (M_bind_Ret _ _ _ _ _ eq_refl) in E.
  rewrite (M_bind_Ret _ _ _ _ _ (on_bio_Ret _ _ _ _ E1)) in E. injection E as <-.
  rewrite (T10 Hc) in *.
  assert (idle start (a_disk A') (cur g) /\ a_dat A' start = a_disk A' start /\
          (forall b, ~ log_area start b -> a_dat A' b = cur g b)) as (Q1 & Q2 & Q3).
  { destruct F as [F1 F2 F3 F4 F5]. pose proof T13 as (B1 & B2 & B3). case_bool_decide as He.
    - rewrite (F2 start), (F3 start). split; [|split; [done|intros; rewrite F2; by apply T11]].
      apply (idle_ext start (a_disk A)); [intros; by rewrite F3|].
      apply (idle_outside _ (base g)); [|done]. intros b Hb. symmetry. apply T12; [done|]. rewrite He. set_solver.
    - pose proof (commit_crash g A (length (commit_trace start (a_dat A) (lh (sys g)))) HT He) as Hcr.
      cbn zeta in Hcr. rewrite firstn_all in Hcr.
      destruct (commit_trace_end start (a_dat A) (lh (sys g))) as (tr & h & Etr & Hh0 & Hlen).
      rewrite (proj2 (Nat.leb_gt _ _)) in Hcr by (unfold commit_trace; rewrite !length_app; cbn;
        rewrite length_fmap; lia).
      rewrite (F2 start), (F3 start). rewrite Etr, !apply_snoc_eq. split; [|split; [done|]].
      + apply (idle_outside _ (a_dat A)); [done|].
        apply (idle_ext start (apply_writes (a_disk A) (commit_trace start (a_dat A) (lh (sys g)))));
          [intros; by rewrite F3|].
        destruct Hcr as [Hcm|]; [|done]. exfalso. apply He. apply (committed_idle_full _ _ _ Hcm).
        rewrite Etr, apply_snoc_eq. apply Hh0. rewrite T14. lia.
      + intros b Hb. rewrite F2. rewrite <- (T11 b Hb). apply commit_trace_same; [|done].
        apply (tinv_logged g A HT). }
  exists A'. split; cbn; try done.
  - apply F.
  - by rewrite P.
  - intros b [Hb Hn]%(af_dirty _ _ _ F). exfalso. specialize (T5 b Hb). case_bool_decide as He.
    + rewrite He in T5. by apply elem_of_nil in T5.
    + apply Hn, commit_trace_keys, T5.
  - constructor.
  - intros b Hb%elem_of_nil. done.
  - intros u b Hu. by apply elem_of_nil in Hu.
  - unfold NBUF. lia.
Qed.

Lemma boot_returns s d :
  view s (mkA d d [] [] [] []) -> idle start d d -> exists s', recover_from_log start s = Ret (tt, s').
Proof.
  clear Hbudget budget. intros Hv (I1 & I2 & _).
  assert (logged_ok start []) as Hok by (split; [constructor|split; [cbn; lia|set_solver]]).
  destruct (recover_run start [] s _ Hv) as (s2 & A & E2 & _); try done. by exists s2.
Qed.

Lemma log_boot_inv s d s' :
  view s (mkA d d [] [] [] []) -> idle start d d -> recover_from_log start s = Ret (tt, s') ->
  exists A, TInv (mkG (mkL 0 false 0 [] s') [] d d) A.
Proof.
  intros Hv (I1 & I2 & _) E.
  assert (logged_ok start []) as Hok by (split; [constructor|split; [cbn; lia|set_solver]]).
  destruct (recover_run start [] s _ Hv) as (s2 & A & E2 & V & F & P); try done.
  rewrite E in E2. injection E2 as <-. destruct F as [F1 F2 F3 F4 F5].
  unfold recover_trace in *. cbn [home_writes app a_dat a_disk a_dirty] in *.
  change (apply_writes d [(start, put_header [] (d start))])
    with (zset d start (put_header [] (d start))) in *.
  assert (forall b, ~ log_area start b -> zset d start (put_header [] (d start)) b = d b) as Hz.
  { intros b Hb. apply zset_ne. intros ->. by apply Hb, start_in_area. }
  exists A. split; cbn; try done.
  - by rewrite P.
  - intros b [Hb _]%F5. done.
  - constructor.
  - intros b Hb%elem_of_nil. done.
  - intros u b Hu. by apply elem_of_nil in Hu.
  - unfold NBUF. lia.
  - intros b Hb. rewrite F2. by apply Hz.
  - split; [|split].
    + rewrite F3, zset_eq. apply nth_insert_eq. lia.
    + by rewrite F3, zset_eq, length_put_header.
    + intros b Hb. rewrite F3. by apply Hz.
  - by rewrite F2, F3.
Qed.

Lemma reach_inv d g : idle start d d -> lreach start budget d g -> exists A, TInv g A.
Proof.
  intros Hd Hr. induction Hr as [t E|g g' Hr [A HT] Hs].
  - unfold initlog, on_bio in E. pose proof (cs_init d) as Hv. cbn [bc] in E.
    revert E Hv. generalize (binit d). intros s E Hv.
    destruct (recover_from_log start s) as [[[] s']|e|e] eqn:Er; try done. injection E as <-.
    by apply (log_boot_inv s).
  - inversion Hs as [t r t' us D0 D E|t t' us1 u us2 D0 D b dd Hu Hb E|t r t' us1 u us2 D0 D E|
      t t' us D0 D Hc E]; subst.
    + exists A. by apply (tinv_begin (mkG t us D0 D)).
    + by apply (tinv_update (mkG t (us1 ++ u :: us2) D0 D) A us1 u us2).
    + exists A. by apply (tinv_end (mkG t (us1 ++ u :: us2) D0 D) A us1 u us2 r).
    + by apply (tinv_commit (mkG t us D0 D) A).
Qed.

Lemma inv_ready g A : TInv g A -> ready start budget g.
Proof.
  intros HT. split.
  - unfold begin_op. rewrite (M_bind_Ret _ _ _ _ _ eq_refl).
    repeat case_match; eauto.
  - intros u b d Hu Hlt Hb.
    destruct (update_run g A u b d HT Hu Hb) as (t' & A' & E & _). by exists t'.
  - intros Ho. unfold end_op_begin. rewrite (M_bind_Ret _ _ _ _ _ eq_refl).
    destruct (committing (sys g)) eqn:Ec; [by rewrite (ti_com _ _ HT Ec) in Ho|].
    rewrite (M_bind_Ret _ _ _ tt (sys g)) by done. case_match; eauto.
  - intros Hc. destruct (commit_ok g A HT Hc) as (s' & A' & E & _). unfold end_op_commit.
    rewrite (M_bind_Ret _ _ _ _ _ eq_refl), (M_bind_Ret _ _ _ _ _ (on_bio_Ret _ _ _ _ E)). by eexists.
Qed.
End System.

(** Recovery from the disk [d] gives back the file system [D]. *)
Definition recovers (start : Z) (d D : Z -> block) : Prop :=
  exists s, reboot start d = Ret (tt, s) /\ idle start (disk s) D.

Lemma recovers_crashed start bl d d' D :
  logged_ok start bl -> committed start bl d D \/ idle start d D -> crashes start d d' ->
  recovers start d' D.
Proof.
  intros Hok H Hc. pose proof (crashes_good start bl d d' D Hok Hc H) as H'.
  destruct (reboot_good start bl d' D Hok H') as (s & E & Hi & _). exists s. exact (conj E Hi).
Qed.

(** ** Scripted runs *)

(** One call of a client, as data: the operation [k] running. *)
Inductive call := Begin | Update (k : nat) (b : Z) (d : block) | End (k : nat) | Commit.

Definition log_areab (start b : Z) : bool := (start <=? b) && (b <=? start + LOGBLOCKS).

Definition exec (start : Z) (budget : nat) (c : call) (g : gsys) : res gsys :=
  match c with
  | Begin =>
    match begin_op (sys g) with
    | Ret (r, t') => Ret (mkG t' (if (r : bool) then [] :: ops g else ops g) (base g) (cur g))
    | Panic e => Panic e | Undef e => Undef e
    end
  | Update k b d =>
    match ops g !! k with
    | Some u =>
      if bool_decide (may_log budget u b) && negb (log_areab start b) then
        match update_block b d (sys g) with
        | Ret (_, t') => Ret (mkG t' (take k (ops g) ++ add_block u b :: drop (S k) (ops g)) (base g) (zset (cur g) b d))
        | Panic e => Panic e | Undef e => Undef e
        end
      else Undef "not allowed"
    | None => Undef "no such operation"
    end
  | End k =>
    match ops g !! k with
    | Some u =>
      match end_op_begin (sys g) with
      | Ret (_, t') => Ret (mkG t' (take k (ops g) ++ drop (S k) (ops g)) (base g) (cur g))
      | Panic e => Panic e | Undef e => Undef e
      end
    | None => Undef "no such operation"
    end
  | Commit =>
    if committing (sys g) then
      match end_op_commit start (sys g) with
      | Ret (_, t') => Ret (mkG t' (ops g) (cur g) (cur g))
      | Panic e => Panic e | Undef e => Undef e
      end
    else Undef "no commit pending"
  end.

Fixpoint exec_all (start : Z) (budget : nat) (cs : list call) (g : gsys) : res gsys :=
  match cs with
  | [] => Ret g
  | c :: cs' =>
    match exec start budget c g with
    | Ret g' => exec_all start budget cs' g'
    | Panic e => Panic e | Undef e => Undef e
    end
  end.

Lemma exec_step start budget c g g' : exec start budget c g = Ret g' -> lstep start budget g g'.
Proof.
  destruct g as [t us D0 D], c as [|k b d|k|]; cbn [exec sys ops base cur].
  - destruct (begin_op t) as [[r t']| |] eqn:E; intros [= <-]. by constructor.
  - destruct (us !! k) as [u|] eqn:Ek; [|done].
    case_bool_decide as Hu; [|done]. cbn [andb].
    destruct (log_areab start b) eqn:Ea; [done|]. cbn [negb].
    destruct (update_block b d t) as [[[] t']| |] eqn:E; intros [= <-].
    rewrite <- (take_drop_middle us k u Ek) at 1. apply ls_update; try done.
    unfold log_areab, log_area in *. lia.
  - destruct (us !! k) as [u|] eqn:Ek; [|done].
    destruct (end_op_begin t) as [[r t']| |] eqn:E; intros [= <-].
    rewrite <- (take_drop_middle us k u Ek) at 1. by apply ls_end with r.
  - destruct (committing t) eqn:Ec; [|done].
    destruct (end_op_commit start t) as [[[] t']| |] eqn:E; intros [= <-]. by constructor.
Qed.

Lemma exec_all_reach start budget d cs g g' :
  lreach start budget d g -> exec_all start budget cs g = Ret g' -> lreach start budget d g'.
Proof.
  revert g. induction cs as [|c cs IH]; intros g Hg; cbn; [by intros [= <-]|].
  destruct (exec start budget c g) as [g1| |] eqn:E; [|done|done]. apply IH.
  eapply lr_step; [exact Hg|]. by apply exec_step in E.
Qed.

(** A script from the boot on disk [d]. *)
Definition script (start : Z) (budget : nat) (d : Z -> block) (cs : list call) : res gsys :=
  match initlog start d with
  | Ret (_, t) => exec_all start budget cs (mkG t [] d d)
  | Panic e => Panic e | Undef e => Undef e
  end.

Lemma script_reach start budget d cs g : script start budget d cs = Ret g -> lreach start budget d g.
Proof.
  unfold script. destruct (initlog start d) as [[[] t]| |] eqn:E; [|done|done].
  apply exec_all_reach. exact (lr_boot start budget d t E).
Qed.

(** ** Theorems *)

(** While every file-system call logs at most nine distinct blocks, the logging
    system never panics: from a machine booted on a disk with an empty log,
    [initlog] returns, and in every reachable state [begin_op], the
    read/[log_write]/[brelse] of a block by a running call, [end_op] and the commit
    return.  The transaction fits the log, its blocks are distinct and lie
    outside the log, and nothing is pinned once the group has committed. *)
Theorem txn_safe start budget d g :
  (budget < Z.to_nat MAXOPBLOCKS)%nat -> idle start d d -> lreach start budget d g ->
  (exists t, initlog start d = Ret (tt, t)) /\ ready start budget g /\
  NoDup (lh (sys g)) /\ (length (lh (sys g)) <= NBUF - 2)%nat /\
  (forall b, b ∈ lh (sys g) -> ~ log_area start b) /\
  outstanding (sys g) = Z.of_nat (length (ops g)) /\
  (committing (sys g) = false -> ops g = [] -> lh (sys g) = []).
Proof.
  intros Hb Hd Hr. destruct (reach_inv start budget Hb d g Hd Hr) as [A HT]. split.
  - destruct (boot_returns start (binit d) d (cs_init d) Hd) as [s' E].
    exists (mkL 0 false 0 [] s'). exact (on_bio_Ret _ (mkL 0 false 0 [] (binit d)) _ _ E).
  - split; [by apply (inv_ready start budget Hb g A)|]. pose proof HT as [? ? ? ? ? ? ? ? ? ? ? ? ? ? ?].
    repeat (split; [done||lia|]). done.
Qed.

Definition disk0 : Z -> block := fun _ => repeat 0 40.

Lemma idle_disk0 start : idle start disk0 disk0.
Proof. split; [reflexivity|]. split; [|done]. unfold disk0. rewrite repeat_length. vm_compute. lia. Qed.

(** Updates of [n] blocks from [b0] by operation [k]. *)
Definition updates (k n : nat) (b0 : Z) : list call :=
  map (fun i => Update k (b0 + Z.of_nat i) [7]) (seq 0 n).

(** Three concurrent calls of [n] blocks each, ended one after the other. *)
Definition three (n : nat) : list call :=
  [Begin; Begin; Begin] ++ updates 0 n 100 ++ updates 1 n 200 ++ updates 2 n 300 ++
  [End 0; End 0; End 0].

(** Two concurrent calls, the first of which logs each of its nine blocks twice. *)
Definition again : list call :=
  [Begin; Begin] ++ updates 0 9 100 ++ updates 1 9 200 ++ updates 0 9 100 ++ [End 0; End 0].

Lemma script_ok start budget d cs (P : gsys -> Prop) :
  match script start budget d cs with Ret _ => True | _ => False end ->
  (forall g, script start budget d cs = Ret g -> P g) ->
  exists g, script start budget d cs = Ret g /\ P g.
Proof. destruct (script start budget d cs) as [g| |]; [|done|done]. intros _ H. exists g. auto. Qed.

Lemma on_script start budget d cs (P : gsys -> bool) g :
  match script start budget d cs with Ret g => P g | _ => false end = true ->
  script start budget d cs = Ret g -> P g = true.
Proof. intros H E. by rewrite E in H. Qed.

Lemma again_commits g : script 2 9 disk0 again = Ret g -> committing (sys g) = true.
Proof. apply (on_script _ _ _ _ (fun g => committing (sys g))). vm_compute. reflexivity. Qed.

(** The log is full and its commit panics for want of a buffer. *)
Definition full (g : gsys) : bool :=
  (length (lh (sys g)) =? Z.to_nat LOGBLOCKS)%nat && committing (sys g) &&
  match end_op_commit 2 (sys g) with
  | Panic m => String.eqb m "bget: no buffers" | _ => false
  end.

Lemma full_spec g : full g = true ->
  length (lh (sys g)) = Z.to_nat LOGBLOCKS /\ committing (sys g) = true /\
  end_op_commit 2 (sys g) = Panic "bget: no buffers".
Proof.
  unfold full. intros [[->%Nat.eqb_eq ->]%andb_prop H]%andb_prop. split; [done|]. split; [done|].
  destruct (end_op_commit 2 (sys g)); try discriminate H. by apply String.eqb_eq in H as ->.
Qed.

Lemma txn_safe_witness :
  exists g, script 2 9 disk0 (three 9) = Ret g /\ ready 2 9 g.
Proof.
  apply script_ok; [vm_compute; exact I|]. intros g Hg.
  apply (txn_safe 2 9 disk0 g ltac:(unfold MAXOPBLOCKS; lia) (idle_disk0 2) (script_reach 2 9 disk0 _ g Hg)).
Defined.

(** C2: a group of system calls is atomic under crashes, provided no call logs
    more than nine distinct blocks (each any number of times; with ten the commit can panic, see
    [full_transaction_panics]) and the disk is formatted with an empty log.  A crash while calls
    are running loses them all and nothing else: recovery gives the file
    system of the last commit.  During a commit, recovery after any prefix of
    the commit's disk writes gives the old file system if the header has not
    been written, and otherwise the new one with every update of the group;
    also when recovery is itself interrupted by crashes any number of times. *)
Theorem txn_crash_atomic start budget d g :
  (budget < Z.to_nat MAXOPBLOCKS)%nat -> idle start d d -> lreach start budget d g ->
  (committing (sys g) = false -> forall d', crashes start (disk (bc (sys g))) d' ->
     recovers start d' (base g)) /\
  (committing (sys g) = true -> exists s' W, commit start (lh (sys g)) (bc (sys g)) = Ret (tt, s') /\
     dwrites s' = dwrites (bc (sys g)) ++ W /\
     forall k d', crashes start (apply_writes (disk (bc (sys g))) (take k W)) d' ->
       recovers start d' (if (k <=? length (lh (sys g)))%nat then base g else cur g)).
Proof.
  intros Hb Hd Hr. destruct (reach_inv start budget Hb d g Hd Hr) as [A HT].
  pose proof (tinv_logged start budget Hb g A HT) as Hok.
  destruct (cs_disk _ A (ti_view _ _ _ _ HT)) as [Hdk Htr].
  assert (forall W b, apply_writes (disk (bc (sys g))) W b = apply_writes (a_disk A) W b) as Hap
    by (intros; by apply apply_ext).
  split.
  - intros _ d'. apply (recovers_crashed start []); [split; [constructor|split; [cbn; lia|set_solver]]|].
    right. apply (idle_ext start (a_disk A)); [done|]. apply HT.
  - intros Hc. destruct (commit_ok start budget Hb g A HT Hc) as (s' & A' & E & V & F & _).
    destruct (cs_disk s' A' V) as [_ Htr']. rewrite (af_trace _ _ _ F), <- Htr in Htr'.
    exists s', (if bool_decide (lh (sys g) = []) then [] else commit_trace start (a_dat A) (lh (sys g))).
    split; [exact E|]. split; [exact Htr'|]. intros k d'.
    apply (recovers_crashed start (lh (sys g))); [done|]. case_bool_decide as He.
    + right. rewrite He, take_nil. apply (idle_ext start (a_disk A)); [done|].
      assert (idle start (a_disk A) (cur g)) as Hcur.
      { apply (idle_outside start _ (base g)); [|apply HT]. intros b Hx. symmetry.
        apply (ti_same _ _ _ _ HT); [done|]. rewrite He. set_solver. }
      destruct (k <=? _)%nat; [apply HT|done].
    + pose proof (commit_crash start budget Hb g A k HT He) as Hcr. cbn zeta in Hcr.
      destruct (k <=? _)%nat.
      * right. eapply idle_ext; [apply Hap|done].
      * destruct Hcr as [Hcr|Hcr].
        -- left. eapply committed_ext; [apply Hap|]. by apply (committed_outside _ _ _ (a_dat A)); [|apply HT|].
        -- right. eapply idle_ext; [apply Hap|]. by apply (idle_outside start _ (a_dat A)); [apply HT|].
Qed.

Lemma txn_crash_atomic_witness :
  exists g, script 2 9 disk0 again = Ret g /\
    exists s' W, commit 2 (lh (sys g)) (bc (sys g)) = Ret (tt, s') /\
     dwrites s' = dwrites (bc (sys g)) ++ W /\
     forall k d', crashes 2 (apply_writes (disk (bc (sys g))) (take k W)) d' ->
       recovers 2 d' (if (k <=? length (lh (sys g)))%nat then base g else cur g).
Proof.
  apply script_ok; [vm_compute; exact I|]. intros g Hg.
  apply (txn_crash_atomic 2 9 disk0 g ltac:(unfold MAXOPBLOCKS; lia) (idle_disk0 2)
    (script_reach 2 9 disk0 _ g Hg)).
  by apply again_commits.
Defined.

(** C35: [NBUF] is too small for what [begin_op] admits.  Three calls that log
    [MAXOPBLOCKS] = 10 blocks each are admitted together and fill the log;
    all 30 buffers are then pinned, and the commit's first [bread] ends in the
    panic "bget: no buffers". *)
Theorem full_transaction_panics :
  (exists g, script 2 (Z.to_nat MAXOPBLOCKS) disk0 (three 10) = Ret g /\
     length (lh (sys g)) = Z.to_nat LOGBLOCKS /\ committing (sys g) = true /\
     end_op_commit 2 (sys g) = Panic "bget: no buffers").
Proof.
  apply script_ok; [vm_compute; exact I|]. intros g Hg. apply full_spec.
  revert Hg. apply on_script. vm_compute. reflexivity.
Qed.
