(* ===== verification/Words.v ===== *)
(** * Little-endian fields in byte arrays

    A C struct or array in a block is read and written through its byte offsets;
    [getle n d o] is the unsigned [n]-byte field at offset [o]. *)

From S2P Require Import Prelude Mlfq.

Fixpoint getle (n : nat) (d : list Z) (o : nat) : Z :=
  match n with
  | O => 0
  | S n' => nth o d 0 + 256 * getle n' d (S o)
  end.

Fixpoint putle (n : nat) (d : list Z) (o : nat) (v : Z) : list Z :=
  match n with
  | O => d
  | S n' => putle n' (<[o := u8 v]> d) (S o) (v / 256)
  end.

Lemma length_putle n d o v : length (putle n d o v) = length d.
Proof. revert d o v. induction n as [|n IH]; intros; cbn [putle]; [done|]. by rewrite IH, length_insert. Qed.

Lemma nth_putle_out n d o v k : (k < o \/ o + n <= k)%nat -> nth k (putle n d o v) 0 = nth k d 0.
Proof.
  revert d o v. induction n as [|n IH]; intros d o v H; cbn [putle]; [done|].
  rewrite IH by lia. apply nth_insert_ne. lia.
Qed.

Lemma getle_ext n d d' o : (forall k, (o <= k < o + n)%nat -> nth k d 0 = nth k d' 0) -> getle n d o = getle n d' o.
Proof.
  revert o. induction n as [|n IH]; intros o H; cbn [getle]; [done|].
  rewrite (H o) by lia. rewrite (IH (S o)); [done|]. intros k Hk. apply H. lia.
Qed.

(** Fields at disjoint offsets do not disturb each other. *)
Lemma getle_putle_other n d o n' o' v :
  (o' + n' <= o \/ o + n <= o')%nat -> getle n' (putle n d o v) o' = getle n' d o'.
Proof. intros H. apply getle_ext. intros k Hk. apply nth_putle_out. lia. Qed.

Lemma getle_putle n d o v :
  (o + n <= length d)%nat -> getle n (putle n d o v) o = v mod 256 ^ Z.of_nat n.
Proof.
  revert d o v. induction n as [|n IH]; intros d o v H; cbn [getle putle]; [by rewrite Z.mod_1_r|].
  rewrite nth_putle_out by lia. rewrite nth_insert_eq by lia.
  rewrite IH by (rewrite length_insert; lia). unfold wrap. change (2 ^ 8) with 256.
  rewrite Nat2Z.inj_succ, Z.pow_succ_r by lia.
  rewrite Z.rem_mul_r by (try apply Z.pow_nonzero; try apply Z.pow_pos_nonneg; lia). lia.
Qed.

Lemma getle_range n d o :
  Forall (fun x => 0 <= x < 256) d -> 0 <= getle n d o < 256 ^ Z.of_nat n.
Proof.
  intros Hd. revert o. induction n as [|n IH]; intros o; cbn [getle]; [lia|].
  assert (0 <= nth o d 0 < 256) as Hn.
  { destruct (nth_in_or_default o d 0) as [Hin| ->]; [|lia].
    apply list_elem_of_In in Hin. by apply (proj1 (list.Forall_forall _ _) Hd). }
  specialize (IH (S o)). rewrite Nat2Z.inj_succ, Z.pow_succ_r by lia. lia.
Qed.

Lemma Forall_putle n d o v :
  Forall (fun x => 0 <= x < 256) d -> Forall (fun x => 0 <= x < 256) (putle n d o v).
Proof.
  revert d o v. induction n as [|n IH]; intros d o v H; cbn [putle]; [done|].
  apply IH, Forall_insert; [done|]. apply (wrap_range 8). lia.
Qed.

(** Signed 16-bit fields. *)
Abbreviation i16 := (swrap 16).

Lemma swrap_mod w x : 0 < w -> swrap w (x mod 2 ^ w) = swrap w x.
Proof. intros Hw. unfold swrap. rewrite Z.mod_mod; [done|]. apply Z.pow_nonzero; lia. Qed.

(** Array writes: [d\[o..\] = l]. *)
Fixpoint patch (d : list Z) (o : nat) (l : list Z) : list Z :=
  match l with
  | [] => d
  | x :: l' => patch (<[o := x]> d) (S o) l'
  end.

Lemma length_patch d o l : length (patch d o l) = length d.
Proof. revert d o. induction l as [|x l IH]; intros; cbn [patch]; [done|]. by rewrite IH, length_insert. Qed.

Lemma nth_patch d o l k :
  (o + length l <= length d)%nat ->
  nth k (patch d o l) 0 = if (o <=? k)%nat && (k <? o + length l)%nat then nth (k - o) l 0 else nth k d 0.
Proof.
  revert d o. induction l as [|x l IH]; intros d o H; cbn [patch length] in *.
  { destruct (Nat.leb_spec o k), (Nat.ltb_spec k (o + 0)); cbn; try done; lia. }
  rewrite IH by (rewrite length_insert; lia).
  destruct (Nat.leb_spec (S o) k), (Nat.ltb_spec k (S o + length l)), (Nat.leb_spec o k),
    (Nat.ltb_spec k (o + S (length l))); cbn [andb]; try lia.
  - replace (k - o)%nat with (S (k - S o)) by lia. done.
  - rewrite nth_insert_ne by lia. done.
  - replace k with o by lia. rewrite Nat.sub_diag. cbn. apply nth_insert_eq. lia.
  - rewrite nth_insert_ne by lia. done.
Qed.

Lemma Forall_patch P d o l : Forall P d -> Forall P l -> Forall P (patch d o l).
Proof.
  revert d o. induction l as [|x l IH]; intros d o Hd Hl; cbn [patch]; [done|].
  inversion Hl; subst. apply IH; [|done]. by apply Forall_insert.
Qed.
