(* ===== verification/FsBlk.v ===== *)
(** * Blocks of the file system: the allocator of [kernel/fs.c]

    The state is the contents of the disk blocks as the log presents them (the
    [cur] of [Txn]): [bread]; change; [log_write]; [brelse] is an update of one
    block.  A block is 1024 bytes; [uint] fields are read and written in little
    endian.  The superblock is a parameter with the layout [mkfs] gives it. *)

From S2P Require Import Prelude Mlfq Bio.

Definition BSIZE : Z := 1024.
Definition BPB : Z := BSIZE * 8.
#[global] Opaque BSIZE BPB.

Lemma BSIZE_val : BSIZE = 1024.
Proof. reflexivity. Qed.
Lemma BPB_val : BPB = 8192.
Proof. reflexivity. Qed.

(** [struct superblock]. *)
Record superblock := mkSb {
  magic : Z; sb_size : Z; nblocks : Z; ninodes : Z; nlog : Z;
  logstart : Z; inodestart : Z; bmapstart : Z
}.

Definition BBLOCK (sb : superblock) (b : Z) : Z := b / BPB + bmapstart sb.

(** [bp->data\[bi/8\] & m] and the two updates, with [m = 1 << (bi % 8)]. *)
Definition bit (bi : Z) : Z := Z.shiftl 1 (bi mod 8).
Definition byte_of (bi : Z) : nat := Z.to_nat (bi / 8).
Definition bit_set (d : block) (bi : Z) : bool := c_true (Z.land (nth (byte_of bi) d 0) (bit bi)).
Definition mark_bit (d : block) (bi : Z) : block :=
  <[byte_of bi := u8 (Z.lor (nth (byte_of bi) d 0) (bit bi))]> d.
Definition clear_bit (d : block) (bi : Z) : block :=
  <[byte_of bi := u8 (Z.land (nth (byte_of bi) d 0) (Z.lnot (bit bi)))]> d.

Definition zeros : block := repeat 0 (Z.to_nat BSIZE).

(** ** Operations *)

(** Any state with the disk in it. *)
Class HasDisk (S : Type) := {
  blk : S -> Z -> block;
  set_blk : (Z -> block) -> S -> S;
  blk_set s f : blk (set_blk f s) = f;
  set_set s f f' : set_blk f (set_blk f' s) = set_blk f s;
  set_blk_id s : set_blk (blk s) s = s
}.

Section Operations.
Context {S : Type} `{HD : !HasDisk S} (sb : superblock).

(** [bread] of a block for reading. *)
Definition readb (b : Z) : M S block := gets (fun s => blk s b).
(** A change of a block that ends in [log_write]. *)
Definition writeb (b : Z) (d : block) : M S unit := modify (fun s => set_blk (zset (blk s) b d) s).

Definition bzero (bno : Z) : M S unit := writeb bno zeros.

(** The inner loop of [balloc]: the first clear bit of one bitmap block. *)
Fixpoint scan_bits (n : nat) (d : block) (b bi : Z) : option Z :=
  match n with
  | O => None
  | Datatypes.S n' =>
    if (bi <? BPB) && (b + bi <? sb_size sb) then
      if bit_set d bi then scan_bits n' d b (bi + 1) else Some bi
    else None
  end.

(** The outer loop from block [b] on. *)
Fixpoint balloc_loop (n : nat) (b : Z) : M S Z :=
  match n with
  | O => mret 0
  | Datatypes.S n' =>
    if b <? sb_size sb then
      d ← readb (BBLOCK sb b);
      match scan_bits (Z.to_nat BPB) d b 0 with
      | Some bi =>
        _ ← writeb (BBLOCK sb b) (mark_bit d bi);
        _ ← bzero (b + bi);
        mret (b + bi)
      | None => balloc_loop n' (b + BPB)
      end
    else mret 0
  end.

(** [balloc]: 0 when the disk is full. *)
Definition balloc : M S Z := balloc_loop (Z.to_nat (sb_size sb / BPB) + 1) 0.

Definition bfree (b : Z) : M S unit :=
  d ← readb (BBLOCK sb b);
  _ ← panic_if (negb (bit_set d (b mod BPB))) "freeing free block";
  writeb (BBLOCK sb b) (clear_bit d (b mod BPB)).
End Operations.

(** ** Bits *)

Lemma land_bit x k : 0 <= k -> c_true (Z.land x (Z.shiftl 1 k)) = Z.testbit x k.
Proof.
  intros Hk. unfold c_true. rewrite Z.shiftl_1_l.
  destruct (Z.testbit x k) eqn:E; destruct (Z.eqb_spec (Z.land x (2 ^ k)) 0) as [H|H]; try done; exfalso.
  - assert (Z.testbit (Z.land x (2 ^ k)) k = true) as H1
      by (rewrite Z.land_spec, E, Z.pow2_bits_true by lia; done).
    rewrite H, Z.bits_0 in H1. done.
  - apply H. apply Z.bits_inj'. intros n Hn. rewrite Z.land_spec, Z.bits_0.
    destruct (Z.eq_dec n k) as [->|N]; [by rewrite E|].
    rewrite Z.pow2_bits_false by lia. apply andb_false_r.
Qed.

Lemma bit_set_testbit d bi : bit_set d bi = Z.testbit (nth (byte_of bi) d 0) (bi mod 8).
Proof. apply land_bit. apply Z.mod_pos_bound. lia. Qed.

Lemma u8_testbit x k : 0 <= k < 8 -> Z.testbit (u8 x) k = Z.testbit x k.
Proof. intros Hk. unfold wrap. rewrite Z.mod_pow2_bits_low; [done|lia]. Qed.

Lemma same_bit bi bi' : 0 <= bi -> 0 <= bi' -> byte_of bi = byte_of bi' -> bi mod 8 = bi' mod 8 -> bi = bi'.
Proof.
  unfold byte_of. intros H H' E M. assert (bi / 8 = bi' / 8).
  { apply Z2Nat.inj in E; [done|apply Z.div_pos; lia|apply Z.div_pos; lia]. }
  rewrite (Z.div_mod bi 8), (Z.div_mod bi' 8) by lia. lia.
Qed.

Lemma byte_of_lt bi (d : block) : length d = Z.to_nat BSIZE -> 0 <= bi < BPB -> (byte_of bi < length d)%nat.
Proof.
  intros -> H. unfold byte_of. rewrite BPB_val in H. rewrite BSIZE_val.
  apply Z2Nat.inj_lt; [apply Z.div_pos; lia|lia|]. apply Z.div_lt_upper_bound; lia.
Qed.

Section Bits.
Context (d : block) (bi : Z) (Hd : length d = Z.to_nat BSIZE) (Hbi : 0 <= bi < BPB).

(** An update of one byte that changes one bit. *)
Lemma bit_update x b' bi' :
  0 <= bi' ->
  (forall k, 0 <= k < 8 -> Z.testbit x k =
     if k =? bi mod 8 then b' else Z.testbit (nth (byte_of bi) d 0) k) ->
  bit_set (<[byte_of bi := u8 x]> d) bi' = if bi' =? bi then b' else bit_set d bi'.
Proof.
  intros Hb Hx. pose proof (Z.mod_pos_bound bi' 8 ltac:(lia)) as Hm. rewrite !bit_set_testbit.
  destruct (Nat.eq_dec (byte_of bi') (byte_of bi)) as [E|E].
  - rewrite E, nth_insert_eq by (by apply byte_of_lt). rewrite u8_testbit, Hx by done.
    destruct (Z.eqb_spec (bi' mod 8) (bi mod 8)) as [Em|Em].
    + rewrite (same_bit bi' bi) by lia. by rewrite Z.eqb_refl.
    + destruct (Z.eqb_spec bi' bi) as [->|]; [done|done].
  - rewrite nth_insert_ne by done. destruct (Z.eqb_spec bi' bi) as [->|]; [done|done].
Qed.

Lemma mark_bit_spec bi' : 0 <= bi' ->
  bit_set (mark_bit d bi) bi' = (if bi' =? bi then true else bit_set d bi').
Proof.
  intros Hb. apply bit_update; [done|]. intros k Hk. unfold bit. rewrite Z.lor_spec, Z.shiftl_1_l.
  rewrite Z.pow2_bits_eqb by (apply Z.mod_pos_bound; lia). rewrite Z.eqb_sym.
  destruct (k =? bi mod 8); [apply orb_true_r|apply orb_false_r].
Qed.

Lemma clear_bit_spec bi' : 0 <= bi' ->
  bit_set (clear_bit d bi) bi' = (if bi' =? bi then false else bit_set d bi').
Proof.
  intros Hb. apply bit_update; [done|]. intros k Hk. unfold bit. rewrite Z.land_spec, Z.lnot_spec by lia.
  rewrite Z.shiftl_1_l, Z.pow2_bits_eqb by (apply Z.mod_pos_bound; lia). rewrite Z.eqb_sym.
  destruct (k =? bi mod 8); [apply andb_false_r|apply andb_true_r].
Qed.
End Bits.

(** ** The allocator's specification *)

(** First block after the metadata. *)
Definition datastart (sb : superblock) : Z := sb_size sb - nblocks sb.

(** The layout [mkfs] writes: boot and super block, log, inodes, bitmap, data. *)
Record layout (sb : superblock) : Prop := {
  lay_data : 0 < datastart sb <= sb_size sb;
  lay_size : sb_size sb < 2 ^ 31 - 8192;
  lay_bmap : forall b, 0 <= b < sb_size sb -> 0 < BBLOCK sb b < datastart sb
}.

Section Allocator.
Context (sb : superblock) (HL : layout sb).

(** The bitmap's bit of block [b]. *)
Definition used (f : Z -> block) (b : Z) : bool := bit_set (f (BBLOCK sb b)) (b mod BPB).

Definition bytes_ok (d : block) : Prop := length d = Z.to_nat BSIZE /\ Forall (fun x => 0 <= x < 256) d.

(** Blocks are 1024 bytes, and only data blocks are free. *)
Record DInv (f : Z -> block) : Prop := {
  di_blocks : forall b, bytes_ok (f b);
  di_meta : forall b, 0 <= b < sb_size sb -> used f b = false -> datastart sb <= b
}.

(** A block of the data area. *)
Definition data_block (b : Z) : Prop := datastart sb <= b < sb_size sb.

(** [f'] is [f] with the mark of data block [r] set to [m], its contents those of
    [f'], and no other block or mark changed. *)
Record remark (f f' : Z -> block) (r : Z) (m : bool) : Prop := {
  rm_data : data_block r;
  rm_used : forall b, 0 <= b < sb_size sb -> used f' b = if b =? r then m else used f b;
  rm_other : forall b, b <> r -> b <> BBLOCK sb r -> f' b = f b
}.

Lemma mod_BPB b : 0 <= b mod BPB < BPB.
Proof. apply Z.mod_pos_bound. rewrite BPB_val. lia. Qed.

Lemma same_mark b b' : BBLOCK sb b = BBLOCK sb b' -> b mod BPB = b' mod BPB -> b = b'.
Proof.
  unfold BBLOCK. intros H1 H2. rewrite (Z.div_mod b BPB), (Z.div_mod b' BPB) by (rewrite BPB_val; lia).
  replace (b / BPB) with (b' / BPB) by lia. by rewrite H2.
Qed.

Lemma data_not_bmap b r : 0 <= b < sb_size sb -> data_block r -> BBLOCK sb b <> r.
Proof. intros Hb [Hr _]. pose proof (lay_bmap sb HL b Hb). lia. Qed.

Lemma data_in r : data_block r -> 0 <= r < sb_size sb.
Proof. intros [H1 H2]. pose proof (lay_data sb HL). lia. Qed.

(** Changing one bit of the bitmap and the contents of the block itself. *)
Lemma remark_bit f d' d r m :
  data_block r ->
  (forall bi, 0 <= bi -> bit_set d' bi = if bi =? r mod BPB then m else bit_set (f (BBLOCK sb r)) bi) ->
  remark f (zset (zset f (BBLOCK sb r) d') r d) r m.
Proof.
  intros Hr Hd. pose proof (data_in r Hr) as Hr'. split; [done|..].
  - intros b Hb. unfold used. rewrite zset_ne by (apply not_eq_sym; by apply data_not_bmap).
    destruct (Z.eq_dec (BBLOCK sb b) (BBLOCK sb r)) as [E|E].
    + rewrite E, zset_eq, Hd by apply mod_BPB.
      destruct (Z.eqb_spec (b mod BPB) (r mod BPB)) as [Em|Em].
      * rewrite (same_mark b r) by done. by rewrite Z.eqb_refl.
      * destruct (Z.eqb_spec b r) as [->|]; done.
    + rewrite zset_ne by done. destruct (Z.eqb_spec b r) as [->|]; done.
  - intros b N1 N2. by rewrite !zset_ne by done.
Qed.

Lemma bytes_ok_zeros : bytes_ok zeros.
Proof.
  unfold zeros. split; [by rewrite repeat_length|]. apply list.Forall_forall.
  intros x Hx%list_elem_of_In%repeat_spec. lia.
Qed.

Lemma bytes_ok_insert d k x : bytes_ok d -> bytes_ok (<[k := u8 x]> d).
Proof.
  intros [Hl Hf]. split; [by rewrite length_insert|]. apply Forall_insert; [done|].
  apply (wrap_range 8). lia.
Qed.

Lemma DInv_zset f b d : DInv f -> bytes_ok d ->
  (forall b', 0 <= b' < sb_size sb -> used (zset f b d) b' = false -> datastart sb <= b') ->
  DInv (zset f b d).
Proof.
  intros [H1 H2] Hd Hm. split; [|done]. intros b'. unfold zset. by destruct (b' =? b).
Qed.

(** The inner loop finds the first clear bit. *)
Lemma scan_bits_spec n d b bi :
  0 <= bi -> (Z.to_nat (BPB - bi) <= n)%nat ->
  match scan_bits sb n d b bi with
  | Some r => bi <= r < BPB /\ b + r < sb_size sb /\ bit_set d r = false /\
      forall k, bi <= k < r -> bit_set d k = true
  | None => forall k, bi <= k < BPB -> b + k < sb_size sb -> bit_set d k = true
  end.
Proof.
  revert bi. induction n as [|n IH]; intros bi Hbi Hn; cbn [scan_bits]; [intros; lia|].
  destruct (Z.ltb_spec bi BPB), (Z.ltb_spec (b + bi) (sb_size sb)); cbn [andb]; try (intros; lia).
  destruct (bit_set d bi) eqn:E.
  - specialize (IH (bi + 1) ltac:(lia) ltac:(lia)).
    destruct (scan_bits sb n d b (bi + 1)) as [r|].
    + destruct IH as (I1 & I2 & I3 & I4). split; [lia|]. split; [done|]. split; [done|].
      intros k Hk. destruct (Z.eq_dec k bi) as [->|]; [done|]. apply I4. lia.
    + intros k Hk Hs. destruct (Z.eq_dec k bi) as [->|]; [done|]. apply IH; lia.
  - split; [lia|]. split; [done|]. split; [done|]. intros; lia.
Qed.

Lemma BBLOCK_plus b bi : 0 <= bi < BPB -> (BPB | b) -> BBLOCK sb (b + bi) = BBLOCK sb b /\ (b + bi) mod BPB = bi.
Proof.
  intros Hbi [q ->]. unfold BBLOCK. pose proof BPB_val. split.
  - rewrite (Z.add_comm (q * BPB) bi), Z.div_add, Z.div_mul, Z.div_small by lia. lia.
  - rewrite (Z.add_comm (q * BPB) bi), Z.mod_add by lia. by apply Z.mod_small.
Qed.

Context {S : Type} `{HD : !HasDisk S}.

(** What [balloc] does: the first free block, marked and zeroed. *)
Definition allocated (f f' : Z -> block) (r : Z) : Prop :=
  remark f f' r true /\ used f r = false /\ (forall b, 0 <= b < r -> used f b = true) /\ f' r = zeros.

Lemma balloc_loop_spec n b s :
  DInv (blk s) -> 0 <= b -> (BPB | b) -> sb_size sb <= b + Z.of_nat n * BPB ->
  (forall k, 0 <= k < b -> k < sb_size sb -> used (blk s) k = true) ->
  (balloc_loop sb n b s = Ret (0, s) /\ forall k, 0 <= k < sb_size sb -> used (blk s) k = true) \/
  (exists r f', balloc_loop sb n b s = Ret (r, set_blk f' s) /\ allocated (blk s) f' r /\ DInv f').
Proof.
  intros HI. revert b. induction n as [|n IH]; intros b Hb Hdiv Hn Hu; cbn [balloc_loop].
  { left. split; [done|]. intros k Hk. apply Hu; lia. }
  destruct (Z.ltb_spec b (sb_size sb)) as [Hlt|Hge].
  2:{ left. split; [done|]. intros k Hk. apply Hu; lia. }
  unfold readb. rewrite (M_bind_Ret _ _ s (blk s (BBLOCK sb b)) s) by done.
  pose proof (scan_bits_spec (Z.to_nat BPB) (blk s (BBLOCK sb b)) b 0 ltac:(lia) ltac:(lia)) as Hs.
  destruct (scan_bits sb _ _ b 0) as [bi|].
  - destruct Hs as (Hbi & Hsz & Hbit & Hbef). right.
    destruct (BBLOCK_plus b bi Hbi Hdiv) as [E1 E2].
    assert (used (blk s) (b + bi) = false) as Hfree by (unfold used; by rewrite E1, E2).
    assert (data_block (b + bi)) as Hdb.
    { split; [|lia]. apply (di_meta _ HI); [lia|done]. }
    set (f1 := zset (blk s) (BBLOCK sb b) (mark_bit (blk s (BBLOCK sb b)) bi)).
    exists (b + bi), (zset f1 (b + bi) zeros). split.
    { unfold bzero, writeb. rewrite (M_bind_Ret _ _ s tt (set_blk f1 s)) by done.
      rewrite (M_bind_Ret _ _ _ tt (set_blk (zset f1 (b + bi) zeros) s)); [done|].
      cbn. by rewrite blk_set, set_set. }
    assert (remark (blk s) (zset f1 (b + bi) zeros) (b + bi) true) as Hrm.
    { unfold f1. rewrite <- E1. apply remark_bit; [done|]. intros k Hk. rewrite E2, E1.
      apply mark_bit_spec; [apply (di_blocks _ HI)|done|done]. }
    split; [split_and!; try done|].
    + intros k Hk. destruct (Z.lt_ge_cases k b) as [Hkb|Hkb]; [apply Hu; lia|].
      destruct (BBLOCK_plus b (k - b) ltac:(lia) Hdiv) as [F1 F2].
      replace (b + (k - b)) with k in F1, F2 by lia. unfold used. rewrite F1, F2. apply Hbef. lia.
    + by rewrite zset_eq.
    + split.
      * intros k. unfold f1, zset. destruct (k =? b + bi); [apply bytes_ok_zeros|].
        destruct (k =? BBLOCK sb b); [|apply HI]. apply bytes_ok_insert, HI.
      * intros k Hk. rewrite (rm_used _ _ _ _ Hrm k Hk). destruct (k =? b + bi); [done|]. by apply HI.
  - apply IH.
    + pose proof BPB_val. lia.
    + apply Z.divide_add_r; [done|apply Z.divide_refl].
    + lia.
    + intros k Hk Hsz. destruct (Z.lt_ge_cases k b) as [Hkb|Hkb]; [apply Hu; lia|].
      destruct (BBLOCK_plus b (k - b) ltac:(lia) Hdiv) as [F1 F2].
      replace (b + (k - b)) with k in F1, F2 by lia. unfold used. rewrite F1, F2. apply Hs; lia.
Qed.

Lemma balloc_spec s :
  DInv (blk s) ->
  (balloc sb s = Ret (0, s) /\ forall k, 0 <= k < sb_size sb -> used (blk s) k = true) \/
  (exists r f', balloc sb s = Ret (r, set_blk f' s) /\ allocated (blk s) f' r /\ DInv f').
Proof.
  intros HI. apply balloc_loop_spec; [done|lia|apply Z.divide_0_r| |intros; lia].
  pose proof BPB_val. pose proof (lay_data sb HL). pose proof (Z.div_mod (sb_size sb) BPB ltac:(lia)).
  pose proof (mod_BPB (sb_size sb)). pose proof (Z.div_pos (sb_size sb) BPB ltac:(lia) ltac:(lia)).
  rewrite Nat2Z.inj_add, Z2Nat.id by lia. lia.
Qed.

Lemma bfree_spec s r :
  DInv (blk s) -> data_block r -> used (blk s) r = true ->
  exists f', bfree sb r s = Ret (tt, set_blk f' s) /\ remark (blk s) f' r false /\ f' r = blk s r /\ DInv f'.
Proof.
  intros HI Hr Hu. unfold bfree, readb. rewrite (M_bind_Ret _ _ s (blk s (BBLOCK sb r)) s) by done.
  fold (used (blk s) r). rewrite Hu. rewrite (M_bind_Ret _ _ s tt s) by done.
  set (d := clear_bit (blk s (BBLOCK sb r)) (r mod BPB)).
  assert (BBLOCK sb r <> r) as Hne by (by apply data_not_bmap; [apply data_in|]).
  exists (zset (blk s) (BBLOCK sb r) d). split; [done|].
  assert (remark (blk s) (zset (zset (blk s) (BBLOCK sb r) d) r (blk s r)) r false) as Hrm.
  { apply remark_bit; [done|]. intros bi Hbi. apply clear_bit_spec; [apply HI|apply mod_BPB|done]. }
  assert (forall b, zset (zset (blk s) (BBLOCK sb r) d) r (blk s r) b = zset (blk s) (BBLOCK sb r) d b) as Hz.
  { intros b. destruct (Z.eq_dec b r) as [->|N]; [by rewrite zset_eq, zset_ne|by rewrite (zset_ne _ r) by done]. }
  assert (remark (blk s) (zset (blk s) (BBLOCK sb r) d) r false) as Hrm'.
  { destruct Hrm as [R1 R2 R3]. split; [done| |].
    - intros b Hb. rewrite <- R2 by done. unfold used. by rewrite Hz.
    - intros b N1 N2. rewrite <- R3 by done. by rewrite Hz. }
  split; [done|]. split; [by rewrite zset_ne|]. split.
  - intros b. unfold zset. destruct (b =? BBLOCK sb r); [apply bytes_ok_insert, HI|apply HI].
  - intros b Hb. rewrite (rm_used _ _ _ _ Hrm' b Hb). destruct (Z.eqb_spec b r) as [->|]; [|by apply HI].
    intros _. apply Hr.
Qed.
End Allocator.

(** ** A small disk *)

#[export] Instance disk_only : HasDisk (Z -> block).
Proof. refine {| blk := fun f => f; set_blk := fun f _ => f |}; done. Defined.

Module Disk100.
(** 100 blocks, the first 10 of them metadata; inodes in block 5, bitmap in 8. *)
Definition sb : superblock := mkSb 0 100 90 16 2 2 5 8.
Definition disk : Z -> block := fun b => if b =? 8 then <[0%nat := u8 255]> (<[1%nat := u8 3]> zeros) else zeros.

Lemma sb_layout : layout sb.
Proof.
  split; [vm_compute; split; congruence|vm_compute; congruence|].
  intros b Hb. unfold BBLOCK. rewrite BPB_val. cbn [bmapstart sb]. change (sb_size sb) with 100 in Hb.
  change (datastart sb) with 10. rewrite Z.div_small; lia.
Qed.

Lemma zlist_all (P : Z -> bool) n :
  forallb P (map Z.of_nat (seq 0 n)) = true -> forall b, 0 <= b < Z.of_nat n -> P b = true.
Proof.
  intros H b Hb. rewrite forallb_forall in H. apply H. apply in_map_iff. exists (Z.to_nat b).
  split; [lia|]. apply in_seq. lia.
Qed.

Lemma disk_inv : DInv sb disk.
Proof.
  split.
  - intros b. unfold disk. destruct (b =? 8); [|apply bytes_ok_zeros].
    apply bytes_ok_insert, bytes_ok_insert, bytes_ok_zeros.
  - intros b Hb Hu. pose proof (zlist_all (fun b => used sb disk b || (10 <=? b)) 100
      ltac:(vm_compute; reflexivity) b Hb) as H. cbn beta in H. rewrite Hu in H. apply Z.leb_le in H. done.
Qed.
End Disk100.

(** ** Theorems *)

(** C27: [balloc] hands out the lowest free block, marks it and returns it
    zeroed, touching nothing else but its bit; it returns 0 exactly when no
    block is free, and then changes nothing.  [bfree] clears exactly that bit again
    and panics on a block that is already free. *)
Theorem balloc_correct {S} `{HD : !HasDisk S} sb (s : S) :
  layout sb -> DInv sb (blk s) ->
  ((balloc sb s = Ret (0, s) /\ forall k, 0 <= k < sb_size sb -> used sb (blk s) k = true) \/
   (exists r f', balloc sb s = Ret (r, set_blk f' s) /\ data_block sb r /\ used sb (blk s) r = false /\
      (forall b, 0 <= b < r -> used sb (blk s) b = true) /\ f' r = zeros /\
      (forall b, 0 <= b < sb_size sb -> used sb f' b = if b =? r then true else used sb (blk s) b) /\
      (forall b, b <> r -> b <> BBLOCK sb r -> f' b = blk s b) /\ DInv sb f')) /\
  (forall r, data_block sb r ->
     if used sb (blk s) r then
       exists f', bfree sb r s = Ret (tt, set_blk f' s) /\ DInv sb f' /\
         (forall b, 0 <= b < sb_size sb -> used sb f' b = if b =? r then false else used sb (blk s) b) /\
         (forall b, b <> BBLOCK sb r -> f' b = blk s b)
     else bfree sb r s = Panic "freeing free block").
Proof.
  intros HL HI. split.
  - destruct (balloc_spec sb HL s HI) as [H|(r & f' & E & ([H1 H2 H3] & H4 & H5 & H6) & HI')]; [by left|].
    right. exists r, f'. repeat (split; [done|]). done.
  - intros r Hr. destruct (used sb (blk s) r) eqn:Hu.
    + destruct (bfree_spec sb HL s r HI Hr Hu) as (f' & E & [H1 H2 H3] & H4 & HI').
      exists f'. split; [done|]. split; [done|]. split; [done|]. intros b Hb.
      destruct (Z.eq_dec b r) as [->|N]; [done|by apply H3].
    + unfold bfree, readb. rewrite (M_bind_Ret _ _ s (blk s (BBLOCK sb r)) s) by done.
      fold (used sb (blk s) r). by rewrite Hu.
Qed.

Lemma balloc_correct_witness :
  exists f', balloc Disk100.sb Disk100.disk = Ret (10, f') /\ used Disk100.sb f' 10 = true.
Proof.
  destruct (proj1 (balloc_correct (HD := disk_only) Disk100.sb Disk100.disk Disk100.sb_layout Disk100.disk_inv))
    as [[_ H]|(r & f' & E & Hr & Hu & Hb & _ & Hm & _)].
  - exfalso. specialize (H 10 ltac:(vm_compute; split; congruence)). vm_compute in H. discriminate H.
  - assert (r = 10) as ->.
    { destruct Hr as [Hr _]. change (datastart Disk100.sb) with 10 in Hr.
      destruct (Z.lt_ge_cases 10 r) as [Hlt|]; [|lia]. specialize (Hb 10 ltac:(lia)).
      vm_compute in Hb. discriminate Hb. }
    exists f'. split; [exact E|]. rewrite (Hm 10 ltac:(vm_compute; split; congruence)). reflexivity.
Defined.
