(* ===== verification/FsInode.v ===== *)
(** * Inodes and file contents: [kernel/fs.c]

    The in-memory inode table, the on-disk inodes, the map from file offsets to
    disk blocks, and reading and writing file contents.  [ip] is the index of a
    table entry.  Copies from and to user memory go through [copyin]/[copyout] of
    [vm.c], parameters here: which bytes they transfer before failing. *)

From S2P Require Import Prelude Mlfq Bio FsBlk Words.

Definition NDIRECT : nat := 12.
Definition NINDIRECT : nat := 256.
Definition MAXFILE : Z := 268.
Definition NINODE : nat := 50.
Definition IPB : Z := 16.
#[global] Opaque NINDIRECT.

(** [struct inode] *)
Record inode := mkI {
  i_dev : Z; i_inum : Z; i_ref : Z; i_locked : bool; i_valid : bool;
  i_type : Z; i_major : Z; i_minor : Z; i_nlink : Z; i_size : Z; i_addrs : list Z
}.
Definition inode0 : inode := mkI 0 0 0 false false 0 0 0 0 0 (repeat 0 13).

Definition set_ref r x := mkI (i_dev x) (i_inum x) r (i_locked x) (i_valid x)
  (i_type x) (i_major x) (i_minor x) (i_nlink x) (i_size x) (i_addrs x).
Definition set_locked l x := mkI (i_dev x) (i_inum x) (i_ref x) l (i_valid x)
  (i_type x) (i_major x) (i_minor x) (i_nlink x) (i_size x) (i_addrs x).
Definition set_valid v x := mkI (i_dev x) (i_inum x) (i_ref x) (i_locked x) v
  (i_type x) (i_major x) (i_minor x) (i_nlink x) (i_size x) (i_addrs x).
Definition set_type t x := mkI (i_dev x) (i_inum x) (i_ref x) (i_locked x) (i_valid x)
  t (i_major x) (i_minor x) (i_nlink x) (i_size x) (i_addrs x).
Definition set_size z x := mkI (i_dev x) (i_inum x) (i_ref x) (i_locked x) (i_valid x)
  (i_type x) (i_major x) (i_minor x) (i_nlink x) z (i_addrs x).
Definition set_addr k a x := mkI (i_dev x) (i_inum x) (i_ref x) (i_locked x) (i_valid x)
  (i_type x) (i_major x) (i_minor x) (i_nlink x) (i_size x) (<[k := a]> (i_addrs x)).

Record fs := mkFs { fblk : Z -> block; itab : list inode }.

#[export] Instance fs_disk : HasDisk fs.
Proof.
  refine {| blk := fblk; set_blk := fun f s => mkFs f (itab s) |}; try done. by intros [].
Defined.

Definition geti (s : fs) (ip : nat) : inode := nth ip (itab s) inode0.
Definition updi (ip : nat) (f : inode -> inode) (s : fs) : fs :=
  mkFs (fblk s) (<[ip := f (geti s ip)]> (itab s)).

(** ** On-disk inodes *)

Definition IBLOCK (sb : superblock) (inum : Z) : Z := inum / IPB + inodestart sb.
(** Offset of [(struct dinode * )bp->data + inum % IPB]. *)
Definition dip_off (inum : Z) : nat := Z.to_nat (inum mod IPB) * 64.

(** [memmove] of [addrs]. *)
Fixpoint put_addrs (d : block) (o : nat) (l : list Z) : block :=
  match l with
  | [] => d
  | a :: l' => put_addrs (putle 4 d o a) (o + 4) l'
  end.
Fixpoint get_addrs (n : nat) (d : block) (o : nat) : list Z :=
  match n with
  | O => []
  | S n' => getle 4 d o :: get_addrs n' d (o + 4)
  end.

(** The assignments of [iupdate] on the block's data. *)
Definition put_dinode (d : block) (o : nat) (x : inode) : block :=
  let d := putle 2 d o (i_type x) in
  let d := putle 2 d (o + 2) (i_major x) in
  let d := putle 2 d (o + 4) (i_minor x) in
  let d := putle 2 d (o + 6) (i_nlink x) in
  let d := putle 4 d (o + 8) (i_size x) in
  put_addrs d (o + 12) (i_addrs x).

(** The assignments of [ilock] on the in-memory inode. *)
Definition get_dinode (d : block) (o : nat) (x : inode) : inode :=
  mkI (i_dev x) (i_inum x) (i_ref x) (i_locked x) (i_valid x)
    (i16 (getle 2 d o)) (i16 (getle 2 d (o + 2))) (i16 (getle 2 d (o + 4))) (i16 (getle 2 d (o + 6)))
    (getle 4 d (o + 8)) (get_addrs 13 d (o + 12)).

Section Inodes.
Context (sb : superblock).
Abbreviation F := (M fs).

Definition modi (ip : nat) (f : inode -> inode) : F unit := modify (updi ip f).
Definition readip {A} (ip : nat) (f : inode -> A) : F A := gets (fun s => f (geti s ip)).

Definition iupdate (ip : nat) : F unit :=
  x ← readip ip id;
  d ← readb (IBLOCK sb (i_inum x));
  writeb (IBLOCK sb (i_inum x)) (put_dinode d (dip_off (i_inum x)) x).

(** The scan of [iget]: the entry of the inode, or the first free entry. *)
Fixpoint iget_scan (l : list inode) (k : nat) (empty : option nat) (dev inum : Z) : nat + option nat :=
  match l with
  | [] => inr empty
  | x :: l' =>
    if (0 <? i_ref x) && (i_dev x =? dev) && (i_inum x =? inum) then inl k
    else iget_scan l' (S k)
      (match empty with None => if i_ref x =? 0 then Some k else None | Some _ => empty end) dev inum
  end.

Definition iget (dev inum : Z) : F nat :=
  s ← get;
  match iget_scan (itab s) 0 None dev inum with
  | inl ip => _ ← modi ip (fun x => set_ref (i_ref x + 1) x); mret ip
  | inr None => panic "iget: no inodes"
  | inr (Some ip) =>
    _ ← modi ip (fun x => mkI dev inum 1 (i_locked x) false
         (i_type x) (i_major x) (i_minor x) (i_nlink x) (i_size x) (i_addrs x));
    mret ip
  end.

Definition idup (ip : nat) : F nat :=
  _ ← modi ip (fun x => set_ref (i_ref x + 1) x); mret ip.

Definition ilock (ip : nat) : F unit :=
  x ← readip ip id;
  _ ← panic_if (i_ref x <? 1) "ilock";
  if i_locked x then undef "acquiresleep: would sleep"
  else
    _ ← modi ip (set_locked true);
    if i_valid x then mret tt
    else
      d ← readb (IBLOCK sb (i_inum x));
      _ ← modi ip (fun x => set_valid true (get_dinode d (dip_off (i_inum x)) x));
      t ← readip ip i_type;
      panic_if (t =? 0) "ilock: no type".

Definition iunlock (ip : nat) : F unit :=
  x ← readip ip id;
  _ ← panic_if (negb (i_locked x) || (i_ref x <? 1)) "iunlock";
  modi ip (set_locked false).

(** The scan of [ialloc] over the inode numbers from [inum]. *)
Fixpoint ialloc_loop (n : nat) (dev type inum : Z) : F (option nat) :=
  match n with
  | O => mret None
  | S n' =>
    if inum <? ninodes sb then
      d ← readb (IBLOCK sb inum);
      if getle 2 d (dip_off inum) =? 0 then
        _ ← writeb (IBLOCK sb inum)
              (putle 2 (patch d (dip_off inum) (repeat 0 64)) (dip_off inum) type);
        ip ← iget dev inum;
        mret (Some ip)
      else ialloc_loop n' dev type (inum + 1)
    else mret None
  end.
Definition ialloc (dev type : Z) : F (option nat) := ialloc_loop (Z.to_nat (ninodes sb)) dev type 1.

(** ** Block addresses *)

(** [a\[bn\]] of an indirect block. *)
Definition get32 (d : block) (k : nat) : Z := getle 4 d (4 * k).
Definition put32 (d : block) (k : nat) (v : Z) : block := putle 4 d (4 * k) v.

#[global] Arguments get32 : simpl never.
#[global] Arguments put32 : simpl never.

(** An entry of [ip->addrs], allocated if it is 0. *)
Definition bmap_direct (ip k : nat) : F Z :=
  addr ← readip ip (fun x => nth k (i_addrs x) 0);
  if addr =? 0 then
    a ← balloc sb;
    if a =? 0 then mret 0
    else _ ← modi ip (set_addr k a); mret a
  else mret addr.

Definition bmap (ip : nat) (bn : Z) : F Z :=
  if bn <? Z.of_nat NDIRECT then bmap_direct ip (Z.to_nat bn)
  else
    let bn := bn - Z.of_nat NDIRECT in
    if bn <? Z.of_nat NINDIRECT then
      ind ← bmap_direct ip NDIRECT;
      if ind =? 0 then mret 0
      else
        d ← readb ind;
        let addr := get32 d (Z.to_nat bn) in
        if addr =? 0 then
          a ← balloc sb;
          if a =? 0 then mret 0
          else _ ← writeb ind (put32 d (Z.to_nat bn) a); mret a
        else mret addr
    else panic "bmap: out of range".

(** [for (i = 0; i < NDIRECT; i++)] of [itrunc]. *)
Fixpoint trunc_direct (ip : nat) (ks : list nat) : F unit :=
  match ks with
  | [] => mret tt
  | k :: ks' =>
    a ← readip ip (fun x => nth k (i_addrs x) 0);
    _ ← (if a =? 0 then mret tt else _ ← bfree sb a; modi ip (set_addr k 0));
    trunc_direct ip ks'
  end.

(** [for (j = 0; j < NINDIRECT; j++)] of [itrunc]. *)
Fixpoint trunc_indirect (d : block) (js : list nat) : F unit :=
  match js with
  | [] => mret tt
  | j :: js' =>
    _ ← (if get32 d j =? 0 then mret tt else bfree sb (get32 d j));
    trunc_indirect d js'
  end.

Definition itrunc (ip : nat) : F unit :=
  _ ← trunc_direct ip (seq 0 NDIRECT);
  ind ← readip ip (fun x => nth NDIRECT (i_addrs x) 0);
  _ ← (if ind =? 0 then mret tt
       else
         d ← readb ind;
         _ ← trunc_indirect d (seq 0 NINDIRECT);
         _ ← bfree sb ind;
         modi ip (set_addr NDIRECT 0));
  _ ← modi ip (set_size 0);
  iupdate ip.

Definition iput (ip : nat) : F unit :=
  x ← readip ip id;
  _ ← (if (i_ref x =? 1) && i_valid x && (i_nlink x =? 0) then
         if i_locked x then undef "acquiresleep: would sleep"
         else
           _ ← modi ip (set_locked true);
           _ ← itrunc ip;
           _ ← modi ip (set_type 0);
           _ ← iupdate ip;
           _ ← modi ip (set_valid false);
           modi ip (set_locked false)
       else mret tt);
  modi ip (fun x => set_ref (i_ref x - 1) x).

Definition iunlockput (ip : nat) : F unit := _ ← iunlock ip; iput ip.

(** One inode of [ireclaim]'s scan. *)
Definition ireclaim_one (dev inum : Z) : F unit :=
  d ← readb (IBLOCK sb inum);
  if negb (getle 2 d (dip_off inum) =? 0) && (getle 2 d (dip_off inum + 6) =? 0) then
    ip ← iget dev inum;
    _ ← ilock ip;
    _ ← iunlock ip;
    iput ip
  else mret tt.

Fixpoint ireclaim_loop (n : nat) (dev inum : Z) : F unit :=
  match n with
  | O => mret tt
  | S n' =>
    if inum <? ninodes sb then _ ← ireclaim_one dev inum; ireclaim_loop n' dev (inum + 1)
    else mret tt
  end.
Definition ireclaim (dev : Z) : F unit := ireclaim_loop (Z.to_nat (ninodes sb)) dev 1.
End Inodes.

(** ** Files on disk *)

Definition MAXBN : nat := 268.

(** The address of the indirect block and of block [bn] of a file; 0 if none. *)
Definition ind_addr (s : fs) (ip : nat) : Z := nth NDIRECT (i_addrs (geti s ip)) 0.
Definition fblock (s : fs) (ip bn : nat) : Z :=
  if (bn <? NDIRECT)%nat then nth bn (i_addrs (geti s ip)) 0
  else if ind_addr s ip =? 0 then 0 else get32 (fblk s (ind_addr s ip)) (bn - NDIRECT).

(** Contents of block [bn]; blocks not allocated read as zeros. *)
Definition fcontent (s : fs) (ip bn : nat) : block :=
  if fblock s ip bn =? 0 then zeros else fblk s (fblock s ip bn).

Section Files.
Context (sb : superblock) (HL : layout sb).

(** A block of the bitmap. *)
Definition is_bmap (b : Z) : Prop := exists x, 0 <= x < sb_size sb /\ b = BBLOCK sb x.

(** In use, in the data area. *)
Definition live (f : Z -> block) (a : Z) : Prop := data_block sb a /\ used sb f a = true.

Record file_wf (s : fs) (ip : nat) : Prop := {
  fw_in : (ip < length (itab s))%nat;
  fw_len : length (i_addrs (geti s ip)) = 13%nat;
  fw_ind : ind_addr s ip <> 0 -> live (fblk s) (ind_addr s ip);
  fw_live : forall bn, (bn < MAXBN)%nat -> fblock s ip bn <> 0 ->
    live (fblk s) (fblock s ip bn) /\ fblock s ip bn <> ind_addr s ip;
  fw_inj : forall bn bn', (bn < MAXBN)%nat -> (bn' < MAXBN)%nat -> fblock s ip bn <> 0 ->
    fblock s ip bn = fblock s ip bn' -> bn = bn'
}.

(** Block [b] belongs to the file. *)
Definition own (s : fs) (ip : nat) (b : Z) : Prop :=
  b = ind_addr s ip \/ exists bn, (bn < MAXBN)%nat /\ b = fblock s ip bn.

(** Address [a'] is [a], or a block that was free in [f]. *)
Definition same_or_fresh (f : Z -> block) (a a' : Z) : Prop :=
  a' = a \/ (0 <= a' < sb_size sb /\ used sb f a' = false).

(** What an operation on one file leaves alone: everything but the file's own
    blocks, blocks that were free, and the bitmap. *)
Record frame (s s' : fs) (ip : nat) : Prop := {
  fr_disk : DInv sb (fblk s');
  fr_wf : file_wf s' ip;
  fr_len : length (itab s') = length (itab s);
  fr_tab : forall j, j <> ip -> geti s' j = geti s j;
  fr_ip : exists l, geti s' ip = mkI (i_dev (geti s ip)) (i_inum (geti s ip)) (i_ref (geti s ip))
    (i_locked (geti s ip)) (i_valid (geti s ip)) (i_type (geti s ip)) (i_major (geti s ip))
    (i_minor (geti s ip)) (i_nlink (geti s ip)) (i_size (geti s ip)) l;
  fr_block : forall bn, (bn < MAXBN)%nat -> fblock s ip bn <> 0 -> fblock s' ip bn = fblock s ip bn;
  fr_used : forall b, 0 <= b < sb_size sb -> used sb (fblk s) b = true -> used sb (fblk s') b = true;
  fr_other : forall b, ~ is_bmap b -> (0 <= b < sb_size sb -> used sb (fblk s) b = true) ->
    ~ own s ip b -> fblk s' b = fblk s b;
  fr_ind : same_or_fresh (fblk s) (ind_addr s ip) (ind_addr s' ip);
  fr_fresh : forall bn, (bn < MAXBN)%nat -> same_or_fresh (fblk s) (fblock s ip bn) (fblock s' ip bn)
}.

(** The file's contents are the same, too. *)
Definition grown (s s' : fs) (ip : nat) : Prop :=
  frame s s' ip /\ forall bn, (bn < MAXBN)%nat -> fcontent s' ip bn = fcontent s ip bn.

Lemma geti_updi ip f s : (ip < length (itab s))%nat -> geti (updi ip f s) ip = f (geti s ip).
Proof. intros H. unfold geti at 1, updi. cbn. by apply nth_insert_eq. Qed.

Lemma geti_updi_ne ip j f s : j <> ip -> geti (updi ip f s) j = geti s j.
Proof. intros H. unfold geti, updi. cbn. by apply nth_insert_ne. Qed.

Lemma length_updi ip f s : length (itab (updi ip f s)) = length (itab s).
Proof. apply length_insert. Qed.

Lemma live_not_bmap f a : live f a -> ~ is_bmap a.
Proof. intros [Hd _] (x & Hx & ->). by apply (data_not_bmap sb HL x (BBLOCK sb x)). Qed.

Lemma live_nonzero f a : live f a -> a <> 0.
Proof. intros [[H _] _] ->. pose proof (lay_data sb HL). lia. Qed.

(** Data blocks in use survive an allocation. *)
Lemma alloc_live f f' r a : allocated sb f f' r -> live f a -> f' a = f a /\ live f' a /\ a <> r.
Proof.
  intros (Hrm & Hfree & _ & _) [Hd Hu].
  assert (a <> r) as Har by (intros ->; congruence).
  split; [|split; [split; [done|]|done]].
  - apply (rm_other _ _ _ _ _ Hrm); [done|]. intros ->.
    by apply (data_not_bmap sb HL r (BBLOCK sb r)); [apply (data_in sb HL), Hrm|..].
  - rewrite (rm_used _ _ _ _ _ Hrm) by (by apply (data_in sb HL)).
    by destruct (Z.eqb_spec a r).
Qed.

(** The state after [balloc]: the file is the same. *)
Lemma alloc_file s f' ip r :
  allocated sb (fblk s) f' r -> file_wf s ip ->
  let s' := mkFs f' (itab s) in
  file_wf s' ip /\ (forall bn, (bn < MAXBN)%nat -> fblock s' ip bn = fblock s ip bn) /\
  (forall bn, (bn < MAXBN)%nat -> fcontent s' ip bn = fcontent s ip bn) /\
  ind_addr s' ip = ind_addr s ip.
Proof.
  intros Ha [W1 W2 W3 W4 W5] s'.
  assert (ind_addr s' ip = ind_addr s ip) as Ei by done.
  assert (forall bn, fblock s' ip bn = fblock s ip bn) as Eb.
  { intros bn. unfold fblock. rewrite Ei. destruct (bn <? NDIRECT)%nat; [done|].
    destruct (Z.eqb_spec (ind_addr s ip) 0) as [|Hn]; [done|]. cbn.
    by rewrite (proj1 (alloc_live _ _ _ _ Ha (W3 Hn))). }
  assert (forall bn, (bn < MAXBN)%nat -> fcontent s' ip bn = fcontent s ip bn) as Ec.
  { intros bn Hbn. unfold fcontent. rewrite Eb. destruct (Z.eqb_spec (fblock s ip bn) 0) as [|Hn]; [done|].
    apply (alloc_live _ _ _ _ Ha), (W4 bn Hbn Hn). }
  split; [|auto]. split; rewrite ?Ei; try done.
  - intros Hn. apply (alloc_live _ _ _ _ Ha (W3 Hn)).
  - intros bn Hbn. rewrite Eb. intros Hn. destruct (W4 bn Hbn Hn) as [Hl He].
    split; [apply (alloc_live _ _ _ _ Ha Hl)|done].
  - intros bn bn' Hb Hb'. rewrite !Eb. by apply W5.
Qed.

Lemma alloc_frame s f' r :
  DInv sb (fblk s) -> allocated sb (fblk s) f' r ->
  (forall b, 0 <= b < sb_size sb -> used sb (fblk s) b = true -> used sb f' b = true) /\
  (forall b, ~ is_bmap b -> (0 <= b < sb_size sb -> used sb (fblk s) b = true) ->
     f' b = fblk s b) /\
  (0 < r < sb_size sb) /\ live f' r.
Proof.
  intros HI (Hrm & Hfree & _ & _). pose proof (rm_data _ _ _ _ _ Hrm) as Hd.
  pose proof (data_in sb HL r Hd) as Hr. split; [|split; [|split; [|split; [done|]]]].
  - intros b Hb Hu. rewrite (rm_used _ _ _ _ _ Hrm) by done. by destruct (b =? r).
  - intros b Hb Hu. apply (rm_other _ _ _ _ _ Hrm).
    + intros ->. rewrite Hu in Hfree by done. done.
    + intros ->. apply Hb. by exists r.
  - destruct Hd as [Hd _]. pose proof (lay_data sb HL). lia.
  - rewrite (rm_used _ _ _ _ _ Hrm), Z.eqb_refl by done. done.
Qed.

Lemma get32_zeros k : get32 zeros k = 0.
Proof.
  unfold get32. generalize (4 * k)%nat. generalize 4%nat. intros n. induction n as [|n IH]; intros o; [done|].
  cbn [getle]. rewrite IH. unfold zeros. by rewrite nth_repeat.
Qed.

Lemma get32_put32 d k v :
  (4 * k + 4 <= length d)%nat -> 0 <= v < 2 ^ 32 -> get32 (put32 d k v) k = v.
Proof. intros H Hv. unfold get32, put32. rewrite getle_putle by lia. by apply Z.mod_small. Qed.

Lemma get32_put32_ne d k k' v : k' <> k -> get32 (put32 d k v) k' = get32 d k'.
Proof. intros H. unfold get32, put32. apply getle_putle_other. lia. Qed.

Lemma bytes_ok_put32 d k v : bytes_ok d -> bytes_ok (put32 d k v).
Proof. intros [H1 H2]. split; [by unfold put32; rewrite length_putle|by apply Forall_putle]. Qed.

(** A fresh zeroed block entered in [addrs] (entry [NDIRECT] is the indirect
    block). *)
Lemma attach_addr s f' ip k r :
  DInv sb (fblk s) -> file_wf s ip -> (k <= NDIRECT)%nat -> nth k (i_addrs (geti s ip)) 0 = 0 ->
  allocated sb (fblk s) f' r -> DInv sb f' ->
  let s2 := updi ip (set_addr k r) (mkFs f' (itab s)) in
  grown s s2 ip /\ nth k (i_addrs (geti s2 ip)) 0 = r /\
  (forall bn, (bn < MAXBN)%nat -> fblock s2 ip bn = if (bn =? k)%nat && (k <? NDIRECT)%nat then r else fblock s ip bn).
Proof.
  intros HI HW Hk H0 Ha HI' s2. pose proof HW as [W1 W2 W3 W4 W5].
  destruct (alloc_file s f' ip r Ha HW) as (HW1 & Eb1 & Ec1 & Ei1).
  destruct (alloc_frame s f' r HI Ha) as (Fu & Fo & Hr & Hlr).
  assert (geti s2 ip = set_addr k r (geti s ip)) as Eg by (unfold s2; rewrite geti_updi by done; done).
  assert (length (i_addrs (geti s ip)) = 13)%nat as Hlen by done. unfold NDIRECT in Hk.
  assert (nth k (i_addrs (geti s2 ip)) 0 = r) as Ek.
  { rewrite Eg. cbn [set_addr i_addrs]. apply nth_insert_eq. lia. }
  assert (forall j, j <> k -> nth j (i_addrs (geti s2 ip)) 0 = nth j (i_addrs (geti s ip)) 0) as Ene.
  { intros j Hj. rewrite Eg. cbn [set_addr i_addrs]. by apply nth_insert_ne. }
  assert (forall a, live (fblk s) a -> f' a = fblk s a /\ live f' a /\ a <> r) as Hal
    by (intros a; by apply alloc_live).
  assert (forall bn, (bn < MAXBN)%nat ->
    fblock s2 ip bn = if (bn =? k)%nat && (k <? NDIRECT)%nat then r else fblock s ip bn) as Eb.
  { intros bn Hbn. unfold fblock, ind_addr, NDIRECT in *. cbn [fblk s2 updi].
    destruct (Nat.eqb_spec bn k) as [->|Nk], (Nat.ltb_spec k 12); cbn [andb]; try done.
    - destruct (Nat.ltb_spec k 12); [lia|]. assert (k = 12%nat) as -> by lia.
      rewrite Ek, H0. cbn. destruct (Z.eqb_spec r 0); [done|].
      destruct Ha as (_ & _ & _ & ->). apply get32_zeros.
    - destruct (Nat.ltb_spec bn 12); [by apply Ene|]. rewrite Ene by lia.
      destruct (Z.eqb_spec (nth 12 (i_addrs (geti s ip)) 0) 0) as [|Hn]; [done|].
      by rewrite (proj1 (Hal _ (W3 Hn))).
    - assert (k = 12%nat) as -> by lia. destruct (Nat.ltb_spec bn 12); [by apply Ene|].
      rewrite Ek, H0. cbn. destruct (Z.eqb_spec r 0); [done|].
      destruct Ha as (_ & _ & _ & ->). apply get32_zeros. }
  assert (forall bn, (bn < MAXBN)%nat ->
    (if fblock s ip bn =? 0 then zeros else f' (fblock s ip bn)) = fcontent s ip bn) as Ec2.
  { intros bn Hbn. unfold fcontent. destruct (Z.eqb_spec (fblock s ip bn) 0) as [|Hn]; [done|].
    apply Hal. by apply W4. }
  assert (ind_addr s2 ip = if (k =? NDIRECT)%nat then r else ind_addr s ip) as Eind.
  { unfold ind_addr. destruct (Nat.eqb_spec k NDIRECT) as [<-|]; [done|]. by apply Ene. }
  split; [|done]. split.
  2:{ intros bn Hbn. unfold fcontent at 1. rewrite (Eb bn Hbn).
    destruct (Nat.eqb_spec bn k) as [->|], (Nat.ltb_spec k NDIRECT); cbn [andb]; try (by apply Ec2).
    destruct (Z.eqb_spec r 0); [lia|]. unfold fcontent, fblock. destruct (Nat.ltb_spec k NDIRECT); [|lia].
    rewrite H0. cbn. by destruct Ha as (_ & _ & _ & ->). }
  split; try done.
  - split.
    + unfold s2. by rewrite length_updi.
    + rewrite Eg. cbn. by rewrite length_insert.
    + rewrite Eind. destruct (k =? NDIRECT)%nat; [done|]. intros Hn. by apply Hal, W3.
    + intros bn Hbn. rewrite (Eb bn Hbn), Eind.
      destruct (Nat.eqb_spec bn k), (Nat.ltb_spec k NDIRECT), (Nat.eqb_spec k NDIRECT); cbn [andb]; try lia.
      { intros _. split; [done|]. intros E. destruct (Z.eqb_spec (ind_addr s ip) 0); [lia|].
        by apply (Hal (ind_addr s ip)); [apply W3|]. }
      all: intros Hn; destruct (W4 bn Hbn Hn) as [Hl He]; split; [apply Hal, Hl|].
      all: first [exact He|apply (Hal _ Hl)].
    + intros bn bn' Hb Hb'. rewrite (Eb bn Hb), (Eb bn' Hb').
      destruct (Nat.eqb_spec bn k), (Nat.eqb_spec bn' k), (Nat.ltb_spec k NDIRECT); cbn [andb];
        intros Hn E; try lia; try (by apply W5).
      * exfalso. rewrite E in Hn. destruct (W4 bn' Hb' Hn) as [Hl _]. by apply (Hal _ Hl).
      * exfalso. destruct (W4 bn Hb Hn) as [Hl _]. by apply (Hal _ Hl).
  - unfold s2. by rewrite length_updi.
  - intros j Hj. unfold s2. by rewrite geti_updi_ne.
  - eexists. rewrite Eg. done.
  - intros bn Hbn Hn. rewrite (Eb bn Hbn).
    destruct (Nat.eqb_spec bn k) as [->|], (Nat.ltb_spec k NDIRECT); cbn [andb]; try done.
    exfalso. apply Hn. unfold fblock. destruct (Nat.ltb_spec k NDIRECT); [done|lia].
  - auto.
  - rewrite Eind. destruct (k =? NDIRECT)%nat; [|by left]. right. split; [lia|apply Ha].
  - intros bn Hbn. rewrite (Eb bn Hbn). destruct (_ && _); [|by left]. right. split; [lia|apply Ha].
Qed.

Lemma frame_refl s ip : DInv sb (fblk s) -> file_wf s ip -> frame s s ip.
Proof.
  intros HI HW. split; try done; [|by left|by left].
  exists (i_addrs (geti s ip)). by destruct (geti s ip).
Qed.

Lemma grown_refl s ip : DInv sb (fblk s) -> file_wf s ip -> grown s s ip.
Proof. intros HI HW. split; [by apply frame_refl|done]. Qed.

Lemma same_or_fresh_trans s s1 ip a a1 a2 :
  frame s s1 ip -> same_or_fresh (fblk s) a a1 -> same_or_fresh (fblk s1) a1 a2 ->
  same_or_fresh (fblk s) a a2.
Proof.
  intros HF [->|H] [->|[H1 H2]]; try (by left); try (by right); right; split; try done;
    apply not_true_is_false; intros Hu; rewrite (fr_used _ _ _ HF _ H1 Hu) in H2; done.
Qed.

(** Blocks the file has gained were free. *)
Lemma own_frame s s1 ip b :
  frame s s1 ip -> (0 <= b < sb_size sb -> used sb (fblk s) b = true) -> own s1 ip b -> own s ip b.
Proof.
  intros HF Hu [->|(bn & Hbn & ->)].
  - destruct (fr_ind _ _ _ HF) as [->|[H1 H2]]; [by left|]. rewrite Hu in H2; done.
  - destruct (fr_fresh _ _ _ HF bn Hbn) as [E|[H1 H2]]; [|rewrite Hu in H2; done].
    rewrite E. right. by exists bn.
Qed.

Lemma frame_trans s s1 s2 ip : frame s s1 ip -> frame s1 s2 ip -> frame s s2 ip.
Proof.
  intros HF HF2. pose proof HF as [A1 A2 A3 A4 [l A5] A6 A7 A8 A9 A10].
  destruct HF2 as [B1 B2 B3 B4 [l' B5] B6 B7 B8 B9 B10]. split; try done.
  - congruence.
  - intros j Hj. by rewrite B4, A4.
  - exists l'. by rewrite B5, A5.
  - intros bn Hb Hz. assert (fblock s1 ip bn <> 0) by (by rewrite A6). rewrite B6, A6; auto.
  - auto.
  - intros b Hb Hu Ho. rewrite <- (A8 b) by done. apply B8; [done|auto|].
    intros Ho1. apply Ho. by apply (own_frame s s1).
  - by apply (same_or_fresh_trans s s1 ip _ (ind_addr s1 ip)).
  - intros bn Hbn. apply (same_or_fresh_trans s s1 ip _ (fblock s1 ip bn)); auto.
Qed.

Lemma grown_trans s s1 s2 ip : grown s s1 ip -> grown s1 s2 ip -> grown s s2 ip.
Proof.
  intros [F1 C1] [F2 C2]. split; [by apply (frame_trans s s1)|]. intros bn Hb. by rewrite C2, C1.
Qed.

(** A fresh zeroed block entered in the indirect block. *)
Lemma attach_indirect s f' ip j r :
  DInv sb (fblk s) -> file_wf s ip -> (j < NINDIRECT)%nat -> ind_addr s ip <> 0 ->
  get32 (fblk s (ind_addr s ip)) j = 0 -> allocated sb (fblk s) f' r -> DInv sb f' ->
  let s2 := mkFs (zset f' (ind_addr s ip) (put32 (fblk s (ind_addr s ip)) j r)) (itab s) in
  grown s s2 ip /\ fblock s2 ip (NDIRECT + j) = r.
Proof.
  intros HI HW Hj Hind H0 Ha HI' s2. pose proof HW as [W1 W2 W3 W4 W5].
  destruct (alloc_frame s f' r HI Ha) as (Fu & Fo & Hr & Hlr).
  assert (forall a, live (fblk s) a -> f' a = fblk s a /\ live f' a /\ a <> r) as Hal
    by (intros a; by apply alloc_live).
  set (i := ind_addr s ip) in *. pose proof (W3 Hind) as Hli. pose proof (live_not_bmap _ _ Hli) as Hnb.
  assert (forall b, 0 <= b < sb_size sb -> used sb (fblk s2) b = used sb f' b) as Hus.
  { intros b Hb. unfold used. cbn [fblk s2]. rewrite zset_ne; [done|]. intros ->. apply Hnb. by exists b. }
  assert (forall a, live f' a -> live (fblk s2) a) as Hl2.
  { intros a [Hd Hu]. split; [done|]. rewrite Hus; [done|]. by apply (data_in sb HL). }
  assert (length (fblk s i) = 1024)%nat as Hlen by (rewrite (proj1 (di_blocks _ _ HI i)), BSIZE_val; done).
  assert (4 * j + 4 <= length (fblk s i))%nat as Hfit.
  { rewrite Hlen. change NINDIRECT with 256%nat in Hj. lia. }
  assert (0 <= r < 2 ^ 32) as Hr32 by (pose proof (lay_size sb HL); lia).
  assert (forall bn, (bn < MAXBN)%nat ->
    fblock s2 ip bn = if (bn =? NDIRECT + j)%nat then r else fblock s ip bn) as Eb.
  { intros bn Hbn. unfold fblock. change (ind_addr s2 ip) with i. fold i. cbn [fblk s2]. rewrite zset_eq.
    change (geti s2 ip) with (geti s ip). rewrite (proj2 (Z.eqb_neq i 0) Hind).
    destruct (Nat.ltb_spec bn NDIRECT), (Nat.eqb_spec bn (NDIRECT + j)); try done; try lia.
    - subst bn. replace (NDIRECT + j - NDIRECT)%nat with j by lia. by apply get32_put32.
    - apply get32_put32_ne. lia. }
  assert (fblock s ip (NDIRECT + j) = 0) as Hz.
  { unfold fblock. fold i. rewrite (proj2 (Z.eqb_neq i 0) Hind).
    destruct (Nat.ltb_spec (NDIRECT + j) NDIRECT); [lia|]. by replace (NDIRECT + j - NDIRECT)%nat with j by lia. }
  assert (NDIRECT + j < MAXBN)%nat as Hjb by (change NINDIRECT with 256%nat in Hj; unfold NDIRECT, MAXBN; lia).
  split; [|rewrite (Eb _ Hjb), Nat.eqb_refl; done]. split.
  2:{ intros bn Hbn. unfold fcontent. rewrite (Eb bn Hbn).
    destruct (Nat.eqb_spec bn (NDIRECT + j)) as [->|].
    + rewrite Hz. destruct (Z.eqb_spec r 0); [lia|]. cbn [fblk s2]. rewrite zset_ne.
      * by destruct Ha as (_ & _ & _ & ->).
      * apply Hal, Hli.
    + destruct (Z.eqb_spec (fblock s ip bn) 0) as [|Hn]; [done|]. destruct (W4 bn Hbn Hn) as [Hl He].
      cbn [fblk s2]. rewrite zset_ne by (by apply not_eq_sym). by apply Hal. }
  split; try done.
  - split.
    + intros b. cbn [fblk s2]. unfold zset. destruct (b =? i); [|apply HI'].
      apply bytes_ok_put32, HI.
    + intros b Hb. rewrite Hus by done. by apply HI'.
  - split; try done.
    + intros _. by apply Hl2, Hal.
    + intros bn Hbn. change (ind_addr s2 ip) with i. rewrite (Eb bn Hbn). destruct (bn =? NDIRECT + j)%nat.
      * intros _. split; [by apply Hl2|]. intros E. by apply (Hal i).
      * intros Hn. destruct (W4 bn Hbn Hn) as [Hl He]. split; [by apply Hl2, Hal|done].
    + intros bn bn' Hb Hb'. rewrite (Eb bn Hb), (Eb bn' Hb').
      destruct (Nat.eqb_spec bn (NDIRECT + j)), (Nat.eqb_spec bn' (NDIRECT + j)); intros Hn E;
        [congruence|exfalso..|by apply W5].
      * rewrite E in Hn. destruct (W4 bn' Hb' Hn) as [Hl _]. by apply (Hal _ Hl).
      * destruct (W4 bn Hb Hn) as [Hl _]. by apply (Hal _ Hl).
  - exists (i_addrs (geti s ip)). change (geti s2 ip) with (geti s ip). by destruct (geti s ip).
  - intros bn Hbn Hn. rewrite (Eb bn Hbn). by destruct (Nat.eqb_spec bn (NDIRECT + j)) as [->|].
  - intros b Hb Hu. rewrite Hus by done. by apply Fu.
  - intros b Hb Hu Ho. cbn [fblk s2]. rewrite zset_ne; [by apply Fo|]. intros E. apply Ho. left. by rewrite <- E.
  - by left.
  - intros bn Hbn. rewrite (Eb bn Hbn). destruct (bn =? _)%nat; [|by left]. right. split; [lia|apply Ha].
Qed.

Definition disk_full (f : Z -> block) : Prop := forall k, 0 <= k < sb_size sb -> used sb f k = true.

Lemma bmap_direct_spec s ip k :
  DInv sb (fblk s) -> file_wf s ip -> (k <= NDIRECT)%nat ->
  exists a s', bmap_direct sb ip k s = Ret (a, s') /\ grown s s' ip /\
    nth k (i_addrs (geti s' ip)) 0 = a /\
    (nth k (i_addrs (geti s ip)) 0 <> 0 -> s' = s) /\ (a = 0 -> disk_full (fblk s')) /\
    (k = NDIRECT -> forall bn, (bn < MAXBN)%nat -> fblock s' ip bn = fblock s ip bn).
Proof.
  intros HI HW Hk. unfold bmap_direct, readip.
  rewrite (M_bind_Ret _ _ s (nth k (i_addrs (geti s ip)) 0) s) by done.
  destruct (Z.eqb_spec (nth k (i_addrs (geti s ip)) 0) 0) as [E0|E0].
  2:{ eexists _, s. split; [done|]. split; [by apply grown_refl|]. done. }
  destruct (balloc_spec sb HL (HD := fs_disk) s HI) as [[E Hfull]|(r & f' & E & Ha & HI')];
    rewrite (M_bind_Ret _ _ _ _ _ E).
  { exists 0, s. split; [done|]. split; [by apply grown_refl|]. done. }
  destruct (alloc_frame s f' r HI Ha) as (_ & _ & Hr & _).
  destruct (attach_addr s f' ip k r HI HW Hk E0 Ha HI') as (Hg & En & Eb).
  destruct (Z.eqb_spec r 0) as [|_]; [lia|].
  exists r, (updi ip (set_addr k r) (mkFs f' (itab s))). split; [done|]. split; [exact Hg|]. split; [done|]. split; [done|]. split; [lia|].
  intros -> bn Hb. rewrite (Eb bn Hb), Nat.ltb_irrefl, andb_false_r. done.
Qed.

Lemma bmap_spec s ip bn :
  DInv sb (fblk s) -> file_wf s ip -> (bn < MAXBN)%nat ->
  exists r s', bmap sb ip (Z.of_nat bn) s = Ret (r, s') /\ grown s s' ip /\ fblock s' ip bn = r /\
    (fblock s ip bn <> 0 -> s' = s) /\ (r = 0 -> disk_full (fblk s')).
Proof.
  intros HI HW Hbn. unfold bmap. destruct (Z.ltb_spec (Z.of_nat bn) (Z.of_nat NDIRECT)) as [Hd|Hd].
  - rewrite Nat2Z.id. destruct (bmap_direct_spec s ip bn HI HW ltac:(lia)) as (a & s' & E & Hg & En & Hs & Hf & _).
    assert (forall t, fblock t ip bn = nth bn (i_addrs (geti t ip)) 0) as Ef.
    { intros t. unfold fblock. by destruct (Nat.ltb_spec bn NDIRECT); [|lia]. }
    exists a, s'. rewrite !Ef. done.
  - set (j := (bn - NDIRECT)%nat). replace (Z.to_nat (Z.of_nat bn - Z.of_nat NDIRECT)) with j by lia.
    assert (bn = NDIRECT + j)%nat as Ebn by lia.
    assert (j < NINDIRECT)%nat as Hj by (change NINDIRECT with 256%nat; unfold MAXBN, NDIRECT in *; lia).
    destruct (Z.ltb_spec (Z.of_nat bn - Z.of_nat NDIRECT) (Z.of_nat NINDIRECT)) as [_|]; [|lia].
    destruct (bmap_direct_spec s ip NDIRECT HI HW ltac:(lia)) as (a & s1 & E1 & G1 & En & Hs & Hf & Hb).
    rewrite (M_bind_Ret _ _ _ _ _ E1). fold (ind_addr s1 ip) in En. specialize (Hb eq_refl).
    assert (ind_addr s ip = 0 -> fblock s ip bn = 0) as Hno.
    { intros H0. unfold fblock. rewrite H0. by destruct (Nat.ltb_spec bn NDIRECT); [lia|]. }
    destruct (Z.eqb_spec a 0) as [->|Ha0].
    { exists 0, s1. split; [done|]. split; [done|]. rewrite (Hb bn Hbn).
      destruct (Z.eq_dec (ind_addr s ip) 0) as [H0|H0]; [rewrite (Hno H0); by split|].
      rewrite (Hs H0) in En. done. }
    subst a. unfold readb. rewrite (M_bind_Ret _ _ s1 (fblk s1 (ind_addr s1 ip)) s1) by done.
    assert (fblock s1 ip bn = get32 (fblk s1 (ind_addr s1 ip)) j) as Ef.
    { unfold fblock. rewrite (proj2 (Z.eqb_neq _ 0) Ha0). by destruct (Nat.ltb_spec bn NDIRECT); [lia|]. }
    rewrite <- Ef, (Hb bn Hbn). destruct (Z.eqb_spec (fblock s ip bn) 0) as [Ez|Ez].
    2:{ exists (fblock s ip bn), s1. split; [done|]. split; [done|]. split; [by apply Hb|].
        split; [intros _; apply Hs; intros H0; by apply Ez, Hno|done]. }
    destruct (balloc_spec sb HL (HD := fs_disk) s1 (fr_disk _ _ _ (proj1 G1))) as [[E Hfull]|(r & f' & E & Ha & HI')];
      rewrite (M_bind_Ret _ _ _ _ _ E).
    { exists 0, s1. split; [done|]. split; [done|]. split; [by rewrite (Hb bn Hbn)|]. done. }
    destruct (alloc_frame s1 f' r (fr_disk _ _ _ (proj1 G1)) Ha) as (_ & _ & Hr & _).
    destruct (attach_indirect s1 f' ip j r (fr_disk _ _ _ (proj1 G1)) (fr_wf _ _ _ (proj1 G1)) Hj Ha0
      ltac:(by rewrite <- Ef, (Hb bn Hbn)) Ha HI') as [Hg Efr].
    destruct (Z.eqb_spec r 0) as [|_]; [lia|].
    eexists r, (mkFs (zset f' (ind_addr s1 ip) _) (itab s1)). split; [done|].
    split; [by eapply grown_trans|]. split; [by rewrite Ebn|]. split; [done|lia].
Qed.
End Files.
