(* ===== verification/FsData.v ===== *)
(** * Reading and writing files: [readi] and [writei] of [kernel/fs.c]

    A file is the sequence of its bytes; these theorems say that [readi] returns
    and [writei] replaces exactly the bytes asked for, whatever blocks they
    touch, and that nothing of any other file changes. *)

From S2P Require Import Prelude Mlfq Bio FsBlk Words FsInode.

Section Copy.
(** The caller's memory; how many bytes [copyin] of [vm.c] copies, and whether it
    succeeds; whether [copyout] succeeds. *)
Context (mem : Z -> Z) (copyin : Z -> nat -> nat * bool) (copyout : Z -> nat -> bool).

Definition from_mem (src : Z) (m : nat) : list Z := map (fun k => mem (src + Z.of_nat k)) (seq 0 m).

Definition either_copyin (user : bool) (src : Z) (m : nat) : list Z * bool :=
  if user then let '(c, ok) := copyin src m in (from_mem src c, ok) else (from_mem src m, true).
Definition either_copyout (user : bool) (dst : Z) (m : nat) : bool :=
  if user then copyout dst m else true.

Context (sb : superblock).

(** [for (tot = 0; tot < n; ...)] of [readi]: its return value and the bytes
    delivered. *)
Fixpoint read_loop (fuel : nat) (ip : nat) (user : bool) (dst off n tot : Z) (out : list Z) : M fs (Z * list Z) :=
  if tot <? n then
    match fuel with
    | O => undef "out of fuel"
    | S fuel' =>
      addr ← bmap sb ip (off / BSIZE);
      if addr =? 0 then mret (tot, out)
      else
        d ← readb addr;
        let m := Z.min (n - tot) (BSIZE - off mod BSIZE) in
        if either_copyout user dst (Z.to_nat m) then
          read_loop fuel' ip user (dst + m) (off + m) n (tot + m)
            (out ++ take (Z.to_nat m) (drop (Z.to_nat (off mod BSIZE)) d))
        else mret (-1, out)
    end
  else mret (tot, out).

Definition readi (ip : nat) (user : bool) (dst off n : Z) : M fs (Z * list Z) :=
  size ← readip ip i_size;
  if (size <? off) || (u32 (off + n) <? off) then mret (0, [])
  else
    let n := if size <? u32 (off + n) then size - off else n in
    read_loop (Z.to_nat (n / BSIZE + 2)) ip user dst off n 0 [].

(** The loop of [writei]: [tot] and [off] at its end. *)
Fixpoint write_loop (fuel : nat) (ip : nat) (user : bool) (src off n tot : Z) : M fs (Z * Z) :=
  if tot <? n then
    match fuel with
    | O => undef "out of fuel"
    | S fuel' =>
      addr ← bmap sb ip (off / BSIZE);
      if addr =? 0 then mret (tot, off)
      else
        d ← readb addr;
        let m := Z.min (n - tot) (BSIZE - off mod BSIZE) in
        let '(l, ok) := either_copyin user src (Z.to_nat m) in
        _ ← writeb addr (patch d (Z.to_nat (off mod BSIZE)) l);
        if (ok : bool) then write_loop fuel' ip user (src + m) (off + m) n (tot + m)
        else mret (tot, off)
    end
  else mret (tot, off).

Definition writei (ip : nat) (user : bool) (src off n : Z) : M fs Z :=
  size ← readip ip i_size;
  if (size <? off) || (u32 (off + n) <? off) then mret (-1)
  else if MAXFILE * BSIZE <? u32 (off + n) then mret (-1)
  else
    r ← write_loop (Z.to_nat (n / BSIZE + 2)) ip user src off n 0;
    let '(tot, off') := r in
    _ ← (if size <? off' then modi ip (set_size off') else mret tt);
    _ ← iupdate sb ip;
    mret tot.
End Copy.

(** ** Bytes of a file *)

(** Byte [o] of the file, 0 beyond its blocks. *)
Definition fbyte (s : fs) (ip : nat) (o : Z) : Z :=
  nth (Z.to_nat (o mod BSIZE)) (fcontent s ip (Z.to_nat (o / BSIZE))) 0.

(** The bytes [off .. off + n). *)
Definition fbytes (s : fs) (ip : nat) (off n : Z) : list Z :=
  map (fun k => fbyte s ip (off + Z.of_nat k)) (seq 0 (Z.to_nat n)).

Section Data.
Context (sb : superblock) (HL : layout sb).
Context (mem : Z -> Z) (Hmem : forall a, 0 <= mem a < 256).
Context (copyin : Z -> nat -> nat * bool) (copyout : Z -> nat -> bool).
(** [copyin] copies all bytes when it succeeds and at most that many otherwise. *)
Context (copyin_count : forall src m, (fst (copyin src m) <= m)%nat /\
  (snd (copyin src m) = true -> fst (copyin src m) = m)).

Lemma either_copyin_spec user src m l ok :
  either_copyin mem copyin user src m = (l, ok) ->
  exists c, l = from_mem mem src c /\ (c <= m)%nat /\ (ok = true -> c = m).
Proof.
  unfold either_copyin. destruct user.
  - pose proof (copyin_count src m) as [H1 H2]. destruct (copyin src m) as [c ok']. intros [= <- <-].
    by exists c.
  - intros [= <- <-]. by exists m.
Qed.

Lemma length_from_mem src c : length (from_mem mem src c) = c.
Proof. unfold from_mem. by rewrite length_map, length_seq. Qed.

Lemma nth_from_mem src c k : (k < c)%nat -> nth k (from_mem mem src c) 0 = mem (src + Z.of_nat k).
Proof.
  intros H. unfold from_mem. rewrite nth_indep with (d' := mem (src + Z.of_nat 0)) by (by rewrite length_map, length_seq).
  rewrite (map_nth (fun k => mem (src + Z.of_nat k)) (seq 0 c) 0%nat k), seq_nth by done. done.
Qed.

(** ** Overwriting part of one block *)

Lemma write_block s ip bn d :
  DInv sb (fblk s) -> file_wf sb s ip -> (bn < MAXBN)%nat -> fblock s ip bn <> 0 -> bytes_ok d ->
  let s' := mkFs (zset (fblk s) (fblock s ip bn) d) (itab s) in
  frame sb s s' ip /\ (forall k, (k < MAXBN)%nat -> fblock s' ip k = fblock s ip k) /\
  forall k, (k < MAXBN)%nat -> fcontent s' ip k = if (k =? bn)%nat then d else fcontent s ip k.
Proof.
  intros HI HW Hb Hn Hd s'. pose proof HW as [W1 W2 W3 W4 W5].
  set (a := fblock s ip bn) in *. destruct (W4 bn Hb Hn) as [Hla Hai].
  pose proof (live_not_bmap sb HL _ _ Hla) as Hnb.
  assert (forall b, 0 <= b < sb_size sb -> used sb (fblk s') b = used sb (fblk s) b) as Hus.
  { intros b Hx. unfold used. cbn [fblk s']. rewrite zset_ne; [done|]. intros E. apply Hnb. by exists b. }
  assert (forall x, live sb (fblk s) x -> live sb (fblk s') x) as Hl2.
  { intros x [Hx Hu]. split; [done|]. rewrite Hus; [done|]. by apply (data_in sb HL). }
  assert (forall k, fblock s' ip k = fblock s ip k) as Eb.
  { intros k. unfold fblock. change (ind_addr s' ip) with (ind_addr s ip). cbn [fblk s'].
    rewrite zset_ne by done. done. }
  split; [|split; [done|]].
  - split; try done.
    + split; [|intros b Hx; rewrite Hus by done; by apply HI].
      intros b. cbn [fblk s']. unfold zset. by destruct (b =? a); [|apply HI].
    + split; try done.
      * intros Hx. by apply Hl2, W3.
      * intros k Hk. rewrite Eb. intros Hx. destruct (W4 k Hk Hx). split; [by apply Hl2|done].
      * intros k k' Hk Hk'. rewrite !Eb. by apply W5.
    + exists (i_addrs (geti s ip)). change (geti s' ip) with (geti s ip). by destruct (geti s ip).
    + intros b Hx. by rewrite Hus.
    + intros b Hx Hu Ho. cbn [fblk s']. apply zset_ne. intros E. apply Ho. right. exists bn. by rewrite <- E.
    + by left.
    + intros k _. left. apply Eb.
  - intros k Hk. unfold fcontent. rewrite Eb. destruct (Nat.eqb_spec k bn) as [->|Nk].
    + fold a. rewrite (proj2 (Z.eqb_neq a 0) Hn). cbn. by rewrite zset_eq.
    + destruct (Z.eqb_spec (fblock s ip k) 0) as [|Hx]; [done|]. cbn. apply zset_ne.
      intros E. apply Nk. symmetry. by apply W5.
Qed.

Definition FILEMAX : Z := MAXFILE * BSIZE.

Lemma block_of o : 0 <= o < FILEMAX -> (Z.to_nat (o / BSIZE) < MAXBN)%nat.
Proof.
  unfold FILEMAX, MAXFILE, MAXBN. rewrite BSIZE_val. intros H.
  assert (0 <= o / 1024 < 268) by (split; [apply Z.div_pos; lia|apply Z.div_lt_upper_bound; lia]). lia.
Qed.

Lemma div_mod_B o : o = BSIZE * (o / BSIZE) + o mod BSIZE /\ 0 <= o mod BSIZE < BSIZE.
Proof. rewrite BSIZE_val. split; [apply Z.div_mod; lia|apply Z.mod_pos_bound; lia]. Qed.

(** Patching [l] into the block of [off] replaces the bytes from [off] on. *)
Lemma fbyte_patch s s' ip off l :
  0 <= off < FILEMAX -> off mod BSIZE + Z.of_nat (length l) <= BSIZE ->
  bytes_ok (fcontent s ip (Z.to_nat (off / BSIZE))) ->
  (forall k, (k < MAXBN)%nat -> fcontent s' ip k =
     if (k =? Z.to_nat (off / BSIZE))%nat
     then patch (fcontent s ip (Z.to_nat (off / BSIZE))) (Z.to_nat (off mod BSIZE)) l
     else fcontent s ip k) ->
  forall o, 0 <= o < FILEMAX ->
    fbyte s' ip o = if (off <=? o) && (o <? off + Z.of_nat (length l))
                    then nth (Z.to_nat (o - off)) l 0 else fbyte s ip o.
Proof.
  intros Hoff Hl [Hlen _] Hc o Ho. unfold fbyte. rewrite Hc by (by apply block_of).
  destruct (div_mod_B o) as [Eo Ro], (div_mod_B off) as [Ef Rf].
  pose proof (Z.div_pos o BSIZE ltac:(lia) ltac:(lia)) as P1.
  pose proof (Z.div_pos off BSIZE ltac:(lia) ltac:(lia)) as P2.
  destruct (Nat.eqb_spec (Z.to_nat (o / BSIZE)) (Z.to_nat (off / BSIZE))) as [E|N].
  - apply Z2Nat.inj in E; [|done|done].
    rewrite nth_patch by (rewrite Hlen; lia). rewrite E.
    destruct (Nat.leb_spec (Z.to_nat (off mod BSIZE)) (Z.to_nat (o mod BSIZE))),
      (Nat.ltb_spec (Z.to_nat (o mod BSIZE)) (Z.to_nat (off mod BSIZE) + length l)),
      (Z.leb_spec off o), (Z.ltb_spec o (off + Z.of_nat (length l))); cbn [andb]; try done; try nia.
    f_equal. nia.
  - destruct (Z.leb_spec off o), (Z.ltb_spec o (off + Z.of_nat (length l))); cbn [andb]; try done.
    exfalso. apply N. f_equal. nia.
Qed.

Lemma fbyte_grown s s' ip o : grown sb s s' ip -> 0 <= o < FILEMAX -> fbyte s' ip o = fbyte s ip o.
Proof. intros [_ Hc] Ho. unfold fbyte. by rewrite Hc by (by apply block_of). Qed.

Lemma fcontent_ok s ip bn : DInv sb (fblk s) -> bytes_ok (fcontent s ip bn).
Proof. intros HI. unfold fcontent. destruct (_ =? 0); [apply bytes_ok_zeros|apply HI]. Qed.

(** Why a write may stop early. *)
Definition write_stop (s' : fs) (user : bool) : Prop :=
  disk_full sb (fblk s') \/ (user = true /\ exists a m, snd (copyin a m) = false).

Definition copied (s s' : fs) (ip : nat) (src off e : Z) : Prop :=
  forall o, 0 <= o < FILEMAX ->
    fbyte s' ip o = if (off <=? o) && (o <? e) then mem (src + (o - off)) else fbyte s ip o.

Lemma copied_nil s ip src off : copied s s ip src off off.
Proof. intros o Ho. destruct (Z.leb_spec off o), (Z.ltb_spec o off); cbn; try done; lia. Qed.

Lemma copied_app s s1 s2 ip src off m e :
  0 <= m -> off + m <= e -> copied s s1 ip src off (off + m) -> copied s1 s2 ip (src + m) (off + m) e ->
  copied s s2 ip src off e.
Proof.
  intros Hm He H1 H2 o Ho. rewrite H2, H1 by done.
  destruct (Z.leb_spec off o), (Z.leb_spec (off + m) o), (Z.ltb_spec o (off + m)), (Z.ltb_spec o e);
    cbn [andb]; try done; try lia. f_equal. lia.
Qed.

(** One iteration of [writei]'s loop with an allocated block. *)
Lemma write_chunk s ip src off c :
  DInv sb (fblk s) -> file_wf sb s ip -> 0 <= off < FILEMAX ->
  fblock s ip (Z.to_nat (off / BSIZE)) <> 0 -> off mod BSIZE + Z.of_nat c <= BSIZE ->
  let a := fblock s ip (Z.to_nat (off / BSIZE)) in
  let s' := mkFs (zset (fblk s) a (patch (fblk s a) (Z.to_nat (off mod BSIZE)) (from_mem mem src c))) (itab s) in
  frame sb s s' ip /\ copied s s' ip src off (off + Z.of_nat c) /\
  (forall k, (k < MAXBN)%nat -> fblock s' ip k = fblock s ip k).
Proof.
  intros HI HW Hoff Hn Hc a s'. pose proof (block_of off Hoff) as Hb.
  assert (fcontent s ip (Z.to_nat (off / BSIZE)) = fblk s a) as Ea
    by (unfold fcontent; fold a; by rewrite (proj2 (Z.eqb_neq a 0) Hn)).
  assert (bytes_ok (patch (fblk s a) (Z.to_nat (off mod BSIZE)) (from_mem mem src c))) as Hok.
  { destruct (di_blocks _ _ HI a) as [L1 L2]. split; [by rewrite length_patch|].
    apply Forall_patch; [done|]. unfold from_mem. apply list.Forall_forall.
    intros x (k & -> & _)%list_elem_of_fmap. apply Hmem. }
  destruct (write_block s ip _ _ HI HW Hb Hn Hok) as (Hf & Eb & Ec).
  fold a in Hf, Eb, Ec. fold s' in Hf, Eb, Ec. split; [done|]. split; [|done].
  intros o Ho. rewrite (fbyte_patch s s' ip off (from_mem mem src c)); try done.
  - rewrite length_from_mem. destruct (Z.leb_spec off o), (Z.ltb_spec o (off + Z.of_nat c)); cbn; try done.
    rewrite nth_from_mem by lia. f_equal. lia.
  - by rewrite length_from_mem.
  - by apply fcontent_ok.
  - intros k Hk. by rewrite Ea, (Ec k Hk).
Qed.

Lemma write_loop_spec fuel ip user n : forall s src off tot,
  DInv sb (fblk s) -> file_wf sb s ip -> 0 <= off -> 0 <= tot <= n -> off + (n - tot) <= FILEMAX ->
  tot = n \/ off mod BSIZE + (n - tot) <= BSIZE * Z.of_nat fuel ->
  exists t e s', write_loop mem copyin sb fuel ip user src off n tot s = Ret ((t, off + (t - tot)), s') /\
    tot <= t <= n /\ frame sb s s' ip /\ off + (t - tot) <= e <= off + (n - tot) /\
    copied s s' ip src off e /\
    (forall o, off <= o < off + (t - tot) -> fblock s' ip (Z.to_nat (o / BSIZE)) <> 0) /\
    (t = n \/ write_stop s' user) /\ (e = off + (t - tot) \/ (user = true /\ exists a m, snd (copyin a m) = false)).
Proof.
  induction fuel as [|fuel IH]; intros s src off tot HI HW Hoff Htot Hmax Hfuel; cbn [write_loop];
    (destruct (Z.ltb_spec tot n) as [Hlt|Hge];
     [|exists tot, off, s; replace (off + (tot - tot)) with off by lia; split; [done|]; split; [lia|];
       split; [by apply frame_refl|]; split; [lia|]; split; [apply copied_nil|]; split; [intros; lia|];
       split; [left; lia|by left]]).
  { exfalso. destruct (div_mod_B off). lia. }
  destruct (div_mod_B off) as [Ed Er].
  assert (0 <= off < FILEMAX) as Hof by lia. pose proof (block_of off Hof) as Hb.
  destruct (bmap_spec sb HL s ip (Z.to_nat (off / BSIZE)) HI HW Hb) as (a & s1 & E1 & G1 & Ea & _ & Hfull).
  rewrite Z2Nat.id in E1 by (apply Z.div_pos; lia). rewrite (M_bind_Ret _ _ _ _ _ E1).
  pose proof (proj1 G1) as F1. destruct (Z.eqb_spec a 0) as [->|Hn].
  { exists tot, off, s1. replace (off + (tot - tot)) with off by lia. split; [done|]. split; [lia|].
    split; [done|]. split; [lia|]. split.
    - intros o Ho. rewrite (fbyte_grown s s1) by done. apply (copied_nil s ip src off o Ho).
    - split; [intros; lia|]. split; [right; left; auto|by left]. }
  set (m := Z.min (n - tot) (BSIZE - off mod BSIZE)) in *.
  unfold readb. rewrite (M_bind_Ret _ _ s1 (fblk s1 a) s1) by done.
  destruct (either_copyin mem copyin user src (Z.to_nat m)) as [l ok] eqn:Ec.
  destruct (either_copyin_spec user src (Z.to_nat m) l ok Ec) as (c & -> & Hc & Hok).
  assert (fblock s1 ip (Z.to_nat (off / BSIZE)) <> 0) as Hn1 by (by rewrite Ea).
  destruct (write_chunk s1 ip src off c (fr_disk _ _ _ _ F1) (fr_wf _ _ _ _ F1) Hof Hn1 ltac:(lia))
    as (F2 & C2 & B2). rewrite Ea in F2, C2, B2. set (s2 := mkFs _ _) in *.
  unfold writeb. rewrite (M_bind_Ret _ _ s1 tt s2) by done.
  pose proof (frame_trans sb s s1 s2 ip F1 F2) as F12.
  assert (copied s s2 ip src off (off + Z.of_nat c)) as C12.
  { intros o Ho. rewrite (C2 o Ho), (fbyte_grown s s1) by done. done. }
  destruct ok.
  - specialize (Hok eq_refl). subst c. rewrite Z2Nat.id in C12 by lia.
    destruct (IH s2 (src + m) (off + m) (tot + m) (fr_disk _ _ _ _ F12) (fr_wf _ _ _ _ F12))
      as (t & e & s' & E & Ht & F3 & He & C3 & M3 & St & Sp); try lia.
    { destruct (Z.le_gt_cases (n - tot) (BSIZE - off mod BSIZE)) as [Hmin|Hmin].
      - left. lia.
      - right. assert (m = BSIZE - off mod BSIZE) as Em by lia. rewrite Em.
        replace (off + (BSIZE - off mod BSIZE)) with ((off / BSIZE + 1) * BSIZE) by lia.
        rewrite Z.mod_mul by (rewrite BSIZE_val; lia). lia. }
    exists t, e, s'. replace (off + (t - tot)) with (off + m + (t - (tot + m))) by lia.
    split; [done|]. split; [lia|]. split; [by apply (frame_trans sb s s2)|]. split; [lia|].
    split; [apply (copied_app s s2 s' ip src off m); try done; lia|]. split; [|done].
    intros o Ho. destruct (Z.lt_ge_cases o (off + m)) as [Hlo|Hhi]; [|apply M3; lia].
    assert (o / BSIZE = off / BSIZE) as ->.
    { symmetry. apply (Z.div_unique _ _ _ (o - BSIZE * (off / BSIZE))); lia. }
    rewrite (fr_block _ _ _ _ F3) by (rewrite ?B2; done). by rewrite B2.
  - assert (user = true /\ exists a m, snd (copyin a m) = false) as Hbad.
    { unfold either_copyin in Ec. destruct user; [|done]. split; [done|]. exists src, (Z.to_nat m).
      destruct (copyin src (Z.to_nat m)) as [c' ok']. by injection Ec as _ ->. }
    exists tot, (off + Z.of_nat c), s2. replace (off + (tot - tot)) with off by lia.
    split; [done|]. split; [lia|]. split; [done|]. split; [lia|]. split; [done|].
    split; [intros; lia|]. split; [right; by right|by right].
Qed.

(** ** Effects outside the file's data *)

(** [s'] presents file [ip] as [s] does. *)
Record same_file (s s' : fs) (ip : nat) : Prop := {
  sf_wf : file_wf sb s' ip;
  sf_block : forall bn, fblock s' ip bn = fblock s ip bn;
  sf_ind : ind_addr s' ip = ind_addr s ip;
  sf_content : forall bn, (bn < MAXBN)%nat -> fcontent s' ip bn = fcontent s ip bn
}.

(** Two files share no block. *)
Definition disjoint_files (s : fs) (ip j : nat) : Prop := forall b, b <> 0 -> own s ip b -> ~ own s j b.

(** Equal blocks and marks give equal files. *)
Lemma same_file_intro s s' j :
  file_wf sb s j -> length (itab s') = length (itab s) -> i_addrs (geti s' j) = i_addrs (geti s j) ->
  (forall b, live sb (fblk s) b -> own s j b -> fblk s' b = fblk s b) ->
  (forall b, 0 <= b < sb_size sb -> used sb (fblk s) b = true -> used sb (fblk s') b = true) ->
  same_file s s' j.
Proof.
  intros [W1 W2 W3 W4 W5] Hlen Had Hblk Hus.
  assert (ind_addr s' j = ind_addr s j) as Ei by (unfold ind_addr; by rewrite Had).
  assert (forall a, live sb (fblk s) a -> live sb (fblk s') a) as Hl.
  { intros a [Ha Hu]. split; [done|]. apply Hus; [by apply (data_in sb HL)|done]. }
  assert (forall bn, fblock s' j bn = fblock s j bn) as Eb.
  { intros bn. unfold fblock. rewrite Ei, Had. destruct (bn <? NDIRECT)%nat; [done|].
    destruct (Z.eqb_spec (ind_addr s j) 0) as [|Hn]; [done|]. rewrite Hblk; [done|auto|by left]. }
  split; try done.
  - split; rewrite ?Ei, ?Had, ?Hlen; auto.
    + intros bn Hb. rewrite Eb. intros Hn. destruct (W4 bn Hb Hn). auto.
    + intros bn bn' Hb Hb'. rewrite !Eb. by apply W5.
  - intros bn Hb. unfold fcontent. rewrite Eb. destruct (Z.eqb_spec (fblock s j bn) 0) as [|Hn]; [done|].
    apply Hblk; [by apply W4|]. right. by exists bn.
Qed.

(** A disjoint file is not affected by work on file [ip]. *)
Lemma frame_other s s' ip j :
  frame sb s s' ip -> j <> ip -> file_wf sb s j -> disjoint_files s ip j ->
  same_file s s' j /\ disjoint_files s' ip j.
Proof.
  intros HF Hj HW Hd.
  assert (same_file s s' j) as Hs.
  { apply same_file_intro; [done|apply (fr_len _ _ _ _ HF)|by rewrite (fr_tab _ _ _ _ HF)| |apply (fr_used _ _ _ _ HF)].
    intros b Hl Ho. apply (fr_other _ _ _ _ HF).
    - by apply (live_not_bmap sb HL (fblk s)).
    - intros _. apply Hl.
    - intros Hip. apply (Hd b); [by apply (live_nonzero sb HL (fblk s))|done|done]. }
  split; [done|]. intros b Hn Hip Hoj.
  assert (own s j b) as Hoj0.
  { destruct Hoj as [->|(bn & Hb & ->)]; [left; apply Hs|right; exists bn; split; [done|apply Hs]]. }
  assert (live sb (fblk s) b) as Hl.
  { destruct Hoj0 as [->|(bn & Hb & ->)]; [by apply (fw_ind _ _ _ HW)|by apply (fw_live _ _ _ HW)]. }
  apply (Hd b Hn); [|done]. apply (own_frame sb s s' ip b HF); [intros _; apply Hl|done].
Qed.

(** [iupdate] writes one metadata block. *)
Definition inode_home (inum : Z) : Prop := ~ is_bmap sb (IBLOCK sb inum) /\ IBLOCK sb inum < datastart sb.

Lemma bytes_ok_putle n d o v : bytes_ok d -> bytes_ok (putle n d o v).
Proof. intros [H1 H2]. split; [by rewrite length_putle|by apply Forall_putle]. Qed.

Lemma bytes_ok_put_addrs d o l : bytes_ok d -> bytes_ok (put_addrs d o l).
Proof. revert d o. induction l as [|a l IH]; intros d o Hd; cbn [put_addrs]; [done|]. by apply IH, bytes_ok_putle. Qed.

Lemma bytes_ok_put_dinode d o x : bytes_ok d -> bytes_ok (put_dinode d o x).
Proof. intros Hd. unfold put_dinode. apply bytes_ok_put_addrs. repeat apply bytes_ok_putle. done. Qed.

Lemma iupdate_spec s ip :
  DInv sb (fblk s) -> inode_home (i_inum (geti s ip)) ->
  exists s', iupdate sb ip s = Ret (tt, s') /\ itab s' = itab s /\ DInv sb (fblk s') /\
    (forall j, file_wf sb s j -> same_file s s' j) /\
    (forall b, 0 <= b < sb_size sb -> used sb (fblk s') b = used sb (fblk s) b) /\
    (forall b, b <> IBLOCK sb (i_inum (geti s ip)) -> fblk s' b = fblk s b) /\
    fblk s' (IBLOCK sb (i_inum (geti s ip))) =
      put_dinode (fblk s (IBLOCK sb (i_inum (geti s ip)))) (dip_off (i_inum (geti s ip))) (geti s ip).
Proof.
  intros HI [Hh Hlt]. set (b0 := IBLOCK sb (i_inum (geti s ip))) in *.
  set (d := put_dinode (fblk s b0) (dip_off (i_inum (geti s ip))) (geti s ip)).
  set (s' := mkFs (zset (fblk s) b0 d) (itab s)).
  assert (forall b, 0 <= b < sb_size sb -> used sb (fblk s') b = used sb (fblk s) b) as Hus.
  { intros b Hb. unfold used. cbn [fblk s']. rewrite zset_ne; [done|]. intros E. apply Hh. by exists b. }
  exists s'. split; [done|]. split; [done|]. split; [|split; [|split; [done|split]]].
  - split; [|intros b Hb; rewrite Hus by done; by apply HI].
    intros b. cbn [fblk s']. unfold zset. destruct (b =? b0); [|apply HI]. apply bytes_ok_put_dinode, HI.
  - intros j Hj. apply same_file_intro; try done; [|intros; by rewrite Hus].
    intros b [[Hb _] _] _. cbn [fblk s']. apply zset_ne. lia.
  - intros b Hb. cbn [fblk s']. by apply zset_ne, not_eq_sym.
  - cbn [fblk s']. by rewrite zset_eq.
Qed.

Lemma same_file_trans s s1 s2 j : same_file s s1 j -> same_file s1 s2 j -> same_file s s2 j.
Proof.
  intros [A1 A2 A3 A4] [B1 B2 B3 B4]. split; [done|..].
  - intros bn. by rewrite B2.
  - by rewrite B3.
  - intros bn Hb. by rewrite B4, A4.
Qed.

Lemma same_file_byte s s' j o : same_file s s' j -> 0 <= o < FILEMAX -> fbyte s' j o = fbyte s j o.
Proof. intros H Ho. unfold fbyte. by rewrite (sf_content _ _ _ H) by (by apply block_of). Qed.

Lemma same_file_own s s' j b : same_file s s' j -> own s' j b -> own s j b.
Proof. intros H [->|(bn & Hb & ->)]; [left; apply H|right; exists bn; split; [done|apply H]]. Qed.

Lemma set_size_same s ip z j : file_wf sb s j -> same_file s (updi ip (set_size z) s) j.
Proof.
  intros HW. apply same_file_intro; try done; [apply length_updi|].
  destruct (Nat.eq_dec j ip) as [->|N]; [|by rewrite geti_updi_ne].
  by rewrite geti_updi by apply HW.
Qed.

(** ** Files without holes *)

(** A file in good order: its blocks are its own and cover its size. *)
Record file_ok (s : fs) (ip : nat) : Prop := {
  fo_disk : DInv sb (fblk s);
  fo_wf : file_wf sb s ip;
  fo_size : 0 <= i_size (geti s ip) <= FILEMAX;
  fo_home : inode_home (i_inum (geti s ip));
  fo_mapped : forall o, 0 <= o < i_size (geti s ip) -> fblock s ip (Z.to_nat (o / BSIZE)) <> 0
}.

Lemma u32_sum off n : 0 <= off < 2 ^ 32 -> 0 <= n < 2 ^ 32 ->
  (u32 (off + n) <? off) = (2 ^ 32 <=? off + n) /\ (off + n < 2 ^ 32 -> u32 (off + n) = off + n).
Proof.
  intros Ho Hn. destruct (Z.lt_ge_cases (off + n) (2 ^ 32)) as [H|H].
  - rewrite wrap_small by lia. split; [|done]. lia.
  - assert (u32 (off + n) = off + n - 2 ^ 32) as E.
    { unfold wrap. symmetry. apply (Z.mod_unique _ _ 1); lia. }
    split; [rewrite E; lia|lia].
Qed.

Lemma FILEMAX_val : FILEMAX = 274432.
Proof. unfold FILEMAX. by rewrite BSIZE_val. Qed.

Lemma writei_refused s ip user src off n :
  file_ok s ip -> 0 <= off < 2 ^ 32 -> 0 <= n < 2 ^ 32 ->
  i_size (geti s ip) < off \/ FILEMAX < off + n ->
  writei mem copyin sb ip user src off n s = Ret (-1, s).
Proof.
  intros Hok Ho Hn Hbad. unfold writei, readip. rewrite (M_bind_Ret _ _ s (i_size (geti s ip)) s) by done.
  destruct (u32_sum off n Ho Hn) as [-> Hu]. pose proof FILEMAX_val as HF. fold FILEMAX.
  destruct (Z.ltb_spec (i_size (geti s ip)) off), (Z.leb_spec (2 ^ 32) (off + n)); cbn [orb]; try done.
  rewrite Hu by lia. destruct (Z.ltb_spec FILEMAX (off + n)); [done|lia].
Qed.

(** Equal but for the size and the addresses. *)
Definition meta_same (x y : inode) : Prop :=
  y = mkI (i_dev x) (i_inum x) (i_ref x) (i_locked x) (i_valid x) (i_type x) (i_major x) (i_minor x)
    (i_nlink x) (i_size y) (i_addrs y).

Lemma writei_written s ip user src off n :
  file_ok s ip -> 0 <= n -> 0 <= off <= i_size (geti s ip) -> off + n <= FILEMAX ->
  exists t e s', writei mem copyin sb ip user src off n s = Ret (t, s') /\ 0 <= t <= n /\
    (t = n \/ write_stop s' user) /\
    (e = off + t \/ (off + t <= e <= off + n /\ user = true /\ exists a m, snd (copyin a m) = false)) /\
    file_ok s' ip /\ i_size (geti s' ip) = Z.max (i_size (geti s ip)) (off + t) /\
    meta_same (geti s ip) (geti s' ip) /\ copied s s' ip src off e /\
    (forall j, j <> ip -> geti s' j = geti s j) /\
    (forall j, j <> ip -> file_wf sb s j -> disjoint_files s ip j ->
       same_file s s' j /\ disjoint_files s' ip j).
Proof.
  intros [HI HW Hsz Hhome Hmap] Hn Ho Hmax. pose proof FILEMAX_val as HF.
  unfold writei, readip. rewrite (M_bind_Ret _ _ s (i_size (geti s ip)) s) by done.
  destruct (u32_sum off n ltac:(lia) ltac:(lia)) as [-> Hu]. rewrite Hu by lia. fold FILEMAX.
  rewrite (proj2 (Z.ltb_ge _ _)), (proj2 (Z.leb_gt _ _)), (proj2 (Z.ltb_ge FILEMAX _)) by lia. cbn [orb].
  destruct (write_loop_spec (Z.to_nat (n / BSIZE + 2)) ip user n s src off 0 HI HW)
    as (t & e & s1 & E & Ht & F1 & He & C1 & M1 & St & Sp); try lia.
  { right. destruct (div_mod_B off), (div_mod_B n). pose proof (Z.div_pos n BSIZE Hn ltac:(lia)).
    rewrite Z2Nat.id by lia. lia. }
  replace (off + (t - 0)) with (off + t) in * by lia.
  rewrite (M_bind_Ret _ _ _ _ _ E). cbv beta iota zeta.
  set (sz := i_size (geti s ip)) in *.
  set (s2 := if sz <? off + t then updi ip (set_size (off + t)) s1 else s1).
  rewrite (M_bind_Ret _ _ s1 tt s2) by (unfold s2; by destruct (sz <? off + t)).
  pose proof (fr_wf _ _ _ _ F1) as HW1. destruct (fr_ip _ _ _ _ F1) as [la Eip].
  assert (forall j, file_wf sb s1 j -> same_file s1 s2 j) as Sz.
  { intros j Hj. unfold s2. destruct (sz <? off + t); [by apply set_size_same|]. by apply same_file_intro. }
  assert (forall j, j <> ip -> geti s2 j = geti s1 j) as Tz.
  { intros j Hj. unfold s2. destruct (sz <? off + t); [by apply geti_updi_ne|done]. }
  assert (i_size (geti s2 ip) = Z.max sz (off + t) /\ i_inum (geti s2 ip) = i_inum (geti s ip)) as [Es Einum].
  { unfold s2. destruct (Z.ltb_spec sz (off + t)).
    - rewrite geti_updi by apply HW1. rewrite Eip. cbn. split; [lia|done].
    - rewrite Eip. cbn. fold sz. split; [lia|done]. }
  assert (fblk s2 = fblk s1) as Eblk by (unfold s2; by destruct (sz <? off + t)).
  destruct (iupdate_spec s2 ip) as (s3 & E3 & T3 & D3 & S3 & U3 & O3 & _).
  { rewrite Eblk. apply F1. } { by rewrite Einum. }
  rewrite (M_bind_Ret _ _ _ _ _ E3).
  assert (forall j, file_wf sb s1 j -> same_file s1 s3 j) as S13.
  { intros j Hj. apply (same_file_trans s1 s2); [auto|]. apply S3, Sz, Hj. }
  assert (forall j, geti s3 j = geti s2 j) as T23 by (intros j; unfold geti; by rewrite T3).
  exists t, e, s3. split; [done|]. split; [lia|]. split; [|split; [|split; [|split; [|split; [|split; [|split]]]]]].
  - destruct St as [->|[Hfull|Hb]]; [by left|right; left|right; by right].
    intros k Hk. rewrite U3, Eblk by done. by apply Hfull.
  - destruct Sp as [->|Hb]; [by left|]. right. split; [lia|done].
  - split; [done|apply S13, HW1|..].
    + rewrite T23, Es. lia.
    + by rewrite T23, Einum.
    + intros o Hoo. rewrite T23, Es in Hoo. rewrite (sf_block _ _ _ (S13 ip HW1)).
      destruct (Z.lt_ge_cases o sz) as [Hlt|Hge]; [|apply M1; lia].
      rewrite (fr_block _ _ _ _ F1); [by apply Hmap; lia|apply block_of; lia|by apply Hmap; lia].
  - by rewrite T23.
  - unfold meta_same. rewrite T23. unfold s2. destruct (sz <? off + t); [rewrite geti_updi by apply HW1|];
      rewrite Eip; done.
  - intros o Hoo. rewrite (same_file_byte s1 s3) by (try done; by apply S13). by apply C1.
  - intros j Hj. rewrite T23, Tz by done. by apply (fr_tab _ _ _ _ F1).
  - intros j Hj Wj Dj. destruct (frame_other s s1 ip j F1 Hj Wj Dj) as [Sj Dj1].
    pose proof (S13 j (sf_wf _ _ _ Sj)) as Sj3. split; [by apply (same_file_trans s s1)|].
    intros b Hb Hip Hoj. apply (Dj1 b Hb); [|by apply (same_file_own s1 s3)].
    by apply (same_file_own s1 s3); [apply S13|].
Qed.

(** ** Reading *)

Lemma length_fbytes s ip off n : length (fbytes s ip off n) = Z.to_nat n.
Proof. unfold fbytes. by rewrite length_map, length_seq. Qed.

Lemma nth_fbytes s ip off n k : (k < Z.to_nat n)%nat -> nth k (fbytes s ip off n) 0 = fbyte s ip (off + Z.of_nat k).
Proof.
  intros H. unfold fbytes. rewrite nth_indep with (d' := fbyte s ip (off + Z.of_nat 0)) by (by rewrite length_map, length_seq).
  rewrite (map_nth (fun k => fbyte s ip (off + Z.of_nat k)) (seq 0 (Z.to_nat n)) 0%nat k), seq_nth by done. done.
Qed.

Lemma nth_list_eq (l l' : list Z) :
  length l = length l' -> (forall k, (k < length l)%nat -> nth k l 0 = nth k l' 0) -> l = l'.
Proof. intros Hl Hk. apply (nth_ext _ _ 0 0); [done|]. intros k H. by apply Hk. Qed.

Lemma fbytes_app s ip off a b :
  0 <= a -> 0 <= b -> fbytes s ip off (a + b) = fbytes s ip off a ++ fbytes s ip (off + a) b.
Proof.
  intros Ha Hb. apply nth_list_eq; rewrite ?length_app, ?length_fbytes; [lia|].
  intros k Hk. rewrite nth_fbytes by done. destruct (Nat.lt_ge_cases k (Z.to_nat a)) as [H|H].
  - rewrite app_nth1 by (by rewrite length_fbytes). by rewrite nth_fbytes.
  - rewrite app_nth2 by (by rewrite length_fbytes). rewrite length_fbytes, nth_fbytes by lia. f_equal. lia.
Qed.

(** A piece of one block. *)
Lemma fbytes_chunk s ip off m :
  DInv sb (fblk s) -> 0 <= off < FILEMAX -> 0 <= m <= BSIZE - off mod BSIZE ->
  fblock s ip (Z.to_nat (off / BSIZE)) <> 0 ->
  take (Z.to_nat m) (drop (Z.to_nat (off mod BSIZE)) (fblk s (fblock s ip (Z.to_nat (off / BSIZE))))) =
  fbytes s ip off m.
Proof.
  intros HI Ho Hm Hn. destruct (div_mod_B off) as [Ed Er].
  set (a := fblock s ip (Z.to_nat (off / BSIZE))) in *.
  destruct (di_blocks _ _ HI a) as [Hlen _].
  apply nth_list_eq; rewrite ?length_take, ?length_drop, ?length_fbytes, ?Hlen; [lia|].
  intros k Hk. rewrite nth_fbytes by lia. rewrite nth_firstn, (proj2 (Nat.ltb_lt _ _)) by lia.
  rewrite nth_skipn. unfold fbyte.
  assert ((off + Z.of_nat k) / BSIZE = off / BSIZE) as ->.
  { symmetry. apply (Z.div_unique _ _ _ (off mod BSIZE + Z.of_nat k)); lia. }
  assert ((off + Z.of_nat k) mod BSIZE = off mod BSIZE + Z.of_nat k) as ->.
  { symmetry. apply (Z.mod_unique _ _ (off / BSIZE)); lia. }
  unfold fcontent. fold a. rewrite (proj2 (Z.eqb_neq a 0) Hn). f_equal. lia.
Qed.

Lemma read_loop_spec fuel ip user n s : forall dst off tot out,
  DInv sb (fblk s) -> file_wf sb s ip -> 0 <= off -> 0 <= tot <= n -> off + (n - tot) <= FILEMAX ->
  (forall o, off <= o < off + (n - tot) -> fblock s ip (Z.to_nat (o / BSIZE)) <> 0) ->
  tot = n \/ off mod BSIZE + (n - tot) <= BSIZE * Z.of_nat fuel ->
  read_loop copyout sb fuel ip user dst off n tot out s = Ret ((n, out ++ fbytes s ip off (n - tot)), s) \/
  (user = true /\ (exists a m, copyout a m = false) /\ exists k, 0 <= k <= n - tot /\
     read_loop copyout sb fuel ip user dst off n tot out s = Ret ((-1, out ++ fbytes s ip off k), s)).
Proof.
  induction fuel as [|fuel IH]; intros dst off tot out HI HW Hoff Htot Hmax Hmap Hfuel; cbn [read_loop];
    (destruct (Z.ltb_spec tot n) as [Hlt|Hge];
     [|left; replace (n - tot) with 0 by lia; replace n with tot by lia; cbn; by rewrite app_nil_r]).
  { exfalso. destruct (div_mod_B off). lia. }
  destruct (div_mod_B off) as [Ed Er].
  assert (0 <= off < FILEMAX) as Hof by lia. pose proof (block_of off Hof) as Hb.
  pose proof (Hmap off ltac:(lia)) as Hn.
  destruct (bmap_spec sb HL s ip (Z.to_nat (off / BSIZE)) HI HW Hb) as (a & s1 & E1 & _ & Ea & Hs & _).
  rewrite Z2Nat.id in E1 by (apply Z.div_pos; lia). rewrite (Hs Hn) in E1, Ea. clear Hs s1.
  rewrite (M_bind_Ret _ _ _ _ _ E1). rewrite Ea in Hn. rewrite (proj2 (Z.eqb_neq a 0) Hn).
  unfold readb. rewrite (M_bind_Ret _ _ s (fblk s a) s) by done.
  set (m := Z.min (n - tot) (BSIZE - off mod BSIZE)) in *.
  destruct (either_copyout copyout user dst (Z.to_nat m)) eqn:Eo.
  - assert (take (Z.to_nat m) (drop (Z.to_nat (off mod BSIZE)) (fblk s a)) = fbytes s ip off m) as ->.
    { rewrite <- Ea. apply fbytes_chunk; try done; [lia|by rewrite Ea]. }
    assert (forall k, 0 <= k -> (out ++ fbytes s ip off m) ++ fbytes s ip (off + m) k =
              out ++ fbytes s ip off (m + k)) as Happ.
    { intros k Hk. rewrite <- app_assoc, fbytes_app by lia. done. }
    destruct (IH (dst + m) (off + m) (tot + m) (out ++ fbytes s ip off m)) as [E|(Hu & Hbad & k & Hk & E)]; try done; try lia.
    + intros o Ho. apply Hmap. lia.
    + destruct (Z.le_gt_cases (n - tot) (BSIZE - off mod BSIZE)) as [Hmin|Hmin]; [left; lia|right].
      assert (m = BSIZE - off mod BSIZE) as Em by lia. rewrite Em.
      replace (off + (BSIZE - off mod BSIZE)) with ((off / BSIZE + 1) * BSIZE) by lia.
      rewrite Z.mod_mul by (rewrite BSIZE_val; lia). lia.
    + left. rewrite E, Happ by lia. by replace (m + (n - (tot + m))) with (n - tot) by lia.
    + right. split; [done|]. split; [done|]. exists (m + k). split; [lia|]. by rewrite E, Happ by lia.
  - right. unfold either_copyout in Eo. destruct user; [|done]. split; [done|]. split; [by exists dst, (Z.to_nat m)|].
    exists 0. split; [lia|]. cbn. by rewrite app_nil_r.
Qed.

Lemma readi_spec s ip user dst off n :
  file_ok s ip -> 0 <= off < 2 ^ 32 -> 0 <= n < 2 ^ 32 -> off + n < 2 ^ 32 ->
  let got := Z.max 0 (Z.min n (i_size (geti s ip) - off)) in
  readi copyout sb ip user dst off n s = Ret ((got, fbytes s ip off got), s) \/
  (user = true /\ (exists a m, copyout a m = false) /\ exists k, 0 <= k <= got /\
     readi copyout sb ip user dst off n s = Ret ((-1, fbytes s ip off k), s)).
Proof.
  intros [HI HW Hsz Hhome Hmap] Ho Hn Hs got. pose proof FILEMAX_val as HF.
  unfold readi, readip. rewrite (M_bind_Ret _ _ s (i_size (geti s ip)) s) by done.
  destruct (u32_sum off n Ho Hn) as [-> Hu]. rewrite Hu by lia.
  rewrite (proj2 (Z.leb_gt _ _)) by lia. rewrite orb_false_r.
  destruct (Z.ltb_spec (i_size (geti s ip)) off) as [Hlt|Hge].
  { left. replace got with 0 by lia. done. }
  cbv zeta. assert ((if i_size (geti s ip) <? off + n then i_size (geti s ip) - off else n) = got) as ->.
  { destruct (Z.ltb_spec (i_size (geti s ip)) (off + n)); lia. }
  destruct (read_loop_spec (Z.to_nat (got / BSIZE + 2)) ip user got s dst off 0 [] HI HW) as [E|E]; try lia.
  - intros o Hoo. apply Hmap. lia.
  - right. destruct (div_mod_B off), (div_mod_B got). pose proof (Z.div_pos got BSIZE ltac:(lia) ltac:(lia)).
    rewrite Z2Nat.id by lia. lia.
  - left. replace (got - 0) with got in E by lia. exact E.
  - right. replace (got - 0) with got in E by lia. exact E.
Qed.
End Data.

(** ** Theorems *)

(** C5: [writei] changes exactly what it should.  It refuses a write that starts
    beyond the end of the file or reaches beyond the largest file, with no
    effect.  Otherwise it returns some [t <= n], smaller than [n] only when the
    disk is full or the caller's memory cannot be read; the bytes
    [off .. off + t) of the file become the caller's, in however many blocks they lie,
    and the size grows to [off + t] if it was smaller.  A failed user copy may
    leave more of the caller's bytes (up to [e]) in the file.  All other bytes of the file
    and every file that shares no block with it are unchanged, the file stays
    free of holes, and its blocks stay its own. *)
Theorem writei_correct sb mem copyin s ip user src off n :
  layout sb -> (forall a, 0 <= mem a < 256) ->
  (forall a m, (fst (copyin a m) <= m)%nat /\ (snd (copyin a m) = true -> fst (copyin a m) = m)) ->
  file_ok sb s ip -> 0 <= off < 2 ^ 32 -> 0 <= n < 2 ^ 32 ->
  (i_size (geti s ip) < off \/ FILEMAX < off + n ->
     writei mem copyin sb ip user src off n s = Ret (-1, s)) /\
  (off <= i_size (geti s ip) -> off + n <= FILEMAX ->
   exists t e s', writei mem copyin sb ip user src off n s = Ret (t, s') /\ 0 <= t <= n /\
    (t = n \/ write_stop sb copyin s' user) /\
    (e = off + t \/ (off + t <= e <= off + n /\ user = true /\ exists a m, snd (copyin a m) = false)) /\
    file_ok sb s' ip /\ i_size (geti s' ip) = Z.max (i_size (geti s ip)) (off + t) /\
    meta_same (geti s ip) (geti s' ip) /\
    (forall o, 0 <= o < FILEMAX -> fbyte s' ip o =
       if (off <=? o) && (o <? e) then mem (src + (o - off)) else fbyte s ip o) /\
    (forall j, j <> ip -> geti s' j = geti s j) /\
    (forall j, j <> ip -> file_wf sb s j -> disjoint_files s ip j ->
       (forall o, 0 <= o < FILEMAX -> fbyte s' j o = fbyte s j o) /\
       file_wf sb s' j /\ disjoint_files s' ip j)).
Proof.
  intros HL Hmem Hci Hok Ho Hn. split; [by apply writei_refused|]. intros Hsz Hmax.
  destruct (writei_written sb HL mem Hmem copyin Hci s ip user src off n Hok)
    as (t & e & s' & E & Ht & St & Sp & Hok' & Hs & Hms & Hc & Ht' & Hj); try lia.
  exists t, e, s'. repeat (split; [done|]). intros j Nj Wj Dj. destruct (Hj j Nj Wj Dj) as [Sj Dj'].
  split; [|split; [apply Sj|done]]. intros o Hoo. by apply (same_file_byte sb s s').
Qed.

(** C16: [readi] returns exactly the bytes of the file asked for, cut at its
    end, and changes nothing; in particular it allocates no block.  It fails
    (with -1, after delivering a prefix) only when the copy to user memory
    fails; a request whose end overflows 32 bits reads nothing. *)
Theorem readi_correct sb copyout s ip user dst off n :
  layout sb -> file_ok sb s ip -> 0 <= off < 2 ^ 32 -> 0 <= n < 2 ^ 32 ->
  let got := if 2 ^ 32 <=? off + n then 0 else Z.max 0 (Z.min n (i_size (geti s ip) - off)) in
  readi copyout sb ip user dst off n s = Ret ((got, fbytes s ip off got), s) \/
  (user = true /\ (exists a m, copyout a m = false) /\ exists k, 0 <= k <= got /\
     readi copyout sb ip user dst off n s = Ret ((-1, fbytes s ip off k), s)).
Proof.
  intros HL Hok Ho Hn got. destruct (Z.leb_spec (2 ^ 32) (off + n)) as [Hov|Hov].
  - left. subst got. unfold readi, readip.
    rewrite (M_bind_Ret _ _ s (i_size (geti s ip)) s) by done.
    destruct (u32_sum off n Ho Hn) as [-> _]. rewrite (proj2 (Z.leb_le _ _)) by lia. by rewrite orb_true_r.
  - by apply readi_spec.
Qed.

(** The value a run returns. *)
Definition fst_of {A S} (r : res (A * S)) : option A :=
  match r with Ret (a, _) => Some a | _ => None end.

(** ** A small disk *)

Module Example.
Import Disk100.
(** Two open empty files, inodes 1 and 2. *)
Definition open (inum : Z) : inode := mkI 1 inum 1 true true 2 0 0 1 0 (repeat 0 13).
Definition s0 : fs := mkFs disk [open 1; open 2].

Lemma empty_file ip : (ip < 2)%nat -> file_ok sb s0 ip.
Proof.
  intros Hip.
  assert (i_addrs (geti s0 ip) = repeat 0 13 /\ i_size (geti s0 ip) = 0 /\
          0 < i_inum (geti s0 ip) < 16) as (Ha & Hs & Hi)
    by (destruct ip as [|[|ip]]; [vm_compute; auto..|lia]).
  assert (ind_addr s0 ip = 0) as Ei by (unfold ind_addr; by rewrite Ha).
  assert (forall bn, (bn < MAXBN)%nat -> fblock s0 ip bn = 0) as Eb.
  { intros bn _. unfold fblock. rewrite Ei, Ha. destruct (bn <? NDIRECT)%nat; [apply nth_repeat|done]. }
  split.
  - apply disk_inv.
  - split; [cbn; lia|by rewrite Ha|done|intros bn Hb Hn; by rewrite Eb in Hn|].
    intros bn bn' Hb Hb' Hn. by rewrite Eb in Hn.
  - rewrite Hs, FILEMAX_val. lia.
  - unfold inode_home. assert (IBLOCK sb (i_inum (geti s0 ip)) = 5) as ->
      by (unfold IBLOCK, IPB; cbn [inodestart sb]; rewrite Z.div_small; lia).
    split; [|vm_compute; reflexivity]. intros (x & Hx & E). unfold BBLOCK in E.
    rewrite BPB_val in E. cbn [bmapstart sb] in E. change (sb_size sb) with 100 in Hx.
    rewrite Z.div_small in E; lia.
  - intros o Ho. rewrite Hs in Ho. lia.
Qed.

Definition mem (a : Z) : Z := a mod 256.
Definition copyin (a : Z) (m : nat) : nat * bool := (m, true).
Definition copyout (a : Z) (m : nat) : bool := true.

Lemma mem_ok a : 0 <= mem a < 256.
Proof. apply Z.mod_pos_bound. lia. Qed.

Lemma disjoint_empty : disjoint_files s0 0 1.
Proof.
  assert (forall bn, fblock s0 0 bn = 0) as H.
  { intros bn. unfold fblock. change (ind_addr s0 0) with 0. destruct (bn <? NDIRECT)%nat; [|done].
    change (i_addrs (geti s0 0)) with (repeat 0 13). apply nth_repeat. }
  intros b Hb [->|(bn & _ & ->)]; [done|]. by rewrite H in Hb.
Qed.
End Example.

(** A write of 20000 bytes (13 data blocks and an indirect block) into one file. *)
Lemma writei_correct_witness :
  exists t s', writei Example.mem Example.copyin Disk100.sb 0 true 5 0 20000 Example.s0 = Ret (t, s') /\
    file_ok Disk100.sb s' 0 /\ (forall o, 0 <= o < FILEMAX -> fbyte s' 1 o = fbyte Example.s0 1 o).
Proof.
  destruct (proj2 (writei_correct Disk100.sb Example.mem Example.copyin Example.s0 0 true 5 0 20000
    Disk100.sb_layout Example.mem_ok (fun a m => conj (le_n m) (fun _ => eq_refl))
    (Example.empty_file 0 ltac:(lia)) ltac:(lia) ltac:(lia)) ltac:(cbn; lia) ltac:(rewrite FILEMAX_val; lia))
    as (t & e & s' & E & _ & _ & _ & Hok & _ & _ & _ & _ & Hj).
  exists t, s'. split; [exact E|]. split; [exact Hok|].
  apply (Hj 1%nat ltac:(lia) (fo_wf _ _ _ (Example.empty_file 1 ltac:(lia))) Example.disjoint_empty).
Defined.

(** Reading back from a file of 20000 bytes. *)
Lemma readi_correct_witness :
  exists s', readi Example.copyout Disk100.sb 0 false 0 100 3000 s' =
               Ret ((3000, fbytes s' 0 100 3000), s').
Proof.
  destruct (writei_written Disk100.sb Disk100.sb_layout Example.mem Example.mem_ok Example.copyin
    (fun a m => conj (le_n m) (fun _ => eq_refl)) Example.s0 0 false 5 0 20000 (Example.empty_file 0 ltac:(lia)))
    as (t & e & s' & E & Ht & St & _ & Hok & Hsz & _); [lia|cbn; lia|rewrite FILEMAX_val; lia|].
  exists s'. destruct (readi_correct Disk100.sb Example.copyout s' 0 false 0 100 3000
    Disk100.sb_layout Hok ltac:(lia) ltac:(lia)) as [H|[H _]]; [|discriminate H].
  assert (t = 20000) as Ht'.
  { assert (fst_of (writei Example.mem Example.copyin Disk100.sb 0 false 5 0 20000 Example.s0) = Some 20000) as H2
      by (vm_compute; reflexivity). rewrite E in H2. by injection H2. }
  rewrite Hsz, Ht' in H. change (i_size (geti Example.s0 0)) with 0 in H.
  change (2 ^ 32 <=? 100 + 3000) with false in H. cbv beta iota zeta in H.
  replace (Z.max 0 (Z.min 3000 (Z.max 0 (0 + 20000) - 100))) with 3000 in H by lia. exact H.
Defined.
