(* ===== verification/FsTable.v ===== *)
(** * The inode table: [iget], [ilock], [iput], [itrunc] of [kernel/fs.c] *)

From S2P Require Import Prelude Mlfq Bio FsBlk Words FsInode FsData.

(** ** Freeing the blocks of a file *)

(** The addresses in a list that stand for a block. *)
Definition nz (l : list Z) : list Z := filter (fun a => a <> 0) l.

Lemma nz_cons a l : nz (a :: l) = if a =? 0 then nz l else a :: nz l.
Proof.
  unfold nz. rewrite filter_cons. destruct (Z.eqb_spec a 0); case_decide; try done; tauto.
Qed.
Lemma nz_app l l' : nz (l ++ l') = nz l ++ nz l'.
Proof. apply list.filter_app. Qed.
Lemma elem_of_nz a l : a ∈ nz l <-> a ∈ l /\ a <> 0.
Proof. unfold nz. rewrite list_elem_of_filter. tauto. Qed.
#[local] Arguments nz : simpl never.

Section Free.
Context (sb : superblock) (HL : layout sb).

(** [f'] is [f] with the blocks [L] marked free, and no contents changed. *)
Record freed (f f' : Z -> block) (L : list Z) : Prop := {
  fd_inv : DInv sb f';
  fd_blk : forall b, ~ is_bmap sb b -> f' b = f b;
  fd_used : forall b, 0 <= b < sb_size sb -> used sb f' b = used sb f b && negb (bool_decide (b ∈ L))
}.

Lemma freed_nil f : DInv sb f -> freed f f [].
Proof. intros H. split; [done|done|]. intros b Hb. rewrite bool_decide_false by set_solver. by rewrite andb_true_r. Qed.

Lemma freed_app f f1 f2 L1 L2 : freed f f1 L1 -> freed f1 f2 L2 -> freed f f2 (L1 ++ L2).
Proof.
  intros [A1 A2 A3] [B1 B2 B3]. split; [done|..].
  - intros b Hb. by rewrite B2, A2.
  - intros b Hb. rewrite B3, A3, <- andb_assoc by done. f_equal.
    repeat case_bool_decide; try done; set_solver.
Qed.

Lemma freed_one (s : fs) a :
  DInv sb (fblk s) -> live sb (fblk s) a ->
  exists f', bfree sb a s = Ret (tt, mkFs f' (itab s)) /\ freed (fblk s) f' [a].
Proof.
  intros HI [Hd Hu]. destruct (bfree_spec sb HL (HD := fs_disk) s a HI Hd Hu) as (f' & E & Hr & Ea & HI').
  exists f'. split; [done|]. split; [done|..].
  - intros b Hb. destruct (Z.eq_dec b a) as [->|N]; [done|]. apply (rm_other _ _ _ _ _ Hr); [done|].
    intros ->. apply Hb. exists a. split; [by apply (data_in sb HL)|done].
  - intros b Hb. rewrite (rm_used _ _ _ _ _ Hr b Hb). destruct (Z.eqb_spec b a) as [->|N].
    + rewrite bool_decide_true by set_solver. by rewrite andb_false_r.
    + rewrite bool_decide_false by set_solver. by rewrite andb_true_r.
Qed.

(** What is live stays live while other blocks are freed. *)
Lemma freed_live f f' L a : freed f f' L -> live sb f a -> a ∉ L -> live sb f' a.
Proof.
  intros H [Hd Hu] Ha. split; [done|]. rewrite (fd_used _ _ _ H) by (by apply (data_in sb HL)).
  rewrite Hu, bool_decide_false by done. done.
Qed.

Lemma trunc_indirect_spec d : forall js (s : fs),
  DInv sb (fblk s) -> NoDup (nz (get32 d <$> js)) ->
  (forall a, a ∈ nz (get32 d <$> js) -> live sb (fblk s) a) ->
  exists f', trunc_indirect sb d js s = Ret (tt, mkFs f' (itab s)) /\
    freed (fblk s) f' (nz (get32 d <$> js)).
Proof.
  induction js as [|j js IH]; intros s HI Hnd Hl; cbn [trunc_indirect fmap list_fmap] in *.
  { exists (fblk s). split; [by destruct s|]. by apply freed_nil. }
  rewrite nz_cons in *. destruct (Z.eqb_spec (get32 d j) 0) as [E0|N0].
  - rewrite (M_bind_Ret _ _ s tt s) by done. by apply IH.
  - apply list.NoDup_cons in Hnd as [Hni Hnd].
    destruct (freed_one s (get32 d j) HI) as (f1 & E1 & F1); [apply Hl; set_solver|].
    rewrite (M_bind_Ret _ _ _ _ _ E1).
    destruct (IH (mkFs f1 (itab s))) as (f2 & E2 & F2); [apply F1|done|..].
    + intros a Ha. apply (freed_live (fblk s) f1 [get32 d j]); [done|apply Hl; set_solver|].
      intros ->%list_elem_of_singleton. done.
    + exists f2. split; [done|]. apply (freed_app _ f1 _ [_] _ F1 F2).
Qed.

(** [l] with the entries [ks] zeroed. *)
Fixpoint zero_at (ks : list nat) (l : list Z) : list Z :=
  match ks with [] => l | k :: ks' => zero_at ks' (<[k := 0]> l) end.

Definition set_addrs l x := mkI (i_dev x) (i_inum x) (i_ref x) (i_locked x) (i_valid x)
  (i_type x) (i_major x) (i_minor x) (i_nlink x) (i_size x) l.

Lemma updi_updi ip f g s : (ip < length (itab s))%nat -> updi ip g (updi ip f s) = updi ip (fun x => g (f x)) s.
Proof.
  intros H. unfold updi at 1. rewrite geti_updi by done. unfold updi. cbn. f_equal.
  by rewrite list_insert_insert_eq.
Qed.

Lemma updi_set_addrs_id ip s : updi ip (set_addrs (i_addrs (geti s ip))) s = s.
Proof.
  unfold updi. destruct s as [f l]. cbn [fblk itab]. f_equal. unfold geti. cbn [itab].
  assert (forall x, set_addrs (i_addrs x) x = x) as -> by (by intros []).
  revert ip. induction l as [|x l IH]; intros [|ip]; try done. cbn. f_equal. apply IH.
Qed.

Lemma insert_zero_id (l : list Z) k : nth k l 0 = 0 -> <[k := 0]> l = l.
Proof.
  revert k. induction l as [|x l IH]; intros [|k] H; try done; cbn in *; [by subst|]. by f_equal; apply IH.
Qed.

Lemma trunc_direct_spec ip : forall ks (s : fs),
  let l := i_addrs (geti s ip) in
  DInv sb (fblk s) -> (ip < length (itab s))%nat -> NoDup ks -> NoDup (nz ((fun k => nth k l 0) <$> ks)) ->
  (forall a, a ∈ nz ((fun k => nth k l 0) <$> ks) -> live sb (fblk s) a) ->
  exists f', trunc_direct sb ip ks s = Ret (tt, updi ip (set_addrs (zero_at ks l)) (mkFs f' (itab s))) /\
    freed (fblk s) f' (nz ((fun k => nth k l 0) <$> ks)).
Proof.
  induction ks as [|k ks IH]; intros s l HI Hip Hks Hnd Hl; cbn [trunc_direct fmap list_fmap zero_at] in *.
  { exists (fblk s). split; [|by apply freed_nil]. replace (mkFs (fblk s) (itab s)) with s by (by destruct s).
    unfold l. rewrite updi_set_addrs_id. done. }
  unfold readip. rewrite (M_bind_Ret _ _ s (nth k l 0) s) by done.
  apply list.NoDup_cons in Hks as [Hk Hks]. rewrite nz_cons in *.
  destruct (Z.eqb_spec (nth k l 0) 0) as [E0|N0].
  - rewrite (M_bind_Ret _ _ s tt s) by done. rewrite insert_zero_id by done. by apply IH.
  - apply list.NoDup_cons in Hnd as [Hni Hnd].
    destruct (freed_one s (nth k l 0) HI) as (f1 & E1 & F1); [apply Hl; set_solver|].
    set (s1 := updi ip (set_addr k 0) (mkFs f1 (itab s))).
    rewrite (M_bind_Ret _ _ s tt s1) by (by rewrite (M_bind_Ret _ _ _ _ _ E1)).
    assert (i_addrs (geti s1 ip) = <[k := 0]> l) as El by (unfold s1; by rewrite geti_updi).
    assert ((fun j => nth j (<[k := 0]> l) 0) <$> ks = (fun j => nth j l 0) <$> ks) as Em.
    { apply list_fmap_ext. intros i j Hj. apply nth_insert_ne. intros ->. apply Hk. by eapply list_elem_of_lookup_2. }
    destruct (IH s1) as (f2 & E2 & F2); rewrite ?El, ?Em; try done.
    + apply F1.
    + unfold s1. by rewrite length_updi.
    + intros a Ha. apply (freed_live (fblk s) f1 [nth k l 0]); [done|apply Hl; set_solver|].
      intros ->%list_elem_of_singleton. done.
    + rewrite El, Em in *. exists f2. split; [|apply (freed_app _ f1 _ [_] _ F1 F2)]. rewrite E2. do 2 f_equal.
      unfold s1, updi. cbn [fblk itab]. f_equal. rewrite list_insert_insert_eq. f_equal.
      unfold geti at 1. cbn [itab]. rewrite nth_insert_eq by done. done.
Qed.

Lemma NoDup_nz (f : nat -> Z) ks :
  NoDup ks -> (forall k k', k ∈ ks -> k' ∈ ks -> f k <> 0 -> f k = f k' -> k = k') -> NoDup (nz (f <$> ks)).
Proof.
  induction ks as [|k ks IH]; intros Hnd Hf; cbn [fmap list_fmap]; [constructor|].
  apply list.NoDup_cons in Hnd as [Hk Hnd]. rewrite nz_cons.
  assert (NoDup (nz (f <$> ks))) by (apply IH; [done|]; intros; apply Hf; set_solver).
  destruct (Z.eqb_spec (f k) 0) as [|N]; [done|]. constructor; [|done].
  intros (Hin & _)%elem_of_nz. apply list_elem_of_fmap in Hin as (k' & E & Hk').
  apply Hk. rewrite (Hf k k'); [done|set_solver|set_solver|done|done].
Qed.

(** The blocks of a file: its data blocks and its indirect block. *)
Definition file_blocks (s : fs) (ip : nat) : list Z :=
  nz (fblock s ip <$> seq 0 NDIRECT) ++ nz (fblock s ip <$> seq NDIRECT NINDIRECT) ++ nz [ind_addr s ip].

Lemma file_blocks_own s ip b : b ∈ file_blocks s ip <-> b <> 0 /\ own s ip b.
Proof.
  unfold file_blocks, own. rewrite !elem_of_app, !elem_of_nz, !list_elem_of_fmap, list_elem_of_singleton.
  setoid_rewrite elem_of_seq. change NINDIRECT with 256%nat. unfold NDIRECT, MAXBN. split.
  - intros [[(k & E & Hk) Hn]|[[(k & E & Hk) Hn]|[E Hn]]]; (split; [done|]); auto;
      right; exists k; (split; [lia|done]).
  - intros [Hn [E|(bn & Hb & E)]]; [tauto|]. destruct (Nat.lt_ge_cases bn 12).
    + left. split; [|done]. exists bn. split; [done|lia].
    + right. left. split; [|done]. exists bn. split; [done|lia].
Qed.

Lemma zero_all l : length l = 13%nat -> <[NDIRECT := 0]> (zero_at (seq 0 NDIRECT) l) = repeat 0 13 /\
  nth NDIRECT (zero_at (seq 0 NDIRECT) l) 0 = nth NDIRECT l 0.
Proof. intros H. do 14 (destruct l as [|? l]; [done|]; try done). Qed.

Lemma fblock_direct s ip : (fun k => nth k (i_addrs (geti s ip)) 0) <$> seq 0 NDIRECT = fblock s ip <$> seq 0 NDIRECT.
Proof.
  apply list_fmap_ext. intros i k (-> & Hi)%lookup_seq. unfold fblock.
  by rewrite (proj2 (Nat.ltb_lt _ _)) by lia.
Qed.

Lemma fblock_indirect s ip :
  fblock s ip <$> seq NDIRECT NINDIRECT =
  (fun j => if ind_addr s ip =? 0 then 0 else get32 (fblk s (ind_addr s ip)) j) <$> seq 0 NINDIRECT.
Proof.
  rewrite <- (Nat.add_0_r NDIRECT) at 1. rewrite <- fmap_add_seq, <- list_fmap_compose.
  apply list_fmap_ext. intros i k (-> & Hi)%lookup_seq. cbn [compose]. unfold compose, fblock.
  rewrite (proj2 (Nat.ltb_ge _ _)) by lia. by replace (NDIRECT + (0 + i) - NDIRECT)%nat with (0 + i)%nat by lia.
Qed.

(** [itrunc] frees the file's blocks, no more and no less. *)
Record truncated (s s' : fs) (ip : nat) : Prop := {
  tr_inv : DInv sb (fblk s');
  tr_used : forall b, 0 <= b < sb_size sb ->
    used sb (fblk s') b = used sb (fblk s) b && negb (bool_decide (b ∈ file_blocks s ip));
  tr_blk : forall b, ~ is_bmap sb b -> b <> IBLOCK sb (i_inum (geti s ip)) -> fblk s' b = fblk s b;
  tr_tab : forall j, j <> ip -> geti s' j = geti s j;
  tr_len : length (itab s') = length (itab s);
  tr_ip : geti s' ip = set_size 0 (set_addrs (repeat 0 13) (geti s ip));
  tr_home : fblk s' (IBLOCK sb (i_inum (geti s ip))) =
    put_dinode (fblk s (IBLOCK sb (i_inum (geti s ip)))) (dip_off (i_inum (geti s ip)))
      (set_size 0 (set_addrs (repeat 0 13) (geti s ip)))
}.

Lemma file_blocks_live s ip b : file_wf sb s ip -> b ∈ file_blocks s ip -> live sb (fblk s) b.
Proof.
  intros HW (Hn & [->|(bn & Hb & ->)])%file_blocks_own; [by apply (fw_ind _ _ _ HW)|by apply (fw_live _ _ _ HW)].
Qed.

Lemma file_blocks_NoDup s ip : file_wf sb s ip -> NoDup (file_blocks s ip).
Proof.
  intros HW.
  assert (NoDup (nz (fblock s ip <$> seq 0 NDIRECT) ++ nz (fblock s ip <$> seq NDIRECT NINDIRECT))) as H1.
  { rewrite <- nz_app, <- fmap_app, <- seq_app. apply NoDup_nz; [apply NoDup_seq|].
    intros k k' Hk%elem_of_seq Hk'%elem_of_seq. change NINDIRECT with 256%nat in *. unfold NDIRECT in *.
    apply (fw_inj _ _ _ HW); unfold MAXBN; lia. }
  unfold file_blocks. rewrite app_assoc. apply list.NoDup_app. split; [done|]. split.
  - intros b Hb (->%list_elem_of_singleton & Hn)%elem_of_nz.
    apply elem_of_app in Hb as [Hb|Hb]; apply elem_of_nz in Hb as [(k & E & Hk%elem_of_seq)%list_elem_of_fmap _];
      change NINDIRECT with 256%nat in *; unfold NDIRECT in *;
      (apply (fw_live _ _ _ HW k); [unfold MAXBN; lia|congruence|congruence]).
  - rewrite nz_cons. destruct (_ =? 0); [constructor|apply NoDup_singleton].
Qed.

Lemma nz_zeros (l : list nat) : nz ((fun _ => 0) <$> l) = [].
Proof. induction l as [|x l IH]; [done|]. cbn [fmap list_fmap]. by rewrite nz_cons. Qed.

Lemma nz_single a : nz [a] = if a =? 0 then [] else [a].
Proof. by rewrite nz_cons. Qed.

(** The first part of [itrunc]: everything but the size and [iupdate]. *)
Lemma trunc_blocks s ip :
  DInv sb (fblk s) -> file_wf sb s ip ->
  exists f', (_ ← trunc_direct sb ip (seq 0 NDIRECT);
     ind ← readip ip (fun x => nth NDIRECT (i_addrs x) 0);
     if ind =? 0 then mret tt
     else d ← readb ind; _ ← trunc_indirect sb d (seq 0 NINDIRECT);
          _ ← bfree sb ind; modi ip (set_addr NDIRECT 0)) s =
    Ret (tt, updi ip (set_addrs (repeat 0 13)) (mkFs f' (itab s))) /\ freed (fblk s) f' (file_blocks s ip).
Proof.
  intros HI HW. pose proof (file_blocks_NoDup s ip HW) as Hnd. pose proof (fw_in _ _ _ HW) as Hip.
  assert (forall b, b ∈ file_blocks s ip -> live sb (fblk s) b) as Hl by (intros; by eapply file_blocks_live).
  unfold file_blocks in *. apply list.NoDup_app in Hnd as (N1 & D1 & Hnd).
  apply list.NoDup_app in Hnd as (N2 & D2 & N3).
  destruct (zero_all _ (fw_len _ _ _ HW)) as [Z1 Z2].
  destruct (trunc_direct_spec ip (seq 0 NDIRECT) s HI Hip (NoDup_seq _ _)) as (f1 & E1 & F1).
  { by rewrite fblock_direct. } { intros a. rewrite fblock_direct. intros Ha. apply Hl. rewrite !elem_of_app. tauto. }
  rewrite fblock_direct in F1. rewrite (M_bind_Ret _ _ _ _ _ E1). set (s1 := updi ip _ _).
  assert (geti s1 ip = set_addrs (zero_at (seq 0 NDIRECT) (i_addrs (geti s ip))) (geti s ip)) as G1
    by (unfold s1; by rewrite geti_updi).
  unfold readip. rewrite (M_bind_Ret _ _ s1 (ind_addr s ip) s1)
    by (unfold gets; rewrite G1; cbn [set_addrs i_addrs]; by rewrite Z2).
  rewrite fblock_indirect in *. destruct (Z.eqb_spec (ind_addr s ip) 0) as [E0|N0].
  - exists f1. split.
    + unfold s1. rewrite <- Z1. rewrite insert_zero_id; [done|]. by rewrite Z2.
    + rewrite nz_single, E0, Z.eqb_refl, nz_zeros. by rewrite app_nil_r.
  - set (d := fblk s (ind_addr s ip)) in *. pose proof (fw_ind _ _ _ HW N0) as Hli.
    assert (fblk s1 (ind_addr s ip) = d) as Ed.
    { unfold s1. cbn. apply (fd_blk _ _ _ F1). by apply (live_not_bmap sb HL (fblk s)). }
    unfold readb. rewrite (M_bind_Ret _ _ s1 d s1) by (unfold gets; cbn [blk fs_disk]; by rewrite Ed).
    destruct (trunc_indirect_spec d (seq 0 NINDIRECT) s1) as (f2 & E2 & F2); [apply F1|done|..].
    { intros a Ha. apply (freed_live (fblk s) f1 _ a F1); [apply Hl; rewrite !elem_of_app; tauto|].
      intros Hx. apply (D1 a Hx). rewrite elem_of_app. tauto. }
    rewrite (M_bind_Ret _ _ _ _ _ E2). rewrite nz_single, (proj2 (Z.eqb_neq _ 0) N0) in *.
    destruct (freed_one (mkFs f2 (itab s1)) (ind_addr s ip)) as (f3 & E3 & F3); [apply F2|..].
    { apply (freed_live f1 f2 _ _ F2); [apply (freed_live (fblk s) f1 _ _ F1 Hli)|].
      - intros Hx. apply (D1 _ Hx). rewrite elem_of_app, list_elem_of_singleton. tauto.
      - intros Hx. apply (D2 _ Hx). by rewrite list_elem_of_singleton. }
    rewrite (M_bind_Ret _ _ _ _ _ E3). exists f3. split.
    + unfold modi, modify. do 2 f_equal. cbn [itab]. rewrite <- Z1. unfold updi, s1, updi. cbn [fblk itab].
      unfold geti at 1. cbn [itab]. rewrite nth_insert_eq by done.
      rewrite list_insert_insert_eq. done.
    + apply (freed_app _ f1); [done|]. by apply (freed_app _ f2).
Qed.

Lemma itrunc_spec s ip :
  DInv sb (fblk s) -> file_wf sb s ip -> inode_home sb (i_inum (geti s ip)) ->
  exists s', itrunc sb ip s = Ret (tt, s') /\ truncated s s' ip.
Proof.
  intros HI HW Hh. destruct (trunc_blocks s ip HI HW) as (f' & E & F).
  pose proof (fw_in _ _ _ HW) as Hip.
  set (s1 := updi ip _ _) in E.
  assert (itrunc sb ip s = (_ ← modi ip (set_size 0); iupdate sb ip) s1) as ->.
  { unfold itrunc. revert E. unfold mbind, M_bind.
    destruct (trunc_direct sb ip (seq 0 NDIRECT) s) as [[[] sa]| |]; [|done|done].
    destruct (readip ip _ sa) as [[i sb']| |]; [|done|done]. by intros ->. }
  set (s2 := updi ip (set_size 0) s1). unfold modi. rewrite (M_bind_Ret _ _ s1 tt s2) by done.
  assert (s2 = updi ip (fun x => set_size 0 (set_addrs (repeat 0 13) x)) (mkFs f' (itab s))) as Es2
    by (unfold s2, s1; by rewrite updi_updi).
  assert (geti s2 ip = set_size 0 (set_addrs (repeat 0 13) (geti s ip))) as G2
    by (rewrite Es2; by rewrite geti_updi).
  assert (fblk s2 = f') as B2 by done.
  destruct (iupdate_spec sb HL s2 ip) as (s3 & E3 & T3 & D3 & _ & U3 & O3 & H3).
  { rewrite B2. apply F. } { rewrite G2. done. }
  rewrite G2 in *. cbn [set_size set_addrs i_inum] in *.
  exists s3. split; [done|]. split; [done|..].
  - intros b Hb. rewrite U3, B2 by done. by apply (fd_used _ _ _ F).
  - intros b Hb Hne. rewrite O3, B2 by done. by apply (fd_blk _ _ _ F).
  - intros j Hj. unfold geti at 1. rewrite T3. fold (geti s2 j). rewrite Es2. by rewrite geti_updi_ne.
  - rewrite T3, Es2. by rewrite length_updi.
  - unfold geti at 1. rewrite T3. fold (geti s2 ip). done.
  - rewrite H3, B2. by rewrite (fd_blk _ _ _ F) by apply Hh.
Qed.
End Free.

(** ** On-disk inodes *)

Lemma nth_put_addrs_out d o l k : (k < o \/ o + 4 * length l <= k)%nat -> nth k (put_addrs d o l) 0 = nth k d 0.
Proof.
  revert d o. induction l as [|a l IH]; intros d o H; cbn [put_addrs length] in *; [done|].
  rewrite IH by lia. apply nth_putle_out. lia.
Qed.

Lemma nth_put_dinode_out d o x k :
  length (i_addrs x) = 13%nat -> (k < o \/ o + 64 <= k)%nat -> nth k (put_dinode d o x) 0 = nth k d 0.
Proof.
  intros Hl Hk. unfold put_dinode. rewrite nth_put_addrs_out by (rewrite Hl; lia).
  rewrite !nth_putle_out by lia. done.
Qed.

Lemma length_put_addrs d o l : length (put_addrs d o l) = length d.
Proof. revert d o. induction l as [|a l IH]; intros; cbn [put_addrs]; [done|]. by rewrite IH, length_putle. Qed.

Lemma get_addrs_ext n d d' o :
  (forall k, (o <= k < o + 4 * n)%nat -> nth k d 0 = nth k d' 0) -> get_addrs n d o = get_addrs n d' o.
Proof.
  revert o. induction n as [|n IH]; intros o H; [done|]. cbn [get_addrs].
  rewrite (getle_ext 4 d d' o), (IH (o + 4)%nat); [done| |]; intros k Hk; apply H; lia.
Qed.

Lemma get_put_addrs d o l :
  (o + 4 * length l <= length d)%nat -> Forall (fun a => 0 <= a < 2 ^ 32) l ->
  get_addrs (length l) (put_addrs d o l) o = l.
Proof.
  revert d o. induction l as [|a l IH]; intros d o H Hf; [done|]. cbn [length put_addrs get_addrs] in *.
  inversion Hf as [|? ? Ha Hf']; subst. f_equal.
  - rewrite (getle_ext 4 _ (putle 4 d o a)) by (intros; apply nth_put_addrs_out; lia).
    rewrite getle_putle by lia. by apply Z.mod_small.
  - apply IH; [rewrite length_putle; lia|done].
Qed.

(** The values an inode can have. *)
Record inode_range (x : inode) : Prop := {
  ir_type : - 2 ^ 15 <= i_type x < 2 ^ 15; ir_major : - 2 ^ 15 <= i_major x < 2 ^ 15;
  ir_minor : - 2 ^ 15 <= i_minor x < 2 ^ 15; ir_nlink : - 2 ^ 15 <= i_nlink x < 2 ^ 15;
  ir_size : 0 <= i_size x < 2 ^ 32;
  ir_len : length (i_addrs x) = 13%nat; ir_addrs : Forall (fun a => 0 <= a < 2 ^ 32) (i_addrs x)
}.

Lemma get16_put d o v : (o + 2 <= length d)%nat -> - 2 ^ 15 <= v < 2 ^ 15 -> i16 (getle 2 (putle 2 d o v) o) = v.
Proof.
  intros Ho Hv. rewrite getle_putle by lia. change (256 ^ Z.of_nat 2) with (2 ^ 16).
  rewrite swrap_mod by lia. apply swrap_small; [lia|done].
Qed.

Ltac field_at := rewrite ?getle_putle_other by lia.

(** Reading an inode back from its block. *)
Lemma get_put_dinode d o x y :
  inode_range x -> (o + 64 <= length d)%nat ->
  get_dinode (put_dinode d o x) o y =
  mkI (i_dev y) (i_inum y) (i_ref y) (i_locked y) (i_valid y)
    (i_type x) (i_major x) (i_minor x) (i_nlink x) (i_size x) (i_addrs x).
Proof.
  intros [R1 R2 R3 R4 R5 R6 R7] Ho. unfold get_dinode, put_dinode. cbv zeta.
  set (d1 := putle 4 _ (o + 8) (i_size x)).
  assert (forall n o', (o <= o')%nat -> (o' + n <= o + 12)%nat ->
    getle n (put_addrs d1 (o + 12) (i_addrs x)) o' = getle n d1 o') as Hout.
  { intros n o' H1 H2. apply getle_ext. intros k Hk. apply nth_put_addrs_out. lia. }
  rewrite !Hout by lia. rewrite <- R6. rewrite get_put_addrs by (try done; unfold d1; rewrite !length_putle, R6; lia).
  f_equal; unfold d1.
  - field_at. apply get16_put; [lia|done].
  - field_at. apply get16_put; [rewrite !length_putle; lia|done].
  - field_at. apply get16_put; [rewrite !length_putle; lia|done].
  - field_at. apply get16_put; [rewrite !length_putle; lia|done].
  - rewrite getle_putle by (rewrite !length_putle; lia). by apply Z.mod_small.
Qed.

(** Another inode of the same block is not touched. *)
Lemma get_put_dinode_other d o o' x y :
  length (i_addrs x) = 13%nat -> (o' + 64 <= o \/ o + 64 <= o')%nat ->
  get_dinode (put_dinode d o x) o' y = get_dinode d o' y.
Proof.
  intros Hl Ho. unfold get_dinode.
  assert (forall k, (o' <= k < o' + 64)%nat -> nth k (put_dinode d o x) 0 = nth k d 0) as H
    by (intros k Hk; apply nth_put_dinode_out; [done|lia]).
  rewrite !(getle_ext _ (put_dinode d o x) d) by (intros; apply H; lia).
  rewrite (get_addrs_ext 13 (put_dinode d o x) d) by (intros; apply H; lia). done.
Qed.

Lemma dip_off_bound inum : (dip_off inum + 64 <= Z.to_nat BSIZE)%nat.
Proof.
  unfold dip_off. pose proof (Z.mod_pos_bound inum IPB ltac:(unfold IPB; lia)). rewrite BSIZE_val. unfold IPB in *. lia.
Qed.

Lemma dip_off_apart sb inum inum' :
  IBLOCK sb inum = IBLOCK sb inum' -> inum <> inum' ->
  (dip_off inum' + 64 <= dip_off inum \/ dip_off inum + 64 <= dip_off inum')%nat.
Proof.
  unfold IBLOCK, dip_off, IPB. intros E N. pose proof (Z.mod_pos_bound inum 16 ltac:(lia)).
  pose proof (Z.mod_pos_bound inum' 16 ltac:(lia)).
  pose proof (Z.div_mod inum 16 ltac:(lia)). pose proof (Z.div_mod inum' 16 ltac:(lia)). lia.
Qed.

(** ** The table *)

(** Entry [ip] stands for inode [inum] of device [dev]. *)
Definition in_use (s : fs) (ip : nat) (dev inum : Z) : Prop :=
  (ip < length (itab s))%nat /\ 0 < i_ref (geti s ip) /\ i_dev (geti s ip) = dev /\ i_inum (geti s ip) = inum.

(** No inode has two entries. *)
Definition table_ok (s : fs) : Prop :=
  (forall ip ip' dev inum, in_use s ip dev inum -> in_use s ip' dev inum -> ip = ip') /\
  (forall ip, 0 <= i_ref (geti s ip)).

Lemma iget_scan_spec l : forall k e dev inum,
  match iget_scan l k e dev inum with
  | inl ip => (k <= ip < k + length l)%nat /\ 0 < i_ref (nth (ip - k) l inode0) /\
      i_dev (nth (ip - k) l inode0) = dev /\ i_inum (nth (ip - k) l inode0) = inum
  | inr r => (forall x, x ∈ l -> ~ (0 < i_ref x /\ i_dev x = dev /\ i_inum x = inum)) /\
      match e, r with
      | Some e, _ => r = Some e
      | None, Some ip => (k <= ip < k + length l)%nat /\ i_ref (nth (ip - k) l inode0) = 0
      | None, None => forall x, x ∈ l -> i_ref x <> 0
      end
  end.
Proof.
  induction l as [|x l IH]; intros k e dev inum; cbn [iget_scan].
  { split; [set_solver|]. destruct e; [done|set_solver]. }
  destruct ((0 <? i_ref x) && (i_dev x =? dev) && (i_inum x =? inum)) eqn:E.
  { apply andb_prop in E as [[E1 E2]%andb_prop E3]. rewrite Nat.sub_diag. cbn. lia. }
  assert (~ (0 < i_ref x /\ i_dev x = dev /\ i_inum x = inum)) as Hx.
  { intros (H1 & H2 & H3). rewrite H2, H3, !Z.eqb_refl in E. apply Z.ltb_lt in H1. by rewrite H1 in E. }
  specialize (IH (S k) (match e with None => if i_ref x =? 0 then Some k else None | Some _ => e end) dev inum).
  destruct (iget_scan l (S k) _ dev inum) as [ip|r].
  - destruct IH as (I1 & I2). cbn [length]. split; [lia|].
    replace (ip - k)%nat with (S (ip - S k)) by lia. exact I2.
  - destruct IH as [I1 I2]. split; [intros y [->|Hy]%elem_of_cons; auto|].
    destruct e as [e|]; [done|]. destruct (Z.eqb_spec (i_ref x) 0) as [Ez|Ez].
    + rewrite I2. rewrite Nat.sub_diag. cbn [length nth]. split; [lia|done].
    + destruct r as [ip|]; [|intros y [->|Hy]%elem_of_cons; auto].
      destruct I2 as [J1 J2]. cbn [length]. split; [lia|]. replace (ip - k)%nat with (S (ip - S k)) by lia. done.
Qed.

Lemma geti_out s ip : (length (itab s) <= ip)%nat -> geti s ip = inode0.
Proof. intros H. unfold geti. by apply nth_overflow. Qed.

Lemma elem_geti s ip : (ip < length (itab s))%nat -> geti s ip ∈ itab s.
Proof. intros H. apply list_elem_of_In. unfold geti. by apply nth_In. Qed.

(** An entry that gets a new reference keeps the table in order. *)
Lemma table_ok_upd s ip f :
  table_ok s -> (ip < length (itab s))%nat -> 0 <= i_ref (f (geti s ip)) ->
  (0 < i_ref (f (geti s ip)) -> forall j, j <> ip ->
     ~ in_use s j (i_dev (f (geti s ip))) (i_inum (f (geti s ip)))) ->
  table_ok (updi ip f s).
Proof.
  intros [T1 T2] Hip Hr Hnew.
  assert (forall j dev inum, in_use (updi ip f s) j dev inum -> j <> ip -> in_use s j dev inum) as Hne.
  { intros j dev inum (H1 & H2) Hj. rewrite length_updi in H1. rewrite geti_updi_ne in H2 by done. by split. }
  split.
  - intros j j' dev inum Hj Hj'. destruct (Nat.eq_dec j ip) as [->|N], (Nat.eq_dec j' ip) as [->|N']; try done.
    + exfalso. destruct Hj as (_ & H2 & H3 & H4). rewrite geti_updi in H2, H3, H4 by done.
      apply (Hnew H2 j' N'). rewrite H3, H4. auto.
    + exfalso. destruct Hj' as (_ & H2 & H3 & H4). rewrite geti_updi in H2, H3, H4 by done.
      apply (Hnew H2 j N). rewrite H3, H4. auto.
    + eapply T1; eauto.
  - intros j. destruct (Nat.eq_dec j ip) as [->|N]; [by rewrite geti_updi|by rewrite geti_updi_ne].
Qed.

(** The inode table never holds an inode twice.  [iget] returns the one entry
    of an inode that is in use and counts one more reference; otherwise it
    takes a free entry with one reference, marked as not yet read; it panics
    only when all entries are in use by other inodes. *)
Theorem iget_correct s dev inum :
  table_ok s ->
  match iget dev inum s with
  | Ret (ip, s') =>
      table_ok s' /\ in_use s' ip dev inum /\ fblk s' = fblk s /\
      (forall j, j <> ip -> geti s' j = geti s j) /\
      ((in_use s ip dev inum /\ geti s' ip = set_ref (i_ref (geti s ip) + 1) (geti s ip)) \/
       ((forall j, ~ in_use s j dev inum) /\ i_ref (geti s ip) = 0 /\
        i_ref (geti s' ip) = 1 /\ i_valid (geti s' ip) = false))
  | Panic _ => forall j, (j < length (itab s))%nat ->
      0 < i_ref (geti s j) /\ ~ in_use s j dev inum
  | Undef _ => False
  end.
Proof.
  intros HT. pose proof HT as [T1 T2]. unfold iget. rewrite (M_bind_Ret _ _ s s s) by done.
  pose proof (iget_scan_spec (itab s) 0 None dev inum) as H.
  destruct (iget_scan (itab s) 0 None dev inum) as [ip|[ip|]].
  - rewrite Nat.sub_0_r in H. destruct H as (Hip & H). fold (geti s ip) in H.
    assert (in_use s ip dev inum) as Hu by (split; [lia|done]).
    unfold modi. rewrite (M_bind_Ret _ _ s tt (updi ip (fun x => set_ref (i_ref x + 1) x) s)) by done. unfold mret, M_ret. cbv beta iota.
    split; [|split; [|split; [done|split; [by intros; apply geti_updi_ne|left; by rewrite geti_updi by lia]]]].
    + apply table_ok_upd; [done|lia|cbn; lia|]. intros _ j Nj Hj. cbn in Hj. destruct H as (_ & E1 & E2).
      rewrite E1, E2 in Hj. apply Nj. by apply (T1 j ip dev inum).
    + split; [rewrite length_updi; lia|]. rewrite geti_updi by lia. cbn. destruct H as (? & ? & ?). split; [lia|done].
  - rewrite Nat.sub_0_r in H. destruct H as [Hno [Hip Hz]]. fold (geti s ip) in Hz.
    assert (forall j, ~ in_use s j dev inum) as Hnone.
    { intros j (H1 & H2). apply (Hno (geti s j)); [by apply elem_geti|done]. }
    unfold modi. set (f := fun x : inode => mkI dev inum 1 _ _ _ _ _ _ _ _).
    rewrite (M_bind_Ret _ _ s tt (updi ip f s)) by done. unfold mret, M_ret. cbv beta iota.
    split; [|split; [|split; [done|split; [by intros; apply geti_updi_ne|right; by rewrite geti_updi by lia]]]].
    + apply table_ok_upd; [done|lia|cbn; lia|]. intros _ j Nj. cbn. apply Hnone.
    + split; [rewrite length_updi; lia|]. rewrite geti_updi by lia. cbn. done.
  - destruct H as [Hno Hz]. intros j Hj. pose proof (elem_geti s j Hj) as Hin. split.
    + specialize (T2 j). specialize (Hz _ Hin). lia.
    + intros (H1 & H2). by apply (Hno (geti s j)).
Qed.

Lemma iget_correct_witness :
  table_ok (mkFs Disk100.disk [inode0; inode0]) /\
  match iget 1 7 (mkFs Disk100.disk [inode0; inode0]) with
  | Ret (ip, s') => in_use s' ip 1 7 | _ => False
  end.
Proof.
  assert (table_ok (mkFs Disk100.disk [inode0; inode0])) as HT.
  { assert (forall ip, i_ref (geti (mkFs Disk100.disk [inode0; inode0]) ip) = 0) as H
      by (intros [|[|[|]]]; reflexivity).
    split; [|intros ip; rewrite H; lia]. intros ip ip' dev inum (_ & Hr & _). rewrite H in Hr. lia. }
  split; [exact HT|].
  pose proof (iget_correct (mkFs Disk100.disk [inode0; inode0]) 1 7 HT) as H.
  destruct (iget 1 7 (mkFs Disk100.disk [inode0; inode0])) as [[ip s']|e|e] eqn:E.
  - apply H.
  - vm_compute in E. discriminate E.
  - apply H.
Defined.

(** ** Dropping a reference *)

(** The inode as [iput] writes it to disk: free, empty. *)
Definition dead (x : inode) : inode := set_type 0 (set_size 0 (set_addrs (repeat 0 13) x)).

Lemma set_locked_wf sb s ip b : file_wf sb s ip -> file_wf sb (updi ip (set_locked b) s) ip.
Proof.
  intros [W1 W2 W3 W4 W5].
  assert (geti (updi ip (set_locked b) s) ip = set_locked b (geti s ip)) as G by (by rewrite geti_updi).
  assert (forall bn, fblock (updi ip (set_locked b) s) ip bn = fblock s ip bn) as Eb
    by (intros; unfold fblock, ind_addr; by rewrite G).
  assert (ind_addr (updi ip (set_locked b) s) ip = ind_addr s ip) as Ei by (unfold ind_addr; by rewrite G).
  split; rewrite ?length_updi, ?Ei, ?G; try done.
  - intros bn Hb. rewrite Eb. by apply W4.
  - intros bn bn' Hb Hb'. rewrite !Eb. by apply W5.
Qed.

Lemma file_blocks_ext s s' ip : fblk s' = fblk s -> i_addrs (geti s' ip) = i_addrs (geti s ip) ->
  file_blocks s' ip = file_blocks s ip.
Proof. intros E1 E2. unfold file_blocks, fblock, ind_addr. by rewrite E1, E2. Qed.

(** Dropping a reference to an inode.  The last reference to an inode without
    links frees the file: every one of its blocks, and no other, becomes free, its
    on-disk inode becomes free ([type] 0, no size, no blocks), and no
    other inode on disk, no other block in use and no other table entry changes.
    In every other case [iput] only counts one reference less. *)
Theorem iput_correct sb s ip :
  layout sb -> DInv sb (fblk s) -> file_wf sb s ip -> inode_home sb (i_inum (geti s ip)) ->
  i_locked (geti s ip) = false ->
  let x := geti s ip in
  let b0 := IBLOCK sb (i_inum x) in
  exists s', iput sb ip s = Ret (tt, s') /\
    i_ref (geti s' ip) = i_ref x - 1 /\ (forall j, j <> ip -> geti s' j = geti s j) /\
    (if (i_ref x =? 1) && i_valid x && (i_nlink x =? 0) then
       i_valid (geti s' ip) = false /\
       (forall b, 0 <= b < sb_size sb ->
          used sb (fblk s') b = used sb (fblk s) b && negb (bool_decide (b ∈ file_blocks s ip))) /\
       (forall b, ~ is_bmap sb b -> b <> b0 -> fblk s' b = fblk s b) /\
       getle 2 (fblk s' b0) (dip_off (i_inum x)) = 0 /\
       (forall inum y, inum <> i_inum x -> IBLOCK sb inum = b0 ->
          get_dinode (fblk s' b0) (dip_off inum) y = get_dinode (fblk s b0) (dip_off inum) y)
     else fblk s' = fblk s /\ geti s' ip = set_ref (i_ref x - 1) x).
Proof.
  intros HL HI HW Hh Hlk x b0. pose proof (fw_in _ _ _ HW) as Hip. unfold iput, readip.
  rewrite (M_bind_Ret _ _ s x s) by done. destruct ((i_ref x =? 1) && i_valid x && (i_nlink x =? 0)).
  2:{ rewrite (M_bind_Ret _ _ s tt s) by done.
      exists (updi ip (fun y => set_ref (i_ref y - 1) y) s). split; [done|].
      rewrite geti_updi by done. split; [done|]. split; [by intros; apply geti_updi_ne|done]. }
  unfold x at 1. rewrite Hlk. set (s1 := updi ip (set_locked true) s).
  assert (geti s1 ip = set_locked true x) as G1 by (unfold s1; by rewrite geti_updi).
  destruct (itrunc_spec sb HL s1 ip) as (s2 & E2 & [T1 T2 T3 T4 T5 T6 T7]);
    [done|by apply set_locked_wf|by rewrite G1|].
  rewrite G1 in T3, T6, T7. cbn [set_locked i_inum] in T3, T7. change (IBLOCK sb (i_inum x)) with b0 in T3, T7.
  set (s3 := updi ip (set_type 0) s2).
  assert (length (itab s2) = length (itab s)) as L2 by (rewrite T5; apply length_updi).
  assert (geti s3 ip = dead (set_locked true x)) as G3 by (unfold s3; rewrite geti_updi by lia; by rewrite T6).
  destruct (iupdate_spec sb HL s3 ip) as (s4 & E4 & Q1 & Q2 & _ & Q3 & Q4 & Q5); [done|by rewrite G3|].
  rewrite G3 in Q4, Q5. cbn [dead set_type set_size set_addrs set_locked i_inum] in Q4, Q5.
  change (IBLOCK sb (i_inum x)) with b0 in Q4, Q5. change (fblk s3) with (fblk s2) in Q3, Q4, Q5.
  set (s5 := updi ip (set_valid false) s4). set (s6 := updi ip (set_locked false) s5).
  exists (updi ip (fun y => set_ref (i_ref y - 1) y) s6).
  assert (forall j, geti s4 j = geti s3 j) as G4 by (intros; unfold geti; by rewrite Q1).
  assert (length (itab s4) = length (itab s)) as L4 by (rewrite Q1; unfold s3; by rewrite length_updi).
  assert (length (itab s5) = length (itab s)) as L5 by (unfold s5; by rewrite length_updi).
  assert (length (itab s6) = length (itab s)) as L6 by (unfold s6; by rewrite length_updi).
  split; [|split; [|split]].
  - unfold modi. rewrite (M_bind_Ret _ _ s tt s6); [done|].
    rewrite (M_bind_Ret _ _ s tt s1) by done. rewrite (M_bind_Ret _ _ _ _ _ E2).
    rewrite (M_bind_Ret _ _ s2 tt s3) by done. rewrite (M_bind_Ret _ _ _ _ _ E4).
    rewrite (M_bind_Ret _ _ s4 tt s5) by done. done.
  - rewrite geti_updi by lia. unfold s6. rewrite geti_updi by lia. unfold s5. rewrite geti_updi by lia.
    rewrite G4, G3. done.
  - intros j Hj. unfold s6, s5. rewrite !geti_updi_ne by done. rewrite G4. unfold s3.
    rewrite geti_updi_ne, T4 by done. unfold s1. by rewrite geti_updi_ne.
  - cbn [fblk updi]. change (fblk s6) with (fblk s4).
    rewrite (file_blocks_ext s s1) in T2 by (try done; by rewrite G1).
    split; [|split; [|split; [|split]]].
    + rewrite geti_updi by lia. unfold s6. rewrite geti_updi by lia. unfold s5. by rewrite geti_updi by lia.
    + intros b Hb. rewrite Q3 by done. by apply T2.
    + intros b Hb Hne. rewrite Q4, T3 by done. done.
    + rewrite Q5. unfold put_dinode. cbn [dead set_type set_size set_addrs set_locked i_type i_addrs].
      rewrite (getle_ext 2 _ (putle 2 (fblk s2 b0) (dip_off (i_inum x)) 0)).
      * rewrite getle_putle; [done|]. rewrite (proj1 (di_blocks _ _ T1 b0)). pose proof (dip_off_bound (i_inum x)). lia.
      * intros k Hk. rewrite nth_put_addrs_out by lia. rewrite !(nth_putle_out _ _ (_ + _)) by lia. done.
    + intros inum y Hne Hb. rewrite Q5, T7. change (fblk s1) with (fblk s).
      pose proof (dip_off_apart sb (i_inum x) inum ltac:(by rewrite Hb) ltac:(congruence)) as Hap.
      rewrite !get_put_dinode_other by (try done; lia). done.
Qed.

(** ** Reading inodes from disk *)

(** An inode survives eviction from the table.  After [iupdate] wrote it,
    [ilock] of a table entry that is not yet valid reads back the same type, device
    numbers, link count, size and addresses, and locks the entry; and [iupdate]
    does not change any other inode that shares the block. *)
Theorem inode_persists sb s ip :
  layout sb -> DInv sb (fblk s) -> inode_home sb (i_inum (geti s ip)) -> inode_range (geti s ip) ->
  i_type (geti s ip) <> 0 ->
  let x := geti s ip in
  exists s1, iupdate sb ip s = Ret (tt, s1) /\
    (forall s2 jp, fblk s2 = fblk s1 -> (jp < length (itab s2))%nat -> i_inum (geti s2 jp) = i_inum x ->
       1 <= i_ref (geti s2 jp) -> i_locked (geti s2 jp) = false -> i_valid (geti s2 jp) = false ->
       exists s3, ilock sb jp s2 = Ret (tt, s3) /\ fblk s3 = fblk s2 /\
         geti s3 jp = mkI (i_dev (geti s2 jp)) (i_inum x) (i_ref (geti s2 jp)) true true
           (i_type x) (i_major x) (i_minor x) (i_nlink x) (i_size x) (i_addrs x)) /\
    (forall inum y, inum <> i_inum x ->
       get_dinode (fblk s1 (IBLOCK sb inum)) (dip_off inum) y =
       get_dinode (fblk s (IBLOCK sb inum)) (dip_off inum) y).
Proof.
  intros HL HI Hh Hr Ht x. destruct (iupdate_spec sb HL s ip HI Hh) as (s1 & E & _ & HI1 & _ & _ & O1 & H1).
  fold x in O1, H1. exists s1. split; [done|]. split.
  - intros s2 jp Eb Hj Ei Href Hlk Hv. unfold ilock, readip. rewrite (M_bind_Ret _ _ s2 (geti s2 jp) s2) by done.
    rewrite (proj2 (Z.ltb_ge _ _)) by lia. rewrite (M_bind_Ret _ _ s2 tt s2) by done. rewrite Hlk.
    set (s3 := updi jp (set_locked true) s2). unfold modi. rewrite (M_bind_Ret _ _ s2 tt s3) by done.
    rewrite Hv. unfold readb. set (d := fblk s2 (IBLOCK sb (i_inum (geti s2 jp)))).
    rewrite (M_bind_Ret _ _ s3 d s3) by done.
    set (g := fun y : inode => set_valid true (get_dinode d (dip_off (i_inum y)) y)).
    rewrite (M_bind_Ret _ _ s3 tt (updi jp g s3)) by done.
    assert (geti (updi jp g s3) jp = mkI (i_dev (geti s2 jp)) (i_inum x) (i_ref (geti s2 jp)) true true
           (i_type x) (i_major x) (i_minor x) (i_nlink x) (i_size x) (i_addrs x)) as G.
    { rewrite geti_updi by (unfold s3; by rewrite length_updi). unfold s3. rewrite geti_updi by done.
      unfold g, d. cbn [set_locked i_inum]. rewrite Ei, Eb, H1.
      rewrite get_put_dinode; [cbn; by rewrite Ei|done|]. rewrite (proj1 (di_blocks _ _ HI _)). apply dip_off_bound. }
    exists (updi jp g s3). split; [|by split]. rewrite (M_bind_Ret _ _ _ (i_type x) (updi jp g s3)).
    + by rewrite (proj2 (Z.eqb_neq (i_type x) 0) Ht).
    + unfold gets. by rewrite G.
  - intros inum y Hne. destruct (Z.eq_dec (IBLOCK sb inum) (IBLOCK sb (i_inum x))) as [Eb|Nb]; [|by rewrite O1].
    rewrite Eb, H1. apply get_put_dinode_other; [apply Hr|]. by apply (dip_off_apart sb); [|congruence].
Qed.

(** ** A file with one block and no link *)

Module Unlinked.
Import Disk100.
Definition disk1 : Z -> block := zset disk 8 (mark_bit (disk 8) 10).
Definition file : inode := mkI 1 3 1 false true 2 0 0 0 5 (10 :: repeat 0 12).
Definition s1 : fs := mkFs disk1 [file].

Lemma disk1_inv : DInv sb disk1.
Proof.
  split.
  - intros b. unfold disk1, zset. destruct (b =? 8); [apply bytes_ok_insert|]; apply disk_inv.
  - intros b Hb Hu. pose proof (zlist_all (fun b => used sb disk1 b || (10 <=? b)) 100
      ltac:(vm_compute; reflexivity) b Hb) as H. cbn beta in H. rewrite Hu in H. apply Z.leb_le in H. done.
Qed.

Lemma file_blocks_one bn : fblock s1 0 bn = if (bn =? 0)%nat then 10 else 0.
Proof.
  unfold fblock. change (ind_addr s1 0) with 0. destruct bn as [|bn]; [done|].
  destruct (Nat.ltb_spec (S bn) NDIRECT); [|done]. change (i_addrs (geti s1 0)) with (10 :: repeat 0 12).
  cbn [nth]. apply nth_repeat.
Qed.

Lemma file_ok1 : file_wf sb s1 0.
Proof.
  split; [cbn; lia|done|done|..].
  - intros bn Hb. rewrite file_blocks_one. destruct (bn =? 0)%nat; [|done]. intros _.
    split; [|by vm_compute]. split; [vm_compute; split; congruence|vm_compute; reflexivity].
  - intros bn bn' Hb Hb'. rewrite !file_blocks_one.
    destruct (Nat.eqb_spec bn 0), (Nat.eqb_spec bn' 0); intros ? ?; try done; congruence.
Qed.

Lemma home3 : inode_home sb 3.
Proof.
  split; [|vm_compute; reflexivity]. intros (x & Hx & E). unfold BBLOCK in E.
  rewrite BPB_val in E. change (IBLOCK sb 3) with 5 in E. cbn [bmapstart sb] in E.
  change (sb_size sb) with 100 in Hx. rewrite Z.div_small in E; lia.
Qed.

Lemma file_range : inode_range file.
Proof. split; cbn; try lia. forall_lia. Qed.
End Unlinked.

Lemma iput_correct_witness :
  exists s', iput Disk100.sb 0 Unlinked.s1 = Ret (tt, s') /\ used Disk100.sb (fblk s') 10 = false.
Proof.
  destruct (iput_correct Disk100.sb Unlinked.s1 0 Disk100.sb_layout Unlinked.disk1_inv Unlinked.file_ok1
    Unlinked.home3 eq_refl) as (s' & E & _ & _ & _ & Hu & _).
  exists s'. split; [exact E|]. rewrite (Hu 10 ltac:(vm_compute; split; congruence)).
  vm_compute. reflexivity.
Defined.

Lemma inode_persists_witness :
  exists s1, iupdate Disk100.sb 0 Unlinked.s1 = Ret (tt, s1) /\
    exists s3, ilock Disk100.sb 0 (mkFs (fblk s1) [mkI 1 3 1 false false 0 0 0 0 0 []]) = Ret (tt, s3) /\
      i_addrs (geti s3 0) = 10 :: repeat 0 12.
Proof.
  destruct (inode_persists Disk100.sb Unlinked.s1 0 Disk100.sb_layout Unlinked.disk1_inv Unlinked.home3
    Unlinked.file_range ltac:(cbn; lia)) as (s1 & E & H & _).
  exists s1. split; [exact E|].
  destruct (H (mkFs (fblk s1) [mkI 1 3 1 false false 0 0 0 0 0 []]) 0%nat eq_refl ltac:(cbn; lia) eq_refl
    ltac:(cbn; lia) eq_refl eq_refl) as (s3 & E3 & _ & G3).
  exists s3. split; [exact E3|]. rewrite G3. reflexivity.
Defined.
