(* ===== verification/FsDir.v ===== *)
(** * Directories and path names: [kernel/fs.c]

    A directory is a file of 16-byte entries, an inode number (0 for a free
    entry) and a name of at most 14 bytes, padded with NUL.  A C string is the
    list of its bytes before the NUL, a [char name\[DIRSIZ\]] the list of its bytes up to
    the first NUL. *)

From S2P Require Import Prelude Mlfq Bio FsBlk Words FsInode FsData FsTable.

Definition DIRSIZ : nat := 14.
Definition T_DIR : Z := 1.

(** [strncmp] of two strings; reading past the end of a list reads its NUL. *)
Fixpoint strncmp (n : nat) (p q : list Z) : Z :=
  match n with
  | O => 0
  | S n' =>
    if c_true (hd 0 p) && (hd 0 p =? hd 0 q) then strncmp n' (tl p) (tl q)
    else u8 (hd 0 p) - u8 (hd 0 q)
  end.
Definition namecmp (s t : list Z) : Z := strncmp DIRSIZ s t.

(** [strncpy(s, t, n)]: the [n] bytes at [s]. *)
Fixpoint strncpy (n : nat) (t : list Z) : list Z :=
  match n with
  | O => []
  | S n' => hd 0 t :: (if hd 0 t =? 0 then repeat 0 n' else strncpy n' (tl t))
  end.

(** ** Path elements *)

Fixpoint skip_slashes (p : list Z) : list Z :=
  match p with c :: p' => if c =? chSLASH then skip_slashes p' else p | [] => [] end.

(** [while ( *path != '/' && *path != 0) path++]: the bytes passed and the rest. *)
Fixpoint take_elem (p : list Z) : list Z * list Z :=
  match p with
  | [] => ([], [])
  | c :: p' => if c =? chSLASH then ([], p) else let '(e, r) := take_elem p' in (c :: e, r)
  end.

(** [skipelem]: the element, cut to [DIRSIZ] bytes, and the rest of the path. *)
Definition skipelem (path : list Z) : option (list Z * list Z) :=
  match skip_slashes path with
  | [] => None
  | p => let '(e, r) := take_elem p in Some (take DIRSIZ e, skip_slashes r)
  end.

Section Dirs.
Context (sb : superblock) (copyin : Z -> nat -> nat * bool) (copyout : Z -> nat -> bool).
Abbreviation F := (M fs).

(** ** Directories *)

(** [struct dirent]: its bytes, [inum] and [name]. *)
Definition de_inum (de : list Z) : Z := getle 2 de 0.
Definition de_name (de : list Z) : list Z := drop 2 de.
Definition dirent (inum : Z) (name : list Z) : list Z := putle 2 (repeat 0 2) 0 inum ++ strncpy DIRSIZ name.

(** The scan of [dirlookup] from offset [off]: inode number and offset. *)
Fixpoint lookup_loop (fuel : nat) (dp : nat) (name : list Z) (off : Z) : F (option (Z * Z)) :=
  size ← readip dp i_size;
  if off <? size then
    match fuel with
    | O => undef "out of fuel"
    | S fuel' =>
      r ← readi copyout sb dp false 0 off 16;
      let '(n, de) := r in
      _ ← panic_if (negb (n =? 16)) "dirlookup read";
      if de_inum de =? 0 then lookup_loop fuel' dp name (off + 16)
      else if namecmp name (de_name de) =? 0 then mret (Some (de_inum de, off))
      else lookup_loop fuel' dp name (off + 16)
    end
  else mret None.

(** [dirlookup]: the entry's inode and the offset [*poff]. *)
Definition dirlookup (dp : nat) (name : list Z) : F (option (nat * Z)) :=
  x ← readip dp id;
  _ ← panic_if (negb (i_type x =? T_DIR)) "dirlookup not DIR";
  r ← lookup_loop (Z.to_nat (i_size x / 16 + 1)) dp name 0;
  match r with
  | None => mret None
  | Some (inum, off) => ip ← iget (i_dev x) inum; mret (Some (ip, off))
  end.

(** The search of [dirlink] for a free entry. *)
Fixpoint empty_loop (fuel : nat) (dp : nat) (off : Z) : F Z :=
  size ← readip dp i_size;
  if off <? size then
    match fuel with
    | O => undef "out of fuel"
    | S fuel' =>
      r ← readi copyout sb dp false 0 off 16;
      let '(n, de) := r in
      _ ← panic_if (negb (n =? 16)) "dirlink read";
      if de_inum de =? 0 then mret off else empty_loop fuel' dp (off + 16)
    end
  else mret off.

(** [dirlink]: the bytes of [de] are the source of [writei]. *)
Definition dirlink (dp : nat) (name : list Z) (inum : Z) : F Z :=
  r ← dirlookup dp name;
  match r with
  | Some (ip, _) => _ ← iput sb ip; mret (-1)
  | None =>
    size ← readip dp i_size;
    off ← empty_loop (Z.to_nat (size / 16 + 1)) dp 0;
    n ← writei (fun a => nth (Z.to_nat a) (dirent inum name) 0) copyin sb dp false 0 off 16;
    mret (if n =? 16 then 0 else -1)
  end.

(** ** Path names *)

(** The loop of [namex], with [ip] the current inode.  The last component is
    the name [nameiparent] returns. *)
Fixpoint namex_loop (fuel : nat) (path : list Z) (parent : bool) (ip : nat) (name : list Z) :
    F (option (nat * list Z)) :=
  match skipelem path with
  | None => if parent then _ ← iput sb ip; mret None else mret (Some (ip, name))
  | Some (name', path') =>
    match fuel with
    | O => undef "out of fuel"
    | S fuel' =>
      _ ← ilock sb ip;
      t ← readip ip i_type;
      if negb (t =? T_DIR) then _ ← iunlockput sb ip; mret None
      else if parent && (match path' with [] => true | _ => false end)
      then _ ← iunlock ip; mret (Some (ip, name'))
      else
        r ← dirlookup ip name';
        match r with
        | None => _ ← iunlockput sb ip; mret None
        | Some (next, _) => _ ← iunlockput sb ip; namex_loop fuel' path' parent next name'
        end
    end
  end.

(** [namex] with the current directory [cwd]. *)
Definition namex (cwd : nat) (path : list Z) (parent : bool) : F (option (nat * list Z)) :=
  ip ← (if hd 0 path =? chSLASH then iget 1 1 else idup cwd);
  namex_loop (length path) path parent ip [].

Definition namei (cwd : nat) (path : list Z) : F (option nat) :=
  r ← namex cwd path false; mret (option_map fst r).
Definition nameiparent (cwd : nat) (path : list Z) : F (option (nat * list Z)) := namex cwd path true.
End Dirs.

(** ** Specification of path elements *)

(** The elements of a path: the non-empty pieces between slashes. *)
Fixpoint elements (acc : list Z) (p : list Z) : list (list Z) :=
  match p with
  | [] => match acc with [] => [] | _ => [rev acc] end
  | c :: p' =>
    if c =? chSLASH then match acc with [] => elements [] p' | _ => rev acc :: elements [] p' end
    else elements (c :: acc) p'
  end.
Definition path_elements (p : list Z) : list (list Z) := elements [] p.

(** Repeated [skipelem]. *)
Fixpoint skip_all (fuel : nat) (p : list Z) : list (list Z) :=
  match skipelem p with
  | None => []
  | Some (e, r) => match fuel with O => [] | S fuel' => e :: skip_all fuel' r end
  end.

Lemma elements_skip p : path_elements (skip_slashes p) = path_elements p.
Proof.
  induction p as [|c p IH]; [done|]. cbn [skip_slashes]. destruct (Z.eqb_spec c chSLASH) as [->|N].
  - rewrite IH. done.
  - done.
Qed.

Lemma skip_slashes_cases p : skip_slashes p = [] \/ exists c p', skip_slashes p = c :: p' /\ c <> chSLASH.
Proof.
  induction p as [|c p IH]; [by left|]. cbn [skip_slashes].
  destruct (Z.eqb_spec c chSLASH); [done|]. right. by exists c, p.
Qed.

Lemma elements_take acc p :
  let '(e, r) := take_elem p in
  elements acc p = (match rev acc ++ e with [] => [] | x => [x] end) ++ path_elements r /\
  (match r with [] => True | c :: _ => c = chSLASH end) /\ (length r <= length p)%nat /\ chSLASH ∉ e.
Proof.
  revert acc. induction p as [|c p IH]; intros acc; cbn [take_elem].
  { rewrite app_nil_r. split; [|split; [done|split; [done|set_solver]]]. cbn.
    destruct acc as [|a acc]; [done|]. rewrite app_nil_r. cbn [rev].
    destruct (rev acc); done. }
  destruct (Z.eqb_spec c chSLASH) as [->|N].
  - rewrite app_nil_r. split; [|split; [done|split; [done|set_solver]]]. cbn [elements].
    change (chSLASH =? chSLASH) with true. cbv iota.
    destruct acc as [|a acc]; [done|]. cbn [rev]. by destruct (rev acc).
  - specialize (IH (c :: acc)). destruct (take_elem p) as [e r]. destruct IH as (I1 & I2 & I3 & I4).
    cbn [elements]. rewrite (proj2 (Z.eqb_neq c chSLASH) N). split; [|split; [done|split; [cbn; lia|set_solver]]].
    rewrite I1. cbn [rev]. by rewrite <- app_assoc.
Qed.

Lemma skip_slashes_length p : (length (skip_slashes p) <= length p)%nat.
Proof. induction p as [|c p IH]; [done|]. cbn [skip_slashes]. destruct (c =? chSLASH); cbn; lia. Qed.

Lemma skipelem_spec p :
  match skipelem p with
  | None => path_elements p = []
  | Some (e, r) => exists e', e = take DIRSIZ e' /\ e' <> [] /\ chSLASH ∉ e' /\
      path_elements p = e' :: path_elements r /\ (length r < length p)%nat /\
      (r = [] \/ exists c r', r = c :: r' /\ c <> chSLASH)
  end.
Proof.
  unfold skipelem. pose proof (elements_skip p) as He. pose proof (skip_slashes_length p) as Hl.
  destruct (skip_slashes_cases p) as [E|(c & p' & E & N)]; rewrite E in *; [done|].
  cbn [take_elem]. rewrite (proj2 (Z.eqb_neq c chSLASH) N).
  pose proof (elements_take [c] p') as Ht. destruct (take_elem p') as [e r]. destruct Ht as (T1 & T2 & T3 & T4).
  exists (c :: e). split; [done|]. split; [done|]. split; [set_solver|]. split; [|split].
  - rewrite <- He, elements_skip. unfold path_elements at 1. cbn [elements].
    rewrite (proj2 (Z.eqb_neq c chSLASH) N), T1. done.
  - pose proof (skip_slashes_length r). cbn in Hl. lia.
  - destruct (skip_slashes_cases r) as [->|(x & y & -> & ?)]; [by left|right; eauto].
Qed.

Lemma skip_all_spec fuel p :
  (length p <= fuel)%nat -> skip_all fuel p = take DIRSIZ <$> path_elements p.
Proof.
  revert p. induction fuel as [|fuel IH]; intros p Hf; cbn [skip_all]; pose proof (skipelem_spec p) as H;
    destruct (skipelem p) as [[e r]|]; try (by rewrite H); destruct H as (e' & -> & _ & _ & -> & Hl & _); [lia|].
  cbn [fmap list_fmap]. f_equal. apply IH. lia.
Qed.

(** ** Specification of directories *)

(** The string a [char] array holds. *)
Fixpoint upto0 (q : list Z) : list Z :=
  match q with [] => [] | c :: q' => if c =? 0 then [] else c :: upto0 q' end.

(** A name as the callers pass it: bytes, none of them NUL. *)
Definition name_ok (p : list Z) : Prop := Forall (fun c => 0 < c < 256) p.

Lemma strncmp_eq n p q :
  name_ok p -> Forall (fun c => 0 <= c < 256) q -> strncmp n p q = 0 <-> take n p = take n (upto0 q).
Proof.
  assert (forall c, 0 <= c < 256 -> u8 c = c) as Hu by (intros; apply wrap_small; lia).
  revert p q. induction n as [|n IH]; intros p q Hp Hq; [done|]. cbn [strncmp].
  destruct p as [|a p], q as [|b q]; cbn [hd tl upto0 take].
  - done.
  - inversion Hq; subst. cbn [c_true Z.eqb negb andb]. rewrite (Hu 0), (Hu b) by lia.
    destruct (Z.eqb_spec b 0) as [->|]; [done|]. split; [lia|done].
  - inversion Hp; subst. rewrite (proj2 (Z.eqb_neq a 0)) by lia. rewrite andb_false_r, (Hu a), (Hu 0) by lia.
    split; [lia|done].
  - inversion Hp; subst. inversion Hq; subst. unfold c_true at 1. rewrite (proj2 (Z.eqb_neq a 0)) by lia.
    cbn [negb andb]. destruct (Z.eqb_spec a b) as [->|N].
    + rewrite (proj2 (Z.eqb_neq b 0)) by lia. rewrite IH by done. cbn [take]. split; [by intros ->|by intros [= ->]].
    + rewrite !Hu by lia. destruct (Z.eqb_spec b 0); cbn [take]; split; try lia; try done. intros [= ? ?]. lia.
Qed.

(** The entry names [name]. *)
Definition names (name de : list Z) : bool :=
  negb (de_inum de =? 0) && (namecmp name (de_name de) =? 0).

(** The first entry of that name, from offset [off] on. *)
Fixpoint find_in (name : list Z) (es : list (list Z)) (off : Z) : option (Z * Z) :=
  match es with
  | [] => None
  | de :: es' => if names name de then Some (de_inum de, off) else find_in name es' (off + 16)
  end.

Definition nentries (s : fs) (dp : nat) : nat := Z.to_nat (i_size (geti s dp) / 16).
Definition entry (s : fs) (dp k : nat) : list Z := fbytes s dp (16 * Z.of_nat k) 16.
Definition entries (s : fs) (dp : nat) : list (list Z) := map (entry s dp) (seq 0 (nentries s dp)).

Lemma find_in_app name es es' off :
  find_in name (es ++ es') off =
  match find_in name es off with Some r => Some r | None => find_in name es' (off + 16 * Z.of_nat (length es)) end.
Proof.
  revert off. induction es as [|de es IH]; intros off; cbn [app find_in length].
  { f_equal. lia. }
  destruct (names name de); [done|]. rewrite IH. destruct (find_in name es (off + 16)); [done|]. f_equal. lia.
Qed.

Lemma find_in_first name es off :
  match find_in name es off with
  | Some (inum, o) => exists k e, es !! k = Some e /\ o = off + 16 * Z.of_nat k /\ inum = de_inum e /\
      names name e = true /\ forall j e', (j < k)%nat -> es !! j = Some e' -> names name e' = false
  | None => forall e, e ∈ es -> names name e = false
  end.
Proof.
  revert off. induction es as [|de es IH]; intros off; cbn [find_in]; [set_solver|].
  destruct (names name de) eqn:En.
  - exists 0%nat, de. split; [done|]. split; [lia|]. split; [done|]. split; [done|]. intros j e' Hj. lia.
  - specialize (IH (off + 16)). destruct (find_in name es (off + 16)) as [[inum o]|].
    + destruct IH as (k & e & E & -> & -> & Hn & Hf). exists (S k), e. split; [done|]. split; [lia|].
      split; [done|]. split; [done|]. intros [|j] e' Hj Hl; [by injection Hl as <-|]. apply (Hf j e'); [lia|done].
    + intros e [->|He]%elem_of_cons; auto.
Qed.

(** A directory in good order. *)
Record dir_ok (sb : superblock) (s : fs) (dp : nat) : Prop := {
  dir_file : file_ok sb s dp;
  dir_type : i_type (geti s dp) = T_DIR;
  dir_size : (16 | i_size (geti s dp))
}.

Section Spec.
Context (sb : superblock) (HL : layout sb).
Context (copyin : Z -> nat -> nat * bool) (copyout : Z -> nat -> bool).
Context (copyin_count : forall src m, (fst (copyin src m) <= m)%nat /\
  (snd (copyin src m) = true -> fst (copyin src m) = m)).

Lemma nentries_size s dp : dir_ok sb s dp -> i_size (geti s dp) = 16 * Z.of_nat (nentries s dp).
Proof.
  intros [[_ _ Hs _ _] _ [q Hq]]. unfold nentries. rewrite Hq. rewrite Z.div_mul by lia. rewrite Hq in Hs. lia.
Qed.

Lemma length_entries s dp : length (entries s dp) = nentries s dp.
Proof. unfold entries. by rewrite length_map, length_seq. Qed.

Lemma drop_entries s dp k :
  (k < nentries s dp)%nat -> drop k (entries s dp) = entry s dp k :: drop (S k) (entries s dp).
Proof.
  intros Hk. apply drop_S. unfold entries. rewrite list_lookup_fmap, lookup_seq_lt by done. done.
Qed.

(** One entry read. *)
Lemma read_entry s dp k :
  dir_ok sb s dp -> (k < nentries s dp)%nat ->
  readi copyout sb dp false 0 (16 * Z.of_nat k) 16 s = Ret ((16, entry s dp k), s).
Proof.
  intros Hd Hk. pose proof (nentries_size s dp Hd) as Hsz. pose proof (fo_size _ _ _ (dir_file _ _ _ Hd)) as Hm.
  rewrite FILEMAX_val in Hm.
  destruct (readi_spec sb HL copyout s dp false 0 (16 * Z.of_nat k) 16 (dir_file _ _ _ Hd)) as [E|[? _]];
    [lia|lia|lia| |done].
  rewrite E. replace (Z.max 0 (Z.min 16 (i_size (geti s dp) - 16 * Z.of_nat k))) with 16 by lia. done.
Qed.

Lemma lookup_loop_spec dp name s : forall fuel k,
  dir_ok sb s dp -> (k <= nentries s dp)%nat -> (nentries s dp - k <= fuel)%nat ->
  lookup_loop sb copyout fuel dp name (16 * Z.of_nat k) s =
  Ret (find_in name (drop k (entries s dp)) (16 * Z.of_nat k), s).
Proof.
  induction fuel as [|fuel IH]; intros k Hd Hk Hf; pose proof (nentries_size s dp Hd) as Hsz;
    cbn [lookup_loop]; unfold readip; rewrite (M_bind_Ret _ _ s (i_size (geti s dp)) s) by done; rewrite Hsz;
    destruct (Z.ltb_spec (16 * Z.of_nat k) (16 * Z.of_nat (nentries s dp))) as [Hlt|Hge]; try lia;
    try (rewrite drop_ge by (rewrite length_entries; lia); done).
  rewrite (M_bind_Ret _ _ _ _ _ (read_entry s dp k Hd ltac:(lia))).
  rewrite (M_bind_Ret _ _ s tt s) by done. rewrite drop_entries by lia. cbn [find_in]. unfold names.
  replace (16 * Z.of_nat k + 16) with (16 * Z.of_nat (S k)) by lia.
  destruct (de_inum (entry s dp k) =? 0); cbn [negb andb]; [apply IH; [done|lia|lia]|].
  destruct (namecmp name (de_name (entry s dp k)) =? 0); [done|apply IH; [done|lia|lia]].
Qed.

(** The first free entry, or the end of the directory. *)
Definition free_slot (es : list (list Z)) (k : nat) : Prop :=
  (forall j e, (j < k)%nat -> es !! j = Some e -> de_inum e <> 0) /\
  match es !! k with Some e => de_inum e = 0 | None => k = length es end.

Lemma empty_loop_spec dp s : forall fuel k,
  dir_ok sb s dp -> (k <= nentries s dp)%nat -> (nentries s dp - k <= fuel)%nat ->
  (forall j e, (j < k)%nat -> entries s dp !! j = Some e -> de_inum e <> 0) ->
  exists k', empty_loop sb copyout fuel dp (16 * Z.of_nat k) s = Ret (16 * Z.of_nat k', s) /\
    free_slot (entries s dp) k'.
Proof.
  induction fuel as [|fuel IH]; intros k Hd Hk Hf Hno; pose proof (nentries_size s dp Hd) as Hsz;
    cbn [empty_loop]; unfold readip; rewrite (M_bind_Ret _ _ s (i_size (geti s dp)) s) by done; rewrite Hsz;
    destruct (Z.ltb_spec (16 * Z.of_nat k) (16 * Z.of_nat (nentries s dp))) as [Hlt|Hge]; try lia;
    try (exists k; split; [done|]; split; [done|]; rewrite lookup_ge_None_2 by (rewrite length_entries; lia);
         rewrite length_entries; lia).
  rewrite (M_bind_Ret _ _ _ _ _ (read_entry s dp k Hd ltac:(lia))).
  rewrite (M_bind_Ret _ _ s tt s) by done.
  assert (entries s dp !! k = Some (entry s dp k)) as Ek.
  { unfold entries. rewrite list_lookup_fmap, lookup_seq_lt by lia. done. }
  replace (16 * Z.of_nat k + 16) with (16 * Z.of_nat (S k)) by lia.
  destruct (Z.eqb_spec (de_inum (entry s dp k)) 0) as [E0|N0].
  - exists k. split; [done|]. split; [done|]. by rewrite Ek.
  - apply IH; [done|lia|lia|]. intros j e Hj He.
    destruct (Nat.eq_dec j k) as [->|]; [congruence|apply (Hno j e); [lia|done]].
Qed.

(** ** New entries *)

Lemma strncpy_spec n t : name_ok t -> length (strncpy n t) = n /\ upto0 (strncpy n t) = take n t /\
  Forall (fun c => 0 <= c < 256) (strncpy n t).
Proof.
  revert t. induction n as [|n IH]; intros t Ht; [done|]. cbn [strncpy]. destruct t as [|c t]; cbn [hd tl].
  - change (0 =? 0) with true. cbv iota. cbn [length upto0]. rewrite repeat_length. split; [done|].
    split; [done|]. constructor; [lia|]. apply list.Forall_forall. intros x Hx%list_elem_of_In%repeat_spec. lia.
  - inversion Ht; subst. rewrite (proj2 (Z.eqb_neq c 0)) by lia. destruct (IH t) as (I1 & I2 & I3); [done|].
    cbn [length upto0 take]. rewrite (proj2 (Z.eqb_neq c 0)) by lia. rewrite I1, I2.
    split; [done|]. split; [done|]. constructor; [lia|done].
Qed.

Lemma dirent_spec inum name : 0 <= inum < 2 ^ 16 -> name_ok name ->
  length (dirent inum name) = 16%nat /\ de_inum (dirent inum name) = inum /\
  de_name (dirent inum name) = strncpy DIRSIZ name /\ Forall (fun c => 0 <= c < 256) (dirent inum name).
Proof.
  intros Hi Hn. destruct (strncpy_spec DIRSIZ name Hn) as (L & _ & B). unfold dirent.
  split; [rewrite length_app, length_putle, L; done|]. split; [|split; [done|]].
  - unfold de_inum. rewrite (getle_ext 2 _ (putle 2 (repeat 0 2) 0 inum)).
    + rewrite getle_putle by (cbn; lia). by apply Z.mod_small.
    + intros k Hk. apply app_nth1. rewrite length_putle. cbn. lia.
  - apply Forall_app. split; [|done]. apply Forall_putle. repeat constructor; lia.
Qed.

Lemma names_dirent inum name name' : 0 < inum < 2 ^ 16 -> name_ok name -> name_ok name' ->
  names name' (dirent inum name) = bool_decide (take DIRSIZ name' = take DIRSIZ name).
Proof.
  intros Hi Hn Hn'. destruct (dirent_spec inum name ltac:(lia) Hn) as (_ & E & En & _). unfold names.
  rewrite E, En, (proj2 (Z.eqb_neq inum 0)) by lia. cbn [negb andb]. unfold namecmp.
  destruct (strncpy_spec DIRSIZ name Hn) as (_ & U & B).
  pose proof (strncmp_eq DIRSIZ name' (strncpy DIRSIZ name) Hn' B) as H.
  rewrite U, take_take, Nat.min_id in H.
  destruct (Z.eqb_spec (strncmp DIRSIZ name' (strncpy DIRSIZ name)) 0); case_bool_decide; tauto.
Qed.

Definition with_entry (es : list (list Z)) (k : nat) (de : list Z) : list (list Z) :=
  take k es ++ de :: drop (S k) es.

Lemma entry_written s s' dp de off e k j :
  off = 16 * Z.of_nat k -> e = off + 16 -> length de = 16%nat -> 16 * Z.of_nat j + 16 <= FILEMAX ->
  (forall o, 0 <= o < FILEMAX -> fbyte s' dp o =
     if (off <=? o) && (o <? e) then nth (Z.to_nat (0 + (o - off))) de 0 else fbyte s dp o) ->
  entry s' dp j = if (j =? k)%nat then de else entry s dp j.
Proof.
  intros -> -> Hl Hj H. unfold entry. destruct (Nat.eqb_spec j k) as [->|N].
  - apply nth_list_eq; rewrite length_fbytes; [by rewrite Hl|]. intros i Hi. rewrite nth_fbytes by done.
    rewrite H by lia.
    destruct (Z.leb_spec (16 * Z.of_nat k) (16 * Z.of_nat k + Z.of_nat i)); [|lia].
    destruct (Z.ltb_spec (16 * Z.of_nat k + Z.of_nat i) (16 * Z.of_nat k + 16)); [|lia]. cbn [andb].
    f_equal. lia.
  - unfold fbytes. apply map_ext_in. intros i Hi%in_seq. rewrite H by lia.
    destruct (Z.leb_spec (16 * Z.of_nat k) (16 * Z.of_nat j + Z.of_nat i)),
      (Z.ltb_spec (16 * Z.of_nat j + Z.of_nat i) (16 * Z.of_nat k + 16)); cbn [andb]; try done. lia.
Qed.

Lemma entries_written s s' dp de k :
  (k <= nentries s dp)%nat -> nentries s' dp = Nat.max (nentries s dp) (S k) ->
  (forall j, (j < nentries s' dp)%nat -> entry s' dp j = if (j =? k)%nat then de else entry s dp j) ->
  entries s' dp = with_entry (entries s dp) k de.
Proof.
  intros Hk Hn He. unfold with_entry. pose proof (length_entries s dp) as Hl.
  apply list_eq_same_length with (nentries s' dp).
  - rewrite length_app. cbn [length]. rewrite length_take, length_drop, Hl. lia.
  - apply length_entries.
  - intros j x y Hj Hx Hy. unfold entries in Hx. rewrite list_lookup_fmap, lookup_seq_lt in Hx by done.
    injection Hx as <-. change (0 + j)%nat with j. rewrite (He j Hj).
    assert (forall i, (i < nentries s dp)%nat -> entries s dp !! i = Some (entry s dp i)) as Hlk.
    { intros i Hi. unfold entries. rewrite list_lookup_fmap, lookup_seq_lt by done. done. }
    destruct (Nat.eqb_spec j k) as [->|N].
    + rewrite lookup_app_r in Hy by (rewrite length_take; lia).
      rewrite length_take, Hl, Nat.min_l, Nat.sub_diag in Hy by lia. by injection Hy.
    + destruct (Nat.lt_ge_cases j k) as [Hlt|Hge].
      * rewrite lookup_app_l in Hy by (rewrite length_take, Hl; lia).
        rewrite lookup_take, decide_True, Hlk in Hy by lia. by injection Hy.
      * rewrite lookup_app_r in Hy by (rewrite length_take, Hl; lia).
        rewrite length_take, Hl, Nat.min_l in Hy by lia.
        replace (j - k)%nat with (S (j - S k)) in Hy by lia.
        change (drop (S k) (entries s dp) !! (j - S k)%nat = Some y) in Hy. rewrite lookup_drop in Hy. replace (S k + (j - S k))%nat with j in Hy by lia.
        rewrite Hlk in Hy by lia. by injection Hy.
Qed.

(** Lookups after a new entry [de] in a free slot. *)
Lemma find_with_entry es k de name :
  free_slot es k -> find_in name (with_entry es k de) 0 =
  if names name de then
    match find_in name (take k es) 0 with Some r => Some r | None => Some (de_inum de, 16 * Z.of_nat k) end
  else find_in name es 0.
Proof.
  intros [_ Hk]. unfold with_entry. rewrite find_in_app. cbn [find_in].
  assert (k <= length es)%nat as Hle.
  { destruct (es !! k) eqn:E; [apply lookup_lt_Some in E|]; lia. }
  rewrite length_take, Nat.min_l by done. destruct (names name de) eqn:En.
  - by destruct (find_in name (take k es) 0).
  - destruct (es !! k) as [old|] eqn:E.
    + transitivity (find_in name (take k es ++ old :: drop (S k) es) 0); [|by rewrite take_drop_middle].
      rewrite find_in_app. cbn [find_in].
      rewrite length_take, Nat.min_l by done. unfold names. by rewrite Hk.
    + subst k. rewrite take_ge, drop_ge by lia. cbn [find_in]. by destruct (find_in name es 0).
Qed.

Lemma dirlookup_run s dp name :
  dir_ok sb s dp ->
  dirlookup sb copyout dp name s =
  match find_in name (entries s dp) 0 with
  | None => Ret (None, s)
  | Some (inum, off) =>
    match iget (i_dev (geti s dp)) inum s with
    | Ret (ip, s') => Ret (Some (ip, off), s') | Panic e => Panic e | Undef e => Undef e
    end
  end.
Proof.
  intros Hd. unfold dirlookup, readip. rewrite (M_bind_Ret _ _ s (geti s dp) s) by done.
  rewrite (dir_type _ _ _ Hd). rewrite (M_bind_Ret _ _ s tt s) by done.
  pose proof (lookup_loop_spec dp name s (Z.to_nat (i_size (geti s dp) / 16 + 1)) 0 Hd ltac:(lia)) as E.
  rewrite drop_0 in E. rewrite (M_bind_Ret _ _ s (find_in name (entries s dp) 0) s).
  2:{ apply E. unfold nentries. lia. }
  destruct (find_in name (entries s dp) 0) as [[inum off]|]; [|done].
  unfold mbind, M_bind. by destruct (iget _ inum s) as [[ip s']| |].
Qed.

(** A reference dropped without freeing anything. *)
Lemma iput_keep s ip :
  (i_ref (geti s ip) =? 1) && i_valid (geti s ip) && (i_nlink (geti s ip) =? 0) = false ->
  iput sb ip s = Ret (tt, updi ip (fun x => set_ref (i_ref x - 1) x) s).
Proof.
  intros H. unfold iput, readip. rewrite (M_bind_Ret _ _ s (geti s ip) s) by done. unfold id. rewrite H. done.
Qed.

Lemma dirlink_exists s dp name inum r ip s1 :
  dir_ok sb s dp -> find_in name (entries s dp) 0 = Some r ->
  iget (i_dev (geti s dp)) (fst r) s = Ret (ip, s1) -> fblk s1 = fblk s ->
  i_ref (geti s1 ip) <> 1 \/ i_valid (geti s1 ip) = false ->
  exists s', dirlink sb copyin copyout dp name inum s = Ret (-1, s') /\ fblk s' = fblk s.
Proof.
  intros Hd Hf Hg Hb Hk. unfold dirlink. destruct r as [i off]. cbn [fst] in Hg.
  rewrite (M_bind_Ret _ _ s (Some (ip, off)) s1) by (rewrite dirlookup_run, Hf, Hg by done; done).
  exists (updi ip (fun x => set_ref (i_ref x - 1) x) s1). split; [|exact Hb]. rewrite (M_bind_Ret _ _ _ _ _ (iput_keep s1 ip
    ltac:(destruct Hk as [Hk| ->]; [destruct (Z.eqb_spec (i_ref (geti s1 ip)) 1); done|by rewrite andb_false_r]))).
  done.
Qed.

Lemma free_slot_bound s dp k : free_slot (entries s dp) k -> (k <= nentries s dp)%nat.
Proof.
  intros [_ H]. rewrite <- length_entries. destruct (entries s dp !! k) eqn:E; [apply lookup_lt_Some in E|]; lia.
Qed.

Lemma dirlink_new s dp name inum :
  dir_ok sb s dp -> 0 < inum < 2 ^ 16 -> name_ok name -> i_size (geti s dp) + 16 <= FILEMAX ->
  find_in name (entries s dp) 0 = None ->
  exists k r s', free_slot (entries s dp) k /\ dirlink sb copyin copyout dp name inum s = Ret (r, s') /\
    (r = 0 \/ (r = -1 /\ disk_full sb (fblk s'))) /\
    (forall j, j <> dp -> geti s' j = geti s j) /\
    (forall j, j <> dp -> file_wf sb s j -> disjoint_files s dp j -> same_file sb s s' j) /\
    (r = 0 -> dir_ok sb s' dp /\ entries s' dp = with_entry (entries s dp) k (dirent inum name)).
Proof.
  intros Hd Hi Hn Hmax Hf. pose proof (nentries_size s dp Hd) as Hsz.
  unfold dirlink. rewrite (M_bind_Ret _ _ s None s) by (by rewrite dirlookup_run, Hf).
  unfold readip. rewrite (M_bind_Ret _ _ s (i_size (geti s dp)) s) by done.
  destruct (empty_loop_spec dp s (Z.to_nat (i_size (geti s dp) / 16 + 1)) 0 Hd ltac:(lia)) as (k & E & Hk);
    [unfold nentries; lia|intros; lia|].
  rewrite (M_bind_Ret _ _ _ _ _ E). pose proof (free_slot_bound s dp k Hk) as Hkn.
  destruct (dirent_spec inum name ltac:(lia) Hn) as (L & _ & _ & B).
  set (mem := fun a : Z => nth (Z.to_nat a) (dirent inum name) 0).
  assert (forall a, 0 <= mem a < 256) as Hmem.
  { intros a. unfold mem. destruct (nth_in_or_default (Z.to_nat a) (dirent inum name) 0) as [Hin| ->]; [|lia].
    by apply (proj1 (list.Forall_forall _ _) B), list_elem_of_In. }
  destruct (writei_written sb HL mem Hmem copyin copyin_count s dp false 0 (16 * Z.of_nat k) 16 (dir_file _ _ _ Hd))
    as (t & e & s' & Ew & Ht & St & Sp & Hok & Hs & Hms & Hc & Htab & Hj); [lia|lia|lia|].
  rewrite (M_bind_Ret _ _ _ _ _ Ew). exists k, (if t =? 16 then 0 else -1), s'. split; [done|]. split; [done|].
  split; [|split; [done|split]].
  - destruct (Z.eqb_spec t 16) as [|N]; [by left|]. right. split; [done|].
    destruct St as [?|[?|[? _]]]; [lia|done|done].
  - intros j N Wj Dj. by apply Hj.
  - intros Hr. assert (t = 16) as -> by (destruct (Z.eqb_spec t 16); [done|lia]).
    destruct Sp as [Ee|(_ & ? & _)]; [|done].
    assert (nentries s' dp = Nat.max (nentries s dp) (S k)) as Hne.
    { unfold nentries at 1. rewrite Hs, Hsz.
      replace (Z.max (16 * Z.of_nat (nentries s dp)) (16 * Z.of_nat k + 16))
        with (Z.of_nat (Nat.max (nentries s dp) (S k)) * 16) by lia.
      rewrite Z.div_mul by lia. lia. }
    split.
    + split; [done|..].
      * rewrite Hms. apply Hd.
      * rewrite Hs, Hsz. exists (Z.of_nat (Nat.max (nentries s dp) (S k))). lia.
    + apply entries_written; [done|done|]. intros j Hj'.
      apply (entry_written s s' dp (dirent inum name) (16 * Z.of_nat k) e k j); try done. rewrite Hne in Hj'. lia.
Qed.
End Spec.

(** Names that agree in their first [DIRSIZ] bytes name the same entries. *)
Lemma strncmp_take n p q : strncmp n (take n p) q = strncmp n p q.
Proof.
  revert p q. induction n as [|n IH]; intros p q; [done|]. destruct p as [|a p]; [done|].
  cbn [take strncmp hd tl]. by rewrite IH.
Qed.

Lemma names_take name name' de : take DIRSIZ name = take DIRSIZ name' -> names name de = names name' de.
Proof.
  intros H. unfold names, namecmp. by rewrite <- (strncmp_take DIRSIZ name), <- (strncmp_take DIRSIZ name'), H.
Qed.

Lemma find_in_take name name' es off :
  take DIRSIZ name = take DIRSIZ name' -> find_in name es off = find_in name' es off.
Proof.
  intros H. revert off. induction es as [|de es IH]; intros off; [done|]. cbn [find_in].
  by rewrite (names_take name name' de H), IH.
Qed.

Lemma find_in_prefix name es k off : find_in name es off = None -> find_in name (take k es) off = None.
Proof.
  revert k off. induction es as [|de es IH]; intros [|k] off H; try done. cbn [take find_in] in *.
  destruct (names name de); [done|]. by apply IH.
Qed.

(** ** Theorems *)

(** C18: [dirlookup] finds the first entry in use whose name agrees with [name] in
    the first 14 bytes, returns the (referenced) inode it names and its
    offset, and returns nothing if no entry has that name; it reads every entry
    and never panics on a well-formed directory, the inode table apart. *)
Theorem dirlookup_correct sb copyout s dp name :
  layout sb -> dir_ok sb s dp -> name_ok name ->
  dirlookup sb copyout dp name s =
  match find_in name (entries s dp) 0 with
  | None => Ret (None, s)
  | Some (inum, off) =>
    match iget (i_dev (geti s dp)) inum s with
    | Ret (ip, s') => Ret (Some (ip, off), s') | Panic e => Panic e | Undef e => Undef e
    end
  end /\
  match find_in name (entries s dp) 0 with
  | Some (inum, o) => exists k e, entries s dp !! k = Some e /\ o = 16 * Z.of_nat k /\ inum = de_inum e /\
      inum <> 0 /\ take DIRSIZ name = take DIRSIZ (upto0 (de_name e)) /\
      forall j e', (j < k)%nat -> entries s dp !! j = Some e' -> de_inum e' <> 0 ->
        take DIRSIZ name <> take DIRSIZ (upto0 (de_name e'))
  | None => forall e, e ∈ entries s dp -> de_inum e <> 0 -> take DIRSIZ name <> take DIRSIZ (upto0 (de_name e))
  end.
Proof.
  intros HL Hd Hn. split; [by apply dirlookup_run|].
  assert (forall e, e ∈ entries s dp -> names name e = true <->
    de_inum e <> 0 /\ take DIRSIZ name = take DIRSIZ (upto0 (de_name e))) as Hnames.
  { intros e (k & -> & _)%list_elem_of_fmap. unfold names.
    rewrite <- strncmp_eq; [|done|].
    - fold (namecmp name (de_name (entry s dp k))).
      destruct (Z.eqb_spec (de_inum (entry s dp k)) 0), (Z.eqb_spec (namecmp name (de_name (entry s dp k))) 0);
        cbn [negb andb]; split; try done; tauto.
    - apply Forall_drop. apply list.Forall_forall. intros x (i & -> & _)%list_elem_of_fmap. unfold fbyte.
      destruct (fcontent_ok sb s dp (Z.to_nat ((16 * Z.of_nat k + Z.of_nat i) / BSIZE))
        (fo_disk _ _ _ (dir_file _ _ _ Hd))) as [_ Hf].
      destruct (nth_in_or_default (Z.to_nat ((16 * Z.of_nat k + Z.of_nat i) mod BSIZE))
        (fcontent s dp (Z.to_nat ((16 * Z.of_nat k + Z.of_nat i) / BSIZE))) 0) as [Hin| ->]; [|lia].
      by apply (proj1 (list.Forall_forall _ _) Hf), list_elem_of_In. }
  pose proof (find_in_first name (entries s dp) 0) as H.
  destruct (find_in name (entries s dp) 0) as [[inum o]|].
  - destruct H as (k & e & Ek & -> & -> & Hne & Hf). exists k, e.
    apply Hnames in Hne as [N1 N2]; [|by eapply list_elem_of_lookup_2].
    repeat (split; [done|]). intros j e' Hj He' Hi Ht. specialize (Hf j e' Hj He').
    rewrite (proj2 (Hnames e' ltac:(by eapply list_elem_of_lookup_2))) in Hf; done.
  - intros e He Hi Ht. specialize (H e He). rewrite (proj2 (Hnames e He)) in H; done.
Qed.

(** C24: [dirlink] of a name that is not in the directory puts it into the
    first free entry, or at the end: afterwards a lookup of that name finds the
    new inode number, a lookup of any other name finds what it found before, and
    the directory is still well formed.  It returns -1 only when the disk is
    full.  No other inode in the table and no file with blocks of its own changes. *)
Theorem dirlink_correct sb copyin copyout s dp name inum :
  layout sb ->
  (forall a m, (fst (copyin a m) <= m)%nat /\ (snd (copyin a m) = true -> fst (copyin a m) = m)) ->
  dir_ok sb s dp -> 0 < inum < 2 ^ 16 -> name_ok name -> i_size (geti s dp) + 16 <= FILEMAX ->
  find_in name (entries s dp) 0 = None ->
  exists k r s', dirlink sb copyin copyout dp name inum s = Ret (r, s') /\
    free_slot (entries s dp) k /\ (r = 0 \/ (r = -1 /\ disk_full sb (fblk s'))) /\
    (forall j, j <> dp -> geti s' j = geti s j) /\
    (forall j, j <> dp -> file_wf sb s j -> disjoint_files s dp j -> same_file sb s s' j) /\
    (r = 0 -> dir_ok sb s' dp /\
       forall name', name_ok name' -> find_in name' (entries s' dp) 0 =
         if bool_decide (take DIRSIZ name' = take DIRSIZ name) then Some (inum, 16 * Z.of_nat k)
         else find_in name' (entries s dp) 0).
Proof.
  intros HL Hci Hd Hi Hn Hmax Hf.
  destruct (dirlink_new sb HL copyin copyout Hci s dp name inum Hd Hi Hn Hmax Hf)
    as (k & r & s' & Hk & E & Hr & Ht & Hj & Hz).
  exists k, r, s'. repeat (split; [done|]). intros Hr0. destruct (Hz Hr0) as [Hd' He]. split; [done|].
  intros name' Hn'. rewrite He, find_with_entry, names_dirent by done. case_bool_decide as Hs; [|done].
  rewrite (find_in_take name' name) by done. rewrite (find_in_prefix name _ k) by done.
  by rewrite (proj1 (proj2 (dirent_spec inum name ltac:(lia) Hn))).
Qed.

(** C39: [skipelem] takes a path apart: called until it returns 0 it yields the
    non-empty elements between the slashes in order, each cut to its first 14
    bytes, and nothing else; every rest it returns has no leading slash. *)
Theorem skipelem_correct p :
  skip_all (length p) p = (take DIRSIZ <$> path_elements p) /\
  (skipelem p = None <-> path_elements p = []) /\
  (forall e r, skipelem p = Some (e, r) -> (length r < length p)%nat /\ hd 0 r <> chSLASH).
Proof.
  split; [by apply skip_all_spec|]. pose proof (skipelem_spec p) as H. split.
  - destruct (skipelem p) as [[e r]|]; [|done]. destruct H as (e' & _ & _ & _ & -> & _). done.
  - intros e r E. rewrite E in H. destruct H as (_ & _ & _ & _ & _ & Hl & Hr). split; [done|].
    destruct Hr as [->|(c & r' & -> & Hc)]; done.
Qed.

(** A directory with no entries, as inode 1 of a small disk. *)
Module EmptyDir.
Definition dir : inode := mkI 1 1 1 true true T_DIR 0 0 1 0 (repeat 0 13).
Definition s0 : fs := mkFs Disk100.disk [dir].

Lemma dir_good : dir_ok Disk100.sb s0 0.
Proof.
  assert (forall bn, fblock s0 0 bn = 0) as Eb.
  { intros bn. unfold fblock. change (ind_addr s0 0) with 0. destruct (bn <? NDIRECT)%nat; [|done].
    change (i_addrs (geti s0 0)) with (repeat 0 13). apply nth_repeat. }
  split; [|done|by exists 0]. split.
  - apply Disk100.disk_inv.
  - split; [cbn; lia|done|done|intros bn Hb Hn; by rewrite Eb in Hn|].
    intros bn bn' Hb Hb' Hn. by rewrite Eb in Hn.
  - cbn. rewrite FILEMAX_val. lia.
  - split; [|vm_compute; reflexivity]. intros (x & Hx & E). unfold BBLOCK in E. rewrite BPB_val in E.
    change (IBLOCK Disk100.sb (i_inum (geti s0 0))) with 5 in E. cbn [bmapstart Disk100.sb] in E.
    change (sb_size Disk100.sb) with 100 in Hx. rewrite Z.div_small in E; lia.
  - intros o Ho. cbn in Ho. lia.
Qed.

Definition name : list Z := bytes "README".
Lemma name_good : name_ok name.
Proof. forall_lia. Qed.
End EmptyDir.

Lemma dirlink_correct_witness :
  exists k r s', dirlink Disk100.sb Example.copyin Example.copyout 0 EmptyDir.name 7 EmptyDir.s0 = Ret (r, s') /\
    (r = 0 \/ (r = -1 /\ disk_full Disk100.sb (fblk s'))) /\
    (r = 0 -> find_in EmptyDir.name (entries s' 0) 0 = Some (7, 16 * Z.of_nat k)).
Proof.
  destruct (dirlink_correct Disk100.sb Example.copyin Example.copyout EmptyDir.s0 0 EmptyDir.name 7
    Disk100.sb_layout (fun a m => conj (le_n m) (fun _ => eq_refl)) EmptyDir.dir_good ltac:(lia)
    EmptyDir.name_good ltac:(cbn; rewrite FILEMAX_val; lia) eq_refl) as (k & r & s' & E & _ & Hr & _ & _ & H).
  exists k, r, s'. split; [exact E|]. split; [exact Hr|]. intros Hr0.
  destruct (H Hr0) as [_ Hl]. rewrite (Hl EmptyDir.name EmptyDir.name_good). by rewrite bool_decide_true.
Defined.

Lemma dirlookup_correct_witness :
  dirlookup Disk100.sb Example.copyout 0 EmptyDir.name EmptyDir.s0 = Ret (None, EmptyDir.s0).
Proof.
  exact (proj1 (dirlookup_correct Disk100.sb Example.copyout EmptyDir.s0 0 EmptyDir.name
    Disk100.sb_layout EmptyDir.dir_good EmptyDir.name_good)).
Defined.
