(* ===== verification/Kalloc.v ===== *)
(** * Physical memory and its allocator: [kernel/kalloc.c]

    Physical memory maps addresses to bytes.  The free pages form a list linked
    through their first eight bytes ([struct run]).  [end_], the first address
    after the kernel, comes from the linker script and is a parameter. *)

From S2P Require Import Prelude Riscv CString.

(** ** Words in memory *)

Fixpoint load (n : nat) (m : mem) (a : Z) : Z :=
  match n with O => 0 | S n' => m a + 256 * load n' m (a + 1) end.
Fixpoint store (n : nat) (m : mem) (a v : Z) : mem :=
  match n with O => m | S n' => store n' (upd m a (u8 v)) (a + 1) (v / 256) end.
Definition ld64 (m : mem) (a : Z) : Z := load 8 m a.
Definition st64 (m : mem) (a v : Z) : mem := store 8 m a v.
#[global] Arguments ld64 : simpl never.
#[global] Arguments st64 : simpl never.

Definition bytes_mem (m : mem) : Prop := forall a, 0 <= m a < 256.

Lemma store_out n m a v x : x < a \/ a + Z.of_nat n <= x -> store n m a v x = m x.
Proof.
  revert m a v. induction n as [|n IH]; intros m a v H; cbn [store]; [done|].
  rewrite IH by lia. apply upd_ne. lia.
Qed.

Lemma ld_ext n m m' a : (forall x, a <= x < a + Z.of_nat n -> m x = m' x) -> load n m a = load n m' a.
Proof.
  revert a. induction n as [|n IH]; intros a H; cbn [load]; [done|].
  rewrite (H a), (IH (a + 1)) by (try lia; intros; apply H; lia). done.
Qed.

Lemma load_store n m a v : load n (store n m a v) a = v mod 256 ^ Z.of_nat n.
Proof.
  revert m a v. induction n as [|n IH]; intros m a v; cbn [load store]; [by rewrite Z.mod_1_r|].
  rewrite store_out by lia. rewrite upd_eq, IH. unfold wrap. change (2 ^ 8) with 256.
  rewrite Nat2Z.inj_succ, Z.pow_succ_r by lia.
  rewrite Z.rem_mul_r by (try apply Z.pow_nonzero; try apply Z.pow_pos_nonneg; lia). lia.
Qed.

Lemma ld64_st64 m a v : 0 <= v < 2 ^ 64 -> ld64 (st64 m a v) a = v.
Proof. intros H. unfold ld64, st64. rewrite load_store. by apply Z.mod_small. Qed.

Lemma ld64_ext m m' a : (forall x, a <= x < a + 8 -> m x = m' x) -> ld64 m a = ld64 m' a.
Proof. intros H. unfold ld64. apply ld_ext. intros x Hx. apply H. lia. Qed.

Lemma st64_out m a v x : x < a \/ a + 8 <= x -> st64 m a v x = m x.
Proof. intros H. unfold st64. apply store_out. lia. Qed.

Lemma ld64_st64_ne m a b v : b + 8 <= a \/ a + 8 <= b -> ld64 (st64 m a v) b = ld64 m b.
Proof. intros H. apply ld64_ext. intros x Hx. apply st64_out. lia. Qed.

(** [memset(pa, c, PGSIZE)], as a function; it is [memset] of [string.c]. *)
Definition set_page (m : mem) (pa c : Z) : mem :=
  fun x => if (pa <=? x) && (x <? pa + PGSIZE) then c else m x.

Lemma set_page_memset m pa c x :
  0 <= c < 256 -> set_page m pa c x = KString.memset m pa c (Z.to_nat PGSIZE) x.
Proof.
  intros Hc. unfold set_page, KString.memset. rewrite memset_loop_spec, Z.add_0_r, Z2Nat.id by done.
  by rewrite (wrap_small 8 c) by done.
Qed.

(** ** The allocator *)

Record kmem := mkK { kmemory : mem; freelist : Z }.

Section Kalloc.
Context (end_ : Z).
Abbreviation V := (M kmem).

Definition set_mem (m : mem) (k : kmem) : kmem := mkK m (freelist k).

Definition kfree (pa : Z) : V unit :=
  _ ← panic_if (negb (pa mod PGSIZE =? 0) || (pa <? end_) || (PHYSTOP <=? pa)) "kfree";
  k ← get;
  put (mkK (st64 (set_page (kmemory k) pa 1) pa (freelist k)) pa).

(** [kalloc]: 0 when there is no memory. *)
Definition kalloc : V Z :=
  k ← get;
  let r := freelist k in
  if r =? 0 then mret 0
  else _ ← put (mkK (set_page (kmemory k) r 5) (ld64 (kmemory k) r)); mret r.

(** [for (; p + PGSIZE <= pa_end; p += PGSIZE) kfree(p);] *)
Fixpoint freerange_loop (n : nat) (p pa_end : Z) : V unit :=
  match n with
  | O => mret tt
  | S n' =>
    if p + PGSIZE <=? pa_end then _ ← kfree p; freerange_loop n' (p + PGSIZE) pa_end
    else mret tt
  end.
Definition freerange (pa_start pa_end : Z) : V unit :=
  let p := PGROUNDUP pa_start in
  freerange_loop (Z.to_nat ((pa_end - p) / PGSIZE + 1)) p pa_end.

Definition kinit : V unit := freerange end_ PHYSTOP.

(** ** Invariant *)

(** A page the allocator may handle. *)
Definition page (pa : Z) : Prop := pa mod PGSIZE = 0 /\ end_ <= pa < PHYSTOP /\ 0 < pa.

(** The list of free pages from [p]. *)
Fixpoint chain (m : mem) (p : Z) (l : list Z) : Prop :=
  match l with
  | [] => p = 0
  | x :: l' => p = x /\ page x /\ chain m (ld64 m x) l'
  end.

Record KInv (k : kmem) (l : list Z) : Prop := {
  ki_chain : chain (kmemory k) (freelist k) l;
  ki_nodup : NoDup l
}.

Lemma page_apart p q : page p -> page q -> p <> q -> p + PGSIZE <= q \/ q + PGSIZE <= p.
Proof.
  intros (H1 & _) (H2 & _) N. unfold PGSIZE in *.
  apply Z.mod_divide in H1 as [a ->]; [|lia]. apply Z.mod_divide in H2 as [b ->]; [|lia]. lia.
Qed.

Lemma set_page_in m pa c x : pa <= x < pa + PGSIZE -> set_page m pa c x = c.
Proof. intros H. unfold set_page. rewrite (proj2 (Z.leb_le _ _)), (proj2 (Z.ltb_lt _ _)) by lia. done. Qed.

Lemma set_page_out m pa c x : x < pa \/ pa + PGSIZE <= x -> set_page m pa c x = m x.
Proof.
  intros H. unfold set_page. destruct (Z.leb_spec pa x), (Z.ltb_spec x (pa + PGSIZE)); cbn; try done; lia.
Qed.

Lemma chain_pages m p l x : chain m p l -> x ∈ l -> page x.
Proof.
  revert p. induction l as [|y l IH]; intros p H Hx; [set_solver|]. destruct H as (_ & Hy & H).
  apply elem_of_cons in Hx as [->|Hx]; [done|]. by eapply IH.
Qed.

(** The list only depends on the pages in it. *)
Lemma chain_ext m m' p l :
  (forall x a, x ∈ l -> x <= a < x + PGSIZE -> m' a = m a) -> chain m p l -> chain m' p l.
Proof.
  revert p. induction l as [|y l IH]; intros p Hm H; [done|]. destruct H as (-> & Hy & H).
  split; [done|]. split; [done|]. rewrite (ld64_ext m' m).
  - apply IH; [|done]. intros x a Hx. apply Hm. set_solver.
  - intros x Hx. apply (Hm y); [set_solver|]. unfold PGSIZE. lia.
Qed.

(** Memory outside the free pages is the client's. *)
Lemma KInv_client k l m' :
  KInv k l -> (forall x a, x ∈ l -> x <= a < x + PGSIZE -> m' a = kmemory k a) -> KInv (set_mem m' k) l.
Proof. intros [H1 H2] H. split; [|done]. by apply (chain_ext (kmemory k)). Qed.

Lemma kalloc_spec k l :
  KInv k l ->
  match l with
  | [] => kalloc k = Ret (0, k)
  | r :: l' => exists k', kalloc k = Ret (r, k') /\ page r /\ r ∉ l' /\ KInv k' l' /\
      forall a, a < r \/ r + PGSIZE <= a -> kmemory k' a = kmemory k a
  end.
Proof.
  intros [Hc Hnd]. unfold kalloc. rewrite (M_bind_Ret _ _ k k k) by done. destruct l as [|r l]; cbn [chain] in Hc.
  - by rewrite Hc.
  - destruct Hc as (E & Hp & Hc). rewrite E. pose proof Hp as (_ & _ & Hpos).
    rewrite (proj2 (Z.eqb_neq r 0)) by lia. apply list.NoDup_cons in Hnd as [Hr Hnd].
    eexists. split; [done|]. split; [done|]. split; [done|]. split.
    + split; [|done]. cbn [kmemory freelist]. apply (chain_ext (kmemory k)); [|done].
      intros x a Hx Ha. apply set_page_out. pose proof (chain_pages _ _ _ _ Hc Hx) as Hpx.
      assert (x <> r) by (intros ->; done). destruct (page_apart x r Hpx Hp); [done|lia|lia].
    + intros a Ha. cbn. by apply set_page_out.
Qed.

Lemma kfree_spec k l pa :
  KInv k l -> page pa -> pa ∉ l ->
  exists k', kfree pa k = Ret (tt, k') /\ KInv k' (pa :: l) /\
    forall a, a < pa \/ pa + PGSIZE <= a -> kmemory k' a = kmemory k a.
Proof.
  intros [Hc Hnd] Hp Hn. pose proof Hp as (H1 & H2 & H3). unfold kfree.
  rewrite (proj2 (Z.eqb_eq _ _) H1), (proj2 (Z.ltb_ge _ _)), (proj2 (Z.leb_gt _ _)) by lia.
  rewrite (M_bind_Ret _ _ k tt k) by done. rewrite (M_bind_Ret _ _ k k k) by done.
  eexists. split; [done|]. split.
  - split; [|by constructor]. cbn [kmemory freelist chain]. split; [done|]. split; [done|].
    assert (0 <= freelist k < 2 ^ 64) as Hf.
    { destruct l as [|x l]; cbn in Hc; [lia|]. destruct Hc as (-> & (_ & Hx & Hx0) & _). unfold PHYSTOP, KERNBASE in Hx. lia. }
    rewrite ld64_st64 by done. apply (chain_ext (kmemory k)); [|done].
    intros x a Hx Ha. pose proof (chain_pages _ _ _ _ Hc Hx) as Hpx.
    assert (x <> pa) as N by (intros ->; done).
    destruct (page_apart x pa Hpx Hp N); unfold PGSIZE in *;
      (rewrite st64_out by lia; apply set_page_out; unfold PGSIZE; lia).
  - intros a Ha. cbn [kmemory]. unfold PGSIZE in Ha. rewrite st64_out by lia. apply set_page_out. done.
Qed.

Lemma kfree_bad k pa : ~ (pa mod PGSIZE = 0 /\ end_ <= pa < PHYSTOP) -> kfree pa k = Panic "kfree".
Proof.
  intros H. unfold kfree.
  destruct (Z.eqb_spec (pa mod PGSIZE) 0), (Z.ltb_spec pa end_), (Z.leb_spec PHYSTOP pa); cbn [negb orb]; try done.
  exfalso. apply H. lia.
Qed.

(** The pages of [p .. pa_end), the last first. *)
Fixpoint pages_from (n : nat) (p : Z) : list Z :=
  match n with O => [] | S n' => pages_from n' (p + PGSIZE) ++ [p] end.

Lemma elem_of_pages_from n p x : x ∈ pages_from n p <-> exists i, (i < n)%nat /\ x = p + Z.of_nat i * PGSIZE.
Proof.
  revert p. induction n as [|n IH]; intros p; cbn [pages_from].
  - split; [set_solver|]. intros (i & Hi & _). lia.
  - rewrite elem_of_app, list_elem_of_singleton, IH. split.
    + intros [(i & Hi & ->)| ->]; [exists (S i)|exists 0%nat]; split; lia.
    + intros ([|i] & Hi & ->); [right; lia|left; exists i; split; lia].
Qed.

Lemma freerange_loop_spec pa_end : forall n p k l,
  KInv k l -> p mod PGSIZE = 0 -> 0 < p -> end_ <= p -> pa_end <= PHYSTOP ->
  p + Z.of_nat n * PGSIZE <= pa_end -> pa_end < p + Z.of_nat n * PGSIZE + PGSIZE ->
  (forall i, (i < n)%nat -> p + Z.of_nat i * PGSIZE ∉ l) ->
  exists k', freerange_loop (S n) p pa_end k = Ret (tt, k') /\ KInv k' (pages_from n p ++ l).
Proof.
  induction n as [|n IH]; intros p k l HK Hm Hp He Hend Hle Hlt Hno.
  - cbn [freerange_loop]. rewrite (proj2 (Z.leb_gt _ _)) by lia. by exists k.
  - cbn [freerange_loop]. rewrite (proj2 (Z.leb_le _ _)) by (unfold PGSIZE in *; lia).
    assert (page p) as Hpg by (split; [done|]; split; [unfold PGSIZE in *; lia|done]).
    destruct (kfree_spec k l p HK Hpg) as (k1 & E & HK1 & _).
    { specialize (Hno 0%nat ltac:(lia)). by rewrite Z.add_0_r in Hno. }
    rewrite (M_bind_Ret _ _ _ _ _ E).
    destruct (IH (p + PGSIZE) k1 (p :: l) HK1) as (k2 & E2 & HK2); try (unfold PGSIZE in *; lia).
    + rewrite <- Hm. rewrite <- (Z.mul_1_l PGSIZE) at 1. apply Z.mod_add. done.
    + intros i Hi. apply not_elem_of_cons. split; [unfold PGSIZE; lia|].
      specialize (Hno (S i) ltac:(lia)).
      replace (p + PGSIZE + Z.of_nat i * PGSIZE) with (p + Z.of_nat (S i) * PGSIZE) by lia. done.
    + exists k2. split; [exact E2|]. cbn [pages_from]. by rewrite <- app_assoc.
Qed.
End Kalloc.

(** ** Rounding *)

Lemma land_lnot_page a : Z.land a (Z.lnot (PGSIZE - 1)) = a - a mod PGSIZE.
Proof.
  change (PGSIZE - 1) with (Z.ones 12). rewrite <- Z.ldiff_land, Z.ldiff_ones_r by lia.
  rewrite Z.shiftl_mul_pow2, Z.shiftr_div_pow2 by lia. unfold PGSIZE. change (2 ^ 12) with 4096.
  rewrite (Z.div_mod a 4096) at 2 by lia. lia.
Qed.

Lemma PGROUNDUP_spec a : 0 <= a < 2 ^ 63 ->
  PGROUNDUP a mod PGSIZE = 0 /\ a <= PGROUNDUP a < a + PGSIZE.
Proof.
  intros Ha. unfold PGROUNDUP. rewrite wrap_small by (unfold PGSIZE; lia). rewrite land_lnot_page.
  set (b := a + PGSIZE - 1). pose proof (Z.mod_pos_bound b PGSIZE ltac:(done)) as Hm. split.
  - rewrite Zminus_mod_idemp_r, Z.sub_diag. done.
  - unfold b in *. unfold PGSIZE in *. lia.
Qed.

Lemma PGROUNDDOWN_spec a : PGROUNDDOWN a = a - a mod PGSIZE.
Proof. apply land_lnot_page. Qed.

(** ** All pages, given out and free *)

(** States of the allocator with the pages [own] given out: after [kinit], a
    client allocates, frees a page it owns, and writes to pages it owns. *)
Inductive kreach (end_ : Z) (m0 : mem) : kmem -> list Z -> Prop :=
| kr_init k : kinit end_ (mkK m0 0) = Ret (tt, k) -> kreach end_ m0 k []
| kr_alloc k own r k' :
    kreach end_ m0 k own -> kalloc k = Ret (r, k') -> r <> 0 -> kreach end_ m0 k' (r :: own)
| kr_free k own1 pa own2 k' :
    kreach end_ m0 k (own1 ++ pa :: own2) -> kfree end_ pa k = Ret (tt, k') ->
    kreach end_ m0 k' (own1 ++ own2)
| kr_write k own m' :
    kreach end_ m0 k own ->
    (forall a, (forall p, p ∈ own -> ~ (p <= a < p + PGSIZE)) -> m' a = kmemory k a) ->
    kreach end_ m0 (set_mem m' k) own.

Section Reach.
Context (end_ : Z) (Hend : 0 < end_ <= PHYSTOP) (m0 : mem).

Lemma kinit_spec :
  exists k l, kinit end_ (mkK m0 0) = Ret (tt, k) /\ KInv end_ k l /\ forall x, x ∈ l <-> page end_ x.
Proof.
  destruct (PGROUNDUP_spec end_ ltac:(unfold PHYSTOP, KERNBASE in *; lia)) as [Hm Hb].
  unfold kinit, freerange. set (p := PGROUNDUP end_) in *.
  assert (0 <= (PHYSTOP - p) / PGSIZE \/ (PHYSTOP - p) / PGSIZE = -1) as Hn.
  { pose proof (Z.div_mod (PHYSTOP - p) PGSIZE ltac:(done)). pose proof (Z.mod_pos_bound (PHYSTOP - p) PGSIZE ltac:(done)).
    unfold PGSIZE in *. lia. }
  pose proof (Z.div_mod (PHYSTOP - p) PGSIZE ltac:(done)) as Hdm.
  pose proof (Z.mod_pos_bound (PHYSTOP - p) PGSIZE ltac:(done)) as Hmb.
  assert (PHYSTOP mod PGSIZE = 0) as Hps by done.
  destruct Hn as [Hn|Hn].
  - set (n := Z.to_nat ((PHYSTOP - p) / PGSIZE)).
    replace (Z.to_nat ((PHYSTOP - p) / PGSIZE + 1)) with (S n) by lia.
    destruct (freerange_loop_spec end_ PHYSTOP n p (mkK m0 0) []) as (k & E & HK);
      try done; try (unfold PGSIZE in *; lia).
    + split; [done|constructor].
    + intros i Hi. set_solver.
    + exists k, (pages_from n p ++ []). split; [done|]. split; [done|]. rewrite app_nil_r. intros x.
      rewrite elem_of_pages_from. unfold page. split.
      * intros (i & Hi & ->). split; [rewrite Z.mod_add by done; done|].
        unfold PGSIZE in *. lia.
      * intros (X1 & X2 & X3). apply Z.mod_divide in X1 as [q ->]; [|done].
        apply Z.mod_divide in Hm as [q0 Hq]; [|done]. apply Z.mod_divide in Hps as [q1 Hq1]; [|done].
        exists (Z.to_nat (q - q0)). unfold PGSIZE in *. split; [|lia]. unfold n. apply Z2Nat.inj_lt; try lia.
  - exists (mkK m0 0), []. rewrite Hn. cbn. split; [done|]. split; [split; [done|constructor]|].
    intros x. split; [set_solver|]. intros (X1 & X2 & X3). exfalso.
    apply Z.mod_divide in X1 as [q ->]; [|done]. apply Z.mod_divide in Hm as [q0 Hq]; [|done].
    rewrite Hn in Hdm. unfold PGSIZE in *. lia.
Qed.

(** The pages given out and the free ones are all pages, each once. *)
Definition partition (k : kmem) (own : list Z) : Prop :=
  exists l, KInv end_ k l /\ NoDup (own ++ l) /\ forall x, x ∈ own ++ l <-> page end_ x.

Lemma reach_partition k own : kreach end_ m0 k own -> partition k own.
Proof.
  induction 1 as [k E|k own r k' _ (l & HK & Hnd & Hall) E Hr|k own1 pa own2 k' _ (l & HK & Hnd & Hall) E|
    k own m' _ (l & HK & Hnd & Hall) Hm].
  - destruct kinit_spec as (k' & l & E' & HK & Hl). rewrite E in E'. injection E' as <-.
    exists l. split; [done|]. split; [apply HK|done].
  - pose proof (kalloc_spec end_ k l HK) as H. destruct l as [|x l].
    + rewrite E in H. by injection H as ->.
    + destruct H as (k1 & E1 & Hp & Hni & HK1 & _). rewrite E in E1. injection E1 as -> <-.
      exists l. split; [done|].
      assert (own ++ x :: l ≡ₚ (x :: own) ++ l) as HP by (cbn; by rewrite Permutation_middle).
      split; [by rewrite <- HP|]. intros y. by rewrite <- HP.
  - assert ((own1 ++ pa :: own2) ++ l ≡ₚ (own1 ++ own2) ++ pa :: l) as HP.
    { rewrite <- !app_assoc. cbn [app]. apply Permutation_app_head. apply Permutation_middle. }
    assert (page end_ pa) as Hp by (apply Hall; set_solver).
    assert (pa ∉ l) as Hni.
    { rewrite HP in Hnd. apply list.NoDup_app in Hnd as (_ & _ & Hnd). by apply list.NoDup_cons in Hnd as [? _]. }
    destruct (kfree_spec end_ k l pa HK Hp Hni) as (k1 & E1 & HK1 & _). rewrite E in E1. injection E1 as <-.
    exists (pa :: l). split; [done|]. split; [by rewrite <- HP|]. intros y. by rewrite <- HP.
  - exists l. split; [|done]. apply KInv_client; [done|]. intros x a Hx Ha. apply Hm. intros p Hp.
    apply list.NoDup_app in Hnd as (_ & Hd & _).
    assert (p <> x) as N by (intros ->; by apply (Hd x)).
    assert (page end_ p) by (apply Hall; set_solver). assert (page end_ x) by (apply Hall; set_solver).
    destruct (page_apart end_ p x); [done|done|done|lia|lia].
Qed.
End Reach.

(** ** Theorems *)

(** C12: the page allocator, from [kinit] on and for every sequence of calls of
    its clients.  Every page between [end] and [PHYSTOP] is either free or given out
    once: [kalloc] returns a page that nobody owns and 0 only when all pages are
    given out; [kalloc] and [kfree] change no byte outside that page; and [kfree]
    panics on an address that is not a page of this range. *)
Theorem kalloc_correct end_ m0 k own :
  0 < end_ <= PHYSTOP -> kreach end_ m0 k own ->
  NoDup own /\ (forall x, x ∈ own -> page end_ x) /\
  match kalloc k with
  | Ret (r, k') =>
      (r = 0 /\ k' = k /\ forall x, page end_ x -> x ∈ own) \/
      (page end_ r /\ r ∉ own /\ forall a, a < r \/ r + PGSIZE <= a -> kmemory k' a = kmemory k a)
  | _ => False
  end /\
  (forall pa, pa ∈ own -> exists k', kfree end_ pa k = Ret (tt, k') /\
     forall a, a < pa \/ pa + PGSIZE <= a -> kmemory k' a = kmemory k a) /\
  (forall pa, ~ (pa mod PGSIZE = 0 /\ end_ <= pa < PHYSTOP) -> kfree end_ pa k = Panic "kfree").
Proof.
  intros He Hr. destruct (reach_partition end_ He m0 k own Hr) as (l & HK & Hnd & Hall).
  pose proof Hnd as Hnd'. apply list.NoDup_app in Hnd' as (N1 & N2 & N3).
  assert (forall x, x ∈ own -> page end_ x) as Hown by (intros x Hx; apply Hall; rewrite elem_of_app; tauto).
  split; [done|]. split; [done|]. split; [|split].
  - pose proof (kalloc_spec end_ k l HK) as H. destruct l as [|r l].
    + rewrite H. left. split; [done|]. split; [done|]. intros x Hx. apply Hall in Hx. by rewrite app_nil_r in Hx.
    + destruct H as (k' & -> & Hp & _ & _ & Hm). right. split; [done|]. split; [|done].
      intros Hin. apply (N2 r Hin). set_solver.
  - intros pa Hpa. destruct (kfree_spec end_ k l pa HK (Hown pa Hpa)) as (k' & E & _ & Hm); [|by exists k'].
    intros Hl. by apply (N2 pa Hpa).
  - intros pa. apply kfree_bad.
Qed.

(** Three pages; two allocated, one of them freed. *)
Definition end3 : Z := PHYSTOP - 3 * PGSIZE - 100.

Lemma kalloc_correct_witness :
  exists k own, kreach end3 (fun _ => 0) k own /\ length own = 2%nat /\ NoDup own.
Proof.
  destruct (kinit_spec end3 ltac:(vm_compute; split; congruence) (fun _ => 0)) as (k0 & l & E0 & HK & Hl).
  pose proof (kr_init end3 (fun _ => 0) k0 E0) as R0.
  assert (forall r k', kalloc k0 = Ret (r, k') -> r <> 0) as Hr.
  { intros r k' E Hz. pose proof (kalloc_correct end3 (fun _ => 0) k0 [] ltac:(vm_compute; split; congruence) R0)
      as (_ & _ & H & _). rewrite E in H. destruct H as [(_ & _ & H)|((_ & _ & H) & _)]; [|lia].
    assert (page end3 (PHYSTOP - PGSIZE)) as Hp by (vm_compute; repeat split; congruence).
    by apply H, elem_of_nil in Hp. }
  pose proof (kalloc_correct end3 (fun _ => 0) k0 [] ltac:(vm_compute; split; congruence) R0) as (_ & _ & H & _).
  destruct (kalloc k0) as [[r k1]|e|e] eqn:E1; [|destruct H|destruct H].
  pose proof (kr_alloc end3 (fun _ => 0) k0 [] r k1 R0 E1 (Hr r k1 eq_refl)) as R1.
  pose proof (kalloc_correct end3 (fun _ => 0) k1 [r] ltac:(vm_compute; split; congruence) R1) as (_ & _ & H1 & _).
  destruct (kalloc k1) as [[r2 k2]|e|e] eqn:E2; [|destruct H1|destruct H1].
  assert (r2 <> 0) as Hr2.
  { intros Hz. destruct H1 as [(_ & _ & H1)|((_ & _ & H1) & _)]; [|lia].
    assert (page end3 (PHYSTOP - PGSIZE)) as Hp by (vm_compute; repeat split; congruence).
    assert (page end3 (PHYSTOP - 2 * PGSIZE)) as Hq by (vm_compute; repeat split; congruence).
    apply H1, list_elem_of_singleton in Hp, Hq. rewrite <- Hq in Hp. vm_compute in Hp. discriminate Hp. }
  pose proof (kr_alloc end3 (fun _ => 0) k1 [r] r2 k2 R1 E2 Hr2) as R2.
  exists k2, [r2; r]. split; [exact R2|]. split; [reflexivity|].
  apply (kalloc_correct end3 (fun _ => 0) k2 [r2; r] ltac:(vm_compute; split; congruence) R2).
Defined.
