(* ===== verification/Vm.v ===== *)
(** * Page tables and user memory: [kernel/vm.c]

    A page table is a tree of three levels of 512 entries in physical memory.  A
    [pagetable_t] is the physical address of its root.  [myproc()] of [vmfault] is
    the pair of its page table and size. *)

From S2P Require Import Prelude Riscv CString Kalloc.

Section Vm.
Context (end_ : Z).
Abbreviation V := (M kmem).

Definition ld (a : Z) : V Z := gets (fun k => ld64 (kmemory k) a).
Definition st (a v : Z) : V unit := modify (fun k => set_mem (st64 (kmemory k) a v) k).
(** [memset(pa, 0, PGSIZE)] *)
Definition zero_page (pa : Z) : V unit := modify (fun k => set_mem (set_page (kmemory k) pa 0) k).

(** [*pte & PTE_x] *)
Definition has (pte flag : Z) : bool := c_true (Z.land pte flag).

(** The loop of [walk]; the address of the leaf entry. *)
Fixpoint walk_loop (level : nat) (pt va : Z) (alloc : bool) : V (option Z) :=
  match level with
  | O => mret (Some (pt + 8 * PX 0 va))
  | S level' =>
    let a := pt + 8 * PX (Z.of_nat level) va in
    pte ← ld a;
    if has pte PTE_V then walk_loop level' (PTE2PA pte) va alloc
    else if negb alloc then mret None
    else
      p ← kalloc;
      if p =? 0 then mret None
      else
        _ ← zero_page p;
        _ ← st a (Z.lor (PA2PTE p) PTE_V);
        walk_loop level' p va alloc
  end.

Definition walk (pt va : Z) (alloc : bool) : V (option Z) :=
  _ ← panic_if (MAXVA <=? va) "walk";
  walk_loop 2 pt va alloc.

Definition walkaddr (pt va : Z) : V Z :=
  if MAXVA <=? va then mret 0
  else
    a ← walk pt va false;
    match a with
    | None => mret 0
    | Some a =>
      pte ← ld a;
      if negb (has pte PTE_V) then mret 0
      else if negb (has pte PTE_U) then mret 0
      else mret (PTE2PA pte)
    end.

Definition ismapped (pt va : Z) : V bool :=
  a ← walk pt va false;
  match a with None => mret false | Some a => pte ← ld a; mret (has pte PTE_V) end.

(** The loop of [mappages], [n + 1] pages long. *)
Fixpoint map_loop (n : nat) (pt a pa perm : Z) : V Z :=
  r ← walk pt a true;
  match r with
  | None => mret (-1)
  | Some p =>
    pte ← ld p;
    _ ← panic_if (has pte PTE_V) "mappages: remap";
    _ ← st p (Z.lor (Z.lor (PA2PTE pa) perm) PTE_V);
    match n with
    | O => mret 0
    | S n' => map_loop n' pt (u64 (a + PGSIZE)) (u64 (pa + PGSIZE)) perm
    end
  end.

Definition mappages (pt va size pa perm : Z) : V Z :=
  _ ← panic_if (negb (va mod PGSIZE =? 0)) "mappages: va not aligned";
  _ ← panic_if (negb (size mod PGSIZE =? 0)) "mappages: size not aligned";
  _ ← panic_if (size =? 0) "mappages: size";
  map_loop (Z.to_nat (size / PGSIZE - 1)) pt va pa perm.

Definition kvmmap (pt va pa sz perm : Z) : V unit :=
  r ← mappages pt va sz pa perm;
  panic_if (negb (r =? 0)) "kvmmap".

Definition uvmcreate : V Z :=
  p ← kalloc;
  if p =? 0 then mret 0 else _ ← zero_page p; mret p.

(** [for (a = va; a < va + npages * PGSIZE; a += PGSIZE)] *)
Fixpoint unmap_loop (npages : nat) (pt a : Z) (do_free : bool) : V unit :=
  match npages with
  | O => mret tt
  | S n' =>
    r ← walk pt a false;
    _ ← (match r with
         | None => mret tt
         | Some p =>
           pte ← ld p;
           if negb (has pte PTE_V) then mret tt
           else
             _ ← (if do_free then kfree end_ (PTE2PA pte) else mret tt);
             st p 0
         end);
    unmap_loop n' pt (a + PGSIZE) do_free
  end.

Definition uvmunmap (pt va : Z) (npages : nat) (do_free : bool) : V unit :=
  _ ← panic_if (negb (va mod PGSIZE =? 0)) "uvmunmap: not aligned";
  unmap_loop npages pt va do_free.

Definition uvmdealloc (pt oldsz newsz : Z) : V Z :=
  if oldsz <=? newsz then mret oldsz
  else
    _ ← (if PGROUNDUP newsz <? PGROUNDUP oldsz then
           uvmunmap pt (PGROUNDUP newsz) (Z.to_nat ((PGROUNDUP oldsz - PGROUNDUP newsz) / PGSIZE)) true
         else mret tt);
    mret newsz.

(** [for (a = oldsz; a < newsz; a += PGSIZE)]; [oldsz] is rounded up. *)
Fixpoint alloc_loop (n : nat) (pt oldsz a newsz xperm : Z) : V Z :=
  if a <? newsz then
    match n with
    | O => undef "out of fuel"
    | S n' =>
      p ← kalloc;
      if p =? 0 then _ ← uvmdealloc pt a oldsz; mret 0
      else
        _ ← zero_page p;
        r ← mappages pt a PGSIZE p (Z.lor (Z.lor PTE_R PTE_U) xperm);
        if r =? 0 then alloc_loop n' pt oldsz (a + PGSIZE) newsz xperm
        else _ ← kfree end_ p; _ ← uvmdealloc pt a oldsz; mret 0
    end
  else mret newsz.

Definition uvmalloc (pt oldsz newsz xperm : Z) : V Z :=
  if newsz <? oldsz then mret oldsz
  else
    let old := PGROUNDUP oldsz in
    alloc_loop (Z.to_nat ((newsz - old) / PGSIZE + 2)) pt old old newsz xperm.

(** [freewalk]; [rec] frees a child table. *)
Fixpoint freewalk_entries (rec : Z -> V unit) (pt : Z) (idx : list Z) : V unit :=
  match idx with
  | [] => mret tt
  | i :: idx' =>
    pte ← ld (pt + 8 * i);
    _ ← (if has pte PTE_V && negb (has pte (Z.lor PTE_R (Z.lor PTE_W PTE_X))) then
           _ ← rec (PTE2PA pte); st (pt + 8 * i) 0
         else panic_if (has pte PTE_V) "freewalk: leaf");
    freewalk_entries rec pt idx'
  end.
Fixpoint freewalk (depth : nat) (pt : Z) : V unit :=
  match depth with
  | O => undef "page table deeper than three levels"
  | S depth' =>
    _ ← freewalk_entries (freewalk depth') pt (Z.of_nat <$> seq 0 512);
    kfree end_ pt
  end.

Definition uvmfree (pt sz : Z) : V unit :=
  _ ← (if 0 <? sz then uvmunmap pt 0 (Z.to_nat (PGROUNDUP sz / PGSIZE)) true else mret tt);
  freewalk 3 pt.

(** [memmove] of a page. *)
Definition copy_page (dst src : Z) : V unit :=
  modify (fun k => set_mem (fun x => if (dst <=? x) && (x <? dst + PGSIZE) then kmemory k (src + (x - dst))
                                     else kmemory k x) k).

Fixpoint copy_loop (n : nat) (old new i sz : Z) : V Z :=
  if i <? sz then
    match n with
    | O => undef "out of fuel"
    | S n' =>
      r ← walk old i false;
      match r with
      | None => copy_loop n' old new (i + PGSIZE) sz
      | Some a =>
        pte ← ld a;
        if negb (has pte PTE_V) then copy_loop n' old new (i + PGSIZE) sz
        else
          p ← kalloc;
          if p =? 0 then _ ← uvmunmap new 0 (Z.to_nat (i / PGSIZE)) true; mret (-1)
          else
            _ ← copy_page p (PTE2PA pte);
            r ← mappages new i PGSIZE p (PTE_FLAGS pte);
            if r =? 0 then copy_loop n' old new (i + PGSIZE) sz
            else _ ← kfree end_ p; _ ← uvmunmap new 0 (Z.to_nat (i / PGSIZE)) true; mret (-1)
      end
    end
  else mret 0.
Definition uvmcopy (old new sz : Z) : V Z := copy_loop (Z.to_nat (sz / PGSIZE + 1)) old new 0 sz.

Definition uvmclear (pt va : Z) : V unit :=
  a ← walk pt va false;
  match a with
  | None => panic "uvmclear"
  | Some a => pte ← ld a; st a (Z.land pte (Z.lnot PTE_U))
  end.

(** ** Copies between kernel and user *)

(** [vmfault] for the process with page table [ppt] and size [psz]. *)
Definition vmfault (ppt psz pt va : Z) : V Z :=
  if psz <=? va then mret 0
  else
    let va := PGROUNDDOWN va in
    mapped ← ismapped pt va;
    if (mapped : bool) then mret 0
    else
      p ← kalloc;
      if p =? 0 then mret 0
      else
        _ ← zero_page p;
        r ← mappages ppt va PGSIZE p (Z.lor (Z.lor PTE_W PTE_U) PTE_R);
        if r =? 0 then mret p else _ ← kfree end_ p; mret 0.

(** [pa0 = walkaddr(...)], or the page [vmfault] provides. *)
Definition user_page (ppt psz pt va0 : Z) : V Z :=
  pa0 ← walkaddr pt va0;
  if pa0 =? 0 then vmfault ppt psz pt va0 else mret pa0.

Definition write_bytes (a : Z) (l : list Z) : V unit :=
  modify (fun k => set_mem (fun x => if (a <=? x) && (x <? a + Z.of_nat (length l))
                                     then nth (Z.to_nat (x - a)) l 0 else kmemory k x) k).
Definition read_bytes (a : Z) (n : nat) : V (list Z) :=
  gets (fun k => map (fun i => kmemory k (a + Z.of_nat i)) (seq 0 n)).

(** [copyout] of the bytes [src]. *)
Fixpoint copyout_loop (fuel : nat) (ppt psz pt dstva : Z) (src : list Z) : V Z :=
  match src with
  | [] => mret 0
  | _ =>
    match fuel with
    | O => undef "out of fuel"
    | S fuel' =>
      let va0 := PGROUNDDOWN dstva in
      if MAXVA <=? va0 then mret (-1)
      else
        pa0 ← user_page ppt psz pt va0;
        if pa0 =? 0 then mret (-1)
        else
          a ← walk pt va0 false;
          match a with
          | None => undef "copyout: null pte"
          | Some a =>
            pte ← ld a;
            if negb (has pte PTE_W) then mret (-1)
            else
              let n := Z.min (PGSIZE - (dstva - va0)) (Z.of_nat (length src)) in
              _ ← write_bytes (pa0 + (dstva - va0)) (take (Z.to_nat n) src);
              copyout_loop fuel' ppt psz pt (va0 + PGSIZE) (drop (Z.to_nat n) src)
          end
    end
  end.
Definition copyout (ppt psz pt dstva : Z) (src : list Z) : V Z :=
  copyout_loop (length src) ppt psz pt dstva src.

(** [copyin] of [len] bytes: its value and the bytes stored at [dst]. *)
Fixpoint copyin_loop (fuel : nat) (ppt psz pt srcva len : Z) (got : list Z) : V (Z * list Z) :=
  if 0 <? len then
    match fuel with
    | O => undef "out of fuel"
    | S fuel' =>
      let va0 := PGROUNDDOWN srcva in
      pa0 ← user_page ppt psz pt va0;
      if pa0 =? 0 then mret (-1, got)
      else
        let n := Z.min (PGSIZE - (srcva - va0)) len in
        l ← read_bytes (pa0 + (srcva - va0)) (Z.to_nat n);
        copyin_loop fuel' ppt psz pt (va0 + PGSIZE) (len - n) (got ++ l)
    end
  else mret (0, got).
Definition copyin (ppt psz pt srcva len : Z) : V (Z * list Z) :=
  copyin_loop (Z.to_nat len) ppt psz pt srcva len [].

(** The inner loop of [copyinstr]: the bytes copied and whether a NUL ended it. *)
Fixpoint take_str (n : nat) (m : mem) (p : Z) : list Z * bool :=
  match n with
  | O => ([], false)
  | S n' => if m p =? 0 then ([0], true) else let '(l, z) := take_str n' m (p + 1) in (m p :: l, z)
  end.

Fixpoint copyinstr_loop (fuel : nat) (pt srcva max : Z) (got : list Z) : V (Z * list Z) :=
  if 0 <? max then
    match fuel with
    | O => undef "out of fuel"
    | S fuel' =>
      let va0 := PGROUNDDOWN srcva in
      pa0 ← walkaddr pt va0;
      if pa0 =? 0 then mret (-1, got)
      else
        let n := Z.min (PGSIZE - (srcva - va0)) max in
        r ← gets (fun k => take_str (Z.to_nat n) (kmemory k) (pa0 + (srcva - va0)));
        let '(l, got_null) := r in
        if (got_null : bool) then mret (0, got ++ l)
        else copyinstr_loop fuel' pt (va0 + PGSIZE) (max - n) (got ++ l)
    end
  else mret (-1, got).
Definition copyinstr (pt srcva max : Z) : V (Z * list Z) := copyinstr_loop (Z.to_nat max) pt srcva max [].
End Vm.

(** ** Bit fields *)

Lemma has_testbit pte i : 0 <= i -> has pte (Z.shiftl 1 i) = Z.testbit pte i.
Proof.
  intros Hi. unfold has, c_true. rewrite Z.shiftl_1_l.
  destruct (Z.testbit pte i) eqn:E; destruct (Z.eqb_spec (Z.land pte (2 ^ i)) 0) as [H|H]; try done; exfalso.
  - assert (Z.testbit (Z.land pte (2 ^ i)) i = true) as H1
      by (rewrite Z.land_spec, E, Z.pow2_bits_true by lia; done).
    rewrite H, Z.bits_0 in H1. done.
  - apply H. apply Z.bits_inj'. intros n Hn. rewrite Z.land_spec, Z.bits_0.
    destruct (Z.eq_dec n i) as [->|N]; [by rewrite E|].
    rewrite Z.pow2_bits_false by lia. apply andb_false_r.
Qed.

(** An entry for page [pa] with flags [fl]. *)
Lemma pte_fields pa fl : pa mod PGSIZE = 0 -> 0 <= pa < 2 ^ 56 -> 0 <= fl < 1024 ->
  PTE2PA (Z.lor (PA2PTE pa) fl) = pa /\ PTE_FLAGS (Z.lor (PA2PTE pa) fl) = fl /\
  0 <= Z.lor (PA2PTE pa) fl < 2 ^ 64.
Proof.
  intros Hm Hp Hf. unfold PTE2PA, PA2PTE, PTE_FLAGS. set (q := Z.shiftr pa 12).
  assert (pa = Z.shiftl q 12) as Epa.
  { unfold q. rewrite Z.shiftl_mul_pow2, Z.shiftr_div_pow2 by lia. change (2 ^ 12) with PGSIZE.
    rewrite (Z.div_mod pa PGSIZE) at 1 by done. unfold PGSIZE in *. lia. }
  assert (0 <= q < 2 ^ 44) as Hq.
  { rewrite Epa, Z.shiftl_mul_pow2 in Hp by lia. lia. }
  assert (Z.lor (Z.shiftl q 10) fl = q * 1024 + fl) as El.
  { rewrite Z.shiftl_mul_pow2 by lia. change (2 ^ 10) with 1024. symmetry. apply Z.add_nocarry_lor.
    apply Z.bits_inj'. intros n Hn. rewrite Z.land_spec, Z.bits_0. destruct (Z.lt_ge_cases n 10).
    - change 1024 with (2 ^ 10). rewrite Z.mul_pow2_bits_low by lia. done.
    - rewrite (Z.bits_above_log2 fl n); [apply andb_false_r|lia|].
      destruct (Z.eq_dec fl 0) as [->|]; [cbn; lia|]. apply Z.log2_lt_pow2; [lia|].
      apply Z.lt_le_trans with (2 ^ 10); [lia|]. apply Z.pow_le_mono_r; lia. }
  rewrite El. split; [|split].
  - rewrite (Z.shiftr_div_pow2 _ 10) by lia. change (2 ^ 10) with 1024.
    rewrite Z.add_comm, Z.div_add, Z.div_small by lia. by rewrite Epa.
  - change 0x3FF with (Z.ones 10). rewrite Z.land_ones by lia. change (2 ^ 10) with 1024.
    rewrite Z.add_comm, Z.mod_add by lia. apply Z.mod_small. lia.
  - lia.
Qed.

Lemma PX_div level va : 0 <= level -> PX level va = (va / 2 ^ (12 + 9 * level)) mod 512.
Proof.
  intros Hl. unfold PX, PXSHIFT, PGSHIFT, PXMASK. change 511 with (Z.ones 9).
  by rewrite Z.land_ones, Z.shiftr_div_pow2 by lia.
Qed.

Lemma PX_range level va : 0 <= level -> 0 <= PX level va < 512.
Proof. intros H. rewrite PX_div by done. apply Z.mod_pos_bound. lia. Qed.

(** The page number of an address below [MAXVA] is its three indices. *)
Lemma PX_page va : 0 <= va < MAXVA -> va / PGSIZE = PX 2 va * 2 ^ 18 + PX 1 va * 2 ^ 9 + PX 0 va.
Proof.
  unfold MAXVA. rewrite Z.shiftl_1_l. intros Hv. rewrite !PX_div by lia. unfold PGSIZE.
  change (2 ^ (12 + 9 * 0)) with 4096. set (v := va / 4096).
  assert (va / 2 ^ (12 + 9 * 1) = v / 512) as -> by (unfold v; rewrite Z.div_div by lia; done).
  assert (va / 2 ^ (12 + 9 * 2) = v / 512 / 512) as -> by (unfold v; rewrite !Z.div_div by lia; done).
  assert (0 <= v < 2 ^ 26) by (unfold v; split; [apply Z.div_pos; lia|apply Z.div_lt_upper_bound; lia]).
  pose proof (Z.div_mod v 512 ltac:(lia)). pose proof (Z.div_mod (v / 512) 512 ltac:(lia)).
  rewrite (Z.mod_small (v / 512 / 512) 512); [lia|]. split.
  - apply Z.div_pos; [apply Z.div_pos; lia|lia].
  - rewrite Z.div_div by lia. apply Z.div_lt_upper_bound; lia.
Qed.

Lemma PX_same va va' level : 0 <= level -> va / PGSIZE = va' / PGSIZE -> PX level va = PX level va'.
Proof.
  intros Hl H. rewrite !PX_div by done. rewrite Z.pow_add_r by lia. change (2 ^ 12) with PGSIZE.
  assert (0 < 2 ^ (9 * level)) by (apply Z.pow_pos_nonneg; lia).
  rewrite <- !Z.div_div by (try done; lia). by rewrite H.
Qed.
