(* ===== verification/VmMap.v ===== *)
(** * Correctness of page tables

    A page table is seen as the function [pteval] from virtual addresses to leaf
    entries (0 where there is none).  [walk] finds that entry and, allocating,
    does not change the function; [mappages] sets a range of it. *)

From S2P Require Import Prelude Riscv CString Kalloc Vm.

Section Tables.
Context (end_ : Z).

(** ** The tree *)

Definition idx (i : Z) : Prop := 0 <= i < 512.

(** The table that entry [i] of table [p] points to. *)
Definition next (m : mem) (p i : Z) : option Z :=
  let pte := ld64 m (p + 8 * i) in if has pte PTE_V then Some (PTE2PA pte) else None.
(** Tables of level 1 and 0. *)
Definition T1 (m : mem) (root i : Z) : option Z := next m root i.
Definition T0 (m : mem) (root i j : Z) : option Z :=
  match T1 m root i with Some q => next m q j | None => None end.

(** A page of the table itself. *)
Definition is_table (m : mem) (root p : Z) : Prop :=
  p = root \/ (exists i, idx i /\ T1 m root i = Some p) \/ (exists i j, idx i /\ idx j /\ T0 m root i j = Some p).

(** A valid entry above the leaves has no permission bits. *)
Definition RWX : Z := Z.lor PTE_R (Z.lor PTE_W PTE_X).
Definition plain (m : mem) (p i : Z) : Prop := next m p i <> None -> has (ld64 m (p + 8 * i)) RWX = false.

(** Distinct pages of memory in use, arranged as a tree; [l] are the free pages. *)
Record PT (k : kmem) (l : list Z) (root : Z) : Prop := {
  pt_k : KInv end_ k l;
  pt_table : forall p, is_table (kmemory k) root p -> page end_ p /\ p ∉ l;
  pt_root1 : forall i, idx i -> T1 (kmemory k) root i <> Some root;
  pt_root0 : forall i j, idx i -> idx j -> T0 (kmemory k) root i j <> Some root;
  pt_10 : forall i i' j, idx i -> idx i' -> idx j -> T1 (kmemory k) root i <> None ->
    T1 (kmemory k) root i <> T0 (kmemory k) root i' j;
  pt_inj1 : forall i i', idx i -> idx i' -> T1 (kmemory k) root i <> None ->
    T1 (kmemory k) root i = T1 (kmemory k) root i' -> i = i';
  pt_inj0 : forall i j i' j', idx i -> idx j -> idx i' -> idx j' -> T0 (kmemory k) root i j <> None ->
    T0 (kmemory k) root i j = T0 (kmemory k) root i' j' -> i = i' /\ j = j';
  pt_plain1 : forall i, idx i -> plain (kmemory k) root i;
  pt_plain0 : forall i j q, idx i -> idx j -> T1 (kmemory k) root i = Some q -> plain (kmemory k) q j;
  pt_half : forall i, 256 <= i < 512 -> T1 (kmemory k) root i = None
}.

(** The address of the leaf entry of [va], and the entry. *)
Definition leaf (m : mem) (root va : Z) : option Z :=
  match T0 m root (PX 2 va) (PX 1 va) with Some p => Some (p + 8 * PX 0 va) | None => None end.
Definition pteval (m : mem) (root va : Z) : Z :=
  match leaf m root va with Some a => ld64 m a | None => 0 end.

(** Two memories agree on a page. *)
Definition agree (m m' : mem) (p : Z) : Prop := forall a, p <= a < p + PGSIZE -> m' a = m a.

Lemma next_agree m m' p i : agree m m' p -> idx i -> next m' p i = next m p i.
Proof.
  intros H Hi. unfold next. rewrite (ld64_ext m' m); [done|]. intros x Hx. apply H. unfold idx, PGSIZE in *. lia.
Qed.

Lemma plain_agree m m' p i : agree m m' p -> idx i -> plain m p i -> plain m' p i.
Proof.
  intros H Hi. unfold plain. rewrite (next_agree m m') by done. rewrite (ld64_ext m' m); [done|]. intros x Hx. apply H. unfold idx, PGSIZE in *. lia.
Qed.

Lemma PX_idx level va : 0 <= level -> idx (PX level va).
Proof. apply PX_range. Qed.

Lemma PX2_half va : 0 <= va < MAXVA -> 0 <= PX 2 va < 256.
Proof.
  unfold MAXVA. rewrite Z.shiftl_1_l. intros Hv. rewrite PX_div by lia.
  assert (0 <= va / 2 ^ (12 + 9 * 2) < 256) by (split; [apply Z.div_pos; lia|apply Z.div_lt_upper_bound; lia]).
  rewrite Z.mod_small by lia. done.
Qed.

(** ** Looking up *)

Lemma walk_found k root va :
  0 <= va < MAXVA -> walk root va false k = Ret (leaf (kmemory k) root va, k).
Proof.
  intros Hv. unfold walk. rewrite (proj2 (Z.leb_gt _ _)) by lia. rewrite (M_bind_Ret _ _ k tt k) by done.
  unfold leaf, T0, T1, next. cbn [walk_loop]. change (Z.of_nat 2) with 2. change (Z.of_nat 1) with 1.
  unfold ld. rewrite (M_bind_Ret _ _ k (ld64 (kmemory k) (root + 8 * PX 2 va)) k) by done.
  destruct (has (ld64 (kmemory k) (root + 8 * PX 2 va)) PTE_V); [|done].
  set (q := PTE2PA _). rewrite (M_bind_Ret _ _ k (ld64 (kmemory k) (q + 8 * PX 1 va)) k) by done.
  by destruct (has (ld64 (kmemory k) (q + 8 * PX 1 va)) PTE_V).
Qed.

(** An entry that exists is found without allocation. *)
Lemma walk_present k root va a :
  0 <= va < MAXVA -> leaf (kmemory k) root va = Some a -> walk root va true k = Ret (Some a, k).
Proof.
  intros Hv. unfold walk. rewrite (proj2 (Z.leb_gt _ _)) by lia. rewrite (M_bind_Ret _ _ k tt k) by done.
  unfold leaf, T0, T1, next. cbn [walk_loop]. change (Z.of_nat 2) with 2. change (Z.of_nat 1) with 1.
  unfold ld. rewrite (M_bind_Ret _ _ k (ld64 (kmemory k) (root + 8 * PX 2 va)) k) by done.
  destruct (has (ld64 (kmemory k) (root + 8 * PX 2 va)) PTE_V); [|done].
  set (q := PTE2PA _). rewrite (M_bind_Ret _ _ k (ld64 (kmemory k) (q + 8 * PX 1 va)) k) by done.
  destruct (has (ld64 (kmemory k) (q + 8 * PX 1 va)) PTE_V); [|done]. by intros [= <-].
Qed.

(** ** Adding tables *)

Lemma V_entry p : page end_ p ->
  has (Z.lor (PA2PTE p) PTE_V) PTE_V = true /\ PTE2PA (Z.lor (PA2PTE p) PTE_V) = p /\
  0 <= Z.lor (PA2PTE p) PTE_V < 2 ^ 64 /\ has (Z.lor (PA2PTE p) PTE_V) RWX = false.
Proof.
  intros (H1 & H2 & H3). unfold PHYSTOP, KERNBASE in H2.
  destruct (pte_fields p PTE_V H1 ltac:(lia) ltac:(vm_compute; split; congruence)) as (E1 & E2 & E3).
  split; [|split; [done|]; split; [done|]].
  - unfold PTE_V at 2. rewrite has_testbit by lia. rewrite Z.lor_spec. apply orb_true_r.
  - unfold has, PTE_FLAGS in *. change RWX with (Z.land 0x3FF RWX). by rewrite Z.land_assoc, E2.
Qed.

(** The memory after [kalloc] of [p], clearing it, and entering it at [q], [i]. *)
Definition linked (m : mem) (p q i : Z) (m' : mem) : Prop :=
  (forall j, idx j -> next m' p j = None) /\ (forall j, idx j -> ld64 m' (p + 8 * j) = 0) /\
  next m' q i = Some p /\ (forall j, idx j -> j <> i -> ld64 m' (q + 8 * j) = ld64 m (q + 8 * j)) /\
  (forall r, page end_ r -> r <> p -> r <> q -> agree m m' r) /\ plain m' q i.

Lemma link_run k p l q i :
  KInv end_ k (p :: l) -> page end_ q -> q ∉ p :: l -> idx i ->
  exists k', (p' ← kalloc; if p' =? 0 then mret None
              else _ ← zero_page p'; _ ← st (q + 8 * i) (Z.lor (PA2PTE p') PTE_V); mret (Some p')) k =
    Ret (Some p, k') /\ KInv end_ k' l /\ page end_ p /\ p ∉ l /\ linked (kmemory k) p q i (kmemory k').
Proof.
  intros HK Hq Hqn Hi. destruct (kalloc_spec end_ k (p :: l) HK) as (k1 & E & Hp & Hni & HK1 & Hm).
  rewrite (M_bind_Ret _ _ _ _ _ E). pose proof Hp as (_ & _ & Hp0). rewrite (proj2 (Z.eqb_neq p 0)) by lia.
  destruct (V_entry p Hp) as (E1 & E2 & E3 & E4).
  set (m2 := set_page (kmemory k1) p 0). set (m3 := st64 m2 (q + 8 * i) (Z.lor (PA2PTE p) PTE_V)).
  assert (p <> q) as Hpq by (intros ->; set_solver).
  assert (p + PGSIZE <= q \/ q + PGSIZE <= p) as Hap by (by apply (page_apart end_)).
  assert (forall r, page end_ r -> r <> p -> r <> q -> agree (kmemory k) m3 r) as Hag.
  { intros r Hr N1 N2 a Ha. destruct (page_apart end_ r p Hr Hp N1), (page_apart end_ r q Hr Hq N2);
      unfold m3, idx, PGSIZE in *; (rewrite st64_out by lia; unfold m2; rewrite set_page_out by (unfold PGSIZE; lia);
      apply Hm; unfold PGSIZE; lia). }
  exists (set_mem m3 k1). split; [done|]. split; [|split; [done|split; [done|]]].
  - apply KInv_client; [done|]. intros x a Hx Ha.
    assert (page end_ x) as Hpx by (eapply chain_pages; [apply HK1|done]).
    assert (x <> p) as Nxp by (intros ->; done). assert (x <> q) as Nxq by (intros ->; set_solver).
    rewrite Hag by done. symmetry. apply Hm. destruct (page_apart end_ x p Hpx Hp Nxp); lia.
  - cbn [kmemory set_mem]. unfold linked.
    assert (forall j, idx j -> ld64 m3 (p + 8 * j) = 0) as Hz.
    { intros j Hj. unfold m3. unfold idx, PGSIZE in *. rewrite ld64_st64_ne by lia.
      rewrite (ld64_ext m2 (fun _ => 0)); [done|]. intros x Hx. unfold m2. apply set_page_in. unfold PGSIZE. lia. }
    split; [|split; [done|split; [|split; [|split; [done|]]]]].
    + intros j Hj. unfold next. by rewrite Hz.
    + unfold next, m3. rewrite ld64_st64 by done. by rewrite E1, E2.
    + intros j Hj Hji. unfold m3. unfold idx, PGSIZE in *. rewrite ld64_st64_ne by lia.
      apply ld64_ext. intros x Hx. unfold m2. rewrite set_page_out by (unfold PGSIZE; lia). apply Hm. unfold PGSIZE. lia.
    + intros _. unfold m3. by rewrite ld64_st64.
Qed.

(** What allocating a table leaves alone: the entries of all addresses, and the
    contents of pages that are neither free nor tables.  No page is lost. *)
Record kept (k k' : kmem) (l l' : list Z) (root : Z) : Prop := {
  kp_pt : PT k' l' root;
  kp_val : forall va, pteval (kmemory k') root va = pteval (kmemory k) root va;
  kp_free : forall x, x ∈ l' -> x ∈ l;
  kp_data : forall d, page end_ d -> d ∉ l -> ~ is_table (kmemory k) root d ->
    agree (kmemory k) (kmemory k') d /\ ~ is_table (kmemory k') root d;
  kp_all : forall x, x ∈ l \/ is_table (kmemory k) root x -> x ∈ l' \/ is_table (kmemory k') root x
}.

Lemma kept_refl k l root : PT k l root -> kept k k l l root.
Proof. intros H. split; try done. Qed.

Lemma kept_trans k k1 k2 l l1 l2 root : kept k k1 l l1 root -> kept k1 k2 l1 l2 root -> kept k k2 l l2 root.
Proof.
  intros [A1 A2 A3 A4 A5] [B1 B2 B3 B4 B5]. split; [done|..| |auto].
  - intros va. by rewrite B2, A2.
  - auto.
  - intros d Hd Hl Ht. destruct (A4 d Hd Hl Ht) as [G1 N1]. destruct (B4 d Hd) as [G2 N2]; [auto|done|].
    split; [|done]. intros a Ha. by rewrite G2, G1.
Qed.

(** The new table [p] under the root. *)
Lemma add_level1 k k' p l root i :
  PT k (p :: l) root -> 0 <= i < 256 -> T1 (kmemory k) root i = None ->
  KInv end_ k' l -> page end_ p -> p ∉ l -> linked (kmemory k) p root i (kmemory k') ->
  kept k k' (p :: l) l root /\ T1 (kmemory k') root i = Some p.
Proof.
  intros HP Hi256 Hno HK Hp Hpl (L1 & L2 & L3 & L4 & L5 & L6). assert (idx i) as Hi by (unfold idx; lia). pose proof HP as [P1 P2 P3 P4 P5 P6 P7 P8 P9 P10].
  set (m := kmemory k) in *. set (m' := kmemory k') in *.
  assert (forall q, is_table m root q -> q <> p) as Hfr by (intros q Hq ->; destruct (P2 p Hq) as [_ Hx]; set_solver).
  assert (forall i', idx i' -> T1 m' root i' = if i' =? i then Some p else T1 m root i') as E1.
  { intros i' Hi'. destruct (Z.eqb_spec i' i) as [->|N]; [done|]. unfold T1, next. by rewrite L4. }
  assert (forall i' j, idx i' -> idx j -> T0 m' root i' j = if i' =? i then None else T0 m root i' j) as E0.
  { intros i' j Hi' Hj. unfold T0 at 1. rewrite E1 by done. destruct (Z.eqb_spec i' i) as [->|N]; [by apply L1|].
    unfold T0. destruct (T1 m root i') as [q|] eqn:Eq; [|done]. apply next_agree; [|done].
    assert (is_table m root q) as Hq by (right; left; eauto).
    apply L5; [by apply P2|by apply Hfr|]. intros ->. by apply (P3 i'). }
  assert (forall q, is_table m' root q -> q = p \/ is_table m root q) as Ht.
  { intros q [->|[(i' & Hi' & E)|(i' & j & Hi' & Hj & E)]]; [right; by left|..].
    - rewrite E1 in E by done. destruct (i' =? i); [left; congruence|right; right; left; eauto].
    - rewrite E0 in E by done. destruct (i' =? i); [done|right; right; right; eauto 6]. }
  split; [|by rewrite E1, Z.eqb_refl]. split.
  - split; try done.
    + intros q [->|Hq]%Ht; [done|]. destruct (P2 q Hq) as [? Hx]. split; [done|set_solver].
    + intros i' Hi'. rewrite E1 by done. destruct (i' =? i); [|by apply P3].
      intros [= ->]. by apply (Hfr root); [left|].
    + intros i' j Hi' Hj. rewrite E0 by done. destruct (i' =? i); [done|by apply P4].
    + intros a b j Ha Hb Hj. rewrite E1, E0 by done. destruct (a =? i), (b =? i); try done; [|by apply P5].
      intros _ E. symmetry in E. apply (Hfr p); [|done]. right. right. eauto.
    + intros a b Ha Hb. rewrite !E1 by done. destruct (Z.eqb_spec a i), (Z.eqb_spec b i); try congruence.
      * intros _ E. exfalso. apply (Hfr p); [|done]. right. left. eauto.
      * intros _ E. exfalso. apply (Hfr p); [|done]. right. left. eauto.
      * by apply P6.
    + intros a b a' b' Ha Hb Ha' Hb'. rewrite !E0 by done. destruct (a =? i), (a' =? i); try done. by apply P7.
    + intros a Ha. destruct (Z.eq_dec a i) as [->|N]; [done|]. unfold plain, next. rewrite L4 by done. by apply P8.
    + intros a b q Ha Hb. fold m'. rewrite E1 by done. destruct (Z.eqb_spec a i) as [->|N].
      * intros [= <-] Hx. by rewrite L1 in Hx.
      * intros Eq. apply (plain_agree m); [|done|by apply (P9 a)]. assert (is_table m root q) as Hq by (right; left; eauto).
        apply L5; [by apply P2|by apply Hfr|]. intros ->. by apply (P3 a).
    + intros a Ha. fold m'. rewrite E1 by (unfold idx; lia). rewrite (proj2 (Z.eqb_neq a i)) by lia. by apply P10.
  - intros va. unfold pteval, leaf. rewrite E0 by (by apply PX_idx). fold m.
    destruct (Z.eqb_spec (PX 2 va) i) as [Ei|N].
    + unfold T0. by rewrite Ei, Hno.
    + destruct (T0 m root (PX 2 va) (PX 1 va)) as [q|] eqn:Eq; [|done]. apply ld64_ext. intros x Hx.
      assert (is_table m root q) as Hq by (right; right; exists (PX 2 va), (PX 1 va); split_and!; try done; apply PX_range; lia).
      apply (L5 q); [by apply P2|by apply Hfr| |].
      * intros ->. by apply (P4 (PX 2 va) (PX 1 va)); try (apply PX_idx).
      * pose proof (PX_range 0 va ltac:(lia)). unfold PGSIZE. lia.
  - set_solver.
  - intros d Hd Hdl Hnt. split.
    + apply L5; [done|set_solver|]. intros ->. apply Hnt. by left.
    + intros [->|Hx]%Ht; [set_solver|done].
  - fold m m'. intros x [[->|Hx]%elem_of_cons|[->|[(a & Ha & E)|(a & b & Ha & Hb & E)]]]; [right; right; left; eauto|by left|right; by left|..].
    + right. right. left. exists a. rewrite E1 by done. destruct (Z.eqb_spec a i); [congruence|done].
    + right. right. right. exists a, b. rewrite E0 by done. destruct (Z.eqb_spec a i) as [->|]; [|done]. unfold T0 in E. by rewrite Hno in E.
Qed.

(** The new table [p] under the level-1 table [q]. *)
Lemma add_level0 k k' p l root i j q :
  PT k (p :: l) root -> idx i -> idx j -> T1 (kmemory k) root i = Some q -> T0 (kmemory k) root i j = None ->
  KInv end_ k' l -> page end_ p -> p ∉ l -> linked (kmemory k) p q j (kmemory k') ->
  kept k k' (p :: l) l root /\ T1 (kmemory k') root i = Some q /\ T0 (kmemory k') root i j = Some p.
Proof.
  intros HP Hi Hj Hq Hno HK Hp Hpl (L1 & L2 & L3 & L4 & L5 & L6). pose proof HP as [P1 P2 P3 P4 P5 P6 P7 P8 P9 P10].
  set (m := kmemory k) in *. set (m' := kmemory k') in *.
  assert (forall x, is_table m root x -> x <> p) as Hfr by (intros x Hx ->; destruct (P2 p Hx) as [_ Hx']; set_solver).
  assert (is_table m root q) as Htq by (right; left; eauto).
  assert (q <> root) as Hqr by (intros ->; by apply (P3 i)).
  assert (forall i', idx i' -> T1 m' root i' = T1 m root i') as E1.
  { intros i' Hi'. apply next_agree; [|done]. apply L5; [apply P2; by left|apply Hfr; by left|done]. }
  assert (forall a b, idx a -> idx b ->
    T0 m' root a b = if (a =? i) && (b =? j) then Some p else T0 m root a b) as E0.
  { intros a b Ha Hb. unfold T0. rewrite E1 by done. destruct (Z.eqb_spec a i) as [->|N]; cbn [andb].
    - rewrite Hq. destruct (Z.eqb_spec b j) as [->|Nb]; [done|]. unfold next. by rewrite L4.
    - destruct (T1 m root a) as [x|] eqn:Ex; [|done]. apply next_agree; [|done].
      assert (is_table m root x) as Hx by (right; left; eauto).
      apply L5; [by apply P2|by apply Hfr|]. intros ->. apply N. apply P6; congruence. }
  assert (forall x, is_table m' root x -> x = p \/ is_table m root x) as Ht.
  { intros x [->|[(a & Ha & E)|(a & b & Ha & Hb & E)]]; [right; by left|..].
    - rewrite E1 in E by done. right. right. left. eauto.
    - rewrite E0 in E by done. destruct ((a =? i) && (b =? j)); [left; congruence|right; right; right; eauto 6]. }
  assert (forall a b x, idx a -> idx b -> T0 m root a b = Some x -> is_table m root x) as Ht0
    by (intros; right; right; eauto 6).
  split; [|split; [by rewrite E1|by rewrite E0, !Z.eqb_refl]]. split.
  - split; try done.
    + intros x [->|Hx]%Ht; [done|]. destruct (P2 x Hx) as [? Hx']. split; [done|set_solver].
    + intros a Ha. rewrite E1 by done. by apply P3.
    + intros a b Ha Hb. rewrite E0 by done. destruct (_ && _); [|by apply P4].
      intros [= ->]. by apply (Hfr root); [left|].
    + intros a b c Ha Hb Hc. rewrite E1, E0 by done. destruct (_ && _); [|by apply P5].
      intros _ E. apply (Hfr p); [|done]. right. left. eauto.
    + intros a b Ha Hb. rewrite !E1 by done. by apply P6.
    + intros a b a' b' Ha Hb Ha' Hb'. rewrite !E0 by done.
      destruct (Z.eqb_spec a i), (Z.eqb_spec b j), (Z.eqb_spec a' i), (Z.eqb_spec b' j); cbn [andb];
        try (intros; split; congruence); intros Hn E; try (by apply P7); exfalso;
        (apply (Hfr p); [|done]; first [by apply (Ht0 a' b')|by apply (Ht0 a b)]).
    + intros a Ha. apply (plain_agree m); [|done|by apply P8]. apply L5; [apply P2; by left|apply Hfr; by left|done].
    + intros a b x Ha Hb. fold m'. rewrite E1 by done. intros Ex. destruct (Z.eq_dec x q) as [->|N].
      * destruct (Z.eq_dec b j) as [->|Nb]; [done|]. unfold plain, next. rewrite L4 by done. by apply (P9 a).
      * apply (plain_agree m); [|done|by apply (P9 a)]. assert (is_table m root x) as Hx by (right; left; eauto).
        by apply L5; [apply P2|apply Hfr|].
    + intros a Ha. fold m'. rewrite E1 by (unfold idx; lia). by apply P10.
  - intros va. unfold pteval, leaf. rewrite E0 by (by apply PX_idx). fold m.
    assert (idx (PX 2 va) /\ idx (PX 1 va) /\ idx (PX 0 va)) as (I2 & I1 & I0) by (split_and!; apply PX_range; lia).
    destruct (Z.eqb_spec (PX 2 va) i) as [Ei|N], (Z.eqb_spec (PX 1 va) j) as [Ej|Nj]; cbn [andb].
    1: { rewrite Ei, Ej, Hno. by apply L2. }
    all: destruct (T0 m root (PX 2 va) (PX 1 va)) as [x|] eqn:Ex; [|done]; apply ld64_ext; intros y Hy.
    all: pose proof (Ht0 _ _ _ I2 I1 Ex) as Hx; apply (L5 x);
      [by apply P2|by apply Hfr|intros ->; by apply (P5 i (PX 2 va) (PX 1 va)); congruence|unfold idx, PGSIZE in *; lia].
  - set_solver.
  - intros d Hd Hdl Hnt. split.
    + apply L5; [done|set_solver|]. intros ->. by apply Hnt.
    + intros [->|Hx]%Ht; [set_solver|done].
  - fold m m'. intros x [[->|Hx]%elem_of_cons|[->|[(a & Ha & E)|(a & b & Ha & Hb & E)]]]; [|by left|right; by left|..].
    + right. right. right. exists i, j. by rewrite E0, !Z.eqb_refl.
    + right. right. left. exists a. by rewrite E1.
    + right. right. right. exists a, b. rewrite E0 by done. destruct (Z.eqb_spec a i) as [->|], (Z.eqb_spec b j) as [->|]; cbn [andb]; try done. congruence.
Qed.

(** The pages a walk with allocation may have to take. *)
Definition missing (m : mem) (root va : Z) : nat := match leaf m root va with Some _ => 0 | None => 2 end.

(** [walk] with allocation: the leaf entry, without changing any entry. *)
Lemma walk_alloc k l root va :
  PT k l root -> 0 <= va < MAXVA ->
  exists r k' l', walk root va true k = Ret (r, k') /\ (kept k k' l l' root /\ (length l <= length l' + missing (kmemory k) root va)%nat) /\
    match r with Some a => leaf (kmemory k') root va = Some a | None => l' = [] end.
Proof.
  intros HP Hv. unfold missing. destruct (leaf (kmemory k) root va) as [a|] eqn:El.
  { exists (Some a), k, l. split; [by apply walk_present|]. split; [split; [by apply kept_refl|lia]|done]. }
  unfold walk. rewrite (proj2 (Z.leb_gt _ _)) by lia. rewrite (M_bind_Ret _ _ k tt k) by done.
  assert (idx (PX 2 va) /\ idx (PX 1 va)) as [I2 I1] by (split; apply PX_range; lia).
  assert (forall k1 l1 q, PT k1 l1 root -> T1 (kmemory k1) root (PX 2 va) = Some q ->
    exists r k' l', walk_loop 1 q va true k1 = Ret (r, k') /\ (kept k1 k' l1 l' root /\ (length l1 <= length l' + 1)%nat) /\
      match r with Some a => leaf (kmemory k') root va = Some a | None => l' = [] end) as Hlow.
  { intros k1 l1 q HP1 Hq. cbn [walk_loop]. change (Z.of_nat 1) with 1. unfold ld.
    rewrite (M_bind_Ret _ _ k1 (ld64 (kmemory k1) (q + 8 * PX 1 va)) k1) by done.
    destruct (has (ld64 (kmemory k1) (q + 8 * PX 1 va)) PTE_V) eqn:Eh.
    { eexists _, k1, l1. split; [done|]. split; [split; [by apply kept_refl|lia]|]. unfold leaf, T0. rewrite Hq. unfold next.
      by rewrite Eh. }
    cbn [negb]. pose proof (pt_k _ _ _ HP1) as HK1. destruct l1 as [|p l1].
    { rewrite (M_bind_Ret _ _ _ _ _ (kalloc_spec end_ k1 [] HK1)). exists None, k1, []. split; [done|].
      split; [split; [by apply kept_refl|cbn; lia]|done]. }
    assert (T0 (kmemory k1) root (PX 2 va) (PX 1 va) = None) as Hno by (unfold T0; rewrite Hq; unfold next; by rewrite Eh).
    destruct (pt_table _ _ _ HP1 q) as [Hqp Hqn]; [right; left; eauto|].
    destruct (link_run k1 p l1 q (PX 1 va) HK1 Hqp Hqn I1) as (k2 & E & HK2 & Hp & Hpl & HL).
    destruct (add_level0 k1 k2 p l1 root _ _ q HP1 I2 I1 Hq Hno HK2 Hp Hpl HL) as (Hk & Hq2 & H02).
    revert E. unfold mbind, M_bind. destruct (kalloc k1) as [[p' k3]| |]; [|done|done].
    destruct (p' =? 0); [done|]. destruct (zero_page p' k3) as [[[] k4]| |]; [|done|done].
    destruct (st _ _ k4) as [[[] k5]| |]; [|done|done]. intros [= <- <-].
    eexists _, _, l1. split; [done|]. split; [split; [done|cbn; lia]|]. unfold leaf. by rewrite H02. }
  cbn [walk_loop]. change (Z.of_nat 2) with 2. unfold ld at 1.
  rewrite (M_bind_Ret _ _ k (ld64 (kmemory k) (root + 8 * PX 2 va)) k) by done.
  destruct (has (ld64 (kmemory k) (root + 8 * PX 2 va)) PTE_V) eqn:Eh.
  { destruct (Hlow k l (PTE2PA (ld64 (kmemory k) (root + 8 * PX 2 va))) HP) as (r & k' & l' & E3 & [Hk3 Hn3] & Hr).
    { unfold T1, next. by rewrite Eh. }
    exists r, k', l'. split; [done|]. split; [split; [done|lia]|done]. }
  cbn [negb]. pose proof (pt_k _ _ _ HP) as HK. destruct l as [|p l].
  { rewrite (M_bind_Ret _ _ _ _ _ (kalloc_spec end_ k [] HK)). exists None, k, []. split; [done|].
    split; [split; [by apply kept_refl|cbn; lia]|done]. }
  assert (T1 (kmemory k) root (PX 2 va) = None) as Hno by (unfold T1, next; by rewrite Eh).
  destruct (pt_table _ _ _ HP root) as [Hrp Hrn]; [by left|].
  destruct (link_run k p l root (PX 2 va) HK Hrp Hrn I2) as (k2 & E & HK2 & Hp & Hpl & HL).
  destruct (add_level1 k k2 p l root _ HP (PX2_half va Hv) Hno HK2 Hp Hpl HL) as (Hk & Hq2).
  destruct (Hlow k2 l p (kp_pt _ _ _ _ _ Hk) Hq2) as (r & k' & l' & E3 & [Hk3 Hn3] & Hr).
  exists r, k', l'. split; [|split; [split; [by apply (kept_trans k k2 k' (p :: l) l)|cbn; lia]|done]].
  revert E. unfold mbind, M_bind. destruct (kalloc k) as [[p' k3]| |]; [|done|done].
  destruct (p' =? 0); [done|]. destruct (zero_page p' k3) as [[[] k4]| |]; [|done|done].
  destruct (st _ _ k4) as [[[] k5]| |]; [|done|done]. intros [= <- <-]. exact E3.
Qed.

(** ** Setting a leaf entry *)

Definition same_page (va va' : Z) : bool := va / PGSIZE =? va' / PGSIZE.

Lemma leaf_same m root va va' : same_page va va' = true -> leaf m root va = leaf m root va'.
Proof.
  intros H%Z.eqb_eq. unfold leaf. by rewrite (PX_same va va' 2), (PX_same va va' 1), (PX_same va va' 0) by (try done; lia).
Qed.

(** [l'] keeps the tree, changes the entries by [f], and keeps other pages. *)
Record set_entries (k k' : kmem) (l : list Z) (root : Z) (f : Z -> option Z) : Prop := {
  se_pt : PT k' l root;
  se_val : forall va, 0 <= va < MAXVA -> pteval (kmemory k') root va =
    match f va with Some v => v | None => pteval (kmemory k) root va end;
  se_table : forall p, is_table (kmemory k') root p <-> is_table (kmemory k) root p;
  se_data : forall d, page end_ d -> ~ is_table (kmemory k) root d -> agree (kmemory k) (kmemory k') d
}.

Lemma set_leaf k l root va a v :
  PT k l root -> 0 <= va < MAXVA -> leaf (kmemory k) root va = Some a -> 0 <= v < 2 ^ 64 ->
  set_entries k (set_mem (st64 (kmemory k) a v) k) l root
    (fun va' => if same_page va' va then Some v else None).
Proof.
  intros HP Hva Hl Hv. pose proof HP as [P1 P2 P3 P4 P5 P6 P7 P8 P9 P10].
  set (m := kmemory k) in *. set (m' := st64 m a v).
  assert (idx (PX 2 va) /\ idx (PX 1 va) /\ idx (PX 0 va)) as (I2 & I1 & I0) by (split_and!; apply PX_range; lia).
  unfold leaf in Hl. destruct (T0 m root (PX 2 va) (PX 1 va)) as [p0|] eqn:E0; [|done]. injection Hl as <-.
  assert (is_table m root p0) as Ht0 by (right; right; eauto 6). destruct (P2 p0 Ht0) as [Hp0 Hn0].
  assert (forall r, page end_ r -> r <> p0 -> agree m m' r) as Hag.
  { intros r Hr N x Hx. unfold m'. apply st64_out.
    destruct (page_apart end_ r p0 Hr Hp0 N); unfold idx, PGSIZE in *; lia. }
  assert (forall i, idx i -> T1 m' root i = T1 m root i) as E1.
  { intros i Hi. apply next_agree; [|done]. apply Hag; [apply P2; by left|]. intros <-.
    by apply (P4 (PX 2 va) (PX 1 va)). }
  assert (forall i j, idx i -> idx j -> T0 m' root i j = T0 m root i j) as E2.
  { intros i j Hi Hj. unfold T0. rewrite E1 by done. destruct (T1 m root i) as [q|] eqn:Eq; [|done].
    apply next_agree; [|done]. apply Hag; [apply P2; right; left; eauto|]. intros ->.
    apply (P5 i (PX 2 va) (PX 1 va)); congruence. }
  assert (forall p, is_table m' root p <-> is_table m root p) as Et.
  { intros p. unfold is_table. split; (intros [->|[(i & Hi & E)|(i & j & Hi & Hj & E)]]; [by left|right; left|right; right]).
    - exists i. by rewrite <- E1.
    - exists i, j. by rewrite <- E2.
    - exists i. by rewrite E1.
    - exists i, j. by rewrite E2. }
  split.
  - split; cbn [kmemory set_mem]; fold m'.
    + apply KInv_client; [done|]. intros x b Hx Hb. apply (Hag x); [|intros ->; done|done].
      eapply chain_pages; [apply P1|done].
    + intros p Hp. by apply P2, Et.
    + intros i Hi. rewrite E1 by done. by apply P3.
    + intros i j Hi Hj. rewrite E2 by done. by apply P4.
    + intros i i' j Hi Hi' Hj. rewrite E1, E2 by done. by apply P5.
    + intros i i' Hi Hi'. rewrite !E1 by done. by apply P6.
    + intros i j i' j' Hi Hj Hi' Hj'. rewrite !E2 by done. by apply P7.
    + intros i Hi. apply (plain_agree m); [|done|by apply P8]. apply Hag; [apply P2; by left|]. intros <-. by apply (P4 (PX 2 va) (PX 1 va)).
    + intros i j q Hi Hj. rewrite E1 by done. intros Eq. apply (plain_agree m); [|done|by apply (P9 i)].
      apply Hag; [apply P2; right; left; eauto|]. intros ->. apply (P5 i (PX 2 va) (PX 1 va)); congruence.
    + intros i Hi. rewrite E1 by (unfold idx; lia). by apply P10.
  - intros va' Hva'. cbn [kmemory set_mem]. cbv beta. fold m'.
    assert (idx (PX 2 va') /\ idx (PX 1 va') /\ idx (PX 0 va')) as (J2 & J1 & J0) by (split_and!; apply PX_range; lia).
    destruct (same_page va' va) eqn:Es.
    + unfold pteval. rewrite (leaf_same m' root va' va Es). unfold leaf. rewrite E2, E0 by done.
      unfold m'. by rewrite ld64_st64.
    + unfold pteval, leaf. rewrite E2 by done. fold m. destruct (T0 m root (PX 2 va') (PX 1 va')) as [q|] eqn:Eq; [|done].
      destruct (Z.eq_dec q p0) as [->|N].
      * unfold m'. rewrite ld64_st64_ne; [done|].
        assert (PX 2 va' = PX 2 va /\ PX 1 va' = PX 1 va) as [K2 K1] by (apply P7; try done; congruence).
        assert (PX 0 va' <> PX 0 va) as K0.
        { intros K0. apply Z.eqb_neq in Es. apply Es. rewrite !PX_page by done. by rewrite K2, K1, K0. }
        lia.
      * apply ld64_ext. intros x Hx. apply (Hag q); [apply P2; right; right; eauto 6|done|].
        unfold idx, PGSIZE in *. lia.
  - done.
  - intros d Hd Hnt. apply Hag; [done|]. intros ->. done.
Qed.

(** ** [mappages] *)

(** The entry [mappages] writes for [va'] when it maps [n] pages from [va] to [pa]. *)
Definition mapped_at (n : nat) (va pa perm va' : Z) : option Z :=
  if (va <=? va') && (va' <? va + Z.of_nat n * PGSIZE)
  then Some (Z.lor (Z.lor (PA2PTE (pa + (va' / PGSIZE - va / PGSIZE) * PGSIZE)) perm) PTE_V)
  else None.

(** The state after mapping [n] pages. *)
Record mapped (k k' : kmem) (l l' : list Z) (root : Z) (n : nat) (va pa perm : Z) : Prop := {
  mp_pt : PT k' l' root;
  mp_val : forall va', 0 <= va' < MAXVA -> pteval (kmemory k') root va' =
    match mapped_at n va pa perm va' with Some v => v | None => pteval (kmemory k) root va' end;
  mp_free : forall x, x ∈ l' -> x ∈ l;
  mp_data : forall d, page end_ d -> d ∉ l -> ~ is_table (kmemory k) root d ->
    agree (kmemory k) (kmemory k') d /\ ~ is_table (kmemory k') root d;
  mp_all : forall x, x ∈ l \/ is_table (kmemory k) root x -> x ∈ l' \/ is_table (kmemory k') root x
}.

Lemma aligned_div va : va mod PGSIZE = 0 -> va = va / PGSIZE * PGSIZE.
Proof. intros H. rewrite (Z.div_mod va PGSIZE) at 1 by done. lia. Qed.

Lemma page_range va x : va mod PGSIZE = 0 -> (va <=? x) && (x <? va + PGSIZE) = same_page x va.
Proof.
  intros H. pose proof (aligned_div va H) as E. pose proof (Z.div_mod x PGSIZE ltac:(done)) as Ex.
  pose proof (Z.mod_pos_bound x PGSIZE ltac:(done)). unfold same_page, PGSIZE in *.
  destruct (Z.leb_spec va x), (Z.ltb_spec x (va + 4096)), (Z.eqb_spec (x / 4096) (va / 4096)); cbn [andb]; try done; lia.
Qed.

Lemma leaf_entry pa perm : pa mod PGSIZE = 0 -> 0 <= pa < 2 ^ 56 -> 0 <= perm < 1024 ->
  let v := Z.lor (Z.lor (PA2PTE pa) perm) PTE_V in
  PTE2PA v = pa /\ (forall i, 0 <= i < 10 -> Z.testbit v i = Z.testbit perm i || (i =? 0)) /\ 0 <= v < 2 ^ 64.
Proof.
  intros Hpa Hpr Hperm. cbv zeta. rewrite <- Z.lor_assoc.
  assert (0 <= Z.lor perm PTE_V) by (apply Z.lor_nonneg; split; [lia|done]).
  assert (0 <= Z.lor perm PTE_V < 1024) as Hr.
  { split; [done|]. destruct (Z.eq_dec (Z.lor perm PTE_V) 0) as [->|N]; [lia|].
    apply Z.log2_lt_cancel. rewrite Z.log2_lor by (try done; lia).
    destruct (Z.eq_dec perm 0) as [->|]; [done|].
    assert (Z.log2 perm < 10) by (apply Z.log2_lt_pow2; lia). change (Z.log2 1024) with 10.
    change (Z.log2 PTE_V) with 0. lia. }
  destruct (pte_fields pa _ Hpa Hpr Hr) as (E1 & E2 & E3). split; [done|]. split; [|done].
  intros i Hi.
  assert (Z.testbit (PTE_FLAGS (Z.lor (PA2PTE pa) (Z.lor perm PTE_V))) i = Z.testbit (Z.lor perm PTE_V) i) as Eb by (by rewrite E2).
  unfold PTE_FLAGS in Eb. change 0x3FF with (Z.ones 10) in Eb. rewrite Z.land_spec, Z.ones_spec_low, andb_true_r in Eb by lia.
  rewrite Eb, Z.lor_spec. done.
Qed.

(** One page, and then [K]. *)
Lemma map_one k l root va pa perm (K : M kmem Z) :
  PT k l root -> 0 <= va < MAXVA -> va mod PGSIZE = 0 -> pa mod PGSIZE = 0 -> 0 <= pa < 2 ^ 56 ->
  0 <= perm < 1024 -> has (pteval (kmemory k) root va) PTE_V = false ->
  exists k' l', let run := (r ← walk root va true;
    match r with
    | None => mret (-1)
    | Some p =>
      pte ← ld p; _ ← panic_if (has pte PTE_V) "mappages: remap";
      _ ← st p (Z.lor (Z.lor (PA2PTE pa) perm) PTE_V); K
    end) k in
    (length l <= length l' + missing (kmemory k) root va)%nat /\
    ((run = K k' /\ mapped k k' l l' root 1 va pa perm) \/ (run = Ret (-1, k') /\ l' = [] /\ kept k k' l l' root)).
Proof.
  intros HP Hva Hal Hpa Hpr Hperm Hnv. destruct (walk_alloc k l root va HP Hva) as (r & k1 & l1 & E & [Hk Hn] & Hr).
  rewrite (M_bind_Ret _ _ _ _ _ E). destruct r as [a|].
  2:{ exists k1, l1. split; [done|]. right. done. }
  unfold ld. rewrite (M_bind_Ret _ _ k1 (ld64 (kmemory k1) a) k1) by done.
  assert (ld64 (kmemory k1) a = pteval (kmemory k) root va) as Ev.
  { rewrite <- (kp_val _ _ _ _ _ Hk). unfold pteval. by rewrite Hr. }
  rewrite Ev, Hnv. rewrite (M_bind_Ret _ _ k1 tt k1) by done.
  set (v := Z.lor (Z.lor (PA2PTE pa) perm) PTE_V).
  assert (0 <= v < 2 ^ 64) as Hv by (apply leaf_entry; done).
  pose proof (set_leaf k1 l1 root va a v (kp_pt _ _ _ _ _ Hk) Hva Hr Hv) as [S1 S2 S3 S4].
  eexists _, l1. split; [done|]. left. split; [done|]. split; [done|..].
  - intros va' Hva'. rewrite S2 by done. unfold mapped_at. change (Z.of_nat 1 * PGSIZE) with PGSIZE.
    rewrite page_range by done. destruct (same_page va' va) eqn:Es; [|by apply (kp_val _ _ _ _ _ Hk)].
    apply Z.eqb_eq in Es. rewrite Es, Z.sub_diag, Z.mul_0_l, Z.add_0_r. done.
  - apply Hk.
  - intros d Hd Hl Ht. destruct (kp_data _ _ _ _ _ Hk d Hd Hl Ht) as [G N]. split; [|by rewrite S3].
    intros x Hx. rewrite (S4 d) by done. by apply G.
  - intros x Hx. apply (kp_all _ _ _ _ _ Hk) in Hx as [Hx|Hx]; [by left|right; by apply S3].
Qed.

Lemma kept_mapped k k' l l' root va pa perm : kept k k' l l' root -> mapped k k' l l' root 0 va pa perm.
Proof.
  intros [A B C D E]. split; try done. intros va' _. rewrite B. unfold mapped_at. change (Z.of_nat 0 * PGSIZE) with 0.
  destruct (Z.leb_spec va va'), (Z.ltb_spec va' (va + 0)); try done; lia.
Qed.

(** A page and then the pages after it. *)
Lemma mapped_cons k k1 k2 l l1 l2 root n va pa perm :
  va mod PGSIZE = 0 -> mapped k k1 l l1 root 1 va pa perm ->
  mapped k1 k2 l1 l2 root n (va + PGSIZE) (pa + PGSIZE) perm -> mapped k k2 l l2 root (S n) va pa perm.
Proof.
  intros Hal [A1 A2 A3 A4 A5] [B1 B2 B3 B4 B5]. split; [done|..| |auto].
  - intros va' Hva'. rewrite B2, A2 by done. pose proof (page_range va va' Hal) as Hp.
    unfold mapped_at. change (Z.of_nat 1 * PGSIZE) with PGSIZE. rewrite Nat2Z.inj_succ.
    pose proof (aligned_div va Hal) as Ea. pose proof (Z.div_mod va' PGSIZE ltac:(done)) as Ex.
    pose proof (Z.mod_pos_bound va' PGSIZE ltac:(done)) as Eb.
    assert ((va + PGSIZE) / PGSIZE = va / PGSIZE + 1) as ->
      by (rewrite <- (Z.mul_1_l PGSIZE) at 1; by rewrite Z.div_add).
    replace (pa + PGSIZE + (va' / PGSIZE - (va / PGSIZE + 1)) * PGSIZE)
      with (pa + (va' / PGSIZE - va / PGSIZE) * PGSIZE) by (unfold PGSIZE; lia).
    unfold PGSIZE in *.
    destruct (Z.leb_spec (va + 4096) va'), (Z.ltb_spec va' (va + 4096 + Z.of_nat n * 4096)),
      (Z.leb_spec va va'), (Z.ltb_spec va' (va + 4096)), (Z.ltb_spec va' (va + Z.succ (Z.of_nat n) * 4096));
      cbn [andb]; try done; lia.
  - auto.
  - intros d Hd Hl Ht. destruct (A4 d Hd Hl Ht) as [G1 N1]. destruct (B4 d Hd) as [G2 N2]; [auto|done|].
    split; [|done]. intros a Ha. by rewrite G2, G1.
Qed.

Definition range_free (m : mem) (root : Z) (n : nat) (va : Z) : Prop :=
  forall va', va <= va' < va + Z.of_nat n * PGSIZE -> has (pteval m root va') PTE_V = false.

(** The pages mapping [S n] pages from [va] on may take for tables: one level 0 table
    for every 2 MB, and a level 1 table for it. *)
Definition new_tables (m : mem) (root : Z) (n : nat) (va : Z) : Z :=
  Z.of_nat (missing m root va) + 2 * ((va + Z.of_nat n * PGSIZE) / 2 ^ 21 - va / 2 ^ 21).

Lemma leaf_chunk m root va va' : 0 <= va -> 0 <= va' -> va / 2 ^ 21 = va' / 2 ^ 21 -> leaf m root va <> None ->
  missing m root va' = 0%nat.
Proof.
  intros H H' E. unfold missing, leaf. rewrite !PX_div by lia. change (12 + 9 * 1) with 21. change (12 + 9 * 2) with (21 + 9).
  rewrite !Z.pow_add_r, <- !Z.div_div, E by lia. by destruct (T0 _ _ _ _).
Qed.

Lemma mapped_tables k k1 l l1 root va pa perm n : 0 <= va -> va + PGSIZE < MAXVA -> va mod PGSIZE = 0 ->
  pa mod PGSIZE = 0 -> 0 <= pa < 2 ^ 56 -> 0 <= perm < 1024 -> mapped k k1 l l1 root 1 va pa perm ->
  new_tables (kmemory k1) root n (va + PGSIZE) + Z.of_nat (missing (kmemory k) root va) <= new_tables (kmemory k) root (S n) va.
Proof.
  intros H0 Hm Hal Hpa Hp Hperm [_ Hv _ _ _]. unfold new_tables. rewrite Nat2Z.inj_succ.
  replace (va + PGSIZE + Z.of_nat n * PGSIZE) with (va + Z.succ (Z.of_nat n) * PGSIZE) by lia.
  assert (Z.of_nat (missing (kmemory k1) root (va + PGSIZE)) <= 2 * ((va + PGSIZE) / 2 ^ 21 - va / 2 ^ 21)); [|lia].
  destruct (Z.eq_dec (va / 2 ^ 21) ((va + PGSIZE) / 2 ^ 21)) as [E|N].
  - rewrite (leaf_chunk _ _ va), E by (try done; unfold PGSIZE in *; try lia; specialize (Hv va ltac:(lia));
      unfold mapped_at in Hv; rewrite page_range in Hv by done; unfold same_page in Hv; rewrite Z.eqb_refl in Hv;
      rewrite Z.sub_diag, Z.add_0_r in Hv; intros El; unfold pteval in Hv; rewrite El in Hv;
      destruct (leaf_entry pa perm Hpa Hp Hperm) as (_ & Hb & _); specialize (Hb 0 ltac:(lia)); rewrite <- Hv in Hb;
      rewrite Z.bits_0, orb_true_r in Hb; done).
    lia.
  - assert (Z.of_nat (missing (kmemory k1) root (va + PGSIZE)) <= 2) by (unfold missing; destruct (leaf _ _ _); lia).
    assert (va / 2 ^ 21 <= (va + PGSIZE) / 2 ^ 21) by (apply Z.div_le_mono; unfold PGSIZE; lia). lia.
Qed.

Lemma tables_enough (l l1 : list Z) m root va n :
  (length l <= length l1 + missing m root va)%nat -> Z.of_nat (length l) <= Z.of_nat (length l1) + new_tables m root n va.
Proof.
  intros H. unfold new_tables. assert (va / 2 ^ 21 <= (va + Z.of_nat n * PGSIZE) / 2 ^ 21); [|lia].
  apply Z.div_le_mono; unfold PGSIZE; lia.
Qed.

Lemma map_loop_tables n : forall k l root va pa perm,
  PT k l root -> 0 <= va -> va + Z.of_nat (S n) * PGSIZE <= MAXVA -> va mod PGSIZE = 0 ->
  pa mod PGSIZE = 0 -> 0 <= pa -> pa + Z.of_nat (S n) * PGSIZE <= 2 ^ 56 -> 0 <= perm < 1024 ->
  range_free (kmemory k) root (S n) va ->
  exists r k' l', map_loop n root va pa perm k = Ret (r, k') /\ 
    Z.of_nat (length l) <= Z.of_nat (length l') + new_tables (kmemory k) root n va /\
    ((r = 0 /\ mapped k k' l l' root (S n) va pa perm) \/
     (r = -1 /\ l' = [] /\ exists j, (j <= n)%nat /\ mapped k k' l l' root j va pa perm)).
Proof.
  induction n as [|n IH]; intros k l root va pa perm HP H0 Hm Hal Hpa Hp0 Hpm Hperm Hfree.
  - destruct (map_one k l root va pa perm (mret 0) HP) as (k1 & l1 & Hn & [(E & Hk)|(E & -> & Hk)]);
      [unfold PGSIZE in *; lia|done|done|unfold PGSIZE in *; lia|done|apply Hfree; unfold PGSIZE; lia|..].
    + exists 0, k1, l1. split; [exact E|]. split; [unfold new_tables; rewrite Z.add_0_r; lia|]. by left.
    + exists (-1), k1, []. split; [exact E|]. split; [by apply tables_enough|]. right. split; [done|]. split; [done|]. exists 0%nat. split; [lia|].
      by apply kept_mapped.
  - destruct (map_one k l root va pa perm (map_loop n root (u64 (va + PGSIZE)) (u64 (pa + PGSIZE)) perm) HP)
      as (k1 & l1 & Hn & [(E & Hk)|(E & -> & Hk)]);
      [unfold PGSIZE in *; lia|done|done|unfold PGSIZE in *; lia|done|apply Hfree; unfold PGSIZE; lia|..].
    2:{ exists (-1), k1, []. split; [exact E|]. split; [by apply tables_enough|]. right. split; [done|]. split; [done|]. exists 0%nat. split; [lia|].
        by apply kept_mapped. }
    cbv zeta in E. cbn [map_loop]. rewrite E. unfold MAXVA in Hm. rewrite Z.shiftl_1_l in Hm.
    unfold u64. rewrite !Z.mod_small by (unfold PGSIZE in *; lia).
    assert (forall x, x mod PGSIZE = 0 -> (x + PGSIZE) mod PGSIZE = 0) as Hnext.
    { intros x Hx. rewrite <- (Z.mul_1_l PGSIZE) at 1. by rewrite Z.mod_add. }
    destruct (IH k1 l1 root (va + PGSIZE) (pa + PGSIZE) perm) as (r & k2 & l2 & E2 & Hn2 & H2);
      [apply Hk|unfold PGSIZE; lia|unfold MAXVA; rewrite Z.shiftl_1_l; unfold PGSIZE in *; lia|by apply Hnext
      |by apply Hnext|unfold PGSIZE; lia|unfold PGSIZE in *; lia|done|..].
    { intros va' Hva'. rewrite (mp_val _ _ _ _ _ _ _ _ _ Hk).
      2:{ unfold MAXVA. rewrite Z.shiftl_1_l. unfold PGSIZE in *. lia. }
      unfold mapped_at. change (Z.of_nat 1 * PGSIZE) with PGSIZE.
      rewrite (proj2 (Z.ltb_ge va' (va + PGSIZE))) by lia. rewrite andb_false_r. apply Hfree. unfold PGSIZE in *. lia. }
    pose proof (mapped_tables k k1 l l1 root va pa perm n H0 ltac:(unfold MAXVA; rewrite Z.shiftl_1_l; unfold PGSIZE in *; lia) Hal Hpa ltac:(unfold PGSIZE in *; lia) Hperm Hk) as Ht.
    exists r, k2, l2. split; [done|]. split; [lia|]. destruct H2 as [(-> & H2)|(-> & -> & j & Hj & H2)].
    + left. split; [done|]. by apply (mapped_cons k k1 k2 l l1).
    + right. split; [done|]. split; [done|]. exists (S j). split; [lia|]. by apply (mapped_cons k k1 k2 l l1).
Qed.

Lemma map_loop_spec n k l root va pa perm :
  PT k l root -> 0 <= va -> va + Z.of_nat (S n) * PGSIZE <= MAXVA -> va mod PGSIZE = 0 ->
  pa mod PGSIZE = 0 -> 0 <= pa -> pa + Z.of_nat (S n) * PGSIZE <= 2 ^ 56 -> 0 <= perm < 1024 ->
  range_free (kmemory k) root (S n) va ->
  exists r k' l', map_loop n root va pa perm k = Ret (r, k') /\ (length l <= length l' + 2 * S n)%nat /\
    ((r = 0 /\ mapped k k' l l' root (S n) va pa perm) \/
     (r = -1 /\ l' = [] /\ exists j, (j <= n)%nat /\ mapped k k' l l' root j va pa perm)).
Proof.
  intros HP H0 Hm Hal Hpa Hp0 Hpm Hperm Hfree.
  destruct (map_loop_tables n k l root va pa perm HP H0 Hm Hal Hpa Hp0 Hpm Hperm Hfree) as (r & k' & l' & E & Hl & HH).
  exists r, k', l'. split; [done|]. split; [|done]. unfold new_tables, PGSIZE in Hl. change (2 ^ 21) with 2097152 in Hl.
  assert (missing (kmemory k) root va <= 2)%nat by (unfold missing; destruct (leaf _ _ _); lia).
  destruct n as [|n]; [rewrite Z.add_0_r in Hl; lia|]. pose proof (Z.div_mod va 2097152 ltac:(done)).
  pose proof (Z.mod_pos_bound va 2097152 ltac:(done)).
  pose proof (Z.div_mod (va + Z.of_nat (S n) * 4096) 2097152 ltac:(done)).
  pose proof (Z.mod_pos_bound (va + Z.of_nat (S n) * 4096) 2097152 ltac:(done)). nia.
Qed.

(** ** Lookups of the clients *)

Lemma walkaddr_spec k root va :
  0 <= va < MAXVA ->
  walkaddr root va k =
  Ret (let e := pteval (kmemory k) root va in if has e PTE_V && has e PTE_U then PTE2PA e else 0, k).
Proof.
  intros Hv. unfold walkaddr. rewrite (proj2 (Z.leb_gt _ _)) by lia.
  rewrite (M_bind_Ret _ _ _ _ _ (walk_found k root va Hv)). unfold pteval.
  destruct (leaf (kmemory k) root va) as [a|]; [|done]. unfold ld.
  rewrite (M_bind_Ret _ _ k (ld64 (kmemory k) a) k) by done.
  by destruct (has _ PTE_V), (has _ PTE_U).
Qed.

Lemma ismapped_spec k root va :
  0 <= va < MAXVA -> ismapped root va k = Ret (has (pteval (kmemory k) root va) PTE_V, k).
Proof.
  intros Hv. unfold ismapped. rewrite (M_bind_Ret _ _ _ _ _ (walk_found k root va Hv)). unfold pteval.
  destruct (leaf (kmemory k) root va) as [a|]; [|done]. done.
Qed.

End Tables.

(** ** Theorems *)

(** C21: [mappages] on a range of pages that has no valid entry.  It returns 0 and
    the entries of the range, and no others, lead to the physical pages from [pa] on
    with the permissions given, or it returns -1 and there is no free page left; then
    the pages mapped are a proper prefix of the range.  Either way the result is
    again a page table, no page that was neither free nor a table is written, and
    [walkaddr] of any address of a mapped user page finds its physical page. *)
Theorem mappages_correct end_ k l root va size pa perm :
  PT end_ k l root -> 0 <= va -> va + size <= MAXVA -> va mod PGSIZE = 0 ->
  0 < size -> size mod PGSIZE = 0 -> 0 <= pa -> pa + size <= 2 ^ 56 -> pa mod PGSIZE = 0 -> 0 <= perm < 1024 ->
  range_free (kmemory k) root (Z.to_nat (size / PGSIZE)) va ->
  exists r k' l' n, mappages root va size pa perm k = Ret (r, k') /\ mapped end_ k k' l l' root n va pa perm /\
    ((r = 0 /\ Z.of_nat n * PGSIZE = size) \/ (r = -1 /\ l' = [] /\ Z.of_nat n * PGSIZE < size)) /\
    forall va', va <= va' < va + Z.of_nat n * PGSIZE -> has perm PTE_U = true ->
      walkaddr root va' k' = Ret (pa + (va' / PGSIZE - va / PGSIZE) * PGSIZE, k').
Proof.
  intros HP H0 Hm Hal Hs Hsa Hp0 Hpm Hpa Hperm Hfree. unfold mappages.
  rewrite Hal, Hsa, (proj2 (Z.eqb_neq size 0)) by lia. cbn [Z.eqb negb].
  rewrite (M_bind_Ret _ _ k tt k), (M_bind_Ret _ _ k tt k), (M_bind_Ret _ _ k tt k) by done.
  pose proof (aligned_div size Hsa) as Es. assert (0 < size / PGSIZE) as Hq by (unfold PGSIZE in *; lia).
  set (n := Z.to_nat (size / PGSIZE - 1)). replace (Z.to_nat (size / PGSIZE)) with (S n) in Hfree by lia.
  assert (Z.of_nat (S n) * PGSIZE = size) as En by (unfold n; unfold PGSIZE in *; lia).
  destruct (map_loop_spec end_ n k l root va pa perm HP H0 ltac:(lia) Hal Hpa Hp0 ltac:(lia) Hperm Hfree)
    as (r & k' & l' & E & _ & Hr).
  assert (forall j, (j <= S n)%nat -> mapped end_ k k' l l' root j va pa perm ->
    forall va', va <= va' < va + Z.of_nat j * PGSIZE -> has perm PTE_U = true ->
    walkaddr root va' k' = Ret (pa + (va' / PGSIZE - va / PGSIZE) * PGSIZE, k')) as Hw.
  { intros j Hj Hk va' Hva' Hu. assert (0 <= va' < MAXVA) as Hv by (unfold PGSIZE in *; lia).
    rewrite walkaddr_spec by done. cbv zeta. rewrite (mp_val _ _ _ _ _ _ _ _ _ _ Hk) by done.
    unfold mapped_at. rewrite (proj2 (Z.leb_le _ _)), (proj2 (Z.ltb_lt _ _)) by lia. cbn [andb].
    set (pa' := pa + (va' / PGSIZE - va / PGSIZE) * PGSIZE).
    pose proof (aligned_div va Hal) as Ea. pose proof (Z.div_mod va' PGSIZE ltac:(done)).
    pose proof (Z.mod_pos_bound va' PGSIZE ltac:(done)).
    destruct (leaf_entry pa' perm) as (E1 & E2 & _);
      [unfold pa'; by rewrite Z.mod_add|unfold pa', PGSIZE in *; lia|done|].
    unfold PTE_U in *. rewrite has_testbit in Hu by lia. set (e := Z.lor _ PTE_V) in *. unfold PTE_V.
    rewrite !has_testbit, !E2, E1, Hu by lia. by rewrite orb_true_r. }
  destruct Hr as [(-> & Hk)|(-> & -> & j & Hj & Hk)].
  - exists 0, k', l', (S n). split; [exact E|]. split; [done|]. split; [by left|]. by apply Hw.
  - exists (-1), k', [], j. split; [exact E|]. split; [done|]. split; [right; unfold PGSIZE in *; split; [done|split; [done|lia]]|].
    apply Hw; [lia|done].
Qed.

(** The panics of [mappages]: a virtual address or a size that is not a multiple
    of the page size, size 0, and a first page that is already mapped. *)
Theorem mappages_panics k root va size pa perm :
  (va mod PGSIZE <> 0 -> mappages root va size pa perm k = Panic "mappages: va not aligned") /\
  (va mod PGSIZE = 0 -> size mod PGSIZE <> 0 -> mappages root va size pa perm k = Panic "mappages: size not aligned") /\
  (va mod PGSIZE = 0 -> size = 0 -> mappages root va size pa perm k = Panic "mappages: size") /\
  (forall end_ l, PT end_ k l root -> 0 <= va < MAXVA -> va mod PGSIZE = 0 -> size mod PGSIZE = 0 -> size <> 0 ->
    has (pteval (kmemory k) root va) PTE_V = true ->
    mappages root va size pa perm k = Panic "mappages: remap").
Proof.
  unfold mappages. split; [|split; [|split]].
  - intros H. by rewrite (proj2 (Z.eqb_neq _ _) H).
  - intros H1 H2. rewrite (proj2 (Z.eqb_eq _ _) H1), (proj2 (Z.eqb_neq _ _) H2). done.
  - intros H1 ->. by rewrite (proj2 (Z.eqb_eq _ _) H1).
  - intros end_ l HP Hva H1 H2 H3 Hv.
    rewrite (proj2 (Z.eqb_eq _ _) H1), (proj2 (Z.eqb_eq _ _) H2), (proj2 (Z.eqb_neq _ _) H3). cbn [negb].
    rewrite (M_bind_Ret _ _ k tt k), (M_bind_Ret _ _ k tt k), (M_bind_Ret _ _ k tt k) by done.
    assert (walk root va true k = Ret (leaf (kmemory k) root va, k)) as Ew.
    { unfold pteval in Hv. destruct (leaf (kmemory k) root va) as [a|] eqn:Ea; [|done]. by apply walk_present. }
    assert (exists a, leaf (kmemory k) root va = Some a /\ ld64 (kmemory k) a = pteval (kmemory k) root va) as (a & Ea & El).
    { unfold pteval in *. destruct (leaf (kmemory k) root va) as [a|]; [by exists a|done]. }
    rewrite Ea in Ew.
    destruct (Z.to_nat (size / PGSIZE - 1)); cbn [map_loop]; rewrite (M_bind_Ret _ _ _ _ _ Ew); unfold ld;
      rewrite (M_bind_Ret _ _ k (ld64 (kmemory k) a) k) by done; by rewrite El, Hv.
Qed.
