(* ===== verification/VmUser.v ===== *)
(** * User memory through page tables

    What the clients of page tables see: [walkaddr] after [mappages], [uvmunmap]
    returning the pages of a range, and [copyout] and [copyin] moving bytes between
    the kernel and the pages of a process. *)

From S2P Require Import Prelude Riscv CString Kalloc Vm VmMap.

Section User.
Context (end_ : Z).

(** ** Memory that is not a table *)

(** A change of memory outside the tables keeps the page table. *)
Lemma PT_agree k k' l l' root :
  PT end_ k l root -> KInv end_ k' l' ->
  (forall p, is_table (kmemory k) root p -> agree (kmemory k) (kmemory k') p /\ p ∉ l') ->
  PT end_ k' l' root /\ (forall va, pteval (kmemory k') root va = pteval (kmemory k) root va) /\
  (forall p, is_table (kmemory k') root p <-> is_table (kmemory k) root p).
Proof.
  intros [P1 P2 P3 P4 P5 P6 P7 P8 P9 P10] HK Hag. set (m := kmemory k) in *. set (m' := kmemory k') in *.
  assert (forall i, idx i -> T1 m' root i = T1 m root i) as E1.
  { intros i Hi. apply next_agree; [|done]. apply Hag. by left. }
  assert (forall i j, idx i -> idx j -> T0 m' root i j = T0 m root i j) as E0.
  { intros i j Hi Hj. unfold T0. rewrite E1 by done. destruct (T1 m root i) as [q|] eqn:Eq; [|done].
    apply next_agree; [|done]. apply Hag. right. left. eauto. }
  assert (forall p, is_table m' root p <-> is_table m root p) as Et.
  { intros p. unfold is_table. split; (intros [->|[(i & Hi & E)|(i & j & Hi & Hj & E)]]; [by left|right; left|right; right]).
    - exists i. by rewrite <- E1.
    - exists i, j. by rewrite <- E0.
    - exists i. by rewrite E1.
    - exists i, j. by rewrite E0. }
  split; [|split; [|done]].
  - split; [done|..]; fold m'.
    + intros p Hp%Et. split; [by apply P2|by apply Hag].
    + intros i Hi. rewrite E1 by done. by apply P3.
    + intros i j Hi Hj. rewrite E0 by done. by apply P4.
    + intros i i' j Hi Hi' Hj. rewrite E1, E0 by done. by apply P5.
    + intros i i' Hi Hi'. rewrite !E1 by done. by apply P6.
    + intros i j i' j' Hi Hj Hi' Hj'. rewrite !E0 by done. by apply P7.
    + intros i Hi. apply (plain_agree m); [apply Hag; by left|done|by apply P8].
    + intros i j q Hi Hj. rewrite E1 by done. intros Eq. apply (plain_agree m); [apply Hag; right; left; eauto|done|by apply (P9 i)].
    + intros i Hi. rewrite E1 by (unfold idx; lia). by apply P10.
  - intros va. unfold pteval, leaf. rewrite E0 by (by apply PX_idx).
    destruct (T0 m root (PX 2 va) (PX 1 va)) as [q|] eqn:Eq; [|done]. apply ld64_ext. intros x Hx.
    apply (Hag q).
    + right. right. exists (PX 2 va), (PX 1 va). split; [by apply PX_idx|]. split; [by apply PX_idx|done].
    + pose proof (PX_range 0 va ltac:(lia)). unfold PGSIZE. lia.
Qed.

(** ** [uvmunmap] *)

(** The pages of the valid entries of [n] pages from [va]. *)
Fixpoint upages (m : mem) (root va : Z) (n : nat) : list Z :=
  match n with
  | O => []
  | S n' =>
    let e := pteval m root va in
    (if has e PTE_V then [PTE2PA e] else []) ++ upages m root (va + PGSIZE) n'
  end.

(** The state after unmapping [n] pages from [va]: the tables stay, entries that
    were valid are 0, and no page that is not freed is written. *)
Record unmapped (k k' : kmem) (l' : list Z) (root va : Z) (n : nat) (freed : list Z) : Prop := {
  um_pt : PT end_ k' l' root;
  um_val : forall va', 0 <= va' < MAXVA -> pteval (kmemory k') root va' =
    if (va <=? va') && (va' <? va + Z.of_nat n * PGSIZE) && has (pteval (kmemory k) root va') PTE_V then 0
    else pteval (kmemory k) root va';
  um_table : forall p, is_table (kmemory k') root p <-> is_table (kmemory k) root p;
  um_data : forall d, page end_ d -> d ∉ freed -> ~ is_table (kmemory k) root d ->
    agree (kmemory k) (kmemory k') d
}.

(** The page [d] can be freed. *)
Definition data_page (k : kmem) (l : list Z) (root d : Z) : Prop :=
  page end_ d /\ d ∉ l /\ ~ is_table (kmemory k) root d.

Lemma free_data k l root d :
  PT end_ k l root -> data_page k l root d ->
  exists k', kfree end_ d k = Ret (tt, k') /\ PT end_ k' (d :: l) root /\
    (forall va, pteval (kmemory k') root va = pteval (kmemory k) root va) /\
    (forall va, leaf (kmemory k') root va = leaf (kmemory k) root va) /\
    (forall p, is_table (kmemory k') root p <-> is_table (kmemory k) root p) /\
    (forall p, page end_ p -> p <> d -> agree (kmemory k) (kmemory k') p).
Proof.
  intros HP (Hd & Hn & Ht). destruct (kfree_spec end_ k l d (pt_k _ _ _ _ HP) Hd Hn) as (k' & E & HK & Hm).
  assert (forall p, page end_ p -> p <> d -> agree (kmemory k) (kmemory k') p) as Hag.
  { intros p Hp N x Hx. apply Hm. destruct (page_apart end_ p d Hp Hd N); lia. }
  assert (forall p, is_table (kmemory k) root p -> agree (kmemory k) (kmemory k') p /\ p ∉ d :: l) as Htab.
  { intros p Hp. destruct (pt_table _ _ _ _ HP p Hp) as [Hpp Hpn]. assert (p <> d) by (intros ->; done).
    split; [by apply Hag|]. apply not_elem_of_cons. done. }
  destruct (PT_agree k k' l (d :: l) root HP HK Htab) as (A & B & C).
  exists k'. split; [done|]. split; [done|]. split; [done|]. split; [|done].
  intros va. unfold leaf. assert (T0 (kmemory k') root (PX 2 va) (PX 1 va) = T0 (kmemory k) root (PX 2 va) (PX 1 va)) as ->; [|done].
  unfold T0, T1. rewrite (next_agree (kmemory k) (kmemory k')); [|apply Htab; by left|by apply PX_idx].
  destruct (next (kmemory k) root (PX 2 va)) as [q|] eqn:Eq; [|done]. apply next_agree; [|by apply PX_idx].
  apply Htab. right. left. exists (PX 2 va). split; [by apply PX_idx|done].
Qed.

Lemma unmapped_trans k k1 k2 l1 l2 root va n f1 f2 :
  va mod PGSIZE = 0 -> unmapped k k1 l1 root va 1 f1 -> unmapped k1 k2 l2 root (va + PGSIZE) n f2 ->
  unmapped k k2 l2 root va (S n) (f1 ++ f2).
Proof.
  intros Hal [A1 A2 A3 A4] [B1 B2 B3 B4]. split; [done|..].
  - intros va' Hva'. rewrite B2, A2 by done. change (Z.of_nat 1) with 1. rewrite Nat2Z.inj_succ. unfold PGSIZE.
    destruct (Z.leb_spec (va + 4096) va'), (Z.ltb_spec va' (va + 4096 + Z.of_nat n * 4096)),
      (Z.leb_spec va va'), (Z.ltb_spec va' (va + 1 * 4096)), (Z.ltb_spec va' (va + Z.succ (Z.of_nat n) * 4096)),
      (has (pteval (kmemory k) root va') PTE_V) eqn:Eh; cbn [andb]; try done; try lia; by rewrite ?Eh.
  - intros p. by rewrite B3, A3.
  - intros d Hd Hn Ht. rewrite elem_of_app in Hn. intros a Ha.
    rewrite (B4 d), (A4 d); try done; [tauto|tauto|]. by rewrite A3.
Qed.

Lemma unmap_one k l root va do_free :
  PT end_ k l root -> 0 <= va < MAXVA -> va mod PGSIZE = 0 ->
  let e := pteval (kmemory k) root va in
  let f := if do_free && has e PTE_V then [PTE2PA e] else [] in
  Forall (data_page k l root) f ->
  exists k', (r ← walk root va false;
    match r with
    | None => mret tt
    | Some p =>
      pte ← ld p;
      if negb (has pte PTE_V) then mret tt
      else _ ← (if do_free then kfree end_ (PTE2PA pte) else mret tt); st p 0
    end) k = Ret (tt, k') /\ unmapped k k' (f ++ l) root va 1 f.
Proof.
  intros HP Hva Hal e f Hf. rewrite (M_bind_Ret _ _ _ _ _ (walk_found k root va Hva)).
  assert (has e PTE_V = false -> unmapped k k l root va 1 []) as Hsame.
  { intros Hv. split; try done. intros va' Hva'. change (Z.of_nat 1 * PGSIZE) with PGSIZE. rewrite page_range by done.
    destruct (same_page va' va) eqn:Es; [|done]. unfold pteval. rewrite (leaf_same _ _ _ _ Es).
    fold (pteval (kmemory k) root va). fold e. by rewrite Hv. }
  destruct (leaf (kmemory k) root va) as [a|] eqn:Ea.
  2:{ exists k. split; [done|]. assert (e = 0) as He by (unfold e, pteval; by rewrite Ea).
      unfold f. rewrite He, andb_false_r. apply Hsame. by rewrite He. }
  assert (ld64 (kmemory k) a = e) as El by (unfold e, pteval; by rewrite Ea).
  unfold ld. rewrite (M_bind_Ret _ _ k (ld64 (kmemory k) a) k) by done. rewrite El.
  destruct (has e PTE_V) eqn:Eh; cbn [negb].
  2:{ exists k. split; [done|]. unfold f. rewrite andb_false_r. by apply Hsame. }
  unfold f in *. rewrite andb_true_r in *. clear f Hsame.
  assert (exists k1, (if do_free then kfree end_ (PTE2PA e) else mret tt) k = Ret (tt, k1) /\
    PT end_ k1 ((if do_free then [PTE2PA e] else []) ++ l) root /\
    (forall va, pteval (kmemory k1) root va = pteval (kmemory k) root va) /\
    leaf (kmemory k1) root va = Some a /\
    (forall p, is_table (kmemory k1) root p <-> is_table (kmemory k) root p) /\
    (forall p, page end_ p -> p ∉ (if do_free then [PTE2PA e] else []) -> agree (kmemory k) (kmemory k1) p))
    as (k1 & E1 & HP1 & Hv1 & Ha1 & Ht1 & Hg1).
  { destruct do_free.
    - apply list.Forall_cons in Hf as [Hf _]. destruct (free_data k l root _ HP Hf) as (k1 & E1 & HP1 & X1 & X2 & X3 & X4).
      exists k1. split; [done|]. split; [done|]. split; [done|]. split; [by rewrite X2|]. split; [done|].
      intros p Hp Hn. apply X4; [done|]. intros ->. by apply Hn, list_elem_of_singleton.
    - by exists k. }
  rewrite (M_bind_Ret _ _ _ _ _ E1). eexists. split; [done|].
  destruct (set_leaf end_ k1 _ root va a 0 HP1 Hva Ha1 ltac:(lia)) as [S1 S2 S3 S4].
  split; [done|..].
  - intros va' Hva'. rewrite S2 by done. change (Z.of_nat 1 * PGSIZE) with PGSIZE. rewrite page_range by done.
    destruct (same_page va' va) eqn:Es; cbn [andb]; [|by rewrite Hv1].
    unfold pteval. rewrite (leaf_same _ _ _ _ Es). fold (pteval (kmemory k) root va). fold e. by rewrite Eh.
  - intros p. by rewrite S3, Ht1.
  - intros d Hd Hn Ht x Hx. rewrite (S4 d); [by apply (Hg1 d)|done|by rewrite Ht1|done].
Qed.

Lemma upages_ext m m' root n : forall va,
  (forall va', va <= va' < va + Z.of_nat n * PGSIZE -> pteval m' root va' = pteval m root va') ->
  upages m' root va n = upages m root va n.
Proof.
  induction n as [|n IH]; intros va H; cbn [upages]; [done|].
  rewrite H, IH; [done|..]; intros; try apply H; unfold PGSIZE in *; lia.
Qed.

Lemma unmap_loop_spec do_free n : forall k l root va,
  PT end_ k l root -> 0 <= va -> va + Z.of_nat n * PGSIZE <= MAXVA -> va mod PGSIZE = 0 ->
  let f := if (do_free : bool) then upages (kmemory k) root va n else [] in
  Forall (data_page k l root) f -> NoDup f ->
  exists k', unmap_loop end_ n root va do_free k = Ret (tt, k') /\ unmapped k k' (rev f ++ l) root va n f.
Proof.
  induction n as [|n IH]; intros k l root va HP H0 Hm Hal f Hf Hnd.
  - exists k. assert (f = []) as -> by (unfold f; by destruct do_free). split; [done|]. split; try done.
    intros va' _. destruct (Z.leb_spec va va'), (Z.ltb_spec va' (va + Z.of_nat 0 * PGSIZE)); try done; lia.
  - set (e := pteval (kmemory k) root va). set (f1 := if do_free && has e PTE_V then [PTE2PA e] else []).
    set (f2 := if do_free then upages (kmemory k) root (va + PGSIZE) n else []).
    assert (f = f1 ++ f2) as Ef.
    { unfold f, f1, f2. destruct do_free; [|done]. cbn [upages andb]. fold e. done. }
    rewrite Ef in *. apply Forall_app in Hf as [Hf1 Hf2]. apply list.NoDup_app in Hnd as (Hd1 & Hd12 & Hd2).
    destruct (unmap_one k l root va do_free HP) as (k1 & E1 & U1); [unfold PGSIZE in *; lia|done|done|].
    fold e f1 in U1. cbn [unmap_loop].
    assert (f2 = if do_free then upages (kmemory k1) root (va + PGSIZE) n else []) as Ef2.
    { unfold f2. destruct do_free; [|done]. symmetry. apply upages_ext. intros va' Hva'.
      rewrite (um_val _ _ _ _ _ _ _ U1) by (unfold PGSIZE in *; lia).
      destruct (Z.ltb_spec va' (va + Z.of_nat 1 * PGSIZE)); [unfold PGSIZE in *; lia|]. by rewrite andb_false_r. }
    destruct (IH k1 (f1 ++ l) root (va + PGSIZE)) as (k2 & E2 & U2);
      [apply U1|unfold PGSIZE; lia|unfold PGSIZE in *; lia| | | |].
    + rewrite <- (Z.mul_1_l PGSIZE) at 1. by rewrite Z.mod_add.
    + rewrite <- Ef2. apply list.Forall_forall. intros d Hd.
      pose proof (proj1 (list.Forall_forall _ _) Hf2 d Hd) as (X1 & X2 & X3). split; [done|]. split.
      * rewrite elem_of_app. intros [Hx|Hx]; [by apply (Hd12 d)|done].
      * by rewrite (um_table _ _ _ _ _ _ _ U1).
    + by rewrite <- Ef2.
    + exists k2. rewrite <- Ef2 in U2. split; [|].
      * revert E1 E2. unfold mbind, M_bind. destruct (walk root va false k) as [[r k3]| |]; try done.
        destruct r as [p|]; [|by intros [= ->]].
        destruct (ld p k3) as [[pte k4]| |]; try done. by intros -> ->.
      * rewrite rev_app_distr, <- app_assoc.
        assert (rev f1 = f1) as -> by (unfold f1; by destruct (do_free && has e PTE_V)).
        by apply (unmapped_trans k k1 k2 (f1 ++ l)).
Qed.

(** ** Bytes of user memory *)

(** The physical address of [va]. *)
Definition phys (m : mem) (root va : Z) : Z := PTE2PA (pteval m root va) + va mod PGSIZE.

(** The [len] bytes from [va] are in pages of the process, writable if [w]. *)
Record user_range (k : kmem) (l : list Z) (root : Z) (w : bool) (va len : Z) : Prop := {
  ur_va : 0 <= va /\ va + len <= MAXVA;
  ur_flags : forall v, va <= v < va + len -> let e := pteval (kmemory k) root v in
    has e PTE_V = true /\ has e PTE_U = true /\ (w = true -> has e PTE_W = true) /\ data_page k l root (PTE2PA e);
  ur_inj : forall v v', va <= v < va + len -> va <= v' < va + len ->
    PTE2PA (pteval (kmemory k) root v) = PTE2PA (pteval (kmemory k) root v') -> same_page v v' = true
}.

Lemma page_base va : 0 <= va < MAXVA ->
  let va0 := PGROUNDDOWN va in 0 <= va0 < MAXVA /\ same_page va0 va = true /\ va = va0 + va mod PGSIZE.
Proof.
  intros Hv. cbv zeta. rewrite PGROUNDDOWN_spec. pose proof (Z.mod_pos_bound va PGSIZE ltac:(done)) as Hb.
  pose proof (Z.div_mod va PGSIZE ltac:(done)) as Hd. assert (0 <= va / PGSIZE) by (apply Z.div_pos; [lia|done]).
  split; [unfold PGSIZE in *; lia|]. split; [|lia]. unfold same_page. apply Z.eqb_eq.
  replace (va - va mod PGSIZE) with (va / PGSIZE * PGSIZE) by lia. by apply Z.div_mul.
Qed.

Lemma pteval_same m root va va' : same_page va va' = true -> pteval m root va = pteval m root va'.
Proof. intros H. unfold pteval. by rewrite (leaf_same m root va va' H). Qed.

Lemma same_page_add va i : 0 <= i -> va mod PGSIZE + i < PGSIZE ->
  same_page (va + i) va = true /\ (va + i) mod PGSIZE = va mod PGSIZE + i.
Proof.
  intros Hi Hl. pose proof (Z.mod_pos_bound va PGSIZE ltac:(done)) as Hb.
  pose proof (Z.div_mod va PGSIZE ltac:(done)) as Hd.
  assert (va + i = (va mod PGSIZE + i) + va / PGSIZE * PGSIZE) as E by lia.
  unfold same_page. rewrite Z.eqb_eq. rewrite E at 1 2. rewrite Z.div_add, Z.mod_add by done.
  rewrite Z.div_small, Z.mod_small by lia. split; lia.
Qed.

Lemma phys_add m root va i : 0 <= i -> va mod PGSIZE + i < PGSIZE ->
  phys m root (va + i) = PTE2PA (pteval m root va) + va mod PGSIZE + i.
Proof.
  intros Hi Hl. destruct (same_page_add va i Hi Hl) as [H1 H2]. unfold phys.
  rewrite H2, (pteval_same m root _ _ H1). lia.
Qed.

(** The page of a mapped address is the one [copyout] and [copyin] use. *)
Lemma user_page_mapped ppt psz k l root w va len :
  user_range k l root w va len -> 0 < len ->
  user_page end_ ppt psz root (PGROUNDDOWN va) k = Ret (PTE2PA (pteval (kmemory k) root va), k) /\
  0 < PTE2PA (pteval (kmemory k) root va).
Proof.
  intros [H1 H2 _] Hl. destruct (page_base va ltac:(lia)) as (B1 & B2 & B3).
  destruct (H2 va ltac:(lia)) as (F1 & F2 & _ & ((_ & _ & F3) & _)).
  unfold user_page. rewrite (M_bind_Ret _ _ _ _ _ (walkaddr_spec k root _ B1)).
  rewrite (pteval_same _ _ _ _ B2). cbv zeta. rewrite F1, F2. cbn [andb].
  rewrite (proj2 (Z.eqb_neq _ 0)) by lia. done.
Qed.

(** The rest of the range after the first page. *)
Lemma user_range_tail k l root w va len n :
  user_range k l root w va len -> 0 <= n <= len -> user_range k l root w (va + n) (len - n).
Proof.
  intros [H1 H2 H3] Hn. split; [lia|..].
  - intros v Hv. apply H2. lia.
  - intros v v' Hv Hv'. apply H3; lia.
Qed.

(** Writing to data pages keeps tables, free pages and ranges. *)
Lemma write_data k l root w va len m' :
  PT end_ k l root -> user_range k l root w va len ->
  (forall x, (forall v, va <= v < va + len -> x <> phys (kmemory k) root v) -> m' x = kmemory k x) ->
  let k' := set_mem m' k in
  PT end_ k' l root /\ (forall v, pteval (kmemory k') root v = pteval (kmemory k) root v) /\
  user_range k' l root w va len.
Proof.
  intros HP [H1 H2 H3] Hm k'.
  assert (forall p, page end_ p -> (is_table (kmemory k) root p \/ p ∈ l) -> agree (kmemory k) m' p) as Hag.
  { intros p Hp Hor x Hx. apply Hm. intros v Hv ->.
    destruct (H2 v Hv) as (_ & _ & _ & (D1 & D2 & D3)).
    pose proof (Z.mod_pos_bound v PGSIZE ltac:(done)). unfold phys in Hx.
    destruct (Z.eq_dec p (PTE2PA (pteval (kmemory k) root v))) as [->|N]; [destruct Hor; done|].
    destruct (page_apart end_ _ _ Hp D1 N); lia. }
  assert (KInv end_ k' l) as HK.
  { apply KInv_client; [apply HP|]. intros x a Hx Ha. apply (Hag x); [|by right|done].
    eapply chain_pages; [apply (pt_k _ _ _ _ HP)|done]. }
  destruct (PT_agree k k' l l root HP HK) as (A & B & C).
  { intros p Hp. destruct (pt_table _ _ _ _ HP p Hp). split; [|done]. apply Hag; [done|by left]. }
  split; [done|]. split; [done|]. split; [done|..].
  - intros v Hv. rewrite B. destruct (H2 v Hv) as (F1 & F2 & F3 & (D1 & D2 & D3)).
    cbv zeta. split; [done|]. split; [done|]. split; [done|]. split; [done|]. split; [done|]. by rewrite C.
  - intros v v' Hv Hv'. rewrite !B. by apply H3.
Qed.

(** [src] is at the virtual address [va], and nothing else of memory changed. *)
Definition copied (m m' : mem) (root va : Z) (src : list Z) : Prop :=
  (forall i b, src !! i = Some b -> m' (phys m root (va + Z.of_nat i)) = b) /\
  (forall x, (forall i, (i < length src)%nat -> x <> phys m root (va + Z.of_nat i)) -> m' x = m x).

(** Addresses of a range are apart. *)
Lemma phys_inj k l root w va len v v' :
  user_range k l root w va len -> va <= v < va + len -> va <= v' < va + len ->
  phys (kmemory k) root v = phys (kmemory k) root v' -> v = v'.
Proof.
  intros [H1 H2 H3] Hv Hv' E. destruct (H2 v Hv) as (_ & _ & _ & (D & _)), (H2 v' Hv') as (_ & _ & _ & (D' & _)).
  pose proof (Z.mod_pos_bound v PGSIZE ltac:(done)). pose proof (Z.mod_pos_bound v' PGSIZE ltac:(done)). unfold phys in E.
  destruct (Z.eq_dec (PTE2PA (pteval (kmemory k) root v)) (PTE2PA (pteval (kmemory k) root v'))) as [Ep|N].
  - specialize (H3 v v' Hv Hv' Ep). apply Z.eqb_eq in H3.
    rewrite (Z.div_mod v PGSIZE), (Z.div_mod v' PGSIZE) by done. rewrite H3. lia.
  - destruct (page_apart end_ _ _ D D' N); lia.
Qed.

(** One page of [copyout]. *)
Lemma write_page k l root w va src n :
  PT end_ k l root -> user_range k l root w va (Z.of_nat (length src)) ->
  n = Z.to_nat (Z.min (PGSIZE - va mod PGSIZE) (Z.of_nat (length src))) ->
  exists m', write_bytes (PTE2PA (pteval (kmemory k) root va) + va mod PGSIZE) (take n src) k = Ret (tt, set_mem m' k) /\
    copied (kmemory k) m' root va (take n src).
Proof.
  intros HP HU ->. set (n := Z.to_nat _). pose proof (Z.mod_pos_bound va PGSIZE ltac:(done)) as Hb.
  set (a := PTE2PA (pteval (kmemory k) root va) + va mod PGSIZE).
  assert (forall i, (i < n)%nat -> phys (kmemory k) root (va + Z.of_nat i) = a + Z.of_nat i) as Hph.
  { intros i Hi. unfold a. apply phys_add; unfold n in Hi; lia. }
  assert (length (take n src) = n) as Hlen by (rewrite length_take; unfold n; lia).
  eexists. split; [done|]. rewrite Hlen. split.
  - intros i b Hi. assert (i < n)%nat as Hin by (apply lookup_lt_Some in Hi; lia).
    rewrite Hph by done. rewrite (proj2 (Z.leb_le _ _)), (proj2 (Z.ltb_lt _ _)) by lia. cbn [andb].
    replace (Z.to_nat (a + Z.of_nat i - a)) with i by lia. by apply nth_lookup_Some.
  - intros x Hx. rewrite Hlen in Hx. destruct (Z.leb_spec a x), (Z.ltb_spec x (a + Z.of_nat n)); cbn [andb]; try done.
    exfalso. apply (Hx (Z.to_nat (x - a))); [lia|]. rewrite Hph by lia. lia.
Qed.

Lemma copied_join m m1 m2 root va s1 s2 :
  (forall v, pteval m1 root v = pteval m root v) ->
  (forall i j, (i < length s1)%nat -> (j < length s2)%nat ->
    phys m root (va + Z.of_nat i) <> phys m root (va + Z.of_nat (length s1) + Z.of_nat j)) ->
  copied m m1 root va s1 -> copied m1 m2 root (va + Z.of_nat (length s1)) s2 -> copied m m2 root va (s1 ++ s2).
Proof.
  intros Hv Hne [A1 A2] [B1 B2].
  assert (forall v, phys m1 root v = phys m root v) as Hp by (intros v; unfold phys; by rewrite Hv).
  split.
  - intros i b [Hi|[Hl Hi]]%lookup_app_Some.
    + rewrite B2; [by apply A1|]. intros j Hj. rewrite Hp. apply Hne; [|done]. by apply lookup_lt_Some in Hi.
    + replace (va + Z.of_nat i) with (va + Z.of_nat (length s1) + Z.of_nat (i - length s1)) by lia.
      rewrite <- Hp. by apply B1.
  - intros x Hx. rewrite length_app in Hx. rewrite B2, A2; [done|..].
    + intros i Hi. apply Hx. lia.
    + intros i Hi. rewrite Hp. replace (va + Z.of_nat (length s1) + Z.of_nat i) with (va + Z.of_nat (length s1 + i)) by lia.
      apply Hx. lia.
Qed.

Lemma copied_range k l root w va src m' :
  PT end_ k l root -> user_range k l root w va (Z.of_nat (length src)) -> forall n,
  copied (kmemory k) m' root va (take n src) ->
  let k' := set_mem m' k in
  PT end_ k' l root /\ (forall v, pteval (kmemory k') root v = pteval (kmemory k) root v) /\
  user_range k' l root w va (Z.of_nat (length src)).
Proof.
  intros HP HU n [_ Hc]. apply write_data; [done|done|]. intros x Hx. apply Hc. intros i Hi. apply Hx.
  rewrite length_take in Hi. lia.
Qed.

(** A range that ends with its page is taken page by page. *)
Lemma whole_pages va a b n : 0 < Z.of_nat a ->
  n = Z.to_nat (Z.min (PGSIZE - va mod PGSIZE) (Z.of_nat a)) -> (va + Z.of_nat a) mod PGSIZE = 0 ->
  Z.to_nat (Z.min (PGSIZE - va mod PGSIZE) (Z.of_nat (a + b))) = n /\ PGROUNDDOWN va + PGSIZE = va + Z.of_nat n.
Proof.
  intros Ha -> Hm. pose proof (Z.mod_pos_bound va PGSIZE ltac:(done)) as Hb. rewrite PGROUNDDOWN_spec.
  assert (PGSIZE - va mod PGSIZE <= Z.of_nat a) as Hle; [|lia].
  destruct (Z.le_gt_cases (PGSIZE - va mod PGSIZE) (Z.of_nat a)) as [|Hlt]; [done|exfalso].
  destruct (same_page_add va (Z.of_nat a)) as [_ E]; lia.
Qed.

(** The whole pages of [src] go through; the loop is then at [rest], which starts a
    page, with what it wrote behind it. *)
Lemma copyout_loop_prefix ppt psz root rest fuel0 : forall k l va src,
  (length (src ++ rest) <= fuel0)%nat -> PT end_ k l root -> user_range k l root true va (Z.of_nat (length src)) ->
  (rest = [] \/ (va + Z.of_nat (length src)) mod PGSIZE = 0) ->
  exists m' fuel', copyout_loop end_ fuel0 ppt psz root va (src ++ rest) k =
      copyout_loop end_ fuel' ppt psz root (va + Z.of_nat (length src)) rest (set_mem m' k) /\
    (length rest <= fuel')%nat /\ copied (kmemory k) m' root va src.
Proof.
  assert (forall k fuel va, (length rest <= fuel)%nat -> exists m' fuel',
    copyout_loop end_ fuel ppt psz root va ([] ++ rest) k =
      copyout_loop end_ fuel' ppt psz root (va + Z.of_nat (length (@nil Z))) rest (set_mem m' k) /\
    (length rest <= fuel')%nat /\ copied (kmemory k) m' root va []) as Hnil.
  { intros k fuel va Hf. exists (kmemory k), fuel. cbn [app length Z.of_nat]. rewrite Z.add_0_r. split; [by destruct k|].
    split; [done|]. split; [|done]. intros i b H. done. }
  induction fuel0 as [|fuel IH]; intros k l va src Hf HP HU Hal.
  { rewrite length_app in Hf. destruct src; [|cbn in Hf; lia]. apply Hnil. lia. }
  rewrite length_app in Hf. destruct src as [|b0 src0]; [apply Hnil; cbn in Hf; lia|].
  set (src := b0 :: src0) in *. assert (0 < Z.of_nat (length src)) as Hl0 by (cbn; lia).
  destruct (user_page_mapped ppt psz k l root true va _ HU Hl0) as [Eu Hpos]. pose proof HU as [H1 H2 H3].
  destruct (page_base va ltac:(lia)) as (B1 & B2 & B3).
  destruct (H2 va ltac:(lia)) as (F1 & F2 & F3 & _). specialize (F3 eq_refl).
  set (n := Z.to_nat (Z.min (PGSIZE - va mod PGSIZE) (Z.of_nat (length src)))).
  destruct (write_page k l root true va src n HP HU eq_refl) as (m1 & E1 & C1).
  destruct (copied_range k l root true va src m1 HP HU n C1) as (HP1 & Hv1 & HU1).
  pose proof (Z.mod_pos_bound va PGSIZE ltac:(done)) as Hb.
  assert (length (take n src) = n) as Hlen by (rewrite length_take; unfold n; lia).
  pose proof (whole_pages va (length src) (length rest) n Hl0 eq_refl) as Hn.
  assert (rest = [] \/ length rest <> 0%nat /\ (va + Z.of_nat (length src)) mod PGSIZE = 0) as Hal'.
  { destruct Hal as [->|Hm]; [by left|]. destruct rest; [by left|]. right. by split. }
  assert (Z.to_nat (Z.min (PGSIZE - va mod PGSIZE) (Z.of_nat (length (src ++ rest)))) = n) as En.
  { rewrite length_app. destruct Hal' as [->|[_ Hm]]; [cbn [length]; by rewrite Nat.add_0_r|]. by apply Hn. }
  assert (n <= length src)%nat as Hns by (unfold n; lia).
  assert (exists m2 fuel', copyout_loop end_ fuel ppt psz root (PGROUNDDOWN va + PGSIZE) (drop n (src ++ rest)) (set_mem m1 k) =
      copyout_loop end_ fuel' ppt psz root (va + Z.of_nat (length src)) rest (set_mem m2 (set_mem m1 k)) /\
      (length rest <= fuel')%nat /\ copied m1 m2 root (va + Z.of_nat n) (drop n src)) as (m2 & f2 & E2 & Hf2 & C2).
  { rewrite drop_app_le by done. destruct (decide (rest = [] /\ length src = n)) as [[-> En2]|Nn].
    - exists m1, fuel. rewrite drop_ge by lia. split; [by destruct fuel|]. split; [cbn; lia|].
      split; [|done]. intros i b H. done.
    - assert (PGROUNDDOWN va + PGSIZE = va + Z.of_nat n) as ->.
      { destruct Hal' as [->|[_ Hm]]; [|by apply Hn]. assert (length src <> n) as Nl by (intros El; by apply Nn). unfold n in *. lia. }
      destruct (IH (set_mem m1 k) l (va + Z.of_nat n) (drop n src)) as (m2 & f2 & E & Hf2 & HC).
      + rewrite length_app, length_drop. assert (0 < n)%nat by (unfold n; lia). lia.
      + done.
      + rewrite length_drop.
        replace (Z.of_nat (length src - n)) with (Z.of_nat (length src) - Z.of_nat n) by lia.
        apply user_range_tail; [done|lia].
      + rewrite length_drop. replace (va + Z.of_nat n + Z.of_nat (length src - n)) with (va + Z.of_nat (length src)) by lia. done.
      + exists m2, f2. split; [|done]. rewrite E, length_drop. replace (va + Z.of_nat n + Z.of_nat (length src - n)) with (va + Z.of_nat (length src)) by lia. done. }
  exists m2, f2. split; [|split; [done|]].
  - cbn [copyout_loop]. unfold src at 1. cbn [app]. cbv iota beta zeta. change (b0 :: src0 ++ rest) with (src ++ rest).
    rewrite (proj2 (Z.leb_gt _ _)) by lia.
    rewrite (M_bind_Ret _ _ _ _ _ Eu). rewrite (proj2 (Z.eqb_neq _ 0)) by lia.
    rewrite (M_bind_Ret _ _ _ _ _ (walk_found k root _ B1)). pose proof (pteval_same (kmemory k) root _ _ B2) as Ep.
    unfold pteval at 1 in Ep. destruct (leaf (kmemory k) root (PGROUNDDOWN va)) as [a|].
    2:{ rewrite <- Ep in F1. done. }
    unfold ld. rewrite (M_bind_Ret _ _ k (ld64 (kmemory k) a) k) by done. rewrite Ep, F3. cbn [negb].
    replace (va - PGROUNDDOWN va) with (va mod PGSIZE) by lia. rewrite En. rewrite take_app_le by done.
    rewrite (M_bind_Ret _ _ _ _ _ E1). exact E2.
  - rewrite <- (take_drop n src). apply (copied_join _ m1); [done| |done|by rewrite Hlen].
    rewrite Hlen. intros i j Hi Hj E. rewrite length_drop in Hj.
    apply (phys_inj k l root true va (Z.of_nat (length src)) _ _ HU) in E; lia.
Qed.

Lemma copyout_loop_spec ppt psz root fuel k l va src :
  (length src <= fuel)%nat -> PT end_ k l root -> user_range k l root true va (Z.of_nat (length src)) ->
  exists m', copyout_loop end_ fuel ppt psz root va src k = Ret (0, set_mem m' k) /\
    copied (kmemory k) m' root va src.
Proof.
  intros Hf HP HU. destruct (copyout_loop_prefix ppt psz root [] fuel k l va src) as (m' & f & E & _ & HC); auto.
  { by rewrite app_nil_r. }
  exists m'. rewrite app_nil_r in E. rewrite E. split; [by destruct f|done].
Qed.

Definition user_bytes (m : mem) (root va : Z) (n : nat) : list Z :=
  map (fun i => m (phys m root (va + Z.of_nat i))) (seq 0 n).

Lemma user_bytes_app m root va a b :
  user_bytes m root va (a + b) = user_bytes m root va a ++ user_bytes m root (va + Z.of_nat a) b.
Proof.
  unfold user_bytes. rewrite seq_app, map_app. f_equal. cbn [Nat.add]. apply list_eq. intros i.
  rewrite !list_lookup_fmap. destruct (decide (i < b)%nat).
  - rewrite !lookup_seq_lt by done. cbn. do 3 f_equal. lia.
  - by rewrite !lookup_seq_ge by lia.
Qed.

Lemma copyin_loop_prefix ppt psz root k l w rest fuel0 : forall va (len : nat) got,
  (len + rest <= fuel0)%nat -> user_range k l root w va (Z.of_nat len) ->
  (rest = 0%nat \/ (va + Z.of_nat len) mod PGSIZE = 0) ->
  exists fuel', copyin_loop end_ fuel0 ppt psz root va (Z.of_nat (len + rest)) got k =
      copyin_loop end_ fuel' ppt psz root (va + Z.of_nat len) (Z.of_nat rest)
        (got ++ user_bytes (kmemory k) root va len) k /\ (rest <= fuel')%nat.
Proof.
  induction fuel0 as [|fuel IH]; intros va len got Hf HU Hal.
  { assert (len = 0%nat /\ rest = 0%nat) as [-> Er] by lia. exists 0%nat. rewrite Er. by rewrite app_nil_r, Z.add_0_r. }
  destruct (decide (len = 0%nat)) as [->|Hl]; [exists (S fuel); cbn [user_bytes seq map Z.of_nat Nat.add]; by rewrite app_nil_r, Z.add_0_r|].
  cbn [copyin_loop]. rewrite (proj2 (Z.ltb_lt 0 _)) by lia. cbv zeta.
  destruct (user_page_mapped ppt psz k l root w va _ HU ltac:(lia)) as [Eu Hpos].
  rewrite (M_bind_Ret _ _ _ _ _ Eu). rewrite (proj2 (Z.eqb_neq _ 0)) by lia.
  pose proof HU as [H1 H2 H3]. destruct (page_base va ltac:(lia)) as (B1 & B2 & B3).
  replace (va - PGROUNDDOWN va) with (va mod PGSIZE) by lia.
  pose proof (Z.mod_pos_bound va PGSIZE ltac:(done)) as Hb.
  set (n := Z.to_nat (Z.min (PGSIZE - va mod PGSIZE) (Z.of_nat len))).
  pose proof (whole_pages va len rest n ltac:(lia) eq_refl) as Hn.
  assert (Z.to_nat (Z.min (PGSIZE - va mod PGSIZE) (Z.of_nat (len + rest))) = n) as En.
  { destruct Hal as [->|Hm]; [by rewrite Nat.add_0_r|]. by apply Hn. }
  assert (read_bytes (PTE2PA (pteval (kmemory k) root va) + va mod PGSIZE) n k =
    Ret (user_bytes (kmemory k) root va n, k)) as Er.
  { unfold read_bytes, gets, user_bytes. do 2 f_equal. apply map_ext_in. intros i Hi%in_seq.
    rewrite phys_add; [done|lia|unfold n in Hi; lia]. }
  rewrite En, (M_bind_Ret _ _ _ _ _ Er).
  replace (Z.of_nat (len + rest) - Z.min (PGSIZE - va mod PGSIZE) (Z.of_nat (len + rest)))
    with (Z.of_nat (len - n + rest)) by (unfold n in *; lia).
  assert (user_bytes (kmemory k) root va len = user_bytes (kmemory k) root va n ++
    user_bytes (kmemory k) root (va + Z.of_nat n) (len - n)) as ->
    by (rewrite <- user_bytes_app; f_equal; unfold n; lia).
  rewrite app_assoc. destruct (decide (rest = 0%nat /\ len = n)) as [[Er0 El]|Nn].
  - exists fuel. rewrite Er0, <- El, Nat.sub_diag. split; [|lia]. cbn [Nat.add Z.of_nat user_bytes seq map].
    rewrite app_nil_r. by destruct fuel.
  - assert (PGROUNDDOWN va + PGSIZE = va + Z.of_nat n) as ->.
    { destruct Hal as [->|Hm]; [|by apply Hn]. assert (len <> n) as Nl by (intros El; by apply Nn). unfold n in *. lia. }
    destruct (IH (va + Z.of_nat n) (len - n)%nat (got ++ user_bytes (kmemory k) root va n)) as (f & E & Hf').
    + assert (0 < n)%nat by (unfold n; lia). lia.
    + replace (Z.of_nat (len - n)) with (Z.of_nat len - Z.of_nat n) by (unfold n; lia).
      apply user_range_tail; [done|unfold n; lia].
    + replace (va + Z.of_nat n + Z.of_nat (len - n)) with (va + Z.of_nat len) by (unfold n; lia). done.
    + exists f. split; [|done]. rewrite E. replace (va + Z.of_nat n + Z.of_nat (len - n)) with (va + Z.of_nat len) by (unfold n; lia). done.
Qed.

Lemma copyin_loop_spec ppt psz root k l w fuel va (len : nat) got :
  (len <= fuel)%nat -> user_range k l root w va (Z.of_nat len) ->
  copyin_loop end_ fuel ppt psz root va (Z.of_nat len) got k =
    Ret ((0, got ++ user_bytes (kmemory k) root va len), k).
Proof.
  intros Hf HU. destruct (copyin_loop_prefix ppt psz root k l w 0 fuel va len got) as (f & E & _); [lia|done|by left|].
  rewrite Nat.add_0_r in E. rewrite E. by destruct f.
Qed.

(** [copyinstr] goes past pages with no NUL in them. *)
Lemma take_str_none s : forall m p, (forall i b, s !! i = Some b -> m (p + Z.of_nat i) = b) ->
  Forall (fun b => b <> 0) s -> take_str (length s) m p = (s, false).
Proof.
  induction s as [|b s IH]; intros m p Hm Hs; cbn [length take_str]; [done|].
  apply list.Forall_cons in Hs as [Hb Hs]. pose proof (Hm 0%nat b eq_refl) as E. rewrite Z.add_0_r in E. rewrite E.
  rewrite (proj2 (Z.eqb_neq b 0)) by done. rewrite (IH m (p + 1)); [done| |done].
  intros i c Hi. rewrite <- (Hm (S i) c Hi). f_equal. lia.
Qed.

Lemma copyinstr_loop_prefix root k l w rest fuel0 : forall va (len : nat) got,
  (len + rest <= fuel0)%nat -> user_range k l root w va (Z.of_nat len) -> (va + Z.of_nat len) mod PGSIZE = 0 ->
  Forall (fun b => b <> 0) (user_bytes (kmemory k) root va len) ->
  exists fuel', copyinstr_loop fuel0 root va (Z.of_nat (len + rest)) got k =
      copyinstr_loop fuel' root (va + Z.of_nat len) (Z.of_nat rest)
        (got ++ user_bytes (kmemory k) root va len) k /\ (rest <= fuel')%nat.
Proof.
  induction fuel0 as [|fuel IH]; intros va len got Hf HU Hal Hnz.
  { assert (len = 0%nat /\ rest = 0%nat) as [-> Er] by lia. exists 0%nat. rewrite Er. by rewrite app_nil_r, Z.add_0_r. }
  destruct (decide (len = 0%nat)) as [->|Hl]; [exists (S fuel); cbn [user_bytes seq map Z.of_nat Nat.add]; by rewrite app_nil_r, Z.add_0_r|].
  cbn [copyinstr_loop]. rewrite (proj2 (Z.ltb_lt 0 _)) by lia. cbv zeta.
  pose proof HU as [H1 H2 H3]. destruct (page_base va ltac:(lia)) as (B1 & B2 & B3).
  destruct (H2 va ltac:(lia)) as (F1 & F2 & _ & ((_ & _ & F3) & _)).
  rewrite (M_bind_Ret _ _ _ _ _ (walkaddr_spec k root _ B1)). cbv zeta. rewrite (pteval_same _ _ _ _ B2), F1, F2. cbn [andb].
  rewrite (proj2 (Z.eqb_neq _ 0)) by lia. replace (va - PGROUNDDOWN va) with (va mod PGSIZE) by lia.
  pose proof (Z.mod_pos_bound va PGSIZE ltac:(done)) as Hb.
  set (n := Z.to_nat (Z.min (PGSIZE - va mod PGSIZE) (Z.of_nat len))).
  destruct (whole_pages va len rest n ltac:(lia) eq_refl Hal) as [En Enext].
  assert (user_bytes (kmemory k) root va len = user_bytes (kmemory k) root va n ++
    user_bytes (kmemory k) root (va + Z.of_nat n) (len - n)) as Eb
    by (rewrite <- user_bytes_app; f_equal; unfold n; lia).
  rewrite Eb in Hnz |- *. apply Forall_app in Hnz as [Hn1 Hn2].
  rewrite En, (M_bind_Ret _ _ k (user_bytes (kmemory k) root va n, false) k).
  2:{ unfold gets. do 2 f_equal. replace n with (length (user_bytes (kmemory k) root va n)) at 1
        by (unfold user_bytes; by rewrite length_map, length_seq).
      apply take_str_none; [|done]. intros i b Hi. unfold user_bytes in Hi. rewrite list_lookup_fmap in Hi.
      destruct (seq 0 n !! i) as [j|] eqn:Ej; [|done]. apply lookup_seq in Ej as [-> Hj]. injection Hi as <-.
      cbn [Nat.add]. rewrite phys_add; [done|lia|unfold n in Hj; lia]. }
  replace (Z.of_nat (len + rest) - Z.min (PGSIZE - va mod PGSIZE) (Z.of_nat (len + rest)))
    with (Z.of_nat (len - n + rest)) by (unfold n in *; lia).
  rewrite Enext, app_assoc.
  assert (va + Z.of_nat n + Z.of_nat (len - n) = va + Z.of_nat len) as El by (unfold n; lia).
  destruct (IH (va + Z.of_nat n) (len - n)%nat (got ++ user_bytes (kmemory k) root va n)) as (f & E & Hf').
  - assert (0 < n)%nat by (unfold n; lia). lia.
  - replace (Z.of_nat (len - n)) with (Z.of_nat len - Z.of_nat n) by (unfold n; lia).
    apply user_range_tail; [done|unfold n; lia].
  - by rewrite El.
  - done.
  - exists f. rewrite E, El. done.
Qed.

Lemma copied_bytes m m' root va src :
  (forall v, pteval m' root v = pteval m root v) -> copied m m' root va src ->
  user_bytes m' root va (length src) = src.
Proof.
  intros Hv [C _]. unfold user_bytes. apply list_eq. intros i. rewrite list_lookup_fmap.
  destruct (src !! i) as [b|] eqn:Ei.
  - pose proof (lookup_lt_Some _ _ _ Ei). rewrite lookup_seq_lt by done. cbn [fmap option_fmap option_map Nat.add].
    unfold phys. rewrite Hv. f_equal. by apply C.
  - apply lookup_ge_None in Ei. rewrite lookup_seq_ge by done. done.
Qed.

(** ** A new page table, and a page provided on demand *)

Lemma uvmcreate_spec k p l :
  KInv end_ k (p :: l) ->
  exists k', uvmcreate k = Ret (p, k') /\ PT end_ k' l p /\ (forall va, pteval (kmemory k') p va = 0) /\
    (forall d, is_table (kmemory k') p d -> d = p) /\ (forall d, page end_ d -> d <> p -> agree (kmemory k) (kmemory k') d).
Proof.
  intros HK. destruct (kalloc_spec end_ k (p :: l) HK) as (k1 & E & Hp & Hni & HK1 & Hm). unfold uvmcreate.
  rewrite (M_bind_Ret _ _ _ _ _ E). pose proof Hp as (_ & _ & Hp0). rewrite (proj2 (Z.eqb_neq p 0)) by lia.
  set (m2 := set_page (kmemory k1) p 0).
  assert (forall i, idx i -> ld64 m2 (p + 8 * i) = 0) as Hz.
  { intros i Hi. rewrite (ld64_ext m2 (fun _ => 0)); [done|]. intros x Hx. unfold m2. apply set_page_in.
    unfold idx, PGSIZE in *. lia. }
  assert (forall i, idx i -> T1 m2 p i = None) as H1 by (intros i Hi; unfold T1, next; by rewrite Hz).
  assert (forall i j, idx i -> T0 m2 p i j = None) as H0 by (intros i j Hi; unfold T0; by rewrite H1).
  assert (forall d, is_table m2 p d -> d = p) as Ht.
  { intros d [->|[(i & Hi & Ei)|(i & j & Hi & Hj & Ei)]]; [done|..].
    - by rewrite H1 in Ei.
    - by rewrite H0 in Ei. }
  exists (set_mem m2 k1). split; [done|]. cbn [kmemory set_mem]. split; [|split; [|split; [done|]]].
  - split; cbn [kmemory set_mem].
    + apply KInv_client; [done|]. intros x a Hx Ha. unfold m2. apply set_page_out.
      assert (page end_ x) as Hpx by (eapply chain_pages; [apply HK1|done]).
      assert (x <> p) as N by (intros ->; done). destruct (page_apart end_ x p Hpx Hp N); lia.
    + intros d ->%Ht. done.
    + intros i Hi. by rewrite H1.
    + intros i j Hi Hj. by rewrite H0.
    + intros i i' j Hi _ _. by rewrite H1.
    + intros i i' Hi _. by rewrite H1.
    + intros i j i' j' Hi _ _ _. by rewrite H0.
    + intros i Hi Hx. by specialize (H1 i Hi).
    + intros i j q Hi _. by rewrite H1.
    + intros i Hi. apply H1. unfold idx. lia.
  - intros va. unfold pteval, leaf. by rewrite H0 by (by apply PX_idx).
  - intros d Hd N a Ha. unfold m2. destruct (page_apart end_ d p Hd Hp N); (rewrite set_page_out by lia; apply Hm; lia).
Qed.

Lemma MAXVA_val : MAXVA = 2 ^ 38.
Proof. reflexivity. Qed.

(** A page from the allocator, filled with anything. *)
Lemma fresh_any k p l root :
  PT end_ k (p :: l) root ->
  exists k1, kalloc k = Ret (p, k1) /\ page end_ p /\ p ∉ l /\
    (forall d, page end_ d -> d <> p -> agree (kmemory k) (kmemory k1) d) /\
    forall m', (forall a, a < p \/ p + PGSIZE <= a -> m' a = kmemory k1 a) ->
      PT end_ (set_mem m' k1) l root /\ (forall va, pteval m' root va = pteval (kmemory k) root va) /\
      (forall d, is_table m' root d <-> is_table (kmemory k) root d) /\
      (forall d, page end_ d -> d <> p -> agree (kmemory k) m' d).
Proof.
  intros HP. destruct (kalloc_spec end_ k (p :: l) (pt_k _ _ _ _ HP)) as (k1 & E & Hp & Hni & HK1 & Hm).
  exists k1. split; [done|]. split; [done|]. split; [done|].
  assert (forall d, page end_ d -> d <> p -> agree (kmemory k) (kmemory k1) d) as Hag1.
  { intros d Hd N x Hx. apply Hm. destruct (page_apart end_ d p Hd Hp N); lia. }
  split; [done|]. intros m2 Hm2.
  assert (forall d, page end_ d -> d <> p -> agree (kmemory k) m2 d) as Hag.
  { intros d Hd N x Hx. rewrite Hm2; [by apply (Hag1 d)|]. destruct (page_apart end_ d p Hd Hp N); lia. }
  assert (KInv end_ (set_mem m2 k1) l) as HK2.
  { apply KInv_client; [done|]. intros x a Hx Ha. apply Hm2.
    assert (page end_ x) as Hpx by (eapply chain_pages; [apply HK1|done]).
    assert (x <> p) as N by (intros ->; done). destruct (page_apart end_ x p Hpx Hp N); lia. }
  destruct (PT_agree k (set_mem m2 k1) (p :: l) l root HP HK2) as (A & B & C); [|by split_and!].
  intros d Hd. destruct (pt_table _ _ _ _ HP d Hd) as [Hdp Hdn]. apply not_elem_of_cons in Hdn as [N Hdn].
  split; [by apply Hag|done].
Qed.

(** A cleared page for the process, before it is mapped. *)
Lemma fresh_page k p l root :
  PT end_ k (p :: l) root ->
  exists k', (x ← kalloc; _ ← zero_page x; mret x) k = Ret (p, k') /\ page end_ p /\ p ∉ l /\
    PT end_ k' l root /\ (forall va, pteval (kmemory k') root va = pteval (kmemory k) root va) /\
    (forall d, is_table (kmemory k') root d <-> is_table (kmemory k) root d) /\
    (forall a, p <= a < p + PGSIZE -> kmemory k' a = 0) /\
    (forall d, page end_ d -> d <> p -> agree (kmemory k) (kmemory k') d).
Proof.
  intros HP. destruct (fresh_any k p l root HP) as (k1 & E & Hp & Hni & _ & H). rewrite (M_bind_Ret _ _ _ _ _ E).
  destruct (H (set_page (kmemory k1) p 0)) as (A & B & C & D); [intros a Ha; apply set_page_out; lia|].
  exists (set_mem (set_page (kmemory k1) p 0) k1). split_and!; try done. intros a Ha. by apply set_page_in.
Qed.

(** The entry [vmfault] makes. *)
Definition fault_entry (p : Z) : Z := Z.lor (Z.lor (PA2PTE p) (Z.lor (Z.lor PTE_W PTE_U) PTE_R)) PTE_V.

Lemma fault_fields p : page end_ p ->
  PTE2PA (fault_entry p) = p /\ has (fault_entry p) PTE_V = true /\ has (fault_entry p) PTE_U = true /\
  has (fault_entry p) PTE_W = true.
Proof.
  intros (H1 & H2 & H3). unfold PHYSTOP, KERNBASE in H2.
  destruct (leaf_entry p (Z.lor (Z.lor PTE_W PTE_U) PTE_R) H1 ltac:(lia) ltac:(vm_compute; split; congruence)) as (E1 & E2 & _).
  split; [done|]. fold (fault_entry p) in E2. set (e := fault_entry p) in *. clearbody e.
  unfold PTE_V, PTE_U, PTE_W. rewrite !has_testbit, !E2 by lia. done.
Qed.

(** The first page of the range cannot be used: it is outside the address space,
    it is not mapped and beyond the size of the process, or it is mapped without
    [PTE_U] (a guard page, the trampoline). *)
Definition no_access (k : kmem) (root psz va : Z) : Prop :=
  MAXVA <= PGROUNDDOWN va \/
  (0 <= va < MAXVA /\ let e := pteval (kmemory k) root va in
   (has e PTE_V = false /\ psz <= PGROUNDDOWN va) \/ (has e PTE_V = true /\ has e PTE_U = false)).

Lemma user_page_refused k root psz va :
  no_access k root psz va ->
  walkaddr root (PGROUNDDOWN va) k = Ret (0, k) /\
  ((MAXVA <=? PGROUNDDOWN va) = false \/ psz <= MAXVA ->
   user_page end_ root psz root (PGROUNDDOWN va) k = Ret (0, k)).
Proof.
  intros [Hm|(Hva & He)].
  - assert (walkaddr root (PGROUNDDOWN va) k = Ret (0, k)) as Ew by (unfold walkaddr; by rewrite (proj2 (Z.leb_le _ _) Hm)).
    split; [done|]. intros Hor. unfold user_page. rewrite (M_bind_Ret _ _ _ _ _ Ew). cbn [Z.eqb]. unfold vmfault.
    rewrite (proj2 (Z.leb_le psz _)); [done|]. destruct Hor as [Hx|Hx]; [apply Z.leb_gt in Hx|]; lia.
  - destruct (page_base va Hva) as (B1 & B2 & B3). pose proof (pteval_same (kmemory k) root _ _ B2) as Ep.
    assert (walkaddr root (PGROUNDDOWN va) k = Ret (0, k)) as Ew.
    { rewrite walkaddr_spec by done. cbv zeta. rewrite Ep. cbv zeta in He.
      destruct He as [[-> _]|[-> ->]]; done. }
    split; [done|]. intros _. unfold user_page. rewrite (M_bind_Ret _ _ _ _ _ Ew). cbn [Z.eqb]. unfold vmfault.
    destruct He as [[_ Hp]|[Hv _]]; [by rewrite (proj2 (Z.leb_le _ _) Hp)|].
    destruct (psz <=? PGROUNDDOWN va); [done|]. cbv zeta.
    assert (PGROUNDDOWN (PGROUNDDOWN va) = PGROUNDDOWN va) as ->.
    { rewrite !PGROUNDDOWN_spec. rewrite Zminus_mod_idemp_r, Z.sub_diag. change (0 mod PGSIZE) with 0. lia. }
    rewrite (M_bind_Ret _ _ _ _ _ (ismapped_spec k root _ B1)). by rewrite Ep, Hv.
Qed.

(** The page of [va] is one of the process, but not to be written. *)
Definition read_only (k : kmem) (root va : Z) : Prop :=
  0 <= va < MAXVA /\ let e := pteval (kmemory k) root va in
  has e PTE_V = true /\ has e PTE_U = true /\ PTE2PA e <> 0 /\ has e PTE_W = false.

Lemma copyout_refused k root psz va src fuel : src <> [] -> (length src <= fuel)%nat ->
  no_access k root psz va \/ read_only k root va -> copyout_loop end_ fuel root psz root va src k = Ret (-1, k).
Proof.
  intros Hs Hf Hno. destruct src as [|b src]; [done|]. destruct fuel as [|fuel]; [cbn in Hf; lia|].
  cbn [copyout_loop]. cbv zeta. destruct Hno as [Hno|(Hva & Hv & Hu & Hp & Hw)].
  - destruct (user_page_refused k root psz va Hno) as [_ He].
    destruct (MAXVA <=? PGROUNDDOWN va); [done|]. by rewrite (M_bind_Ret _ _ _ _ _ (He (or_introl eq_refl))).
  - destruct (page_base va Hva) as (B1 & B2 & B3). pose proof (pteval_same (kmemory k) root _ _ B2) as Ep.
    rewrite (proj2 (Z.leb_gt _ _)) by lia. unfold user_page.
    rewrite (M_bind_Ret _ _ k (PTE2PA (pteval (kmemory k) root va)) k).
    2:{ rewrite (M_bind_Ret _ _ _ _ _ (walkaddr_spec k root _ B1)). cbv zeta. rewrite Ep, Hv, Hu. cbn [andb].
        by rewrite (proj2 (Z.eqb_neq _ _) Hp). }
    rewrite (proj2 (Z.eqb_neq _ _) Hp). rewrite (M_bind_Ret _ _ _ _ _ (walk_found k root _ B1)).
    unfold pteval at 1 in Ep. destruct (leaf (kmemory k) root (PGROUNDDOWN va)) as [a|].
    2:{ by rewrite <- Ep in Hv. }
    unfold ld. rewrite (M_bind_Ret _ _ k (ld64 (kmemory k) a) k) by done. by rewrite Ep, Hw.
Qed.

(** The [n] bytes from [va] are none, or mapped pages up to a page boundary. *)
Definition pages_before (k : kmem) (l : list Z) (root : Z) (w : bool) (va : Z) (n : nat) : Prop :=
  n = 0%nat \/ (PT end_ k l root /\ user_range k l root w va (Z.of_nat n) /\ (va + Z.of_nat n) mod PGSIZE = 0).

Lemma copyout_stops k l root psz va pre rest :
  pages_before k l root true va (length pre) -> rest <> [] ->
  no_access k root psz (va + Z.of_nat (length pre)) \/ read_only k root (va + Z.of_nat (length pre)) ->
  exists m', copyout end_ root psz root va (pre ++ rest) k = Ret (-1, set_mem m' k) /\ copied (kmemory k) m' root va pre.
Proof.
  intros Hpre Hr Hno. unfold copyout. destruct Hpre as [Hn|(HP & HU & Hal)].
  - apply nil_length_inv in Hn as ->. exists (kmemory k). rewrite Z.add_0_r in Hno. split; [|by split].
    rewrite copyout_refused; [by destruct k|done|done|done].
  - destruct (copyout_loop_prefix root psz root rest (length (pre ++ rest)) k l va pre) as (m' & f & E & Hf & HC); auto.
    exists m'. split; [|done]. rewrite E. apply copyout_refused; [done|done|].
    destruct (copied_range k l root true va pre m' HP HU (length pre)) as (_ & Hv & _); [by rewrite firstn_all|].
    unfold no_access, read_only. by rewrite Hv.
Qed.

Lemma copyin_stops k l root psz va w pre rest :
  pages_before k l root w va pre -> (0 < rest)%nat -> psz <= MAXVA -> no_access k root psz (va + Z.of_nat pre) ->
  copyin end_ root psz root va (Z.of_nat (pre + rest)) k = Ret ((-1, user_bytes (kmemory k) root va pre), k).
Proof.
  intros Hpre Hr Hps Hno. unfold copyin. rewrite Nat2Z.id.
  assert (exists f, copyin_loop end_ (pre + rest) root psz root va (Z.of_nat (pre + rest)) [] k =
    copyin_loop end_ (S f) root psz root (va + Z.of_nat pre) (Z.of_nat rest) (user_bytes (kmemory k) root va pre) k) as [f ->].
  { destruct Hpre as [->|(HP & HU & Hal)].
    - exists (rest - 1)%nat. replace (S (rest - 1)) with rest by lia. cbn [Nat.add Z.of_nat]. by rewrite Z.add_0_r.
    - destruct (copyin_loop_prefix root psz root k l w rest (pre + rest) va pre []) as (f & E & Hf); auto.
      exists (f - 1)%nat. replace (S (f - 1)) with f by lia. done. }
  cbn [copyin_loop]. rewrite (proj2 (Z.ltb_lt _ _)) by lia. cbv zeta.
  by rewrite (M_bind_Ret _ _ _ _ _ (proj2 (user_page_refused k root psz _ Hno) (or_intror Hps))).
Qed.

Lemma copyinstr_stops k l root psz va w pre rest :
  pages_before k l root w va pre -> (0 < rest)%nat -> no_access k root psz (va + Z.of_nat pre) ->
  Forall (fun b => b <> 0) (user_bytes (kmemory k) root va pre) ->
  copyinstr root va (Z.of_nat (pre + rest)) k = Ret ((-1, user_bytes (kmemory k) root va pre), k).
Proof.
  intros Hpre Hr Hno Hnz. unfold copyinstr. rewrite Nat2Z.id.
  assert (exists f, copyinstr_loop (pre + rest) root va (Z.of_nat (pre + rest)) [] k =
    copyinstr_loop (S f) root (va + Z.of_nat pre) (Z.of_nat rest) (user_bytes (kmemory k) root va pre) k) as [f ->].
  { destruct Hpre as [->|(HP & HU & Hal)].
    - exists (rest - 1)%nat. replace (S (rest - 1)) with rest by lia. cbn [Nat.add Z.of_nat]. by rewrite Z.add_0_r.
    - destruct (copyinstr_loop_prefix root k l w rest (pre + rest) va pre []) as (f & E & Hf); auto.
      exists (f - 1)%nat. replace (S (f - 1)) with f by lia. done. }
  cbn [copyinstr_loop]. rewrite (proj2 (Z.ltb_lt _ _)) by lia. cbv zeta.
  by rewrite (M_bind_Ret _ _ _ _ _ (proj1 (user_page_refused k root psz _ Hno))).
Qed.

(** What [vmfault] does to the process whose page it provides. *)
Record faulted (k k' : kmem) (l l' : list Z) (root va p : Z) : Prop := {
  ft_pt : PT end_ k' l' root;
  ft_val : forall va', 0 <= va' < MAXVA -> pteval (kmemory k') root va' =
    if same_page va' va && negb (p =? 0) then fault_entry p else pteval (kmemory k) root va';
  ft_new : p <> 0 -> p ∈ l /\ data_page k' l' root p /\
    forall a, p <= a < p + PGSIZE -> kmemory k' a = 0;
  ft_data : forall d, page end_ d -> d ∉ l -> ~ is_table (kmemory k) root d -> agree (kmemory k) (kmemory k') d
}.

Lemma one_page_run k root va pa perm : va mod PGSIZE = 0 ->
  mappages root va PGSIZE pa perm k = map_loop 0 root va pa perm k.
Proof. intros H. unfold mappages. by rewrite (proj2 (Z.eqb_eq _ _) H). Qed.

Lemma vmfault_run k l root psz va :
  PT end_ k l root -> 0 <= va < psz -> psz <= MAXVA -> has (pteval (kmemory k) root va) PTE_V = false ->
  exists p k' l', vmfault end_ root psz root va k = Ret (p, k') /\ faulted k k' l l' root va p /\
    (p = 0 -> (length l' <= 1)%nat).
Proof.
  intros HP Hva Hps Hv. unfold vmfault. rewrite (proj2 (Z.leb_gt psz va)) by lia. cbv zeta.
  destruct (page_base va ltac:(lia)) as (B1 & B2 & B3). set (va0 := PGROUNDDOWN va) in *.
  pose proof (pteval_same (kmemory k) root _ _ B2) as Ep.
  rewrite (M_bind_Ret _ _ _ _ _ (ismapped_spec k root _ B1)). rewrite Ep, Hv.
  assert (va0 mod PGSIZE = 0) as Hal.
  { unfold va0. rewrite PGROUNDDOWN_spec, Zminus_mod_idemp_r, Z.sub_diag. done. }
  destruct l as [|p l].
  { rewrite (M_bind_Ret _ _ _ _ _ (kalloc_spec end_ k [] (pt_k _ _ _ _ HP))). exists 0, k, []. split; [done|].
    split; [|cbn; lia]. split; try done. intros va' _. cbn [Z.eqb negb]. by rewrite andb_false_r. }
  destruct (fresh_page k p l root HP) as (k1 & E1 & Hp & Hni & HP1 & Hv1 & Ht1 & Hz & Hg1).
  assert (~ is_table (kmemory k1) root p) as Hnt.
  { rewrite Ht1. intros Hx. destruct (pt_table _ _ _ _ HP p Hx) as [_ Hx']. apply Hx'. left. }
  pose proof Hp as (Hpa & Hpr & Hp0). unfold PHYSTOP, KERNBASE in Hpr.
  assert (0 <= va0 /\ va0 + Z.of_nat 1 * PGSIZE <= MAXVA) as [Hv0 Hvm].
  { rewrite (aligned_div va0 Hal) in B1 |- *. rewrite MAXVA_val in *. unfold PGSIZE in *. lia. }
  destruct (map_loop_spec end_ 0 k1 l root va0 p (Z.lor (Z.lor PTE_W PTE_U) PTE_R) HP1 Hv0 Hvm Hal Hpa ltac:(lia)
    ltac:(unfold PGSIZE; lia) ltac:(vm_compute; split; congruence)) as (r & k2 & l2 & E2 & _ & Hr).
  { intros va' Hva'. rewrite Hv1. change (Z.of_nat 1 * PGSIZE) with PGSIZE in Hva'.
    assert (same_page va' va0 = true) as Es.
    { rewrite <- page_range by done. rewrite (proj2 (Z.leb_le _ _)), (proj2 (Z.ltb_lt _ _)) by lia. done. }
    by rewrite (pteval_same _ _ _ _ Es), Ep. }
  assert (forall r' k', (r ← mappages root va0 PGSIZE p (Z.lor (Z.lor PTE_W PTE_U) PTE_R);
      if r =? 0 then mret p else _ ← kfree end_ p; mret 0) k1 = Ret (r', k') ->
    (p0 ← kalloc; if p0 =? 0 then mret 0 else _ ← zero_page p0;
      r ← mappages root va0 PGSIZE p0 (Z.lor (Z.lor PTE_W PTE_U) PTE_R);
      if r =? 0 then mret p0 else _ ← kfree end_ p0; mret 0) k = Ret (r', k')) as Hrun.
  { intros r' k'. revert E1. unfold mbind at 1 2 5, M_bind at 1 2 5. destruct (kalloc k) as [[x k3]| |]; try done.
    destruct (zero_page x k3) as [[[] k4]| |] eqn:Ez; try done. intros [= -> ->].
    rewrite (proj2 (Z.eqb_neq p 0)) by lia. unfold mbind at 3, M_bind at 3. by rewrite Ez. }
  rewrite (M_bind_Ret _ _ k1 r k2) in Hrun by (by rewrite one_page_run).
  assert (forall va', same_page va' va0 = same_page va' va) as Hsp.
  { intros va'. unfold same_page. apply Z.eqb_eq in B2. by rewrite B2. }
  destruct Hr as [(-> & Hm)|(-> & -> & j & Hj & Hm)].
  - exists p, k2, l2. split; [by apply Hrun|]. split; [|lia]. pose proof Hm as [M1 M2 M3 M4 _]. split; [done|..].
    + intros va' Hva'. rewrite M2 by done. unfold mapped_at. change (Z.of_nat 1 * PGSIZE) with PGSIZE.
      rewrite page_range, Hsp, (proj2 (Z.eqb_neq p 0)) by (try done; lia). cbn [negb]. rewrite andb_true_r.
      destruct (same_page va' va) eqn:Es; [|by apply Hv1].
      rewrite <- Hsp in Es. apply Z.eqb_eq in Es. rewrite Es, Z.sub_diag, Z.mul_0_l, Z.add_0_r. done.
    + intros _. split; [left|]. destruct (M4 p Hp Hni Hnt) as [G N]. split; [split; [done|split; [by intros ?%M3|done]]|].
      intros a Ha. by rewrite G, Hz.
    + intros d Hd Hn Hdt. apply not_elem_of_cons in Hn as [N1 N2].
      destruct (M4 d Hd N2 ltac:(by rewrite Ht1)) as [G _]. intros a Ha. rewrite G by done. by apply (Hg1 d).
  - assert (j = 0%nat) as -> by lia. pose proof Hm as [M1 M2 M3 M4 _]. destruct (M4 p Hp Hni Hnt) as [G N].
    destruct (free_data k2 [] root p M1) as (k3 & E3 & F1 & F2 & _ & F4 & F5).
    { split; [done|]. split; [set_solver|done]. }
    exists 0, k3, [p]. split; [apply Hrun; cbn [Z.eqb]; by rewrite (M_bind_Ret _ _ _ _ _ E3)|]. split.
    + split; [done|..].
      * intros va' Hva'. cbn [Z.eqb negb]. rewrite andb_false_r, F2, M2 by done. unfold mapped_at.
        change (Z.of_nat 0 * PGSIZE) with 0. destruct (Z.leb_spec va0 va'), (Z.ltb_spec va' (va0 + 0)); cbn [andb]; try apply Hv1; lia.
      * done.
      * intros d Hd Hn Hdt. apply not_elem_of_cons in Hn as [N1 N2].
        destruct (M4 d Hd N2 ltac:(by rewrite Ht1)) as [G' _]. intros a Ha. rewrite (F5 d), G' by done. by apply (Hg1 d).
    + intros _. cbn. lia.
Qed.

(** The page [vmfault] provided can be used for copies. *)
Lemma faulted_range k k' l l' root va p :
  0 <= va < MAXVA -> faulted k k' l l' root va p -> p <> 0 ->
  walkaddr root va k' = Ret (p, k') /\ user_range k' l' root true (PGROUNDDOWN va) PGSIZE.
Proof.
  intros Hva HF Hp. pose proof HF as [F1 F2 F3 F4].
  destruct (F3 Hp) as (N1 & N2 & N3). destruct (fault_fields p (proj1 N2)) as (L1 & L2 & L3 & L4).
  assert (forall v, 0 <= v < MAXVA -> same_page v va = true -> pteval (kmemory k') root v = fault_entry p) as Hent.
  { intros v Hv' Es. rewrite F2, Es by done. by rewrite (proj2 (Z.eqb_neq _ _) Hp). }
  destruct (page_base va ltac:(lia)) as (B1 & B2 & B3).
  assert (PGROUNDDOWN va mod PGSIZE = 0) as Hal by (rewrite PGROUNDDOWN_spec, Zminus_mod_idemp_r, Z.sub_diag; done).
  assert (forall v, PGROUNDDOWN va <= v < PGROUNDDOWN va + PGSIZE -> same_page v (PGROUNDDOWN va) = true) as Hin.
  { intros v Hv'. rewrite <- page_range by done. by rewrite (proj2 (Z.leb_le _ _)), (proj2 (Z.ltb_lt _ _)) by lia. }
  assert (PGROUNDDOWN va + PGSIZE <= MAXVA) as Hm.
  { rewrite (aligned_div _ Hal) in B1 |- *. rewrite MAXVA_val in *. unfold PGSIZE in *. lia. }
  split.
  - rewrite walkaddr_spec by lia. cbv zeta. rewrite Hent, L1, L2, L3; [done|lia|]. by apply Z.eqb_eq.
  - split; [lia|..].
    + intros v Hv'. cbv zeta. rewrite Hent, L1 by (try lia; apply Z.eqb_eq; apply Z.eqb_eq in B2; rewrite <- B2; by apply Z.eqb_eq, Hin).
      done.
    + intros v v' Hv1 Hv2 _. apply Z.eqb_eq. rewrite (proj1 (Z.eqb_eq _ _) (Hin v Hv1)).
      symmetry. by apply Z.eqb_eq, Hin.
Qed.
End User.

(** ** Theorems *)

(** C21: [uvmunmap] of [npages] pages.  Entries of the range that were valid become 0
    and no other entry changes; with [do_free] exactly the pages of those entries are
    put on the free list, and without it the free list stays; no other page of data
    is written. *)
Theorem uvmunmap_correct end_ k l root va npages do_free :
  PT end_ k l root -> 0 <= va -> va + Z.of_nat npages * PGSIZE <= MAXVA -> va mod PGSIZE = 0 ->
  let freed := if (do_free : bool) then upages (kmemory k) root va npages else [] in
  Forall (data_page end_ k l root) freed -> NoDup freed ->
  exists k', uvmunmap end_ root va npages do_free k = Ret (tt, k') /\
    unmapped end_ k k' (rev freed ++ l) root va npages freed.
Proof.
  intros HP H0 Hm Hal freed Hf Hnd. unfold uvmunmap. rewrite (proj2 (Z.eqb_eq _ _) Hal). cbn [negb].
  rewrite (M_bind_Ret _ _ k tt k) by done. by apply unmap_loop_spec.
Qed.

(** C10: [copyout] and then [copyin] on pages of the process.  [copyout] to writable
    pages returns 0, stores exactly the bytes [src] at the virtual addresses from
    [dstva] on, across page boundaries, and writes nothing else; the page table stays
    one, and [copyin] of that range returns 0 and [src]. *)
Theorem copy_roundtrip end_ k l root ppt psz dstva src :
  PT end_ k l root -> user_range end_ k l root true dstva (Z.of_nat (length src)) ->
  exists k', copyout end_ ppt psz root dstva src k = Ret (0, k') /\ PT end_ k' l root /\
    copied (kmemory k) (kmemory k') root dstva src /\
    copyin end_ ppt psz root dstva (Z.of_nat (length src)) k' = Ret ((0, src), k').
Proof.
  intros HP HU. unfold copyout.
  destruct (copyout_loop_spec end_ ppt psz root (length src) k l dstva src ltac:(lia) HP HU) as (m' & E & HC).
  destruct (copied_range end_ k l root true dstva src m' HP HU (length src)) as (HP' & Hv & HU').
  { by rewrite firstn_all. }
  exists (set_mem m' k). split; [done|]. split; [done|]. split; [done|]. unfold copyin. rewrite Nat2Z.id.
  rewrite (copyin_loop_spec end_ ppt psz root (set_mem m' k) l true) by done. cbn [app].
  by rewrite (copied_bytes (kmemory k)).
Qed.

(** C34: user addresses are checked page by page.  When a copy reaches a page the
    process may not use ([no_access]; for [copyout] also a page it may only read), it
    fails with -1 there: [copyout] has stored the bytes that come before that page
    and no other, [copyin] has read them, [copyinstr] has read them if none is a NUL
    (else the string ends before the page), and no memory is allocated and no page
    table touched.  So when that page is the first of the range ([pre] empty) the
    copies fail and change nothing at all.  The pages before it are mapped ones
    ([pages_before]). *)
Theorem copy_rejects end_ k l root psz va w pre rest :
  pages_before end_ k l root w va (length pre) -> rest <> [] ->
  let bad := va + Z.of_nat (length pre) in
  (w = true -> no_access k root psz bad \/ read_only k root bad ->
   exists m', copyout end_ root psz root va (pre ++ rest) k = Ret (-1, set_mem m' k) /\
     copied (kmemory k) m' root va pre) /\
  (no_access k root psz bad ->
   let got := user_bytes (kmemory k) root va (length pre) in
   (psz <= MAXVA ->
    copyin end_ root psz root va (Z.of_nat (length (pre ++ rest))) k = Ret ((-1, got), k)) /\
   (Forall (fun b => b <> 0) got ->
    copyinstr root va (Z.of_nat (length (pre ++ rest))) k = Ret ((-1, got), k))) /\
  (pre = [] -> no_access k root psz va \/ read_only k root va -> copyout end_ root psz root va rest k = Ret (-1, k)).
Proof.
  intros Hpre Hr bad. assert (0 < length rest)%nat as Hl by (destruct rest; [done|cbn; lia]).
  split; [|split].
  - intros ->. by apply (copyout_stops end_ k l).
  - intros Hno got. rewrite length_app. split; intros; [by apply (copyin_stops end_ k l root psz va w)|].
    by apply (copyinstr_stops end_ k l root psz va w).
  - intros _ Hno. by apply copyout_refused.
Qed.

(** C33: lazy allocation.  On an address below the size of the process that is not
    mapped, [vmfault] either returns 0 and leaves every entry as it was, at most one
    free page being left, or it returns a page that was free, maps exactly the page
    of the address to it for user reads and writes, and the page holds zeros: the
    process never sees what another one left there.  Nothing else that was in use is
    written. *)
Theorem vmfault_correct end_ k l root psz va :
  PT end_ k l root -> 0 <= va < psz -> psz <= MAXVA -> has (pteval (kmemory k) root va) PTE_V = false ->
  exists p k' l', vmfault end_ root psz root va k = Ret (p, k') /\ faulted end_ k k' l l' root va p /\
    (p = 0 -> (length l' <= 1)%nat) /\
    (p <> 0 -> walkaddr root va k' = Ret (p, k') /\ user_range end_ k' l' root true (PGROUNDDOWN va) PGSIZE).
Proof.
  intros HP Hva Hps Hv. destruct (vmfault_run end_ k l root psz va HP Hva Hps Hv) as (p & k' & l' & E & HF & Hl).
  exists p, k', l'. split; [done|]. split; [done|]. split; [done|]. intros Hp. by apply (faulted_range end_ k k' l l'); [lia|..].
Qed.

(** ** Witnesses *)

(** The last sixteen pages of memory are the allocator's, and [uvmcreate] has made a
    page table. *)
Module Sample.
Definition end_ : Z := PHYSTOP - 16 * PGSIZE.
Definition boot : M kmem Z := _ ← kinit end_; uvmcreate.
Definition k0 : kmem := match boot (mkK (fun _ => 0) 0) with Ret (_, k) => k | _ => mkK (fun _ => 0) 0 end.
Definition root : Z := PHYSTOP - PGSIZE.

Lemma table : exists l, PT end_ k0 l root /\ (forall va, pteval (kmemory k0) root va = 0).
Proof.
  assert (0 < end_ <= PHYSTOP) as He by (vm_compute; split; congruence).
  destruct (kinit_spec end_ He (fun _ => 0)) as (k & l & E & HK & Hl).
  destruct l as [|p l].
  { exfalso. assert (page end_ root) as Hr by (vm_compute; intuition congruence). apply Hl in Hr. set_solver. }
  destruct (uvmcreate_spec end_ k p l HK) as (k' & E' & HP & Hz & _).
  assert (boot (mkK (fun _ => 0) 0) = Ret (p, k')) as Eb by (unfold boot; by rewrite (M_bind_Ret _ _ _ _ _ E)).
  assert (k0 = k') as -> by (unfold k0; by rewrite Eb).
  assert (match boot (mkK (fun _ => 0) 0) with Ret (x, _) => x | _ => 0 end = root) as Er by (vm_compute; reflexivity).
  rewrite Eb in Er. subst p. eauto.
Qed.

(** A process of three pages touches its second page. *)
Definition psz : Z := 3 * PGSIZE.
Definition va : Z := PGSIZE + 0xff0.
Definition k1 : kmem := match vmfault end_ root psz root va k0 with Ret (_, k) => k | _ => k0 end.

Lemma touched : exists l l' p,
  PT end_ k0 l root /\ vmfault end_ root psz root va k0 = Ret (p, k1) /\ p <> 0 /\ faulted end_ k0 k1 l l' root va p.
Proof.
  destruct table as (l & HP & Hz).
  destruct (vmfault_run end_ k0 l root psz va HP) as (p & k' & l' & E & HF & _);
    [vm_compute; split; congruence|vm_compute; congruence|by rewrite Hz|].
  assert (match vmfault end_ root psz root va k0 with Ret (x, _) => x | _ => 0 end = PHYSTOP - 2 * PGSIZE) as Ep
    by (vm_compute; reflexivity).
  assert (k1 = k') as -> by (unfold k1; by rewrite E). rewrite E in Ep.
  exists l, l', p. split; [exact HP|]. split; [exact E|]. split; [|exact HF]. rewrite Ep. vm_compute. congruence.
Qed.
End Sample.
#[local] Opaque Sample.k0 Sample.k1.

Lemma mappages_correct_witness :
  exists r k', mappages Sample.root PGSIZE (2 * PGSIZE) (PHYSTOP - 8 * PGSIZE) (Z.lor PTE_R PTE_U) Sample.k0 = Ret (r, k').
Proof.
  destruct Sample.table as (l & HP & Hz).
  destruct (mappages_correct Sample.end_ Sample.k0 l Sample.root PGSIZE (2 * PGSIZE) (PHYSTOP - 8 * PGSIZE) (Z.lor PTE_R PTE_U) HP)
    as (r & k' & _ & _ & E & _);
    [vm_compute; congruence|vm_compute; congruence|reflexivity|vm_compute; congruence|reflexivity
    |vm_compute; congruence|vm_compute; congruence|reflexivity|vm_compute; split; congruence| |].
  - intros va' _. by rewrite Hz.
  - exists r, k'. exact E.
Defined.

Lemma mappages_panics_witness :
  mappages Sample.root 1 PGSIZE PHYSTOP 0 Sample.k0 = Panic "mappages: va not aligned".
Proof. apply (mappages_panics Sample.k0 Sample.root 1 PGSIZE PHYSTOP 0). vm_compute. congruence. Defined.

Lemma vmfault_correct_witness :
  exists p k', vmfault Sample.end_ Sample.root Sample.psz Sample.root Sample.va Sample.k0 = Ret (p, k').
Proof.
  destruct Sample.table as (l & HP & Hz).
  destruct (vmfault_correct Sample.end_ Sample.k0 l Sample.root Sample.psz Sample.va HP) as (p & k' & _ & E & _);
    [vm_compute; split; congruence|vm_compute; congruence|by rewrite Hz|].
  exists p, k'. exact E.
Defined.

(** The page touched is unmapped and freed. *)
Lemma uvmunmap_correct_witness :
  exists k', uvmunmap Sample.end_ Sample.root PGSIZE 1 true Sample.k1 = Ret (tt, k').
Proof.
  destruct Sample.touched as (l & l' & p & HP & _ & Np & HF). pose proof HF as [F1 F2 F3 _].
  destruct (F3 Np) as (_ & Hd & _). pose proof (fault_fields Sample.end_ p (proj1 Hd)) as (L1 & L2 & _).
  assert (upages (kmemory Sample.k1) Sample.root PGSIZE 1 = [p]) as Eu.
  { cbn [upages]. rewrite F2 by (vm_compute; split; congruence).
    assert (same_page PGSIZE Sample.va = true) as -> by reflexivity.
    rewrite (proj2 (Z.eqb_neq p 0) Np). cbn [negb andb]. rewrite L2, L1. reflexivity. }
  destruct (uvmunmap_correct Sample.end_ Sample.k1 l' Sample.root PGSIZE 1 true F1) as (k' & E & _);
    [vm_compute; congruence|vm_compute; congruence|reflexivity| | |exists k'; exact E].
  - rewrite Eu. apply list.Forall_singleton. exact Hd.
  - rewrite Eu. apply NoDup_singleton.
Defined.

(** Sixteen bytes up to the end of the page touched. *)
Lemma copy_roundtrip_witness :
  let src := repeat 7 16 in
  exists k', copyout Sample.end_ Sample.root Sample.psz Sample.root Sample.va src Sample.k1 = Ret (0, k') /\
    copyin Sample.end_ Sample.root Sample.psz Sample.root Sample.va 16 k' = Ret ((0, src), k').
Proof.
  intros src. destruct Sample.touched as (l & l' & p & HP & _ & Np & HF). pose proof HF as [F1 _ _ _].
  assert (0 <= Sample.va < MAXVA) as Hva by (vm_compute; split; congruence).
  destruct (faulted_range Sample.end_ _ _ _ _ _ _ _ Hva HF Np) as [_ HU].
  destruct (copy_roundtrip Sample.end_ Sample.k1 l' Sample.root Sample.root Sample.psz Sample.va src F1) as (k' & E1 & _ & _ & E2).
  - assert (user_range Sample.end_ Sample.k1 l' Sample.root true (PGROUNDDOWN Sample.va + 0xff0) (PGSIZE - 0xff0)) as HU'
      by (apply user_range_tail; [exact HU|vm_compute; split; congruence]).
    replace (PGROUNDDOWN Sample.va + 0xff0) with Sample.va in HU' by reflexivity. exact HU'.
  - exists k'. split; [exact E1|exact E2].
Defined.

(** Sixteen bytes to the end of the page touched, and the next page, which is beyond
    the size the process is given here, is refused; so is the first page of all. *)
Lemma copy_rejects_witness :
  let src := repeat 7 16 in
  (exists m', copyout Sample.end_ Sample.root (2 * PGSIZE) Sample.root Sample.va (src ++ [8; 9]) Sample.k1 =
     Ret (-1, set_mem m' Sample.k1) /\ copied (kmemory Sample.k1) m' Sample.root Sample.va src) /\
  copyin Sample.end_ Sample.root 0 Sample.root 0 1 Sample.k0 = Ret ((-1, []), Sample.k0).
Proof.
  intros src. split.
  - destruct Sample.touched as (l & l' & p & HP & _ & Np & HF). pose proof HF as [F1 F2 _ _].
    assert (0 <= Sample.va < MAXVA) as Hva by (vm_compute; split; congruence).
    destruct (faulted_range Sample.end_ _ _ _ _ _ _ _ Hva HF Np) as [_ HU].
    refine (proj1 (copy_rejects Sample.end_ Sample.k1 l' Sample.root (2 * PGSIZE) Sample.va true src [8; 9] _ _) eq_refl _);
      [|discriminate|].
    + right. split; [exact F1|]. split; [|reflexivity].
      assert (user_range Sample.end_ Sample.k1 l' Sample.root true (PGROUNDDOWN Sample.va + 0xff0) (PGSIZE - 0xff0)) as HU'
        by (apply user_range_tail; [exact HU|vm_compute; split; congruence]).
      replace (PGROUNDDOWN Sample.va + 0xff0) with Sample.va in HU' by reflexivity. exact HU'.
    + left. right. split; [vm_compute; split; congruence|]. left. split; [|vm_compute; congruence].
      destruct Sample.table as (l0 & _ & Hz). rewrite F2 by (vm_compute; split; congruence). rewrite Hz.
      replace (same_page (Sample.va + Z.of_nat (length src)) Sample.va) with false by reflexivity. reflexivity.
  - destruct Sample.table as (l & HP & Hz).
    refine (proj1 (proj1 (proj2 (copy_rejects Sample.end_ Sample.k0 l Sample.root 0 0 true [] [1] _ _)) _) _);
      [left; reflexivity|discriminate| |vm_compute; congruence].
    right. split; [vm_compute; split; congruence|]. left. rewrite Hz. split; [reflexivity|vm_compute; congruence].
Defined.
