(* ===== verification/VmKernel.v ===== *)
(** * The kernel's address space: [kvmmake] of [kernel/vm.c], [proc_mapstacks] and
    [proc_pagetable] of [kernel/proc.c]

    [etext] and [trampoline] are the addresses the linker gives. *)

From S2P Require Import Prelude Riscv CString Mlfq Kalloc Vm VmMap VmUser.

Definition UART0 : Z := 0x10000000.
Definition VIRTIO0 : Z := 0x10001000.
Definition PLIC : Z := 0x0c000000.

Section Kernel.
Context (end_ etext trampoline : Z).

(** The loop of [proc_mapstacks], from slot [i]. *)
Fixpoint mapstacks_loop (n : nat) (i kpgtbl : Z) : M kmem unit :=
  match n with
  | O => mret tt
  | S n' =>
    pa ← kalloc;
    _ ← panic_if (pa =? 0) "kalloc";
    _ ← kvmmap kpgtbl (KSTACK i) pa PGSIZE (Z.lor PTE_R PTE_W);
    mapstacks_loop n' (i + 1) kpgtbl
  end.
Definition proc_mapstacks (kpgtbl : Z) : M kmem unit := mapstacks_loop NPROC 0 kpgtbl.

Definition kvmmake : M kmem Z :=
  kpgtbl ← kalloc;
  _ ← zero_page kpgtbl;
  _ ← kvmmap kpgtbl UART0 UART0 PGSIZE (Z.lor PTE_R PTE_W);
  _ ← kvmmap kpgtbl VIRTIO0 VIRTIO0 PGSIZE (Z.lor PTE_R PTE_W);
  _ ← kvmmap kpgtbl PLIC PLIC 0x4000000 (Z.lor PTE_R PTE_W);
  _ ← kvmmap kpgtbl KERNBASE KERNBASE (etext - KERNBASE) (Z.lor PTE_R PTE_X);
  _ ← kvmmap kpgtbl etext etext (PHYSTOP - etext) (Z.lor PTE_R PTE_W);
  _ ← kvmmap kpgtbl TRAMPOLINE trampoline PGSIZE (Z.lor PTE_R PTE_X);
  _ ← proc_mapstacks kpgtbl;
  mret kpgtbl.

(** The page table of a process whose trap frame is the page [trapframe]. *)
Definition proc_pagetable (trapframe : Z) : M kmem Z :=
  pagetable ← uvmcreate;
  if pagetable =? 0 then mret 0
  else
    r ← mappages pagetable TRAMPOLINE PGSIZE trampoline (Z.lor PTE_R PTE_X);
    if r <? 0 then _ ← uvmfree end_ pagetable 0; mret 0
    else
      r ← mappages pagetable TRAPFRAME PGSIZE trapframe (Z.lor PTE_R PTE_W);
      if r <? 0 then
        _ ← uvmunmap end_ pagetable TRAMPOLINE 1 false;
        _ ← uvmfree end_ pagetable 0;
        mret 0
      else mret pagetable.

Definition proc_freepagetable (pagetable sz : Z) : M kmem unit :=
  _ ← uvmunmap end_ pagetable TRAMPOLINE 1 false;
  _ ← uvmunmap end_ pagetable TRAPFRAME 1 false;
  uvmfree end_ pagetable sz.

(** ** Page tables made of regions *)

Record region := mkR { r_va : Z; r_pa : Z; r_size : Z; r_perm : Z }.

Definition in_region (r : region) (va : Z) : bool := (r_va r <=? va) && (va <? r_va r + r_size r).

(** The entry of [va] in a table with the regions [rs], 0 outside of them. *)
Fixpoint entry_of (rs : list region) (va : Z) : Z :=
  match rs with
  | [] => 0
  | r :: rs' =>
    if in_region r va
    then Z.lor (Z.lor (PA2PTE (r_pa r + (va / PGSIZE - r_va r / PGSIZE) * PGSIZE)) (r_perm r)) PTE_V
    else entry_of rs' va
  end.

Definition apart (r r' : region) : Prop := r_va r + r_size r <= r_va r' \/ r_va r' + r_size r' <= r_va r.

(** A region [mappages] accepts. *)
Definition region_ok (r : region) : Prop :=
  0 <= r_va r /\ r_va r + r_size r <= MAXVA /\ r_va r mod PGSIZE = 0 /\ 0 < r_size r /\
  r_size r mod PGSIZE = 0 /\ 0 <= r_pa r /\ r_pa r + r_size r <= 2 ^ 56 /\ r_pa r mod PGSIZE = 0 /\
  0 <= r_perm r < 1024.

(** The table at [root] has exactly the regions [rs]. *)
Record table_of (k : kmem) (l : list Z) (root : Z) (rs : list region) : Prop := {
  to_pt : PT end_ k l root;
  to_val : forall va, 0 <= va < MAXVA -> pteval (kmemory k) root va = entry_of rs va
}.

Lemma entry_of_none rs va : Forall (fun r => in_region r va = false) rs -> entry_of rs va = 0.
Proof. induction 1 as [|r rs H _ IH]; cbn [entry_of]; [done|]. by rewrite H. Qed.

Lemma apart_out r r' va : apart r r' -> in_region r va = true -> in_region r' va = false.
Proof.
  unfold apart, in_region. intros H. destruct (Z.leb_spec (r_va r) va), (Z.ltb_spec va (r_va r + r_size r)); try done.
  intros _. destruct (Z.leb_spec (r_va r') va), (Z.ltb_spec va (r_va r' + r_size r')); try done; lia.
Qed.

(** The free pages a region may take for its tables. *)
Definition cost (r : region) : Z := 2 + 2 * ((r_va r + r_size r - PGSIZE) / 2 ^ 21 - r_va r / 2 ^ 21).

(** [kvmmap] adds a region that is apart from the others, or panics without memory. *)
Lemma kvmmap_region k l root rs r :
  table_of k l root rs -> region_ok r -> Forall (apart r) rs ->
  (exists k' l', kvmmap root (r_va r) (r_pa r) (r_size r) (r_perm r) k = Ret (tt, k') /\
     table_of k' l' root (r :: rs) /\ (forall x, x ∈ l' -> x ∈ l) /\
     Z.of_nat (length l) <= Z.of_nat (length l') + cost r) \/
  (kvmmap root (r_va r) (r_pa r) (r_size r) (r_perm r) k = Panic "kvmmap" /\ Z.of_nat (length l) <= cost r).
Proof.
  intros [HP Hval] (H1 & H2 & H3 & H4 & H5 & H6 & H7 & H8 & H9) Hap. unfold kvmmap, mappages.
  rewrite (proj2 (Z.eqb_eq _ _) H3), (proj2 (Z.eqb_eq _ _) H5), (proj2 (Z.eqb_neq (r_size r) 0)) by lia. cbn [negb].
  pose proof (aligned_div _ H5) as Es. set (n := Z.to_nat (r_size r / PGSIZE - 1)).
  assert (0 < r_size r / PGSIZE) as Hq by (unfold PGSIZE in *; lia).
  assert (Z.of_nat (S n) * PGSIZE = r_size r) as En by (unfold n; unfold PGSIZE in *; lia).
  assert (range_free (kmemory k) root (S n) (r_va r)) as Hfree.
  { intros va Hva. rewrite En in Hva. rewrite Hval, entry_of_none; [done| |lia].
    eapply list.Forall_impl; [exact Hap|]. intros r' Hr. apply (apart_out r); [done|]. unfold in_region.
    by rewrite (proj2 (Z.leb_le _ _)), (proj2 (Z.ltb_lt _ _)) by lia. }
  destruct (map_loop_tables end_ n k l root (r_va r) (r_pa r) (r_perm r) HP H1 ltac:(lia) H3 H8 H6 ltac:(lia) H9 Hfree)
    as (x & k' & l' & E & Hc & HH).
  assert (new_tables (kmemory k) root n (r_va r) <= cost r) as Hcost.
  { unfold new_tables, cost, missing. replace (r_va r + Z.of_nat n * PGSIZE) with (r_va r + r_size r - PGSIZE) by lia.
    destruct (leaf _ _ _); lia. }
  destruct HH as [(-> & Hm)|(-> & -> & _)].
  - left. exists k', l'. split.
    { rewrite (M_bind_Ret _ _ k 0 k'); [done|]. exact E. }
    pose proof Hm as [M1 M2 M3 M4 _]. split; [|split; [done|lia]]. split; [done|].
    intros va Hva. rewrite M2, Hval by done. unfold mapped_at. rewrite En. cbn [entry_of]. by unfold in_region; destruct (_ && _).
  - right. split; [|cbn in Hc; lia]. unfold mbind, M_bind. cbn [panic_if]. unfold panic_if, mret, M_ret. by rewrite E.
Qed.

(** ** Kernel stacks *)

Definition stack_region (i pa : Z) : region := mkR (KSTACK i) pa PGSIZE (Z.lor PTE_R PTE_W).

Fixpoint with_stacks (i : Z) (pas : list Z) (rs : list region) : list region :=
  match pas with [] => rs | pa :: pas' => with_stacks (i + 1) pas' (stack_region i pa :: rs) end.

Lemma alloc_page k p l root rs :
  table_of k (p :: l) root rs ->
  exists k', kalloc k = Ret (p, k') /\ table_of k' l root rs /\ page end_ p /\ p ∉ l /\ ~ is_table (kmemory k') root p.
Proof.
  intros [HP Hval]. destruct (kalloc_spec end_ k (p :: l) (pt_k _ _ _ _ HP)) as (k1 & E & Hp & Hni & HK1 & Hm).
  destruct (PT_agree end_ k k1 (p :: l) l root HP HK1) as (A & B & C).
  { intros d Hd. destruct (pt_table _ _ _ _ HP d Hd) as [Hdp Hdn]. apply not_elem_of_cons in Hdn as [N Hdn].
    split; [|done]. intros x Hx. apply Hm. destruct (page_apart end_ d p Hdp Hp N); lia. }
  exists k1. split; [done|]. split; [|split; [done|split; [done|]]].
  - split; [done|]. intros va Hva. rewrite B. by apply Hval.
  - rewrite C. intros Ht. destruct (pt_table _ _ _ _ HP p Ht) as [_ Hx]. apply Hx. left.
Qed.

Lemma stack_ok i pa : 0 <= i < 64 -> page end_ pa -> region_ok (stack_region i pa).
Proof.
  intros Hi (H1 & H2 & H3). unfold region_ok, stack_region, KSTACK, TRAMPOLINE. cbn [r_va r_pa r_size r_perm].
  unfold PHYSTOP, KERNBASE in H2. rewrite MAXVA_val. unfold PGSIZE in *.
  split; [lia|]. split; [lia|]. split.
  { replace (2 ^ 38 - 4096 - (i + 1) * 2 * 4096) with ((2 ^ 26 - 1 - (i + 1) * 2) * 4096) by lia. by apply Z.mod_mul. }
  split; [lia|]. split; [done|]. split; [lia|]. split; [lia|]. split; [done|]. vm_compute. split; congruence.
Qed.

Lemma stack_cost i pa : cost (stack_region i pa) = 2.
Proof. unfold cost, stack_region. cbn [r_va r_size]. by rewrite Z.add_simpl_r, Z.sub_diag. Qed.

Lemma mapstacks_spec n : forall i k l root rs,
  table_of k l root rs -> 0 <= i -> i + Z.of_nat n <= 64 ->
  (forall j, i <= j < 64 -> Forall (apart (stack_region j 0)) rs) ->
  (exists pas k' l', mapstacks_loop n i root k = Ret (tt, k') /\ table_of k' l' root (with_stacks i pas rs) /\
     length pas = n /\ NoDup pas /\ forall x, x ∈ pas -> x ∈ l /\ page end_ x) \/
  (exists msg, mapstacks_loop n i root k = Panic msg /\ Z.of_nat (length l) <= 3 * Z.of_nat n).
Proof.
  induction n as [|n IH]; intros i k l root rs HT Hi Hn Hap.
  { left. exists [], k, l. split; [done|]. split; [done|]. split; [done|]. split; [constructor|set_solver]. }
  cbn [mapstacks_loop]. destruct l as [|p l].
  { right. exists "kalloc". pose proof (kalloc_spec end_ k [] (pt_k _ _ _ _ (to_pt _ _ _ _ HT))) as E.
    rewrite (M_bind_Ret _ _ _ _ _ E). split; [done|cbn [length]; lia]. }
  destruct (alloc_page k p l root rs HT) as (k1 & E & HT1 & Hp & Hni & Hnt). rewrite (M_bind_Ret _ _ _ _ _ E).
  pose proof Hp as (_ & _ & Hp0). rewrite (proj2 (Z.eqb_neq p 0)) by lia. rewrite (M_bind_Ret _ _ k1 tt k1) by done.
  destruct (kvmmap_region k1 l root rs (stack_region i p) HT1) as [(k2 & l2 & E2 & HT2 & Hl2 & Hc2)|[E2 Hc2]].
  { apply stack_ok; [lia|done]. }
  { apply (Hap i). lia. }
  2:{ right. exists "kvmmap". unfold mbind, M_bind. unfold stack_region in E2. cbn [r_va r_pa r_size r_perm] in E2. rewrite E2.
      split; [done|]. rewrite stack_cost in Hc2. cbn [length]. lia. }
  rewrite stack_cost in Hc2.
  unfold stack_region in E2. cbn [r_va r_pa r_size r_perm] in E2. rewrite (M_bind_Ret _ _ _ _ _ E2).
  destruct (IH (i + 1) k2 l2 root _ HT2) as [(pas & k3 & l3 & E3 & HT3 & Hlen & Hnd & Hin)|(msg & E3 & Hc3)]; [lia|lia| | |].
  - intros j Hj. apply list.Forall_cons. split; [|apply Hap; lia]. unfold apart, stack_region, KSTACK. cbn [r_va r_size].
    unfold PGSIZE. lia.
  - left. exists (p :: pas), k3, l3. split; [done|]. split; [done|]. split; [cbn; lia|]. split.
    + constructor; [|done]. intros Hx. destruct (Hin p Hx) as [Hy _]. by apply Hni, Hl2.
    + intros x [->|Hx]%elem_of_cons; [split; [left|done]|]. destruct (Hin x Hx) as [Hy Hz]. split; [right; by apply Hl2|done].
  - right. exists msg. split; [done|]. cbn [length]. lia.
Qed.

(** The regions of the kernel other than the stacks, the last mapped first. *)
Definition fixed_regions : list region :=
  [mkR TRAMPOLINE trampoline PGSIZE (Z.lor PTE_R PTE_X);
   mkR etext etext (PHYSTOP - etext) (Z.lor PTE_R PTE_W);
   mkR KERNBASE KERNBASE (etext - KERNBASE) (Z.lor PTE_R PTE_X);
   mkR PLIC PLIC 0x4000000 (Z.lor PTE_R PTE_W);
   mkR VIRTIO0 VIRTIO0 PGSIZE (Z.lor PTE_R PTE_W);
   mkR UART0 UART0 PGSIZE (Z.lor PTE_R PTE_W)].

(** What the linker guarantees. *)
Definition linked_ok : Prop :=
  KERNBASE < etext < PHYSTOP /\ etext mod PGSIZE = 0 /\ KERNBASE <= trampoline < etext /\ trampoline mod PGSIZE = 0.

Lemma fixed_ok : linked_ok -> Forall region_ok fixed_regions /\
  (forall j, 0 <= j < 64 -> Forall (apart (stack_region j 0)) fixed_regions).
Proof.
  intros ((H1 & H2) & H3 & (H4 & H5) & H6). unfold PHYSTOP, KERNBASE in *. split.
  - unfold fixed_regions, region_ok. rewrite MAXVA_val. unfold TRAMPOLINE, PHYSTOP, KERNBASE, PLIC, VIRTIO0, UART0.
    rewrite MAXVA_val. repeat apply list.Forall_cons_2; [..|apply list.Forall_nil_2]; cbn [r_va r_pa r_size r_perm];
      (split; [unfold PGSIZE; lia|]; split; [unfold PGSIZE; lia|]; split; [first [done|by rewrite Zminus_mod, H3]|]; split; [unfold PGSIZE; lia|]; split; [first [done|by rewrite Zminus_mod, H3]|];
       split; [lia|]; split; [unfold PGSIZE; lia|]; split; [done|vm_compute; split; congruence]).
  - intros j Hj. unfold fixed_regions, apart, stack_region, KSTACK, TRAMPOLINE. rewrite MAXVA_val.
    unfold PHYSTOP, KERNBASE, PLIC, VIRTIO0, UART0.
    repeat apply list.Forall_cons_2; [..|apply list.Forall_nil_2]; cbn [r_va r_size]; unfold PGSIZE; lia.
Qed.

Definition costs (rs : list region) : Z := foldr (fun r c => cost r + c) 0 rs.

Lemma fixed_costs : linked_ok -> costs fixed_regions <= 200.
Proof.
  intros ((H1 & H2) & H3 & (H4 & H5) & H6). unfold PHYSTOP, KERNBASE in *. unfold costs, cost, fixed_regions.
  cbn [foldr r_va r_size]. unfold TRAMPOLINE, PHYSTOP, KERNBASE, PLIC, VIRTIO0, UART0. rewrite MAXVA_val. unfold PGSIZE.
  change (2 ^ 21) with 2097152.
  replace (0x80000000 + (etext - 0x80000000) - 4096) with (etext - 4096) by lia.
  replace (etext + (0x80000000 + 128 * 1024 * 1024 - etext) - 4096) with (0x80000000 + 128 * 1024 * 1024 - 4096) by lia.
  assert ((etext - 4096) / 2097152 <= etext / 2097152) by (apply Z.div_le_mono; lia).
  change ((2 ^ 38 - 4096 + 4096 - 4096) / 2097152) with 131071. change ((2 ^ 38 - 4096) / 2097152) with 131071.
  change ((2147483648 + 128 * 1024 * 1024 - 4096) / 2097152) with 1087. change (2147483648 / 2097152) with 1024.
  change ((201326592 + 67108864 - 4096) / 2097152) with 127. change (201326592 / 2097152) with 96.
  change ((268439552 + 4096 - 4096) / 2097152) with 128. change (268439552 / 2097152) with 128.
  change ((268435456 + 4096 - 4096) / 2097152) with 128. change (268435456 / 2097152) with 128. lia.
Qed.

(** Mapping a list of regions, the last of the list first. *)
Fixpoint map_regions (root : Z) (rs : list region) : M kmem unit :=
  match rs with
  | [] => mret tt
  | r :: rs' => _ ← map_regions root rs'; kvmmap root (r_va r) (r_pa r) (r_size r) (r_perm r)
  end.

Lemma map_regions_spec root rs : forall k l,
  table_of k l root [] -> Forall region_ok rs -> ForallOrdPairs apart rs ->
  (exists k' l', map_regions root rs k = Ret (tt, k') /\ table_of k' l' root rs /\
     Z.of_nat (length l) <= Z.of_nat (length l') + costs rs) \/
  (exists msg, map_regions root rs k = Panic msg /\ Z.of_nat (length l) <= costs rs).
Proof.
  induction rs as [|r rs IH]; intros k l HT Hok Hap; cbn [map_regions costs foldr]; [left; exists k, l; split; [done|]; split; [done|lia]|].
  apply list.Forall_cons in Hok as [Hr Hok]. inversion Hap as [|? ? Hra Hap']. subst. fold (costs rs).
  assert (0 <= cost r) as Hc0.
  { destruct Hr as (H1 & H2 & H3 & H4 & H5 & _). unfold cost. pose proof (aligned_div _ H5).
    assert (r_va r / 2 ^ 21 <= (r_va r + r_size r - PGSIZE) / 2 ^ 21); [|lia]. apply Z.div_le_mono; unfold PGSIZE in *; lia. }
  destruct (IH k l HT Hok Hap') as [(k1 & l1 & E1 & HT1 & Hc1)|(msg & E1 & Hc1)].
  - rewrite (M_bind_Ret _ _ _ _ _ E1).
    destruct (kvmmap_region k1 l1 root rs r HT1 Hr Hra) as [(k2 & l2 & E2 & HT2 & _ & Hc2)|[E2 Hc2]].
    + left. exists k2, l2. split; [done|]. split; [done|]. lia.
    + right. exists "kvmmap". split; [done|]. lia.
  - right. exists msg. split; [unfold mbind, M_bind; by rewrite E1|]. lia.
Qed.

Lemma fixed_apart : linked_ok -> ForallOrdPairs apart fixed_regions.
Proof.
  intros ((H1 & H2) & H3 & (H4 & H5) & H6). unfold PHYSTOP, KERNBASE in *. unfold fixed_regions, apart.
  repeat first [apply FOP_nil|apply FOP_cons|apply list.Forall_nil_2|apply list.Forall_cons_2]; cbn [r_va r_size]; unfold TRAMPOLINE, PHYSTOP, KERNBASE, PLIC, VIRTIO0, UART0, PGSIZE;
    rewrite ?MAXVA_val; lia.
Qed.

(** Enough free pages for the kernel's page table and stacks. *)
Definition kvm_pages : Z := 200 + 3 * Z.of_nat NPROC.

Lemma kvmmake_run k p l :
  linked_ok -> KInv end_ k (p :: l) ->
  (exists k' l' pas, kvmmake k = Ret (p, k') /\ table_of k' l' p (with_stacks 0 pas fixed_regions) /\
     length pas = NPROC /\ NoDup pas /\ forall x, x ∈ pas -> page end_ x) \/
  (exists msg, kvmmake k = Panic msg /\ Z.of_nat (length l) <= kvm_pages).
Proof.
  intros HL HK. destruct (uvmcreate_spec end_ k p l HK) as (k1 & E1 & HP & Hz & _).
  assert (table_of k1 l p []) as HT by (split; [done|]; intros va _; apply Hz).
  assert (kvmmake k = (_ ← map_regions p fixed_regions; _ ← proc_mapstacks p; mret p) k1) as ->.
  { destruct (kalloc_spec end_ k (p :: l) HK) as (k2 & Ek & (_ & _ & H0) & _). revert E1.
    unfold uvmcreate, kvmmake. rewrite !(M_bind_Ret _ _ _ _ _ Ek), (proj2 (Z.eqb_neq p 0)) by lia.
    unfold mbind at 1, M_bind at 1. destruct (zero_page p k2) as [[[] k3]| |] eqn:Ez; try done. intros [= ->].
    unfold mbind at 1, M_bind at 1. rewrite Ez. cbn [map_regions fixed_regions r_va r_pa r_size r_perm].
    unfold mbind, M_bind, mret, M_ret. by repeat match goal with |- context [kvmmap ?a ?b ?c ?d ?e ?f] =>
      destruct (kvmmap a b c d e f) as [[[] ?]| |] end. }
  destruct (fixed_ok HL) as [Hok Hst].
  destruct (map_regions_spec p fixed_regions k1 l HT Hok (fixed_apart HL)) as [(k2 & l2 & E2 & HT2 & Hc2)|(msg & E2 & Hc2)];
    pose proof (fixed_costs HL) as Hf; unfold kvm_pages.
  2:{ right. exists msg. split; [unfold mbind, M_bind; by rewrite E2|lia]. }
  rewrite (M_bind_Ret _ _ _ _ _ E2).
  destruct (mapstacks_spec NPROC 0 k2 l2 p _ HT2) as [(pas & k3 & l3 & E3 & HT3 & Hlen & Hnd & Hin)|(msg & E3 & Hc3)];
    [lia|done|done| |].
  - left. exists k3, l3, pas. split; [unfold proc_mapstacks; by rewrite (M_bind_Ret _ _ _ _ _ E3)|].
    split; [done|]. split; [done|]. split; [done|]. intros x Hx. by apply Hin.
  - right. exists msg. split; [unfold mbind, M_bind, proc_mapstacks; by rewrite E3|lia].
Qed.
End Kernel.

(** ** What the entries allow *)

Lemma entry_fields rs va :
  Forall region_ok rs -> (entry_of rs va = 0 /\ forall r, r ∈ rs -> in_region r va = false) \/
  exists r, r ∈ rs /\ in_region r va = true /\
    PTE2PA (entry_of rs va) = r_pa r + (va / PGSIZE - r_va r / PGSIZE) * PGSIZE /\
    forall i, 0 <= i < 10 -> Z.testbit (entry_of rs va) i = Z.testbit (r_perm r) i || (i =? 0).
Proof.
  induction 1 as [|r rs Hr _ IH]; cbn [entry_of]; [left; split; [done|set_solver]|]. destruct (in_region r va) eqn:Ei.
  - right. exists r. split; [left|]. split; [done|].
    destruct Hr as (H1 & H2 & H3 & H4 & H5 & H6 & H7 & H8 & H9).
    unfold in_region in Ei. apply andb_true_iff in Ei as [Ea%Z.leb_le Eb%Z.ltb_lt].
    pose proof (aligned_div _ H3). pose proof (Z.div_mod va PGSIZE ltac:(done)).
    pose proof (Z.mod_pos_bound va PGSIZE ltac:(done)).
    destruct (leaf_entry (r_pa r + (va / PGSIZE - r_va r / PGSIZE) * PGSIZE) (r_perm r)) as (L1 & L2 & _);
      [by rewrite Z.mod_add|unfold PGSIZE in *; lia|done|done].
  - destruct IH as [[IH1 IH2]|(r' & Hin & HH)]; [left; split; [done|]; intros r' [->|Hr']%elem_of_cons; auto|right]. exists r'. split; [by right|done].
Qed.

Lemma elem_of_stacks pas : forall i rs r,
  r ∈ with_stacks i pas rs -> r ∈ rs \/ exists j pa, i <= j < i + Z.of_nat (length pas) /\ pa ∈ pas /\ r = stack_region j pa.
Proof.
  induction pas as [|pa pas IH]; intros i rs r Hr; cbn [with_stacks] in Hr; [by left|].
  apply IH in Hr as [[->|Hr]%elem_of_cons|(j & pa' & Hj & Hin & ->)].
  - right. exists i, pa. split; [cbn; lia|]. split; [left|done].
  - by left.
  - right. exists j, pa'. split; [cbn; lia|]. split; [by right|done].
Qed.

Lemma stacks_keep pas : forall i rs r, r ∈ rs -> r ∈ with_stacks i pas rs.
Proof. induction pas as [|pa pas IH]; intros i rs r Hr; cbn [with_stacks]; [done|]. apply IH. by right. Qed.

Section Layout.
Context (end_ etext trampoline : Z) (HL : linked_ok etext trampoline).
Context (pas : list Z) (Hlen : length pas = NPROC) (Hpas : forall x, x ∈ pas -> page end_ x).
Let rs := with_stacks 0 pas (fixed_regions etext trampoline).

Lemma layout_region r : r ∈ rs -> r ∈ fixed_regions etext trampoline \/
  exists j pa, 0 <= j < 64 /\ page end_ pa /\ r = stack_region j pa.
Proof.
  intros [H|(j & pa & Hj & Hin & ->)]%elem_of_stacks; [by left|right]. exists j, pa. rewrite Hlen in Hj.
  split; [exact Hj|]. split; [by apply Hpas|done].
Qed.

Lemma layout_ok : Forall region_ok rs.
Proof.
  apply list.Forall_forall. intros r [Hr|(j & pa & Hj & Hp & ->)]%layout_region.
  - destruct (fixed_ok etext trampoline HL) as [H _]. rewrite list.Forall_forall in H. by apply H.
  - by apply (stack_ok end_).
Qed.

(** Nothing is writable and executable, nothing is open to user code. *)
Lemma layout_wx va : let e := entry_of rs va in has e PTE_W && has e PTE_X = false /\ has e PTE_U = false.
Proof.
  cbv zeta. destruct (entry_fields rs va layout_ok) as [[-> _]|(r & Hr & _ & _ & Hb)]; [done|].
  unfold PTE_W, PTE_X, PTE_U. rewrite !has_testbit, !Hb by lia. cbn [Z.eqb]. rewrite !orb_false_r.
  apply layout_region in Hr as [Hr|(j & pa & _ & _ & ->)]; [|done].
  unfold fixed_regions in Hr. rewrite !elem_of_cons, elem_of_nil in Hr. by decompose [or] Hr; subst.
Qed.

(** The page under each stack is not mapped. *)
Lemma layout_guard i va : 0 <= i < 64 -> KSTACK i - PGSIZE <= va < KSTACK i -> entry_of rs va = 0.
Proof.
  intros Hi Hva. apply entry_of_none. apply list.Forall_forall. intros r Hr.
  assert (r_va r + r_size r <= va \/ va < r_va r) as Ho.
  { destruct HL as ((H1 & H2) & _ & (H4 & H5) & _). unfold PHYSTOP, KERNBASE, KSTACK, TRAMPOLINE in *. rewrite MAXVA_val in *.
    unfold PGSIZE in *. apply layout_region in Hr as [Hr|(j & pa & Hj & _ & ->)].
    - unfold fixed_regions in Hr. rewrite !elem_of_cons, elem_of_nil in Hr. unfold TRAMPOLINE, PHYSTOP, KERNBASE in Hr.
      rewrite MAXVA_val in Hr. unfold PLIC, VIRTIO0, UART0, PGSIZE in Hr. decompose [or] Hr; subst; cbn [r_va r_size]; lia || done.
    - unfold stack_region, KSTACK, TRAMPOLINE. rewrite MAXVA_val. unfold PGSIZE. cbn [r_va r_size]. lia. }
  unfold in_region. destruct (Z.leb_spec (r_va r) va), (Z.ltb_spec va (r_va r + r_size r)); try done; lia.
Qed.

(** Memory is mapped one to one; it is executable below [etext] and writable above. *)
Lemma layout_ram va : KERNBASE <= va < PHYSTOP ->
  let e := entry_of rs va in
  has e PTE_V = true /\ has e PTE_R = true /\ PTE2PA e = va / PGSIZE * PGSIZE /\
  has e PTE_X = (va <? etext) /\ has e PTE_W = (etext <=? va).
Proof.
  intros Hva. cbv zeta. destruct HL as ((H1 & H2) & H3 & (H4 & H5) & H6).
  assert (forall r, r ∈ rs -> in_region r va = true ->
    r = mkR etext etext (PHYSTOP - etext) (Z.lor PTE_R PTE_W) \/ r = mkR KERNBASE KERNBASE (etext - KERNBASE) (Z.lor PTE_R PTE_X)) as Hin.
  { intros r Hr. unfold in_region. rewrite andb_true_iff, Z.leb_le, Z.ltb_lt. unfold PHYSTOP, KERNBASE in Hva.
    apply layout_region in Hr as [Hr|(j & pa & Hj & _ & ->)].
    - unfold fixed_regions in Hr. rewrite !elem_of_cons, elem_of_nil in Hr. unfold TRAMPOLINE in Hr. rewrite MAXVA_val in Hr.
      unfold PLIC, VIRTIO0, UART0 in Hr.
      destruct Hr as [->|[->|[->|[->|[->|[->|[]]]]]]]; cbn [r_va r_size]; unfold PGSIZE; intros; [lia|by left|by right|lia|lia|lia].
    - unfold stack_region, KSTACK, TRAMPOLINE. rewrite MAXVA_val. unfold PGSIZE. cbn [r_va r_size]. lia. }
  destruct (entry_fields rs va layout_ok) as [[_ Hout]|(r & Hr & Hi & Hp & Hb)].
  { exfalso. set (r := if etext <=? va then mkR etext etext (PHYSTOP - etext) (Z.lor PTE_R PTE_W)
                     else mkR KERNBASE KERNBASE (etext - KERNBASE) (Z.lor PTE_R PTE_X)).
    assert (in_region r va = false) as Hf.
    { apply Hout, stacks_keep. unfold r, fixed_regions. destruct (etext <=? va); set_solver. }
    unfold r, in_region in Hf. apply andb_false_iff in Hf. rewrite Z.leb_gt, Z.ltb_ge in Hf.
    destruct (Z.leb_spec etext va); cbn [r_va r_size] in Hf; lia. }
  unfold PTE_V, PTE_R, PTE_X, PTE_W. rewrite !has_testbit, !Hb, Hp by lia. cbn [Z.eqb].
  unfold in_region in Hi. pose proof (Hin r Hr Hi) as Hor. rewrite andb_true_iff, Z.leb_le, Z.ltb_lt in Hi.
  rewrite !orb_false_r, orb_true_r. split; [done|].
  assert (forall x, x mod PGSIZE = 0 -> x + (va / PGSIZE - x / PGSIZE) * PGSIZE = va / PGSIZE * PGSIZE) as Hx.
  { intros x Hx. pose proof (aligned_div x Hx). lia. }
  destruct Hor as [->| ->]; cbn [r_va r_pa r_size r_perm] in *; (split; [done|]; split; [by apply Hx|]).
  - rewrite (proj2 (Z.ltb_ge va etext)), (proj2 (Z.leb_le etext va)) by lia. done.
  - rewrite (proj2 (Z.ltb_lt va etext)), (proj2 (Z.leb_gt etext va)) by lia. done.
Qed.
End Layout.

(** ** Theorems *)

(** C30: the kernel's page table.  Given the free pages it takes ([kvm_pages], 392, and
    the root), [kvmmake] does not panic and maps exactly the devices, the kernel's
    text and data, the trampoline and one stack per process slot, each on a page of
    its own: physical memory one to one, executable below [etext] and writable above;
    no page both writable and executable; none open to user code; and the page under
    every stack unmapped, so that an overflow faults. *)
Theorem kvmmake_layout end_ etext trampoline k p l :
  linked_ok etext trampoline -> KInv end_ k (p :: l) -> kvm_pages < Z.of_nat (length l) ->
  exists k' l' pas, kvmmake etext trampoline k = Ret (p, k') /\ length pas = NPROC /\ NoDup pas /\
    table_of end_ k' l' p (with_stacks 0 pas (fixed_regions etext trampoline)) /\
    forall va, 0 <= va < MAXVA ->
      let e := pteval (kmemory k') p va in
      has e PTE_W && has e PTE_X = false /\ has e PTE_U = false /\
      (KERNBASE <= va < PHYSTOP ->
       has e PTE_V = true /\ has e PTE_R = true /\ PTE2PA e = va / PGSIZE * PGSIZE /\
       has e PTE_X = (va <? etext) /\ has e PTE_W = (etext <=? va)) /\
      (forall i, 0 <= i < Z.of_nat NPROC -> KSTACK i - PGSIZE <= va < KSTACK i -> e = 0).
Proof.
  intros HL HK Hen. destruct (kvmmake_run end_ etext trampoline k p l HL HK)
    as [(k' & l' & pas & E & HT & Hlen & Hnd & Hpg)|(msg & _ & H)]; [|lia].
  exists k', l', pas. split; [done|]. split; [done|]. split; [done|]. split; [done|].
  intros va Hva. cbv zeta. rewrite (to_val _ _ _ _ _ HT) by done.
  destruct (layout_wx end_ etext trampoline HL pas Hlen Hpg va) as [W1 W2]. split; [done|]. split; [done|]. split.
  - intros Hr. by apply (layout_ram end_).
  - intros i Hi Hg. by apply (layout_guard end_ etext trampoline HL pas Hlen Hpg i).
Qed.

(** Two pages of text, the trampoline is the second; half of memory is free after
    [kinit]. *)
Lemma kvmmake_layout_witness :
  exists k p k', kinit (KERNBASE + 0x4000000) (mkK (fun _ => 0) 0) = Ret (tt, k) /\
    kvmmake (KERNBASE + 2 * PGSIZE) (KERNBASE + PGSIZE) k = Ret (p, k') /\
    PTE2PA (pteval (kmemory k') p (KERNBASE + 0x5000)) = KERNBASE + 0x5000.
Proof.
  assert (linked_ok (KERNBASE + 2 * PGSIZE) (KERNBASE + PGSIZE)) as HL by (vm_compute; intuition congruence).
  set (e := KERNBASE + 0x4000000). assert (0 < e <= PHYSTOP) as He by (vm_compute; split; congruence).
  destruct (kinit_spec e He (fun _ => 0)) as (k & l & E & HK & Hl).
  assert (402 <= length l)%nat as Hlen.
  { set (ps := map (fun i => e + Z.of_nat i * PGSIZE) (seq 0 402)).
    assert (length ps = 402%nat) as <- by (unfold ps; by rewrite length_map, length_seq).
    apply submseteq_length, NoDup_submseteq.
    - assert (Inj (=) (=) (fun i : nat => e + Z.of_nat i * PGSIZE)) as Hinj by (intros a b Hab; unfold PGSIZE in Hab; lia).
      unfold ps. apply (NoDup_fmap_2 (fun i : nat => e + Z.of_nat i * PGSIZE)), NoDup_seq.
    - intros x (i & -> & Hi%elem_of_seq)%list_elem_of_fmap. apply Hl. unfold page, e, KERNBASE, PHYSTOP, KERNBASE, PGSIZE.
      split; [|lia]. replace (0x80000000 + 0x4000000 + Z.of_nat i * 4096) with ((0x84000 + Z.of_nat i) * 4096) by lia.
      by apply Z.mod_mul. }
  destruct l as [|p l]; [cbn in Hlen; lia|]. cbn [length] in Hlen.
  destruct (kvmmake_layout e _ _ k p l HL HK ltac:(change kvm_pages with 392; lia)) as (k' & l' & pas & E' & _ & _ & _ & Hlay).
  exists k, p, k'. split; [exact E|]. split; [exact E'|].
  destruct (Hlay (KERNBASE + 0x5000) ltac:(vm_compute; split; congruence)) as (_ & _ & Hram & _).
  destruct (Hram ltac:(vm_compute; split; congruence)) as (_ & _ & -> & _). reflexivity.
Defined.
