(* ===== verification/VmSpace.v ===== *)
(** * Address spaces: growing, shrinking and copying

    [uvmalloc], [uvmdealloc] and [uvmcopy] of [vm.c] on the page tables of [VmMap] and [VmUser]:
    what [sbrk], [exec] and [fork] rely on. *)

From S2P Require Import Prelude Riscv CString Kalloc Vm VmMap VmUser.

(** The entry for page [p] with permissions [perm]. *)
Definition entry (p perm : Z) : Z := Z.lor (Z.lor (PA2PTE p) perm) PTE_V.

Section Space.
Context (end_ : Z).

Lemma entry_parts p perm : page end_ p -> 0 <= perm < 1024 ->
  PTE2PA (entry p perm) = p /\ has (entry p perm) PTE_V = true /\
  forall i, 0 < i < 10 -> has (entry p perm) (Z.shiftl 1 i) = Z.testbit perm i.
Proof.
  intros (H1 & H2 & H3) Hp. unfold PHYSTOP, KERNBASE in H2. destruct (leaf_entry p perm H1 ltac:(lia) Hp) as (E1 & E2 & _).
  split; [done|]. unfold PTE_V. split.
  - rewrite has_testbit by lia. fold (entry p perm). change (Z.lor _ PTE_V) with (entry p perm) in E2. rewrite E2 by lia. apply orb_true_r.
  - intros i Hi. rewrite has_testbit by lia. change (Z.lor _ PTE_V) with (entry p perm) in E2. rewrite E2 by lia.
    rewrite (proj2 (Z.eqb_neq i 0)) by lia. apply orb_false_r.
Qed.

(** ** One page *)

(** Mapping the page [p] in use at [va], which has no valid entry. *)
Lemma map_page k l root va p perm :
  PT end_ k l root -> 0 <= va < MAXVA -> va mod PGSIZE = 0 -> p mod PGSIZE = 0 -> 0 <= p < 2 ^ 55 -> 0 <= perm < 1024 ->
  has (pteval (kmemory k) root va) PTE_V = false ->
  exists r k' l', mappages root va PGSIZE p perm k = Ret (r, k') /\ PT end_ k' l' root /\ (forall x, x ∈ l' -> x ∈ l) /\
    (forall va', 0 <= va' < MAXVA -> pteval (kmemory k') root va' =
       if same_page va' va && (r =? 0) then entry p perm else pteval (kmemory k) root va') /\
    (forall d, page end_ d -> d ∉ l -> ~ is_table (kmemory k) root d ->
       agree (kmemory k) (kmemory k') d /\ ~ is_table (kmemory k') root d) /\
    (r = 0 \/ r = -1 /\ l' = []) /\ (length l <= length l' + 2)%nat /\
    (forall x, x ∈ l \/ is_table (kmemory k) root x -> x ∈ l' \/ is_table (kmemory k') root x).
Proof.
  intros HP Hva Hal Hpa Hpr Hperm Hv.
  assert (va + Z.of_nat 1 * PGSIZE <= MAXVA) as Hvm.
  { rewrite (aligned_div va Hal) in Hva |- *. rewrite MAXVA_val in *. unfold PGSIZE in *. lia. }
  destruct (map_loop_spec end_ 0 k l root va p perm HP ltac:(lia) Hvm Hal Hpa ltac:(lia) ltac:(unfold PGSIZE; lia) Hperm)
    as (r & k' & l' & E & Hn2 & Hr).
  { intros va' Hva'. change (Z.of_nat 1 * PGSIZE) with PGSIZE in Hva'. assert (same_page va' va = true) as Es.
    { rewrite <- page_range by done. by rewrite (proj2 (Z.leb_le _ _)), (proj2 (Z.ltb_lt _ _)) by lia. }
    by rewrite (pteval_same _ _ _ _ Es). }
  exists r, k', l'. rewrite one_page_run by done. split; [done|].
  destruct Hr as [(-> & [M1 M2 M3 M4 M5])|(-> & -> & j & Hj & [M1 M2 M3 M4 M5])].
  - split; [done|]. split; [done|]. split; [|split; [done|split; [by left|split; [lia|done]]]]. intros va' Hva'. rewrite M2 by done. unfold mapped_at.
    change (Z.of_nat 1 * PGSIZE) with PGSIZE. rewrite page_range by done. cbn [Z.eqb]. rewrite andb_true_r.
    destruct (same_page va' va) eqn:Es; [|done]. apply Z.eqb_eq in Es. by rewrite Es, Z.sub_diag, Z.mul_0_l, Z.add_0_r.
  - assert (j = 0%nat) as -> by lia. split; [done|]. split; [done|]. split; [|split; [done|split; [by right|split; [lia|done]]]].
    intros va' Hva'. cbn [Z.eqb]. rewrite andb_false_r, M2 by done. unfold mapped_at. change (Z.of_nat 0 * PGSIZE) with 0.
    destruct (Z.leb_spec va va'), (Z.ltb_spec va' (va + 0)); cbn [andb]; [lia|done..].
Qed.

Lemma data_kept k k' l l' root d :
  (forall x, x ∈ l' -> x ∈ l) ->
  (forall d, page end_ d -> d ∉ l -> ~ is_table (kmemory k) root d ->
    agree (kmemory k) (kmemory k') d /\ ~ is_table (kmemory k') root d) ->
  data_page end_ k l root d -> data_page end_ k' l' root d /\ agree (kmemory k) (kmemory k') d.
Proof. intros Hl Hd (H1 & H2 & H3). destruct (Hd d H1 H2 H3) as [A B]. split; [|done]. split; [done|]. split; [auto|done]. Qed.

(** ** A new page *)

(** [m] with page [p] holding [c m 0], [c m 1], ... *)
Definition filled (c : mem -> Z -> Z) (p : Z) (m : mem) : mem :=
  fun x => if (p <=? x) && (x <? p + PGSIZE) then c m (x - p) else m x.

(** How [uvmalloc] and [uvmcopy] take a page, fill it and map it, or give it back: then [ok]
    or [fail] goes on. *)
Definition put_page (fill : Z -> M kmem unit) (root a perm : Z) (ok fail : M kmem Z) : M kmem Z :=
  p ← kalloc;
  if p =? 0 then fail
  else
    _ ← fill p;
    r ← mappages root a PGSIZE p perm;
    if r =? 0 then ok else _ ← kfree end_ p; fail.

(** What is in use is kept. *)
Definition keeps (k k' : kmem) (l : list Z) (root : Z) : Prop :=
  forall d, page end_ d -> d ∉ l -> ~ is_table (kmemory k) root d ->
    agree (kmemory k) (kmemory k') d /\ ~ is_table (kmemory k') root d.

Record put (c : mem -> Z -> Z) (k k' : kmem) (l l' : list Z) (root a perm p : Z) : Prop := {
  pu_pt : PT end_ k' l' root;
  pu_in : p ∈ l;
  pu_free : forall x, x ∈ l' -> x ∈ l;
  pu_val : forall va, 0 <= va < MAXVA -> pteval (kmemory k') root va =
    if same_page va a then entry p perm else pteval (kmemory k) root va;
  pu_page : data_page end_ k' l' root p;
  pu_content : forall o, 0 <= o < PGSIZE -> kmemory k' (p + o) = c (kmemory k) o;
  pu_keeps : keeps k k' l root;
  pu_all : forall x, x ∈ l \/ is_table (kmemory k) root x -> x ∈ l' \/ is_table (kmemory k') root x \/ x = p;
  pu_len : (length l <= length l' + 3)%nat
}.

Record unput (k k' : kmem) (l l' : list Z) (root : Z) : Prop := {
  un_pt : PT end_ k' l' root;
  un_free : forall x, x ∈ l' -> x ∈ l;
  un_val : forall va, 0 <= va < MAXVA -> pteval (kmemory k') root va = pteval (kmemory k) root va;
  un_keeps : keeps k k' l root;
  un_all : forall x, x ∈ l \/ is_table (kmemory k) root x -> x ∈ l' \/ is_table (kmemory k') root x;
  un_len : (length l <= 3)%nat
}.

Lemma put_page_run c fill root a perm ok fail k l :
  PT end_ k l root -> 0 <= a < MAXVA -> a mod PGSIZE = 0 -> 0 <= perm < 1024 ->
  has (pteval (kmemory k) root a) PTE_V = false ->
  (forall p k1, fill p k1 = Ret (tt, set_mem (filled c p (kmemory k1)) k1)) ->
  (forall m, (forall d, page end_ d -> d ∉ l -> agree (kmemory k) m d) -> forall o, 0 <= o < PGSIZE -> c m o = c (kmemory k) o) ->
  (exists p k' l', put_page fill root a perm ok fail k = ok k' /\ put c k k' l l' root a perm p) \/
  (exists k' l', put_page fill root a perm ok fail k = fail k' /\ unput k k' l l' root).
Proof.
  intros HP Ha Hal Hperm Hv Hfl Hc. unfold put_page. destruct l as [|p l].
  { right. exists k, []. rewrite (M_bind_Ret _ _ _ _ _ (kalloc_spec end_ k [] (pt_k _ _ _ _ HP))). split; [done|]. by split; try done; cbn; lia. }
  destruct (fresh_any end_ k p l root HP) as (k2 & E2 & Hp & Hni & Ag2 & Hfill). rewrite (M_bind_Ret _ _ _ _ _ E2).
  pose proof Hp as (_ & _ & Hp0). rewrite (proj2 (Z.eqb_neq p 0)) by lia.
  destruct (Hfill (filled c p (kmemory k2))) as (F1 & F2 & F3 & F4).
  { intros x Hx. unfold filled. destruct (Z.leb_spec p x), (Z.ltb_spec x (p + PGSIZE)); try done; lia. }
  rewrite (M_bind_Ret _ _ _ _ _ (Hfl p k2)). set (k3 := set_mem (filled c p (kmemory k2)) k2) in *.
  change (filled c p (kmemory k2)) with (kmemory k3) in F2, F3, F4.
  assert (data_page end_ k3 l root p) as Hd3.
  { split; [done|]. split; [done|]. rewrite F3. intros Hx. destruct (pt_table _ _ _ _ HP p Hx) as [_ Hx']. apply Hx', elem_of_cons. by left. }
  assert (0 <= p < 2 ^ 55) as Hpr by (destruct Hp as (_ & [_ Hr] & _); change PHYSTOP with (557056 * 4096) in Hr; lia).
  destruct (map_page k3 l root a p perm F1 Ha Hal (proj1 Hp) Hpr Hperm ltac:(by rewrite F2)) as (r & k4 & l4 & E4 & P4 & L4 & V4 & D4 & R4 & N4 & A4).
  rewrite (M_bind_Ret _ _ _ _ _ E4). destruct (data_kept k3 k4 l l4 root p L4 D4 Hd3) as [Hd4 Ag4].
  assert (keeps k k4 (p :: l) root) as K4.
  { intros d Hd Hn1 Ht. apply not_elem_of_cons in Hn1 as [Np Hn1]. destruct (D4 d Hd Hn1) as [A B]; [by rewrite F3|].
    split; [|done]. intros x Hx. rewrite A, (F4 d) by done. done. }
  destruct (Z.eqb_spec r 0) as [->|Nr].
  - left. exists p, k4, l4. split; [done|]. split; [done|apply elem_of_cons; by left| | |done| |done| |cbn; lia].
    + intros x Hx. apply elem_of_cons. right. by apply L4.
    + intros va Hva. rewrite V4 by done. cbn [Z.eqb]. rewrite andb_true_r. destruct (same_page va a); [done|]. apply F2.
    + intros o Ho. rewrite Ag4 by lia. cbn [k3 kmemory set_mem]. unfold filled.
      rewrite (proj2 (Z.leb_le _ _)), (proj2 (Z.ltb_lt _ _)) by lia. replace (p + o - p) with o by lia. apply Hc; [|done].
      intros d Hd Hn. apply Ag2; [done|]. intros ->. apply Hn, elem_of_cons. by left.
    + intros x [[->|Hx]%elem_of_cons|Hx]; [by right; right|..]; (destruct (A4 x) as [H|H]; [|by left|by right; left]); [by left|right; by apply F3].
  - destruct R4 as [|[-> ->]]; [done|]. destruct (free_data end_ k4 [] root p P4 Hd4) as (k5 & E5 & P5 & V5 & _ & T5 & A5).
    rewrite (M_bind_Ret _ _ _ _ _ E5). right. exists k5, [p]. split; [done|]. split; [done| | | | |cbn in *; lia].
    + intros x ->%list_elem_of_singleton. apply elem_of_cons. by left.
    + intros va Hva. rewrite V5, V4 by done. cbn [Z.eqb]. rewrite andb_false_r. apply F2.
    + intros d Hd Hn Ht. destruct (K4 d Hd Hn Ht) as [A B]. apply not_elem_of_cons in Hn as [Np Hn]. split; [|by rewrite T5].
      intros x Hx. rewrite (A5 d), A by done. done.
    + intros x [[->|Hx]%elem_of_cons|Hx]; [left; by apply list_elem_of_singleton|..];
        (destruct (A4 x) as [H|H]; [|by apply elem_of_nil in H|right; by apply T5]); [by left|right; by apply F3].
Qed.

(** ** Ranges of pages *)

(** The pages of valid entries of a range are data pages and different. *)
Record owns (k : kmem) (l : list Z) (root lo hi : Z) : Prop := {
  ow_page : forall va, lo <= va < hi -> let e := pteval (kmemory k) root va in
    has e PTE_V = true -> data_page end_ k l root (PTE2PA e);
  ow_inj : forall va va', lo <= va < hi -> lo <= va' < hi ->
    has (pteval (kmemory k) root va) PTE_V = true -> has (pteval (kmemory k) root va') PTE_V = true ->
    PTE2PA (pteval (kmemory k) root va) = PTE2PA (pteval (kmemory k) root va') -> same_page va va' = true
}.

Lemma upages_elem m root n : forall va d, d ∈ upages m root va n ->
  exists i, (i < n)%nat /\ let v := va + Z.of_nat i * PGSIZE in has (pteval m root v) PTE_V = true /\ PTE2PA (pteval m root v) = d.
Proof.
  induction n as [|n IH]; intros va d Hd; cbn [upages] in Hd; [by apply elem_of_nil in Hd|].
  apply elem_of_app in Hd as [Hd|Hd].
  - destruct (has (pteval m root va) PTE_V) eqn:Eh; [|by apply elem_of_nil in Hd]. apply list_elem_of_singleton in Hd as ->.
    exists 0%nat. rewrite Z.add_0_r. split; [lia|done].
  - apply IH in Hd as (i & Hi & H). exists (S i). split; [lia|].
    replace (va + Z.of_nat (S i) * PGSIZE) with (va + PGSIZE + Z.of_nat i * PGSIZE) by lia. done.
Qed.

Lemma upages_in m root n : forall v va, v mod PGSIZE = 0 -> v <= va < v + Z.of_nat n * PGSIZE -> has (pteval m root va) PTE_V = true ->
  PTE2PA (pteval m root va) ∈ upages m root v n.
Proof.
  induction n as [|n IH]; intros v va Hal Hva Hv; [lia|]. cbn [upages]. apply elem_of_app.
  destruct (Z.lt_ge_cases va (v + PGSIZE)) as [Hlt|Hge].
  - left. assert (same_page va v = true) as Es by (rewrite <- page_range by done; by rewrite (proj2 (Z.leb_le _ _)), (proj2 (Z.ltb_lt _ _)) by lia).
    rewrite (pteval_same m root va v Es) in Hv |- *. rewrite Hv. by apply list_elem_of_singleton.
  - right. apply IH; [by rewrite <- Zplus_mod_idemp_l, Hal|lia|done].
Qed.

Lemma upages_owns k l root n : forall va, va mod PGSIZE = 0 -> owns k l root va (va + Z.of_nat n * PGSIZE) ->
  Forall (data_page end_ k l root) (upages (kmemory k) root va n) /\ NoDup (upages (kmemory k) root va n).
Proof.
  induction n as [|n IH]; intros va Hal [H1 H2]; [split; constructor|].
  assert (owns k l root (va + PGSIZE) (va + PGSIZE + Z.of_nat n * PGSIZE)) as Ho.
  { split; [intros v Hv; apply H1; unfold PGSIZE in *; lia|intros v v' Hv Hv'; apply H2; unfold PGSIZE in *; lia]. }
  destruct (IH (va + PGSIZE)) as [G1 G2]; [by rewrite <- Zplus_mod_idemp_l, Hal|done|]. cbn [upages].
  destruct (has (pteval (kmemory k) root va) PTE_V) eqn:Eh; [|done]. cbn [app]. split.
  - constructor; [apply H1; [unfold PGSIZE; lia|done]|done].
  - constructor; [|done]. intros Hin. apply upages_elem in Hin as (i & Hi & Hv & E). cbv zeta in *.
    assert (same_page va (va + PGSIZE + Z.of_nat i * PGSIZE) = true) as Es by (apply H2; [unfold PGSIZE in *; lia..|done|done|done]).
    apply Z.eqb_eq in Es. unfold PGSIZE in *. replace (va + 4096 + Z.of_nat i * 4096) with (va + (1 + Z.of_nat i) * 4096) in Es by lia.
    rewrite Z.div_add in Es; lia.
Qed.

Lemma PGROUNDUP_aligned sz : 0 <= sz < 2 ^ 63 -> sz mod PGSIZE = 0 -> PGROUNDUP sz = sz.
Proof.
  intros H Ha. destruct (PGROUNDUP_spec sz H) as (H1 & H2). apply aligned_div in Ha, H1. unfold PGSIZE in *. lia.
Qed.

Lemma pages_between lo hi : lo <= hi -> lo mod PGSIZE = 0 -> hi mod PGSIZE = 0 -> lo + Z.of_nat (Z.to_nat ((hi - lo) / PGSIZE)) * PGSIZE = hi.
Proof.
  intros H A B. apply aligned_div in A, B. assert ((hi - lo) / PGSIZE = hi / PGSIZE - lo / PGSIZE) as ->.
  { rewrite A, B, <- Z.mul_sub_distr_r. by rewrite !Z.div_mul by done. }
  unfold PGSIZE in *. lia.
Qed.

(** The pages from [lo] up to [hi] are new: taken from the free pages, cleared, mapped with
    [perm].  Nothing else that was in use has changed. *)
Record grown (k k' : kmem) (l l' : list Z) (root lo hi perm : Z) : Prop := {
  gr_pt : PT end_ k' l' root;
  gr_free : forall x, x ∈ l' -> x ∈ l;
  gr_old : forall va, 0 <= va < MAXVA -> va < lo \/ hi <= va -> pteval (kmemory k') root va = pteval (kmemory k) root va;
  gr_new : forall va, lo <= va < hi -> exists p, p ∈ l /\ pteval (kmemory k') root va = entry p perm /\
    data_page end_ k' l' root p /\ forall a, p <= a < p + PGSIZE -> kmemory k' a = 0;
  gr_owns : owns k' l' root lo hi;
  gr_data : forall d, page end_ d -> d ∉ l -> ~ is_table (kmemory k) root d ->
    agree (kmemory k) (kmemory k') d /\ ~ is_table (kmemory k') root d;
  gr_all : forall x, x ∈ l \/ is_table (kmemory k) root x -> x ∈ l' \/ is_table (kmemory k') root x \/
    exists va, lo <= va < hi /\ PTE2PA (pteval (kmemory k') root va) = x
}.

Lemma grown_space_refl k l root lo perm : PT end_ k l root -> grown k k l l root lo lo perm.
Proof. intros HP. split; try done; [intros va Hv; lia|split; intros; lia|tauto]. Qed.

(** One more page. *)
Lemma grown_snoc k k1 k2 l l1 l2 root lo hi perm p :
  grown k k1 l l1 root lo hi perm -> 0 <= lo <= hi -> hi mod PGSIZE = 0 -> hi + PGSIZE <= MAXVA -> 0 <= perm < 1024 ->
  put (fun _ _ => 0) k1 k2 l1 l2 root hi perm p -> grown k k2 l l2 root lo (hi + PGSIZE) perm.
Proof.
  intros [G1 G2 G3 G4 G5 G6 G7] Hlo Hal Hmax Hperm [HP Hp Hl2 Hv Hdp Hz0 Hd Hall2 _].
  assert (forall a, p <= a < p + PGSIZE -> kmemory k2 a = 0) as Hz.
  { intros a Ha. replace a with (p + (a - p)) by lia. apply Hz0. lia. }
  assert (forall va, 0 <= va -> same_page va hi = (hi <=? va) && (va <? hi + PGSIZE)) as Hsp by (intros va _; by rewrite page_range).
  assert (forall va, lo <= va < hi -> pteval (kmemory k2) root va = pteval (kmemory k1) root va) as Hold.
  { intros va Hva. rewrite Hv by (unfold PGSIZE in *; lia). rewrite Hsp by lia. by rewrite (proj2 (Z.leb_gt _ _)) by lia. }
  assert (forall va, hi <= va < hi + PGSIZE -> pteval (kmemory k2) root va = entry p perm) as Hnew.
  { intros va Hva. rewrite Hv by (unfold PGSIZE in *; lia). rewrite Hsp by lia.
    by rewrite (proj2 (Z.leb_le _ _)), (proj2 (Z.ltb_lt _ _)) by lia. }
  assert (forall va, lo <= va < hi + PGSIZE -> exists q, q ∈ l /\ pteval (kmemory k2) root va = entry q perm /\
    data_page end_ k2 l2 root q /\ forall a, q <= a < q + PGSIZE -> kmemory k2 a = 0) as Hall.
  { intros va Hva. destruct (Z.lt_ge_cases va hi) as [Hlt|Hge].
    - destruct (G4 va ltac:(lia)) as (q & Q1 & Q2 & Q3 & Q4). destruct (data_kept k1 k2 l1 l2 root q Hl2 Hd Q3) as [D1 D2].
      exists q. split; [done|]. split; [rewrite Hold by lia; done|]. split; [done|]. intros a Ha. by rewrite D2, Q4.
    - exists p. split; [by apply G2|]. split; [apply Hnew; lia|done]. }
  split; [done|auto| |done| | |].
  - intros va Hva Hor. rewrite Hv by done. rewrite Hsp by lia. unfold PGSIZE in *.
    destruct (Z.leb_spec hi va), (Z.ltb_spec va (hi + 4096)); cbn [andb]; try lia; apply G3; try done; lia.
  - split.
    + intros va Hva e _. destruct (Hall va Hva) as (q & _ & E & D & _). unfold e. rewrite E.
      by rewrite (proj1 (entry_parts q perm (proj1 D) Hperm)).
    + assert (forall va va', lo <= va < hi -> hi <= va' < hi + PGSIZE ->
        PTE2PA (pteval (kmemory k2) root va) <> PTE2PA (pteval (kmemory k2) root va')) as Hne.
      { intros va va' Hva Hva'. rewrite Hold, Hnew by lia. destruct (G4 va Hva) as (q & _ & -> & (D1 & D2 & _) & _).
        rewrite (proj1 (entry_parts q perm D1 Hperm)), (proj1 (entry_parts p perm (proj1 Hdp) Hperm)). by intros ->. }
      intros va va' Hva Hva' V1 V2 E. destruct (Z.lt_ge_cases va hi), (Z.lt_ge_cases va' hi).
      * rewrite !Hold in * by lia. apply (ow_inj _ _ _ _ _ G5); [lia|lia|done|done|done].
      * by destruct (Hne va va'); [lia|lia|].
      * by destruct (Hne va' va); [lia|lia|].
      * apply Z.eqb_eq. assert (forall v, hi <= v < hi + PGSIZE -> v / PGSIZE = hi / PGSIZE) as Hdiv.
        { intros v Hv'. apply Z.eqb_eq. change (same_page v hi = true). rewrite Hsp by lia.
          by rewrite (proj2 (Z.leb_le _ _)), (proj2 (Z.ltb_lt _ _)) by lia. }
        by rewrite (Hdiv va), (Hdiv va') by lia.
  - intros d H1 H2 H3. destruct (G6 d H1 H2 H3) as [A B]. destruct (Hd d H1) as [C D]; [auto|done|].
    split; [|done]. intros a Ha. by rewrite C, A.
  - intros x Hx. assert (x ∈ l1 \/ is_table (kmemory k1) root x -> x ∈ l2 \/ is_table (kmemory k2) root x \/
      exists va, lo <= va < hi + PGSIZE /\ PTE2PA (pteval (kmemory k2) root va) = x) as H.
    { intros [H|[H| ->]]%Hall2; [by left|by right; left|]. right. right. exists hi. split; [unfold PGSIZE; lia|].
      rewrite Hnew by (unfold PGSIZE; lia). apply (entry_parts p perm (proj1 Hdp) Hperm). }
    apply G7 in Hx as [Hx|[Hx|(va & Hva & E)]]; [by apply H; left|by apply H; right|].
    right. right. exists va. rewrite Hold by lia. split; [unfold PGSIZE; lia|done].
Qed.

(** What does not touch pages in use keeps the growth. *)
Lemma grown_kept k k1 k2 l l1 l2 root lo hi perm :
  grown k k1 l l1 root lo hi perm -> 0 <= lo -> hi <= MAXVA -> PT end_ k2 l2 root -> (forall x, x ∈ l2 -> x ∈ l1) ->
  (forall va, 0 <= va < MAXVA -> pteval (kmemory k2) root va = pteval (kmemory k1) root va) ->
  (forall d, data_page end_ k1 l1 root d -> data_page end_ k2 l2 root d /\ agree (kmemory k1) (kmemory k2) d) ->
  (forall x, x ∈ l1 \/ is_table (kmemory k1) root x -> x ∈ l2 \/ is_table (kmemory k2) root x) ->
  grown k k2 l l2 root lo hi perm.
Proof.
  intros [G1 G2 G3 G4 G5 G6 G7] Hlo Hhi HP Hl2 Hsame Hkeep Hall. split; [done|auto| | | | |].
  - intros va Hva Hor. rewrite Hsame by done. by apply G3.
  - intros va Hva. destruct (G4 va Hva) as (q & Q1 & Q2 & Q3 & Q4). destruct (Hkeep q Q3) as [K1 K2].
    exists q. split; [done|]. split; [rewrite Hsame by lia; done|]. split; [done|]. intros x Hx. by rewrite K2, Q4.
  - destruct G5 as [O1 O2]. split.
    + intros va Hva e He. unfold e in *. rewrite Hsame in * by lia. by apply Hkeep, O1.
    + intros va va' Hva Hva'. rewrite !Hsame by lia. by apply O2.
  - intros d X1 X2 X3. destruct (G6 d X1 X2 X3) as [Y1 Y2].
    destruct (Hkeep d) as [(_ & _ & Z1) Z2]; [split; [done|]; split; [auto|done]|]. split; [|done]. intros x Hx. by rewrite Z2, Y1.
  - intros x Hx. assert (x ∈ l1 \/ is_table (kmemory k1) root x -> x ∈ l2 \/ is_table (kmemory k2) root x \/
      exists va, lo <= va < hi /\ PTE2PA (pteval (kmemory k2) root va) = x) as H by (intros [H|H]%Hall; [by left|by right; left]).
    apply G7 in Hx as [Hx|[Hx|(va & Hva & E)]]; [by apply H; left|by apply H; right|].
    right. right. exists va. rewrite Hsame by lia. done.
Qed.

(** The pages from [lo] to [hi] are gone again; nothing else that was in use has changed. *)
Record restored (k k' : kmem) (l l' : list Z) (root lo hi : Z) : Prop := {
  rs_pt : PT end_ k' l' root;
  rs_free : forall x, x ∈ l' -> x ∈ l;
  rs_old : forall va, 0 <= va < MAXVA -> va < lo \/ hi <= va -> pteval (kmemory k') root va = pteval (kmemory k) root va;
  rs_gone : forall va, lo <= va < hi -> has (pteval (kmemory k') root va) PTE_V = false;
  rs_data : forall d, page end_ d -> d ∉ l -> ~ is_table (kmemory k) root d ->
    agree (kmemory k) (kmemory k') d /\ ~ is_table (kmemory k') root d;
  rs_all : forall x, x ∈ l \/ is_table (kmemory k) root x -> x ∈ l' \/ is_table (kmemory k') root x
}.

(** [uvmdealloc] of new pages. *)
Lemma dealloc_grown k k1 l l1 root lo hi perm :
  grown k k1 l l1 root lo hi perm -> 0 <= lo <= hi -> hi <= MAXVA -> lo mod PGSIZE = 0 -> hi mod PGSIZE = 0 -> 0 <= perm < 1024 ->
  exists k2 l2, (_ ← uvmdealloc end_ root hi lo; mret 0) k1 = Ret (0, k2) /\ restored k k2 l l2 root lo hi.
Proof.
  intros [G1 G2 G3 G4 G5 G6 G7] Hlo Hhi Al Ah Hperm. unfold uvmdealloc. rewrite MAXVA_val in Hhi.
  destruct (Z.leb_spec hi lo) as [Hle|Hgt].
  { exists k1, l1. split; [done|]. split; try done; [intros; lia|]. intros x Hx. destruct (G7 x Hx) as [|[|(va & Hva & _)]]; [by left|by right|lia]. }
  rewrite !PGROUNDUP_aligned by (done || lia). rewrite (proj2 (Z.ltb_lt _ _)) by done. set (n := Z.to_nat ((hi - lo) / PGSIZE)).
  assert (lo + Z.of_nat n * PGSIZE = hi) as En by (apply pages_between; [lia|done|done]).
  destruct (upages_owns k1 l1 root n lo Al) as [U1 U2]; [by rewrite En|].
  destruct (unmap_loop_spec end_ true n k1 l1 root lo G1 ltac:(lia) ltac:(rewrite MAXVA_val; lia) Al U1 U2) as (k2 & E & [V1 V2 V3 V4]).
  set (f := upages (kmemory k1) root lo n) in *.
  assert (forall x, x ∈ f -> x ∈ l) as Hf.
  { intros x Hx. apply upages_elem in Hx as (i & Hi & _ & <-). cbv zeta.
    destruct (G4 (lo + Z.of_nat i * PGSIZE)) as (q & Q1 & -> & Q3 & _); [unfold PGSIZE in *; lia|].
    by rewrite (proj1 (entry_parts q perm (proj1 Q3) Hperm)). }
  exists k2, (rev f ++ l1). split.
  { unfold uvmunmap. rewrite (proj2 (Z.eqb_eq _ _) Al). cbn [negb]. unfold panic_if.
    rewrite (M_bind_Ret _ _ k1 lo k2); [done|]. rewrite (M_bind_Ret _ _ k1 tt k2); [done|].
    by rewrite (M_bind_Ret _ _ k1 tt k1). }
  split; [done|..].
  - intros x [Hx|Hx]%elem_of_app; [|auto]. apply Hf. by rewrite list_elem_of_In, <- in_rev, <- list_elem_of_In in Hx.
  - intros va Hva Hor. rewrite V2, En by done. destruct (Z.leb_spec lo va), (Z.ltb_spec va hi); cbn [andb]; try lia; by apply G3.
  - intros va Hva. rewrite V2, En by (rewrite MAXVA_val; lia). rewrite (proj2 (Z.leb_le _ _)), (proj2 (Z.ltb_lt _ _)) by lia. cbn [andb].
    destruct (has (pteval (kmemory k1) root va) PTE_V) eqn:Eh; [done|done].
  - intros d H1 H2 H3. destruct (G6 d H1 H2 H3) as [A B]. split; [|by rewrite V3].
    intros a Ha. rewrite (V4 d), A by (auto || done). done.
  - intros x Hx. rewrite elem_of_app, V3. destruct (G7 x Hx) as [|[|(va & Hva & <-)]]; [by left; right|by right|]. left. left.
    rewrite list_elem_of_In, <- in_rev, <- list_elem_of_In. apply upages_in; [done|lia|].
    destruct (G4 va Hva) as (q & _ & -> & (D & _) & _). apply (entry_parts q perm D Hperm).
Qed.

(** ** [uvmalloc] *)

Lemma fewer (p : Z) l l' : NoDup l' -> p ∈ l -> p ∉ l' -> (forall x, x ∈ l' -> x ∈ l) -> (length l' < length l)%nat.
Proof.
  intros Hn Hp Hp' Hs. apply (submseteq_length (p :: l')), NoDup_submseteq; [by constructor|].
  intros x [->|Hx]%elem_of_cons; [done|auto].
Qed.

(** One round of the loop. *)
Lemma alloc_step n k k1 l l1 root lo a newsz xperm :
  let perm := Z.lor (Z.lor PTE_R PTE_U) xperm in
  grown k k1 l l1 root lo a perm -> 0 <= lo <= a -> lo mod PGSIZE = 0 -> a mod PGSIZE = 0 -> a < newsz -> a + PGSIZE <= MAXVA ->
  0 <= perm < 1024 -> has (pteval (kmemory k) root a) PTE_V = false ->
  (exists k2 l2, alloc_loop end_ (S n) root lo a newsz xperm k1 = alloc_loop end_ n root lo (a + PGSIZE) newsz xperm k2 /\
     grown k k2 l l2 root lo (a + PGSIZE) perm /\ (length l2 < length l1 <= length l2 + 3)%nat) \/
  (exists k2 l2, alloc_loop end_ (S n) root lo a newsz xperm k1 = Ret (0, k2) /\ restored k k2 l l2 root lo a /\ (length l1 <= 3)%nat).
Proof.
  intros perm G Hlo Al Aa Hlt Hmax Hperm Hfree. pose proof G as [G1 G2 G3 G4 G5 G6 _]. assert (0 < PGSIZE) as Hpg by done.
  assert (alloc_loop end_ (S n) root lo a newsz xperm k1 = put_page zero_page root a perm
    (alloc_loop end_ n root lo (a + PGSIZE) newsz xperm) (_ ← uvmdealloc end_ root a lo; mret 0) k1) as ->.
  { cbn [alloc_loop]. rewrite (proj2 (Z.ltb_lt _ _)) by lia. reflexivity. }
  destruct (put_page_run (fun _ _ => 0) zero_page root a perm (alloc_loop end_ n root lo (a + PGSIZE) newsz xperm)
    (_ ← uvmdealloc end_ root a lo; mret 0) k1 l1 G1) as [(p & k4 & l4 & E4 & Hput)|(k4 & l4 & E4 & [U1 U2 U3 U4 U5 U6])];
    [lia|done|done| |done|done| |].
  - rewrite G3 by lia. done.
  - left. exists k4, l4. split; [done|]. split; [by apply (grown_snoc k k1 k4 l l1 l4 root lo a perm p)|].
    destruct Hput as [Q1 Q2 Q3 _ (_ & Q5 & _) _ _ _ Q6]. split; [|done]. by apply (fewer p); [apply Q1|..].
  - right. destruct (dealloc_grown k k4 l l4 root lo a perm) as (k5 & l5 & E5 & R5); [|lia|lia|done|done|done|].
    { apply (grown_kept k k1 k4 l l1 l4 root lo a); try done; [lia|lia|]. intros d Hd. by apply (data_kept k1 k4 l1 l4). }
    exists k5, l5. by rewrite E4.
Qed.

Lemma alloc_loop_spec n : forall k k1 l l1 root lo a newsz xperm,
  grown k k1 l l1 root lo a (Z.lor (Z.lor PTE_R PTE_U) xperm) -> 0 <= lo <= a -> lo mod PGSIZE = 0 -> a mod PGSIZE = 0 ->
  a <= PGROUNDUP newsz -> 0 <= newsz -> PGROUNDUP newsz <= MAXVA -> (PGROUNDUP newsz - a) / PGSIZE < Z.of_nat n ->
  0 <= Z.lor (Z.lor PTE_R PTE_U) xperm < 1024 ->
  (forall va, a <= va < PGROUNDUP newsz -> has (pteval (kmemory k) root va) PTE_V = false) -> newsz <= MAXVA ->
  exists r k2 l2, alloc_loop end_ n root lo a newsz xperm k1 = Ret (r, k2) /\
    ((r = newsz /\ grown k k2 l l2 root lo (PGROUNDUP newsz) (Z.lor (Z.lor PTE_R PTE_U) xperm) /\
      Z.of_nat (length l1) <= Z.of_nat (length l2) + 3 * ((PGROUNDUP newsz - a) / PGSIZE)) \/
     (r = 0 /\ Z.of_nat (length l1) <= 3 * ((PGROUNDUP newsz - a) / PGSIZE) /\ exists hi, lo <= hi <= PGROUNDUP newsz /\ restored k k2 l l2 root lo hi)).
Proof.
  induction n as [|n IH]; intros k k1 l l1 root lo a newsz xperm G Hlo Al Aa Ha Hn Hmax Hfuel Hperm Hfree Hnm.
  { exfalso. assert (0 <= (PGROUNDUP newsz - a) / PGSIZE) by (apply Z.div_pos; [lia|done]). lia. }
  pose proof Hmax as Hmax'. pose proof Hnm as Hnm'. rewrite MAXVA_val in Hnm', Hmax'. destruct (PGROUNDUP_spec newsz ltac:(lia)) as [Hu1 Hu2].
  pose proof (aligned_div _ Aa) as Ea. pose proof (aligned_div _ Hu1) as Eu.
  destruct (Z.ltb_spec a newsz) as [Hlt|Hge].
  2:{ exists newsz, k1, l1. split; [cbn [alloc_loop]; by rewrite (proj2 (Z.ltb_ge _ _)) by lia|]. left. split; [done|].
      assert (PGROUNDUP newsz = a) as -> by (unfold PGSIZE in *; lia). rewrite Z.sub_diag. split; [done|]. change (0 / PGSIZE) with 0. lia. }
  assert (a + PGSIZE <= PGROUNDUP newsz) as Hap by (unfold PGSIZE in *; lia). assert (0 < PGSIZE) as Hpg by done.
  destruct (alloc_step n k k1 l l1 root lo a newsz xperm G Hlo Al Aa Hlt ltac:(lia) Hperm ltac:(apply Hfree; lia))
    as [(k4 & l4 & E4 & G4 & Hl4)|(k5 & l5 & E5 & R5 & Hl5)].
  - rewrite E4. assert ((PGROUNDUP newsz - (a + PGSIZE)) / PGSIZE = (PGROUNDUP newsz - a) / PGSIZE - 1) as Hd.
    { replace (PGROUNDUP newsz - (a + PGSIZE)) with (PGROUNDUP newsz - a + (-1) * PGSIZE) by lia. rewrite Z.div_add by done. lia. }
    destruct (IH k k4 l l4 root lo (a + PGSIZE) newsz xperm G4) as (r & k5 & l5 & E5 & R5);
      [lia|done|by rewrite <- Zplus_mod_idemp_l, Aa|lia|lia|lia|lia|done| |done|].
    + intros va Hva. apply Hfree. lia.
    + exists r, k5, l5. split; [done|]. rewrite Hd in R5. destruct R5 as [(-> & R5 & N5)|(-> & N5 & R5)]; [left|right]; (split; [done|]; split; [done || lia|done || lia]).
  - exists 0, k5, l5. split; [done|]. right. split; [done|]. split; [|exists a; split; [lia|done]].
    assert (1 <= (PGROUNDUP newsz - a) / PGSIZE) by (apply Z.div_le_lower_bound; [done|lia]). lia.
Qed.

(** A size beyond the trap frame is never reached: there are not so many pages. *)
Lemma alloc_huge n : forall k k1 l l1 root lo a newsz xperm,
  grown k k1 l l1 root lo a (Z.lor (Z.lor PTE_R PTE_U) xperm) -> 0 <= lo <= a -> lo mod PGSIZE = 0 -> a mod PGSIZE = 0 ->
  a + Z.of_nat (length l1 + 1) * PGSIZE <= TRAPFRAME -> TRAPFRAME < newsz -> newsz - a < Z.of_nat n * PGSIZE ->
  0 <= Z.lor (Z.lor PTE_R PTE_U) xperm < 1024 ->
  (forall va, a <= va < TRAPFRAME -> has (pteval (kmemory k) root va) PTE_V = false) ->
  exists k2 l2 hi, alloc_loop end_ n root lo a newsz xperm k1 = Ret (0, k2) /\ lo <= hi <= TRAPFRAME /\ restored k k2 l l2 root lo hi.
Proof.
  assert (0 < PGSIZE) as Hpg by done. assert (TRAPFRAME < MAXVA) as Htm by done.
  induction n as [|n IH]; intros k k1 l l1 root lo a newsz xperm G Hlo Al Aa Hl Hn Hfuel Hperm Hfree; [lia|].
  destruct (alloc_step n k k1 l l1 root lo a newsz xperm G Hlo Al Aa ltac:(lia) ltac:(lia) Hperm ltac:(apply Hfree; lia))
    as [(k4 & l4 & E4 & G4 & Hl4)|(k5 & l5 & E5 & R5 & _)].
  - rewrite E4. apply (IH k k4 l l4 root lo (a + PGSIZE) newsz xperm G4); [lia|done|by rewrite <- Zplus_mod_idemp_l, Aa| |lia|lia|done|].
    + assert (Z.of_nat (length l4 + 1) <= Z.of_nat (length l1)) by lia. nia.
    + intros va Hva. apply Hfree. lia.
  - exists k5, l5, a. split; [done|]. split; [lia|done].
Qed.

(** ** [uvmcopy] *)

(** What does not touch pages in use keeps another page table [old], whose tables are not
    tables of [new]. *)
Lemma PT_keeps k k' l l' old new :
  PT end_ k l old -> KInv end_ k' l' -> (forall x, x ∈ l' -> x ∈ l) -> keeps k k' l new ->
  (forall d, is_table (kmemory k) old d -> ~ is_table (kmemory k) new d) ->
  PT end_ k' l' old /\ (forall va, pteval (kmemory k') old va = pteval (kmemory k) old va) /\
  (forall d, is_table (kmemory k') old d <-> is_table (kmemory k) old d) /\
  (forall d, is_table (kmemory k') old d -> ~ is_table (kmemory k') new d).
Proof.
  intros HP HK Hl Hk Hsep. destruct (PT_agree end_ k k' l l' old HP HK) as (A & B & C).
  { intros d Hd. destruct (pt_table _ _ _ _ HP d Hd) as [D1 D2]. destruct (Hk d D1 D2 (Hsep d Hd)). split; [done|auto]. }
  split; [done|]. split; [done|]. split; [done|]. intros d Hd%C. destruct (pt_table _ _ _ _ HP d Hd) as [D1 D2].
  by destruct (Hk d D1 D2 (Hsep d Hd)).
Qed.

(** The pages of [old] below [hi] have been copied to [new]. *)
Record copying (k k' : kmem) (l l' : list Z) (old new hi : Z) : Prop := {
  cy_new : PT end_ k' l' new;
  cy_old : PT end_ k' l' old;
  cy_sep : forall d, is_table (kmemory k') old d -> ~ is_table (kmemory k') new d;
  cy_free : forall x, x ∈ l' -> x ∈ l;
  cy_oldval : forall va, pteval (kmemory k') old va = pteval (kmemory k) old va;
  cy_newval : forall va, hi <= va < MAXVA -> pteval (kmemory k') new va = pteval (kmemory k) new va;
  cy_none : forall va, 0 <= va < hi -> has (pteval (kmemory k) old va) PTE_V = false -> has (pteval (kmemory k') new va) PTE_V = false;
  cy_page : forall va, 0 <= va < hi -> let e := pteval (kmemory k) old va in has e PTE_V = true ->
    exists p, p ∈ l /\ pteval (kmemory k') new va = entry p (PTE_FLAGS e) /\ data_page end_ k' l' new p /\
      forall o, 0 <= o < PGSIZE -> kmemory k' (p + o) = kmemory k (PTE2PA e + o);
  cy_inj : forall va va', 0 <= va < hi -> 0 <= va' < hi ->
    has (pteval (kmemory k) old va) PTE_V = true -> has (pteval (kmemory k) old va') PTE_V = true ->
    PTE2PA (pteval (kmemory k') new va) = PTE2PA (pteval (kmemory k') new va') -> same_page va va' = true;
  cy_keeps : keeps k k' l new
}.

Lemma flags_range e : 0 <= PTE_FLAGS e < 1024.
Proof. unfold PTE_FLAGS. change 0x3FF with (Z.ones 10). rewrite Z.land_ones by lia. apply Z.mod_pos_bound. lia. Qed.

(** Two address spaces that share no page. *)
Record parent_child (k : kmem) (l : list Z) (old new hi : Z) : Prop := {
  pc_new : PT end_ k l new;
  pc_old : PT end_ k l old;
  pc_sep : forall d, is_table (kmemory k) old d -> ~ is_table (kmemory k) new d;
  pc_data : forall va, 0 <= va < hi -> let e := pteval (kmemory k) old va in has e PTE_V = true ->
    page end_ (PTE2PA e) /\ PTE2PA e ∉ l /\ ~ is_table (kmemory k) new (PTE2PA e);
  pc_empty : forall va, 0 <= va < hi -> has (pteval (kmemory k) new va) PTE_V = false;
  pc_hi : hi <= MAXVA
}.

Lemma copying_start k l old new hi : parent_child k l old new hi -> copying k k l l old new 0.
Proof. intros [H1 H2 H3 H4 H5 H6]. split; try done; intros; lia. Qed.

(** A page without an entry is skipped. *)
Lemma copying_skip k k' l l' old new hi i :
  copying k k' l l' old new i -> parent_child k l old new hi -> 0 <= i -> i mod PGSIZE = 0 -> i + PGSIZE <= hi ->
  has (pteval (kmemory k) old i) PTE_V = false -> copying k k' l l' old new (i + PGSIZE).
Proof.
  intros C PC Hi Al Hhi Hv. pose proof C as [C1 C2 C3 C4 C5 C6 C7 C8 C9 C10].
  pose proof (pc_hi _ _ _ _ _ PC) as Hmx. assert (0 < PGSIZE) as Hpg by done.
  assert (forall va, i <= va < i + PGSIZE -> has (pteval (kmemory k) old va) PTE_V = false) as Hnone.
  { intros va Hva. rewrite (pteval_same _ _ va i); [done|]. rewrite <- page_range by done.
    by rewrite (proj2 (Z.leb_le _ _)), (proj2 (Z.ltb_lt _ _)) by lia. }
  split; try done.
  - intros va Hva. apply C6. lia.
  - intros va Hva Hn. destruct (Z.lt_ge_cases va i); [apply C7; [lia|done]|]. rewrite C6 by lia. apply PC. lia.
  - intros va Hva e He. destruct (Z.lt_ge_cases va i); [apply C8; [lia|done]|]. unfold e in He. by rewrite Hnone in He by lia.
  - intros va va' Hva Hva' V1 V2. destruct (Z.lt_ge_cases va i); [|by rewrite Hnone in V1 by lia].
    destruct (Z.lt_ge_cases va' i); [|by rewrite Hnone in V2 by lia]. apply C9; [lia|lia|done|done].
Qed.

(** A page with an entry gets a copy. *)
Lemma copying_put k k1 k2 l l1 l2 old new hi i p :
  copying k k1 l l1 old new i -> parent_child k l old new hi -> 0 <= i -> i mod PGSIZE = 0 -> i + PGSIZE <= hi ->
  let e := pteval (kmemory k) old i in has e PTE_V = true ->
  put (fun m o => m (PTE2PA e + o)) k1 k2 l1 l2 new i (PTE_FLAGS e) p -> copying k k2 l l2 old new (i + PGSIZE).
Proof.
  intros C PC Hi Al Hhi e He [U1 U2 U3 U4 U5 U6 U7 _ _]. pose proof C as [C1 C2 C3 C4 C5 C6 C7 C8 C9 C10].
  pose proof (pc_hi _ _ _ _ _ PC) as Hmx. assert (0 < PGSIZE) as Hpg by done.
  destruct (PT_keeps k1 k2 l1 l2 old new C2 (pt_k _ _ _ _ U1) U3 U7 C3) as (P1 & P2 & P3 & P4).
  assert (forall va, same_page va i = (i <=? va) && (va <? i + PGSIZE)) as Hsp by (intros va; by rewrite page_range).
  assert (forall va, i <= va < i + PGSIZE -> pteval (kmemory k) old va = e /\ pteval (kmemory k2) new va = entry p (PTE_FLAGS e)) as Hnew.
  { intros va Hva. assert (same_page va i = true) as Es.
    { rewrite Hsp. by rewrite (proj2 (Z.leb_le _ _)), (proj2 (Z.ltb_lt _ _)) by lia. }
    split; [by apply pteval_same|]. rewrite U4 by lia. by rewrite Es. }
  assert (forall va, 0 <= va < i -> pteval (kmemory k2) new va = pteval (kmemory k1) new va) as Hold.
  { intros va Hva. rewrite U4 by lia. rewrite Hsp, (proj2 (Z.leb_gt _ _)) by lia. done. }
  destruct (entry_parts p (PTE_FLAGS e) (proj1 U5) (flags_range e)) as (Ep & _ & _).
  assert (forall va, 0 <= va < i -> has (pteval (kmemory k) old va) PTE_V = true -> PTE2PA (pteval (kmemory k2) new va) <> p) as Hne.
  { intros va Hva V. rewrite Hold by done. destruct (C8 va Hva V) as (q & _ & -> & (D1 & D2 & _) & _).
    rewrite (proj1 (entry_parts q _ D1 (flags_range _))). by intros ->. }
  split; [done|done|done|auto| | | | | |].
  - intros va. by rewrite P2, C5.
  - intros va Hva. rewrite U4 by lia. rewrite Hsp, (proj2 (Z.ltb_ge _ _)), andb_false_r by lia. apply C6. lia.
  - intros va Hva Hn. destruct (Z.lt_ge_cases va i); [rewrite Hold by lia; apply C7; [lia|done]|].
    destruct (Hnew va) as [E _]; [lia|]. congruence.
  - intros va Hva e' He'. unfold e' in *. destruct (Z.lt_ge_cases va i).
    + destruct (C8 va ltac:(lia) He') as (q & Q1 & Q2 & Q3 & Q4). destruct (data_kept k1 k2 l1 l2 new q U3 U7 Q3) as [D1 D2].
      exists q. split; [done|]. split; [by rewrite Hold by lia|]. split; [done|]. intros o Ho. rewrite D2 by lia. by apply Q4.
    + destruct (Hnew va) as [-> ->]; [lia|]. exists p. split; [by apply C4|]. split; [done|]. split; [done|]. intros o Ho.
      rewrite U6 by done. destruct (pc_data _ _ _ _ _ PC i ltac:(lia) He) as (D1 & D2 & D3). destruct (C10 _ D1 D2 D3) as [A _].
      apply A. unfold e. lia.
  - intros va va' Hva Hva' V1 V2 E. destruct (Z.lt_ge_cases va i), (Z.lt_ge_cases va' i).
    + rewrite !Hold in E by lia. apply C9; [lia|lia|done|done|done].
    + destruct (Hnew va') as [_ E']; [lia|]. rewrite E', Ep in E. by destruct (Hne va); [lia|..].
    + destruct (Hnew va) as [_ E']; [lia|]. rewrite E', Ep in E. by destruct (Hne va'); [lia|..].
    + apply Z.eqb_eq. assert (forall v, i <= v < i + PGSIZE -> v / PGSIZE = i / PGSIZE) as Hdiv.
      { intros v Hv'. apply Z.eqb_eq. change (same_page v i = true). rewrite Hsp.
        by rewrite (proj2 (Z.leb_le _ _)), (proj2 (Z.ltb_lt _ _)) by lia. }
      by rewrite (Hdiv va), (Hdiv va') by lia.
  - intros d D1 D2 D3. destruct (C10 d D1 D2 D3) as [A B]. destruct (U7 d D1) as [A' B']; [auto|done|].
    split; [|done]. intros x Hx. by rewrite A', A.
Qed.

Lemma copying_unput k k1 k2 l l1 l2 old new hi i :
  copying k k1 l l1 old new i -> parent_child k l old new hi -> 0 <= i <= hi -> unput k1 k2 l1 l2 new -> copying k k2 l l2 old new i.
Proof.
  intros C PC Hi [U1 U2 U3 U4 _ _]. pose proof C as [C1 C2 C3 C4 C5 C6 C7 C8 C9 C10]. pose proof (pc_hi _ _ _ _ _ PC) as Hmx.
  destruct (PT_keeps k1 k2 l1 l2 old new C2 (pt_k _ _ _ _ U1) U2 U4 C3) as (P1 & P2 & P3 & P4).
  split; [done|done|done|auto| | | | | |].
  - intros va. by rewrite P2, C5.
  - intros va Hva. rewrite U3 by lia. by apply C6.
  - intros va Hva. rewrite U3 by lia. by apply C7.
  - intros va Hva e He. destruct (C8 va Hva He) as (q & Q1 & Q2 & Q3 & Q4). destruct (data_kept k1 k2 l1 l2 new q U2 U4 Q3) as [D1 D2].
    exists q. split; [done|]. split; [by rewrite U3 by lia|]. split; [done|]. intros o Ho. rewrite D2 by lia. by apply Q4.
  - intros va va' Hva Hva'. rewrite !U3 by lia. by apply C9.
  - intros d D1 D2 D3. destruct (C10 d D1 D2 D3) as [A B]. destruct (U4 d D1) as [A' B']; [auto|done|].
    split; [|done]. intros x Hx. by rewrite A', A.
Qed.

(** The copy has been given up: the new table is empty again. *)
Record uncopied (k k' : kmem) (l l' : list Z) (old new hi : Z) : Prop := {
  uc_new : PT end_ k' l' new;
  uc_old : PT end_ k' l' old;
  uc_free : forall x, x ∈ l' -> x ∈ l;
  uc_oldval : forall va, pteval (kmemory k') old va = pteval (kmemory k) old va;
  uc_newval : forall va, 0 <= va < hi -> has (pteval (kmemory k') new va) PTE_V = false;
  uc_keeps : keeps k k' l new
}.

Lemma copying_undo k k1 l l1 old new hi i :
  copying k k1 l l1 old new i -> parent_child k l old new hi -> 0 <= i <= hi -> i mod PGSIZE = 0 ->
  exists k2 l2, (_ ← uvmunmap end_ new 0 (Z.to_nat (i / PGSIZE)) true; mret (-1)) k1 = Ret (-1, k2) /\ uncopied k k2 l l2 old new hi.
Proof.
  intros C PC Hi Al. pose proof C as [C1 C2 C3 C4 C5 C6 C7 C8 C9 C10]. pose proof (pc_hi _ _ _ _ _ PC) as Hmx.
  set (n := Z.to_nat (i / PGSIZE)). assert (0 + Z.of_nat n * PGSIZE = i) as En.
  { pose proof (aligned_div _ Al) as E. assert (0 <= i / PGSIZE) by (apply Z.div_pos; [lia|done]). unfold n. rewrite Z2Nat.id by done. lia. }
  assert (forall va, 0 <= va < i -> has (pteval (kmemory k1) new va) PTE_V = true ->
    has (pteval (kmemory k) old va) PTE_V = true /\ PTE2PA (pteval (kmemory k1) new va) ∈ l /\
    data_page end_ k1 l1 new (PTE2PA (pteval (kmemory k1) new va))) as Hval.
  { intros va Hva V. destruct (has (pteval (kmemory k) old va) PTE_V) eqn:Eo; [|by rewrite C7 in V].
    destruct (C8 va Hva Eo) as (q & Q1 & -> & Q3 & _). by rewrite (proj1 (entry_parts q _ (proj1 Q3) (flags_range _))). }
  destruct (upages_owns k1 l1 new n 0 eq_refl) as [U1 U2].
  { rewrite En. split; [intros va Hva e He; by apply Hval|]. intros va va' Hva Hva' V1 V2. apply C9; [done|done|by apply Hval..]. }
  destruct (unmap_loop_spec end_ true n k1 l1 new 0 C1 ltac:(lia) ltac:(rewrite En; lia) eq_refl U1 U2) as (k2 & E & [V1 V2 V3 V4]).
  set (f := upages (kmemory k1) new 0 n) in *.
  assert (forall x, x ∈ f -> x ∈ l /\ x ∉ l1 /\ ~ is_table (kmemory k1) new x) as Hf.
  { intros x Hx. apply upages_elem in Hx as (j & Hj & V & <-). cbv zeta in *. assert (0 < PGSIZE) by done.
    destruct (Hval (0 + Z.of_nat j * PGSIZE)) as (_ & ? & (_ & ? & ?)); [nia|done|done]. }
  assert (keeps k k2 l new) as K2.
  { intros d D1 D2 D3. destruct (C10 d D1 D2 D3) as [A B]. split; [|by rewrite V3]. intros x Hx.
    rewrite (V4 d), A; try done. intros Hd. by apply Hf in Hd as [? _]. }
  assert (forall x, x ∈ rev f ++ l1 -> x ∈ l) as Hl2.
  { intros x [Hx|Hx]%elem_of_app; [|auto]. apply Hf. by rewrite list_elem_of_In, <- in_rev, <- list_elem_of_In in Hx. }
  destruct (PT_keeps k k2 l (rev f ++ l1) old new (pc_old _ _ _ _ _ PC) (pt_k _ _ _ _ V1) Hl2 K2 (pc_sep _ _ _ _ _ PC)) as (P1 & P2 & _).
  exists k2, (rev f ++ l1). split.
  { unfold uvmunmap. cbn [Z.modulo Z.eqb negb]. rewrite (M_bind_Ret _ _ k1 tt k2); [done|]. by rewrite (M_bind_Ret _ _ k1 tt k1). }
  split; try done. intros va Hva. rewrite V2 by lia. rewrite En. destruct (Z.leb_spec 0 va), (Z.ltb_spec va i); cbn [andb]; try lia.
  - by destruct (has (pteval (kmemory k1) new va) PTE_V) eqn:Eh.
  - rewrite C6 by lia. apply PC. lia.
Qed.

Lemma copy_space_spec n : forall k k1 l l1 old new hi i sz,
  copying k k1 l l1 old new i -> parent_child k l old new hi -> 0 <= i <= hi -> i mod PGSIZE = 0 -> hi = PGROUNDUP sz ->
  0 <= sz <= MAXVA -> (hi - i) / PGSIZE <= Z.of_nat n ->
  exists r k2 l2, copy_loop end_ n old new i sz k1 = Ret (r, k2) /\
    ((r = 0 /\ copying k k2 l l2 old new hi) \/ (r = -1 /\ uncopied k k2 l l2 old new hi)).
Proof.
  induction n as [|n IH]; intros k k1 l l1 old new hi i sz C PC Hi Al Eh Hsz Hf.
  { exists 0, k1, l1. rewrite MAXVA_val in Hsz. destruct (PGROUNDUP_spec sz ltac:(lia)) as [Hu1 Hu2]. rewrite <- Eh in Hu1, Hu2.
    pose proof (aligned_div _ Al) as Ea. pose proof (aligned_div _ Hu1) as Eu. assert (hi = i) as E.
    { rewrite Ea, Eu, <- Z.mul_sub_distr_r, Z.div_mul in Hf by done. assert (hi / PGSIZE <= i / PGSIZE) by lia. unfold PGSIZE in *. lia. }
    cbn [copy_loop]. rewrite (proj2 (Z.ltb_ge i sz)) by lia. split; [done|]. left. split; [done|]. by rewrite E. }
  pose proof (pc_hi _ _ _ _ _ PC) as Hmx. rewrite MAXVA_val in Hsz. assert (0 < PGSIZE) as Hpg by done.
  destruct (PGROUNDUP_spec sz ltac:(lia)) as [Hu1 Hu2]. rewrite <- Eh in Hu1, Hu2.
  pose proof (aligned_div _ Al) as Ea. pose proof (aligned_div _ Hu1) as Eu. cbn [copy_loop].
  destruct (Z.ltb_spec i sz) as [Hlt|Hge].
  2:{ exists 0, k1, l1. split; [done|]. left. split; [done|]. assert (hi = i) as -> by (unfold PGSIZE in *; lia). done. }
  assert (i + PGSIZE <= hi) as Hip by (unfold PGSIZE in *; lia).
  assert ((hi - (i + PGSIZE)) / PGSIZE <= Z.of_nat n) as Hf'.
  { replace (hi - (i + PGSIZE)) with (hi - i + (-1) * PGSIZE) by lia. rewrite Z.div_add by done. lia. }
  assert ((i + PGSIZE) mod PGSIZE = 0) as Al' by (by rewrite <- Zplus_mod_idemp_l, Al).
  rewrite (M_bind_Ret _ _ _ _ _ (walk_found k1 old i ltac:(lia))).
  pose proof (cy_oldval _ _ _ _ _ _ _ C i) as Ev. unfold pteval at 1 in Ev.
  assert (has (pteval (kmemory k) old i) PTE_V = false -> exists r k2 l2, copy_loop end_ n old new (i + PGSIZE) sz k1 = Ret (r, k2) /\
    ((r = 0 /\ copying k k2 l l2 old new hi) \/ (r = -1 /\ uncopied k k2 l l2 old new hi))) as Hskip.
  { intros Hv. apply (IH k k1 l l1 old new hi (i + PGSIZE) sz); [|done|lia|done|done|rewrite MAXVA_val; lia|done].
    by apply (copying_skip k k1 l l1 old new hi i); [..|lia|done|lia|done]. }
  destruct (leaf (kmemory k1) old i) as [a|] eqn:El; [|apply Hskip; by rewrite <- Ev].
  unfold ld. rewrite (M_bind_Ret _ _ k1 (ld64 (kmemory k1) a) k1) by done. rewrite Ev.
  destruct (has (pteval (kmemory k) old i) PTE_V) eqn:Hv; cbn [negb]; [|by apply Hskip]. clear Hskip.
  set (e := pteval (kmemory k) old i) in *.
  pose proof (pc_data _ _ _ _ _ PC i ltac:(lia) Hv) as (D1 & D2 & D3). fold e in D1, D2, D3.
  destruct (put_page_run (fun m o => m (PTE2PA e + o)) (fun p => copy_page p (PTE2PA e)) new i (PTE_FLAGS e)
    (copy_loop end_ n old new (i + PGSIZE) sz) (_ ← uvmunmap end_ new 0 (Z.to_nat (i / PGSIZE)) true; mret (-1)) k1 l1 (cy_new _ _ _ _ _ _ _ C))
    as [(p & k2 & l2 & E & HP)|(k2 & l2 & E & HU)]; [lia|done|apply flags_range| |done| | |].
  - rewrite (cy_newval _ _ _ _ _ _ _ C) by lia. apply PC. lia.
  - intros m Hm o Ho. apply (Hm (PTE2PA e) D1); [|lia]. intros Hx. by apply D2, (cy_free _ _ _ _ _ _ _ C).
  - change ((p0 ← kalloc; _) k1) with (put_page (fun p => copy_page p (PTE2PA e)) new i (PTE_FLAGS e)
      (copy_loop end_ n old new (i + PGSIZE) sz) (_ ← uvmunmap end_ new 0 (Z.to_nat (i / PGSIZE)) true; mret (-1)) k1).
    rewrite E. apply (IH k k2 l l2 old new hi (i + PGSIZE) sz); [|done|lia|done|done|rewrite MAXVA_val; lia|done].
    by apply (copying_put k k1 k2 l l1 l2 old new hi i p); [..|lia|done|lia|done|].
  - destruct (copying_undo k k2 l l2 old new hi i) as (k3 & l3 & E3 & U3); [|done|lia|done|].
    { apply (copying_unput k k1 k2 l l1 l2 old new hi); [done|done|lia|done]. }
    exists (-1), k3, l3. split; [|by right]. by rewrite <- E3, <- E.
Qed.
End Space.

(** ** Theorems *)

(** [uvmalloc] from [oldsz] to [newsz], where the pages between have no entry.  It returns [newsz]
    and these pages, and no others, are new ones: taken from the free list, all
    different, cleared, readable by the user and with [xperm]; or it returns 0 and they
    have no entry, which needs fewer free pages than three for each page to add (itself and two tables).
    Either way no page that was in use is written or freed, and none is lost. *)
Theorem uvmalloc_correct end_ k l root oldsz newsz xperm :
  PT end_ k l root -> 0 <= oldsz <= newsz -> newsz <= TRAPFRAME -> 0 <= Z.lor (Z.lor PTE_R PTE_U) xperm < 1024 ->
  (forall va, PGROUNDUP oldsz <= va < PGROUNDUP newsz -> has (pteval (kmemory k) root va) PTE_V = false) ->
  exists r k' l', uvmalloc end_ root oldsz newsz xperm k = Ret (r, k') /\
    ((r = newsz /\ grown end_ k k' l l' root (PGROUNDUP oldsz) (PGROUNDUP newsz) (Z.lor (Z.lor PTE_R PTE_U) xperm) /\
      Z.of_nat (length l) <= Z.of_nat (length l') + 3 * ((PGROUNDUP newsz - PGROUNDUP oldsz) / PGSIZE)) \/
     (r = 0 /\ Z.of_nat (length l) <= 3 * ((PGROUNDUP newsz - PGROUNDUP oldsz) / PGSIZE) /\ exists hi, PGROUNDUP oldsz <= hi <= PGROUNDUP newsz /\ restored end_ k k' l l' root (PGROUNDUP oldsz) hi)).
Proof.
  intros HP Ho Hn Hperm Hfree. change TRAPFRAME with (2 ^ 38 - 2 * 4096) in Hn. unfold uvmalloc.
  rewrite (proj2 (Z.ltb_ge newsz oldsz)) by lia.
  destruct (PGROUNDUP_spec oldsz ltac:(lia)) as [A1 A2]. destruct (PGROUNDUP_spec newsz ltac:(lia)) as [B1 B2].
  pose proof (aligned_div _ A1) as E1. pose proof (aligned_div _ B1) as E2.
  apply (alloc_loop_spec end_ _ k k l l root (PGROUNDUP oldsz) (PGROUNDUP oldsz) newsz xperm); try done; try lia.
  - by apply grown_space_refl.
  - unfold PGSIZE in *. lia.
  - rewrite MAXVA_val. unfold PGSIZE in *. lia.
  - assert (0 <= (newsz - PGROUNDUP oldsz) / PGSIZE + 1).
    { assert (-1 <= (newsz - PGROUNDUP oldsz) / PGSIZE); [|lia]. apply Z.div_le_lower_bound; [done|]. unfold PGSIZE in *. lia. }
    rewrite Z2Nat.id by lia. apply Z.div_lt_upper_bound; [done|].
    pose proof (Z.div_mod (newsz - PGROUNDUP oldsz) PGSIZE ltac:(done)). pose proof (Z.mod_pos_bound (newsz - PGROUNDUP oldsz) PGSIZE ltac:(done)).
    unfold PGSIZE in *. lia.
  - rewrite MAXVA_val. lia.
Qed.

(** C28: [uvmcopy], the memory of a [fork].  It returns 0 and below [sz] the new table has an entry exactly
    where the old one has, with the same permissions, to a page of its own that holds
    what the parent's page holds; or it returns -1 and the new table has no entry there.
    Either way the parent's table and pages stay as they are. *)
Theorem uvmcopy_correct end_ k l old new sz :
  parent_child end_ k l old new (PGROUNDUP sz) -> 0 <= sz <= MAXVA ->
  exists r k' l', uvmcopy end_ old new sz k = Ret (r, k') /\
    ((r = 0 /\ copying end_ k k' l l' old new (PGROUNDUP sz)) \/ (r = -1 /\ uncopied end_ k k' l l' old new (PGROUNDUP sz))).
Proof.
  intros PC Hsz. unfold uvmcopy. pose proof (copying_start end_ k l old new _ PC) as C. pose proof Hsz as Hsz'.
  rewrite MAXVA_val in Hsz'. destruct (PGROUNDUP_spec sz ltac:(lia)) as [A1 A2].
  apply (copy_space_spec end_ _ k k l l old new (PGROUNDUP sz) 0 sz C PC); try done; [lia|].
  assert (0 <= sz / PGSIZE) by (apply Z.div_pos; [lia|done]). rewrite Z2Nat.id, Z.sub_0_r by lia.
  apply Z.lt_succ_r. apply Z.div_lt_upper_bound; [done|]. pose proof (Z.div_mod sz PGSIZE ltac:(done)).
  pose proof (Z.mod_pos_bound sz PGSIZE ltac:(done)). unfold PGSIZE in *. lia.
Qed.

(** A new table beside the one in use. *)
Lemma uvmcreate_beside end_ k p l old :
  PT end_ k (p :: l) old ->
  exists k', uvmcreate k = Ret (p, k') /\ PT end_ k' l p /\ PT end_ k' l old /\
    (forall va, pteval (kmemory k') p va = 0) /\ (forall d, is_table (kmemory k') p d -> d = p) /\
    (forall va, pteval (kmemory k') old va = pteval (kmemory k) old va) /\
    (forall d, is_table (kmemory k') old d <-> is_table (kmemory k) old d) /\ ~ is_table (kmemory k') old p /\
    (forall d, page end_ d -> d <> p -> agree (kmemory k) (kmemory k') d).
Proof.
  intros HP. destruct (uvmcreate_spec end_ k p l (pt_k _ _ _ _ HP)) as (k' & E & H1 & H2 & H3 & _). exists k'.
  destruct (fresh_any end_ k p l old HP) as (k1 & E1 & Hp & Hni & _ & Hf).
  destruct (Hf (set_page (kmemory k1) p 0)) as (F1 & F2 & F3 & F4); [intros x Hx; apply set_page_out; lia|].
  assert (k' = set_mem (set_page (kmemory k1) p 0) k1) as ->.
  { unfold uvmcreate in E. rewrite (M_bind_Ret _ _ _ _ _ E1) in E. pose proof Hp as (_ & _ & Hp0).
    rewrite (proj2 (Z.eqb_neq p 0)) in E by lia. by injection E as <-. }
  split_and!; try done. intros Hx%F3. destruct (pt_table _ _ _ _ HP p Hx) as [_ Hx']. apply Hx', elem_of_cons. by left.
Qed.

Lemma uvmalloc_correct_witness :
  exists r k', uvmalloc Sample.end_ Sample.root 100 (2 * PGSIZE + 1) PTE_W Sample.k0 = Ret (r, k').
Proof.
  destruct Sample.table as (l & HP & Hz).
  destruct (uvmalloc_correct Sample.end_ Sample.k0 l Sample.root 100 (2 * PGSIZE + 1) PTE_W HP) as (r & k' & _ & E & _);
    [vm_compute; intuition congruence|vm_compute; congruence|vm_compute; intuition congruence|intros va _; by rewrite Hz|].
  exists r, k'. exact E.
Defined.

(** The process of [Sample], with one of its three pages in use, forks. *)
Lemma uvmcopy_correct_witness :
  exists p k r k', uvmcreate Sample.k1 = Ret (p, k) /\ uvmcopy Sample.end_ Sample.root p Sample.psz k = Ret (r, k').
Proof.
  destruct Sample.touched as (l & l' & q & _ & _ & Nq & HF). pose proof HF as [F1 F2 F3 _].
  destruct (F3 Nq) as (_ & (Q1 & Q2 & Q3) & _). pose proof (fault_fields Sample.end_ q Q1) as (L1 & L2 & _).
  destruct l' as [|p l'].
  { exists 0, Sample.k1. exfalso. pose proof (kalloc_spec Sample.end_ Sample.k1 [] (pt_k _ _ _ _ F1)) as E.
    assert (match kalloc Sample.k1 with Ret (x, _) => x | _ => 0 end <> 0) as Hne; [|rewrite E in Hne; by apply Hne].
    with_strategy transparent [Sample.k0 Sample.k1] (vm_compute; congruence). }
  destruct (uvmcreate_beside Sample.end_ Sample.k1 p l' Sample.root F1) as (k & E & P1 & P2 & Z0 & T0 & V0 & S0 & N0 & G0).
  destruct (uvmcopy_correct Sample.end_ k l' Sample.root p Sample.psz) as (r & k' & _ & E' & _).
  - split; [exact P1|exact P2| | |by intros va _; rewrite Z0|vm_compute; congruence].
    + intros d Hd ->%T0. by apply N0.
    + intros va Hva e He. unfold e in *. rewrite V0 in *. change (PGROUNDUP Sample.psz) with 12288 in Hva.
      rewrite F2 in He |- * by (rewrite MAXVA_val; lia).
      destruct (same_page va Sample.va && negb (q =? 0)).
      * rewrite L1. apply not_elem_of_cons in Q2 as [Q2 Q2']. split; [exact Q1|]. split; [exact Q2'|]. intros ->%T0. by apply Q2.
      * destruct Sample.table as (l0 & _ & Hz). by rewrite Hz in He.
  - vm_compute. intuition congruence.
  - exists p, k, r, k'. split; [exact E|exact E'].
Defined.
