(* ===== verification/VmFree.v ===== *)
(** * Giving up an address space: [freewalk] and [uvmfree] of [vm.c]

    The pages of a page table form a tree; [freewalk] frees exactly these pages, children
    first, and never meets a leaf once the user memory is unmapped. *)

From S2P Require Import Prelude Riscv CString Kalloc Vm VmMap VmUser VmSpace.

Lemma elem_of_rev_pages (l : list Z) x : x ∈ rev l <-> x ∈ l.
Proof. by rewrite !list_elem_of_In, <- in_rev. Qed.

Definition indices : list Z := Z.of_nat <$> seq 0 512.

Lemma elem_of_indices i : i ∈ indices <-> idx i.
Proof.
  unfold indices, idx. rewrite list_elem_of_fmap. split.
  - intros (n & -> & Hn%elem_of_seq). lia.
  - intros H. exists (Z.to_nat i). split; [lia|]. apply elem_of_seq. lia.
Qed.

Lemma NoDup_indices : NoDup indices.
Proof. apply NoDup_fmap_2; [intros a b; lia|apply NoDup_seq]. Qed.
#[local] Opaque indices.

(** Table [p] of [d] levels without leaves: [ps] are its pages, in the order [freewalk] frees
    them. *)
Fixpoint tree (d : nat) (m : mem) (p : Z) (ps : list Z) : Prop :=
  match d with
  | O => False
  | S d' => exists g : Z -> list Z, (forall i, idx i -> let e := ld64 m (p + 8 * i) in
      if has e PTE_V then has e RWX = false /\ tree d' m (PTE2PA e) (g i) else g i = []) /\
      ps = (indices ≫= g) ++ [p]
  end.

Lemma ld_agree m m' p i : agree m m' p -> idx i -> ld64 m' (p + 8 * i) = ld64 m (p + 8 * i).
Proof. intros H Hi. apply ld64_ext. intros x Hx. apply H. unfold idx, PGSIZE in *. lia. Qed.

Lemma tree_agree d : forall m m' p ps, (forall q, q ∈ ps -> agree m m' q) -> tree d m p ps -> tree d m' p ps.
Proof.
  induction d as [|d IH]; intros m m' p ps Ha; [done|]. intros (g & Hg & ->). exists g. split; [|done]. intros i Hi.
  assert (p ∈ (indices ≫= g) ++ [p]) as Hp by (apply elem_of_app; right; by apply list_elem_of_singleton).
  cbv zeta. rewrite (ld_agree m m') by (auto using Ha). specialize (Hg i Hi). cbv zeta in Hg.
  destruct (has (ld64 m (p + 8 * i)) PTE_V); [|done]. destruct Hg as [G1 G2]. split; [done|]. apply (IH m); [|done].
  intros q Hq. apply Ha, elem_of_app. left. apply list_elem_of_bind. exists i. split; [done|by apply elem_of_indices].
Qed.

Section Free.
Context (end_ : Z).

(** What freeing [ps] does. *)
Record freed (k k' : kmem) (l ps : list Z) (p : Z) : Prop := {
  fr_k : KInv end_ k' (rev ps ++ l);
  fr_other : forall q, page end_ q -> q ∉ ps -> q <> p -> agree (kmemory k) (kmemory k') q
}.

Definition freeable (l ps : list Z) : Prop := NoDup ps /\ forall q, q ∈ ps -> page end_ q /\ q ∉ l.

Lemma freeable_app l a b : freeable l (a ++ b) -> freeable l a /\ freeable (rev a ++ l) b.
Proof.
  intros [H1 H2]. apply list.NoDup_app in H1 as (N1 & N2 & N3). split; [split; [done|]; intros q Hq; apply H2, elem_of_app; by left|].
  split; [done|]. intros q Hq. destruct (H2 q) as [A B]; [apply elem_of_app; by right|]. split; [done|].
  rewrite elem_of_app. intros [Hx|Hx]; [|done]. rewrite elem_of_rev_pages in Hx. by apply (N2 q).
Qed.

Lemma tree_head d m p ps : tree d m p ps -> p ∈ ps.
Proof. destruct d; [done|]. intros (g & _ & ->). apply elem_of_app. right. by apply list_elem_of_singleton. Qed.

(** Clearing entry [i] of table [p]. *)
Lemma clear_entry k l p i : KInv end_ k l -> page end_ p -> p ∉ l -> idx i ->
  let k' := set_mem (st64 (kmemory k) (p + 8 * i) 0) k in
  KInv end_ k' l /\ (forall j, idx j -> j <> i -> ld64 (kmemory k') (p + 8 * j) = ld64 (kmemory k) (p + 8 * j)) /\
  forall q, page end_ q -> q <> p -> agree (kmemory k) (kmemory k') q.
Proof.
  intros HK Hp Hpl Hi k'. assert (forall q, page end_ q -> q <> p -> agree (kmemory k) (kmemory k') q) as Hq.
  { intros q Hq N a Ha. cbn [kmemory set_mem k']. apply st64_out. destruct (page_apart end_ q p Hq Hp N); unfold idx, PGSIZE in *; lia. }
  split; [|split; [|done]].
  - apply KInv_client; [done|]. intros x a Hx Ha. apply (Hq x); [eapply chain_pages; [apply HK|done]|by intros ->|done].
  - intros j Hj N. cbn [kmemory set_mem k']. apply ld64_st64_ne. lia.
Qed.

Definition entry_tree (d : nat) (m : mem) (p i : Z) (ps : list Z) : Prop :=
  let e := ld64 m (p + 8 * i) in if has e PTE_V then has e RWX = false /\ tree d m (PTE2PA e) ps else ps = [].

Lemma entries_run rec d p :
  (forall q ps k l, tree d (kmemory k) q ps -> KInv end_ k l -> freeable l ps -> exists k', rec q k = Ret (tt, k') /\ freed k k' l ps q) ->
  page end_ p -> forall il k l g, KInv end_ k l -> p ∉ l -> NoDup il ->
  (forall i, i ∈ il -> idx i /\ entry_tree d (kmemory k) p i (g i)) -> freeable l (il ≫= g) -> p ∉ il ≫= g ->
  exists k', freewalk_entries rec p il k = Ret (tt, k') /\ freed k k' l (il ≫= g) p.
Proof.
  intros Hrec Hp. induction il as [|i il IH]; intros k l g HK Hpl Hnd Hg Hf Hpn; [exists k; split; [done|]; by split|].
  apply list.NoDup_cons in Hnd as [Hi Hnd]. change ((i :: il) ≫= g) with (g i ++ (il ≫= g)) in *.
  destruct (Hg i ltac:(apply elem_of_cons; by left)) as [Ii Hgi]. unfold entry_tree in Hgi. cbv zeta in Hgi.
  pose proof Hf as [Hf0 Hfp]. destruct (freeable_app l (g i) (il ≫= g) Hf) as [Hf1 Hf2]. apply not_elem_of_app in Hpn as [Np1 Np2].
  cbn [freewalk_entries]. unfold ld. rewrite (M_bind_Ret _ _ k (ld64 (kmemory k) (p + 8 * i)) k) by done. set (e := ld64 (kmemory k) (p + 8 * i)) in *.
  assert (exists k2, (if has e PTE_V && negb (has e (Z.lor PTE_R (Z.lor PTE_W PTE_X))) then _ ← rec (PTE2PA e); st (p + 8 * i) 0
      else panic_if (has e PTE_V) "freewalk: leaf") k = Ret (tt, k2) /\ KInv end_ k2 (rev (g i) ++ l) /\
      (forall j, idx j -> j <> i -> ld64 (kmemory k2) (p + 8 * j) = ld64 (kmemory k) (p + 8 * j)) /\
      (forall q, page end_ q -> q ∉ g i -> q <> p -> agree (kmemory k) (kmemory k2) q)) as (k2 & E2 & K2 & J2 & A2).
  { destruct (has e PTE_V) eqn:Ev.
    - destruct Hgi as [Hx Ht]. change (Z.lor PTE_R (Z.lor PTE_W PTE_X)) with RWX. rewrite Hx. cbn [negb andb].
      destruct (Hrec _ _ k l Ht HK Hf1) as (k1 & E1 & [F1 F2]). rewrite (M_bind_Ret _ _ _ _ _ E1).
      pose proof (tree_head _ _ _ _ Ht) as Hq. assert (p <> PTE2PA e) as Npe by (intros Ep; rewrite Ep in Np1; done).
      destruct (clear_entry k1 (rev (g i) ++ l) p i F1 Hp) as (C1 & C2 & C3); [|done|].
      { apply not_elem_of_app. split; [|done]. by rewrite elem_of_rev_pages. }
      eexists. split; [reflexivity|]. split; [done|]. split.
      + intros j Hj N. rewrite C2 by done. apply ld_agree; [by apply F2|done].
      + intros q Q1 Q2 Q3 a Ha. rewrite (C3 q), (F2 q); try done. by intros ->.
    - subst. rewrite Hgi. exists k. by split_and!. }
  rewrite (M_bind_Ret _ _ _ _ _ E2).
  destruct (IH k2 (rev (g i) ++ l) g K2) as (k3 & E3 & [F3 A3]); try done.
  - apply not_elem_of_app. split; [|done]. by rewrite elem_of_rev_pages.
  - intros j Hj. destruct (Hg j ltac:(apply elem_of_cons; by right)) as [Ij Hgj]. split; [done|]. unfold entry_tree in *.
    rewrite J2; [|done|by intros ->]. destruct (has (ld64 (kmemory k) (p + 8 * j)) PTE_V); [|done]. destruct Hgj as [G1 G2]. split; [done|].
    apply (tree_agree d (kmemory k)); [|done]. intros q Hq. apply A2.
    + apply Hfp, elem_of_app. right. apply list_elem_of_bind. by exists j.
    + intros Hx. apply list.NoDup_app in Hf0 as (_ & Hd & _). apply (Hd q Hx). apply list_elem_of_bind. by exists j.
    + intros ->. apply Np2, list_elem_of_bind. by exists j.
  - exists k3. split; [done|]. split.
    + by rewrite rev_app_distr, <- app_assoc.
    + intros q Q1 Q2 Q3 a Ha. apply not_elem_of_app in Q2 as [Q2 Q2']. rewrite (A3 q), (A2 q); done.
Qed.

Lemma freewalk_run d : forall p ps k l, tree d (kmemory k) p ps -> KInv end_ k l -> freeable l ps ->
  exists k', freewalk end_ d p k = Ret (tt, k') /\ freed k k' l ps p.
Proof.
  induction d as [|d IH]; intros p ps k l Ht HK Hf; [done|]. pose proof Ht as (g & Hg & ->).
  destruct (freeable_app l _ _ Hf) as [Hf1 [_ Hf2]]. destruct (Hf2 p ltac:(by apply list_elem_of_singleton)) as [Hp Hpn].
  apply not_elem_of_app in Hpn as [Np1 Np2]. rewrite elem_of_rev_pages in Np1.
  destruct (entries_run (freewalk end_ d) d p IH Hp indices k l g HK Np2 NoDup_indices) as (k1 & E1 & [F1 F2]); [|done|done|].
  { intros i Hi%elem_of_indices. split; [done|]. by apply Hg. }
  destruct (kfree_spec end_ k1 (rev (indices ≫= g) ++ l) p F1 Hp) as (k2 & E2 & K2 & M2).
  { apply not_elem_of_app. split; [|done]. by rewrite elem_of_rev_pages. }
  exists k2. split.
  - cbn [freewalk]. change (Z.of_nat <$> seq 0 512) with indices. by rewrite (M_bind_Ret _ _ _ _ _ E1).
  - split; [by rewrite rev_app_distr|]. intros q Q1 Q2 Q3 a Ha. apply not_elem_of_app in Q2 as [Q2 _].
    rewrite M2; [by apply (F2 q)|]. destruct (page_apart end_ q p Q1 Hp Q3); lia.
Qed.
End Free.

(** ** The pages of a page table *)

Definition child (m : mem) (q j : Z) : list Z := match next m q j with Some p => [p] | None => [] end.
Definition low (m : mem) (q : Z) : list Z := (indices ≫= child m q) ++ [q].
Definition tables (m : mem) (root : Z) : list Z :=
  (indices ≫= fun i => match T1 m root i with Some q => low m q | None => [] end) ++ [root].

Lemma elem_of_child m q j p : p ∈ child m q j <-> next m q j = Some p.
Proof.
  unfold child. destruct (next m q j) as [x|]; [rewrite list_elem_of_singleton|rewrite elem_of_nil]; split; try done; [by intros ->|by intros [= ->]].
Qed.

Lemma elem_of_low m q p : p ∈ low m q <-> p = q \/ exists j, idx j /\ next m q j = Some p.
Proof.
  unfold low. rewrite elem_of_app, list_elem_of_bind, list_elem_of_singleton. split.
  - intros [(j & Hp%elem_of_child & Hj%elem_of_indices)| ->]; [right; eauto|by left].
  - intros [->|(j & Hj & Hp)]; [by right|]. left. exists j. by rewrite elem_of_child, elem_of_indices.
Qed.

Lemma elem_of_tables m root p : p ∈ tables m root <-> is_table m root p.
Proof.
  unfold tables, is_table. rewrite elem_of_app, list_elem_of_bind, list_elem_of_singleton. split.
  - intros [(i & Hp & Hi%elem_of_indices)| ->]; [|by left]. destruct (T1 m root i) as [q|] eqn:Eq; [|by apply elem_of_nil in Hp].
    apply elem_of_low in Hp as [->|(j & Hj & E)]; [right; left; eauto|]. right. right. exists i, j. unfold T0. by rewrite Eq.
  - intros [->|[(i & Hi & E)|(i & j & Hi & Hj & E)]]; [by right|..].
    + left. exists i. rewrite E, elem_of_indices, elem_of_low. eauto.
    + left. exists i. unfold T0 in E. destruct (T1 m root i) as [q|]; [|done]. rewrite elem_of_indices, elem_of_low. eauto.
Qed.

Lemma NoDup_tables end_ k l root : PT end_ k l root -> NoDup (tables (kmemory k) root).
Proof.
  intros [P1 P2 P3 P4 P5 P6 P7 P8 P9 P10]. set (m := kmemory k) in *.
  assert (forall i q y, T1 m root i = Some q -> y ∈ low m q -> T1 m root i = Some y \/ exists j, idx j /\ T0 m root i j = Some y) as Hl.
  { intros i q y Eq [->|(j & Hj & E)]%elem_of_low; [by left|]. right. exists j. unfold T0. by rewrite Eq. }
  unfold tables. apply list.NoDup_app. split_and!; [apply NoDup_bind; [| |apply NoDup_indices]| |apply NoDup_singleton].
  - intros i i' y Hi%elem_of_indices Hi'%elem_of_indices. destruct (T1 m root i) as [q|] eqn:Eq; [|by intros ?%elem_of_nil].
    destruct (T1 m root i') as [q'|] eqn:Eq'; [|by intros _ ?%elem_of_nil].
    intros [A|(j & Hj & A)]%(Hl i q y Eq) [B|(j' & Hj' & B)]%(Hl i' q' y Eq').
    + apply P6; congruence.
    + exfalso. apply (P5 i i' j' Hi Hi' Hj'); congruence.
    + exfalso. apply (P5 i' i j Hi' Hi Hj); congruence.
    + apply (P7 i j i' j'); congruence.
  - intros i Hi%elem_of_indices. destruct (T1 m root i) as [q|] eqn:Eq; [|constructor]. unfold low. apply list.NoDup_app.
    split_and!; [apply NoDup_bind; [| |apply NoDup_indices]| |apply NoDup_singleton].
    + intros j j' y Hj%elem_of_indices Hj'%elem_of_indices A%elem_of_child B%elem_of_child.
      apply (P7 i j i j'); unfold T0; rewrite ?Eq; congruence.
    + intros j _. unfold child. destruct (next m q j); [apply NoDup_singleton|constructor].
    + intros y (j & A%elem_of_child & Hj%elem_of_indices)%list_elem_of_bind ->%list_elem_of_singleton.
      apply (P5 i i j Hi Hi Hj); [congruence|]. unfold T0. rewrite Eq. congruence.
  - intros y (i & A & Hi%elem_of_indices)%list_elem_of_bind ->%list_elem_of_singleton.
    destruct (T1 m root i) as [q|] eqn:Eq; [|by apply elem_of_nil in A]. destruct (Hl i q root Eq A) as [B|(j & Hj & B)]; [by apply (P3 i)|by apply (P4 i j)].
Qed.

(** Without valid leaves the table is a tree. *)
Definition no_leaf (m : mem) (root : Z) : Prop :=
  forall i j p x, idx i -> idx j -> idx x -> T0 m root i j = Some p -> has (ld64 m (p + 8 * x)) PTE_V = false.

Lemma next_valid m p i q : next m p i = Some q -> has (ld64 m (p + 8 * i)) PTE_V = true /\ PTE2PA (ld64 m (p + 8 * i)) = q.
Proof. unfold next. destruct (has (ld64 m (p + 8 * i)) PTE_V); [by intros [= <-]|done]. Qed.

Lemma bind_nil (l : list Z) : l ≫= (fun _ => []) = @nil Z.
Proof. induction l as [|x l IH]; [done|]. exact IH. Qed.

Lemma tables_tree end_ k l root : PT end_ k l root -> no_leaf (kmemory k) root -> tree 3 (kmemory k) root (tables (kmemory k) root).
Proof.
  intros HP Hn. set (m := kmemory k) in *. exists (fun i => match T1 m root i with Some q => low m q | None => [] end).
  split; [|reflexivity]. intros i Hi. cbv beta zeta. unfold T1.
  destruct (has (ld64 m (root + 8 * i)) PTE_V) eqn:Ei; [|unfold next; by rewrite Ei].
  assert (next m root i = Some (PTE2PA (ld64 m (root + 8 * i)))) as En by (unfold next; by rewrite Ei). rewrite En.
  split; [apply (pt_plain1 _ _ _ _ HP i Hi); fold m; by rewrite En|]. set (q := PTE2PA _) in *.
  exists (child m q). split; [|reflexivity]. intros j Hj. cbv zeta. unfold child.
  destruct (has (ld64 m (q + 8 * j)) PTE_V) eqn:Ej; [|unfold next; by rewrite Ej].
  assert (next m q j = Some (PTE2PA (ld64 m (q + 8 * j)))) as Eq by (unfold next; by rewrite Ej). rewrite Eq.
  split; [apply (pt_plain0 _ _ _ _ HP i j q Hi Hj En); fold m; by rewrite Eq|]. set (p := PTE2PA (ld64 m (q + 8 * j))) in *.
  exists (fun _ => []). split; [|by rewrite bind_nil]. intros x Hx. cbv zeta. rewrite (Hn i j p x); try done. unfold T0, T1. fold m. by rewrite En.
Qed.

(** The address whose indices are [i], [j] and [x]. *)
Lemma va_of i j x : 0 <= i < 256 -> idx j -> idx x ->
  let va := (i * 2 ^ 18 + j * 2 ^ 9 + x) * PGSIZE in 0 <= va < MAXVA /\ PX 2 va = i /\ PX 1 va = j /\ PX 0 va = x.
Proof.
  intros Hi Hj Hx va. unfold va, PGSIZE, idx in *. rewrite MAXVA_val. split; [lia|]. rewrite !PX_div by lia.
  change (2 ^ (12 + 9 * 2)) with (2 ^ 30). change (2 ^ (12 + 9 * 1)) with (2 ^ 21). change (2 ^ (12 + 9 * 0)) with (2 ^ 12).
  rewrite <- (Z.div_unique ((i * 2 ^ 18 + j * 2 ^ 9 + x) * 4096) (2 ^ 30) i (j * 2 ^ 21 + x * 2 ^ 12)) by lia.
  rewrite <- (Z.div_unique ((i * 2 ^ 18 + j * 2 ^ 9 + x) * 4096) (2 ^ 21) (i * 512 + j) (x * 2 ^ 12)) by lia.
  rewrite <- (Z.div_unique ((i * 2 ^ 18 + j * 2 ^ 9 + x) * 4096) (2 ^ 12) ((i * 512 + j) * 512 + x) 0) by lia.
  split; [by apply Z.mod_small; lia|]. rewrite (Z.add_comm (i * 512) j), Z.mod_add by lia. rewrite Z.mod_small by lia. split; [done|].
  rewrite (Z.add_comm _ x), Z.mod_add by lia. by apply Z.mod_small.
Qed.

Lemma no_leaf_of end_ k l root : PT end_ k l root ->
  (forall va, 0 <= va < MAXVA -> has (pteval (kmemory k) root va) PTE_V = false) -> no_leaf (kmemory k) root.
Proof.
  intros HP Hv i j p x Hi Hj Hx E. destruct (Z.lt_ge_cases i 256) as [Hl|Hg].
  - destruct (va_of i j x ltac:(unfold idx in Hi; lia) Hj Hx) as (V0 & V2 & V1 & V00). specialize (Hv _ V0). unfold pteval, leaf in Hv.
    by rewrite V2, V1, V00, E in Hv.
  - unfold T0 in E. by rewrite (pt_half _ _ _ _ HP i ltac:(unfold idx in Hi; lia)) in E.
Qed.

(** ** Theorem *)

(** [uvmfree] of an address space whose only valid entries are below [sz], each page mapped once.  It
    returns, without meeting a leaf; the free pages are then exactly those that were free, the
    pages of the table and the pages that were mapped, each once; every other page of memory is as it was. *)
Theorem uvmfree_correct end_ k l root sz :
  PT end_ k l root -> 0 <= sz <= MAXVA -> owns end_ k l root 0 (PGROUNDUP sz) ->
  (forall va, PGROUNDUP sz <= va < MAXVA -> has (pteval (kmemory k) root va) PTE_V = false) ->
  exists k' l', uvmfree end_ root sz k = Ret (tt, k') /\ KInv end_ k' l' /\
    (forall p, p ∈ l' <-> p ∈ l \/ is_table (kmemory k) root p \/
       exists va, 0 <= va < PGROUNDUP sz /\ has (pteval (kmemory k) root va) PTE_V = true /\ PTE2PA (pteval (kmemory k) root va) = p) /\
    forall q, page end_ q -> q ∉ l' -> agree (kmemory k) (kmemory k') q.
Proof.
  intros HP Hsz Ho Hab. pose proof Hsz as Hsz'. rewrite MAXVA_val in Hsz'. destruct (PGROUNDUP_spec sz ltac:(lia)) as [A1 A2].
  set (hi := PGROUNDUP sz) in *. set (n := Z.to_nat (hi / PGSIZE)).
  assert (hi <= MAXVA) as Hhi by (apply aligned_div in A1; rewrite MAXVA_val; unfold PGSIZE in *; lia).
  assert (0 + Z.of_nat n * PGSIZE = hi) as En.
  { pose proof (pages_between 0 hi ltac:(lia) eq_refl A1) as E. by rewrite Z.sub_0_r in E. }
  destruct (upages_owns end_ k l root n 0 eq_refl ltac:(by rewrite En)) as [U1 U2].
  destruct (unmap_loop_spec end_ true n k l root 0 HP ltac:(lia) ltac:(lia) eq_refl U1 U2) as (k1 & E1 & [V1 V2 V3 V4]).
  set (f := upages (kmemory k) root 0 n) in *. cbv iota in *.
  assert (forall va, 0 <= va < MAXVA -> has (pteval (kmemory k1) root va) PTE_V = false) as Hno.
  { intros va Hva. rewrite V2, En by done. destruct (Z.leb_spec 0 va), (Z.ltb_spec va hi); cbn [andb]; try lia.
    - by destruct (has (pteval (kmemory k) root va) PTE_V) eqn:Eh.
    - apply Hab. lia. }
  set (ps := tables (kmemory k1) root).
  assert (forall p, p ∈ ps <-> is_table (kmemory k) root p) as Hps by (intros p; unfold ps; by rewrite elem_of_tables, V3).
  destruct (freewalk_run end_ 3 root ps k1 (rev f ++ l)) as (k2 & E2 & [F1 F2]).
  { by eapply tables_tree; [|by eapply no_leaf_of]. }
  { apply V1. }
  { split; [by eapply NoDup_tables|]. intros q Hq%elem_of_tables. by apply (pt_table _ _ _ _ V1). }
  exists k2, (rev ps ++ rev f ++ l). split; [|split; [done|split]].
  - unfold uvmfree. rewrite (M_bind_Ret _ _ k tt k1); [done|]. destruct (Z.ltb_spec 0 sz) as [Hp|Hz].
    + unfold uvmunmap. rewrite (M_bind_Ret _ _ k tt k) by done. exact E1.
    + assert (n = 0%nat) as En0 by (apply aligned_div in A1; unfold PGSIZE in *; lia). rewrite En0 in E1. cbn in E1. by injection E1 as <-.
  - intros p. rewrite !elem_of_app, !elem_of_rev_pages, Hps. split.
    + intros [H|[H|H]]; [by right; left| |by left]. right. right. apply upages_elem in H as (i & Hi & W1 & W2). cbv zeta in *.
      exists (0 + Z.of_nat i * PGSIZE). split; [unfold PGSIZE in *; lia|done].
    + intros [H|[H|(va & Hva & W1 & W2)]]; [by right; right|by left|]. right. left. subst p. apply upages_in; [done|rewrite En; done|done].
  - intros q Q1 Q2 a Ha. rewrite !not_elem_of_app in Q2. destruct Q2 as (N1 & N2 & N3).
    rewrite elem_of_rev_pages in N1, N2. assert (~ is_table (kmemory k) root q) as Nt by (by rewrite <- Hps).
    assert (q <> root) as Nr by (intros ->; apply Nt; by left). rewrite (F2 q), (V4 q); done.
Qed.
