(* ===== verification/ShRedir.v ===== *)
(** * Redirections of the shell: [c-shell/src/redirection.c], and the part of
    [execute_single] and [launch_background_single] of [main.c] around a command

    Files are a map from paths to contents.  What the operating system decides is a
    parameter: which paths can be opened, how many bytes each [read] and [write]
    transfers, whether a temporary file can be made, and what a command does with
    its arguments and standard input.  A builtin prints through the stream [stdout]
    of the shell: what it prints goes into the stream's buffer, and [passed b] is how many of
    the bytes [b] in the buffer the C library writes out: every complete line when the shell
    was started on a terminal, possibly none otherwise.  Nothing flushes the buffer before
    the shell restores its standard output. *)

From S2P Require Import Prelude ShLexer.

Abbreviation path := (list Z).
Abbreviation str := (list Z).

Definition op_lt : str := [chLT].
Definition op_gt : str := [chGT].
Definition op_gtgt : str := [chGT; chGT].

(** [strcmp(a, b) == 0] *)
Definition streq (a b : str) : bool := bool_decide (a = b).

(** Standard input: inherited, or the rewound temporary file. *)
Inductive source := Inherited | Bytes (l : list Z).

Record sh := mkSh {
  files : gmap path (list Z);
  stdin : source;
  to_tmp : bool;          (** standard output is the temporary file *)
  tmp : list Z;           (** what has been written to it *)
  screen : list Z;        (** what has been written to the inherited output *)
  errs : list string      (** messages on standard error *)
}.

Definition set_files (f : gmap path (list Z)) (s : sh) : sh := mkSh f (stdin s) (to_tmp s) (tmp s) (screen s) (errs s).
Definition set_stdin (i : source) (s : sh) : sh := mkSh (files s) i (to_tmp s) (tmp s) (screen s) (errs s).
Definition set_out (b : bool) (t : list Z) (s : sh) : sh := mkSh (files s) (stdin s) b t (screen s) (errs s).
Definition err (e : string) (s : sh) : sh := mkSh (files s) (stdin s) (to_tmp s) (tmp s) (screen s) (errs s ++ [e]).
(** Bytes a command writes to its standard output. *)
Definition emit (l : list Z) (s : sh) : sh :=
  if to_tmp s then mkSh (files s) (stdin s) true (tmp s ++ l) (screen s) (errs s)
  else mkSh (files s) (stdin s) false (tmp s) (screen s ++ l) (errs s).

(** The chain of [strcmp(clean_args\[0\], ...)] that chooses a builtin. *)
Inductive action := AHop | AReveal | APeek | ALocate | AActivities | AResume | APing | ASpy | ASnoop | AExternal.

Definition dispatch (w : str) : action :=
  if streq w (bytes "hop") then AHop
  else if streq w (bytes "reveal") then AReveal
  else if streq w (bytes "peek") then APeek
  else if streq w (bytes "locate") then ALocate
  else if streq w (bytes "activities") then AActivities
  else if streq w (bytes "resume") then AResume
  else if streq w (bytes "ping") then APing
  else if streq w (bytes "spy") then ASpy
  else if streq w (bytes "snoop") then ASnoop
  else AExternal.

(** The shell's files and descriptors, and the bytes in the buffer of [stdout]. *)
Record psh := mkP { base : sh; obuf : list Z }.
Abbreviation P := (M psh).
Definition lift {A} (m : M sh A) : P A := fun s =>
  match m (base s) with
  | Ret (a, b) => Ret (a, mkP b (obuf s))
  | Panic e => Panic e
  | Undef e => Undef e
  end.

(** [printf] *)
Definition print (passed : list Z -> nat) (l : list Z) : P unit := modify (fun s =>
  let b := obuf s ++ l in mkP (emit (take (passed b) b) (base s)) (drop (passed b) b)).

(** Complete lines; a stream on a terminal keeps none of them back. *)
Definition whole_lines (b : list Z) : Prop := b = [] \/ exists l, b = l ++ [10].
Definition on_terminal (passed : list Z -> nat) : Prop := forall b, whole_lines b -> passed b = length b.

Section Redir.
(** Can [open] succeed for reading (of a file that exists) and for writing; does
    [tmpfile] succeed; what [read] of given contents and [write] return at an offset
    for a length. *)
Context (can_read can_write : path -> bool) (tmp_ok : bool).
Context (rd : list Z -> Z -> Z -> Z) (wr : Z -> Z -> Z).

Definition COPY_BUFFER_SIZE : Z := 8192.

(** The copy loop of [setup_input_redirection], from offset [off] of [c]: the bytes
    copied, or a read error. *)
Fixpoint copy_loop (fuel : nat) (c : list Z) (off : Z) (acc : list Z) : option (list Z) :=
  match fuel with
  | O => None
  | S fuel' =>
    let n := rd c off COPY_BUFFER_SIZE in
    if 0 <? n then copy_loop fuel' c (off + n) (acc ++ take (Z.to_nat n) (drop (Z.to_nat off) c))
    else if n <? 0 then None else Some acc
  end.

Definition no_such : string := "cshell: no such file or directory".
Definition no_create : string := "cshell: unable to create file for writing".

(** The loop of [setup_input_redirection]; [t] is the temporary file once made. *)
Fixpoint input_loop (args : list str) (t : option (list Z)) : M sh (Z * option (list Z)) :=
  match args with
  | [] => mret (0, t)
  | a :: rest =>
    if streq a op_lt then
      match rest with
      | [] => _ ← modify (err no_such); mret (-1, t)
      | f :: rest' =>
        if match t with None => negb tmp_ok | Some _ => false end then _ ← modify (err no_such); mret (-1, t)
        else
          s ← get;
          match files s !! f with
          | Some c =>
            if can_read f then
              match copy_loop (S (length c)) c 0 (default [] t) with
              | Some t' => input_loop rest' (Some t')
              | None => mret (-1, t)
              end
            else _ ← modify (err no_such); mret (-1, t)
          | None => _ ← modify (err no_such); mret (-1, t)
          end
      end
    else input_loop rest t
  end.

Definition setup_input_redirection (args : list str) : M sh Z :=
  r ← input_loop args None;
  let '(st, t) := (r : Z * option (list Z)) in
  if st =? -1 then mret (-1)
  else
    match t with
    | None => mret 0
    | Some l => _ ← modify (set_stdin (Bytes l)); mret 1
    end.

Definition is_out (a : str) : bool := streq a op_gt || streq a op_gtgt.

(** [open(filename, flags, 0644)] for output, and [close]. *)
Definition open_out (append : bool) (f : path) : M sh bool :=
  if can_write f then
    _ ← modify (fun s => set_files (<[f := if append then default [] (files s !! f) else []]> (files s)) s);
    mret true
  else mret false.

Fixpoint output_loop (args : list str) (found : bool) : M sh (Z * bool) :=
  match args with
  | [] => mret (0, found)
  | a :: rest =>
    if is_out a then
      match rest with
      | [] => _ ← modify (err no_create); mret (-1, true)
      | f :: rest' =>
        ok ← open_out (negb (streq a op_gt)) f;
        if (ok : bool) then output_loop rest' true else _ ← modify (err no_create); mret (-1, true)
      end
    else output_loop rest found
  end.

Definition setup_output_redirection (args : list str) : M sh Z :=
  r ← output_loop args false;
  let '(st, found) := (r : Z * bool) in
  if st =? -1 then mret (-1)
  else if negb found then mret 0
  else if negb tmp_ok then _ ← modify (err no_create); mret (-1)
  else _ ← modify (set_out true []); mret 1.

(** Reading the temporary file back into a buffer that doubles. *)
Fixpoint read_back (fuel : nat) (c : list Z) (size capacity : Z) (data : list Z) : option (list Z) :=
  match fuel with
  | O => None
  | S fuel' =>
    let capacity := if size =? capacity then capacity * 2 else capacity in
    let n := rd c size (capacity - size) in
    if n <? 0 then None
    else if n =? 0 then Some data
    else read_back fuel' c (size + n) capacity (data ++ take (Z.to_nat n) (drop (Z.to_nat size) c))
  end.

(** [while (written < size)]: appends to the file opened. *)
Fixpoint write_back (fuel : nat) (f : path) (data : list Z) (written : Z) : M sh Z :=
  if written <? Z.of_nat (length data) then
    match fuel with
    | O => undef "write makes no progress"
    | S fuel' =>
      let n := wr written (Z.of_nat (length data) - written) in
      if n <? 0 then mret (-1)
      else
        _ ← modify (fun s => set_files
              (<[f := default [] (files s !! f) ++ take (Z.to_nat n) (drop (Z.to_nat written) data)]> (files s)) s);
        write_back fuel' f data (written + n)
    end
  else mret 0.

Fixpoint distribute_loop (args : list str) (data : list Z) : M sh Z :=
  match args with
  | [] => mret 0
  | a :: rest =>
    if is_out a then
      match rest with
      | [] => mret (-1)
      | f :: rest' =>
        ok ← open_out (negb (streq a op_gt)) f;
        if (ok : bool) then
          r ← write_back (length data) f data 0;
          if r =? -1 then mret (-1) else distribute_loop rest' data
        else _ ← modify (err no_create); mret (-1)
      end
    else distribute_loop rest data
  end.

Definition distribute_output (args : list str) : M sh Z :=
  s ← get;
  match read_back (S (length (tmp s))) (tmp s) 0 8192 [] with
  | None => mret (-1)
  | Some data => distribute_loop args data
  end.

(** ** Around a command *)

(** [clean_args]: the arguments without redirections. *)
Fixpoint clean_args (args : list str) : list str :=
  match args with
  | [] => []
  | a :: rest =>
    if streq a op_lt || is_out a then match rest with [] => [] | _ :: rest' => clean_args rest' end
    else a :: clean_args rest
  end.

(** What a command does: from its words, its standard input and the files, its
    output and the files it leaves. *)
Context (command : list str -> source -> gmap path (list Z) -> list Z * gmap path (list Z)).

Context (passed : list Z -> nat).

(** A builtin prints through [stdout]; a program is another process and writes to its
    descriptor. *)
Definition run_command (words : list str) : P unit :=
  s ← get;
  let '(o, f) := command words (stdin (base s)) (files (base s)) in
  _ ← lift (modify (set_files f));
  match dispatch (hd [] words) with
  | AExternal => lift (modify (emit o))
  | _ => print passed o
  end.

(** [execute_single], with the saved descriptors of [dup] put back on every path. *)
Definition execute_single (args : list str) : P unit :=
  s0 ← get;
  let restore := lift (modify (fun s => set_out (to_tmp (base s0)) (tmp s) (set_stdin (stdin (base s0)) s))) in
  match clean_args args with
  | [] => mret tt
  | words =>
    i ← lift (setup_input_redirection args);
    if i =? -1 then restore
    else
      o ← lift (setup_output_redirection args);
      if o =? -1 then restore
      else
        _ ← run_command words;
        _ ← restore;
        if o =? 1 then _ ← lift (distribute_output args); mret tt else mret tt
  end.

(** The child of [launch_background_single]: it executes the program in place, so
    nothing runs after it. *)
Definition exec_command (words : list str) : M sh unit :=
  modify (fun s => let '(o, f) := command words (stdin s) (files s) in emit o (set_files f s)).

Definition background_child (args : list str) : M sh unit :=
  match clean_args args with
  | [] => mret tt
  | words =>
    i ← setup_input_redirection args;
    if i =? -1 then mret tt
    else
      o ← setup_output_redirection args;
      if o =? -1 then mret tt else exec_command words
  end.

(** ** Specification *)

(** A simple command as its words and redirections. *)
Inductive item := IWord (w : str) | IIn (f : path) | IOut (append : bool) (f : path).

Definition flat (i : item) : list str :=
  match i with
  | IWord w => [w]
  | IIn f => [op_lt; f]
  | IOut app f => [if app then op_gtgt else op_gt; f]
  end.
Definition flatten (l : list item) : list str := l ≫= flat.

Definition is_op (a : str) : bool := streq a op_lt || is_out a.
Definition item_ok (i : item) : Prop :=
  match i with IWord w => is_op w = false | IIn f | IOut _ f => is_op f = false end.

Definition words (l : list item) : list str := l ≫= (fun i => match i with IWord w => [w] | _ => [] end).
Definition ins (l : list item) : list path := l ≫= (fun i => match i with IIn f => [f] | _ => [] end).
Definition outs (l : list item) : list (bool * path) := l ≫= (fun i => match i with IOut a f => [(a, f)] | _ => [] end).

(** Opening a target for output, and writing [o] to it. *)
Definition put_out (o : list Z) (m : gmap path (list Z)) (t : bool * path) : gmap path (list Z) :=
  <[t.2 := (if t.1 then default [] (m !! t.2) else []) ++ o]> m.

(** [read] returns some of the bytes left and 0 only at the end; [write] some of
    the bytes given. *)
Definition rd_fair : Prop := forall c off room, 0 <= off <= Z.of_nat (length c) -> 0 < room ->
  0 <= rd c off room <= Z.min room (Z.of_nat (length c) - off) /\ (rd c off room = 0 -> off = Z.of_nat (length c)).
Definition wr_fair : Prop := forall off room, 0 < room -> 0 < wr off room <= room.

Lemma lift_run {A} (m : M sh A) s a b : m (base s) = Ret (a, b) -> lift m s = Ret (a, mkP b (obuf s)).
Proof. intros E. unfold lift. by rewrite E. Qed.

(** What reaches the descriptor when nothing stays in the buffer. *)
Definition comes_out (words : list str) (o : list Z) : Prop :=
  dispatch (hd [] words) = AExternal \/ (on_terminal passed /\ whole_lines o).

Lemma print_all o s : obuf s = [] -> on_terminal passed -> whole_lines o -> print passed o s = Ret (tt, mkP (emit o (base s)) []).
Proof. intros Hb Ht Hw. unfold print, modify. rewrite Hb. cbn [List.app]. by rewrite Ht, firstn_all, drop_all. Qed.

Lemma run_command_run ws s o f : obuf s = [] -> command ws (stdin (base s)) (files (base s)) = (o, f) -> comes_out ws o ->
  run_command ws s = Ret (tt, mkP (emit o (set_files f (base s))) []).
Proof.
  intros Hb Ec Hc. unfold run_command. rewrite (M_bind_Ret _ _ s s s), Ec by done.
  rewrite (M_bind_Ret _ _ s tt (mkP (set_files f (base s)) [])) by (unfold lift, modify; by rewrite Hb).
  destruct Hc as [-> |[Ht Hw]]; [done|]. pose proof (print_all o (mkP (set_files f (base s)) []) eq_refl Ht Hw) as E.
  by destruct (dispatch (hd [] ws)).
Qed.

Lemma copy_loop_spec (Hrd : rd_fair) fuel c : forall off acc,
  0 <= off <= Z.of_nat (length c) -> Z.of_nat (length c) - off < Z.of_nat fuel ->
  copy_loop fuel c off acc = Some (acc ++ drop (Z.to_nat off) c).
Proof.
  induction fuel as [|fuel IH]; intros off acc Ho Hf; [lia|]. cbn [copy_loop].
  destruct (Hrd c off COPY_BUFFER_SIZE Ho ltac:(done)) as [H1 H2]. set (n := rd c off COPY_BUFFER_SIZE) in *.
  destruct (Z.ltb_spec 0 n).
  - rewrite IH by lia. rewrite <- app_assoc. do 2 f_equal. rewrite Z2Nat.inj_add by lia.
    rewrite <- drop_drop. by rewrite take_drop.
  - destruct (Z.ltb_spec n 0); [lia|]. rewrite H2 by lia. rewrite Nat2Z.id, drop_all, app_nil_r. done.
Qed.

Lemma read_back_spec (Hrd : rd_fair) fuel c : forall size capacity data,
  0 <= size <= Z.of_nat (length c) -> size <= capacity -> 0 < capacity -> Z.of_nat (length c) - size < Z.of_nat fuel ->
  read_back fuel c size capacity data = Some (data ++ drop (Z.to_nat size) c).
Proof.
  induction fuel as [|fuel IH]; intros size capacity data Ho Hc Hc0 Hf; [lia|]. cbn [read_back]. cbv zeta.
  set (cap := if size =? capacity then capacity * 2 else capacity).
  assert (size < cap) as Hcap by (unfold cap; destruct (Z.eqb_spec size capacity); lia).
  destruct (Hrd c size (cap - size) Ho ltac:(lia)) as [H1 H2]. set (n := rd c size (cap - size)) in *.
  destruct (Z.ltb_spec n 0); [lia|]. destruct (Z.eqb_spec n 0) as [E|E].
  - rewrite H2 by done. by rewrite Nat2Z.id, drop_all, app_nil_r.
  - rewrite IH by lia. rewrite <- app_assoc. do 2 f_equal. rewrite Z2Nat.inj_add by lia.
    rewrite <- drop_drop. by rewrite take_drop.
Qed.

Lemma write_back_spec (Hwr : wr_fair) fuel f data : forall written s,
  0 <= written <= Z.of_nat (length data) -> Z.of_nat (length data) - written <= Z.of_nat fuel ->
  is_Some (files s !! f) ->
  write_back fuel f data written s =
  Ret (0, set_files (<[f := default [] (files s !! f) ++ drop (Z.to_nat written) data]> (files s)) s).
Proof.
  induction fuel as [|fuel IH]; intros written s Hw Hf [c Hc]; cbn [write_back];
    destruct (Z.ltb_spec written (Z.of_nat (length data))) as [Hlt|Hge]; try lia.
  2:{ destruct (Hwr written (Z.of_nat (length data) - written) ltac:(lia)) as [H1 H2].
      set (n := wr written (Z.of_nat (length data) - written)) in *. destruct (Z.ltb_spec n 0); [lia|].
      rewrite (M_bind_Ret _ _ s tt (set_files (<[f := default [] (files s !! f) ++ take (Z.to_nat n) (drop (Z.to_nat written) data)]> (files s)) s)) by done.
      rewrite IH; [|lia|lia|cbn [files set_files]; rewrite lookup_insert_eq; eauto].
      destruct s as [fs i b t sc e]. unfold set_files. cbn [files stdin to_tmp tmp screen errs] in *. do 3 f_equal. rewrite lookup_insert_eq, insert_insert_eq.
      unfold from_option, id. rewrite <- app_assoc. do 2 f_equal. rewrite Z2Nat.inj_add by lia. rewrite <- drop_drop. by rewrite take_drop. }
  all: rewrite drop_ge by lia; rewrite app_nil_r, Hc; unfold from_option, id; rewrite insert_id by done; by destruct s.
Qed.

Lemma is_op_false a : is_op a = false -> streq a op_lt = false /\ is_out a = false.
Proof. apply orb_false_elim. Qed.

Lemma flatten_app a b : flatten (a ++ b) = flatten a ++ flatten b.
Proof. apply bind_app. Qed.

Lemma clean_flatten l : Forall item_ok l -> clean_args (flatten l) = words l.
Proof.
  induction 1 as [|i l Hi _ IH]; [done|]. change (flatten (i :: l)) with (flat i ++ flatten l).
  change (words (i :: l)) with ((match i with IWord w => [w] | _ => [] end) ++ words l).
  destruct i as [w|f|app f]; cbn [flat List.app clean_args]; [|done|by destruct app].
  cbn [item_ok] in Hi. unfold is_op in Hi. by rewrite Hi, IH.
Qed.

Definition content_of (s : sh) (f : path) : list Z := default [] (files s !! f).
Definition readable (s : sh) (f : path) : Prop := is_Some (files s !! f) /\ can_read f = true.

Lemma input_loop_spec (Hrd : rd_fair) s l : tmp_ok = true -> Forall item_ok l -> Forall (readable s) (ins l) ->
  forall t, input_loop (flatten l) t s =
    Ret ((0, match ins l with [] => t | _ => Some (default [] t ++ (ins l ≫= content_of s)) end), s).
Proof.
  intros Ht. induction 1 as [|i l Hi _ IH]; intros Hr t; [done|].
  change (flatten (i :: l)) with (flat i ++ flatten l). destruct i as [w|f|app f]; cbn [item_ok] in Hi.
  - change (ins (IWord w :: l)) with (ins l) in *. cbn [flat List.app input_loop].
    rewrite (proj1 (is_op_false w Hi)). by apply IH.
  - change (ins (IIn f :: l)) with (f :: ins l) in *. apply list.Forall_cons in Hr as [[[c Hc] Hcr] Hr].
    cbn [flat List.app input_loop]. change (streq op_lt op_lt) with true. cbv iota. rewrite Ht.
    assert (match t with Some _ => false | None => negb true end = false) as -> by (by destruct t).
    rewrite (M_bind_Ret _ _ s s s) by done. rewrite Hc, Hcr, copy_loop_spec by (try done; lia).
    rewrite IH by done. cbn [from_option mbind list_bind]. unfold content_of at 2. rewrite Hc.
    change (drop (Z.to_nat 0) c) with c. unfold from_option, id.
    destruct (ins l) as [|g gs] eqn:Eg; [cbn; by rewrite app_nil_r|]. by rewrite <- app_assoc.
  - change (ins (IOut app f :: l)) with (ins l) in *. cbn [flat List.app].
    cbn [input_loop]. assert (streq (if app then op_gtgt else op_gt) op_lt = false) as -> by (by destruct app).
    rewrite (proj1 (is_op_false f Hi)). by apply IH.
Qed.

(** The items before the first bad one. *)
Lemma input_prefix (Hrd : rd_fair) s l rest : tmp_ok = true -> Forall item_ok l -> Forall (readable s) (ins l) ->
  forall t, exists t', input_loop (flatten l ++ rest) t s = input_loop rest t' s.
Proof.
  intros Ht. induction 1 as [|i l Hi _ IH]; intros Hr t; [by exists t|].
  change (flatten (i :: l)) with (flat i ++ flatten l). rewrite <- app_assoc. destruct i as [w|f|app f]; cbn [item_ok] in Hi.
  - cbn [flat List.app input_loop]. rewrite (proj1 (is_op_false w Hi)). by apply IH.
  - change (ins (IIn f :: l)) with (f :: ins l) in *. apply list.Forall_cons in Hr as [[[c Hc] Hcr] Hr].
    cbn [flat List.app input_loop]. change (streq op_lt op_lt) with true. cbv iota. rewrite Ht.
    assert (match t with Some _ => false | None => negb true end = false) as -> by (by destruct t).
    rewrite (M_bind_Ret _ _ s s s) by done. rewrite Hc, Hcr, copy_loop_spec by (try done; lia). by apply IH.
  - cbn [flat List.app input_loop]. assert (streq (if app then op_gtgt else op_gt) op_lt = false) as -> by (by destruct app).
    rewrite (proj1 (is_op_false f Hi)). by apply IH.
Qed.

Lemma open_out_spec append f s : can_write f = true ->
  open_out append f s = Ret (true, set_files (put_out [] (files s) (append, f)) s).
Proof.
  intros H. unfold open_out. rewrite H. unfold put_out. cbn [fst snd]. rewrite app_nil_r. by destruct append.
Qed.

Definition writable_all (l : list (bool * path)) : Prop := Forall (fun t => can_write t.2 = true) l.

Lemma set_files_twice a b s : set_files a (set_files b s) = set_files a s.
Proof. done. Qed.

Lemma output_loop_spec l : Forall item_ok l -> writable_all (outs l) ->
  forall s found, output_loop (flatten l) found s =
    Ret ((0, match outs l with [] => found | _ => true end), set_files (fold_left (put_out []) (outs l) (files s)) s).
Proof.
  induction 1 as [|i l Hi _ IH]; intros Hw s found; [by destruct s|].
  change (flatten (i :: l)) with (flat i ++ flatten l). destruct i as [w|f|app f]; cbn [item_ok] in Hi.
  - change (outs (IWord w :: l)) with (outs l) in *. cbn [flat List.app output_loop].
    rewrite (proj2 (is_op_false w Hi)). by apply IH.
  - change (outs (IIn f :: l)) with (outs l) in *. cbn [flat List.app output_loop].
    change (is_out op_lt) with false. cbv iota. rewrite (proj2 (is_op_false f Hi)). by apply IH.
  - change (outs (IOut app f :: l)) with ((app, f) :: outs l) in *. apply list.Forall_cons in Hw as [Hf Hw].
    cbn [flat List.app output_loop]. assert (is_out (if app then op_gtgt else op_gt) = true) as -> by (by destruct app).
    assert (negb (streq (if app then op_gtgt else op_gt) op_gt) = app) as -> by (by destruct app).
    rewrite (M_bind_Ret _ _ _ _ _ (open_out_spec app f s Hf)). rewrite IH by done.
    cbn [fold_left files set_files]. rewrite set_files_twice. by destruct (outs l).
Qed.

Lemma setup_input_ok (Hrd : rd_fair) s l : tmp_ok = true -> Forall item_ok l -> Forall (readable s) (ins l) ->
  exists i, i <> -1 /\ setup_input_redirection (flatten l) s =
    Ret (i, set_stdin (match ins l with [] => stdin s | _ => Bytes (ins l ≫= content_of s) end) s).
Proof.
  intros Ht Hok Hin. unfold setup_input_redirection.
  rewrite (M_bind_Ret _ _ _ _ _ (input_loop_spec Hrd s l Ht Hok Hin None)). cbn [Z.eqb].
  destruct (ins l); [exists 0; by destruct s|by exists 1].
Qed.

Lemma setup_output_ok s l : tmp_ok = true -> Forall item_ok l -> writable_all (outs l) ->
  setup_output_redirection (flatten l) s =
    match outs l with
    | [] => Ret (0, s)
    | _ => Ret (1, set_out true [] (set_files (fold_left (put_out []) (outs l) (files s)) s))
    end.
Proof.
  intros Ht Hok Hout. unfold setup_output_redirection. rewrite (M_bind_Ret _ _ _ _ _ (output_loop_spec l Hok Hout s false)).
  cbn [Z.eqb]. destruct (outs l); [by destruct s|]. by rewrite Ht.
Qed.

Lemma put_out_in o m t : is_Some (put_out o m t !! t.2).
Proof. unfold put_out. rewrite lookup_insert_eq. eauto. Qed.

Lemma distribute_loop_spec (Hwr : wr_fair) l data : Forall item_ok l -> writable_all (outs l) ->
  forall s, distribute_loop (flatten l) data s = Ret (0, set_files (fold_left (put_out data) (outs l) (files s)) s).
Proof.
  induction 1 as [|i l Hi _ IH]; intros Hw s; [by destruct s|].
  change (flatten (i :: l)) with (flat i ++ flatten l). destruct i as [w|f|app f]; cbn [item_ok] in Hi.
  - change (outs (IWord w :: l)) with (outs l) in *. cbn [flat List.app distribute_loop].
    rewrite (proj2 (is_op_false w Hi)). by apply IH.
  - change (outs (IIn f :: l)) with (outs l) in *. cbn [flat List.app distribute_loop].
    change (is_out op_lt) with false. cbv iota. rewrite (proj2 (is_op_false f Hi)). by apply IH.
  - change (outs (IOut app f :: l)) with ((app, f) :: outs l) in *. apply list.Forall_cons in Hw as [Hf Hw].
    cbn [flat List.app distribute_loop]. assert (is_out (if app then op_gtgt else op_gt) = true) as -> by (by destruct app).
    assert (negb (streq (if app then op_gtgt else op_gt) op_gt) = app) as -> by (by destruct app).
    rewrite (M_bind_Ret _ _ _ _ _ (open_out_spec app f s Hf)).
    rewrite (M_bind_Ret _ _ _ _ _ (write_back_spec Hwr (length data) f data 0 (set_files (put_out [] (files s) (app, f)) s)
      ltac:(lia) ltac:(lia) (put_out_in [] (files s) (app, f)))).
    cbn [Z.eqb]. rewrite IH by done. rewrite !set_files_twice. cbn [fold_left files set_files].
    do 4 f_equal. unfold put_out at 1 2 3. cbn [fst snd]. rewrite lookup_insert_eq, insert_insert_eq.
    unfold from_option at 1, id at 1. by rewrite app_nil_r.
Qed.

Lemma distribute_ok (Hrd : rd_fair) (Hwr : wr_fair) s l : Forall item_ok l -> writable_all (outs l) ->
  distribute_output (flatten l) s = Ret (0, set_files (fold_left (put_out (tmp s)) (outs l) (files s)) s).
Proof.
  intros Hok Hout. unfold distribute_output. rewrite (M_bind_Ret _ _ s s s) by done.
  rewrite read_back_spec by (try done; lia). change (drop (Z.to_nat 0) (tmp s)) with (tmp s). cbn [List.app].
  by apply distribute_loop_spec.
Qed.
End Redir.

(** ** Theorems *)


(** A shell whose output is not a terminal: what a builtin prints is still in the buffer of
    [stdout] when the shell takes its output back, so the files get nothing of it and it
    comes out later, on the shell's own output. *)
Theorem builtin_redirection_lost can_read can_write rd wr command passed w f o s :
  rd_fair rd -> wr_fair wr -> dispatch w <> AExternal -> is_op f = false -> can_write f = true ->
  to_tmp (base s) = false -> obuf s = [] -> (forall i m, command [w] i m = (o, m)) -> passed o = 0%nat ->
  exists s', execute_single can_read can_write true rd wr command passed (flatten [IWord w; IOut false f]) s = Ret (tt, mkP s' o) /\
    files s' !! f = Some [] /\ to_tmp s' = false /\ screen s' = screen (base s).
Proof.
  intros Hrd Hwr Hd Hf Hc Hto Hob Hcmd Hp. destruct s as [s ob]. cbn [base obuf] in *. subst ob.
  assert (is_op w = false) as Hw.
  { destruct (is_op w) eqn:Ew; [|done]. destruct Hd. unfold is_op, is_out, streq in Ew.
    apply orb_true_iff in Ew as [Ex|Ew]; [apply bool_decide_eq_true in Ex; by subst|].
    by apply orb_true_iff in Ew as [Ex|Ex]; apply bool_decide_eq_true in Ex; subst. }
  assert (Forall item_ok [IWord w; IOut false f]) as Hok by (by repeat constructor).
  assert (writable_all can_write (outs [IWord w; IOut false f])) as Hout by (by repeat constructor).
  destruct (setup_input_ok can_read true rd Hrd s [IWord w; IOut false f] eq_refl Hok ltac:(constructor)) as (i & Ni & Ei).
  pose proof (setup_output_ok can_write true (set_stdin (stdin s) s) _ eq_refl Hok Hout) as Eo.
  pose proof (fun s1 => distribute_ok can_write rd wr Hrd Hwr s1 _ Hok Hout) as Ed.
  unfold execute_single. rewrite (M_bind_Ret _ _ (mkP s []) (mkP s []) (mkP s [])) by done. rewrite clean_flatten by done.
  cbn [words mbind list_bind List.app].
  rewrite (M_bind_Ret _ _ _ _ _ (lift_run _ (mkP s []) _ _ Ei)), (proj2 (Z.eqb_neq i (-1))) by done.
  cbn [outs mbind list_bind List.app fold_left] in Eo, Ed.
  rewrite (M_bind_Ret _ _ _ _ _ (lift_run _ (mkP _ []) _ _ Eo)). cbn [Z.eqb Pos.eqb].
  destruct s as [fs0 i0 b0 t0 sc0 e0]. cbn [base obuf to_tmp stdin files screen errs tmp set_stdin set_files set_out] in *. subst b0.
  set (m := put_out [] fs0 (false, f)).
  assert (run_command command passed [w] (mkP (mkSh m i0 true [] sc0 e0) []) = Ret (tt, mkP (mkSh m i0 true [] sc0 e0) o)) as Er.
  { unfold run_command. rewrite (M_bind_Ret _ _ _ _ _ eq_refl). cbn [base stdin files hd]. rewrite Hcmd.
    rewrite (M_bind_Ret _ _ _ tt (mkP (mkSh m i0 true [] sc0 e0) [])) by done.
    assert (print passed o (mkP (mkSh m i0 true [] sc0 e0) []) = Ret (tt, mkP (mkSh m i0 true [] sc0 e0) o)) as Ep
      by (unfold print, modify; cbn [obuf base List.app]; by rewrite Hp, take_0, drop_0).
    by destruct (dispatch w). }
  rewrite (M_bind_Ret _ _ _ _ _ Er). rewrite (M_bind_Ret _ _ _ tt (mkP (mkSh m i0 false [] sc0 e0) o)) by done.
  rewrite (M_bind_Ret _ _ _ _ _ (lift_run _ (mkP (mkSh m i0 false [] sc0 e0) o) _ _ (Ed _))).
  eexists. split; [done|]. cbn. split; [|done]. unfold put_out. cbn. by rewrite lookup_insert_eq.
Qed.

(** When an input file cannot be read the command is not run: one message, no
    file is created or changed, nothing is printed, and the shell keeps its input
    and output. *)
Theorem redirection_refused can_read can_write rd wr command passed pre f post s :
  rd_fair rd -> Forall item_ok (pre ++ IIn f :: post) -> words (pre ++ IIn f :: post) <> [] ->
  Forall (readable can_read (base s)) (ins pre) -> ~ readable can_read (base s) f ->
  exists s', execute_single can_read can_write true rd wr command passed (flatten (pre ++ IIn f :: post)) s = Ret (tt, mkP s' (obuf s)) /\
    files s' = files (base s) /\ screen s' = screen (base s) /\ stdin s' = stdin (base s) /\ to_tmp s' = to_tmp (base s) /\
    errs s' = errs (base s) ++ [no_such].
Proof.
  intros Hrd Hok Hne Hpre Hf. destruct s as [s ob]. cbn [base obuf] in *. unfold execute_single.
  rewrite (M_bind_Ret _ _ (mkP s ob) (mkP s ob) (mkP s ob)) by done.
  rewrite clean_flatten by done. destruct (words _) as [|w ws]; [done|].
  assert (setup_input_redirection can_read true rd (flatten (pre ++ IIn f :: post)) s = Ret (-1, err no_such s)) as E.
  { unfold setup_input_redirection.
    assert (exists t, input_loop can_read true rd (flatten (pre ++ IIn f :: post)) None s = Ret ((-1, t), err no_such s)) as [t Et].
    2:{ rewrite (M_bind_Ret _ _ _ _ _ Et). done. }
    apply Forall_app in Hok as [Hok1 Hok2]. rewrite flatten_app.
    destruct (input_prefix can_read true rd Hrd s pre (flatten (IIn f :: post)) eq_refl Hok1 Hpre None) as [t ->].
    exists t. cbn [flatten mbind list_bind flat List.app input_loop]. change (streq op_lt op_lt) with true. cbv iota.
    assert (match t with Some _ => false | None => negb true end = false) as -> by (by destruct t).
    rewrite (M_bind_Ret _ _ s s s) by done. destruct (files s !! f) as [c|] eqn:Ec; [|done].
    destruct (can_read f) eqn:Er; [|done]. exfalso. apply Hf. split; eauto. }
  rewrite (M_bind_Ret _ _ _ _ _ (lift_run _ (mkP s ob) _ _ E)). eexists. split; [done|]. done.
Qed.

(** A background command with an output redirection: the child replaces itself, so
    what it prints stays in the temporary file and the target is left empty. *)
Theorem background_output_lost can_read can_write rd command w f o s :
  is_op w = false -> is_op f = false -> can_write f = true ->
  (forall m i, command [w] i m = (o, m)) ->
  exists s', background_child can_read can_write true rd command (flatten [IWord w; IOut false f]) s = Ret (tt, s') /\
    files s' !! f = Some [] /\ screen s' = screen s /\ tmp s' = o.
Proof.
  intros Hw Hf Hc Hcmd. assert (Forall item_ok [IWord w; IOut false f]) as Hok by (by repeat constructor).
  unfold background_child. rewrite clean_flatten by done. cbn [words mbind list_bind List.app].
  assert (setup_input_redirection can_read true rd (flatten [IWord w; IOut false f]) s = Ret (0, s)) as Ei.
  { unfold setup_input_redirection. cbn [flatten mbind list_bind flat List.app input_loop].
    rewrite (proj1 (is_op_false w Hw)). change (streq op_gt op_lt) with false. cbv iota.
    by rewrite (proj1 (is_op_false f Hf)). }
  rewrite (M_bind_Ret _ _ _ _ _ Ei). cbn [Z.eqb].
  assert (writable_all can_write (outs [IWord w; IOut false f])) as Hwr by (by repeat constructor).
  pose proof (output_loop_spec can_write _ Hok Hwr s false) as Eo.
  assert (setup_output_redirection can_write true (flatten [IWord w; IOut false f]) s =
    Ret (1, set_out true [] (set_files (put_out [] (files s) (false, f)) s))) as Es
    by (unfold setup_output_redirection; by rewrite (M_bind_Ret _ _ _ _ _ Eo)).
  rewrite (M_bind_Ret _ _ _ _ _ Es). unfold exec_command, modify. cbn.
  rewrite Hcmd. eexists. split; [done|]. cbn. split; [|done]. unfold put_out. cbn. by rewrite lookup_insert_eq.
Qed.

(** A quoted operator is a word to the tokenizer, but the redirection code compares
    texts and takes it for an operator. *)
Theorem quoted_operator_redirects :
  let line := bytes "echo " ++ [chDQUOTE; chGT; chDQUOTE] ++ bytes " f" in
  lexer line = Lexed [mkToken (bytes "echo") WORD; mkToken op_gt WORD; mkToken (bytes "f") WORD] true /\
  clean_args [bytes "echo"; op_gt; bytes "f"] = [bytes "echo"].
Proof. split; vm_compute; reflexivity. Qed.

(** ** Witnesses *)

(** [sort < f > f] with a command that reverses its input, reads of at most two
    bytes and writes of one. *)
Definition ex_rd (c : list Z) (off room : Z) : Z := Z.min (Z.min 2 room) (Z.of_nat (length c) - off).
Definition ex_wr (off room : Z) : Z := 1.
Definition ex_cmd (_ : list str) (i : source) (m : gmap path (list Z)) : list Z * gmap path (list Z) :=
  (match i with Bytes l => rev l | Inherited => [] end, m).
Definition ex_sh : psh := mkP (mkSh {[ bytes "f" := [1; 2; 3] ]} Inherited false [] [] []) [].

Lemma ex_rd_fair : rd_fair ex_rd.
Proof. intros c off room Ho Hr. unfold ex_rd. lia. Qed.
Lemma ex_wr_fair : wr_fair ex_wr.
Proof. intros off room Hr. unfold ex_wr. lia. Qed.


Lemma redirection_refused_witness :
  exists s', execute_single (fun _ => true) (fun _ => true) true ex_rd ex_wr ex_cmd (fun _ => O)
    (flatten ([IWord (bytes "sort")] ++ IIn (bytes "g") :: [IOut false (bytes "f")])) ex_sh = Ret (tt, mkP s' []) /\
    files s' = files (base ex_sh).
Proof.
  destruct (redirection_refused (fun _ => true) (fun _ => true) ex_rd ex_wr ex_cmd (fun _ => O) [IWord (bytes "sort")] (bytes "g")
    [IOut false (bytes "f")] ex_sh ex_rd_fair) as (s' & E & Hf & _).
  - repeat constructor.
  - discriminate.
  - constructor.
  - intros [[c Hc] _]. vm_compute in Hc. discriminate.
  - exists s'. split; [exact E|exact Hf].
Defined.
