(* ===== verification/ShJobs.v ===== *)
(** * Job control of the shell: [c-shell/src/main.c]

    The job table, the [SIGCHLD] handler, and the builtins [activities], [ping] and
    [resume].  What the operating system reports (the results of [fork] and
    [waitpid]) is an argument; what the shell prints and the signals it sends are a
    trace of events, in order. *)

From S2P Require Import Prelude ShLexer ShRedir.

Definition MAX_JOBS : Z := 1024.
Definition SIGHUP : Z := 1.
Definition SIGTERM : Z := 15.
Definition SIGCONT : Z := 18.

(** [struct job_proc]; [alive] is 0 exited, 1 running, 2 stopped. *)
Record job_proc := mkProc { pid : Z; cmd : str; alive : Z }.
(** [struct bg_job]; [proc_count] is the length of [procs]. *)
Record bg_job := mkJob { id : Z; pgid : Z; procs : list job_proc; raw_cmd : str }.

Inductive event :=
| EKill (target sig : Z)                       (** [kill(target, sig)] *)
| EExit (cmd : str) (pid : Z) (normal : bool)  (** "... exited normally" or "abnormally" *)
| EAdded (id pid : Z)                          (** "[id] pid" *)
| EState (id : Z) (running : bool) (cmd : str) (** "[id] + Running" or "Stopped" *)
| EJob (id pgid : Z)                           (** the lines of [activities] *)
| EProc (pid : Z) (cmd : str) (running : bool)
| ESent (sig : Z) (target : str)               (** "Sent signal ..." *)
| EText (s : str)                              (** the command [resume] brings back *)
| EMsg (s : string).                           (** any other message *)

(** [jobs], [next_job_id], and the trace; [job_count] is the length of [jobs]. *)
Record jst := mkJ { jobs : list bg_job; next_job_id : Z; trace : list event }.

Abbreviation J := (M jst).
Definition say (e : event) : J unit := modify (fun s => mkJ (jobs s) (next_job_id s) (trace s ++ [e])).
Definition set_jobs (l : list bg_job) (s : jst) : jst := mkJ l (next_job_id s) (trace s).

Definition set_alive (v : Z) (p : job_proc) : job_proc := mkProc (pid p) (cmd p) v.
Definition map_procs (f : list job_proc -> list job_proc) (b : bg_job) : bg_job :=
  mkJob (id b) (pgid b) (f (procs b)) (raw_cmd b).
(** [jobs\[i\].procs\[j\].alive = v;] *)
Definition mark (i j : nat) (v : Z) : J unit :=
  modify (fun s => set_jobs (alter (map_procs (alter (set_alive v) j)) i (jobs s)) s).

(** ** The [SIGCHLD] handler *)

(** What [waitpid] says of a child. *)
Inductive wstatus := Exited | Signaled | Stopped | Continued.

Fixpoint find_proc (p : Z) (j : nat) (l : list job_proc) : option nat :=
  match l with [] => None | q :: l' => if pid q =? p then Some j else find_proc p (S j) l' end.
Fixpoint find_job (p : Z) (i : nat) (l : list bg_job) : option (nat * nat) :=
  match l with
  | [] => None
  | b :: l' => match find_proc p 0 (procs b) with Some j => Some (i, j) | None => find_job p (S i) l' end
  end.

Definition proc_at (s : jst) (i j : nat) : option job_proc := jobs s !! i ≫= (fun b => procs b !! j).

(** One turn of the loop, for a child [p] with status [st]. *)
Definition reap (p : Z) (st : wstatus) : J unit :=
  s ← get;
  match find_job p 0 (jobs s) with
  | None => mret tt
  | Some (i, j) =>
    match st with
    | Exited | Signaled =>
      _ ← mark i j 0;
      say (EExit (match proc_at s i j with Some q => cmd q | None => [] end) p
             (match st with Exited => true | _ => false end))
    | Stopped => mark i j 2
    | Continued => mark i j 1
    end
  end.
(** The children [waitpid] reports until it returns 0 or less. *)
Fixpoint sigchld_handler (evs : list (Z * wstatus)) : J unit :=
  match evs with [] => mret tt | (p, st) :: evs' => _ ← reap p st; sigchld_handler evs' end.

(** ** New jobs *)

(** [strncpy(dst, src, 255); dst\[255\] = 0;] *)
Definition cut255 (s : str) : str := take 255 s.

(** The next slot, if there is one. *)
Definition add_job (pg : Z) (ps : list job_proc) (raw : str) : J bool :=
  s ← get;
  if Z.of_nat (length (jobs s)) <? MAX_JOBS then
    _ ← put (mkJ (jobs s ++ [mkJob (next_job_id s) pg ps raw]) (next_job_id s + 1) (trace s));
    mret true
  else mret false.

Definition add_stopped_job (pg : Z) (ps : list (Z * str)) (raw : str) : J unit :=
  s ← get;
  ok ← add_job pg (map (fun '(p, c) => mkProc p (cut255 c) 2) ps) (cut255 raw);
  if (ok : bool) then say (EState (next_job_id s) false raw) else mret tt.

(** A leading percent sign is dropped from the name. *)
Definition strip_percent (c : str) : str := match c with 37 :: c' => c' | _ => c end.

(** The loops that join the arguments with [strncat] into [char\[256\]]. *)
Fixpoint join_args (acc : str) (args : list str) : str :=
  match args with
  | [] => acc
  | [a] => acc ++ take (255 - length acc) a
  | a :: args' =>
    let acc := acc ++ take (255 - length acc) a in
    join_args (acc ++ take (255 - length acc) [chSPACE]) args'
  end.

(** A background job whose processes [fork] named [ps]; [c] is the first one's. *)
Definition add_background (ps : list (Z * str)) (raw : str) : J unit :=
  match ps with
  | [] => mret tt
  | (p0, _) :: _ =>
    s ← get;
    ok ← add_job p0 (map (fun '(p, c) => mkProc p (strip_percent (cut255 c)) 1) ps) (cut255 raw);
    if (ok : bool) then say (EAdded (next_job_id s) p0) else mret tt
  end.

Definition builtins : list str :=
  map bytes ["hop"; "reveal"; "peek"; "locate"; "activities"; "resume"; "ping"; "spy"; "snoop"]%string.
Definition is_builtin (c : str) : bool := existsb (streq c) builtins.

(** The parent's side of [launch_background_single]; [found] is the result of
    [check_external_exists] and [child] that of [fork]. *)
Definition launch_background_single (args : list str) (found : bool) (child : Z) : J Z :=
  match clean_args args with
  | [] => mret 0
  | c :: _ =>
    if is_builtin c then mret 0
    else if negb found then _ ← say (EMsg "cshell: command not found"); mret 1
    else if child <? 0 then _ ← say (EMsg "fork"); mret 0
    else _ ← add_background [(child, c)] (join_args [] args); mret 0
  end.

(** ** Builtins *)

Definition running (b : bg_job) : bool := existsb (fun p => c_true (alive p)) (procs b).

Fixpoint say_all (l : list event) : J unit :=
  match l with [] => mret tt | e :: l' => _ ← say e; say_all l' end.

(** The loop of [execute_pipeline_bg] after a [fork] that failed: the processes [pids]
    of the pipeline that are already running are terminated.  They are in no job. *)
Definition terminate (pids : list Z) : J unit := say_all (map (fun p => EKill p SIGTERM) pids).

Definition job_lines (b : bg_job) : list event :=
  if running b then
    EJob (id b) (pgid b) ::
    map (fun p => EProc (pid p) (cmd p) (negb (alive p =? 2))) (filter (fun p => c_true (alive p)) (procs b))
  else [].
Definition print_activities : J unit := s ← get; say_all (jobs s ≫= job_lines).

Definition is_digit (c : Z) : bool := (ch0 <=? c) && (c <=? ch9).

(** [atoi]: blanks, a sign, digits.  A value that is no [int] is undefined. *)
Fixpoint skip_blanks (s : str) : str :=
  match s with
  | c :: s' => if (c =? 32) || ((9 <=? c) && (c <=? 13)) then skip_blanks s' else s
  | [] => []
  end.
Fixpoint digits_value (n : Z) (s : str) : Z :=
  match s with c :: s' => if is_digit c then digits_value (10 * n + (c - 48)) s' else n | [] => n end.
Definition atoi (s : str) : option Z :=
  let s := skip_blanks s in
  let v := match s with
           | 45 :: s' => - digits_value 0 s'
           | 43 :: s' => digits_value 0 s'
           | _ => digits_value 0 s
           end in
  if (- 2 ^ 31 <=? v) && (v <? 2 ^ 31) then Some v else None.
Definition atoi_or_undef (s : str) : J Z :=
  match atoi s with Some v => mret v | None => undef "atoi: value is no int" end.

(** The first running job with number [n]. *)
Fixpoint find_id (n : Z) (i : nat) (l : list bg_job) : option nat :=
  match l with
  | [] => None
  | b :: l' => if running b && (id b =? n) then Some i else find_id n (S i) l'
  end.
(** A process of the table that is alive and has this pid. *)
Definition has_pid (n : Z) (l : list bg_job) : bool :=
  existsb (fun b => existsb (fun p => c_true (alive p) && (pid p =? n)) (procs b)) l.

Definition bad_ping : string := "ping: invalid syntax".
Definition no_process : string := "ping: no such process found".

Definition execute_ping (args : list str) : J unit :=
  match args with
  | [_; target_str; sig_str] =>
    if (length sig_str =? 0)%nat || negb (forallb is_digit sig_str) then say (EMsg bad_ping)
    else
      sig_val ← atoi_or_undef sig_str;
      match target_str with
      | 37 :: num =>
        n ← atoi_or_undef num;
        s ← get;
        match find_id n 0 (jobs s) ≫= (fun i => jobs s !! i) with
        | Some b => _ ← say (EKill (- pgid b) (sig_val mod 64)); say (ESent sig_val target_str)
        | None => say (EMsg no_process)
        end
      | _ =>
        if negb (forallb is_digit target_str) then say (EMsg no_process)
        else
          n ← atoi_or_undef target_str;
          s ← get;
          if has_pid n (jobs s) then _ ← say (EKill n (sig_val mod 64)); say (ESent sig_val target_str)
          else say (EMsg no_process)
      end
  | _ => say (EMsg bad_ping)
  end.

(** What one call of [waitpid] for a process of the foreground job brings: it is
    interrupted by handlers ([SIGCHLD] ones that reaped [evs], and maybe [SIGALRM]),
    it fails otherwise, or it reports a status. *)
Inductive wres := WIntr (evs : list (Z * wstatus)) (alarm : bool) | WFail | WStatus (st : wstatus).

(** The loop [while (1)] around [waitpid]; [t] is [timeout_occurred]. *)
Fixpoint wait_loop (i j : nat) (pg timeout_sec : Z) (t : bool) (ws : list wres) : J (bool * bool) :=
  match ws with
  | [] => undef "waitpid has not returned"
  | WIntr evs alarm :: ws' =>
    _ ← sigchld_handler evs;
    let t := t || alarm in
    if (0 <? timeout_sec) && t then
      _ ← say (EKill (- pg) SIGTERM);
      _ ← say (EMsg "resume: job timed out");
      wait_loop i j pg timeout_sec false ws'
    else wait_loop i j pg timeout_sec t ws'
  | WFail :: _ => mret (false, t)
  | WStatus Stopped :: _ => _ ← mark i j 2; mret (true, t)
  | WStatus Continued :: ws' => wait_loop i j pg timeout_sec t ws'
  | WStatus _ :: _ => _ ← mark i j 0; mret (false, t)
  end.

(** The loop over the processes of the job in the foreground; [ws] are the results
    of [waitpid] for each of them. *)
Fixpoint wait_procs (n i j : nat) (pg timeout_sec : Z) (t stopped : bool) (ws : nat -> list wres) : J bool :=
  match n with
  | O => mret stopped
  | S n' =>
    s ← get;
    if match proc_at s i j with Some q => c_true (alive q) | None => false end then
      _ ← mark i j 1;
      r ← wait_loop i j pg timeout_sec t (ws j);
      let '(st, t') := (r : bool * bool) in
      wait_procs n' i (S j) pg timeout_sec t' (stopped || st) ws
    else wait_procs n' i (S j) pg timeout_sec t stopped ws
  end.

Definition bad_resume : string := "resume: invalid syntax".

(** The options of [resume]: foreground or not, and the timeout. *)
Definition resume_options (rest : list str) : J (option (bool * Z)) :=
  match rest with
  | mode :: opts =>
    if streq mode (bytes "fg") || streq mode (bytes "bg") then
      let fg := streq mode (bytes "fg") in
      match opts with
      | [] => mret (Some (fg, 0))
      | [o; v] =>
        if streq o (bytes "--timeout") && fg then
          n ← atoi_or_undef v;
          mret (if n <=? 0 then None else Some (fg, n))
        else mret None
      | _ => mret None
      end
    else mret None
  | [] => mret None
  end.

Definition execute_resume (args : list str) (ws : nat -> list wres) : J unit :=
  match args with
  | _ :: (37 :: num) :: rest =>
    if (length rest =? 0)%nat then say (EMsg bad_resume)
    else
    target_id ← atoi_or_undef num;
    o ← resume_options rest;
    match o with
    | None => say (EMsg bad_resume)
    | Some (fg, timeout_sec) =>
      s ← get;
      match find_id target_id 0 (jobs s) ≫= (fun i => pair i <$> jobs s !! i) with
      | None => say (EMsg "resume: no such job")
      | Some (i, b) =>
        _ ← say (EKill (- pgid b) SIGCONT);
        if negb fg then
          _ ← modify (fun s => set_jobs (alter (map_procs (map (fun p => if alive p =? 2 then set_alive 1 p else p))) i (jobs s)) s);
          say (EState (id b) true (raw_cmd b))
        else
          _ ← say (EText (raw_cmd b));
          stopped ← wait_procs (length (procs b)) i 0 (pgid b) timeout_sec false false ws;
          if (stopped : bool) then say (EState (id b) false (raw_cmd b)) else mret tt
      end
    end
  | _ => say (EMsg bad_resume)
  end.

(** End of input in [main]: [Some c] to go on with [ctrl_d_count = c], [None] to
    leave, after a hang-up signal to every job. *)
Definition hang_up (b : bg_job) : list event :=
  if running b then [EKill (- pgid b) SIGHUP; EKill (- pgid b) SIGCONT] else [].
Definition at_eof (ctrl_d_count : Z) : J (option Z) :=
  s ← get;
  let has_stopped := existsb (fun b => existsb (fun p => alive p =? 2) (procs b)) (jobs s) in
  if has_stopped && (ctrl_d_count =? 0) then
    _ ← say (EMsg "cshell: there are stopped jobs");
    mret (Some (ctrl_d_count + 1))
  else _ ← say_all (jobs s ≫= hang_up); mret None.

(** ** The invariant of the job table *)

(** A process or group the shell has started. *)
Definition ours (l : list bg_job) (t : Z) : Prop :=
  exists b, b ∈ l /\ (t = - pgid b \/ exists p, p ∈ procs b /\ t = pid p).

(** [C] are the processes of background pipelines that could not be started in full. *)
Section Invariant.
Context (C : list Z).

Record JW (s : jst) : Prop := {
  jw_len : Z.of_nat (length (jobs s)) <= MAX_JOBS;
  jw_next : next_job_id s = 1 + Z.of_nat (length (jobs s));
  jw_ids : forall i b, jobs s !! i = Some b -> id b = 1 + Z.of_nat i;
  jw_alive : forall b p, b ∈ jobs s -> p ∈ procs b -> 0 <= alive p <= 2;
  jw_pids : forall b, b ∈ jobs s -> 1 < pgid b /\ Forall (fun p => 1 < pid p) (procs b);
  jw_kill : forall t sig, EKill t sig ∈ trace s -> ours (jobs s) t \/ (t ∈ C /\ sig = SIGTERM);
  jw_child : forall t, t ∈ C -> 1 < t
}.

(** What no operation changes in the jobs of the table: everything but [alive]. *)
Definition same_proc (p q : job_proc) : Prop := pid q = pid p /\ cmd q = cmd p.
Definition same_job (b c : bg_job) : Prop :=
  id c = id b /\ pgid c = pgid b /\ raw_cmd c = raw_cmd b /\ Forall2 same_proc (procs b) (procs c).

#[export] Instance same_proc_preorder : PreOrder same_proc.
Proof. split; [by intros p|]. intros p q r [] []. split; congruence. Qed.

#[export] Instance same_job_preorder : PreOrder same_job.
Proof.
  split.
  - intros b. split; [done|]. split; [done|]. split; [done|]. reflexivity.
  - intros a b c (A1 & A2 & A3 & A4) (B1 & B2 & B3 & B4). split; [congruence|]. split; [congruence|].
    split; [congruence|]. by etransitivity.
Qed.

Lemma ours_same l l' t : Forall2 same_job l l' -> ours l t -> ours l' t.
Proof.
  intros HF (b & [i Hi]%list_elem_of_lookup & H). destruct (Forall2_lookup_l _ _ _ _ _ HF Hi) as (c & Hc & _ & Hg & _ & HP).
  exists c. split; [by eapply list_elem_of_lookup_2|]. destruct H as [->|(p & [j Hj]%list_elem_of_lookup & ->)]; [left; congruence|right].
  destruct (Forall2_lookup_l _ _ _ _ _ HP Hj) as (q & Hq & E & _). exists q. split; [by eapply list_elem_of_lookup_2|done].
Qed.

(** Changing [alive] of processes keeps the invariant. *)
Lemma JW_same s l :
  JW s -> Forall2 same_job (jobs s) l -> (forall b p, b ∈ l -> p ∈ procs b -> 0 <= alive p <= 2) ->
  JW (set_jobs l s).
Proof.
  intros [A B D' D E F G] HF Ha. pose proof (Forall2_length HF) as Hlen. split; cbn [jobs next_job_id trace set_jobs].
  - by rewrite <- Hlen.
  - by rewrite <- Hlen.
  - intros i b Hb. destruct (Forall2_lookup_r _ _ _ _ _ HF Hb) as (c & Hc & -> & _). by apply D'.
  - done.
  - intros b [i Hi]%list_elem_of_lookup. destruct (Forall2_lookup_r _ _ _ _ _ HF Hi) as (c & Hc & _ & -> & _ & HP).
    destruct (E c) as [E1 E2]; [by eapply list_elem_of_lookup_2|]. split; [done|].
    apply list.Forall_forall. intros q [j Hj]%list_elem_of_lookup.
    destruct (Forall2_lookup_r _ _ _ _ _ HP Hj) as (p & Hp & -> & _). rewrite list.Forall_forall in E2.
    apply E2. by eapply list_elem_of_lookup_2.
  - intros t sig H. destruct (F t sig H) as [Ho|]; [left|by right]. by eapply ours_same.
  - done.
Qed.

Lemma JW_say s e : JW s -> (forall t sig, e = EKill t sig -> ours (jobs s) t) ->
  JW (mkJ (jobs s) (next_job_id s) (trace s ++ [e])).
Proof.
  intros [A B D' D E F G] He. split; try done. cbn [trace jobs]. intros t sig.
  rewrite elem_of_app, list_elem_of_singleton. intros [H|H]; [by eapply F|left; by eapply He].
Qed.

(** An operation that keeps the invariant and only changes [alive] in the table. *)
Definition keeps {A} (m : J A) : Prop :=
  forall s, JW s -> wp True m (fun _ s' => JW s' /\ Forall2 same_job (jobs s) (jobs s')) s.

Lemma keeps_ret {A} (a : A) : keeps (mret a).
Proof. intros s H. split; [done|reflexivity]. Qed.

Lemma keeps_bind {A B} (m : J A) (f : A -> J B) : keeps m -> (forall a, keeps (f a)) -> keeps (m ≫= f).
Proof.
  intros Hm Hf s H. apply wp_bind. eapply wp_mono; [by apply Hm|]. intros a s1 [H1 S1].
  eapply wp_mono; [by apply Hf|]. intros b s2 [H2 S2]. split; [done|].
  by etransitivity.
Qed.

Lemma keeps_get {A} (f : jst -> J A) : (forall s, JW s -> wp True (f s) (fun _ s' => JW s' /\ Forall2 same_job (jobs s) (jobs s')) s) ->
  keeps (get ≫= f).
Proof. intros H s Hs. by apply wp_bind, H. Qed.

Lemma keeps_say e : (forall t sig, e <> EKill t sig) -> keeps (say e).
Proof. intros He s H. split; [|reflexivity]. apply JW_say; [done|]. intros t sig E. by destruct (He t sig). Qed.

Lemma keeps_undef {A} w : keeps (undef w : J A).
Proof. by intros s H. Qed.

Lemma keeps_mark i j v : 0 <= v <= 2 -> keeps (mark i j v).
Proof.
  intros Hv s H. unfold mark. apply wp_modify.
  set (l := alter (map_procs (alter (set_alive v) j)) i (jobs s)).
  assert (Forall2 same_job (jobs s) l) as HF.
  { apply Forall2_same_length_lookup_2; [unfold l; by rewrite length_alter|].
    intros n b c Hb Hc. unfold l in Hc. destruct (decide (i = n)) as [->|N].
    - rewrite list_lookup_alter_eq, Hb in Hc. injection Hc as <-. split; [done|]. split; [done|]. split; [done|]. cbn [procs map_procs].
      apply Forall2_same_length_lookup_2; [by rewrite length_alter|]. intros k p q Hp Hq.
      destruct (decide (j = k)) as [->|N]; [rewrite list_lookup_alter_eq, Hp in Hq; by injection Hq as <-|].
      rewrite list_lookup_alter_ne, Hp in Hq by done. by injection Hq as <-.
    - rewrite list_lookup_alter_ne, Hb in Hc by done. injection Hc as <-. reflexivity. }
  split; [|done]. apply JW_same; [done|done|].
  intros b p [n Hn]%list_elem_of_lookup Hp. unfold l in Hn. destruct (decide (i = n)) as [->|N].
  - rewrite list_lookup_alter_eq in Hn. destruct (jobs s !! n) as [c|] eqn:Ec; [|done]. injection Hn as <-.
    cbn [procs map_procs] in Hp. apply list_elem_of_lookup in Hp as [k Hk]. destruct (decide (j = k)) as [->|N].
    + rewrite list_lookup_alter_eq in Hk. destruct (procs c !! k); [|done]. by injection Hk as <-.
    + rewrite list_lookup_alter_ne in Hk by done. eapply (jw_alive _ H); by eapply list_elem_of_lookup_2.
  - rewrite list_lookup_alter_ne in Hn by done. eapply (jw_alive _ H); [by eapply list_elem_of_lookup_2|done].
Qed.

(** The same where [t] is known to be a process or group of the shell. *)
Definition keeps_for (t : Z) {A} (m : J A) : Prop :=
  forall s, JW s -> ours (jobs s) t -> wp True m (fun _ s' => JW s' /\ Forall2 same_job (jobs s) (jobs s')) s.

Lemma keeps_any t {A} (m : J A) : keeps m -> keeps_for t m.
Proof. intros H s Hs _. by apply H. Qed.

Lemma for_bind t {A B} (m : J A) (f : A -> J B) : keeps_for t m -> (forall a, keeps_for t (f a)) -> keeps_for t (m ≫= f).
Proof.
  intros Hm Hf s H Ho. apply wp_bind. eapply wp_mono; [by apply Hm|]. intros a s1 [H1 S1].
  eapply wp_mono; [apply Hf; [done|by eapply ours_same]|]. intros b s2 [H2 S2]. split; [done|]. by etransitivity.
Qed.

Lemma for_kill t sig : keeps_for t (say (EKill t sig)).
Proof. intros s H Ho. split; [|reflexivity]. apply JW_say; [done|]. by intros t' sig' [= <- _]. Qed.

#[local] Hint Resolve keeps_ret keeps_undef keeps_any : xv6.

Lemma keeps_reap p st : keeps (reap p st).
Proof.
  apply keeps_get. intros s H. destruct (find_job p 0 (jobs s)) as [[i j]|]; [|by apply keeps_ret].
  assert (forall b, keeps (_ ← mark i j 0; say (EExit (match proc_at s i j with Some q => cmd q | None => [] end) p b))) as Hx.
  { intros b. apply keeps_bind; [apply keeps_mark; lia|]. intros _. by apply keeps_say. }
  destruct st; [by apply Hx|by apply Hx|apply keeps_mark; [lia|done]..].
Qed.

Lemma keeps_handler evs : keeps (sigchld_handler evs).
Proof.
  induction evs as [|[p st] evs IH]; cbn [sigchld_handler]; [apply keeps_ret|].
  apply keeps_bind; [apply keeps_reap|done].
Qed.

Lemma keeps_say_all l : (forall t sig, EKill t sig ∉ l) -> keeps (say_all l).
Proof.
  induction l as [|e l IH]; intros H; cbn [say_all]; [apply keeps_ret|]. apply keeps_bind.
  - apply keeps_say. intros t sig ->. apply (H t sig). left.
  - intros _. apply IH. intros t sig Hx. apply (H t sig). by right.
Qed.

Lemma keeps_activities : keeps print_activities.
Proof.
  apply keeps_get. intros s H. apply keeps_say_all; [|done]. intros t sig Hx.
  apply list_elem_of_bind in Hx as (b & Hb & _). unfold job_lines in Hb. destruct (running b); [|set_solver].
  apply elem_of_cons in Hb as [Hb|Hb]; [done|]. apply list_elem_of_fmap in Hb as (p & Hp & _). done.
Qed.

Lemma find_id_Some n l : forall i k, find_id n i l = Some k ->
  exists b, (i <= k)%nat /\ l !! (k - i)%nat = Some b /\ id b = n /\ running b = true.
Proof.
  induction l as [|b l IH]; intros i k H; cbn [find_id] in H; [done|].
  destruct (running b) eqn:Er, (Z.eqb_spec (id b) n) as [En|]; cbn [andb] in H;
    try (destruct (IH _ _ H) as (c & Hk & Hc & Hid); exists c; split; [lia|]; split; [|done];
         by replace (k - i)%nat with (S (k - S i)) by lia).
  injection H as <-. exists b. split; [lia|]. by rewrite Nat.sub_diag.
Qed.

Lemma keeps_atoi s : keeps (atoi_or_undef s).
Proof. unfold atoi_or_undef. destruct (atoi s); [apply keeps_ret|apply keeps_undef]. Qed.

Lemma has_pid_ours n l : has_pid n l = true -> ours l n.
Proof.
  intros (b & Hb & Hp)%existsb_exists. apply existsb_exists in Hp as (p & Hp & Hx).
  apply andb_true_iff in Hx as [_ Hx%Z.eqb_eq]. exists b. split; [by apply list_elem_of_In|]. right.
  exists p. split; [by apply list_elem_of_In|done].
Qed.

(** A signal and its message. *)
Lemma for_send t sig m : (forall t sig, m <> EKill t sig) -> keeps_for t (_ ← say (EKill t sig); say m).
Proof. intros Hm. apply for_bind; [apply for_kill|]. intros _. by apply keeps_any, keeps_say. Qed.

Lemma keeps_ping args : keeps (execute_ping args).
Proof.
  unfold execute_ping. assert (forall m, keeps (say (EMsg m))) as Hm by (intros m; by apply keeps_say).
  destruct args as [|a [|target [|sg [|? ?]]]]; try apply Hm. destruct (_ || _); [apply Hm|].
  apply keeps_bind; [apply keeps_atoi|]. intros v.
  assert (keeps (if negb (forallb is_digit target) then say (EMsg no_process) else n ← atoi_or_undef target; s ← get;
    if has_pid n (jobs s) then _ ← say (EKill n (v mod 64)); say (ESent v target) else say (EMsg no_process))) as Hpid.
  { destruct (negb _); [apply Hm|]. apply keeps_bind; [apply keeps_atoi|]. intros n. apply keeps_get. intros s H.
    destruct (has_pid n (jobs s)) eqn:Eh; [|by apply Hm]. apply for_send; [done|done|by apply has_pid_ours]. }
  assert (forall num, keeps (n ← atoi_or_undef num; s ← get;
    match find_id n 0 (jobs s) ≫= (fun i => jobs s !! i) with
    | Some b => _ ← say (EKill (- pgid b) (v mod 64)); say (ESent v target)
    | None => say (EMsg no_process)
    end)) as Hjob.
  { intros num. apply keeps_bind; [apply keeps_atoi|]. intros n. apply keeps_get. intros s H.
    destruct (find_id n 0 (jobs s)) as [i|]; cbn [mbind option_bind]; [|by apply Hm].
    destruct (jobs s !! i) as [b|] eqn:Eb; [|by apply Hm]. apply for_send; [done|done|].
    exists b. split; [by eapply list_elem_of_lookup_2|by left]. }
  destruct target as [|c num]; [exact Hpid|]. destruct (Z.eq_dec c 37) as [->|N]; [apply Hjob|].
  destruct c as [|p|p]; try exact Hpid. repeat (destruct p as [p|p|]; try exact Hpid). done.
Qed.

Lemma for_wait_loop i j pg tmo ws : forall t, keeps_for (- pg) (wait_loop i j pg tmo t ws).
Proof.
  induction ws as [|[evs alarm| |st] ws IH]; intros t; cbn [wait_loop]; [apply keeps_any, keeps_undef|..].
  - apply for_bind; [apply keeps_any, keeps_handler|]. intros _. destruct (_ && _); [|apply IH].
    apply for_bind; [apply for_kill|]. intros _. apply for_bind; [by apply keeps_any, keeps_say|]. intros _. apply IH.
  - apply keeps_any, keeps_ret.
  - assert (forall (v : Z) (r : bool), 0 <= v <= 2 -> keeps_for (- pg) (_ ← mark i j v; mret (r, t))) as Hm.
    { intros v r Hv. apply keeps_any, keeps_bind; [by apply keeps_mark|]. intros _. apply keeps_ret. }
    destruct st; [by apply Hm..|apply IH].
Qed.

Lemma for_wait_procs n i pg tmo ws : forall j t st, keeps_for (- pg) (wait_procs n i j pg tmo t st ws).
Proof.
  induction n as [|n IH]; intros j t st; cbn [wait_procs]; [apply keeps_any, keeps_ret|].
  intros s H Ho. apply wp_bind, wp_get. destruct (match proc_at s i j with Some q => c_true (alive q) | None => false end); [|by apply IH].
  refine ((_ : keeps_for (- pg) (mark i j 1 ≫= _)) s H Ho). apply for_bind; [apply keeps_any, keeps_mark; lia|]. intros _.
  apply for_bind; [apply for_wait_loop|]. intros [r t']. apply IH.
Qed.

Lemma keeps_resume_bg i : keeps (modify (fun s => set_jobs (alter (map_procs (map (fun p => if alive p =? 2 then set_alive 1 p else p))) i (jobs s)) s)).
Proof.
  intros s H. apply wp_modify. set (g := fun p => if alive p =? 2 then set_alive 1 p else p).
  assert (Forall2 same_job (jobs s) (alter (map_procs (map g)) i (jobs s))) as HF.
  { apply Forall2_same_length_lookup_2; [by rewrite length_alter|]. intros n b c Hb Hc. destruct (decide (i = n)) as [->|N].
    - rewrite list_lookup_alter_eq, Hb in Hc. injection Hc as <-. split; [done|]. split; [done|]. split; [done|].
      cbn [procs map_procs]. apply Forall2_fmap_r. apply Forall_Forall2_diag, list.Forall_true. intros p. unfold g.
      split; cbn; by destruct (alive p =? 2).
    - rewrite list_lookup_alter_ne, Hb in Hc by done. by injection Hc as <-. }
  split; [|done]. apply JW_same; [done|done|]. intros b p [n Hn]%list_elem_of_lookup Hp. destruct (decide (i = n)) as [->|N].
  - rewrite list_lookup_alter_eq in Hn. destruct (jobs s !! n) as [c|] eqn:Ec; [|done]. injection Hn as <-.
    cbn [procs map_procs] in Hp. apply list_elem_of_fmap in Hp as (q & -> & Hq).
    pose proof (jw_alive _ H c q ltac:(by eapply list_elem_of_lookup_2) Hq). unfold g. destruct (Z.eqb_spec (alive q) 2); cbn; lia.
  - rewrite list_lookup_alter_ne in Hn by done. eapply (jw_alive _ H); [by eapply list_elem_of_lookup_2|done].
Qed.

Lemma keeps_options rest : keeps (resume_options rest).
Proof.
  unfold resume_options. destruct rest as [|mode opts]; [apply keeps_ret|]. destruct (_ || _); [|apply keeps_ret].
  destruct opts as [|o [|v [|? ?]]]; try apply keeps_ret. destruct (_ && _); [|apply keeps_ret].
  apply keeps_bind; [apply keeps_atoi|]. intros n. apply keeps_ret.
Qed.

Lemma keeps_resume args ws : keeps (execute_resume args ws).
Proof.
  unfold execute_resume. assert (forall m, keeps (say (EMsg m))) as Hm by (intros m; by apply keeps_say).
  destruct args as [|a [|tgt rest]]; try apply Hm. destruct tgt as [|c num]; [apply Hm|].
  destruct (Z.eq_dec c 37) as [->|N].
  2:{ destruct c as [|p|p]; try apply Hm. repeat (destruct p as [p|p|]; try apply Hm). done. }
  destruct (length rest =? 0)%nat; [apply Hm|]. apply keeps_bind; [apply keeps_atoi|]. intros n.
  apply keeps_bind; [apply keeps_options|]. intros [[fg tmo]|]; [|apply Hm]. apply keeps_get. intros s H.
  destruct (find_id n 0 (jobs s)) as [i|]; cbn [mbind option_bind]; [|by apply Hm].
  destruct (jobs s !! i) as [b|] eqn:Eb; cbn [fmap option_fmap option_map]; [|by apply Hm].
  assert (ours (jobs s) (- pgid b)) as Ho by (exists b; split; [by eapply list_elem_of_lookup_2|by left]).
  refine ((_ : keeps_for (- pgid b) (say _ ≫= _)) s H Ho).
  apply for_bind; [apply for_kill|]. intros _. destruct (negb fg).
  - apply keeps_any, keeps_bind; [apply keeps_resume_bg|]. intros _. by apply keeps_say.
  - apply for_bind; [by apply keeps_any, keeps_say|]. intros _. apply for_bind; [apply for_wait_procs|].
    intros [|]; apply keeps_any; [by apply keeps_say|apply keeps_ret].
Qed.

(** Adding a job of processes the shell has started. *)
Lemma add_job_JW pg ps raw s :
  JW s -> 1 < pg -> Forall (fun p => 1 < pid p /\ 0 <= alive p <= 2) ps -> wp True (add_job pg ps raw) (fun _ => JW) s.
Proof.
  intros H Hpg Hps. apply wp_bind, wp_get. destruct (Z.ltb_spec (Z.of_nat (length (jobs s))) MAX_JOBS); [|done].
  apply wp_bind, wp_put, wp_ret. destruct H as [A B D' D E F G]. split; cbn [jobs next_job_id trace].
  - rewrite length_app. cbn [length]. lia.
  - rewrite length_app. cbn [length]. lia.
  - intros i b [Hi|[Hi Hb]]%lookup_app_Some; [by apply D'|].
    apply list_lookup_singleton_Some in Hb as [Hz <-]. cbn [id]. lia.
  - intros b p [Hb| ->%list_elem_of_singleton]%elem_of_app Hp; [by eapply D|]. rewrite list.Forall_forall in Hps. by apply Hps.
  - intros b [Hb| ->%list_elem_of_singleton]%elem_of_app; [by apply E|]. cbn [pgid procs]. split; [done|].
    eapply list.Forall_impl; [exact Hps|]. by intros p [].
  - intros t sig Hx. destruct (F t sig Hx) as [(b & Hb & Ht)|]; [left|by right]. exists b. split; [set_solver|done].
  - done.
Qed.

Lemma say_JW e s : JW s -> (forall t sig, e <> EKill t sig) -> wp True (say e) (fun _ => JW) s.
Proof. intros H He. eapply wp_mono; [by apply keeps_say|]. by intros a s' []. Qed.

Definition started (ps : list (Z * str)) : Prop := Forall (fun pc => 1 < pc.1) ps.

Lemma add_stopped_JW pg ps raw s : JW s -> 1 < pg -> started ps -> wp True (add_stopped_job pg ps raw) (fun _ => JW) s.
Proof.
  intros H Hpg Hps. apply wp_bind, wp_get, wp_bind. eapply wp_mono.
  - apply add_job_JW; [done|done|]. apply list.Forall_fmap. eapply list.Forall_impl; [exact Hps|]. intros [p c] Hp.
    cbn in *. split; [done|lia].
  - intros ok s' H'. destruct ok; [by apply say_JW|done].
Qed.

Lemma add_background_JW ps raw s : JW s -> started ps -> wp True (add_background ps raw) (fun _ => JW) s.
Proof.
  intros H Hps. unfold add_background. destruct ps as [|[p0 c0] ps]; [done|]. pose proof Hps as [Hp0 _]%list.Forall_cons.
  apply wp_bind, wp_get, wp_bind. eapply wp_mono.
  - apply add_job_JW; [done|done|]. apply list.Forall_fmap. eapply list.Forall_impl; [exact Hps|]. intros [p c] Hp.
    cbn in *. split; [done|lia].
  - intros ok s' H'. destruct ok; [by apply say_JW|done].
Qed.

Lemma launch_JW args found child s : JW s -> child < 0 \/ 1 < child ->
  wp True (launch_background_single args found child) (fun _ => JW) s.
Proof.
  intros H Hc. unfold launch_background_single. destruct (clean_args args) as [|c cs]; [done|].
  destruct (is_builtin c); [done|]. destruct (negb found).
  { apply wp_bind. eapply wp_mono; [by apply say_JW|]. done. }
  destruct (Z.ltb_spec child 0).
  { apply wp_bind. eapply wp_mono; [by apply say_JW|]. done. }
  apply wp_bind. eapply wp_mono; [apply add_background_JW; [done|]|done].
  apply list.Forall_singleton. cbn. lia.
Qed.

Lemma eof_JW n s : JW s -> wp True (at_eof n) (fun _ => JW) s.
Proof.
  intros H. apply wp_bind, wp_get. cbv zeta. destruct (_ && _).
  { apply wp_bind. eapply wp_mono; [by apply say_JW|]. done. }
  apply wp_bind.
  assert (forall l, (forall t sig, EKill t sig ∈ l -> ours (jobs s) t) ->
    forall s1, JW s1 -> jobs s1 = jobs s -> wp True (say_all l) (fun _ => JW) s1) as Hl.
  { induction l as [|e l IH]; intros Ht s1 H1 E1; cbn [say_all]; [done|]. apply wp_bind, wp_modify. apply IH.
    - intros t sig Hx. apply (Ht t sig). by right.
    - apply JW_say; [done|]. intros t sig ->. rewrite E1. apply (Ht t sig). left.
    - done. }
  eapply wp_mono; [apply Hl; [|done|done]|done]. intros t sig Hx. apply list_elem_of_bind in Hx as (b & Hx & Hb).
  exists b. split; [done|]. unfold hang_up in Hx. destruct (running b); [|set_solver].
  rewrite !elem_of_cons, elem_of_nil in Hx. destruct Hx as [[= -> _]|[[= -> _]|[]]]; by left.
Qed.

End Invariant.

Lemma terminate_JW C pids s : JW C s -> Forall (fun p => 1 < p) pids ->
  wp True (terminate pids) (fun _ => JW (pids ++ C)) s.
Proof.
  intros [A B D' D E F G] Hp. rewrite list.Forall_forall in Hp.
  assert (forall l s1, say_all l s1 = Ret (tt, mkJ (jobs s1) (next_job_id s1) (trace s1 ++ l))) as Hsay.
  { induction l as [|e l IH]; intros s1; cbn [say_all]; [rewrite app_nil_r; by destruct s1|].
    rewrite (M_bind_Ret _ _ s1 tt (mkJ (jobs s1) (next_job_id s1) (trace s1 ++ [e]))) by done. rewrite IH. cbn. by rewrite <- app_assoc. }
  unfold wp, terminate. rewrite Hsay. split; cbn [jobs next_job_id trace]; try done.
  - intros t sig [H|H]%elem_of_app; [destruct (F t sig H) as [|[? ?]]; [by left|right; split; [set_solver|done]]|right].
    apply list_elem_of_fmap in H as (p & [= -> ->] & H). split; [set_solver|done].
  - intros t [H|H]%elem_of_app; auto.
Qed.

(** ** Runs of the shell *)

Definition jinit : jst := mkJ [] 1 [].

(** The states of the job table, for every order of signals, commands and ends of
    input; [fork] never returns 1 to the shell.  [C] collects the processes of
    background pipelines that a failed [fork] cut short. *)
Inductive jreach : list Z -> jst -> Prop :=
| jr_init : jreach [] jinit
| jr_sigchld C s evs a s' : jreach C s -> sigchld_handler evs s = Ret (a, s') -> jreach C s'
| jr_stopped C s pg ps raw a s' : jreach C s -> 1 < pg -> started ps -> add_stopped_job pg ps raw s = Ret (a, s') -> jreach C s'
| jr_launch C s args found child a s' : jreach C s -> child < 0 \/ 1 < child ->
    launch_background_single args found child s = Ret (a, s') -> jreach C s'
| jr_pipeline C s ps raw a s' : jreach C s -> started ps -> add_background ps raw s = Ret (a, s') -> jreach C s'
| jr_cut_short C s pids a s' : jreach C s -> Forall (fun p => 1 < p) pids -> terminate pids s = Ret (a, s') -> jreach (pids ++ C) s'
| jr_activities C s a s' : jreach C s -> print_activities s = Ret (a, s') -> jreach C s'
| jr_ping C s args a s' : jreach C s -> execute_ping args s = Ret (a, s') -> jreach C s'
| jr_resume C s args ws a s' : jreach C s -> execute_resume args ws s = Ret (a, s') -> jreach C s'
| jr_eof C s n a s' : jreach C s -> at_eof n s = Ret (a, s') -> jreach C s'.

Lemma keeps_Ret C {A} (m : J A) s a s' : keeps C m -> JW C s -> m s = Ret (a, s') -> JW C s'.
Proof. intros Hm H E. exact (proj1 (wp_Ret _ _ _ _ _ _ (Hm s H) E)). Qed.

Lemma jreach_JW C s : jreach C s -> JW C s.
Proof.
  induction 1 as [|C|C|C|C|C|C|C|C|C].
  - split; cbn; try done; try set_solver.
  - by eapply keeps_Ret; [apply keeps_handler|..].
  - eapply (wp_Ret True _ (fun _ => JW C)); [by apply add_stopped_JW|eassumption].
  - eapply (wp_Ret True _ (fun _ => JW C)); [by apply launch_JW|eassumption].
  - eapply (wp_Ret True _ (fun _ => JW C)); [by apply add_background_JW|eassumption].
  - eapply (wp_Ret True _ (fun _ => JW _)); [by apply terminate_JW|eassumption].
  - by eapply keeps_Ret; [apply keeps_activities|..].
  - by eapply keeps_Ret; [apply keeps_ping|..].
  - by eapply keeps_Ret; [apply keeps_resume|..].
  - eapply (wp_Ret True _ (fun _ => JW C)); [by apply eof_JW|eassumption].
Qed.

(** ** The handler, process by process *)

Definition status_alive (st : wstatus) : Z := match st with Exited | Signaled => 0 | Stopped => 2 | Continued => 1 end.

(** [alive] of the process [p] after the reports [evs]. *)
Definition after (evs : list (Z * wstatus)) (p : Z) (a : Z) : Z :=
  fold_left (fun a ev => if ev.1 =? p then status_alive ev.2 else a) evs a.

Definition all_pids (l : list bg_job) : list Z := l ≫= (fun b => map pid (procs b)).

(** The message of an exit of a process of the table. *)
Definition exit_message (l : list bg_job) (ev : Z * wstatus) : list event :=
  match ev.2, find_job ev.1 0 l with
  | (Exited | Signaled), Some (i, j) =>
    [EExit (match l !! i ≫= (fun b => procs b !! j) with Some q => cmd q | None => [] end) ev.1
       (match ev.2 with Exited => true | _ => false end)]
  | _, _ => []
  end.

Definition after_procs (evs : list (Z * wstatus)) (l : list bg_job) : list bg_job :=
  map (map_procs (map (fun p => set_alive (after evs (pid p) (alive p)) p))) l.

Lemma find_proc_Some p l : forall k j, find_proc p k l = Some j ->
  (k <= j)%nat /\ exists q, l !! (j - k)%nat = Some q /\ pid q = p.
Proof.
  induction l as [|q l IH]; intros k j H; cbn [find_proc] in H; [done|]. destruct (Z.eqb_spec (pid q) p).
  - injection H as <-. split; [lia|]. exists q. by rewrite Nat.sub_diag.
  - destruct (IH _ _ H) as (Hk & r & Hr & E). split; [lia|]. exists r. split; [|done].
    by replace (j - k)%nat with (S (j - S k)) by lia.
Qed.

Lemma find_proc_None p l : forall k, find_proc p k l = None -> p ∉ map pid l.
Proof.
  induction l as [|q l IH]; intros k H; cbn [find_proc] in H; [set_solver|]. destruct (Z.eqb_spec (pid q) p); [done|].
  cbn [map]. apply not_elem_of_cons. split; [congruence|by eapply IH].
Qed.

Lemma find_job_Some p l : forall k i j, find_job p k l = Some (i, j) ->
  (k <= i)%nat /\ exists b q, l !! (i - k)%nat = Some b /\ procs b !! j = Some q /\ pid q = p.
Proof.
  induction l as [|b l IH]; intros k i j H; cbn [find_job] in H; [done|].
  destruct (find_proc p 0 (procs b)) as [j'|] eqn:Ef.
  - injection H as <- <-. split; [lia|]. apply find_proc_Some in Ef as (_ & q & Hq & E). rewrite Nat.sub_0_r in Hq.
    exists b, q. by rewrite Nat.sub_diag.
  - destruct (IH _ _ _ H) as (Hk & c & q & Hc & Hq). split; [lia|]. exists c, q. split; [|done].
    by replace (i - k)%nat with (S (i - S k)) by lia.
Qed.

Lemma find_job_None p l : forall k, find_job p k l = None -> p ∉ all_pids l.
Proof.
  induction l as [|b l IH]; intros k H; cbn [find_job] in H; [set_solver|].
  destruct (find_proc p 0 (procs b)) as [j|] eqn:Ef; [done|]. unfold all_pids. cbn [mbind list_bind].
  rewrite elem_of_app. intros [Hx|Hx]; [by apply (find_proc_None _ _ _ Ef)|by apply (IH _ H)].
Qed.

(** With distinct pids, marking the process found changes every process with that
    pid and no other. *)
Lemma mark_found l p i j b q v :
  NoDup (all_pids l) -> l !! i = Some b -> procs b !! j = Some q -> pid q = p ->
  alter (map_procs (alter (set_alive v) j)) i l =
  map (map_procs (map (fun x => set_alive (if p =? pid x then v else alive x) x))) l.
Proof.
  intros Hnd Hb Hq <-. 
  assert (forall i' b' j' q', l !! i' = Some b' -> procs b' !! j' = Some q' -> pid q' = pid q -> i' = i /\ j' = j) as Huniq.
  { revert i Hb Hnd. induction l as [|c l IH]; intros i Hb Hnd i' b' j' q' Hb' Hq' E; [done|].
    unfold all_pids in Hnd. cbn [mbind list_bind] in Hnd. apply list.NoDup_app in Hnd as (N1 & N2 & N3).
    assert (forall k d r m, l !! k = Some d -> procs d !! m = Some r -> pid r ∈ all_pids l) as Hin.
    { intros k d r m Hd Hr. apply list_elem_of_bind. exists d. split; [|by eapply list_elem_of_lookup_2].
      apply list_elem_of_fmap. exists r. split; [done|by eapply list_elem_of_lookup_2]. }
    assert (forall r m, procs c !! m = Some r -> pid r ∈ map pid (procs c)) as Hc.
    { intros r m Hr. apply list_elem_of_fmap. exists r. split; [done|by eapply list_elem_of_lookup_2]. }
    destruct i as [|i], i' as [|i']; cbn in Hb, Hb'.
    - injection Hb as ->. injection Hb' as ->. split; [done|].
      eapply NoDup_lookup; [exact N1|rewrite list_lookup_fmap, Hq'; cbn; by rewrite E|by rewrite list_lookup_fmap, Hq].
    - injection Hb as ->. exfalso. apply (N2 (pid q)); [by eapply Hc|]. rewrite <- E. by eapply Hin.
    - injection Hb' as ->. exfalso. apply (N2 (pid q')); [by eapply Hc|]. rewrite E. by eapply Hin.
    - destruct (IH i Hb N3 i' b' j' q' Hb' Hq' E). split; [lia|done]. }
  apply list_eq. intros n. rewrite list_lookup_fmap. destruct (decide (i = n)) as [<-|N].
  - rewrite list_lookup_alter_eq, Hb. cbn [fmap option_fmap option_map]. f_equal. unfold map_procs. f_equal.
    apply list_eq. intros m. rewrite list_lookup_fmap. destruct (decide (j = m)) as [<-|Nm].
    + rewrite list_lookup_alter_eq, Hq. cbn. by rewrite Z.eqb_refl.
    + rewrite list_lookup_alter_ne by done. destruct (procs b !! m) as [r|] eqn:Er; [|done]. cbn. f_equal.
      destruct (Z.eqb_spec (pid q) (pid r)) as [E|]; [|by destruct r].
      destruct (Huniq i b m r Hb Er (eq_sym E)). congruence.
  - rewrite list_lookup_alter_ne by done. destruct (l !! n) as [c|] eqn:Ec; [|done]. cbn. f_equal.
    destruct c as [ci cg cp cr]. unfold map_procs. cbn [id pgid procs raw_cmd]. f_equal. apply list_eq. intros m. rewrite list_lookup_fmap.
    destruct (cp !! m) as [r|] eqn:Er; [|done]. cbn. f_equal.
    destruct (Z.eqb_spec (pid q) (pid r)) as [E|]; [|by destruct r].
    destruct (Huniq n _ m r Ec Er (eq_sym E)). congruence.
Qed.

(** Changing only [alive] does not move processes. *)
Section Alive.
Context (g : job_proc -> Z).
Let f (p : job_proc) : job_proc := set_alive (g p) p.

Lemma find_proc_alive p l : forall k, find_proc p k (map f l) = find_proc p k l.
Proof. induction l as [|q l IH]; intros k; cbn [map find_proc f set_alive pid]; [done|]. by rewrite IH. Qed.

Lemma find_job_alive p l : forall k, find_job p k (map (map_procs (map f)) l) = find_job p k l.
Proof. induction l as [|b l IH]; intros k; cbn [map find_job map_procs procs]; [done|]. by rewrite find_proc_alive, IH. Qed.

Lemma cmd_alive l i j :
  (match map (map_procs (map f)) l !! i ≫= (fun b => procs b !! j) with Some q => cmd q | None => [] end) =
  (match l !! i ≫= (fun b => procs b !! j) with Some q => cmd q | None => [] end).
Proof.
  rewrite list_lookup_fmap. destruct (l !! i) as [b|]; cbn; [|done]. rewrite list_lookup_fmap. by destruct (procs b !! j).
Qed.

Lemma all_pids_alive l : all_pids (map (map_procs (map f)) l) = all_pids l.
Proof.
  induction l as [|b l IH]; cbn [all_pids map mbind list_bind]; [done|]. unfold all_pids in *. cbn [mbind list_bind]. rewrite IH.
  f_equal. cbn [map_procs procs]. rewrite map_map. by apply map_ext.
Qed.

Lemma exit_message_alive l ev : exit_message (map (map_procs (map f)) l) ev = exit_message l ev.
Proof.
  unfold exit_message. rewrite find_job_alive. destruct ev.2; try done; destruct (find_job ev.1 0 l) as [[i j]|]; try done;
    by rewrite cmd_alive.
Qed.
End Alive.

Lemma after_nil l : after_procs [] l = l.
Proof.
  unfold after_procs. rewrite <- (map_id l) at 2. apply map_ext. intros [i pg ps r]. unfold map_procs. cbn. f_equal.
  rewrite <- (map_id ps) at 2. apply map_ext. by intros [].
Qed.

Lemma after_cons p st evs l :
  after_procs evs (map (map_procs (map (fun x => set_alive (if p =? pid x then status_alive st else alive x) x))) l) =
  after_procs ((p, st) :: evs) l.
Proof.
  unfold after_procs. rewrite map_map. apply map_ext. intros [i pg ps r]. unfold map_procs. cbn. f_equal. rewrite map_map.
  apply map_ext. by intros [].
Qed.

Lemma reap_spec p st s : NoDup (all_pids (jobs s)) ->
  reap p st s = Ret (tt, mkJ (map (map_procs (map (fun x => set_alive (if p =? pid x then status_alive st else alive x) x))) (jobs s))
    (next_job_id s) (trace s ++ exit_message (jobs s) (p, st))).
Proof.
  intros Hnd. unfold reap. rewrite (M_bind_Ret _ _ s s s) by done. unfold exit_message. cbn [fst snd].
  destruct (find_job p 0 (jobs s)) as [[i j]|] eqn:Ef.
  - apply find_job_Some in Ef as (_ & b & q & Hb & Hq & E). rewrite Nat.sub_0_r in Hb.
    assert (forall v, mark i j v s = Ret (tt, mkJ (map (map_procs (map (fun x => set_alive (if p =? pid x then v else alive x) x))) (jobs s))
      (next_job_id s) (trace s))) as Hm.
    { intros v. unfold mark, modify, set_jobs. by rewrite (mark_found _ p i j b q v). }
    unfold proc_at. destruct st; cbn [status_alive].
    + by rewrite (M_bind_Ret _ _ _ _ _ (Hm 0)).
    + by rewrite (M_bind_Ret _ _ _ _ _ (Hm 0)).
    + rewrite Hm. by rewrite app_nil_r.
    + rewrite Hm. by rewrite app_nil_r.
  - assert (map (map_procs (map (fun x => set_alive (if p =? pid x then status_alive st else alive x) x))) (jobs s) = jobs s) as ->.
    { rewrite <- (map_id (jobs s)) at 2. apply map_ext_in. intros b Hb. destruct b as [bi bg bp br]. unfold map_procs. cbn. f_equal.
      rewrite <- (map_id bp) at 2. apply map_ext_in. intros q Hq. destruct (Z.eqb_spec p (pid q)) as [->|]; [|by destruct q].
      exfalso. apply (find_job_None _ _ _ Ef). apply list_elem_of_bind. eexists. split; [|by apply list_elem_of_In].
      cbn [procs]. apply list_elem_of_fmap. exists q. split; [done|by apply list_elem_of_In]. }
    destruct s as [js nx tr]. cbn. destruct st; by rewrite app_nil_r.
Qed.

(** Job [n] is entry [n - 1]. *)
Definition job_number (s : jst) (n : Z) : option bg_job :=
  if 1 <=? n then (match jobs s !! Z.to_nat (n - 1) with Some b => if running b then Some b else None | None => None end)
  else None.

Lemma find_id_index l n : forall k,
  (forall i b, l !! i = Some b -> id b = 1 + Z.of_nat (k + i)) ->
  find_id n k l = if 1 + Z.of_nat k <=? n then
    match l !! Z.to_nat (n - 1 - Z.of_nat k) with Some b => if running b then Some (Z.to_nat (n - 1)) else None | None => None end
    else None.
Proof.
  induction l as [|b l IH]; intros k Hid; cbn [find_id].
  { by destruct (1 + Z.of_nat k <=? n). }
  pose proof (Hid 0%nat b eq_refl) as Hb. rewrite Nat.add_0_r in Hb.
  rewrite (IH (S k)) by (intros i c Hc; rewrite (Hid (S i) c Hc); lia). rewrite Hb.
  destruct (Z.leb_spec (1 + Z.of_nat k) n), (Z.leb_spec (1 + Z.of_nat (S k)) n), (Z.eqb_spec (1 + Z.of_nat k) n); try lia.
  - rewrite andb_false_r. by replace (Z.to_nat (n - 1 - Z.of_nat k)) with (S (Z.to_nat (n - 1 - Z.of_nat (S k)))) by lia.
  - replace (Z.to_nat (n - 1 - Z.of_nat k)) with 0%nat by lia. cbn. rewrite andb_true_r.
    destruct (running b); [f_equal; lia|done].
  - by rewrite andb_false_r.
Qed.

Lemma find_id_number C s n : JW C s -> find_id n 0 (jobs s) ≫= (fun i => jobs s !! i) = job_number s n.
Proof.
  intros H. rewrite (find_id_index (jobs s) n 0) by (intros i b Hb; by rewrite (jw_ids _ _ H i b Hb)).
  unfold job_number. change (Z.of_nat 0) with 0. rewrite Z.add_0_r, Z.sub_0_r. destruct (1 <=? n); [|done].
  destruct (jobs s !! Z.to_nat (n - 1)) as [b|] eqn:Eb; [|done]. destruct (running b); [|done]. cbn. by rewrite Eb.
Qed.

Definition said (s : jst) (l : list event) : res (unit * jst) := Ret (tt, mkJ (jobs s) (next_job_id s) (trace s ++ l)).

(** ** Theorems *)

(** C20: job control, for every order of child reports, commands and ends of input.
    Jobs are numbered 1, 2, 3, ... in the order they were made, at most [MAX_JOBS];
    every process is marked exited, running or stopped.  The shell signals only
    processes and groups of the job table, and with [SIGTERM] the processes of a
    background pipeline that a failed [fork] cut short, which are in no job; so never
    its own group (0) or every process (-1). *)
Theorem jobs_invariant C s : jreach C s ->
  JW C s /\ forall t sig, EKill t sig ∈ trace s ->
    (ours (jobs s) t \/ (t ∈ C /\ sig = SIGTERM)) /\ t <> 0 /\ t <> -1.
Proof.
  intros H%jreach_JW. split; [done|]. intros t sig Hk. pose proof (jw_kill _ _ H t sig Hk) as Ho. split; [done|].
  destruct Ho as [(b & Hb & Ht)|[HC _]]; [|pose proof (jw_child _ _ H t HC); lia].
  destruct (jw_pids _ _ H b Hb) as [Hg Hp]. rewrite list.Forall_forall in Hp.
  destruct Ht as [->|(p & Hpp & ->)]; [lia|]. specialize (Hp p Hpp). cbn in Hp. lia.
Qed.

(** The [SIGCHLD] handler, when no two processes of the table have the same pid:
    every process is marked with the last report about it, every exit of a process
    of the table is announced once and in order, and reports about other children
    change nothing. *)
Theorem sigchld_exact evs s : NoDup (all_pids (jobs s)) ->
  sigchld_handler evs s = Ret (tt, mkJ (after_procs evs (jobs s)) (next_job_id s)
    (trace s ++ (evs ≫= exit_message (jobs s)))).
Proof.
  revert s. induction evs as [|[p st] evs IH]; intros s Hnd; cbn [sigchld_handler].
  - rewrite after_nil. cbn. rewrite app_nil_r. by destruct s.
  - rewrite (M_bind_Ret _ _ _ _ _ (reap_spec p st s Hnd)). rewrite IH.
    + cbn [jobs next_job_id trace mbind list_bind]. rewrite after_cons, <- app_assoc. do 5 f_equal.
      apply list_bind_ext; [|done]. intros ev. by rewrite (exit_message_alive (fun x => if p =? pid x then status_alive st else alive x)).
    + cbn [jobs]. by rewrite (all_pids_alive (fun x => if p =? pid x then status_alive st else alive x)).
Qed.

(** C0: [ping] with a signal number [v].  [%n] signals the group of job [n] if it
    still has a process, and a number signals the process with that pid if it is in
    the table and has not exited; the signal is [v mod 64] and the message names [v].
    Otherwise no signal is sent and the message says so. *)
Theorem ping_correct C s sig_str v c :
  JW C s -> sig_str <> [] -> forallb is_digit sig_str = true -> atoi sig_str = Some v ->
  (forall num n, atoi num = Some n ->
    execute_ping [c; 37 :: num; sig_str] s =
    match job_number s n with
    | Some b => said s [EKill (- pgid b) (v mod 64); ESent v (37 :: num)]
    | None => said s [EMsg no_process]
    end) /\
  (forall tgt n, forallb is_digit tgt = true -> atoi tgt = Some n ->
    execute_ping [c; tgt; sig_str] s =
    if has_pid n (jobs s) then said s [EKill n (v mod 64); ESent v tgt] else said s [EMsg no_process]).
Proof.
  intros HJ Hne Hd Hv. split.
  - intros num n Hn. unfold execute_ping. rewrite Hd. destruct sig_str as [|x sg]; [done|]. cbn [length Nat.eqb negb orb].
    unfold atoi_or_undef. rewrite Hv, Hn.
    rewrite (M_bind_Ret _ _ s v s), (M_bind_Ret _ _ s n s), (M_bind_Ret _ _ s s s) by done.
    rewrite (find_id_number C) by done. destruct (job_number s n) as [b|]; [|done]. unfold said.
    rewrite (M_bind_Ret _ _ s tt (mkJ (jobs s) (next_job_id s) (trace s ++ [EKill (- pgid b) (v mod 64)]))) by done.
    unfold say, modify. cbn. by rewrite <- app_assoc.
  - intros tgt n Ht Hn.
    assert (execute_ping [c; tgt; sig_str] s = (n ← atoi_or_undef tgt; s ← get;
      if has_pid n (jobs s) then _ ← say (EKill n (v mod 64)); say (ESent v tgt) else say (EMsg no_process)) s) as ->.
    { unfold execute_ping. rewrite Hd. destruct sig_str as [|x sg]; [done|]. cbn [length Nat.eqb negb orb].
      rewrite (M_bind_Ret _ _ s v s) by (unfold atoi_or_undef; by rewrite Hv). rewrite Ht. cbn [negb].
      destruct tgt as [|y tg]; [done|]. cbn [forallb] in Ht. apply andb_true_iff in Ht as [Ht _]. unfold is_digit in Ht.
      apply andb_true_iff in Ht as [H1%Z.leb_le H2%Z.leb_le].
      destruct y as [|p|p]; try done. by repeat (destruct p as [p|p|]; try done). }
    unfold atoi_or_undef. rewrite Hn. rewrite (M_bind_Ret _ _ s n s), (M_bind_Ret _ _ s s s) by done.
    destruct (has_pid n (jobs s)); [|done]. unfold said.
    rewrite (M_bind_Ret _ _ s tt (mkJ (jobs s) (next_job_id s) (trace s ++ [EKill n (v mod 64)]))) by done.
    unfold say, modify. cbn. by rewrite <- app_assoc.
Qed.

(** The table is never cleaned: once [MAX_JOBS] jobs have been made, finished ones
    included, a further background job is started but neither recorded nor announced. *)
Theorem full_table_forgets s ps raw :
  Z.of_nat (length (jobs s)) = MAX_JOBS -> ps <> [] -> add_background ps raw s = Ret (tt, s).
Proof.
  intros Hl Hps. unfold add_background. destruct ps as [|[p c] ps]; [done|].
  rewrite (M_bind_Ret _ _ s s s) by done. unfold add_job.
  rewrite (M_bind_Ret _ _ s false s); [done|]. rewrite (M_bind_Ret _ _ s s s) by done. by rewrite Hl.
Qed.

(** A pid that the system gives out again: the report of the new process is taken for
    the old one, and the new job is listed as running for ever. *)
Theorem reused_pid_misattributed :
  let old := mkJob 1 7 [mkProc 7 [] 0] [] in
  let new := mkJob 2 7 [mkProc 7 [] 1] [] in
  match sigchld_handler [(7, Exited)] (mkJ [old; new] 3 []) with
  | Ret (_, s) => jobs s = [old; new]
  | _ => False
  end.
Proof. reflexivity. Qed.

(** ** Witnesses *)

(** A pipeline of two processes is started in the background and its first process
    exits; of another one only the first process could be started. *)
Definition ex_jobs : jst :=
  match (_ ← add_background [(100, bytes "yes"); (101, bytes "wc")] (bytes "yes | wc"); _ ← sigchld_handler [(100, Exited)];
         terminate [102]) jinit with
  | Ret (_, s) => s
  | _ => jinit
  end.

Lemma ex_jobs_reach : jreach [102] ex_jobs.
Proof.
  eapply (jr_cut_short [] _ [102]);
    [eapply (jr_sigchld [] _ [(100, Exited)]); [eapply (jr_pipeline [] jinit [(100, bytes "yes"); (101, bytes "wc")]); [apply jr_init| |]|]|..].
  - repeat constructor.
  - reflexivity.
  - reflexivity.
  - repeat constructor.
  - reflexivity.
Qed.

Lemma jobs_invariant_witness : JW [102] ex_jobs /\ EKill 102 SIGTERM ∈ trace ex_jobs.
Proof. split; [apply (jobs_invariant [102] ex_jobs ex_jobs_reach)|]. do 2 right. left. Defined.

Lemma sigchld_exact_witness :
  exists s', sigchld_handler [(101, Stopped); (5, Exited); (101, Continued)] ex_jobs = Ret (tt, s') /\
    map (fun b => map alive (procs b)) (jobs s') = [[0; 1]].
Proof.
  eexists. split.
  - apply (sigchld_exact [(101, Stopped); (5, Exited); (101, Continued)] ex_jobs). apply (bool_decide_unpack _). reflexivity.
  - reflexivity.
Defined.

Lemma ping_correct_witness :
  execute_ping [bytes "ping"; bytes "%1"; bytes "73"] ex_jobs = said ex_jobs [EKill (-100) 9; ESent 73 (bytes "%1")].
Proof.
  refine (proj1 (ping_correct [102] ex_jobs (bytes "73") 73 (bytes "ping") (jreach_JW _ _ ex_jobs_reach) _ _ _) (bytes "1") 1 _);
    [discriminate|reflexivity|reflexivity|reflexivity].
Defined.
