(* ===== verification/ShMain.v ===== *)
(** * Running a command line: the loop of [main] in [c-shell/src/main.c] and the
    pipelines of [c-shell/src/pipe.c]

    [main] cuts the tokens at semicolons and ampersands.  A piece with a pipe is
    turned back into text, cut at the bars, and each part is tokenized again in its
    child.  What the operating system decides (results of [fork], [pipe] and
    [waitpid]) and the command that [execute_single] runs are arguments, numbered by
    the piece of the line. *)

From S2P Require Import Prelude ShLexer ShParser ShRedir ShJobs.

(** ** Pipelines *)

(** Successive calls of [strtok] with one delimiter. *)
Fixpoint strtok_loop (delim : Z) (tok : str) (s : str) : list str :=
  match s with
  | [] => match tok with [] => [] | _ => [tok] end
  | c :: s' =>
    if c =? delim then (match tok with [] => [] | _ => [tok] end) ++ strtok_loop delim [] s'
    else strtok_loop delim (tok ++ [c]) s'
  end.
Definition strtok (delim : Z) (s : str) : list str := strtok_loop delim [] s.

Definition MAX_PIPE_COMMANDS : nat := 256%nat.

(** The commands of a pipeline, [None] for "invalid syntax". *)
Definition split_pipeline (line : str) : option (list str) :=
  let l := strtok chPIPE line in
  if (MAX_PIPE_COMMANDS <? length l)%nat || (length l <? 2)%nat then None else Some l.

Definition is_blank (c : Z) : bool := (c =? chSPACE) || (c =? chTAB).
Fixpoint skip_blank (s : str) : str :=
  match s with c :: s' => if is_blank c then skip_blank s' else s | [] => [] end.
Fixpoint first_word (n : nat) (s : str) : str :=
  match n, s with
  | S n', c :: s' => if is_blank c then [] else c :: first_word n' s'
  | _, _ => []
  end.
(** The name kept for the job table, [out_cmds\[i\]]. *)
Definition cmd_name (command : str) : str := first_word 255 (skip_blank command).

(** The arguments a child runs with, [None] when it exits at once. *)
Definition child_args (command : str) : res (option (list str)) :=
  match lexer command with
  | Lexed ts ok =>
    if negb ok then Ret None
    else match ts with
         | [] => Ret None
         | _ => if parser ts =? 1 then Ret None else Ret (Some (content <$> ts))
         end
  | LexOverflow => Undef "lexer: buffer overflow"
  | LexFuel => Undef "out of fuel"
  end.

(** The first call of [fork] that fails, of [n] from [i]. *)
Fixpoint fork_fails (n i : nat) (forks : nat -> Z) : option nat :=
  match n with O => None | S n' => if forks i <? 0 then Some i else fork_fails n' (S i) forks end.

(** The parent: [pipes_ok] is whether all calls of [pipe] succeed and [forks] are the
    results of [fork]; the processes with their names, or nothing.  [on_fail i] is
    done to the processes before [i] when [fork] number [i] fails. *)
Definition start_pipeline (on_fail : nat -> J unit) (line : str) (pipes_ok : bool) (forks : nat -> Z) : J (list (Z * str)) :=
  match split_pipeline line with
  | None => _ ← say (EMsg "cshell: invalid syntax"); mret []
  | Some l =>
    if negb pipes_ok then _ ← say (EMsg "pipe"); mret []
    else match fork_fails (length l) 0 forks with
         | Some i => _ ← say (EMsg "fork"); _ ← on_fail i; mret []
         | None => mret (imap (fun i c => (forks i, cmd_name c)) l)
         end
  end.

(** [execute_pipeline]: the processes and whether one was stopped; after a failed
    [fork] it waits for the others. *)
Definition execute_pipeline (line : str) (pipes_ok : bool) (forks : nat -> Z) (waits : nat -> wstatus)
  : J (list (Z * str) * bool) :=
  ps ← start_pipeline (fun _ => mret tt) line pipes_ok forks;
  mret (ps, existsb (fun i => match waits i with Stopped => true | _ => false end) (seq 0 (length ps))).
(** [execute_pipeline_bg]: after a failed [fork] it terminates the others. *)
Definition execute_pipeline_bg (line : str) (pipes_ok : bool) (forks : nat -> Z) : J (list (Z * str)) :=
  start_pipeline (fun i => terminate (map forks (seq 0 i))) line pipes_ok forks.

(** ** The loop of [main] *)

Definition segment_has_pipe (seg : list token) : bool := existsb (fun t => bool_decide (type t = OP_PIPE)) seg.

Fixpoint build_loop (seg : list token) (out : str) (out_size : Z) : option str :=
  match seg with
  | [] => Some out
  | t :: next =>
    if out_size <=? Z.of_nat (length out) + Z.of_nat (length (content t)) + 1 then None
    else
      let out := out ++ content t in
      build_loop next (match next with [] => out | _ => out ++ [chSPACE] end) out_size
  end.
Definition build_line_from_segment (seg : list token) (out_size : Z) : option str := build_loop seg [] out_size.

Section Main.
(** [execute_single] of piece [k]: its value, the pid and whether it was stopped. *)
Context (single : nat -> list str -> J (Z * Z * bool)).
(** For piece [k]: is the command found, and the result of [fork]; then of a pipeline. *)
Context (found : nat -> bool) (child : nat -> Z).
Context (pipes_ok : nat -> bool) (forks : nat -> nat -> Z) (waits : nat -> nat -> wstatus).

(** The pieces of the line with [count > 0].  When [execute_single] returns 1 the
    array of arguments is freed, and then freed again. *)
Definition run_segment (k : nat) (seg : list token) (is_bg : bool) : J unit :=
  match seg with
  | [] => mret tt
  | _ =>
    if segment_has_pipe seg then
      match build_line_from_segment seg 8192 with
      | None => mret tt
      | Some pipe_line =>
        if is_bg then
          ps ← execute_pipeline_bg pipe_line (pipes_ok k) (forks k);
          add_background ps pipe_line
        else
          r ← execute_pipeline pipe_line (pipes_ok k) (forks k) (waits k);
          let '(ps, stopped) := (r : list (Z * str) * bool) in
          match ps with
          | (p0, _) :: _ => if stopped then add_stopped_job p0 ps pipe_line else mret tt
          | [] => mret tt
          end
      end
    else
      let args := content <$> seg in
      if is_bg then _ ← launch_background_single args (found k) (child k); mret tt
      else
        r ← single k args;
        let '(st, single_pid, stopped) := (r : Z * Z * bool) in
        _ ← (if stopped && (0 <? single_pid) then
               add_stopped_job single_pid [(single_pid, nth 0 args [])] (join_args [] args)
             else mret tt);
        if st =? 1 then undef "double free of args" else mret tt
  end.

(** [seg] are the tokens since [seg_start], [cur] those from [cur] on. *)
Fixpoint line_loop (k : nat) (seg cur : list token) : J unit :=
  match cur with
  | [] => run_segment k seg false
  | t :: next =>
    match type t with
    | OP_SEMI => _ ← run_segment k seg false; line_loop (S k) [] next
    | OP_AMP => _ ← run_segment k seg true; line_loop (S k) [] next
    | _ => line_loop k (seg ++ [t]) next
    end
  end.

(** [line\[strcspn(line, "\n")\] = 0;] *)
Fixpoint cut_newline (line : str) : str :=
  match line with [] => [] | c :: l => if c =? chNL then [] else c :: cut_newline l end.

(** One turn of the loop of [main], for a line that was read. *)
Definition run_line (line : str) : J unit :=
  match lexer (cut_newline line) with
  | Lexed ts ok =>
    _ ← (if negb ok then say (EMsg "cshell: invalid syntax") else mret tt);
    if negb ok then mret tt
    else match ts with
         | [] => mret tt
         | _ =>
           if parser ts =? 1 then say (EMsg "cshell: invalid syntax")
           else line_loop 0 [] ts
         end
  | LexOverflow => undef "lexer: buffer overflow"
  | LexFuel => undef "out of fuel"
  end.
End Main.

(** ** Text of plain tokens *)

(** Characters that stand for themselves in a word. *)
Definition plain_char (c : Z) : bool :=
  negb (ends_word c || is_space4 c || (c =? chDQUOTE) || (c =? chSQUOTE) || (c =? chBSLASH)).
Definition plain_token (t : token) : Prop :=
  match type t with
  | WORD => content t <> [] /\ Forall (fun c => plain_char c = true) (content t) /\ (length (content t) < BUFSZ)%nat
  | ty => content t = op_text ty
  end.

(** Tokens separated by single spaces. *)
Fixpoint words_text (ts : list token) : str :=
  match ts with
  | [] => []
  | [t] => content t
  | t :: ts' => content t ++ chSPACE :: words_text ts'
  end.

Lemma words_text_cons t ts : ts <> [] -> words_text (t :: ts) = content t ++ chSPACE :: words_text ts.
Proof. by destruct ts. Qed.

Lemma words_text_app a b : a <> [] -> b <> [] -> words_text (a ++ b) = words_text a ++ chSPACE :: words_text b.
Proof.
  intros Ha Hb. induction a as [|t a IH]; [done|]. destruct a as [|u a]; [cbn [app]; by rewrite words_text_cons|].
  change ((t :: u :: a) ++ b) with (t :: ((u :: a) ++ b)).
  rewrite (words_text_cons t ((u :: a) ++ b)), (words_text_cons t (u :: a)), IH by done. by rewrite <- app_assoc.
Qed.

Lemma build_loop_text ts size : forall out,
  Z.of_nat (length out) + Z.of_nat (length (words_text ts)) + 1 < size ->
  build_loop ts out size = Some (out ++ words_text ts).
Proof.
  induction ts as [|t ts IH]; intros out Hl; cbn [build_loop]; [by rewrite app_nil_r|].
  destruct ts as [|u ts].
  - cbn [words_text] in *. rewrite (proj2 (Z.leb_gt _ _)) by lia. done.
  - rewrite words_text_cons in Hl |- * by done. rewrite length_app in Hl. cbn [length] in Hl.
    rewrite (proj2 (Z.leb_gt _ _)) by lia. rewrite IH.
    + f_equal. by rewrite <- !app_assoc.
    + rewrite !length_app. cbn [length]. lia.
Qed.

(** *** Cutting at a delimiter *)

Lemma strtok_piece d u : forall tok, Forall (fun c => c <> d) u -> tok ++ u <> [] -> strtok_loop d tok u = [tok ++ u].
Proof.
  induction u as [|c u IH]; intros tok Hu Hn; cbn [strtok_loop].
  { rewrite app_nil_r in *. by destruct tok. }
  apply list.Forall_cons in Hu as [Hc Hu]. rewrite (proj2 (Z.eqb_neq c d)) by done.
  rewrite IH; [by rewrite <- app_assoc|done|]. by destruct tok.
Qed.

Lemma strtok_cut d u r : forall tok, Forall (fun c => c <> d) u -> tok ++ u <> [] ->
  strtok_loop d tok (u ++ d :: r) = (tok ++ u) :: strtok_loop d [] r.
Proof.
  induction u as [|c u IH]; intros tok Hu Hn; cbn [app strtok_loop].
  { rewrite Z.eqb_refl. rewrite app_nil_r in *. by destruct tok. }
  apply list.Forall_cons in Hu as [Hc Hu]. rewrite (proj2 (Z.eqb_neq c d)) by done.
  rewrite IH; [by rewrite <- app_assoc|done|]. by destruct tok.
Qed.

Lemma plain_char_spec c : plain_char c = true ->
  ends_word c = false /\ is_space4 c = false /\ c <> chDQUOTE /\ c <> chSQUOTE /\ c <> chBSLASH /\ c <> chPIPE.
Proof.
  unfold plain_char. rewrite negb_true_iff, !orb_false_iff, !Z.eqb_neq. intros ((((H1 & H2) & H3) & H4) & H5).
  repeat (split; [done|]). intros ->. done.
Qed.

Lemma no_bar_token t : plain_token t -> type t <> OP_PIPE -> Forall (fun c => c <> chPIPE) (content t).
Proof.
  destruct t as [w ty]. unfold plain_token. cbn. destruct ty; intros H N; try done; try (subst w; cbn; forall_lia).
  destruct H as (_ & H & _). eapply list.Forall_impl; [exact H|]. intros c Hc. by apply plain_char_spec in Hc as (_ & _ & _ & _ & _ & Hc).
Qed.

Lemma no_bar_text g : Forall plain_token g -> Forall (fun t => type t <> OP_PIPE) g -> Forall (fun c => c <> chPIPE) (words_text g).
Proof.
  induction 1 as [|t g Ht _ IH]; intros Hn; [constructor|]. apply list.Forall_cons in Hn as [Hn1 Hn].
  destruct g as [|u g]; [by apply no_bar_token|]. rewrite words_text_cons by done. apply Forall_app. split; [by apply no_bar_token|].
  constructor; [done|]. by apply IH.
Qed.

(** *** Tokenizing the pieces again *)

Lemma run_in_word w : forall b r ts, Forall (fun c => plain_char c = true) w -> (length b + length w < BUFSZ)%nat ->
  run (mkLex IN_WORD (w ++ r) b ts) = run (mkLex IN_WORD r (b ++ w) ts).
Proof.
  induction w as [|c w IH]; intros b r ts Hw Hl; [by rewrite app_nil_r|]. apply list.Forall_cons in Hw as [Hc Hw].
  apply plain_char_spec in Hc as (H1 & H2 & H3 & H4 & H5 & _). cbn [length] in Hl.
  replace (b ++ c :: w) with ((b ++ [c]) ++ w) by (by rewrite <- app_assoc).
  rewrite <- IH; [|done|rewrite length_app; cbn [length]; lia]. apply run_step.
  unfold lexer_step, step_IN_WORD, store. cbn [curr_state rest cur app tail buffer]. rewrite H1.
  rewrite (proj2 (Z.eqb_neq _ _) H3), (proj2 (Z.eqb_neq _ _) H4), (proj2 (Z.eqb_neq _ _) H5). by rewrite push_fits by lia.
Qed.

Lemma run_plain t r ts : plain_token t -> (r = [] \/ exists r', r = chSPACE :: r') ->
  run (mkLex START (content t ++ r) [] ts) = run (mkLex START r [] (ts ++ [t])).
Proof.
  destruct t as [w ty]. unfold plain_token. cbn [type content]. intros Ht Hr.
  destruct ty; [subst w; (destruct Hr as [->|[r' ->]]; cbn; by apply run_step)..|].
  destruct Ht as (Hne & Hw & Hl). destruct w as [|c w]; [done|]. cbn [app].
  pose proof Hw as [Hc Hw']%list.Forall_cons. apply plain_char_spec in Hc as (H1 & H2 & H3 & H4 & H5 & H6).
  transitivity (run (mkLex IN_WORD (w ++ r) [c] ts)).
  { apply run_step. unfold lexer_step, step_START, store. cbn [curr_state rest buffer]. rewrite H2.
    unfold ends_word in H1. rewrite !orb_false_iff, !Z.eqb_neq in H1.
    rewrite !(proj2 (Z.eqb_neq c _)) by tauto. by rewrite push_fits by (cbn; lia). }
  rewrite run_in_word by (try done; cbn in *; lia). cbn [app].
  apply run_step. unfold lexer_step, step_IN_WORD, emit_word. cbn [curr_state rest buffer toks].
  assert (ends_word (cur r) = true) as -> by (by destruct Hr as [->|[r' ->]]).
  by rewrite (proj2 (Nat.ltb_lt _ _) Hl).
Qed.

Lemma run_words g : forall ts suf, Forall plain_token g -> g <> [] -> (suf = [] \/ suf = [chSPACE]) ->
  run (mkLex START (words_text g ++ suf) [] ts) = Lexed (ts ++ g) true.
Proof.
  induction g as [|t g IH]; intros ts suf Hg Hne Hs; [done|]. apply list.Forall_cons in Hg as [Ht Hg].
  destruct g as [|u g].
  - cbn [words_text]. rewrite run_plain; [|done|destruct Hs as [->| ->]; eauto].
    destruct Hs as [->| ->]; [done|]. by rewrite (run_step _ (mkLex START [] [] (ts ++ [t]))) by done.
  - rewrite words_text_cons by done. rewrite <- app_assoc. cbn [app]. rewrite run_plain by eauto.
    rewrite (run_step _ (mkLex START (words_text (u :: g) ++ suf) [] (ts ++ [t]))) by done.
    rewrite IH by done. by rewrite <- app_assoc.
Qed.

Lemma lex_piece g pre suf : Forall plain_token g -> g <> [] -> (pre = [] \/ pre = [chSPACE]) -> (suf = [] \/ suf = [chSPACE]) ->
  lexer (pre ++ words_text g ++ suf) = Lexed g true.
Proof.
  intros Hg Hne Hp Hs. rewrite lexer_run. unfold lex_init. destruct Hp as [->| ->]; cbn [app].
  - by rewrite run_words.
  - rewrite (run_step _ (mkLex START (words_text g ++ suf) [] [])) by done. by rewrite run_words.
Qed.

(** ** Commands of a pipeline *)

Definition bar : token := mkToken [chPIPE] OP_PIPE.

(** The tokens of a pipeline with the commands [gs]. *)
Fixpoint pipe_tokens (gs : list (list token)) : list token :=
  match gs with [] => [] | [g] => g | g :: gs' => g ++ bar :: pipe_tokens gs' end.

Definition plain_cmd (g : list token) : Prop :=
  g <> [] /\ Forall plain_token g /\ Forall (fun t => type t <> OP_PIPE) g /\ parser g = 0.

(** The pieces of the text, with the spaces around the bars. *)
Fixpoint pieces (pre : str) (gs : list (list token)) : list str :=
  match gs with
  | [] => []
  | [g] => [pre ++ words_text g]
  | g :: gs' => (pre ++ words_text g ++ [chSPACE]) :: pieces [chSPACE] gs'
  end.

Lemma pipe_tokens_cons g gs : gs <> [] -> pipe_tokens (g :: gs) = g ++ bar :: pipe_tokens gs.
Proof. by destruct gs. Qed.

Lemma pipe_tokens_ne gs : Forall plain_cmd gs -> gs <> [] -> pipe_tokens gs <> [].
Proof.
  intros Hg Hne. destruct gs as [|g gs]; [done|]. apply list.Forall_cons in Hg as [(Hn & _) _].
  destruct gs; [done|]. rewrite pipe_tokens_cons by done. by destruct g.
Qed.

Lemma pipe_text g gs : Forall plain_cmd (g :: gs) -> gs <> [] ->
  words_text (pipe_tokens (g :: gs)) = words_text g ++ [chSPACE] ++ chPIPE :: chSPACE :: words_text (pipe_tokens gs).
Proof.
  intros [(Hn & _) Hg]%list.Forall_cons Hne. rewrite pipe_tokens_cons, words_text_app by done.
  rewrite words_text_cons by (by apply pipe_tokens_ne). done.
Qed.

Lemma words_text_ne g : Forall plain_token g -> g <> [] -> words_text g <> [].
Proof.
  intros Hg Hne. destruct g as [|t g]; [done|]. apply list.Forall_cons in Hg as [Ht _].
  assert (content t <> []) as Hc.
  { destruct t as [w ty]. unfold plain_token in Ht. cbn in *. destruct ty; try (by subst w). tauto. }
  destruct g; [done|]. rewrite words_text_cons by done. by destruct (content t).
Qed.

Lemma strtok_pieces gs : forall pre, Forall plain_cmd gs -> gs <> [] -> Forall (fun c => c <> chPIPE) pre ->
  strtok_loop chPIPE [] (pre ++ words_text (pipe_tokens gs)) = pieces pre gs.
Proof.
  induction gs as [|g gs IH]; intros pre Hg Hne Hp; [done|].
  pose proof Hg as [(Hn & Hpl & Hnb & _) Hg']%list.Forall_cons.
  assert (Forall (fun c => c <> chPIPE) (words_text g)) as Hb by (by apply no_bar_text).
  pose proof (words_text_ne g Hpl Hn) as Hwn. destruct gs as [|h gs].
  - cbn [pipe_tokens pieces]. rewrite strtok_piece; [done| |].
    + apply Forall_app. done.
    + cbn. by destruct pre, (words_text g).
  - rewrite pipe_text by done.
    replace (pre ++ words_text g ++ [chSPACE] ++ chPIPE :: chSPACE :: words_text (pipe_tokens (h :: gs)))
      with ((pre ++ words_text g ++ [chSPACE]) ++ chPIPE :: ([chSPACE] ++ words_text (pipe_tokens (h :: gs))))
      by (by rewrite <- !app_assoc).
    rewrite strtok_cut; [|apply Forall_app; split; [done|]; apply Forall_app; split; [done|by repeat constructor]|by destruct pre, (words_text g)].
    cbn [app pieces]. f_equal. change (chSPACE :: words_text (pipe_tokens (h :: gs))) with ([chSPACE] ++ words_text (pipe_tokens (h :: gs))).
    apply IH; [done|done|by repeat constructor].
Qed.

Lemma length_pieces pre gs : length (pieces pre gs) = length gs.
Proof. revert pre. induction gs as [|g gs IH]; intros pre; [done|]. destruct gs; [done|]. cbn [pieces length] in *. by rewrite IH. Qed.

Lemma child_args_piece g pre suf : plain_cmd g -> (pre = [] \/ pre = [chSPACE]) -> (suf = [] \/ suf = [chSPACE]) ->
  child_args (pre ++ words_text g ++ suf) = Ret (Some (content <$> g)).
Proof.
  intros (Hn & Hpl & _ & Hpar) Hp Hs. unfold child_args. rewrite lex_piece by done. cbn [negb].
  destruct g as [|t g]; [done|]. by rewrite Hpar.
Qed.

Lemma children_pieces gs : forall pre, Forall plain_cmd gs -> (pre = [] \/ pre = [chSPACE]) ->
  Forall2 (fun p g => child_args p = Ret (Some (content <$> g))) (pieces pre gs) gs.
Proof.
  induction gs as [|g gs IH]; intros pre Hg Hp; [constructor|]. apply list.Forall_cons in Hg as [Hg1 Hg].
  destruct gs as [|h gs].
  - cbn [pieces]. constructor; [|constructor]. rewrite <- (app_nil_r (words_text g)). apply child_args_piece; eauto.
  - cbn [pieces]. constructor; [apply child_args_piece; eauto|]. apply IH; eauto.
Qed.

(** ** Pieces of a line *)

Definition delim (is_bg : bool) : token := if is_bg then mkToken [chAMP] OP_AMP else mkToken [chSEMI] OP_SEMI.
Definition no_delim (t : token) : Prop := type t <> OP_SEMI /\ type t <> OP_AMP.

(** The tokens of pieces that end in a semicolon or ampersand, and of a last one. *)
Definition is_delim (b : bool) (t : token) : Prop := type t = if b then OP_AMP else OP_SEMI.
Fixpoint cut_into (segs : list (list token * bool)) (last ts : list token) : Prop :=
  match segs with
  | [] => ts = last
  | (seg, b) :: segs' => exists d rest, is_delim b d /\ ts = seg ++ d :: rest /\ cut_into segs' last rest
  end.

Lemma cut_exists ts : forall seg q,
  Forall no_delim seg -> (q = q_arg -> seg <> []) ->
  parser_loop q ts <> q_error ->
  exists segs last, cut_into segs last (seg ++ ts) /\
    Forall (fun sb => sb.1 <> [] /\ Forall no_delim sb.1) segs /\ Forall no_delim last.
Proof.
  induction ts as [|t ts IH]; intros seg q Hseg Hq Hp.
  { exists [], seg. split; [by rewrite app_nil_r|]. split; [constructor|done]. }
  cbn [parser_loop] in Hp.
  assert (forall b, is_delim b t -> parser_step q (type t) <> q_arg -> seg <> [] -> parser_loop (parser_step q (type t)) ts <> q_error ->
    exists segs last, cut_into segs last (seg ++ t :: ts) /\
      Forall (fun sb => sb.1 <> [] /\ Forall no_delim sb.1) segs /\ Forall no_delim last) as Hcut.
  { intros b Hb Hna Hne Hp'. destruct (IH [] (parser_step q (type t))) as (segs & last & H1 & H2 & H3); [constructor|done|done|].
    exists ((seg, b) :: segs), last. split; [exists t, ts; done|]. split; [by constructor|done]. }
  assert (no_delim t -> parser_loop (parser_step q (type t)) ts <> q_error ->
    exists segs last, cut_into segs last (seg ++ t :: ts) /\
      Forall (fun sb => sb.1 <> [] /\ Forall no_delim sb.1) segs /\ Forall no_delim last) as Hgo.
  { intros Hnd Hp'. destruct (IH (seg ++ [t]) (parser_step q (type t))) as (segs & last & H1 & H2 & H3);
      [apply Forall_app; split; [done|by apply list.Forall_singleton]|by destruct seg|done|].
    exists segs, last. rewrite <- app_assoc in H1. done. }
  destruct (parser_step q (type t)) eqn:Es; try done.
  all: destruct q, (type t) eqn:Et; try done; try (injection Es as <-).
  all: first [apply Hgo; [by unfold no_delim; rewrite Et|done]
             |apply (Hcut false); [by unfold is_delim|done|by apply Hq|done]
             |apply (Hcut true); [by unfold is_delim|done|by apply Hq|done]].
Qed.

Section Runs.
Context (single : nat -> list str -> J (Z * Z * bool)) (found : nat -> bool) (child : nat -> Z).
Context (pipes_ok : nat -> bool) (forks : nat -> nat -> Z) (waits : nat -> nat -> wstatus).

Abbreviation seg_run := (run_segment single found child pipes_ok forks waits).
Abbreviation loop := (line_loop single found child pipes_ok forks waits).

(** The pieces one after the other, and the last one in the foreground. *)
Fixpoint run_all (k : nat) (segs : list (list token * bool)) (last : list token) : J unit :=
  match segs with
  | [] => seg_run k last false
  | (seg, b) :: segs' => _ ← seg_run k seg b; run_all (S k) segs' last
  end.

Lemma loop_segment seg : forall k acc rest s, Forall no_delim seg -> loop k acc (seg ++ rest) s = loop k (acc ++ seg) rest s.
Proof.
  induction seg as [|t seg IH]; intros k acc rest s Hs; [by rewrite app_nil_r|]. apply list.Forall_cons in Hs as [[H1 H2] Hs].
  cbn [app line_loop]. replace (acc ++ t :: seg) with ((acc ++ [t]) ++ seg) by (by rewrite <- app_assoc).
  rewrite <- IH by done. by destruct (type t).
Qed.

Lemma M_bind_ext {S A B} (m : M S A) (f g : A -> M S B) s : (forall a s', f a s' = g a s') -> (m ≫= f) s = (m ≫= g) s.
Proof. intros H. unfold mbind, M_bind. by destruct (m s) as [[a s']| |]. Qed.

Lemma loop_runs segs last : forall k ts s,
  Forall (fun sb => sb.1 <> [] /\ Forall no_delim sb.1) segs -> Forall no_delim last -> cut_into segs last ts ->
  loop k [] ts s = run_all k segs last s.
Proof.
  induction segs as [|[seg b] segs IH]; intros k ts s Hs Hl Hc; cbn [cut_into run_all] in *.
  - subst ts. rewrite <- (app_nil_r last) at 1. by rewrite loop_segment.
  - destruct Hc as (d & rest & Hd & -> & Hc). apply list.Forall_cons in Hs as [[_ Hseg] Hs]. cbn [fst] in Hseg.
    rewrite loop_segment by done. cbn [app line_loop]. unfold is_delim in Hd. rewrite Hd.
    destruct b; apply M_bind_ext; intros _ s'; by apply IH.
Qed.
End Runs.

(** ** Theorems *)

(** The commands of a pipeline of plain tokens.  Printing the tokens back as text
    loses nothing: the text is cut into as many commands as the line has, and each
    child tokenizes its part to exactly the words and operators of its command. *)
Theorem pipeline_commands gs :
  Forall plain_cmd gs -> (2 <= length gs <= MAX_PIPE_COMMANDS)%nat ->
  Z.of_nat (length (words_text (pipe_tokens gs))) + 1 < 8192 ->
  exists line l, build_line_from_segment (pipe_tokens gs) 8192 = Some line /\ split_pipeline line = Some l /\
    Forall2 (fun p g => child_args p = Ret (Some (content <$> g))) l gs.
Proof.
  intros Hg Hl Hfit. exists (words_text (pipe_tokens gs)), (pieces [] gs). split; [|split].
  - unfold build_line_from_segment. rewrite build_loop_text by (cbn; lia). done.
  - unfold split_pipeline, strtok. assert (gs <> []) as Hne by (intros ->; cbn in Hl; lia).
    pose proof (strtok_pieces gs [] Hg Hne (list.Forall_nil_2 _)) as E. cbn [app] in E. rewrite E, length_pieces.
    rewrite (proj2 (Nat.ltb_ge _ _)), (proj2 (Nat.ltb_ge _ 2)) by lia. done.
  - apply children_pieces; [done|by left].
Qed.

(** A line the syntax check accepts is cut at its semicolons and ampersands into
    pieces that are not empty (but for what follows a last ampersand), and the pieces
    are run in their order, those before an ampersand in the background and the
    others in the foreground. *)
Theorem line_runs_pieces single found child pipes_ok forks waits ts :
  parser ts = 0 ->
  exists segs last, cut_into segs last ts /\ Forall (fun sb => sb.1 <> [] /\ Forall no_delim sb.1) segs /\
    Forall no_delim last /\
    forall s, line_loop single found child pipes_ok forks waits 0 [] ts s =
              run_all single found child pipes_ok forks waits 0 segs last s.
Proof.
  intros Hp. assert (parser_loop q_start ts <> q_error) as Hne by (unfold parser in Hp; by destruct (parser_loop q_start ts)).
  destruct (cut_exists ts [] q_start) as (segs & last & H1 & H2 & H3); [constructor|done|done|].
  exists segs, last. split; [done|]. split; [done|]. split; [done|]. intros s. by apply loop_runs.
Qed.

(** A command that is not found: [execute_single] returns 1 and [main] frees the
    array of arguments twice. *)
Theorem unknown_command_double_free found child pipes_ok forks waits s :
  run_line (fun _ _ => mret (1, 0, false)) found child pipes_ok forks waits (bytes "nosuch") s = Undef "double free of args".
Proof. reflexivity. Qed.

(** A quoted bar: the syntax check sees two commands, the pipeline runs three. *)
Theorem quoted_bar_splits :
  let line := bytes "echo " ++ [chDQUOTE] ++ bytes "a|b" ++ [chDQUOTE] ++ bytes " | cat" in
  exists ts text, lexer line = Lexed ts true /\ length (filter (fun t => type t = OP_PIPE) ts) = 1%nat /\
    build_line_from_segment ts 8192 = Some text /\ split_pipeline text = Some [bytes "echo a"; bytes "b "; bytes " cat"].
Proof.
  eexists _, _. split; [vm_compute; reflexivity|]. split; [vm_compute; reflexivity|]. split; vm_compute; reflexivity.
Qed.

(** ** Witnesses *)

Definition word (w : string) : token := mkToken (bytes w) WORD.

Lemma pipeline_commands_witness :
  exists line l, build_line_from_segment (pipe_tokens [[word "cat"; mkToken [chLT] OP_LT; word "f"]; [word "wc"; word "-l"]]) 8192 = Some line /\
    split_pipeline line = Some l /\
    Forall2 (fun p g => child_args p = Ret (Some (content <$> g))) l [[word "cat"; mkToken [chLT] OP_LT; word "f"]; [word "wc"; word "-l"]].
Proof.
  assert (forall w : string, forallb plain_char (bytes w) = true -> bytes w <> [] -> (length (bytes w) < BUFSZ)%nat -> plain_token (word w)) as Hw.
  { intros w H1 H2 H3. split; [done|]. split; [|done]. apply list.Forall_forall. intros c Hc.
    rewrite forallb_forall in H1. by apply H1, list_elem_of_In. }
  apply (pipeline_commands [[word "cat"; mkToken [chLT] OP_LT; word "f"]; [word "wc"; word "-l"]]);
    [|cbn; unfold MAX_PIPE_COMMANDS; lia|reflexivity].
  apply list.Forall_cons_2; [|apply list.Forall_cons_2; [|apply list.Forall_nil_2]].
  - split; [done|]. split; [|split; [by repeat (apply list.Forall_cons_2; [done|])|reflexivity]].
    repeat (apply list.Forall_cons_2; [first [reflexivity|apply Hw; [reflexivity|done|apply Nat.ltb_lt; reflexivity]]|]). done.
  - split; [done|]. split; [|split; [by repeat (apply list.Forall_cons_2; [done|])|reflexivity]].
    repeat (apply list.Forall_cons_2; [first [reflexivity|apply Hw; [reflexivity|done|apply Nat.ltb_lt; reflexivity]]|]). done.
Defined.

Lemma line_runs_pieces_witness :
  exists segs last, cut_into segs last [word "a"; delim true; word "b"; delim false; word "c"].
Proof.
  destruct (line_runs_pieces (fun _ _ => mret (0, 0, false)) (fun _ => true) (fun _ => 2) (fun _ => true) (fun _ _ => 2) (fun _ _ => Exited)
    [word "a"; delim true; word "b"; delim false; word "c"] eq_refl) as (segs & last & H & _).
  exists segs, last. exact H.
Defined.
