(* ===== verification/ShExec.v ===== *)
(** * Finding commands: [c-shell/src/exec_calls.c], [c-shell/src/locate.c], and the
    search of the child of [launch_background_single] in [main.c]

    [regx] says which paths are regular executable files, [acc] which paths
    [access(path, X_OK)] accepts; [PATH] is the value of the variable, if set. *)

From S2P Require Import Prelude ShLexer ShRedir ShJobs ShMain.

Section Exec.
Context (regx acc : path -> bool) (PATH : option str).

(** [snprintf(buf, size, "%s/%s", dir, name)] *)
Definition in_dir (size : Z) (dir name : str) : path := take (Z.to_nat (size - 1)) (dir ++ chSLASH :: name).
(** [snprintf(local_path, 4096, "./%s", name)] *)
Definition local (name : str) : path := in_dir 4096 [chDOT] name.

(** [strchr(s, '/') != NULL] *)
Definition has_slash (s : str) : bool := existsb (Z.eqb chSLASH) s.

(** The directories of [PATH], by [strtok(path, ":")]. *)
Definition path_dirs : list str := match PATH with Some p => strtok 58 p | None => [] end.

(** The search loop: the first candidate that [access] accepts. *)
Fixpoint search_path (name : str) (dirs : list str) : option path :=
  match dirs with
  | [] => None
  | d :: dirs' => if acc (in_dir 4096 d name) then Some (in_dir 4096 d name) else search_path name dirs'
  end.

Definition is_percent (c : str) : bool := match c with 37 :: _ => true | _ => false end.

Definition check_external_exists (cmd : str) : bool :=
  if has_slash cmd then regx cmd
  else
    let lookup := strip_percent cmd in
    match lookup with
    | [] => false
    | _ =>
      if negb (is_percent cmd) && regx (local lookup) then true
      else match search_path lookup path_dirs with Some _ => true | None => false end
    end.

(** The path the child of [execute_external] executes, [None] for [_exit(1)]. *)
Definition exec_choice (cmd : str) : option path :=
  if has_slash cmd then Some cmd
  else if is_percent cmd then search_path (strip_percent cmd) path_dirs
  else if regx (local cmd) then Some (local cmd)
  else search_path cmd path_dirs.

(** The same for the child of [launch_background_single]. *)
Definition bg_exec_choice (cmd : str) : option path :=
  if has_slash cmd then Some cmd
  else
    let cmd := strip_percent cmd in
    if acc (local cmd) then Some (local cmd) else search_path cmd path_dirs.

(** [execute_external] in the parent: 1 without a child when the command is not
    found, else the path its child executes. *)
Definition execute_external (cmd : str) : Z * option path :=
  if negb (check_external_exists cmd) then (1, None) else (0, exec_choice cmd).

(** [locate] of one name from the directory [cwd] ([None] if [getcwd] fails): the
    paths printed. *)
Definition locate_one (cwd : option str) (name : str) : list path :=
  (match cwd with
   | Some d => if regx (in_dir 8192 d name) then [in_dir 8192 d name] else []
   | None => []
   end) ++ filter (fun p => regx p = true) (map (fun d => in_dir 8192 d name) path_dirs).
(** The names that are not found are reported after their search. *)
Definition locate (cwd : option str) (names : list str) : list path * list str :=
  (names ≫= locate_one cwd, filter (fun n => locate_one cwd n = []) names).

(** ** Lemmas *)

Lemma search_path_spec name dirs :
  match search_path name dirs with
  | Some p => exists pre d post, dirs = pre ++ d :: post /\ p = in_dir 4096 d name /\ acc p = true /\
      Forall (fun d => acc (in_dir 4096 d name) = false) pre
  | None => Forall (fun d => acc (in_dir 4096 d name) = false) dirs
  end.
Proof.
  induction dirs as [|d dirs IH]; cbn [search_path]; [constructor|].
  destruct (acc (in_dir 4096 d name)) eqn:Ea.
  - exists [], d, dirs. split; [done|]. split; [done|]. split; [done|constructor].
  - destruct (search_path name dirs) as [p|]; [|by constructor].
    destruct IH as (pre & e & post & -> & -> & H1 & H2). exists (d :: pre), e, post. split; [done|].
    split; [done|]. split; [done|]. by constructor.
Qed.
End Exec.

(** ** Theorems *)

(** A command in the foreground is executed exactly when the check before [fork]
    finds it, and the child then runs a file that was found: the path itself if it
    has a slash; else, unless the name starts with a percent sign, the file of the
    current directory; else the first directory of [PATH] that has it. *)
Theorem external_runs_found regx acc PATH cmd :
  match execute_external regx acc PATH cmd with
  | (1, None) => check_external_exists regx acc PATH cmd = false
  | (0, Some p) =>
      (regx p = true \/ acc p = true) /\
      if has_slash cmd then p = cmd
      else if negb (is_percent cmd) && regx (local cmd) then p = local cmd
      else exists pre d post, path_dirs PATH = pre ++ d :: post /\ p = in_dir 4096 d (strip_percent cmd) /\
             Forall (fun d => acc (in_dir 4096 d (strip_percent cmd)) = false) pre
  | _ => False
  end.
Proof.
  unfold execute_external. destruct (check_external_exists regx acc PATH cmd) eqn:Ec; cbn [negb]; [|done].
  revert Ec. unfold check_external_exists, exec_choice. destruct (has_slash cmd); [by auto|].
  destruct (is_percent cmd) eqn:Ep; cbn [negb andb].
  - destruct (strip_percent cmd) as [|c lk] eqn:El; [done|]. pose proof (search_path_spec acc (c :: lk) (path_dirs PATH)) as H.
    destruct (search_path acc (c :: lk) (path_dirs PATH)) as [p|]; [|done]. intros _.
    destruct H as (pre & d & post & E1 & E2 & E3 & E4). split; [by right|]. by exists pre, d, post.
  - assert (strip_percent cmd = cmd) as El.
    { unfold strip_percent, is_percent in *. destruct cmd as [|c cmd]; [done|].
      destruct c as [|q|q]; try done. by repeat (destruct q as [q|q|]; try done). }
    rewrite El. destruct cmd as [|c cmd]; [done|]. destruct (regx (local (c :: cmd))) eqn:Er; [by auto|].
    pose proof (search_path_spec acc (c :: cmd) (path_dirs PATH)) as H.
    destruct (search_path acc (c :: cmd) (path_dirs PATH)) as [p|]; [|done]. intros _.
    destruct H as (pre & d & post & E1 & E2 & E3 & E4). split; [by right|]. by exists pre, d, post.
Qed.

(** The background search ignores the percent sign: [%ls &] runs [./ls] where [%ls]
    runs the [ls] of [PATH]. *)
Theorem percent_background_runs_local :
  let ok := fun p => bool_decide (p = bytes "./ls") || bool_decide (p = bytes "/bin/ls") in
  exec_choice ok ok (Some (bytes "/bin")) (bytes "%ls") = Some (bytes "/bin/ls") /\
  bg_exec_choice ok (Some (bytes "/bin")) (bytes "%ls") = Some (bytes "./ls").
Proof. split; reflexivity. Qed.
