(* ===== verification/ShPipe.v ===== *)
(** * Pipelines: [execute_command], [execute_command_bg] and the children of
    [execute_pipeline] of [c-shell/src/pipe.c]

    [execute_pipeline] makes its pipes, forks a child for each command and closes the
    pipes; a child moves its ends of the pipes to standard input and output, closes
    every pipe descriptor, applies its redirections, runs a builtin or a program and
    exits with [_exit].  Descriptors are kept as the table of each process.  A read from
    a pipe ends only when no process has its write end, and a write needs a process
    with its read end.  The children run one after the other and a pipe holds
    whatever is written to it: other schedules and the capacity of a pipe are not
    modelled.  Builtins print through [stdout], with the buffering of [ShRedir]. *)

From S2P Require Import Prelude ShLexer ShRedir ShJobs ShMain ShExec.

(** ** Descriptors *)

(** An open file: inherited by the shell, or an end of a pipe, by the number of the pipe. *)
Inductive ofd := Std (n : nat) | PipeR (j : nat) | PipeW (j : nat).
#[global] Instance ofd_eq_dec : EqDecision ofd.
Proof. solve_decision. Defined.

Abbreviation fds := (list (option ofd)).
Definition get_fd (t : fds) (k : nat) : option ofd := match t !! k with Some x => x | None => None end.

(** The lowest free descriptor. *)
Fixpoint alloc_fd (f : ofd) (t : fds) : nat * fds :=
  match t with
  | [] => (0%nat, [Some f])
  | None :: t' => (0%nat, Some f :: t')
  | Some g :: t' => let '(n, t'') := alloc_fd f t' in (S n, Some g :: t'')
  end.
Definition close_fd (k : nat) (t : fds) : fds := <[k := None]> t.
(** [dup2(a, b)]; without [a] it fails and the child exits, which leaves it no [b]. *)
Definition dup2 (a b : nat) (t : fds) : fds := <[b := get_fd t a]> t.

(** [for (i ...) pipe(pipes\[i\])] from pipe [i]: the descriptors [pipes\[i\]\[0\]] and
    [pipes\[i\]\[1\]], and the table. *)
Fixpoint make_pipes (n i : nat) (t : fds) : list (nat * nat) * fds :=
  match n with
  | O => ([], t)
  | S n' =>
    let '(r, t1) := alloc_fd (PipeR i) t in
    let '(w, t2) := alloc_fd (PipeW i) t1 in
    let '(ps, t3) := make_pipes n' (S i) t2 in
    ((r, w) :: ps, t3)
  end.

(** [close(pipes\[j\]\[0\]); close(pipes\[j\]\[1\]);] for every pipe. *)
Fixpoint close_pipes (pipes : list (nat * nat)) (t : fds) : fds :=
  match pipes with [] => t | (r, w) :: ps => close_pipes ps (close_fd w (close_fd r t)) end.

(** The table of child [i] of [n], from that of the parent. *)
Definition child_fds (pipes : list (nat * nat)) (n i : nat) (t : fds) : fds :=
  let t := if (0 <? i)%nat then dup2 (nth (i - 1) pipes (0, 0)%nat).1 0 t else t in
  let t := if (i <? n - 1)%nat then dup2 (nth i pipes (0, 0)%nat).2 1 t else t in
  close_pipes pipes t.

(** Does the process have the file open? *)
Definition holds (f : ofd) (t : fds) : bool := existsb (fun x => bool_decide (x = Some f)) t.

Lemma get_insert t k x k' :
  get_fd (<[k := x]> t) k' = if decide (k = k' /\ (k < length t)%nat) then x else get_fd t k'.
Proof.
  unfold get_fd. destruct (decide (k = k')) as [->|N].
  - destruct (decide (k' < length t)%nat) as [L|L].
    + rewrite list_lookup_insert_eq by done. by rewrite decide_True.
    + rewrite list_insert_ge by lia. by rewrite decide_False by tauto.
  - rewrite list_lookup_insert_ne by done. by rewrite decide_False by tauto.
Qed.

Lemma get_open t k f : get_fd t k = Some f -> (k < length t)%nat.
Proof. unfold get_fd. destruct (t !! k) eqn:E; [|done]. intros _. by eapply lookup_lt_Some. Qed.

Lemma get_close t k k' : get_fd (close_fd k t) k' = if decide (k = k') then None else get_fd t k'.
Proof.
  unfold close_fd. rewrite get_insert. destruct (decide (k = k')) as [->|N]; [|by rewrite decide_False by tauto].
  destruct (decide _) as [|L]; [done|]. destruct (get_fd t k') eqn:E; [|done]. apply get_open in E. tauto.
Qed.

Lemma get_dup2 t a b k f g : get_fd t b = Some f -> get_fd t a = Some g ->
  get_fd (dup2 a b t) k = if decide (b = k) then Some g else get_fd t k.
Proof.
  intros Hb Ha. unfold dup2. rewrite get_insert, Ha. apply get_open in Hb.
  destruct (decide (b = k)); [by rewrite decide_True|by rewrite decide_False by tauto].
Qed.

Lemma holds_get f t : holds f t = true <-> exists k, get_fd t k = Some f.
Proof.
  unfold holds, get_fd. rewrite existsb_exists. split.
  - intros (x & Hx & ->%bool_decide_eq_true). apply list_elem_of_In, list_elem_of_lookup in Hx as [k Hk]. exists k. by rewrite Hk.
  - intros [k Hk]. destruct (t !! k) as [x|] eqn:E; [|done]. subst x. exists (Some f). split; [|by apply bool_decide_eq_true].
    apply list_elem_of_In. by eapply list_elem_of_lookup_2.
Qed.

Lemma alloc_fd_spec f t n t' : alloc_fd f t = (n, t') ->
  get_fd t n = None /\ forall k, get_fd t' k = if decide (n = k) then Some f else get_fd t k.
Proof.
  revert n t'. induction t as [|[g|] t IH]; intros n t'; cbn [alloc_fd].
  - intros [= <- <-]. split; [done|]. intros [|k]; [done|]. by destruct k.
  - destruct (alloc_fd f t) as [m t1]. intros [= <- <-]. destruct (IH m t1 eq_refl) as [H1 H2]. split; [exact H1|].
    intros [|k]; [done|]. specialize (H2 k). unfold get_fd in *. cbn [lookup list_lookup] in *.
    destruct (decide (m = k)) as [->|N]; [by rewrite decide_True|rewrite decide_False by lia; exact H2].
  - intros [= <- <-]. split; [done|]. by intros [|k].
Qed.

(** The pipes of the parent: new descriptors, and no other pipe. *)
Record piped (n i : nat) (t : fds) (ps : list (nat * nat)) (t' : fds) : Prop := {
  pd_len : length ps = n;
  pd_ends : forall j r w, ps !! j = Some (r, w) ->
    get_fd t' r = Some (PipeR (i + j)) /\ get_fd t' w = Some (PipeW (i + j)) /\ get_fd t r = None /\ get_fd t w = None;
  pd_old : forall k f, get_fd t k = Some f -> get_fd t' k = Some f;
  pd_new : forall k f, get_fd t' k = Some f -> get_fd t k = Some f \/ exists r w, (r, w) ∈ ps /\ (k = r \/ k = w)
}.

Lemma make_pipes_spec n : forall i t ps t', make_pipes n i t = (ps, t') -> piped n i t ps t'.
Proof.
  induction n as [|n IH]; intros i t ps t'; cbn [make_pipes].
  { intros [= <- <-]. split; [done|done|done|by left]. }
  destruct (alloc_fd (PipeR i) t) as [r t1] eqn:E1, (alloc_fd (PipeW i) t1) as [w t2] eqn:E2.
  destruct (make_pipes n (S i) t2) as [ps' t3] eqn:E3. intros [= <- <-].
  destruct (alloc_fd_spec _ _ _ _ E1) as [A1 A2], (alloc_fd_spec _ _ _ _ E2) as [B1 B2], (IH _ _ _ _ E3) as [C1 C2 C3 C4].
  assert (r <> w) as Nrw by (intros ->; rewrite A2, decide_True in B1 by done; done).
  assert (forall k f, get_fd t k = Some f -> get_fd t2 k = Some f) as Hold.
  { intros k f Hk. rewrite B2, A2. rewrite !decide_False; [done| |].
    - intros ->. congruence.
    - intros ->. rewrite A2 in B1. destruct (decide (r = k)); congruence. }
  split.
  - cbn. lia.
  - intros [|j] r' w' Hj; cbn in Hj.
    + injection Hj as <- <-. rewrite Nat.add_0_r.
      split; [apply C3; rewrite B2, decide_False, A2, decide_True; done|]. split; [apply C3; by rewrite B2, decide_True|].
      split; [done|]. rewrite A2 in B1. by destruct (decide (r = w)).
    + destruct (C2 j r' w' Hj) as (D1 & D2 & D3 & D4). rewrite Nat.add_succ_r. split; [done|]. split; [done|].
      split; [destruct (get_fd t r') eqn:E|destruct (get_fd t w') eqn:E]; try done; apply Hold in E; congruence.
  - intros k f Hk. by apply C3, Hold.
  - intros k f Hk. destruct (C4 k f Hk) as [H|(r' & w' & Hin & Hor)]; [|right; exists r', w'; split; [by right|done]].
    rewrite B2 in H. destruct (decide (w = k)) as [->|]; [right; exists r, k; split; [left|by right]|].
    rewrite A2 in H. destruct (decide (r = k)) as [->|]; [right; exists k, w; split; [left|by left]|by left].
Qed.

Lemma close_pipes_spec ps : forall t k,
  get_fd (close_pipes ps t) k = if decide (Exists (fun p => k = p.1 \/ k = p.2) ps) then None else get_fd t k.
Proof.
  induction ps as [|[r w] ps IH]; intros t k; cbn [close_pipes].
  - rewrite decide_False; [done|]. intros H. inversion H.
  - rewrite IH, !get_close. destruct (decide (Exists _ ps)) as [E|E].
    + rewrite decide_True; [done|]. by right.
    + destruct (decide (w = k)) as [->|N1]; [rewrite decide_True; [done|]; left; by right|].
      destruct (decide (r = k)) as [->|N2]; [rewrite decide_True; [done|]; left; by left|].
      rewrite decide_False; [done|]. rewrite List.Exists_cons. cbn. intuition congruence.
Qed.

(** Standard input and output are open, and no pipe is. *)
Definition ready (t : fds) : Prop :=
  (exists a, get_fd t 0 = Some (Std a)) /\ (exists b, get_fd t 1 = Some (Std b)) /\
  forall k f, get_fd t k = Some f -> exists a, f = Std a.

Section Tables.
Context (t : fds) (n : nat) (ps : list (nat * nat)) (t' : fds) (Ht : ready t) (Hp : piped n 0 t ps t').

Lemma end_not_std j r w k : ps !! j = Some (r, w) -> is_Some (get_fd t k) -> k <> r /\ k <> w.
Proof. intros Hj [f Hf]. destruct (pd_ends _ _ _ _ _ Hp j r w Hj) as (_ & _ & H1 & H2). split; intros ->; congruence. Qed.

Lemma std_kept t1 k : is_Some (get_fd t k) -> get_fd (close_pipes ps t1) k = get_fd t1 k.
Proof.
  intros Hk. rewrite close_pipes_spec, decide_False; [done|]. rewrite list.Exists_exists. intros ([r w] & Hin & Hor).
  apply list_elem_of_lookup in Hin as [j Hj]. destruct (end_not_std j r w k Hj Hk). cbn in Hor. tauto.
Qed.

(** Once the pipes are closed, other descriptors are those of the shell. *)
Lemma others_std t1 k f : (k <> 0 -> k <> 1 -> get_fd t1 k = get_fd t' k)%nat -> (k <> 0)%nat -> (k <> 1)%nat ->
  get_fd (close_pipes ps t1) k = Some f -> exists a, f = Std a.
Proof.
  intros H N0 N1 Hk. rewrite close_pipes_spec in Hk. destruct (decide _) as [|Hno]; [done|]. rewrite H in Hk by done.
  destruct (pd_new _ _ _ _ _ Hp k f Hk) as [Ho|(r & w & Hin & Hor)]; [by apply (proj2 (proj2 Ht) k)|].
  destruct Hno. apply list.Exists_exists. by exists (r, w).
Qed.

Lemma parent_table : forall f, holds f (close_pipes ps t') = true -> exists a, f = Std a.
Proof.
  intros f [k Hk]%holds_get. destruct Ht as ((a & Ha) & (b & Hb) & _).
  destruct (decide (k = 0)%nat) as [->|N0]; [rewrite std_kept, (pd_old _ _ _ _ _ Hp _ _ Ha) in Hk by eauto; injection Hk as <-; eauto|].
  destruct (decide (k = 1)%nat) as [->|N1]; [rewrite std_kept, (pd_old _ _ _ _ _ Hp _ _ Hb) in Hk by eauto; injection Hk as <-; eauto|].
  by apply (others_std t' k).
Qed.

(** A child has its end of the pipe before it as input and of the pipe after it as output,
    and no other end. *)
Lemma child_table i : (i <= n)%nat ->
  (match i with O => exists a, get_fd (child_fds ps (S n) i t') 0 = Some (Std a) | S i' => get_fd (child_fds ps (S n) i t') 0 = Some (PipeR i') end) /\
  (if (i <? n)%nat then get_fd (child_fds ps (S n) i t') 1 = Some (PipeW i) else exists b, get_fd (child_fds ps (S n) i t') 1 = Some (Std b)) /\
  (forall j, holds (PipeW j) (child_fds ps (S n) i t') = true -> j = i /\ (i < n)%nat) /\
  (forall j, (i = S j)%nat -> holds (PipeR j) (child_fds ps (S n) i t') = true).
Proof.
  intros Hi. destruct Ht as ((a & Ha) & (b & Hb) & Hstd).
  pose proof (pd_old _ _ _ _ _ Hp _ _ Ha) as Ha'. pose proof (pd_old _ _ _ _ _ Hp _ _ Hb) as Hb'.
  pose proof (pd_len _ _ _ _ _ Hp) as Hlen.
  assert (forall j, (j < n)%nat -> exists r w, nth j ps (0, 0)%nat = (r, w) /\ ps !! j = Some (r, w)) as Hnth.
  { intros j Hj. destruct (lookup_lt_is_Some_2 ps j ltac:(lia)) as [[r w] E]. exists r, w. split; [|done]. by apply nth_lookup_Some. }
  set (t1 := if (0 <? i)%nat then dup2 (nth (i - 1) ps (0, 0)%nat).1 0 t' else t').
  set (t2 := if (i <? n)%nat then dup2 (nth i ps (0, 0)%nat).2 1 t1 else t1).
  assert (child_fds ps (S n) i t' = close_pipes ps t2) as -> by (unfold child_fds; cbn [Nat.sub]; by rewrite Nat.sub_0_r).
  assert (forall k, get_fd t1 k = if decide (k = 0 /\ 0 < i)%nat then Some (PipeR (i - 1)) else get_fd t' k) as G1.
  { intros k. unfold t1. destruct (Nat.ltb_spec 0 i) as [L|L]; [|by rewrite decide_False by lia].
    destruct (Hnth (i - 1)%nat ltac:(lia)) as (r & w & -> & Hj). destruct (pd_ends _ _ _ _ _ Hp _ _ _ Hj) as (Hr & _).
    rewrite (get_dup2 _ _ _ _ _ _ Ha' Hr). destruct (decide (0 = k)%nat), (decide (k = 0 /\ 0 < i)%nat); try lia; done. }
  assert (forall k, get_fd t2 k = if decide (k = 1 /\ i < n)%nat then Some (PipeW i) else get_fd t1 k) as G2.
  { intros k. unfold t2. destruct (Nat.ltb_spec i n) as [L|L]; [|by rewrite decide_False by lia].
    destruct (Hnth i L) as (r & w & -> & Hj). destruct (pd_ends _ _ _ _ _ Hp _ _ _ Hj) as (_ & Hw & _ & Hno).
    assert (get_fd t1 w = Some (PipeW i)) as Hw1 by (rewrite G1, decide_False; [done|]; intros [-> _]; congruence).
    assert (get_fd t1 1 = Some (Std b)) as Hb1 by (by rewrite G1, decide_False by lia).
    rewrite (get_dup2 _ _ _ _ _ _ Hb1 Hw1). destruct (decide (1 = k)%nat), (decide (k = 1 /\ i < n)%nat); try lia; done. }
  assert (get_fd (close_pipes ps t2) 0 = if decide (0 < i)%nat then Some (PipeR (i - 1)) else Some (Std a)) as T0.
  { rewrite std_kept by eauto. rewrite G2, decide_False, G1 by lia. destruct (decide (0 < i)%nat); [by rewrite decide_True|].
    by rewrite decide_False by lia. }
  assert (get_fd (close_pipes ps t2) 1 = if decide (i < n)%nat then Some (PipeW i) else Some (Std b)) as T1.
  { rewrite std_kept by eauto. rewrite G2. destruct (decide (i < n)%nat); [by rewrite decide_True|].
    rewrite decide_False, G1, decide_False by lia. done. }
  split; [|split; [|split]].
  - rewrite T0. destruct i as [|i]; [eauto|]. rewrite decide_True by lia. do 2 f_equal. lia.
  - rewrite T1. destruct (Nat.ltb_spec i n); [by rewrite decide_True|]. rewrite decide_False by lia. eauto.
  - intros j [k Hk]%holds_get. destruct (decide (k = 0)%nat) as [->|N0].
    { rewrite T0 in Hk. by destruct (decide (0 < i)%nat). }
    destruct (decide (k = 1)%nat) as [->|N1].
    { rewrite T1 in Hk. destruct (decide (i < n)%nat); [|done]. by injection Hk as <-. }
    destruct (others_std t2 k (PipeW j)) as [c Hc]; [|done|done|done|done].
    intros _ _. rewrite G2, decide_False, G1, decide_False by lia. done.
  - intros j ->. apply holds_get. exists 0%nat. rewrite T0, decide_True by lia. do 2 f_equal. lia.
Qed.
End Tables.

(** ** The child *)

Section Child.
Context (can_read can_write : path -> bool) (tmp_ok : bool) (rd : list Z -> Z -> Z -> Z) (wr : Z -> Z -> Z).
Context (regx acc : path -> bool) (PATH : option str) (fork_ok : bool).
Context (passed : list Z -> nat).
(** What the builtins and the programs do with their words, input and files. *)
Context (builtin : action -> list str -> source -> gmap path (list Z) -> list Z * gmap path (list Z)).
Context (prog : path -> list str -> source -> gmap path (list Z) -> list Z * gmap path (list Z)).

Definition run_builtin (a : action) (words : list str) : P unit :=
  s ← get;
  let '(o, f) := builtin a words (stdin (base s)) (files (base s)) in
  _ ← lift (modify (set_files f));
  print passed o.

Definition exec_prog (p : path) (words : list str) : P unit :=
  lift (modify (fun s => let '(o, f) := prog p words (stdin s) (files s) in emit o (set_files f s))).

Definition not_found : string := "cshell: command not found".

(** [execute_external(clean_args, clean_count, NULL, NULL)]: the shell waits for the program. *)
Definition run_external (words : list str) : P unit :=
  match words with
  | [] => mret tt
  | w :: ws =>
    match execute_external regx acc PATH w with
    | (1, _) => lift (modify (err not_found))
    | (_, None) => mret tt
    | (_, Some p) =>
      if fork_ok then exec_prog p ((if has_slash w then w else strip_percent w) :: ws)
      else lift (modify (err "fork"))
    end
  end.

(** [resume] and [ping] do nothing in a pipeline. *)
Definition run_action (words : list str) : P unit :=
  match dispatch (hd [] words) with
  | AExternal => run_external words
  | AResume | APing => mret tt
  | a => run_builtin a words
  end.

(** [execute_command]; the value is the exit status. *)
Definition execute_command (args : list str) : P Z :=
  s0 ← get;
  let restore := lift (modify (fun s => set_out (to_tmp (base s0)) (tmp s) s)) in
  let words := clean_args args in
  i ← lift (setup_input_redirection can_read tmp_ok rd args);
  if i =? -1 then _ ← restore; mret 1
  else
    o ← lift (setup_output_redirection can_write tmp_ok args);
    if o =? -1 then _ ← restore; mret 1
    else
      match words with
      | [] => _ ← restore; mret 1
      | _ =>
        _ ← run_action words;
        _ ← restore;
        _ ← (if o =? 1 then _ ← lift (distribute_output can_write rd wr args); mret tt else mret tt);
        mret 0
      end.

(** Which file the background child executes in place ([regx] throughout). *)
Definition bg_choice (cmd : str) : option path :=
  let name := strip_percent cmd in
  if has_slash name then Some name
  else if negb (is_percent cmd) && regx (local name) then Some (local name)
  else search_path regx name (path_dirs PATH).

(** [execute_command_bg]: without an input redirection it reads [/dev/null]; an external
    command replaces the child, so nothing is distributed after it. *)
Definition execute_command_bg (args : list str) : P Z :=
  s0 ← get;
  let restore := lift (modify (fun s => set_out (to_tmp (base s0)) (tmp s) s)) in
  let words := clean_args args in
  _ ← (if existsb (fun a => streq a op_lt) args then mret tt else lift (modify (set_stdin (Bytes []))));
  i ← lift (setup_input_redirection can_read tmp_ok rd args);
  if i =? -1 then _ ← restore; mret 1
  else
    o ← lift (setup_output_redirection can_write tmp_ok args);
    if o =? -1 then _ ← restore; mret 1
    else
      match words with
      | [] => _ ← restore; mret 1
      | w :: _ =>
        let finish :=
          _ ← restore;
          _ ← (if o =? 1 then _ ← lift (distribute_output can_write rd wr args); mret tt else mret tt);
          mret 0 in
        match dispatch w with
        | AExternal =>
          if check_external_exists regx acc PATH w then
            match bg_choice w with
            | Some p => _ ← exec_prog p words; mret 0
            | None => mret 1
            end
          else finish
        | _ => _ ← run_action words; finish
        end
      end.

(** ** A pipeline *)

(** One stage with its input: its output, the files it leaves and its exit status. *)
Definition stage (args : list str) (input : source) (fs : gmap path (list Z)) : res (list Z * gmap path (list Z) * Z) :=
  match execute_command args (mkP (mkSh fs input false [] [] []) []) with
  | Ret (st, s) => Ret (screen (base s), files (base s), st)
  | Panic e => Panic e
  | Undef e => Undef e
  end.

(** A child: the tokens of its command and [execute_command]. *)
Definition child (command : str) (input : source) (fs : gmap path (list Z)) : res (list Z * gmap path (list Z) * Z) :=
  match child_args command with
  | Ret (Some args) => stage args input fs
  | Ret None => Ret ([], fs, 1)
  | Panic e => Panic e
  | Undef e => Undef e
  end.

(** What has been written to the files, the inherited output and the pipes. *)
Record world := mkW { wfiles : gmap path (list Z); wscreen : list Z; wpipe : nat -> list Z }.

(** The input of a child with the table [t]; [others] are the tables of the processes that
    are not done. *)
Definition input_from (others : list fds) (t : fds) (inherited : source) (w : world) : res source :=
  match get_fd t 0 with
  | Some (PipeR j) =>
    if existsb (holds (PipeW j)) (t :: others) then Undef "the pipe never ends" else Ret (Bytes (wpipe w j))
  | Some (Std _) => Ret inherited
  | _ => Undef "standard input is not open for reading"
  end.

(** Where its output goes. *)
Definition output_to (others : list fds) (t : fds) (o : list Z) (w : world) : res world :=
  match get_fd t 1 with
  | Some (PipeW j) =>
    if existsb (holds (PipeR j)) others
    then Ret (mkW (wfiles w) (wscreen w) (fun k => if decide (k = j) then wpipe w k ++ o else wpipe w k))
    else Undef "SIGPIPE"
  | Some (Std _) => Ret (mkW (wfiles w) (wscreen w ++ o) (wpipe w))
  | _ => Undef "standard output is not open for writing"
  end.

(** The children in order, with the table of the parent that waits for them. *)
Fixpoint run_children (parent : fds) (l : list (str * fds)) (inherited : source) (w : world) : res world :=
  match l with
  | [] => Ret w
  | (c, t) :: l' =>
    let others := (snd <$> l') ++ [parent] in
    match input_from others t inherited w with
    | Ret src =>
      match child c src (wfiles w) with
      | Ret (o, fs, _) =>
        match output_to others t o (mkW fs (wscreen w) (wpipe w)) with
        | Ret w' => run_children parent l' inherited w'
        | Panic e => Panic e
        | Undef e => Undef e
        end
      | Panic e => Panic e
      | Undef e => Undef e
      end
    | Panic e => Panic e
    | Undef e => Undef e
    end
  end.

(** [execute_pipeline] when its calls of [pipe] and [fork] succeed, from a shell with the
    descriptors [t]: what it prints on the shell's output and the files it leaves. *)
Definition run_pipeline (line : str) (t : fds) (inherited : source) (fs : gmap path (list Z))
  : res (list Z * gmap path (list Z)) :=
  match split_pipeline line with
  | None => Ret ([], fs)
  | Some commands =>
    let n := length commands in
    let '(pipes, t1) := make_pipes (n - 1) 0 t in
    match run_children (close_pipes pipes t1) (imap (fun i c => (c, child_fds pipes n i t1)) commands) inherited
            (mkW fs [] (fun _ => [])) with
    | Ret w => Ret (wscreen w, wfiles w)
    | Panic e => Panic e
    | Undef e => Undef e
    end
  end.

(** ** What a stage does *)

(** The output and files of a command, as the specification sees it. *)
Definition effect (words : list str) (i : source) (fs : gmap path (list Z)) : list Z * gmap path (list Z) :=
  match dispatch (hd [] words) with
  | AExternal =>
    match words with
    | [] => ([], fs)
    | w :: ws =>
      match execute_external regx acc PATH w with
      | (0, Some p) => prog p ((if has_slash w then w else strip_percent w) :: ws) i fs
      | _ => ([], fs)
      end
    end
  | AResume | APing => ([], fs)
  | a => builtin a words i fs
  end.

Lemma emit_nil s : emit [] s = s.
Proof. destruct s as [f i [] t sc e]; unfold emit; cbn; by rewrite app_nil_r. Qed.

Definition no_err (words : list str) : Prop :=
  match dispatch (hd [] words) with AExternal => check_external_exists regx acc PATH (hd [] words) = true | _ => True end.

Lemma execute_external_found w : check_external_exists regx acc PATH w = true ->
  exists o, execute_external regx acc PATH w = (0, o).
Proof. intros H. unfold execute_external. rewrite H. by eexists. Qed.

Lemma run_action_effect words s : fork_ok = true -> words <> [] -> no_err words -> obuf s = [] ->
  comes_out passed words (effect words (stdin (base s)) (files (base s))).1 ->
  run_action words s =
    Ret (tt, mkP (let '(o, f) := effect words (stdin (base s)) (files (base s)) in emit o (set_files f (base s))) []).
Proof.
  intros Hf Hne Hok Hb Hc. destruct s as [b ob]. cbn in Hb. subst ob. destruct words as [|w ws]; [done|].
  unfold run_action, effect, no_err, comes_out in *. cbn [hd base] in *.
  assert (forall a, dispatch w = a -> a <> AExternal -> whole_lines (builtin a (w :: ws) (stdin b) (files b)).1 -> on_terminal passed ->
    run_builtin a (w :: ws) (mkP b []) =
    Ret (tt, mkP (let '(o, f) := builtin a (w :: ws) (stdin b) (files b) in emit o (set_files f b)) [])) as HB.
  { intros a Ea Na Hw Ht. unfold run_builtin. rewrite (M_bind_Ret _ _ _ _ _ eq_refl). cbn [base]. destruct (builtin a _ _ _) as [o f].
    rewrite (M_bind_Ret _ _ _ tt (mkP (set_files f b) [])) by done. by apply print_all. }
  destruct (dispatch w) eqn:Ed; try (destruct Hc as [|[Ht Hw]]; [done|]; by apply HB).
  - cbn. rewrite emit_nil. by destruct b.
  - cbn. rewrite emit_nil. by destruct b.
  - unfold run_external. destruct (execute_external_found w Hok) as [[p|] ->]; rewrite ?Hf.
    + unfold exec_prog, lift, modify. cbn [base obuf]. by destruct (prog p _ _ _).
    + cbn. rewrite emit_nil. by destruct b.
Qed.
End Child.

(** ** Theorems *)

Section Correct.
Context (can_read can_write : path -> bool) (rd : list Z -> Z -> Z -> Z) (wr : Z -> Z -> Z).
Context (regx acc : path -> bool) (PATH : option str) (passed : list Z -> nat).
Context (builtin : action -> list str -> source -> gmap path (list Z) -> list Z * gmap path (list Z)).
Context (prog : path -> list str -> source -> gmap path (list Z) -> list Z * gmap path (list Z)).
Context (Hrd : rd_fair rd) (Hwr : wr_fair wr).

Abbreviation command := (execute_command can_read can_write true rd wr regx acc PATH true passed builtin prog).
Abbreviation eff := (effect regx acc PATH builtin prog).

(** A simple command whose files can be opened and whose program exists. *)
Record runnable (fs : gmap path (list Z)) (items : list item) : Prop := {
  rn_items : Forall item_ok items;
  rn_words : words items <> [];
  rn_found : no_err regx acc PATH (words items);
  rn_ins : Forall (fun f => is_Some (fs !! f) /\ can_read f = true) (ins items);
  rn_outs : writable_all can_write (outs items)
}.

(** What a stage has to do: its input, and where its output goes. *)
Definition input_of (fs : gmap path (list Z)) (items : list item) (i : source) : source :=
  match ins items with [] => i | _ => Bytes (ins items ≫= fun f => default [] (fs !! f)) end.
Definition spec_stage (items : list item) (i : source) (fs : gmap path (list Z)) : list Z * gmap path (list Z) :=
  let '(o, fs') := eff (words items) (input_of fs items i) (fold_left (put_out []) (outs items) fs) in
  match outs items with [] => (o, fs') | _ => ([], fold_left (put_out o) (outs items) fs') end.

(** What the command of a stage prints. *)
Definition printed (items : list item) (i : source) (fs : gmap path (list Z)) : list Z :=
  (eff (words items) (input_of fs items i) (fold_left (put_out []) (outs items) fs)).1.

Lemma stage_run items i fs : runnable fs items -> comes_out passed (words items) (printed items i fs) ->
  stage can_read can_write true rd wr regx acc PATH true passed builtin prog (flatten items) i fs =
    Ret (spec_stage items i fs, 0).
Proof.
  intros [Hok Hne Hf Hin Hout] Hc. unfold printed in Hc. unfold stage, spec_stage, execute_command. set (s0 := mkSh fs i false [] [] []).
  rewrite (M_bind_Ret _ _ _ (mkP s0 []) _ eq_refl). rewrite clean_flatten by done.
  destruct (setup_input_ok can_read true rd Hrd s0 items eq_refl Hok Hin) as (st & Nst & Ei).
  rewrite (M_bind_Ret _ _ _ _ _ (lift_run _ (mkP s0 []) _ _ Ei)), (proj2 (Z.eqb_neq st (-1))) by done.
  change (match ins items with [] => stdin s0 | _ => Bytes (ins items ≫= content_of s0) end) with (input_of fs items i).
  set (src := input_of fs items i) in *. pose proof (setup_output_ok can_write true (set_stdin src s0) items eq_refl Hok Hout) as Eo.
  pose proof (fun s1 => distribute_ok can_write rd wr Hrd Hwr s1 items Hok Hout) as Ed.
  destruct (words items) as [|w ws] eqn:Ew; [done|].
  destruct (outs items) as [|t ts] eqn:Et.
  - rewrite (M_bind_Ret _ _ _ _ _ (lift_run _ (mkP (set_stdin src s0) []) _ _ Eo)). cbn [Z.eqb Pos.eqb fold_left].
    rewrite (M_bind_Ret _ _ _ _ _ (run_action_effect regx acc PATH true passed builtin prog (w :: ws) (mkP (set_stdin src s0) []) eq_refl (ltac:(done)) Hf eq_refl Hc)).
    cbn [base set_stdin stdin files s0]. by destruct (eff (w :: ws) src fs) as [o fs'].
  - rewrite (M_bind_Ret _ _ _ _ _ (lift_run _ (mkP (set_stdin src s0) []) _ _ Eo)). cbn [Z.eqb Pos.eqb].
    rewrite (M_bind_Ret _ _ _ _ _ (run_action_effect regx acc PATH true passed builtin prog (w :: ws)
      (mkP (set_out true [] (set_files (fold_left (put_out []) (t :: ts) fs) (set_stdin src s0))) []) eq_refl (ltac:(done)) Hf eq_refl Hc)).
    cbn [base set_stdin set_out set_files stdin files s0]. destruct (eff (w :: ws) src _) as [o fs'].
    rewrite (M_bind_Ret _ _ _ tt (mkP (mkSh fs' src false o [] []) [])) by done.
    rewrite (M_bind_Ret _ _ _ tt (mkP (set_files (fold_left (put_out o) (t :: ts) fs') (mkSh fs' src false o [] [])) [])); [done|].
    by rewrite (M_bind_Ret _ _ _ _ _ (lift_run _ (mkP (mkSh fs' src false o [] []) []) _ _ (Ed _))).
Qed.

Fixpoint spec_pipeline (l : list (list item)) (i : source) (fs : gmap path (list Z)) : list Z * gmap path (list Z) :=
  match l with
  | [] => ([], fs)
  | items :: l' =>
    let '(o, fs') := spec_stage items i fs in
    match l' with [] => (o, fs') | _ => spec_pipeline l' (Bytes o) fs' end
  end.

(** Every stage can run on the files the stages before leave, and what it prints comes out. *)
Fixpoint all_runnable (l : list (list item)) (i : source) (fs : gmap path (list Z)) : Prop :=
  match l with
  | [] => True
  | items :: l' =>
    runnable fs items /\ comes_out passed (words items) (printed items i fs) /\
    let '(o, fs') := spec_stage items i fs in all_runnable l' (Bytes o) fs'
  end.

Abbreviation child_of := (child can_read can_write true rd wr regx acc PATH true passed builtin prog).
Abbreviation children := (run_children can_read can_write true rd wr regx acc PATH true passed builtin prog).

Definition tokenized (c : str) (items : list item) : Prop := child_args c = Ret (Some (flatten items)).

Section Children.
Context (t : fds) (n : nat) (ps : list (nat * nat)) (t' : fds) (Ht : ready t) (Hp : piped n 0 t ps t').
Context (inherited : source).

Abbreviation tables := (fun i c => (c, child_fds ps (S n) i t')).
Abbreviation parent := (close_pipes ps t').

(** Nobody else keeps the write end of the pipe a child reads. *)
Lemma reads_end k (cs : list str) : (k <= n)%nat ->
  existsb (holds (PipeW (k - 1))) (child_fds ps (S n) k t' :: (snd <$> imap (fun i => tables (S k + i)%nat) cs) ++ [parent]) = false \/
  (n < k + length cs)%nat \/ k = 0%nat.
Proof.
  intros Hk. destruct (decide (n < k + length cs)%nat) as [|Hn]; [by right; left|].
  destruct (decide (k = 0)%nat) as [|N]; [by right; right|]. left.
  destruct (existsb _ _) eqn:E; [|done]. exfalso. apply existsb_exists in E as (x & [<-|Hx]%in_inv & Hh).
  { destruct (child_table t n ps t' Ht Hp k Hk) as (_ & _ & HW & _). destruct (HW _ Hh). lia. }
  apply in_app_or in Hx as [Hx|[<-|[]]].
  2:{ destruct (parent_table t n ps t' Ht Hp _ Hh) as [a Ha]. done. }
  apply list_elem_of_In, list_elem_of_fmap in Hx as ([c x'] & -> & Hx). apply list_elem_of_lookup in Hx as [m Hm].
  rewrite list_lookup_imap in Hm. destruct (cs !! m) eqn:Ec; [|done]. injection Hm as <- <-. apply lookup_lt_Some in Ec.
  destruct (child_table t n ps t' Ht Hp (S k + m)%nat ltac:(lia)) as (_ & _ & HW & _). destruct (HW _ Hh). lia.
Qed.

Lemma children_run l : forall k cs w, Forall2 tokenized cs l -> (k + length cs = S n)%nat ->
  let src := match k with O => inherited | S k' => Bytes (wpipe w k') end in
  (forall j, (k <= j)%nat -> wpipe w j = []) ->
  all_runnable l src (wfiles w) ->
  exists p, children parent (imap (fun i => tables (k + i)%nat) cs) inherited w =
    Ret (mkW (spec_pipeline l src (wfiles w)).2 (wscreen w ++ (spec_pipeline l src (wfiles w)).1) p).
Proof.
  induction l as [|items l IH]; intros k cs w HF Hn src He Hr.
  { apply Forall2_nil_inv_r in HF as ->. exists (wpipe w). cbn. rewrite app_nil_r. by destruct w. }
  apply Forall2_cons_inv_r in HF as (c & cs' & Hc & HF & ->). cbn [length] in Hn.
  destruct (child_table t n ps t' Ht Hp k ltac:(lia)) as (T0 & T1 & _ & _).
  destruct Hr as (Hrun & Hout & Hr). cbn [imap run_children]. rewrite Nat.add_0_r.
  assert (imap ((fun i => tables (k + i)%nat) ∘ S) cs' = imap (fun i => tables (S k + i)%nat) cs') as Eshift.
  { apply imap_ext. intros i x _. cbn. by rewrite Nat.add_succ_r. }
  rewrite Eshift. clear Eshift. set (others := (snd <$> imap (fun i => tables (S k + i)%nat) cs') ++ [parent]).
  assert (input_from others (child_fds ps (S n) k t') inherited w = Ret src) as ->.
  { unfold input_from, src. destruct k as [|k]; [destruct T0 as [a ->]; done|]. rewrite T0.
    destruct (reads_end (S k) cs' ltac:(lia)) as [E|[?|?]]; [|lia|done]. unfold others. cbn [Nat.sub] in E. rewrite Nat.sub_0_r in E.
    by rewrite E. }
  unfold child. rewrite Hc. rewrite stage_run by done. cbn [spec_pipeline].
  destruct (spec_stage items src (wfiles w)) as [o fs'] eqn:Es. cbn [fst snd].
  destruct (Nat.ltb_spec k n) as [L|L].
  - destruct l as [|items' l].
    { apply Forall2_nil_inv_r in HF as ->. cbn in Hn. lia. }
    unfold output_to. rewrite T1.
    assert (existsb (holds (PipeR k)) others = true) as ->.
    { apply existsb_exists. destruct cs' as [|c' cs'']; [cbn in Hn; lia|]. exists (child_fds ps (S n) (S k) t').
      split; [left; cbn; by rewrite Nat.add_0_r|]. destruct (child_table t n ps t' Ht Hp (S k) ltac:(lia)) as (_ & _ & _ & HR). by apply HR. }
    set (w' := mkW fs' (wscreen w) (fun k0 => if decide (k0 = k) then wpipe w k0 ++ o else wpipe w k0)).
    assert (wpipe w' k = o) as Ek by (cbn; rewrite decide_True by done; by rewrite (He k) by lia).
    destruct (IH (S k) cs' w' HF ltac:(lia)) as (p & E).
    + intros j Hj. cbn. rewrite decide_False by lia. apply He. lia.
    + rewrite Ek. exact Hr.
    + exists p. rewrite Ek in E. exact E.
  - assert (cs' = []) as -> by (destruct cs'; [done|cbn in Hn; lia]). apply Forall2_nil_inv_l in HF as ->.
    unfold output_to. destruct T1 as [b ->]. cbn. eexists. done.
Qed.
End Children.
End Correct.


(** A shell whose output is not a terminal: what a builtin prints in a pipeline is still in the
    buffer of [stdout] when the child calls [_exit], and is lost. *)
Theorem builtin_output_lost can_read can_write rd wr regx acc PATH passed builtin prog w ws i fs :
  passed (builtin (dispatch w) (w :: ws) i fs).1 = 0%nat -> Forall (fun a => is_op a = false) (w :: ws) ->
  dispatch w <> AExternal -> dispatch w <> AResume -> dispatch w <> APing ->
  stage can_read can_write true rd wr regx acc PATH true passed builtin prog (w :: ws) i fs =
    Ret ([], (builtin (dispatch w) (w :: ws) i fs).2, 0).
Proof.
  intros Hp Hw N1 N2 N3. set (items := IWord <$> (w :: ws)).
  assert (flatten items = w :: ws /\ words items = w :: ws /\ ins items = [] /\ outs items = []) as (E1 & E2 & E3 & E4).
  { unfold items. clear. induction (w :: ws) as [|x l (H1 & H2 & H3 & H4)]; [done|].
    cbn in *. unfold flatten, words in *. cbn. by rewrite H1, H2. }
  assert (Forall item_ok items) as Hok by (unfold items; by apply list.Forall_fmap).
  unfold stage, execute_command. set (s0 := mkSh fs i false [] [] []). rewrite (M_bind_Ret _ _ _ (mkP s0 []) _ eq_refl).
  assert (input_loop can_read true rd (w :: ws) None s0 = Ret ((0, None), s0)) as Ei.
  { clear -Hw. induction Hw as [|x l Hx _ IH]; [done|]. cbn [input_loop]. rewrite (proj1 (is_op_false _ Hx)). exact IH. }
  rewrite (M_bind_Ret _ _ _ 0 (mkP s0 [])).
  2:{ apply lift_run. unfold setup_input_redirection. by rewrite (M_bind_Ret _ _ _ _ _ Ei). }
  cbn [Z.eqb]. rewrite (M_bind_Ret _ _ _ 0 (mkP s0 [])).
  2:{ apply lift_run. rewrite <- E1. rewrite setup_output_ok; [by rewrite E4|done|done|rewrite E4; constructor]. }
  assert (clean_args (w :: ws) = w :: ws) as -> by (rewrite <- E1 at 1; by rewrite clean_flatten, E2). cbn [Z.eqb]. unfold run_action. cbn [hd].
  assert (forall a, a = dispatch w -> run_builtin passed builtin a (w :: ws) (mkP s0 []) =
    Ret (tt, mkP (set_files (builtin a (w :: ws) i fs).2 s0) (builtin a (w :: ws) i fs).1)) as HB.
  { intros a ->. unfold run_builtin. rewrite (M_bind_Ret _ _ _ _ _ eq_refl). cbn [base s0 stdin files].
    destruct (builtin (dispatch w) (w :: ws) i fs) as [o f]. cbn [fst snd] in *. rewrite (M_bind_Ret _ _ _ tt (mkP (set_files f s0) [])) by done.
    unfold print, modify. cbn [obuf base app]. by rewrite Hp, take_0, drop_0, emit_nil. }
  destruct (dispatch w) eqn:Ed; try done; by rewrite (M_bind_Ret _ _ _ _ _ (HB _ eq_refl)).
Qed.

(** ** Witnesses *)

Definition ex_builtin (a : action) (w : list str) (i : source) (fs : gmap path (list Z)) : list Z * gmap path (list Z) :=
  (bytes "a" ++ [10], fs).
Definition ex_prog (p : path) (w : list str) (i : source) (fs : gmap path (list Z)) : list Z * gmap path (list Z) :=
  (match i with Bytes l => rev l | Inherited => [] end, fs).


Lemma builtin_output_lost_witness :
  stage (fun _ => true) (fun _ => true) true ex_rd ex_wr (fun _ => true) (fun _ => true) None true (fun _ => O) ex_builtin ex_prog
    [bytes "reveal"; bytes "-a"] Inherited ∅ = Ret ([], ∅, 0).
Proof.
  apply (builtin_output_lost (fun _ => true) (fun _ => true) ex_rd ex_wr (fun _ => true) (fun _ => true) None (fun _ => O)
    ex_builtin ex_prog (bytes "reveal") [bytes "-a"] Inherited ∅); [reflexivity|by repeat constructor|discriminate|discriminate|discriminate].
Defined.
