(* ===== verification/Reveal.v ===== *)
(** * The builtin [reveal]: [c-shell/src/reveal.c]

    [readdir p] are the names of directory [p] in the order the system returns them ([None] when
    it cannot be opened), [is_dir p] whether [stat] says that [p] is a directory. *)

From stdpp Require Import sorting.
From S2P Require Import Prelude ShLexer ShRedir ShJobs ShMain ShExec.

(** ** The code *)

(** [cmp_func(a, b) <= 0]: bytes compared as [strcmp] does. *)
Fixpoint str_le (a b : str) : bool :=
  match a, b with
  | [], _ => true
  | _ :: _, [] => false
  | x :: a', y :: b' => (x <? y) || ((x =? y) && str_le a' b')
  end.
Definition sle (a b : str) : Prop := str_le a b = true.
#[global] Instance sle_dec a b : Decision (sle a b).
Proof. unfold sle. apply _. Defined.

(** What has been printed, on standard output and standard error. *)
Record out := mkOut { printed : list Z; complaints : list string }.
Definition say (l : list Z) : M out unit := modify (fun s => mkOut (printed s ++ l) (complaints s)).
Definition complain (e : string) : M out unit := modify (fun s => mkOut (printed s) (complaints s ++ [e])).

Definition dot : str := [chDOT].
Definition dotdot : str := [chDOT; chDOT].
Definition hidden (n : str) : bool := match n with c :: _ => c =? chDOT | [] => false end.
(** [snprintf(buf, 4096, "%s%s/", prefix, name)] *)
Definition sub_prefix (prefix name : str) : str := take (Z.to_nat 4095) (prefix ++ name ++ [chSLASH]).
Definition line (prefix name : str) (d : bool) : list Z := prefix ++ name ++ (if d then [chSLASH] else []) ++ [10].

Section Reveal.
Context (readdir : path -> option (list str)) (is_dir : path -> bool) (show_hidden is_recursive : bool).

(** The loop over the sorted names; [rec] is the recursive call. *)
Fixpoint entries (rec : path -> str -> M out unit) (p prefix : str) (names : list str) : M out unit :=
  match names with
  | [] => mret tt
  | n :: names' =>
    _ ← (if negb show_hidden && hidden n then mret tt
         else
           let new_path := in_dir 4096 p n in
           let d := is_dir new_path in
           _ ← say (line prefix n d);
           if is_recursive && d && negb (streq n dot) && negb (streq n dotdot) then rec new_path (sub_prefix prefix n)
           else mret tt);
    entries rec p prefix names'
  end.

Fixpoint reveal_dir (fuel : nat) (p prefix : str) : M out unit :=
  match fuel with
  | O => undef "out of fuel"
  | S fuel' =>
    match readdir p with
    | None => complain "reveal: no such directory"
    | Some names =>
      if 4096 <? Z.of_nat (length names) then undef "reveal_dir: buffer overflow"
      else entries (reveal_dir fuel') p prefix (merge_sort sle names)
    end
  end.
End Reveal.

(** The letters of one argument that starts with a minus. *)
Fixpoint flag_letters (l : str) (a t : bool) : option (bool * bool) :=
  match l with
  | [] => Some (a, t)
  | c :: l' => if c =? 97 then flag_letters l' true t else if c =? 116 then flag_letters l' a true else None
  end.

(** [args\[arg\]\[0\] == '-' && strlen(args\[arg\]) > 1] *)
Definition is_flags (w : str) : bool := match w with c :: _ :: _ => c =? chMINUS | _ => false end.

(** The loop over the arguments after the name: the two flags and the target, or a syntax error. *)
Fixpoint options (args : list str) (a t : bool) (target : str) : option (bool * bool * str) :=
  match args with
  | [] => Some (a, t, target)
  | w :: args' =>
    if is_flags w then
      match flag_letters (tail w) a t with
      | Some (a', t') => options args' a' t' target
      | None => None
      end
    else if streq target dot then options args' a t w else None
  end.

(** A path has at most 4095 bytes and every level adds two, so 2048 levels are enough. *)
Definition execute_reveal (readdir : path -> option (list str)) (is_dir : path -> bool)
    (shell_home prev_dir : str) (args : list str) : M out unit :=
  match options args false false dot with
  | None => complain "reveal: invalid syntax"
  | Some (a, t, target) =>
    if streq target [126] then reveal_dir readdir is_dir a t (Z.to_nat 2048) shell_home []
    else if streq target [chMINUS] then
      match prev_dir with
      | [] => complain "reveal: no such directory"
      | _ => reveal_dir readdir is_dir a t (Z.to_nat 2048) prev_dir []
      end
    else reveal_dir readdir is_dir a t (Z.to_nat 2048) target []
  end.

(** ** Directories as trees *)

(** What a directory holds; [NDot] is one of its entries [.] and [..]. *)
Inductive node := NFile | NDot | NDir (l : list (str * node)).
Definition dirlike (c : node) : bool := match c with NFile => false | _ => true end.

(** The specification: every visible entry once, in the order of names, a directory with a
    slash and, if asked for, followed by its own entries. *)
Fixpoint listing (a t : bool) (prefix : str) (c : node) : list Z :=
  match c with
  | NDir l =>
    (fix go (l : list (str * node)) : list Z :=
      match l with
      | [] => []
      | (n, c') :: l' =>
        (if negb a && hidden n then []
         else line prefix n (dirlike c') ++ (if t then listing a t (prefix ++ n ++ [chSLASH]) c' else [])) ++ go l'
      end) l
  | _ => []
  end.

Section Spec.
Context (readdir : path -> option (list str)) (is_dir : path -> bool) (a t : bool).

(** Directory [p] of the system is the tree [c]: names come in any order, paths fit in the
    buffers, and only [.] and [..] lead elsewhere. *)
Inductive hosts : path -> node -> Prop :=
| hosts_dir p l names : readdir p = Some names -> names ≡ₚ l.*1 -> Z.of_nat (length names) <= 4096 -> Sorted sle l.*1 ->
    (forall n c, (n, c) ∈ l -> n <> [] /\ Z.of_nat (length p) + Z.of_nat (length n) < 4095 /\ is_dir (p ++ chSLASH :: n) = dirlike c /\
       (c = NDot <-> n = dot \/ n = dotdot)) ->
    (forall n l', (n, NDir l') ∈ l -> hosts (p ++ chSLASH :: n) (NDir l')) ->
    hosts p (NDir l).

Lemma str_le_antisym x : forall y, str_le x y = true -> str_le y x = true -> x = y.
Proof.
  induction x as [|c x IH]; intros [|d y] H1 H2; try done. cbn in *. destruct (Z.ltb_spec c d), (Z.ltb_spec d c); try lia;
    destruct (Z.eqb_spec c d); try lia; cbn in *; try done. subst. f_equal. apply IH; [done|]. by rewrite Z.eqb_refl in H2.
Qed.
Lemma str_le_total x : forall y, str_le x y = true \/ str_le y x = true.
Proof.
  induction x as [|c x IH]; intros [|d y]; cbn; try (by auto). destruct (Z.ltb_spec c d), (Z.ltb_spec d c); cbn; try (by auto).
  assert (c = d) as -> by lia. rewrite Z.eqb_refl. apply IH.
Qed.
Lemma str_le_trans x : forall y z, str_le x y = true -> str_le y z = true -> str_le x z = true.
Proof.
  induction x as [|c x IH]; intros [|d y] [|e z] H1 H2; try done. cbn in *.
  destruct (Z.ltb_spec c e); [done|]. destruct (Z.ltb_spec c d), (Z.ltb_spec d e); try lia;
    destruct (Z.eqb_spec c d), (Z.eqb_spec d e), (Z.eqb_spec c e); try lia; cbn in *; try done. by apply (IH y).
Qed.
#[local] Instance sle_total : Total sle.
Proof. intros x y. apply str_le_total. Qed.
#[local] Instance sle_trans : Transitive sle.
Proof. intros x y z. apply str_le_trans. Qed.
#[local] Instance sle_antisym : AntiSymm (=) sle.
Proof. intros x y. apply str_le_antisym. Qed.

Lemma sort_names names l : names ≡ₚ l -> Sorted sle l -> merge_sort sle names = l.
Proof.
  intros E H. apply (Sorted_unique sle); [by apply Sorted_merge_sort; apply _|done|]. by rewrite merge_sort_Permutation.
Qed.

Lemma in_dir_fits p n : Z.of_nat (length p) + Z.of_nat (length n) < 4095 -> in_dir 4096 p n = p ++ chSLASH :: n.
Proof. intros H. unfold in_dir. apply take_ge. rewrite length_app. cbn [length]. lia. Qed.

Definition more (l : list Z) (s : out) : out := mkOut (printed s ++ l) (complaints s).
Lemma more_more x y s : more x (more y s) = more (y ++ x) s.
Proof. unfold more. cbn. by rewrite app_assoc. Qed.
Lemma more_nil s : more [] s = s.
Proof. unfold more. rewrite app_nil_r. by destruct s. Qed.

Lemma reveal_dir_lists p c : hosts p c -> forall prefix fuel s, (length prefix <= length p)%nat -> Z.of_nat (length p) < 4096 ->
  4096 <= Z.of_nat (length p) + 2 * Z.of_nat fuel ->
  reveal_dir readdir is_dir a t fuel p prefix s = Ret (tt, more (listing a t prefix c) s).
Proof.
  induction 1 as [p l names Hn Hp Hl Hs Hc _ IH]; intros prefix fuel s Hpre Hp4 Hf. destruct fuel as [|fuel]; [lia|].
  cbn [reveal_dir]. rewrite Hn, (proj2 (Z.ltb_ge _ _) Hl), (sort_names names l.*1) by done. clear Hn Hp Hs Hl names.
  revert s. induction l as [|[n c] l IHl]; intros s; [by rewrite more_nil|].
  cbn [fmap list_fmap fst entries listing]. fold (listing a t).
  assert (forall s, entries is_dir a t (reveal_dir readdir is_dir a t fuel) p prefix l.*1 s = Ret (tt, more (listing a t prefix (NDir l)) s)) as Hrest.
  { apply IHl; [intros m d Hm; apply Hc, elem_of_cons; by right|intros m l' Hm; apply (IH m l'), elem_of_cons; by right]. }
  destruct (Hc n c (proj2 (elem_of_cons _ _ _) (or_introl eq_refl))) as (Hne & Hlen & Hd & Hdot). rewrite in_dir_fits by done. rewrite Hd.
  destruct (negb a && hidden n); [rewrite (M_bind_Ret _ _ s tt s) by done; apply Hrest|].
  rewrite (M_bind_Ret _ _ s tt (more (line prefix n (dirlike c) ++ (if t then listing a t (prefix ++ n ++ [chSLASH]) c else [])) s)).
  { rewrite Hrest, more_more. done. }
  rewrite (M_bind_Ret _ _ s tt (more (line prefix n (dirlike c)) s)) by done.
  destruct t; [|by rewrite app_nil_r]. destruct c as [| |l']; cbn [dirlike andb]; [by rewrite app_nil_r| |].
  - destruct (proj1 Hdot eq_refl) as [-> | ->]; cbn; by rewrite app_nil_r.
  - assert (streq n dot = false /\ streq n dotdot = false) as [-> ->].
    { split; apply bool_decide_eq_false; intros E; assert (NDir l' = NDot) by (apply Hdot; auto); done. }
    cbn [negb andb]. assert (sub_prefix prefix n = prefix ++ n ++ [chSLASH]) as ->.
    { unfold sub_prefix. apply take_ge. rewrite !length_app. cbn [length]. lia. }
    rewrite (IH n l'); [by rewrite more_more|apply elem_of_cons; by left| | |].
    + rewrite !length_app. cbn [length]. lia.
    + rewrite length_app. cbn [length]. lia.
    + rewrite length_app. destruct n; [done|]. cbn [length] in *. lia.
Qed.
End Spec.

(** ** Options *)

Definition letters (args : list str) : list Z := filter (fun w => is_flags w = true) args ≫= tail.
Definition targets (args : list str) : list str := filter (fun w => is_flags w = false) args.

Lemma flag_letters_ok l : forall a t, Forall (fun c => c = 97 \/ c = 116) l ->
  flag_letters l a t = Some (a || bool_decide (97 ∈ l), t || bool_decide (116 ∈ l)).
Proof.
  induction l as [|c l IH]; intros a t H; cbn [flag_letters].
  { rewrite !(bool_decide_false _ (not_elem_of_nil _)), !orb_false_r. done. }
  apply list.Forall_cons in H as [[-> | ->] H]; cbn [Z.eqb Pos.eqb]; rewrite IH by done; do 2 f_equal.
  - rewrite (bool_decide_true (97 ∈ 97 :: l)) by (apply elem_of_cons; by left). by rewrite orb_true_r.
  - f_equal. apply bool_decide_ext. rewrite elem_of_cons. by split; [right|intros [?|?]].
  - f_equal. apply bool_decide_ext. rewrite elem_of_cons. by split; [right|intros [?|?]].
  - rewrite (bool_decide_true (116 ∈ 116 :: l)) by (apply elem_of_cons; by left). by rewrite orb_true_r.
Qed.

Lemma in_app_dec (x : Z) l k a : a || bool_decide (x ∈ l) || bool_decide (x ∈ k) = a || bool_decide (x ∈ l ++ k).
Proof.
  rewrite <- orb_assoc. f_equal. destruct (bool_decide_reflect (x ∈ l ++ k)) as [H|H]; rewrite elem_of_app in H.
  - destruct H; [by rewrite (bool_decide_true (x ∈ l))|by rewrite (bool_decide_true (x ∈ k)), orb_true_r].
  - by rewrite !bool_decide_false by tauto.
Qed.

(** The options of any number of flag words in any place and at most one target. *)
Lemma options_ok args : forall a t target, Forall (fun c => c = 97 \/ c = 116) (letters args) ->
  targets args = [] \/ (target = dot /\ exists w, targets args = [w]) ->
  options args a t target =
    Some (a || bool_decide (97 ∈ letters args), t || bool_decide (116 ∈ letters args),
          match targets args with w :: _ => w | [] => target end).
Proof.
  induction args as [|w args IH]; intros a t target Hl Ht; cbn [options].
  { change (letters []) with (@nil Z). rewrite !(bool_decide_false _ (not_elem_of_nil _)), !orb_false_r. done. }
  unfold letters, targets in *. destruct (is_flags w) eqn:Ew.
  - rewrite list.filter_cons_True in * by done. rewrite (list.filter_cons_False _ w args) in * by (by rewrite Ew).
    rewrite bind_cons in *. apply Forall_app in Hl as [Hl1 Hl2]. rewrite flag_letters_ok by done. rewrite IH by done.
    by rewrite !in_app_dec.
  - rewrite (list.filter_cons_False _ w args) in * by (by rewrite Ew). rewrite (list.filter_cons_True _ w args) in * by done.
    destruct Ht as [|[-> [w' E]]]; [done|]. injection E as <- E. change (streq dot dot) with true. cbv iota.
    rewrite IH; [by rewrite E|done|by left].
Qed.

(** Where the listing starts. *)
Definition resolve (home prev : str) (targets : list str) : str :=
  match targets with
  | [] => dot
  | w :: _ => if streq w [126] then home else if streq w [chMINUS] then prev else w
  end.

(** C32: [reveal] with valid options prints the listing of the directory asked for: every entry once,
    sorted by name, hidden ones only with [a], subdirectories after their own line
    with [t]; nothing goes to standard error. *)
Theorem reveal_correct readdir is_dir home prev args c s :
  Forall (fun x => x = 97 \/ x = 116) (letters args) -> (length (targets args) <= 1)%nat ->
  (targets args = [[chMINUS]] -> prev <> []) ->
  hosts readdir is_dir (resolve home prev (targets args)) c -> Z.of_nat (length (resolve home prev (targets args))) < 4096 ->
  execute_reveal readdir is_dir home prev args s =
    Ret (tt, mkOut (printed s ++ listing (bool_decide (97 ∈ letters args)) (bool_decide (116 ∈ letters args)) [] c) (complaints s)).
Proof.
  intros Hl Ht Hprev Hh Hlen. unfold execute_reveal. rewrite options_ok; [|done|].
  2:{ destruct (targets args) as [|w [|? ?]]; [by left|right; split; [done|by exists w]|cbn in Ht; lia]. }
  cbn [orb]. set (a := bool_decide (97 ∈ _)). set (t := bool_decide (116 ∈ _)).
  pose proof (fun p H0 H1 => reveal_dir_lists readdir is_dir a t p c H0 [] (Z.to_nat 2048) s (Nat.le_0_l _) H1 ltac:(lia)) as R. unfold resolve, more in *.
  destruct (targets args) as [|w ws].
  - change (streq dot [126]) with false. change (streq dot [chMINUS]) with false. cbv iota. by apply R.
  - assert (ws = []) as -> by (destruct ws; [done|cbn in Ht; lia]).
    destruct (streq w [126]); [by apply R|]. unfold streq in *.
    destruct (bool_decide_reflect (w = [chMINUS])) as [->|]; [|by apply R].
    specialize (Hprev eq_refl). destruct prev as [|x prev]; [done|]. by apply R.
Qed.

(** A letter other than [a] and [t] is refused before anything is printed. *)
Theorem reveal_refuses readdir is_dir home prev args s :
  ~ Forall (fun x => x = 97 \/ x = 116) (letters args) ->
  execute_reveal readdir is_dir home prev args s = Ret (tt, mkOut (printed s) (complaints s ++ ["reveal: invalid syntax"%string])).
Proof.
  intros H. unfold execute_reveal. assert (forall a t target, options args a t target = None) as E; [|by rewrite E].
  induction args as [|w args IH]; intros a t target.
  { destruct H. constructor. }
  cbn [options]. unfold letters in *. destruct (is_flags w) eqn:Ew.
  - rewrite list.filter_cons_True in H by done. rewrite bind_cons in H.
    destruct (decide (Forall (fun x => x = 97 \/ x = 116) (tail w))) as [Hw|Hw].
    + rewrite flag_letters_ok by done. apply IH. intros H'. apply H. by apply Forall_app.
    + assert (flag_letters (tail w) a t = None) as ->; [|done]. clear -Hw. revert a t. induction (tail w) as [|c l IHl]; intros a t.
      { destruct Hw. constructor. }
      cbn. destruct (Z.eqb_spec c 97) as [->|]; [apply IHl; intros H; apply Hw; constructor; auto|].
      destruct (Z.eqb_spec c 116) as [->|]; [apply IHl; intros H; apply Hw; constructor; auto|done].
  - rewrite list.filter_cons_False in H by (by rewrite Ew). destruct (streq target dot); [by apply IH|done].
Qed.

(** ** Witnesses *)

(** A directory with a file, a subdirectory and a hidden file. *)
Definition ex_readdir (p : path) : option (list str) :=
  if streq p dot then Some [bytes "src"; bytes "."; bytes "a.c"; bytes ".git"; bytes ".."]
  else if streq p (bytes "./src") then Some [bytes "m.c"; bytes ".."; bytes "."] else None.
Definition ex_is_dir (p : path) : bool :=
  negb (streq p (bytes "./a.c") || streq p (bytes "./.git") || streq p (bytes "./src/m.c")).
Definition ex_sub : list (str * node) := [(bytes ".", NDot); (bytes "..", NDot); (bytes "m.c", NFile)].
Definition ex_tree : node :=
  NDir [(bytes ".", NDot); (bytes "..", NDot); (bytes ".git", NFile); (bytes "a.c", NFile); (bytes "src", NDir ex_sub)].

Lemma ex_hosts : hosts ex_readdir ex_is_dir dot ex_tree.
Proof.
  assert (hosts ex_readdir ex_is_dir (bytes "./src") (NDir ex_sub)) as Hs.
  { eapply hosts_dir; [reflexivity|by apply (bool_decide_unpack _)|cbn; lia|by apply (bool_decide_unpack _)| |].
    - intros n c Hn. unfold ex_sub in Hn. rewrite !elem_of_cons, elem_of_nil in Hn.
      destruct Hn as [[= -> ->]|[[= -> ->]|[[= -> ->]|[]]]]; (split; [done|split; [cbn; lia|split; [reflexivity|]]]);
        split; try (by auto); intros [?|?]; done.
    - intros n l Hn. unfold ex_sub in Hn. rewrite !elem_of_cons, elem_of_nil in Hn. naive_solver. }
  eapply hosts_dir; [reflexivity|by apply (bool_decide_unpack _)|cbn; lia|by apply (bool_decide_unpack _)| |].
  - intros n c Hn. rewrite !elem_of_cons, elem_of_nil in Hn.
    destruct Hn as [[= -> ->]|[[= -> ->]|[[= -> ->]|[[= -> ->]|[[= -> ->]|[]]]]]]; (split; [done|split; [cbn; lia|split; [reflexivity|]]]);
      split; try (by auto); intros [?|?]; done.
  - intros n l Hn. rewrite !elem_of_cons, elem_of_nil in Hn.
    destruct Hn as [[=]|[[=]|[[=]|[[=]|[[= -> ->]|[]]]]]]. exact Hs.
Qed.

Lemma reveal_correct_witness :
  execute_reveal ex_readdir ex_is_dir [] [] [bytes "-t"] (mkOut [] []) =
    Ret (tt, mkOut (bytes "a.c" ++ [10] ++ bytes "src/" ++ [10] ++ bytes "src/m.c" ++ [10]) []).
Proof.
  refine (eq_trans (reveal_correct ex_readdir ex_is_dir [] [] [bytes "-t"] ex_tree (mkOut [] []) _ _ _ ex_hosts _) _).
  - apply (bool_decide_unpack _). vm_compute. exact I.
  - vm_compute. lia.
  - discriminate.
  - reflexivity.
  - reflexivity.
Defined.
