(* ===== verification/ShHop.v ===== *)
(** * Changing directory: [c-shell/src/hop.c], and the prompt: [c-shell/src/prompt.c]

    The history file is text, written with [fprintf] and read back with [fscanf].
    [chdir] is a parameter: from the current directory and a path to the directory
    entered, if it can be.  [exists] stands for [access(path, F_OK)]. *)

From S2P Require Import Prelude ShLexer ShRedir ShJobs.

(** [FrecencyEntry] *)
Record entry := mkE { frequency : Z; recency : Z; epath : str }.

(** ** Text of the history *)

(** ["%d"] of a number that is not negative. *)
Fixpoint dec_loop (fuel : nat) (n : Z) (acc : str) : str :=
  match fuel with
  | O => acc
  | S fuel' => if n <? 10 then (48 + n) :: acc else dec_loop fuel' (n / 10) ((48 + n mod 10) :: acc)
  end.
Definition dec (n : Z) : str := if n <? 0 then chMINUS :: dec_loop 20 (- n) [] else dec_loop 20 n [].

(** [fprintf(fptr, "%d %ld %s\n", ...)] *)
Definition print_entry (e : entry) : str :=
  dec (frequency e) ++ chSPACE :: dec (recency e) ++ chSPACE :: epath e ++ [chNL].

Fixpoint scan_digits (n : Z) (s : str) : Z * str :=
  match s with c :: s' => if is_digit c then scan_digits (10 * n + (c - 48)) s' else (n, s) | [] => (n, []) end.
(** ["%d"]: blanks, a sign, at least one digit. *)
Definition scan_int (s : str) : option (Z * str) :=
  let s := skip_blanks s in
  let '(neg, s) := match s with 45 :: s' => (true, s') | 43 :: s' => (false, s') | _ => (false, s) end in
  match s with
  | c :: _ => if is_digit c then let '(v, r) := scan_digits 0 s in Some (if (neg : bool) then - v else v, r) else None
  | [] => None
  end.
(** ["%[^\n]"]: at least one character. *)
Fixpoint to_newline (s : str) : str * str :=
  match s with
  | c :: s' => if c =? chNL then ([], s) else let '(l, r) := to_newline s' in (c :: l, r)
  | [] => ([], [])
  end.

(** [fscanf(fptr, "%d %ld %[^\n]", ...) == 3] *)
Definition scan_entry (s : str) : option (entry * str) :=
  match scan_int s with
  | Some (f, s) =>
    match scan_int s with
    | Some (r, s) =>
      match to_newline (skip_blanks s) with
      | ([], _) => None
      | (p, s) => Some (mkE f r p, s)
      end
    | None => None
    end
  | None => None
  end.

(** The reading loop, at most [n] entries. *)
Fixpoint read_entries (n : nat) (s : str) : list entry :=
  match n with
  | O => []
  | S n' => match scan_entry s with Some (e, s') => e :: read_entries n' s' | None => [] end
  end.

Definition MAX_ENTRIES : nat := 64%nat.

(** The loop that looks for [new_path], then the new entry. *)
Fixpoint bump (l : list entry) (new_path : str) (now : Z) : option (list entry) :=
  match l with
  | [] => None
  | e :: l' =>
    if streq (epath e) new_path then Some (mkE (frequency e + 1) now (epath e) :: l')
    else match bump l' new_path now with Some l'' => Some (e :: l'') | None => None end
  end.
Definition update_entries (l : list entry) (new_path : str) (now : Z) : list entry :=
  match bump l new_path now with
  | Some l' => l'
  | None => if (length l <? MAX_ENTRIES)%nat then l ++ [mkE 1 now new_path] else l
  end.

(** [update_frecency] on the text of the file ([None] if there is none); [writable]
    is whether it can be opened for writing. *)
Definition update_frecency (writable : bool) (file : option str) (new_path : str) (now : Z) : option str :=
  let l := match file with Some t => read_entries MAX_ENTRIES t | None => [] end in
  if writable then Some (update_entries l new_path now ≫= print_entry) else file.

(** ** Search *)

(** [strstr(path, target) != NULL] *)
Fixpoint prefixb (a b : str) : bool :=
  match a, b with [], _ => true | x :: a', y :: b' => (x =? y) && prefixb a' b' | _, [] => false end.
Fixpoint strstr (s target : str) : bool :=
  prefixb target s || match s with [] => false | _ :: s' => strstr s' target end.

Section Hop.
Context (exists_ : str -> bool) (chdir : str -> str -> option str).

Definition score (e : entry) : Z := frequency e * 10000000 + recency e.
Definition eligible (target : str) (e : entry) : bool := strstr (epath e) target && exists_ (epath e).

(** The loop over the file; there is no limit of 64 here. *)
Fixpoint search_loop (l : list entry) (target : str) (best : option str) (best_score : Z) : option str * Z :=
  match l with
  | [] => (best, best_score)
  | e :: l' =>
    if eligible target e && (best_score <? score e) then search_loop l' target (Some (epath e)) (score e)
    else search_loop l' target best best_score
  end.
Definition search_frecency (file : option str) (target : str) : option str :=
  match file with
  | None => None
  | Some t =>
    let '(best, best_score) := search_loop (read_entries (length t) t) target None (-1) in
    if best_score =? -1 then None else best
  end.

(** ** [execute_hop] *)

Record hst := mkH { cwd : str; prev_dir : str; file : option str; errors : nat }.

Context (shell_home : str) (writable : bool) (now : Z).

(** After [chdir]: [None] is a failure. *)
Definition arrive (s : hst) (r : option str) : hst :=
  match r with
  | Some d => mkH d (cwd s) (update_frecency writable (file s) d now) (errors s)
  | None => mkH (cwd s) (prev_dir s) (file s) (S (errors s))
  end.

Definition hop_arg (s : hst) (a : str) : hst :=
  if streq a (bytes "~") then arrive s (chdir (cwd s) shell_home)
  else if streq a (bytes "-") then
    match prev_dir s with [] => s | _ => arrive s (chdir (cwd s) (prev_dir s)) end
  else if streq a (bytes ".") then s
  else
    arrive s (match chdir (cwd s) a with
              | Some d => Some d
              | None => match search_frecency (file s) a with Some p => chdir (cwd s) p | None => None end
              end).

(** The arguments after the name. *)
Definition execute_hop (s : hst) (args : list str) : hst :=
  match args with
  | [] => arrive s (chdir (cwd s) shell_home)
  | _ => fold_left hop_arg args s
  end.
End Hop.

(** ** The prompt *)

(** The directory [display_prompt] prints: relative to the home of the shell where
    it is inside of it. *)
Definition prompt_dir (shell_home cwd : str) : str :=
  let n := length shell_home in
  if bool_decide (take n cwd = shell_home) && match drop n cwd with [] => true | c :: _ => c =? chSLASH end
  then 126 :: drop n cwd
  else cwd.

(** ** Reading back what was written *)

Definition blank (c : Z) : bool := (c =? 32) || ((9 <=? c) && (c <=? 13)).

Lemma digit_not_blank c : is_digit c = true -> blank c = false /\ c <> 45 /\ c <> 43.
Proof. unfold is_digit, blank. intros [H1%Z.leb_le H2%Z.leb_le]%andb_true_iff. split; [zsolve|lia]. Qed.

Lemma dec_digit n : 0 <= n < 10 -> is_digit (48 + n) = true.
Proof. intros H. unfold is_digit. by rewrite (proj2 (Z.leb_le _ _)), (proj2 (Z.leb_le _ _)) by lia. Qed.

Lemma scan_dec_loop fuel : forall n acc, 0 <= n < 10 ^ Z.of_nat fuel ->
  scan_digits 0 (dec_loop fuel n acc) = scan_digits n acc.
Proof.
  induction fuel as [|fuel IH]; intros n acc Hn.
  { change (10 ^ Z.of_nat 0) with 1 in Hn. cbn [dec_loop]. by replace n with 0 by lia. }
  rewrite Nat2Z.inj_succ, Z.pow_succ_r in Hn by lia. cbn [dec_loop]. destruct (Z.ltb_spec n 10).
  - cbn [scan_digits]. rewrite dec_digit by lia. f_equal. lia.
  - pose proof (Z.mod_pos_bound n 10 ltac:(lia)). pose proof (Z.div_mod n 10 ltac:(lia)).
    rewrite IH by (split; [apply Z.div_pos; lia|apply Z.div_lt_upper_bound; lia]).
    cbn [scan_digits]. rewrite dec_digit by lia. f_equal. lia.
Qed.

Lemma dec_loop_head fuel : forall n acc, 0 <= n ->
  (exists c l, acc = c :: l /\ is_digit c = true) \/ fuel <> O ->
  exists c l, dec_loop fuel n acc = c :: l /\ is_digit c = true.
Proof.
  induction fuel as [|fuel IH]; intros n acc Hn Hor; cbn [dec_loop].
  - destruct Hor as [H|H]; [done|lia].
  - destruct (Z.ltb_spec n 10); [eexists _, _; split; [done|]; by apply dec_digit|].
    pose proof (Z.mod_pos_bound n 10 ltac:(lia)). apply IH; [apply Z.div_pos; lia|].
    left. eexists _, _. split; [done|]. by apply dec_digit.
Qed.

Lemma dec_loop_app fuel : forall n acc r, dec_loop fuel n acc ++ r = dec_loop fuel n (acc ++ r).
Proof.
  induction fuel as [|fuel IH]; intros n acc r; cbn [dec_loop]; [done|]. destruct (n <? 10); [done|]. by rewrite IH.
Qed.

Definition starts_apart (r : str) : Prop := match r with [] => True | c :: _ => is_digit c = false end.

Lemma scan_int_digits s : forall c l, s = c :: l -> is_digit c = true -> scan_int s = Some (scan_digits 0 s).
Proof.
  intros c l -> Hc. destruct (digit_not_blank c Hc) as (H1 & H2 & H3). unfold scan_int, blank in *.
  cbn [skip_blanks]. rewrite H1. cbv zeta.
  assert (match c :: l with 45 :: s' => (true, s') | 43 :: s' => (false, s') | _ => (false, c :: l) end = (false, c :: l)) as ->.
  { destruct c as [|q|q]; try done. by repeat (destruct q as [q|q|]; try done). }
  rewrite Hc. by destruct (scan_digits 0 (c :: l)).
Qed.

Lemma scan_int_dec n r : 0 <= n < 10 ^ 20 -> starts_apart r -> scan_int (dec n ++ r) = Some (n, r).
Proof.
  intros Hn Hr. unfold dec. rewrite (proj2 (Z.ltb_ge n 0)) by lia. rewrite dec_loop_app. cbn [app].
  destruct (dec_loop_head 20 n r) as (c & l & E & Hc); [lia|by right|].
  rewrite (scan_int_digits _ c l E Hc). rewrite scan_dec_loop by done.
  destruct r as [|d r]; cbn [scan_digits]; [done|]. cbn in Hr. by rewrite Hr.
Qed.

Lemma scan_int_blank b s : blank b = true -> scan_int (b :: s) = scan_int s.
Proof. intros H. unfold scan_int, blank in *. cbn [skip_blanks]. by rewrite H. Qed.

(** Entries that survive the text: a path of the file system. *)
Definition path_ok (p : str) : Prop :=
  Forall (fun c => c <> chNL) p /\ match p with [] => False | c :: _ => blank c = false end.
Definition entry_ok (e : entry) : Prop :=
  0 <= frequency e < 2 ^ 31 /\ 0 <= recency e < 2 ^ 63 /\ path_ok (epath e).

Lemma to_newline_path p r : Forall (fun c => c <> chNL) p -> to_newline (p ++ chNL :: r) = (p, chNL :: r).
Proof.
  induction 1 as [|c p Hc _ IH]; [done|]. cbn [app to_newline]. rewrite (proj2 (Z.eqb_neq c chNL)) by done. by rewrite IH.
Qed.

Lemma scan_printed e pre r : entry_ok e -> (pre = [] \/ pre = [chNL]) ->
  scan_entry (pre ++ print_entry e ++ r) = Some (e, chNL :: r).
Proof.
  intros (Hf & Hr & Hp & Hh) Hpre. unfold scan_entry.
  assert (scan_int (pre ++ print_entry e ++ r) = scan_int (print_entry e ++ r)) as ->.
  { destruct Hpre as [->| ->]; [done|]. cbn [app]. by rewrite scan_int_blank. }
  unfold print_entry. rewrite <- app_assoc. rewrite scan_int_dec by (try done; lia).
  cbn [app]. rewrite scan_int_blank by done. rewrite <- app_assoc, scan_int_dec by (try done; lia).
  cbn [app]. change (skip_blanks (chSPACE :: ?x)) with (skip_blanks x).
  destruct e as [f rc p]. cbn [frequency recency epath] in *. destruct p as [|c p]; [done|].
  assert (skip_blanks ((c :: p) ++ [chNL] ++ r) = (c :: p) ++ chNL :: r) as E.
  { cbn [app skip_blanks]. unfold blank in Hh. by rewrite Hh. }
  rewrite <- app_assoc. cbn [skip_blanks] in *. change ((chSPACE =? 32) || (9 <=? chSPACE) && (chSPACE <=? 13)) with true. cbv iota.
  rewrite E, to_newline_path by done. done.
Qed.

Lemma read_printed l : forall n pre, Forall entry_ok l -> (pre = [] \/ pre = [chNL]) -> (length l <= n)%nat ->
  read_entries n (pre ++ (l ≫= print_entry)) = l.
Proof.
  induction l as [|e l IH]; intros n pre Hl Hpre Hn.
  - destruct n; [done|]. cbn [read_entries]. by destruct Hpre as [->| ->].
  - apply list.Forall_cons in Hl as [He Hl]. destruct n as [|n]; [cbn in Hn; lia|]. cbn [read_entries mbind list_bind].
    rewrite scan_printed by done. f_equal. change (chNL :: (l ≫= print_entry)) with ([chNL] ++ (l ≫= print_entry)).
    apply IH; [done|by right|cbn in Hn; lia].
Qed.

(** ** Updates and searches *)

Definition visits (l : list entry) (p : str) : Z :=
  match filter (fun e => epath e = p) l with [] => 0 | e :: _ => frequency e end.

Lemma bump_spec l p now :
  match bump l p now with
  | Some l' => exists pre e post, l = pre ++ e :: post /\ epath e = p /\ Forall (fun e => epath e <> p) pre /\
      l' = pre ++ mkE (frequency e + 1) now p :: post
  | None => Forall (fun e => epath e <> p) l
  end.
Proof.
  induction l as [|e l IH]; cbn [bump]; [constructor|]. unfold streq. case_bool_decide as E.
  - exists [], e, l. rewrite E. split; [done|]. split; [done|]. split; [constructor|done].
  - destruct (bump l p now) as [l'|]; [|by constructor].
    destruct IH as (pre & f & post & -> & H1 & H2 & ->). exists (e :: pre), f, post.
    split; [done|]. split; [done|]. split; [by constructor|done].
Qed.

Lemma visits_app_ne pre l p : Forall (fun e => epath e <> p) pre -> visits (pre ++ l) p = visits l p.
Proof.
  intros H. unfold visits. rewrite list.filter_app. assert (filter (fun e => epath e = p) pre = []) as ->; [|done].
  induction H as [|e pre He _ IH]; [done|]. by rewrite filter_cons_False.
Qed.

Lemma visits_skip pre e e' post q : epath e = epath e' -> (epath e = q -> frequency e = frequency e') ->
  visits (pre ++ e :: post) q = visits (pre ++ e' :: post) q.
Proof.
  intros Hp Hf. unfold visits. rewrite !list.filter_app. destruct (decide (epath e = q)) as [E|N].
  - rewrite !filter_cons_True by congruence. destruct (filter _ pre); cbn; [by apply Hf|done].
  - rewrite !filter_cons_False by congruence. done.
Qed.

Lemma update_visits l p now : (length l < MAX_ENTRIES)%nat ->
  forall q, visits (update_entries l p now) q = if bool_decide (q = p) then visits l p + 1 else visits l q.
Proof.
  intros Hl q. unfold update_entries. pose proof (bump_spec l p now) as H. destruct (bump l p now) as [l'|].
  - destruct H as (pre & e & post & -> & He & Hpre & ->). case_bool_decide as E.
    + subst q. rewrite !visits_app_ne by done. unfold visits. rewrite !filter_cons_True by done. done.
    + apply visits_skip; [by rewrite He|]. cbn [epath]. congruence.
  - rewrite (proj2 (Nat.ltb_lt _ _) Hl). case_bool_decide as E.
    + subst q. rewrite visits_app_ne by done. pose proof (visits_app_ne l [] p H) as Hv. rewrite app_nil_r in Hv. rewrite Hv.
      unfold visits. by rewrite filter_cons_True.
    + unfold visits. rewrite list.filter_app. rewrite filter_cons_False by (cbn; congruence).
      by rewrite filter_nil, app_nil_r.
Qed.

Section Best.
Context (exists_ : str -> bool) (target : str).
Abbreviation elig := (eligible exists_ target).

Lemma search_loop_spec l : forall best bs,
  let '(b, s) := search_loop exists_ l target best bs in
  (b = best /\ s = bs /\ forall e, e ∈ l -> elig e = true -> score e <= bs) \/
  (exists e, e ∈ l /\ elig e = true /\ b = Some (epath e) /\ s = score e /\ bs < score e /\
     forall e', e' ∈ l -> elig e' = true -> score e' <= score e).
Proof.
  induction l as [|e l IH]; intros best bs; cbn [search_loop]; [left; split; [done|]; split; [done|set_solver]|].
  destruct (elig e) eqn:Ee, (Z.ltb_spec bs (score e)) as [Hs|Hs]; cbn [andb].
  - specialize (IH (Some (epath e)) (score e)). destruct (search_loop exists_ l target (Some (epath e)) (score e)) as [b s].
    right. destruct IH as [(-> & -> & H)|(f & H1 & H2 & -> & -> & H3 & H4)].
    + exists e. split; [left|]. repeat (split; [done|]). intros e' [->|He']%elem_of_cons Hel; [lia|by apply H].
    + exists f. split; [by right|]. repeat (split; [done|]). split; [lia|]. intros e' [->|He']%elem_of_cons Hel; [lia|by apply H4].
  - specialize (IH best bs). destruct (search_loop exists_ l target best bs) as [b s].
    destruct IH as [(-> & -> & H)|(f & H1 & H2 & -> & -> & H3 & H4)].
    + left. repeat (split; [done|]). intros e' [->|He']%elem_of_cons Hel; [lia|by apply H].
    + right. exists f. split; [by right|]. repeat (split; [done|]). intros e' [->|He']%elem_of_cons Hel; [lia|by apply H4].
  - specialize (IH best bs). destruct (search_loop exists_ l target best bs) as [b s].
    destruct IH as [(-> & -> & H)|(f & H1 & H2 & -> & -> & H3 & H4)].
    + left. repeat (split; [done|]). intros e' [->|He']%elem_of_cons Hel; [congruence|by apply H].
    + right. exists f. split; [by right|]. repeat (split; [done|]). intros e' [->|He']%elem_of_cons Hel; [congruence|by apply H4].
  - specialize (IH best bs). destruct (search_loop exists_ l target best bs) as [b s].
    destruct IH as [(-> & -> & H)|(f & H1 & H2 & -> & -> & H3 & H4)].
    + left. repeat (split; [done|]). intros e' [->|He']%elem_of_cons Hel; [congruence|by apply H].
    + right. exists f. split; [by right|]. repeat (split; [done|]). intros e' [->|He']%elem_of_cons Hel; [congruence|by apply H4].
Qed.
End Best.

Lemma update_ok l p now : Forall entry_ok l -> path_ok p -> 0 <= now < 2 ^ 63 -> visits l p + 1 < 2 ^ 31 ->
  Forall entry_ok (update_entries l p now).
Proof.
  intros Hl Hp Hn Hv. unfold update_entries. pose proof (bump_spec l p now) as H. destruct (bump l p now) as [l'|].
  - destruct H as (pre & e & post & -> & He & Hpre & ->). apply Forall_app in Hl as [Hl1 Hl2].
    apply list.Forall_cons in Hl2 as [(Hf & _ & _) Hl2]. apply Forall_app. split; [done|]. constructor; [|done].
    rewrite visits_app_ne in Hv by done. unfold visits in Hv. rewrite filter_cons_True in Hv by done.
    split; [cbn; lia|]. split; [done|done].
  - destruct (length l <? MAX_ENTRIES)%nat; [|done]. apply Forall_app. split; [done|]. constructor; [|constructor].
    split; [cbn; lia|]. split; done.
Qed.

Lemma update_length l p now : (length l < MAX_ENTRIES)%nat -> (length (update_entries l p now) <= MAX_ENTRIES)%nat.
Proof.
  intros Hl. unfold update_entries. pose proof (bump_spec l p now) as H. destruct (bump l p now) as [l'|].
  - destruct H as (pre & e & post & -> & _ & _ & ->). rewrite length_app in *. cbn in *. lia.
  - rewrite (proj2 (Nat.ltb_lt _ _) Hl), length_app. cbn. lia.
Qed.

Lemma printed_length l : (length l <= length (l ≫= print_entry))%nat.
Proof.
  induction l as [|e l IH]; [done|]. change ((e :: l) ≫= print_entry) with (print_entry e ++ (l ≫= print_entry)).
  rewrite length_app. unfold print_entry at 1. rewrite length_app. cbn [length]. lia.
Qed.

(** ** Theorems *)

(** The history of visited directories.  What is written to the file is read back
    as it was, and an update in a history with room counts one more visit of the
    directory entered and of no other. *)
Theorem history_update l p now :
  Forall entry_ok l -> (length l < MAX_ENTRIES)%nat -> path_ok p -> 0 <= now < 2 ^ 63 -> visits l p + 1 < 2 ^ 31 ->
  read_entries MAX_ENTRIES (l ≫= print_entry) = l /\
  exists t, update_frecency true (Some (l ≫= print_entry)) p now = Some t /\
    forall q, visits (read_entries MAX_ENTRIES t) q = if bool_decide (q = p) then visits l p + 1 else visits l q.
Proof.
  intros Hl Hn Hp Hnow Hv.
  assert (read_entries MAX_ENTRIES (l ≫= print_entry) = l) as E by (apply (read_printed l _ []); [done|by left|lia]).
  split; [done|]. eexists. split; [unfold update_frecency; by rewrite E|]. intros q.
  assert (read_entries MAX_ENTRIES (update_entries l p now ≫= print_entry) = update_entries l p now) as ->
    by exact (read_printed (update_entries l p now) MAX_ENTRIES [] (update_ok l p now Hl Hp Hnow Hv) (or_introl eq_refl) (update_length l p now Hn)).
  by apply update_visits.
Qed.

(** Where [hop] looks when a name is no directory: among the directories of the
    history that still exist and have the name in their path, one of the highest
    score; and nothing only if there is none. *)
Theorem search_best exists_ l target :
  Forall entry_ok l ->
  match search_frecency exists_ (Some (l ≫= print_entry)) target with
  | Some p => exists e, e ∈ l /\ epath e = p /\ eligible exists_ target e = true /\
      forall e', e' ∈ l -> eligible exists_ target e' = true -> score e' <= score e
  | None => forall e, e ∈ l -> eligible exists_ target e = false
  end.
Proof.
  intros Hl. unfold search_frecency.
  assert (read_entries (length (l ≫= print_entry)) (l ≫= print_entry) = l) as ->
    by exact (read_printed l _ [] Hl (or_introl eq_refl) (printed_length l)).
  assert (forall e, e ∈ l -> 0 <= score e) as Hsc.
  { intros e He. rewrite list.Forall_forall in Hl. destruct (Hl e He) as (H1 & H2 & _). unfold score. lia. }
  pose proof (search_loop_spec exists_ target l None (-1)) as H.
  destruct (search_loop exists_ l target None (-1)) as [b s].
  destruct H as [(-> & -> & H)|(e & He & Hel & -> & -> & Hlt & H)].
  - change (-1 =? -1) with true. cbv iota. intros e He. destruct (eligible exists_ target e) eqn:Ee; [|done].
    specialize (H e He Ee). specialize (Hsc e He). lia.
  - rewrite (proj2 (Z.eqb_neq (score e) (-1))) by (specialize (Hsc e He); lia). exists e. done.
Qed.

(** [hop -] after a successful [hop] goes back, and remembers where it came from. *)
Theorem hop_back exists_ chdir home w now s d b :
  chdir (cwd s) d = Some b -> cwd s <> [] -> chdir b (cwd s) = Some (cwd s) ->
  streq d (bytes "~") = false -> streq d (bytes "-") = false -> streq d (bytes ".") = false ->
  let s' := execute_hop exists_ chdir home w now s [d; bytes "-"] in cwd s' = cwd s /\ prev_dir s' = b.
Proof.
  intros H1 H2 H3 N1 N2 N3. unfold execute_hop. cbn [fold_left].
  assert (hop_arg exists_ chdir home w now s d = mkH b (cwd s) (update_frecency w (file s) b now) (errors s)) as ->
    by (unfold hop_arg; by rewrite N1, N2, N3, H1).
  unfold hop_arg. change (streq (bytes "-") (bytes "~")) with false. change (streq (bytes "-") (bytes "-")) with true.
  cbv iota. cbn [prev_dir cwd]. rewrite H3. by destruct (cwd s).
Qed.

(** ** Witnesses *)

Definition ex_history : list entry := [mkE 2 1700000000 (bytes "/home/a"); mkE 1 1700000500 (bytes "/tmp/my dir")].

Lemma ex_history_ok : Forall entry_ok ex_history.
Proof.
  apply list.Forall_cons_2; [|apply list.Forall_cons_2; [|apply list.Forall_nil_2]];
    (split; [cbn; lia|]; split; [cbn; lia|]; split; [cbn; forall_lia|reflexivity]).
Qed.

Lemma history_update_witness :
  read_entries MAX_ENTRIES (ex_history ≫= print_entry) = ex_history.
Proof.
  refine (proj1 (history_update ex_history (bytes "/tmp") 1700001000 ex_history_ok _ _ _ _)).
  - apply Nat.ltb_lt. reflexivity.
  - split; [cbn; forall_lia|reflexivity].
  - lia.
  - vm_compute. reflexivity.
Defined.

Lemma search_best_witness :
  match search_frecency (fun _ => true) (Some (ex_history ≫= print_entry)) (bytes "my") with
  | Some p => exists e, e ∈ ex_history /\ epath e = p /\ eligible (fun _ => true) (bytes "my") e = true /\
      forall e', e' ∈ ex_history -> eligible (fun _ => true) (bytes "my") e' = true -> score e' <= score e
  | None => forall e, e ∈ ex_history -> eligible (fun _ => true) (bytes "my") e = false
  end.
Proof. apply (search_best (fun _ => true) ex_history (bytes "my") ex_history_ok). Defined.
