(* ===== verification/Lock.v ===== *)
(** * Locks: [kernel/spinlock.c] and [kernel/sleeplock.c]

    [Spin] runs [acquire] and [release] one memory access at a time on any number of
    harts.  A hart is in client code or at a program point inside one of the two
    functions; [step_hart] executes the access at that point, and [call] is a client
    entering a function of the file.  Steps of different harts interleave freely, on
    sequentially consistent memory.  [SleepLk] is the sleep lock, whose functions run
    under the spin lock [lk->lk] and are one step each. *)
From stdpp Require Import base list functions strings.
From Stdlib Require Import ZArith Lia.
From S2P Require Import Prelude.

Module Spin.

(** [struct cpu] of [proc.h]: the fields [spinlock.c] uses, and the hart's
    [SSTATUS_SIE] bit. *)
Record cpu := mkCpu { noff : Z; intena : bool; sie : bool }.

(** [struct spinlock]; [lcpu] is [None] for a null [lk->cpu]. *)
Record spinlock := mkSpin { locked : Z; lname : string; lcpu : option nat }.

Definition initlock (name : string) : spinlock := mkSpin 0 name None.

(** [push_off]: [rc_sstatus] reads and clears the bit in one instruction, so the rest
    runs with interrupts off. *)
Definition push_off (c : cpu) : cpu :=
  mkCpu (noff c + 1) (if noff c =? 0 then sie c else intena c) false.

(** [pop_off]; [None] is a panic. *)
Definition pop_off (c : cpu) : option cpu :=
  if sie c then None
  else if noff c <? 1 then None
  else Some (mkCpu (noff c - 1) (intena c) ((noff c - 1 =? 0) && intena c)).

(** Where a hart is: in client code, before an access of [acquire] (the two reads of
    [holding], the exchange, the store of [lk->cpu]), before an access of [release] (the
    reads of [holding], the two stores, [pop_off]), or in [panic]. *)
Inductive pc :=
  | Client
  | AcqHoldLocked (l : nat) | AcqHoldCpu (l : nat) | AcqSwap (l : nat) | AcqCpu (l : nat)
  | RelHoldLocked (l : nat) | RelHoldCpu (l : nat) | RelCpu (l : nat) | RelStore (l : nat)
  | RelPop (l : nat)
  | Panicked.

(** The machine.  [held h] lists the locks whose [acquire] has returned on hart [h] and
    whose [release] it has not called; [pushes h] counts its own [push_off]s. *)
Record mach := mkMach {
  cpus : nat -> cpu; locks : nat -> spinlock; pcs : nat -> pc;
  held : nat -> list nat; pushes : nat -> nat }.

Definition at_pc (h : nat) (p : pc) (m : mach) : mach :=
  mkMach (cpus m) (locks m) (<[h := p]> (pcs m)) (held m) (pushes m).
Definition set_cpu (h : nat) (c : cpu) (m : mach) : mach :=
  mkMach (<[h := c]> (cpus m)) (locks m) (pcs m) (held m) (pushes m).
Definition set_lock (l : nat) (k : spinlock) (m : mach) : mach :=
  mkMach (cpus m) (<[l := k]> (locks m)) (pcs m) (held m) (pushes m).
Definition set_held (h : nat) (ls : list nat) (m : mach) : mach :=
  mkMach (cpus m) (locks m) (pcs m) (<[h := ls]> (held m)) (pushes m).
Definition set_pushes (h n : nat) (m : mach) : mach :=
  mkMach (cpus m) (locks m) (pcs m) (held m) (<[h := n]> (pushes m)).

(** The accesses of [acquire(&lk)] after [push_off]. *)
Definition acquire_step (h : nat) (m : mach) : mach :=
  match pcs m h with
  | AcqHoldLocked l =>
      at_pc h (if c_true (locked (locks m l)) then AcqHoldCpu l else AcqSwap l) m
  | AcqHoldCpu l =>
      at_pc h (if decide (lcpu (locks m l) = Some h) then Panicked else AcqSwap l) m
  | AcqSwap l =>
      let old := locked (locks m l) in
      at_pc h (if c_true old then AcqSwap l else AcqCpu l)
        (set_lock l (mkSpin 1 (lname (locks m l)) (lcpu (locks m l))) m)
  | AcqCpu l =>
      at_pc h Client (set_held h (l :: held m h)
        (set_lock l (mkSpin (locked (locks m l)) (lname (locks m l)) (Some h)) m))
  | _ => m
  end.

(** The accesses of [release(&lk)]. *)
Definition release_step (h : nat) (m : mach) : mach :=
  match pcs m h with
  | RelHoldLocked l =>
      at_pc h (if c_true (locked (locks m l)) then RelHoldCpu l else Panicked) m
  | RelHoldCpu l =>
      at_pc h (if decide (lcpu (locks m l) = Some h) then RelCpu l else Panicked) m
  | RelCpu l =>
      at_pc h (RelStore l) (set_lock l (mkSpin (locked (locks m l)) (lname (locks m l)) None) m)
  | RelStore l =>
      at_pc h (RelPop l) (set_lock l (mkSpin 0 (lname (locks m l)) (lcpu (locks m l))) m)
  | RelPop l =>
      match pop_off (cpus m h) with
      | Some c => at_pc h Client (set_cpu h c m)
      | None => at_pc h Panicked m
      end
  | _ => m
  end.

(** One step of hart [h] inside the file. *)
Definition step_hart (h : nat) (m : mach) : mach :=
  match pcs m h with
  | AcqHoldLocked _ | AcqHoldCpu _ | AcqSwap _ | AcqCpu _ => acquire_step h m
  | RelHoldLocked _ | RelHoldCpu _ | RelCpu _ | RelStore _ | RelPop _ => release_step h m
  | Client | Panicked => m
  end.

(** What client code calls.  [SetIntena] is [sched()] restoring [intena] after [swtch];
    [IntrOn] and [IntrOff] are the functions of [riscv.h]. *)
Inductive op :=
  | Acquire (l : nat) | Release (l : nat) | PushOff | PopOff | IntrOn | IntrOff
  | SetIntena (b : bool).

Definition call (h : nat) (o : op) (m : mach) : mach :=
  let c := cpus m h in
  match o with
  | Acquire l => at_pc h (AcqHoldLocked l) (set_cpu h (push_off c) m)
  | Release l => at_pc h (RelHoldLocked l) (set_held h (filter (fun x => x <> l) (held m h)) m)
  | PushOff => set_pushes h (S (pushes m h)) (set_cpu h (push_off c) m)
  | PopOff =>
      match pop_off c with
      | Some c' => set_pushes h (pred (pushes m h)) (set_cpu h c' m)
      | None => at_pc h Panicked m
      end
  | IntrOn => set_cpu h (mkCpu (noff c) (intena c) true) m
  | IntrOff => set_cpu h (mkCpu (noff c) (intena c) false) m
  | SetIntena b => set_cpu h (mkCpu (noff c) b (sie c)) m
  end.

(** [holding(lk)] on hart [h]. *)
Definition holding (h l : nat) (m : mach) : bool :=
  c_true (locked (locks m l)) && bool_decide (lcpu (locks m l) = Some h).

(** What [spinlock.c] asks of its clients: no [acquire] of a lock the hart holds, no
    [release] of one it does not, matched [push_off]s, interrupts on only outside them. *)
Definition allowed (h : nat) (o : op) (m : mach) : bool :=
  match o with
  | Acquire l => bool_decide (l ∉ held m h)
  | Release l => bool_decide (l ∈ held m h)
  | PopOff => bool_decide (0 < pushes m h)%nat
  | IntrOn => bool_decide (held m h = [] /\ pushes m h = 0%nat)
  | PushOff | IntrOff | SetIntena _ => true
  end.

(** Boot: every lock from [initlock], every hart in client code. *)
Definition boot (name : nat -> string) (ints : nat -> bool) : mach :=
  mkMach (fun h => mkCpu 0 false (ints h)) (fun l => initlock (name l))
         (fun _ => Client) (fun _ => []) (fun _ => 0%nat).

Inductive reach (name : nat -> string) (ints : nat -> bool) : mach -> Prop :=
  | reach_boot : reach name ints (boot name ints)
  | reach_step m h : reach name ints m -> reach name ints (step_hart h m)
  | reach_call m h o :
      reach name ints m -> pcs m h = Client -> allowed h o m = true ->
      reach name ints (call h o m).

(** *** The invariant *)

(** The lock hart [h] is acquiring, and the one it is releasing, by program point. *)
Definition acquiring (p : pc) : option nat :=
  match p with
  | AcqHoldLocked l | AcqHoldCpu l | AcqSwap l | AcqCpu l => Some l
  | _ => None
  end.
Definition releasing (p : pc) : option nat :=
  match p with
  | RelHoldLocked l | RelHoldCpu l | RelCpu l | RelStore l | RelPop l => Some l
  | _ => None
  end.

(** [p] is between winning the exchange for [l] and the store that frees it. *)
Definition owning (p : pc) (l : nat) : Prop :=
  p = AcqCpu l \/ p = RelHoldLocked l \/ p = RelHoldCpu l \/ p = RelCpu l \/ p = RelStore l.
Definition marked (p : pc) (l : nat) : Prop :=
  p = RelHoldLocked l \/ p = RelHoldCpu l \/ p = RelCpu l.

Definition owns (m : mach) (h l : nat) : Prop := l ∈ held m h \/ owning (pcs m h) l.
Definition marks (m : mach) (h l : nat) : Prop := l ∈ held m h \/ marked (pcs m h) l.

(** How deep [pc] itself has pushed interrupts off. *)
Definition depth (p : pc) : Z := match p with Client | Panicked => 0 | _ => 1 end.

Record Inv (m : mach) : Prop := {
  inv_owner : forall l h1 h2, owns m h1 l -> owns m h2 l -> h1 = h2;
  inv_locked : forall l, locked (locks m l) = 0 \/ locked (locks m l) = 1;
  inv_held : forall l, locked (locks m l) = 1 <-> exists h, owns m h l;
  inv_cpu : forall l h, lcpu (locks m l) = Some h <-> marks m h l;
  inv_noff : forall h, noff (cpus m h) =
      Z.of_nat (length (held m h)) + Z.of_nat (pushes m h) + depth (pcs m h);
  inv_sie : forall h, sie (cpus m h) = true -> noff (cpus m h) = 0;
  inv_nodup : forall h, NoDup (held m h);
  inv_fresh : forall h l, acquiring (pcs m h) = Some l -> l ∉ held m h;
  inv_left : forall h l, releasing (pcs m h) = Some l -> l ∉ held m h;
  inv_calm : forall h, pcs m h <> Panicked }.

(** Reads of an updated machine. *)
Ltac upd :=
  repeat first
    [ rewrite fn_lookup_insert in * | rewrite fn_lookup_insert_ne in * by congruence ].

(** Split on whether the hart and the lock of a goal are the ones that were updated. *)
Ltac split_on a b := destruct (decide (a = b)) as [->|?]; upd; cbn in *.

Lemma inv_boot name ints : Inv (boot name ints).
Proof.
  unfold boot. split; unfold owns, marks, owning, marked; cbn; try done; intros.
  - set_solver.
  - by left.
  - set_solver.
  - set_solver.
  - constructor.
Qed.

(** What an owner knows: the lock is taken, and by nobody else. *)
Lemma inv_owned m h l : Inv m -> owns m h l -> locked (locks m l) = 1.
Proof. intros I H. apply (inv_held _ I). eauto. Qed.

Lemma inv_free m h l : Inv m -> locked (locks m l) = 0 -> ~ owns m h l.
Proof. intros I H Ho. pose proof (inv_owned _ _ _ I Ho). lia. Qed.

Lemma marked_owning p l : marked p l -> owning p l.
Proof. unfold marked, owning. tauto. Qed.

Lemma marks_owns m h l : marks m h l -> owns m h l.
Proof. unfold marks, owns. intros [H|H]; auto using marked_owning. Qed.

(** Machines that agree at every hart and lock. *)
#[export] Instance mach_equiv : Equiv mach := fun m m' =>
  (forall h, cpus m h = cpus m' h /\ pcs m h = pcs m' h /\ held m h = held m' h /\
             pushes m h = pushes m' h) /\
  (forall l, locks m l = locks m' l).

#[export] Instance mach_equiv_sym : Symmetric (≡@{mach}).
Proof. intros m m' [H1 H2]. split; [intros h; destruct (H1 h) as (?&?&?&?)|]; auto. Qed.

#[export] Instance Inv_proper : Proper ((≡) ==> iff) Inv.
Proof.
  assert (forall m m' : mach, m ≡ m' -> Inv m -> Inv m').
  { intros m m' [Hh Hl] I.
    assert (EO : forall h l, owns m' h l <-> owns m h l).
    { intros h l. unfold owns. by destruct (Hh h) as (_&->&->&_). }
    assert (EM : forall h l, marks m' h l <-> marks m h l).
    { intros h l. unfold marks. by destruct (Hh h) as (_&->&->&_). }
    split; intros; rewrite <- ?Hl in *; try (destruct (Hh h) as (Ec&Ep&Eh&Eu));
      rewrite <- ?Ec, <- ?Ep, <- ?Eh, <- ?Eu in *.
    - apply (inv_owner _ I l); by apply EO.
    - apply (inv_locked _ I).
    - rewrite (inv_held _ I). by setoid_rewrite EO.
    - rewrite EM. apply (inv_cpu _ I).
    - apply (inv_noff _ I).
    - by apply (inv_sie _ I).
    - apply (inv_nodup _ I).
    - by apply (inv_fresh _ I).
    - by apply (inv_left _ I).
    - apply (inv_calm _ I). }
  intros m m' E. split; [by apply H|by apply H, mach_equiv_sym].
Qed.

Lemma set_cpu_id h m : set_cpu h (cpus m h) m ≡ m.
Proof. split; [intros h'; cbn; by split_on h' h|done]. Qed.

Lemma set_held_id h m : set_held h (held m h) m ≡ m.
Proof. split; [intros h'; cbn; by split_on h' h|done]. Qed.

#[export] Instance at_pc_proper h p : Proper ((≡) ==> (≡)) (at_pc h p).
Proof.
  intros m m' [Hh Hl]. split; [|done]. intros h'. destruct (Hh h') as (?&?&?&?). cbn.
  by split_on h' h.
Qed.

(** A move of hart [h] that leaves its locks, [owning] and [marked] alone. *)
Lemma inv_move m h p c' :
  Inv m ->
  (forall l, owning p l <-> owning (pcs m h) l) ->
  (forall l, marked p l <-> marked (pcs m h) l) ->
  noff c' - depth p = noff (cpus m h) - depth (pcs m h) ->
  (sie c' = true -> noff c' = 0) ->
  (forall l, acquiring p = Some l -> l ∉ held m h) ->
  (forall l, releasing p = Some l -> l ∉ held m h) ->
  p <> Panicked ->
  Inv (at_pc h p (set_cpu h c' m)).
Proof.
  intros I Ho Hm Hn Hs Ha Hr Hp.
  assert (EO : forall h' l, owns (at_pc h p (set_cpu h c' m)) h' l <-> owns m h' l).
  { intros h' l. unfold owns. cbn. split_on h' h; [by rewrite Ho|done]. }
  assert (EM : forall h' l, marks (at_pc h p (set_cpu h c' m)) h' l <-> marks m h' l).
  { intros h' l. unfold marks. cbn. split_on h' h; [by rewrite Hm|done]. }
  split.
  - intros l h1 h2. rewrite !EO. apply (inv_owner _ I).
  - apply (inv_locked _ I).
  - intros l. cbn. rewrite (inv_held _ I). by setoid_rewrite EO.
  - intros l h'. rewrite EM. apply (inv_cpu _ I).
  - intros h'. pose proof (inv_noff _ I h'). cbn. split_on h' h; lia.
  - intros h'. pose proof (inv_sie _ I h'). cbn. split_on h' h; auto.
  - apply (inv_nodup _ I).
  - intros h' l. pose proof (inv_fresh _ I h' l). cbn. split_on h' h; auto.
  - intros h' l. pose proof (inv_left _ I h' l). cbn. split_on h' h; auto.
  - intros h'. pose proof (inv_calm _ I h'). cbn. split_on h' h; auto.
Qed.

(** Storing into a lock the values it has. *)
Lemma inv_relock m l k :
  Inv m -> locked k = locked (locks m l) -> lcpu k = lcpu (locks m l) -> Inv (set_lock l k m).
Proof.
  intros I Hl Hc. split; try apply I.
  - intros l'. pose proof (inv_locked _ I l'). cbn. split_on l' l; lia.
  - intros l'. pose proof (inv_held _ I l'). unfold owns in *. cbn. split_on l' l; by rewrite ?Hl.
  - intros l' h'. pose proof (inv_cpu _ I l' h'). unfold marks in *. cbn.
    split_on l' l; by rewrite ?Hc.
Qed.

(** A move of hart [h] to [p] that stores [k] into lock [l] and changes who owns and who
    marks [l], and nothing about any other lock. *)
Lemma inv_take m h p ls l k :
  Inv m ->
  (owns m h l \/ locked (locks m l) = 0) ->
  (forall l', l' <> l -> (l' ∈ ls <-> l' ∈ held m h)) ->
  (forall l', l' <> l -> ~ owning p l' /\ ~ owning (pcs m h) l') ->
  (locked k = 1 /\ (l ∈ ls \/ owning p l) \/
   locked k = 0 /\ ~ (l ∈ ls \/ owning p l)) ->
  (lcpu k = Some h /\ (l ∈ ls \/ marked p l) \/
   lcpu k = None /\ ~ (l ∈ ls \/ marked p l)) ->
  Z.of_nat (length ls) + depth p = Z.of_nat (length (held m h)) + depth (pcs m h) ->
  NoDup ls ->
  (forall l', acquiring p = Some l' \/ releasing p = Some l' -> l' ∉ ls) ->
  p <> Panicked ->
  Inv (at_pc h p (set_held h ls (set_lock l k m))).
Proof.
  intros I Hown Hls Hpo Hk Hc Hn Hnd Hin Hp.
  set (m' := at_pc h p (set_held h ls (set_lock l k m))).
  assert (Hother : forall h', h' <> h -> ~ owns m h' l).
  { intros h' Hne Ho. destruct Hown as [Hown|Hz].
    - by apply Hne, (inv_owner _ I l).
    - by apply (inv_free _ h' l I Hz). }
  assert (EOne : forall h' l', h' <> h -> (owns m' h' l' <-> owns m h' l')).
  { intros h' l' Hne. unfold owns, m'. cbn. by upd. }
  assert (EOh : forall l', l' <> l -> (owns m' h l' <-> owns m h l')).
  { intros l' Hne. unfold owns, m'. cbn. upd. specialize (Hls _ Hne). specialize (Hpo _ Hne).
    tauto. }
  assert (EO : forall h' l', l' <> l -> (owns m' h' l' <-> owns m h' l')).
  { intros h' l' Hne. destruct (decide (h' = h)) as [->|]; auto. }
  assert (EM : forall h' l', l' <> l -> (marks m' h' l' <-> marks m h' l')).
  { intros h' l' Hne. unfold marks, m'. cbn. specialize (Hls _ Hne). specialize (Hpo _ Hne).
    pose proof (marked_owning p l'). pose proof (marked_owning (pcs m h) l').
    split_on h' h; [clear -Hls Hpo H H0; tauto|done]. }
  assert (Hol : owns m' h l <-> (l ∈ ls \/ owning p l)) by (unfold owns, m'; cbn; by upd).
  assert (Hml : marks m' h l <-> (l ∈ ls \/ marked p l)) by (unfold marks, m'; cbn; by upd).
  assert (Honly : forall h', owns m' h' l -> h' = h).
  { intros h' Ho. destruct (decide (h' = h)) as [|Hne]; [done|].
    apply EOne in Ho; [|done]. by apply Hother in Ho. }
  assert (Hlk : locks m' l = k) by (unfold m'; cbn; by upd).
  assert (Hlk' : forall l', l' <> l -> locks m' l' = locks m l') by (intros; unfold m'; cbn; by upd).
  split.
  - intros l' h1 h2 H1 H2. destruct (decide (l' = l)) as [->|Hne].
    + by rewrite (Honly h1), (Honly h2).
    + rewrite EO in H1, H2 by done. by apply (inv_owner _ I l').
  - intros l'. destruct (decide (l' = l)) as [->|Hne].
    + rewrite Hlk. tauto.
    + rewrite Hlk' by done. apply (inv_locked _ I).
  - intros l'. destruct (decide (l' = l)) as [->|Hne].
    + rewrite Hlk. split; [intros; exists h; apply Hol; destruct Hk as [[]|[]]; [done|lia]|].
      intros [h' Ho]. rewrite (Honly _ Ho) in Ho. apply Hol in Ho. tauto.
    + rewrite Hlk' by done. rewrite (inv_held _ I). split; intros [h' Ho]; exists h'; by apply EO.
  - intros l' h'. destruct (decide (l' = l)) as [->|Hne].
    + rewrite Hlk. split.
      * intros E. destruct Hc as [[E' Hc]|[E' _]]; [|congruence].
        assert (h' = h) as -> by congruence. by apply Hml.
      * intros Hm. pose proof (Honly _ (marks_owns _ _ _ Hm)) as ->. apply Hml in Hm. tauto.
    + rewrite Hlk', EM by done. apply (inv_cpu _ I).
  - intros h'. pose proof (inv_noff _ I h'). unfold m'. cbn. split_on h' h; lia.
  - apply (inv_sie _ I).
  - intros h'. pose proof (inv_nodup _ I h'). unfold m'. cbn. by split_on h' h.
  - intros h' l'. pose proof (inv_fresh _ I h' l'). unfold m'. cbn. split_on h' h; auto.
  - intros h' l'. pose proof (inv_left _ I h' l'). unfold m'. cbn. split_on h' h; auto.
  - intros h'. pose proof (inv_calm _ I h'). unfold m'. cbn. split_on h' h; auto.
Qed.

(** Program points are constructors: decide [owning] and [marked] by injection. *)
Ltac at_point := unfold owns, marks, owning, marked in *; cbn in *; intros; try naive_solver.

Lemma noff_pos m h : Inv m -> 1 <= depth (pcs m h) -> 1 <= noff (cpus m h).
Proof. intros I H. pose proof (inv_noff _ I h). lia. Qed.

Lemma inv_move_pc m h p :
  Inv m ->
  (forall l, owning p l <-> owning (pcs m h) l) ->
  (forall l, marked p l <-> marked (pcs m h) l) ->
  depth p = depth (pcs m h) ->
  (forall l, acquiring p = Some l \/ releasing p = Some l -> l ∉ held m h) ->
  p <> Panicked ->
  Inv (at_pc h p m).
Proof.
  intros I Ho Hm Hn Ha Hp. rewrite <- (set_cpu_id h m).
  apply inv_move; auto; [lia|apply (inv_sie _ I)].
Qed.

Lemma inv_store m h p l k :
  Inv m ->
  owns m h l \/ locked (locks m l) = 0 ->
  (forall l', l' <> l -> ~ owning p l' /\ ~ owning (pcs m h) l') ->
  (locked k = 1 /\ owning p l \/ locked k = 0 /\ ~ owning p l) ->
  (lcpu k = Some h /\ marked p l \/ lcpu k = None /\ ~ marked p l) ->
  l ∉ held m h ->
  depth p = depth (pcs m h) ->
  (forall l', acquiring p = Some l' \/ releasing p = Some l' -> l' = l) ->
  p <> Panicked ->
  Inv (at_pc h p (set_lock l k m)).
Proof.
  intros I H1 H2 H3 H4 H5 H6 H7 H8.
  change (held m h) with (held (set_lock l k m) h) in H5.
  rewrite <- (set_held_id h (set_lock l k m)). apply inv_take; cbn in *; try tauto.
  - lia.
  - apply (inv_nodup _ I).
  - intros l' Hl'. by rewrite (H7 _ Hl').
Qed.

(** *** Every step keeps it *)

Lemma acquire_step_inv m h l : Inv m -> acquiring (pcs m h) = Some l -> Inv (acquire_step h m).
Proof.
  intros I Ha. pose proof (inv_fresh _ I h l Ha) as Hf.
  unfold acquire_step. destruct (pcs m h) eqn:E; try discriminate; injection Ha as ->.
  - apply inv_move_pc; auto; rewrite ?E; destruct (c_true _); at_point.
  - assert (lcpu (locks m l) <> Some h).
    { intros Hc. apply (inv_cpu _ I) in Hc. unfold marks in Hc. rewrite E in Hc. at_point. }
    rewrite decide_False by done. apply inv_move_pc; auto; rewrite ?E; at_point.
  - destruct (inv_locked _ I l) as [H0|H1].
    + rewrite H0. cbn. assert (lcpu (locks m l) = None) as Hc.
      { destruct (lcpu (locks m l)) as [h'|] eqn:Hc; [|done].
        apply (inv_cpu _ I), marks_owns in Hc. by apply (inv_free _ _ _ I) in Hc. }
      apply inv_store; auto; rewrite ?E, ?Hc; at_point.
    + rewrite H1. cbn. apply inv_move_pc; cbn; rewrite ?E; try done; [|at_point].
      by apply inv_relock.
  - apply inv_take; auto; rewrite ?E; cbn; try lia.
    + left. right. rewrite E. by left.
    + set_solver.
    + at_point.
    + left. split; [|set_solver]. apply (inv_owned _ h l I). right. rewrite E. by left.
    + left. set_solver.
    + constructor; [done|apply (inv_nodup _ I)].
    + naive_solver.
Qed.

Lemma release_step_inv m h l : Inv m -> releasing (pcs m h) = Some l -> Inv (release_step h m).
Proof.
  intros I Ha. pose proof (inv_left _ I h l Ha) as Hf.
  unfold release_step. destruct (pcs m h) eqn:E; try discriminate; injection Ha as ->.
  - rewrite (inv_owned m h l I) by (right; rewrite E; at_point).
    apply inv_move_pc; auto; rewrite ?E; at_point.
  - rewrite decide_True by (apply (inv_cpu _ I); right; rewrite E; at_point).
    apply inv_move_pc; auto; rewrite ?E; at_point.
  - apply inv_store; auto; rewrite ?E; try done; at_point.
    left. split; [|naive_solver]. apply (inv_owned m h l I). right. rewrite E. at_point.
  - assert (lcpu (locks m l) = None) as Hc.
    { destruct (lcpu (locks m l)) as [h'|] eqn:Hc; [|done].
      apply (inv_cpu _ I) in Hc as Hm. pose proof (marks_owns _ _ _ Hm) as Ho.
      assert (h' = h) as ->.
      { apply (inv_owner _ I l); [done|]. right. rewrite E. at_point. }
      unfold marks in Hm. rewrite E in Hm. at_point. }
    apply inv_store; auto; rewrite ?E, ?Hc; try done; at_point.
  - pose proof (noff_pos m h I) as Hn. rewrite E in Hn. cbn in Hn.
    assert (sie (cpus m h) = false) as Hs.
    { destruct (sie (cpus m h)) eqn:Hs; [|done]. apply (inv_sie _ I) in Hs. lia. }
    unfold pop_off. rewrite Hs. rewrite (proj2 (Z.ltb_ge _ _)) by lia.
    apply inv_move; auto; rewrite ?E; cbn; try lia; at_point.
Qed.

Lemma step_hart_inv m h : Inv m -> Inv (step_hart h m).
Proof.
  intros I. unfold step_hart.
  destruct (pcs m h) as [|l|l|l|l|l|l|l|l|l|] eqn:E; auto;
    solve [ apply (acquire_step_inv m h l I); by rewrite E
          | apply (release_step_inv m h l I); by rewrite E ].
Qed.

(** A change of the hart's own interrupt state by client code. *)
Lemma inv_client m h c' n :
  Inv m -> pcs m h = Client ->
  noff c' = Z.of_nat (length (held m h)) + Z.of_nat n -> (sie c' = true -> noff c' = 0) ->
  Inv (set_pushes h n (set_cpu h c' m)).
Proof.
  intros I E Hn Hs. split; try apply I.
  - intros h'. pose proof (inv_noff _ I h'). cbn. split_on h' h; [rewrite E; cbn|]; lia.
  - intros h'. pose proof (inv_sie _ I h'). cbn. split_on h' h; auto.
Qed.

Lemma inv_client_cpu m h c' :
  Inv m -> pcs m h = Client -> noff c' = noff (cpus m h) -> (sie c' = true -> noff c' = 0) ->
  Inv (set_cpu h c' m).
Proof.
  intros I E Hn Hs. assert (set_pushes h (pushes m h) (set_cpu h c' m) ≡ set_cpu h c' m) as <-.
  { split; [|done]. intros h'. cbn. by split_on h' h. }
  apply inv_client; auto. rewrite Hn, (inv_noff _ I h), E. cbn. lia.
Qed.

Lemma length_remove (l : nat) ls :
  NoDup ls -> l ∈ ls -> S (length (filter (fun x => x <> l) ls)) = length ls.
Proof.
  induction ls as [|x ls IH]; intros Hnd Hin; [set_solver|].
  apply list.NoDup_cons in Hnd as [Hx Hnd]. rewrite filter_cons.
  destruct (decide (x <> l)) as [Hne|Heq]; cbn.
  - rewrite IH; [done|done|set_solver].
  - assert (x = l) as -> by (destruct (decide (x = l)); tauto). f_equal.
    clear -Hx. induction ls as [|y ls IH]; [done|]. rewrite filter_cons, decide_True by set_solver.
    cbn. rewrite IH; [done|set_solver].
Qed.

Lemma call_inv m h o : Inv m -> pcs m h = Client -> allowed h o m = true -> Inv (call h o m).
Proof.
  intros I E Ha. pose proof (inv_noff _ I h) as Hn. rewrite E in Hn. cbn in Hn.
  destruct o as [l|l| | | | |b]; cbn [call allowed] in *; try apply bool_decide_eq_true in Ha.
  - apply inv_move; auto; rewrite ?E; cbn; try lia; at_point.
  - assert (at_pc h (RelHoldLocked l) (set_held h (filter (fun x => x <> l) (held m h))
              (set_lock l (locks m l) m)) ≡
            at_pc h (RelHoldLocked l) (set_held h (filter (fun x => x <> l) (held m h)) m)) as <-.
    { split; [done|]. intros l'. cbn. by split_on l' l. }
    assert (Hout : l ∉ filter (fun x => x <> l) (held m h)).
    { rewrite list_elem_of_filter. tauto. }
    apply inv_take; auto; rewrite ?E.
    + left. by left.
    + intros l' Hne. rewrite list_elem_of_filter. tauto.
    + at_point.
    + left. split; [apply (inv_owned m h l I); by left|right; at_point].
    + left. split; [apply (inv_cpu _ I); by left|right; at_point].
    + rewrite <- (length_remove l (held m h) (inv_nodup _ I h) Ha). cbn. lia.
    + apply list.NoDup_filter, (inv_nodup _ I).
    + cbn. intros l' [|[= <-]]; [done|]. done.
  - apply inv_client; cbn; auto; lia.
  - assert (sie (cpus m h) = false) as Hs.
    { destruct (sie (cpus m h)) eqn:Hs; [|done]. apply (inv_sie _ I) in Hs. lia. }
    unfold pop_off. rewrite Hs, (proj2 (Z.ltb_ge _ _)) by lia.
    apply inv_client; cbn; auto; [lia|]. intros H. apply andb_prop in H as [H _]. lia.
  - destruct Ha as [Hh Hp]. apply inv_client_cpu; cbn; auto. intros _. rewrite Hn, Hh, Hp. done.
  - apply inv_client_cpu; cbn; auto. done.
  - apply inv_client_cpu; cbn; auto. apply (inv_sie _ I).
Qed.

Lemma spin_reach_inv name ints m : reach name ints m -> Inv m.
Proof.
  induction 1; auto using inv_boot, step_hart_inv, call_inv.
Qed.

Lemma holding_marks m h l : Inv m -> holding h l m = true <-> marks m h l.
Proof.
  intros I. unfold holding. rewrite andb_true_iff, bool_decide_eq_true, (inv_cpu _ I).
  split; [tauto|]. intros H. split; [|done].
  by rewrite (inv_owned m h l I (marks_owns _ _ _ H)).
Qed.

(** C9: mutual exclusion.  Whatever [acquire], [release], [push_off], [pop_off] calls the
    harts make, in whatever interleaving of their memory accesses, a lock is held by at
    most one hart, no hart panics, [holding] answers whether this hart holds the lock, and
    interrupts can be on only while the hart holds no lock and is outside the lock code
    (so no interrupt handler can spin on a lock its own hart holds). *)
Theorem spin_mutual_exclusion name ints m :
  reach name ints m ->
  (forall l h1 h2, l ∈ held m h1 -> l ∈ held m h2 -> h1 = h2) /\
  (forall h, pcs m h <> Panicked) /\
  (forall h l, pcs m h = Client -> holding h l m = true <-> l ∈ held m h) /\
  (forall h, sie (cpus m h) = true -> held m h = [] /\ pcs m h = Client).
Proof.
  intros I%spin_reach_inv. repeat split.
  - intros l h1 h2 H1 H2. apply (inv_owner _ I l); by left.
  - apply (inv_calm _ I).
  - rewrite (holding_marks _ _ _ I). unfold marks. rewrite H. at_point.
  - rewrite (holding_marks _ _ _ I). by left.
  - apply (inv_sie _ I) in H. rewrite (inv_noff _ I h) in H.
    apply length_zero_iff_nil. destruct (pcs m h); cbn [depth] in H; lia.
  - apply (inv_sie _ I) in H. rewrite (inv_noff _ I h) in H. pose proof (inv_calm _ I h).
    destruct (pcs m h); cbn [depth] in H; auto; first [lia|done].
Qed.

(** A free lock is taken.  A hart at the exchange of [acquire] on a lock nobody has
    gets it with its next two steps; while another hart has it, a step changes nothing:
    the hart keeps spinning. *)
Theorem spin_progress name ints m h l :
  reach name ints m -> pcs m h = AcqSwap l ->
  (locked (locks m l) = 0 ->
     let m' := step_hart h (step_hart h m) in pcs m' h = Client /\ l ∈ held m' h) /\
  (forall h', owns m h' l -> step_hart h m ≡ m).
Proof.
  intros I%spin_reach_inv E. split.
  - intros H0. cbn zeta. unfold step_hart at 2 4. rewrite E. unfold acquire_step. rewrite E, H0. cbn.
    unfold step_hart, acquire_step. cbn. upd. cbn. upd. split; [done|set_solver].
  - intros h' Ho. pose proof (inv_owned m h' l I Ho) as H1.
    unfold step_hart, acquire_step. rewrite E, H1. cbn. split; cbn; intros x.
    + by split_on x h.
    + split_on x l; [|done]. destruct (locks m l). cbn in *. by subst.
Qed.

(** Misuse is caught.  In a reachable state, [acquire] of a lock the hart holds and
    [release] of one it does not both end in [panic], and so does a [pop_off] without a
    [push_off]. *)
Theorem spin_misuse_panics name ints m h l :
  reach name ints m -> pcs m h = Client ->
  (l ∈ held m h -> pcs (Nat.iter 2 (step_hart h) (call h (Acquire l) m)) h = Panicked) /\
  (l ∉ held m h -> pcs (Nat.iter 2 (step_hart h) (call h (Release l) m)) h = Panicked) /\
  (held m h = [] -> pushes m h = 0%nat -> pcs (call h PopOff m) h = Panicked).
Proof.
  intros I%spin_reach_inv E. repeat split.
  - intros Hh. cbn. assert (H1 : locked (locks m l) = 1) by (apply (inv_owned m h l I); by left).
    assert (Hc : lcpu (locks m l) = Some h) by (apply (inv_cpu _ I); by left).
    unfold step_hart, acquire_step. cbn. upd. rewrite H1. cbn. upd.
    rewrite decide_True by done. cbn. by upd.
  - intros Hh. cbn. assert (Hc : lcpu (locks m l) <> Some h).
    { intros Hc. apply (inv_cpu _ I) in Hc as [?|Hc]; [done|]. rewrite E in Hc. at_point. }
    unfold step_hart, release_step. cbn. upd. destruct (c_true (locked (locks m l))); cbn; upd.
    + rewrite decide_False by done. cbn. by upd.
    + cbn. by upd.
  - intros Hh Hp. pose proof (inv_noff _ I h) as Hn. rewrite E, Hh, Hp in Hn.
    change (noff (cpus m h) = 0) in Hn. cbn. unfold pop_off. rewrite Hn. cbn. destruct (sie _); cbn; by upd.
Qed.

(** *** Nesting *)

(** A sequence of [push_off] ([true]) and [pop_off] ([false]) calls on one hart. *)
Fixpoint runs (ops : list bool) (c : cpu) : option cpu :=
  match ops with
  | [] => Some c
  | true :: ops' => runs ops' (push_off c)
  | false :: ops' => c' ← pop_off c; runs ops' c'
  end.

Inductive balanced : list bool -> Prop :=
  | bal_nil : balanced []
  | bal_app w1 w2 : balanced w1 -> balanced w2 -> balanced (w1 ++ w2)
  | bal_wrap w : balanced w -> balanced (true :: w ++ [false]).

Lemma runs_app w1 w2 c : runs (w1 ++ w2) c = c' ← runs w1 c; runs w2 c'.
Proof.
  revert c. induction w1 as [|[] w1 IH]; intros c; cbn; [done|apply IH|].
  destruct (pop_off c); cbn; [apply IH|done].
Qed.

(** What a hart's interrupt state always satisfies ([inv_sie], [inv_noff]). *)
Definition cpu_ok (c : cpu) : Prop := 0 <= noff c /\ (sie c = true -> noff c = 0).

Definition same_ints (c c' : cpu) : Prop :=
  noff c' = noff c /\ sie c' = sie c /\ (0 < noff c -> intena c' = intena c).

(** C0: [push_off] and [pop_off] nest.  Every balanced sequence of them, from any state a
    hart can be in, runs without a panic and leaves interrupts as they were: on again
    only if they were on before the outermost [push_off]. *)
Theorem push_pop_balanced w c :
  balanced w -> cpu_ok c -> exists c', runs w c = Some c' /\ same_ints c c'.
Proof.
  intros Hb. revert c. induction Hb as [|w1 w2 _ IH1 _ IH2|w _ IH]; intros c [Hn Hs].
  - exists c. by repeat split.
  - destruct (IH1 c) as (c1 & E1 & N1 & S1 & I1); [by split|].
    destruct (IH2 c1) as (c2 & E2 & N2 & S2 & I2).
    { split; [lia|]. rewrite S1, N1. done. }
    exists c2. rewrite runs_app, E1. split; [done|]. split; [lia|]. split; [congruence|].
    intros H. rewrite I2, I1 by lia. done.
  - destruct (IH (push_off c)) as (c1 & E1 & N1 & S1 & I1); [split; cbn; [lia|done]|].
    cbn in *. exists (mkCpu (noff c) (intena c1) (sie c)). rewrite runs_app, E1. cbn.
    unfold pop_off. rewrite S1, N1, (proj2 (Z.ltb_ge _ _)) by lia. cbn.
    rewrite I1, Z.add_simpl_r by lia. destruct (Z.eqb_spec (noff c) 0) as [E0|E0]; cbn.
    + split; [done|]. repeat split. lia.
    + destruct (sie c) eqn:Hc; [by rewrite Hs in E0|]. by repeat split.
Qed.

(** Two harts: hart 1 has interrupts on, hart 0 holds lock 7 and hart 1 spins on it. *)
Definition demo_boot : mach := boot (fun _ => "lk") (fun h => Nat.eqb h 1).
Definition demo_held : mach := Nat.iter 3 (step_hart 0) (call 0 (Acquire 7) demo_boot).
Definition demo_spin : mach := Nat.iter 2 (step_hart 1) (call 1 (Acquire 7) demo_held).
Definition demo_free : mach := Nat.iter 4 (step_hart 0) (call 0 (Release 7) demo_spin).

Lemma demo_held_reach : reach (fun _ => "lk") (fun h => Nat.eqb h 1) demo_held.
Proof. repeat apply reach_step. apply reach_call; [apply reach_boot|done|done]. Qed.

Lemma demo_spin_reach : reach (fun _ => "lk") (fun h => Nat.eqb h 1) demo_spin.
Proof. repeat apply reach_step. apply reach_call; [apply demo_held_reach|done|done]. Qed.

Lemma demo_free_reach : reach (fun _ => "lk") (fun h => Nat.eqb h 1) demo_free.
Proof. repeat apply reach_step. apply reach_call; [apply demo_spin_reach|done|done]. Qed.

Lemma spin_mutual_exclusion_witness :
  held demo_spin 0 = [7%nat] /\ pcs demo_spin 1 = AcqSwap 7 /\
  sie (cpus demo_spin 1) = false /\ 7%nat ∉ held demo_spin 1.
Proof.
  repeat split. intros H.
  pose proof (proj1 (spin_mutual_exclusion _ _ _ demo_spin_reach) 7%nat 0%nat 1%nat) as Hm.
  discriminate Hm; [left|exact H].
Defined.

Lemma spin_progress_witness :
  pcs (step_hart 1 (step_hart 1 demo_free)) 1 = Client /\ step_hart 1 demo_spin ≡ demo_spin.
Proof.
  split.
  - apply (spin_progress _ _ demo_free 1 7 demo_free_reach eq_refl). reflexivity.
  - apply (proj2 (spin_progress _ _ demo_spin 1 7 demo_spin_reach eq_refl)) with (h' := 0%nat).
    left. left.
Defined.

Lemma spin_misuse_panics_witness :
  pcs (Nat.iter 2 (step_hart 0) (call 0 (Acquire 7) demo_held)) 0 = Panicked /\
  pcs (Nat.iter 2 (step_hart 0) (call 0 (Release 8) demo_held)) 0 = Panicked.
Proof.
  split.
  - apply (spin_misuse_panics _ _ demo_held 0 7 demo_held_reach eq_refl). left.
  - apply (spin_misuse_panics _ _ demo_held 0 8 demo_held_reach eq_refl).
    apply (bool_decide_eq_true_1 (8%nat ∉ held demo_held 0)). reflexivity.
Defined.

Lemma push_pop_balanced_witness :
  exists c', runs [true; true; false; true; false; false] (mkCpu 0 false true) = Some c' /\
             same_ints (mkCpu 0 false true) c'.
Proof.
  apply push_pop_balanced; [|by split].
  apply (bal_wrap ([true] ++ [] ++ [false] ++ [true; false])).
  change (balanced ((true :: [] ++ [false]) ++ (true :: [] ++ [false]))).
  apply bal_app; apply bal_wrap; constructor.
Defined.

End Spin.

Module SleepLk.

(** [struct sleeplock] without the spin lock and the name. *)
Record sleeplock := mkSleep { locked : Z; lpid : Z }.

Definition initsleeplock : sleeplock := mkSleep 0 0.

(** A process is outside the lock, runnable inside [acquiresleep], asleep on the lock, or
    has returned from [acquiresleep]. *)
Inductive phase := Outside | Trying | Asleep | Inside.
#[export] Instance phase_eq_dec : EqDecision phase.
Proof. solve_decision. Defined.

Record sst := mkSst { lk : sleeplock; ph : nat -> phase }.

Section sleeplk.
(** The pid of each process. *)
Context (pid : nat -> Z).

(** [wakeup(lk)]: every sleeper on the lock becomes runnable. *)
Definition wakeup (s : sst) : sst :=
  mkSst (lk s) (fun p => if decide (ph s p = Asleep) then Trying else ph s p).

(** One run of [acquiresleep] by process [p], from [acquire(&lk->lk)] to the [sleep] that
    gives the spin lock up, or to the return.  A process woken up evaluates the loop
    condition again, which is another run. *)
Definition acquiresleep (p : nat) (s : sst) : sst :=
  if c_true (locked (lk s)) then mkSst (lk s) (<[p := Asleep]> (ph s))
  else mkSst (mkSleep 1 (pid p)) (<[p := Inside]> (ph s)).

Definition releasesleep (p : nat) (s : sst) : sst :=
  let s' := wakeup (mkSst (mkSleep 0 0) (ph s)) in
  mkSst (lk s') (<[p := Outside]> (ph s')).

Definition holdingsleep (p : nat) (s : sst) : bool :=
  c_true (locked (lk s)) && (lpid (lk s) =? pid p).

(** Processes call [acquiresleep], run, are woken by [kkill], and release what they hold. *)
Inductive sreach : sst -> Prop :=
  | sreach_init : sreach (mkSst initsleeplock (fun _ => Outside))
  | sreach_call s p :
      sreach s -> ph s p = Outside -> sreach (mkSst (lk s) (<[p := Trying]> (ph s)))
  | sreach_run s p : sreach s -> ph s p = Trying -> sreach (acquiresleep p s)
  | sreach_kill s p :
      sreach s -> ph s p = Asleep -> sreach (mkSst (lk s) (<[p := Trying]> (ph s)))
  | sreach_release s p : sreach s -> ph s p = Inside -> sreach (releasesleep p s).

(** The lock is free and nobody sleeps or is inside, or exactly one process is. *)
Definition free (s : sst) : Prop :=
  lk s = mkSleep 0 0 /\ forall p, ph s p <> Inside /\ ph s p <> Asleep.
Definition owned (s : sst) (q : nat) : Prop :=
  lk s = mkSleep 1 (pid q) /\ forall p, ph s p = Inside <-> p = q.

Lemma sreach_cases s : sreach s -> free s \/ exists q, owned s q.
Proof.
  induction 1 as [|s p _ IH E|s p _ IH E|s p _ IH E|s p _ IH E].
  - by left.
  - destruct IH as [[Hl H]|[q [Hl H]]]; [left|right; exists q]; split; cbn; auto; intros p'.
    + destruct (decide (p' = p)) as [->|]; [by rewrite fn_lookup_insert|].
      by rewrite fn_lookup_insert_ne.
    + destruct (decide (p' = p)) as [->|]; [rewrite fn_lookup_insert, <- H, E; done|].
      by rewrite fn_lookup_insert_ne.
  - right. unfold acquiresleep. destruct IH as [[Hl H]|[q [Hl H]]]; rewrite Hl; cbn.
    + exists p. split; [done|]. cbn. intros p'.
      destruct (decide (p' = p)) as [->|]; [by rewrite fn_lookup_insert|].
      rewrite fn_lookup_insert_ne by done. split; [|done]. intros Hi. by destruct (H p').
    + exists q. split; [done|]. cbn. intros p'.
      destruct (decide (p' = p)) as [->|]; [rewrite fn_lookup_insert, <- H, E; done|].
      by rewrite fn_lookup_insert_ne.
  - destruct IH as [[Hl H]|[q [Hl H]]]; [by destruct (H p)|].
    right. exists q. split; [done|]. cbn. intros p'.
    destruct (decide (p' = p)) as [->|]; [rewrite fn_lookup_insert, <- H, E; done|].
    by rewrite fn_lookup_insert_ne.
  - destruct IH as [[Hl H]|[q [Hl H]]]; [by destruct (H p)|].
    left. split; [done|]. cbn. intros p'. apply H in E as ->.
    destruct (decide (p' = q)) as [->|Hne]; [by rewrite fn_lookup_insert|].
    rewrite fn_lookup_insert_ne by done. destruct (decide (ph s p' = Asleep)) as [|Hna]; [done|].
    rewrite H. done.
Qed.

End sleeplk.

(** Sleep locks.  With distinct pids, in every order of calls, runs, kills and
    releases, at most one process is inside; [holdingsleep] answers whether the caller
    is; a process asleep on the lock sleeps because another is inside, so no wakeup is
    ever lost, and the release of that one makes every sleeper runnable and the lock
    free, so that the first to run gets it. *)
Theorem sleeplock_correct (pid : nat -> Z) s :
  (forall p q, pid p = pid q -> p = q) -> sreach pid s ->
  (forall p q, ph s p = Inside -> ph s q = Inside -> p = q) /\
  (forall p, holdingsleep pid p s = true <-> ph s p = Inside) /\
  (forall p, ph s p = Asleep -> exists q, ph s q = Inside /\
     ph (releasesleep q s) p = Trying /\
     ph (acquiresleep pid p (releasesleep q s)) p = Inside).
Proof.
  intros Hinj Hr. apply sreach_cases in Hr as [[Hl H]|[q [Hl H]]].
  - repeat split.
    + intros p q Hp. by destruct (H p).
    + unfold holdingsleep. by rewrite Hl.
    + intros Hp. by destruct (H p).
    + intros p Hp. by destruct (H p).
  - repeat split.
    + intros p p' Hp%H Hp'%H. congruence.
    + unfold holdingsleep. rewrite Hl. cbn. intros E%Z.eqb_eq. by apply H, Hinj.
    + unfold holdingsleep. rewrite Hl. cbn. intros ->%H. by apply Z.eqb_eq.
    + intros p Hp. exists q. split; [by apply H|]. assert (p <> q).
      { intros ->. assert (ph s q = Inside) by by apply H. congruence. }
      cbn. rewrite fn_lookup_insert_ne, decide_True by done. split; [done|].
      unfold acquiresleep. cbn. by rewrite fn_lookup_insert.
Qed.

Definition demo_pid (p : nat) : Z := Z.of_nat p + 1.
(** Process 0 takes the lock and process 1 sleeps on it. *)
Definition demo0 : sst := mkSst initsleeplock (fun _ => Outside).
Definition demo1 : sst := acquiresleep demo_pid 0 (mkSst (lk demo0) (<[0%nat := Trying]> (ph demo0))).
Definition demo2 : sst := acquiresleep demo_pid 1 (mkSst (lk demo1) (<[1%nat := Trying]> (ph demo1))).

Lemma sleeplock_correct_witness :
  exists q, ph demo2 q = Inside /\ ph (releasesleep q demo2) 1%nat = Trying /\
            ph (acquiresleep demo_pid 1 (releasesleep q demo2)) 1%nat = Inside.
Proof.
  assert (R : sreach demo_pid demo2).
  { apply sreach_run; [|reflexivity]. apply sreach_call; [|reflexivity].
    apply sreach_run; [|reflexivity]. apply sreach_call; [|reflexivity]. apply sreach_init. }
  assert (Hinj : forall p q, demo_pid p = demo_pid q -> p = q) by (unfold demo_pid; lia).
  destruct (sleeplock_correct demo_pid demo2 Hinj R) as (_ & _ & Hs).
  exact (Hs 1%nat eq_refl).
Defined.

End SleepLk.
