(* ===== verification/Umalloc.v ===== *)
(** * The user allocator: [user/umalloc.c]

    The Kernighan-Ritchie allocator in byte-addressed user memory.  A header is two
    fields, [s.ptr] (8 bytes at the header's address) and [s.size] (4 bytes, at offset
    8), and occupies [sizeof(Header) = 16] bytes, the unit of block sizes.  Free blocks
    form a circular list in address order that starts at the static header [base].

    Parameters: [base_], the address the linker gives [base]; [grant], whether the kernel
    grants the k-th [sbrk] when the break is at [b] and [n] bytes are asked.  The memory
    that [sbrk] adds holds anything. *)
From stdpp Require Import base list sorting.
From Stdlib Require Import ZArith Lia.
From S2P Require Import Prelude Riscv CString Kalloc.

(** [sizeof(Header)]. *)
Definition HDR : Z := 16.

(** User memory, [freep], the break ([p->sz]) and the number of [sbrk] calls so far. *)
Record ust := mkU { um : mem; freep : Z; brk : Z; calls : nat }.

Definition ptr (m : mem) (p : Z) : Z := load 8 m p.
Definition size (m : mem) (p : Z) : Z := load 4 m (p + 8).
Definition set_ptr (p v : Z) (m : mem) : mem := store 8 m p v.
Definition set_size (p v : Z) (m : mem) : mem := store 4 m (p + 8) v.

#[global] Arguments ptr : simpl never.
#[global] Arguments size : simpl never.
#[global] Arguments set_ptr : simpl never.
#[global] Arguments set_size : simpl never.

Definition with_um (m : mem) (s : ust) : ust := mkU m (freep s) (brk s) (calls s).
Definition with_freep (p : Z) (s : ust) : ust := mkU (um s) p (brk s) (calls s).

(** The loop of [free]: [bp] belongs after [p]. *)
Definition stops (m : mem) (bp p : Z) : bool :=
  let nx := ptr m p in
  ((p <? bp) && (bp <? nx)) || ((nx <=? p) && ((p <? bp) || (bp <? nx))).

Fixpoint find_loop (fuel : nat) (m : mem) (bp p : Z) : option Z :=
  match fuel with
  | O => None
  | S f => if stops m bp p then Some p else find_loop f m bp (ptr m p)
  end.

(** Enough for every ring: its headers are [HDR] bytes apart below the break. *)
Definition ring_fuel (s : ust) : nat := Z.to_nat (brk s / HDR + 2).

(** The stores of [free] once [p] is found: join to the upper neighbour, then to the
    lower one. *)
Definition join_next (bp p : Z) (m : mem) : mem :=
  if bp + HDR * size m bp =? ptr m p then
    let m' := set_size bp (u32 (size m bp + size m (ptr m p))) m in
    set_ptr bp (ptr m' (ptr m' p)) m'
  else set_ptr bp (ptr m p) m.

Definition join_prev (bp p : Z) (m : mem) : mem :=
  if p + HDR * size m p =? bp then
    let m' := set_size p (u32 (size m p + size m bp)) m in
    set_ptr p (ptr m' bp) m'
  else set_ptr p bp m.

Definition link_free (bp p : Z) (m : mem) : mem := join_prev bp p (join_next bp p m).

Definition free (ap : Z) : M ust unit := fun s =>
  let bp := ap - HDR in
  match find_loop (ring_fuel s) (um s) bp (freep s) with
  | None => Undef "free: the list does not close"
  | Some p => Ret (tt, with_freep p (with_um (link_free bp p (um s)) s))
  end.

Section alloc.
Context (base_ : Z) (grant : nat -> Z -> Z -> bool).

(** [sbrk(n)] of an [int]: the user stub, [sys_sbrk] with [SBRK_EAGER] and [growproc];
    [None] is [SBRK_ERROR]. *)
Definition sbrk (n : Z) : M ust (option Z) := fun s =>
  let s' b := mkU (um s) (freep s) b (S (calls s)) in
  if 0 <? n then
    if (TRAPFRAME <? brk s + n) || negb (grant (calls s) (brk s) n) then Ret (None, s' (brk s))
    else Ret (Some (brk s), s' (brk s + n))
  else if n <? 0 then
    Ret (Some (brk s), s' (if brk s <=? u64 (brk s + n) then brk s else u64 (brk s + n)))
  else Ret (Some (brk s), s' (brk s)).

(** [morecore(nu)]; 0 is failure. *)
Definition morecore (nu : Z) : M ust Z :=
  let nu := if nu <? 4096 then 4096 else nu in
  p ← sbrk (swrap 32 (nu * HDR));
  match p with
  | None => mret 0
  | Some hp =>
      modify (fun s => with_um (set_size hp nu (um s)) s);;
      free (hp + HDR);;
      gets freep
  end.

(** The stores of [malloc] when the block at [p] is large enough, and the header handed
    out. *)
Definition carve (nunits p prevp : Z) (m : mem) : mem * Z :=
  if size m p =? nunits then (set_ptr prevp (ptr m p) m, p)
  else
    let m1 := set_size p (u32 (size m p - nunits)) m in
    let p' := p + HDR * size m1 p in
    (set_size p' nunits m1, p').

Fixpoint malloc_loop (fuel : nat) (nunits p prevp : Z) : M ust Z :=
  match fuel with
  | O => undef "malloc: the list does not close"
  | S f =>
      s ← get;
      if nunits <=? size (um s) p then
        let r := carve nunits p prevp (um s) in
        put (with_freep prevp (with_um (fst r) s));;
        mret (snd r + HDR)
      else if p =? freep s then
        q ← morecore nunits;
        if q =? 0 then mret 0
        else s' ← get; malloc_loop f nunits (ptr (um s') q) q
      else malloc_loop f nunits (ptr (um s) p) p
  end.

(** [nunits]: [nbytes + sizeof(Header) - 1] is computed in 64 bits. *)
Definition units (nbytes : Z) : Z := u32 ((nbytes + HDR - 1) / HDR + 1).

Definition malloc (nbytes : Z) : M ust Z :=
  modify (fun s =>
    if freep s =? 0 then
      with_freep base_ (with_um (set_size base_ 0 (set_ptr base_ base_ (um s))) s)
    else s);;
  s ← get;
  malloc_loop (2 * ring_fuel s + 2) (units nbytes) (ptr (um s) (freep s)) (freep s).

End alloc.

(** ** Headers in memory *)

Lemma ptr_ext m m' p : (forall x, p <= x < p + 8 -> m x = m' x) -> ptr m p = ptr m' p.
Proof. intros H. apply ld_ext. intros x Hx. apply H. lia. Qed.

Lemma size_ext m m' p : (forall x, p + 8 <= x < p + 12 -> m x = m' x) -> size m p = size m' p.
Proof. intros H. apply ld_ext. intros x Hx. apply H. lia. Qed.

Lemma set_ptr_out p v m x : x < p \/ p + 8 <= x -> set_ptr p v m x = m x.
Proof. intros H. apply store_out. lia. Qed.

Lemma set_size_out p v m x : x < p + 8 \/ p + 12 <= x -> set_size p v m x = m x.
Proof. intros H. apply store_out. lia. Qed.

Lemma ptr_set_ptr p v m : 0 <= v < 2 ^ 64 -> ptr (set_ptr p v m) p = v.
Proof. intros H. unfold ptr, set_ptr. rewrite load_store. by apply Z.mod_small. Qed.

Lemma size_set_size p v m : 0 <= v < 2 ^ 32 -> size (set_size p v m) p = v.
Proof. intros H. unfold size, set_size. rewrite load_store. by apply Z.mod_small. Qed.

Lemma ptr_set_ptr_ne p v m q : q + 8 <= p \/ p + 8 <= q -> ptr (set_ptr p v m) q = ptr m q.
Proof. intros H. apply ptr_ext. intros x Hx. apply set_ptr_out. lia. Qed.

Lemma ptr_set_size p v m q : q <= p \/ p + 12 <= q -> ptr (set_size p v m) q = ptr m q.
Proof. intros H. apply ptr_ext. intros x Hx. apply set_size_out. lia. Qed.

Lemma size_set_ptr p v m q : q + 12 <= p \/ p <= q -> size (set_ptr p v m) q = size m q.
Proof. intros H. apply size_ext. intros x Hx. apply set_ptr_out. lia. Qed.

Lemma size_set_size_ne p v m q : q + 4 <= p \/ p + 4 <= q -> size (set_size p v m) q = size m q.
Proof. intros H. apply size_ext. intros x Hx. apply set_size_out. lia. Qed.

(** Read headers through stores into this or another header. *)
Ltac hdr :=
  repeat first
    [ rewrite ptr_set_ptr by lia | rewrite size_set_size by lia
    | rewrite ptr_set_ptr_ne by lia | rewrite ptr_set_size by lia
    | rewrite size_set_ptr by lia | rewrite size_set_size_ne by lia ].

(** ** Blocks *)

(** A block: the address of its header and its size in units. *)
Notation blk := (Z * Z)%type.
Definition bend (x : blk) : Z := x.1 + HDR * x.2.
Definition in_blk (x : blk) (a : Z) : Prop := x.1 <= a < bend x.
Definition apart (x y : blk) : Prop := bend x <= y.1 \/ bend y <= x.1.
Definition below (x y : blk) : Prop := bend x < y.1 /\ x.1 + HDR <= y.1.

Fixpoint all_apart (l : list blk) : Prop :=
  match l with [] => True | x :: r => Forall (apart x) r /\ all_apart r end.

Definition total (l : list blk) : Z := foldr (fun x n => x.2 + n) 0 l.

(** The address after a list of nodes: the first of the next ones, or the end [e]. *)
Definition nxt (e : Z) (l : list blk) : Z := match l with [] => e | x :: _ => x.1 end.

(** The nodes of [l] are linked in order and the last one points to [e]. *)
Fixpoint links (m : mem) (e : Z) (l : list blk) : Prop :=
  match l with [] => True | x :: r => ptr m x.1 = nxt e r /\ links m e r end.

Lemma nxt_app e l1 l2 : nxt e (l1 ++ l2) = nxt (nxt e l2) l1.
Proof. by destruct l1. Qed.

Lemma links_app m e l1 l2 : links m e (l1 ++ l2) <-> links m (nxt e l2) l1 /\ links m e l2.
Proof.
  induction l1 as [|x l1 IH]; cbn; [tauto|]. rewrite IH, nxt_app. tauto.
Qed.

Lemma links_ext m m' e l :
  (forall x, x ∈ l -> ptr m' x.1 = ptr m x.1) -> links m e l -> links m' e l.
Proof.
  induction l as [|x l IH]; cbn; [done|]. intros H [H1 H2]. rewrite H by left. split; [done|].
  apply IH; [|done]. intros y Hy. apply H. by right.
Qed.

#[export] Instance apart_sym : Symmetric apart.
Proof. intros x y [H|H]; [right|left]; done. Qed.

Lemma all_apart_perm l1 l2 : l1 ≡ₚ l2 -> all_apart l1 -> all_apart l2.
Proof.
  induction 1 as [|x l1 l2 Hp IH|x y l|l1 l2 l3 _ IH1 _ IH2]; cbn; auto.
  - intros [H1 H2]. split; [by rewrite <- Hp|auto].
  - rewrite !list.Forall_cons. intros [[H1 H2] [H3 H4]]. repeat split; auto. by symmetry.
Qed.

#[export] Instance all_apart_proper : Proper ((≡ₚ) ==> iff) all_apart.
Proof. intros l1 l2 H. split; apply all_apart_perm; [done|by symmetry]. Qed.

#[export] Instance total_proper : Proper ((≡ₚ) ==> eq) total.
Proof.
  intros l1 l2 H. unfold total. induction H; cbn; lia.
Qed.

Lemma total_app l1 l2 : total (l1 ++ l2) = total l1 + total l2.
Proof. unfold total. induction l1; cbn; lia. Qed.

(** Two blocks that touch are one block. *)
Lemma all_apart_merge b k j l :
  0 < k -> 0 < j ->
  Forall (fun x => 0 < x.2) l ->
  all_apart ((b, k) :: (b + HDR * k, j) :: l) -> all_apart ((b, k + j) :: l).
Proof.
  intros Hk Hj Hl (H1 & H2 & H3). split; [|done]. apply list.Forall_cons in H1 as [_ H1].
  rewrite list.Forall_forall in *. intros x Hx. specialize (Hl x Hx). specialize (H1 x Hx).
  specialize (H2 x Hx). destruct x as [xa xn]. unfold apart, bend, HDR in *. cbn in *. lia.
Qed.

(** And one block is two that touch. *)
Lemma all_apart_split b k j l :
  0 < k -> 0 < j -> all_apart ((b, k + j) :: l) -> all_apart ((b, k) :: (b + HDR * k, j) :: l).
Proof.
  intros Hk Hj [H1 H2]. cbn. rewrite list.Forall_cons, !list.Forall_forall in *.
  repeat split; auto; unfold apart, bend, HDR in *; cbn in *.
  - lia.
  - intros x Hx. specialize (H1 x Hx). lia.
  - intros x Hx. specialize (H1 x Hx). lia.
Qed.

(** ** The ring *)

Section ring.
Context (base_ : Z).

(** [x] is a block of the heap: not empty, above [base], below the break, its size in its
    header. *)
Definition okb (s : ust) (x : blk) : Prop :=
  0 < x.2 /\ base_ + HDR <= x.1 /\ bend x <= brk s /\ size (um s) x.1 = x.2.

(** The nodes of the ring. *)
Definition nodes (fl : list blk) : list blk := (base_, 0) :: fl.

(** The heap: free blocks [fl] in address order, never two that touch; blocks handed out
    [al]; no two blocks overlap. *)
Record UInv (s : ust) (fl al : list blk) : Prop := {
  ui_low : 0 < base_;
  ui_brk : base_ + HDR <= brk s <= 2 ^ 36;
  ui_base : size (um s) base_ = 0;
  ui_links : links (um s) base_ (nodes fl);
  ui_sorted : StronglySorted below (nodes fl);
  ui_ok : Forall (okb s) (fl ++ al);
  ui_apart : all_apart (fl ++ al);
  ui_freep : freep s ∈ (nodes fl).*1 }.

Lemma nodes_room s fl al x :
  UInv s fl al -> x ∈ nodes fl -> base_ <= x.1 /\ x.1 + HDR <= brk s /\ 0 <= x.2 /\
  size (um s) x.1 = x.2.
Proof.
  intros I Hx. pose proof (ui_low _ _ _ I). pose proof (ui_brk _ _ _ I).
  apply elem_of_cons in Hx as [->|Hx]; cbn.
  - unfold HDR in *. split; [lia|]. split; [lia|]. split; [lia|]. apply (ui_base _ _ _ I).
  - pose proof (ui_ok _ _ _ I) as Hok. rewrite list.Forall_forall in Hok.
    destruct (Hok x) as (H1 & H2 & H3 & H4); [set_solver|].
    unfold bend, HDR in *. split; [lia|]. split; [lia|]. split; [lia|done].
Qed.

Lemma all_apart_app l1 l2 x y : all_apart (l1 ++ l2) -> x ∈ l1 -> y ∈ l2 -> apart x y.
Proof.
  induction l1 as [|z l1 IH]; [set_solver|]. cbn. intros [H1 H2] Hx Hy.
  apply elem_of_cons in Hx as [->|Hx]; [|by apply IH].
  rewrite list.Forall_forall in H1. apply H1. set_solver.
Qed.

(** A block in use lies before a node of the ring or after it. *)
Lemma used_apart s fl al x y :
  UInv s fl al -> x ∈ nodes fl -> y ∈ al ->
  0 < y.2 /\ base_ + HDR <= y.1 /\ (bend y <= x.1 \/ (bend x <= y.1 /\ x.1 + HDR <= y.1)).
Proof.
  intros I Hx Hy. pose proof (ui_ok _ _ _ I) as Hok. rewrite list.Forall_forall in Hok.
  destruct (Hok y) as (Y1 & Y2 & _); [set_solver|]. split; [done|]. split; [done|].
  apply elem_of_cons in Hx as [->|Hx]; [right; unfold bend, HDR in *; cbn in *; lia|].
  destruct (Hok x) as (X1 & _); [set_solver|].
  pose proof (all_apart_app _ _ x y (ui_apart _ _ _ I) Hx Hy). unfold apart, bend, HDR in *. lia.
Qed.

Lemma sorted_room l lo hi :
  StronglySorted below l -> (forall x, x ∈ l -> lo <= x.1 /\ x.1 + HDR <= hi) ->
  l <> [] -> HDR * Z.of_nat (length l) <= hi - lo.
Proof.
  intros Hs. revert lo. induction Hs as [|x l Hs IH Hx]; intros lo H Hne; [done|].
  destruct (H x) as [H1 H2]; [by left|]. destruct l as [|y l]; [cbn; unfold HDR in *; lia|].
  assert (HDR * Z.of_nat (length (y :: l)) <= hi - (lo + HDR)).
  { apply IH; [|done]. intros z Hz. rewrite list.Forall_forall in Hx. destruct (Hx z Hz) as [_ Hb].
    destruct (H z) as [_ H3]; [by right|]. lia. }
  cbn [length] in *. unfold HDR in *. lia.
Qed.

Lemma ring_fuel_enough s fl al : UInv s fl al -> (length (nodes fl) <= ring_fuel s)%nat.
Proof.
  intros I. pose proof (ui_low _ _ _ I). pose proof (ui_brk _ _ _ I).
  assert (HDR * Z.of_nat (length (nodes fl)) <= brk s - 0).
  { apply sorted_room; [apply (ui_sorted _ _ _ I)| |done].
    intros x Hx. pose proof (nodes_room _ _ _ _ I Hx). lia. }
  unfold ring_fuel, HDR in *. pose proof (Z.div_mod (brk s) 16).
  pose proof (Z.mod_pos_bound (brk s) 16). lia.
Qed.

(** Starting at any node, the pointers visit all nodes and come back to it. *)
Lemma links_rotate m fl l1 x l2 :
  links m base_ (nodes fl) -> nodes fl = l1 ++ x :: l2 -> links m x.1 (x :: l2 ++ l1).
Proof.
  intros H E. rewrite E in H. apply links_app in H as [H1 H2].
  apply (links_app m x.1 (x :: l2) l1). split; [|done].
  replace (nxt x.1 l1) with base_; [done|]. destruct l1 as [|y l1]; injection E as <- _; done.
Qed.

Lemma find_loop_walk m bp e r y fuel :
  links m e r -> y ∈ r -> stops m bp y.1 = true -> (length r <= fuel)%nat ->
  exists z, z ∈ r /\ find_loop fuel m bp (nxt e r) = Some z.1 /\ stops m bp z.1 = true.
Proof.
  revert fuel. induction r as [|x r IH]; intros fuel Hl Hy Hs Hf; [set_solver|].
  destruct fuel as [|fuel]; [cbn in Hf; lia|]. cbn in Hl, Hf |- *. destruct Hl as [Hp Hl].
  destruct (stops m bp x.1) eqn:Hx; [exists x; set_solver|].
  rewrite Hp. apply elem_of_cons in Hy as [->|Hy]; [congruence|].
  destruct (IH fuel Hl Hy Hs) as (z & Hz & E & Hsz); [lia|]. exists z. set_solver.
Qed.

(** The nodes before and after a new block. *)
Definition before (bk : blk) (x : blk) : Prop := bend x <= bk.1 /\ x.1 + HDR <= bk.1.

Lemma split_around fl bk :
  StronglySorted below (nodes fl) -> base_ + HDR <= bk.1 -> 0 < bk.2 ->
  Forall (fun x => 0 < x.2 /\ apart x bk) fl ->
  exists l1 x l2, nodes fl = l1 ++ x :: l2 /\ Forall (before bk) (l1 ++ [x]) /\
    Forall (fun y => bend bk <= y.1) l2.
Proof.
  intros Hs Hb Hk Hf.
  assert (Hbase : before bk (base_, 0)) by (unfold before, bend, HDR in *; cbn; lia).
  enough (forall x l, before bk x -> StronglySorted below (x :: l) ->
            Forall (fun x => 0 < x.2 /\ apart x bk) l ->
            exists l1 z l2, x :: l = l1 ++ z :: l2 /\ Forall (before bk) (l1 ++ [z]) /\
              Forall (fun y => bend bk <= y.1) l2) by eauto.
  clear Hs Hf Hbase. intros x l. revert x. induction l as [|y l IH]; intros x Hx Hs Hf.
  - exists [], x, []. split; [done|]. split; [by apply list.Forall_singleton|constructor].
  - apply list.Forall_cons in Hf as [[Hy1 Hy2] Hf]. apply StronglySorted_inv in Hs as [Hs Hxy].
    destruct (decide (bend bk <= y.1)) as [Hle|Hgt].
    + exists [], x, (y :: l). split; [done|]. split; [by apply list.Forall_singleton|].
      constructor; [done|]. apply StronglySorted_inv in Hs as [_ Hyl].
      eapply list.Forall_impl; [exact Hyl|]. intros z [Hz1 Hz2]. unfold bend, HDR in *. lia.
    + destruct (IH y) as (l1 & z & l2 & E & H1 & H2); auto.
      { unfold before, apart, bend, HDR in *. lia. }
      exists (x :: l1), z, l2. rewrite E. split; [done|]. split; [|done]. cbn. by constructor.
Qed.

(** The loop's test holds at a node exactly when the block belongs right after it. *)
Lemma stops_here m fl l1 x l2 (bk : blk) :
  links m base_ (nodes fl) -> StronglySorted below (nodes fl) -> nodes fl = l1 ++ x :: l2 ->
  base_ + HDR <= bk.1 ->
  stops m bk.1 x.1 = true <-> x.1 < bk.1 /\ Forall (fun y : blk => bk.1 < y.1) l2.
Proof.
  intros Hl Hs E Hb. rewrite E in Hl, Hs. apply links_app in Hl as [_ [Hp _]].
  assert (Hx : base_ <= x.1).
  { destruct l1 as [|y l1]; injection E as <- E; [cbn; lia|].
    apply StronglySorted_app in Hs as (Hs & _ & _). destruct (Hs (base_, 0) x); [left|left|].
    unfold HDR in *. cbn in *. lia. }
  apply StronglySorted_app in Hs as (_ & _ & Hs). apply StronglySorted_inv in Hs as [Hs2 Hxl].
  unfold stops. rewrite Hp, !orb_true_iff, !andb_true_iff, orb_true_iff, !Z.ltb_lt, Z.leb_le.
  unfold HDR in *. destruct l2 as [|y l2]; cbn.
  - split; [|intros [? _]; lia]. intros. split; [lia|constructor].
  - apply list.Forall_cons in Hxl as [[Hy1 Hy2] _]. unfold HDR in *.
    rewrite list.Forall_cons. apply StronglySorted_inv in Hs2 as [_ Hyl].
    split; [|intros (? & ? & ?); lia]. intros H. assert (x.1 < bk.1 < y.1) by lia.
    split; [lia|]. split; [lia|]. eapply list.Forall_impl; [exact Hyl|].
    intros z [_ Hz]. unfold HDR in *. lia.
Qed.

(** [free] finds the node the block belongs after. *)
Lemma find_correct s fl al bk :
  UInv s fl (bk :: al) ->
  exists l1 x l2, nodes fl = l1 ++ x :: l2 /\
    find_loop (ring_fuel s) (um s) bk.1 (freep s) = Some x.1 /\
    Forall (before bk) (l1 ++ [x]) /\ Forall (fun y => bend bk <= y.1) l2.
Proof.
  intros I. pose proof (ui_links _ _ _ I) as Hl. pose proof (ui_sorted _ _ _ I) as Hs.
  pose proof (ui_ok _ _ _ I) as Hok. pose proof (ui_apart _ _ _ I) as Hap.
  rewrite <- Permutation_middle in Hok, Hap. cbn in Hap. destruct Hap as [Hap _].
  apply list.Forall_cons in Hok as [(Hk & Hb & _) Hok].
  apply list.Forall_app in Hok as [Hok _]. apply list.Forall_app in Hap as [Hap _].
  assert (Hf : Forall (fun x => 0 < x.2 /\ apart x bk) fl).
  { rewrite list.Forall_forall in *. intros x Hx. split; [apply (Hok x Hx)|symmetry; auto]. }
  destruct (split_around fl bk Hs Hb Hk Hf) as (l1 & x & l2 & E & H1 & H2).
  assert (Hst : stops (um s) bk.1 x.1 = true).
  { apply (stops_here (um s) fl l1 x l2 bk Hl Hs E Hb). apply list.Forall_app in H1 as [_ H1].
    apply list.Forall_singleton in H1 as [_ H1]. unfold HDR in *. split; [lia|].
    eapply list.Forall_impl; [exact H2|]. intros y Hy. cbn in *. unfold bend, HDR in *. lia. }
  pose proof (ui_freep _ _ _ I) as Hfp. apply list_elem_of_fmap in Hfp as (f & Ef & Hfin).
  apply list_elem_of_split in Hfin as (a & c & Eac).
  pose proof (links_rotate _ _ _ _ _ Hl Eac) as Hrot.
  assert (Hperm : nodes fl ≡ₚ f :: c ++ a) by (rewrite Eac; rewrite <- Permutation_middle, (Permutation_app_comm a); done).
  destruct (find_loop_walk (um s) bk.1 f.1 (f :: c ++ a) x (ring_fuel s)) as (z & Hz & Ez & Hsz); auto.
  { rewrite <- Hperm, E. set_solver. }
  { rewrite <- (Permutation_length Hperm). by eapply ring_fuel_enough. }
  rewrite <- Hperm in Hz. apply list_elem_of_split in Hz as (d1 & d2 & Ed).
  exists d1, z, d2. split; [done|]. split; [by rewrite Ef|].
  apply (stops_here (um s) fl d1 z d2 bk Hl Hs Ed Hb) in Hsz as [Hz1 Hz2].
  assert (Hnode : forall y, y ∈ nodes fl -> y = (base_, 0) \/ 0 < y.2 /\ apart y bk).
  { intros y Hy. apply elem_of_cons in Hy as [->|Hy]; [by left|right].
    rewrite list.Forall_forall in Hf. auto. }
  assert (Hzb : before bk z).
  { destruct (Hnode z) as [->|[Hp Ha]]; [rewrite Ed; set_solver| |].
    - unfold before, bend, HDR in *. cbn in *. lia.
    - unfold before, apart, bend, HDR in *. lia. }
  rewrite Ed in Hs. apply StronglySorted_app in Hs as (Hs1 & _ & _). split.
  - apply list.Forall_app. split; [|by apply list.Forall_singleton].
    apply list.Forall_forall. intros y Hy. destruct (Hs1 y z Hy) as [G1 G2]; [left|].
    unfold before, bend, HDR in *. lia.
  - rewrite list.Forall_forall in *. intros y Hy. specialize (Hz2 y Hy).
    destruct (Hnode y) as [->|[Hp Ha]]; [rewrite Ed; set_solver| |].
    + unfold HDR in *. cbn in *. lia.
    + unfold apart, bend, HDR in *. lia.
Qed.

(** ** Coalescing *)

(** The block and the free blocks after it, once it has absorbed one that touches it. *)
Definition absorb (bk : blk) (l2 : list blk) : Z * list blk :=
  match l2 with
  | y :: r => if bend bk =? y.1 then (bk.2 + y.2, r) else (bk.2, l2)
  | [] => (bk.2, [])
  end.

(** The list from the node [x] on, after the block was put behind it. *)
Definition put_block (bk x : blk) (l2 : list blk) : list blk :=
  let (k, r) := absorb bk l2 in
  if bend x =? bk.1 then (x.1, x.2 + k) :: r else x :: (bk.1, k) :: r.

Lemma put_block_length bk x l2 : (length (put_block bk x l2) <= S (S (length l2)))%nat.
Proof.
  unfold put_block, absorb. destruct l2 as [|y l2]; cbn.
  - destruct (_ =? _); cbn; lia.
  - destruct (bend bk =? y.1), (bend x =? bk.1); cbn; lia.
Qed.

Lemma absorb_spec bk l2 o k r :
  absorb bk l2 = (k, r) -> 0 < bk.2 ->
  StronglySorted below l2 -> Forall (fun y => bend bk <= y.1) l2 ->
  Forall (fun y => 0 < y.2) (l2 ++ o) -> all_apart (bk :: l2 ++ o) ->
  Forall (fun y => bk.1 + HDR * k < y.1) r /\ StronglySorted below r /\
  all_apart ((bk.1, k) :: r ++ o) /\ total ((bk.1, k) :: r) = total (bk :: l2) /\ bk.2 <= k /\
  r ⊆ l2 /\ (bk.1 + HDR * k = bend bk \/ exists y, y ∈ l2 /\ bk.1 + HDR * k = bend y).
Proof.
  destruct bk as [b n]. intros E Hn Hs Ha Hp Hap. cbn in *.
  destruct l2 as [|[y j] l2]; [injection E as <- <-|].
  { repeat split; auto; first [apply Hap|lia|constructor]. }
  apply StronglySorted_inv in Hs as [Hs Hy]. cbn in Hp. apply list.Forall_cons in Hp as [Hj Hp].
  cbn in *. unfold bend in *. cbn in *. destruct (Z.eqb_spec (b + HDR * n) y) as [<-|Hne];
    injection E as <- <-.
  - split; [|split; [done|]].
    { eapply list.Forall_impl; [exact Hy|]. intros z [Hz _]. unfold bend, HDR in *. cbn in *. lia. }
    split; [by apply all_apart_merge|]. split; [unfold total; cbn; lia|]. split; [lia|].
    split; [set_solver|]. right. eexists. split; [left|]. unfold bend, HDR. cbn. lia.
  - apply list.Forall_cons in Ha as [Hle Ha]. cbn in Hle. split; [|split; [by constructor|]].
    { constructor; [cbn; lia|]. eapply list.Forall_impl; [exact Hy|]. intros z [_ Hz].
      unfold HDR in *. cbn in *. lia. }
    repeat split; auto; [apply Hap|apply Hap|apply Hap|lia].
Qed.

Lemma join_next_mem m (bk x : blk) l2 k r :
  absorb bk l2 = (k, r) ->
  size m bk.1 = bk.2 -> ptr m x.1 = nxt base_ l2 -> links m base_ l2 ->
  Forall (fun y => size m y.1 = y.2 /\ bend bk <= y.1) l2 ->
  0 < base_ < bk.1 -> x.1 + HDR <= bk.1 -> 0 < bk.2 -> 0 <= k < 2 ^ 32 ->
  0 <= nxt base_ r < 2 ^ 64 -> 0 <= nxt base_ l2 < 2 ^ 64 ->
  let m1 := join_next bk.1 x.1 m in
  size m1 bk.1 = k /\ ptr m1 bk.1 = nxt base_ r /\
  (forall a, a < bk.1 \/ bk.1 + HDR <= a -> m1 a = m a).
Proof.
  destruct bk as [b n]. cbn [fst snd]. unfold absorb, join_next, bend, HDR. cbn.
  intros E Hsz Hp Hl Hf Hb Hx Hn Hk Hr Hl2. rewrite Hsz, Hp.
  destruct l2 as [|[y j] l2]; cbn in *.
  - injection E as <- <-. destruct (Z.eqb_spec (b + 16 * n) base_); [lia|].
    hdr. repeat split; auto. intros a Ha. apply set_ptr_out. lia.
  - apply list.Forall_cons in Hf as [[Hj Hy] _]. cbn in *. destruct Hl as [Hpy _].
    destruct (Z.eqb_spec (b + 16 * n) y) as [Ey|Ey]; injection E as <- <-.
    + rewrite Hj. rewrite (wrap_small 32) by lia.
      rewrite (ptr_set_size b (n + j) m x.1), Hp, ptr_set_size, Hpy by lia.
      hdr. repeat split. intros a Ha. rewrite set_ptr_out by lia. apply set_size_out. lia.
    + hdr. repeat split; auto. intros a Ha. apply set_ptr_out. lia.
Qed.

Lemma join_prev_mem m (x : blk) b k v :
  size m x.1 = x.2 -> size m b = k -> ptr m b = v ->
  0 <= x.2 -> 0 <= k -> x.2 + k < 2 ^ 32 -> x.1 + HDR <= b < 2 ^ 64 -> 0 <= b -> 0 <= v < 2 ^ 64 ->
  let m2 := join_prev b x.1 m in
  (if bend x =? b then size m2 x.1 = x.2 + k /\ ptr m2 x.1 = v
   else size m2 x.1 = x.2 /\ ptr m2 x.1 = b) /\
  (forall a, a < x.1 \/ x.1 + HDR <= a -> m2 a = m a).
Proof.
  intros Hx Hk Hv Hn Hk0 Hsum Hb Hb0 Hv0. unfold join_prev, bend, HDR in *. rewrite Hx, Hk.
  destruct (Z.eqb_spec (x.1 + 16 * x.2) b) as [E|E]; rewrite ?(wrap_small 32) by lia.
  - rewrite (ptr_set_size x.1 (x.2 + k) m b), Hv by lia. hdr. repeat split. intros a Ha. rewrite set_ptr_out by lia. apply set_size_out. lia.
  - hdr. repeat split; auto. intros a Ha. apply set_ptr_out. lia.
Qed.

(** The geometry of a block, without its header. *)
Definition fits (s : ust) (x : blk) : Prop := 0 < x.2 /\ base_ + HDR <= x.1 /\ bend x <= brk s.

Lemma okb_fits s x : okb s x <-> fits s x /\ size (um s) x.1 = x.2.
Proof. unfold okb, fits. tauto. Qed.

(** Rewriting headers: the new lists are as they should be, and so is each header. *)
Lemma UInv_update s fl al m' f fl' al' :
  UInv s fl al -> StronglySorted below (nodes fl') -> all_apart (fl' ++ al') ->
  Forall (fits s) (fl' ++ al') -> links m' base_ (nodes fl') ->
  (forall z, z ∈ nodes fl' ++ al' -> size m' z.1 = z.2) -> f ∈ (nodes fl').*1 ->
  UInv (with_freep f (with_um m' s)) fl' al'.
Proof.
  intros I Hs Hap Hf Hl Hsz Hfp. split; cbn; auto; try apply I.
  - apply (Hsz (base_, 0)). left.
  - apply list.Forall_forall. intros y Hy. rewrite list.Forall_forall in Hf.
    destruct (Hf y Hy) as (F1 & F2 & F3). repeat split; auto. apply Hsz. set_solver.
Qed.

Lemma sorted_tail_seg l1 (x : blk) l2 seg :
  StronglySorted below (l1 ++ x :: l2) -> StronglySorted below seg ->
  Forall (fun v : blk => x.1 <= v.1) seg -> StronglySorted below (l1 ++ seg).
Proof.
  intros Hs Hseg Hv. apply StronglySorted_app in Hs as (H1 & H2 & _).
  apply StronglySorted_app. split; [|done]. intros u v Hu Hv'.
  rewrite list.Forall_forall in Hv. specialize (Hv v Hv').
  destruct (H1 u x Hu) as [G1 G2]; [left|]. split; lia.
Qed.

(** [put_block] keeps a list of separate blocks in address order. *)
Lemma put_block_sorted bk x l2 k r :
  absorb bk l2 = (k, r) -> 0 < k -> before bk x -> 0 <= x.2 ->
  Forall (fun y => bk.1 + HDR * k < y.1) r -> StronglySorted below r ->
  StronglySorted below (put_block bk x l2) /\ Forall (fun v : blk => x.1 <= v.1) (put_block bk x l2).
Proof.
  intros E Hk [Hx1 Hx2] Hx Hr Hs. unfold put_block. rewrite E.
  assert (Forall (fun y : blk => x.1 <= y.1) r).
  { eapply list.Forall_impl; [exact Hr|]. intros y Hy. cbn in *. unfold HDR in *. lia. }
  destruct (Z.eqb_spec (bend x) bk.1) as [Eb|Nb].
  - split; [|constructor; [cbn; lia|done]]. constructor; [done|].
    eapply list.Forall_impl; [exact Hr|]. intros y Hy. unfold below, bend, HDR in *. cbn in *. lia.
  - split; [|constructor; [lia|]; constructor; [|done]; cbn; unfold HDR in *; lia].
    assert (Forall (below (bk.1, k)) r).
    { eapply list.Forall_impl; [exact Hr|]. intros y Hy. unfold below, bend, HDR in *. cbn in *. lia. }
    constructor; [by constructor|]. constructor; [unfold below; cbn; lia|].
    eapply list.Forall_impl; [exact Hr|]. intros y Hy. unfold below, HDR in *. cbn in *. lia.
Qed.

Lemma absorb_geom s bk l2 o k r :
  absorb bk l2 = (k, r) -> Forall (fits s) (bk :: l2 ++ o) ->
  StronglySorted below l2 -> Forall (fun y => bend bk <= y.1) l2 ->
  all_apart (bk :: l2 ++ o) ->
  (Forall (fun y => bk.1 + HDR * k < y.1) r /\ StronglySorted below r /\ bk.2 <= k /\ r ⊆ l2) /\
  all_apart ((bk.1, k) :: r ++ o) /\ Forall (fits s) ((bk.1, k) :: r ++ o) /\
  total ((bk.1, k) :: r) = total (bk :: l2).
Proof.
  intros E Hf Hs Ha Hap. apply list.Forall_cons in Hf as [Hb Hf].
  destruct (absorb_spec bk l2 o k r E) as (H1 & H2 & H3 & H4 & H5 & H6 & H7); auto.
  { apply Hb. }
  { eapply list.Forall_impl; [exact Hf|]. intros y Hy. apply Hy. }
  split; [done|]. split; [done|]. split; [|done]. constructor.
  - destruct Hb as (B1 & B2 & B3). split; [cbn; lia|]. split; [done|].
    change (bend (bk.1, k)) with (bk.1 + HDR * k). destruct H7 as [->|(y & Hy & ->)]; [done|].
    apply list.Forall_app in Hf as [Hf _]. rewrite list.Forall_forall in Hf. by apply Hf.
  - apply list.Forall_app in Hf as [Hf Ho]. apply list.Forall_app. split; [|done].
    rewrite list.Forall_forall in *. auto.
Qed.

Lemma put_block_geom s bk x l2 o k r :
  absorb bk l2 = (k, r) -> Forall (fits s) (x :: bk :: l2 ++ o) ->
  StronglySorted below l2 -> Forall (fun y => bend bk <= y.1) l2 ->
  all_apart (x :: bk :: l2 ++ o) ->
  all_apart (put_block bk x l2 ++ o) /\ Forall (fits s) (put_block bk x l2 ++ o) /\
  total (put_block bk x l2) = total (x :: bk :: l2) /\
  (exists z, z ∈ put_block bk x l2 /\ bk.2 <= z.2).
Proof.
  intros E Hf Hs Ha Hap.
  assert (Hmv : forall y : blk, x :: y :: l2 ++ o ≡ₚ y :: l2 ++ x :: o).
  { intros y. rewrite <- Permutation_middle. apply Permutation_swap. }
  rewrite Hmv in Hf, Hap. destruct (absorb_geom s bk l2 (x :: o) k r E) as
    ((_ & _ & H5 & _) & H3 & Hf' & H4); auto.
  rewrite <- Permutation_middle, Permutation_swap in H3, Hf'.
  apply list.Forall_cons in Hf' as [Hx Hf']. pose proof Hf' as Hf2.
  apply list.Forall_cons in Hf' as [Hbk Hr].
  unfold put_block. rewrite E. destruct (Z.eqb_spec (bend x) bk.1) as [Eb|Nb].
  - split; [|split; [|split]].
    + apply all_apart_merge; [apply Hx|apply Hbk| |].
      * eapply list.Forall_impl; [exact Hr|]. intros y Hy. apply Hy.
      * change (x.1 + HDR * x.2) with (bend x). rewrite Eb. by destruct x.
    + constructor; [|done]. destruct Hx as (X1 & X2 & X3), Hbk as (B1 & B2 & B3).
      unfold fits, bend, HDR in *. cbn in *. lia.
    + unfold total in *. cbn in *. lia.
    + eexists. split; [left|]. destruct Hx. cbn. lia.
  - split; [done|]. split; [by constructor|]. split; [unfold total in *; cbn in *; lia|].
    exists (bk.1, k). split; [right; left|done].
Qed.

(** The whole ring after [free]: still separate blocks in address order, of the same total
    size, with one at least as large as the block put in. *)
Lemma put_nodes s fl al bk l1 x l2 :
  UInv s fl (bk :: al) -> nodes fl = l1 ++ x :: l2 ->
  Forall (before bk) (l1 ++ [x]) -> Forall (fun y => bend bk <= y.1) l2 ->
  exists fl', nodes fl' = l1 ++ put_block bk x l2 /\ StronglySorted below (nodes fl') /\
    all_apart (fl' ++ al) /\ Forall (fits s) (fl' ++ al) /\ total fl' = total fl + bk.2 /\
    (exists z, z ∈ fl' /\ bk.2 <= z.2).
Proof.
  intros I E H1 H2. destruct (absorb bk l2) as [k r] eqn:Eab.
  pose proof (ui_sorted _ _ _ I) as Hs. rewrite E in Hs.
  assert (Hs2 : StronglySorted below l2).
  { apply StronglySorted_app in Hs as (_ & _ & Hs). by apply StronglySorted_inv in Hs as [Hs _]. }
  assert (Hf : Forall (fits s) (fl ++ bk :: al)).
  { eapply list.Forall_impl; [apply (ui_ok _ _ _ I)|]. intros y Hy. by apply okb_fits. }
  pose proof (ui_apart _ _ _ I) as Hap. apply list.Forall_app in H1 as [_ H1].
  rewrite list.Forall_singleton in H1.
  destruct (nodes_room s fl (bk :: al) x I) as (_ & _ & Hx0 & _); [rewrite E; set_solver|].
  enough (exists fl', nodes fl' = l1 ++ put_block bk x l2 /\ all_apart (fl' ++ al) /\
    Forall (fits s) (fl' ++ al) /\ total fl' = total fl + bk.2 /\
    (exists z, z ∈ fl' /\ bk.2 <= z.2) /\
    (Forall (fun y => bk.1 + HDR * k < y.1) r /\ StronglySorted below r /\ 0 < k))
    as (fl' & En & G1 & G2 & G3 & G4 & G5 & G6 & G7).
  { exists fl'. split; [done|]. split; [|done]. rewrite En.
    destruct (put_block_sorted bk x l2 k r) as [P1 P2]; auto. by eapply sorted_tail_seg. }
  assert (Hpos : 0 < bk.2).
  { rewrite <- Permutation_middle in Hf. apply list.Forall_cons in Hf as [Hb _]. apply Hb. }
  destruct l1 as [|b1 l1]; injection E as <- E.
  - exists ((bk.1, k) :: r). unfold put_block. rewrite Eab. subst fl.
    rewrite <- Permutation_middle in Hf, Hap.
    destruct (absorb_geom s bk l2 al k r Eab) as ((A1 & A2 & A3 & A4) & A5 & A6 & A7); auto.
    replace (bend (base_, 0) =? bk.1) with false.
    2: { symmetry. apply Z.eqb_neq. destruct H1 as [_ H1]. unfold bend, HDR in *. cbn in *. lia. }
    split; [done|]. split; [done|]. split; [done|]. split; [unfold total in *; cbn in *; lia|].
    split; [exists (bk.1, k); split; [left|done]|]. split; [done|]. split; [done|lia].
  - exists (l1 ++ put_block bk x l2). subst fl.
    assert (Hmv : forall q, (l1 ++ q) ++ al ≡ₚ q ++ l1 ++ al).
    { intros q. rewrite (Permutation_app_comm l1 q), <- (assoc_L (++)). done. }
    assert (Hmv2 : (l1 ++ x :: l2) ++ bk :: al ≡ₚ x :: bk :: l2 ++ l1 ++ al).
    { rewrite <- Permutation_middle, Hmv. cbn. apply Permutation_swap. }
    rewrite Hmv2 in Hf, Hap. rewrite Hmv.
    destruct (put_block_geom s bk x l2 (l1 ++ al) k r Eab) as (A1 & A2 & A3 & z & Hz & A4); auto.
    destruct (absorb_geom s bk l2 (l1 ++ al) k r Eab) as ((B1 & B2 & B3 & B4) & _); auto.
    { by apply list.Forall_cons in Hf as [_ Hf]. }
    { apply Hap. }
    split; [done|]. split; [done|]. split; [done|].
    split; [rewrite !total_app, A3; unfold total; cbn; lia|].
    split; [exists z; set_solver|]. split; [done|]. split; [done|lia].
Qed.

(** A header that two 16-byte ranges of changes do not touch. *)
Lemma hdr_frame m m2 p b q :
  (forall a, a < p \/ p + HDR <= a -> a < b \/ b + HDR <= a -> m2 a = m a) ->
  q + HDR <= p \/ p + HDR <= q -> q + HDR <= b \/ b + HDR <= q ->
  ptr m2 q = ptr m q /\ size m2 q = size m q.
Proof.
  intros H H1 H2. unfold HDR in *. split.
  - apply ptr_ext. intros a Ha. apply H; lia.
  - apply size_ext. intros a Ha. apply H; lia.
Qed.

Lemma absorb_suffix m e bk l2 k r : absorb bk l2 = (k, r) -> links m e l2 -> links m e r.
Proof.
  unfold absorb. destruct l2 as [|y l2]; [by intros [= <- <-]|]. cbn.
  destruct (bend bk =? y.1); intros [= <- <-]; cbn; tauto.
Qed.

Lemma nxt_range s fl al r :
  UInv s fl al -> r ⊆ nodes fl -> 0 <= nxt base_ r < 2 ^ 64.
Proof.
  intros I Hr. pose proof (ui_low _ _ _ I). pose proof (ui_brk _ _ _ I).
  destruct r as [|y r]; cbn; [unfold HDR in *; lia|].
  destruct (nodes_room s fl al y I) as (? & ? & _); [set_solver|]. unfold HDR in *. lia.
Qed.

(** The headers [free] writes. *)
Lemma link_free_mem s fl al bk l1 x l2 k r :
  UInv s fl (bk :: al) -> nodes fl = l1 ++ x :: l2 -> before bk x ->
  Forall (fun y => bend bk <= y.1) l2 -> absorb bk l2 = (k, r) -> 0 < k -> r ⊆ l2 ->
  bk.1 + HDR * k <= brk s ->
  let m2 := link_free bk.1 x.1 (um s) in
  (if bend x =? bk.1 then size m2 x.1 = x.2 + k /\ ptr m2 x.1 = nxt base_ r
   else size m2 x.1 = x.2 /\ ptr m2 x.1 = bk.1 /\ size m2 bk.1 = k /\ ptr m2 bk.1 = nxt base_ r) /\
  (forall a, a < x.1 \/ x.1 + HDR <= a -> a < bk.1 \/ bk.1 + HDR <= a -> m2 a = um s a).
Proof.
  intros I E [Hb1 Hb2] H2 Eab Hk Hr Hend. unfold link_free.
  pose proof (ui_low _ _ _ I) as Hlow. pose proof (ui_brk _ _ _ I) as Hbrk.
  pose proof (ui_links _ _ _ I) as Hl. rewrite E in Hl. apply links_app in Hl as [_ [Hp Hl]].
  destruct (nodes_room s fl (bk :: al) x I) as (Hx1 & Hx2 & Hx3 & Hx4); [rewrite E; set_solver|].
  pose proof (ui_ok _ _ _ I) as Hok. rewrite <- Permutation_middle in Hok.
  apply list.Forall_cons in Hok as [(Hk0 & Hba & _ & Hsz) _].
  assert (Hl2 : Forall (fun y => size (um s) y.1 = y.2 /\ bend bk <= y.1) l2).
  { rewrite list.Forall_forall in *. intros y Hy. split; [|by apply H2].
    apply (nodes_room s fl (bk :: al) y I). rewrite E. set_solver. }
  pose proof (nxt_range s fl (bk :: al) r I ltac:(rewrite E; set_solver)) as Hnr.
  pose proof (nxt_range s fl (bk :: al) l2 I ltac:(rewrite E; set_solver)) as Hnl.
  unfold bend, HDR in *.
  destruct (join_next_mem (um s) bk x l2 k r Eab Hsz Hp Hl Hl2) as (N1 & N2 & N3);
    unfold HDR; auto; try lia.
  set (m1 := join_next bk.1 x.1 (um s)) in *.
  assert (size m1 x.1 = x.2) as Hs1.
  { rewrite <- Hx4. apply size_ext. intros a Ha. apply N3. unfold HDR. lia. }
  destruct (join_prev_mem m1 x bk.1 k (nxt base_ r) Hs1 N1 N2) as [P1 P2]; unfold HDR; auto; try lia.
  unfold HDR in *. split; [|intros a A1 A2; rewrite P2, N3 by lia; done].
  unfold bend, HDR in *. destruct (x.1 + 16 * x.2 =? bk.1); [done|].
  destruct P1 as [P11 P12]. split; [done|]. split; [done|]. split.
  - rewrite <- N1. apply size_ext. intros a Ha. apply P2. lia.
  - rewrite <- N2. apply ptr_ext. intros a Ha. apply P2. lia.
Qed.

(** The ring stays linked: the part before [x] is untouched, [x] (and the block) were
    rewritten, the part after starts at [nxt base_ r]. *)
Lemma put_links m m2 (bk x : blk) l1 l2 k r :
  absorb bk l2 = (k, r) -> links m base_ (l1 ++ x :: l2) ->
  (forall y, y ∈ l1 \/ y ∈ r -> ptr m2 y.1 = ptr m y.1) ->
  (if bend x =? bk.1 then ptr m2 x.1 = nxt base_ r
   else ptr m2 x.1 = bk.1 /\ ptr m2 bk.1 = nxt base_ r) ->
  links m2 base_ (l1 ++ put_block bk x l2).
Proof.
  intros E Hl Hf Hp. apply links_app in Hl as [H1 [_ H2]]. apply links_app. cbn in H1.
  assert (Hr : links m2 base_ r).
  { eapply links_ext; [|by eapply absorb_suffix]. intros y Hy. apply Hf. by right. }
  assert (Hl1 : links m2 x.1 l1) by (eapply links_ext; [|exact H1]; intros y Hy; apply Hf; by left).
  unfold put_block. rewrite E. destruct (bend x =? bk.1); cbn; tauto.
Qed.

(** [absorb_spec] at a place of the ring. *)
Lemma absorb_inv s fl al bk l1 x l2 k r :
  UInv s fl (bk :: al) -> nodes fl = l1 ++ x :: l2 -> Forall (fun y => bend bk <= y.1) l2 ->
  absorb bk l2 = (k, r) ->
  0 < k /\ r ⊆ l2 /\ bk.1 + HDR * k <= brk s /\ Forall (fun y => bk.1 + HDR <= y.1) r.
Proof.
  intros I E H2 Eab. pose proof (ui_sorted _ _ _ I) as Hs. rewrite E in Hs.
  apply StronglySorted_app in Hs as (_ & _ & Hs). apply StronglySorted_inv in Hs as [Hs _].
  pose proof (ui_ok _ _ _ I) as Hok. rewrite <- Permutation_middle in Hok.
  apply list.Forall_cons in Hok as [Hbk Hok]. rewrite list.Forall_forall in Hok.
  assert (Hsub : l2 ⊆ fl).
  { intros y Hy. destruct l1 as [|b1 l1]; injection E as <- ->; set_solver. }
  assert (Hin : forall y, y ∈ l2 -> okb s y) by (intros y Hy; apply Hok; set_solver).
  assert (Hap : all_apart (bk :: l2 ++ [])).
  { rewrite app_nil_r. split.
    - eapply list.Forall_impl; [exact H2|]. intros y Hy. by left.
    - clear -Hs. induction Hs as [|y l Hs IH Hy]; [done|]. split; [|done].
      eapply list.Forall_impl; [exact Hy|]. intros z [Hz _]. left. lia. }
  destruct (absorb_spec bk l2 [] k r Eab) as (A1 & _ & _ & _ & A5 & A6 & A7); auto.
  { apply Hbk. }
  { rewrite app_nil_r. apply list.Forall_forall. intros y Hy. by apply Hin. }
  destruct Hbk as (B1 & _ & B3 & _). split; [lia|]. split; [done|]. split.
  - destruct A7 as [->|(y & Hy & ->)]; [done|]. by apply Hin.
  - eapply list.Forall_impl; [exact A1|]. intros y Hy. cbn in Hy. unfold HDR in *. lia.
Qed.

(** What [link_free] leaves alone: the other nodes and the blocks in use. *)
Lemma link_free_keeps s fl al bk l1 x l2 r m2 :
  UInv s fl (bk :: al) -> nodes fl = l1 ++ x :: l2 -> before bk x -> r ⊆ l2 ->
  Forall (fun y => bk.1 + HDR <= y.1) r ->
  (forall a, a < x.1 \/ x.1 + HDR <= a -> a < bk.1 \/ bk.1 + HDR <= a -> m2 a = um s a) ->
  (forall y, y ∈ l1 \/ y ∈ r -> ptr m2 y.1 = ptr (um s) y.1 /\ size m2 y.1 = y.2) /\
  (forall y, y ∈ al -> size m2 y.1 = y.2 /\ forall a, in_blk y a -> m2 a = um s a).
Proof.
  intros I E [Hb1 Hb2] Hr Hr1 M2. rewrite list.Forall_forall in Hr1.
  pose proof (ui_ok _ _ _ I) as Hok. pose proof (ui_apart _ _ _ I) as Hap.
  rewrite <- Permutation_middle in Hok, Hap. apply list.Forall_cons in Hok as [(B1 & _) Hok].
  rewrite list.Forall_forall in Hok. destruct Hap as [Hap _]. rewrite list.Forall_forall in Hap.
  pose proof (ui_sorted _ _ _ I) as Hs. rewrite E in Hs. apply StronglySorted_app in Hs as (Hs & _ & _).
  split.
  - intros y Hy. destruct (nodes_room s fl (bk :: al) y I) as (_ & _ & _ & <-).
    { rewrite E. set_solver. }
    assert (y.1 + HDR <= x.1 \/ bk.1 + HDR <= y.1).
    { destruct Hy as [Hy|Hy]; [left; by destruct (Hs y x Hy ltac:(left))|right; auto]. }
    apply (hdr_frame _ _ x.1 bk.1); [done| |]; unfold HDR in *; lia.
  - intros y Hy. destruct (used_apart s fl (bk :: al) x y I) as (Y1 & _ & Y3);
      [rewrite E; set_solver|by right|].
    assert (apart bk y) as Hby by (apply Hap; set_solver).
    assert (Hin : forall a, in_blk y a -> m2 a = um s a).
    { intros a Ha. unfold in_blk, apart, bend, HDR in *. apply M2; lia. }
    split; [|done]. destruct (Hok y) as (_ & _ & _ & <-); [set_solver|].
    apply size_ext. intros a Ha. apply Hin. unfold in_blk, bend, HDR. lia.
Qed.

Lemma free_inv s fl al bk :
  UInv s fl (bk :: al) ->
  exists s' fl', free (bk.1 + HDR) s = Ret (tt, s') /\ UInv s' fl' al /\
    total fl' = total fl + bk.2 /\ brk s' = brk s /\ calls s' = calls s /\
    (forall y a, y ∈ al -> in_blk y a -> um s' a = um s a) /\
    (exists z, z ∈ fl' /\ bk.2 <= z.2) /\ (length fl' <= S (length fl))%nat.
Proof.
  intros I. destruct (find_correct s fl al bk I) as (l1 & x & l2 & E & Ef & H1 & H2).
  destruct (put_nodes s fl al bk l1 x l2 I E H1 H2) as (fl' & En & Hs & Hap & Hfit & Ht & Hz).
  apply list.Forall_app in H1 as [_ Hbx]. rewrite list.Forall_singleton in Hbx.
  destruct (absorb bk l2) as [k r] eqn:Eab.
  destruct (absorb_inv s fl al bk l1 x l2 k r I E H2 Eab) as (Hk & Hr & Hend & Hr1).
  destruct (link_free_mem s fl al bk l1 x l2 k r I E Hbx H2 Eab Hk Hr Hend) as [M1 M2].
  set (m2 := link_free bk.1 x.1 (um s)) in *.
  destruct (link_free_keeps s fl al bk l1 x l2 r m2 I E Hbx Hr Hr1 M2) as [K1 K2].
  exists (with_freep x.1 (with_um m2 s)), fl'. split.
  { unfold free. replace (bk.1 + HDR - HDR) with bk.1 by lia. by rewrite Ef. }
  split; [|split; [done|split; [done|split; [done|split; [|split; [done|]]]]]].
  - eapply UInv_update; eauto.
    + rewrite En. eapply put_links; [exact Eab| | |].
      * rewrite <- E. apply (ui_links _ _ _ I).
      * intros y Hy. by apply K1.
      * destruct (bend x =? bk.1); tauto.
    + intros y Hy. rewrite En, !elem_of_app in Hy. destruct Hy as [[Hy|Hy]|Hy];
        [apply K1; by left| |by apply K2].
      unfold put_block in Hy. rewrite Eab in Hy.
      destruct (bend x =? bk.1); rewrite !elem_of_cons in Hy.
      * destruct Hy as [->|Hy]; [apply M1|apply K1; by right].
      * destruct Hy as [->|[->|Hy]]; [apply M1|apply M1|apply K1; by right].
    + rewrite En, fmap_app. apply elem_of_app. right.
      unfold put_block. rewrite Eab. destruct (bend x =? bk.1); left.
  - intros y a Hy. cbn. by apply K2.
  - pose proof (f_equal length E) as L1. pose proof (f_equal length En) as L2.
    rewrite length_app in L1, L2. pose proof (put_block_length bk x l2). cbn in *. lia.
Qed.

(** ** Taking a block *)

Lemma nodes_distinct fl l1 x l2 y :
  StronglySorted below (nodes fl) -> nodes fl = l1 ++ x :: l2 -> y ∈ l1 ++ l2 -> y.1 <> x.1.
Proof.
  intros Hs E Hy. rewrite E in Hs. apply StronglySorted_app in Hs as (G1 & _ & G2).
  apply StronglySorted_inv in G2 as [_ G2]. rewrite list.Forall_forall in G2.
  apply elem_of_app in Hy as [Hy|Hy].
  - destruct (G1 y x Hy) as [_ G]; [left|]. unfold HDR in *. lia.
  - destruct (G2 y Hy) as [_ G]. unfold HDR in *. lia.
Qed.

(** The node whose pointer leads to a free block is the one before it. *)
Lemma pred_unique s fl al f1 y f2 u :
  UInv s fl al -> fl = f1 ++ y :: f2 -> u ∈ nodes fl -> ptr (um s) u.1 = y.1 ->
  exists d, nodes f1 = d ++ [u].
Proof.
  intros I E Hu Hp. pose proof (ui_links _ _ _ I) as Hl. pose proof (ui_sorted _ _ _ I) as Hs.
  assert (En : nodes fl = nodes f1 ++ y :: f2) by (rewrite E; done).
  apply list_elem_of_split in Hu as (e1 & e2 & Eu).
  assert (Hy : base_ < y.1).
  { rewrite En in Hs. apply StronglySorted_app in Hs as (G & _ & _).
    destruct (G (base_, 0) y) as [_ G2]; [left|left|]. unfold HDR in *. cbn in *. lia. }
  pose proof Hl as Hl'. rewrite Eu in Hl'. apply links_app in Hl' as [_ [Hpu _]]. rewrite Hp in Hpu.
  destruct e2 as [|y' e2]; cbn in Hpu; [lia|].
  assert (y' = y) as ->.
  { assert (Hin : y' ∈ nodes f1 ++ y :: f2) by (rewrite <- En, Eu; set_solver).
    apply elem_of_app in Hin as [Hin|Hin]; [|apply elem_of_cons in Hin as [|Hin]; [done|]];
      exfalso; eapply (nodes_distinct fl (nodes f1) y f2 y'); eauto; set_solver. }
  exists e1. rewrite En in Eu.
  replace (e1 ++ u :: y :: e2) with ((e1 ++ [u]) ++ y :: e2) in Eu by (by rewrite <- (assoc_L (++))).
  assert (Hno : forall z, z ∈ nodes f1 ++ f2 -> z <> y).
  { intros z Hz ->. by eapply (nodes_distinct fl (nodes f1) y f2 y). }
  apply app_inj_pivot in Eu as [[[Hi _]|[Hi _]]|[? _]]; [| |done]; exfalso;
    apply list_elem_of_In in Hi; by apply (Hno y); [set_solver|].
Qed.

(** [carve] on the block [y] behind the node [u]: the remaining free blocks and the header
    handed out. *)
Definition carved (n : Z) (y : blk) : list blk * Z :=
  if y.2 =? n then ([], y.1) else ([(y.1, y.2 - n)], y.1 + HDR * (y.2 - n)).

Lemma carve_mem m n (y u : blk) v :
  size m y.1 = y.2 -> ptr m y.1 = v -> 0 <= v < 2 ^ 64 -> 0 < n <= y.2 -> y.2 < 2 ^ 32 ->
  u.1 + HDR <= y.1 ->
  let (m', a) := carve n y.1 u.1 m in
  a = (carved n y).2 /\ size m' a = n /\
  (if y.2 =? n then ptr m' u.1 = v /\ size m' u.1 = size m u.1 /\
     (forall x, x < u.1 \/ u.1 + HDR <= x -> m' x = m x)
   else ptr m' y.1 = v /\ size m' y.1 = y.2 - n /\
     (forall x, x < y.1 \/ bend y <= x -> m' x = m x)).
Proof.
  intros Hs Hp Hv Hn Hy Hu. unfold carve, carved, bend, HDR in *. rewrite Hs, Hp.
  destruct (Z.eqb_spec y.2 n) as [E|E]; cbn.
  - split; [done|]. hdr. repeat split; [lia|]. intros x Hx. apply set_ptr_out. lia.
  - rewrite (wrap_small 32) by lia. rewrite (size_set_size y.1 (y.2 - n) m) by lia. hdr.
    repeat split; auto. intros x Hx. rewrite !set_size_out by lia. done.
Qed.

Lemma carved_geom s f1 y f2 al n :
  Forall (fits s) ((f1 ++ y :: f2) ++ al) -> all_apart ((f1 ++ y :: f2) ++ al) ->
  StronglySorted below (nodes (f1 ++ y :: f2)) -> 0 < n <= y.2 ->
  let fl' := f1 ++ (carved n y).1 ++ f2 in
  let bk := ((carved n y).2, n) in
  Forall (fits s) (fl' ++ bk :: al) /\ all_apart (fl' ++ bk :: al) /\
  StronglySorted below (nodes fl') /\ total (f1 ++ y :: f2) = total fl' + n.
Proof.
  intros Hf Hap Hs Hn. cbn zeta.
  assert (Hmv : (f1 ++ y :: f2) ++ al ≡ₚ y :: (f1 ++ f2) ++ al)
    by (by rewrite <- Permutation_middle).
  rewrite Hmv in Hf, Hap. apply list.Forall_cons in Hf as [Hy Hf].
  change (nodes (f1 ++ y :: f2)) with (nodes f1 ++ y :: f2) in Hs.
  apply StronglySorted_app in Hs as (S1 & S2 & S3). apply StronglySorted_inv in S3 as [S3 S4].
  unfold carved. destruct (Z.eqb_spec y.2 n) as [E|E]; cbn [fst snd app].
  - assert (((y.1, n) : blk) = y) as -> by (rewrite <- E; by destruct y).
    rewrite <- !Permutation_middle. split; [by constructor|]. split; [done|]. split.
    + change (nodes (f1 ++ f2)) with (nodes f1 ++ f2). apply StronglySorted_app.
      split; [|done]. intros u v Hu Hv. apply S1; [done|by right].
    + change (total (y :: f1 ++ f2)) with (y.2 + total (f1 ++ f2)). lia.
  - set (y1 := (y.1, y.2 - n) : blk). set (y2 := (y.1 + HDR * (y.2 - n), n) : blk).
    assert (Hmv2 : (f1 ++ y1 :: f2) ++ y2 :: al ≡ₚ y1 :: y2 :: (f1 ++ f2) ++ al).
    { rewrite <- !Permutation_middle. cbn. apply Permutation_swap. }
    rewrite !Hmv2. destruct Hy as (Y1 & Y2 & Y3). split; [|split; [|split]].
    + constructor; [|constructor; [|done]]; unfold fits, bend, y1, y2, HDR in *; cbn; lia.
    + apply all_apart_split; [lia|lia|]. rewrite Z.sub_add. by destruct y.
    + change (nodes (f1 ++ y1 :: f2)) with (nodes f1 ++ y1 :: f2). apply StronglySorted_app. split.
      * intros u v Hu Hv. apply elem_of_cons in Hv as [->|Hv]; [|apply S1; set_solver].
        destruct (S1 u y Hu) as [? ?]; [left|]. by split.
      * split; [done|]. constructor; [done|]. eapply list.Forall_impl; [exact S4|].
        intros v [V1 V2]. unfold below, bend, y1, HDR in *. cbn. lia.
    + rewrite !total_app. unfold total. cbn. lia.
Qed.

(** The neighbourhood of a free block [y] and the node [u] before it. *)
Lemma around s fl al f1 y f2 d u :
  UInv s fl al -> fl = f1 ++ y :: f2 -> nodes f1 = d ++ [u] ->
  below u y /\ (forall z, z ∈ d -> z.1 + HDR <= u.1) /\ (forall z, z ∈ f2 -> bend y < z.1) /\
  ptr (um s) y.1 = nxt base_ f2 /\ 0 <= nxt base_ f2 < 2 ^ 64 /\ okb s y /\ y.2 < 2 ^ 32 /\
  links (um s) u.1 d /\ links (um s) base_ f2.
Proof.
  intros I E Ed. pose proof (ui_low _ _ _ I). pose proof (ui_brk _ _ _ I).
  assert (En : nodes fl = d ++ u :: y :: f2).
  { rewrite E. change (nodes (f1 ++ y :: f2)) with (nodes f1 ++ y :: f2).
    by rewrite Ed, <- (assoc_L (++)). }
  pose proof (ui_sorted _ _ _ I) as Hs. pose proof (ui_links _ _ _ I) as Hl. rewrite En in Hs, Hl.
  apply StronglySorted_app in Hs as (S1 & _ & S2). apply StronglySorted_inv in S2 as [S2 S3].
  apply StronglySorted_inv in S2 as [_ S4]. rewrite list.Forall_forall in S3, S4.
  apply links_app in Hl as [L1 (_ & L2 & L3)].
  assert (okb s y) as Hy.
  { pose proof (ui_ok _ _ _ I) as Hok. rewrite list.Forall_forall in Hok. apply Hok.
    rewrite E. set_solver. }
  split; [apply S3; left|]. split; [intros z Hz; by destruct (S1 z u Hz ltac:(left))|].
  split; [intros z Hz; by destruct (S4 z Hz)|]. split; [done|].
  split; [apply (nxt_range s fl al f2 I); rewrite E; set_solver|]. split; [done|].
  split; [|done]. destruct Hy as (O1 & O2 & O3 & _). unfold bend, HDR in *. lia.
Qed.

(** Everything [carve] leaves alone: the other nodes and the blocks in use. *)
Lemma carve_keeps s fl al f1 y f2 d u n m' :
  UInv s fl al -> fl = f1 ++ y :: f2 -> nodes f1 = d ++ [u] -> 0 < n ->
  (if y.2 =? n then forall x, x < u.1 \/ u.1 + HDR <= x -> m' x = um s x
   else forall x, x < y.1 \/ bend y <= x -> m' x = um s x) ->
  (forall z, z ∈ d ++ f2 -> ptr m' z.1 = ptr (um s) z.1 /\ size m' z.1 = z.2) /\
  (forall z, z ∈ al -> size m' z.1 = z.2 /\ forall x, in_blk z x -> m' x = um s x).
Proof.
  intros I E Ed Hn Hm.
  destruct (around s fl al f1 y f2 d u I E Ed) as
    ([B1 B2] & Hd & Hf2 & _ & _ & (O1 & _) & _ & _ & _).
  assert (En : nodes fl = d ++ u :: y :: f2).
  { rewrite E. change (nodes (f1 ++ y :: f2)) with (nodes f1 ++ y :: f2).
    by rewrite Ed, <- (assoc_L (++)). }
  split.
  - intros z Hz. destruct (nodes_room s fl al z I) as (_ & _ & _ & <-); [rewrite En; set_solver|].
    assert (z.1 + HDR <= u.1 \/ bend y < z.1) by (apply elem_of_app in Hz as [Hz|Hz]; auto).
    destruct (y.2 =? n); (split; [apply ptr_ext|apply size_ext]); intros x Hx; apply Hm;
      unfold bend, HDR in *; lia.
  - intros z Hz. destruct (used_apart s fl al u z I) as (Z1 & _ & Z2); [rewrite En; set_solver|done|].
    destruct (used_apart s fl al y z I) as (_ & _ & Z3); [rewrite En; set_solver|done|].
    assert (Hin : forall x, in_blk z x -> m' x = um s x).
    { intros x Hx. unfold in_blk, bend, HDR in *. destruct (y.2 =? n); apply Hm; lia. }
    split; [|done]. pose proof (ui_ok _ _ _ I) as Hok. rewrite list.Forall_forall in Hok.
    destruct (Hok z) as (_ & _ & _ & <-); [set_solver|]. apply size_ext. intros x Hx. apply Hin.
    unfold in_blk, bend, HDR. lia.
Qed.

Lemma carve_inv s fl al n f1 y f2 u :
  UInv s fl al -> fl = f1 ++ y :: f2 -> u ∈ nodes fl -> ptr (um s) u.1 = y.1 -> 0 < n <= y.2 ->
  exists fl', UInv (with_freep u.1 (with_um (carve n y.1 u.1 (um s)).1 s)) fl'
                   (((carve n y.1 u.1 (um s)).2, n) :: al) /\
    total fl = total fl' + n /\
    (forall z x, z ∈ al -> in_blk z x -> (carve n y.1 u.1 (um s)).1 x = um s x).
Proof.
  intros I E Hu Hp Hn. destruct (pred_unique s fl al f1 y f2 u I E Hu Hp) as [d Ed].
  destruct (around s fl al f1 y f2 d u I E Ed) as
    (B & _ & _ & Hpy & Hnr & Hok & Hy & L1 & L2).
  destruct (carved_geom s f1 y f2 al n) as (G1 & G2 & G3 & G4); [| | |done|].
  { rewrite <- E. eapply list.Forall_impl; [apply (ui_ok _ _ _ I)|]. intros z Hz. by apply okb_fits. }
  { rewrite <- E. apply (ui_apart _ _ _ I). }
  { rewrite <- E. apply (ui_sorted _ _ _ I). }
  pose proof (carve_mem (um s) n y u (nxt base_ f2) ltac:(apply Hok) Hpy Hnr Hn Hy ltac:(apply B)) as Hc.
  destruct (carve n y.1 u.1 (um s)) as [m' a]. destruct Hc as (-> & Ha & Hm).
  destruct (carve_keeps s fl al f1 y f2 d u n m' I E Ed) as [K1 K2]; [lia| |].
  { destruct (y.2 =? n); apply Hm. }
  exists (f1 ++ (carved n y).1 ++ f2). rewrite <- E in G4.
  split; [|split; [done|intros z x Hz; by apply K2]].
  assert (Hl1 : links m' u.1 d) by (eapply links_ext; [|exact L1]; intros z Hz; apply K1; set_solver).
  assert (Hl2 : links m' base_ f2) by (eapply links_ext; [|exact L2]; intros z Hz; apply K1; set_solver).
  assert (En : forall q, nodes (f1 ++ q ++ f2) = d ++ u :: q ++ f2).
  { intros q. change (nodes (f1 ++ q ++ f2)) with (nodes f1 ++ q ++ f2).
    by rewrite Ed, <- (assoc_L (++)). }
  assert (Hptr : y.2 <> n -> ptr m' u.1 = y.1).
  { intros Hne. rewrite (proj2 (Z.eqb_neq _ _) Hne) in Hm. rewrite <- Hp. apply ptr_ext.
    intros x Hx. apply Hm. destruct B. unfold HDR in *. lia. }
  assert (Hu2 : size m' u.1 = u.2).
  { destruct (nodes_room s fl al u I Hu) as (_ & _ & _ & <-). destruct (y.2 =? n); [apply Hm|].
    apply size_ext. intros x Hx. apply Hm. destruct B. unfold HDR in *. lia. }
  eapply UInv_update; eauto.
  - rewrite En. apply links_app. split; [done|]. unfold carved.
    destruct (Z.eqb_spec y.2 n) as [_|Hne]; cbn; [split; [apply Hm|done]|].
    split; [by apply Hptr|]. split; [apply Hm|done].
  - intros z Hz. rewrite En in Hz. rewrite !elem_of_app, !elem_of_cons, elem_of_app in Hz.
    destruct Hz as [[Hz|[->|[Hz|Hz]]]|[->|Hz]]; [apply K1; set_solver|done| |apply K1; set_solver|done|].
    + unfold carved in Hz. destruct (y.2 =? n); [set_solver|].
      apply list_elem_of_singleton in Hz as ->. apply Hm.
    + by apply K2.
  - rewrite En, fmap_app. set_solver.
Qed.

(** ** The search of [malloc] *)

Section search.
Context (grant : nat -> Z -> Z -> bool).

Lemma scan_found s (P : Z -> Prop) n y e q2 q1 fuel prevp :
  links (um s) e (q1 ++ y :: q2) ->
  Forall (fun z => size (um s) z.1 < n /\ z.1 <> freep s /\ P z.1) q1 ->
  n <= size (um s) y.1 -> (length q1 < fuel)%nat -> P prevp ->
  ptr (um s) prevp = nxt e (q1 ++ y :: q2) ->
  exists w, P w /\ ptr (um s) w = y.1 /\
    malloc_loop grant fuel n (nxt e (q1 ++ y :: q2)) prevp s =
    Ret ((carve n y.1 w (um s)).2 + HDR, with_freep w (with_um (carve n y.1 w (um s)).1 s)).
Proof.
  revert fuel prevp. induction q1 as [|z q1 IH]; intros fuel prevp Hl Hf Hy Hfu HP Hp;
    (destruct fuel as [|fuel]; [cbn in Hfu; lia|]).
  - exists prevp. split; [done|]. split; [done|]. cbn.
    unfold mbind, M_bind, get. rewrite (proj2 (Z.leb_le _ _) Hy). done.
  - apply list.Forall_cons in Hf as [(Hz1 & Hz2 & Hz3) Hf]. cbn in Hl, Hfu. destruct Hl as [Hpz Hl].
    destruct (IH fuel z.1 Hl Hf Hy) as (w & W1 & W2 & W3); [lia|done|done|].
    exists w. split; [done|]. split; [done|]. cbn. unfold mbind, M_bind, get.
    rewrite (proj2 (Z.leb_gt _ _) Hz1), (proj2 (Z.eqb_neq _ _) Hz2), Hpz. exact W3.
Qed.

Lemma scan_none s n x e q f prevp :
  links (um s) e (q ++ [x]) ->
  Forall (fun z => size (um s) z.1 < n /\ z.1 <> freep s) q ->
  size (um s) x.1 < n -> x.1 = freep s ->
  malloc_loop grant (length q + S f) n (nxt e (q ++ [x])) prevp s =
  (r ← morecore grant n; if r =? 0 then mret 0
   else s' ← get; malloc_loop grant f n (ptr (um s') r) r) s.
Proof.
  revert prevp. induction q as [|z q IH]; intros prevp Hl Hf Hx Ex.
  - cbn. unfold mbind at 1, M_bind at 1, get at 1.
    rewrite (proj2 (Z.leb_gt _ _) Hx), Ex, Z.eqb_refl. done.
  - apply list.Forall_cons in Hf as [(Hz1 & Hz2) Hf]. cbn in Hl. destruct Hl as [Hpz Hl]. cbn.
    unfold mbind at 1, M_bind at 1, get at 1.
    rewrite (proj2 (Z.leb_gt _ _) Hz1), (proj2 (Z.eqb_neq _ _) Hz2), Hpz. by apply IH.
Qed.

(** The tour of [malloc]: from the node after [freep] around the ring to [freep]. *)
Lemma tour s fl al :
  UInv s fl al -> exists f q, freep s = f.1 /\ nodes fl ≡ₚ q ++ [f] /\
    links (um s) (ptr (um s) f.1) (q ++ [f]) /\ ptr (um s) f.1 = nxt (ptr (um s) f.1) (q ++ [f]) /\
    (forall z, z ∈ q -> z.1 <> f.1).
Proof.
  intros I. pose proof (ui_freep _ _ _ I) as Hfp.
  apply list_elem_of_fmap in Hfp as (f & Ef & Hfin).
  apply list_elem_of_split in Hfin as (l1 & l2 & E).
  destruct (links_rotate _ _ _ _ _ (ui_links _ _ _ I) E) as [Hpf Hrot].
  exists f, (l2 ++ l1). split; [done|]. split.
  { rewrite E, <- Permutation_middle, (Permutation_app_comm l1). apply Permutation_cons_append. }
  split; [|split].
  - apply links_app. split; [exact Hrot|]. by split.
  - rewrite Hpf. by destruct l2, l1.
  - intros z Hz. eapply (nodes_distinct fl l1 f l2); [apply (ui_sorted _ _ _ I)|done|set_solver].
Qed.

Lemma first_large n (q : list blk) :
  (exists z, z ∈ q /\ n <= z.2) ->
  exists q1 y q2, q = q1 ++ y :: q2 /\ Forall (fun z => z.2 < n) q1 /\ n <= y.2.
Proof.
  intros (z & Hz & Hn). induction q as [|u q IH]; [set_solver|].
  destruct (decide (n <= u.2)); [exists [], u, q; split; [done|]; split; [constructor|done]|].
  apply elem_of_cons in Hz as [->|Hz]; [done|]. destruct (IH Hz) as (q1 & y & q2 & -> & H1 & H2).
  exists (u :: q1), y, q2. split; [done|]. split; [constructor; [lia|done]|done].
Qed.

(** One search from [freep], from a state that has a large enough free block. *)
Lemma search_found s fl al n fuel :
  UInv s fl al -> 0 < n -> (exists z, z ∈ fl /\ n <= z.2) -> (length fl < fuel)%nat ->
  exists s' fl' a,
    malloc_loop grant fuel n (ptr (um s) (freep s)) (freep s) s = Ret (a + HDR, s') /\
    UInv s' fl' ((a, n) :: al) /\ total fl = total fl' + n /\ brk s' = brk s /\
    (forall z x, z ∈ al -> in_blk z x -> um s' x = um s x).
Proof.
  intros I Hn (z & Hz & Hzn) Hfu. destruct (tour s fl al I) as (f & q & Ef & Hperm & Hl & Hp & Hq).
  assert (Hsz : forall z, z ∈ nodes fl -> size (um s) z.1 = z.2)
    by (intros u Hu; apply (nodes_room s fl al u I Hu)).
  assert (Hall : forall z, z ∈ q ++ [f] -> z ∈ nodes fl) by (intros u Hu; by rewrite Hperm).
  destruct (first_large n (q ++ [f])) as (q1 & y & q2 & Eq & Hq1 & Hy).
  { exists z. rewrite <- Hperm. split; [by right|done]. }
  assert (Hq1f : forall z, z ∈ q1 -> z ∈ q).
  { intros u Hu. destruct (decide (q2 = [])) as [->|Hq2].
    - by apply app_inj_tail in Eq as [-> _].
    - destruct (exists_last Hq2) as (q2' & t & ->).
      rewrite app_comm_cons, (assoc_L (++) q1) in Eq. apply app_inj_tail in Eq as [-> _]. set_solver. }
  assert (Hlen : (length q1 < fuel)%nat).
  { apply Permutation_length in Hperm. rewrite Eq, length_app in Hperm. cbn in Hperm. lia. }
  rewrite Eq in Hl, Hp, Hall. rewrite Ef.
  destruct (scan_found s (fun a => exists u, u ∈ nodes fl /\ u.1 = a) n y _ q2 q1 fuel f.1 Hl)
    as (w & (u & Hu & <-) & Hw & Hrun); auto.
  { apply list.Forall_forall. intros u Hu. rewrite list.Forall_forall in Hq1.
    assert (u ∈ nodes fl) by (apply Hall; set_solver). rewrite Hsz by done.
    split; [by apply Hq1|]. split; [rewrite Ef; by apply Hq, Hq1f|by exists u]. }
  { rewrite Hsz by (apply Hall; set_solver). done. }
  { exists f. split; [rewrite Hperm; set_solver|done]. }
  assert (Hyfl : y ∈ fl).
  { assert (y ∈ nodes fl) as H by (apply Hall; set_solver).
    apply elem_of_cons in H as [->|]; [cbn in Hy; lia|done]. }
  apply list_elem_of_split in Hyfl as (f1 & f2 & Efl).
  destruct (carve_inv s fl al n f1 y f2 u I Efl Hu Hw) as (fl' & I' & Ht & Hfr); [lia|].
  rewrite <- Hp in Hrun. eexists _, fl', _. split; [exact Hrun|]. done.
Qed.

(** A search that finds nothing asks for memory. *)
Lemma search_none s fl al n f :
  UInv s fl al -> 0 < n -> Forall (fun z => z.2 < n) fl ->
  malloc_loop grant (length fl + S f) n (ptr (um s) (freep s)) (freep s) s =
  (r ← morecore grant n; if r =? 0 then mret 0
   else s' ← get; malloc_loop grant f n (ptr (um s') r) r) s.
Proof.
  intros I Hn Hall. destruct (tour s fl al I) as (x & q & Ef & Hperm & Hl & Hp & Hq).
  assert (Hsz : forall z, z ∈ q ++ [x] -> size (um s) z.1 < n).
  { intros z Hz. rewrite <- Hperm in Hz. destruct (nodes_room s fl al z I Hz) as (_ & _ & _ & ->).
    apply elem_of_cons in Hz as [->|Hz]; [done|]. rewrite list.Forall_forall in Hall. auto. }
  assert (Hlen : length fl = length q).
  { apply Permutation_length in Hperm. rewrite length_app in Hperm. cbn in Hperm. lia. }
  rewrite Hlen, Ef. rewrite Hp at 1. apply scan_none; auto.
  - apply list.Forall_forall. intros z Hz. rewrite Ef. split; [apply Hsz; set_solver|auto].
  - apply Hsz. set_solver.
Qed.

(** New memory at the break is one more block in use. *)
Lemma grow_inv s fl al nu :
  UInv s fl al -> 0 < nu < 2 ^ 32 -> brk s + HDR * nu <= 2 ^ 36 ->
  UInv (mkU (set_size (brk s) nu (um s)) (freep s) (brk s + HDR * nu) (S (calls s)))
       fl ((brk s, nu) :: al).
Proof.
  intros I Hnu Hb. pose proof (ui_brk _ _ _ I) as Hbrk. pose proof (ui_ok _ _ _ I) as Hok.
  assert (Hsz : forall p, p + HDR <= brk s ->
            size (set_size (brk s) nu (um s)) p = size (um s) p /\
            ptr (set_size (brk s) nu (um s)) p = ptr (um s) p).
  { intros p Hp. unfold HDR in *. by hdr. }
  assert (Hold : Forall (fun x => okb s x /\ x.1 + HDR <= brk s /\ bend x <= brk s) (fl ++ al)).
  { eapply list.Forall_impl; [exact Hok|]. intros x Hx. split; [done|].
    destruct Hx as (X1 & X2 & X3 & X4). unfold bend, HDR in *. lia. }
  unfold HDR in *. split; cbn [um freep brk calls].
  - apply (ui_low _ _ _ I).
  - unfold HDR. lia.
  - rewrite (proj1 (Hsz base_ ltac:(lia))). apply (ui_base _ _ _ I).
  - eapply links_ext; [|apply (ui_links _ _ _ I)]. intros x Hx. apply Hsz.
    apply (nodes_room s fl al x I Hx).
  - apply (ui_sorted _ _ _ I).
  - rewrite <- Permutation_middle. constructor.
    + unfold okb, bend, HDR. cbn. split; [lia|]. split; [lia|]. split; [lia|]. by hdr.
    + eapply list.Forall_impl; [exact Hold|]. intros x ((X1 & X2 & X3 & X4) & X5 & X6).
      unfold okb, bend, HDR in *. cbn. rewrite (proj1 (Hsz x.1 ltac:(lia))). lia.
  - rewrite <- Permutation_middle. split; [|apply (ui_apart _ _ _ I)].
    eapply list.Forall_impl; [exact Hold|]. intros x (_ & _ & X). right. done.
  - apply (ui_freep _ _ _ I).
Qed.

(** What [morecore] asks of [sbrk], in bytes. *)
Definition request (n : Z) : Z := HDR * Z.max n 4096.

Definition refused (s : ust) (n : Z) : Prop :=
  TRAPFRAME < brk s + request n \/ grant (calls s) (brk s) (request n) = false.

#[local] Instance refused_dec s n : Decision (refused s n).
Proof. unfold refused. apply _. Defined.

Context (Hgrant : forall k b n, grant k b n = true -> b + n <= 2 ^ 36).

Lemma freep_pos s fl al : UInv s fl al -> 0 < freep s.
Proof.
  intros I. pose proof (ui_freep _ _ _ I) as H. apply list_elem_of_fmap in H as (f & -> & Hf).
  pose proof (ui_low _ _ _ I). destruct (nodes_room s fl al f I Hf). lia.
Qed.

Lemma UInv_calls s fl al k : UInv s fl al -> UInv (mkU (um s) (freep s) (brk s) k) fl al.
Proof. intros I. by split; try apply I. Qed.

Lemma morecore_inv s fl al n :
  UInv s fl al -> 0 < n -> request n < 2 ^ 31 ->
  (refused s n /\
   morecore grant n s = Ret (0, mkU (um s) (freep s) (brk s) (S (calls s)))) \/
  (exists s' fl', morecore grant n s = Ret (freep s', s') /\ UInv s' fl' al /\
     total fl' = total fl + Z.max n 4096 /\ brk s' = brk s + request n /\
     (forall y a, y ∈ al -> in_blk y a -> um s' a = um s a) /\
     (exists z, z ∈ fl' /\ n <= z.2) /\ (length fl' <= S (length fl))%nat).
Proof.
  intros I Hn Hreq. unfold morecore.
  replace (if n <? 4096 then 4096 else n) with (Z.max n 4096) by (destruct (Z.ltb_spec n 4096); lia).
  assert (Hsw : swrap 32 (Z.max n 4096 * HDR) = request n).
  { rewrite swrap_small; unfold request, HDR in *; lia. }
  rewrite Hsw.
  assert (Hp : 0 <? request n = true) by (apply Z.ltb_lt; unfold request, HDR; lia).
  set (s0 := mkU (um s) (freep s) (brk s) (S (calls s))).
  destruct (decide (refused s n)) as [Hr|Hr].
  { left. split; [done|]. rewrite (M_bind_Ret _ _ s None s0); [done|]. unfold sbrk. rewrite Hp.
    destruct Hr as [Hr|Hr]; [by rewrite (proj2 (Z.ltb_lt _ _) Hr)|].
    by rewrite Hr, orb_true_r. }
  unfold refused in Hr. assert (Ht : ~ TRAPFRAME < brk s + request n) by tauto.
  destruct (grant (calls s) (brk s) (request n)) eqn:Hg; [|tauto].
  set (s1 := mkU (um s) (freep s) (brk s + request n) (S (calls s))).
  rewrite (M_bind_Ret _ _ s (Some (brk s)) s1).
  2: { unfold sbrk. rewrite Hp, Hg, (proj2 (Z.ltb_ge _ _)) by lia. done. }
  right. unfold s1. pose proof (Hgrant _ _ _ Hg) as Hb. unfold request in *.
  pose proof (grow_inv s fl al (Z.max n 4096) I ltac:(unfold HDR in *; lia) Hb) as I1.
  pose proof (free_inv _ fl al (brk s, Z.max n 4096) I1) as
    (s' & fl' & Hrun & I' & H1 & H2 & H3 & H4 & (z & Hz & Hzn) & H5).
  exists s', fl'. cbn [fst snd um brk] in *. split.
  { rewrite (M_bind_Ret _ _ _ tt _ eq_refl). unfold with_um. cbn [um freep brk calls].
    rewrite (M_bind_Ret _ _ _ _ _ Hrun). done. }
  split; [done|]. split; [done|]. split; [done|]. split; [|split; [exists z; split; [done|lia]|done]].
  intros y a Hy Ha. rewrite (H4 y a Hy Ha). apply set_size_out.
  pose proof (ui_ok _ _ _ I) as Hok. rewrite list.Forall_forall in Hok.
  destruct (Hok y) as (_ & _ & Y & _); [set_solver|]. unfold in_blk in Ha. lia.
Qed.

End search.

End ring.

(** ** The allocator *)

(** Before the first [malloc] ([freep = 0]), or a ring with free blocks [fl] and blocks in
    use [al]. *)
Inductive heap (base_ : Z) (s : ust) : list blk -> list blk -> Prop :=
  | heap_new : freep s = 0 -> 0 < base_ -> base_ + HDR <= brk s <= 2 ^ 36 -> heap base_ s [] []
  | heap_up fl al : UInv base_ s fl al -> heap base_ s fl al.

(** The heap after the initialisation in [malloc]. *)
Definition ready (base_ : Z) (s : ust) : ust :=
  if freep s =? 0 then
    with_freep base_ (with_um (set_size base_ 0 (set_ptr base_ base_ (um s))) s)
  else s.

Lemma ready_inv base_ s fl al :
  heap base_ s fl al ->
  UInv base_ (ready base_ s) fl al /\ brk (ready base_ s) = brk s /\ calls (ready base_ s) = calls s /\
  (forall z x, z ∈ al -> in_blk z x -> um (ready base_ s) x = um s x).
Proof.
  intros [H0 Hb Hbrk|fl' al' I].
  - unfold ready. rewrite H0. cbn. split; [|set_solver]. unfold HDR in *. split; cbn; auto.
    + by hdr.
    + hdr. done.
    + by repeat constructor.
    + set_solver.
  - unfold ready. pose proof (freep_pos _ _ _ _ I). rewrite (proj2 (Z.eqb_neq _ _)) by lia. done.
Qed.

Lemma units_eq nbytes :
  0 <= nbytes <= 2 ^ 31 - 64 ->
  units nbytes = (nbytes + 15) / 16 + 1 /\ 0 < units nbytes /\ nbytes <= HDR * (units nbytes - 1) /\
  request (units nbytes) < 2 ^ 31.
Proof.
  intros H. unfold units, request, HDR. replace (nbytes + 16 - 1) with (nbytes + 15) by lia.
  pose proof (Z.div_mod (nbytes + 15) 16). pose proof (Z.mod_pos_bound (nbytes + 15) 16).
  rewrite (wrap_small 32) by lia. lia.
Qed.

(** What [malloc] promises on a heap with free blocks [fl] and blocks in use [al].  It
    returns 0 only if no free block is large enough and the kernel refused more memory;
    otherwise the payload of a block that has room for [nbytes], carved from a free block
    or from new memory.  No byte of a block in use changes and no unit is lost. *)
Definition malloc_post base_ grant (s : ust) (fl al : list blk) (nbytes r : Z) (s' : ust) : Prop :=
  let n := units nbytes in
  ((r = 0 /\ Forall (fun z => z.2 < n) fl /\ refused grant s n /\ UInv base_ s' fl al) \/
   (exists a fl', r = a + HDR /\ UInv base_ s' fl' ((a, n) :: al) /\ nbytes <= HDR * (n - 1) /\
      (total fl' + n = total fl \/
       Forall (fun z => z.2 < n) fl /\ total fl' + n = total fl + Z.max n 4096))) /\
  (forall z x, z ∈ al -> in_blk z x -> um s' x = um s x).

Lemma malloc_run base_ grant s fl al nbytes :
  (forall k b n, grant k b n = true -> b + n <= 2 ^ 36) ->
  heap base_ s fl al -> 0 <= nbytes <= 2 ^ 31 - 64 ->
  exists r s', malloc base_ grant nbytes s = Ret (r, s') /\ malloc_post base_ grant s fl al nbytes r s'.
Proof.
  intros Hg Hh Hnb. unfold malloc_post. set (n := units nbytes). cbn zeta. destruct (units_eq nbytes Hnb) as (_ & Hn & Hroom & Hreq). fold n in Hn, Hroom, Hreq.
  destruct (ready_inv base_ s fl al Hh) as (I & Hbrk & Hcalls & Hfr).
  unfold malloc. rewrite (M_bind_Ret _ _ s tt (ready base_ s) eq_refl).
  rewrite (M_bind_Ret _ _ _ _ (ready base_ s) eq_refl). fold n.
  set (s0 := ready base_ s) in *. pose proof (ring_fuel_enough _ _ _ _ I) as Hfuel. cbn in Hfuel.
  destruct (decide (Exists (fun z => n <= z.2) fl)) as [Hex|Hno].
  - apply list.Exists_exists in Hex.
    destruct (search_found base_ grant s0 fl al n (2 * ring_fuel s0 + 2) I Hn Hex ltac:(lia))
      as (s' & fl' & a & Hrun & I' & Ht & _ & Hk).
    exists (a + HDR), s'. split; [exact Hrun|]. split; [|intros z x Hz Hx; rewrite (Hk z x Hz Hx); eauto].
    right. exists a, fl'. repeat split; try done; try apply I'. left. lia.
  - assert (Hsmall : Forall (fun z => z.2 < n) fl).
    { apply list.Forall_forall. intros z Hz. destruct (decide (z.2 < n)); [done|].
      destruct Hno. apply list.Exists_exists. exists z. split; [done|lia]. }
    replace (2 * ring_fuel s0 + 2)%nat with (length fl + S (2 * ring_fuel s0 + 1 - length fl))%nat by lia.
    rewrite (search_none base_ grant s0 fl al n _ I Hn Hsmall).
    destruct (morecore_inv base_ grant Hg s0 fl al n I Hn Hreq) as
      [[Hr Hrun]|(s1 & fl1 & Hrun & I1 & Ht & Hb & Hk1 & Hex & Hlen)];
      rewrite (M_bind_Ret _ _ _ _ _ Hrun).
    + exists 0. eexists. split; [reflexivity|]. split; [left|exact Hfr].
      split; [done|]. split; [done|]. split; [|by apply UInv_calls].
      unfold refused in *. by rewrite <- Hbrk, <- Hcalls.
    + pose proof (freep_pos _ _ _ _ I1). rewrite (proj2 (Z.eqb_neq _ _)) by lia.
      rewrite (M_bind_Ret _ _ _ _ s1 eq_refl).
      destruct (search_found base_ grant s1 fl1 al n (2 * ring_fuel s0 + 1 - length fl) I1 Hn Hex ltac:(lia))
        as (s' & fl' & a & Hrun' & I' & Ht' & _ & Hk).
      exists (a + HDR), s'. split; [exact Hrun'|].
      split; [|intros z x Hz Hx; rewrite (Hk z x Hz Hx), (Hk1 z x Hz Hx); eauto].
      right. exists a, fl'. repeat split; try done; try apply I'. right. split; [done|lia].
Qed.

Lemma UInv_perm base_ s fl al al' : al ≡ₚ al' -> UInv base_ s fl al -> UInv base_ s fl al'.
Proof.
  intros Hp I. split; try apply I.
  - rewrite <- Hp. apply (ui_ok _ _ _ _ I).
  - rewrite <- Hp. apply (ui_apart _ _ _ _ I).
Qed.

(** A program writing into the payload of a block it has. *)
Lemma write_inv base_ s fl al z x v :
  UInv base_ s fl al -> z ∈ al -> z.1 + HDR <= x < bend z ->
  UInv base_ (with_um (upd (um s) x v) s) fl al.
Proof.
  intros I Hz Hx. pose proof (ui_ok _ _ _ _ I) as Hok. pose proof Hok as Hok'.
  rewrite list.Forall_forall in Hok'.
  assert (Hn : forall y, y ∈ nodes base_ fl -> ptr (upd (um s) x v) y.1 = ptr (um s) y.1 /\
                 size (upd (um s) x v) y.1 = size (um s) y.1).
  { intros y Hy. destruct (used_apart _ s fl al y z I Hy Hz) as (Z1 & Z2 & Z3).
    unfold bend, HDR in *.
    split; [apply ptr_ext|apply size_ext]; intros a Ha; apply upd_ne; lia. }
  assert (Ha : forall y, y ∈ al -> size (upd (um s) x v) y.1 = size (um s) y.1).
  { intros y Hy. destruct (Hok' y) as (Y1 & Y2 & _); [set_solver|].
    destruct (decide (y.1 = z.1)) as [->|Hne].
    { apply size_ext. intros a Ha. apply upd_ne. unfold HDR in *. lia. }
    assert (apart y z).
    { apply list_elem_of_split in Hz as (k1 & k2 & ->). pose proof (ui_apart _ _ _ _ I) as Hap.
      rewrite (Permutation_app_comm fl), <- Permutation_middle in Hap. cbn in Hap.
      destruct Hap as [Hap _]. rewrite list.Forall_forall in Hap. symmetry. apply Hap.
      apply elem_of_app in Hy as [Hy|Hy]; [set_solver|].
      apply elem_of_cons in Hy as [->|Hy]; [done|set_solver]. }
    apply size_ext. intros a Ha. apply upd_ne. unfold apart, bend, HDR in *. lia. }
  split; try apply I.
  - destruct (Hn (base_, 0)) as [_ Hb]; [left|]. cbn in *. rewrite Hb. apply (ui_base _ _ _ _ I).
  - eapply links_ext; [|apply (ui_links _ _ _ _ I)]. intros y Hy. by apply Hn.
  - apply list.Forall_forall. intros y Hy. destruct (Hok' y Hy) as (Y1 & Y2 & Y3 & Y4).
    unfold okb. cbn. repeat split; auto. rewrite <- Y4.
    apply elem_of_app in Hy as [Hy|Hy]; [apply Hn; by right|by apply Ha].
Qed.

(** What a program does with the allocator: [malloc], [free] of a block it has, writes to
    the payload of such a block. *)
Inductive ureach (base_ : Z) (grant : nat -> Z -> Z -> bool) : ust -> list blk -> Prop :=
  | ur_new s :
      freep s = 0 -> 0 < base_ -> base_ + HDR <= brk s <= 2 ^ 36 -> ureach base_ grant s []
  | ur_malloc s al nbytes r s' :
      ureach base_ grant s al -> 0 <= nbytes <= 2 ^ 31 - 64 ->
      malloc base_ grant nbytes s = Ret (r, s') ->
      ureach base_ grant s' (if r =? 0 then al else (r - HDR, units nbytes) :: al)
  | ur_free s al bk al' s' :
      ureach base_ grant s al -> al ≡ₚ bk :: al' -> free (bk.1 + HDR) s = Ret (tt, s') ->
      ureach base_ grant s' al'
  | ur_write s al z x v :
      ureach base_ grant s al -> z ∈ al -> z.1 + HDR <= x < bend z ->
      ureach base_ grant (with_um (upd (um s) x v) s) al.

Lemma heap_used base_ s fl al : heap base_ s fl al -> al <> [] -> UInv base_ s fl al.
Proof. by intros []. Qed.

(** What [free] promises. *)
Definition free_post base_ (s : ust) (fl : list blk) (bk : blk) (al : list blk) (s' : ust) : Prop :=
  exists fl', UInv base_ s' fl' al /\ total fl' = total fl + bk.2 /\
    (forall y a, y ∈ al -> in_blk y a -> um s' a = um s a).

Lemma free_run base_ s fl al bk al' :
  heap base_ s fl al -> al ≡ₚ bk :: al' ->
  exists s', free (bk.1 + HDR) s = Ret (tt, s') /\ free_post base_ s fl bk al' s'.
Proof.
  intros Hh Hp. assert (I : UInv base_ s fl al).
  { apply heap_used; [done|]. intros ->. by apply Permutation_nil_cons in Hp. }
  apply (UInv_perm _ _ _ _ _ Hp) in I.
  destruct (free_inv _ _ _ _ _ I) as (s' & fl' & H1 & H2 & H3 & _ & _ & H4 & _).
  exists s'. split; [done|]. by exists fl'.
Qed.

Lemma ureach_heap base_ grant s al :
  (forall k b n, grant k b n = true -> b + n <= 2 ^ 36) ->
  ureach base_ grant s al -> exists fl, heap base_ s fl al.
Proof.
  intros Hg. induction 1 as [s H0 Hb Hbrk|s al nb r s' _ [fl IH] Hnb E|s al bk al' s' _ [fl IH] Hp E|
                            s al z x v _ [fl IH] Hz Hx].
  - exists []. by constructor.
  - destruct (malloc_run base_ grant s fl al nb Hg IH Hnb) as (r' & s1 & E' & Hpost & _).
    rewrite E in E'. injection E' as <- <-.
    destruct Hpost as [(-> & _ & _ & I)|(a & fl' & -> & I & _ & _)]; [exists fl; by constructor|].
    exists fl'. pose proof (ui_low _ _ _ _ I) as Hlow. pose proof (ui_ok _ _ _ _ I) as Hok.
    rewrite <- Permutation_middle in Hok. apply list.Forall_cons in Hok as [(_ & Ha & _) _]. cbn in Ha.
    rewrite (proj2 (Z.eqb_neq _ _)) by (unfold HDR in *; lia). rewrite Z.add_simpl_r. by constructor.
  - destruct (free_run base_ s fl al bk al' IH Hp) as (s1 & E' & fl' & I & _).
    rewrite E in E'. injection E' as <-. exists fl'. by constructor.
  - exists fl. constructor. eapply write_inv; [|done|done]. apply heap_used; [done|]. intros ->. inversion Hz.
Qed.

(** C15: the heap never breaks while every request is of at most 2^31 - 64 bytes (larger ones
    wrap: [malloc_size_wraps]) and the kernel keeps the break below 2^36.  After any sequence of such [malloc]s, of [free]s of
    blocks in use and writes to them: the blocks handed out are pairwise disjoint, lie in the heap and have
    their sizes in their headers; the free blocks form one ring in address order in which
    no two touch, disjoint from all of them ([heap]).  From such a state [malloc] of up
    to 2^31 - 64 bytes always returns and does what [malloc_post] says, and [free] of any
    block in use returns, gives back exactly its units and changes no byte of the
    others. *)
Theorem allocator_safe base_ grant s al :
  (forall k b n, grant k b n = true -> b + n <= 2 ^ 36) ->
  ureach base_ grant s al ->
  exists fl, heap base_ s fl al /\
    (forall nbytes, 0 <= nbytes <= 2 ^ 31 - 64 ->
       exists r s', malloc base_ grant nbytes s = Ret (r, s') /\
                    malloc_post base_ grant s fl al nbytes r s') /\
    (forall bk al', al ≡ₚ bk :: al' ->
       exists s', free (bk.1 + HDR) s = Ret (tt, s') /\ free_post base_ s fl bk al' s').
Proof.
  intros Hg Hr. destruct (ureach_heap base_ grant s al Hg Hr) as [fl Hh]. exists fl.
  split; [done|]. split; [intros; by apply malloc_run|intros; by eapply free_run].
Qed.

(** Concrete runs: [base] at 4096, the break at 20480, a kernel that grants 1 MB. *)
Definition demo_grant (k : nat) (b n : Z) : bool := b + n <=? 20480 + 1048576.
Definition demo0 : ust := mkU (fun _ => 0) 0 20480 0.
Definition after (r : res (Z * ust)) : Z * ust := match r with Ret x => x | _ => (0, demo0) end.
Definition demo1 : Z * ust := after (malloc 4096 demo_grant 100 demo0).
Definition demo2 : Z * ust := after (malloc 4096 demo_grant 40 demo1.2).

(** Blocks are cut from the top of the new 64 KB. *)
Example malloc_demo : demo1.1 = 20480 + 65536 - 16 * 7 /\ demo2.1 = demo1.1 - 16 * 4.
Proof. vm_compute. done. Qed.

Lemma allocator_safe_witness :
  exists fl, heap 4096 demo2.2 fl [(demo2.1 - HDR, 4); (demo1.1 - HDR, 8)] /\
    exists s', free demo1.1 demo2.2 = Ret (tt, s') /\
      free_post 4096 demo2.2 fl (demo1.1 - HDR, 8) [(demo2.1 - HDR, 4)] s'.
Proof.
  assert (Hg : forall k b n, demo_grant k b n = true -> b + n <= 2 ^ 36).
  { unfold demo_grant. intros k b n H%Z.leb_le. lia. }
  assert (R0 : ureach 4096 demo_grant demo0 []) by (apply ur_new; [reflexivity| |]; unfold HDR; cbn; lia).
  assert (R1 : ureach 4096 demo_grant demo1.2 [(demo1.1 - HDR, 8)]).
  { change [(demo1.1 - HDR, 8)] with (if demo1.1 =? 0 then [] else [(demo1.1 - HDR, units 100)]).
    apply (ur_malloc _ _ demo0 [] 100); [exact R0|lia|reflexivity]. }
  assert (R2 : ureach 4096 demo_grant demo2.2 [(demo2.1 - HDR, 4); (demo1.1 - HDR, 8)]).
  { change [(demo2.1 - HDR, 4); (demo1.1 - HDR, 8)] with
      (if demo2.1 =? 0 then [(demo1.1 - HDR, 8)] else [(demo2.1 - HDR, units 40); (demo1.1 - HDR, 8)]).
    apply (ur_malloc _ _ demo1.2 [(demo1.1 - HDR, 8)] 40); [exact R1|lia|reflexivity]. }
  destruct (allocator_safe 4096 demo_grant demo2.2 _ Hg R2) as (fl & Hh & _ & Hf).
  exists fl. split; [exact Hh|].
  apply (Hf (demo1.1 - HDR, 8) [(demo2.1 - HDR, 4)]). apply Permutation_swap.
Defined.

(** [sbrk] takes an [int]: the size [morecore] asks for wraps.  [malloc(4294967295)]
    succeeds when the kernel has 16 bytes to give, and its block ends far beyond the
    break. *)
Theorem malloc_size_wraps :
  exists r s', malloc 4096 demo_grant 4294967295 demo0 = Ret (r, s') /\
    r = 20480 + HDR /\ brk s' = 20480 + HDR /\ size (um s') (r - HDR) = 2 ^ 28 + 1.
Proof.
  eexists _, _. split; [vm_compute; reflexivity|]. vm_compute. done.
Qed.
