(* ===== verification/UserSh.v ===== *)
(** * The xv6 shell: [user/sh.c]

    The command line is the list of its bytes [buf] without the terminating NUL; a
    [char *] into it is an offset, so [es] is its length and the byte there is 0.  The
    parser keeps the pointer [*ps] as its state; [Panic] is the shell's [panic], which
    prints the message and exits.  Command nodes hold offsets ([argv], [eargv], [file],
    [efile]) as the C structures hold pointers. *)
From stdpp Require Import base list.
From Stdlib Require Import ZArith Lia.
From S2P Require Import Prelude CString.

(** ** Commands *)

(** Where a word starts and ends. *)
Notation span := (nat * nat)%type.

(** [file], [efile], [mode], [fd] of [struct redircmd]. *)
Record redir := mkRedir { rfile : span; rmode : Z; rfd : Z }.

Inductive cmd :=
  | Exec (argv : list span)
  | Redir (c : cmd) (r : redir)
  | Pipe (left right : cmd)
  | List_ (left right : cmd)
  | Back (c : cmd).

Definition MAXARGS : nat := 10.
Definition O_RDONLY : Z := 0.
Definition O_WRONLY : Z := 1.
Definition O_CREATE : Z := 512.
Definition O_TRUNC : Z := 1024.

(** [redircmd] around a command, one after the other: the last one is outermost. *)
Definition wrap_redirs (c : cmd) (rs : list redir) : cmd := foldl Redir c rs.

(** ** Lexing *)

Definition whitespace : list Z := [32; 9; 13; 10; 11].
Definition symbols : list Z := bytes "<|>&;()".

(** [strchr(set, c)] of [ulib.c], which never finds 0. *)
Definition mem_of (set : list Z) (c : Z) : bool := existsb (Z.eqb c) set.

Definition P := M nat.

Section parse.
Context (buf : list Z).

Definition es : nat := length buf.
Definition byte (s : nat) : Z := nth s buf 0.

(** [while (s < es && strchr(whitespace, *s)) s++;] *)
Fixpoint skip_loop (n s : nat) : nat :=
  match n with
  | O => s
  | S n' => if (s <? es)%nat && mem_of whitespace (byte s) then skip_loop n' (S s) else s
  end.
Definition skip (s : nat) : nat := skip_loop (es - s) s.

(** [while (s < es && !strchr(whitespace, *s) && !strchr(symbols, *s)) s++;] *)
Fixpoint word_loop (n s : nat) : nat :=
  match n with
  | O => s
  | S n' =>
      if (s <? es)%nat && negb (mem_of whitespace (byte s)) && negb (mem_of symbols (byte s))
      then word_loop n' (S s) else s
  end.

Notation tok := (Z * nat * nat)%type.

(** The [switch] of [gettoken] at [s]: the token and the pointer after it. *)
Definition switch (s : nat) : Z * nat :=
  let c := byte s in
  if c =? 0 then (0, s)
  else if mem_of (bytes "|();&<") c then (c, S s)
  else if c =? 62 then if byte (S s) =? 62 then (43, S (S s)) else (62, S s)
  else (97, word_loop (es - s) s).

(** [gettoken]: the token (its code, [*q] and [*eq]). *)
Definition gettoken : P tok := fun ps =>
  let s := skip ps in
  let (ret, e) := switch s in
  Ret ((ret, s, e), skip e).

Definition peek (toks : list Z) : P bool := fun ps =>
  let s := skip ps in Ret (c_true (byte s) && mem_of toks (byte s), s).

(** ** Parsing *)

Definition redir_of (tok : Z) (w : span) : option redir :=
  if tok =? 60 then Some (mkRedir w O_RDONLY 0)
  else if tok =? 62 then Some (mkRedir w (Z.lor (Z.lor O_WRONLY O_CREATE) O_TRUNC) 1)
  else if tok =? 43 then Some (mkRedir w (Z.lor O_WRONLY O_CREATE) 1)
  else None.

(** [parseredirs]: the redirections to wrap around the command, in the order read. *)
Fixpoint redirs_loop (n : nat) : P (list redir) :=
  match n with
  | O => undef "parseredirs"
  | S n' =>
      b ← peek (bytes "<>");
      if b : bool then
        t ← gettoken;
        w ← gettoken;
        panic_if (negb (fst (fst w) =? 97)) "missing file for redirection";;
        rs ← redirs_loop n';
        mret (match redir_of (fst (fst t)) (snd (fst w), snd w) with
              | Some r => r :: rs
              | None => rs
              end)
      else mret []
  end.
Definition parseredirs : P (list redir) := redirs_loop (S es).

(** The loop of [parseexec]: the arguments from [argc] on and the redirections among them. *)
Fixpoint exec_loop (n argc : nat) : P (list span * list redir) :=
  match n with
  | O => undef "parseexec"
  | S n' =>
      b ← peek (bytes "|)&;");
      if b : bool then mret ([], [])
      else
        t ← gettoken;
        if fst (fst t) =? 0 then mret ([], [])
        else
          panic_if (negb (fst (fst t) =? 97)) "syntax";;
          panic_if (MAXARGS <=? S argc)%nat "too many args";;
          rs ← parseredirs;
          r ← exec_loop n' (S argc);
          mret ((snd (fst t), snd t) :: fst r, rs ++ snd r)
  end.

(** The loop of [parseline] on [&]. *)
Fixpoint back_loop (n : nat) (c : cmd) : P cmd :=
  match n with
  | O => undef "parseline"
  | S n' =>
      b ← peek (bytes "&");
      if b : bool then gettoken;; back_loop n' (Back c) else mret c
  end.

(** The recursive descent; every call passes one less [f]. *)
Fixpoint parseline (f : nat) : P cmd :=
  match f with
  | O => undef "parseline"
  | S f' =>
      c ← parsepipe f';
      c ← back_loop (S es) c;
      b ← peek (bytes ";");
      if b : bool then gettoken;; r ← parseline f'; mret (List_ c r) else mret c
  end
with parsepipe (f : nat) : P cmd :=
  match f with
  | O => undef "parsepipe"
  | S f' =>
      c ← parseexec f';
      b ← peek (bytes "|");
      if b : bool then gettoken;; r ← parsepipe f'; mret (Pipe c r) else mret c
  end
with parseexec (f : nat) : P cmd :=
  match f with
  | O => undef "parseexec"
  | S f' =>
      b ← peek (bytes "(");
      if b : bool then parseblock f'
      else
        rs0 ← parseredirs;
        r ← exec_loop (S es) 0;
        mret (wrap_redirs (Exec (fst r)) (rs0 ++ snd r))
  end
with parseblock (f : nat) : P cmd :=
  match f with
  | O => undef "parseblock"
  | S f' =>
      b ← peek (bytes "(");
      panic_if (negb b) "parseblock";;
      gettoken;;
      c ← parseline f';
      b ← peek (bytes ")");
      panic_if (negb b) "syntax - missing )";;
      gettoken;;
      rs ← parseredirs;
      mret (wrap_redirs c rs)
  end.

Definition parse_fuel : nat := (4 * es + 4)%nat.

(** [parsecmd], up to [nulterminate]. *)
Definition parsecmd : P cmd :=
  c ← parseline parse_fuel;
  peek [];;
  s ← get;
  panic_if (negb (s =? es)%nat) "syntax";;
  mret c.

End parse.

(** ** [nulterminate] *)

(** The words of a command, in the order [nulterminate] visits them. *)
Fixpoint spans (c : cmd) : list span :=
  match c with
  | Exec argv => argv
  | Redir c' r => spans c' ++ [rfile r]
  | Pipe l r | List_ l r => spans l ++ spans r
  | Back c' => spans c'
  end.

(** [*e = 0] on the buffer with its NUL. *)
Definition put_nul (b : list Z) (e : nat) : list Z := <[e := 0]> b.

Fixpoint nulterminate (c : cmd) (b : list Z) : list Z :=
  match c with
  | Exec argv => foldl (fun b w => put_nul b (snd w)) b argv
  | Redir c' r => put_nul (nulterminate c' b) (snd (rfile r))
  | Pipe l r | List_ l r => nulterminate r (nulterminate l b)
  | Back c' => nulterminate c' b
  end.

(** ** Tokens *)

Section tokens.
Context (buf : list Z).
Notation tok := (Z * nat * nat)%type.
Notation es := (es buf).
Notation byte := (byte buf).
Notation skip := (skip buf).
Notation switch := (switch buf).

Lemma mem_of_spec set c : mem_of set c = true <-> c ∈ set.
Proof.
  unfold mem_of. rewrite existsb_exists. setoid_rewrite Z.eqb_eq.
  setoid_rewrite <- list_elem_of_In. naive_solver.
Qed.

Lemma byte_end s : (es <= s)%nat -> byte s = 0.
Proof. intros H. unfold UserSh.byte. apply nth_overflow. exact H. Qed.

Lemma skip_loop_spec n s :
  (s <= es)%nat -> (es - s <= n)%nat ->
  (s <= skip_loop buf n s <= es)%nat /\ mem_of whitespace (byte (skip_loop buf n s)) = false.
Proof.
  revert s. induction n as [|n IH]; intros s Hs Hn; cbn [skip_loop].
  - split; [lia|]. rewrite byte_end by lia. done.
  - destruct (Nat.ltb_spec s es); cbn [andb].
    + destruct (mem_of whitespace (byte s)) eqn:E; [|split; [lia|done]].
      destruct (IH (S s)); [lia|lia|]. split; [lia|done].
    + split; [lia|]. rewrite byte_end by lia. done.
Qed.

Lemma skip_spec s :
  (s <= es)%nat -> (s <= skip s <= es)%nat /\ mem_of whitespace (byte (skip s)) = false.
Proof. intros H. by apply skip_loop_spec. Qed.

Lemma skip_stop s : mem_of whitespace (byte s) = false -> skip s = s.
Proof. intros H. unfold UserSh.skip. destruct (es - s)%nat; [done|]. cbn [skip_loop]. by rewrite H, andb_false_r. Qed.

Lemma skip_idem s : (s <= es)%nat -> skip (skip s) = skip s.
Proof. intros H. apply skip_stop. by apply skip_spec. Qed.

Lemma word_loop_spec n s :
  (s <= es)%nat -> (es - s <= n)%nat ->
  (s <= word_loop buf n s <= es)%nat /\
  (word_loop buf n s = es \/ mem_of whitespace (byte (word_loop buf n s)) = true \/
   mem_of symbols (byte (word_loop buf n s)) = true).
Proof.
  revert s. induction n as [|n IH]; intros s Hs Hn; cbn [word_loop]; [split; [lia|left; lia]|].
  destruct (Nat.ltb_spec s es); cbn [andb]; [|split; [lia|left; lia]].
  destruct (mem_of whitespace (byte s)) eqn:E1; cbn [andb negb]; [split; [lia|auto]|].
  destruct (mem_of symbols (byte s)) eqn:E2; cbn [andb negb]; [split; [lia|auto]|].
  destruct (IH (S s)); [lia|lia|]. split; [lia|done].
Qed.

(** A byte that starts no token of its own belongs to a word. *)
Lemma sym_cases c :
  mem_of symbols c = mem_of (bytes "|();&<") c || (c =? 62).
Proof.
  destruct (mem_of symbols c) eqn:E.
  - apply mem_of_spec in E. symmetry. apply orb_true_iff.
    unfold symbols in E. cbn in E. unfold mem_of. cbn. set_solver.
  - symmetry. apply orb_false_iff. unfold symbols, mem_of in *. cbn in *.
    repeat match goal with H : _ || _ = false |- _ => apply orb_false_iff in H as [? H] end.
    split; [|done]. repeat (apply orb_false_iff; split; [done|]). done.
Qed.

Inductive tok_kind (s : nat) : Z -> nat -> Prop :=
  | tk_sym : mem_of (bytes "|();&<") (byte s) = true -> tok_kind s (byte s) (S s)
  | tk_gt : byte s = 62 -> tok_kind s 62 (S s)
  | tk_app : byte s = 62 -> (S s < es)%nat -> tok_kind s 43 (S (S s))
  | tk_word e : byte s <> 0 -> mem_of symbols (byte s) = false -> e = word_loop buf (es - s) s ->
      (s < e)%nat -> tok_kind s 97 e.

Hypothesis no_nul : Forall (fun c => c <> 0) buf.

Lemma byte_in s : (s < es)%nat -> byte s <> 0.
Proof.
  intros H. rewrite List.Forall_forall in no_nul. apply no_nul. by apply nth_In.
Qed.

Lemma switch_end s : (s <= es)%nat -> byte s = 0 -> switch s = (0, s) /\ s = es.
Proof.
  intros H E. unfold UserSh.switch. rewrite E. cbn. split; [done|].
  destruct (decide (s < es)%nat) as [Hlt|]; [by apply byte_in in Hlt|lia].
Qed.

Lemma switch_tok s :
  (s < es)%nat -> mem_of whitespace (byte s) = false ->
  exists ret e, switch s = (ret, e) /\ tok_kind s ret e /\ ret <> 0 /\ (s < e <= es)%nat.
Proof.
  intros Hs Hw. pose proof (byte_in s Hs) as Hb. unfold UserSh.switch.
  rewrite (proj2 (Z.eqb_neq _ _) Hb). pose proof (sym_cases (byte s)) as Hsym.
  destruct (mem_of (bytes "|();&<") (byte s)) eqn:E1.
  { eexists _, _. split; [done|]. split; [by constructor|]. split; [done|lia]. }
  destruct (Z.eqb_spec (byte s) 62) as [E2|E2].
  { destruct (Z.eqb_spec (byte (S s)) 62) as [E3|E3]; eexists _, _; (split; [done|]).
    - assert (S s < es)%nat.
      { destruct (decide (S s < es)%nat); [done|]. rewrite byte_end in E3 by lia. done. }
      split; [by apply tk_app|]. split; [done|lia].
    - split; [by apply tk_gt|]. split; [done|lia]. }
  destruct (word_loop_spec (es - s) s) as [H1 H2]; [lia|lia|].
  assert (Hlt : (s < word_loop buf (es - s) s)%nat).
  { destruct (es - s)%nat eqn:En; [lia|]. cbn [word_loop]. rewrite (proj2 (Nat.ltb_lt _ _)) by lia.
    rewrite Hw, Hsym. cbn [andb orb negb]. destruct (word_loop_spec n (S s)) as [H3 _]; [lia|lia|]. lia. }
  eexists _, _. split; [done|]. split; [by apply tk_word|]. split; [done|lia].
Qed.

(** The tokens from an offset on. *)
Fixpoint lexn (n s : nat) : list tok :=
  match n with
  | O => []
  | S n' => let (ret, e) := switch (skip s) in
            if ret =? 0 then [] else (ret, skip s, e) :: lexn n' (skip e)
  end.
Definition lex (s : nat) : list tok := lexn (S (es - s)) s.

Lemma lexn_fuel n s : (s <= es)%nat -> (es - s < n)%nat -> lexn n s = lex s.
Proof.
  enough (forall n m s, (s <= es)%nat -> (es - s < n)%nat -> (es - s < m)%nat -> lexn n s = lexn m s)
    as H by (intros; apply H; lia).
  clear n s. intros n. induction n as [|n IH]; intros m s Hs Hn Hm; [lia|].
  destruct m as [|m]; [lia|]. cbn. destruct (skip_spec s Hs) as [H1 H2].
  destruct (decide (skip s < es)%nat) as [Hlt|].
  - destruct (switch_tok (skip s) Hlt H2) as (ret & e & -> & _ & Hr & He).
    rewrite (proj2 (Z.eqb_neq _ _) Hr). destruct (skip_spec e) as [H3 _]; [lia|].
    f_equal. apply IH; lia.
  - destruct (switch_end (skip s)) as [-> _]; [lia|by apply byte_end; lia|]. done.
Qed.

(** The parser is at a token list. *)
Definition At (p : nat) (ts : list tok) : Prop := (p <= es)%nat /\ lex p = ts.

Lemma lex_skip p : (p <= es)%nat -> lex (skip p) = lex p.
Proof.
  intros H. destruct (skip_spec p H) as [H1 _]. rewrite <- (lexn_fuel (S (es - p)) (skip p)) by lia.
  unfold lex. cbn. by rewrite skip_idem.
Qed.

Lemma At_skip p ts : At p ts -> At (skip p) ts.
Proof. intros [H <-]. split; [apply (skip_spec p H)|by apply lex_skip]. Qed.

Lemma lex_cons p :
  (p <= es)%nat ->
  (lex p = [] /\ byte (skip p) = 0 /\ skip p = es /\ gettoken buf p = Ret ((0, es, es), es)) \/
  (exists ret e, lex p = (ret, skip p, e) :: lex (skip e) /\ tok_kind (skip p) ret e /\
     ret <> 0 /\ (p <= skip p < e)%nat /\ (e <= es)%nat /\ byte (skip p) <> 0 /\
     gettoken buf p = Ret ((ret, skip p, e), skip e)).
Proof.
  intros Hp. destruct (skip_spec p Hp) as [H1 H2]. unfold lex, gettoken. cbn [lexn].
  destruct (decide (skip p < es)%nat) as [Hlt|Hge].
  - right. destruct (switch_tok (skip p) Hlt H2) as (ret & e & Es & Hk & Hr & He).
    exists ret, e. rewrite Es, (proj2 (Z.eqb_neq _ _) Hr).
    destruct (skip_spec e) as [H3 _]; [lia|].
    split; [by rewrite lexn_fuel by lia|]. split; [done|]. split; [done|]. split; [lia|].
    split; [lia|]. split; [by apply byte_in|done].
  - left. assert (skip p = es) as E by lia. rewrite E.
    destruct (switch_end es) as [-> _]; [lia|by apply byte_end|]. cbn.
    split; [done|]. split; [by apply byte_end|]. split; [done|].
    rewrite skip_stop; [done|]. by rewrite byte_end.
Qed.

(** The code of the first token, as [peek] sees it ([>>] starts with [>]); 0 at the end. *)
Definition code (t : tok) : Z := fst (fst t).
Definition first (ts : list tok) : Z :=
  match ts with [] => 0 | t :: _ => if code t =? 43 then 62 else code t end.

Lemma peek_at T p ts :
  (forall c, mem_of T c = true -> mem_of symbols c = true) ->
  At p ts -> peek buf T p = Ret (mem_of T (first ts), skip p) /\ At (skip p) ts.
Proof.
  intros HT Hat. split; [|by apply At_skip]. destruct Hat as [Hp <-].
  assert (H0 : mem_of T 0 = false).
  { destruct (mem_of T 0) eqn:E; [|done]. apply HT in E. discriminate. }
  unfold peek. destruct (lex_cons p Hp) as [(-> & Hb & _)|(ret & e & -> & Hk & _ & _ & _ & Hb & _)];
    cbn [first code fst].
  - rewrite Hb. cbn. by rewrite H0.
  - unfold c_true. rewrite (proj2 (Z.eqb_neq _ _) Hb). cbn [andb negb]. do 2 f_equal.
    destruct Hk as [Hm|Hm|Hm _|e Hm Hs _ _].
    + destruct (Z.eqb_spec (byte (skip p)) 43) as [E|]; [|done]. rewrite E in Hm. discriminate.
    + cbn. by rewrite Hm.
    + cbn. by rewrite Hm.
    + cbn. destruct (mem_of T (byte (skip p))) eqn:E; [apply HT in E; congruence|].
      destruct (mem_of T 97) eqn:E'; [|done]. apply HT in E'. discriminate.
Qed.

Lemma gettoken_at p t ts :
  At p (t :: ts) -> exists p', gettoken buf p = Ret (t, p') /\ At p' ts /\ code t <> 0.
Proof.
  intros [Hp E]. destruct (lex_cons p Hp) as [(E' & _)|(ret & e & E' & _ & Hr & H1 & H2 & _ & Hg)];
    rewrite E in E'; [discriminate|]. injection E' as -> ->.
  exists (skip e). split; [done|]. split; [|done]. split; [|done]. apply (skip_spec e). lia.
Qed.

Lemma gettoken_end p : At p [] -> gettoken buf p = Ret ((0, es, es), es) /\ At es [].
Proof.
  intros [Hp E]. destruct (lex_cons p Hp) as [(_ & _ & Es & Hg)|(ret & e & E' & _)]; [|by rewrite E in E'].
  split; [done|]. split; [done|]. rewrite <- Es, lex_skip by done. done.
Qed.

(** Every token takes a byte, so the fuel of the loops is enough. *)
Lemma lex_length p ts : At p ts -> (length ts <= es - p)%nat.
Proof.
  revert p. induction ts as [|t ts IH]; intros p Hat; [cbn; lia|].
  destruct Hat as [Hp E]. destruct (lex_cons p Hp) as [(E' & _)|(ret & e & E' & _ & _ & H1 & H2 & _)];
    rewrite E in E'; [discriminate|]. injection E' as _ Ets.
  destruct (skip_spec e) as [H3 _]; [lia|]. specialize (IH (skip e)). cbn.
  assert (At (skip e) ts) as Hts by (split; [lia|done]). specialize (IH Hts). lia.
Qed.

End tokens.

(** ** The grammar *)

Notation tok := (Z * nat * nat)%type.

Definition span_of (t : tok) : span := (snd (fst t), snd t).
Definition is_redir (t : tok) : Prop := code t = 60 \/ code t = 62 \/ code t = 43.
Definition is_word (t : tok) : Prop := code t = 97.

(** [redirs ts rs]: [ts] is a sequence of redirections [rs]. *)
Inductive g_redirs : list tok -> list redir -> Prop :=
  | gr_nil : g_redirs [] []
  | gr_cons t w ts r rs :
      redir_of (code t) (span_of w) = Some r -> is_word w -> g_redirs ts rs ->
      g_redirs (t :: w :: ts) (r :: rs).

(** Words, each followed by redirections. *)
Inductive g_args : list tok -> list span -> list redir -> Prop :=
  | ga_nil : g_args [] [] []
  | ga_cons w ts1 ts2 a rs1 rs2 :
      is_word w -> g_redirs ts1 rs1 -> g_args ts2 a rs2 ->
      g_args (w :: ts1 ++ ts2) (span_of w :: a) (rs1 ++ rs2).

(** [line] is a pipeline, ampersands, and perhaps a semicolon and a line; [pipe] is one or
    more commands between bars; [exec] is a line in parentheses with redirections, or at
    most nine words among redirections. *)
Inductive g_line : list tok -> cmd -> Prop :=
  | gl_one ts amps c :
      g_pipe ts c -> Forall (fun t => code t = 38) amps ->
      g_line (ts ++ amps) (Nat.iter (length amps) Back c)
  | gl_seq ts amps c t ts' c' :
      g_pipe ts c -> Forall (fun t => code t = 38) amps -> code t = 59 -> g_line ts' c' ->
      g_line (ts ++ amps ++ t :: ts') (List_ (Nat.iter (length amps) Back c) c')
with g_pipe : list tok -> cmd -> Prop :=
  | gp_one ts c : g_exec ts c -> g_pipe ts c
  | gp_pipe ts c t ts' c' :
      g_exec ts c -> code t = 124 -> g_pipe ts' c' -> g_pipe (ts ++ t :: ts') (Pipe c c')
with g_exec : list tok -> cmd -> Prop :=
  | ge_block l ts c r ts' rs :
      code l = 40 -> g_line ts c -> code r = 41 -> g_redirs ts' rs ->
      g_exec (l :: ts ++ r :: ts') (wrap_redirs c rs)
  | ge_cmd ts0 rs0 ts a rs :
      g_redirs ts0 rs0 -> g_args ts a rs -> (length a < MAXARGS)%nat ->
      g_exec (ts0 ++ ts) (wrap_redirs (Exec a) (rs0 ++ rs)).

Scheme g_line_ind' := Minimality for g_line Sort Prop
  with g_pipe_ind' := Minimality for g_pipe Sort Prop
  with g_exec_ind' := Minimality for g_exec Sort Prop.
Combined Scheme g_mutind from g_line_ind', g_pipe_ind', g_exec_ind'.

Section parser_proofs.
Context (buf : list Z) (no_nul : Forall (fun c => c <> 0) buf).
Notation At := (At buf).

(** The sets [peek] is called with hold symbols only. *)
Ltac syms := let c := fresh in intros c; rewrite !mem_of_spec; cbn; set_solver.

(** [peek] from [At p ts], with the answer for a known first token. *)
Lemma bind_peek {A} T (k : bool -> P A) p ts :
  (forall c, mem_of T c = true -> mem_of symbols c = true) -> At p ts ->
  exists p', (peek buf T ≫= k) p = k (mem_of T (first ts)) p' /\ At p' ts.
Proof.
  intros HT H. destruct (peek_at buf no_nul T p ts HT H) as [E H']. eexists. split; [|exact H'].
  unfold mbind, M_bind. by rewrite E.
Qed.

Lemma bind_get {A} (k : tok -> P A) p t ts :
  At p (t :: ts) -> exists p', (gettoken buf ≫= k) p = k t p' /\ At p' ts /\ code t <> 0.
Proof.
  intros H. destruct (gettoken_at buf no_nul p t ts H) as (p' & E & H'). exists p'.
  split; [|exact H']. unfold mbind, M_bind. by rewrite E.
Qed.

Lemma bind_get_end {A} (k : tok -> P A) p :
  At p [] -> (gettoken buf ≫= k) p = k (0, es buf, es buf) (es buf) /\ At (es buf) [].
Proof.
  intros H. destruct (gettoken_end buf no_nul p H) as [E H']. split; [|exact H'].
  unfold mbind, M_bind. by rewrite E.
Qed.

(** Run the next [peek] or [gettoken] of the goal from [H : At p ts]. *)
Ltac run_peek H :=
  match goal with
  | |- context [mbind ?k (peek buf ?T) ?p] =>
      let E := fresh "E" in
      destruct (bind_peek T k p _ ltac:(syms) H) as (? & E & ?); rewrite E; clear E H
  end.
Ltac run_get H :=
  match goal with
  | |- context [mbind ?k (gettoken buf) ?p] =>
      let E := fresh "E" in
      destruct (bind_get k p _ _ H) as (? & E & ? & _); rewrite E; clear E H
  end.

Lemma bind_no_panic {A} msg (k : unit -> P A) p : (panic_if false msg ≫= k) p = k tt p.
Proof. done. Qed.

Lemma redir_first t w r ts :
  redir_of (code t) w = Some r -> mem_of (bytes "<>") (first (t :: ts)) = true.
Proof.
  unfold redir_of. cbn [first]. intros H.
  destruct (Z.eqb_spec (code t) 60) as [->|_]; [done|].
  destruct (Z.eqb_spec (code t) 62) as [->|_]; [done|].
  destruct (Z.eqb_spec (code t) 43) as [_|_]; [done|discriminate].
Qed.

(** *** Every word of the grammar is parsed *)

Lemma redirs_complete ts rs :
  g_redirs ts rs -> forall n p rest, At p (ts ++ rest) -> mem_of (bytes "<>") (first rest) = false ->
  (length ts < n)%nat -> exists p', redirs_loop buf n p = Ret (rs, p') /\ At p' rest.
Proof.
  induction 1 as [|t w ts r rs Hr Hw _ IH]; intros n p rest Hat Hf Hn;
    (destruct n as [|n]; [cbn in Hn; lia|]); cbn [redirs_loop app] in *.
  - run_peek Hat. rewrite Hf. eauto.
  - run_peek Hat. rewrite (redir_first t _ r _ Hr). run_get H. run_get H0.
    unfold is_word, code in Hw. rewrite Hw. cbn [Z.eqb Pos.eqb negb panic_if].
    destruct (IH n x1 rest H Hf) as (p4 & E & H4); [cbn in Hn; lia|].
    exists p4. split; [|done]. unfold panic_if, mbind, M_bind. cbn. rewrite E. unfold code, span_of in Hr.
    by rewrite Hr.
Qed.

Lemma parseredirs_complete ts rs p rest :
  g_redirs ts rs -> At p (ts ++ rest) -> mem_of (bytes "<>") (first rest) = false ->
  exists p', parseredirs buf p = Ret (rs, p') /\ At p' rest.
Proof.
  intros H Hat Hf. eapply redirs_complete; eauto. apply (lex_length buf no_nul) in Hat.
  rewrite length_app in Hat. lia.
Qed.

(** What may follow: the end, or a token of the set. *)
Definition follow (T : list Z) (rest : list tok) : Prop :=
  rest = [] \/ exists t r, rest = t :: r /\ code t ∈ T.

Definition after_exec := follow (bytes "|)&;").
Definition after_pipe := follow (bytes ")&;").
Definition after_line := follow (bytes ")").

Lemma follow_no T U rest :
  follow T rest -> (forall c, c ∈ T -> c <> 43 /\ mem_of U c = false) -> mem_of U 0 = false ->
  mem_of U (first rest) = false.
Proof.
  intros [->|(t & r & -> & Ht)] HU H0; [done|]. cbn [first]. destruct (HU _ Ht) as [H1 H2].
  by rewrite (proj2 (Z.eqb_neq _ _) H1).
Qed.

Lemma follow_yes T rest :
  follow T rest -> (forall c, c ∈ T -> c <> 43) -> rest <> [] -> mem_of T (first rest) = true.
Proof.
  intros [->|(t & r & -> & Ht)] HU Hne; [done|]. cbn [first].
  rewrite (proj2 (Z.eqb_neq _ _) (HU _ Ht)). by apply mem_of_spec.
Qed.

(** Decide a statement about every element of a literal list. *)
Ltac each :=
  let c := fresh "c" in let H := fresh "H" in
  intros c H; cbn in H; repeat (apply elem_of_cons in H as [->|H]; [try (split; done); done|]);
  by apply not_elem_of_nil in H.

Lemma exec_complete ts a rs :
  g_args ts a rs -> forall n argc p rest, At p (ts ++ rest) -> after_exec rest ->
  (length ts < n)%nat -> (argc + length a < MAXARGS)%nat ->
  exists p', exec_loop buf n argc p = Ret ((a, rs), p') /\ At p' rest.
Proof.
  induction 1 as [|w ts1 ts2 a rs1 rs2 Hw Hr Ha IH]; intros n argc p rest Hat Hf Hn Hmax;
    (destruct n as [|n]; [cbn in Hn; lia|]); cbn [exec_loop app] in *.
  - run_peek Hat. destruct rest as [|t rest].
    + change (mem_of (bytes "|)&;") (first [])) with false. cbv iota. exists (es buf). destruct (gettoken_end buf no_nul _ H) as [E H2].
      split; [|done]. unfold mbind, M_bind. by rewrite E.
    + rewrite (follow_yes _ _ Hf); [eauto|each|done].
  - rewrite <- (assoc_L (++)) in Hat. run_peek Hat.
    unfold is_word, code in Hw. cbn [first]. unfold code. rewrite Hw.
    change (mem_of (bytes "|)&;") (if 97 =? 43 then 62 else 97)) with false. cbv iota. run_get H. rewrite Hw. cbn [Z.eqb Pos.eqb negb]. cbn [length] in Hmax.
    assert (E10 : (MAXARGS <=? S argc)%nat = false) by (apply Nat.leb_gt; lia). rewrite E10.
    assert (Hns : mem_of (bytes "<>") (first (ts2 ++ rest)) = false).
    { destruct Ha as [|w' ? ? ? ? ? Hw' _ _]; [apply (follow_no _ _ _ Hf); [each|done]|].
      cbn [app first]. unfold is_word in Hw'. by rewrite Hw'. }
    destruct (parseredirs_complete ts1 rs1 _ (ts2 ++ rest) Hr H0 Hns) as (p3 & E3 & H3).
    cbn [length] in Hn. rewrite length_app in Hn.
    destruct (IH n (S argc) p3 rest H3 Hf) as (p4 & E4 & H4); [lia|lia|].
    exists p4. split; [|done]. cbv iota. rewrite !bind_no_panic.
    by rewrite (M_bind_Ret _ _ _ _ _ E3), (M_bind_Ret _ _ _ _ _ E4).
Qed.

Lemma back_complete amps :
  Forall (fun t : tok => code t = 38) amps -> forall n c p rest, At p (amps ++ rest) ->
  mem_of (bytes "&") (first rest) = false -> (length amps < n)%nat ->
  exists p', back_loop buf n c p = Ret (Nat.iter (length amps) Back c, p') /\ At p' rest.
Proof.
  induction 1 as [|t amps Ht _ IH]; intros n c p rest Hat Hf Hn;
    (destruct n as [|n]; [cbn in Hn; lia|]); cbn [back_loop app] in *; run_peek Hat.
  - rewrite Hf. eauto.
  - cbn [first]. rewrite Ht. change (mem_of (bytes "&") (if 38 =? 43 then 62 else 38)) with true.
    cbv iota. run_get H. destruct (IH n (Back c) _ rest H0 Hf) as (p' & E & H'); [cbn in Hn; lia|].
    exists p'. split; [|done]. rewrite E. cbn [length]. by rewrite Nat.iter_succ_r.
Qed.

(** [parseexec], [parsepipe], [parseline] accept their phrase in front of anything that may
    follow it. *)
Definition takes (parse : nat -> P cmd) (k : nat) (after : list tok -> Prop)
    (ts : list tok) (c : cmd) : Prop :=
  forall f p rest, At p (ts ++ rest) -> after rest -> (4 * length ts + k <= f)%nat ->
  exists p', parse f p = Ret (c, p') /\ At p' rest.

Lemma exec_block_complete l ts c r ts' rs :
  code l = 40 -> takes (parseline buf) 4 after_line ts c -> code r = 41 -> g_redirs ts' rs ->
  takes (parseexec buf) 2 after_exec (l :: ts ++ r :: ts') (wrap_redirs c rs).
Proof.
  intros Hl IH Hr Hrs f p rest Hat Hf Hn. cbn [length] in Hn. rewrite length_app in Hn. cbn in Hn.
  destruct f as [|[|f]]; [lia|lia|]. cbn [parseexec parseblock app] in *.
  rewrite <- (assoc_L (++)) in Hat. run_peek Hat. cbn [first]. rewrite Hl.
  change (mem_of (bytes "(") (if 40 =? 43 then 62 else 40)) with true. cbv iota.
  run_peek H. cbn [first]. rewrite Hl.
  change (negb (mem_of (bytes "(") (if 40 =? 43 then 62 else 40))) with false. rewrite bind_no_panic.
  run_get H0. destruct (IH f _ _ H) as (p1 & E1 & H1); [|lia|].
  { right. eexists _, _. split; [done|]. rewrite Hr. cbn. set_solver. }
  rewrite (M_bind_Ret _ _ _ _ _ E1). cbn [app] in H1. run_peek H1. cbn [first]. rewrite Hr.
  change (negb (mem_of (bytes ")") (if 41 =? 43 then 62 else 41))) with false. rewrite bind_no_panic.
  run_get H0. destruct (parseredirs_complete ts' rs _ rest Hrs H1) as (p2 & E2 & H2).
  { apply (follow_no _ _ _ Hf); [each|done]. }
  exists p2. split; [|done]. by rewrite (M_bind_Ret _ _ _ _ _ E2).
Qed.

Lemma exec_cmd_complete ts0 rs0 ts a rs :
  g_redirs ts0 rs0 -> g_args ts a rs -> (length a < MAXARGS)%nat ->
  takes (parseexec buf) 2 after_exec (ts0 ++ ts) (wrap_redirs (Exec a) (rs0 ++ rs)).
Proof.
  intros H0 Ha Hmax f p rest Hat Hf Hn. destruct f as [|f]; [lia|]. cbn [parseexec].
  rewrite <- (assoc_L (++)) in Hat. run_peek Hat.
  assert (Hargs : forall U, mem_of U 97 = false -> mem_of U 0 = false ->
            (forall c, c ∈ bytes "|)&;" -> c <> 43 /\ mem_of U c = false) ->
            mem_of U (first (ts ++ rest)) = false).
  { intros U U1 U2 U3. destruct Ha as [|w ? ? ? ? ? Hw _ _]; [by apply (follow_no _ _ _ Hf)|].
    cbn [app first]. unfold is_word in Hw. by rewrite Hw. }
  assert (Hno : mem_of (bytes "(") (first (ts0 ++ ts ++ rest)) = false).
  { destruct H0 as [|t w ? r ? Hr _ _]; [apply Hargs; [done|done|each]|].
    apply (redir_first t _ r (w :: ts0 ++ ts ++ rest)) in Hr. apply mem_of_spec in Hr. cbn in Hr.
    apply elem_of_cons in Hr as [Hr|Hr]; [by cbn; rewrite Hr|].
    apply list_elem_of_singleton in Hr. cbn. by rewrite Hr. }
  rewrite Hno. destruct (parseredirs_complete ts0 rs0 _ (ts ++ rest) H0 H) as (p1 & E1 & H1).
  { apply Hargs; [done|done|each]. }
  rewrite (M_bind_Ret _ _ _ _ _ E1). pose proof (lex_length buf no_nul _ _ H1) as Hlen.
  rewrite length_app in Hlen.
  destruct (exec_complete ts a rs Ha (S (es buf)) 0 p1 rest H1 Hf) as (p2 & E2 & H2); [lia|done|].
  exists p2. split; [|done]. by rewrite (M_bind_Ret _ _ _ _ _ E2).
Qed.

Lemma follow_weaken T U rest : T ⊆ U -> follow T rest -> follow U rest.
Proof. intros H [->|(t & r & -> & Ht)]; [by left|right; eauto]. Qed.

Lemma pipe_one_complete ts c :
  takes (parseexec buf) 2 after_exec ts c -> takes (parsepipe buf) 3 after_pipe ts c.
Proof.
  intros IH f p rest Hat Hf Hn. destruct f as [|f]; [lia|]. cbn [parsepipe].
  destruct (IH f p rest Hat) as (p1 & E1 & H1); [|lia|].
  { eapply follow_weaken; [|exact Hf]. cbn. set_solver. }
  rewrite (M_bind_Ret _ _ _ _ _ E1). run_peek H1. rewrite (follow_no _ _ _ Hf); [eauto|each|done].
Qed.

Lemma pipe_more_complete ts c t ts' c' :
  takes (parseexec buf) 2 after_exec ts c -> code t = 124 ->
  takes (parsepipe buf) 3 after_pipe ts' c' ->
  takes (parsepipe buf) 3 after_pipe (ts ++ t :: ts') (Pipe c c').
Proof.
  intros IH1 Ht IH2 f p rest Hat Hf Hn. destruct f as [|f]; [lia|]. cbn [parsepipe].
  rewrite length_app in Hn. cbn [length] in Hn. rewrite <- (assoc_L (++)) in Hat.
  destruct (IH1 f p _ Hat) as (p1 & E1 & H1); [|lia|].
  { right. eexists _, _. split; [done|]. rewrite Ht. cbn. set_solver. }
  rewrite (M_bind_Ret _ _ _ _ _ E1). cbn [app] in H1. run_peek H1. cbn [first]. rewrite Ht.
  change (mem_of (bytes "|") (if 124 =? 43 then 62 else 124)) with true. cbv iota.
  run_get H. destruct (IH2 f _ rest H0 Hf) as (p2 & E2 & H2); [lia|].
  exists p2. split; [|done]. by rewrite (M_bind_Ret _ _ _ _ _ E2).
Qed.

(** The part of [parseline] before the semicolon. *)
Lemma line_head_complete ts amps c f p rest :
  takes (parsepipe buf) 3 after_pipe ts c -> Forall (fun t : tok => code t = 38) amps ->
  At p (ts ++ amps ++ rest) -> follow (bytes ");") rest -> (4 * length ts + 3 <= f)%nat ->
  exists p1 p2, parsepipe buf f p = Ret (c, p1) /\
    back_loop buf (S (es buf)) c p1 = Ret (Nat.iter (length amps) Back c, p2) /\ At p2 rest.
Proof.
  intros IH Ha Hat Hf Hn. destruct (IH f p _ Hat) as (p1 & E1 & H1); [|lia|].
  { destruct Ha as [|t amps Ht]; [|right; eexists _, _; split; [done|]; rewrite Ht; cbn; set_solver].
    eapply follow_weaken; [|exact Hf]. cbn. set_solver. }
  pose proof (lex_length buf no_nul _ _ H1) as Hlen. rewrite length_app in Hlen.
  destruct (back_complete amps Ha (S (es buf)) c p1 rest H1) as (p2 & E2 & H2); [|lia|by exists p1, p2].
  apply (follow_no _ _ _ Hf); [each|done].
Qed.

Lemma line_one_complete ts amps c :
  takes (parsepipe buf) 3 after_pipe ts c -> Forall (fun t : tok => code t = 38) amps ->
  takes (parseline buf) 4 after_line (ts ++ amps) (Nat.iter (length amps) Back c).
Proof.
  intros IH Ha f p rest Hat Hf Hn. destruct f as [|f]; [lia|]. cbn [parseline].
  rewrite length_app in Hn. rewrite <- (assoc_L (++)) in Hat.
  destruct (line_head_complete ts amps c f p rest IH Ha Hat) as (p1 & p2 & E1 & E2 & H2); [|lia|].
  { eapply follow_weaken; [|exact Hf]. cbn. set_solver. }
  rewrite (M_bind_Ret _ _ _ _ _ E1), (M_bind_Ret _ _ _ _ _ E2). run_peek H2.
  rewrite (follow_no _ _ _ Hf); [eauto|each|done].
Qed.

Lemma line_seq_complete ts amps c t ts' c' :
  takes (parsepipe buf) 3 after_pipe ts c -> Forall (fun t : tok => code t = 38) amps ->
  code t = 59 -> takes (parseline buf) 4 after_line ts' c' ->
  takes (parseline buf) 4 after_line (ts ++ amps ++ t :: ts')
        (List_ (Nat.iter (length amps) Back c) c').
Proof.
  intros IH1 Ha Ht IH2 f p rest Hat Hf Hn. destruct f as [|f]; [lia|]. cbn [parseline].
  rewrite !length_app in Hn. cbn [length] in Hn. rewrite <- !(assoc_L (++)) in Hat.
  destruct (line_head_complete ts amps c f p (t :: ts' ++ rest) IH1 Ha Hat) as
    (p1 & p2 & E1 & E2 & H2); [|lia|].
  { right. eexists _, _. split; [done|]. rewrite Ht. cbn. set_solver. }
  rewrite (M_bind_Ret _ _ _ _ _ E1), (M_bind_Ret _ _ _ _ _ E2). run_peek H2. cbn [first]. rewrite Ht.
  change (mem_of (bytes ";") (if 59 =? 43 then 62 else 59)) with true. cbv iota.
  run_get H. destruct (IH2 f _ rest H0 Hf) as (p3 & E3 & H3); [lia|].
  exists p3. split; [|done]. by rewrite (M_bind_Ret _ _ _ _ _ E3).
Qed.

Lemma grammar_complete :
  (forall ts c, g_line ts c -> takes (parseline buf) 4 after_line ts c) /\
  (forall ts c, g_pipe ts c -> takes (parsepipe buf) 3 after_pipe ts c) /\
  (forall ts c, g_exec ts c -> takes (parseexec buf) 2 after_exec ts c).
Proof.
  apply g_mutind; intros; auto using line_one_complete, line_seq_complete, pipe_one_complete,
    pipe_more_complete, exec_block_complete, exec_cmd_complete.
Qed.

(** *** Every result is a phrase of the grammar *)

(** The run ends, in a panic or in a state [Q]; it never runs out of fuel. *)
Definition parses {A} (m : P A) (p : nat) (Q : A -> list tok -> Prop) : Prop :=
  match m p with
  | Ret (a, p') => exists ts, At p' ts /\ Q a ts
  | Panic _ => True
  | Undef _ => False
  end.

Lemma parses_bind {A B} (m : P A) (k : A -> P B) p Q :
  parses m p (fun a ts => forall p', At p' ts -> parses (k a) p' Q) -> parses (m ≫= k) p Q.
Proof.
  unfold parses, mbind, M_bind. destruct (m p) as [[a p']|e|e]; auto. intros (ts & Hat & H). by apply H.
Qed.

Lemma parses_ret {A} (a : A) p ts (Q : A -> list tok -> Prop) :
  At p ts -> Q a ts -> parses (mret a) p Q.
Proof. intros H1 H2. by exists ts. Qed.

Lemma parses_peek T p ts (Q : bool -> list tok -> Prop) :
  (forall c, mem_of T c = true -> mem_of symbols c = true) -> At p ts ->
  Q (mem_of T (first ts)) ts -> parses (peek buf T) p Q.
Proof.
  intros HT Hat HQ. destruct (peek_at buf no_nul T p ts HT Hat) as [E H]. unfold parses. rewrite E. eauto.
Qed.

Lemma parses_get p ts (Q : tok -> list tok -> Prop) :
  At p ts ->
  match ts with [] => Q (0, es buf, es buf) [] | t :: ts' => code t <> 0 -> Q t ts' end ->
  parses (gettoken buf) p Q.
Proof.
  intros Hat HQ. unfold parses. destruct ts as [|t ts].
  - destruct (gettoken_end buf no_nul p Hat) as [-> H]. eauto.
  - destruct (gettoken_at buf no_nul p t ts Hat) as (p' & -> & H & Hc). eauto.
Qed.

Lemma parses_panic_if b msg p ts (Q : unit -> list tok -> Prop) :
  At p ts -> (b = false -> Q tt ts) -> parses (panic_if b msg) p Q.
Proof. intros Hat HQ. unfold parses, panic_if. destruct b; cbn; [done|]. eauto. Qed.

Lemma parses_mono {A} (m : P A) p (Q R : A -> list tok -> Prop) :
  parses m p Q -> (forall a ts, Q a ts -> R a ts) -> parses m p R.
Proof. unfold parses. destruct (m p) as [[a p']|e|e]; auto. intros (ts & H1 & H2) H. eauto. Qed.

(** Step through the code of a [parses] goal. *)
Ltac pb := apply parses_bind.
Ltac ppeek H := pb; eapply parses_peek; [syms|exact H|]; clear H; intros ? H.

Lemma first_in T ts :
  mem_of T (first ts) = true -> mem_of T 0 = false ->
  exists t ts', ts = t :: ts' /\ mem_of T (if code t =? 43 then 62 else code t) = true.
Proof. destruct ts as [|t ts]; cbn [first]; [congruence|]. eauto. Qed.

(** A first token from a set without [>] is that symbol. *)
Lemma first_sym z ts :
  mem_of [z] (first ts) = true -> z <> 0 -> z <> 62 -> exists t ts', ts = t :: ts' /\ code t = z.
Proof.
  intros H Hz H62. apply first_in in H as (t & ts' & -> & H).
  - exists t, ts'. split; [done|]. apply mem_of_spec, list_elem_of_singleton in H.
    destruct (code t =? 43); [done|done].
  - destruct (mem_of [z] 0) eqn:E; [|done]. apply mem_of_spec, list_elem_of_singleton in E. congruence.
Qed.

Lemma redirs_sound n p ts :
  At p ts -> (length ts < n)%nat ->
  parses (redirs_loop buf n) p (fun rs ts2 => exists ts1, ts = ts1 ++ ts2 /\ g_redirs ts1 rs).
Proof.
  revert p ts. induction n as [|n IH]; intros p ts Hat Hn; [lia|]. cbn [redirs_loop].
  ppeek Hat. destruct (mem_of (bytes "<>") (first ts)) eqn:E.
  2: { eapply parses_ret; [done|]. exists []. split; [done|constructor]. }
  apply first_in in E as (t & ts' & -> & E); [|done].
  pb. eapply parses_get; [exact Hat|]. intros _ p1 H1.
  pb. eapply parses_get; [exact H1|]. destruct ts' as [|w ts'].
  { intros p2 H2. pb. by eapply parses_panic_if. }
  intros _ p2 H2. pb. eapply parses_panic_if; [exact H2|]. intros Hw p3 H3.
  pb. eapply parses_mono; [apply (IH p3 ts' H3); cbn in Hn; lia|].
  intros rs ts2 (ts1 & -> & Hr) p4 H4. eapply parses_ret; [exact H4|].
  apply negb_false_iff, Z.eqb_eq in Hw. fold (code t) (span_of w).
  assert (exists r, redir_of (code t) (span_of w) = Some r) as [r Er].
  { apply mem_of_spec in E. cbn in E. unfold redir_of.
    destruct (Z.eqb_spec (code t) 43) as [->|]; [eauto|].
    apply elem_of_cons in E as [->|E]; [eauto|]. apply list_elem_of_singleton in E as ->. eauto. }
  rewrite Er. exists (t :: w :: ts1). split; [done|]. by constructor.
Qed.

Lemma parseredirs_sound p ts :
  At p ts -> parses (parseredirs buf) p (fun rs ts2 => exists ts1, ts = ts1 ++ ts2 /\ g_redirs ts1 rs).
Proof.
  intros Hat. pose proof (lex_length buf no_nul _ _ Hat). apply redirs_sound; [done|]. lia.
Qed.

Lemma exec_sound n argc p ts :
  At p ts -> (length ts < n)%nat -> (argc < MAXARGS)%nat ->
  parses (exec_loop buf n argc) p (fun r ts2 =>
    exists ts1, ts = ts1 ++ ts2 /\ g_args ts1 (fst r) (snd r) /\ (argc + length (fst r) < MAXARGS)%nat).
Proof.
  revert argc p ts. induction n as [|n IH]; intros argc p ts Hat Hn Hmax; [lia|]. cbn [exec_loop].
  assert (Hnil : forall p ts, At p ts -> parses (mret ([], [])) p (fun r ts2 =>
    exists ts1, ts = ts1 ++ ts2 /\ g_args ts1 (fst r) (snd r) /\ (argc + length (fst r) < MAXARGS)%nat)).
  { intros q us Hq. eapply parses_ret; [exact Hq|]. exists []. split; [done|].
    split; [constructor|cbn; lia]. }
  ppeek Hat. destruct (mem_of (bytes "|)&;") (first ts)) eqn:E; [by apply Hnil|].
  pb. eapply parses_get; [exact Hat|]. destruct ts as [|t ts].
  { intros p1 H1. cbn [fst Z.eqb]. by apply Hnil. }
  intros Hc p1 H1. unfold code in Hc. rewrite (proj2 (Z.eqb_neq _ _) Hc).
  pb. eapply parses_panic_if; [exact H1|]. intros Hw p2 H2.
  pb. eapply parses_panic_if; [exact H2|]. intros Hm p3 H3.
  pb. eapply parses_mono; [apply (parseredirs_sound p3 ts H3)|].
  intros rs ts2 (ts1 & -> & Hr) p4 H4. pb.
  apply Nat.leb_gt in Hm. cbn in Hn. rewrite length_app in Hn.
  eapply parses_mono; [apply (IH (S argc) p4 ts2 H4); lia|].
  intros [a rs'] ts3 (ts1' & -> & Ha & Hl) p5 H5. eapply parses_ret; [exact H5|].
  apply negb_false_iff, Z.eqb_eq in Hw. exists (t :: ts1 ++ ts1'). cbn [fst snd] in *.
  split; [cbn; by rewrite <- (assoc_L (++))|]. split; [by constructor|cbn; lia].
Qed.

Lemma back_sound n c p ts :
  At p ts -> (length ts < n)%nat ->
  parses (back_loop buf n c) p (fun c' ts2 => exists amps, ts = amps ++ ts2 /\
    Forall (fun t => code t = 38) amps /\ c' = Nat.iter (length amps) Back c).
Proof.
  revert c p ts. induction n as [|n IH]; intros c p ts Hat Hn; [lia|]. cbn [back_loop].
  ppeek Hat. destruct (mem_of (bytes "&") (first ts)) eqn:E.
  2: { eapply parses_ret; [done|]. exists []. split; [done|]. split; [constructor|done]. }
  apply first_sym in E as (t & ts' & -> & Ht); [|done|done].
  pb. eapply parses_get; [exact Hat|]. intros _ p1 H1. cbn in Hn.
  eapply parses_mono; [apply (IH (Back c) p1 ts' H1); lia|].
  intros c' ts2 (amps & -> & Ha & ->). exists (t :: amps). split; [done|].
  split; [by constructor|]. cbn [length]. by rewrite Nat.iter_succ_r.
Qed.

(** [parse f] reads a phrase of [g] wherever it starts, given fuel for the tokens left. *)
Definition reads (parse : nat -> P cmd) (k : nat) (g : list tok -> cmd -> Prop) (f : nat) : Prop :=
  forall p ts, At p ts -> (4 * length ts + k <= f)%nat ->
  parses (parse f) p (fun c ts2 => exists ts1, ts = ts1 ++ ts2 /\ g ts1 c).

Lemma line_sound f :
  reads (parsepipe buf) 3 g_pipe f -> reads (parseline buf) 4 g_line f ->
  reads (parseline buf) 4 g_line (S f).
Proof.
  intros IHp IHl p ts Hat Hn. cbn [parseline].
  pb. eapply parses_mono; [apply (IHp p ts Hat); lia|].
  intros c ts2 (ts1 & -> & Hp) p1 H1. rewrite length_app in Hn.
  pb. pose proof (lex_length buf no_nul _ _ H1).
  eapply parses_mono; [apply (back_sound (S (es buf)) c p1 ts2 H1); lia|].
  intros c' ts3 (amps & -> & Ha & ->) p2 H2. rewrite length_app in Hn.
  ppeek H2. destruct (mem_of (bytes ";") (first ts3)) eqn:E.
  - apply first_sym in E as (t & ts' & -> & Ht); [|done|done].
    pb. eapply parses_get; [exact H2|]. intros _ p3 H3. cbn in Hn.
    pb. eapply parses_mono; [apply (IHl p3 ts' H3); lia|].
    intros c' ts4 (ts5 & -> & Hl) p4 H4. eapply parses_ret; [exact H4|].
    exists (ts1 ++ amps ++ t :: ts5). split; [by rewrite <- !(assoc_L (++))|]. by constructor.
  - eapply parses_ret; [exact H2|]. exists (ts1 ++ amps).
    split; [by rewrite <- (assoc_L (++))|]. by constructor.
Qed.

Lemma pipe_sound f :
  reads (parseexec buf) 2 g_exec f -> reads (parsepipe buf) 3 g_pipe f ->
  reads (parsepipe buf) 3 g_pipe (S f).
Proof.
  intros IHe IHp p ts Hat Hn. cbn [parsepipe].
  pb. eapply parses_mono; [apply (IHe p ts Hat); lia|].
  intros c ts2 (ts1 & -> & Hp) p1 H1. rewrite length_app in Hn.
  ppeek H1. destruct (mem_of (bytes "|") (first ts2)) eqn:E.
  - apply first_sym in E as (t & ts' & -> & Ht); [|done|done].
    pb. eapply parses_get; [exact H1|]. intros _ p3 H3. cbn in Hn.
    pb. eapply parses_mono; [apply (IHp p3 ts' H3); lia|].
    intros c' ts4 (ts5 & -> & Hl) p4 H4. eapply parses_ret; [exact H4|].
    exists (ts1 ++ t :: ts5). split; [by rewrite <- !(assoc_L (++))|]. by constructor.
  - eapply parses_ret; [exact H1|]. exists ts1. split; [done|]. by constructor.
Qed.

Lemma block_sound f p t ts :
  reads (parseline buf) 4 g_line f -> At p (t :: ts) -> code t = 40 ->
  (4 * length ts + 5 <= S f)%nat ->
  parses (parseblock buf (S f)) p (fun c ts2 => exists ts1, t :: ts = ts1 ++ ts2 /\ g_exec ts1 c).
Proof.
  intros IHl Hat Ht Hn. cbn [parseblock]. ppeek Hat.
  pb. eapply parses_panic_if; [exact Hat|]. intros _ p1 H1.
  pb. eapply parses_get; [exact H1|]. intros _ p2 H2.
  pb. eapply parses_mono; [apply (IHl p2 ts H2); lia|].
  intros c ts2 (ts1 & -> & Hl) p3 H3. ppeek H3.
  pb. eapply parses_panic_if; [exact H3|]. intros E p4 H4.
  apply negb_false_iff, first_sym in E as (r & ts' & -> & Hr); [|done|done].
  pb. eapply parses_get; [exact H4|]. intros _ p5 H5.
  pb. eapply parses_mono; [apply (parseredirs_sound p5 ts' H5)|].
  intros rs ts4 (ts3 & -> & Hrs) p6 H6. eapply parses_ret; [exact H6|].
  exists (t :: ts1 ++ r :: ts3). split; [cbn; by rewrite <- (assoc_L (++))|]. by constructor.
Qed.

Lemma exec_top_sound f :
  (forall f', f = S f' -> reads (parseline buf) 4 g_line f') -> reads (parseexec buf) 2 g_exec (S f).
Proof.
  intros IHl p ts Hat Hn. cbn [parseexec]. ppeek Hat.
  destruct (mem_of (bytes "(") (first ts)) eqn:E.
  - apply first_sym in E as (t & ts' & -> & Ht); [|done|done]. cbn in Hn.
    destruct f as [|f]; [lia|]. apply block_sound; auto. lia.
  - pb. eapply parses_mono; [apply (parseredirs_sound _ ts Hat)|].
    intros rs0 ts2 (ts0 & -> & H0) p1 H1. pb.
    pose proof (lex_length buf no_nul _ _ H1).
    eapply parses_mono; [apply (exec_sound (S (es buf)) 0 p1 ts2 H1); [lia|unfold MAXARGS; lia]|].
    intros [a rs] ts3 (ts1 & -> & Ha & Hl) p2 H2. eapply parses_ret; [exact H2|].
    exists (ts0 ++ ts1). split; [by rewrite <- (assoc_L (++))|]. cbn [fst snd] in *. by constructor.
Qed.

Lemma grammar_sound f :
  reads (parseline buf) 4 g_line f /\ reads (parsepipe buf) 3 g_pipe f /\
  reads (parseexec buf) 2 g_exec f /\
  (forall f', f = S f' -> reads (parseline buf) 4 g_line f').
Proof.
  induction f as [|f (IHl & IHp & IHe & IHs)].
  - repeat split; try (intros p ts _ H; lia). done.
  - repeat split; auto using line_sound, pipe_sound, exec_top_sound.
    by intros f' [= <-].
Qed.

Lemma lex_end p ts : At p ts -> (skip buf p = es buf <-> ts = []).
Proof.
  intros [Hp <-]. destruct (lex_cons buf no_nul p Hp) as [(-> & _ & E & _)|(ret & e & -> & _ & _ & H & H' & _)].
  - done.
  - split; [lia|done].
Qed.

(** [parsecmd] in terms of [parseline]. *)
Lemma parsecmd_run :
  match parseline buf (parse_fuel buf) 0%nat with
  | Ret (c, p) => parsecmd buf 0%nat =
      if (skip buf p =? es buf)%nat then Ret (c, es buf) else Panic "syntax"
  | Panic e => parsecmd buf 0%nat = Panic e
  | Undef e => parsecmd buf 0%nat = Undef e
  end.
Proof.
  unfold parsecmd, mbind, M_bind. destruct (parseline buf (parse_fuel buf) 0%nat) as [[c p]|e|e]; [|done|done].
  cbn. destruct (Nat.eqb_spec (skip buf p) (es buf)) as [->|]; done.
Qed.

Lemma parsecmd_total : exists r, parsecmd buf 0%nat = r /\
  match r with
  | Ret (c, p) => p = es buf /\ g_line (lex buf 0) c
  | Panic _ => True
  | Undef _ => False
  end.
Proof.
  eexists. split; [reflexivity|].
  assert (Hat : At 0%nat (lex buf 0)) by (split; [lia|done]).
  pose proof (lex_length buf no_nul _ _ Hat) as Hlen.
  pose proof (proj1 (grammar_sound (parse_fuel buf)) 0%nat _ Hat) as H.
  unfold parse_fuel in H at 1. specialize (H ltac:(lia)). unfold parses in H.
  pose proof parsecmd_run as R. destruct (parseline buf (parse_fuel buf) 0%nat) as [[c p]|e|e]; rewrite R;
    [|done|done].
  destruct H as (ts & Hp & ts1 & E & Hl).
  destruct (Nat.eqb_spec (skip buf p) (es buf)) as [Es|]; [|done].
  apply (lex_end p ts Hp) in Es as ->. rewrite app_nil_r in E. by subst.
Qed.

Lemma parsecmd_complete c : g_line (lex buf 0) c -> parsecmd buf 0%nat = Ret (c, es buf).
Proof.
  intros Hl. assert (Hat : At 0%nat (lex buf 0 ++ [])) by (rewrite app_nil_r; split; [lia|done]).
  pose proof (lex_length buf no_nul _ _ Hat) as Hlen. rewrite app_nil_r in Hlen.
  destruct (proj1 grammar_complete _ _ Hl (parse_fuel buf) 0%nat [] Hat) as (p & E & Hp).
  { by left. }
  { unfold parse_fuel. lia. }
  pose proof parsecmd_run as R. rewrite E in R. rewrite R.
  by rewrite (proj2 (lex_end p [] Hp) eq_refl), Nat.eqb_refl.
Qed.

End parser_proofs.

(** C16: the parser of the xv6 shell accepts exactly its grammar.  For every command line
    [parsecmd] ends: it returns the command the grammar assigns to the line's tokens (so
    there is at most one), or it reports a syntax error because there is none. *)
Theorem parsecmd_grammar buf :
  Forall (fun c => c <> 0) buf ->
  (forall c, g_line (lex buf 0) c <-> parsecmd buf 0%nat = Ret (c, es buf)) /\
  ((exists c, parsecmd buf 0%nat = Ret (c, es buf)) \/ (exists msg, parsecmd buf 0%nat = Panic msg)).
Proof.
  intros Hn. destruct (parsecmd_total buf Hn) as (r & E & H). split.
  - intros c. split; [by apply parsecmd_complete|]. intros E'. rewrite E' in E. subst r. apply H.
  - destruct r as [[c p]|e|e]; [left|right|done].
    + destruct H as [-> _]. by exists c.
    + by exists e.
Qed.

Lemma parsecmd_grammar_witness :
  let buf := bytes "ls -l>x|(wc;b&)<f;" in
  exists c, g_line (lex buf 0) c /\ parsecmd buf 0%nat = Ret (c, es buf).
Proof.
  cbv zeta. set (buf := bytes "ls -l>x|(wc;b&)<f;").
  assert (Hn : Forall (fun c => c <> 0) buf) by (repeat constructor; discriminate).
  destruct (parsecmd buf 0%nat) as [[c p]|e|e] eqn:E; [|vm_compute in E; discriminate..].
  exists c. assert (p = es buf) as -> by (vm_compute in E; injection E; intros <- _; reflexivity).
  split; [|reflexivity]. by apply (parsecmd_grammar buf Hn).
Defined.

(** ** What the words are *)

Section words.
Context (buf : list Z) (no_nul : Forall (fun c => c <> 0) buf).

Definition word_byte (c : Z) : Prop :=
  c <> 0 /\ mem_of whitespace c = false /\ mem_of symbols c = false.

(** A maximal run of bytes that are neither blank nor symbols. *)
Definition word_at (w : span) : Prop :=
  (fst w < snd w <= es buf)%nat /\
  (forall i, (fst w <= i < snd w)%nat -> word_byte (byte buf i)) /\
  ~ word_byte (byte buf (snd w)).

Lemma word_loop_bytes n s i :
  (s <= i < word_loop buf n s)%nat -> word_byte (byte buf i).
Proof.
  revert s. induction n as [|n IH]; intros s Hi; cbn [word_loop] in Hi; [lia|].
  destruct (Nat.ltb_spec s (es buf)) as [Hs|]; cbn [andb] in Hi; [|lia].
  destruct (mem_of whitespace (byte buf s)) eqn:E1; cbn [andb negb] in Hi; [lia|].
  destruct (mem_of symbols (byte buf s)) eqn:E2; cbn [andb negb] in Hi; [lia|].
  destruct (decide (i = s)) as [->|]; [|apply (IH (S s)); lia].
  split; [by apply byte_in|done].
Qed.

Lemma lex_words s t : (s <= es buf)%nat -> t ∈ lex buf s -> is_word t -> word_at (span_of t).
Proof.
  intros Hs. remember (lex buf s) as ts eqn:E. revert s Hs E.
  induction ts as [|u ts IH]; intros s Hs E Ht Hw; [by apply not_elem_of_nil in Ht|].
  destruct (lex_cons buf no_nul s Hs) as [(E' & _)|(ret & e & E' & Hk & Hr & H1 & H2 & _)];
    rewrite <- E in E'; [discriminate|]. injection E' as -> Ets.
  apply elem_of_cons in Ht as [->|Ht].
  2: { apply (IH (skip buf e)); auto. apply (skip_spec buf e). lia. }
  unfold is_word, code in Hw. cbn in Hw. subst ret. unfold word_at, span_of. cbn [fst snd].
  split; [lia|]. inversion Hk as [Hm Heq| | |e' Hb Hsym He Hlt]; subst; try discriminate.
  { rewrite Heq in Hm. discriminate. }
  destruct (word_loop_spec buf (es buf - skip buf s) (skip buf s)) as [_ Hend]; [lia|lia|].
  split; [intros i Hi; by eapply word_loop_bytes|].
  intros (W1 & W2 & W3). destruct Hend as [Hend|[Hend|Hend]]; [|congruence|congruence].
  apply W1. rewrite Hend. by apply byte_end.
Qed.

End words.

Lemma spans_wrap c rs : spans (wrap_redirs c rs) = spans c ++ (rfile <$> rs).
Proof.
  unfold wrap_redirs. revert c. induction rs as [|r rs IH]; intros c; cbn; [by rewrite app_nil_r|].
  rewrite IH. cbn. by rewrite <- (assoc_L (++)).
Qed.

Lemma spans_back n c : spans (Nat.iter n Back c) = spans c.
Proof. induction n; done. Qed.

(** Every word of a parsed command is a word token of the line. *)
Definition from_words (ts : list tok) (ws : list span) : Prop :=
  forall w, w ∈ ws -> exists t, t ∈ ts /\ is_word t /\ w = span_of t.

Lemma from_app ts1 ts2 ws1 ws2 :
  from_words ts1 ws1 -> from_words ts2 ws2 -> from_words (ts1 ++ ts2) (ws1 ++ ws2).
Proof.
  intros H1 H2 w Hw. apply elem_of_app in Hw as [Hw|Hw]; [destruct (H1 w Hw) as (t & ?)|
    destruct (H2 w Hw) as (t & ?)]; exists t; set_solver.
Qed.

Lemma from_more ts ts' ws : (forall t, t ∈ ts -> t ∈ ts') -> from_words ts ws -> from_words ts' ws.
Proof. intros H Hf w Hw. destruct (Hf w Hw) as (t & ? & ?). eauto. Qed.

Lemma redirs_words ts rs : g_redirs ts rs -> from_words ts (rfile <$> rs).
Proof.
  induction 1 as [|t w ts r rs Hr Hw _ IH]; [intros w Hw; by apply not_elem_of_nil in Hw|].
  intros v Hv. cbn in Hv. apply elem_of_cons in Hv as [->|Hv].
  - exists w. split; [set_solver|]. split; [done|]. unfold redir_of in Hr.
    repeat (destruct (_ =? _); [by injection Hr as <-|]). discriminate.
  - destruct (IH v Hv) as (u & ? & ?). exists u. set_solver.
Qed.

Lemma args_words ts a rs : g_args ts a rs -> from_words ts (a ++ (rfile <$> rs)).
Proof.
  induction 1 as [|w ts1 ts2 a rs1 rs2 Hw Hr _ IH]; [intros w Hw; by apply not_elem_of_nil in Hw|].
  intros v Hv. cbn in Hv. apply elem_of_cons in Hv as [->|Hv]; [exists w; set_solver|].
  rewrite fmap_app in Hv. apply redirs_words in Hr.
  assert (v ∈ rfile <$> rs1 \/ v ∈ a ++ (rfile <$> rs2)) as [H|H] by set_solver.
  - destruct (Hr v H) as (u & ? & ?). exists u. set_solver.
  - destruct (IH v H) as (u & ? & ?). exists u. set_solver.
Qed.

Lemma grammar_words :
  (forall ts c, g_line ts c -> from_words ts (spans c)) /\
  (forall ts c, g_pipe ts c -> from_words ts (spans c)) /\
  (forall ts c, g_exec ts c -> from_words ts (spans c)).
Proof.
  apply g_mutind; intros; cbn [spans]; rewrite ?spans_back, ?spans_wrap; auto.
  - eapply from_more; [|eassumption]. set_solver.
  - apply from_app; [done|]. eapply from_more; [|eassumption]. set_solver.
  - apply from_app; [done|]. eapply from_more; [|eassumption]. set_solver.
  - match goal with H : g_redirs _ _ |- _ => apply redirs_words in H; rename H into Hr end.
    intros w Hw. apply elem_of_app in Hw as [Hw|Hw].
    + match goal with H : from_words _ (spans _) |- _ => destruct (H w Hw) as (u & ? & ?) end.
      exists u. set_solver.
    + destruct (Hr w Hw) as (u & ? & ?). exists u. set_solver.
  - apply redirs_words in H. apply args_words in H0. cbn [spans]. intros w Hw.
    rewrite fmap_app in Hw.
    assert (w ∈ rfile <$> rs0 \/ w ∈ a ++ (rfile <$> rs)) as [Hi|Hi] by set_solver.
    + destruct (H w Hi) as (u & ? & ?). exists u. set_solver.
    + destruct (H0 w Hi) as (u & ? & ?). exists u. set_solver.
Qed.

(** The C string at an offset of a buffer. *)
Fixpoint c_string (l : list Z) : list Z :=
  match l with [] => [] | x :: r => if x =? 0 then [] else x :: c_string r end.

Lemma c_string_word w r : Forall (fun c => c <> 0) w -> c_string (w ++ 0 :: r) = w.
Proof.
  induction 1 as [|x w Hx _ IH]; [done|]. cbn. by rewrite (proj2 (Z.eqb_neq _ _) Hx), IH.
Qed.

Lemma nul_fold ws b :
  length (foldl (fun b (w : span) => put_nul b (snd w)) b ws) = length b /\
  (forall i, foldl (fun b (w : span) => put_nul b (snd w)) b ws !! i =
     if decide (i ∈ snd <$> ws) then (fun _ => 0) <$> b !! i else b !! i).
Proof.
  revert b. induction ws as [|w ws IH]; intros b; [split; [done|]; intros i; cbn; by rewrite decide_False by set_solver|].
  cbn. destruct (IH (put_nul b (snd w))) as [H1 H2]. unfold put_nul in *.
  split; [by rewrite H1, length_insert|]. intros i. rewrite H2.
  destruct (decide (i = snd w)) as [->|Hne].
  - rewrite (decide_True (P := snd w ∈ snd w :: (snd <$> ws))) by set_solver.
    destruct (decide (snd w < length b)%nat).
    + rewrite list_lookup_insert_eq by done. destruct (lookup_lt_is_Some_2 b (snd w)) as [x ->]; [done|].
      by case_decide.
    + rewrite lookup_ge_None_2 by (rewrite length_insert; lia). rewrite (lookup_ge_None_2 b) by lia.
      by case_decide.
  - rewrite list_lookup_insert_ne by done.
    destruct (decide (i ∈ snd <$> ws)); [by rewrite decide_True by set_solver|by rewrite decide_False by set_solver].
Qed.

Lemma nulterminate_fold c b :
  nulterminate c b = foldl (fun b (w : span) => put_nul b (snd w)) b (spans c).
Proof.
  revert b. induction c; intros b; cbn; rewrite ?foldl_app; try done; by rewrite ?IHc, ?IHc1, ?IHc2.
Qed.

(** C37: [nulterminate] turns every word of the parsed command into a C string.  All its
    stores are inside the buffer, and afterwards the string at each [argv[i]] and [file]
    is exactly the word the line has there: not empty, without blanks or symbols, and as
    long as possible. *)
Theorem nulterminate_words buf c :
  Forall (fun c => c <> 0) buf -> parsecmd buf 0%nat = Ret (c, es buf) ->
  length (nulterminate c (buf ++ [0])) = S (es buf) /\
  (forall q e, (q, e) ∈ spans c ->
     word_at buf (q, e) /\ (e < S (es buf))%nat /\
     c_string (drop q (nulterminate c (buf ++ [0]))) = take (e - q) (drop q buf)).
Proof.
  intros Hn E. assert (Hl : g_line (lex buf 0) c).
  { destruct (parsecmd_total buf Hn) as (r & E' & H). rewrite E' in E. subst r. apply H. }
  assert (Hw : forall w, w ∈ spans c -> word_at buf w).
  { intros w Hw. destruct (proj1 grammar_words _ _ Hl w Hw) as (t & Ht & Hk & ->).
    apply (lex_words buf Hn 0); [lia|done|done]. }
  rewrite nulterminate_fold. destruct (nul_fold (spans c) (buf ++ [0])) as [L1 L2].
  set (b := foldl _ _ _) in *. rewrite length_app in L1. cbn in L1.
  split; [unfold es; lia|]. intros q e Hq. pose proof (Hw _ Hq) as (W1 & W2 & W3). cbn [fst snd] in *.
  split; [by apply Hw|]. split; [lia|].
  assert (Hdrop : drop q b = take (e - q) (drop q buf) ++ 0 :: drop (S e) b).
  { apply list_eq. intros i. rewrite lookup_drop, L2. destruct (decide (i < e - q)%nat) as [Hi|Hi].
    - rewrite (lookup_app_l (take (e - q) (drop q buf))) by (rewrite length_take, length_drop; unfold es in *; lia).
      rewrite lookup_take_lt, lookup_drop, lookup_app_l by (unfold es in *; lia).
      rewrite decide_False; [done|]. intros Hin. apply list_elem_of_fmap in Hin as (v & Ev & Hv).
      destruct (Hw v Hv) as (_ & _ & W3'). rewrite <- Ev in W3'. apply W3', W2. lia.
    - rewrite (lookup_app_r (take (e - q) (drop q buf))) by (rewrite length_take, length_drop; unfold es in *; lia).
      rewrite length_take, length_drop. replace (i - _ `min` _)%nat with (i - (e - q))%nat by (unfold es in *; lia).
      destruct (decide (i = e - q)%nat) as [->|].
      + replace (q + (e - q))%nat with e by lia. rewrite Nat.sub_diag. cbn.
        rewrite decide_True by (apply list_elem_of_fmap; by exists (q, e)).
        destruct (lookup_lt_is_Some_2 (buf ++ [0]) e) as [x ->]; [rewrite length_app; cbn; unfold es in *; lia|done].
      + replace (i - (e - q))%nat with (S (i - (e - q) - 1)) by lia.
        change ((0 :: drop (S e) b) !! S (i - (e - q) - 1)) with (drop (S e) b !! (i - (e - q) - 1)%nat).
        rewrite lookup_drop, L2.
        replace (S e + (i - (e - q) - 1))%nat with (q + i)%nat by lia. done. }
  rewrite Hdrop. apply c_string_word. apply list.Forall_forall. intros x Hx.
  rewrite List.Forall_forall in Hn. apply Hn, list_elem_of_In.
  apply list_elem_of_lookup in Hx as [i Hx]. apply lookup_take_Some in Hx as [Hx _].
  rewrite lookup_drop in Hx. by eapply list_elem_of_lookup_2.
Qed.

Lemma nulterminate_words_witness :
  let buf := bytes "echo hi>out" in
  exists c, parsecmd buf 0%nat = Ret (c, es buf) /\
    forall q e, (q, e) ∈ spans c ->
      c_string (drop q (nulterminate c (buf ++ [0]))) = take (e - q) (drop q buf).
Proof.
  cbv zeta. set (buf := bytes "echo hi>out").
  assert (Hn : Forall (fun c => c <> 0) buf) by (repeat constructor; discriminate).
  eexists. assert (E : parsecmd buf 0%nat =
    Ret (Redir (Exec [(0, 4); (5, 7)]%nat) (mkRedir (8, 11)%nat 1537 1), es buf)) by reflexivity.
  split; [exact E|]. intros q e Hq. by apply (nulterminate_words buf _ Hn E).
Defined.
