(* ===== verification/UserShRun.v ===== *)
(** * Running commands: [runcmd], [getcmd] and [main] of [user/sh.c]

    [runcmd] never returns: a process ends in [exec] or [exit].  The model gives what the
    process and the children it forks do, with the open files each program starts with.
    File descriptors behave as in [sysfile.c]: [open], [dup] and [pipe] take the lowest
    free ones.  Whether a file opens, a program is found, and a [fork] or [pipe] succeeds
    at a place of the command are parameters. *)
From stdpp Require Import base list.
From Stdlib Require Import ZArith Lia.
From S2P Require Import Prelude UserSh.

(** What an open file is: inherited from the shell, opened by a redirection, or an end of
    the pipe made at a place of the command. *)
Inductive ofile :=
  | Inherited (n : nat) | Opened (r : redir) | PipeR (loc : list nat) | PipeW (loc : list nat).

(** [p->ofile]. *)
Notation fds := (list (option ofile)).

(** [fdalloc] of [sysfile.c]: the first free slot. *)
Fixpoint fdalloc (f : ofile) (t : fds) : option (nat * fds) :=
  match t with
  | [] => None
  | None :: t' => Some (0%nat, Some f :: t')
  | Some g :: t' => r ← fdalloc f t'; Some (S (fst r), Some g :: snd r)
  end.

Definition close (fd : nat) (t : fds) : fds := <[fd := None]> t.

(** [dup(fd)], whose failure the shell ignores. *)
Definition dup (fd : nat) (t : fds) : fds :=
  match t !! fd with
  | Some (Some f) => match fdalloc f t with Some (_, t') => t' | None => t end
  | _ => t
  end.

(** What the processes do: [exec] with these files, [exit], fork a child and go on, wait
    for a child with these files open. *)
Inductive run :=
  | RExec (argv : list span) (t : fds)
  | RExit (status : Z)
  | RFork (child parent : run)
  | RWait (t : fds) (r : run).

Section run.
Context (can_open : redir -> bool) (can_exec : list span -> bool)
        (fork_ok pipe_ok : list nat -> bool).

(** [fork1] then the child: a failed [fork] panics, which exits. *)
Definition fork1 (loc : list nat) (child parent : run) : run :=
  if fork_ok loc then RFork child parent else RExit 1.

(** [pipe(p)]: two descriptors, or a panic. *)
Definition pipe (loc : list nat) (t : fds) : option (nat * nat * fds) :=
  if pipe_ok loc then
    r0 ← fdalloc (PipeR loc) t;
    r1 ← fdalloc (PipeW loc) (snd r0);
    Some (fst r0, fst r1, snd r1)
  else None.

Fixpoint runcmd (c : cmd) (loc : list nat) (t : fds) : run :=
  match c with
  | Exec [] => RExit 1
  | Exec argv => if can_exec argv then RExec argv t else RExit 0
  | Redir c' r =>
      let t1 := close (Z.to_nat (rfd r)) t in
      if can_open r then
        match fdalloc (Opened r) t1 with
        | Some (_, t2) => runcmd c' loc t2
        | None => RExit 1
        end
      else RExit 1
  | List_ l r => fork1 loc (runcmd l (0%nat :: loc) t) (RWait t (runcmd r (1%nat :: loc) t))
  | Pipe l r =>
      match pipe loc t with
      | None => RExit 1
      | Some (p0, p1, t1) =>
          fork1 (0%nat :: loc)
            (runcmd l (0%nat :: loc) (close p1 (close p0 (dup p1 (close 1 t1)))))
            (fork1 (1%nat :: loc)
               (runcmd r (1%nat :: loc) (close p1 (close p0 (dup p0 (close 0 t1)))))
               (let t2 := close p1 (close p0 t1) in RWait t2 (RWait t2 (RExit 0))))
      end
  | Back c' => fork1 loc (runcmd c' (0%nat :: loc) t) (RExit 0)
  end.

(** ** What the command means *)

(** The same without descriptors to manage: a redirection replaces its descriptor, the
    programs of a pipeline get an end each, and the process that waits for them none. *)
Fixpoint meaning (c : cmd) (loc : list nat) (t : fds) : run :=
  match c with
  | Exec [] => RExit 1
  | Exec argv => if can_exec argv then RExec argv t else RExit 0
  | Redir c' r =>
      if can_open r then meaning c' loc (<[Z.to_nat (rfd r) := Some (Opened r)]> t) else RExit 1
  | List_ l r => fork1 loc (meaning l (0%nat :: loc) t) (RWait t (meaning r (1%nat :: loc) t))
  | Pipe l r =>
      if pipe_ok loc then
        fork1 (0%nat :: loc) (meaning l (0%nat :: loc) (<[1%nat := Some (PipeW loc)]> t))
          (fork1 (1%nat :: loc) (meaning r (1%nat :: loc) (<[0%nat := Some (PipeR loc)]> t))
             (RWait t (RWait t (RExit 0))))
      else RExit 1
  | Back c' => fork1 loc (meaning c' (0%nat :: loc) t) (RExit 0)
  end.

(** Standard input and output are open and two descriptors are free. *)
Definition ready (t : fds) : Prop :=
  exists a b u v w, t = Some a :: Some b :: u ++ None :: v ++ None :: w /\
    Forall is_Some u /\ Forall is_Some v.

(** Every redirection is of standard input or output. *)
Fixpoint std_redirs (c : cmd) : Prop :=
  match c with
  | Exec _ => True
  | Redir c' r => (rfd r = 0 \/ rfd r = 1) /\ std_redirs c'
  | Pipe l r | List_ l r => std_redirs l /\ std_redirs r
  | Back c' => std_redirs c'
  end.

Lemma fdalloc_skip f u t :
  Forall is_Some u -> fdalloc f (u ++ None :: t) = Some (length u, u ++ Some f :: t).
Proof.
  induction 1 as [|x u [g ->] _ IH]; cbn; [done|]. by rewrite IH.
Qed.

Lemma ready_set t fd f : ready t -> fd = 0%nat \/ fd = 1%nat -> ready (<[fd := Some f]> t).
Proof.
  intros (a & b & u & v & w & -> & Hu & Hv) [->| ->]; [exists f, b|exists a, f]; by exists u, v, w.
Qed.

Lemma redir_files f fd t :
  ready t -> fd = 0%nat \/ fd = 1%nat ->
  exists n, fdalloc f (close fd t) = Some (n, <[fd := Some f]> t).
Proof.
  intros (a & b & u & v & w & -> & _) [->| ->]; cbn; eauto.
Qed.

Lemma close_middle u x t : close (length u) (u ++ x :: t) = u ++ None :: t.
Proof. unfold close. by rewrite insert_app_r_alt, Nat.sub_diag by lia. Qed.

(** The descriptors of the two ends, and what each side of the pipeline and their parent keep. *)
Lemma pipe_files loc t :
  ready t -> pipe_ok loc = true ->
  exists p0 p1 t1, pipe loc t = Some (p0, p1, t1) /\
    close p1 (close p0 (dup p1 (close 1 t1))) = <[1%nat := Some (PipeW loc)]> t /\
    close p1 (close p0 (dup p0 (close 0 t1))) = <[0%nat := Some (PipeR loc)]> t /\
    close p1 (close p0 t1) = t.
Proof.
  intros (a & b & u & v & w & -> & Hu & Hv) Hp.
  set (R := PipeR loc). set (W := PipeW loc).
  exists (2 + length u)%nat, (2 + length u + 1 + length v)%nat,
    (Some a :: Some b :: u ++ Some R :: v ++ Some W :: w). split.
  { unfold pipe. rewrite Hp. cbn. rewrite (fdalloc_skip _ _ _ Hu). cbn. fold R W.
    replace (u ++ Some R :: v ++ None :: w) with ((u ++ Some R :: v) ++ None :: w)
      by (by rewrite <- (assoc_L (++))).
    rewrite fdalloc_skip.
    - cbn. rewrite length_app, <- (assoc_L (++)). cbn. do 4 f_equal. lia.
    - apply list.Forall_app. split; [done|]. constructor; [eauto|done]. }
  assert (L1 : forall x y : option ofile, (x :: y :: u ++ Some R :: v ++ Some W :: w)
                 !! (2 + length u)%nat = Some (Some R)).
  { intros x y. by apply (list_lookup_middle (x :: y :: u)). }
  assert (L2 : forall x y : option ofile, (x :: y :: u ++ Some R :: v ++ Some W :: w)
                 !! (2 + length u + 1 + length v)%nat = Some (Some W)).
  { intros x y. replace (u ++ Some R :: v ++ Some W :: w) with ((u ++ Some R :: v) ++ Some W :: w)
      by (by rewrite <- (assoc_L (++))). apply (list_lookup_middle (x :: y :: u ++ Some R :: v)).
    cbn. rewrite length_app. cbn. lia. }
  assert (C : forall x y : option ofile,
    close (2 + length u + 1 + length v) (close (2 + length u) (x :: y :: u ++ Some R :: v ++ Some W :: w)) =
    x :: y :: u ++ None :: v ++ None :: w).
  { intros x y. change (2 + length u)%nat with (length (x :: y :: u)).
    change (x :: y :: u ++ Some R :: v ++ Some W :: w) with ((x :: y :: u) ++ Some R :: v ++ Some W :: w).
    rewrite close_middle.
    replace (length (x :: y :: u) + 1 + length v)%nat with (length ((x :: y :: u) ++ None :: v))
      by (rewrite length_app; cbn; lia).
    replace ((x :: y :: u) ++ None :: v ++ Some W :: w) with (((x :: y :: u) ++ None :: v) ++ Some W :: w)
      by (by rewrite <- (assoc_L (++))).
    rewrite close_middle. by rewrite <- (assoc_L (++)). }
  set (X := u ++ Some R :: v ++ Some W :: w) in *. split; [|split; [|apply C]].
  - change (close 1 (Some a :: Some b :: X)) with (Some a :: None :: X).
    unfold dup. rewrite L2. cbn [fdalloc]. apply C.
  - change (close 0 (Some a :: Some b :: X)) with (None :: Some b :: X).
    unfold dup. rewrite L1. cbn [fdalloc]. apply C.
Qed.

Lemma runcmd_meaning c loc t : ready t -> std_redirs c -> runcmd c loc t = meaning c loc t.
Proof.
  revert loc t. induction c as [argv|c IH r|l IHl r IHr|l IHl r IHr|c IH]; intros loc t Ht Hc; cbn.
  - done.
  - destruct Hc as [Hr Hc]. destruct (can_open r); [|done].
    assert (Hfd : Z.to_nat (rfd r) = 0%nat \/ Z.to_nat (rfd r) = 1%nat) by lia.
    destruct (redir_files (Opened r) _ t Ht Hfd) as [n ->]. apply IH; [by apply ready_set|done].
  - destruct Hc as [Hl Hr]. destruct (pipe_ok loc) eqn:Hp.
    + destruct (pipe_files loc t Ht Hp) as (p0 & p1 & t1 & -> & -> & -> & ->).
      rewrite IHl, IHr by (try done; apply ready_set; auto). done.
    + unfold pipe. by rewrite Hp.
  - destruct Hc as [Hl Hr]. by rewrite IHl, IHr.
  - by rewrite IH.
Qed.

End run.

Lemma std_wrap c rs :
  std_redirs c -> Forall (fun r => rfd r = 0 \/ rfd r = 1) rs -> std_redirs (wrap_redirs c rs).
Proof.
  unfold wrap_redirs. intros Hc Hrs. revert c Hc.
  induction Hrs as [|r rs Hr _ IH]; intros c Hc; cbn; [done|]. by apply IH.
Qed.

Lemma redirs_std ts rs : g_redirs ts rs -> Forall (fun r => rfd r = 0 \/ rfd r = 1) rs.
Proof.
  induction 1 as [|t w ts r rs Hr _ _ IH]; constructor; [|done]. unfold redir_of in Hr.
  repeat (destruct (_ =? _); [injection Hr as <-; cbn; lia|]). discriminate.
Qed.

Lemma args_std ts a rs : g_args ts a rs -> Forall (fun r => rfd r = 0 \/ rfd r = 1) rs.
Proof.
  induction 1; [constructor|]. apply list.Forall_app. split; [by eapply redirs_std|done].
Qed.

Lemma back_std n c : std_redirs c -> std_redirs (Nat.iter n Back c).
Proof. induction n; done. Qed.

Lemma grammar_std :
  (forall ts c, g_line ts c -> std_redirs c) /\ (forall ts c, g_pipe ts c -> std_redirs c) /\
  (forall ts c, g_exec ts c -> std_redirs c).
Proof.
  apply g_mutind; intros; cbn; auto using back_std.
  - apply std_wrap; [done|]. by eapply redirs_std.
  - apply std_wrap; [done|]. apply list.Forall_app. split; [by eapply redirs_std|by eapply args_std].
Qed.

(** C25: [runcmd] does what the command says.  For every parsed command, started with
    standard input and output open and two descriptors free, the processes [runcmd] makes
    are those of [meaning]: each program of a pipeline gets its end of the pipe in place of
    descriptor 1 or 0 and keeps no other end, the process that waits for them keeps no end
    at all, so that the reader sees the end of its input when the writer is done; a
    redirection replaces exactly its descriptor, lists wait, background commands do not. *)
Theorem runcmd_refines can_open can_exec fork_ok pipe_ok buf c loc t :
  Forall (fun c => c <> 0) buf -> parsecmd buf 0%nat = Ret (c, es buf) -> ready t ->
  runcmd can_open can_exec fork_ok pipe_ok c loc t = meaning can_open can_exec fork_ok pipe_ok c loc t.
Proof.
  intros Hn E Ht. apply runcmd_meaning; [done|].
  destruct (parsecmd_total buf Hn) as (r & E' & H). rewrite E' in E. subst r.
  by eapply (proj1 grammar_std), H.
Qed.

(** Of several redirections of one descriptor the first one written wins: [runcmd] meets
    the last one first. *)
Theorem first_redirection_wins can_open can_exec fork_ok pipe_ok a rs loc t :
  Forall (fun r => can_open r = true) rs -> a <> [] -> can_exec a = true ->
  meaning can_open can_exec fork_ok pipe_ok (wrap_redirs (Exec a) rs) loc t =
  RExec a (foldr (fun r t => <[Z.to_nat (rfd r) := Some (Opened r)]> t) t rs).
Proof.
  intros Hrs Ha Hx. revert t. induction rs as [|r rs IH] using rev_ind; intros t.
  - cbn. destruct a; [done|]. by rewrite Hx.
  - apply list.Forall_app in Hrs as [Hrs Hr]. rewrite list.Forall_singleton in Hr.
    unfold wrap_redirs. rewrite foldl_app. cbn. rewrite Hr, foldr_app. by apply IH.
Qed.

(** ** The main loop *)

(** [gets(buf, max)] with [k = max - 1] bytes of room, on the input that is left. *)
Fixpoint gets (k : nat) (input : list Z) : list Z * list Z :=
  match k, input with
  | O, _ => ([], input)
  | _, [] => ([], [])
  | S k', c :: r =>
      if (c =? 10) || (c =? 13) then ([c], r)
      else let (l, r') := gets k' r in (c :: l, r')
  end.

(** What [main] does with one line. *)
Inductive action := Blank | Cd (path : list Z) | RunLine (line : list Z).

Definition is_blank (c : Z) : bool := (c =? 32) || (c =? 9).
Fixpoint skip_blanks (l : list Z) : list Z :=
  match l with c :: r => if is_blank c then skip_blanks r else l | [] => [] end.

Definition do_line (line : list Z) : action :=
  let cmd := skip_blanks line in
  if nth 0 cmd 0 =? 10 then Blank
  else if (nth 0 cmd 0 =? 99) && (nth 1 cmd 0 =? 100) && (nth 2 cmd 0 =? 32) then
    Cd (drop 3 (take (length cmd - 1) cmd))
  else RunLine cmd.

(** [sizeof(buf)] of [main]. *)
Definition BUFSZ : nat := 100.

(** [main]'s loop: [getcmd] ends it when the line is empty. *)
Fixpoint main_loop (f : nat) (input : list Z) : list action :=
  match f with
  | O => []
  | S f' =>
      let (l, rest) := gets (BUFSZ - 1) input in
      let line := c_string (l ++ [0]) in
      if nth 0 line 0 =? 0 then [] else do_line line :: main_loop f' rest
  end.
Definition main (input : list Z) : list action := main_loop (S (length input)) input.

(** A line of text that fits the buffer with its newline. *)
Definition fits_line (l : list Z) : Prop :=
  Forall (fun c => c <> 0 /\ c <> 10 /\ c <> 13) l /\ (length l < BUFSZ - 1)%nat.

Lemma gets_line k l rest :
  Forall (fun c => c <> 0 /\ c <> 10 /\ c <> 13) l -> (length l < k)%nat ->
  gets k (l ++ 10 :: rest) = (l ++ [10], rest).
Proof.
  intros Hl. revert k. induction Hl as [|c l (_ & H1 & H2) _ IH]; intros k Hk;
    (destruct k as [|k]; [cbn in Hk; lia|]); cbn; [done|].
  rewrite (proj2 (Z.eqb_neq _ _) H1), (proj2 (Z.eqb_neq _ _) H2). cbn.
  rewrite IH; [done|cbn in Hk; lia].
Qed.

(** The shell runs its input line by line.  When every line fits the buffer, [main]
    handles each line once, in order, as the whole line and nothing else. *)
Theorem main_lines ls :
  Forall fits_line ls ->
  main (concat ((fun l => l ++ [10]) <$> ls)) = (fun l => do_line (l ++ [10])) <$> ls.
Proof.
  intros H. unfold main.
  enough (forall f, (length (concat ((fun l => l ++ [10%Z]) <$> ls)) < f)%nat ->
    main_loop f (concat ((fun l => l ++ [10]) <$> ls)) = (fun l => do_line (l ++ [10])) <$> ls)
    as Hf by (apply Hf; lia).
  induction H as [|l ls [Hl Hlen] _ IH]; intros f Hf; (destruct f as [|f]; [lia|]); cbn [main_loop].
  - done.
  - cbn [fmap list_fmap concat] in *. rewrite <- (assoc_L (++)). cbn [app].
    rewrite (gets_line _ _ _ Hl Hlen). rewrite !length_app in Hf. cbn in Hf.
    rewrite (c_string_word (l ++ [10]) []).
    2: { apply list.Forall_app. split; [|by repeat constructor].
         eapply list.Forall_impl; [exact Hl|]. intros c Hc. apply Hc. }
    replace (nth 0 (l ++ [10]) 0 =? 0) with false.
    2: { symmetry. apply Z.eqb_neq. destruct Hl as [|c l Hc]; cbn; [done|apply Hc]. }
    rewrite IH by lia. done.
Qed.

(** A longer line is run as two commands. *)
Theorem long_line_is_split :
  let line := bytes "echo " ++ replicate 110 120 ++ bytes " ;rm x" in
  exists l1 l2, main (line ++ [10]) = [RunLine l1; RunLine l2] /\
    l1 ++ l2 = line ++ [10] /\ length l1 = 99%nat.
Proof. eexists _, _. vm_compute. split; [reflexivity|]. split; reflexivity. Qed.

(** Concrete run: [a|b>f] from a shell with files 0 to 2 of 16 open. *)
Definition demo_fds : fds :=
  [Some (Inherited 0); Some (Inherited 1); Some (Inherited 2)] ++ replicate 13 None.

Lemma runcmd_refines_witness :
  exists c, parsecmd (bytes "a|b>f") 0%nat = Ret (c, 5%nat) /\
    runcmd (fun _ => true) (fun _ => true) (fun _ => true) (fun _ => true) c [] demo_fds =
    meaning (fun _ => true) (fun _ => true) (fun _ => true) (fun _ => true) c [] demo_fds.
Proof.
  set (buf := bytes "a|b>f"). eexists.
  assert (E : parsecmd buf 0%nat = Ret (Pipe (Exec [(0, 1)%nat])
     (Redir (Exec [(2, 3)%nat]) (mkRedir (4, 5)%nat 1537 1)), es buf)) by reflexivity.
  split; [exact E|]. apply (runcmd_refines _ _ _ _ buf); [|exact E|].
  - repeat constructor; discriminate.
  - exists (Inherited 0), (Inherited 1), [Some (Inherited 2)], [], (replicate 11 None).
    split; [reflexivity|]. split; [repeat constructor; eauto|constructor].
Defined.

Lemma main_lines_witness :
  main (bytes "cd a" ++ [10] ++ bytes " ls|wc" ++ [10]) =
  [Cd (bytes "a"); RunLine (bytes "ls|wc" ++ [10])].
Proof.
  apply (main_lines [bytes "cd a"; bytes " ls|wc"]).
  repeat constructor; cbn; first [discriminate|lia].
Defined.

Lemma first_redirection_wins_witness :
  meaning (fun _ => true) (fun _ => true) (fun _ => true) (fun _ => true)
    (wrap_redirs (Exec [(0, 1)%nat]) [mkRedir (2, 3)%nat 1537 1; mkRedir (4, 5)%nat 1537 1]) [] demo_fds =
  RExec [(0, 1)%nat] (<[1%nat := Some (Opened (mkRedir (2, 3)%nat 1537 1))]> demo_fds).
Proof.
  apply (first_redirection_wins (fun _ => true) (fun _ => true) (fun _ => true) (fun _ => true)
    [(0, 1)%nat] [mkRedir (2, 3)%nat 1537 1; mkRedir (4, 5)%nat 1537 1] [] demo_fds);
    [by repeat constructor|discriminate|reflexivity].
Defined.
