(* ===== verification/Console.v ===== *)
(** * The console: [kernel/console.c], [kernel/uart.c]

    Input arrives one character at a time in [consoleintr], which edits the current line
    in a ring of 128 bytes; [consoleread] takes completed lines out.  Both run under
    [cons.lock], so each call up to a [sleep] is one step.  [out] is what is sent to the
    UART.  [killed] and the success of [either_copyout] and [either_copyin] are
    parameters of the calls that use them. *)
From stdpp Require Import base list.
From Stdlib Require Import ZArith Lia.
From S2P Require Import Prelude.

Definition INPUT_BUF_SIZE : Z := 128.
Definition BACKSPACE : Z := 256.
(** [C(x)]. *)
Definition ctl (x : Z) : Z := x - 64.

(** [cons] and the output. *)
Record cons_t := mkCons { cbuf : list Z; cr : Z; cw : Z; ce : Z; out : list Z }.

Definition set_e (e : Z) (s : cons_t) : cons_t := mkCons (cbuf s) (cr s) (cw s) e (out s).
Definition set_w (w : Z) (s : cons_t) : cons_t := mkCons (cbuf s) (cr s) w (ce s) (out s).
Definition set_r (r : Z) (s : cons_t) : cons_t := mkCons (cbuf s) r (cw s) (ce s) (out s).

(** [uartputc_sync(c)]: the byte that goes to the transmit register. *)
Definition uartputc_sync (c : Z) (s : cons_t) : cons_t :=
  mkCons (cbuf s) (cr s) (cw s) (ce s) (out s ++ [u8 c]).

Definition consputc (c : Z) (s : cons_t) : cons_t :=
  if c =? BACKSPACE then uartputc_sync 8 (uartputc_sync 32 (uartputc_sync 8 s))
  else uartputc_sync c s.

(** [cons.buf[i % INPUT_BUF_SIZE]]. *)
Definition slot (i : Z) : nat := Z.to_nat (i mod INPUT_BUF_SIZE).
Definition cbyte (s : cons_t) (i : Z) : Z := nth (slot i) (cbuf s) 0.
Definition put_byte (i c : Z) (s : cons_t) : cons_t :=
  mkCons (<[slot i := u8 c]> (cbuf s)) (cr s) (cw s) (ce s) (out s).

(** The loop of [C('U')]; it ends because it moves [e] back to [w] at the latest. *)
Fixpoint kill_loop (n : nat) (s : cons_t) : res cons_t :=
  match n with
  | O => Undef "consoleintr: kill line"
  | S n' =>
      if negb (ce s =? cw s) && negb (cbyte s (u32 (ce s - 1)) =? 10) then
        kill_loop n' (consputc BACKSPACE (set_e (u32 (ce s - 1)) s))
      else Ret s
  end.

(** [consoleintr(c)]; the second result is whether [wakeup(&cons.r)] was called. *)
Definition consoleintr (c : Z) (s : cons_t) : res (cons_t * bool) :=
  if c =? ctl 80 then Ret (s, false)
  else if c =? ctl 85 then
    match kill_loop (Z.to_nat INPUT_BUF_SIZE + 1) s with
    | Ret s' => Ret (s', false) | Panic e => Panic e | Undef e => Undef e
    end
  else if (c =? ctl 72) || (c =? 127) then
    if negb (ce s =? cw s) then Ret (consputc BACKSPACE (set_e (u32 (ce s - 1)) s), false)
    else Ret (s, false)
  else if negb (c =? 0) && (u32 (ce s - cr s) <? INPUT_BUF_SIZE) then
    let c := if c =? 13 then 10 else c in
    let s := consputc c s in
    let s := set_e (u32 (ce s + 1)) (put_byte (ce s) c s) in
    if (c =? 10) || (c =? ctl 68) || (u32 (ce s - cr s) =? INPUT_BUF_SIZE) then
      Ret (set_w (ce s) s, true)
    else Ret (s, false)
  else Ret (s, false).

(** How a run of [consoleread] ends: it returns, or sleeps with [n] bytes still to read. *)
Inductive rd_end := RdDone (ret : Z) | RdAsleep (n : nat).

Section read.
Context (killed : bool) (dst_ok : nat -> bool).

(** The loop of [consoleread] with [n] left of [target] bytes; also the bytes copied out. *)
Fixpoint read_loop (n target : nat) (s : cons_t) : rd_end * list Z * cons_t :=
  match n with
  | O => (RdDone (Z.of_nat target), [], s)
  | S n' =>
      if cr s =? cw s then
        if killed then (RdDone (-1), [], s) else (RdAsleep n, [], s)
      else
        let c := cbyte s (cr s) in
        let s1 := set_r (u32 (cr s + 1)) s in
        let done := RdDone (Z.of_nat target - Z.of_nat n) in
        if c =? ctl 68 then
          (done, [], if (n <? target)%nat then set_r (u32 (cr s1 - 1)) s1 else s1)
        else if negb (dst_ok (target - n)%nat) then (done, [], s1)
        else if c =? 10 then (RdDone (Z.of_nat target - Z.of_nat n'), [c], s1)
        else let '(e, bs, s') := read_loop n' target s1 in (e, c :: bs, s')
  end.

(** [consoleread(user_dst, dst, n)], from its start or from the wakeup with [n] left. *)
Definition consoleread (n target : nat) (s : cons_t) : rd_end * list Z * cons_t :=
  read_loop n target s.
End read.

(** [consolewrite(user_src, src, n)]: batches of 32 bytes, each copied in and handed to
    [uartwrite]; [src i m] is the batch at offset [i], or [None] when [either_copyin]
    fails. *)
Fixpoint write_loop (fuel : nat) (src : nat -> nat -> option (list Z)) (i n : nat) (s : cons_t) :
    res (Z * cons_t) :=
  match fuel with
  | O => Undef "consolewrite"
  | S f =>
      if (i <? n)%nat then
        let nn := if (n - i <? 32)%nat then (n - i)%nat else 32%nat in
        match src i nn with
        | None => Ret (Z.of_nat i, s)
        | Some bs => write_loop f src (i + nn) n (mkCons (cbuf s) (cr s) (cw s) (ce s) (out s ++ bs))
        end
      else Ret (Z.of_nat i, s)
  end.
Definition consolewrite (src : nat -> nat -> option (list Z)) (n : nat) (s : cons_t) :
    res (Z * cons_t) := write_loop (S n) src 0 n s.

(** ** The line discipline *)

(** What the ring stands for: completed input, oldest first, and the line being edited. *)
Notation lines := (list Z * list Z)%type.

(** The bytes echoed for one erased character. *)
Definition rubout : list Z := [8; 32; 8].

(** What a key does: new lines, echo, and whether readers are woken. *)
Definition key (c : Z) (a : lines) : lines * list Z * bool :=
  let (com, edt) := a in
  if c =? ctl 80 then (a, [], false)
  else if c =? ctl 85 then ((com, []), concat (replicate (length edt) rubout), false)
  else if (c =? ctl 72) || (c =? 127) then
    match edt with [] => (a, [], false) | _ => ((com, removelast edt), rubout, false) end
  else if negb (c =? 0) && (Z.of_nat (length com + length edt) <? INPUT_BUF_SIZE) then
    let c := if c =? 13 then 10 else c in
    let edt := edt ++ [c] in
    if (c =? 10) || (c =? ctl 68) || (Z.of_nat (length com + length edt) =? INPUT_BUF_SIZE) then
      ((com ++ edt, []), [c], true)
    else ((com, edt), [c], false)
  else (a, [], false).

(** What a read does: it takes bytes of completed input up to a newline or a control-D,
    and puts a control-D that is not the first thing read back. *)
Fixpoint take_line (killed : bool) (dst_ok : nat -> bool) (n target : nat) (com : list Z) :
    rd_end * list Z * list Z :=
  match n with
  | O => (RdDone (Z.of_nat target), [], com)
  | S n' =>
      match com with
      | [] => if killed then (RdDone (-1), [], []) else (RdAsleep n, [], [])
      | c :: rest =>
          let done := RdDone (Z.of_nat target - Z.of_nat n) in
          if c =? ctl 68 then (done, [], if (n <? target)%nat then com else rest)
          else if negb (dst_ok (target - n)%nat) then (done, [], rest)
          else if c =? 10 then (RdDone (Z.of_nat target - Z.of_nat n'), [c], rest)
          else let '(e, bs, com') := take_line killed dst_ok n' target rest in (e, c :: bs, com')
      end
  end.

(** The ring [s] stands for [com] and [edt]. *)
Record abs (s : cons_t) (com edt : list Z) : Prop := {
  a_buf : length (cbuf s) = 128%nat;
  a_r : 0 <= cr s < 2 ^ 32;
  a_w : cw s = u32 (cr s + Z.of_nat (length com));
  a_e : ce s = u32 (cr s + Z.of_nat (length com + length edt));
  a_size : (length com + length edt <= 128)%nat;
  a_bytes : forall i c, (com ++ edt) !! i = Some c -> cbyte s (cr s + Z.of_nat i) = c;
  a_nl : 10 ∉ edt }.

Lemma slot_u32 x : slot (u32 x) = slot x.
Proof.
  unfold slot, wrap, INPUT_BUF_SIZE. f_equal. change (2 ^ 32) with (128 * 33554432).
  rewrite Z.rem_mul_r by lia. rewrite Z.mul_comm, Z.mod_add by lia. by rewrite Z.mod_mod.
Qed.

Lemma u32_diff a k : 0 <= a < 2 ^ 32 -> 0 <= k < 2 ^ 32 -> u32 (u32 (a + k) - a) = k.
Proof.
  intros Ha Hk. unfold wrap. rewrite Zminus_mod_idemp_l. replace (a + k - a) with k by lia.
  by apply Z.mod_small.
Qed.

Lemma u32_inj a i j : 0 <= i < 2 ^ 32 -> 0 <= j < 2 ^ 32 -> u32 (a + i) = u32 (a + j) -> i = j.
Proof.
  intros Hi Hj H. unfold wrap in H.
  assert (((a + i) - (a + j)) mod 2 ^ 32 = 0) as E by (rewrite Zminus_mod, H, Z.sub_diag; done).
  apply Z.mod_divide in E as [q Hq]; [|lia]. nia.
Qed.

Lemma u32_pred a k : u32 (u32 (a + (k + 1)) - 1) = u32 (a + k).
Proof. unfold wrap. rewrite Zminus_mod_idemp_l. f_equal. lia. Qed.

Lemma u32_succ a k : u32 (u32 (a + k) + 1) = u32 (a + (k + 1)).
Proof. unfold wrap. rewrite Zplus_mod_idemp_l. f_equal. lia. Qed.

Lemma abs_len s com edt :
  abs s com edt -> u32 (ce s - cr s) = Z.of_nat (length com + length edt).
Proof.
  intros A. pose proof (a_size _ _ _ A). rewrite (a_e _ _ _ A). apply u32_diff; [apply A|lia].
Qed.

Lemma abs_ew s com edt : abs s com edt -> (ce s =? cw s) = match edt with [] => true | _ => false end.
Proof.
  intros A. pose proof (a_size _ _ _ A). rewrite (a_e _ _ _ A), (a_w _ _ _ A).
  destruct edt as [|c edt]; [rewrite Nat.add_0_r; apply Z.eqb_refl|].
  apply Z.eqb_neq. intros E. apply u32_inj in E; cbn in *; lia.
Qed.

Lemma abs_rw s com edt : abs s com edt -> (cr s =? cw s) = match com with [] => true | _ => false end.
Proof.
  intros A. pose proof (a_size _ _ _ A). rewrite (a_w _ _ _ A). pose proof (a_r _ _ _ A).
  destruct com as [|c com].
  - rewrite Z.add_0_r, (wrap_small 32) by lia. apply Z.eqb_refl.
  - apply Z.eqb_neq. intros E. rewrite <- (wrap_small 32 (cr s)) in E at 1 by lia.
    replace (cr s) with (cr s + 0) in E at 1 by lia. apply u32_inj in E; cbn in *; lia.
Qed.

(** Erasing the last character of the line. *)
Lemma abs_erase s com edt c :
  abs s com (edt ++ [c]) ->
  cbyte s (u32 (ce s - 1)) = c /\ abs (set_e (u32 (ce s - 1)) s) com edt.
Proof.
  intros A. pose proof (a_size _ _ _ A) as Hsz. pose proof (a_e _ _ _ A) as He.
  rewrite length_app in Hsz, He. cbn in Hsz, He.
  replace (Z.of_nat (length com + (length edt + 1))) with (Z.of_nat (length com + length edt) + 1) in He by lia.
  assert (E : u32 (ce s - 1) = u32 (cr s + Z.of_nat (length com + length edt))) by (rewrite He; apply u32_pred).
  rewrite E. split.
  - unfold cbyte. rewrite slot_u32. apply (a_bytes _ _ _ A).
    rewrite (assoc_L (++)). apply list_lookup_middle. by rewrite length_app.
  - split; cbn; try apply A; [done|lia| |].
    + intros i x Hx. apply (a_bytes _ _ _ A). rewrite (assoc_L (++)). by apply lookup_app_l_Some.
    + intros H. apply (a_nl _ _ _ A). set_solver.
Qed.

Lemma abs_out s com edt o : abs s com edt -> abs (mkCons (cbuf s) (cr s) (cw s) (ce s) o) com edt.
Proof. intros A. by split; try apply A. Qed.

Lemma consputc_rubout s : consputc BACKSPACE s = mkCons (cbuf s) (cr s) (cw s) (ce s) (out s ++ rubout).
Proof. unfold consputc, uartputc_sync. cbn. by rewrite <- !(assoc_L (++)). Qed.

Lemma kill_loop_spec n s com edt :
  abs s com edt -> (length edt < n)%nat ->
  exists s', kill_loop n s = Ret s' /\ abs s' com [] /\
    out s' = out s ++ concat (replicate (length edt) rubout).
Proof.
  revert s edt. induction n as [|n IH]; intros s edt A Hn; [lia|]. cbn [kill_loop].
  rewrite (abs_ew _ _ _ A). destruct edt as [|c0 edt0] eqn:E.
  - exists s. split; [done|]. split; [done|]. by rewrite app_nil_r.
  - destruct (exists_last (l := c0 :: edt0) ltac:(done)) as (edt' & c & E'). rewrite E' in *.
    destruct (abs_erase _ _ _ _ A) as [Hb A']. rewrite Hb.
    assert (c <> 10) by (pose proof (a_nl _ _ _ A); set_solver).
    rewrite (proj2 (Z.eqb_neq _ _)) by done. cbn [negb andb].
    rewrite consputc_rubout. rewrite length_app in Hn. cbn in Hn.
    destruct (IH _ edt' (abs_out _ _ _ (out (set_e (u32 (ce s - 1)) s) ++ rubout) A')) as (s' & -> & A'' & Ho); [lia|].
    exists s'. split; [done|]. split; [done|]. rewrite Ho. cbn [out set_e].
    rewrite length_app, Nat.add_comm. cbn. by rewrite <- !(assoc_L (++)).
Qed.

(** Typing a character. *)
Lemma abs_type s com edt c :
  abs s com edt -> (length com + length edt < 128)%nat -> 0 <= c < 256 ->
  let s1 := set_e (u32 (ce s + 1)) (put_byte (ce s) c s) in
  length (cbuf s1) = 128%nat /\ ce s1 = u32 (cr s + Z.of_nat (length com + length (edt ++ [c]))) /\
  (forall i x, (com ++ edt ++ [c]) !! i = Some x -> cbyte s1 (cr s + Z.of_nat i) = x).
Proof.
  intros A Hlt Hc s1. pose proof (a_buf _ _ _ A) as Hb. pose proof (a_e _ _ _ A) as He.
  set (k := (length com + length edt)%nat) in *.
  assert (Hs : slot (ce s) = slot (cr s + Z.of_nat k)) by (rewrite He; apply slot_u32).
  assert (Hrange : forall x, (slot x < 128)%nat).
  { intros x. unfold slot, INPUT_BUF_SIZE. pose proof (Z.mod_pos_bound x 128). lia. }
  split; [cbn; by rewrite length_insert|]. split.
  { cbn. rewrite He, u32_succ. do 2 f_equal. rewrite length_app. cbn. lia. }
  intros i x Hx. rewrite (assoc_L (++)) in Hx. unfold cbyte, s1, put_byte. cbn [cbuf set_e]. rewrite Hs.
  assert (Hi : (i < S k)%nat).
  { apply lookup_lt_Some in Hx. rewrite !length_app in Hx. cbn in Hx. lia. }
  destruct (decide (i = k)) as [->|Hne].
  - rewrite (list_lookup_middle (com ++ edt) [] c k) in Hx by (by rewrite length_app).
    injection Hx as <-. rewrite nth_lookup, list_lookup_insert_eq by (rewrite Hb; apply Hrange).
    cbn. by apply (wrap_small 8).
  - rewrite nth_lookup, list_lookup_insert_ne, <- nth_lookup.
    + rewrite lookup_app_l in Hx by (rewrite length_app; lia). by apply (a_bytes _ _ _ A).
    + intros E. unfold slot, INPUT_BUF_SIZE in E.
      assert (((cr s + Z.of_nat k) - (cr s + Z.of_nat i)) mod 128 = 0) as Em.
      { pose proof (Z.mod_pos_bound (cr s + Z.of_nat k) 128). pose proof (Z.mod_pos_bound (cr s + Z.of_nat i) 128).
        rewrite Zminus_mod. replace ((cr s + Z.of_nat k) mod 128) with ((cr s + Z.of_nat i) mod 128) by lia.
        by rewrite Z.sub_diag. }
      apply Z.mod_divide in Em as [q Hq]; [|lia]. nia.
Qed.

(** A key from the UART is a byte. *)
Lemma consoleintr_spec c s com edt :
  abs s com edt -> 0 <= c < 256 ->
  let '((com', edt'), echo, wk) := key c (com, edt) in
  exists s', consoleintr c s = Ret (s', wk) /\ abs s' com' edt' /\ out s' = out s ++ echo.
Proof.
  intros A Hc. unfold key, consoleintr.
  destruct (c =? ctl 80); [exists s; by rewrite app_nil_r|].
  destruct (c =? ctl 85).
  { pose proof (a_size _ _ _ A). destruct (kill_loop_spec (Z.to_nat INPUT_BUF_SIZE + 1) s com edt A)
      as (s' & -> & A' & Ho); [unfold INPUT_BUF_SIZE; lia|]. by exists s'. }
  destruct ((c =? ctl 72) || (c =? 127)).
  { rewrite (abs_ew _ _ _ A). destruct edt as [|c0 edt0]; [exists s; by rewrite app_nil_r|].
    destruct (exists_last (l := c0 :: edt0) ltac:(done)) as (edt' & x & E). rewrite E in *.
    destruct (abs_erase _ _ _ _ A) as [_ A']. rewrite removelast_last. cbn [negb].
    destruct (edt' ++ [x]) as [|y l] eqn:E2; [by destruct edt'|].
    rewrite consputc_rubout. eexists. split; [done|]. split; [by apply abs_out|done]. }
  rewrite (abs_len _ _ _ A).
  destruct (negb (c =? 0) && (Z.of_nat (length com + length edt) <? INPUT_BUF_SIZE)) eqn:E.
  2: { exists s. by rewrite app_nil_r. }
  apply andb_prop in E as [_ E]. unfold INPUT_BUF_SIZE in E. apply Z.ltb_lt in E.
  set (d := if c =? 13 then 10 else c). assert (Hd : 0 <= d < 256) by (unfold d; destruct (c =? 13); lia).
  assert (Hput : consputc d s = mkCons (cbuf s) (cr s) (cw s) (ce s) (out s ++ [d])).
  { unfold consputc, uartputc_sync, BACKSPACE. rewrite (proj2 (Z.eqb_neq _ _)) by lia.
    by rewrite (wrap_small 8) by lia. }
  rewrite Hput. pose proof (abs_out _ _ _ (out s ++ [d]) A) as A1.
  set (s1 := mkCons (cbuf s) (cr s) (cw s) (ce s) (out s ++ [d])) in *.
  destruct (abs_type s1 com edt d A1) as (B1 & B2 & B3); [lia|done|].
  set (s2 := set_e (u32 (ce s1 + 1)) (put_byte (ce s1) d s1)) in *.
  pose proof (a_r _ _ _ A) as Hr.
  assert (Hlen : u32 (ce s2 - cr s2) = Z.of_nat (length com + length (edt ++ [d]))).
  { rewrite B2. apply u32_diff; [done|]. rewrite length_app. cbn. lia. }
  assert (Hsz : (length com + length (edt ++ [d]) <= 128)%nat) by (rewrite length_app; cbn; lia).
  rewrite Hlen.
  destruct ((d =? 10) || (d =? ctl 68) || (Z.of_nat (length com + length (edt ++ [d])) =? INPUT_BUF_SIZE)) eqn:Ew.
  - eexists. split; [done|]. split; [|done]. split; cbn [set_w cbuf cr cw ce]; try done.
    + by rewrite B2, (length_app com).
    + by rewrite B2, (length_app com), Nat.add_0_r.
    + rewrite (length_app com). cbn [length]. lia.
    + rewrite app_nil_r. exact B3.
    + set_solver.
  - eexists. split; [done|]. split; [|done]. split; try done; try apply A1.
    apply orb_false_iff in Ew as [Ew _]. apply orb_false_iff in Ew as [Ew _]. apply Z.eqb_neq in Ew.
    pose proof (a_nl _ _ _ A). set_solver.
Qed.

(** Taking a byte out. *)
Lemma abs_take s c com edt :
  abs s (c :: com) edt -> cbyte s (cr s) = c /\ abs (set_r (u32 (cr s + 1)) s) com edt.
Proof.
  intros A. split.
  - rewrite <- (Z.add_0_r (cr s)). by apply (a_bytes _ _ _ A 0%nat).
  - pose proof (a_size _ _ _ A) as Hsz. cbn in Hsz.
    assert (Hu : forall k, u32 (u32 (cr s + 1) + k) = u32 (cr s + (1 + k))).
    { intros k. unfold wrap. rewrite Zplus_mod_idemp_l. f_equal. lia. }
    split; cbn [set_r cbuf cr cw ce]; try apply A.
    + unfold wrap. apply Z.mod_pos_bound. lia.
    + rewrite Hu, (a_w _ _ _ A). cbn [length]. do 2 f_equal. lia.
    + rewrite Hu, (a_e _ _ _ A). cbn [length]. do 2 f_equal. lia.
    + lia.
    + intros i x Hx. unfold cbyte. cbn [cbuf]. rewrite <- slot_u32, Hu, slot_u32.
      replace (cr s + (1 + Z.of_nat i)) with (cr s + Z.of_nat (S i)) by lia.
      by apply (a_bytes _ _ _ A (S i)).
Qed.

Lemma console_read_loop_spec kl dst n target s com edt :
  abs s com edt ->
  let '(e, bs, com') := take_line kl dst n target com in
  exists s', read_loop kl dst n target s = (e, bs, s') /\ abs s' com' edt /\ out s' = out s.
Proof.
  revert s com. induction n as [|n IH]; intros s com A; cbn [take_line read_loop]; [by exists s|].
  rewrite (abs_rw _ _ _ A). destruct com as [|c com]; [destruct kl; by exists s|].
  destruct (abs_take _ _ _ _ A) as [-> A']. destruct (c =? ctl 68).
  { destruct (S n <? target)%nat; [|by eexists].
    eexists. split; [done|]. split; [|done]. cbn [cr set_r].
    replace (set_r (u32 (u32 (cr s + 1) - 1)) (set_r (u32 (cr s + 1)) s)) with s; [done|].
    destruct s as [b r w e o]. unfold set_r. cbn. f_equal. pose proof (a_r _ _ _ A) as Hr. cbn in Hr.
    unfold wrap. rewrite Zminus_mod_idemp_l. replace (r + 1 - 1) with r by lia.
    rewrite Z.mod_small by lia. done. }
  destruct (negb (dst (target - S n)%nat)); [by eexists|].
  destruct (c =? 10); [by eexists|].
  specialize (IH _ _ A'). destruct (take_line kl dst n target com) as [[e bs] com'].
  destruct IH as (s' & -> & A'' & Ho). by exists s'.
Qed.

(** ** Sequences of keys and reads *)

Inductive ev := Key (c : Z) | Read (kl : bool) (dst : nat -> bool) (n target : nat).
(** What is seen of an event: whether readers were woken; how a read ended and what it
    delivered. *)
Inductive obs := Woke (b : bool) | Got (e : rd_end) (bs : list Z).

Fixpoint crun (es : list ev) (s : cons_t) : res (list obs * cons_t) :=
  match es with
  | [] => Ret ([], s)
  | Key c :: es' =>
      match consoleintr c s with
      | Ret (s1, wk) =>
          match crun es' s1 with
          | Ret (os, s2) => Ret (Woke wk :: os, s2) | Panic e => Panic e | Undef e => Undef e
          end
      | Panic e => Panic e | Undef e => Undef e
      end
  | Read kl dst n target :: es' =>
      let '(e, bs, s1) := consoleread kl dst n target s in
      match crun es' s1 with
      | Ret (os, s2) => Ret (Got e bs :: os, s2) | Panic e => Panic e | Undef e => Undef e
      end
  end.

(** The same on the line discipline, with everything echoed. *)
Fixpoint srun (es : list ev) (a : lines) : list obs * lines * list Z :=
  match es with
  | [] => ([], a, [])
  | Key c :: es' =>
      let '(a1, echo, wk) := key c a in
      let '(os, a2, echo') := srun es' a1 in (Woke wk :: os, a2, echo ++ echo')
  | Read kl dst n target :: es' =>
      let '(e, bs, com) := take_line kl dst n target (fst a) in
      let '(os, a2, echo') := srun es' (com, snd a) in (Got e bs :: os, a2, echo')
  end.

Definition key_ok (e : ev) : Prop := match e with Key c => 0 <= c < 256 | _ => True end.

(** [consoleinit], with any contents of the static buffer. *)
Definition consoleinit (junk : list Z) : cons_t := mkCons junk 0 0 0 [].

Lemma crun_srun es s com edt :
  abs s com edt -> Forall key_ok es ->
  exists s', crun es s = Ret ((srun es (com, edt)).1.1, s') /\
    abs s' (srun es (com, edt)).1.2.1 (srun es (com, edt)).1.2.2 /\
    out s' = out s ++ (srun es (com, edt)).2.
Proof.
  intros A H. revert s com edt A.
  induction H as [|e es He _ IH]; intros s com edt A; cbn [crun srun].
  - exists s. cbn. by rewrite app_nil_r.
  - destruct e as [c|kl dst n target].
    + pose proof (consoleintr_spec c s com edt A He) as H.
      destruct (key c (com, edt)) as [[[com1 edt1] echo] wk]. destruct H as (s1 & -> & A1 & O1).
      destruct (IH s1 com1 edt1 A1) as (s2 & -> & A2 & O2).
      destruct (srun es (com1, edt1)) as [[os a2] echo']. exists s2. cbn in *.
      split; [done|]. split; [done|]. by rewrite O2, O1, <- (assoc_L (++)).
    + pose proof (console_read_loop_spec kl dst n target s com edt A) as H. unfold consoleread. cbn [fst snd].
      destruct (take_line kl dst n target com) as [[e bs] com1]. destruct H as (s1 & -> & A1 & O1).
      destruct (IH s1 com1 edt A1) as (s2 & -> & A2 & O2).
      destruct (srun es (com1, edt)) as [[os a2] echo']. exists s2. cbn in *.
      split; [done|]. split; [done|]. by rewrite O2, O1.
Qed.

Lemma init_abs junk : length junk = 128%nat -> abs (consoleinit junk) [] [].
Proof. intros H. split; cbn; try done; try lia. set_solver. Qed.

(** C26: the console implements its line discipline.  For every sequence of keys and reads,
    also after the [uint] indices wrap, the ring buffer gives the same reads, the same
    wakeups and the same echo as two plain lists: completed input, oldest first, and the
    line being edited. *)
Theorem console_refines junk es :
  length junk = 128%nat -> Forall key_ok es ->
  exists s', crun es (consoleinit junk) = Ret ((srun es ([], [])).1.1, s') /\
    out s' = (srun es ([], [])).2 /\
    abs s' (srun es ([], [])).1.2.1 (srun es ([], [])).1.2.2.
Proof.
  intros Hj He. destruct (crun_srun es _ [] [] (init_abs junk Hj) He) as (s' & H1 & H2 & H3).
  by exists s'.
Qed.

(** *** A typed line *)

(** The line a sequence of keys leaves: backspace and delete erase, control-U kills. *)
Definition edit (l : list Z) (c : Z) : list Z :=
  if c =? ctl 85 then [] else if (c =? ctl 72) || (c =? 127) then removelast l else l ++ [c].
Definition edited (ks : list Z) : list Z := foldl edit [] ks.

(** Keys that do not end the line. *)
Definition in_line (c : Z) : Prop :=
  0 < c < 256 /\ c <> ctl 80 /\ c <> 10 /\ c <> 13 /\ c <> ctl 68.

Lemma edit_length l c : (length (edit l c) <= S (length l))%nat.
Proof.
  unfold edit. destruct (c =? ctl 85); [cbn; lia|]. destruct (_ || _); [|rewrite length_app; cbn; lia].
  rewrite removelast_firstn_len, length_firstn. lia.
Qed.

Lemma edit_line l c :
  in_line c -> (forall x, x ∈ l -> x <> 10 /\ x <> 4) -> forall x, x ∈ edit l c -> x <> 10 /\ x <> 4.
Proof.
  intros (_ & _ & H1 & _ & H2) Hl x Hx. unfold edit in Hx.
  destruct (c =? ctl 85); [set_solver|]. destruct ((c =? ctl 72) || (c =? 127)).
  - apply Hl. rewrite removelast_firstn_len in Hx. apply elem_of_take in Hx as (i & Hx & _).
    by eapply list_elem_of_lookup_2.
  - apply elem_of_app in Hx as [Hx|Hx]; [by apply Hl|]. apply list_elem_of_singleton in Hx as ->. done.
Qed.

Lemma key_edit c com edt :
  in_line c -> (length com + S (length edt) < 128)%nat ->
  exists echo, key c (com, edt) = ((com, edit edt c), echo, false).
Proof.
  intros (Hc & Hp & Hn & Hr & Hd) Hlen. unfold key, edit.
  rewrite (proj2 (Z.eqb_neq _ _) Hp). destruct (c =? ctl 85); [eauto|].
  destruct ((c =? ctl 72) || (c =? 127)); [destruct edt; eauto|].
  rewrite (proj2 (Z.eqb_neq c 0)), (proj2 (Z.ltb_lt _ _)) by (unfold INPUT_BUF_SIZE; lia). cbn [negb andb].
  rewrite (proj2 (Z.eqb_neq _ _) Hr), (proj2 (Z.eqb_neq _ _) Hn), (proj2 (Z.eqb_neq _ _) Hd). cbn [orb].
  rewrite (proj2 (Z.eqb_neq _ _)) by (rewrite length_app; unfold INPUT_BUF_SIZE; cbn; lia). eauto.
Qed.

Lemma srun_typing ks : forall com edt rest,
  Forall in_line ks -> (length com + length edt + length ks < 128)%nat ->
  exists os echo, (length os = length ks) /\ srun ((Key <$> ks) ++ rest) (com, edt) =
    (os ++ (srun rest (com, foldl edit edt ks)).1.1, (srun rest (com, foldl edit edt ks)).1.2,
     echo ++ (srun rest (com, foldl edit edt ks)).2).
Proof.
  induction ks as [|c ks IH]; intros com edt rest Hks Hlen.
  - exists [], []. cbn. by destruct (srun rest (com, edt)) as [[? ?] ?].
  - apply list.Forall_cons in Hks as [Hc Hks]. cbn [length] in Hlen.
    destruct (key_edit c com edt Hc) as [echo Ek]; [lia|].
    pose proof (edit_length edt c).
    destruct (IH com (edit edt c) rest Hks) as (os & echo' & Hl & E); [lia|].
    exists (Woke false :: os), (echo ++ echo'). split; [cbn; lia|].
    cbn [fmap list_fmap app srun foldl]. change (list_fmap Z ev Key ks) with (Key <$> ks).
    rewrite Ek, E. by rewrite <- (assoc_L (++)).
Qed.

Lemma take_line_line n target l rest :
  (forall x, x ∈ l -> x <> 10 /\ x <> 4) -> (length l < n <= target)%nat ->
  take_line false (fun _ => true) n target (l ++ 10 :: rest) =
  (RdDone (Z.of_nat target - Z.of_nat n + Z.of_nat (length l) + 1), l ++ [10], rest).
Proof.
  revert n. induction l as [|c l IH]; intros n Hl Hn; (destruct n as [|n]; [cbn in Hn; lia|]); cbn [take_line app].
  - change (10 =? ctl 68) with false. cbn [negb]. change (10 =? 10) with true. cbv iota.
    do 3 f_equal. cbn [length]. lia.
  - destruct (Hl c) as [H1 H2]; [left|]. unfold ctl. rewrite (proj2 (Z.eqb_neq _ _) H1).
    change (68 - 64) with 4. rewrite (proj2 (Z.eqb_neq _ _) H2). cbn [negb].
    rewrite IH; [|intros x Hx; apply Hl; by right|cbn in Hn; lia]. cbn [length]. do 3 f_equal. lia.
Qed.

Lemma edited_line ks : Forall in_line ks -> forall x, x ∈ edited ks -> x <> 10 /\ x <> 4.
Proof.
  unfold edited. enough (forall l, (forall x, x ∈ l -> x <> 10 /\ x <> 4) -> Forall in_line ks ->
    forall x, x ∈ foldl edit l ks -> x <> 10 /\ x <> 4) as H by (intros; eapply H; eauto; set_solver).
  induction ks as [|c ks IH]; intros l Hl Hks; cbn; [done|].
  apply list.Forall_cons in Hks as [Hc Hks]. apply IH; [|done]. by apply edit_line.
Qed.

(** A line typed with corrections is read as corrected.  From the start, after fewer
    than 127 keys and Return, a read with enough room delivers exactly the edited line
    with its newline, and a read made before Return delivers nothing and sleeps. *)
Theorem console_line junk ks n :
  length junk = 128%nat -> Forall in_line ks -> (length ks < 127)%nat ->
  (length (edited ks) < n)%nat ->
  exists os s1,
    crun ((Key <$> ks) ++ [Read false (fun _ => true) n n; Key 13; Read false (fun _ => true) n n])
         (consoleinit junk) =
    Ret (os ++ [Got (RdAsleep n) []; Woke true;
                Got (RdDone (Z.of_nat (length (edited ks)) + 1)) (edited ks ++ [10])], s1) /\
    length os = length ks /\ abs s1 [] [].
Proof.
  intros Hj Hks Hlen Hn.
  set (rest := [Read false (fun _ => true) n n; Key 13; Read false (fun _ => true) n n]).
  assert (He : Forall key_ok ((Key <$> ks) ++ rest)).
  { apply list.Forall_app. split; [|repeat constructor; cbn; lia].
    apply list.Forall_fmap. eapply list.Forall_impl; [exact Hks|]. intros c Hc. cbn. destruct Hc. lia. }
  destruct (crun_srun _ _ [] [] (init_abs junk Hj) He) as (s' & E & A & _).
  destruct (srun_typing ks [] [] rest Hks) as (os & echo & Hl & Es); [cbn; lia|].
  fold (edited ks) in Es. rewrite Es in E, A. cbn [fst snd] in E, A.
  assert (Hel : (length (edited ks) <= length ks)%nat).
  { unfold edited. enough (forall l, (length (foldl edit l ks) <= length l + length ks)%nat) as H by apply (H []).
    clear. induction ks as [|c ks IH]; intros l; cbn; [lia|].
    specialize (IH (edit l c)). pose proof (edit_length l c). lia. }
  assert (Er : srun rest ([], edited ks) =
    ([Got (RdAsleep n) []; Woke true;
      Got (RdDone (Z.of_nat (length (edited ks)) + 1)) (edited ks ++ [10])], ([], []), [10])).
  { unfold rest. cbn [srun fst snd]. replace (take_line false (fun _ => true) n n []) with (RdAsleep n, @nil Z, @nil Z)
      by (destruct n; [lia|done]).
    cbv beta iota zeta. unfold key.
    change (13 =? ctl 80) with false. change (13 =? ctl 85) with false.
    change ((13 =? ctl 72) || (13 =? 127)) with false. cbn [length Nat.add].
    rewrite (proj2 (Z.ltb_lt _ _)) by (unfold INPUT_BUF_SIZE; lia).
    change (negb (13 =? 0) && true) with true. cbv beta iota zeta.
    change (13 =? 13) with true. cbv iota. change (10 =? 10) with true. cbn [orb srun fst snd app].
    rewrite take_line_line; [|by apply edited_line|lia].
    replace (Z.of_nat n - Z.of_nat n + Z.of_nat (length (edited ks)) + 1) with
      (Z.of_nat (length (edited ks)) + 1) by lia. done. }
  rewrite Er in E, A. exists os, s'. split; [exact E|]. by split.
Qed.

Definition demo_junk : list Z := replicate 128 0.

Lemma console_refines_witness :
  exists s', crun [Key 97; Key 4; Read false (fun _ => true) 5 5; Read false (fun _ => true) 5 5]
                  (consoleinit demo_junk) =
             Ret ([Woke false; Woke true; Got (RdDone 1) [97]; Got (RdDone 0) []], s').
Proof.
  destruct (console_refines demo_junk [Key 97; Key 4; Read false (fun _ => true) 5 5;
    Read false (fun _ => true) 5 5]) as (s' & H & _); [reflexivity| |].
  { repeat (apply list.Forall_cons; split; [cbn; first [lia|exact I]|]). constructor. }
  exists s'. exact H.
Defined.

Lemma console_line_witness :
  exists os s1,
    crun ((Key <$> [108; 120; 8; 115]) ++ [Read false (fun _ => true) 100 100; Key 13;
           Read false (fun _ => true) 100 100]) (consoleinit demo_junk) =
    Ret (os ++ [Got (RdAsleep 100) []; Woke true; Got (RdDone 3) [108; 115; 10]], s1) /\
    length os = 4%nat /\ abs s1 [] [].
Proof.
  apply (console_line demo_junk [108; 120; 8; 115] 100); [reflexivity| |cbn; lia|vm_compute; lia].
  repeat (apply list.Forall_cons; split; [unfold in_line, ctl; lia|]). constructor.
Defined.

(** [consolewrite] sends the user's bytes in order, up to the first batch it cannot copy in,
    and returns how many it sent. *)
Theorem consolewrite_prefix data ok s :
  exists k s', consolewrite (fun i m => if ok i : bool then Some (take m (drop i data)) else None)
                            (length data) s = Ret (Z.of_nat k, s') /\
    out s' = out s ++ take k data /\ (k <= length data)%nat /\
    (k = length data \/ ok k = false).
Proof.
  unfold consolewrite. set (src := fun i m => _).
  enough (forall f i s, (i <= length data)%nat -> (length data - i < f)%nat ->
    exists k s', write_loop f src i (length data) s = Ret (Z.of_nat k, s') /\
      out s' = out s ++ take (k - i) (drop i data) /\ (i <= k <= length data)%nat /\
      (k = length data \/ ok k = false)) as H.
  { destruct (H (S (length data)) 0%nat s) as (k & s' & E & Ho & Hk & Hl); [lia|lia|].
    exists k, s'. rewrite Nat.sub_0_r in Ho. split; [done|]. split; [done|]. split; [lia|done]. }
  clear s. induction f as [|f IH]; intros i s Hi Hf; [lia|]. cbn [write_loop].
  destruct (Nat.ltb_spec i (length data)) as [Hlt|Hge].
  2: { exists i, s. rewrite Nat.sub_diag, take_0, app_nil_r. split; [done|]. split; [done|]. split; [lia|left; lia]. }
  unfold src at 1. destruct (ok i) eqn:Ho.
  2: { exists i, s. rewrite Nat.sub_diag, take_0, app_nil_r. split; [done|]. split; [done|]. split; [lia|by right]. }
  set (nn := if (length data - i <? 32)%nat then (length data - i)%nat else 32%nat).
  assert (Hnn : (0 < nn <= length data - i)%nat).
  { unfold nn. destruct (Nat.ltb_spec (length data - i) 32); lia. }
  destruct (IH (i + nn)%nat (mkCons (cbuf s) (cr s) (cw s) (ce s) (out s ++ take nn (drop i data))))
    as (k & s' & E & Hout & Hk & Hl); [lia|lia|].
  exists k, s'. split; [done|]. split; [|split; [lia|done]]. rewrite Hout. cbn [out].
  rewrite <- (assoc_L (++)). f_equal. replace (k - i)%nat with (nn + (k - (i + nn)))%nat by lia.
  rewrite <- drop_drop. rewrite take_take_drop. done.
Qed.
