(* ===== verification/Uart.v ===== *)
(** * The serial line: [kernel/uart.c]

    Two kinds of code write to the transmit register: [uartwrite], for [write] calls, which sleeps while [tx_busy] is
    set and is woken by [uartintr], and [uartputc_sync], for [printk] and echo, which polls the line
    status and takes no lock.  Both run on several harts at once.  Each event below is the
    code between two accesses to the device that others can see; the code under [tx_lock] makes one such access.
    The device is a 16550: [depth] is the size of its transmit FIFO, the line status is idle when that is empty, and it
    raises an interrupt when it becomes so.  [panicking] is 0. *)

From S2P Require Import Prelude.

(** ** Registers *)

Definition THR : Z := 0.
Definition IER : Z := 1.
Definition IER_RX_ENABLE : Z := Z.shiftl 1 0.
Definition IER_TX_ENABLE : Z := Z.shiftl 1 1.
Definition FCR : Z := 2.
Definition FCR_FIFO_ENABLE : Z := Z.shiftl 1 0.
Definition FCR_FIFO_CLEAR : Z := Z.shiftl 3 1.
Definition LCR : Z := 3.
Definition LCR_EIGHT_BITS : Z := Z.shiftl 3 0.
Definition LCR_BAUD_LATCH : Z := Z.shiftl 1 7.

(** What [uartinit] writes to the registers, in order. *)
Definition uartinit : list (Z * Z) :=
  [(IER, 0); (LCR, LCR_BAUD_LATCH); (0, 3); (1, 0); (LCR, LCR_EIGHT_BITS);
   (FCR, Z.lor FCR_FIFO_ENABLE FCR_FIFO_CLEAR); (IER, Z.lor IER_TX_ENABLE IER_RX_ENABLE)].

(** ** Who writes *)

Inductive who := Sync (h : nat) | Write (t : nat).
#[export] Instance who_eq_dec : EqDecision who.
Proof. solve_decision. Defined.

(** What a hart does in [uartintr]: nothing, it has read [ISR], it is in the loop that reads characters. *)
Inductive phase := Out | Acked | Draining.
(** [todo] are bytes for [uartputc_sync]; [ready] that [LSR_TX_IDLE] was seen for the first of them. *)
Record hart := mkHart { ph : phase; todo : list Z; ready : bool }.
(** A thread in [uartwrite]: [buf[i..n-1]], and whether it is in [sleep]. *)
Record thread := mkTh { rest : list Z; asleep : bool }.

Record uart := mkUart {
  fifo : list (who * Z); line : list (who * Z); lost : list (who * Z);
  rx : list Z; irq_tx : bool; got : list Z;
  tx_busy : bool; harts : list hart; threads : list thread
}.

Definition set_harts hs s := mkUart (fifo s) (line s) (lost s) (rx s) (irq_tx s) (got s) (tx_busy s) hs (threads s).
Definition set_threads ts s := mkUart (fifo s) (line s) (lost s) (rx s) (irq_tx s) (got s) (tx_busy s) (harts s) ts.
Definition set_busy b s := mkUart (fifo s) (line s) (lost s) (rx s) (irq_tx s) (got s) b (harts s) (threads s).
Definition set_irq b s := mkUart (fifo s) (line s) (lost s) (rx s) b (got s) (tx_busy s) (harts s) (threads s).

Section Uart.
Context (depth : nat).

(** [ReadReg(LSR) & LSR_TX_IDLE] *)
Definition idle (s : uart) : bool := match fifo s with [] => true | _ => false end.
(** [WriteReg(THR, c)]; a byte that finds the FIFO full is lost. *)
Definition write_thr (w : who) (c : Z) (s : uart) : uart :=
  if (length (fifo s) <? depth)%nat then mkUart (fifo s ++ [(w, c)]) (line s) (lost s) (rx s) false (got s) (tx_busy s) (harts s) (threads s)
  else mkUart (fifo s) (line s) (lost s ++ [(w, c)]) (rx s) (irq_tx s) (got s) (tx_busy s) (harts s) (threads s).

(** The loop of [uartwrite], up to its end or a [sleep]: what is left of [buf]. *)
Fixpoint uartwrite_loop (t : nat) (buf : list Z) (s : uart) : list Z * uart :=
  match buf with
  | [] => ([], s)
  | c :: buf' => if tx_busy s then (buf, s) else uartwrite_loop t buf' (set_busy true (write_thr (Write t) c s))
  end.
Definition uartwrite (t : nat) (buf : list Z) (s : uart) : uart :=
  let '(buf, s) := uartwrite_loop t buf s in
  set_threads (<[t := mkTh buf (match buf with [] => false | _ => true end)]> (threads s)) s.

Inductive event :=
| Call (t : nat) (buf : list Z)       (* [uartwrite] is called *)
| Resume (t : nat)                    (* after [sleep] *)
| Puts (h : nat) (bs : list Z)        (* [uartputc_sync] for each of [bs] *)
| Lsr (h : nat) | Thr (h : nat)       (* its two accesses *)
| Intr (h : nat) (clears : bool)      (* [uartintr] reads [ISR], which may clear the transmit interrupt *)
| Tx (h : nat)                        (* the code under [tx_lock] *)
| Rx (h : nat)                        (* one round of the loop: [uartgetc] *)
| Send | Recv (c : Z).                (* the device *)

Definition on_hart (h : nat) (p : hart -> bool) (f : hart -> uart) (s : uart) : option uart :=
  match harts s !! h with Some x => if p x then Some (f x) else None | None => None end.
Definition no_todo (x : hart) : bool := match todo x with [] => true | _ => false end.
Definition is_phase (p : phase) (x : hart) : bool :=
  match p, ph x with Out, Out | Acked, Acked | Draining, Draining => true | _, _ => false end.
Definition upd_hart (h : nat) (x : hart) (s : uart) : uart := set_harts (<[h := x]> (harts s)) s.
(** [wakeup(&tx_chan)] *)
Definition wake (s : uart) : uart := set_threads ((fun x => mkTh (rest x) false) <$> threads s) s.

(** What an event does; [None] if it cannot happen.  A hart takes no interrupt while it is in [uartputc_sync], which
    has them off, or in [uartintr]. *)
Definition ustep (e : event) (s : uart) : option uart :=
  match e with
  | Call t buf => match threads s !! t with Some (mkTh [] _) => Some (uartwrite t buf s) | _ => None end
  | Resume t => match threads s !! t with Some (mkTh buf false) => Some (uartwrite t buf s) | _ => None end
  | Puts h bs => on_hart h no_todo (fun x => upd_hart h (mkHart (ph x) bs false) s) s
  | Lsr h => on_hart h (fun x => negb (no_todo x) && negb (ready x)) (fun x => upd_hart h (mkHart (ph x) (todo x) (idle s)) s) s
  | Thr h => on_hart h ready (fun x => match todo x with
      | c :: bs => upd_hart h (mkHart (ph x) bs false) (write_thr (Sync h) c s)
      | [] => s end) s
  | Intr h clears => if irq_tx s || negb (match rx s with [] => true | _ => false end) then
      on_hart h (fun x => no_todo x && is_phase Out x) (fun x => upd_hart h (mkHart Acked [] false) (set_irq (irq_tx s && negb clears) s)) s
    else None
  | Tx h => on_hart h (fun x => no_todo x && is_phase Acked x)
      (fun x => upd_hart h (mkHart Draining [] false) (if idle s then wake (set_busy false s) else s)) s
  | Rx h => on_hart h (fun x => no_todo x && is_phase Draining x) (fun x =>
      match rx s with
      | [] => upd_hart h (mkHart Out [] false) s
      | c :: r => mkUart (fifo s) (line s) (lost s) r (irq_tx s) (got s ++ [c]) (tx_busy s) (harts s) (threads s)
      end) s
  | Send => match fifo s with
      | [] => None
      | x :: f => Some (mkUart f (line s ++ [x]) (lost s) (rx s) (match f with [] => true | _ => irq_tx s end) (got s) (tx_busy s) (harts s) (threads s))
      end
  | Recv c => Some (mkUart (fifo s) (line s) (lost s) (rx s ++ [c]) (irq_tx s) (got s) (tx_busy s) (harts s) (threads s))
  end.

Fixpoint urun (es : list event) (s : uart) : option uart :=
  match es with [] => Some s | e :: es' => match ustep e s with Some s' => urun es' s' | None => None end end.
End Uart.

Definition uart0 (nharts nthreads : nat) : uart :=
  mkUart [] [] [] [] false [] false (replicate nharts (mkHart Out [] false)) (replicate nthreads (mkTh [] false)).

(** ** What was asked for *)

(** The bytes [w] is asked to send by an event, and by a run. *)
Definition req (w : who) (e : event) : list Z :=
  match e, w with
  | Call t buf, Write t' => if decide (t = t') then buf else []
  | Puts h bs, Sync h' => if decide (h = h') then bs else []
  | _, _ => []
  end.
Definition asked (w : who) (es : list event) : list Z := es ≫= req w.

(** The bytes of [w] in a list, and those it still has. *)
Definition bytes_of (w : who) (l : list (who * Z)) : list Z := l ≫= fun p => if decide (p.1 = w) then [p.2] else [].
Definition pending (w : who) (s : uart) : list Z :=
  match w with
  | Sync h => match harts s !! h with Some x => todo x | None => [] end
  | Write t => match threads s !! t with Some x => rest x | None => [] end
  end.

Lemma bytes_of_app w a b : bytes_of w (a ++ b) = bytes_of w a ++ bytes_of w b.
Proof. apply bind_app. Qed.
Lemma bytes_of_one w v c : bytes_of w [(v, c)] = if decide (v = w) then [c] else [].
Proof. unfold bytes_of. cbn. by rewrite app_nil_r. Qed.

(** ** The invariant *)

(** Each hart has at most one byte in the FIFO, and so have all calls of [uartwrite] together. *)
Definition class (w : who) : option nat := match w with Sync h => Some h | Write _ => None end.
Definition classes (s : uart) : list (option nat) := (fun p => class p.1) <$> fifo s.

Record UI (n : nat) (A : who -> list Z) (s : uart) : Prop := {
  ui_lost : lost s = [];
  ui_harts : length (harts s) = n;
  ui_bytes : forall w, A w = bytes_of w (line s) ++ bytes_of w (fifo s) ++ pending w s;
  ui_nodup : NoDup (classes s);
  ui_range : forall h, Some h ∈ classes s -> (h < n)%nat;
  ui_write : None ∈ classes s -> tx_busy s = true;
  ui_ready : forall h x, harts s !! h = Some x -> ready x = true -> Some h ∉ classes s /\ todo x <> [];
  ui_wake : tx_busy s = true -> fifo s <> [] \/ irq_tx s = true \/ exists h x, harts s !! h = Some x /\ ph x = Acked;
  ui_sleep : forall t x, threads s !! t = Some x -> asleep x = true -> tx_busy s = true
}.

Section Inv.
Context (depth n : nat) (Hdepth : (n < depth)%nat).

(** A byte of a class that has none in the FIFO is not lost. *)
Lemma room A s w : UI n A s -> class w ∉ classes s -> (forall h, w = Sync h -> (h < n)%nat) -> (length (fifo s) < depth)%nat.
Proof.
  intros H Hc Hw. assert (length (class w :: classes s) <= length (None :: (Some <$> seq 0 n)))%nat as Hl.
  { apply submseteq_length, NoDup_submseteq; [constructor; [done|apply H]|]. intros x Hx. apply elem_of_cons.
    assert (forall h, x = Some h -> (h < n)%nat) as Hr.
    { intros h ->. apply elem_of_cons in Hx as [Hx|Hx]; [|by apply (ui_range _ _ _ H)]. destruct w; [|done]. injection Hx as <-. by apply Hw. }
    destruct x as [h|]; [right|by left]. apply list_elem_of_fmap. exists h. split; [done|]. apply elem_of_seq. specialize (Hr h eq_refl). lia. }
  unfold classes in Hl. cbn [length] in Hl. rewrite !length_fmap, length_seq in Hl. lia.
Qed.

(** The state after a byte of [w] went into the FIFO; [w] has it no more. *)
Lemma write_thr_run A s w c : UI n A s -> class w ∉ classes s -> (forall h, w = Sync h -> (h < n)%nat) ->
  write_thr depth w c s = mkUart (fifo s ++ [(w, c)]) (line s) (lost s) (rx s) false (got s) (tx_busy s) (harts s) (threads s).
Proof. intros H Hc Hw. unfold write_thr. by rewrite (proj2 (Nat.ltb_lt _ _) (room A s w H Hc Hw)). Qed.

(** A hart changes, and perhaps what it was asked. *)
Lemma UI_hart A A' s h x0 x : UI n A s -> harts s !! h = Some x0 -> (ready x = true -> Some h ∉ classes s /\ todo x <> []) ->
  (ph x0 = Acked -> ph x = Acked \/ tx_busy s = false \/ fifo s <> [] \/ irq_tx s = true) ->
  (forall w, w <> Sync h -> A' w = A w) -> (forall b, A (Sync h) = b ++ todo x0 -> A' (Sync h) = b ++ todo x) ->
  UI n A' (upd_hart h x s).
Proof.
  intros [U1 U2 U3 U4 U5 U6 U7 U8 U9] Hh Hr Hp Ho Hw. pose proof (lookup_lt_Some _ _ _ Hh) as Hlt. split; try done.
  - cbn. by rewrite length_insert.
  - intros w. cbn [line fifo upd_hart set_harts]. destruct (decide (w = Sync h)) as [->|N].
    + rewrite app_assoc. cbn [pending harts upd_hart set_harts]. rewrite list_lookup_insert_eq by done. apply Hw. rewrite U3, app_assoc. cbn [pending]. by rewrite Hh.
    + rewrite Ho, U3 by done. do 2 f_equal. destruct w as [h'|t]; [|done]. cbn [pending harts upd_hart set_harts]. by rewrite list_lookup_insert_ne by (intros ->; done).
  - intros h' y. cbn [harts upd_hart set_harts]. destruct (decide (h' = h)) as [->|N]; [|rewrite list_lookup_insert_ne by done; apply U7].
    rewrite list_lookup_insert_eq by done. intros [= <-]. exact Hr.
  - intros Hb. destruct (U8 Hb) as [H|[H|(h' & y & Hy & Ha)]]; [by left|by right; left|].
    destruct (decide (h' = h)) as [->|N].
    + rewrite Hh in Hy. injection Hy as <-. destruct (Hp Ha) as [H|[H|[H|H]]]; [|cbn in Hb; by rewrite H in Hb|by left|by right; left].
      right. right. exists h, x. cbn. by rewrite list_lookup_insert_eq.
    + right. right. exists h', y. cbn. by rewrite list_lookup_insert_ne.
Qed.

(** A byte goes into the FIFO. *)
Lemma UI_fifo s A w c hs ts busy : UI n A s -> class w ∉ classes s -> (forall h, w = Sync h -> (h < n)%nat) ->
  length hs = n -> (class w = None -> busy = true) -> (tx_busy s = true -> busy = true) ->
  (forall v, pending v s = (if decide (v = w) then [c] else []) ++ pending v (mkUart [] [] [] [] false [] busy hs ts)) ->
  (forall h x, hs !! h = Some x -> ready x = true -> Sync h <> w /\ todo x <> [] /\ exists y, harts s !! h = Some y /\ ready y = true) ->
  (forall t x, ts !! t = Some x -> asleep x = true -> busy = true) ->
  UI n A (mkUart (fifo s ++ [(w, c)]) (line s) (lost s) (rx s) false (got s) busy hs ts).
Proof.
  intros [U1 U2 U3 U4 U5 U6 U7 U8 U9] Hc Hw Hn Hb Hb' Hp Hr Hs.
  assert (forall i, i ∈ classes (mkUart (fifo s ++ [(w, c)]) (line s) (lost s) (rx s) false (got s) busy hs ts) <-> i ∈ classes s \/ i = class w) as Hcl.
  { intros i. unfold classes. cbn [fifo]. rewrite fmap_app, elem_of_app. cbn. by rewrite list_elem_of_singleton. }
  split; try done; cbn [fifo line lost harts threads tx_busy irq_tx].
  - intros v. rewrite U3, Hp, bytes_of_app, bytes_of_one, <- !app_assoc. destruct (decide (w = v)), (decide (v = w)); try congruence; done.
  - unfold classes. cbn [fifo]. rewrite fmap_app. apply list.NoDup_app. split; [done|]. split; [|apply NoDup_singleton].
    intros i Hi ->%list_elem_of_singleton. done.
  - intros h [Hh|Hh]%Hcl; [by apply U5|]. destruct w; [|done]. injection Hh as ->. by apply Hw.
  - intros [H|H]%Hcl; [by apply Hb', U6|by apply Hb].
  - intros h x Hh Hx. destruct (Hr h x Hh Hx) as (N & N' & y & Hy & Ry). split; [|done]. rewrite Hcl. intros [H|H].
    + by destruct (U7 h y Hy Ry).
    + destruct w; [|done]. injection H as ->. done.
  - intros _. left. by destruct (fifo s).
Qed.

Lemma UI_threads A A' s t x y : UI n A s -> threads s !! t = Some x -> (asleep y = true -> tx_busy s = true) ->
  (forall w, w <> Write t -> A' w = A w) -> (forall b, A (Write t) = b ++ rest x -> A' (Write t) = b ++ rest y) ->
  UI n A' (set_threads (<[t := y]> (threads s)) s).
Proof.
  intros [U1 U2 U3 U4 U5 U6 U7 U8 U9] Ht Hy Ho Hw. pose proof (lookup_lt_Some _ _ _ Ht) as Hlt. split; try done.
  - intros w. cbn [line fifo set_threads]. destruct (decide (w = Write t)) as [->|N].
    + rewrite app_assoc. cbn [pending threads set_threads]. rewrite list_lookup_insert_eq by done. apply Hw. rewrite U3, app_assoc. cbn [pending]. by rewrite Ht.
    + rewrite Ho, U3 by done. do 2 f_equal. destruct w as [h'|t']; [done|]. cbn [pending threads set_threads]. by rewrite list_lookup_insert_ne by (intros ->; done).
  - intros t' z. cbn [threads set_threads tx_busy]. destruct (decide (t' = t)) as [->|N]; [|rewrite list_lookup_insert_ne by done; apply U9].
    rewrite list_lookup_insert_eq by done. by intros [= <-].
Qed.

(** [tx_busy] is set after the first byte, so there is at most one. *)
Lemma uartwrite_loop_once t buf s : uartwrite_loop depth t buf s =
  match buf with [] => ([], s) | c :: b => if tx_busy s then (buf, s) else (b, set_busy true (write_thr depth (Write t) c s)) end.
Proof. destruct buf as [|c [|c' b]]; [done|..]; cbn [uartwrite_loop]; by destruct (tx_busy s). Qed.

Lemma UI_uartwrite A A' s t x buf : UI n A s -> threads s !! t = Some x ->
  (forall w, w <> Write t -> A' w = A w) -> (forall b, A (Write t) = b ++ rest x -> A' (Write t) = b ++ buf) -> UI n A' (uartwrite depth t buf s).
Proof.
  intros H Ht Ho Hw. unfold uartwrite. rewrite uartwrite_loop_once. pose proof (lookup_lt_Some _ _ _ Ht) as Hlt. destruct buf as [|c b].
  { by apply (UI_threads A A' s t x). }
  destruct (tx_busy s) eqn:Eb; [by apply (UI_threads A A' s t x)|].
  set (y := mkTh b _). set (s0 := set_threads (<[t := mkTh (c :: b) false]> (threads s)) s).
  assert (UI n A' s0) as H0 by (by apply (UI_threads A A' s t x)). assert (None ∉ classes s) as Hc.
  { intros Hc. apply (ui_write _ _ _ H) in Hc. congruence. }
  rewrite (write_thr_run A s (Write t) c H Hc) by done. cbn [set_busy set_threads threads fifo line lost rx irq_tx got harts].
  apply (UI_fifo s0 A' (Write t) c (harts s) (<[t := y]> (threads s)) true H0 Hc); try done; [apply H| |].
  - intros [h|t']; cbn [pending harts threads s0 set_threads]; [by rewrite decide_False|]. destruct (decide (t' = t)) as [->|N].
    + by rewrite decide_True, !list_lookup_insert_eq.
    + rewrite decide_False by congruence. by rewrite !list_lookup_insert_ne.
  - intros h z Hz Rz. split; [done|]. destruct (ui_ready _ _ _ H h z Hz Rz) as [_ R]. split; [done|]. by exists z.
Qed.

Lemma UI_thr A s h x c bs : UI n A s -> harts s !! h = Some x -> ready x = true -> todo x = c :: bs ->
  UI n A (upd_hart h (mkHart (ph x) bs false) (write_thr depth (Sync h) c s)).
Proof.
  intros H Hh Hr Ht. pose proof (lookup_lt_Some _ _ _ Hh) as Hlt. rewrite (ui_harts _ _ _ H) in Hlt.
  destruct (ui_ready _ _ _ H h x Hh Hr) as [Hc _]. rewrite (write_thr_run A s (Sync h) c H Hc) by (by intros h' [= <-]).
  cbn [upd_hart set_harts threads fifo line lost rx irq_tx got harts tx_busy].
  assert (h < length (harts s))%nat as Hlt' by (by rewrite (ui_harts _ _ _ H)).
  apply (UI_fifo s A (Sync h) c (<[h := mkHart (ph x) bs false]> (harts s)) (threads s) (tx_busy s) H Hc); try done; [by intros h' [= <-]|rewrite length_insert; apply H| | |apply H].
  - intros [h'|t]; cbn [pending harts threads]; [|by rewrite decide_False]. destruct (decide (h' = h)) as [->|N].
    + by rewrite decide_True, list_lookup_insert_eq, Hh, Ht.
    + rewrite decide_False by congruence. by rewrite list_lookup_insert_ne.
  - intros h' y. destruct (decide (h' = h)) as [->|N]; [rewrite list_lookup_insert_eq by done; by intros [= <-]|].
    rewrite list_lookup_insert_ne by done. intros Hy Ry. split; [congruence|]. destruct (ui_ready _ _ _ H h' y Hy Ry) as [_ R]. split; [done|]. by exists y.
Qed.

(** The code of [uartintr] under [tx_lock]. *)
Lemma UI_tx A s h x : UI n A s -> harts s !! h = Some x -> todo x = [] ->
  UI n A (upd_hart h (mkHart Draining [] false) (if idle s then wake (set_busy false s) else s)).
Proof.
  intros H Hh Ht. unfold idle. destruct (fifo s) as [|p f] eqn:Ef.
  - assert (UI n A (wake (set_busy false s))) as Hw.
    { destruct H as [U1 U2 U3 U4 U5 U6 U7 U8 U9]. unfold wake, set_busy, set_threads. cbn [threads]. split; try done; cbn [tx_busy threads harts].
      - intros w. rewrite U3. cbn [line fifo]. do 2 f_equal. destruct w as [|t]; [done|]. cbn [pending threads]. rewrite list_lookup_fmap. by destruct (threads s !! t).
      - unfold classes. cbn [fifo]. rewrite Ef. by intros ?%elem_of_nil.
      - intros t y. rewrite list_lookup_fmap. destruct (threads s !! t); [|done]. by intros [= <-]. }
    apply (UI_hart A A _ h x); try done; [intros _; right; by left|]. intros b Hb. by rewrite Hb, Ht.
  - apply (UI_hart A A _ h x); try done; [intros _; right; right; left; by rewrite Ef|]. intros b Hb. by rewrite Hb, Ht.
Qed.

Lemma UI_irq A s b : UI n A s -> (exists h x, harts s !! h = Some x /\ ph x = Acked) -> UI n A (set_irq b s).
Proof. intros [U1 U2 U3 U4 U5 U6 U7 U8 U9] Ha. split; try done. by right; right. Qed.

Lemma UI_send A s p f : UI n A s -> fifo s = p :: f ->
  UI n A (mkUart f (line s ++ [p]) (lost s) (rx s) (match f with [] => true | _ => irq_tx s end) (got s) (tx_busy s) (harts s) (threads s)).
Proof.
  intros [U1 U2 U3 U4 U5 U6 U7 U8 U9] Ef. unfold classes in *. rewrite Ef in *. cbn [fmap list_fmap] in *. apply list.NoDup_cons in U4 as [_ U4].
  split; try done; unfold classes; cbn [fifo line tx_busy harts irq_tx threads].
  - intros w. rewrite U3, bytes_of_app, <- app_assoc. f_equal. change (p :: f) with ([p] ++ f). by rewrite bytes_of_app, <- app_assoc.
  - intros h Hh. apply U5, elem_of_cons. by right.
  - intros Hh. apply U6, elem_of_cons. by right.
  - intros h x Hh Hx. destruct (U7 h x Hh Hx) as [N N']. split; [|done]. intros Hc. apply N, elem_of_cons. by right.
  - intros _. destruct f; [right; by left|by left].
Qed.

Lemma no_todo_nil x : no_todo x = true -> todo x = [].
Proof. unfold no_todo. by destruct (todo x). Qed.

Lemma on_hart_inv h p f s s' : on_hart h p f s = Some s' -> exists x, harts s !! h = Some x /\ p x = true /\ s' = f x.
Proof. unfold on_hart. destruct (harts s !! h) as [x|]; [|done]. destruct (p x) eqn:E; [|done]. intros [= <-]. eauto. Qed.

Lemma UI_step A e s s' : UI n A s -> ustep depth e s = Some s' -> UI n (fun w => A w ++ req w e) s'.
Proof.
  intros H. assert ((forall w, req w e = []) -> forall s1, UI n A s1 -> UI n (fun w => A w ++ req w e) s1) as Hsame.
  { intros He s1 [U1 U2 U3 U4 U5 U6 U7 U8 U9]. split; try done. intros w. by rewrite He, app_nil_r. }
  destruct e as [t buf|t|h bs|h|h|h b|h|h| |c]; cbn [ustep]; try (intros Hs; apply Hsame; [by intros []|]; revert Hs).
  - destruct (threads s !! t) as [x|] eqn:Et; [|done]. destruct x as [[|c r] b] eqn:Ex; [|done]. intros [= <-].
    apply (UI_uartwrite A _ s t x); [done|by rewrite Ex|..].
    + intros [h|t'] N; cbn [req]; [by rewrite app_nil_r|]. rewrite decide_False by congruence. by rewrite app_nil_r.
    + rewrite Ex. intros b' ->. cbn [req rest]. by rewrite decide_True, app_nil_r.
  - destruct (threads s !! t) as [x|] eqn:Et; [|done]. destruct x as [buf []] eqn:Ex; [done|]. intros [= <-].
    apply (UI_uartwrite A _ s t x); [done|by rewrite Ex|done|]. rewrite Ex. done.
  - intros (x & Hh & Hp%no_todo_nil & ->)%on_hart_inv. apply (UI_hart A _ s h x); try done; [by left| |].
    + intros [h'|t'] N; cbn [req]; [|by rewrite app_nil_r]. rewrite decide_False by congruence. by rewrite app_nil_r.
    + intros b' ->. cbn [req todo]. by rewrite decide_True, Hp, app_nil_r.
  - intros (x & Hh & Hp & ->)%on_hart_inv. apply (UI_hart A _ s h x); try done; [|by left]. cbn [ready todo]. unfold idle, classes.
    intros Hi. destruct (fifo s); [|done]. split; [by intros ?%elem_of_nil|]. intros Et. unfold no_todo in Hp. by rewrite Et in Hp.
  - intros (x & Hh & Hr & ->)%on_hart_inv. destruct (todo x) as [|c bs] eqn:Et; [by destruct (ui_ready _ _ _ H h x Hh Hr)|]. by apply UI_thr.
  - destruct (irq_tx s || _); [|done]. intros (x & Hh & [Hp%no_todo_nil _]%andb_true_iff & ->)%on_hart_inv.
    change (upd_hart h (mkHart Acked [] false) (set_irq ?i s)) with (set_irq i (upd_hart h (mkHart Acked [] false) s)).
    apply UI_irq; [apply (UI_hart A _ s h x); try done; [by left|]; intros b' ->; by rewrite Hp|].
    exists h, (mkHart Acked [] false). cbn. split; [|done]. apply list_lookup_insert_eq. by apply lookup_lt_Some in Hh.
  - intros (x & Hh & [Hp%no_todo_nil _]%andb_true_iff & ->)%on_hart_inv. by apply (UI_tx A s h x).
  - intros (x & Hh & [Hp%no_todo_nil Ha]%andb_true_iff & ->)%on_hart_inv. destruct (rx s) as [|c r].
    + apply (UI_hart A _ s h x); try done; [intros Hx; unfold is_phase in Ha; by rewrite Hx in Ha|]. intros b' ->. by rewrite Hp.
    + by destruct H.
  - destruct (fifo s) as [|p f] eqn:Ef; [done|]. intros [= <-]. by apply UI_send.
  - intros [= <-]. by destruct H.
Qed.

Lemma UI_run es : forall A s s', UI n A s -> urun depth es s = Some s' -> UI n (fun w => A w ++ asked w es) s'.
Proof.
  induction es as [|e es IH]; intros A s s' H; cbn [urun asked mbind list_bind].
  - intros [= <-]. destruct H as [U1 U2 U3 U4 U5 U6 U7 U8 U9]. split; try done. intros w. by rewrite app_nil_r.
  - destruct (ustep depth e s) as [s1|] eqn:E; [|done]. intros Hr. pose proof (IH _ s1 s' (UI_step A e s s1 H E) Hr) as [U1 U2 U3 U4 U5 U6 U7 U8 U9].
    split; try done. intros w. rewrite <- U3. unfold asked. cbn. by rewrite <- app_assoc.
Qed.
End Inv.

Lemma UI_init n m : UI n (fun _ => []) (uart0 n m).
Proof.
  split; try done.
  - apply length_replicate.
  - intros [h|t]; cbn; [destruct (_ !! h) as [x|] eqn:E|destruct (_ !! t) as [x|] eqn:E]; try done; by apply lookup_replicate in E as [-> _].
  - constructor.
  - intros h. by intros ?%elem_of_nil.
  - by intros ?%elem_of_nil.
  - intros h x Hx. apply lookup_replicate in Hx as [-> _]. done.
  - intros t x Hx. apply lookup_replicate in Hx as [-> _]. done.
Qed.

(** ** Everything is sent in the end *)

(** Events that ask for nothing new. *)
Definition quiet (e : event) : bool := match e with Call _ _ | Puts _ _ | Recv _ => false | _ => true end.

Lemma sum_insert {A} (f : A -> nat) l : forall i x y, l !! i = Some x -> (sum_list_with f (<[i := y]> l) + f x = sum_list_with f l + f y)%nat.
Proof.
  induction l as [|a l IH]; intros i x y; [done|]. destruct i as [|i].
  - intros [= ->]. change (<[0%nat := y]> (x :: l)) with (y :: l). cbn [sum_list_with]. lia.
  - intros H. change (<[S i := y]> (a :: l)) with (a :: <[i := y]> l). cbn [sum_list_with]. specialize (IH i x y H). lia.
Qed.

Definition work (s : uart) : nat :=
  (2 * (sum_list_with (fun x => length (todo x)) (harts s) + sum_list_with (fun x => length (rest x)) (threads s)) + length (fifo s))%nat.

Lemma work_done s w : work s = 0%nat -> fifo s = [] /\ pending w s = [].
Proof.
  unfold work. intros H. split; [destruct (fifo s); [done|cbn in H; lia]|].
  assert (forall {A} (f : A -> list Z) l i x, sum_list_with (fun x => length (f x)) l = 0%nat -> l !! i = Some x -> f x = []) as Hz.
  { intros A f l. induction l as [|a l IH]; intros i x; [done|]. cbn. destruct i as [|i]; [intros E [= <-]; destruct (f a); [done|cbn in E; lia]|]. intros E. apply IH. lia. }
  destruct w as [h|t]; cbn [pending].
  - destruct (harts s !! h) as [x|] eqn:E; [|done]. apply (Hz _ todo (harts s) h); [lia|done].
  - destruct (threads s !! t) as [x|] eqn:E; [|done]. apply (Hz _ rest (threads s) t); [lia|done].
Qed.

Section Drain.
Context (depth n : nat) (Hdepth : (n < depth)%nat) (Hn : (0 < n)%nat).

(** Reachable by quiet events. *)
Definition leads (s s' : uart) : Prop := exists es, forallb quiet es = true /\ urun depth es s = Some s'.

Lemma leads_refl s : leads s s.
Proof. by exists []. Qed.
Lemma leads_step e s s1 s' : quiet e = true -> ustep depth e s = Some s1 -> leads s1 s' -> leads s s'.
Proof. intros Hq E (es & Hes & Hr). exists (e :: es). cbn. by rewrite Hq, E. Qed.
Lemma leads_trans s s1 s' : leads s s1 -> leads s1 s' -> leads s s'.
Proof.
  intros (es & Hes & Hr) H. revert s Hes Hr. induction es as [|e es IH]; intros s; cbn; [by intros _ [= ->]|]. intros [Hq Hes]%andb_true_iff.
  destruct (ustep depth e s) as [s2|] eqn:E; [|done]. intros Hr. apply (leads_step e s s2 s' Hq E). by apply IH.
Qed.

Lemma UI_leads A s s' : UI n A s -> leads s s' -> UI n A s'.
Proof.
  intros H (es & Hes & Hr). pose proof (UI_run depth n Hdepth es A s s' H Hr) as [U1 U2 U3 U4 U5 U6 U7 U8 U9]. split; try done. intros w. rewrite <- U3. cbv beta.
  assert (asked w es = []) as ->; [|by rewrite app_nil_r]. clear - Hes. induction es as [|e es IH]; [done|]. cbn in Hes. apply andb_true_iff in Hes as [Hq Hes].
  unfold asked in *. cbn. rewrite IH by done. rewrite app_nil_r. by destruct e, w.
Qed.

(** Harts without bytes to put, the FIFO empty. *)
Record calm (s : uart) : Prop := { ca_fifo : fifo s = []; ca_todo : forall h x, harts s !! h = Some x -> todo x = [] }.

Lemma on_hart_run h p f s x : harts s !! h = Some x -> p x = true -> on_hart h p f s = Some (f x).
Proof. intros H1 H2. unfold on_hart. by rewrite H1, H2. Qed.

Lemma calm_hart s h x : calm s -> todo x = [] -> calm (upd_hart h x s).
Proof.
  intros [C1 C2] Hx. split; [done|]. intros h' y. cbn. intros [(<- & <- & _)|[_ Hy]]%list_lookup_insert_Some; [done|by apply (C2 h')].
Qed.

(** A hart in the loop of [uartintr] leaves it. *)
Lemma leave_loop h : forall r s x, rx s = r -> calm s -> harts s !! h = Some x -> ph x = Draining ->
  exists s', leads s s' /\ calm s' /\ threads s' = threads s /\ tx_busy s' = tx_busy s /\ irq_tx s' = irq_tx s /\ harts s' !! h = Some (mkHart Out [] false).
Proof.
  induction r as [|c r IH]; intros s x Hr Hc Hh Hp; pose proof (ca_todo _ Hc h x Hh) as Ht;
    assert (no_todo x && is_phase Draining x = true) as Hg by (unfold no_todo, is_phase; by rewrite Ht, Hp).
  - exists (upd_hart h (mkHart Out [] false) s). split; [|split; [by apply calm_hart|split; [done|split; [done|split; [done|]]]]].
    + apply (leads_step (Rx h) s (upd_hart h (mkHart Out [] false) s)); [done| |apply leads_refl]. cbn [ustep]. rewrite (on_hart_run _ _ _ _ x Hh Hg). by rewrite Hr.
    + cbn. apply list_lookup_insert_eq. by apply lookup_lt_Some in Hh.
  - set (s1 := mkUart (fifo s) (line s) (lost s) r (irq_tx s) (got s ++ [c]) (tx_busy s) (harts s) (threads s)).
    destruct (IH s1 x eq_refl) as (s' & L & R); [by destruct Hc; split|done|done|]. exists s'. split; [|done].
    apply (leads_step (Rx h) s s1); [done| |done]. cbn [ustep]. rewrite (on_hart_run _ _ _ _ x Hh Hg). by rewrite Hr.
Qed.

(** A hart that has acknowledged the interrupt ends the wait. *)
Lemma end_wait h s x : calm s -> harts s !! h = Some x -> ph x = Acked ->
  exists s', leads s s' /\ calm s' /\ tx_busy s' = false /\ threads s' = (fun y => mkTh (rest y) false) <$> threads s.
Proof.
  intros Hc Hh Hp. pose proof (ca_todo _ Hc h x Hh) as Ht. set (s' := upd_hart h (mkHart Draining [] false) (wake (set_busy false s))).
  exists s'. split; [|split; [apply calm_hart; [by destruct Hc; split|done]|done]].
  apply (leads_step (Tx h) s s'); [done| |apply leads_refl]. cbn [ustep]. rewrite (on_hart_run _ _ _ _ x Hh).
  - unfold idle. by rewrite (ca_fifo _ Hc).
  - unfold no_todo, is_phase. by rewrite Ht, Hp.
Qed.

Lemma take_interrupt h s x : calm s -> harts s !! h = Some x -> ph x = Out -> irq_tx s = true ->
  exists s', leads s s' /\ calm s' /\ threads s' = threads s /\ harts s' !! h = Some (mkHart Acked [] false).
Proof.
  intros Hc Hh Hp Hi. pose proof (ca_todo _ Hc h x Hh) as Ht. set (s' := upd_hart h (mkHart Acked [] false) (set_irq (irq_tx s && negb true) s)).
  exists s'. split; [|split; [apply calm_hart; [by destruct Hc; split|done]|split; [done|]]].
  - apply (leads_step (Intr h true) s s'); [done| |apply leads_refl]. cbn [ustep]. rewrite Hi at 1. cbn [orb]. rewrite (on_hart_run _ _ _ _ x Hh); [done|].
    unfold no_todo, is_phase. by rewrite Ht, Hp.
  - cbn. apply list_lookup_insert_eq. by apply lookup_lt_Some in Hh.
Qed.

(** The transmitter is free again and nobody sleeps. *)
Lemma settle A s : UI n A s -> calm s ->
  exists s', leads s s' /\ calm s' /\ tx_busy s' = false /\ rest <$> threads s' = rest <$> threads s /\ forall t x, threads s' !! t = Some x -> asleep x = false.
Proof.
  intros H Hc. destruct (tx_busy s) eqn:Eb.
  2:{ exists s. split; [apply leads_refl|]. split; [done|]. split; [done|]. split; [done|]. intros t x Hx. destruct (asleep x) eqn:Ea; [|done].
      by rewrite (ui_sleep _ _ _ H t x Hx Ea) in Eb. }
  assert (forall s1 h x, leads s s1 -> calm s1 -> threads s1 = threads s -> harts s1 !! h = Some x -> ph x = Acked ->
    exists s', leads s s' /\ calm s' /\ tx_busy s' = false /\ rest <$> threads s' = rest <$> threads s /\ forall t x, threads s' !! t = Some x -> asleep x = false) as Hend.
  { intros s1 h x L1 C1 T1 Hh Hp. destruct (end_wait h s1 x C1 Hh Hp) as (s' & L2 & C2 & B2 & T2). exists s'. split; [by apply (leads_trans s s1)|].
    split; [done|]. split; [done|]. rewrite T2, T1. split; [by rewrite <- list_fmap_compose|]. intros t y. rewrite list_lookup_fmap. destruct (threads s !! t); [|done]. by intros [= <-]. }
  destruct (ui_wake _ _ _ H Eb) as [Hf|[Hi|(h & x & Hh & Hp)]]; [by rewrite (ca_fifo _ Hc) in Hf| |by apply (Hend s h x (leads_refl s))].
  assert (exists x, harts s !! 0%nat = Some x) as [x Hh] by (apply lookup_lt_is_Some_2; rewrite (ui_harts _ _ _ H); lia).
  assert (forall s1 y, leads s s1 -> calm s1 -> threads s1 = threads s -> irq_tx s1 = true -> harts s1 !! 0%nat = Some y -> ph y = Out ->
    exists s', leads s s' /\ calm s' /\ tx_busy s' = false /\ rest <$> threads s' = rest <$> threads s /\ forall t x, threads s' !! t = Some x -> asleep x = false) as Hout.
  { intros s1 y L1 C1 T1 I1 Hy Hp. destruct (take_interrupt 0 s1 y C1 Hy Hp I1) as (s2 & L2 & C2 & T2 & Hh2).
    apply (Hend s2 0%nat (mkHart Acked [] false)); [by apply (leads_trans s s1)|done|by rewrite T2|done|done]. }
  destruct (ph x) eqn:Ep.
  - by apply (Hout s x (leads_refl s)).
  - by apply (Hend s 0%nat x (leads_refl s)).
  - destruct (leave_loop 0 (rx s) s x eq_refl Hc Hh Ep) as (s1 & L1 & C1 & T1 & _ & I1 & Hh1). apply (Hout s1 (mkHart Out [] false)); try done. by rewrite I1.
Qed.

Lemma rests_sum ts : sum_list_with (fun x => length (rest x)) ts = sum_list_with length (rest <$> ts).
Proof. induction ts as [|x ts IH]; [done|]. cbn. by rewrite IH. Qed.

Lemma rests_zero ts : Forall (fun x => rest x = []) ts -> sum_list_with (fun x => length (rest x)) ts = 0%nat.
Proof. induction 1 as [|x ts Hx _ IH]; [done|]. cbn. by rewrite Hx, IH. Qed.

Lemma calm_sum s : calm s -> sum_list_with (fun x => length (todo x)) (harts s) = 0%nat.
Proof.
  intros [_ Hc]. induction (harts s) as [|x hs IH]; [done|]. cbn. rewrite (Hc 0%nat x eq_refl), IH; [done|]. intros h y Hy. by apply (Hc (S h)).
Qed.

Lemma resume_works A s t x c b : UI n A s -> fifo s = [] -> tx_busy s = false -> threads s !! t = Some x -> rest x = c :: b -> asleep x = false ->
  exists s', leads s s' /\ (work s' < work s)%nat.
Proof.
  intros H Hf Hb Ht Hr Ha. exists (uartwrite depth t (c :: b) s). split.
  - apply (leads_step (Resume t) s (uartwrite depth t (c :: b) s)); [done| |apply leads_refl]. cbn [ustep]. rewrite Ht. destruct x as [r a]. cbn in Hr, Ha. by rewrite Ha, Hr.
  - unfold uartwrite. rewrite uartwrite_loop_once, Hb. assert (None ∉ classes s) as Hc by (unfold classes; rewrite Hf; by intros ?%elem_of_nil).
    rewrite (write_thr_run depth n Hdepth A s (Write t) c H Hc) by done. unfold work. cbn [set_threads set_busy threads harts fifo]. rewrite Hf. cbn [app length].
    pose proof (sum_insert (fun x => length (rest x)) (threads s) t x (mkTh b (match b with [] => false | _ => true end)) Ht) as E. cbv beta in E. rewrite Hr in E. cbn [rest length] in E. lia.
Qed.

Lemma thr_works A s h x c b : UI n A s -> fifo s = [] -> harts s !! h = Some x -> todo x = c :: b -> exists s', leads s s' /\ (work s' < work s)%nat.
Proof.
  intros H Hf Hh Ht.
  assert (forall s1 y, harts s1 !! h = Some y -> todo y = c :: b -> ready y = true -> UI n A s1 -> fifo s1 = [] -> leads s s1 -> work s1 = work s ->
    exists s', leads s s' /\ (work s' < work s)%nat) as Hgo.
  { intros s1 y Hy Hty Hry H1 Hf1 L1 W1. destruct (ui_ready _ _ _ H1 h y Hy Hry) as [Hc _].
    exists (upd_hart h (mkHart (ph y) b false) (write_thr depth (Sync h) c s1)). split.
    - apply (leads_trans s s1); [done|]. eapply (leads_step (Thr h) s1); [done| |apply leads_refl]. cbn [ustep]. rewrite (on_hart_run _ _ _ _ y Hy Hry). by rewrite Hty.
    - rewrite <- W1. pose proof (lookup_lt_Some _ _ _ Hy) as Hlt. rewrite (ui_harts _ _ _ H1) in Hlt.
      rewrite (write_thr_run depth n Hdepth A s1 (Sync h) c H1 Hc) by (by intros h' [= <-]). unfold work. cbn [upd_hart set_harts threads harts fifo]. rewrite Hf1. cbn [app length].
      pose proof (sum_insert (fun x => length (todo x)) (harts s1) h y (mkHart (ph y) b false) Hy) as E. cbv beta in E. rewrite Hty in E. cbn [todo length] in E. lia. }
  destruct (ready x) eqn:Er; [by apply (Hgo s x Hh Ht Er H Hf (leads_refl s))|].
  set (y := mkHart (ph x) (todo x) true). assert (leads s (upd_hart h y s)) as L.
  { eapply (leads_step (Lsr h) s); [done| |apply leads_refl]. cbn [ustep]. rewrite (on_hart_run _ _ _ _ x Hh); [unfold idle; by rewrite Hf|]. unfold no_todo. by rewrite Ht, Er. }
  assert (harts (upd_hart h y s) !! h = Some y) as Hy by (cbn; apply list_lookup_insert_eq; by apply lookup_lt_Some in Hh).
  apply (Hgo (upd_hart h y s) y); try done; [by apply (UI_leads A s)|]. unfold work. cbn [upd_hart set_harts threads harts fifo].
  pose proof (sum_insert (fun x => length (todo x)) (harts s) h x y Hh) as E. cbv beta in E. cbn [y todo] in E. lia.
Qed.

Lemma advance A s : UI n A s -> work s <> 0%nat -> exists s', leads s s' /\ (work s' < work s)%nat.
Proof.
  intros H Hw. destruct (fifo s) as [|p f] eqn:Ef.
  2:{ eexists. split; [eapply (leads_step Send s); [done|cbn [ustep]; by rewrite Ef|apply leads_refl]|]. unfold work. rewrite Ef. cbn [fifo harts threads length]. lia. }
  destruct (decide (Forall (fun x => todo x = []) (harts s))) as [Hall|Hsome].
  - assert (calm s) as Hc by (split; [done|]; intros h x Hx; by apply (Forall_lookup_1 _ _ h x Hall)).
    destruct (settle A s H Hc) as (s1 & L1 & C1 & B1 & R1 & A1). pose proof (UI_leads A s s1 H L1) as H1.
    assert (work s1 = work s) as W1 by (unfold work; rewrite (calm_sum s Hc), (calm_sum s1 C1), !rests_sum, R1, Ef, (ca_fifo _ C1); reflexivity).
    destruct (decide (Forall (fun x => rest x = []) (threads s1))) as [Hall1|Hsome1].
    + exfalso. apply Hw. rewrite <- W1. unfold work. rewrite (calm_sum s1 C1), (ca_fifo _ C1). cbn [length].
      by rewrite (rests_zero _ Hall1).
    + apply not_Forall_Exists, list.Exists_exists in Hsome1 as (x & (t & Ht)%list_elem_of_lookup & Hx); [|apply _].
      destruct (rest x) as [|c b] eqn:Er; [done|]. destruct (resume_works A s1 t x c b H1 (ca_fifo _ C1) B1 Ht Er (A1 t x Ht)) as (s2 & L2 & W2).
      exists s2. split; [by apply (leads_trans s s1)|lia].
  - apply not_Forall_Exists, list.Exists_exists in Hsome as (x & (h & Hh)%list_elem_of_lookup & Hx); [|apply _].
    destruct (todo x) as [|c b] eqn:Et; [done|]. by apply (thr_works A s h x c b).
Qed.

Lemma drain k : forall A s, (work s <= k)%nat -> UI n A s -> exists s', leads s s' /\ work s' = 0%nat.
Proof.
  induction k as [|k IH]; intros A s Hk H; (destruct (decide (work s = 0%nat)) as [E|N]; [exists s; by split; [apply leads_refl|]|]); [lia|].
  destruct (advance A s H N) as (s1 & L1 & W1). destruct (IH A s1 ltac:(lia) (UI_leads A s s1 H L1)) as (s2 & L2 & W2). exists s2. split; [by apply (leads_trans s s1)|done].
Qed.

End Drain.

(** ** Theorems *)

(** For every interleaving of [uartwrite] calls, [uartputc_sync] on every hart, interrupts and the device, with a FIFO that has more
    places than there are harts: no byte is lost, although [uartputc_sync] takes no lock and [uartwrite] does not look at the line status;
    what each writer was asked to send is, in order, what went out, what is in the FIFO and what it still
    has; and while a thread sleeps its wakeup is on the way. *)
Theorem uart_lossless depth nh nt es s : (nh < depth)%nat -> urun depth es (uart0 nh nt) = Some s ->
  lost s = [] /\ (forall w, asked w es = bytes_of w (line s) ++ bytes_of w (fifo s) ++ pending w s) /\
  forall t x, threads s !! t = Some x -> asleep x = true ->
    fifo s <> [] \/ irq_tx s = true \/ exists h y, harts s !! h = Some y /\ ph y = Acked.
Proof.
  intros Hd Hr. destruct (UI_run depth nh Hd es _ _ _ (UI_init nh nt) Hr) as [U1 _ U3 _ _ _ _ U8 U9]. split; [done|]. split; [exact U3|]. intros t x Hx Ha. eapply U8, U9; done.
Qed.

(** From every such state the device and the kernel can finish: without new requests everything asked for goes out. *)
Theorem uart_drains depth nh nt es s : (0 < nh < depth)%nat -> urun depth es (uart0 nh nt) = Some s ->
  exists es' s', forallb quiet es' = true /\ urun depth es' s = Some s' /\ forall w, bytes_of w (line s') = asked w es.
Proof.
  intros [Hn Hd] Hr. pose proof (UI_run depth nh Hd es _ _ _ (UI_init nh nt) Hr) as H.
  destruct (drain depth nh Hd Hn (work s) _ s ltac:(lia) H) as (s' & (es' & Hq & Hr') & Hw). exists es', s'. split; [done|]. split; [done|].
  pose proof (UI_leads depth nh Hd _ s s' H ltac:(by exists es')) as H'. intros w. pose proof (ui_bytes _ _ _ H' w) as E. cbn [app] in E.
  destruct (work_done s' w Hw) as [E1 E2]. rewrite E1, E2 in E. cbn in E. by rewrite app_nil_r in E.
Qed.

(** The registers of the device; with bit 7 of [LCR] set, 0 and 1 are the divisor. *)
Record regs := mkRegs { r_ier : Z; r_fcr : Z; r_lcr : Z; r_div : Z * Z; r_sent : list Z }.
Definition wreg (r : regs) (w : Z * Z) : regs :=
  let '(a, v) := w in
  let dlab := Z.testbit (r_lcr r) 7 in
  if a =? 0 then if dlab then mkRegs (r_ier r) (r_fcr r) (r_lcr r) (v, (r_div r).2) (r_sent r)
                 else mkRegs (r_ier r) (r_fcr r) (r_lcr r) (r_div r) (r_sent r ++ [v])
  else if a =? IER then if dlab then mkRegs (r_ier r) (r_fcr r) (r_lcr r) ((r_div r).1, v) (r_sent r) else mkRegs v (r_fcr r) (r_lcr r) (r_div r) (r_sent r)
  else if a =? FCR then mkRegs (r_ier r) v (r_lcr r) (r_div r) (r_sent r)
  else if a =? LCR then mkRegs (r_ier r) (r_fcr r) v (r_div r) (r_sent r) else r.

(** [uartinit] leaves both interrupts and the FIFOs on, 8 bits and 38.4K baud, and sends nothing. *)
Theorem uartinit_correct r : fold_left wreg uartinit r =
  mkRegs (Z.lor IER_TX_ENABLE IER_RX_ENABLE) (Z.lor FCR_FIFO_ENABLE FCR_FIFO_CLEAR) LCR_EIGHT_BITS (3, 0) (r_sent r).
Proof.
  destruct r as [i f l d s].
  assert (exists i' d', wreg (mkRegs i f l d s) (IER, 0) = mkRegs i' f l d' s) as (i' & d' & E).
  { unfold wreg. change (IER =? 0) with false. change (IER =? IER) with true. cbv iota zeta. destruct (Z.testbit _ 7); eauto. }
  change uartinit with ((IER, 0) :: tl uartinit). cbn [fold_left]. rewrite E. vm_compute. reflexivity.
Qed.

(** With a single holding register instead of a FIFO a byte would be lost: [uartputc_sync] on one hart after the
    interrupt that ended the wait of [uartwrite]. *)
Theorem uart_needs_fifo : exists es s, urun 1 es (uart0 2 1) = Some s /\ lost s = [(Write 0, 66)].
Proof.
  set (es := [Call 0 [65; 66]; Send; Intr 0 true; Tx 0; Puts 1 [97]; Lsr 1; Thr 1; Resume 0]). exists es.
  destruct (urun 1 es (uart0 2 1)) as [s|] eqn:E; [|vm_compute in E; discriminate E]. exists s. split; [done|].
  vm_compute in E. injection E as <-. vm_compute. reflexivity.
Qed.

(** ** Witnesses *)

Definition demo : list event :=
  [Call 0 [65; 66]; Puts 1 [97; 98]; Lsr 1; Send; Lsr 1; Intr 0 true; Thr 1; Tx 0; Send; Intr 2 false; Tx 2; Resume 0; Recv 13; Rx 0; Puts 0 [10]; Lsr 0; Send; Lsr 0; Thr 0].

Lemma uart_lossless_witness : exists s, urun 16 demo (uart0 8 2) = Some s /\ lost s = [] /\ bytes_of (Write 0) (line s) = [65; 66].
Proof.
  destruct (urun 16 demo (uart0 8 2)) as [s|] eqn:E; [|vm_compute in E; discriminate E]. exists s. split; [reflexivity|].
  destruct (uart_lossless 16 8 2 demo s ltac:(lia) E) as [H _]. split; [exact H|]. vm_compute in E. injection E as <-. reflexivity.
Defined.

Lemma uart_drains_witness : exists es' s', forallb quiet es' = true /\
  match urun 16 demo (uart0 8 2) with Some s => urun 16 es' s = Some s' | None => False end /\ bytes_of (Sync 1) (line s') = [97; 98].
Proof.
  destruct (urun 16 demo (uart0 8 2)) as [s|] eqn:E; [|vm_compute in E; discriminate E].
  destruct (uart_drains 16 8 2 demo s ltac:(lia) E) as (es' & s' & Hq & Hr & H). exists es', s'. split; [exact Hq|]. split; [exact Hr|]. exact (H (Sync 1)).
Defined.
