(* ===== verification/File.v ===== *)
(** * Files and system calls on files: [kernel/file.c], [kernel/sysfile.c]

    The open-file table, the descriptor tables of the processes, and the system
    calls on files and directories, on the inodes of [FsInode], [FsData] and [FsDir] and
    the pipes of [Pipe].  A [struct file *] and a [struct inode *] are indices of
    their tables, a [struct pipe *] is a handle; a freed pipe has no contents, and
    using it is [Undef].  System calls run one after the other; a call that sleeps in
    a pipe ends with [Asleep] and is continued later.  System call arguments are
    given decoded: a path is [None] when [argstr] fails.  [fork] and [exit] of [proc.c] are
    here with what they do to files. *)

From S2P Require Import Prelude Mlfq Bio FsBlk Words FsInode FsData FsDir.
From S2P Require Pipe.

Definition NOFILE : nat := 16.
Definition NFILE : nat := 100.
Definition NDEV : Z := 10.
Definition MAXOPBLOCKS : Z := 10.
Definition T_FILE : Z := 2.
Definition T_DEVICE : Z := 3.
Definition O_RDONLY : Z := 0x000.
Definition O_WRONLY : Z := 0x001.
Definition O_RDWR : Z := 0x002.
Definition O_CREATE : Z := 0x200.
Definition O_TRUNC : Z := 0x400.

(** ** State *)

Inductive fdtype := FD_NONE | FD_PIPE | FD_INODE | FD_DEVICE.
#[export] Instance fdtype_eq_dec : EqDecision fdtype.
Proof. solve_decision. Defined.

(** [struct file] *)
Record file := mkFile {
  f_type : fdtype; f_ref : Z; f_readable : bool; f_writable : bool;
  f_pipe : nat; f_ip : nat; f_off : Z; f_major : Z
}.
Definition file0 : file := mkFile FD_NONE 0 false false 0 0 0 0.

Definition set_fref r f := mkFile (f_type f) r (f_readable f) (f_writable f) (f_pipe f) (f_ip f) (f_off f) (f_major f).
Definition set_foff o f := mkFile (f_type f) (f_ref f) (f_readable f) (f_writable f) (f_pipe f) (f_ip f) o (f_major f).
Definition set_ftype t f := mkFile t (f_ref f) (f_readable f) (f_writable f) (f_pipe f) (f_ip f) (f_off f) (f_major f).

(** The file part of [struct proc]; an unused slot has no current directory. *)
Record pfiles := mkPf { ofile : list (option nat); cwd : option nat }.
Definition pfiles0 : pfiles := mkPf (repeat None NOFILE) None.

(** [pipes] are the pages [pipealloc] got from [kalloc], [None] once freed;
    [outstanding] is [log.outstanding]. *)
Record ksys := mkK {
  kfs : fs; ftab : list file; procs : list pfiles; pipes : list (option Pipe.pst); outstanding : Z
}.

Definition set_kfs x s := mkK x (ftab s) (procs s) (pipes s) (outstanding s).
Definition set_ftab x s := mkK (kfs s) x (procs s) (pipes s) (outstanding s).
Definition set_procs x s := mkK (kfs s) (ftab s) x (pipes s) (outstanding s).
Definition set_pipes x s := mkK (kfs s) (ftab s) (procs s) x (outstanding s).
Definition set_outstanding x s := mkK (kfs s) (ftab s) (procs s) (pipes s) x.

Definition getf (s : ksys) (f : nat) : file := nth f (ftab s) file0.
Definition updf (f : nat) (g : file -> file) (s : ksys) : ksys := set_ftab (<[f := g (getf s f)]> (ftab s)) s.
Definition getp (s : ksys) (p : nat) : pfiles := nth p (procs s) pfiles0.
Definition updp (p : nat) (g : pfiles -> pfiles) (s : ksys) : ksys := set_procs (<[p := g (getp s p)]> (procs s)) s.
Definition set_ofile (fd : nat) (o : option nat) (x : pfiles) : pfiles := mkPf (<[fd := o]> (ofile x)) (cwd x).
Definition set_cwd (o : option nat) (x : pfiles) : pfiles := mkPf (ofile x) o.

Abbreviation K := (M ksys).

Definition modf (f : nat) (g : file -> file) : K unit := modify (updf f g).
Definition readf {A} (f : nat) (g : file -> A) : K A := gets (fun s => g (getf s f)).

(** A call into [fs.c]. *)
Definition liftF {A} (m : M fs A) : K A := fun s =>
  match m (kfs s) with
  | Ret (a, x) => Ret (a, set_kfs x s)
  | Panic e => Panic e
  | Undef e => Undef e
  end.

(** A call into [fs.c] that may write: [log_write] panics outside a transaction.
    The test is made even if nothing comes to be written. *)
Definition inop {A} (m : M fs A) : K A :=
  d ← gets outstanding;
  _ ← panic_if (d <? 1) "log_write outside of trans";
  liftF m.

(** The blocks of the bitmap. *)
Definition bitmap (sb : superblock) : list Z :=
  map (fun k => bmapstart sb + Z.of_nat k) (seq 0 (Z.to_nat (sb_size sb / BPB) + 1)).

(** [readi] outside a transaction: for a block the file does not have, [balloc] marks a bit of
    the bitmap and calls [log_write], which panics. *)
Definition outop {A} (sb : superblock) (m : M fs A) : K A := fun s =>
  match m (kfs s) with
  | Ret (a, x) =>
    if (outstanding s <? 1) && existsb (fun b => negb (bool_decide (blk x b = blk (kfs s) b))) (bitmap sb)
    then Panic "log_write outside of trans" else Ret (a, set_kfs x s)
  | Panic e => Panic e
  | Undef e => Undef e
  end.

(** A call into [pipe.c]. *)
Definition liftP {A} (pi : nat) (m : M Pipe.pst A) : K A := fun s =>
  match pipes s !! pi with
  | Some (Some x) =>
    match m x with
    | Ret (a, x') => Ret (a, set_pipes (<[pi := Some x']> (pipes s)) s)
    | Panic e => Panic e
    | Undef e => Undef e
    end
  | _ => Undef "use of a freed pipe"
  end.

(** What [begin_op] and [end_op] do to [log.outstanding].  System calls run one after the other here, so [begin_op]
    finds the log empty and does not wait; waiting, the commit and the log's own limits are in [Txn]. *)
Definition begin_op : K unit := modify (fun s => set_outstanding (outstanding s + 1) s).
Definition end_op : K unit := modify (fun s => set_outstanding (outstanding s - 1) s).

(** ** The file table *)

(** The first entry whose reference count is 0. *)
Fixpoint free_file (l : list file) (k : nat) : option nat :=
  match l with
  | [] => None
  | f :: l' => if f_ref f =? 0 then Some k else free_file l' (S k)
  end.

Definition filealloc : K (option nat) :=
  s ← get;
  match free_file (ftab s) 0 with
  | Some f => _ ← modf f (set_fref 1); mret (Some f)
  | None => mret None
  end.

Definition filedup (f : nat) : K nat :=
  r ← readf f f_ref;
  _ ← panic_if (r <? 1) "filedup";
  _ ← modf f (set_fref (r + 1));
  mret f.

(** [pipeclose] with the [kfree] of its page. *)
Definition pipeclose (pi : nat) (writable : bool) : K unit :=
  free ← liftP pi (Pipe.pipeclose writable);
  if (free : bool) then modify (fun s => set_pipes (<[pi := None]> (pipes s)) s) else mret tt.

Section Calls.
Context (sb : superblock).
(** The calling process: its memory as in [FsData], and [killed()] as in [Pipe]. *)
Context (mem : Z -> Z) (copyin : Z -> nat -> nat * bool) (copyout : Z -> nat -> bool) (kl : nat -> bool).
(** [devsw\[major\]]: what the driver's functions return and deliver. *)
Context (dev_read : Z -> option (Z -> Z -> Pipe.run_end * list Z)).
Context (dev_write : Z -> option (Z -> Z -> Pipe.run_end)).
(** [kalloc] of a pipe's page: its bytes, or [None] when there is no memory. *)
Context (kalloc : option (list Z)).

Definition fileclose (f : nat) : K unit :=
  ff ← readf f id;
  _ ← panic_if (f_ref ff <? 1) "fileclose";
  _ ← modf f (set_fref (f_ref ff - 1));
  if 0 <? f_ref ff - 1 then mret tt
  else
    _ ← modf f (fun x => set_ftype FD_NONE (set_fref 0 x));
    match f_type ff with
    | FD_PIPE => pipeclose (f_pipe ff) (f_writable ff)
    | FD_INODE | FD_DEVICE =>
      _ ← begin_op;
      _ ← inop (iput sb (f_ip ff));
      end_op
    | FD_NONE => mret tt
    end.

(** [struct stat] and [stati] *)
Record stat := mkStat { st_dev : Z; st_ino : Z; st_type : Z; st_nlink : Z; st_size : Z }.
Definition stati (x : inode) : stat :=
  mkStat (i32 (i_dev x)) (i_inum x) (i_type x) (i_nlink x) (i_size x).

(** [filestat]: the result and what it copies out. *)
Definition filestat (f : nat) (addr : Z) : K (Z * option stat) :=
  ff ← readf f id;
  match f_type ff with
  | FD_INODE | FD_DEVICE =>
    _ ← liftF (ilock sb (f_ip ff));
    x ← liftF (readip (f_ip ff) id);
    _ ← liftF (iunlock (f_ip ff));
    if copyout addr 24 then mret (0, Some (stati x)) else mret (-1, None)
  | _ => mret (-1, None)
  end.

(** [f->major < 0 || f->major >= NDEV || !devsw\[f->major\].read] *)
Definition device {A} (sw : Z -> option A) (major : Z) : option A :=
  if (major <? 0) || (NDEV <=? major) then None else sw major.

(** [fileread]: the result and the bytes copied out. *)
Definition fileread (f : nat) (addr n : Z) : K (Pipe.run_end * list Z) :=
  ff ← readf f id;
  if negb (f_readable ff) then mret (Pipe.Done (-1), [])
  else
    match f_type ff with
    | FD_PIPE => liftP (f_pipe ff) (Pipe.piperead kl (fun k => copyout (addr + Z.of_nat k) 1) n)
    | FD_DEVICE =>
      match device dev_read (f_major ff) with
      | None => mret (Pipe.Done (-1), [])
      | Some read => mret (read addr n)
      end
    | FD_INODE =>
      _ ← liftF (ilock sb (f_ip ff));
      r ← outop sb (readi copyout sb (f_ip ff) true addr (f_off ff) (u32 n));
      let '(r, out) := r in
      _ ← (if 0 <? r then modf f (set_foff (u32 (f_off ff + r))) else mret tt);
      _ ← liftF (iunlock (f_ip ff));
      mret (Pipe.Done r, out)
    | FD_NONE => panic "fileread"
    end.

(** [int max = ((MAXOPBLOCKS - 1 - 1 - 2) / 2) * BSIZE;] *)
Definition max : Z := ((MAXOPBLOCKS - 1 - 1 - 2) / 2) * BSIZE.

(** [while (i < n)] of [filewrite]: the value of [i] at its end. *)
Fixpoint filewrite_loop (fuel : nat) (f ip : nat) (addr n i : Z) : K Z :=
  if i <? n then
    match fuel with
    | O => undef "out of fuel"
    | S fuel' =>
      let n1 := Z.min (n - i) max in
      _ ← begin_op;
      _ ← liftF (ilock sb ip);
      off ← readf f f_off;
      r ← inop (writei mem copyin sb ip true (addr + i) off n1);
      _ ← (if 0 <? r then modf f (set_foff (u32 (off + r))) else mret tt);
      _ ← liftF (iunlock ip);
      _ ← end_op;
      if negb (r =? n1) then mret i else filewrite_loop fuel' f ip addr n (i + r)
    end
  else mret i.

(** [copyin] of one byte, for [pipewrite]. *)
Definition user_byte (addr : Z) : option Z := if snd (copyin addr 1) then Some (mem addr) else None.

(** [filewrite]; [from] is where a writer asleep in a pipe goes on, 0 for a new call. *)
Definition filewrite (f : nat) (addr n : Z) (from : nat) : K Pipe.run_end :=
  ff ← readf f id;
  if negb (f_writable ff) then mret (Pipe.Done (-1))
  else
    match f_type ff with
    | FD_PIPE =>
      r ← liftP (f_pipe ff) (Pipe.pipewrite kl (fun k => user_byte (addr + Z.of_nat k)) n from);
      mret (fst r)
    | FD_DEVICE =>
      match device dev_write (f_major ff) with
      | None => mret (Pipe.Done (-1))
      | Some write => mret (write addr n)
      end
    | FD_INODE =>
      i ← filewrite_loop (Z.to_nat n) f (f_ip ff) addr n 0;
      mret (Pipe.Done (if i =? n then n else -1))
    | FD_NONE => panic "filewrite"
    end.

(** ** Descriptors *)

Context (p : nat).

(** [argfd]: the descriptor and its file. *)
Definition argfd (fd : Z) : K (option (nat * nat)) :=
  if (fd <? 0) || (Z.of_nat NOFILE <=? fd) then mret None
  else
    l ← gets (fun s => ofile (getp s p));
    mret (match nth (Z.to_nat fd) l None with
          | None => None
          | Some f => Some (Z.to_nat fd, f)
          end).

(** The first empty slot. *)
Fixpoint free_fd (l : list (option nat)) (k : nat) : option nat :=
  match l with
  | [] => None
  | None :: _ => Some k
  | Some _ :: l' => free_fd l' (S k)
  end.

Definition fdalloc (f : nat) : K (option nat) :=
  l ← gets (fun s => ofile (getp s p));
  match free_fd l 0 with
  | None => mret None
  | Some fd => _ ← modify (updp p (set_ofile fd (Some f))); mret (Some fd)
  end.

Definition sys_dup (fd : Z) : K Z :=
  a ← argfd fd;
  match a with
  | None => mret (-1)
  | Some (_, f) =>
    o ← fdalloc f;
    match o with
    | None => mret (-1)
    | Some fd' => _ ← filedup f; mret (Z.of_nat fd')
    end
  end.

Definition sys_read (fd addr n : Z) : K (Pipe.run_end * list Z) :=
  a ← argfd fd;
  match a with
  | None => mret (Pipe.Done (-1), [])
  | Some (_, f) => fileread f addr n
  end.

Definition sys_write (fd addr n : Z) (from : nat) : K Pipe.run_end :=
  a ← argfd fd;
  match a with
  | None => mret (Pipe.Done (-1))
  | Some (_, f) => filewrite f addr n from
  end.

Definition sys_close (fd : Z) : K Z :=
  a ← argfd fd;
  match a with
  | None => mret (-1)
  | Some (fd, f) => _ ← modify (updp p (set_ofile fd None)); _ ← fileclose f; mret 0
  end.

Definition sys_fstat (fd addr : Z) : K (Z * option stat) :=
  a ← argfd fd;
  match a with
  | None => mret (-1, None)
  | Some (_, f) => filestat f addr
  end.

(** ** Directories *)

Definition set_nlink n x := mkI (i_dev x) (i_inum x) (i_ref x) (i_locked x) (i_valid x)
  (i_type x) (i_major x) (i_minor x) n (i_size x) (i_addrs x).
(** [ip->nlink++] and [ip->nlink--] on a [short]. *)
Definition nlink_add (d : Z) (x : inode) : inode := set_nlink (i16 (i_nlink x + d)) x.

(** [myproc()->cwd], used by [namex]. *)
Definition mycwd : K nat :=
  o ← gets (fun s => cwd (getp s p));
  match o with Some c => mret c | None => undef "no current directory" end.
Definition knamei (path : list Z) : K (option nat) := c ← mycwd; inop (namei sb copyout c path).
Definition knameiparent (path : list Z) : K (option (nat * list Z)) :=
  c ← mycwd; inop (nameiparent sb copyout c path).

(** [end_op(); return -1;] *)
Definition fail_op : K Z := _ ← end_op; mret (-1).
(** [iunlockput(ip); end_op(); return -1;] *)
Definition fail_put (ip : nat) : K Z := _ ← inop (iunlockput sb ip); fail_op.

(** [bad:] of [sys_link]. *)
Definition link_bad (ip : nat) : K Z :=
  _ ← liftF (ilock sb ip);
  _ ← inop (_ ← modi ip (nlink_add (-1)); iupdate sb ip);
  fail_put ip.

Definition sys_link (old new : option (list Z)) : K Z :=
  match old, new with
  | Some old, Some new =>
    _ ← begin_op;
    o ← knamei old;
    match o with
    | None => fail_op
    | Some ip =>
      _ ← liftF (ilock sb ip);
      x ← liftF (readip ip id);
      if i_type x =? T_DIR then fail_put ip
      else
        _ ← inop (_ ← modi ip (nlink_add 1); iupdate sb ip);
        _ ← liftF (iunlock ip);
        d ← knameiparent new;
        match d with
        | None => link_bad ip
        | Some (dp, name) =>
          _ ← liftF (ilock sb dp);
          dx ← liftF (readip dp id);
          r ← (if negb (i_dev dx =? i_dev x) then mret (-1)
               else inop (dirlink sb copyin copyout dp name (i_inum x)));
          if r <? 0 then _ ← inop (iunlockput sb dp); link_bad ip
          else
            _ ← inop (iunlockput sb dp);
            _ ← inop (iput sb ip);
            _ ← end_op;
            mret 0
        end
    end
  | _, _ => mret (-1)
  end.

(** The loop of [isdirempty] from [off]. *)
Fixpoint dirempty_loop (fuel : nat) (dp : nat) (off : Z) : M fs bool :=
  size ← readip dp i_size;
  if off <? size then
    match fuel with
    | O => undef "out of fuel"
    | S fuel' =>
      r ← readi copyout sb dp false 0 off 16;
      let '(n, de) := r in
      _ ← panic_if (negb (n =? 16)) "isdirempty: readi";
      if negb (de_inum de =? 0) then mret false else dirempty_loop fuel' dp (off + 16)
    end
  else mret true.
Definition isdirempty (dp : nat) : M fs bool :=
  size ← readip dp i_size;
  dirempty_loop (Z.to_nat (size / 16 + 1)) dp 32.

(** [sys_unlink] after [dirlookup] has found [ip] at [off] of [dp]. *)
Definition unlink_entry (dp ip : nat) (off : Z) : K Z :=
  _ ← liftF (ilock sb ip);
  x ← liftF (readip ip id);
  _ ← panic_if (i_nlink x <? 1) "unlink: nlink < 1";
  ne ← (if i_type x =? T_DIR then e ← liftF (isdirempty ip); mret (negb e) else mret false);
  if (ne : bool) then _ ← inop (iunlockput sb ip); fail_put dp
  else
    n ← inop (writei (fun _ => 0) copyin sb dp false 0 off 16);
    _ ← panic_if (negb (n =? 16)) "unlink: writei";
    _ ← (if i_type x =? T_DIR then inop (_ ← modi dp (nlink_add (-1)); iupdate sb dp) else mret tt);
    _ ← inop (iunlockput sb dp);
    _ ← inop (_ ← modi ip (nlink_add (-1)); iupdate sb ip);
    _ ← inop (iunlockput sb ip);
    _ ← end_op;
    mret 0.

Definition sys_unlink (path : option (list Z)) : K Z :=
  match path with
  | None => mret (-1)
  | Some path =>
    _ ← begin_op;
    d ← knameiparent path;
    match d with
    | None => fail_op
    | Some (dp, name) =>
      _ ← liftF (ilock sb dp);
      if (namecmp name (bytes ".") =? 0) || (namecmp name (bytes "..") =? 0) then fail_put dp
      else
        r ← liftF (dirlookup sb copyout dp name);
        match r with
        | None => fail_put dp
        | Some (ip, off) => unlink_entry dp ip off
        end
    end
  end.

(** [create] after [ialloc]. *)
Definition create_new (dp ip : nat) (name : list Z) (type major minor : Z) : K (option nat) :=
  _ ← liftF (ilock sb ip);
  _ ← inop (_ ← modi ip (fun x => mkI (i_dev x) (i_inum x) (i_ref x) (i_locked x) (i_valid x)
                            (i_type x) major minor 1 (i_size x) (i_addrs x));
            iupdate sb ip);
  inum ← liftF (readip ip i_inum);
  dinum ← liftF (readip dp i_inum);
  r ← (if type =? T_DIR then
         r1 ← inop (dirlink sb copyin copyout ip (bytes ".") inum);
         if r1 <? 0 then mret r1
         else inop (dirlink sb copyin copyout ip (bytes "..") dinum)
       else mret 0);
  r ← (if r <? 0 then mret r else inop (dirlink sb copyin copyout dp name inum));
  if r <? 0 then
    _ ← inop (_ ← modi ip (set_nlink 0); iupdate sb ip);
    _ ← inop (iunlockput sb ip);
    _ ← inop (iunlockput sb dp);
    mret None
  else
    _ ← (if type =? T_DIR then inop (_ ← modi dp (nlink_add 1); iupdate sb dp) else mret tt);
    _ ← inop (iunlockput sb dp);
    mret (Some ip).

Definition create (path : list Z) (type major minor : Z) : K (option nat) :=
  d ← knameiparent path;
  match d with
  | None => mret None
  | Some (dp, name) =>
    _ ← liftF (ilock sb dp);
    r ← liftF (dirlookup sb copyout dp name);
    match r with
    | Some (ip, _) =>
      _ ← inop (iunlockput sb dp);
      _ ← liftF (ilock sb ip);
      t ← liftF (readip ip i_type);
      if (type =? T_FILE) && ((t =? T_FILE) || (t =? T_DEVICE)) then mret (Some ip)
      else _ ← inop (iunlockput sb ip); mret None
    | None =>
      dev ← liftF (readip dp i_dev);
      o ← inop (ialloc sb dev type);
      match o with
      | None => _ ← inop (iunlockput sb dp); mret None
      | Some ip => create_new dp ip name type major minor
      end
    end
  end.

(** The fields [sys_open] sets in the new [struct file]. *)
Definition open_file (ip : nat) (x : inode) (omode : Z) (f : file) : file :=
  mkFile (if i_type x =? T_DEVICE then FD_DEVICE else FD_INODE) (f_ref f)
    (negb (c_true (Z.land omode O_WRONLY)))
    (c_true (Z.land omode O_WRONLY) || c_true (Z.land omode O_RDWR))
    (f_pipe f) ip
    (if i_type x =? T_DEVICE then f_off f else 0)
    (if i_type x =? T_DEVICE then i_major x else f_major f).

(** [sys_open] once [ip] is locked. *)
Definition open_inode (ip : nat) (omode : Z) : K Z :=
  x ← liftF (readip ip id);
  if (i_type x =? T_DEVICE) && ((i_major x <? 0) || (NDEV <=? i_major x)) then fail_put ip
  else
    o ← filealloc;
    match o with
    | None => fail_put ip
    | Some f =>
      ofd ← fdalloc f;
      match ofd with
      | None => _ ← fileclose f; fail_put ip
      | Some fd =>
        _ ← modf f (open_file ip x omode);
        _ ← (if c_true (Z.land omode O_TRUNC) && (i_type x =? T_FILE) then inop (itrunc sb ip) else mret tt);
        _ ← liftF (iunlock ip);
        _ ← end_op;
        mret (Z.of_nat fd)
      end
    end.

Definition sys_open (path : option (list Z)) (omode : Z) : K Z :=
  match path with
  | None => mret (-1)
  | Some path =>
    _ ← begin_op;
    if c_true (Z.land omode O_CREATE) then
      o ← create path T_FILE 0 0;
      match o with
      | None => fail_op
      | Some ip => open_inode ip omode
      end
    else
      o ← knamei path;
      match o with
      | None => fail_op
      | Some ip =>
        _ ← liftF (ilock sb ip);
        t ← liftF (readip ip i_type);
        if (t =? T_DIR) && negb (omode =? O_RDONLY) then fail_put ip
        else open_inode ip omode
      end
  end.

(** [sys_mkdir] and [sys_mknod] with their arguments to [create]. *)
Definition make_node (path : option (list Z)) (type major minor : Z) : K Z :=
  _ ← begin_op;
  match path with
  | None => fail_op
  | Some path =>
    o ← create path type major minor;
    match o with
    | None => fail_op
    | Some ip => _ ← inop (iunlockput sb ip); _ ← end_op; mret 0
    end
  end.
Definition sys_mkdir (path : option (list Z)) : K Z := make_node path T_DIR 0 0.
Definition sys_mknod (path : option (list Z)) (major minor : Z) : K Z :=
  make_node path T_DEVICE (i16 major) (i16 minor).

Definition sys_chdir (path : option (list Z)) : K Z :=
  _ ← begin_op;
  match path with
  | None => fail_op
  | Some path =>
    o ← knamei path;
    match o with
    | None => fail_op
    | Some ip =>
      _ ← liftF (ilock sb ip);
      t ← liftF (readip ip i_type);
      if negb (t =? T_DIR) then fail_put ip
      else
        _ ← liftF (iunlock ip);
        c ← mycwd;
        _ ← inop (iput sb c);
        _ ← end_op;
        _ ← modify (updp p (set_cwd (Some ip)));
        mret 0
    end
  end.

(** ** Pipes *)

(** An end of pipe [pi]. *)
Definition pipe_file (pi : nat) (writable : bool) (f : file) : file :=
  mkFile FD_PIPE (f_ref f) (negb writable) writable pi (f_ip f) (f_off f) (f_major f).

(** [pipealloc]; nothing is allocated for the pipe when it fails. *)
Definition pipealloc : K (option (nat * nat)) :=
  o0 ← filealloc;
  match o0 with
  | None => mret None
  | Some f0 =>
    o1 ← filealloc;
    match o1, kalloc with
    | None, _ => _ ← fileclose f0; mret None
    | Some f1, None => _ ← fileclose f0; _ ← fileclose f1; mret None
    | Some f1, Some page =>
      pi ← gets (fun s => length (pipes s));
      _ ← modify (fun s => set_pipes (pipes s ++ [Some (Pipe.mkPst (Pipe.pipealloc page) 0 0)]) s);
      _ ← modf f0 (pipe_file pi false);
      _ ← modf f1 (pipe_file pi true);
      mret (Some (f0, f1))
    end
  end.

Definition sys_pipe (fdarray : Z) : K Z :=
  o ← pipealloc;
  match o with
  | None => mret (-1)
  | Some (rf, wf) =>
    o0 ← fdalloc rf;
    match o0 with
    | None => _ ← fileclose rf; _ ← fileclose wf; mret (-1)
    | Some fd0 =>
      o1 ← fdalloc wf;
      match o1 with
      | None =>
        _ ← modify (updp p (set_ofile fd0 None));
        _ ← fileclose rf; _ ← fileclose wf; mret (-1)
      | Some fd1 =>
        if copyout fdarray 4 && copyout (fdarray + 4) 4 then mret 0
        else
          _ ← modify (updp p (set_ofile fd0 None));
          _ ← modify (updp p (set_ofile fd1 None));
          _ ← fileclose rf; _ ← fileclose wf; mret (-1)
      end
    end
  end.

(** ** Processes *)

(** The loop of [kfork] over the descriptors from [i]. *)
Fixpoint fork_loop (n : nat) (np i : nat) : K unit :=
  match n with
  | O => mret tt
  | S n' =>
    o ← gets (fun s => nth i (ofile (getp s p)) None);
    _ ← (match o with
         | Some f => f' ← filedup f; modify (updp np (set_ofile i (Some f')))
         | None => mret tt
         end);
    fork_loop n' np (S i)
  end.

(** What [kfork] does to files, for the new process [np]. *)
Definition fork_files (np : nat) : K unit :=
  _ ← fork_loop NOFILE np 0;
  c ← mycwd;
  c' ← liftF (idup c);
  modify (updp np (set_cwd (Some c'))).

(** The loop of [kexit] over the descriptors from [fd]. *)
Fixpoint exit_loop (n : nat) (fd : nat) : K unit :=
  match n with
  | O => mret tt
  | S n' =>
    o ← gets (fun s => nth fd (ofile (getp s p)) None);
    _ ← (match o with
         | Some f => _ ← fileclose f; modify (updp p (set_ofile fd None))
         | None => mret tt
         end);
    exit_loop n' (S fd)
  end.

(** What [kexit] does to files. *)
Definition exit_files : K unit :=
  _ ← exit_loop NOFILE 0;
  _ ← begin_op;
  c ← mycwd;
  _ ← inop (iput sb c);
  _ ← end_op;
  modify (updp p (set_cwd None)).
End Calls.
