(* ===== verification/FileRefs.v ===== *)
(** * References and locks on inodes

    [refs_ok H L s]: the reference counts of the inode table are those of the list
    [H] of all references held in the kernel, and exactly the inodes of [L] are
    locked.  Every function of [fs.c] is specified by what it adds to and takes from
    the two lists; nothing is assumed of the disk.  A run may stop only as listed in
    [damaged]: the inode table is full, or the disk is not a file system. *)

From S2P Require Import Prelude Mlfq Bio FsBlk Words FsInode FsData FsTable FsDir File.

(** ** Runs that may stop for given reasons *)

(** [wpe E m Q s]: [m] returns and [Q] holds, or it stops with a message in [E]. *)
Definition wpe {S A} (E : string -> Prop) (m : M S A) (Q : A -> S -> Prop) (s : S) : Prop :=
  match m s with Ret (a, s') => Q a s' | Panic e | Undef e => E e end.

Section Wpe.
Context {S : Type} (E : string -> Prop).
Implicit Types s : S.

Lemma wpe_ret {A} (a : A) (Q : A -> S -> Prop) s : Q a s -> wpe E (mret a) Q s.
Proof. done. Qed.
Lemma wpe_bind {A B} (m : M S A) (f : A -> M S B) (Q : B -> S -> Prop) s :
  wpe E m (fun a => wpe E (f a) Q) s -> wpe E (m ≫= f) Q s.
Proof. unfold wpe, mbind, M_bind. by destruct (m s) as [[a s']|e|e]. Qed.
Lemma wpe_mono {A} (m : M S A) (P Q : A -> S -> Prop) s :
  wpe E m P s -> (forall a s', P a s' -> Q a s') -> wpe E m Q s.
Proof. unfold wpe. destruct (m s) as [[a s']|e|e]; auto. Qed.
Lemma wpe_conj {A} (m : M S A) (P Q : A -> S -> Prop) s :
  wpe E m P s -> wpe E m Q s -> wpe E m (fun a s' => P a s' /\ Q a s') s.
Proof. unfold wpe. destruct (m s) as [[a s']|e|e]; auto. Qed.
Lemma wpe_get (Q : S -> S -> Prop) s : Q s s -> wpe E get Q s.
Proof. done. Qed.
Lemma wpe_gets {A} (f : S -> A) (Q : A -> S -> Prop) s : Q (f s) s -> wpe E (gets f) Q s.
Proof. done. Qed.
Lemma wpe_modify (f : S -> S) (Q : unit -> S -> Prop) s : Q tt (f s) -> wpe E (modify f) Q s.
Proof. done. Qed.
Lemma wpe_panic msg {A} (Q : A -> S -> Prop) s : E msg -> wpe E (panic msg) Q s.
Proof. done. Qed.
Lemma wpe_panic_if b msg (Q : unit -> S -> Prop) s :
  (b = true -> E msg) -> (b = false -> Q tt s) -> wpe E (panic_if b msg) Q s.
Proof. unfold wpe, panic_if. destruct b; cbn; auto. Qed.
Lemma wpe_weaken {A} (E' : string -> Prop) (m : M S A) (Q : A -> S -> Prop) s :
  (forall e, E' e -> E e) -> wpe E' m Q s -> wpe E m Q s.
Proof. unfold wpe. destruct (m s) as [[a s']|e|e]; auto. Qed.
Lemma wpe_bind_mono {A B} (m : M S A) (f : A -> M S B) (P : A -> S -> Prop) (Q : B -> S -> Prop) s :
  wpe E m P s -> (forall a s', P a s' -> wpe E (f a) Q s') -> wpe E (m ≫= f) Q s.
Proof. intros H1 H2. apply wpe_bind. by eapply wpe_mono. Qed.

(** [m] leaves the view [v] of the state as it is. *)
Definition keeps {A B} (v : S -> B) (m : M S A) : Prop := forall s, wpe E m (fun _ s' => v s' = v s) s.

Context {B : Type} (v : S -> B).

Lemma keeps_view_ret {A} (a : A) : keeps v (mret a).
Proof. done. Qed.
Lemma keeps_view_bind {A A'} (m : M S A) (f : A -> M S A') : keeps v m -> (forall a, keeps v (f a)) -> keeps v (m ≫= f).
Proof.
  intros H1 H2 s. apply (wpe_bind_mono _ _ _ _ s (H1 s)). intros a s' E1.
  eapply wpe_mono; [apply H2|]. cbn. congruence.
Qed.
Lemma keeps_gets {A} (f : S -> A) : keeps v (gets f).
Proof. done. Qed.
Lemma keeps_view_get : keeps v get.
Proof. done. Qed.
Lemma keeps_panic_if b msg : (b = true -> E msg) -> keeps v (panic_if b msg).
Proof. intros H s. by apply wpe_panic_if. Qed.
Lemma keeps_panic {A} msg : E msg -> keeps v (panic msg : M S A).
Proof. intros H s. done. Qed.
Lemma keeps_modify f : (forall s, v (f s) = v s) -> keeps v (modify f).
Proof. intros H s. apply H. Qed.
Lemma keeps_if {A} (b : bool) (m m' : M S A) : keeps v m -> keeps v m' -> keeps v (if b then m else m').
Proof. by destruct b. Qed.
End Wpe.

Create HintDb keeps.
#[export] Hint Resolve keeps_view_ret keeps_view_bind keeps_gets keeps_view_get keeps_panic_if keeps_panic keeps_modify keeps_if : keeps.

(** The reasons any call may stop for: the inode table is full; an inode that a directory names
    is free; what should be a directory is not one; a directory's size is not a multiple
    of an entry; a block address is beyond a file or is free in the bitmap; a directory
    contains itself, so that its lock is waited for by its holder. *)
Definition damaged : list string :=
  ["iget: no inodes"; "ilock: no type"; "dirlookup not DIR"; "dirlookup read"; "dirlink read";
   "bmap: out of range"; "freeing free block"; "isdirempty: readi";
   "unlink: writei"; "acquiresleep: would sleep"].
Definition stop (e : string) : Prop := e ∈ damaged.

Lemma stop_in e : bool_decide (e ∈ damaged) = true -> stop e.
Proof. apply bool_decide_eq_true_1. Qed.
Ltac stop := apply stop_in; reflexivity.

(** ** What the functions on file contents leave alone *)

(** Everything of an inode but its size, its block addresses and what [iupdate] and
    [ilock] copy. *)
Definition who (x : inode) : Z * Z * Z * bool := (i_dev x, i_inum x, i_ref x, i_locked x).
Definition view (s : fs) : list (Z * Z * Z * bool) := who <$> itab s.
(** The same with the sizes. *)
Definition sizes (s : fs) : list (Z * Z * Z * bool * Z) := (fun x => (who x, i_size x)) <$> itab s.

Lemma view_sizes s : view s = fst <$> sizes s.
Proof. unfold view, sizes. rewrite <- list_fmap_compose. done. Qed.

Lemma fmap_updi {A} (g : inode -> A) ip f s : (forall x, g (f x) = g x) -> g <$> itab (updi ip f s) = g <$> itab s.
Proof.
  intros H. unfold updi. cbn. rewrite list_fmap_insert, H.
  destruct (decide (ip < length (itab s))%nat) as [Hl|Hl].
  - apply list_insert_id. rewrite list_lookup_fmap. unfold geti.
    destruct (lookup_lt_is_Some_2 (itab s) ip Hl) as [x Hx]. rewrite Hx. cbn. do 2 f_equal.
    symmetry. by apply nth_lookup_Some.
  - apply list_insert_ge. rewrite length_fmap. lia.
Qed.

Section Keeps.
Context (sb : superblock) (mem : Z -> Z) (copyin : Z -> nat -> nat * bool) (copyout : Z -> nat -> bool).
Context {A : Type} (g : inode -> A).
Context (g_addr : forall k a x, g (set_addr k a x) = g x).
Abbreviation V := (fun s => g <$> itab s).
Abbreviation kp m := (keeps stop V m).

Lemma readb_keeps b : kp (readb b).
Proof. apply keeps_gets. Qed.
Lemma writeb_keeps b d : kp (writeb b d).
Proof. by apply keeps_modify. Qed.
Lemma readip_keeps {C} ip (f : inode -> C) : kp (readip ip f).
Proof. apply keeps_gets. Qed.
Lemma modi_keeps ip f : (forall x, g (f x) = g x) -> kp (modi ip f).
Proof. intros H. apply keeps_modify. intros s. by apply fmap_updi. Qed.
Hint Resolve readb_keeps writeb_keeps readip_keeps modi_keeps : keeps.
Hint Extern 1 (stop _) => stop : keeps.

Lemma bzero_keeps b : kp (bzero b).
Proof. apply writeb_keeps. Qed.
Hint Resolve bzero_keeps : keeps.

Lemma balloc_loop_keeps n : forall b, kp (balloc_loop sb n b).
Proof.
  induction n as [|n IH]; intros b; cbn [balloc_loop]; [apply keeps_view_ret|].
  apply keeps_if; [|apply keeps_view_ret]. apply keeps_view_bind; [apply readb_keeps|intros d].
  destruct (scan_bits sb _ d b 0) as [bi|]; auto 8 with keeps.
Qed.
Lemma balloc_keeps : kp (balloc sb).
Proof. apply balloc_loop_keeps. Qed.
Lemma bfree_keeps b : kp (bfree sb b).
Proof. unfold bfree. auto 8 with keeps. Qed.
Hint Resolve balloc_keeps bfree_keeps : keeps.

Lemma bmap_direct_keeps ip k : kp (bmap_direct sb ip k).
Proof. unfold bmap_direct. auto 12 with keeps. Qed.
Hint Resolve bmap_direct_keeps : keeps.
Lemma bmap_keeps ip bn : kp (bmap sb ip bn).
Proof. unfold bmap. auto 20 with keeps. Qed.
Hint Resolve bmap_keeps : keeps.
Lemma iupdate_keeps ip : kp (iupdate sb ip).
Proof. unfold iupdate. auto 8 with keeps. Qed.
Hint Resolve iupdate_keeps : keeps.

(** After a piece up to the end of its block one block less is left. *)
Lemma next_fuel off n tot fuel (m := Z.min (n - tot) (BSIZE - off mod BSIZE)) :
  (tot < n -> off mod BSIZE + (n - tot) <= BSIZE * Z.of_nat (S fuel)) -> tot < n ->
  tot + m < n -> (off + m) mod BSIZE + (n - (tot + m)) <= BSIZE * Z.of_nat fuel.
Proof.
  intros Hf H H1. specialize (Hf H). pose proof (div_mod_B off) as Hd. subst m. rewrite BSIZE_val in *.
  rewrite Z.min_r in * by lia.
  replace (off + (1024 - off mod 1024)) with ((off / 1024 + 1) * 1024) by lia.
  rewrite Z.mod_mul by lia. lia.
Qed.

Lemma read_loop_keeps ip user n : forall fuel dst off tot out,
  (tot < n -> off mod BSIZE + (n - tot) <= BSIZE * Z.of_nat fuel) ->
  kp (read_loop copyout sb fuel ip user dst off n tot out).
Proof.
  induction fuel as [|fuel IH]; intros dst off tot out Hf; cbn [read_loop].
  - destruct (Z.ltb_spec tot n) as [H|H]; [|apply keeps_view_ret].
    pose proof (div_mod_B off). specialize (Hf H). lia.
  - destruct (Z.ltb_spec tot n) as [H|H]; [|apply keeps_view_ret].
    apply keeps_view_bind; [apply bmap_keeps|intros addr]. apply keeps_if; [apply keeps_view_ret|].
    apply keeps_view_bind; [apply readb_keeps|intros d]. apply keeps_if; [|apply keeps_view_ret].
    apply IH. by apply next_fuel.
Qed.

Lemma loop_fuel off n : 0 < n -> off mod BSIZE + (n - 0) <= BSIZE * Z.of_nat (Z.to_nat (n / BSIZE + 2)).
Proof. rewrite BSIZE_val. intros H. pose proof (Z.mod_pos_bound off 1024). pose proof (Z.div_pos n 1024). pose proof (Z.mod_pos_bound n 1024). rewrite Z2Nat.id by lia. pose proof (Z.div_mod n 1024). lia. Qed.

Lemma readi_keeps ip user dst off n : kp (readi copyout sb ip user dst off n).
Proof.
  unfold readi. apply keeps_view_bind; [apply readip_keeps|intros size]. apply keeps_if; [apply keeps_view_ret|].
  apply read_loop_keeps. intros H. by apply loop_fuel.
Qed.
Hint Resolve readi_keeps : keeps.

Lemma write_loop_keeps ip user n : forall fuel src off tot,
  (tot < n -> off mod BSIZE + (n - tot) <= BSIZE * Z.of_nat fuel) ->
  kp (write_loop mem copyin sb fuel ip user src off n tot).
Proof.
  induction fuel as [|fuel IH]; intros src off tot Hf; cbn [write_loop].
  - destruct (Z.ltb_spec tot n) as [H|H]; [|apply keeps_view_ret].
    pose proof (div_mod_B off). specialize (Hf H). lia.
  - destruct (Z.ltb_spec tot n) as [H|H]; [|apply keeps_view_ret].
    apply keeps_view_bind; [apply bmap_keeps|intros addr]. apply keeps_if; [apply keeps_view_ret|].
    apply keeps_view_bind; [apply readb_keeps|intros d].
    destruct (either_copyin mem copyin user src _) as [l ok].
    apply keeps_view_bind; [apply writeb_keeps|intros _]. apply keeps_if; [|apply keeps_view_ret].
    apply IH. by apply next_fuel.
Qed.

Context (g_size : forall z x, g (set_size z x) = g x).

Lemma writei_keeps ip user src off n : kp (writei mem copyin sb ip user src off n).
Proof.
  unfold writei. apply keeps_view_bind; [apply readip_keeps|intros size]. apply keeps_if; [apply keeps_view_ret|].
  apply keeps_if; [apply keeps_view_ret|]. apply keeps_view_bind; [|intros [tot off']; auto 12 with keeps].
  apply write_loop_keeps. intros H. by apply loop_fuel.
Qed.

Lemma trunc_direct_keeps ip ks : kp (trunc_direct sb ip ks).
Proof. induction ks as [|k ks IH]; cbn [trunc_direct]; auto 20 with keeps. Qed.
Lemma trunc_indirect_keeps d js : kp (trunc_indirect sb d js).
Proof. induction js as [|k ks IH]; cbn [trunc_indirect]; auto 20 with keeps. Qed.
Hint Resolve trunc_direct_keeps trunc_indirect_keeps : keeps.
Lemma itrunc_keeps ip : kp (itrunc sb ip).
Proof. unfold itrunc. auto 30 with keeps. Qed.
End Keeps.

(** ** Directory scans *)

Lemma sizes_size s s' dp : sizes s' = sizes s -> i_size (geti s' dp) = i_size (geti s dp).
Proof.
  intros H. assert (forall x, nth dp (sizes x) (who inode0, 0) = (who (geti x dp), i_size (geti x dp))) as G.
  { intros x. unfold sizes, geti. apply (map_nth (fun x => (who x, i_size x)) (itab x) inode0). }
  pose proof (G s) as G1. rewrite <- H, G in G1. congruence.
Qed.

Section Scans.
Context (sb : superblock) (copyout : Z -> nat -> bool).

(** One entry of a scan from [off]: the size has not changed, so one entry less is left. *)
Lemma scan_step {A} (dp : nat) (off : Z) (fuel : nat) (yes : Z * list Z -> M fs A) (no : M fs A) s :
  i_size (geti s dp) - off <= 16 * Z.of_nat fuel ->
  (forall r s', sizes s' = sizes s -> i_size (geti s' dp) - (off + 16) <= 16 * Z.of_nat (fuel - 1) ->
     wpe stop (yes r) (fun _ s' => sizes s' = sizes s) s') ->
  wpe stop no (fun _ s' => sizes s' = sizes s) s ->
  wpe stop (size ← readip dp i_size;
            if off <? size then
              match fuel with
              | O => undef "out of fuel"
              | S _ => r ← readi copyout sb dp false 0 off 16; yes r
              end
            else no) (fun _ s' => sizes s' = sizes s) s.
Proof.
  intros Hf Hy Hn. apply wpe_bind, wpe_gets. destruct (Z.ltb_spec off (i_size (geti s dp))) as [H|H]; [|done].
  destruct fuel as [|fuel]; [lia|].
  eapply wpe_bind_mono; [by apply (readi_keeps sb copyout (fun x => (who x, i_size x)))|].
  intros r s' E. apply Hy; [exact E|]. rewrite (sizes_size _ _ dp E). lia.
Qed.

Lemma scan_mono {A} (m : M fs A) s s' : sizes s' = sizes s ->
  wpe stop m (fun _ s'' => sizes s'' = sizes s') s' -> wpe stop m (fun _ s'' => sizes s'' = sizes s) s'.
Proof. intros E H. eapply wpe_mono; [exact H|]. cbn. congruence. Qed.

Lemma lookup_loop_sizes dp name : forall fuel off s,
  i_size (geti s dp) - off <= 16 * Z.of_nat fuel ->
  wpe stop (lookup_loop sb copyout fuel dp name off) (fun _ s' => sizes s' = sizes s) s.
Proof.
  induction fuel as [|fuel IH]; intros off s Hf.
  - cbn [lookup_loop]. apply wpe_bind, wpe_gets. destruct (Z.ltb_spec off (i_size (geti s dp))); [lia|done].
  - apply (scan_step dp off (S fuel) (fun r => let '(n, de) := r in
      _ ← panic_if (negb (n =? 16)) "dirlookup read";
      if de_inum de =? 0 then lookup_loop sb copyout fuel dp name (off + 16)
      else if namecmp name (de_name de) =? 0 then mret (Some (de_inum de, off))
      else lookup_loop sb copyout fuel dp name (off + 16))); [done| |done].
    intros [n de] s' E Hs. rewrite Nat.sub_1_r in Hs. apply wpe_bind, wpe_panic_if; [intros _; stop|intros _].
    destruct (de_inum de =? 0); [|destruct (namecmp name (de_name de) =? 0); [exact E|]];
      apply scan_mono; auto.
Qed.

Lemma empty_loop_sizes dp : forall fuel off s,
  i_size (geti s dp) - off <= 16 * Z.of_nat fuel ->
  wpe stop (empty_loop sb copyout fuel dp off) (fun _ s' => sizes s' = sizes s) s.
Proof.
  induction fuel as [|fuel IH]; intros off s Hf.
  - cbn [empty_loop]. apply wpe_bind, wpe_gets. destruct (Z.ltb_spec off (i_size (geti s dp))); [lia|done].
  - apply (scan_step dp off (S fuel) (fun r => let '(n, de) := r in
      _ ← panic_if (negb (n =? 16)) "dirlink read";
      if de_inum de =? 0 then mret off else empty_loop sb copyout fuel dp (off + 16))); [done| |done].
    intros [n de] s' E Hs. rewrite Nat.sub_1_r in Hs. apply wpe_bind, wpe_panic_if; [intros _; stop|intros _].
    destruct (de_inum de =? 0); [exact E|]. apply scan_mono; auto.
Qed.

Lemma dirempty_loop_sizes dp : forall fuel off s,
  i_size (geti s dp) - off <= 16 * Z.of_nat fuel ->
  wpe stop (dirempty_loop sb copyout fuel dp off) (fun _ s' => sizes s' = sizes s) s.
Proof.
  induction fuel as [|fuel IH]; intros off s Hf.
  - cbn [dirempty_loop]. apply wpe_bind, wpe_gets. destruct (Z.ltb_spec off (i_size (geti s dp))); [lia|done].
  - apply (scan_step dp off (S fuel) (fun r => let '(n, de) := r in
      _ ← panic_if (negb (n =? 16)) "isdirempty: readi";
      if negb (de_inum de =? 0) then mret false else dirempty_loop sb copyout fuel dp (off + 16))); [done| |done].
    intros [n de] s' E Hs. rewrite Nat.sub_1_r in Hs. apply wpe_bind, wpe_panic_if; [intros _; stop|intros _].
    destruct (negb (de_inum de =? 0)); [exact E|]. apply scan_mono; auto.
Qed.

Lemma scan_fuel size off : 0 <= off -> size - off <= 16 * Z.of_nat (Z.to_nat (size / 16 + 1)).
Proof. intros H. pose proof (Z.div_mod size 16). pose proof (Z.mod_pos_bound size 16). lia. Qed.

Lemma view_of_sizes {A} (m : M fs A) s :
  wpe stop m (fun _ s' => sizes s' = sizes s) s -> wpe stop m (fun _ s' => view s' = view s) s.
Proof. intros H. eapply wpe_mono; [exact H|]. cbn. intros ? s' E. by rewrite !view_sizes, E. Qed.

Lemma isdirempty_keeps ip : keeps stop view (isdirempty sb copyout ip).
Proof.
  intros s. apply wpe_bind, wpe_gets, view_of_sizes, dirempty_loop_sizes. by apply scan_fuel.
Qed.
End Scans.

(** ** References and locks *)

Definition cnt (x : nat) (l : list nat) : Z := Z.of_nat (count_occ Nat.eq_dec l x).

Lemma cnt_ref_cons x y l : cnt x (y :: l) = (if decide (x = y) then 1 else 0) + cnt x l.
Proof. unfold cnt. cbn [count_occ]. destruct (Nat.eq_dec y x), (decide (x = y)); subst; try done; lia. Qed.
Lemma cnt_app x l l' : cnt x (l ++ l') = cnt x l + cnt x l'.
Proof. unfold cnt. rewrite count_occ_app. lia. Qed.
Lemma cnt_ref_nonneg x l : 0 <= cnt x l.
Proof. unfold cnt. lia. Qed.
Lemma cnt_pos x l : x ∈ l <-> 0 < cnt x l.
Proof. unfold cnt. rewrite list_elem_of_In, (count_occ_In Nat.eq_dec). lia. Qed.
Lemma cnt_perm x l l' : l ≡ₚ l' -> cnt x l = cnt x l'.
Proof. intros H. unfold cnt. f_equal. by apply Permutation_count_occ. Qed.

Record refs_ok (H L : list nat) (s : fs) : Prop := {
  ro_table : table_ok s;
  ro_in : forall ip, ip ∈ H -> (ip < length (itab s))%nat;
  ro_ref : forall ip, (ip < length (itab s))%nat -> i_ref (geti s ip) = cnt ip H;
  ro_lock : forall ip, (ip < length (itab s))%nat -> i_locked (geti s ip) = true <-> ip ∈ L;
  ro_held : L ⊆ H;
  ro_once : NoDup L
}.

Lemma view_length s s' : view s' = view s -> length (itab s') = length (itab s).
Proof. intros H. apply (f_equal length) in H. unfold view in H. by rewrite !length_fmap in H. Qed.
Lemma view_who s s' ip : view s' = view s -> who (geti s' ip) = who (geti s ip).
Proof.
  intros H. assert (forall x, nth ip (view x) (who inode0) = who (geti x ip)) as G.
  { intros x. unfold view, geti. apply (map_nth who). }
  by rewrite <- !G, H.
Qed.

Lemma refs_ok_view H L s s' : view s' = view s -> refs_ok H L s -> refs_ok H L s'.
Proof.
  intros E [[T1 T2] R2 R3 R4 R5 R6]. pose proof (view_length _ _ E) as El.
  assert (forall ip, i_dev (geti s' ip) = i_dev (geti s ip) /\ i_inum (geti s' ip) = i_inum (geti s ip) /\
    i_ref (geti s' ip) = i_ref (geti s ip) /\ i_locked (geti s' ip) = i_locked (geti s ip)) as G.
  { intros ip. pose proof (view_who _ _ ip E) as W. unfold who in W. by injection W. }
  assert (forall ip dev inum, in_use s' ip dev inum <-> in_use s ip dev inum) as U.
  { intros ip dev inum. unfold in_use. destruct (G ip) as (-> & -> & -> & _). by rewrite El. }
  split; try done.
  - split; [intros ip ip' dev inum; rewrite !U; apply T1|]. intros ip. destruct (G ip) as (_ & _ & -> & _). done.
  - intros ip Hip. rewrite El. by apply R2.
  - intros ip Hip. destruct (G ip) as (_ & _ & -> & _). apply R3. by rewrite <- El.
  - intros ip Hip. destruct (G ip) as (_ & _ & _ & ->). apply R4. by rewrite <- El.
Qed.

#[export] Instance refs_ok_perm : Proper (Permutation ==> Permutation ==> eq ==> iff) refs_ok.
Proof.
  assert (forall H H' L L' s, H ≡ₚ H' -> L ≡ₚ L' -> refs_ok H L s -> refs_ok H' L' s) as G.
  { intros H H' L L' s EH EL [R1 R2 R3 R4 R5 R6]. split; try done.
    - intros ip Hip. apply R2. by rewrite EH.
    - intros ip Hip. rewrite R3 by done. by apply cnt_perm.
    - intros ip Hip. rewrite R4 by done. by rewrite EL.
    - by rewrite <- EH, <- EL.
    - by rewrite <- EL. }
  intros H H' EH L L' EL s ? <-. split; apply G; by try symmetry.
Qed.

(** An operation that keeps the view keeps the references. *)
Lemma keeps_refs {A} (m : M fs A) H L s : keeps stop view m -> refs_ok H L s -> wpe stop m (fun _ s' => refs_ok H L s') s.
Proof. intros Hk R. eapply wpe_mono; [apply Hk|]. intros a s' E. exact (refs_ok_view _ _ _ _ E R). Qed.

Section Refs.
Context (sb : superblock).

(** What an update of one entry does. *)
Lemma refs_ok_updi H L H' L' s ip f :
  refs_ok H L s -> (ip < length (itab s))%nat ->
  i_ref (f (geti s ip)) = cnt ip H' -> (forall j, j <> ip -> cnt j H' = cnt j H) ->
  (i_locked (f (geti s ip)) = true <-> ip ∈ L') -> (forall j, j <> ip -> j ∈ L' <-> j ∈ L) ->
  L' ⊆ H' -> NoDup L' ->
  (0 < cnt ip H' -> forall j, j <> ip -> ~ in_use s j (i_dev (f (geti s ip))) (i_inum (f (geti s ip)))) ->
  refs_ok H' L' (updi ip f s).
Proof.
  intros [R1 R2 R3 R4 R5 R6] Hip Hr Hrj Hl Hlj HS HN Hu. split; try done.
  - apply table_ok_upd; [done|done| |]; rewrite Hr; [apply cnt_ref_nonneg|done].
  - intros j Hj. rewrite length_updi. destruct (decide (j = ip)) as [->|N]; [done|]. apply R2.
    apply cnt_pos. rewrite <- Hrj by done. by apply cnt_pos.
  - intros j Hj. rewrite length_updi in Hj. destruct (decide (j = ip)) as [->|N].
    + by rewrite geti_updi.
    + rewrite geti_updi_ne, R3, Hrj by done. done.
  - intros j Hj. rewrite length_updi in Hj. destruct (decide (j = ip)) as [->|N].
    + by rewrite geti_updi.
    + rewrite geti_updi_ne, R4, Hlj by done. done.
Qed.

(** The same when the entry stays the entry of its inode. *)
Lemma refs_ok_same H L H' L' s ip f :
  refs_ok H L s -> ip ∈ H -> (forall x, i_dev (f x) = i_dev x /\ i_inum (f x) = i_inum x) ->
  i_ref (f (geti s ip)) = cnt ip H' -> (forall j, j <> ip -> cnt j H' = cnt j H) ->
  (i_locked (f (geti s ip)) = true <-> ip ∈ L') -> (forall j, j <> ip -> j ∈ L' <-> j ∈ L) ->
  L' ⊆ H' -> NoDup L' -> refs_ok H' L' (updi ip f s).
Proof.
  intros R Hin Hf. intros. pose proof (ro_in _ _ _ R ip Hin) as Hip.
  apply (refs_ok_updi H L); try done. intros _ j Nj Hu. destruct (Hf (geti s ip)) as [E1 E2]. rewrite E1, E2 in Hu.
  apply Nj. apply (proj1 (ro_table _ _ _ R) j ip _ _ Hu). split; [done|]. split; [|done].
  rewrite (ro_ref _ _ _ R) by done. by apply cnt_pos.
Qed.

Lemma iget_refs dev inum H L s : refs_ok H L s -> wpe stop (iget dev inum) (fun ip s' => refs_ok (ip :: H) L s') s.
Proof.
  intros R. pose proof (ro_table _ _ _ R) as [T1 T2]. unfold iget. apply wpe_bind, wpe_get.
  pose proof (iget_scan_spec (itab s) 0 None dev inum) as G.
  assert (forall ip j, j <> ip -> cnt j (ip :: H) = cnt j H) as C by (intros; rewrite cnt_ref_cons, decide_False; done).
  destruct (iget_scan (itab s) 0 None dev inum) as [ip|[ip|]]; [| |stop];
    apply wpe_bind, wpe_modify, wpe_ret; rewrite Nat.sub_0_r in G.
  - destruct G as (Hip & G & _). fold (geti s ip) in G. rewrite (ro_ref _ _ _ R) in G by lia.
    apply (refs_ok_same H L); [done|by apply cnt_pos|done| |by apply C| |done|pose proof (ro_held _ _ _ R); set_solver|apply R].
    + cbn. rewrite (ro_ref _ _ _ R), cnt_ref_cons, decide_True by (done || lia). lia.
    + cbn. apply (ro_lock _ _ _ R). lia.
  - destruct G as [Hno [Hip Hz]]. fold (geti s ip) in Hz. rewrite (ro_ref _ _ _ R) in Hz by lia.
    apply (refs_ok_updi H L); [done|lia| |by apply C| |done|pose proof (ro_held _ _ _ R); set_solver|apply R|].
    + cbn. rewrite cnt_ref_cons, decide_True, Hz by done. done.
    + cbn. apply (ro_lock _ _ _ R). lia.
    + cbn. intros _ j _ (H1 & H2). apply (Hno (geti s j)); [by apply elem_geti|done].
Qed.

Lemma idup_refs ip H L s : refs_ok H L s -> ip ∈ H ->
  wpe stop (idup ip) (fun r s' => r = ip /\ refs_ok (ip :: H) L s') s.
Proof.
  intros R Hin. unfold idup. apply wpe_bind, wpe_modify, wpe_ret. split; [done|].
  pose proof (ro_in _ _ _ R ip Hin) as Hip.
  apply (refs_ok_same H L); [done|done|done| | | |done|pose proof (ro_held _ _ _ R); set_solver|apply R].
  - cbn. rewrite (ro_ref _ _ _ R), cnt_ref_cons, decide_True by done. lia.
  - intros. rewrite cnt_ref_cons, decide_False; done.
  - cbn. by apply (ro_lock _ _ _ R).
Qed.

Lemma modi_refs ip f H L s : (forall x, who (f x) = who x) -> refs_ok H L s ->
  wpe stop (modi ip f) (fun _ s' => refs_ok H L s') s.
Proof. intros Hf. apply keeps_refs, (modi_keeps who). exact Hf. Qed.

Lemma set_lock_refs ip b H L L' s :
  refs_ok H L s -> ip ∈ H -> (b = true <-> ip ∈ L') -> (forall j, j <> ip -> j ∈ L' <-> j ∈ L) ->
  L' ⊆ H -> NoDup L' -> refs_ok H L' (updi ip (set_locked b) s).
Proof.
  intros R Hin Hb Hj HS HN. apply (refs_ok_same H L); try done. cbn. apply (ro_ref _ _ _ R).
  by apply (ro_in _ _ _ R).
Qed.

Lemma ilock_refs ip H L s : refs_ok H L s -> ip ∈ H ->
  wpe stop (ilock sb ip) (fun _ s' => refs_ok H (ip :: L) s') s.
Proof.
  intros R Hin. pose proof (ro_in _ _ _ R ip Hin) as Hip. unfold ilock. apply wpe_bind, wpe_gets.
  unfold id. rewrite (ro_ref _ _ _ R) by done. apply wpe_bind, wpe_panic_if.
  { apply cnt_pos in Hin. zsolve. }
  intros _. destruct (i_locked (geti s ip)) eqn:El; [stop|].
  assert (ip ∉ L) as Hn. { intros Hl. apply (ro_lock _ _ _ R ip Hip) in Hl. congruence. }
  apply wpe_bind, wpe_modify.
  assert (refs_ok H (ip :: L) (updi ip (set_locked true) s)) as R1.
  { apply (set_lock_refs ip true H L); [done|done|set_solver|set_solver| |by constructor; [|apply R]].
    pose proof (ro_held _ _ _ R). set_solver. }
  destruct (i_valid (geti s ip)); [done|]. apply wpe_bind, wpe_gets.
  eapply wpe_bind_mono; [apply (modi_refs ip _ H (ip :: L)); [done|exact R1]|]. intros ? s' R2.
  apply wpe_bind, wpe_gets, wpe_panic_if; [intros _; stop|done].
Qed.

Lemma iunlock_refs ip H L s : refs_ok H (ip :: L) s -> wpe stop (iunlock ip) (fun _ s' => refs_ok H L s') s.
Proof.
  intros R. assert (ip ∈ H) as Hin by (apply (ro_held _ _ _ R); set_solver).
  pose proof (ro_in _ _ _ R ip Hin) as Hip. pose proof (ro_once _ _ _ R) as [Hn HN]%list.NoDup_cons.
  unfold iunlock. apply wpe_bind, wpe_gets. unfold id. rewrite (ro_ref _ _ _ R) by done.
  rewrite (proj2 (ro_lock _ _ _ R ip Hip)) by set_solver.
  apply wpe_bind, wpe_panic_if. { apply cnt_pos in Hin. zsolve. }
  intros _. apply wpe_modify. apply (set_lock_refs ip false H (ip :: L)); [done|done|set_solver|set_solver| |done].
  pose proof (ro_held _ _ _ R). set_solver.
Qed.

(** [iput] frees an inode only when it drops the last reference, so nobody holds its lock. *)
Lemma iput_refs ip H L s : refs_ok (ip :: H) L s -> L ⊆ H -> wpe stop (iput sb ip) (fun _ s' => refs_ok H L s') s.
Proof.
  intros R HS. pose proof (ro_in _ _ _ R ip ltac:(set_solver)) as Hip.
  unfold iput. apply wpe_bind, wpe_gets. unfold id. apply wpe_bind.
  apply (wpe_mono _ _ (fun _ s' => refs_ok (ip :: H) L s')).
  - destruct ((i_ref (geti s ip) =? 1) && i_valid (geti s ip) && (i_nlink (geti s ip) =? 0)) eqn:E; [|done].
    apply andb_prop in E as [[E _]%andb_prop _]. rewrite (ro_ref _ _ _ R), cnt_ref_cons, decide_True in E by done.
    assert (ip ∉ L) as Hn. { intros Hl%HS%cnt_pos. lia. }
    destruct (i_locked (geti s ip)) eqn:El; [by apply (ro_lock _ _ _ R ip Hip) in El|].
    apply wpe_bind, wpe_modify.
    assert (refs_ok (ip :: H) (ip :: L) (updi ip (set_locked true) s)) as R1.
    { apply (set_lock_refs ip true _ L); [done|set_solver|set_solver|set_solver|set_solver|by constructor; [|apply R]]. }
    eapply wpe_bind_mono; [apply keeps_refs; [by apply (itrunc_keeps sb who)|exact R1]|]. intros ? s2 R2.
    eapply wpe_bind_mono; [apply modi_refs; [done|exact R2]|]. intros ? s3 R3.
    eapply wpe_bind_mono; [apply keeps_refs; [by apply (iupdate_keeps sb who)|exact R3]|]. intros ? s4 R4.
    eapply wpe_bind_mono; [apply modi_refs; [done|exact R4]|]. intros ? s5 R5.
    apply wpe_modify. apply (set_lock_refs ip false _ (ip :: L)); [done|set_solver| | |set_solver|apply R]; set_solver.
  - intros ? s' R'. apply wpe_modify.
    apply (refs_ok_same (ip :: H) L); [done|set_solver|done| | | |done|done|apply R].
    + cbn. rewrite (ro_ref _ _ _ R'), cnt_ref_cons, decide_True by (done || apply (ro_in _ _ _ R'); set_solver). lia.
    + intros. rewrite cnt_ref_cons, decide_False; done.
    + cbn. apply (ro_lock _ _ _ R'), (ro_in _ _ _ R'). set_solver.
Qed.

Lemma iunlockput_refs ip H L s : refs_ok (ip :: H) (ip :: L) s -> L ⊆ H ->
  wpe stop (iunlockput sb ip) (fun _ s' => refs_ok H L s') s.
Proof.
  intros R HS. eapply wpe_bind_mono; [by apply iunlock_refs|]. intros ? s' R'. by apply iput_refs.
Qed.
End Refs.

(** ** Directories and path names *)

Section Names.
Context (sb : superblock) (copyin : Z -> nat -> nat * bool) (copyout : Z -> nat -> bool).

Lemma view_refs {A} (m : M fs A) H L s :
  wpe stop m (fun _ s' => sizes s' = sizes s) s -> refs_ok H L s -> wpe stop m (fun _ s' => refs_ok H L s') s.
Proof.
  intros Hm R. eapply wpe_mono; [apply view_of_sizes, Hm|]. intros a s' E. exact (refs_ok_view _ _ _ _ E R).
Qed.

(** The references of an optional result. *)
Definition opt_ref (o : option nat) : list nat := match o with Some ip => [ip] | None => [] end.

Lemma ialloc_refs dev type H L s : refs_ok H L s ->
  wpe stop (ialloc sb dev type) (fun o s' => refs_ok (opt_ref o ++ H) L s') s.
Proof.
  unfold ialloc. generalize (Z.to_nat (ninodes sb)) as n, 1 as inum. intros n. revert s.
  induction n as [|n IH]; intros s inum R; cbn [ialloc_loop]; [done|].
  destruct (inum <? ninodes sb); [|done]. apply wpe_bind, wpe_gets.
  destruct (getle 2 _ _ =? 0); [|by apply IH].
  eapply wpe_bind_mono; [apply keeps_refs; [apply writeb_keeps|exact R]|]. intros ? s1 R1.
  eapply wpe_bind_mono; [apply iget_refs; exact R1|]. intros ip s2 R2. exact R2.
Qed.

Lemma dirlookup_refs dp name H L s : refs_ok H L s ->
  wpe stop (dirlookup sb copyout dp name) (fun o s' => refs_ok (opt_ref (fst <$> o) ++ H) L s') s.
Proof.
  intros R. unfold dirlookup. apply wpe_bind, wpe_gets. unfold id.
  apply wpe_bind, wpe_panic_if; [intros _; stop|intros _].
  eapply wpe_bind_mono; [apply (view_refs _ H L); [apply lookup_loop_sizes, scan_fuel; lia|exact R]|].
  intros [[inum off]|] s1 R1; [|exact R1].
  eapply wpe_bind_mono; [apply iget_refs; exact R1|]. intros ip s2 R2. exact R2.
Qed.

Lemma dirlink_refs dp name inum H L s : refs_ok H L s ->
  wpe stop (dirlink sb copyin copyout dp name inum) (fun _ s' => refs_ok H L s') s.
Proof.
  intros R. unfold dirlink. eapply wpe_bind_mono; [apply (dirlookup_refs dp name H L), R|].
  intros [[ip off]|] s1 R1.
  - eapply wpe_bind_mono; [apply (iput_refs sb ip H L); [exact R1|apply R]|]. intros ? s2 R2. exact R2.
  - apply wpe_bind, wpe_gets.
    eapply wpe_bind_mono; [apply (view_refs _ H L); [apply empty_loop_sizes, scan_fuel; lia|exact R1]|]. intros off s2 R2.
    eapply wpe_bind_mono; [apply (keeps_refs _ H L); [by apply (writei_keeps sb _ copyin who)|exact R2]|].
    intros n s3 R3. exact R3.
Qed.

Lemma skipelem_shorter path name path' : skipelem path = Some (name, path') -> (length path' < length path)%nat.
Proof. intros E. pose proof (skipelem_spec path) as G. rewrite E in G. destruct G as (e & G). tauto. Qed.

Lemma namex_loop_refs parent H : forall fuel path ip name s,
  (length path <= fuel)%nat -> refs_ok (ip :: H) [] s ->
  wpe stop (namex_loop sb copyout fuel path parent ip name)
    (fun o s' => refs_ok (opt_ref (fst <$> o) ++ H) [] s') s.
Proof.
  induction fuel as [|fuel IH]; intros path ip name s Hl R; cbn [namex_loop];
    destruct (skipelem path) as [[name' path']|] eqn:Ep.
  1: apply skipelem_shorter in Ep; lia.
  1,3: destruct parent; [|exact R];
    eapply wpe_bind_mono; [apply (iput_refs sb ip H []); [exact R|set_solver]|]; intros ? s1 R1; exact R1.
  apply skipelem_shorter in Ep.
  eapply wpe_bind_mono; [apply (ilock_refs sb ip (ip :: H) []); [exact R|set_solver]|]. intros ? s1 R1.
  apply wpe_bind, wpe_gets. destruct (negb (i_type (geti s1 ip) =? T_DIR)).
  { eapply wpe_bind_mono; [apply (iunlockput_refs sb ip H []); [exact R1|set_solver]|]. intros ? s2 R2. exact R2. }
  destruct (parent && _).
  { eapply wpe_bind_mono; [apply (iunlock_refs ip (ip :: H) []); exact R1|]. intros ? s2 R2. exact R2. }
  eapply wpe_bind_mono; [apply (dirlookup_refs ip name' (ip :: H) [ip]); exact R1|]. intros [[next off]|] s2 R2.
  - cbn in R2. rewrite (Permutation_swap ip next) in R2.
    eapply wpe_bind_mono; [apply (iunlockput_refs sb ip (next :: H) []); [exact R2|set_solver]|]. intros ? s3 R3.
    apply IH; [lia|exact R3].
  - eapply wpe_bind_mono; [apply (iunlockput_refs sb ip H []); [exact R2|set_solver]|]. intros ? s3 R3. exact R3.
Qed.

Lemma namex_refs c path parent H s : refs_ok H [] s -> c ∈ H ->
  wpe stop (namex sb copyout c path parent) (fun o s' => refs_ok (opt_ref (fst <$> o) ++ H) [] s') s.
Proof.
  intros R Hc. unfold namex. apply wpe_bind.
  apply (wpe_mono _ _ (fun ip s' => refs_ok (ip :: H) [] s')).
  - destruct (hd 0 path =? chSLASH); [apply iget_refs; exact R|].
    eapply wpe_mono; [by apply idup_refs|]. intros r s' [-> R']. exact R'.
  - intros ip s' R'. by apply namex_loop_refs.
Qed.

Lemma namei_refs c path H s : refs_ok H [] s -> c ∈ H ->
  wpe stop (namei sb copyout c path) (fun o s' => refs_ok (opt_ref o ++ H) [] s') s.
Proof.
  intros R Hc. eapply wpe_bind_mono; [exact (namex_refs c path false H s R Hc)|]. intros o s' R'. exact R'.
Qed.
End Names.
