(* ===== verification/SysFile.v ===== *)
(** * The invariant of open files

    Whatever sequence of system calls on files the processes make, on every path
    including all errors: the reference count of a [struct file] is the number of
    descriptors that name it, the reference count of an inode is the number of open
    files and current directories on it, no inode stays locked, every [begin_op] has its
    [end_op], a pipe is open for reading (writing) as long as its read (write) end is
    open, and is freed, once, when both ends are closed. *)

From S2P Require Import Prelude Mlfq Bio FsBlk Words FsInode FsData FsTable FsDir File FileRefs.
From S2P Require Pipe.

(** ** Who refers to what *)

Definition file_ip (f : file) : list nat :=
  match f_type f with FD_INODE | FD_DEVICE => [f_ip f] | _ => [] end.
Definition pipe_end (w : bool) (f : file) : list nat :=
  match f_type f with FD_PIPE => if Bool.eqb (f_writable f) w then [f_pipe f] else [] | _ => [] end.
Definition irefs (s : ksys) : list nat := ftab s ≫= file_ip.
Definition ends (w : bool) (s : ksys) : list nat := ftab s ≫= pipe_end w.
Definition cwds (s : ksys) : list nat := procs s ≫= (fun x => opt_ref (cwd x)).
Definition fds (s : ksys) : list nat := procs s ≫= (fun x => ofile x ≫= opt_ref).

(** [R] and [W] are the pipes with an open read end and an open write end. *)
Record pipes_ok (R W : list nat) (ps : list (option Pipe.pst)) : Prop := {
  po_read : NoDup R;
  po_write : NoDup W;
  po_in : forall pi, pi ∈ R ++ W -> (pi < length ps)%nat;
  po_state : forall pi o, ps !! pi = Some o ->
    match o with
    | Some x => Pipe.readopen (Pipe.pp x) = cnt pi R /\ Pipe.writeopen (Pipe.pp x) = cnt pi W /\ pi ∈ R ++ W
    | None => pi ∉ R ++ W
    end
}.

(** The invariant within a call.  [P] are processes that are running, [X] one that
    [fork] is making; [N] are files just allocated; [F], [I] are the references to files and
    inodes held by the call itself, [L] the inodes it has locked, [d] is
    [log.outstanding]. *)
Record KB (P X N F I L : list nat) (d : Z) (s : ksys) : Prop := {
  ki_refs : refs_ok (irefs s ++ cwds s ++ I) L (kfs s);
  ki_out : outstanding s = d;
  ki_nfile : length (ftab s) = NFILE;
  ki_fin : forall f, f ∈ fds s ++ F -> (f < NFILE)%nat;
  ki_fref : forall f, (f < NFILE)%nat -> f_ref (getf s f) = cnt f (fds s ++ F);
  ki_type : forall f, (f < NFILE)%nat -> f_type (getf s f) = FD_NONE <-> f ∉ fds s ++ F \/ f ∈ N;
  ki_new : NoDup N;
  ki_new1 : forall f, f ∈ N -> cnt f (fds s ++ F) = 1;
  ki_nofile : forall q x, procs s !! q = Some x -> length (ofile x) = NOFILE;
  ki_dead : forall q x, procs s !! q = Some x -> q ∉ X -> cwd x = None -> x = pfiles0;
  ki_run : forall q, q ∈ P -> exists x c, procs s !! q = Some x /\ cwd x = Some c
}.

(** The same with the pipes. *)
Record KI (P X N F I L : list nat) (d : Z) (s : ksys) : Prop := {
  ki_base :> KB P X N F I L d s;
  ki_pipes : pipes_ok (ends false s) (ends true s) (pipes s)
}.

(** The invariant between calls. *)
Definition KInv (s : ksys) : Prop := KI [] [] [] [] [] [] 0 s.

(** ** Updates of tables *)

Lemma getf_lookup s f : (f < length (ftab s))%nat -> ftab s !! f = Some (getf s f).
Proof. intros H. unfold getf. destruct (lookup_lt_is_Some_2 _ _ H) as [x E]. rewrite E. f_equal. symmetry. by apply nth_lookup_Some. Qed.
Lemma getf_updf s f g : (f < length (ftab s))%nat -> getf (updf f g s) f = g (getf s f).
Proof. intros H. unfold getf, updf. cbn. by apply nth_insert_eq. Qed.
Lemma getf_updf_ne s f f' g : f' <> f -> getf (updf f g s) f' = getf s f'.
Proof. intros H. unfold getf, updf. cbn. by apply nth_insert_ne. Qed.
Lemma getp_lookup s q x : procs s !! q = Some x -> getp s q = x.
Proof. apply nth_lookup_Some. Qed.

(** A reference moves between the lists. *)
Lemma cnt_move x (a b c e : list nat) : a ++ b ≡ₚ c ++ e -> cnt x a + cnt x b = cnt x c + cnt x e.
Proof. intros H. rewrite <- !cnt_app. by apply cnt_perm. Qed.

Lemma cnt_elem (x : nat) l l' : cnt x l = cnt x l' -> x ∈ l <-> x ∈ l'.
Proof. intros H. by rewrite !cnt_pos, H. Qed.

(** ** Calls into [fs.c] *)

Section Ops.
Context (P X : list nat).
Abbreviation KP := (KI P X).

Lemma KI_kfs N F I L I' L' d s x :
  KP N F I L d s -> refs_ok (irefs s ++ cwds s ++ I') L' x -> KP N F I' L' d (set_kfs x s).
Proof. intros [[] ?] R. by split. Qed.

Lemma liftF_KI {A} (m : M fs A) (I' L' : A -> list nat) N F I L d s :
  KP N F I L d s ->
  wpe stop m (fun a x => refs_ok (irefs s ++ cwds s ++ I' a) (L' a) x) (kfs s) ->
  wpe stop (liftF m) (fun a s' => KP N F (I' a) (L' a) d s' /\ ftab s' = ftab s) s.
Proof.
  intros HK Hm. unfold wpe, liftF in *. destruct (m (kfs s)) as [[a x]|e|e]; [|done|done].
  split; [|done]. by apply (KI_kfs N F I L).
Qed.

(** The same where only the result is used. *)
Lemma liftF_post {A} (m : M fs A) (I' L' : A -> list nat) N F I L d s :
  KP N F I L d s ->
  wpe stop m (fun a x => refs_ok (irefs s ++ cwds s ++ I' a) (L' a) x) (kfs s) ->
  wpe stop (liftF m) (fun a s' => KP N F (I' a) (L' a) d s') s.
Proof. intros HK Hm. eapply wpe_mono; [by apply (liftF_KI m I' L' N F I L d s)|]. intros a s' [H _]. exact H. Qed.

Lemma inop_liftF {A} (m : M fs A) (Q : A -> ksys -> Prop) s :
  0 < outstanding s -> wpe stop (liftF m) Q s -> wpe stop (inop m) Q s.
Proof.
  intros Hd Hm. unfold inop. apply wpe_bind, wpe_gets, wpe_bind, wpe_panic_if; [|done]. intros E. lia.
Qed.

Lemma inop_post {A} (m : M fs A) (I' L' : A -> list nat) N F I L d s :
  KP N F I L d s -> 0 < d ->
  wpe stop m (fun a x => refs_ok (irefs s ++ cwds s ++ I' a) (L' a) x) (kfs s) ->
  wpe stop (inop m) (fun a s' => KP N F (I' a) (L' a) d s') s.
Proof.
  intros HK Hd Hm. apply inop_liftF; [by rewrite (ki_out _ _ _ _ _ _ _ _ HK)|]. by apply (liftF_post _ _ _ N F I L).
Qed.

Lemma begin_op_KI N F I L d s : KP N F I L d s -> wpe stop begin_op (fun _ s' => KP N F I L (d + 1) s') s.
Proof. intros [[] ?]. apply wpe_modify. split; [split|]; try done. cbn. lia. Qed.
Lemma end_op_KI N F I L d s : KP N F I L d s -> wpe stop end_op (fun _ s' => KP N F I L (d - 1) s') s.
Proof. intros [[] ?]. apply wpe_modify. split; [split|]; try done. cbn. lia. Qed.

Context (sb : superblock).

(** The call holds a reference to inode [ip], or a file or a process does. *)
Definition holds (I : list nat) (s : ksys) (ip : nat) : Prop := ip ∈ irefs s ++ cwds s ++ I.

Lemma holds_I I s ip : ip ∈ I -> holds I s ip.
Proof. unfold holds. rewrite !elem_of_app. auto. Qed.

Lemma ilock_KI ip N F I L d s : KP N F I L d s -> holds I s ip ->
  wpe stop (liftF (ilock sb ip)) (fun _ s' => KP N F I (ip :: L) d s') s.
Proof.
  intros HK Hh. apply (liftF_post _ (fun _ => I) (fun _ => ip :: L) N F I L); [done|].
  apply ilock_refs; [apply HK|exact Hh].
Qed.

Lemma iunlock_KI ip N F I L d s : KP N F I (ip :: L) d s ->
  wpe stop (liftF (iunlock ip)) (fun _ s' => KP N F I L d s') s.
Proof.
  intros HK. apply (liftF_post _ (fun _ => I) (fun _ => L) N F I (ip :: L)); [done|]. apply iunlock_refs, HK.
Qed.

Lemma refs_cons_perm (a b : list nat) ip I : a ++ b ++ ip :: I ≡ₚ ip :: a ++ b ++ I.
Proof. rewrite !(assoc_L (++)). symmetry. apply Permutation_middle. Qed.

Lemma iput_KI ip N F I L d s : KP N F (ip :: I) L d s -> 0 < d -> L ⊆ I ->
  wpe stop (inop (iput sb ip)) (fun _ s' => KP N F I L d s') s.
Proof.
  intros HK Hd HL. apply (inop_post _ (fun _ => I) (fun _ => L) N F (ip :: I) L); [done|done|].
  apply iput_refs; [rewrite <- refs_cons_perm; apply HK|]. set_solver.
Qed.

Lemma iunlockput_KI ip N F I L d s : KP N F (ip :: I) (ip :: L) d s -> 0 < d -> L ⊆ I ->
  wpe stop (inop (iunlockput sb ip)) (fun _ s' => KP N F I L d s') s.
Proof.
  intros HK Hd HL. apply (inop_post _ (fun _ => I) (fun _ => L) N F (ip :: I) (ip :: L)); [done|done|].
  apply iunlockput_refs; [rewrite <- refs_cons_perm; apply HK|]. set_solver.
Qed.

Lemma liftF_keeps {A} (m : M fs A) N F I L d s : KP N F I L d s -> keeps stop view m ->
  wpe stop (liftF m) (fun _ s' => KP N F I L d s') s.
Proof.
  intros HK Hm. apply (liftF_post _ (fun _ => I) (fun _ => L) N F I L); [done|].
  apply keeps_refs; [done|apply HK].
Qed.
Lemma inop_keeps {A} (m : M fs A) N F I L d s : KP N F I L d s -> 0 < d -> keeps stop view m ->
  wpe stop (inop m) (fun _ s' => KP N F I L d s') s.
Proof. intros HK Hd Hm. apply inop_liftF; [by rewrite (ki_out _ _ _ _ _ _ _ _ HK)|]. by apply liftF_keeps. Qed.

Lemma readip_view {C} ip (f : inode -> C) : keeps stop view (readip ip f).
Proof. apply keeps_gets. Qed.

(** [x->field = ...; iupdate(x);] *)
Lemma update_view ip f : (forall x, who (f x) = who x) -> keeps stop view (_ ← modi ip f; iupdate sb ip).
Proof. intros H. apply keeps_view_bind; [by apply (modi_keeps who)|intros _]. by apply (iupdate_keeps sb who). Qed.

Context (copyin : Z -> nat -> nat * bool) (copyout : Z -> nat -> bool) (p : nat) (Hp : p ∈ P).

Lemma mycwd_KI N F I L d s : KP N F I L d s ->
  wpe stop (mycwd p) (fun c s' => s' = s /\ cwd (getp s p) = Some c /\ c ∈ cwds s) s.
Proof.
  intros HK. destruct (ki_run _ _ _ _ _ _ _ _ HK p Hp) as (x & c & E & Ec).
  unfold mycwd. apply wpe_bind, wpe_gets. rewrite (getp_lookup _ _ _ E), Ec. apply wpe_ret.
  split; [done|]. split; [done|]. unfold cwds. apply list_elem_of_bind. exists x.
  rewrite Ec. split; [by apply list_elem_of_singleton|]. by eapply list_elem_of_lookup_2.
Qed.

(** [I] is the last of three lists. *)
Lemma app_mid (a b I I' : list nat) : I' ++ a ++ b ++ I ≡ₚ a ++ b ++ I' ++ I.
Proof. rewrite (Permutation_app_swap_app I' a). apply Permutation_app_head, Permutation_app_swap_app. Qed.

Lemma knamei_KI path N F I d s : KP N F I [] d s -> 0 < d ->
  wpe stop (knamei sb copyout p path) (fun o s' => KP N F (opt_ref o ++ I) [] d s') s.
Proof.
  intros HK Hd. eapply wpe_bind_mono; [by eapply mycwd_KI|]. intros c ? (-> & _ & Hc).
  apply (inop_post _ (fun o => opt_ref o ++ I) (fun _ => []) N F I []); [done|done|].
  eapply wpe_mono; [apply (namei_refs sb copyout c path (irefs s ++ cwds s ++ I)); [apply HK|set_solver]|].
  intros o x R. cbn beta in *. by rewrite <- app_mid.
Qed.

Lemma knameiparent_KI path N F I d s : KP N F I [] d s -> 0 < d ->
  wpe stop (knameiparent sb copyout p path) (fun o s' => KP N F (opt_ref (fst <$> o) ++ I) [] d s') s.
Proof.
  intros HK Hd. eapply wpe_bind_mono; [by eapply mycwd_KI|]. intros c ? (-> & _ & Hc).
  apply (inop_post _ (fun o => opt_ref (fst <$> o) ++ I) (fun _ => []) N F I []); [done|done|].
  eapply wpe_mono; [apply (namex_refs sb copyout c path true (irefs s ++ cwds s ++ I)); [apply HK|set_solver]|].
  intros o x R. cbn beta in *. by rewrite <- app_mid.
Qed.

Lemma dirlookup_KI dp name N F I L d s : KP N F I L d s ->
  wpe stop (liftF (dirlookup sb copyout dp name)) (fun o s' => KP N F (opt_ref (fst <$> o) ++ I) L d s') s.
Proof.
  intros HK. apply (liftF_post _ (fun o => opt_ref (fst <$> o) ++ I) (fun _ => L) N F I L); [done|].
  eapply wpe_mono; [apply (dirlookup_refs sb copyout dp name (irefs s ++ cwds s ++ I)), HK|].
  intros o x R. cbn beta in *. by rewrite <- app_mid.
Qed.

Lemma ialloc_KI dev type N F I L d s : KP N F I L d s -> 0 < d ->
  wpe stop (inop (ialloc sb dev type)) (fun o s' => KP N F (opt_ref o ++ I) L d s') s.
Proof.
  intros HK Hd. apply (inop_post _ (fun o => opt_ref o ++ I) (fun _ => L) N F I L); [done|done|].
  eapply wpe_mono; [apply (ialloc_refs sb dev type (irefs s ++ cwds s ++ I)), HK|].
  intros o x R. cbn beta in *. by rewrite <- app_mid.
Qed.

Lemma dirlink_KI dp name inum N F I L d s : KP N F I L d s -> 0 < d ->
  wpe stop (inop (dirlink sb copyin copyout dp name inum)) (fun _ s' => KP N F I L d s') s.
Proof.
  intros HK Hd. apply (inop_post _ (fun _ => I) (fun _ => L) N F I L); [done|done|]. apply dirlink_refs, HK.
Qed.
End Ops.

(** ** Directories *)

Ltac kside := first [eassumption | lia | apply holds_I; set_solver | set_solver | assumption].
Tactic Notation "kstep" open_constr(l) "as" simple_intropattern(a) ident(s) ident(R) :=
  eapply wpe_bind_mono; [eapply l; kside|]; cbn beta; intros a s R.
Tactic Notation "kread" "as" ident(a) ident(s) ident(R) :=
  eapply wpe_bind_mono; [eapply liftF_keeps; [eassumption|apply readip_view]|]; cbn beta; intros a s R.
Tactic Notation "kupd" "as" ident(s) ident(R) :=
  eapply wpe_bind_mono; [eapply inop_keeps; [eassumption|lia|by apply update_view]|]; cbn beta; intros ? s R.

Section Dirs.
Context (P X : list nat) (sb : superblock) (copyin : Z -> nat -> nat * bool) (copyout : Z -> nat -> bool).
Context (p : nat) (Hp : p ∈ P).
Abbreviation KP := (KI P X).

Lemma fail_op_KI N F I L s : KP N F I L 1 s -> wpe stop fail_op (fun _ s' => KP N F I L 0 s') s.
Proof. intros R. kstep end_op_KI as ? s1 R1. exact R1. Qed.

Lemma fail_put_KI ip N F I L s : KP N F (ip :: I) (ip :: L) 1 s -> L ⊆ I ->
  wpe stop (fail_put sb ip) (fun _ s' => KP N F I L 0 s') s.
Proof. intros R HL. kstep iunlockput_KI as ? s1 R1. by apply fail_op_KI. Qed.

Lemma link_bad_KI ip s : KP [] [] [ip] [] 1 s -> wpe stop (link_bad sb ip) (fun _ s' => KP [] [] [] [] 0 s') s.
Proof.
  intros R. kstep ilock_KI as ? s1 R1. kupd as s2 R2. by apply fail_put_KI.
Qed.

Lemma sys_link_KI old new s : KP [] [] [] [] 0 s ->
  wpe stop (sys_link sb copyin copyout p old new) (fun _ s' => KP [] [] [] [] 0 s') s.
Proof.
  intros R. destruct old as [old|], new as [new|]; try done. unfold sys_link.
  kstep begin_op_KI as ? s1 R1. kstep knamei_KI as [ip|] s2 R2; [|by apply fail_op_KI]. cbn in R2.
  kstep ilock_KI as ? s3 R3. kread as x s4 R4. destruct (i_type x =? T_DIR); [by apply fail_put_KI|].
  kupd as s5 R5. kstep iunlock_KI as ? s6 R6.
  kstep knameiparent_KI as [[dp name]|] s7 R7; [|by apply link_bad_KI]. cbn in R7.
  kstep ilock_KI as ? s8 R8. kread as dx s9 R9.
  eapply (wpe_bind_mono _ _ _ (fun _ s' => KP [] [] [dp; ip] [dp] 1 s')).
  { destruct (negb (i_dev dx =? i_dev x)); [exact R9|]. eapply dirlink_KI; kside. }
  intros r s10 R10. destruct (r <? 0).
  - kstep iunlockput_KI as ? s11 R11. by apply link_bad_KI.
  - kstep iunlockput_KI as ? s11 R11. kstep iput_KI as ? s12 R12. kstep end_op_KI as ? s13 R13. exact R13.
Qed.

Lemma KI_swap N F i j I L d s : KP N F (i :: j :: I) L d s -> KP N F (j :: i :: I) L d s.
Proof. intros [[] ?]. split; [split|]; try done. by rewrite (Permutation_swap i j). Qed.
Lemma KI_lswap N F i j I L d s : KP N F I (i :: j :: L) d s -> KP N F I (j :: i :: L) d s.
Proof. intros [[] ?]. split; [split|]; try done. by rewrite (Permutation_swap i j). Qed.

(** [unlink] also stops for a link count that is not positive. *)
Definition unlink_stop (e : string) : Prop := stop e \/ e = "unlink: nlink < 1".

Lemma unlink_weak {A B} (m : K A) (f : A -> K B) (Q' : A -> ksys -> Prop) (Q : B -> ksys -> Prop) s :
  wpe stop m Q' s -> (forall a s', Q' a s' -> wpe unlink_stop (f a) Q s') -> wpe unlink_stop (m ≫= f) Q s.
Proof. intros H1 H2. eapply wpe_bind_mono; [|exact H2]. eapply wpe_weaken; [|exact H1]. by left. Qed.

Lemma unlink_entry_KI dp ip off s : KP [] [] [ip; dp] [dp] 1 s ->
  wpe unlink_stop (unlink_entry sb copyin copyout dp ip off) (fun _ s' => KP [] [] [] [] 0 s') s.
Proof.
  intros R. unfold unlink_entry. eapply unlink_weak; [eapply ilock_KI; kside|]. cbn beta. intros ? s1 R1.
  eapply unlink_weak; [eapply liftF_keeps; [eassumption|apply readip_view]|]. cbn beta. intros x s2 R2.
  apply wpe_bind, wpe_panic_if; [intros _; by right|intros _]. eapply (wpe_weaken _ stop); [by left|].
  eapply (wpe_bind_mono _ _ _ (fun _ s' => KP [] [] [ip; dp] [ip; dp] 1 s')).
  { destruct (i_type x =? T_DIR); [|exact R2].
    eapply wpe_bind_mono; [eapply liftF_keeps; [eassumption|apply isdirempty_keeps]|]. intros ? ? ?. done. }
  intros [|] s3 R3.
  { kstep iunlockput_KI as ? s4 R4. by apply fail_put_KI. }
  eapply wpe_bind_mono; [eapply inop_keeps; [eassumption|lia|by apply (writei_keeps sb _ copyin who)]|].
  cbn beta. intros n s4 R4. apply wpe_bind, wpe_panic_if; [intros _; stop|intros _].
  eapply (wpe_bind_mono _ _ _ (fun _ s' => KP [] [] [ip; dp] [ip; dp] 1 s')).
  { destruct (i_type x =? T_DIR); [|exact R4]. eapply inop_keeps; [eassumption|lia|by apply update_view]. }
  intros ? s5 R5. apply KI_swap, KI_lswap in R5. kstep iunlockput_KI as ? s6 R6.
  kupd as s7 R7. kstep iunlockput_KI as ? s8 R8. kstep end_op_KI as ? s9 R9. exact R9.
Qed.

Lemma sys_unlink_KI path s : KP [] [] [] [] 0 s ->
  wpe unlink_stop (sys_unlink sb copyin copyout p path) (fun _ s' => KP [] [] [] [] 0 s') s.
Proof.
  assert (forall A (m : K A) Q s, wpe stop m Q s -> wpe unlink_stop m Q s) as HW.
  { intros A m Q s'. apply wpe_weaken. by left. }
  intros R. destruct path as [path|]; [|done]. unfold sys_unlink.
  eapply unlink_weak; [eapply begin_op_KI; kside|]. cbn beta. intros ? s1 R1.
  eapply unlink_weak; [eapply knameiparent_KI; kside|]. cbn beta. intros [[dp name]|] s2 R2; [|by apply HW, fail_op_KI]. cbn in R2.
  eapply unlink_weak; [eapply ilock_KI; kside|]. cbn beta. intros ? s3 R3. destruct (_ || _); [by apply HW, fail_put_KI|].
  eapply unlink_weak; [eapply dirlookup_KI; kside|]. cbn beta. intros [[ip off]|] s4 R4; [|by apply HW, fail_put_KI].
  by apply unlink_entry_KI.
Qed.

(** [create] returns a locked inode. *)
Lemma create_new_KI dp ip name type major minor s : KP [] [] [ip; dp] [dp] 1 s ->
  wpe stop (create_new sb copyin copyout dp ip name type major minor)
    (fun o s' => KP [] [] (opt_ref o) (opt_ref o) 1 s') s.
Proof.
  intros R. unfold create_new. kstep ilock_KI as ? s1 R1. kupd as s2 R2.
  kread as inum s3 R3. kread as dinum s4 R4.
  eapply (wpe_bind_mono _ _ _ (fun _ s' => KP [] [] [ip; dp] [ip; dp] 1 s')).
  { destruct (type =? T_DIR); [|exact R4]. kstep dirlink_KI as r1 s5 R5.
    destruct (r1 <? 0); [exact R5|]. eapply dirlink_KI; kside. }
  intros r1 s6 R6. eapply (wpe_bind_mono _ _ _ (fun _ s' => KP [] [] [ip; dp] [ip; dp] 1 s')).
  { destruct (r1 <? 0); [exact R6|]. eapply dirlink_KI; kside. }
  intros r2 s7 R7. destruct (r2 <? 0).
  - kupd as s8 R8. kstep iunlockput_KI as ? s9 R9. kstep iunlockput_KI as ? s10 R10. exact R10.
  - eapply (wpe_bind_mono _ _ _ (fun _ s' => KP [] [] [ip; dp] [ip; dp] 1 s')).
    { destruct (type =? T_DIR); [|exact R7]. eapply inop_keeps; [eassumption|lia|by apply update_view]. }
    intros ? s8 R8. apply KI_swap, KI_lswap in R8. kstep iunlockput_KI as ? s9 R9. exact R9.
Qed.

Lemma create_KI path type major minor s : KP [] [] [] [] 1 s ->
  wpe stop (create sb copyin copyout p path type major minor)
    (fun o s' => KP [] [] (opt_ref o) (opt_ref o) 1 s') s.
Proof.
  intros R. unfold create. kstep knameiparent_KI as [[dp name]|] s1 R1; [|exact R1]. cbn in R1.
  kstep ilock_KI as ? s2 R2. kstep dirlookup_KI as [[ip off]|] s3 R3; cbn in R3.
  - apply KI_swap in R3. kstep iunlockput_KI as ? s4 R4. kstep ilock_KI as ? s5 R5. kread as t s6 R6.
    destruct (_ && _); [exact R6|]. kstep iunlockput_KI as ? s7 R7. exact R7.
  - kread as dev s4 R4. kstep ialloc_KI as [ip|] s5 R5; cbn in R5; [by apply create_new_KI|].
    kstep iunlockput_KI as ? s6 R6. exact R6.
Qed.

Lemma make_node_KI path type major minor s : KP [] [] [] [] 0 s ->
  wpe stop (make_node sb copyin copyout p path type major minor) (fun _ s' => KP [] [] [] [] 0 s') s.
Proof.
  intros R. unfold make_node. kstep begin_op_KI as ? s1 R1. destruct path as [path|]; [|by apply fail_op_KI].
  kstep create_KI as [ip|] s2 R2; [|by apply fail_op_KI]. cbn in R2.
  kstep iunlockput_KI as ? s3 R3. kstep end_op_KI as ? s4 R4. exact R4.
Qed.
End Dirs.

(** ** The tables of files and processes *)

Lemma irefs_updf s f g : (f < length (ftab s))%nat ->
  file_ip (getf s f) ++ irefs (updf f g s) ≡ₚ file_ip (g (getf s f)) ++ irefs s.
Proof. intros H. apply bind_insert, getf_lookup, H. Qed.
Lemma ends_updf w s f g : (f < length (ftab s))%nat ->
  pipe_end w (getf s f) ++ ends w (updf f g s) ≡ₚ pipe_end w (g (getf s f)) ++ ends w s.
Proof. intros H. apply bind_insert, getf_lookup, H. Qed.
Lemma ends_updf_same w s f g : (f < length (ftab s))%nat -> pipe_end w (g (getf s f)) = pipe_end w (getf s f) ->
  ends w (updf f g s) = ends w s.
Proof. intros H E. eapply bind_insert_same; [by apply getf_lookup|exact E]. Qed.

(** A file changes: [x] is its entry and [N], [F], [I] become [N'], [F'], [I']. *)
Lemma KB_file P X N F I L d s f g N' F' I' (x := getf s f) :
  KB P X N F I L d s -> (f < NFILE)%nat ->
  file_ip (g x) ++ I' ≡ₚ file_ip x ++ I ->
  f_ref (g x) = cnt f (fds s ++ F') -> (forall j, j <> f -> cnt j F' = cnt j F) ->
  (f_type (g x) = FD_NONE <-> f ∉ fds s ++ F' \/ f ∈ N') -> (forall j, j <> f -> j ∈ N' <-> j ∈ N) ->
  NoDup N' -> (f ∈ N' -> cnt f (fds s ++ F') = 1) ->
  KB P X N' F' I' L d (updf f g s).
Proof.
  subst x. intros K Hf Hi Hr Hrj Ht Htj HN HN1. pose proof (ki_nfile _ _ _ _ _ _ _ _ K) as Hl.
  assert (forall j, j <> f -> cnt j (fds s ++ F') = cnt j (fds s ++ F)) as C
    by (intros j Hj; rewrite !cnt_app, Hrj; done).
  split; try apply K.
  - eapply refs_ok_perm; [|reflexivity|reflexivity|apply K].
    apply (Permutation_app_inv_l (file_ip (getf s f))). rewrite (assoc_L (++)), irefs_updf by lia.
    change (cwds (updf f g s)) with (cwds s).
    rewrite <- (assoc_L (++)), (app_mid (irefs s) (cwds s) I' (file_ip (g (getf s f)))).
    rewrite (app_mid (irefs s) (cwds s) I (file_ip (getf s f))). by rewrite Hi.
  - cbn. by rewrite length_insert.
  - intros j Hj. destruct (decide (j = f)) as [->|Nj]; [done|]. apply (ki_fin _ _ _ _ _ _ _ _ K).
    by apply (cnt_elem j _ _ (C j Nj)).
  - intros j Hj. change (fds (updf f g s)) with (fds s). destruct (decide (j = f)) as [->|Nj].
    + rewrite getf_updf by lia. exact Hr.
    + rewrite getf_updf_ne, C by done. by apply K.
  - intros j Hj. change (fds (updf f g s)) with (fds s). destruct (decide (j = f)) as [->|Nj].
    + rewrite getf_updf by lia. exact Ht.
    + rewrite getf_updf_ne, (cnt_elem j _ _ (C j Nj)), Htj by done. by apply K.
  - done.
  - intros j Hj. change (fds (updf f g s)) with (fds s). destruct (decide (j = f)) as [->|Nj]; [by apply HN1|].
    rewrite C by done. apply (ki_new1 _ _ _ _ _ _ _ _ K). by apply Htj.
Qed.

(** A process changes from [x] to [y]. *)
Lemma KB_proc P X N F I L d s q x y P' X' F' I' :
  KB P X N F I L d s -> procs s !! q = Some x ->
  (ofile y ≫= opt_ref) ++ F' ≡ₚ (ofile x ≫= opt_ref) ++ F ->
  opt_ref (cwd y) ++ I' ≡ₚ opt_ref (cwd x) ++ I ->
  length (ofile y) = NOFILE -> (q ∉ X' -> cwd y = None -> y = pfiles0) ->
  (forall j, j <> q -> j ∈ X -> j ∈ X') ->
  (forall j, j ∈ P' -> if decide (j = q) then exists c, cwd y = Some c else j ∈ P) ->
  KB P' X' N F' I' L d (set_procs (<[q := y]> (procs s)) s).
Proof.
  intros K E Ho Hc Hl Hd HX HP. set (s' := set_procs (<[q := y]> (procs s)) s).
  assert (fds s' ++ F' ≡ₚ fds s ++ F) as EF.
  { apply (Permutation_app_inv_l (ofile x ≫= opt_ref)). rewrite (assoc_L (++)).
    unfold fds, s'. cbn [procs set_procs]. rewrite (bind_insert (fun x => ofile x ≫= opt_ref) _ _ _ y E).
    rewrite <- (assoc_L (++)), Permutation_app_swap_app, Ho. apply Permutation_app_swap_app. }
  assert (cwds s' ++ I' ≡ₚ cwds s ++ I) as EI.
  { apply (Permutation_app_inv_l (opt_ref (cwd x))). rewrite (assoc_L (++)).
    unfold cwds, s'. cbn [procs set_procs]. rewrite (bind_insert (fun x => opt_ref (cwd x)) _ _ _ y E).
    rewrite <- (assoc_L (++)), Permutation_app_swap_app, Hc. apply Permutation_app_swap_app. }
  assert (forall j z, <[q := y]> (procs s) !! j = Some z -> (j = q /\ z = y) \/ (j <> q /\ procs s !! j = Some z)) as G.
  { intros j z. destruct (decide (j = q)) as [->|Nj]; [|rewrite list_lookup_insert_ne by done; auto].
    rewrite list_lookup_insert_eq by (by eapply lookup_lt_Some). intros [= <-]. auto. }
  split; try apply K.
  - eapply refs_ok_perm; [|reflexivity|reflexivity|apply K]. by apply Permutation_app_head.
  - intros f Hf. apply (ki_fin _ _ _ _ _ _ _ _ K). by rewrite <- EF.
  - intros f Hf. rewrite (cnt_perm f _ _ EF). by apply K.
  - intros f Hf. rewrite EF. by apply K.
  - intros f Hf. rewrite (cnt_perm f _ _ EF). by apply K.
  - intros j z [[-> ->]|[Nj Ej]]%G; [done|]. by eapply (ki_nofile _ _ _ _ _ _ _ _ K).
  - intros j z [[-> ->]|[Nj Ej]]%G HjX; [by apply Hd|]. apply (ki_dead _ _ _ _ _ _ _ _ K j z Ej). auto.
  - intros j Hj. specialize (HP j Hj). cbn. destruct (decide (j = q)) as [->|Nj].
    + destruct HP as [c Hc']. exists y, c. rewrite list_lookup_insert_eq by (by eapply lookup_lt_Some). done.
    + destruct (ki_run _ _ _ _ _ _ _ _ K j HP) as (z & c & Ez & Hz). exists z, c. by rewrite list_lookup_insert_ne.
Qed.

Lemma updp_lookup q g s x : procs s !! q = Some x -> updp q g s = set_procs (<[q := g x]> (procs s)) s.
Proof. intros E. unfold updp. by rewrite (getp_lookup _ _ _ E). Qed.

(** A descriptor changes from [o] to [o']. *)
Lemma bind_ofile l fd o o' : l !! fd = Some o -> forall F F', opt_ref o' ++ F' ≡ₚ opt_ref o ++ F ->
  (<[fd := o']> l ≫= opt_ref) ++ F' ≡ₚ (l ≫= opt_ref) ++ F.
Proof.
  intros E F F' H. apply (Permutation_app_inv_l (opt_ref o)). rewrite (assoc_L (++)).
  rewrite (bind_insert opt_ref _ _ _ o' E), <- (assoc_L (++)), Permutation_app_swap_app, H. apply Permutation_app_swap_app.
Qed.

(** An update of one descriptor of a process. *)
Lemma KI_fd P X N F I L d s q x fd o o' F' :
  KI P X N F I L d s -> procs s !! q = Some x -> ofile x !! fd = Some o ->
  opt_ref o' ++ F' ≡ₚ opt_ref o ++ F -> (exists c, cwd x = Some c) \/ q ∈ X ->
  KI P X N F' I L d (updp q (set_ofile fd o') s).
Proof.
  intros K E Eo HF Hc. rewrite (updp_lookup _ _ _ _ E). split; [|apply K].
  eapply KB_proc; [apply K|exact E| | | | | |].
  - by eapply bind_ofile.
  - done.
  - cbn. rewrite length_insert. eapply (ki_nofile _ _ _ _ _ _ _ _ K), E.
  - intros HX Hn. cbn in Hn. destruct Hc as [[c Hc]|Hc]; [congruence|done].
  - auto.
  - intros j Hj. destruct (decide (j = q)) as [->|]; [|done].
    destruct (ki_run _ _ _ _ _ _ _ _ K q Hj) as (z & c & Ez & Hz). exists c. cbn. congruence.
Qed.

(** ** The operations of [file.c] *)

Lemma free_file_spec l : forall k, match free_file l k with
  | Some f => (k <= f < k + length l)%nat /\ f_ref (nth (f - k) l file0) = 0
  | None => True
  end.
Proof.
  induction l as [|x l IH]; intros k; cbn [free_file]; [done|]. destruct (Z.eqb_spec (f_ref x) 0) as [E|E].
  { rewrite Nat.sub_diag. cbn. split; [lia|done]. }
  specialize (IH (S k)). destruct (free_file l (S k)) as [f|]; [|done]. cbn [length].
  destruct IH as [H1 H2]. split; [lia|]. replace (f - k)%nat with (S (f - S k)) by lia. done.
Qed.

Lemma free_fd_spec l : forall k, match free_fd l k with
  | Some fd => (k <= fd)%nat /\ l !! (fd - k)%nat = Some None
  | None => True
  end.
Proof.
  induction l as [|[x|] l IH]; intros k; cbn [free_fd]; [done| |rewrite Nat.sub_diag; split; [lia|done]].
  specialize (IH (S k)). destruct (free_fd l (S k)) as [f|]; [|done].
  destruct IH as [H1 H2]. split; [lia|]. replace (f - k)%nat with (S (f - S k)) by lia. done.
Qed.

(** A change of a file that is no pipe keeps the pipes. *)
Lemma pipes_updf s f g : (f < length (ftab s))%nat ->
  (forall w, pipe_end w (g (getf s f)) = pipe_end w (getf s f)) ->
  pipes_ok (ends false s) (ends true s) (pipes s) ->
  pipes_ok (ends false (updf f g s)) (ends true (updf f g s)) (pipes (updf f g s)).
Proof. intros Hf Hw H. rewrite !ends_updf_same by done. exact H. Qed.

Section Files.
Context (P X : list nat).
Abbreviation KP := (KI P X).

Lemma filealloc_KI N F I L d s : KP N F I L d s ->
  wpe stop filealloc (fun o s' => match o with
    | Some f => KP (f :: N) (f :: F) I L d s' /\ (f < NFILE)%nat
    | None => KP N F I L d s' end) s.
Proof.
  intros K. unfold filealloc. apply wpe_bind, wpe_get. pose proof (free_file_spec (ftab s) 0) as G.
  destruct (free_file (ftab s) 0) as [f|]; [|done]. rewrite Nat.sub_0_r in G. destruct G as [Hf G].
  rewrite (ki_nfile _ _ _ _ _ _ _ _ K) in Hf. fold (getf s f) in G. cbn in Hf.
  rewrite (ki_fref _ _ _ _ _ _ _ _ K) in G by lia.
  assert (f ∉ fds s ++ F) as Hn by (rewrite cnt_pos; lia).
  assert (f_type (getf s f) = FD_NONE) as Ht by (apply (ki_type _ _ _ _ _ _ _ _ K); [lia|auto]).
  assert (f ∉ N) as HN by (intros H%(ki_new1 _ _ _ _ _ _ _ _ K); lia).
  assert (cnt f (fds s ++ f :: F) = 1) as E1 by (rewrite cnt_app, cnt_ref_cons, decide_True by done; rewrite cnt_app in G; lia).
  apply wpe_bind, wpe_modify, wpe_ret. split; [|lia]. split.
  - eapply KB_file; [apply K|lia|done| | | | | |].
    + done.
    + intros j Hj. by rewrite cnt_ref_cons, decide_False.
    + cbn. rewrite Ht. set_solver.
    + set_solver.
    + constructor; [done|apply K].
    + done.
  - apply pipes_updf; [rewrite (ki_nfile _ _ _ _ _ _ _ _ K); lia| |apply K]. intros w. done.
Qed.

(** A file that is named by a descriptor or by the call is in use. *)
Lemma file_used N F I L d s f : KP N F I L d s -> f ∈ fds s ++ F -> f ∉ N ->
  (f < NFILE)%nat /\ 0 < f_ref (getf s f) /\ f_type (getf s f) <> FD_NONE.
Proof.
  intros K Hf HN. pose proof (ki_fin _ _ _ _ _ _ _ _ K f Hf) as Hl.
  rewrite (ki_fref _ _ _ _ _ _ _ _ K), (ki_type _ _ _ _ _ _ _ _ K) by done. split; [done|].
  split; [by apply cnt_pos|]. tauto.
Qed.

Lemma filedup_KI f N F I L d s : KP N F I L d s -> f ∈ fds s ++ F -> f ∉ N ->
  wpe stop (filedup f) (fun r s' => r = f /\ KP N (f :: F) I L d s' /\ procs s' = procs s) s.
Proof.
  intros K Hf HN. destruct (file_used _ _ _ _ _ _ f K Hf HN) as (Hl & Hr & Ht).
  unfold filedup. apply wpe_bind, wpe_gets, wpe_bind, wpe_panic_if; [lia|intros _].
  apply wpe_bind, wpe_modify, wpe_ret. split; [done|]. split; [|done]. split.
  - eapply KB_file; [apply K|lia|done| | | |done|apply K|done].
    + cbn. rewrite (ki_fref _ _ _ _ _ _ _ _ K) by done. rewrite !cnt_app, cnt_ref_cons, decide_True by done. lia.
    + intros j Hj. by rewrite cnt_ref_cons, decide_False.
    + cbn. set_solver.
  - apply pipes_updf; [rewrite (ki_nfile _ _ _ _ _ _ _ _ K); lia|done|apply K].
Qed.

Lemma set_foff_KI f o N F I L d s : KP N F I L d s -> (f < NFILE)%nat -> KP N F I L d (updf f (set_foff o) s).
Proof.
  intros K Hf. split.
  - eapply KB_file; [apply K|done|done| |done| |done|apply K|]; cbn.
    + by apply (ki_fref _ _ _ _ _ _ _ _ K).
    + by apply (ki_type _ _ _ _ _ _ _ _ K).
    + apply (ki_new1 _ _ _ _ _ _ _ _ K).
  - apply pipes_updf; [rewrite (ki_nfile _ _ _ _ _ _ _ _ K); lia|done|apply K].
Qed.

Context (p : nat) (Hp : p ∈ P).

Lemma argfd_KI fd N F I L d s : KP N F I L d s ->
  wpe stop (argfd p fd) (fun o s' => s' = s /\ match o with
    | Some (k, f) => f ∈ fds s /\ exists x c, procs s !! p = Some x /\ cwd x = Some c /\ ofile x !! k = Some (Some f)
    | None => True end) s.
Proof.
  intros K. unfold argfd. destruct (_ || _); [done|]. apply wpe_bind, wpe_gets, wpe_ret. split; [done|].
  destruct (ki_run _ _ _ _ _ _ _ _ K p Hp) as (x & c & E & Ec). rewrite (getp_lookup _ _ _ E).
  destruct (nth (Z.to_nat fd) (ofile x) None) as [f|] eqn:En; [|done].
  assert (ofile x !! Z.to_nat fd = Some (Some f)) as El.
  { destruct (decide (Z.to_nat fd < length (ofile x))%nat) as [Hl|Hl]; [|rewrite nth_overflow in En by lia; done].
    destruct (lookup_lt_is_Some_2 _ _ Hl) as [o Eo]. rewrite (nth_lookup_Some _ _ _ _ Eo) in En. congruence. }
  split; [|by exists x, c]. apply list_elem_of_bind. exists x. split; [|by eapply list_elem_of_lookup_2].
  apply list_elem_of_bind. exists (Some f). split; [by apply list_elem_of_singleton|by eapply list_elem_of_lookup_2].
Qed.

(** [fdalloc] puts [f] into an empty slot [fd] of the process. *)
Lemma fdalloc_slot f N F I L d s : KP N F I L d s ->
  wpe stop (fdalloc p f) (fun o s' => match o with
    | Some fd => s' = updp p (set_ofile fd (Some f)) s /\
        exists x c, procs s !! p = Some x /\ cwd x = Some c /\ ofile x !! fd = Some None
    | None => s' = s end) s.
Proof.
  intros K. unfold fdalloc. apply wpe_bind, wpe_gets.
  destruct (ki_run _ _ _ _ _ _ _ _ K p Hp) as (x & c & E & Ec). rewrite (getp_lookup _ _ _ E).
  pose proof (free_fd_spec (ofile x) 0) as G. destruct (free_fd (ofile x) 0) as [fd|]; [|done].
  apply wpe_bind, wpe_modify, wpe_ret. rewrite Nat.sub_0_r in G. split; [done|]. exists x, c. tauto.
Qed.

(** It takes over the caller's reference. *)
Lemma fdalloc_KI f N F I L d s : KP N (f :: F) I L d s ->
  wpe stop (fdalloc p f) (fun o s' => match o with
    | Some fd => KP N F I L d s' /\ ftab s' = ftab s /\
        exists x c, procs s' !! p = Some x /\ cwd x = Some c /\ ofile x !! fd = Some (Some f)
    | None => s' = s end) s.
Proof.
  intros K. eapply wpe_mono; [by eapply fdalloc_slot|]. cbn beta. intros [fd|] s'; [|done].
  intros (-> & x & c & E & Ec & Eo). split; [|split; [done|]].
  - eapply KI_fd; [exact K|exact E|exact Eo|done|left; by exists c].
  - exists (set_ofile fd (Some f) x), c. rewrite (updp_lookup _ _ _ _ E). cbn.
    rewrite list_lookup_insert_eq by (by eapply lookup_lt_Some). split; [done|]. split; [done|].
    rewrite list_lookup_insert_eq by (by eapply lookup_lt_Some). done.
Qed.

(** Clearing a descriptor leaves the reference to the caller. *)
Lemma clear_fd_KI fd f x c N F I L d s : KP N F I L d s ->
  procs s !! p = Some x -> cwd x = Some c -> ofile x !! fd = Some (Some f) ->
  KP N (f :: F) I L d (updp p (set_ofile fd None) s).
Proof. intros K E Ec Eo. eapply KI_fd; [exact K|exact E|exact Eo|done|left; by exists c]. Qed.
End Files.

(** ** Pipes *)

(** What [pipes_ok] asks of one pipe. *)
Definition pipe_ok (R W : list nat) (pi : nat) (o : option Pipe.pst) : Prop :=
  match o with
  | Some x => Pipe.readopen (Pipe.pp x) = cnt pi R /\ Pipe.writeopen (Pipe.pp x) = cnt pi W /\ pi ∈ R ++ W
  | None => pi ∉ R ++ W
  end.

Lemma pipe_ok_cnt R W R' W' pi o : cnt pi R' = cnt pi R -> cnt pi W' = cnt pi W -> pipe_ok R W pi o -> pipe_ok R' W' pi o.
Proof.
  intros E1 E2. assert (pi ∈ R' ++ W' <-> pi ∈ R ++ W) as E by (rewrite !elem_of_app, (cnt_elem pi R' R E1), (cnt_elem pi W' W E2); done).
  destruct o as [x|]; cbn; [rewrite E1, E2|]; tauto.
Qed.

Lemma pipes_ok_upd R W R' W' ps pi o :
  pipes_ok R W ps -> (pi < length ps)%nat -> NoDup R' -> NoDup W' ->
  (forall j, j <> pi -> cnt j R' = cnt j R /\ cnt j W' = cnt j W) -> pipe_ok R' W' pi o ->
  pipes_ok R' W' (<[pi := o]> ps).
Proof.
  intros [N1 N2 H3 H4] Hpi HR HW Hj Ho. split; try done.
  - intros j Hin. rewrite length_insert. destruct (decide (j = pi)) as [->|Nj]; [done|]. destruct (Hj j Nj) as [E1 E2].
    apply H3. rewrite elem_of_app in *. by rewrite <- (cnt_elem j _ _ E1), <- (cnt_elem j _ _ E2).
  - intros j o' E. destruct (decide (j = pi)) as [->|Nj].
    + rewrite list_lookup_insert_eq in E by done. injection E as <-. exact Ho.
    + rewrite list_lookup_insert_ne in E by done. destruct (Hj j Nj) as [E1 E2].
      by apply (pipe_ok_cnt R W R' W' j o'), H4.
Qed.

(** A pipe with an open end has not been freed. *)
Lemma pipes_ok_live R W ps pi : pipes_ok R W ps -> pi ∈ R ++ W ->
  exists x, ps !! pi = Some (Some x) /\ pipe_ok R W pi (Some x).
Proof.
  intros [_ _ H3 H4] Hin. destruct (lookup_lt_is_Some_2 ps pi (H3 pi Hin)) as [o E].
  pose proof (H4 pi o E) as G. destruct o as [x|]; [by exists x|done].
Qed.

Lemma NoDup_cnt_le (x : nat) l : NoDup l -> cnt x l <= 1.
Proof. intros H. pose proof (proj1 (NoDup_count_occ Nat.eq_dec l) ltac:(by apply NoDup_ListNoDup) x). unfold cnt. lia. Qed.

Lemma cnt_perm_cons x y l l' : y :: l' ≡ₚ l -> cnt x l = (if decide (x = y) then 1 else 0) + cnt x l'.
Proof. intros H. by rewrite <- (cnt_perm x _ _ H), cnt_ref_cons. Qed.

(** Closing one end of a pipe: [R'] and [W'] are without that end. *)
Lemma pipeclose_ok (w : bool) R W R' W' ps pi s :
  pipes_ok R W ps -> pipes s = ps ->
  (if w then R' = R /\ pi :: W' ≡ₚ W else pi :: R' ≡ₚ R /\ W' = W) ->
  wpe stop (pipeclose pi w) (fun _ s' => exists ps', s' = set_pipes ps' s /\ pipes_ok R' W' ps') s.
Proof.
  intros H <- HW.
  assert (pi ∈ R ++ W) as Hin. { rewrite elem_of_app. destruct w; destruct HW as [E1 E2]; [right; rewrite <- E2|left; rewrite <- E1]; set_solver. }
  destruct (pipes_ok_live _ _ _ pi H Hin) as (x & Ex & (X1 & X2 & _)).
  pose proof (NoDup_cnt_le pi R (po_read _ _ _ H)) as B1. pose proof (NoDup_cnt_le pi W (po_write _ _ _ H)) as B2.
  pose proof (lookup_lt_Some _ _ _ Ex) as Hl.
  assert (exists x', Pipe.pipeclose w x =
      Ret ((Pipe.readopen (Pipe.pp x') =? 0) && (Pipe.writeopen (Pipe.pp x') =? 0), x') /\
      Pipe.readopen (Pipe.pp x') = (if w then cnt pi R else 0) /\
      Pipe.writeopen (Pipe.pp x') = (if w then 0 else cnt pi W)) as (x' & Ec & C1 & C2).
  { destruct w.
    - exists (Pipe.mkPst (Pipe.mkPipe (Pipe.data (Pipe.pp x)) (Pipe.nread (Pipe.pp x)) (Pipe.nwrite (Pipe.pp x))
        (Pipe.readopen (Pipe.pp x)) 0) 0 (Pipe.wwait x)). split; [reflexivity|]. cbn. auto.
    - exists (Pipe.mkPst (Pipe.mkPipe (Pipe.data (Pipe.pp x)) (Pipe.nread (Pipe.pp x)) (Pipe.nwrite (Pipe.pp x))
        0 (Pipe.writeopen (Pipe.pp x))) (Pipe.rwait x) 0). split; [reflexivity|]. cbn. auto. }
  assert (NoDup R' /\ NoDup W' /\ (forall j, j <> pi -> cnt j R' = cnt j R /\ cnt j W' = cnt j W) /\
    Pipe.readopen (Pipe.pp x') = cnt pi R' /\ Pipe.writeopen (Pipe.pp x') = cnt pi W') as (N1 & N2 & Cj & D1 & D2).
  { pose proof (po_read _ _ _ H) as Q1. pose proof (po_write _ _ _ H) as Q2. rewrite C1, C2. clear C1 C2 Ec.
    destruct w; destruct HW as [E1 E2].
    - subst R'. rewrite <- E2 in Q2. apply list.NoDup_cons in Q2 as [Q3 Q4]. rewrite cnt_pos in Q3.
      pose proof (cnt_ref_nonneg pi W'). split; [done|]. split; [done|]. split; [|split; [done|lia]].
      intros j Nj. rewrite (cnt_perm_cons j _ _ _ E2), decide_False by done. done.
    - subst W'. rewrite <- E1 in Q1. apply list.NoDup_cons in Q1 as [Q3 Q4]. rewrite cnt_pos in Q3.
      pose proof (cnt_ref_nonneg pi R'). split; [done|]. split; [done|]. split; [|split; [lia|done]].
      intros j Nj. rewrite (cnt_perm_cons j _ _ _ E1), decide_False by done. done. }
  unfold pipeclose. apply wpe_bind. unfold wpe at 1, liftP. rewrite Ex, Ec, D1, D2.
  destruct ((cnt pi R' =? 0) && (cnt pi W' =? 0)) eqn:Eb.
  - apply wpe_modify. exists (<[pi := None]> (<[pi := Some x']> (pipes s))). split; [done|].
    rewrite list_insert_insert_eq. apply (pipes_ok_upd R W); try done. cbn. rewrite elem_of_app, !cnt_pos. lia.
  - apply wpe_ret. exists (<[pi := Some x']> (pipes s)). split; [done|].
    apply (pipes_ok_upd R W); try done. split; [done|]. split; [done|]. rewrite elem_of_app, !cnt_pos.
    pose proof (cnt_ref_nonneg pi R'). pose proof (cnt_ref_nonneg pi W'). lia.
Qed.

(** ** Code that does not look at the descriptor tables *)

Definition oblivious {A} (m : K A) : Prop := forall x s,
  m (set_procs x s) = match m s with
    | Ret (a, s') => Ret (a, set_procs x s') | Panic e => Panic e | Undef e => Undef e end.

Lemma oblivious_ret {A} (a : A) : oblivious (mret a).
Proof. done. Qed.
Lemma oblivious_bind {A B} (m : K A) (f : A -> K B) : oblivious m -> (forall a, oblivious (f a)) -> oblivious (m ≫= f).
Proof. intros H1 H2 x s. unfold mbind, M_bind. rewrite H1. destruct (m s) as [[a s']|e|e]; [apply H2|done|done]. Qed.
Lemma oblivious_gets {A} (f : ksys -> A) : (forall x s, f (set_procs x s) = f s) -> oblivious (gets f).
Proof. intros H x s. cbn. by rewrite H. Qed.
Lemma oblivious_modify f : (forall x s, f (set_procs x s) = set_procs x (f s)) -> oblivious (modify f).
Proof. intros H x s. cbn. by rewrite H. Qed.
Lemma oblivious_panic_if b msg : oblivious (panic_if b msg).
Proof. by destruct b. Qed.
Lemma oblivious_liftF {A} (m : M fs A) : oblivious (liftF m).
Proof. intros x s. unfold liftF. cbn. by destruct (m (kfs s)) as [[a y]|e|e]. Qed.
Lemma oblivious_liftP {A} pi (m : M Pipe.pst A) : oblivious (liftP pi m).
Proof.
  intros x s. unfold liftP. cbn. destruct (pipes s !! pi) as [[y|]|]; [|done|done].
  by destruct (m y) as [[a z]|e|e].
Qed.
Lemma oblivious_if {A} (b : bool) (m m' : K A) : oblivious m -> oblivious m' -> oblivious (if b then m else m').
Proof. by destruct b. Qed.
Create HintDb oblivious.
#[export] Hint Resolve oblivious_ret oblivious_bind oblivious_gets oblivious_modify oblivious_panic_if
  oblivious_liftF oblivious_liftP oblivious_if : oblivious.

Lemma oblivious_inop {A} (m : M fs A) : oblivious (inop m).
Proof. unfold inop. auto 8 with oblivious. Qed.
Lemma oblivious_pipeclose pi w : oblivious (pipeclose pi w).
Proof. unfold pipeclose. auto 8 with oblivious. Qed.
#[export] Hint Resolve oblivious_inop oblivious_pipeclose : oblivious.
Lemma oblivious_fileclose sb f : oblivious (fileclose sb f).
Proof.
  unfold fileclose, modf, readf, begin_op, end_op. apply oblivious_bind; [auto with oblivious|intros ff].
  apply oblivious_bind; [auto with oblivious|intros _]. apply oblivious_bind; [auto with oblivious|intros _].
  apply oblivious_if; [auto with oblivious|]. apply oblivious_bind; [auto with oblivious|intros _].
  destruct (f_type ff); auto 8 with oblivious.
Qed.
Lemma oblivious_filedup f : oblivious (filedup f).
Proof. unfold filedup, modf, readf. auto 8 with oblivious. Qed.

(** It may be run before a change of the descriptor tables. *)
Lemma oblivious_swap {A} (m : K A) (Q : A -> ksys -> Prop) x s :
  oblivious m -> wpe stop m (fun a s' => Q a (set_procs x s')) s -> wpe stop m Q (set_procs x s).
Proof. intros H Hm. unfold wpe in *. rewrite H. by destruct (m s) as [[a s']|e|e]. Qed.

Lemma oblivious_procs {A} (m : K A) (Q : A -> ksys -> Prop) s :
  oblivious m -> wpe stop m Q s -> wpe stop m (fun a s' => Q a s' /\ procs s' = procs s) s.
Proof.
  intros H Hm. unfold wpe in *. pose proof (H (procs s) s) as E.
  replace (set_procs (procs s) s) with s in E by (by destruct s).
  destruct (m s) as [[a s']|e|e]; [|done|done]. split; [done|]. injection E as ->. done.
Qed.

(** ** [fileclose] *)

Section Close.
Context (P X : list nat) (sb : superblock).
Abbreviation KP := (KI P X).

(** The entry after the last reference is gone. *)
Definition closed (x : file) : file := set_ftype FD_NONE (set_fref 0 x).

Lemma updf_updf f g h s : (f < length (ftab s))%nat -> updf f h (updf f g s) = updf f (fun x => h (g x)) s.
Proof.
  intros H. unfold updf at 1. rewrite getf_updf by done. unfold updf, set_ftab. cbn. f_equal. apply list_insert_insert_eq.
Qed.

(** The last reference of a file goes: what it refers to is left to the caller. *)
Lemma KB_closed f N N' F I L d s : KB P X N (f :: F) I L d s -> f ∉ fds s ++ F ->
  (forall j, j <> f -> j ∈ N' <-> j ∈ N) -> f ∉ N' -> NoDup N' ->
  KB P X N' F (file_ip (getf s f) ++ I) L d (updf f closed s).
Proof.
  intros K Hn HN Hf HD. assert (f < NFILE)%nat as Hl by (apply (ki_fin _ _ _ _ _ _ _ _ K); set_solver).
  eapply KB_file; [exact K|done|done| | | |exact HN|done|done].
  - cbn. rewrite cnt_pos in Hn. pose proof (cnt_ref_nonneg f (fds s ++ F)). lia.
  - intros j Hj. by rewrite cnt_ref_cons, decide_False.
  - cbn. tauto.
Qed.

Lemma ref_last f N F I L d s : KB P X N (f :: F) I L d s -> (f < NFILE)%nat ->
  f_ref (getf s f) = 1 + cnt f (fds s ++ F).
Proof.
  intros K Hl. rewrite (ki_fref _ _ _ _ _ _ _ _ K), !cnt_app, cnt_ref_cons, decide_True by done. lia.
Qed.

Lemma close_inode_KI N F I d s f : KP N (f :: F) I [] d s -> (f < NFILE)%nat ->
  f_type (getf s f) = FD_INODE \/ f_type (getf s f) = FD_DEVICE ->
  KB P X N F (file_ip (getf s f) ++ I) [] d (updf f closed s) -> 0 <= d ->
  wpe stop (_ ← begin_op; _ ← inop (iput sb (f_ip (getf s f))); end_op) (fun _ s' => KP N F I [] d s') (updf f closed s).
Proof.
  intros K Hl Ht K1 Hd. pose proof (ki_nfile _ _ _ _ _ _ _ _ K) as Hlen.
  assert (KP N F (f_ip (getf s f) :: I) [] d (updf f closed s)) as K2.
  { split; [unfold file_ip in K1; by destruct Ht as [Et|Et]; rewrite Et in K1|].
    apply pipes_updf; [lia| |apply K]. intros w. unfold pipe_end. cbn. by destruct Ht as [-> | ->]. }
  kstep begin_op_KI as ? s1 R1. kstep iput_KI as ? s2 R2.
  eapply wpe_mono; [by eapply end_op_KI|]. intros ? s3 R3. replace d with (d + 1 - 1) by lia. exact R3.
Qed.

Lemma fileclose_KI f N F I d s : KP N (f :: F) I [] d s -> 0 <= d -> f ∉ N ->
  wpe stop (fileclose sb f) (fun _ s' => KP N F I [] d s') s.
Proof.
  intros K Hd HN. destruct (file_used P X _ _ _ _ _ _ f K ltac:(set_solver) HN) as (Hl & Hr & Ht).
  pose proof (ki_nfile _ _ _ _ _ _ _ _ K) as Hlen. pose proof (ref_last _ _ _ _ _ _ _ K Hl) as Er.
  unfold fileclose. apply wpe_bind, wpe_gets. unfold id. apply wpe_bind, wpe_panic_if; [lia|intros _].
  apply wpe_bind, wpe_modify. destruct (Z.ltb_spec 0 (f_ref (getf s f) - 1)) as [Hp|Hp].
  - apply wpe_ret. rewrite Er. split.
    + eapply KB_file; [apply K|done|done| | | |done|apply K|done].
      * cbn. lia.
      * intros j Hj. by rewrite cnt_ref_cons, decide_False.
      * cbn. assert (f ∈ fds s ++ F) by (apply cnt_pos; lia). tauto.
    + apply pipes_updf; [lia|done|apply K].
  - assert (f ∉ fds s ++ F) as Hn by (rewrite cnt_pos; lia).
    apply wpe_bind, wpe_modify. rewrite updf_updf by lia. change (fun x => set_ftype FD_NONE _) with closed.
    pose proof (KB_closed f N N F I [] d s (ki_base _ _ _ _ _ _ _ _ K) Hn ltac:(done) HN (ki_new _ _ _ _ _ _ _ _ K)) as K1.
    destruct (f_type (getf s f)) eqn:Et; [done| | |].
    + unfold file_ip in K1. rewrite Et in K1. cbn in K1.
      eapply wpe_mono; [apply (pipeclose_ok _ (ends false s) (ends true s) (ends false (updf f closed s)) (ends true (updf f closed s))
        (pipes s)); [apply K|done|]|].
      * pose proof (ends_updf false s f closed ltac:(lia)) as E1. pose proof (ends_updf true s f closed ltac:(lia)) as E2.
        unfold pipe_end in E1 at 1 2, E2 at 1 2. cbn [closed set_ftype set_fref f_type] in E1, E2. rewrite Et in E1, E2.
        destruct (f_writable (getf s f)) eqn:Ew; cbn in E1, E2 |- *; split; try done;
          apply ends_updf_same; try lia; unfold pipe_end; cbn; by rewrite Et, Ew.
      * cbn beta. intros ? s' (ps & -> & Hps). destruct K1. by split.
    + apply (close_inode_KI N F I d s f K Hl ltac:(auto) K1 Hd).
    + apply (close_inode_KI N F I d s f K Hl ltac:(auto) K1 Hd).
Qed.

(** A file that was only just allocated: nothing else is given back. *)
Lemma fileclose_new f N F I L d s : KP (f :: N) (f :: F) I L d s ->
  wpe stop (fileclose sb f) (fun _ s' => KP N F I L d s') s.
Proof.
  intros K. assert (f ∉ fds s ++ F) as Hn.
  { pose proof (ki_new1 _ _ _ _ _ _ _ _ K f ltac:(set_solver)) as C. rewrite cnt_pos, cnt_app.
    rewrite cnt_app, cnt_ref_cons, decide_True in C by done. lia. }
  assert (f < NFILE)%nat as Hl by (apply (ki_fin _ _ _ _ _ _ _ _ K); set_solver).
  pose proof (ki_nfile _ _ _ _ _ _ _ _ K) as Hlen. pose proof (ref_last _ _ _ _ _ _ _ K Hl) as Er.
  pose proof (ki_new _ _ _ _ _ _ _ _ K) as [HN HD]%list.NoDup_cons.
  assert (f_type (getf s f) = FD_NONE) as Et by (apply (ki_type _ _ _ _ _ _ _ _ K); [done|right; set_solver]).
  rewrite cnt_pos in Hn. pose proof (cnt_ref_nonneg f (fds s ++ F)) as Hc.
  unfold fileclose. apply wpe_bind, wpe_gets. unfold id. apply wpe_bind, wpe_panic_if; [lia|intros _].
  apply wpe_bind, wpe_modify. destruct (Z.ltb_spec 0 (f_ref (getf s f) - 1)) as [Hp|Hp]; [lia|].
  apply wpe_bind, wpe_modify. rewrite updf_updf by lia. change (fun x => set_ftype FD_NONE _) with closed.
  rewrite Et. apply wpe_ret. split.
  - pose proof (KB_closed f (f :: N) N F I L d s (ki_base _ _ _ _ _ _ _ _ K)) as G. unfold file_ip in G. rewrite Et in G.
    apply G; [rewrite cnt_pos; lia|set_solver|done|done].
  - apply pipes_updf; [lia| |apply K]. intros w. unfold pipe_end. cbn. by rewrite Et.
Qed.
End Close.
