(* ===== verification/SysFileInv.v ===== *)
(** * Every system call on files keeps the invariant

    The calls of [sysfile.c], and [fork] and [exit], from the lemmas of [SysFile]. *)

From S2P Require Import Prelude Mlfq Bio FsBlk Words FsInode FsData FsTable FsDir File FileRefs SysFile.
From S2P Require Pipe.

(** ** Reading and writing *)

(** Reading and writing a pipe leaves both ends as they are. *)
Definition pipe_ends (x : Pipe.pst) : Z * Z := (Pipe.readopen (Pipe.pp x), Pipe.writeopen (Pipe.pp x)).

Lemma wakeup_ends c : keeps stop pipe_ends (Pipe.wakeup c).
Proof. apply keeps_modify. by destruct c. Qed.
Lemma sleep_ends c : keeps stop pipe_ends (Pipe.sleep_on c).
Proof. apply keeps_modify. by destruct c. Qed.
#[local] Hint Resolve wakeup_ends sleep_ends : keeps.

Lemma pipewrite_ends kl src n from : keeps stop pipe_ends (Pipe.pipewrite kl src n from).
Proof.
  unfold Pipe.pipewrite. assert (Z.to_nat n - from < S (Z.to_nat n - from))%nat as Hf by lia.
  revert Hf. generalize (S (Z.to_nat n - from)) as fuel, (@nil Z) as w. intros fuel. revert from.
  induction fuel as [|fuel IH]; intros i w Hf; [lia|]. cbn [Pipe.write_loop].
  destruct (Z.ltb_spec (Z.of_nat i) n) as [H|H]; [|auto with keeps].
  apply keeps_view_bind; [auto with keeps|intros s]. apply keeps_if; [auto with keeps|].
  apply keeps_if; [auto 8 with keeps|]. destruct (src i) as [ch|]; [|auto 8 with keeps].
  apply keeps_view_bind; [by apply keeps_modify|intros _]. apply IH. lia.
Qed.

Lemma piperead_ends kl dst n : keeps stop pipe_ends (Pipe.piperead kl dst n).
Proof.
  unfold Pipe.piperead. apply keeps_view_bind; [auto with keeps|intros s0]. apply keeps_if; [auto 8 with keeps|].
  assert (Z.to_nat n - 0 < S (Z.to_nat n))%nat as Hf by lia. revert Hf.
  generalize (S (Z.to_nat n)) as fuel, O as i, (@nil Z) as out. clear s0.
  induction fuel as [|fuel IH]; intros i out Hf s; [lia|]. cbn [Pipe.read_loop].
  destruct (Z.ltb_spec (Z.of_nat i) n) as [H|H]; [|done].
  apply wpe_bind, wpe_get. destruct (Pipe.pipe_empty (Pipe.pp s)); [done|]. destruct (dst i); [|done].
  apply wpe_bind. unfold wpe at 1. cbn [put]. eapply wpe_mono; [apply (IH (S i)); lia|]. cbn beta. intros ? s' ->. done.
Qed.

(** Code that does not look at the processes may be run after a change of them that is
    only made later. *)
Lemma oblivious_defer {A} (m : K A) (Q : A -> ksys -> Prop) x s :
  oblivious m -> wpe stop m Q (set_procs x s) ->
  wpe stop m (fun a s' => Q a (set_procs x s') /\ procs s' = procs s) s.
Proof.
  intros H Hm. unfold wpe in *. rewrite H in Hm. pose proof (H (procs s) s) as E.
  replace (set_procs (procs s) s) with s in E by (by destruct s).
  destruct (m s) as [[a s']|e|e]; [|done|done]. split; [done|]. injection E as ->. done.
Qed.

(** [iput(c); end_op();] while [procs] is about to become [x]. *)
Lemma put_cwd_KI sb P' X' c x I s : KI P' X' [] [] (c :: I) [] 1 (set_procs x s) ->
  wpe stop (_ ← inop (iput sb c); end_op) (fun _ s' => KI P' X' [] [] I [] 0 (set_procs x s') /\ procs s' = procs s) s.
Proof.
  intros K. eapply wpe_bind_mono.
  { apply (oblivious_defer _ (fun _ s' => KI P' X' [] [] I [] 1 s') x); [apply oblivious_inop|]. eapply iput_KI; kside. }
  cbn beta. intros ? s1 [R1 E1]. apply wpe_modify. split; [|exact E1].
  pose proof (end_op_KI P' X' [] [] I [] 1 _ R1) as R2. exact R2.
Qed.

Lemma bind_assoc_wpe {A B C} (m : K A) (f : A -> K B) (g : B -> K C) Q s :
  wpe stop (a ← m; b ← f a; g b) Q s <-> wpe stop (b ← (a ← m; f a); g b) Q s.
Proof. unfold wpe, mbind, M_bind. by destruct (m s) as [[a s']|e|e]. Qed.

Section Calls.
Context (P X : list nat) (sb : superblock).
Context (mem : Z -> Z) (copyin : Z -> nat -> nat * bool) (copyout : Z -> nat -> bool) (kl : nat -> bool).
Context (dev_read : Z -> option (Z -> Z -> Pipe.run_end * list Z)).
Context (dev_write : Z -> option (Z -> Z -> Pipe.run_end)) (kalloc : option (list Z)).
Context (p : nat) (Hp : p ∈ P).
Abbreviation KP := (KI P X).

(** What an open file refers to exists. *)
Lemma elem_ends s f w : (f < length (ftab s))%nat -> f_type (getf s f) = FD_PIPE -> f_writable (getf s f) = w ->
  f_pipe (getf s f) ∈ ends w s.
Proof.
  intros Hf Ht Hw. apply list_elem_of_bind. exists (getf s f). unfold pipe_end. rewrite Ht, Hw, Bool.eqb_reflx.
  split; [by apply list_elem_of_singleton|]. eapply list_elem_of_lookup_2, getf_lookup, Hf.
Qed.
Lemma elem_irefs s f : (f < length (ftab s))%nat -> f_type (getf s f) = FD_INODE \/ f_type (getf s f) = FD_DEVICE ->
  f_ip (getf s f) ∈ irefs s.
Proof.
  intros Hf Ht. apply list_elem_of_bind. exists (getf s f). unfold file_ip.
  split; [|eapply list_elem_of_lookup_2, getf_lookup, Hf]. destruct Ht as [-> | ->]; by apply list_elem_of_singleton.
Qed.
Lemma holds_file N F I L d s f : KP N F I L d s -> (f < NFILE)%nat ->
  f_type (getf s f) = FD_INODE \/ f_type (getf s f) = FD_DEVICE -> holds I s (f_ip (getf s f)).
Proof.
  intros K Hf Ht. unfold holds. rewrite elem_of_app. left. apply elem_irefs; [|done].
  by rewrite (ki_nfile _ _ _ _ _ _ _ _ K).
Qed.

Lemma liftP_KI {A} (m : M Pipe.pst A) f N F I L d s : KP N F I L d s -> (f < NFILE)%nat ->
  f_type (getf s f) = FD_PIPE -> keeps stop pipe_ends m ->
  wpe stop (liftP (f_pipe (getf s f)) m) (fun _ s' => KP N F I L d s') s.
Proof.
  intros K Hf Ht Hm. pose proof (elem_ends s f _ ltac:(by rewrite (ki_nfile _ _ _ _ _ _ _ _ K)) Ht eq_refl) as He.
  pose proof (ki_pipes _ _ _ _ _ _ _ _ K) as HP. set (pi := f_pipe (getf s f)) in *.
  destruct (pipes_ok_live _ _ _ pi HP) as (x & Ex & Hx).
  { rewrite elem_of_app. destruct (f_writable (getf s f)); auto. }
  specialize (Hm x). unfold wpe, liftP in *. rewrite Ex. destruct (m x) as [[a x']|e|e]; [|done|done].
  split; [by destruct K as [[] ?]|]. cbn.
  apply (pipes_ok_upd (ends false s) (ends true s)); [done|by eapply lookup_lt_Some|apply HP|apply HP|done|].
  unfold pipe_ends in Hm. injection Hm as E1 E2. unfold pipe_ok. rewrite E1, E2. exact Hx.
Qed.

(** [read] also stops for a file with a hole. *)
Definition read_stop (e : string) : Prop := stop e \/ e = "log_write outside of trans".

Lemma outop_keeps {A} (m : M fs A) N F I L d s : KP N F I L d s -> keeps stop view m ->
  wpe read_stop (outop sb m) (fun _ s' => KP N F I L d s') s.
Proof.
  intros K Hm. pose proof (liftF_keeps _ _ m _ _ _ _ _ _ K Hm) as H. unfold wpe, liftF, outop in *.
  destruct (m (kfs s)) as [[a x]|e|e]; [|by left|by left]. destruct (_ && _); [by right|done].
Qed.

Lemma fileread_KI f addr n s : KP [] [] [] [] 0 s -> f ∈ fds s ->
  wpe read_stop (fileread sb copyout kl dev_read f addr n) (fun _ s' => KP [] [] [] [] 0 s') s.
Proof.
  intros K Hf. destruct (file_used P X _ _ _ _ _ _ f K ltac:(set_solver) ltac:(set_solver)) as (Hl & Hr & Ht).
  unfold fileread. apply wpe_bind, wpe_gets. unfold id. destruct (negb (f_readable (getf s f))); [done|].
  destruct (f_type (getf s f)) eqn:Et; [done| | |].
  - eapply (wpe_weaken _ stop); [by left|]. apply liftP_KI; [done|done|done|apply piperead_ends].
  - eapply wpe_bind_mono; [eapply (wpe_weaken _ stop); [by left|]; eapply ilock_KI; [exact K|eapply holds_file; eauto]|]. cbn beta. intros ? s1 R1.
    eapply wpe_bind_mono; [eapply outop_keeps; [exact R1|by apply (readi_keeps sb copyout who)]|].
    cbn beta. intros [r out] s2 R2. eapply (wpe_weaken _ stop); [by left|].
    eapply (wpe_bind_mono _ _ _ (fun _ s' => KP [] [] [] [f_ip (getf s f)] 0 s')).
    { destruct (0 <? r); [|exact R2]. apply wpe_modify. by apply set_foff_KI. }
    intros ? s3 R3. kstep iunlock_KI as ? s4 R4. exact R4.
  - destruct (device dev_read (f_major (getf s f))); done.
Qed.

Lemma filestat_KI f addr s : KP [] [] [] [] 0 s -> f ∈ fds s ->
  wpe stop (filestat sb copyout f addr) (fun _ s' => KP [] [] [] [] 0 s') s.
Proof.
  intros K Hf. destruct (file_used P X _ _ _ _ _ _ f K ltac:(set_solver) ltac:(set_solver)) as (Hl & Hr & Ht).
  unfold filestat. apply wpe_bind, wpe_gets. unfold id.
  destruct (f_type (getf s f)) eqn:Et; [done|done| |];
    (eapply wpe_bind_mono; [eapply ilock_KI; [exact K|eapply holds_file; eauto]|]; cbn beta; intros ? s1 R1;
     kread as x s2 R2; kstep iunlock_KI as ? s3 R3; destruct (copyout addr 24); exact R3).
Qed.

(** A call into [fs.c] leaves the file table alone. *)
Lemma liftF_ftab {A} (m : M fs A) (Q : A -> ksys -> Prop) s :
  wpe stop (liftF m) Q s -> wpe stop (liftF m) (fun a s' => Q a s' /\ ftab s' = ftab s) s.
Proof. unfold wpe, liftF. by destruct (m (kfs s)) as [[a x]|e|e]. Qed.
Lemma inop_ftab {A} (m : M fs A) (Q : A -> ksys -> Prop) s :
  wpe stop (inop m) Q s -> wpe stop (inop m) (fun a s' => Q a s' /\ ftab s' = ftab s) s.
Proof.
  unfold wpe, inop, mbind, M_bind. cbn. unfold panic_if. destruct (outstanding s <? 1); [done|]. cbn.
  unfold liftF. by destruct (m (kfs s)) as [[a x]|e|e].
Qed.

Lemma max_val : max = 3072.
Proof. reflexivity. Qed.

Lemma filewrite_loop_KI f ip addr n : forall fuel i s,
  KP [] [] [] [] 0 s -> (f < NFILE)%nat -> f_type (getf s f) = FD_INODE -> f_ip (getf s f) = ip ->
  n - i <= Z.of_nat fuel ->
  wpe stop (filewrite_loop sb mem copyin fuel f ip addr n i) (fun _ s' => KP [] [] [] [] 0 s') s.
Proof.
  induction fuel as [|fuel IH]; intros i s K Hf Ht Hi Hfuel; cbn [filewrite_loop];
    destruct (Z.ltb_spec i n) as [Hn|Hn]; [lia|done| |done].
  assert (forall s', ftab s' = ftab s -> f_type (getf s' f) = FD_INODE /\ f_ip (getf s' f) = ip) as G
    by (intros s' E; unfold getf in *; by rewrite E).
  apply wpe_bind, wpe_modify. pose proof (begin_op_KI P X [] [] [] [] 0 s K) as R1. unfold wpe in R1. cbn in R1.
  eapply wpe_bind_mono; [apply liftF_ftab; eapply ilock_KI; [exact R1|rewrite <- Hi; exact (holds_file _ _ _ _ _ s f K Hf (or_introl Ht))]|].
  cbn beta. intros ? s2 [R2 E2]. apply wpe_bind, wpe_gets.
  eapply wpe_bind_mono; [apply inop_ftab; eapply inop_keeps; [exact R2|lia|by apply (writei_keeps sb mem copyin who)]|].
  cbn beta. intros r s3 [R3 E3]. rewrite E2 in E3.
  eapply (wpe_bind_mono _ _ _ (fun _ s' => KP [] [] [] [ip] 1 s' /\ f_type (getf s' f) = FD_INODE /\ f_ip (getf s' f) = ip)).
  { destruct (0 <? r); [|by split; [exact R3|apply G]]. apply wpe_modify. split; [by apply set_foff_KI|].
    rewrite getf_updf by (rewrite (ki_nfile _ _ _ _ _ _ _ _ R3); done). apply (G s3 E3). }
  intros ? s4 (R4 & Ht4 & Hi4).
  eapply wpe_bind_mono; [apply liftF_ftab; eapply iunlock_KI; exact R4|]. cbn beta. intros ? s5 [R5 E5].
  apply wpe_bind, wpe_modify. pose proof (end_op_KI P X [] [] [] [] 1 s5 R5) as R6. unfold wpe in R6. cbn in R6.
  destruct (Z.eqb_spec r (Z.min (n - i) max)) as [Er|Er]; [|exact R6]. rewrite max_val in Er.
  apply IH; [exact R6|done| | |lia]; unfold getf in *; cbn; by rewrite E5.
Qed.

Lemma filewrite_KI f addr n from s : KP [] [] [] [] 0 s -> f ∈ fds s ->
  wpe stop (filewrite sb mem copyin kl dev_write f addr n from) (fun _ s' => KP [] [] [] [] 0 s') s.
Proof.
  intros K Hf. destruct (file_used P X _ _ _ _ _ _ f K ltac:(set_solver) ltac:(set_solver)) as (Hl & Hr & Ht).
  unfold filewrite. apply wpe_bind, wpe_gets. unfold id. destruct (negb (f_writable (getf s f))); [done|].
  destruct (f_type (getf s f)) eqn:Et; [done| | |].
  - eapply wpe_bind_mono; [eapply liftP_KI; [exact K|done|done|apply pipewrite_ends]|]. cbn beta. intros r s1 R1. exact R1.
  - eapply wpe_bind_mono; [eapply filewrite_loop_KI; [exact K|done|done|done|lia]|]. cbn beta. intros i s1 R1. exact R1.
  - destruct (device dev_write (f_major (getf s f))); done.
Qed.

(** ** Calls on descriptors *)

Lemma sys_read_KI fd addr n s : KP [] [] [] [] 0 s ->
  wpe read_stop (sys_read sb copyout kl dev_read p fd addr n) (fun _ s' => KP [] [] [] [] 0 s') s.
Proof.
  intros K. eapply wpe_bind_mono; [eapply (wpe_weaken _ stop); [by left|]; by eapply argfd_KI|]. cbn beta. intros [[k f]|] ? [-> G]; [|done].
  apply fileread_KI; [exact K|apply G].
Qed.
Lemma sys_write_KI fd addr n from s : KP [] [] [] [] 0 s ->
  wpe stop (sys_write sb mem copyin kl dev_write p fd addr n from) (fun _ s' => KP [] [] [] [] 0 s') s.
Proof.
  intros K. eapply wpe_bind_mono; [by eapply argfd_KI|]. cbn beta. intros [[k f]|] ? [-> G]; [|done].
  apply filewrite_KI; [exact K|apply G].
Qed.
Lemma sys_fstat_KI fd addr s : KP [] [] [] [] 0 s ->
  wpe stop (sys_fstat sb copyout p fd addr) (fun _ s' => KP [] [] [] [] 0 s') s.
Proof.
  intros K. eapply wpe_bind_mono; [by eapply argfd_KI|]. cbn beta. intros [[k f]|] ? [-> G]; [|done].
  apply filestat_KI; [exact K|apply G].
Qed.

Lemma sys_close_KI fd s : KP [] [] [] [] 0 s ->
  wpe stop (sys_close sb p fd) (fun _ s' => KP [] [] [] [] 0 s') s.
Proof.
  intros K. eapply wpe_bind_mono; [by eapply argfd_KI|]. cbn beta. intros [[k f]|] ? [-> G]; [|done].
  destruct G as (_ & x & c & E & Ec & Eo). apply wpe_bind, wpe_modify.
  pose proof (clear_fd_KI P X p k f x c [] [] [] [] 0 s K E Ec Eo) as K1.
  eapply wpe_bind_mono; [apply fileclose_KI; [exact K1|lia|set_solver]|]. cbn beta. intros ? s1 R1. exact R1.
Qed.

(** [sys_dup] takes the descriptor before it counts the reference. *)
Lemma sys_dup_KI fd s : KP [] [] [] [] 0 s -> wpe stop (sys_dup p fd) (fun _ s' => KP [] [] [] [] 0 s') s.
Proof.
  intros K. eapply wpe_bind_mono; [by eapply argfd_KI|]. cbn beta. intros [[k f]|] ? [-> G]; [|done].
  eapply wpe_bind_mono; [by eapply fdalloc_slot|]. cbn beta. intros [fd'|] s'; [|by intros ->].
  intros (-> & x & c & E & Ec & Eo). rewrite (updp_lookup _ _ _ _ E). apply wpe_bind.
  apply oblivious_swap; [apply oblivious_filedup|].
  eapply wpe_mono; [apply (filedup_KI P X f [] [] [] [] 0 s K); [set_solver|set_solver]|]. cbn beta.
  intros r s1 (_ & R1 & Ep). apply wpe_ret. rewrite <- Ep in E |- *. rewrite <- (updp_lookup p _ _ _ E).
  eapply KI_fd; [exact R1|exact E|exact Eo|done|left; by exists c].
Qed.

(** ** [open] and [chdir] *)

Lemma open_file_KI f ip x omode L s : KP [f] [] [ip] L 1 s -> (f < NFILE)%nat ->
  KP [] [] [] L 1 (updf f (open_file ip x omode) s).
Proof.
  intros K Hf. pose proof (ki_nfile _ _ _ _ _ _ _ _ K) as Hlen.
  assert (f_type (getf s f) = FD_NONE) as Et by (apply (ki_type _ _ _ _ _ _ _ _ K); [done|right; set_solver]).
  assert (f ∈ fds s ++ []) as Hin by (rewrite cnt_pos, (ki_new1 _ _ _ _ _ _ _ _ K) by set_solver; lia). split.
  - eapply KB_file; [apply K|done| | |done| |set_solver|constructor|set_solver].
    + unfold file_ip. rewrite Et. cbn. by destruct (i_type x =? T_DEVICE).
    + cbn. by apply (ki_fref _ _ _ _ _ _ _ _ K).
    + cbn. destruct (i_type x =? T_DEVICE); set_solver.
  - apply pipes_updf; [lia| |apply K]. intros w. unfold pipe_end. rewrite Et. cbn. by destruct (i_type x =? T_DEVICE).
Qed.

Lemma open_inode_KI ip omode s : KP [] [] [ip] [ip] 1 s ->
  wpe stop (open_inode sb p ip omode) (fun _ s' => KP [] [] [] [] 0 s') s.
Proof.
  intros K. unfold open_inode. kread as x s1 R1. destruct (_ && _); [by apply fail_put_KI|].
  eapply wpe_bind_mono; [by apply filealloc_KI|]. cbn beta. intros [f|] s2; [|intros R2; by apply fail_put_KI].
  intros [R2 Hf]. eapply wpe_bind_mono; [by apply fdalloc_KI|]. cbn beta. intros [fd|] s3.
  - intros (R3 & _). apply wpe_bind, wpe_modify. pose proof (open_file_KI f ip x omode [ip] s3 R3 Hf) as R4.
    eapply (wpe_bind_mono _ _ _ (fun _ s' => KP [] [] [] [ip] 1 s')).
    { destruct (_ && _); [|exact R4]. eapply inop_keeps; [exact R4|lia|by apply (itrunc_keeps sb who)]. }
    intros ? s5 R5. kstep iunlock_KI as ? s6 R6. kstep end_op_KI as ? s7 R7. exact R7.
  - intros ->. eapply wpe_bind_mono; [apply fileclose_new; exact R2|]. cbn beta. intros ? s3 R3.
    by apply fail_put_KI.
Qed.

Lemma sys_open_KI path omode s : KP [] [] [] [] 0 s ->
  wpe stop (sys_open sb copyin copyout p path omode) (fun _ s' => KP [] [] [] [] 0 s') s.
Proof.
  intros K. destruct path as [path|]; [|done]. unfold sys_open. kstep begin_op_KI as ? s1 R1.
  destruct (c_true (Z.land omode O_CREATE)).
  - kstep create_KI as [ip|] s2 R2; [by apply open_inode_KI|by apply fail_op_KI].
  - kstep knamei_KI as [ip|] s2 R2; [|by apply fail_op_KI]. cbn in R2.
    kstep ilock_KI as ? s3 R3. kread as t s4 R4. destruct (_ && _); [by apply fail_put_KI|by apply open_inode_KI].
Qed.

Lemma sys_chdir_KI path s : KP [] [] [] [] 0 s ->
  wpe stop (sys_chdir sb copyout p path) (fun _ s' => KP [] [] [] [] 0 s') s.
Proof.
  intros K. unfold sys_chdir. kstep begin_op_KI as ? s1 R1. destruct path as [path|]; [|by apply fail_op_KI].
  kstep knamei_KI as [ip|] s2 R2; [|by apply fail_op_KI]. cbn in R2.
  kstep ilock_KI as ? s3 R3. kread as t s4 R4. destruct (negb (t =? T_DIR)); [by apply fail_put_KI|].
  kstep iunlock_KI as ? s5 R5. eapply wpe_bind_mono; [by eapply mycwd_KI|]. cbn beta. intros c ? (-> & Ec & _).
  destruct (ki_run _ _ _ _ _ _ _ _ R5 p Hp) as (x & c' & E & Ex). rewrite (getp_lookup _ _ _ E) in Ec.
  apply bind_assoc_wpe. eapply wpe_bind_mono.
  { apply (put_cwd_KI sb P X c (<[p := set_cwd (Some ip) x]> (procs s5)) []). split; [|apply R5].
    eapply KB_proc; [apply R5|exact E|done| | | | |].
    - cbn. rewrite Ec. apply Permutation_swap.
    - cbn. by eapply (ki_nofile _ _ _ _ _ _ _ _ R5).
    - done.
    - auto.
    - intros j Hj. destruct (decide (j = p)); [by exists ip|done]. }
  cbn beta. intros ? s6 [R6 E6]. apply wpe_bind, wpe_modify, wpe_ret. rewrite <- E6 in E, R6.
  by rewrite (updp_lookup _ _ _ _ E).
Qed.

(** ** [pipe] *)

Lemma KI_Fswap N f g F I L d s : KP N (f :: g :: F) I L d s -> KP N (g :: f :: F) I L d s.
Proof.
  intros [K HP]. assert (fds s ++ f :: g :: F ≡ₚ fds s ++ g :: f :: F) as E by (by rewrite (Permutation_swap f g)).
  split; [|done]. destruct K. split; try done.
  - intros j Hj. apply ki_fin. by rewrite E.
  - intros j Hj. rewrite ki_fref by done. by apply cnt_perm.
  - intros j Hj. rewrite ki_type by done. by rewrite E.
  - intros j Hj. rewrite <- (ki_new1 j Hj). by apply cnt_perm.
Qed.
Lemma KI_Nswap f g N F I L d s : KP (f :: g :: N) F I L d s -> KP (g :: f :: N) F I L d s.
Proof.
  intros [K HP]. split; [|done]. destruct K. split; try done.
  - intros j Hj. rewrite ki_type by done. by rewrite (Permutation_swap f g).
  - by rewrite (Permutation_swap f g).
  - intros j Hj. apply ki_new1. by rewrite (Permutation_swap g f).
Qed.

(** A new pipe with both ends open. *)
Lemma pipes_ok_new R W R' W' ps x : pipes_ok R W ps -> length ps :: R ≡ₚ R' -> length ps :: W ≡ₚ W' ->
  Pipe.readopen (Pipe.pp x) = 1 -> Pipe.writeopen (Pipe.pp x) = 1 -> pipes_ok R' W' (ps ++ [Some x]).
Proof.
  intros [N1 N2 H3 H4] ER EW Er Ew.
  assert (length ps ∉ R /\ length ps ∉ W) as [HR HW].
  { split; intros H; specialize (H3 (length ps)); rewrite elem_of_app in H3; specialize (H3 ltac:(auto)); lia. }
  split.
  - rewrite <- ER. by constructor.
  - rewrite <- EW. by constructor.
  - intros j Hj. rewrite length_app. cbn. rewrite <- ER, <- EW in Hj. destruct (decide (j = length ps)) as [->|Nj]; [lia|].
    assert (j < length ps)%nat; [|lia]. apply H3. set_solver.
  - intros j o Ho. change (pipe_ok R' W' j o). destruct (decide (j = length ps)) as [->|Nj].
    + rewrite list_lookup_middle in Ho by done. injection Ho as <-. cbn. rewrite Er, Ew.
      rewrite <- (cnt_perm _ _ _ ER), <- (cnt_perm _ _ _ EW), <- ER, !cnt_ref_cons, !decide_True by done.
      rewrite cnt_pos in HR, HW. pose proof (cnt_ref_nonneg (length ps) R). pose proof (cnt_ref_nonneg (length ps) W).
      split; [lia|]. split; [lia|]. set_solver.
    + assert (ps !! j = Some o) as Ej.
      { apply lookup_lt_Some in Ho as Hl. rewrite length_app in Hl. cbn in Hl.
        by rewrite lookup_app_l in Ho by lia. }
      apply (pipe_ok_cnt R W); [by rewrite <- (cnt_perm _ _ _ ER), cnt_ref_cons, decide_False| |by apply H4].
      by rewrite <- (cnt_perm _ _ _ EW), cnt_ref_cons, decide_False.
Qed.

(** A new file becomes an end of a pipe. *)
Lemma KB_pipe_file f pi w N F I L d s : KB P X (f :: N) F I L d s -> f ∈ fds s ++ F ->
  KB P X N F I L d (updf f (pipe_file pi w) s).
Proof.
  intros K Hin. assert (f < NFILE)%nat as Hf by (by apply (ki_fin _ _ _ _ _ _ _ _ K)).
  assert (f_type (getf s f) = FD_NONE) as Et by (apply (ki_type _ _ _ _ _ _ _ _ K); [done|right; set_solver]).
  pose proof (ki_new _ _ _ _ _ _ _ _ K) as [HN HD]%list.NoDup_cons.
  eapply KB_file; [exact K|done| | |done| |set_solver|done|done].
  - unfold file_ip. rewrite Et. done.
  - cbn. by apply (ki_fref _ _ _ _ _ _ _ _ K).
  - cbn. split; [done|]. tauto.
Qed.

Lemma ends_pipe_file w f pi s : (f < length (ftab s))%nat -> f_type (getf s f) = FD_NONE ->
  ends w (updf f (pipe_file pi w) s) ≡ₚ pi :: ends w s /\
  ends (negb w) (updf f (pipe_file pi w) s) = ends (negb w) s.
Proof.
  intros Hf Et. pose proof (ends_updf w s f (pipe_file pi w) Hf) as E. unfold pipe_end in E at 1 2. rewrite Et in E.
  cbn [pipe_file f_type f_writable f_pipe] in E. rewrite Bool.eqb_reflx in E. split; [exact E|].
  apply ends_updf_same; [done|]. unfold pipe_end. rewrite Et. cbn. by destruct w.
Qed.

Lemma pipealloc_new f0 f1 x s : KP [f1; f0] [f1; f0] [] [] 0 s ->
  Pipe.readopen (Pipe.pp x) = 1 -> Pipe.writeopen (Pipe.pp x) = 1 ->
  KP [] [f0; f1] [] [] 0 (updf f1 (pipe_file (length (pipes s)) true)
    (updf f0 (pipe_file (length (pipes s)) false) (set_pipes (pipes s ++ [Some x]) s))).
Proof.
  intros R Er Ew. set (pi := length (pipes s)). set (s3 := set_pipes _ s). set (s4 := updf f0 _ s3).
  pose proof (ki_new _ _ _ _ _ _ _ _ R) as [HN _]%list.NoDup_cons.
  assert (KB P X [f0; f1] [f1; f0] [] [] 0 s3) as R3 by (apply KI_Nswap in R; destruct R as [[] ?]; by split).
  pose proof (KB_pipe_file f0 pi false [f1] [f1; f0] [] [] 0 s3 R3 ltac:(set_solver)) as R4. fold s4 in R4.
  pose proof (KB_pipe_file f1 pi true [] [f1; f0] [] [] 0 s4 R4 ltac:(set_solver)) as R5.
  apply KI_Fswap. split; [exact R5|].
  assert (f0 < NFILE)%nat as H0 by (apply (ki_fin _ _ _ _ _ _ _ _ R3); set_solver).
  assert (f1 < NFILE)%nat as H1 by (apply (ki_fin _ _ _ _ _ _ _ _ R3); set_solver).
  destruct (ends_pipe_file false f0 pi s3) as [E1 E2].
  { rewrite (ki_nfile _ _ _ _ _ _ _ _ R3). done. }
  { apply (ki_type _ _ _ _ _ _ _ _ R3); [done|right; set_solver]. }
  destruct (ends_pipe_file true f1 pi s4) as [E3 E4].
  { rewrite (ki_nfile _ _ _ _ _ _ _ _ R4). done. }
  { apply (ki_type _ _ _ _ _ _ _ _ R4); [done|right; set_solver]. }
  cbn [negb] in E2, E4. fold s4 in E1, E2.
  apply (pipes_ok_new (ends false s) (ends true s) _ _ (pipes s)); [apply R| | |done|done].
  - rewrite E4. symmetry. exact E1.
  - etransitivity; [|symmetry; exact E3]. by rewrite E2.
Qed.

Lemma pipealloc_KI s : KP [] [] [] [] 0 s ->
  wpe stop (pipealloc sb kalloc) (fun o s' => match o with
    | Some (f0, f1) => KP [] [f0; f1] [] [] 0 s'
    | None => KP [] [] [] [] 0 s' end) s.
Proof.
  intros K. unfold pipealloc. eapply wpe_bind_mono; [by apply filealloc_KI|]. cbn beta. intros [f0|] s1; [|done].
  intros [R1 Hf0]. eapply wpe_bind_mono; [by apply filealloc_KI|]. cbn beta. intros [f1|] s2; [intros [R2 Hf1]|intros R2].
  - destruct kalloc as [page|].
    + apply wpe_bind, wpe_gets, wpe_bind, wpe_modify, wpe_bind, wpe_modify, wpe_bind, wpe_modify, wpe_ret.
      by apply pipealloc_new.
    + apply KI_Nswap, KI_Fswap in R2.
      eapply wpe_bind_mono; [apply fileclose_new; exact R2|]. cbn beta. intros ? s3 R3.
      eapply wpe_bind_mono; [apply fileclose_new; exact R3|]. cbn beta. intros ? s4 R4. exact R4.
  - eapply wpe_bind_mono; [apply fileclose_new; exact R2|]. cbn beta. intros ? s3 R3. exact R3.
Qed.

(** [fileclose(rf); fileclose(wf); return -1;] *)
Lemma close_both_KI rf wf s : KP [] [rf; wf] [] [] 0 s ->
  wpe stop (_ ← fileclose sb rf; _ ← fileclose sb wf; mret (-1)) (fun _ s' => KP [] [] [] [] 0 s') s.
Proof.
  intros K. eapply wpe_bind_mono; [apply fileclose_KI; [exact K|lia|set_solver]|]. cbn beta. intros ? s1 R1.
  eapply wpe_bind_mono; [apply fileclose_KI; [exact R1|lia|set_solver]|]. cbn beta. intros ? s2 R2. exact R2.
Qed.

Lemma sys_pipe_KI fdarray s : KP [] [] [] [] 0 s ->
  wpe stop (sys_pipe sb copyout kalloc p fdarray) (fun _ s' => KP [] [] [] [] 0 s') s.
Proof.
  intros K. unfold sys_pipe. eapply wpe_bind_mono; [by apply pipealloc_KI|]. cbn beta. intros [[rf wf]|] s1 R1; [|exact R1].
  eapply wpe_bind_mono; [eapply fdalloc_KI; [exact Hp|exact R1]|]. cbn beta.
  intros [fd0|] s2; [|intros ->; by apply close_both_KI]. intros (R2 & _ & x & c & E & Ec & Eo).
  eapply wpe_bind_mono; [eapply fdalloc_slot; [exact Hp|exact R2]|]. cbn beta. intros [fd1|] s3.
  - intros (-> & x' & c' & E' & Ec' & Eo'). assert (x' = x) as -> by congruence.
    assert (fd0 <> fd1) as Hne by congruence.
    assert (KP [] [] [] [] 0 (updp p (set_ofile fd1 (Some wf)) s2)) as R3
      by (eapply KI_fd; [exact R2|exact E|exact Eo'|done|left; by exists c]).
    destruct (copyout fdarray 4 && copyout (fdarray + 4) 4); [exact R3|].
    set (s3 := updp p _ s2) in *. assert (procs s3 !! p = Some (set_ofile fd1 (Some wf) x)) as E3.
    { unfold s3. rewrite (updp_lookup _ _ _ _ E). cbn. apply list_lookup_insert_eq. by eapply lookup_lt_Some. }
    apply wpe_bind, wpe_modify.
    pose proof (clear_fd_KI P X p fd0 rf _ c [] [] [] [] 0 s3 R3 E3 Ec ltac:(cbn; by rewrite list_lookup_insert_ne)) as R4.
    set (s4 := updp p _ s3) in *.
    assert (procs s4 !! p = Some (set_ofile fd0 None (set_ofile fd1 (Some wf) x))) as E4.
    { unfold s4. rewrite (updp_lookup _ _ _ _ E3). cbn. apply list_lookup_insert_eq. by eapply lookup_lt_Some. }
    apply wpe_bind, wpe_modify.
    assert (KP [] [wf; rf] [] [] 0 (updp p (set_ofile fd1 None) s4)) as R5.
    { eapply clear_fd_KI; [exact R4|exact E4|exact Ec|]. cbn. rewrite list_lookup_insert_ne by done.
      apply list_lookup_insert_eq. by eapply lookup_lt_Some. }
    apply close_both_KI. by apply KI_Fswap.
  - intros ->. apply wpe_bind, wpe_modify. apply close_both_KI. by eapply clear_fd_KI.
Qed.

End Calls.

(** ** [fork] and [exit] *)

Lemma fds_elem s q x fd f : procs s !! q = Some x -> ofile x !! fd = Some (Some f) -> f ∈ fds s.
Proof.
  intros E Eo. apply list_elem_of_bind. exists x. split; [|by eapply list_elem_of_lookup_2].
  apply list_elem_of_bind. exists (Some f). split; [by apply list_elem_of_singleton|by eapply list_elem_of_lookup_2].
Qed.

Lemma nth_some (l : list (option nat)) k f : nth k l None = Some f -> l !! k = Some (Some f).
Proof.
  intros En. destruct (decide (k < length l)%nat) as [Hl|Hl]; [|rewrite nth_overflow in En by lia; done].
  destruct (lookup_lt_is_Some_2 _ _ Hl) as [o Eo]. rewrite (nth_lookup_Some _ _ _ _ Eo) in En. congruence.
Qed.

(** A process that is being made: its descriptors from [i] on are empty. *)
Definition making (np i : nat) (s : ksys) : Prop := exists y, procs s !! np = Some y /\ cwd y = None /\
  forall j, (i <= j < NOFILE)%nat -> ofile y !! j = Some None.

Section Fork.
Context (P X : list nat) (p : nat) (Hp : p ∈ P).
Abbreviation KP := (KI P X).

Lemma fork_loop_KI np : np <> p -> np ∈ X -> forall n i s, KP [] [] [] [] 0 s -> making np i s -> (i + n = NOFILE)%nat ->
  wpe stop (fork_loop p n np i) (fun _ s' => KP [] [] [] [] 0 s' /\ making np NOFILE s') s.
Proof.
  intros Hnp HX. induction n as [|n IH]; intros i s K Hm Hi; cbn [fork_loop].
  { apply wpe_ret. split; [done|]. destruct Hm as (y & E & Ec & Ho). exists y. split; [done|]. split; [done|]. intros; lia. }
  destruct (ki_run _ _ _ _ _ _ _ _ K p Hp) as (x & c & E & Ec). destruct Hm as (y & Ey & Hc & Ho).
  apply wpe_bind, wpe_gets. rewrite (getp_lookup _ _ _ E).
  eapply (wpe_bind_mono _ _ _ (fun _ s' => KP [] [] [] [] 0 s' /\ making np (S i) s')).
  - destruct (nth i (ofile x) None) as [f|] eqn:En.
    + pose proof (fds_elem s p x i f E (nth_some _ _ _ En)) as Hf.
      eapply wpe_bind_mono; [apply (filedup_KI P X f [] [] [] [] 0 s K); set_solver|]. cbn beta.
      intros r s1 (-> & R1 & E1). rewrite <- E1 in Ey. apply wpe_modify. split.
      * eapply KI_fd; [exact R1|exact Ey|apply (Ho i); lia|done|by right].
      * exists (set_ofile i (Some f) y). rewrite (updp_lookup _ _ _ _ Ey). cbn.
        rewrite list_lookup_insert_eq by (by eapply lookup_lt_Some). split; [done|]. split; [done|].
        intros j Hj. rewrite list_lookup_insert_ne by lia. apply Ho. lia.
    + apply wpe_ret. split; [done|]. exists y. split; [done|]. split; [done|]. intros j Hj. apply Ho. lia.
  - intros ? s1 [R1 Hm1]. apply IH; [done|done|lia].
Qed.
End Fork.

Lemma KI_run P X q s : KI P X [] [] [] [] 0 s -> (exists x c, procs s !! q = Some x /\ cwd x = Some c) ->
  KI (q :: P) X [] [] [] [] 0 s.
Proof. intros [[] ?] H. split; [split|]; try done. intros j [->|Hj]%elem_of_cons; auto. Qed.

Lemma KI_weaken P X X' s : KI P X [] [] [] [] 0 s -> X ⊆ X' -> KI [] X' [] [] [] [] 0 s.
Proof. intros [[] ?] H. split; [split|]; try done; [|set_solver]. intros q x E Hq. apply (ki_dead q x E). set_solver. Qed.

Lemma pfiles0_slots j : (0 <= j < NOFILE)%nat -> ofile pfiles0 !! j = Some None.
Proof. unfold NOFILE. intros H. do 16 (destruct j as [|j]; [done|]). lia. Qed.

Lemma fork_files_KI p np s : KI [p] [] [] [] [] [] 0 s -> procs s !! np = Some pfiles0 ->
  wpe stop (fork_files p np) (fun _ s' => KInv s') s.
Proof.
  intros K Enp. destruct (ki_run _ _ _ _ _ _ _ _ K p ltac:(set_solver)) as (x & c & E & Ec).
  assert (np <> p) as Hne by (intros ->; rewrite Enp in E; injection E as <-; done).
  assert (KI [p] [np] [] [] [] [] 0 s) as K1.
  { apply KI_run; [|by exists x, c]. apply (KI_weaken [p] []); [done|set_solver]. }
  unfold fork_files. eapply wpe_bind_mono; [apply (fork_loop_KI [p] [np] p ltac:(set_solver) np Hne ltac:(set_solver)
    NOFILE 0 s K1); [|done]|].
  { exists pfiles0. split; [done|]. split; [done|]. intros j Hj. by apply pfiles0_slots. }
  cbn beta. intros ? s1 (R1 & y & Ey & Ecy & _).
  eapply wpe_bind_mono; [eapply mycwd_KI; [|exact R1]; set_solver|]. cbn beta. intros c1 ? (-> & Ec1 & Hin).
  eapply wpe_bind_mono.
  { apply (oblivious_procs _ (fun r s' => r = c1 /\ KI [p] [np] [] [] [c1] [] 0 s') s1); [apply oblivious_liftF|].
    pose proof (idup_refs c1 (irefs s1 ++ cwds s1 ++ []) [] (kfs s1) (ki_refs _ _ _ _ _ _ _ _ R1) ltac:(set_solver)) as G.
    unfold wpe, liftF in *. destruct (idup c1 (kfs s1)) as [[r z]|e|e]; [|done|done]. destruct G as [-> G].
    split; [done|]. apply (KI_kfs _ _ [] [] [] [] _ _ _ s1 z R1). by rewrite refs_cons_perm. }
  cbn beta. intros r s2 [[-> R2] E2]. rewrite <- E2 in Ey. apply wpe_modify. rewrite (updp_lookup _ _ _ _ Ey).
  split; [|apply R2]. eapply KB_proc; [apply R2|exact Ey|done| | |done|set_solver|set_solver].
  - cbn. rewrite Ecy. done.
  - cbn. by eapply (ki_nofile _ _ _ _ _ _ _ _ R2).
Qed.

(** The descriptors below [i] are closed. *)
Definition closing (p i : nat) (s : ksys) : Prop := exists x c, procs s !! p = Some x /\ cwd x = Some c /\
  forall j, (j < i)%nat -> ofile x !! j = Some None.

Lemma exit_loop_KI sb p : forall n i s, KI [p] [] [] [] [] [] 0 s -> closing p i s -> (i + n = NOFILE)%nat ->
  wpe stop (exit_loop sb p n i) (fun _ s' => KI [p] [] [] [] [] [] 0 s' /\ closing p NOFILE s') s.
Proof.
  induction n as [|n IH]; intros i s K Hm Hi; cbn [exit_loop].
  { apply wpe_ret. split; [done|]. by replace NOFILE with i by lia. }
  destruct Hm as (x & c & E & Ec & Ho). apply wpe_bind, wpe_gets. rewrite (getp_lookup _ _ _ E).
  eapply (wpe_bind_mono _ _ _ (fun _ s' => KI [p] [] [] [] [] [] 0 s' /\ closing p (S i) s')).
  - destruct (nth i (ofile x) None) as [f|] eqn:En.
    + apply nth_some in En. pose proof (clear_fd_KI [p] [] p i f x c [] [] [] [] 0 s K E Ec En) as R1.
      rewrite (updp_lookup _ _ _ _ E) in R1. eapply wpe_bind_mono.
      { apply (oblivious_defer _ (fun _ s' => KI [p] [] [] [] [] [] 0 s')); [apply oblivious_fileclose|].
        apply fileclose_KI; [exact R1|lia|set_solver]. }
      cbn beta. intros ? s1 [R2 E1]. apply wpe_modify. rewrite <- E1 in E, R2. rewrite (updp_lookup _ _ _ _ E).
      split; [exact R2|]. exists (set_ofile i None x), c. cbn. rewrite list_lookup_insert_eq by (by eapply lookup_lt_Some).
      split; [done|]. split; [done|]. intros j Hj. destruct (decide (j = i)) as [->|Nj].
      * rewrite list_lookup_insert_eq by (by eapply lookup_lt_Some). done.
      * rewrite list_lookup_insert_ne by done. apply Ho. lia.
    + apply wpe_ret. split; [done|]. exists x, c. split; [done|]. split; [done|]. intros j Hj.
      destruct (decide (j = i)) as [->|Nj]; [|apply Ho; lia].
      destruct (lookup_lt_is_Some_2 (ofile x) i) as [o Eo].
      { rewrite (ki_nofile _ _ _ _ _ _ _ _ K p x E). lia. }
      rewrite Eo. f_equal. rewrite <- En. symmetry. by apply nth_lookup_Some.
  - intros ? s1 [R1 Hm1]. apply IH; [done|done|lia].
Qed.

Lemma exit_files_KI sb p s : KI [p] [] [] [] [] [] 0 s ->
  wpe stop (exit_files sb p) (fun _ s' => KInv s' /\ procs s' !! p = Some pfiles0) s.
Proof.
  intros K. destruct (ki_run _ _ _ _ _ _ _ _ K p ltac:(set_solver)) as (x & c & E & Ec).
  unfold exit_files. eapply wpe_bind_mono; [apply (exit_loop_KI sb p NOFILE 0 s K); [|done]|].
  { exists x, c. split; [done|]. split; [done|]. intros; lia. }
  cbn beta. intros ? s1 (R1 & x1 & c1 & E1 & Ec1 & Ho).
  apply wpe_bind, wpe_modify. pose proof (begin_op_KI [p] [] [] [] [] [] 0 s1 R1) as R2. unfold wpe in R2. cbn in R2.
  set (s2 := set_outstanding _ s1) in *. assert (procs s2 !! p = Some x1) as E1' by exact E1.
  assert (set_cwd None x1 = pfiles0) as Ex.
  { unfold pfiles0, set_cwd. f_equal. apply list_eq. intros j. destruct (decide (j < NOFILE)%nat) as [Hj|Hj].
    - rewrite Ho by done. symmetry. by apply pfiles0_slots; lia.
    - rewrite !lookup_ge_None_2; [done|by rewrite repeat_length; lia|]. rewrite (ki_nofile _ _ _ _ _ _ _ _ R1 p x1 E1). lia. }
  eapply wpe_bind_mono; [eapply mycwd_KI; [|exact R2]; set_solver|]. cbn beta. intros c2 ? (-> & Ec2 & _).
  assert (c2 = c1) as -> by (erewrite getp_lookup in Ec2 by exact E1'; congruence).
  apply bind_assoc_wpe. eapply wpe_bind_mono.
  { apply (put_cwd_KI sb [] [] c1 (<[p := pfiles0]> (procs s2)) []). split; [|apply R2].
    rewrite <- Ex. eapply (KB_proc [p] []); [apply R2|exact E1'|done| | |done|set_solver|set_solver].
    - cbn. rewrite Ec1. done.
    - cbn. by eapply (ki_nofile _ _ _ _ _ _ _ _ R1). }
  cbn beta. intros ? s3 [R3 E3]. apply wpe_modify. rewrite <- E3 in E1', R3.
  rewrite (updp_lookup _ _ _ _ E1'), Ex. split; [exact R3|]. cbn. apply list_lookup_insert_eq. by eapply lookup_lt_Some.
Qed.

(** ** The system *)

(** What a call meets outside the file layer: the caller's memory, [killed()], the
    drivers and [kalloc]. *)
Record env := mkEnv {
  e_mem : Z -> Z; e_copyin : Z -> nat -> nat * bool; e_copyout : Z -> nat -> bool; e_kl : nat -> bool;
  e_dev_read : Z -> option (Z -> Z -> Pipe.run_end * list Z);
  e_dev_write : Z -> option (Z -> Z -> Pipe.run_end); e_kalloc : option (list Z)
}.

Inductive call :=
| CDup (fd : Z) | CRead (fd addr n : Z) | CWrite (fd addr n : Z) (from : nat) | CClose (fd : Z)
| CFstat (fd addr : Z) | CLink (old new : option (list Z)) | CUnlink (path : option (list Z))
| COpen (path : option (list Z)) (omode : Z) | CMkdir (path : option (list Z))
| CMknod (path : option (list Z)) (major minor : Z) | CChdir (path : option (list Z))
| CPipe (fdarray : Z) | CFork (np : nat) | CExit.

Definition ignore {A} (m : K A) : K unit := _ ← m; mret tt.

Section System.
Context (sb : superblock).

Definition run (e : env) (p : nat) (c : call) : K unit :=
  match c with
  | CDup fd => ignore (sys_dup p fd)
  | CRead fd addr n => ignore (sys_read sb (e_copyout e) (e_kl e) (e_dev_read e) p fd addr n)
  | CWrite fd addr n from => ignore (sys_write sb (e_mem e) (e_copyin e) (e_kl e) (e_dev_write e) p fd addr n from)
  | CClose fd => ignore (sys_close sb p fd)
  | CFstat fd addr => ignore (sys_fstat sb (e_copyout e) p fd addr)
  | CLink old new => ignore (sys_link sb (e_copyin e) (e_copyout e) p old new)
  | CUnlink path => ignore (sys_unlink sb (e_copyin e) (e_copyout e) p path)
  | COpen path omode => ignore (sys_open sb (e_copyin e) (e_copyout e) p path omode)
  | CMkdir path => ignore (sys_mkdir sb (e_copyin e) (e_copyout e) p path)
  | CMknod path major minor => ignore (sys_mknod sb (e_copyin e) (e_copyout e) p path major minor)
  | CChdir path => ignore (sys_chdir sb (e_copyout e) p path)
  | CPipe fdarray => ignore (sys_pipe sb (e_copyout e) (e_kalloc e) p fdarray)
  | CFork np => fork_files p np
  | CExit => exit_files sb p
  end.

(** A process with a current directory runs; [fork] takes an unused slot. *)
Definition allowed (p : nat) (c : call) (s : ksys) : Prop :=
  (exists x w, procs s !! p = Some x /\ cwd x = Some w) /\
  match c with CFork np => procs s !! np = Some pfiles0 | _ => True end.

(** States that calls, in any order, by any processes, lead to. *)
Inductive reach (s0 : ksys) : ksys -> Prop :=
| reach_refl : reach s0 s0
| reach_step s e p c s' : reach s0 s -> allowed p c s -> run e p c s = Ret (tt, s') -> reach s0 s'.

(** What call [c] may stop with. *)
Definition stops (c : call) : string -> Prop :=
  match c with CRead _ _ _ => read_stop | CUnlink _ => unlink_stop | _ => stop end.

Lemma ignore_KInv {A} (E : string -> Prop) (m : K A) P X s : wpe E m (fun _ s' => KI P X [] [] [] [] 0 s') s ->
  X ⊆ [] -> wpe E (ignore m) (fun _ s' => KInv s') s.
Proof.
  intros H HX. eapply wpe_bind_mono; [exact H|]. cbn beta. intros ? s' R. by apply (KI_weaken P X).
Qed.

Lemma run_KInv e p c s : KInv s -> allowed p c s -> wpe (stops c) (run e p c) (fun _ s' => KInv s') s.
Proof.
  intros K [Hp Hc]. pose proof (KI_run [] [] p s K Hp) as K1. assert (p ∈ [p]) as Hin by set_solver.
  destruct e as [mem copyin copyout kl dr dw ka].
  destruct c; cbn [stops run e_mem e_copyin e_copyout e_kl e_dev_read e_dev_write e_kalloc];
    try (apply (ignore_KInv _ _ [p] []); [|done]).
  - by apply sys_dup_KI.
  - by apply sys_read_KI.
  - by apply sys_write_KI.
  - by apply sys_close_KI.
  - by apply sys_fstat_KI.
  - by apply sys_link_KI.
  - by apply sys_unlink_KI.
  - by apply sys_open_KI.
  - by apply make_node_KI.
  - by apply make_node_KI.
  - by apply sys_chdir_KI.
  - by apply sys_pipe_KI.
  - by apply fork_files_KI.
  - eapply wpe_mono; [by apply exit_files_KI|]. cbn beta. intros ? s' [R _]. exact R.
Qed.

Lemma reach_KInv s0 s : KInv s0 -> reach s0 s -> KInv s.
Proof.
  intros K0 Hr. induction Hr as [|s e p c s' Hr IH Ha E]; [done|].
  pose proof (run_KInv e p c s IH Ha) as H. unfold wpe in H. by rewrite E in H.
Qed.

(** Boot: no file is open, no inode in memory, no process. *)
Definition kernel0 (disk : Z -> block) (nproc : nat) : ksys :=
  mkK (mkFs disk (repeat inode0 NINODE)) (repeat file0 NFILE) (repeat pfiles0 nproc) [] 0.

(** What [userinit] does to files: [p->cwd = namei("/");] *)
Definition userinit_files (copyout : Z -> nat -> bool) (p : nat) : K unit :=
  o ← liftF (namei sb copyout 0 (bytes "/"));
  modify (updp p (set_cwd o)).
End System.

Lemma nth_repeat_any {A} (x : A) n k : nth k (repeat x n) x = x.
Proof. revert k. induction n as [|n IH]; intros [|k]; cbn; auto. Qed.

Lemma bind_repeat_nil {A} (g : A -> list nat) x n : g x = [] -> repeat x n ≫= g = [].
Proof. intros H. induction n as [|n IH]; cbn; [done|]. rewrite H. exact IH. Qed.

Lemma bind_all_nil {A} (g : A -> list nat) l : (forall i x, l !! i = Some x -> g x = []) -> l ≫= g = [].
Proof.
  intros H. induction l as [|x l IH]; cbn; [done|]. rewrite (H 0%nat x eq_refl). apply IH. intros i y E. by apply (H (S i)).
Qed.

Lemma refs_ok0 disk : refs_ok [] [] (mkFs disk (repeat inode0 NINODE)).
Proof.
  assert (forall ip, geti (mkFs disk (repeat inode0 NINODE)) ip = inode0) as G by (intros; apply nth_repeat_any).
  split; try done; try (intros ip; rewrite ?G; try set_solver).
  - split; [intros ip ip' dev inum (_ & H & _)|intros ip]; rewrite G in *; cbn in *; lia.
  - constructor.
Qed.

Lemma kernel0_KInv disk nproc : KInv (kernel0 disk nproc).
Proof.
  assert (fds (kernel0 disk nproc) = []) as Ef
    by exact (bind_repeat_nil (fun x => ofile x ≫= opt_ref) pfiles0 nproc eq_refl).
  assert (forall q x, procs (kernel0 disk nproc) !! q = Some x -> x = pfiles0) as Ep.
  { intros q x E. apply nth_lookup_Some with (d := pfiles0) in E. cbn in E. by rewrite nth_repeat_any in E. }
  assert (forall f, getf (kernel0 disk nproc) f = file0) as Eg by (intros; apply nth_repeat_any).
  split; [split|]; rewrite ?Ef; try done.
  - unfold irefs, cwds. cbn [kernel0 ftab procs]. rewrite !bind_repeat_nil by done. apply refs_ok0.
  - set_solver.
  - intros f Hf. by rewrite Eg.
  - intros f Hf. rewrite Eg. set_solver.
  - constructor.
  - set_solver.
  - by intros q x ->%Ep.
  - by intros q x ->%Ep.
  - set_solver.
  - unfold ends. cbn [kernel0 ftab pipes]. rewrite !bind_repeat_nil by done. split; [constructor|constructor|set_solver|done].
Qed.

(** [userinit] returns, with the root directory as current directory of the first process. *)
Lemma userinit_KInv sb copyout disk nproc p : (p < nproc)%nat ->
  exists s0, userinit_files sb copyout p (kernel0 disk nproc) = Ret (tt, s0) /\ KInv s0 /\
    exists x, procs s0 !! p = Some x /\ cwd x = Some 0%nat.
Proof.
  intros Hp. set (k := kernel0 disk nproc).
  assert (procs k !! p = Some pfiles0) as E.
  { destruct (lookup_lt_is_Some_2 (procs k) p) as [x Ex]; [cbn; by rewrite repeat_length|].
    rewrite Ex. apply nth_lookup_Some with (d := pfiles0) in Ex. cbn in Ex. rewrite nth_repeat_any in Ex. by subst x. }
  pose proof (iget_refs 1 1 [] [] (kfs k) (refs_ok0 disk)) as G.
  assert (exists fs1, iget 1 1 (kfs k) = Ret (0%nat, fs1)) as [fs1 E1].
  { assert (iget_scan (repeat inode0 NINODE) 0 None 1 1 = inr (Some 0%nat)) as Es by (vm_compute; reflexivity).
    unfold iget. rewrite (M_bind_Ret _ _ (kfs k) (kfs k) (kfs k)) by done.
    change (itab (kfs k)) with (repeat inode0 NINODE). rewrite Es. eexists. unfold modi. by rewrite (M_bind_Ret _ _ _ tt _ eq_refl). }
  unfold wpe in G. rewrite E1 in G.
  assert (userinit_files sb copyout p k = Ret (tt, updp p (set_cwd (Some 0%nat)) (set_kfs fs1 k))) as Eu.
  { unfold userinit_files. erewrite M_bind_Ret; [reflexivity|]. unfold liftF, namei, namex.
    change (hd 0 (bytes "/") =? chSLASH) with true. cbv iota.
    rewrite (M_bind_Ret _ _ (kfs k) (Some (0%nat, [])) fs1); [done|]. by rewrite (M_bind_Ret _ _ _ _ _ E1). }
  eexists. split; [exact Eu|]. pose proof (kernel0_KInv disk nproc) as K. fold k in K.
  assert (KI [] [] [] [] [0%nat] [] 0 (set_kfs fs1 k)) as K1.
  { apply (KI_kfs _ _ [] [] [] [] _ _ _ k fs1 K). rewrite refs_cons_perm.
    unfold irefs, cwds. cbn [k kernel0 ftab procs]. by rewrite !bind_repeat_nil. }
  clear Eu E1 G K. clearbody k. rewrite (updp_lookup p _ (set_kfs fs1 k) pfiles0 E). split.
  - split; [|apply K1]. eapply KB_proc; [apply K1|exact E|done|done|done|done|set_solver|set_solver].
  - exists (set_cwd (Some 0%nat) pfiles0). split; [|done]. cbn. apply list_lookup_insert_eq. by eapply lookup_lt_Some.
Qed.

Lemma boot_KInv sb copyout disk nproc init s0 s :
  (init < nproc)%nat -> userinit_files sb copyout init (kernel0 disk nproc) = Ret (tt, s0) -> reach sb s0 s -> KInv s.
Proof.
  intros Hi E0 Hr. destruct (userinit_KInv sb copyout disk nproc init Hi) as (s1 & E1 & K1 & _).
  rewrite E0 in E1. injection E1 as <-. by apply (reach_KInv sb s0).
Qed.

(** ** What the invariant says *)

(** C3: from boot on, for every sequence of system calls on files by all processes,
    whatever their arguments and the contents of the disk: a [struct file] has as many
    references as there are descriptors for it, an inode as many as there are open
    files and current directories on it, between calls no inode is locked and no
    transaction is open.  A call returns to such a state, or stops for a listed reason: the inode
    table is full or the disk is damaged ([damaged]); or it is a [read] of a file with a hole, which
    [log_write] refuses; or an [unlink] of an inode whose link count is not positive, as on a
    damaged disk or after the count has wrapped ([link_count_wraps]).  In particular [filedup], [fileclose],
    [fileread], [filewrite], [ilock], [iunlock], and [log_write] of every call but that [read], never panic over a missing
    reference, lock or transaction, and no freed pipe is used.  Calls run one after the other; the log's own
    limits are in [Txn]. *)
Theorem files_safe sb copyout disk nproc init s0 s e p c :
  (init < nproc)%nat -> userinit_files sb copyout init (kernel0 disk nproc) = Ret (tt, s0) ->
  reach sb s0 s -> allowed p c s ->
  (forall f, (f < NFILE)%nat -> f_ref (getf s f) = cnt f (fds s)) /\
  (forall ip, (ip < length (itab (kfs s)))%nat ->
     i_ref (geti (kfs s) ip) = cnt ip (irefs s ++ cwds s) /\ i_locked (geti (kfs s) ip) = false) /\
  outstanding s = 0 /\
  match run sb e p c s with
  | Ret (_, s') => reach sb s0 s'
  | Panic m | Undef m => stops c m
  end.
Proof.
  intros Hi E0 Hr Ha. pose proof (boot_KInv _ _ _ _ _ _ _ Hi E0 Hr) as K. clear Hi E0.
  split; [|split; [|split]].
  - intros f Hf. rewrite <- (app_nil_r (fds s)). by apply K.
  - intros ip Hip. rewrite <- (app_nil_r (cwds s)). split; [by apply K|].
    apply not_true_is_false. intros H. apply K in H; [set_solver|done].
  - apply K.
  - pose proof (run_KInv sb e p c s K Ha) as H. unfold wpe in H.
    destruct (run sb e p c s) as [[[] s']|m|m] eqn:E; [|done|done]. by eapply reach_step.
Qed.

(** What descriptor [f] stands for exists. *)
Definition typed (s : ksys) (f : nat) : Prop :=
  match f_type (getf s f) with
  | FD_NONE => False
  | FD_PIPE => exists x, pipes s !! f_pipe (getf s f) = Some (Some x) /\
      if f_writable (getf s f) then Pipe.writeopen (Pipe.pp x) = 1 else Pipe.readopen (Pipe.pp x) = 1
  | FD_INODE | FD_DEVICE => 0 < i_ref (geti (kfs s) (f_ip (getf s f)))
  end.

Lemma KInv_typed s f : KInv s -> f ∈ fds s -> typed s f.
Proof.
  intros K Hf. destruct (file_used [] [] _ _ _ _ _ _ f K ltac:(set_solver) ltac:(set_solver)) as (Hl & _ & Ht).
  assert (f < length (ftab s))%nat as Hlen by (by rewrite (ki_nfile _ _ _ _ _ _ _ _ K)).
  assert (f_type (getf s f) = FD_INODE \/ f_type (getf s f) = FD_DEVICE -> 0 < i_ref (geti (kfs s) (f_ip (getf s f)))) as Hi.
  { intros H. pose proof (holds_file [] [] _ _ _ _ _ s f K Hl H) as Hh. unfold holds in Hh.
    rewrite (ro_ref _ _ _ (ki_refs _ _ _ _ _ _ _ _ K)); [by apply cnt_pos|]. by apply (ro_in _ _ _ (ki_refs _ _ _ _ _ _ _ _ K)). }
  unfold typed. destruct (f_type (getf s f)) eqn:Et; [done| |auto|auto].
  pose proof (elem_ends s f _ Hlen Et eq_refl) as He. pose proof (ki_pipes _ _ _ _ _ _ _ _ K) as HP.
  destruct (pipes_ok_live _ _ _ (f_pipe (getf s f)) HP) as (x & Ex & X1 & X2 & _).
  { rewrite elem_of_app. destruct (f_writable (getf s f)); auto. }
  exists x. split; [done|]. apply cnt_pos in He.
  pose proof (NoDup_cnt_le (f_pipe (getf s f)) _ (po_read _ _ _ HP)).
  pose proof (NoDup_cnt_le (f_pipe (getf s f)) _ (po_write _ _ _ HP)).
  destruct (f_writable (getf s f)); lia.
Qed.

(** C17: descriptors are well typed: in every state reached from boot, each entry of a
    descriptor table is an open file that is a pipe end whose pipe exists and is open for
    that direction, or an inode in the inode table; the table has 16 entries; and a
    process that has exited has none. *)
Theorem descriptors_typed sb copyout disk nproc init s0 s :
  (init < nproc)%nat -> userinit_files sb copyout init (kernel0 disk nproc) = Ret (tt, s0) -> reach sb s0 s ->
  forall q x, procs s !! q = Some x ->
    length (ofile x) = NOFILE /\ (cwd x = None -> x = pfiles0) /\
    (forall w, cwd x = Some w -> 0 < i_ref (geti (kfs s) w)) /\
    (forall fd f, ofile x !! fd = Some (Some f) -> typed s f).
Proof.
  intros Hi E0 Hr q x Ex. pose proof (boot_KInv _ _ _ _ _ _ _ Hi E0 Hr) as K. clear Hi E0.
  split; [|split; [|split]].
  - by eapply (ki_nofile _ _ _ _ _ _ _ _ K).
  - apply (ki_dead _ _ _ _ _ _ _ _ K q x Ex). set_solver.
  - intros w Hw. assert (w ∈ irefs s ++ cwds s ++ []) as Hin.
    { rewrite !elem_of_app. right. left. apply list_elem_of_bind. exists x. rewrite Hw.
      split; [by apply list_elem_of_singleton|by eapply list_elem_of_lookup_2]. }
    rewrite (ro_ref _ _ _ (ki_refs _ _ _ _ _ _ _ _ K)); [by apply cnt_pos|]. by apply (ro_in _ _ _ (ki_refs _ _ _ _ _ _ _ _ K)).
  - intros fd f Hfd. apply KInv_typed; [done|]. by eapply fds_elem.
Qed.

(** C27: nothing leaks: [exit] empties the process's table, and when every process has
    exited, no file is open, no inode is referenced and every pipe is freed. *)
Theorem exit_frees_all sb copyout disk nproc init s0 s :
  (init < nproc)%nat -> userinit_files sb copyout init (kernel0 disk nproc) = Ret (tt, s0) -> reach sb s0 s ->
  (forall e p s', allowed p CExit s -> run sb e p CExit s = Ret (tt, s') -> procs s' !! p = Some pfiles0) /\
  ((forall q x, procs s !! q = Some x -> x = pfiles0) ->
    (forall f, (f < NFILE)%nat -> f_ref (getf s f) = 0 /\ f_type (getf s f) = FD_NONE) /\
    (forall ip, (ip < length (itab (kfs s)))%nat -> i_ref (geti (kfs s) ip) = 0) /\
    (forall pi o, pipes s !! pi = Some o -> o = None)).
Proof.
  intros Hi E0 Hr. pose proof (boot_KInv _ _ _ _ _ _ _ Hi E0 Hr) as K. clear Hi E0. split.
  { intros e p s' [Hp _] E. pose proof (exit_files_KI sb p s (KI_run [] [] p s K Hp)) as H.
    unfold wpe in H. cbn [run] in E. rewrite E in H. apply H. }
  intros Hq.
  assert (fds s = []) as Ef by (apply bind_all_nil; by intros q x ->%Hq).
  assert (cwds s = []) as Ec by (apply bind_all_nil; by intros q x ->%Hq).
  assert (forall f, (f < NFILE)%nat -> f_ref (getf s f) = 0 /\ f_type (getf s f) = FD_NONE) as Hf.
  { intros f Hf. rewrite (ki_fref _ _ _ _ _ _ _ _ K), (ki_type _ _ _ _ _ _ _ _ K), Ef by done. split; [done|set_solver]. }
  assert (forall g : file -> list nat, (forall x, f_type x = FD_NONE -> g x = []) -> ftab s ≫= g = []) as Hg.
  { intros g Hg. apply bind_all_nil. intros f x E. apply Hg. pose proof (lookup_lt_Some _ _ _ E) as Hl.
    rewrite (ki_nfile _ _ _ _ _ _ _ _ K) in Hl. rewrite <- (proj2 (Hf f Hl)). f_equal. symmetry. by apply nth_lookup_Some. }
  split; [exact Hf|]. split.
  - intros ip Hip. rewrite (ro_ref _ _ _ (ki_refs _ _ _ _ _ _ _ _ K)) by done. rewrite Ec. unfold irefs.
    rewrite Hg; [done|]. intros x E. unfold file_ip. by rewrite E.
  - intros pi o E. destruct o as [x|]; [|done]. pose proof (po_state _ _ _ (ki_pipes _ _ _ _ _ _ _ _ K) _ _ E) as (_ & _ & H).
    unfold ends in H. rewrite !Hg in H; [set_solver| |]; intros y Ey; unfold pipe_end; by rewrite Ey.
Qed.

(** ** A sample system

    A disk of 100 blocks whose root directory is empty, two processes, memory whose
    byte at [a] is [a mod 256]. *)
Module Sample.
Definition root : inode := mkI 1 1 0 false false T_DIR 0 0 1 0 (repeat 0 13).
Definition disk : Z -> block :=
  zset Disk100.disk 5 (put_dinode (Disk100.disk 5) (dip_off 1) root).
Definition sb : superblock := Disk100.sb.
Definition e : env := mkEnv (fun a => a mod 256) (fun _ m => (m, true)) (fun _ _ => true) (fun _ => false)
  (fun _ => None) (fun _ => None) (Some (repeat 0 512)).

(** The state after a run; whether it returns. *)
Definition after {A} (m : K A) (s : ksys) : ksys := match m s with Ret (_, s') => s' | _ => s end.
Definition ok {A} (m : K A) (s : ksys) : bool := match m s with Ret _ => true | _ => false end.
Lemma ok_after (m : K unit) s : ok m s = true -> m s = Ret (tt, after m s).
Proof. unfold ok, after. by destruct (m s) as [[[] s']|e|e]. Qed.

Definition s0 : ksys := after (userinit_files sb (e_copyout e) 0) (kernel0 disk 2).
Lemma s0_boot : userinit_files sb (e_copyout e) 0 (kernel0 disk 2) = Ret (tt, s0).
Proof. apply ok_after. vm_compute. reflexivity. Qed.

(** [p] makes call [c]. *)
Definition after_call (p : nat) (c : call) (s : ksys) : ksys := after (run sb e p c) s.
Definition running (p : nat) (s : ksys) : bool :=
  match procs s !! p with Some x => bool_decide (is_Some (cwd x)) | None => false end.
Lemma running_allowed p c s : running p s = true -> (forall np, c <> CFork np) -> allowed p c s.
Proof.
  unfold running, allowed. intros H Hc. destruct (procs s !! p) as [x|]; [|done].
  apply bool_decide_eq_true_1 in H as [w Hw]. split; [by exists x, w|]. destruct c; try done. by destruct (Hc np).
Qed.

Definition open_a : call := COpen (Some (bytes "/a")) 0x202.
Definition s1 : ksys := after_call 0 open_a s0.
Definition s2 : ksys := after_call 0 (CWrite 0 65 5 0) s1.
Definition s3 : ksys := after_call 0 (CPipe 0) s2.

Lemma step_reach p c s : reach sb s0 s -> running p s = true -> (forall np, c <> CFork np) ->
  ok (run sb e p c) s = true -> reach sb s0 (after_call p c s).
Proof.
  intros Hr Hp Hc Ho. eapply (reach_step sb s0 s e p c); [done|by apply running_allowed|]. by apply ok_after.
Qed.
Lemma s1_reach : reach sb s0 s1.
Proof. apply step_reach; [constructor|vm_compute; reflexivity|done|vm_compute; reflexivity]. Qed.
Lemma s2_reach : reach sb s0 s2.
Proof. apply step_reach; [apply s1_reach|vm_compute; reflexivity|done|vm_compute; reflexivity]. Qed.
Lemma s3_reach : reach sb s0 s3.
Proof. apply step_reach; [apply s2_reach|vm_compute; reflexivity|done|vm_compute; reflexivity]. Qed.
End Sample.

Lemma files_safe_witness :
  (fds Sample.s3 = [0; 1; 2]%nat /\ f_ref (getf Sample.s3 1) = cnt 1 (fds Sample.s3)) /\
  match run Sample.sb Sample.e 0 (CClose 1) Sample.s3 with
  | Ret (_, s') => reach Sample.sb Sample.s0 s' | Panic m | Undef m => stops (CClose 1) m
  end.
Proof.
  destruct (files_safe Sample.sb (e_copyout Sample.e) Sample.disk 2 0 Sample.s0 Sample.s3 Sample.e 0 (CClose 1)
    ltac:(lia) Sample.s0_boot Sample.s3_reach
    (Sample.running_allowed 0 (CClose 1) Sample.s3 ltac:(vm_compute; reflexivity) ltac:(done))) as (H1 & _ & _ & H4).
  split; [|exact H4]. split; [vm_compute; reflexivity|]. apply H1. unfold NFILE. lia.
Defined.

Lemma descriptors_typed_witness :
  ofile (getp Sample.s3 0) !! 2%nat = Some (Some 2%nat) /\ f_type (getf Sample.s3 2) = FD_PIPE /\ typed Sample.s3 2.
Proof.
  assert (procs Sample.s3 !! 0%nat = Some (getp Sample.s3 0)) as E by (vm_compute; reflexivity).
  assert (ofile (getp Sample.s3 0) !! 2%nat = Some (Some 2%nat)) as E2 by (vm_compute; reflexivity).
  destruct (descriptors_typed Sample.sb (e_copyout Sample.e) Sample.disk 2 0 Sample.s0 Sample.s3 ltac:(lia)
    Sample.s0_boot Sample.s3_reach 0 (getp Sample.s3 0) E) as (_ & _ & _ & H).
  split; [exact E2|]. split; [vm_compute; reflexivity|]. exact (H 2%nat 2%nat E2).
Defined.

Lemma exit_frees_all_witness :
  f_ref (getf (Sample.after_call 0 CExit Sample.s3) 1) = 0 /\
  pipes (Sample.after_call 0 CExit Sample.s3) = [None].
Proof.
  assert (reach Sample.sb Sample.s0 (Sample.after_call 0 CExit Sample.s3)) as Hr
    by (apply Sample.step_reach; [apply Sample.s3_reach|vm_compute; reflexivity|done|vm_compute; reflexivity]).
  destruct (exit_frees_all Sample.sb (e_copyout Sample.e) Sample.disk 2 0 Sample.s0 _ ltac:(lia) Sample.s0_boot Hr) as [_ H].
  destruct H as (H1 & _ & _).
  - intros q x E. assert (procs (Sample.after_call 0 CExit Sample.s3) = [pfiles0; pfiles0]) as Ep by (vm_compute; reflexivity).
    rewrite Ep in E. destruct q as [|[|q]]; [by injection E as <-|by injection E as <-|discriminate E].
  - split; [apply H1; unfold NFILE; lia|vm_compute; reflexivity].
Defined.

(** ** Link counts *)

(** The link count is a [short] that [sys_link] increments without a test, and a
    directory entry costs 16 bytes: a file can be linked 32767 times (two directories
    hold 34304 entries).  The next [link] succeeds and makes the count -32768, and
    the next [unlink] of the file then panics the kernel. *)
Theorem link_count_wraps :
  exists s,
    i_nlink (geti (kfs s) 1) = 32767 /\ i_inum (geti (kfs s) 1) = 2 /\
    match sys_link Sample.sb (e_copyin Sample.e) (e_copyout Sample.e) 0 (Some (bytes "/a")) (Some (bytes "/b")) s with
    | Ret (r, s') => r = 0 /\ i_nlink (geti (kfs s') 1) = -32768 /\
        sys_unlink Sample.sb (e_copyin Sample.e) (e_copyout Sample.e) 0 (Some (bytes "/b")) s' = Panic "unlink: nlink < 1"
    | _ => False
    end.
Proof.
  exists (set_kfs (updi 1 (set_nlink 32767) (kfs Sample.s1)) Sample.s1).
  split; [vm_compute; reflexivity|]. split; [vm_compute; reflexivity|].
  assert (forall (m : K Z) s (P : Z -> ksys -> Prop), Sample.ok m s = true -> P (match m s with Ret (a, _) => a | _ => 0 end) (Sample.after m s) ->
    match m s with Ret (r, s') => P r s' | _ => False end) as H.
  { intros m s P. unfold Sample.ok, Sample.after. by destruct (m s) as [[r s']|x|x]. }
  apply H; [vm_compute; reflexivity|]. split; [vm_compute; reflexivity|]. split; vm_compute; reflexivity.
Qed.
