(* ===== verification/FileIO.v ===== *)
(** * Reading and writing open files: [fileread] and [filewrite] of [kernel/file.c]

    [filewrite] splits a write into pieces of three blocks, each its own transaction, and
    moves the offset piece by piece.  The theorems say that this is one write of the
    whole buffer at the offset, and that what was written is read back. *)

From S2P Require Import Prelude Mlfq Bio FsBlk Words FsInode FsData FsTable File SysFile.
From S2P Require Pipe.

Section IO.
Context (sb : superblock) (HL : layout sb).
Context (mem : Z -> Z) (Hmem : forall a, 0 <= mem a < 256).
Context (copyin : Z -> nat -> nat * bool).
Context (copyin_count : forall a m, (fst (copyin a m) <= m)%nat /\ (snd (copyin a m) = true -> fst (copyin a m) = m)).
Context (copyout : Z -> nat -> bool).

(** Inode [ip] has been read from disk and nobody has locked it. *)
Record inode_ready (s : fs) (ip : nat) : Prop := {
  ir_ok : file_ok sb s ip;
  ir_ref : 1 <= i_ref (geti s ip);
  ir_free : i_locked (geti s ip) = false;
  ir_valid : i_valid (geti s ip) = true
}.

(** The state with the lock of [ip] taken or not. *)
Abbreviation lk b ip s := (updi ip (set_locked b) s).

Lemma lk_addrs b ip s j : i_addrs (geti (lk b ip s) j) = i_addrs (geti s j).
Proof.
  destruct (decide (j = ip)) as [->|N]; [|by rewrite geti_updi_ne].
  destruct (decide (ip < length (itab s))%nat) as [H|H]; [by rewrite geti_updi|].
  rewrite !geti_out; [done|lia|rewrite length_updi; lia].
Qed.
Lemma lk_fblock b ip s j bn : fblock (lk b ip s) j bn = fblock s j bn.
Proof. unfold fblock, ind_addr. by rewrite !lk_addrs. Qed.
Lemma lk_fbyte b ip s j o : fbyte (lk b ip s) j o = fbyte s j o.
Proof. unfold fbyte, fcontent. by rewrite !lk_fblock. Qed.
Lemma lk_fbytes b ip s j o n : fbytes (lk b ip s) j o n = fbytes s j o n.
Proof. unfold fbytes. apply map_ext. intros k. apply lk_fbyte. Qed.
Lemma lk_own b ip s j x : own (lk b ip s) j x <-> own s j x.
Proof. unfold own, ind_addr. rewrite lk_addrs. by setoid_rewrite lk_fblock. Qed.

Lemma lk_wf b ip s j : file_wf sb s j -> file_wf sb (lk b ip s) j.
Proof.
  intros [W1 W2 W3 W4 W5]. split.
  - by rewrite length_updi.
  - by rewrite lk_addrs.
  - unfold ind_addr in *. rewrite lk_addrs. done.
  - intros bn Hb. unfold ind_addr. rewrite lk_fblock, lk_addrs. by apply W4.
  - intros bn bn' Hb Hb'. rewrite !lk_fblock. by apply W5.
Qed.

Lemma lk_file_ok b ip s : file_ok sb s ip -> file_ok sb (lk b ip s) ip.
Proof.
  intros [O1 O2 O3 O4 O5]. pose proof (fw_in _ _ _ O2) as Hin. split.
  - done.
  - by apply lk_wf.
  - by rewrite geti_updi.
  - by rewrite geti_updi.
  - intros o. rewrite geti_updi, lk_fblock by done. apply O5.
Qed.

Lemma ilock_run ip s : inode_ready s ip -> ilock sb ip s = Ret (tt, lk true ip s).
Proof.
  intros [O R F V]. unfold ilock, readip. rewrite (M_bind_Ret _ _ s (geti s ip) s) by done.
  rewrite (M_bind_Ret _ _ s tt s) by (unfold panic_if; by rewrite (proj2 (Z.ltb_ge _ _)) by lia).
  rewrite F, V. done.
Qed.
Lemma iunlock_run ip s : i_locked (geti s ip) = true -> 1 <= i_ref (geti s ip) -> iunlock ip s = Ret (tt, lk false ip s).
Proof.
  intros HL1 HR. unfold iunlock, readip. rewrite (M_bind_Ret _ _ s (geti s ip) s) by done. unfold id.
  rewrite HL1. rewrite (M_bind_Ret _ _ s tt s) by (unfold panic_if; cbn; by rewrite (proj2 (Z.ltb_ge _ _)) by lia). done.
Qed.

Lemma liftF_run {A} (m : M fs A) s a x : m (kfs s) = Ret (a, x) -> liftF m s = Ret (a, set_kfs x s).
Proof. intros E. unfold liftF. by rewrite E. Qed.
Lemma inop_run {A} (m : M fs A) s a x : 1 <= outstanding s -> m (kfs s) = Ret (a, x) -> inop m s = Ret (a, set_kfs x s).
Proof.
  intros Hd E. unfold inop. rewrite (M_bind_Ret _ _ s (outstanding s) s) by done.
  rewrite (M_bind_Ret _ _ s tt s) by (unfold panic_if; by rewrite (proj2 (Z.ltb_ge _ _)) by lia). by apply liftF_run.
Qed.

(** Locking and unlocking a free inode changes nothing. *)
Lemma lk_lk ip s : (ip < length (itab s))%nat -> i_locked (geti s ip) = false -> lk false ip (lk true ip s) = s.
Proof.
  intros Hl HF. rewrite updi_updi by done. unfold updi. destruct s as [b t]. unfold geti in *. cbn in *. f_equal.
  apply list_insert_id. destruct (lookup_lt_is_Some_2 _ _ Hl) as [x Ex]. rewrite Ex. f_equal.
  rewrite (nth_lookup_Some _ _ _ _ Ex) in HF |- *. destruct x. cbn in *. by subst.
Qed.

(** [x] is [s] after [t] of [n] bytes from [src] were written at [off] of file [ip]; a
    failed copy may have left more of them, up to offset [e]. *)
Record wrote (s x : fs) (ip : nat) (src off n t e : Z) : Prop := {
  wr_ready : inode_ready x ip;
  wr_count : 0 <= t <= n;
  wr_stop : t = n \/ write_stop sb copyin x true \/ FILEMAX < off + n;
  wr_end : e = off + t \/ (off + t <= e <= off + n /\ exists a m, snd (copyin a m) = false);
  wr_size : i_size (geti x ip) = Z.max (i_size (geti s ip)) (off + t);
  wr_meta : meta_same (geti s ip) (geti x ip);
  wr_bytes : copied mem s x ip src off e;
  wr_tab : forall j, j <> ip -> geti x j = geti s j;
  wr_other : forall j, j <> ip -> file_wf sb s j -> disjoint_files s ip j ->
    file_wf sb x j /\ disjoint_files x ip j /\ forall o, 0 <= o < FILEMAX -> fbyte x j o = fbyte s j o
}.

Lemma lk_disjoint b ip s j : disjoint_files (lk b ip s) ip j <-> disjoint_files s ip j.
Proof. unfold disjoint_files. by setoid_rewrite lk_own. Qed.

(** One piece: lock, [writei], unlock. *)
Lemma write_piece ip s src off n : inode_ready s ip -> 0 <= n -> 0 <= off <= i_size (geti s ip) -> off + n <= FILEMAX ->
  exists t e x, writei mem copyin sb ip true src off n (lk true ip s) = Ret (t, x) /\
    i_locked (geti x ip) = true /\ 1 <= i_ref (geti x ip) /\ wrote s (lk false ip x) ip src off n t e.
Proof.
  intros [O R F V] Hn Hoff Hmax. pose proof (fw_in _ _ _ (fo_wf _ _ _ O)) as Hin.
  destruct (writei_written sb HL mem Hmem copyin copyin_count (lk true ip s) ip true src off n)
    as (t & e & x & E & Ht & St & He & O' & Hs & Hm & Hc & Hj & Hd); try done.
  { by apply lk_file_ok. } { by rewrite geti_updi. }
  pose proof (fw_in _ _ _ (fo_wf _ _ _ O')) as Hin'. unfold meta_same in Hm. rewrite geti_updi in Hm, Hs by done.
  assert (geti (lk false ip x) ip = set_locked false (geti x ip)) as G by (by rewrite geti_updi).
  exists t, e, x. split; [exact E|]. split; [by rewrite Hm|]. split; [by rewrite Hm|]. split.
  - split; [by apply lk_file_ok|by rewrite G, Hm|by rewrite G|by rewrite G, Hm].
  - done.
  - destruct St as [St|St]; auto.
  - destruct He as [He|(He & _ & Hf)]; [by left|by right].
  - by rewrite G.
  - unfold meta_same. rewrite G, Hm. cbn. by destruct (geti s ip); cbn in F |- *; rewrite F.
  - intros o Ho. rewrite lk_fbyte, Hc, lk_fbyte by done. done.
  - intros j Nj. rewrite geti_updi_ne, Hj, geti_updi_ne by done. done.
  - intros j Nj Wj Dj. destruct (Hd j Nj ltac:(by apply lk_wf) ltac:(by apply lk_disjoint)) as [Sj Dj'].
    split; [apply lk_wf, Sj|]. split; [by apply lk_disjoint|]. intros o Ho.
    rewrite lk_fbyte, (same_file_byte sb (lk true ip s) x j o Sj Ho), lk_fbyte. done.
Qed.

Lemma wrote_nil ip s src off n : inode_ready s ip -> 0 <= off <= i_size (geti s ip) -> 0 <= n -> n = 0 \/ FILEMAX < off + n ->
  wrote s s ip src off n 0 off.
Proof.
  intros Hr Hoff Hn Hs. split; try done; try (left; lia); try lia.
  - unfold meta_same. by destruct (geti s ip).
  - apply copied_nil.
Qed.

(** A full piece and what follows it. *)
Lemma wrote_app ip s x y src off n1 n2 t e :
  wrote s x ip src off n1 n1 (off + n1) -> wrote x y ip (src + n1) (off + n1) n2 t e ->
  wrote s y ip src off (n1 + n2) (n1 + t) e.
Proof.
  intros [A1 A2 A3 A4 A5 A6 A7 A8 A9] [B1 B2 B3 B4 B5 B6 B7 B8 B9].
  assert (off + n1 <= e) as He by lia. split; try done.
  - lia.
  - destruct B3 as [->|[B3|B3]]; [by left|by right; left|right; right; lia].
  - destruct B4 as [->|[B4 Bf]]; [left; lia|right]. split; [lia|done].
  - rewrite B5, A5. lia.
  - unfold meta_same in *. rewrite B6, A6. done.
  - eapply copied_app; [| |exact A7|exact B7]; lia.
  - intros j Nj. by rewrite B8, A8.
  - intros j Nj Wj Dj. destruct (A9 j Nj Wj Dj) as (W1 & D1 & E1). destruct (B9 j Nj W1 D1) as (W2 & D2 & E2).
    split; [done|]. split; [done|]. intros o Ho. by rewrite E2, E1.
Qed.

(** The system after the file contents became [x] and the offset of [f] became [o]. *)
Definition moved (f : nat) (o : Z) (x : fs) (s : ksys) : ksys := set_kfs x (updf f (set_foff o) s).

Lemma moved_same f s : (f < length (ftab s))%nat -> moved f (f_off (getf s f)) (kfs s) s = s.
Proof.
  intros Hf. unfold moved, updf. destruct s as [x t q ps d]. unfold set_kfs, set_ftab. cbn. f_equal.
  apply list_insert_id. etransitivity; [exact (getf_lookup (mkK x t q ps d) f Hf)|]. unfold getf. cbn. by destruct (nth f t file0).
Qed.
Lemma moved_moved f o o' x x' s : (f < length (ftab s))%nat -> moved f o' x' (moved f o x s) = moved f o' x' s.
Proof.
  intros Hf. unfold moved, updf, set_kfs, set_ftab. cbn. f_equal.
  rewrite list_insert_insert_eq. f_equal. unfold getf. cbn. rewrite nth_insert_eq by done. done.
Qed.
Lemma getf_moved f o x s : (f < length (ftab s))%nat -> getf (moved f o x s) f = set_foff o (getf s f).
Proof. intros Hf. apply (getf_updf s f _ Hf). Qed.

(** One turn of the loop of [filewrite]. *)
Definition write_turn (f ip : nat) (addr i n1 : Z) : K Z :=
  _ ← begin_op;
  _ ← liftF (ilock sb ip);
  off ← readf f f_off;
  r ← inop (writei mem copyin sb ip true (addr + i) off n1);
  _ ← (if 0 <? r then modf f (set_foff (u32 (off + r))) else mret tt);
  _ ← liftF (iunlock ip);
  _ ← end_op;
  mret r.

Lemma write_turn_run f ip addr i n1 s (off := f_off (getf s f)) :
  (f < length (ftab s))%nat -> inode_ready (kfs s) ip -> 0 <= n1 -> 0 <= off <= i_size (geti (kfs s) ip) ->
  off + n1 <= FILEMAX -> 0 <= outstanding s ->
  exists t e x, write_turn f ip addr i n1 s = Ret (t, moved f (off + t) x s) /\ wrote (kfs s) x ip (addr + i) off n1 t e.
Proof.
  intros Hf Hr Hn Hoff Hmax Hd. subst off. set (off := f_off (getf s f)) in *. pose proof FILEMAX_val as HF.
  destruct (write_piece ip (kfs s) (addr + i) off n1 Hr Hn Hoff Hmax) as (t & e & x & E & Hl & Hx & W).
  exists t, e, (lk false ip x). split; [|exact W]. pose proof (wr_count _ _ _ _ _ _ _ _ W) as Ht.
  set (s1 := set_outstanding (outstanding s + 1) s). set (s2 := set_kfs (lk true ip (kfs s)) s1).
  set (s3 := set_kfs x s2). set (s4 := moved f (off + t) x s2).
  unfold write_turn. rewrite (M_bind_Ret _ _ s tt s1) by done.
  rewrite (M_bind_Ret _ _ s1 tt s2) by (apply liftF_run; by apply ilock_run).
  rewrite (M_bind_Ret _ _ s2 off s2) by done.
  rewrite (M_bind_Ret _ _ s2 t s3) by (apply inop_run; [cbn; lia|exact E]).
  rewrite (M_bind_Ret _ _ s3 tt s4).
  2:{ destruct (Z.ltb_spec 0 t) as [Hp|Hp].
      - unfold modf. cbn. rewrite wrap_small by lia. done.
      - assert (t = 0) as Et by lia. unfold s4, moved, s3. rewrite Et, Z.add_0_r.
        pose proof (moved_same f s2 Hf) as E2. change (f_off (getf s2 f)) with off in E2.
        unfold mret, M_ret. do 2 f_equal. rewrite <- E2 at 1. done. }
  rewrite (M_bind_Ret _ _ s4 tt (set_kfs (lk false ip x) s4)) by (apply liftF_run; by apply iunlock_run).
  rewrite (M_bind_Ret _ _ _ tt (moved f (off + t) (lk false ip x) s)); [done|].
  unfold end_op. cbn. do 2 f_equal. unfold s4, s2, s1, moved, updf, set_outstanding, set_kfs, set_ftab. cbn. f_equal. lia.
Qed.

(** A piece beyond the largest file is refused whole. *)
Lemma write_turn_over f ip addr i n1 s (off := f_off (getf s f)) :
  (f < length (ftab s))%nat -> inode_ready (kfs s) ip -> 0 <= n1 <= 3072 -> 0 <= off <= i_size (geti (kfs s) ip) ->
  FILEMAX < off + n1 -> 0 <= outstanding s -> write_turn f ip addr i n1 s = Ret (-1, s).
Proof.
  intros Hf Hr Hn Hoff Hmax Hd. subst off. set (off := f_off (getf s f)) in *. pose proof FILEMAX_val as HF.
  pose proof (fo_size _ _ _ (ir_ok _ _ Hr)) as Hsz. pose proof (fw_in _ _ _ (fo_wf _ _ _ (ir_ok _ _ Hr))) as Hin.
  set (s1 := set_outstanding (outstanding s + 1) s). set (s2 := set_kfs (lk true ip (kfs s)) s1).
  unfold write_turn. rewrite (M_bind_Ret _ _ s tt s1) by done.
  rewrite (M_bind_Ret _ _ s1 tt s2) by (apply liftF_run; by apply ilock_run).
  rewrite (M_bind_Ret _ _ s2 off s2) by done.
  rewrite (M_bind_Ret _ _ s2 (-1) s2).
  2:{ change s2 with (set_kfs (kfs s2) s2) at 2. apply inop_run; [cbn; lia|]. unfold writei.
      rewrite (M_bind_Ret _ _ (kfs s2) (i_size (geti (kfs s) ip)) (kfs s2)).
      2:{ unfold readip, gets. cbn [kfs s2 set_kfs]. by rewrite geti_updi. }
      rewrite wrap_small by lia. rewrite (proj2 (Z.ltb_ge (i_size _) off)), (proj2 (Z.ltb_ge (off + n1) off)) by lia.
      change (MAXFILE * BSIZE) with FILEMAX. by rewrite (proj2 (Z.ltb_lt _ _) Hmax). }
  change (0 <? -1) with false. cbv iota. rewrite (M_bind_Ret _ _ s2 tt s2) by done.
  rewrite (M_bind_Ret _ _ s2 tt s1).
  2:{ rewrite (liftF_run (iunlock ip) s2 tt (kfs s)); [by destruct s|]. cbn [kfs s2 set_kfs].
      rewrite iunlock_run; rewrite ?geti_updi by done; [|done|apply Hr]. by rewrite lk_lk by (done || apply Hr). }
  rewrite (M_bind_Ret _ _ s1 tt s); [done|]. unfold end_op, modify, s1, set_outstanding. destruct s. cbn. do 3 f_equal. lia.
Qed.

Lemma filewrite_loop_turn fuel f ip addr n i s : i < n ->
  filewrite_loop sb mem copyin (S fuel) f ip addr n i s =
  (r ← write_turn f ip addr i (Z.min (n - i) max);
   if negb (r =? Z.min (n - i) max) then mret i else filewrite_loop sb mem copyin fuel f ip addr n (i + r)) s.
Proof.
  intros H. cbn [filewrite_loop]. rewrite (proj2 (Z.ltb_lt _ _)) by lia. cbv zeta.
  unfold write_turn, mbind, M_bind. generalize (Z.min (n - i) max). intros n1.
  destruct (begin_op s) as [[? s1]| |]; [|done|done]. destruct (liftF (ilock sb ip) s1) as [[? s2]| |]; [|done|done].
  destruct (readf f f_off s2) as [[off s3]| |]; [|done|done]. destruct (inop _ s3) as [[r s4]| |]; [|done|done].
  destruct ((if 0 <? r then modf f (set_foff (u32 (off + r))) else mret tt) s4) as [[? s5]| |]; [|done|done].
  destruct (liftF (iunlock ip) s5) as [[? s6]| |]; [|done|done]. by destruct (end_op s6) as [[? s7]| |].
Qed.

Lemma filewrite_loop_run f ip addr n : forall fuel i s (off := f_off (getf s f)),
  (f < length (ftab s))%nat -> inode_ready (kfs s) ip -> i <= n -> 0 <= off <= i_size (geti (kfs s) ip) ->
  0 <= outstanding s -> n - i <= Z.of_nat fuel ->
  exists i' t e x, filewrite_loop sb mem copyin fuel f ip addr n i s = Ret (i', moved f (off + t) x s) /\
    (i' = n <-> t = n - i) /\ wrote (kfs s) x ip (addr + i) off (n - i) t e.
Proof.
  induction fuel as [|fuel IH]; intros i s off Hf Hr Hi Hoff Hd Hfuel.
  all: destruct (decide (i = n)) as [->|Hne].
  1,3: exists n, 0, off, (kfs s); rewrite Z.sub_diag, Z.add_0_r; split; [|split; [done|apply wrote_nil; auto; lia]];
    cbn [filewrite_loop]; rewrite Z.ltb_irrefl; unfold off; by rewrite moved_same.
  { lia. }
  rewrite filewrite_loop_turn by lia. assert (max = 3072) as Hm by reflexivity.
  set (n1 := Z.min (n - i) max). destruct (Z.lt_ge_cases FILEMAX (off + n1)) as [Hov|Hmax].
  { exists i, 0, off, (kfs s). rewrite (M_bind_Ret _ _ s (-1) s) by (apply write_turn_over; fold off; auto; lia).
    rewrite (proj2 (Z.eqb_neq (-1) n1)) by lia. cbn [negb]. unfold off. rewrite Z.add_0_r, moved_same by done.
    split; [done|]. split; [lia|]. apply wrote_nil; auto; [lia|]. fold off. lia. }
  destruct (write_turn_run f ip addr i n1 s Hf Hr) as (t & e & x & E & W); try lia.
  fold off in E, W. rewrite (M_bind_Ret _ _ _ _ _ E). pose proof (wr_count _ _ _ _ _ _ _ _ W) as Ht.
  destruct (Z.eqb_spec t n1) as [Et|Et]; cbn [negb].
  - subst t. assert (e = off + n1) as -> by (destruct (wr_end _ _ _ _ _ _ _ _ W) as [?|[? _]]; lia).
    pose proof (wr_size _ _ _ _ _ _ _ _ W) as Hs.
    destruct (IH (i + n1) (moved f (off + n1) x s)) as (i' & t & e & y & E' & Hi' & W'); try done.
    + unfold moved, updf. cbn. by rewrite length_insert.
    + apply W.
    + lia.
    + rewrite getf_moved by done. cbn [f_off set_foff kfs moved set_kfs]. rewrite Hs. lia.
    + lia.
    + rewrite getf_moved in E', W' by done. cbn [f_off set_foff kfs moved set_kfs] in E', W'.
      rewrite moved_moved in E' by done. exists i', (n1 + t), e, y. rewrite E', Z.add_assoc.
      split; [done|]. split; [lia|]. replace (n - i) with (n1 + (n - (i + n1))) by lia.
      apply (wrote_app ip (kfs s) x); [exact W|]. by replace (addr + i + n1) with (addr + (i + n1)) by lia.
  - exists i, t, e, x. split; [done|]. split; [lia|]. destruct W as [W1 W2 W3 W4 W5 W6 W7 W8 W9]. split; try done.
    + lia.
    + destruct W3 as [W3|[W3|W3]]; [done|by right; left|right; right; lia].
    + destruct W4 as [W4|[W4 Wf]]; [by left|right]. split; [lia|done].
Qed.
End IO.

(** ** Theorems *)

(** A file open for writing (reading) on inode [ip]. *)
Definition open_on (s : ksys) (f ip : nat) : Prop :=
  (f < length (ftab s))%nat /\ f_type (getf s f) = FD_INODE /\ f_ip (getf s f) = ip.

Lemma filewrite_run sb mem copyin kl dev_write s f ip addr n from (off := f_off (getf s f)) :
  layout sb -> (forall a, 0 <= mem a < 256) ->
  (forall a m, (fst (copyin a m) <= m)%nat /\ (snd (copyin a m) = true -> fst (copyin a m) = m)) ->
  open_on s f ip -> f_writable (getf s f) = true -> inode_ready sb (kfs s) ip -> 0 <= outstanding s ->
  0 <= n -> 0 <= off <= i_size (geti (kfs s) ip) ->
  exists t e x,
    filewrite sb mem copyin kl dev_write f addr n from s =
      Ret (Pipe.Done (if t =? n then n else -1), moved f (off + t) x s) /\
    wrote sb mem copyin (kfs s) x ip addr off n t e.
Proof.
  intros HL Hmem Hci (Hf & Ht & Hip) Hw Hr Hd Hn Hoff. unfold filewrite.
  rewrite (M_bind_Ret _ _ s (getf s f) s) by done. rewrite Hw, Ht, Hip. cbn [negb].
  destruct (filewrite_loop_run sb HL mem Hmem copyin Hci f ip addr n (Z.to_nat n) 0 s) as (i' & t & e & x & E & Hi & W);
    try done; try (fold off; lia); try lia.
  fold off in E, W. rewrite Z.sub_0_r in Hi, W. rewrite Z.add_0_r in W.
  exists t, e, x. split; [|exact W]. rewrite (M_bind_Ret _ _ _ _ _ E). unfold mret, M_ret. do 3 f_equal.
  destruct (Z.eqb_spec i' n), (Z.eqb_spec t n); tauto.
Qed.

Lemma existsb_false {A} (f : A -> bool) l : (forall x, f x = false) -> existsb f l = false.
Proof. intros H. induction l as [|x l IH]; cbn; [done|]. by rewrite H. Qed.

(** A read that changes nothing has not allocated. *)
Lemma outop_same {A} sb (m : M fs A) s a : m (kfs s) = Ret (a, kfs s) -> outop sb m s = Ret (a, s).
Proof.
  intros E. unfold outop. rewrite E, existsb_false by (intros b; by rewrite bool_decide_true). rewrite andb_false_r. by destruct s.
Qed.

Lemma fileread_run sb copyout kl dev_read s f ip addr n (off := f_off (getf s f)) :
  layout sb -> open_on s f ip -> f_readable (getf s f) = true -> inode_ready sb (kfs s) ip ->
  0 <= n -> 0 <= off -> off + n < 2 ^ 32 -> (forall a m, copyout a m = true) ->
  let got := Z.max 0 (Z.min n (i_size (geti (kfs s) ip) - off)) in
  fileread sb copyout kl dev_read f addr n s =
    Ret ((Pipe.Done got, fbytes (kfs s) ip off got), moved f (off + got) (kfs s) s).
Proof.
  intros HL (Hf & Ht & Hip) Hrd Hr Hn Hoff Hmax Hco got. unfold fileread.
  rewrite (M_bind_Ret _ _ s (getf s f) s) by done. unfold id. rewrite Hrd, Ht, Hip. cbn [negb]. fold off.
  pose proof (fw_in _ _ _ (fo_wf _ _ _ (ir_ok _ _ _ Hr))) as Hin.
  set (s1 := set_kfs (updi ip (set_locked true) (kfs s)) s).
  rewrite (M_bind_Ret _ _ s tt s1) by (apply liftF_run, ilock_run, Hr).
  rewrite (M_bind_Ret _ _ s1 (got, fbytes (kfs s) ip off got) s1).
  2:{ apply outop_same. rewrite wrap_small by lia.
      destruct (readi_spec sb HL copyout (kfs s1) ip true addr off n
        (lk_file_ok sb true ip (kfs s) (ir_ok _ _ _ Hr))) as [E|(_ & (a & m & H) & _)]; [lia|lia|lia| |by rewrite Hco in H].
      cbn [s1 kfs set_kfs] in E |- *. rewrite lk_fbytes, geti_updi in E by done. exact E. }
  cbv beta iota. pose proof (fo_size _ _ _ (ir_ok _ _ _ Hr)) as Hsz. pose proof FILEMAX_val as HF.
  rewrite (M_bind_Ret _ _ s1 tt (moved f (off + got) (kfs s1) s)).
  2:{ destruct (Z.ltb_spec 0 got) as [Hp|Hp].
      - unfold modf. cbn. rewrite wrap_small by lia. done.
      - unfold mret, M_ret. do 2 f_equal. replace (off + got) with (f_off (getf s1 f)) by (change (f_off (getf s1 f)) with off; lia).
        rewrite <- (moved_same f s1 Hf) at 1. done. }
  rewrite (M_bind_Ret _ _ _ tt (moved f (off + got) (kfs s) s)); [done|].
  rewrite (liftF_run (iunlock ip) (moved f (off + got) (kfs s1) s) tt (kfs s)); [done|]. cbn [kfs moved set_kfs s1].
  rewrite iunlock_run; rewrite ?geti_updi by done; [|done|apply Hr]. by rewrite lk_lk by (done || apply Hr).
Qed.

(** The bytes that were written. *)
Lemma wrote_bytes sb mem copyin s x ip src off n e : wrote sb mem copyin s x ip src off n n e -> 0 <= off ->
  off + n <= FILEMAX -> fbytes x ip off n = from_mem mem src (Z.to_nat n).
Proof.
  intros W Hoff Hmax. pose proof (wr_count _ _ _ _ _ _ _ _ _ _ _ W) as Hn.
  assert (e = off + n) as -> by (destruct (wr_end _ _ _ _ _ _ _ _ _ _ _ W) as [?|[? _]]; lia).
  unfold fbytes, from_mem. apply map_ext_in. intros k Hk. apply in_seq in Hk.
  rewrite (wr_bytes _ _ _ _ _ _ _ _ _ _ _ W) by lia.
  rewrite (proj2 (Z.leb_le _ _)), (proj2 (Z.ltb_lt _ _)) by lia. cbn. f_equal. lia.
Qed.

(** C18: [filewrite] on a file, in however many pieces and transactions, writes the first [t] of the
    caller's [n] bytes at the offset: it always returns; it returns [n] when all bytes are
    in the file and otherwise -1, because the disk is full, the caller's memory cannot be
    read, or the file would exceed its largest size, in which case the pieces that fit may have been written.  [t] bytes are written and the offset moves by [t], the file grows to the new
    offset if it was shorter, no other byte of this file or of a file that shares no block
    with it changes, and the inode is unlocked again. *)
Theorem filewrite_correct sb mem copyin kl dev_write s f ip addr n from (off := f_off (getf s f)) :
  layout sb -> (forall a, 0 <= mem a < 256) ->
  (forall a m, (fst (copyin a m) <= m)%nat /\ (snd (copyin a m) = true -> fst (copyin a m) = m)) ->
  open_on s f ip -> f_writable (getf s f) = true -> inode_ready sb (kfs s) ip -> 0 <= outstanding s ->
  0 <= n -> 0 <= off <= i_size (geti (kfs s) ip) ->
  exists t e x,
    filewrite sb mem copyin kl dev_write f addr n from s =
      Ret (Pipe.Done (if t =? n then n else -1), moved f (off + t) x s) /\
    0 <= t <= n /\ (t = n \/ write_stop sb copyin x true \/ FILEMAX < off + n) /\
    (e = off + t \/ (off + t <= e <= off + n /\ exists a m, snd (copyin a m) = false)) /\
    i_size (geti x ip) = Z.max (i_size (geti (kfs s) ip)) (off + t) /\ inode_ready sb x ip /\
    (forall o, 0 <= o < FILEMAX -> fbyte x ip o =
       if (off <=? o) && (o <? e) then mem (addr + (o - off)) else fbyte (kfs s) ip o) /\
    (forall j, j <> ip -> geti x j = geti (kfs s) j /\
       (file_wf sb (kfs s) j -> disjoint_files (kfs s) ip j ->
        forall o, 0 <= o < FILEMAX -> fbyte x j o = fbyte (kfs s) j o)).
Proof.
  intros HL Hmem Hci Ho Hw Hr Hd Hn Hoff.
  destruct (filewrite_run sb mem copyin kl dev_write s f ip addr n from) as (t & e & x & E & W); try done.
  exists t, e, x. split; [exact E|]. destruct W as [W1 W2 W3 W4 W5 W6 W7 W8 W9].
  repeat (split; [assumption|]). intros j Nj. split; [by apply W8|]. intros Wj Dj. apply (W9 j Nj Wj Dj).
Qed.

(** What was written is read back: after a [write] through [f] that returns [n], a [read]
    of [n] bytes through any open file [g] of the same inode whose offset is where the
    write began delivers exactly the bytes the writer's memory held, and moves [g]'s
    offset by [n].  A [write] that does not return [n] had a reason. *)
Theorem write_read_roundtrip sb mem copyin copyout kl dev_read dev_write s f g ip addr dst n from (off := f_off (getf s f)) :
  layout sb -> (forall a, 0 <= mem a < 256) ->
  (forall a m, (fst (copyin a m) <= m)%nat /\ (snd (copyin a m) = true -> fst (copyin a m) = m)) ->
  (forall a m, copyout a m = true) ->
  open_on s f ip -> f_writable (getf s f) = true -> open_on s g ip -> f_readable (getf s g) = true -> f <> g ->
  f_off (getf s g) = off -> inode_ready sb (kfs s) ip -> 0 <= outstanding s ->
  0 <= n -> 0 <= off <= i_size (geti (kfs s) ip) -> off + n <= FILEMAX ->
  exists r s', filewrite sb mem copyin kl dev_write f addr n from s = Ret (Pipe.Done r, s') /\
    (r = n \/ (r = -1 /\ write_stop sb copyin (kfs s') true)) /\
    (r = n -> exists s'', fileread sb copyout kl dev_read g dst n s' =
        Ret ((Pipe.Done n, from_mem mem addr (Z.to_nat n)), s'') /\ f_off (getf s'' g) = off + n).
Proof.
  intros HL Hmem Hci Hco Ho Hw (Hg & Htg & Hipg) Hrd Hfg Hog Hr Hd Hn Hoff Hmax. pose proof FILEMAX_val as HF.
  destruct (filewrite_run sb mem copyin kl dev_write s f ip addr n from) as (t & e & x & E & W); try done.
  fold off in E, W. eexists _, _. split; [exact E|]. set (s' := moved f (off + t) x s).
  destruct (Z.eqb_spec t n) as [->|Hne].
  2:{ split; [|intros; lia]. right. split; [done|]. destruct (wr_stop _ _ _ _ _ _ _ _ _ _ _ W) as [?|[?|?]]; [done|done|lia]. }
  split; [by left|]. intros _.
  assert (getf s' g = getf s g) as Eg by (apply getf_updf_ne; congruence).
  assert (open_on s' g ip) as Ho'. { split; [cbn; by rewrite length_insert|]. by rewrite Eg. }
  pose proof (fileread_run sb copyout kl dev_read s' g ip dst n HL Ho') as R. rewrite Eg, Hog in R.
  cbn [s' moved kfs set_kfs] in R. rewrite (wr_size _ _ _ _ _ _ _ _ _ _ _ W) in R.
  replace (Z.max 0 _) with n in R by lia.
  rewrite (wrote_bytes _ _ _ _ _ _ _ _ _ _ W) in R by lia.
  eexists. split; [apply R; try done; try lia; apply W|].
  rewrite (getf_moved g (off + n) x s') by apply Ho'. done.
Qed.

(** ** Two open files on one inode *)

Module TwoOpen.
Definition x0 : fs := updi 0 (set_locked false) Example.s0.
Definition wr : file := mkFile FD_INODE 1 false true 0 0 0 0.
Definition rd : file := mkFile FD_INODE 1 true false 0 0 0 0.
Definition s0 : ksys := mkK x0 [wr; rd] [] [] 0.

Lemma ready : inode_ready Disk100.sb x0 0.
Proof.
  split; [apply lk_file_ok, Example.empty_file; lia| | |]; vm_compute; done || reflexivity.
Qed.
Lemma wr_open : open_on s0 0 0.
Proof. split; [cbn; lia|done]. Qed.
Lemma rd_open : open_on s0 1 0.
Proof. split; [cbn; lia|done]. Qed.
Definition count (a : Z) (m : nat) : (fst (Example.copyin a m) <= m)%nat /\
  (snd (Example.copyin a m) = true -> fst (Example.copyin a m) = m) := conj (le_n m) (fun _ => eq_refl).
End TwoOpen.

(** A write of 20000 bytes, in seven pieces. *)
Lemma filewrite_correct_witness :
  exists t x, filewrite Disk100.sb Example.mem Example.copyin (fun _ => false) (fun _ => None) 0 5 20000 0 TwoOpen.s0 =
      Ret (Pipe.Done (if t =? 20000 then 20000 else -1), moved 0 (0 + t) x TwoOpen.s0) /\
    i_size (geti x 0) = Z.max 0 (0 + t).
Proof.
  destruct (filewrite_correct Disk100.sb Example.mem Example.copyin (fun _ => false) (fun _ => None) TwoOpen.s0 0 0 5 20000 0
    Disk100.sb_layout Example.mem_ok TwoOpen.count TwoOpen.wr_open eq_refl TwoOpen.ready)
    as (t & e & x & E & _ & _ & _ & Hs & _); [cbn; lia|lia|vm_compute; done|].
  exists t, x. split; [exact E|]. exact Hs.
Defined.

Lemma write_read_roundtrip_witness :
  exists r s', filewrite Disk100.sb Example.mem Example.copyin (fun _ => false) (fun _ => None) 0 5 5000 0 TwoOpen.s0 =
      Ret (Pipe.Done r, s') /\
    (r = 5000 -> exists s'', fileread Disk100.sb Example.copyout (fun _ => false) (fun _ => None) 1 0 5000 s' =
        Ret ((Pipe.Done 5000, from_mem Example.mem 5 (Z.to_nat 5000)), s'')).
Proof.
  destruct (write_read_roundtrip Disk100.sb Example.mem Example.copyin Example.copyout (fun _ => false) (fun _ => None)
    (fun _ => None) TwoOpen.s0 0 1 0 5 0 5000 0 Disk100.sb_layout Example.mem_ok TwoOpen.count (fun _ _ => eq_refl)
    TwoOpen.wr_open eq_refl TwoOpen.rd_open eq_refl ltac:(lia) eq_refl TwoOpen.ready)
    as (r & s' & E & _ & H); [cbn; lia|lia|vm_compute; done|rewrite FILEMAX_val; cbn; lia|].
  exists r, s'. split; [exact E|]. intros Er. destruct (H Er) as (s'' & E2 & _). by exists s''.
Defined.
