(* ===== verification/Virtio.v ===== *)
(** * The disk driver: [kernel/virtio_disk.c]

    The driver keeps eight descriptors, hands chains of three of them to the device
    through the avail ring, and learns of completions through the used ring.  A
    process sleeps twice in [virtio_disk_rw], so its calls are cut there: until it has
    descriptors ([WaitDesc]) and until its request is done ([WaitDisk]).  Everything
    between two sleeps runs under [vdisk_lock] and is one step; the interrupt handler
    is one step per access to what it shares with the device ([hpc]), and the device
    may act in between.  The device follows the virtio specification: it takes chains
    from the avail ring in order, works on them in any order, reports each in the
    used ring, and sets a bit of its status register, which raises an interrupt until
    the bit is acknowledged.  The fences order what this model does in program order. *)

From S2P Require Import Prelude.

Definition NUM : nat := 8.
Definition BSIZE : Z := 1024.
Definition VRING_DESC_F_NEXT : Z := 1.
Definition VRING_DESC_F_WRITE : Z := 2.
Definition VIRTIO_BLK_T_IN : Z := 0.
Definition VIRTIO_BLK_T_OUT : Z := 1.

(** ** State *)

(** What a descriptor points to: [&disk.ops\[i\]], [b->data], [&disk.info\[i\].status]. *)
Inductive vaddr := Null | AOps (i : nat) | AData (b : nat) | AStatus (i : nat).

(** [struct virtq_desc] *)
Record virtq_desc := mkDesc { addr : vaddr; len : Z; flags : Z; next : nat }.
Definition desc0 : virtq_desc := mkDesc Null 0 0 0.

(** [struct virtio_blk_req] *)
Record virtio_blk_req := mkReq { type : Z; sector : Z }.

(** [struct disk] with the rings it shares with the device. *)
Record disk := mkDisk {
  desc : list virtq_desc;
  avail_ring : list nat; avail_idx : Z;
  used_ring : list nat; used_dev_idx : Z;
  free : list bool; used_idx : Z;
  info_b : list (option nat); info_status : list Z;
  ops : list virtio_blk_req
}.

(** [struct buf] as far as the driver uses it. *)
Record buf := mkBuf { blockno : Z; bdisk : bool; data : list Z }.

(** A request between submission and return: [dat] is what the block and the buffer will
    both hold then (the buffer's data for a write, the disk's for a read). *)
Record req := mkRq { r_b : nat; r_write : bool; r_head : nat; r_dat : list Z }.

(** Where a process is in [virtio_disk_rw], and whether it has been woken. *)
Inductive pc :=
| Idle
| WaitDesc (b : nat) (write : bool) (woken : bool)
| WaitDisk (r : req) (woken : bool).

Record vst := mkV {
  dk : disk; bufs : nat -> buf; procs : list pc;
  media : Z -> list Z;                    (* the sectors *)
  dev_idx : Z; dev_busy : list nat        (* the device's own index and work *)
}.

Definition set_dk d s := mkV d (bufs s) (procs s) (media s) (dev_idx s) (dev_busy s).
Definition set_bufs f s := mkV (dk s) f (procs s) (media s) (dev_idx s) (dev_busy s).
Definition set_procs l s := mkV (dk s) (bufs s) l (media s) (dev_idx s) (dev_busy s).

Definition set_desc i x d := mkDisk (<[i := x]> (desc d)) (avail_ring d) (avail_idx d) (used_ring d)
  (used_dev_idx d) (free d) (used_idx d) (info_b d) (info_status d) (ops d).
Definition set_free i x d := mkDisk (desc d) (avail_ring d) (avail_idx d) (used_ring d)
  (used_dev_idx d) (<[i := x]> (free d)) (used_idx d) (info_b d) (info_status d) (ops d).
Definition set_avail r k d := mkDisk (desc d) r k (used_ring d)
  (used_dev_idx d) (free d) (used_idx d) (info_b d) (info_status d) (ops d).
Definition set_used_idx k d := mkDisk (desc d) (avail_ring d) (avail_idx d) (used_ring d)
  (used_dev_idx d) (free d) k (info_b d) (info_status d) (ops d).
Definition set_info_b i x d := mkDisk (desc d) (avail_ring d) (avail_idx d) (used_ring d)
  (used_dev_idx d) (free d) (used_idx d) (<[i := x]> (info_b d)) (info_status d) (ops d).
Definition set_status i x d := mkDisk (desc d) (avail_ring d) (avail_idx d) (used_ring d)
  (used_dev_idx d) (free d) (used_idx d) (info_b d) (<[i := x]> (info_status d)) (ops d).
Definition set_ops i x d := mkDisk (desc d) (avail_ring d) (avail_idx d) (used_ring d)
  (used_dev_idx d) (free d) (used_idx d) (info_b d) (info_status d) (<[i := x]> (ops d)).

Definition fupd {A} (f : nat -> A) (i : nat) (x : A) : nat -> A := fun j => if decide (j = i) then x else f j.
Definition set_bdisk (v : bool) (x : buf) : buf := mkBuf (blockno x) v (data x).
Definition set_data (l : list Z) (x : buf) : buf := mkBuf (blockno x) (bdisk x) l.

Abbreviation V := (M vst).
Definition modd (f : disk -> disk) : V unit := modify (fun s => set_dk (f (dk s)) s).
Definition readd {A} (f : disk -> A) : V A := gets (fun s => f (dk s)).
Definition modb (b : nat) (f : buf -> buf) : V unit := modify (fun s => set_bufs (fupd (bufs s) b (f (bufs s b))) s).

(** [wakeup(&disk.free\[0\])] and [wakeup(b)] *)
Definition wake_free (c : pc) : pc := match c with WaitDesc b w _ => WaitDesc b w true | _ => c end.
Definition wake_buf (b : nat) (c : pc) : pc :=
  match c with WaitDisk r k => WaitDisk r (k || (r_b r =? b)%nat) | _ => c end.
Definition wakeup_free : V unit := modify (fun s => set_procs (wake_free <$> procs s) s).
Definition wakeup_buf (b : nat) : V unit := modify (fun s => set_procs (wake_buf b <$> procs s) s).
(** The process goes on at [c]. *)
Definition at_pc (p : nat) (c : pc) : V unit := modify (fun s => set_procs (<[p := c]> (procs s)) s).

(** ** Descriptors *)

(** The scan of [alloc_desc]. *)
Fixpoint find_free (l : list bool) (i : nat) : option nat :=
  match l with
  | [] => None
  | f :: l' => if f then Some i else find_free l' (S i)
  end.

Definition alloc_desc : V (option nat) :=
  l ← readd free;
  match find_free l 0 with
  | Some i => _ ← modd (set_free i false); mret (Some i)
  | None => mret None
  end.

Definition free_desc (i : nat) : V unit :=
  _ ← panic_if (NUM <=? i)%nat "free_desc 1";
  f ← readd (fun d => nth i (free d) false);
  _ ← panic_if f "free_desc 2";
  _ ← modd (set_desc i desc0);
  _ ← modd (set_free i true);
  wakeup_free.

Fixpoint free_chain_loop (fuel : nat) (i : nat) : V unit :=
  match fuel with
  | O => undef "out of fuel"
  | S fuel' =>
    d ← readd (fun d => nth i (desc d) desc0);
    _ ← free_desc i;
    if c_true (Z.land (flags d) VRING_DESC_F_NEXT) then free_chain_loop fuel' (next d) else mret tt
  end.
(** A chain has at most [NUM] descriptors. *)
Definition free_chain (i : nat) : V unit := free_chain_loop NUM i.

(** [idx\[0\]], [idx\[1\]], [idx\[2\]] *)
Definition alloc3_desc : V (option (nat * nat * nat)) :=
  o0 ← alloc_desc;
  match o0 with
  | None => mret None
  | Some i0 =>
    o1 ← alloc_desc;
    match o1 with
    | None => _ ← free_desc i0; mret None
    | Some i1 =>
      o2 ← alloc_desc;
      match o2 with
      | None => _ ← free_desc i0; _ ← free_desc i1; mret None
      | Some i2 => mret (Some (i0, i1, i2))
      end
    end
  end.

(** ** Requests *)

(** [virtio_disk_rw] once it has its descriptors, up to the first [sleep(b, ...)]. *)
Definition submit (p b : nat) (write : bool) (i0 i1 i2 : nat) : V unit :=
  s ← get;
  let sector := u32 (blockno (bufs s b) * (BSIZE / 512)) in
  _ ← modd (set_ops i0 (mkReq (if write then VIRTIO_BLK_T_OUT else VIRTIO_BLK_T_IN) sector));
  _ ← modd (set_desc i0 (mkDesc (AOps i0) 16 VRING_DESC_F_NEXT i1));
  _ ← modd (set_desc i1 (mkDesc (AData b) BSIZE
              (Z.lor (if write then 0 else VRING_DESC_F_WRITE) VRING_DESC_F_NEXT) i2));
  _ ← modd (set_status i0 255);
  _ ← modd (set_desc i2 (mkDesc (AStatus i0) 1 VRING_DESC_F_WRITE 0));
  _ ← modb b (set_bdisk true);
  _ ← modd (set_info_b i0 (Some b));
  _ ← modd (fun d => set_avail (<[Z.to_nat (avail_idx d mod Z.of_nat NUM) := i0]> (avail_ring d)) (avail_idx d) d);
  _ ← modd (fun d => set_avail (avail_ring d) (u16 (avail_idx d + 1)) d);
  at_pc p (WaitDisk (mkRq b write i0
    (if write then data (bufs s b) else media s sector ++ media s (sector + 1))) false).

(** [virtio_disk_rw(b, write)] of process [p] up to its sleep: [while (1)] of the allocation,
    then [submit]; woken, a process without descriptors tries again. *)
Definition rw_start (p b : nat) (write : bool) : V unit :=
  o ← alloc3_desc;
  match o with
  | None => at_pc p (WaitDesc b write false)
  | Some (i0, i1, i2) => submit p b write i0 i1 i2
  end.

(** [while (b->disk == 1)] and the rest; the process is done when it is [Idle]. *)
Definition rw_finish (p : nat) (r : req) : V unit :=
  d ← gets (fun s => bdisk (bufs s (r_b r)));
  if (d : bool) then at_pc p (WaitDisk r false)
  else
    _ ← modd (set_info_b (r_head r) None);
    _ ← free_chain (r_head r);
    at_pc p Idle.

(** One turn of the [while] of [virtio_disk_intr]: [false] when the driver has seen
    every entry up to [disk.used->idx]. *)
Definition intr_turn : V bool :=
  d ← readd id;
  if used_idx d =? used_dev_idx d then mret false
  else
    let i := nth (Z.to_nat (used_idx d mod Z.of_nat NUM)) (used_ring d) O in
    _ ← panic_if (c_true (nth i (info_status d) 0)) "virtio_disk_intr status";
    match nth i (info_b d) None with
    | None => undef "null buf"
    | Some b =>
      _ ← modb b (set_bdisk false);
      _ ← wakeup_buf b;
      _ ← modd (fun d => set_used_idx (u16 (used_idx d + 1)) d);
      mret true
    end.

(** Where [virtio_disk_intr] is: not running; it has [vdisk_lock] and is to read the
    status register; it has read [v] and is to write it to the acknowledge register;
    at the [while]; past it, before the [release]. *)
Inductive hpc := HOut | HStatus | HAck (v : Z) | HLoop | HRelease.

(** The driver with the device's [INTERRUPT_STATUS] register, whose bits raise the
    interrupt, and the handler. *)
Record mach := mkMach { vs : vst; istat : Z; hand : hpc }.

Definition set_hand (h : hpc) (m : mach) : mach := mkMach (vs m) (istat m) h.
Definition on_vs {A} (c : V A) : M mach A := fun m =>
  match c (vs m) with
  | Ret (a, s') => Ret (a, mkMach s' (istat m) (hand m))
  | Panic e => Panic e
  | Undef e => Undef e
  end.

(** The next access of [virtio_disk_intr] to what it shares with the device, which
    may act between any two of them. *)
Definition virtio_disk_intr : M mach unit :=
  m ← get;
  match hand m with
  | HOut => modify (set_hand HStatus)
  | HStatus => modify (set_hand (HAck (Z.land (istat m) 3)))
  | HAck v => put (mkMach (vs m) (Z.ldiff (istat m) v) HLoop)
  | HLoop => more ← on_vs intr_turn; modify (set_hand (if more : bool then HLoop else HRelease))
  | HRelease => modify (set_hand HOut)
  end.

(** All descriptors free, as [virtio_disk_init] leaves them (the initialisation is in [VirtioInit]). *)
Definition init_disk : disk :=
  mkDisk (repeat desc0 NUM) (repeat O NUM) 0 (repeat O NUM) 0 (repeat true NUM) 0
    (repeat None NUM) (repeat 0 NUM) (repeat (mkReq 0 0) NUM).

(** ** The device *)

(** It takes the next chain the driver has made available. *)
Definition dev_take (s : vst) : vst :=
  if dev_idx s =? avail_idx (dk s) then s
  else mkV (dk s) (bufs s) (procs s) (media s) (u16 (dev_idx s + 1))
         (dev_busy s ++ [nth (Z.to_nat (dev_idx s mod Z.of_nat NUM)) (avail_ring (dk s)) O]).

Definition zupd {A} (f : Z -> A) (i : Z) (x : A) : Z -> A := fun j => if j =? i then x else f j.

(** It follows the chain from [h]: a header, a block of data, a status byte.  [None] if the
    chain is not a request of that form. *)
Definition dev_exec (h : nat) (s : vst) : option vst :=
  let d := dk s in
  let d0 := nth h (desc d) desc0 in
  let d1 := nth (next d0) (desc d) desc0 in
  let d2 := nth (next d1) (desc d) desc0 in
  match addr d0, addr d1, addr d2 with
  | AOps k, AData b, AStatus j =>
    if c_true (Z.land (flags d0) VRING_DESC_F_NEXT) && c_true (Z.land (flags d1) VRING_DESC_F_NEXT) &&
       c_true (Z.land (flags d2) VRING_DESC_F_WRITE) && negb (c_true (Z.land (flags d2) VRING_DESC_F_NEXT)) &&
       (len d1 =? BSIZE)
    then
      let o := nth k (ops d) (mkReq 0 0) in
      let done s' :=
        Some (mkV (mkDisk (desc d) (avail_ring d) (avail_idx d)
                 (<[Z.to_nat (used_dev_idx d mod Z.of_nat NUM) := h]> (used_ring d)) (u16 (used_dev_idx d + 1))
                 (free d) (used_idx d) (info_b d) (<[j := 0]> (info_status d)) (ops d))
            (bufs s') (procs s) (media s') (dev_idx s) (filter (fun x => x <> h) (dev_busy s))) in
      if type o =? VIRTIO_BLK_T_OUT then
        let l := data (bufs s b) in
        done (mkV d (bufs s) (procs s)
                (zupd (zupd (media s) (sector o) (take 512 l)) (sector o + 1) (drop 512 l)) (dev_idx s) (dev_busy s))
      else if c_true (Z.land (flags d1) VRING_DESC_F_WRITE) then
        done (set_bufs (fupd (bufs s) b (set_data (media s (sector o) ++ media s (sector o + 1)) (bufs s b))) s)
      else None
    else None
  | _, _, _ => None
  end.
