(* ===== verification/VirtioInv.v ===== *)
(** * The disk driver is correct for every interleaving

    The invariant of [Virtio]: every request owns three descriptors that form its chain, the
    rings hold the requests the other side has not seen, and buffer and disk agree as
    soon as the device reports a request done. *)

From S2P Require Import Prelude Mlfq Virtio.

(** ** Requests and descriptors *)

Definition reqs_of (c : pc) : list req := match c with WaitDisk r _ => [r] | _ => [] end.
Definition bufs_of (c : pc) : list nat :=
  match c with Idle => [] | WaitDesc b _ _ => [b] | WaitDisk r _ => [r_b r] end.
(** The requests under way, the buffers in use, the heads of the chains. *)
Definition pend (s : vst) : list req := procs s ≫= reqs_of.
Definition users (s : vst) : list nat := procs s ≫= bufs_of.
Definition heads (s : vst) : list nat := r_head <$> pend s.

Definition dnext (d : disk) (i : nat) : nat := next (nth i (desc d) desc0).
Definition chain (d : disk) (h : nat) : list nat := [h; dnext d h; dnext d (dnext d h)].
Definition owned (s : vst) : list nat := heads s ≫= chain (dk s).

(** Descriptors [D] are taken, the others free. *)
Record taken (D : list nat) (d : disk) : Prop := {
  tk_desc : length (desc d) = NUM;
  tk_free : length (free d) = NUM;
  tk_once : NoDup D;
  tk_in : forall i, i ∈ D -> (i < NUM)%nat;
  tk_exact : forall i, (i < NUM)%nat -> nth i (free d) false = true <-> i ∉ D
}.

Lemma taken_perm D D' d : D ≡ₚ D' -> taken D d -> taken D' d.
Proof.
  intros E [H1 H2 H3 H4 H5]. split; try done.
  - by rewrite <- E.
  - intros i Hi. apply H4. by rewrite E.
  - intros i Hi. rewrite H5 by done. by rewrite E.
Qed.

Lemma taken_length D d : taken D d -> (length D <= NUM)%nat.
Proof.
  intros [_ _ HN HI _]. change NUM with (length (seq 0 NUM)). apply submseteq_length, NoDup_submseteq; [done|].
  intros i Hi%HI. apply elem_of_seq. lia.
Qed.

Lemma find_free_spec l : forall k, match find_free l k with
  | Some i => (k <= i < k + length l)%nat /\ nth (i - k) l false = true
  | None => forall i, nth i l false = false
  end.
Proof.
  induction l as [|f l IH]; intros k; cbn [find_free]; [by intros []|].
  destruct f; [rewrite Nat.sub_diag; cbn; split; [lia|done]|]. specialize (IH (S k)).
  destruct (find_free l (S k)) as [i|].
  - destruct IH as [H1 H2]. cbn [length]. split; [lia|]. by replace (i - k)%nat with (S (i - S k)) by lia.
  - intros [|i]; [done|]. apply IH.
Qed.

Lemma alloc_desc_run D s : taken D (dk s) ->
  (length D = NUM /\ alloc_desc s = Ret (None, s)) \/
  (exists i, (i < NUM)%nat /\ i ∉ D /\ alloc_desc s = Ret (Some i, set_dk (set_free i false (dk s)) s) /\
     taken (i :: D) (set_free i false (dk s))).
Proof.
  intros T. pose proof T as [H1 H2 H3 H4 H5]. unfold alloc_desc. rewrite (M_bind_Ret _ _ s (free (dk s)) s) by done.
  pose proof (find_free_spec (free (dk s)) 0) as G. destruct (find_free (free (dk s)) 0) as [i|].
  - right. rewrite Nat.sub_0_r, H2 in G. destruct G as [Hi Hf]. exists i.
    assert (i ∉ D) as Hn by (apply H5; [lia|done]). split; [lia|]. split; [done|]. split; [done|].
    split; cbn; try done.
    + by rewrite length_insert.
    + by constructor.
    + intros j [->|Hj]%elem_of_cons; [lia|auto].
    + intros j Hj. destruct (decide (j = i)) as [->|N].
      * rewrite nth_insert_eq by lia. set_solver.
      * rewrite nth_insert_ne, H5 by done. set_solver.
  - left. split; [|done]. apply Nat.le_antisymm; [by eapply taken_length|].
    change NUM with (length (seq 0 NUM)). apply submseteq_length, NoDup_submseteq; [apply NoDup_seq|].
    intros i Hi%elem_of_seq. destruct (decide (i ∈ D)) as [|Hn]; [done|]. apply H5 in Hn; [|lia]. by rewrite G in Hn.
Qed.

(** The state after [wakeup(&disk.free\[0\])]. *)
Definition woken (s : vst) : vst := set_procs (wake_free <$> procs s) s.
Definition freed (i : nat) (d : disk) : disk := set_free i true (set_desc i desc0 d).

Lemma free_desc_run i D s : taken (i :: D) (dk s) ->
  free_desc i s = Ret (tt, woken (set_dk (freed i (dk s)) s)) /\ taken D (freed i (dk s)).
Proof.
  intros [H1 H2 H3 H4 H5]. assert (i < NUM)%nat as Hi by (apply H4; set_solver).
  apply list.NoDup_cons in H3 as [Hn HD]. split.
  - unfold free_desc. rewrite (M_bind_Ret _ _ s tt s) by (unfold panic_if; by rewrite (proj2 (Nat.leb_gt _ _)) by lia).
    rewrite (M_bind_Ret _ _ s false s); [done|]. unfold readd, gets. do 2 f_equal. apply not_true_is_false.
    intros H. apply H5 in H; [set_solver|done].
  - split; cbn; rewrite ?length_insert; try done.
    + intros j Hj. apply H4. set_solver.
    + intros j Hj. destruct (decide (j = i)) as [->|N].
      * rewrite nth_insert_eq by lia. done.
      * rewrite nth_insert_ne, H5 by done. set_solver.
Qed.

(** Equal but for descriptors outside [D]. *)
Record like (D : list nat) (d d' : disk) : Prop := {
  lk_desc : forall i, i ∈ D -> nth i (desc d') desc0 = nth i (desc d) desc0;
  lk_avail : avail_ring d' = avail_ring d /\ avail_idx d' = avail_idx d;
  lk_used : used_ring d' = used_ring d /\ used_dev_idx d' = used_dev_idx d /\ used_idx d' = used_idx d;
  lk_info : info_b d' = info_b d /\ info_status d' = info_status d /\ ops d' = ops d
}.

Lemma like_refl D d : like D d d.
Proof. by split. Qed.
Lemma like_trans D d d' d'' : like D d d' -> like D d' d'' -> like D d d''.
Proof.
  intros [A1 [A2 A3] (A4 & A5 & A6) (A7 & A8 & A9)] [B1 [B2 B3] (B4 & B5 & B6) (B7 & B8 & B9)].
  split; [intros i Hi; by rewrite B1, A1|by rewrite B2, B3|by rewrite B4, B5, B6|by rewrite B7, B8, B9].
Qed.
Lemma like_set_free D d i b : like D d (set_free i b d).
Proof. by split. Qed.
Lemma like_freed D d i : i ∉ D -> like D d (freed i d).
Proof. intros H. split; try done. intros j Hj. cbn. apply nth_insert_ne. set_solver. Qed.

Lemma alloc3_run D s : taken D (dk s) ->
  (exists i0 i1 i2 d', alloc3_desc s = Ret (Some (i0, i1, i2), set_dk d' s) /\ like D (dk s) d' /\
     desc d' = desc (dk s) /\ taken (i2 :: i1 :: i0 :: D) d') \/
  ((NUM <= length D + 2)%nat /\ exists d' l, alloc3_desc s = Ret (None, set_procs l (set_dk d' s)) /\
     (l = procs s \/ l = wake_free <$> procs s) /\ like D (dk s) d' /\ taken D d').
Proof.
  intros T. unfold alloc3_desc.
  destruct (alloc_desc_run D s T) as [[Hl E0]|(i0 & Hi0 & N0 & E0 & T0)]; rewrite (M_bind_Ret _ _ _ _ _ E0).
  { right. split; [lia|]. exists (dk s), (procs s). destruct s. split; [done|]. split; [by left|]. split; [apply like_refl|done]. }
  set (s0 := set_dk _ s) in *.
  destruct (alloc_desc_run (i0 :: D) s0 T0) as [[Hl E1]|(i1 & Hi1 & N1 & E1 & T1)]; rewrite (M_bind_Ret _ _ _ _ _ E1).
  { right. cbn in Hl. split; [lia|]. destruct (free_desc_run i0 D s0 T0) as [Ef Tf]. rewrite (M_bind_Ret _ _ _ _ _ Ef).
    exists (freed i0 (dk s0)), (wake_free <$> procs s). split; [done|]. split; [by right|]. split; [|done].
    eapply like_trans; [apply like_set_free|by apply like_freed]. }
  set (s1 := set_dk _ s0) in *.
  destruct (alloc_desc_run (i1 :: i0 :: D) s1 T1) as [[Hl E2]|(i2 & Hi2 & N2 & E2 & T2)]; rewrite (M_bind_Ret _ _ _ _ _ E2).
  { right. cbn in Hl. split; [lia|]. apply (taken_perm _ (i0 :: i1 :: D)) in T1; [|apply Permutation_swap].
    destruct (free_desc_run i0 (i1 :: D) s1 T1) as [Ef Tf]. rewrite (M_bind_Ret _ _ _ _ _ Ef).
    destruct (free_desc_run i1 D (woken (set_dk (freed i0 (dk s1)) s1)) Tf) as [Eg Tg]. rewrite (M_bind_Ret _ _ _ _ _ Eg).
    exists (freed i1 (freed i0 (dk s1))), (wake_free <$> procs s). split; [|split; [by right|split; [|done]]].
    - unfold mret, M_ret. do 2 f_equal. unfold woken, set_procs, set_dk. cbn. f_equal.
      rewrite <- list_fmap_compose. apply list_fmap_ext. by intros ? [].
    - eapply like_trans; [apply like_set_free|]. eapply like_trans; [apply like_set_free|].
      eapply like_trans; [apply like_freed|apply like_freed]; set_solver. }
  left. exists i0, i1, i2, (set_free i2 false (dk s1)). split; [done|]. split; [|done].
  eapply like_trans; [apply like_set_free|]. eapply like_trans; apply like_set_free.
Qed.

(** ** The invariant *)

(** Entries [lo], [lo + 1], ... of a ring. *)
Definition window (ring : list nat) (lo : Z) (l : list nat) : Prop :=
  forall k x, l !! k = Some x -> nth (Z.to_nat ((lo + Z.of_nat k) mod Z.of_nat NUM)) ring O = x.

(** Block [k] of the disk. *)
Definition blk (s : vst) (k : Z) : list Z := media s (2 * k) ++ media s (2 * k + 1).

(** The buffers in use are different and hold different blocks (what [bio.c] guarantees). *)
Record users_ok (f : nat -> buf) (l : list nat) : Prop := {
  uo_once : NoDup l;
  uo_blocks : forall b b', b ∈ l -> b' ∈ l -> blockno (f b) = blockno (f b') -> b = b';
  uo_range : forall b, b ∈ l -> 0 <= blockno (f b) < 2 ^ 31
}.

(** The chain of request [r], as the device will read it. *)
Record chain_ok (d : disk) (f : nat -> buf) (r : req) (i1 i2 : nat) : Prop := {
  co_head : nth (r_head r) (desc d) desc0 = mkDesc (AOps (r_head r)) 16 VRING_DESC_F_NEXT i1;
  co_data : nth i1 (desc d) desc0 = mkDesc (AData (r_b r)) BSIZE
    (Z.lor (if r_write r then 0 else VRING_DESC_F_WRITE) VRING_DESC_F_NEXT) i2;
  co_status : nth i2 (desc d) desc0 = mkDesc (AStatus (r_head r)) 1 VRING_DESC_F_WRITE 0;
  co_op : nth (r_head r) (ops d) (mkReq 0 0) =
    mkReq (if r_write r then VIRTIO_BLK_T_OUT else VIRTIO_BLK_T_IN) (2 * blockno (f (r_b r)));
  co_info : nth (r_head r) (info_b d) None = Some (r_b r)
}.

(** [A] are the chains the device has not taken, [U] those it reported and no interrupt has
    seen, [F] those whose process has only to return. *)
Record VI (A U F : list nat) (s : vst) : Prop := {
  vi_ring : length (avail_ring (dk s)) = NUM /\ length (used_ring (dk s)) = NUM;
  vi_info : length (info_b (dk s)) = NUM /\ length (info_status (dk s)) = NUM /\ length (ops (dk s)) = NUM;
  vi_heads : heads s ≡ₚ A ++ dev_busy s ++ U ++ F;
  vi_avail : avail_idx (dk s) = u16 (dev_idx s + Z.of_nat (length A)) /\ window (avail_ring (dk s)) (dev_idx s) A;
  vi_used : used_dev_idx (dk s) = u16 (used_idx (dk s) + Z.of_nat (length U)) /\
    window (used_ring (dk s)) (used_idx (dk s)) U;
  vi_idx : 0 <= dev_idx s < 2 ^ 16 /\ 0 <= used_idx (dk s) < 2 ^ 16;
  vi_taken : taken (owned s) (dk s);
  vi_chain : forall r, r ∈ pend s -> exists i1 i2, chain_ok (dk s) (bufs s) r i1 i2;
  vi_status : forall h, h ∈ U ++ F -> nth h (info_status (dk s)) 0 = 0;
  vi_bdisk : forall r, r ∈ pend s -> bdisk (bufs s (r_b r)) = false <-> r_head r ∈ F;
  vi_users : users_ok (bufs s) (users s);
  vi_before : forall r, r ∈ pend s -> r_head r ∈ A ++ dev_busy s ->
    if r_write r then data (bufs s (r_b r)) = r_dat r else blk s (blockno (bufs s (r_b r))) = r_dat r;
  vi_after : forall r, r ∈ pend s -> r_head r ∈ U ++ F ->
    data (bufs s (r_b r)) = r_dat r /\ blk s (blockno (bufs s (r_b r))) = r_dat r;
  vi_sleep_desc : forall b w, WaitDesc b w false ∈ procs s -> (2 <= length (pend s))%nat;
  vi_sleep_disk : forall r, WaitDisk r false ∈ procs s -> r_head r ∉ F
}.

Lemma owned_length s : length (owned s) = (3 * length (pend s))%nat.
Proof. unfold owned, heads. induction (pend s) as [|r l IH]; [done|]. cbn in *. lia. Qed.

Lemma pend_few A U F s : VI A U F s -> (length (pend s) <= 2)%nat.
Proof. intros I. pose proof (taken_length _ _ (vi_taken _ _ _ _ I)) as H. rewrite owned_length in H. unfold NUM in H. lia. Qed.

Lemma queues_few A U F s : VI A U F s -> (length A + length (dev_busy s) + length U + length F <= 2)%nat.
Proof.
  intros I. pose proof (pend_few _ _ _ _ I) as H. pose proof (Permutation_length (vi_heads _ _ _ _ I)) as E.
  unfold heads in E. rewrite length_fmap, !length_app in E. lia.
Qed.

Lemma heads_owned s h : h ∈ heads s -> h ∈ owned s.
Proof. intros H. apply list_elem_of_bind. exists h. split; [set_solver|done]. Qed.

Lemma heads_once A U F s : VI A U F s -> NoDup (heads s).
Proof.
  intros I. pose proof (tk_once _ _ (vi_taken _ _ _ _ I)) as H. unfold owned in H.
  induction (heads s) as [|h l IH]; [constructor|]. cbn [mbind list_bind] in H.
  assert (NoDup (chain (dk s) h ++ (l ≫= chain (dk s)))) as H' by exact H. clear H.
  apply list.NoDup_app in H' as (_ & H2 & H3). constructor; [|by apply IH]. intros Hin.
  apply (H2 h ltac:(set_solver)). apply list_elem_of_bind. exists h. split; [set_solver|done].
Qed.

Lemma queues_once A U F s : VI A U F s -> NoDup (A ++ dev_busy s ++ U ++ F).
Proof. intros I. rewrite <- (vi_heads _ _ _ _ I). by eapply heads_once. Qed.

(** Requests are told apart by their heads and by their buffers. *)
Lemma pend_inj_head A U F s r r' : VI A U F s -> r ∈ pend s -> r' ∈ pend s -> r_head r = r_head r' -> r = r'.
Proof.
  intros I Hr Hr' E. pose proof (heads_once _ _ _ _ I) as HN. unfold heads in HN.
  apply list_elem_of_lookup in Hr as [k Hk]. apply list_elem_of_lookup in Hr' as [k' Hk'].
  assert (k = k') as ->; [|congruence].
  eapply (NoDup_lookup _ k k' (r_head r) HN); rewrite list_lookup_fmap; [by rewrite Hk|rewrite Hk'; cbn; by f_equal].
Qed.

Lemma elem_pend s r : r ∈ pend s <-> exists p k, procs s !! p = Some (WaitDisk r k).
Proof.
  unfold pend. rewrite list_elem_of_bind. split.
  - intros (c & Hr & Hc). apply list_elem_of_lookup in Hc as [p Hp]. destruct c as [|b w k|r' k]; cbn in Hr; [set_solver|set_solver|].
    apply list_elem_of_singleton in Hr as ->. by exists p, k.
  - intros (p & k & Hp). exists (WaitDisk r k). split; [by apply list_elem_of_singleton|by eapply list_elem_of_lookup_2].
Qed.

Lemma pend_users s : (r_b <$> pend s) ⊆+ users s.
Proof.
  unfold pend, users. induction (procs s) as [|c l IH]; [done|]. cbn [mbind list_bind].
  change (r_b <$> reqs_of c ++ (l ≫= reqs_of) ⊆+ bufs_of c ++ (l ≫= bufs_of)). rewrite fmap_app.
  apply submseteq_app; [|exact IH]. destruct c; cbn; [done|by apply submseteq_nil_l|done].
Qed.

Lemma pend_bufs_once s : NoDup (users s) -> NoDup (r_b <$> pend s).
Proof.
  intros H. destruct (submseteq_Permutation _ _ (pend_users s)) as [k Ek]. rewrite Ek in H.
  apply list.NoDup_app in H. tauto.
Qed.

Lemma pend_inj_buf A U F s r r' : VI A U F s -> r ∈ pend s -> r' ∈ pend s -> r_b r = r_b r' -> r = r'.
Proof.
  intros I Hr Hr' E. pose proof (pend_bufs_once s (uo_once _ _ (vi_users _ _ _ _ I))) as HN.
  apply list_elem_of_lookup in Hr as [k Hk]. apply list_elem_of_lookup in Hr' as [k' Hk'].
  assert (k = k') as ->; [|congruence].
  eapply (NoDup_lookup _ k k' (r_b r) HN); rewrite list_lookup_fmap; [by rewrite Hk|rewrite Hk'; cbn; by f_equal].
Qed.

Lemma pend_user s r : r ∈ pend s -> r_b r ∈ users s.
Proof. intros H. eapply elem_of_submseteq; [|apply pend_users]. apply list_elem_of_fmap. by exists r. Qed.

Lemma head_req A U F s h : VI A U F s -> h ∈ A ++ dev_busy s ++ U ++ F -> exists r, r ∈ pend s /\ r_head r = h.
Proof.
  intros I H. rewrite <- (vi_heads _ _ _ _ I) in H. apply list_elem_of_fmap in H as (r & -> & Hr). by exists r.
Qed.

(** ** Changes that leave the requests alone *)

Lemma bind_ext_in {A B} (f g : A -> list B) l : (forall x, x ∈ l -> f x = g x) -> l ≫= f = l ≫= g.
Proof.
  intros H. induction l as [|x l IH]; [done|]. cbn [mbind list_bind]. f_equal; [apply H; set_solver|].
  apply IH. intros y Hy. apply H. set_solver.
Qed.

Lemma bind_insert_ext {A B} (g : A -> list B) l p x y : g x = g y -> <[p := x]> l ≫= g = <[p := y]> l ≫= g.
Proof.
  intros H. revert p. induction l as [|z l IH]; intros [|p]; [done|done| |]; cbn [mbind list_bind insert list_insert].
  - by rewrite H.
  - f_equal. apply IH.
Qed.

(** Chains depend on their own descriptors only. *)
Lemma chain_like d d' h : (forall i, i ∈ chain d h -> nth i (desc d') desc0 = nth i (desc d) desc0) -> chain d' h = chain d h.
Proof.
  intros H. unfold chain, dnext in *. rewrite (H h) by set_solver.
  by rewrite (H (next (nth h (desc d) desc0))) by set_solver.
Qed.
Lemma chains_like d d' l : (forall i, i ∈ l ≫= chain d -> nth i (desc d') desc0 = nth i (desc d) desc0) ->
  l ≫= chain d' = l ≫= chain d.
Proof.
  intros H. apply bind_ext_in. intros h Hh. apply chain_like. intros i Hi. apply H, list_elem_of_bind. by exists h.
Qed.

Lemma chain_ok_owned s r i1 i2 : r ∈ pend s -> chain_ok (dk s) (bufs s) r i1 i2 ->
  chain (dk s) (r_head r) = [r_head r; i1; i2] /\ [r_head r; i1; i2] ⊆ owned s.
Proof.
  intros Hr [C1 C2 C3 C4 C5].
  assert (chain (dk s) (r_head r) = [r_head r; i1; i2]) as E by (unfold chain, dnext; rewrite C1; cbn; by rewrite C2).
  split; [done|]. rewrite <- E. intros i Hi. apply list_elem_of_bind. exists (r_head r). split; [done|].
  apply list_elem_of_fmap. by exists r.
Qed.

Lemma chain_ok_like D d d' f f' r i1 i2 : like D d d' -> [r_head r; i1; i2] ⊆ D ->
  blockno (f' (r_b r)) = blockno (f (r_b r)) -> chain_ok d f r i1 i2 -> chain_ok d' f' r i1 i2.
Proof.
  intros [L1 [L2 L3] (L4 & L5 & L6) (L7 & L8 & L9)] HD Hb [C1 C2 C3 C4 C5].
  split; rewrite ?L7, ?L9, ?Hb; rewrite ?L1 by (apply HD; set_solver); done.
Qed.

Lemma VI_dk A U F s d' : VI A U F s -> like (owned s) (dk s) d' -> taken (owned s) d' -> VI A U F (set_dk d' s).
Proof.
  intros I L T. pose proof L as [L1 [L2 L3] (L4 & L5 & L6) (L7 & L8 & L9)].
  assert (owned (set_dk d' s) = owned s) as Eo by (apply chains_like; exact L1).
  destruct I. split; cbn [dk set_dk]; rewrite ?L2, ?L3, ?L4, ?L5, ?L6, ?L7, ?L8, ?L9, ?Eo; try done.
  intros r Hr. destruct (vi_chain0 r Hr) as (i1 & i2 & C). exists i1, i2.
  apply (chain_ok_like (owned s) (dk s) d' (bufs s)); [done| |done|done]. by eapply chain_ok_owned.
Qed.

Lemma VI_procs A U F s l : VI A U F s -> l ≫= reqs_of = pend s -> users_ok (bufs s) (l ≫= bufs_of) ->
  (forall b w, WaitDesc b w false ∈ l -> (2 <= length (pend s))%nat) ->
  (forall r, WaitDisk r false ∈ l -> r_head r ∉ F) -> VI A U F (set_procs l s).
Proof.
  intros I Ep Hu S1 S2.
  assert (pend (set_procs l s) = pend s) as E1 by exact Ep.
  assert (heads (set_procs l s) = heads s) as E2 by (unfold heads; by rewrite E1).
  assert (owned (set_procs l s) = owned s) as E3 by (unfold owned; by rewrite E2).
  destruct I. split; rewrite ?E1, ?E2, ?E3; try done.
Qed.

Lemma bind_fmap {A B C} (f : A -> B) (g : B -> list C) l : (f <$> l) ≫= g = l ≫= (fun x => g (f x)).
Proof. induction l as [|x l IH]; [done|]. cbn. f_equal. exact IH. Qed.

Lemma wake_free_same l : (wake_free <$> l) ≫= reqs_of = l ≫= reqs_of /\ (wake_free <$> l) ≫= bufs_of = l ≫= bufs_of.
Proof. rewrite !bind_fmap. split; apply bind_ext_in; by intros []. Qed.

Lemma VI_woken A U F s : VI A U F s -> VI A U F (woken s).
Proof.
  intros I. destruct (wake_free_same (procs s)) as [E1 E2].
  apply VI_procs; [done|exact E1|rewrite E2; apply I| |].
  - intros b w H. apply list_elem_of_fmap in H as ([] & E & _); done.
  - intros r H. apply (vi_sleep_disk _ _ _ _ I). apply list_elem_of_fmap in H as ([] & E & Hc); try done. cbn in E. by rewrite E.
Qed.

(** ** Submission *)

Lemma elem_insert_list {A} (l : list A) p x y : y ∈ <[p := x]> l -> y = x \/ y ∈ l.
Proof.
  intros H. apply list_elem_of_lookup in H as [q Hq]. destruct (decide (q = p)) as [->|N].
  - apply list_lookup_insert_Some in Hq as [(_ & -> & _)|[? _]]; [by left|done].
  - rewrite list_lookup_insert_ne in Hq by done. right. by eapply list_elem_of_lookup_2.
Qed.

(** A process without descriptors goes to sleep. *)
Lemma VI_wait A U F s p c b w : VI A U F s -> procs s !! p = Some c -> reqs_of c = [] ->
  users_ok (bufs s) (<[p := WaitDesc b w false]> (procs s) ≫= bufs_of) -> (2 <= length (pend s))%nat ->
  VI A U F (set_procs (<[p := WaitDesc b w false]> (procs s)) s).
Proof.
  intros I Hp Hc Hu Hl. apply VI_procs; [done| |done|done|].
  - by eapply bind_insert_same.
  - intros r [?|H]%elem_insert_list; [done|]. by apply (vi_sleep_disk _ _ _ _ I).
Qed.

(** The ring slot after the window is outside it. *)
Lemma window_snoc ring lo l x : length ring = NUM -> (length l < NUM)%nat -> window ring lo l ->
  window (<[Z.to_nat ((lo + Z.of_nat (length l)) mod Z.of_nat NUM) := x]> ring) lo (l ++ [x]).
Proof.
  intros Hr Hl HW k y Hk. unfold NUM in *. change (Z.of_nat 8) with 8 in *.
  pose proof (Z.mod_pos_bound (lo + Z.of_nat (length l)) 8) as B.
  destruct (decide (k = length l)) as [->|N].
  - rewrite lookup_app_r, Nat.sub_diag in Hk by lia. injection Hk as <-. apply nth_insert_eq. lia.
  - assert (k < length l)%nat as Hkl.
    { apply lookup_lt_Some in Hk. rewrite length_app in Hk. cbn in Hk. lia. }
    rewrite lookup_app_l in Hk by lia. rewrite nth_insert_ne; [by apply HW|]. intros E.
    pose proof (Z.mod_pos_bound (lo + Z.of_nat k) 8) as B'. apply Z2Nat.inj in E; [|lia..].
    assert ((Z.of_nat (length l) - Z.of_nat k) mod 8 = 0) as E0.
    { replace (Z.of_nat (length l) - Z.of_nat k) with ((lo + Z.of_nat (length l)) - (lo + Z.of_nat k)) by lia.
      rewrite Zminus_mod, <- E, Z.sub_diag. done. }
    rewrite Z.mod_small in E0 by lia. lia.
Qed.

Lemma u16_mod8 x : u16 x mod Z.of_nat NUM = x mod Z.of_nat NUM.
Proof.
  unfold wrap, NUM. change (Z.of_nat 8) with 8. change (2 ^ 16) with (8 * 8192).
  rewrite Z.rem_mul_r by lia. rewrite Z.mul_comm, Z.mod_add by lia. by rewrite Z.mod_mod.
Qed.
Lemma u16_succ x : u16 (u16 x + 1) = u16 (x + 1).
Proof. unfold wrap. by rewrite Zplus_mod_idemp_l. Qed.

Definition new_desc (b : nat) (w : bool) (i0 i1 i2 : nat) (l : list virtq_desc) : list virtq_desc :=
  <[i2 := mkDesc (AStatus i0) 1 VRING_DESC_F_WRITE 0]>
  (<[i1 := mkDesc (AData b) BSIZE (Z.lor (if w then 0 else VRING_DESC_F_WRITE) VRING_DESC_F_NEXT) i2]>
  (<[i0 := mkDesc (AOps i0) 16 VRING_DESC_F_NEXT i1]> l)).

Definition new_req (b : nat) (w : bool) (i0 : nat) (s : vst) : req :=
  let sec := u32 (blockno (bufs s b) * (BSIZE / 512)) in
  mkRq b w i0 (if w then data (bufs s b) else media s sec ++ media s (sec + 1)).

(** The state after [submit]. *)
Definition submitted (p b : nat) (w : bool) (i0 i1 i2 : nat) (s : vst) : vst :=
  let d := dk s in
  mkV (mkDisk (new_desc b w i0 i1 i2 (desc d))
         (<[Z.to_nat (avail_idx d mod Z.of_nat NUM) := i0]> (avail_ring d)) (u16 (avail_idx d + 1))
         (used_ring d) (used_dev_idx d) (free d) (used_idx d) (<[i0 := Some b]> (info_b d))
         (<[i0 := 255]> (info_status d))
         (<[i0 := mkReq (if w then VIRTIO_BLK_T_OUT else VIRTIO_BLK_T_IN) (u32 (blockno (bufs s b) * (BSIZE / 512)))]> (ops d)))
    (fupd (bufs s) b (set_bdisk true (bufs s b))) (<[p := WaitDisk (new_req b w i0 s) false]> (procs s))
    (media s) (dev_idx s) (dev_busy s).

Lemma submit_run p b w i0 i1 i2 s : submit p b w i0 i1 i2 s = Ret (tt, submitted p b w i0 i1 i2 s).
Proof. reflexivity. Qed.

Lemma new_desc_other b w i0 i1 i2 l i : i <> i0 -> i <> i1 -> i <> i2 ->
  nth i (new_desc b w i0 i1 i2 l) desc0 = nth i l desc0.
Proof. intros H0 H1 H2. unfold new_desc. by rewrite !nth_insert_ne. Qed.

Lemma fupd_eq {A} (f : nat -> A) i x : fupd f i x i = x.
Proof. unfold fupd. by rewrite decide_True. Qed.
Lemma fupd_ne {A} (f : nat -> A) i j x : j <> i -> fupd f i x j = f j.
Proof. intros H. unfold fupd. by rewrite decide_False. Qed.

Lemma zupd_eq {A} (f : Z -> A) i x : zupd f i x i = x.
Proof. unfold zupd. by rewrite Z.eqb_refl. Qed.
Lemma zupd_ne {A} (f : Z -> A) i j x : j <> i -> zupd f i x j = f j.
Proof. intros H. unfold zupd. by rewrite (proj2 (Z.eqb_neq _ _)). Qed.

Lemma sector_val x : 0 <= x < 2 ^ 31 -> u32 (x * (BSIZE / 512)) = 2 * x.
Proof. intros H. change (BSIZE / 512) with 2. rewrite wrap_small; lia. Qed.

Lemma u16_plus x k : u16 (u16 x + k) = u16 (x + k).
Proof. unfold wrap. by rewrite Zplus_mod_idemp_l. Qed.
Lemma u16_mod8_plus x k : (u16 x + k) mod Z.of_nat NUM = (x + k) mod Z.of_nat NUM.
Proof. rewrite Zplus_mod, u16_mod8, <- Zplus_mod. done. Qed.

Lemma u16_ne x n : 0 <= x < 2 ^ 16 -> (0 < n < 8)%nat -> x <> u16 (x + Z.of_nat n).
Proof.
  intros Hx Hn E. unfold wrap in E. assert ((x + Z.of_nat n) mod 2 ^ 16 = x + Z.of_nat n - 2 ^ 16 * ((x + Z.of_nat n) / 2 ^ 16)) as E'.
  { rewrite Zmod_eq_full by lia. lia. }
  lia.
Qed.

Section Submit.
Context (A U F : list nat) (s : vst) (I : VI A U F s) (d' : disk) (i0 i1 i2 p b : nat) (w : bool) (c : pc).
Context (HL : like (owned s) (dk s) d') (HT : taken (i2 :: i1 :: i0 :: owned s) d') (Hlen : length (desc d') = NUM).
Context (Hp : procs s !! p = Some c) (Hc : reqs_of c = []).
Context (Hu : users_ok (bufs s) (<[p := WaitDesc b w false]> (procs s) ≫= bufs_of)).
Let s1 : vst := set_dk d' s.
Let s2 : vst := submitted p b w i0 i1 i2 s1.
Let r : req := new_req b w i0 s1.

Lemma sub_users : users s2 = <[p := WaitDesc b w false]> (procs s) ≫= bufs_of.
Proof.
  change (<[p := WaitDisk r false]> (procs s) ≫= bufs_of = <[p := WaitDesc b w false]> (procs s) ≫= bufs_of).
  by apply bind_insert_ext.
Qed.

Lemma sub_pend : pend s2 ≡ₚ r :: pend s.
Proof.
  unfold pend, s2. cbn [procs submitted]. pose proof (bind_insert reqs_of _ _ _ (WaitDisk r false) Hp) as E.
  rewrite Hc in E. exact E.
Qed.

Lemma sub_idx : (i0 < NUM /\ i1 < NUM /\ i2 < NUM)%nat /\ (i0 <> i1 /\ i0 <> i2 /\ i1 <> i2) /\
  (i0 ∉ owned s /\ i1 ∉ owned s /\ i2 ∉ owned s).
Proof.
  pose proof (tk_once _ _ HT) as [H1 [H2 [H3 _]%list.NoDup_cons]%list.NoDup_cons]%list.NoDup_cons.
  pose proof (tk_in _ _ HT) as Hin. split; [split; [|split]; apply Hin; set_solver|]. set_solver.
Qed.

Lemma sub_desc i : i ∈ owned s -> nth i (desc (dk s2)) desc0 = nth i (desc (dk s)) desc0.
Proof.
  intros Hi. destruct sub_idx as (_ & _ & N0 & N1 & N2). cbn [s2 dk submitted desc s1 set_dk].
  rewrite new_desc_other by set_solver. by apply (lk_desc _ _ _ HL).
Qed.

Lemma sub_chain : chain_ok (dk s2) (bufs s2) r i1 i2 /\ chain (dk s2) i0 = [i0; i1; i2].
Proof.
  destruct sub_idx as ((B0 & B1 & B2) & (N01 & N02 & N12) & _).
  assert (b ∈ users s2) as Hb.
  { rewrite sub_users. apply list_elem_of_bind. exists (WaitDesc b w false). split; [set_solver|].
    eapply list_elem_of_lookup_2, list_lookup_insert_eq, lookup_lt_Some, Hp. }
  rewrite sub_users in Hb. pose proof (uo_range _ _ Hu b Hb) as Hr.
  destruct (lk_info _ _ _ HL) as (E1 & E2 & E3). destruct (vi_info _ _ _ _ I) as (L1 & L2 & L3).
  assert (chain_ok (dk s2) (bufs s2) r i1 i2) as C.
  { split; cbn [s2 dk submitted desc s1 set_dk r new_req r_head r_b r_write ops info_b bufs]; unfold new_desc.
    - by rewrite !nth_insert_ne, nth_insert_eq by (done || lia).
    - rewrite nth_insert_ne, nth_insert_eq by (done || rewrite ?length_insert; lia). done.
    - by rewrite nth_insert_eq by (rewrite !length_insert; lia).
    - rewrite nth_insert_eq by (rewrite E3; lia). rewrite fupd_eq. cbn [blockno set_bdisk]. by rewrite sector_val.
    - by rewrite nth_insert_eq by (rewrite E1; lia). }
  split; [exact C|]. unfold chain, dnext. pose proof (co_head _ _ _ _ _ C) as C1. cbn [r new_req r_head] in C1.
  rewrite C1. cbn [next]. by rewrite (co_data _ _ _ _ _ C).
Qed.

Lemma sub_owned : owned s2 ≡ₚ i0 :: i1 :: i2 :: owned s.
Proof.
  unfold owned, heads. rewrite sub_pend. cbn [fmap list_fmap mbind list_bind].
  change (r_head r) with i0. rewrite (proj2 sub_chain). cbn. do 3 apply Permutation_skip.
  change (heads s ≫= chain (dk s2) ≡ₚ owned s). rewrite (chains_like (dk s)); [done|]. apply sub_desc.
Qed.

Lemma sub_old r' : r' ∈ pend s -> r_head r' <> i0 /\ r_b r' <> b.
Proof.
  intros Hr'. destruct sub_idx as (_ & _ & N0 & _). split.
  - intros E. apply N0. apply heads_owned. rewrite <- E. apply list_elem_of_fmap. by exists r'.
  - intros E. pose proof (pend_bufs_once s2) as HN. rewrite sub_users, sub_pend in HN.
    specialize (HN (uo_once _ _ Hu)). cbn in HN. apply list.NoDup_cons in HN as [HN _]. apply HN, list_elem_of_fmap.
    by exists r'.
Qed.

Lemma sub_avail : avail_idx (dk s2) = u16 (dev_idx s2 + Z.of_nat (length (A ++ [i0]))) /\
  window (avail_ring (dk s2)) (dev_idx s2) (A ++ [i0]).
Proof.
  destruct (vi_avail _ _ _ _ I) as [E W]. destruct (lk_avail _ _ _ HL) as [E1 E2].
  pose proof (queues_few _ _ _ _ I) as Hq. cbn [s2 dk submitted s1 set_dk avail_idx avail_ring dev_idx].
  rewrite E1, E2, E. split.
  - rewrite u16_succ, length_app. cbn. f_equal. lia.
  - rewrite u16_mod8. apply window_snoc; [apply I|unfold NUM; lia|exact W].
Qed.

Lemma VI_submit : VI (A ++ [i0]) U F s2.
Proof.
  destruct sub_idx as ((B0 & B1 & B2) & _ & N0 & _). pose proof sub_pend as EP.
  destruct (lk_used _ _ _ HL) as (L4 & L5 & L6). destruct (lk_info _ _ _ HL) as (L7 & L8 & L9).
  assert (forall q, q ∈ pend s2 -> q = r \/ q ∈ pend s) as Hq by (intros q H; rewrite EP in H; set_solver).
  assert (forall h, h ∈ A ++ dev_busy s ++ U ++ F -> h <> i0) as Hh.
  { intros h H ->. apply N0, heads_owned. by rewrite (vi_heads _ _ _ _ I). }
  split.
  - cbn. rewrite length_insert, L4, (proj1 (lk_avail _ _ _ HL)). apply I.
  - cbn. rewrite !length_insert, L7, L8, L9. apply I.
  - unfold heads. rewrite EP. cbn [fmap list_fmap]. change (i0 :: heads s ≡ₚ (A ++ [i0]) ++ dev_busy s ++ U ++ F).
    rewrite (vi_heads _ _ _ _ I), <- (assoc_L (++)). apply Permutation_middle.
  - exact sub_avail.
  - cbn [s2 dk submitted s1 set_dk used_dev_idx used_idx used_ring]. rewrite L4, L5, L6. apply I.
  - cbn [s2 dk submitted s1 set_dk used_idx dev_idx]. rewrite L6. apply I.
  - apply (taken_perm (i2 :: i1 :: i0 :: owned s)).
    { rewrite sub_owned. apply (Permutation_app_tail (owned s) (Permutation_rev [i2; i1; i0])). }
    destruct HT. split; try done. cbn. unfold new_desc. by rewrite !length_insert.
  - intros q [->|H]%Hq; [exists i1, i2; apply sub_chain|].
    destruct (vi_chain _ _ _ _ I q H) as (j1 & j2 & C). destruct (chain_ok_owned s q j1 j2 H C) as [_ HD].
    destruct (sub_old q H) as [Nh Nb]. exists j1, j2. destruct C as [C1 C2 C3 C4 C5]. split.
    + rewrite sub_desc by (apply HD; set_solver). done.
    + rewrite sub_desc by (apply HD; set_solver). done.
    + rewrite sub_desc by (apply HD; set_solver). done.
    + cbn. rewrite nth_insert_ne, L9, fupd_ne by done. exact C4.
    + cbn. rewrite nth_insert_ne, L7 by done. exact C5.
  - intros h H. assert (h <> i0) as Nh by (apply Hh; set_solver). cbn. rewrite nth_insert_ne, L8 by congruence. by apply (vi_status _ _ _ _ I).
  - intros q [->|H]%Hq.
    + cbn. rewrite fupd_eq. cbn. split; [done|]. intros HF. exfalso. apply (Hh i0); set_solver.
    + destruct (sub_old q H) as [_ Nb]. cbn. rewrite fupd_ne by done. by apply (vi_bdisk _ _ _ _ I).
  - destruct Hu as [U1 U2 U3]. split; rewrite sub_users; try done.
    + intros x y Hx Hy. specialize (U2 x y Hx Hy). cbn. unfold fupd. repeat destruct (decide _); subst; done.
    + intros x Hx. specialize (U3 x Hx). cbn. unfold fupd. destruct (decide _); subst; done.
  - intros q [->|H]%Hq Hin.
    + cbn [r new_req r_write r_b r_dat s2 submitted bufs]. rewrite fupd_eq. destruct w; [done|].
      unfold blk. cbn [media blockno set_bdisk s1 set_dk bufs]. rewrite sector_val; [done|].
      apply (uo_range _ _ Hu). apply list_elem_of_bind. exists (WaitDesc b false false). split; [set_solver|].
      eapply list_elem_of_lookup_2, list_lookup_insert_eq, lookup_lt_Some, Hp.
    + destruct (sub_old q H) as [Nh Nb]. cbn. rewrite fupd_ne by done. apply (vi_before _ _ _ _ I q H).
      cbn in Hin. set_solver.
  - intros q [->|H]%Hq Hin.
    + exfalso. apply (Hh i0); [|done]. cbn in Hin. set_solver.
    + destruct (sub_old q H) as [_ Nb]. cbn. rewrite fupd_ne by done. by apply (vi_after _ _ _ _ I).
  - intros x y H. rewrite EP. cbn. apply elem_insert_list in H as [?|H]; [done|].
    pose proof (vi_sleep_desc _ _ _ _ I x y H). lia.
  - intros q H. apply elem_insert_list in H as [E|H]; [|by apply (vi_sleep_disk _ _ _ _ I)].
    injection E as ->. intros HF. apply (Hh i0); set_solver.
Qed.
End Submit.

(** What [rw_start] leaves: a request in the avail ring, or a process asleep because two
    requests hold six descriptors. *)
Definition started (A A' : list nat) (s s' : vst) (p b : nat) (w : bool) : Prop :=
  users s' = <[p := WaitDesc b w false]> (procs s) ≫= bufs_of /\ dev_busy s' = dev_busy s /\
  (forall q c, q <> p -> procs s !! q = Some c -> procs s' !! q = Some c \/ procs s' !! q = Some (wake_free c)) /\
  ((exists h, A' = A ++ [h] /\ procs s' !! p =
      Some (WaitDisk (mkRq b w h (if w then data (bufs s b) else blk s (blockno (bufs s b)))) false)) \/
   (A' = A /\ (2 <= length (pend s))%nat /\ procs s' !! p = Some (WaitDesc b w false))).

Lemma rw_start_run A U F s p c b w : VI A U F s -> procs s !! p = Some c -> reqs_of c = [] ->
  users_ok (bufs s) (<[p := WaitDesc b w false]> (procs s) ≫= bufs_of) ->
  exists A' s', rw_start p b w s = Ret (tt, s') /\ VI A' U F s' /\ started A A' s s' p b w.
Proof.
  intros I Hp Hc Hu. unfold rw_start. pose proof (vi_taken _ _ _ _ I) as T. pose proof (lookup_lt_Some _ _ _ Hp) as Hlt.
  destruct (alloc3_run (owned s) s T) as [(i0 & i1 & i2 & d' & E & L & Ed & T')|(Hl & d' & l & E & Hw & L & T')];
    rewrite (M_bind_Ret _ _ _ _ _ E).
  - exists (A ++ [i0]), (submitted p b w i0 i1 i2 (set_dk d' s)). split; [done|]. split.
    { apply (VI_submit A U F s I d' i0 i1 i2 p b w c); try done. rewrite Ed. apply T. }
    split; [by apply bind_insert_ext|]. split; [done|]. split.
    + intros q c' Nq Hq. left. cbn. by rewrite list_lookup_insert_ne.
    + left. exists i0. split; [done|]. cbn. rewrite list_lookup_insert_eq by done. unfold new_req, blk. destruct w; [done|].
      rewrite sector_val; [done|]. apply (uo_range _ _ Hu), list_elem_of_bind. exists (WaitDesc b false false). split; [set_solver|].
      by eapply list_elem_of_lookup_2, list_lookup_insert_eq.
  - exists A. eexists. split; [reflexivity|]. rewrite owned_length in Hl. unfold NUM in Hl.
    assert (VI A U F (set_procs l (set_dk d' s))) as I'.
    { pose proof (VI_dk A U F s d' I L T') as I1. destruct Hw as [-> | ->]; [by destruct s|]. by apply VI_woken in I1. }
    assert (pend (set_procs l (set_dk d' s)) = pend s /\ exists c', l !! p = Some c' /\ reqs_of c' = [] /\
      <[p := WaitDesc b w false]> l ≫= bufs_of = <[p := WaitDesc b w false]> (procs s) ≫= bufs_of) as (Ep & c' & Hp' & Hc' & Eu).
    { destruct Hw as [-> | ->]; [split; [done|]; by exists c|]. destruct (wake_free_same (procs s)) as [E1 E2].
      split; [exact E1|]. exists (wake_free c). rewrite list_lookup_fmap, Hp. split; [done|]. split; [by destruct c|].
      rewrite (bind_insert_ext bufs_of _ p _ (wake_free (WaitDesc b w false))) by done.
      rewrite <- list_fmap_insert. apply wake_free_same. }
    split; [rewrite <- Eu in Hu; apply (VI_wait _ _ _ _ p c'); try done; rewrite Ep; lia|].
    split; [exact Eu|]. split; [done|]. split; [|right; split; [done|]; split; [lia|]].
    + intros q c0 Nq Hq. cbn. rewrite list_lookup_insert_ne by done. destruct Hw as [-> | ->]; [by left|].
      right. by rewrite list_lookup_fmap, Hq.
    + cbn. apply list_lookup_insert_eq. by eapply lookup_lt_Some.
Qed.

(** ** The device *)

Lemma VI_take A U F s : VI A U F s -> VI (tail A) U F (dev_take s) /\
  (length (tail A) + length (dev_busy (dev_take s)) = length A + length (dev_busy s))%nat.
Proof.
  intros I. destruct (vi_avail _ _ _ _ I) as [E W]. pose proof (vi_idx _ _ _ _ I) as [Hi Hi2].
  pose proof (queues_few _ _ _ _ I) as Hq. unfold dev_take. destruct (Z.eqb_spec (dev_idx s) (avail_idx (dk s))) as [He|He].
  { destruct A as [|h A]; [done|]. exfalso. rewrite E in He. apply (u16_ne (dev_idx s) (length (h :: A))); [lia|cbn [length] in *; lia|done]. }
  destruct A as [|h A].
  { exfalso. apply He. rewrite E. cbn. rewrite Z.add_0_r, wrap_small; lia. }
  pose proof (W 0%nat h eq_refl) as Eh. cbn in Eh. rewrite Z.add_0_r in Eh. change 8 with (Z.of_nat NUM) in Eh. rewrite Eh.
  split; [|cbn; rewrite length_app; cbn; lia]. destruct I. split; try done.
  - cbn [dev_busy]. change (heads s ≡ₚ A ++ (dev_busy s ++ [h]) ++ U ++ F). rewrite vi_heads0. cbn.
    rewrite <- (assoc_L (++)). cbn. rewrite !(assoc_L (++)). by rewrite <- Permutation_middle, !(assoc_L (++)).
  - cbn [dk dev_idx]. rewrite u16_plus. split; [rewrite E; f_equal; cbn; lia|].
    intros k x Hk. rewrite u16_mod8_plus. replace (dev_idx s + 1 + Z.of_nat k) with (dev_idx s + Z.of_nat (S k)) by lia. by apply W.
  - cbn. split; [|done]. apply wrap_range. lia.
  - intros r Hr Hin. apply (vi_before0 r Hr). cbn in Hin. set_solver.
Qed.

(** ** Completion *)

Section Exec.
Context (A U F : list nat) (s : vst) (I : VI A U F s) (r : req) (Hr : r ∈ pend s) (Hb : r_head r ∈ dev_busy s).

(** The state after the device has done request [r]. *)
Definition executed : vst :=
  let d := dk s in
  mkV (mkDisk (desc d) (avail_ring d) (avail_idx d)
         (<[Z.to_nat (used_dev_idx d mod Z.of_nat NUM) := r_head r]> (used_ring d)) (u16 (used_dev_idx d + 1))
         (free d) (used_idx d) (info_b d) (<[r_head r := 0]> (info_status d)) (ops d))
    (if r_write r then bufs s
     else fupd (bufs s) (r_b r) (set_data (blk s (blockno (bufs s (r_b r)))) (bufs s (r_b r))))
    (procs s)
    (if r_write r then
       let k := 2 * blockno (bufs s (r_b r)) in
       zupd (zupd (media s) k (take 512 (data (bufs s (r_b r))))) (k + 1) (drop 512 (data (bufs s (r_b r))))
     else media s)
    (dev_idx s) (filter (fun x => x <> r_head r) (dev_busy s)).

(** The device finds a request of the form it expects. *)
Lemma dev_exec_run : dev_exec (r_head r) s = Some executed.
Proof.
  destruct (vi_chain _ _ _ _ I r Hr) as (i1 & i2 & [C1 C2 C3 C4 C5]).
  unfold dev_exec. rewrite C1. cbn [next addr flags len]. rewrite C2. cbn [next addr flags len].
  rewrite C3. cbn [next addr flags len]. rewrite C4. unfold executed. destruct (r_write r); reflexivity.
Qed.

Lemma exec_blockno b : blockno (bufs executed b) = blockno (bufs s b).
Proof. cbn. destruct (r_write r); [done|]. unfold fupd. by destruct (decide (b = r_b r)) as [->|]. Qed.
Lemma exec_bdisk b : bdisk (bufs executed b) = bdisk (bufs s b).
Proof. cbn. destruct (r_write r); [done|]. unfold fupd. by destruct (decide (b = r_b r)) as [->|]. Qed.

(** The transfer: buffer and block agree; other buffers and blocks are untouched. *)
Lemma exec_transfer : (forall b, b <> r_b r -> data (bufs executed b) = data (bufs s b)) /\
  (forall k, k <> blockno (bufs s (r_b r)) -> blk executed k = blk s k) /\
  data (bufs executed (r_b r)) = r_dat r /\ blk executed (blockno (bufs s (r_b r))) = r_dat r.
Proof.
  pose proof (vi_before _ _ _ _ I r Hr ltac:(set_solver)) as HD. unfold blk. cbn [executed bufs media].
  destruct (r_write r).
  - split; [done|]. split; [|split; [done|]].
    + intros k Nk. by rewrite !zupd_ne by lia.
    + rewrite zupd_ne, !zupd_eq by lia. rewrite take_drop. exact HD.
  - split; [intros b Nb; by rewrite fupd_ne|]. split; [done|]. rewrite fupd_eq. done.
Qed.

Lemma VI_exec : VI A (U ++ [r_head r]) F executed.
Proof.
  pose proof (queues_few _ _ _ _ I) as Hq. pose proof (queues_once _ _ _ _ I) as HN.
  destruct exec_transfer as (X1 & X2 & X3 & X4). destruct (vi_used _ _ _ _ I) as [E W].
  set (h := r_head r) in *. set (busy' := filter (fun x => x <> h) (dev_busy s)).
  assert (dev_busy s ≡ₚ h :: busy') as Eb.
  { apply list.NoDup_app in HN as (_ & _ & HN). apply list.NoDup_app in HN as (HN & _).
    apply NoDup_Permutation; [done| |].
    - constructor; [|by apply list.NoDup_filter]. intros H%list_elem_of_filter. tauto.
    - intros x. rewrite elem_of_cons. unfold busy'. rewrite list_elem_of_filter.
      destruct (decide (x = h)) as [->|]; [|tauto]. tauto. }
  assert (forall q, q ∈ pend s -> q = r \/ (q <> r /\ r_b q <> r_b r /\ r_head q <> h)) as Hq'.
  { intros q Hq1. destruct (decide (r_head q = h)) as [Eq|Nq]; [left; by eapply (pend_inj_head A U F s)|].
    right. split; [intros ->; by apply Nq|]. split; [|done]. intros Eq. apply Nq. by rewrite (pend_inj_buf A U F s q r I Hq1 Hr Eq). }
  assert (forall x, x ∈ A ++ busy' -> x ∈ A ++ dev_busy s) as Hin.
  { intros x. rewrite !elem_of_app, Eb, elem_of_cons. tauto. }
  split; try apply I.
  - cbn. rewrite length_insert. apply I.
  - cbn. rewrite length_insert. apply I.
  - change (heads s ≡ₚ A ++ busy' ++ (U ++ [h]) ++ F). rewrite (vi_heads _ _ _ _ I), Eb. cbn.
    apply Permutation_app_head. rewrite <- (assoc_L (++)). cbn. rewrite <- !Permutation_middle. done.
  - cbn [executed dk used_dev_idx used_idx used_ring]. rewrite E. split.
    + rewrite u16_succ, length_app. cbn. f_equal. lia.
    + rewrite u16_mod8. apply window_snoc; [apply I|unfold NUM; lia|exact W].
  - destruct (vi_taken _ _ _ _ I). by split.
  - intros q Hq1. destruct (vi_chain _ _ _ _ I q Hq1) as (i1 & i2 & [C1 C2 C3 C4 C5]). exists i1, i2. split; try done.
    rewrite exec_blockno. exact C4.
  - intros x Hx. cbn. destruct (decide (x = h)) as [->|Nx].
    + apply nth_insert_eq. destruct (vi_info _ _ _ _ I) as (_ & -> & _). apply (tk_in _ _ (vi_taken _ _ _ _ I)), heads_owned.
      apply list_elem_of_fmap. by exists r.
    + rewrite nth_insert_ne by (fold h; intros e; by apply Nx). apply (vi_status _ _ _ _ I). set_solver.
  - intros q Hq1. rewrite exec_bdisk. by apply (vi_bdisk _ _ _ _ I).
  - destruct (vi_users _ _ _ _ I) as [U1 U2 U3]. split; [done| |].
    + intros x y. rewrite !exec_blockno. apply U2.
    + intros x. rewrite exec_blockno. apply U3.
  - intros q Hq1 Hx. cbn [dev_busy executed] in Hx. destruct (Hq' q Hq1) as [->|(_ & Nb & Nh)].
    + exfalso. fold h in Hx. apply elem_of_app in Hx as [Hx|Hx%list_elem_of_filter]; [|tauto].
      apply list.NoDup_app in HN as (_ & HN & _). apply (HN h Hx). set_solver.
    + pose proof (vi_before _ _ _ _ I q Hq1 (Hin _ Hx)) as HB. rewrite exec_blockno, X1 by done. destruct (r_write q); [done|].
      rewrite X2; [done|]. intros Ebk. apply Nb. apply (uo_blocks _ _ (vi_users _ _ _ _ I)); [by apply pend_user..|done].
  - intros q Hq1 Hx. rewrite exec_blockno. destruct (Hq' q Hq1) as [->|(_ & Nb & Nh)]; [done|].
    rewrite X1 by done. rewrite X2.
    + apply (vi_after _ _ _ _ I q Hq1). set_solver.
    + intros Ebk. apply Nb. apply (uo_blocks _ _ (vi_users _ _ _ _ I)); [by apply pend_user..|done].
Qed.
End Exec.

(** ** The interrupt *)

Lemma wake_buf_same b l : (wake_buf b <$> l) ≫= reqs_of = l ≫= reqs_of /\ (wake_buf b <$> l) ≫= bufs_of = l ≫= bufs_of.
Proof. rewrite !bind_fmap. split; apply bind_ext_in; by intros []. Qed.

Section Intr.
Context (A U F : list nat) (s : vst) (h : nat) (I : VI A (h :: U) F s) (r : req) (Hr : r ∈ pend s) (Hh : r_head r = h).

(** The state after one turn of the interrupt's loop. *)
Definition completed : vst :=
  mkV (set_used_idx (u16 (used_idx (dk s) + 1)) (dk s)) (fupd (bufs s) (r_b r) (set_bdisk false (bufs s (r_b r))))
    (wake_buf (r_b r) <$> procs s) (media s) (dev_idx s) (dev_busy s).

Lemma compl_blockno b : blockno (bufs completed b) = blockno (bufs s b).
Proof. cbn. unfold fupd. by destruct (decide (b = r_b r)) as [->|]. Qed.
Lemma compl_data b : data (bufs completed b) = data (bufs s b).
Proof. cbn. unfold fupd. by destruct (decide (b = r_b r)) as [->|]. Qed.
Lemma compl_pend : pend completed = pend s.
Proof. apply wake_buf_same. Qed.
Lemma compl_heads : heads completed = heads s.
Proof. unfold heads. by rewrite compl_pend. Qed.
Lemma compl_users : users completed = users s.
Proof. apply wake_buf_same. Qed.

Lemma compl_bdisk q : q ∈ pend s -> bdisk (bufs completed (r_b q)) = false <-> r_head q ∈ h :: F.
Proof.
  intros Hq. pose proof (vi_bdisk _ _ _ _ I q Hq) as HB. cbn. rewrite elem_of_cons. destruct (decide (r_b q = r_b r)) as [E|N].
  - rewrite (pend_inj_buf _ _ _ _ q r I Hq Hr E), fupd_eq. cbn. tauto.
  - rewrite fupd_ne, HB by done. split; [tauto|]. intros [E|?]; [|done]. destruct N. f_equal.
    apply (pend_inj_head _ _ _ _ q r I Hq Hr). congruence.
Qed.

Lemma VI_completed : VI A U (h :: F) completed.
Proof.
  destruct (vi_used _ _ _ _ I) as [E W]. pose proof compl_pend as EP. pose proof compl_heads as EH.
  assert (forall q, r_head q ∈ U ++ h :: F -> r_head q ∈ (h :: U) ++ F) as Hin by (intros q; set_solver).
  split; rewrite ?EP, ?EH; try apply I.
  - rewrite (vi_heads _ _ _ _ I). cbn. do 2 apply Permutation_app_head. apply Permutation_middle.
  - cbn [completed dk set_used_idx used_dev_idx used_idx used_ring]. rewrite u16_plus. split.
    + rewrite E. f_equal. cbn. lia.
    + intros k x Hk. rewrite u16_mod8_plus. replace (used_idx (dk s) + 1 + Z.of_nat k) with (used_idx (dk s) + Z.of_nat (S k)) by lia.
      by apply W.
  - split; [apply I|]. apply wrap_range. lia.
  - unfold owned. rewrite EH. destruct (vi_taken _ _ _ _ I). by split.
  - intros q Hq. destruct (vi_chain _ _ _ _ I q Hq) as (i1 & i2 & [C1 C2 C3 C4 C5]). exists i1, i2. split; try done.
    rewrite compl_blockno. exact C4.
  - intros x Hx. apply (vi_status _ _ _ _ I). set_solver.
  - apply compl_bdisk.
  - rewrite compl_users. destruct (vi_users _ _ _ _ I) as [U1 U2 U3]. split; [done| |].
    + intros x y. rewrite !compl_blockno. apply U2.
    + intros x. rewrite compl_blockno. apply U3.
  - intros q Hq Hx. rewrite compl_blockno, compl_data. by apply (vi_before _ _ _ _ I).
  - intros q Hq Hx. rewrite compl_blockno, compl_data. apply (vi_after _ _ _ _ I); auto.
  - intros b w H. apply list_elem_of_fmap in H as ([] & E0 & Hc); try done. cbn in E0.
    eapply (vi_sleep_desc _ _ _ _ I). rewrite E0. exact Hc.
  - intros q H. apply list_elem_of_fmap in H as ([|?|q' k] & E0 & Hc); try done. cbn in E0. injection E0 as -> Ek.
    symmetry in Ek. apply orb_false_iff in Ek as [-> Eb%Nat.eqb_neq]. pose proof (vi_sleep_disk _ _ _ _ I q' Hc) as HF.
    intros [Eh|?]%elem_of_cons; [|done]. apply Eb. f_equal.
    apply (pend_inj_head _ _ _ _ q' r I); [|done|congruence].
    apply list_elem_of_lookup in Hc as [p Hp]. apply elem_pend. by exists p, false.
Qed.
End Intr.

(** An interrupt only wakes. *)
Definition same_calls (s s' : vst) : Prop :=
  users s' = users s /\ dev_busy s' = dev_busy s /\
  forall p r k, procs s !! p = Some (WaitDisk r k) -> exists k', procs s' !! p = Some (WaitDisk r k').
Lemma same_calls_refl s : same_calls s s.
Proof. repeat split; try done. intros p r k H. by exists k. Qed.
Lemma same_calls_trans s s1 s2 : same_calls s s1 -> same_calls s1 s2 -> same_calls s s2.
Proof.
  intros (E1 & E2 & H) (E3 & E4 & H'). repeat split; [congruence..|]. intros p r k (k' & Hk)%H. by apply H' in Hk.
Qed.
Lemma same_calls_completed s r : same_calls s (completed s r).
Proof.
  split; [apply compl_users|]. split; [done|]. intros p q k Hp. cbn. rewrite list_lookup_fmap, Hp. by eexists.
Qed.

(** One turn of the handler takes the oldest entry of the used ring, or ends. *)
Lemma intr_turn_end A F s : VI A [] F s -> intr_turn s = Ret (false, s).
Proof.
  intros I. unfold intr_turn. rewrite (M_bind_Ret _ _ s (dk s) s) by done.
  destruct (vi_used _ _ _ _ I) as [E _]. cbn in E. rewrite Z.add_0_r, wrap_small in E by (apply I; lia).
  by rewrite E, Z.eqb_refl.
Qed.

Lemma intr_turn_run A h U F s : VI A (h :: U) F s ->
  exists s', intr_turn s = Ret (true, s') /\ VI A U (h :: F) s' /\ same_calls s s'.
Proof.
  intros I. pose proof (queues_few _ _ _ _ I) as Hq. destruct (vi_used _ _ _ _ I) as [E W]. pose proof (vi_idx _ _ _ _ I) as [_ Hi].
  destruct (head_req _ _ _ _ h I ltac:(set_solver)) as (r & Hr & Hh).
  destruct (vi_chain _ _ _ _ I r Hr) as (i1 & i2 & C). pose proof (co_info _ _ _ _ _ C) as Ei. rewrite Hh in Ei.
  pose proof (W 0%nat h eq_refl) as Eh. change (Z.of_nat 0) with 0 in Eh. rewrite Z.add_0_r in Eh.
  pose proof (vi_status _ _ _ _ I h ltac:(set_solver)) as Es.
  assert (used_idx (dk s) <> used_dev_idx (dk s)) as Ne.
  { rewrite E. apply u16_ne; [lia|]. cbn [length] in *. lia. }
  exists (completed s r). split; [|split; [exact (VI_completed A U F s h I r Hr Hh)|apply same_calls_completed]].
  unfold intr_turn. rewrite (M_bind_Ret _ _ s (dk s) s) by done. by rewrite (proj2 (Z.eqb_neq _ _) Ne), Eh, Es, Ei.
Qed.

(** ** Return *)

(** [d'] with the three descriptors of a chain free again. *)
Definition released (i0 i1 i2 : nat) (d : disk) : disk := freed i2 (freed i1 (freed i0 d)).

Lemma wake_free_idem (l : list pc) : wake_free <$> (wake_free <$> l) = wake_free <$> l.
Proof. rewrite <- list_fmap_compose. apply list_fmap_ext. by intros ? []. Qed.

Lemma free_chain_run D a0 a1 a2 i0 i1 i2 w s : taken (i0 :: i1 :: i2 :: D) (dk s) ->
  nth i0 (desc (dk s)) desc0 = mkDesc a0 16 VRING_DESC_F_NEXT i1 ->
  nth i1 (desc (dk s)) desc0 = mkDesc a1 BSIZE (Z.lor (if w : bool then 0 else VRING_DESC_F_WRITE) VRING_DESC_F_NEXT) i2 ->
  nth i2 (desc (dk s)) desc0 = mkDesc a2 1 VRING_DESC_F_WRITE 0 ->
  free_chain i0 s = Ret (tt, woken (set_dk (released i0 i1 i2 (dk s)) s)) /\ taken D (released i0 i1 i2 (dk s)).
Proof.
  intros T C0 C1 C2.
  pose proof (tk_once _ _ T) as [N0 [N1 [N2 _]%list.NoDup_cons]%list.NoDup_cons]%list.NoDup_cons.
  destruct (free_desc_run i0 _ s T) as [E0 T0]. set (s0 := woken _) in E0.
  destruct (free_desc_run i1 _ s0 T0) as [E1 T1]. set (s1 := woken _) in E1.
  destruct (free_desc_run i2 _ s1 T1) as [E2 T2]. split; [|exact T2].
  unfold free_chain. change NUM with (3 + 5)%nat. cbn [free_chain_loop Nat.add].
  rewrite (M_bind_Ret _ _ s _ s eq_refl), (M_bind_Ret _ _ _ _ _ E0), C0. cbn [flags next].
  change (c_true (Z.land VRING_DESC_F_NEXT VRING_DESC_F_NEXT)) with true. cbv iota.
  rewrite (M_bind_Ret _ _ s0 (nth i1 (desc (dk s)) desc0) s0).
  2:{ unfold readd, gets. do 2 f_equal. cbn. apply nth_insert_ne. set_solver. }
  rewrite (M_bind_Ret _ _ _ _ _ E1), C1. cbn [flags next].
  replace (c_true _) with true by (by destruct w).
  rewrite (M_bind_Ret _ _ s1 (nth i2 (desc (dk s)) desc0) s1).
  2:{ unfold readd, gets. do 2 f_equal. cbn. rewrite !nth_insert_ne by set_solver. done. }
  rewrite (M_bind_Ret _ _ _ _ _ E2), C2. cbn [flags next].
  change (c_true (Z.land VRING_DESC_F_WRITE VRING_DESC_F_NEXT)) with false. cbv iota. unfold mret, M_ret. do 2 f_equal.
  unfold woken, set_procs, set_dk. cbn. by rewrite !wake_free_idem.
Qed.

Section Return.
Context (A U F : list nat) (s : vst) (I : VI A U F s) (p : nat) (r : req) (k : bool).
Context (Hp : procs s !! p = Some (WaitDisk r k)) (HF : r_head r ∈ F) (i1 i2 : nat) (C : chain_ok (dk s) (bufs s) r i1 i2).
Let h : nat := r_head r.
Let d' : disk := released h i1 i2 (set_info_b h None (dk s)).
(** The state after the call has returned. *)
Definition returned : vst := set_procs (<[p := Idle]> (wake_free <$> procs s)) (set_dk d' s).

Lemma ret_in : r ∈ pend s.
Proof. apply elem_pend. by exists p, k. Qed.

Lemma ret_pend : pend s ≡ₚ r :: pend returned.
Proof.
  unfold pend. cbn [returned procs set_procs]. assert ((wake_free <$> procs s) !! p = Some (WaitDisk r k)) as E
    by (by rewrite list_lookup_fmap, Hp).
  pose proof (bind_insert reqs_of _ _ _ Idle E) as H. cbn [reqs_of app] in H.
  rewrite (proj1 (wake_free_same (procs s))) in H. by rewrite <- H.
Qed.
Lemma ret_users : users s ≡ₚ r_b r :: users returned.
Proof.
  unfold users. cbn [returned procs set_procs]. assert ((wake_free <$> procs s) !! p = Some (WaitDisk r k)) as E
    by (by rewrite list_lookup_fmap, Hp).
  pose proof (bind_insert bufs_of _ _ _ Idle E) as H. cbn [bufs_of app] in H.
  rewrite (proj2 (wake_free_same (procs s))) in H. by rewrite <- H.
Qed.

Definition ret_D : list nat := heads returned ≫= chain (dk s).

Lemma bind_perm {X Y} (g : X -> list Y) l l' : l ≡ₚ l' -> l ≫= g ≡ₚ l' ≫= g.
Proof. intros ->. done. Qed.

Lemma ret_owned : owned s ≡ₚ h :: i1 :: i2 :: ret_D.
Proof.
  unfold owned, ret_D, heads. rewrite (bind_perm _ _ _ (fmap_Permutation r_head _ _ ret_pend)).
  cbn [fmap list_fmap mbind list_bind]. rewrite (proj1 (chain_ok_owned s r i1 i2 ret_in C)). done.
Qed.

Lemma ret_taken : taken (h :: i1 :: i2 :: ret_D) (set_info_b h None (dk s)).
Proof. pose proof (taken_perm _ _ _ ret_owned (vi_taken _ _ _ _ I)) as []. by split. Qed.

Lemma rw_finish_run : rw_finish p r s = Ret (tt, returned) /\ taken ret_D d'.
Proof.
  assert (bdisk (bufs s (r_b r)) = false) as E by (by apply (vi_bdisk _ _ _ _ I r ret_in)).
  set (s1 := set_dk (set_info_b h None (dk s)) s).
  destruct C as [C1 C2 C3 C4 C5].
  destruct (free_chain_run ret_D _ _ _ h i1 i2 _ s1 ret_taken C1 C2 C3) as [E1 T]. split; [|exact T].
  unfold rw_finish. rewrite (M_bind_Ret _ _ s _ s eq_refl), E. rewrite (M_bind_Ret _ _ s tt s1) by done.
  by rewrite (M_bind_Ret _ _ _ _ _ E1).
Qed.

Lemma ret_desc i : i ∈ ret_D -> nth i (desc d') desc0 = nth i (desc (dk s)) desc0.
Proof.
  intros Hi. pose proof (tk_once _ _ ret_taken) as [N0 [N1 [N2 _]%list.NoDup_cons]%list.NoDup_cons]%list.NoDup_cons.
  cbn. rewrite !nth_insert_ne; [done| | |]; set_solver.
Qed.

Lemma ret_other q : q ∈ pend returned -> q ∈ pend s /\ r_head q <> h /\ r_b q <> r_b r.
Proof.
  intros Hq. split; [rewrite ret_pend; set_solver|]. split.
  - pose proof (heads_once _ _ _ _ I) as HN. unfold heads in HN. rewrite ret_pend in HN. cbn in HN.
    apply list.NoDup_cons in HN as [HN _]. intros E. apply HN, list_elem_of_fmap. by exists q.
  - pose proof (pend_bufs_once s (uo_once _ _ (vi_users _ _ _ _ I))) as HN. rewrite ret_pend in HN. cbn in HN.
    apply list.NoDup_cons in HN as [HN _]. intros E. apply HN, list_elem_of_fmap. by exists q.
Qed.

Let F' : list nat := filter (fun x => x <> h) F.
Lemma ret_F : F ≡ₚ h :: F'.
Proof.
  pose proof (queues_once _ _ _ _ I) as HN. rewrite !(assoc_L (++)) in HN. apply list.NoDup_app in HN as (_ & _ & HN).
  apply NoDup_Permutation; [done| |].
  - constructor; [|by apply list.NoDup_filter]. intros H%list_elem_of_filter. tauto.
  - intros x. rewrite elem_of_cons. unfold F'. rewrite list_elem_of_filter. destruct (decide (x = h)) as [->|]; tauto.
Qed.

Lemma ret_chains : heads returned ≫= chain d' = ret_D.
Proof. apply chains_like. exact ret_desc. Qed.

Lemma VI_returned : VI A U F' returned.
Proof.
  assert (forall x, x ∈ F' <-> x ∈ F /\ x <> h) as HF' by (intros x; unfold F'; rewrite list_elem_of_filter; tauto).
  pose proof (vi_info _ _ _ _ I) as (L1 & L2 & L3).
  split; try apply I.
  - cbn. by rewrite length_insert.
  - pose proof (vi_heads _ _ _ _ I) as EH. unfold heads in EH |- *. rewrite ret_pend, ret_F in EH. cbn in EH.
    rewrite !(assoc_L (++)), <- Permutation_middle in EH. apply Permutation_cons_inv in EH.
    rewrite EH, !(assoc_L (++)). done.
  - unfold owned. cbn [returned dk set_procs set_dk]. rewrite ret_chains. apply rw_finish_run.
  - intros q Hq. destruct (ret_other q Hq) as (Hq1 & Nh & Nb).
    destruct (vi_chain _ _ _ _ I q Hq1) as (j1 & j2 & Cq). exists j1, j2.
    destruct (chain_ok_owned s q j1 j2 Hq1 Cq) as [Ec _].
    assert (forall i, i ∈ [r_head q; j1; j2] -> nth i (desc d') desc0 = nth i (desc (dk s)) desc0) as HD.
    { intros i Hi. apply ret_desc, list_elem_of_bind. exists (r_head q). rewrite Ec. split; [done|].
      apply list_elem_of_fmap. by exists q. }
    destruct Cq as [C1 C2 C3 C4 C5].
    split; cbn [returned dk bufs set_procs set_dk]; rewrite ?HD by set_solver; try done.
    change (nth (r_head q) (<[h := None]> (info_b (dk s))) None = Some (r_b q)). by rewrite nth_insert_ne.
  - intros x Hx. apply (vi_status _ _ _ _ I). set_solver.
  - intros q Hq. destruct (ret_other q Hq) as (Hq1 & Nh & Nb). rewrite HF'. pose proof (vi_bdisk _ _ _ _ I q Hq1). tauto.
  - destruct (vi_users _ _ _ _ I) as [U1 U2 U3]. rewrite ret_users in U1. apply list.NoDup_cons in U1 as [_ U1].
    split; [done| |].
    + intros x y Hx Hy. apply U2; rewrite ret_users; set_solver.
    + intros x Hx. apply U3. rewrite ret_users. set_solver.
  - intros q Hq. destruct (ret_other q Hq) as (Hq1 & _). by apply (vi_before _ _ _ _ I).
  - intros q Hq Hx. destruct (ret_other q Hq) as (Hq1 & _). apply (vi_after _ _ _ _ I); [done|]. set_solver.
  - intros b w [?|H]%elem_insert_list; [done|]. apply list_elem_of_fmap in H as ([] & E & _); done.
  - intros q [?|H]%elem_insert_list; [done|]. apply list_elem_of_fmap in H as ([] & E & Hc); try done. cbn in E.
    rewrite HF'. intros [Hx _]. revert Hx. apply (vi_sleep_disk _ _ _ _ I). by rewrite E.
Qed.
End Return.

(** A process woken before its request is done sleeps again. *)
Lemma VI_again A U F s p r k : VI A U F s -> procs s !! p = Some (WaitDisk r k) -> r_head r ∉ F ->
  rw_finish p r s = Ret (tt, set_procs (<[p := WaitDisk r false]> (procs s)) s) /\
  VI A U F (set_procs (<[p := WaitDisk r false]> (procs s)) s).
Proof.
  intros I Hp HF. assert (r ∈ pend s) as Hr by (apply elem_pend; by exists p, k). split.
  - unfold rw_finish. rewrite (M_bind_Ret _ _ s _ s eq_refl). destruct (bdisk (bufs s (r_b r))) eqn:E; [done|].
    by apply (vi_bdisk _ _ _ _ I r Hr) in E.
  - apply VI_procs; [done| | | |].
    + by eapply bind_insert_same.
    + rewrite (bind_insert_same bufs_of _ p _ (WaitDisk r false) Hp eq_refl). apply I.
    + intros b w [?|H]%elem_insert_list; [done|]. by eapply (vi_sleep_desc _ _ _ _ I).
    + intros q [E|H]%elem_insert_list; [|by apply (vi_sleep_disk _ _ _ _ I)]. by injection E as ->.
Qed.

(** ** The callers *)

(** A buffer that is in no call belongs to its holder. *)
Lemma VI_client A U F s b x : VI A U F s -> b ∉ users s -> VI A U F (set_bufs (fupd (bufs s) b x) s).
Proof.
  intros I Hb. assert (forall q, q ∈ pend s -> r_b q <> b) as N by (intros q Hq E; apply Hb; rewrite <- E; by apply pend_user).
  destruct I. split; try done; cbn [bufs set_bufs].
  - intros q Hq. destruct (vi_chain0 q Hq) as (i1 & i2 & []). exists i1, i2. split; rewrite ?fupd_ne; auto.
  - intros q Hq. rewrite fupd_ne; auto.
  - destruct vi_users0 as [U1 U2 U3]. split; [done| |].
    + intros y z Hy Hz. rewrite !fupd_ne by (by intros ->). auto.
    + intros y Hy. rewrite fupd_ne by (by intros ->). auto.
  - intros q Hq. rewrite fupd_ne by auto. by apply vi_before0.
  - intros q Hq. rewrite fupd_ne by auto. by apply vi_after0.
Qed.
