(* ===== verification/VirtioRun.v ===== *)
(** * Runs of the disk driver

    The processes, the interrupt and the device take turns in any order; each operation is
    one stretch of [virtio_disk_rw] under [vdisk_lock], one access of [virtio_disk_intr] to
    what it shares with the device, or one action of the device.  While the handler has
    [vdisk_lock] no process runs in the driver, but the device goes on.  The handler is
    entered only when the device has raised its interrupt.  The
    buffer cache's part of the bargain is in [enabled]: a buffer is passed to one
    call at a time, no two buffers hold one block, and a buffer in a call is left alone. *)

From S2P Require Import Prelude Mlfq Virtio VirtioInv.

(** ** Operations *)

Inductive op :=
| Call (p b : nat) (w : bool)     (* the first part of [virtio_disk_rw] *)
| Retry (p : nat)                 (* woken in [sleep(&disk.free\[0\])] *)
| Wake (p : nat)                  (* woken in [sleep(b)] *)
| Intr                            (* the next step of [virtio_disk_intr] *)
| Take
| Exec (h : nat)
| Client (b : nat) (x : buf).     (* the holder of a buffer changes it *)

Definition fresh (b : nat) (s : vst) : Prop :=
  b ∉ users s /\ Forall (fun b' => blockno (bufs s b') <> blockno (bufs s b)) (users s) /\
  0 <= blockno (bufs s b) < 2 ^ 31.

Definition is_call (c : option pc) : option (nat * bool) :=
  match c with Some (WaitDesc b w true) => Some (b, w) | _ => None end.
Definition is_done (c : option pc) : option req :=
  match c with Some (WaitDisk r true) => Some r | _ => None end.

Definition enabled (o : op) (s : mach) : Prop :=
  match o with
  | Call p b _ => hand s = HOut /\ procs (vs s) !! p = Some Idle /\ fresh b (vs s)
  | Retry p => hand s = HOut /\ is_Some (is_call (procs (vs s) !! p))
  | Wake p => hand s = HOut /\ is_Some (is_done (procs (vs s) !! p))
  | Exec h => h ∈ dev_busy (vs s)
  | Client b _ => b ∉ users (vs s)
  | Intr => hand s = HOut -> istat s <> 0
  | Take => True
  end.

(** The device has put an entry into the used ring. *)
Definition raise (s : mach) : mach := mkMach (vs s) (Z.lor (istat s) 1) (hand s).

Definition perform (o : op) : M mach unit :=
  match o with
  | Call p b w => on_vs (rw_start p b w)
  | Retry p => s ← get; match is_call (procs (vs s) !! p) with Some (b, w) => on_vs (rw_start p b w) | None => undef "not woken" end
  | Wake p => s ← get; match is_done (procs (vs s) !! p) with Some r => on_vs (rw_finish p r) | None => undef "not woken" end
  | Intr => virtio_disk_intr
  | Take => on_vs (modify dev_take)
  | Exec h =>
    s ← get;
    match dev_exec h (vs s) with
    | Some s' => _ ← on_vs (put s'); modify raise
    | None => undef "not a block request"
    end
  | Client b x => on_vs (modify (fun s => set_bufs (fupd (bufs s) b x) s))
  end.

Definition vstep (o : op) (s s' : mach) : Prop := enabled o s /\ perform o s = Ret (tt, s').

(** After [virtio_disk_init] nobody is in the driver. *)
Definition vinit (s : mach) : Prop :=
  dk (vs s) = init_disk /\ Forall (fun c => c = Idle) (procs (vs s)) /\ dev_idx (vs s) = 0 /\ dev_busy (vs s) = [] /\
  istat s = 0 /\ hand s = HOut.

Inductive vreach : mach -> Prop :=
| vreach_init s : vinit s -> vreach s
| vreach_step o s s' : vreach s -> vstep o s s' -> vreach s'.

(** ** The invariant holds *)

(** Entries the driver has not seen raise the interrupt, or the handler is yet to look. *)
Definition line (U : list nat) (s : mach) : Prop :=
  match hand s with HOut | HRelease => U <> [] -> istat s <> 0 | _ => True end.
Definition MI (A U F : list nat) (s : mach) : Prop := VI A U F (vs s) /\ line U s.

Lemma on_vs_run {X} (c : V X) s x s' : c (vs s) = Ret (x, s') -> on_vs c s = Ret (x, mkMach s' (istat s) (hand s)).
Proof. intros E. unfold on_vs. by rewrite E. Qed.

Lemma VI_init s : dk s = init_disk -> Forall (fun c => c = Idle) (procs s) -> dev_idx s = 0 -> dev_busy s = [] ->
  VI [] [] [] s.
Proof.
  intros Ed Hp Ei Eb.
  assert (procs s ≫= reqs_of = []) as Er.
  { clear - Hp. induction Hp as [|c l -> _ IH]; [done|]. exact IH. }
  assert (procs s ≫= bufs_of = []) as Eu.
  { clear - Hp. induction Hp as [|c l -> _ IH]; [done|]. exact IH. }
  assert (forall c, c ∈ procs s -> c = Idle) as Hi by (by apply list.Forall_forall).
  split; unfold owned, heads, pend, users in *; rewrite ?Er, ?Eu, ?Ed, ?Ei, ?Eb; try done; try set_solver.
  - split; [done|done|constructor|set_solver|]. intros i Hn. split; [set_solver|]. intros _. unfold NUM in Hn.
    do 8 (destruct i; [done|]). lia.
  - split; [constructor|set_solver..].
Qed.

Lemma fresh_users f b l : users_ok f l -> b ∉ l -> Forall (fun b' => blockno (f b') <> blockno (f b)) l ->
  0 <= blockno (f b) < 2 ^ 31 -> users_ok f (b :: l).
Proof.
  intros [H1 H2 H3] Hb HF HR. rewrite list.Forall_forall in HF. split; [by constructor| |].
  - intros x y [->|Hx]%elem_of_cons [->|Hy]%elem_of_cons E; [done| | |by apply H2].
    + by destruct (HF y Hy).
    + by destruct (HF x Hx).
  - intros x [->|Hx]%elem_of_cons; auto.
Qed.

Lemma users_ok_perm f l l' : l ≡ₚ l' -> users_ok f l -> users_ok f l'.
Proof.
  intros E [H1 H2 H3]. split; [by rewrite <- E| |].
  - intros x y Hx Hy. apply H2; by rewrite E.
  - intros x Hx. apply H3. by rewrite E.
Qed.

Lemma call_run A U F s p b w : VI A U F s -> procs s !! p = Some Idle -> fresh b s ->
  exists A' s', rw_start p b w s = Ret (tt, s') /\ VI A' U F s' /\ started A A' s s' p b w.
Proof.
  intros I Hp (Hb & HF & HR). apply (rw_start_run A U F s p Idle); [done|done|done|].
  apply (users_ok_perm _ (b :: users s)); [|by apply fresh_users; [apply I|..]].
  symmetry. apply (bind_insert bufs_of _ _ _ (WaitDesc b w false) Hp).
Qed.

Lemma retry_run A U F s p b w : VI A U F s -> procs s !! p = Some (WaitDesc b w true) ->
  exists A' s', rw_start p b w s = Ret (tt, s') /\ VI A' U F s' /\ started A A' s s' p b w.
Proof.
  intros I Hp. apply (rw_start_run A U F s p (WaitDesc b w true)); [done|done|done|].
  rewrite (bind_insert_same bufs_of _ p _ (WaitDesc b w false) Hp) by done. apply I.
Qed.

(** [rw_finish] sleeps again or returns, when the data has been transferred. *)
Lemma finish_run A U F s p r k : VI A U F s -> procs s !! p = Some (WaitDisk r k) ->
  exists F' s', rw_finish p r s = Ret (tt, s') /\ VI A U F' s' /\ dev_busy s' = dev_busy s /\
    (forall q c, q <> p -> procs s !! q = Some c -> procs s' !! q = Some c \/ procs s' !! q = Some (wake_free c)) /\
    ((r_head r ∉ F /\ F' = F /\ procs s' !! p = Some (WaitDisk r false) /\ users s' = users s) \/
     (r_head r ∈ F /\ F ≡ₚ r_head r :: F' /\ procs s' !! p = Some Idle /\ users s ≡ₚ r_b r :: users s' /\
      bufs s' = bufs s /\ media s' = media s)).
Proof.
  intros I Hp. pose proof (lookup_lt_Some _ _ _ Hp) as Hlt. destruct (decide (r_head r ∈ F)) as [HF|HF].
  - assert (r ∈ pend s) as Hr by (apply elem_pend; by exists p, k).
    destruct (vi_chain _ _ _ _ I r Hr) as (i1 & i2 & C).
    exists (filter (fun x => x <> r_head r) F), (returned s p r i1 i2). split; [by apply (rw_finish_run A U F s I p r k)|].
    split; [by apply (VI_returned A U F s I p r k)|]. split; [done|]. split; [|right; split; [done|]; split; [|split; [|split; [|done]]]].
    + intros q c Nq Hq. right. cbn. by rewrite list_lookup_insert_ne, list_lookup_fmap, Hq.
    + by apply (ret_F A U F s I r).
    + cbn. apply list_lookup_insert_eq. by rewrite length_fmap.
    + by apply (ret_users s p r k).
  - destruct (VI_again A U F s p r k I Hp HF) as [E I']. exists F. eexists. split; [exact E|]. split; [done|]. split; [done|].
    split; [|left; split; [done|]; split; [done|]; split].
    + intros q c Nq Hq. left. cbn. by rewrite list_lookup_insert_ne.
    + cbn. by apply list_lookup_insert_eq.
    + by apply (bind_insert_same bufs_of _ p (WaitDisk r k)).
Qed.

Lemma exec_run A U F s h : VI A U F s -> h ∈ dev_busy s ->
  exists s', dev_exec h s = Some s' /\ VI A (U ++ [h]) F s' /\ procs s' = procs s /\
    dev_busy s' = filter (fun x => x <> h) (dev_busy s).
Proof.
  intros I Hb. destruct (head_req _ _ _ _ h I ltac:(set_solver)) as (r & Hr & <-).
  exists (executed s r). split; [by apply (dev_exec_run A U F s I)|]. split; [by apply VI_exec|]. done.
Qed.

(** A step of the handler: it keeps the calls, and moves entries of the used ring. *)
Lemma handler_step A U F s : MI A U F s -> (hand s = HOut -> istat s <> 0) ->
  exists U' F' s', virtio_disk_intr s = Ret (tt, s') /\ MI A U' F' s' /\ same_calls (vs s) (vs s') /\
    (match hand s with
     | HOut => hand s' = HStatus | HStatus => exists v, hand s' = HAck v | HAck _ => hand s' = HLoop
     | HLoop => hand s' = (if U is [] then HRelease else HLoop) | HRelease => hand s' = HOut
     end) /\
    (if hand s is HLoop then U' = tail U /\ F' = rev (take 1 U) ++ F else U' = U /\ F' = F).
Proof.
  intros [I L] _. unfold virtio_disk_intr. rewrite (M_bind_Ret _ _ s s s) by done. unfold line in L.
  destruct (hand s) as [| |v| |] eqn:Eh.
  - exists U, F. eexists. split; [done|]. split; [by split|]. split; [apply same_calls_refl|]. done.
  - exists U, F. eexists. split; [done|]. split; [by split|]. split; [apply same_calls_refl|]. split; [by eexists|done].
  - exists U, F. eexists. split; [done|]. split; [by split|]. split; [apply same_calls_refl|]. done.
  - destruct U as [|h U].
    + rewrite (M_bind_Ret _ _ _ _ _ (on_vs_run _ _ _ _ (intr_turn_end A F (vs s) I))). exists [], F. eexists. split; [done|].
      split; [split; [done|by intros []]|]. split; [apply same_calls_refl|]. done.
    + destruct (intr_turn_run A h U F (vs s) I) as (s' & E & I' & Hs).
      rewrite (M_bind_Ret _ _ _ _ _ (on_vs_run _ _ _ _ E)). exists U, (h :: F). eexists. split; [done|].
      split; [by split|]. split; [done|]. done.
  - exists U, F. eexists. split; [done|]. split; [by split|]. split; [apply same_calls_refl|]. done.
Qed.

(** Every operation that may happen returns and keeps the invariant; a call under way stays
    under way until its process is idle. *)
Lemma perform_run A U F s o : MI A U F s -> enabled o s ->
  exists A' U' F' s', perform o s = Ret (tt, s') /\ MI A' U' F' s' /\
    forall p r k, procs (vs s) !! p = Some (WaitDisk r k) ->
      procs (vs s') !! p = Some Idle \/ exists k', procs (vs s') !! p = Some (WaitDisk r k').
Proof.
  intros [I L] En. destruct o as [p b w|p|p| | |h|b x]; cbn [perform].
  - destruct En as (Hh & Hp & Hf).
    destruct (call_run A U F (vs s) p b w I Hp Hf) as (A' & s' & E & I' & (_ & _ & HP & _)).
    exists A', U, F. eexists. split; [by apply on_vs_run|]. split; [by split|].
    intros q r k Hq. right. exists k. destruct (HP q _ ltac:(intros ->; congruence) Hq) as [H|H]; exact H.
  - destruct En as [Hh [[b w] En]]. rewrite (M_bind_Ret _ _ s s s) by done. rewrite En. unfold is_call in En.
    destruct (procs (vs s) !! p) as [[|b' w' []|]|] eqn:Hp; try done. injection En as -> ->.
    destruct (retry_run A U F (vs s) p b w I Hp) as (A' & s' & E & I' & (_ & _ & HP & _)).
    exists A', U, F. eexists. split; [by apply on_vs_run|]. split; [by split|].
    intros q r k Hq. right. exists k. destruct (HP q _ ltac:(intros ->; congruence) Hq) as [H|H]; exact H.
  - destruct En as [Hh [r En]]. rewrite (M_bind_Ret _ _ s s s) by done. rewrite En. unfold is_done in En.
    destruct (procs (vs s) !! p) as [[|?|r' []]|] eqn:Hp; try done. injection En as ->.
    destruct (finish_run A U F (vs s) p r true I Hp) as (F' & s' & E & I' & _ & HP & HR).
    exists A, U, F'. eexists. split; [by apply on_vs_run|]. split; [by split|].
    intros q r' k Hq. cbn [vs]. destruct (decide (q = p)) as [->|Nq].
    + rewrite Hp in Hq. injection Hq as <- <-. destruct HR as [(_ & _ & H & _)|(_ & _ & H & _)]; [right; by exists false|by left].
    + right. exists k. by destruct (HP q _ Nq Hq) as [H|H].
  - destruct (handler_step A U F s (conj I L) En) as (U' & F' & s' & E & I' & (_ & _ & HP) & _).
    exists A, U', F', s'. split; [done|]. split; [done|]. intros q r k Hq. right. by apply HP in Hq.
  - destruct (VI_take A U F (vs s) I) as [I' _]. exists (tail A), U, F. eexists. split; [reflexivity|]. split; [by split|].
    intros q r k Hq. right. exists k. cbn [vs]. unfold dev_take. by destruct (_ =? _).
  - destruct (exec_run A U F (vs s) h I En) as (s' & E & I' & EP & _). exists A, (U ++ [h]), F. eexists.
    rewrite (M_bind_Ret _ _ s s s) by done. rewrite E. split; [reflexivity|]. split; [split; [done|]|].
    + unfold line, raise. cbn [hand istat vs]. destruct (hand s); try done; intros _ [_ H]%Z.lor_eq_0_iff; done.
    + intros q r k Hq. right. exists k. cbn [vs raise]. by rewrite EP.
  - exists A, U, F. eexists. split; [reflexivity|]. split; [split; [by apply VI_client|done]|]. intros q r k Hq. right. by exists k.
Qed.

Lemma vreach_MI s : vreach s -> exists A U F, MI A U F s.
Proof.
  induction 1 as [s (H1 & H2 & H3 & H4 & H5 & H6)|o s s' _ (A & U & F & I) [En E]].
  - exists [], [], []. split; [by apply VI_init|]. unfold line. by rewrite H6.
  - destruct (perform_run A U F s o I En) as (A' & U' & F' & s1 & E1 & I1 & _). exists A', U', F'. congruence.
Qed.

(** ** What the driver promises *)

(** Whatever the order of calls, interrupts and device actions, no operation panics, the
    device finds a well-formed request at every head it takes, and the descriptors in use
    are exactly those of the requests under way. *)
Theorem virtio_safe s o : vreach s -> enabled o s ->
  (exists s', perform o s = Ret (tt, s') /\ vreach s') /\
  (forall i, (i < NUM)%nat -> nth i (free (dk (vs s))) false = true <-> i ∉ owned (vs s)) /\
  NoDup (owned (vs s)) /\ length (owned (vs s)) = (3 * length (pend (vs s)))%nat.
Proof.
  intros R En. destruct (vreach_MI s R) as (A & U & F & I). destruct (perform_run A U F s o I En) as (A' & U' & F' & s' & E & _).
  split; [exists s'; split; [done|by apply (vreach_step o s)]|].
  destruct I as [I _]. destruct (vi_taken _ _ _ _ I). split; [done|]. split; [done|]. apply owned_length.
Qed.

(** Steps during which [p] has not returned. *)
Definition meanwhile (p : nat) (s s' : mach) : Prop := exists o, vstep o s s' /\ procs (vs s') !! p <> Some Idle.

Lemma meanwhile_stays p r s s' : rtc (meanwhile p) s s' -> vreach s -> (exists k, procs (vs s) !! p = Some (WaitDisk r k)) ->
  vreach s' /\ exists k, procs (vs s') !! p = Some (WaitDisk r k).
Proof.
  induction 1 as [|s s1 s2 (o & [En E] & Nd) _ IH]; intros R [k Hk]; [by split; [|exists k]|]. apply IH.
  - by apply (vreach_step o s).
  - destruct (vreach_MI s R) as (A & U & F & I). destruct (perform_run A U F s o I En) as (A' & U' & F' & s' & E' & _ & HP).
    assert (s' = s1) as -> by congruence. destruct (HP p r k Hk); [done|by auto].
Qed.

(** C14: a call that submits its request and returns has done its work: after a write the disk
    holds what the buffer held at submission, after a read the buffer holds what the disk
    held, whatever happened in between. *)
Theorem virtio_rw_correct s0 o p b w s1 r k s2 s3 :
  vreach s0 -> o = Call p b w \/ (o = Retry p /\ procs (vs s0) !! p = Some (WaitDesc b w true)) -> vstep o s0 s1 ->
  procs (vs s1) !! p = Some (WaitDisk r k) -> rtc (meanwhile p) s1 s2 ->
  vstep (Wake p) s2 s3 -> procs (vs s3) !! p = Some Idle ->
  let c := if w then data (bufs (vs s0) b) else blk (vs s0) (blockno (bufs (vs s0) b)) in
  data (bufs (vs s3) b) = c /\ blk (vs s3) (blockno (bufs (vs s3) b)) = c.
Proof.
  intros R0 Ho [En E] H1 Hm [En2 E2] H3 c.
  assert (r_b r = b /\ r_dat r = c) as [<- Er].
  { destruct (vreach_MI s0 R0) as (A & U & F & [I L]).
    assert (exists A' s', rw_start p b w (vs s0) = Ret (tt, s') /\ VI A' U F s' /\ started A A' (vs s0) s' p b w) as (A' & s' & Es & _ & St).
    { destruct Ho as [-> | [-> Hp]]; [destruct En as (_ & ? & ?); by apply call_run|by apply retry_run]. }
    assert (perform o s0 = on_vs (rw_start p b w) s0) as Eq.
    { destruct Ho as [-> | [-> Hp]]; [done|]. cbn [perform]. rewrite (M_bind_Ret _ _ s0 s0 s0) by done. by rewrite Hp. }
    rewrite Eq, (on_vs_run _ _ _ _ Es) in E. injection E as <-. cbn [vs] in H1.
    destruct St as (_ & _ & _ & [(h & _ & Hp)|(_ & _ & Hp)]); rewrite H1 in Hp; [|done]. injection Hp as -> _. done. }
  destruct (meanwhile_stays p r s1 s2 Hm) as [R2 [k2 H2]]; [by apply (vreach_step o s0)|by exists k|].
  destruct (vreach_MI s2 R2) as (A & U & F & [I _]).
  destruct (finish_run A U F (vs s2) p r k2 I H2) as (F' & s' & E' & _ & _ & _ & HR).
  assert (s' = vs s3) as ->.
  { cbn [perform] in E2. rewrite (M_bind_Ret _ _ s2 s2 s2) in E2 by done. destruct En2 as [_ [r' En2]]. rewrite En2 in E2.
    unfold is_done in En2. rewrite H2 in En2. destruct k2; [|done]. injection En2 as <-.
    rewrite (on_vs_run _ _ _ _ E') in E2. by injection E2 as <-. }
  destruct HR as [(_ & _ & H & _)|(HF & _ & _ & _ & -> & EM)]; [by rewrite H in H3|].
  destruct (vi_after _ _ _ _ I r) as [D1 D2]; [apply elem_pend; by exists p, k2|set_solver|].
  unfold blk in *. rewrite EM, <- Er. done.
Qed.

(** ** No request is lost *)

(** What happens without new calls. *)
Definition internal (s s' : mach) : Prop :=
  exists o, vstep o s s' /\ match o with Call _ _ _ | Client _ _ => False | _ => True end.

(** Once entered, the handler reaches its loop, and leaves it when it has taken
    every entry. *)
Lemma handler_enters n : forall A U F s, MI A U F s -> (hand s = HOut -> istat s <> 0) -> hand s <> HRelease ->
  n = match hand s with HOut => 3 | HStatus => 2 | HAck _ => 1 | _ => 0 end%nat ->
  exists s', rtc internal s s' /\ MI A U F s' /\ hand s' = HLoop /\ same_calls (vs s) (vs s').
Proof.
  induction n as [|n IH]; intros A U F s I En Nr Hn.
  - exists s. split; [done|]. split; [done|]. split; [by destruct (hand s)|apply same_calls_refl].
  - destruct (handler_step A U F s I En) as (U' & F' & s1 & E & I1 & S1 & Hh & HU).
    assert (U' = U /\ F' = F /\ hand s1 <> HOut /\ hand s1 <> HRelease /\
      n = match hand s1 with HOut => 3 | HStatus => 2 | HAck _ => 1 | _ => 0 end%nat) as (-> & -> & Nh & Nr1 & Hn1).
    { destruct (hand s) as [| |v| |]; try done; destruct HU as [-> ->].
      - rewrite Hh. repeat split; try done. lia.
      - destruct Hh as [v ->]. repeat split; try done. lia.
      - rewrite Hh. repeat split; try done. lia. }
    destruct (IH A U F s1 I1 ltac:(by intros ?) Nr1 Hn1) as (s2 & Hr & I2 & Hl & S2).
    exists s2. split; [eapply rtc_l, Hr; by exists Intr|]. split; [done|]. split; [done|]. by eapply same_calls_trans.
Qed.

Lemma handler_leaves A : forall U F s, MI A U F s -> hand s = HLoop ->
  exists s', rtc internal s s' /\ MI A [] (rev U ++ F) s' /\ hand s' = HOut /\ same_calls (vs s) (vs s').
Proof.
  induction U as [|h U IH]; intros F s I Hh;
    destruct (handler_step A _ F s I ltac:(by rewrite Hh)) as (U1 & F1 & s1 & E & I1 & S1 & H1 & HU); rewrite Hh in H1, HU;
    destruct HU as [-> ->].
  - destruct (handler_step A _ F s1 I1 ltac:(by rewrite H1)) as (U2 & F2 & s2 & E2 & I2 & S2 & H2 & HU); rewrite H1 in H2, HU.
    destruct HU as [-> ->]. exists s2. split; [|split; [done|split; [done|by eapply same_calls_trans]]].
    eapply rtc_l; [exists Intr; split; [split; [cbn; by rewrite Hh|done]|done]|].
    eapply rtc_l; [exists Intr; split; [split; [cbn; by rewrite H1|done]|done]|done].
  - destruct (IH (h :: F) s1 I1 H1) as (s2 & Hr & I2 & H2 & S2). exists s2.
    split; [eapply rtc_l, Hr; exists Intr; split; [split; [cbn; by rewrite Hh|done]|done]|].
    split; [cbn [rev]; by rewrite <- (assoc_L (++))|]. split; [done|]. by eapply same_calls_trans.
Qed.

#[global] Instance hpc_eq_dec : EqDecision hpc.
Proof. solve_decision. Defined.

(** The handler, from wherever it is, finishes. *)
Lemma handler_finishes A U F s : MI A U F s -> exists U' F' s', rtc internal s s' /\ MI A U' F' s' /\ hand s' = HOut.
Proof.
  intros I. destruct (decide (hand s = HOut)) as [Eo|No]; [by exists U, F, s|].
  destruct (decide (hand s = HRelease)) as [Er|Nr].
  - destruct (handler_step A U F s I ltac:(by rewrite Er)) as (U1 & F1 & s1 & E & I1 & _ & H1 & _). rewrite Er in H1.
    exists U1, F1, s1. split; [|done]. apply rtc_once. exists Intr. split; [split; [cbn; by rewrite Er|done]|done].
  - destruct (handler_enters _ A U F s I ltac:(done) Nr eq_refl) as (s1 & R1 & I1 & H1 & _).
    destruct (handler_leaves A U F s1 I1 H1) as (s2 & R2 & I2 & H2 & _). exists [], (rev U ++ F), s2.
    split; [by etrans|done].
Qed.

(** A request has five stages: waiting for descriptors, in the avail ring, with the device,
    in the used ring, done; [togo] counts what is left of all of them. *)
Definition togo (A B U F : list nat) (n : nat) : nat :=
  (5 * n - (length A + 2 * length B + 3 * length U + 4 * length F))%nat.

Lemma queues_length A U F s : VI A U F s ->
  (length A + length (dev_busy s) + length U + length F = length (pend s) /\ length (pend s) <= length (users s))%nat.
Proof.
  intros I. pose proof (Permutation_length (vi_heads _ _ _ _ I)) as E. unfold heads in E. rewrite length_fmap, !length_app in E.
  pose proof (submseteq_length _ _ (pend_users s)) as H. rewrite length_fmap in H. lia.
Qed.

Lemma filter_out (l : list nat) h : NoDup l -> h ∈ l -> S (length (filter (fun x => x <> h) l)) = length l.
Proof.
  intros HN Hh. assert (l ≡ₚ h :: filter (fun x => x <> h) l) as E.
  { apply NoDup_Permutation; [done| |].
    - constructor; [|by apply list.NoDup_filter]. intros H%list_elem_of_filter. tauto.
    - intros x. rewrite elem_of_cons, list_elem_of_filter. destruct (decide (x = h)) as [->|]; tauto. }
  by rewrite E at 2.
Qed.

Definition advances (A U F : list nat) (s : mach) : Prop := exists A' U' F' s', rtc internal s s' /\ MI A' U' F' s' /\
  hand s' = HOut /\
  (togo A' (dev_busy (vs s')) U' F' (length (users (vs s'))) < togo A (dev_busy (vs s)) U F (length (users (vs s))))%nat.

Ltac by_count I I' := pose proof (queues_length _ _ _ _ I) as [? ?]; pose proof (queues_length _ _ _ _ I') as [? ?];
  unfold togo in *; cbn in *; lia.

(** A step of the device or of a process. *)
Lemma advance_by o A U F A' U' F' s s' : MI A U F s -> hand s = HOut -> enabled o s ->
  match o with Call _ _ _ | Client _ _ | Intr => False | _ => True end -> perform o s = Ret (tt, s') ->
  VI A' U' F' (vs s') -> U' = U \/ istat s' <> 0 -> (U' = U -> istat s' = istat s) -> hand s' = HOut ->
  (togo A' (dev_busy (vs s')) U' F' (length (users (vs s'))) < togo A (dev_busy (vs s)) U F (length (users (vs s))))%nat ->
  advances A U F s.
Proof.
  intros [_ L] Hh En Ho E I' HU Hi Hh' Ht. exists A', U', F', s'. split; [apply rtc_once; exists o; split; [done|by destruct o]|].
  split; [|done]. split; [done|]. unfold line in *. rewrite Hh' in *. rewrite Hh in L.
  destruct HU as [->|Hn]; [|done]. by rewrite Hi.
Qed.

Lemma advance_take h A U F s : MI (h :: A) U F s -> hand s = HOut -> advances (h :: A) U F s.
Proof.
  intros I Hh. destruct (VI_take _ _ _ _ (proj1 I)) as [I' El].
  apply (advance_by Take (h :: A) U F A U F s (mkMach (dev_take (vs s)) (istat s) (hand s))); [done|done|done|done|reflexivity|exact I'|by left|done|done|].
  assert (users (dev_take (vs s)) = users (vs s)) as Eu by (unfold dev_take; by destruct (_ =? _)). apply (f_equal length) in Eu.
  destruct I as [I _]. by_count I I'.
Qed.

Lemma advance_exec A U F s h : MI A U F s -> hand s = HOut -> h ∈ dev_busy (vs s) -> advances A U F s.
Proof.
  intros I Hh Hb. destruct (exec_run _ _ _ _ h (proj1 I) Hb) as (s' & E & I' & EP & Eb).
  apply (advance_by (Exec h) A U F A (U ++ [h]) F s (raise (mkMach s' (istat s) (hand s)))); [done|done|done|done| |exact I'| | |done|].
  - cbn [perform]. rewrite (M_bind_Ret _ _ s s s) by done. rewrite E. reflexivity.
  - right. cbn. by intros [_ H]%Z.lor_eq_0_iff.
  - intros Hu%(f_equal length). rewrite length_app in Hu. cbn in Hu. lia.
  - assert (users s' = users (vs s)) as Eu by (unfold users; by rewrite EP).
    assert (S (length (dev_busy s')) = length (dev_busy (vs s))) as El.
    { rewrite Eb. apply filter_out; [|done]. pose proof (queues_once _ _ _ _ (proj1 I)) as HN.
      apply list.NoDup_app in HN as (_ & _ & HN). apply list.NoDup_app in HN. tauto. }
    apply (f_equal length) in Eu. pose proof (length_app U [h]). destruct I as [I _]. by_count I I'.
Qed.

(** Entries in the used ring: the interrupt is raised, and the handler takes them all. *)
Lemma advance_intr A h U F s : MI A (h :: U) F s -> hand s = HOut -> advances A (h :: U) F s.
Proof.
  intros I Hh. assert (istat s <> 0) as Hi by (destruct I as [_ L]; unfold line in L; rewrite Hh in L; by apply L).
  destruct (handler_enters _ A (h :: U) F s I ltac:(done) ltac:(by rewrite Hh) eq_refl) as (s1 & R1 & I1 & H1 & S1).
  destruct (handler_leaves A (h :: U) F s1 I1 H1) as (s2 & R2 & I2 & H2 & S2).
  destruct (same_calls_trans _ _ _ S1 S2) as (Eu & Eb & _).
  exists A, [], (rev (h :: U) ++ F), s2. split; [by etrans|]. split; [done|]. split; [done|].
  pose proof (length_app (rev (h :: U)) F) as E1. rewrite length_rev in E1. apply (f_equal length) in Eu, Eb.
  destruct I as [I _], I2 as [I2 _]. cbn [rev] in *. by_count I I2.
Qed.

Lemma advance_return A U F s h : MI A U F s -> hand s = HOut -> h ∈ F -> advances A U F s.
Proof.
  intros I Ho Hh. destruct (head_req _ _ _ _ h (proj1 I) ltac:(set_solver)) as (r & Hr & Eh). apply elem_pend in Hr as (p & k & Hp).
  destruct k.
  2:{ exfalso. apply (vi_sleep_disk _ _ _ _ (proj1 I) r); [by eapply list_elem_of_lookup_2|]. by rewrite Eh. }
  destruct (finish_run _ _ _ _ p r true (proj1 I) Hp) as (F' & s' & E & I' & Eb & _ & [(HF & _)|(_ & EF & _ & Eu & _)]).
  { exfalso. apply HF. by rewrite Eh. }
  apply (advance_by (Wake p) A U F A U F' s (mkMach s' (istat s) (hand s))); [done|done| |done| |exact I'|by left|done|done|].
  - split; [done|]. rewrite Hp. by eexists.
  - cbn [perform]. rewrite (M_bind_Ret _ _ s s s) by done. rewrite Hp. by apply on_vs_run.
  - apply Permutation_length in EF, Eu. cbn [length] in EF, Eu. apply (f_equal length) in Eb. destruct I as [I _]. by_count I I'.
Qed.

(** When no request is under way, whoever waits for descriptors has been woken and gets them. *)
Lemma advance_retry s : MI [] [] [] s -> hand s = HOut -> dev_busy (vs s) = [] -> users (vs s) <> [] -> advances [] [] [] s.
Proof.
  intros MIs Ho EB Hu. pose proof MIs as [I _]. pose proof (queues_length _ _ _ _ I) as [Eq Lq]. rewrite EB in Eq. cbn in Eq.
  assert (exists p b w, procs (vs s) !! p = Some (WaitDesc b w true)) as (p & b & w & Hp).
  { destruct (users (vs s)) as [|b l] eqn:El; [done|]. assert (b ∈ users (vs s)) as Hb by (rewrite El; set_solver).
    unfold users in Hb. apply list_elem_of_bind in Hb as (c & Hbc & Hc). pose proof Hc as [p Hp]%list_elem_of_lookup.
    destruct c as [|b' w k|r k]; [by apply elem_of_nil in Hbc| |].
    - destruct k; [by exists p, b', w|]. pose proof (vi_sleep_desc _ _ _ _ I _ _ Hc). lia.
    - assert (r ∈ pend (vs s)) as Hr by (apply elem_pend; by exists p, k). destruct (pend (vs s)); [by apply elem_of_nil in Hr|done]. }
  destruct (retry_run _ _ _ _ p b w I Hp) as (A' & s' & E & I' & (Eu & Eb & _ & [(h & EA & _)|(_ & Hl & _)])); [|lia].
  rewrite (bind_insert_same bufs_of _ p _ (WaitDesc b w false) Hp) in Eu by done.
  apply (advance_by (Retry p) [] [] [] A' [] [] s (mkMach s' (istat s) (hand s))); [done|done| |done| |exact I'|by left|done|done|].
  - split; [done|]. rewrite Hp. by eexists.
  - cbn [perform]. rewrite (M_bind_Ret _ _ s s s) by done. rewrite Hp. by apply on_vs_run.
  - change (users s' = users (vs s)) in Eu. apply (f_equal length) in Eu, Eb. subst A'. by_count I I'.
Qed.

(** As long as a process is in the driver, something brings a request nearer to its end. *)
Lemma progress A U F s : MI A U F s -> hand s = HOut -> users (vs s) <> [] -> advances A U F s.
Proof.
  intros I Ho Hu. destruct A as [|h A]; [|by apply advance_take].
  destruct (dev_busy (vs s)) as [|h B] eqn:EB; [|apply (advance_exec _ _ _ _ h); [done|done|rewrite EB; set_solver]].
  destruct U as [|h U]; [|by apply advance_intr].
  destruct F as [|h F]; [by apply advance_retry|]. apply (advance_return _ _ _ _ h); [done|done|set_solver].
Qed.

(** No process is left in the driver. *)
Lemma users_idle s : users s = [] -> Forall (fun c => c = Idle) (procs s).
Proof.
  intros E. apply list.Forall_forall. intros c Hc. unfold users in E. destruct c as [|b w k|r k]; [done| |].
  + assert (b ∈ procs s ≫= bufs_of) as H by (apply list_elem_of_bind; eexists; split; [|exact Hc]; set_solver). rewrite E in H. set_solver.
  + assert (r_b r ∈ procs s ≫= bufs_of) as H by (apply list_elem_of_bind; eexists; split; [|exact Hc]; set_solver). rewrite E in H. set_solver.
Qed.

Lemma drains A U F s : MI A U F s -> hand s = HOut -> exists s', rtc internal s s' /\ Forall (fun c => c = Idle) (procs (vs s')).
Proof.
  remember (togo A (dev_busy (vs s)) U F (length (users (vs s)))) as n eqn:En. revert A U F s En.
  induction n as [n IH] using lt_wf_ind. intros A U F s -> I Ho. destruct (decide (users (vs s) = [])) as [E|N].
  - exists s. split; [done|]. by apply users_idle.
  - destruct (progress _ _ _ _ I Ho N) as (A' & U' & F' & s1 & Hi & I' & Ho' & Hlt).
    destruct (IH _ Hlt A' U' F' s1 eq_refl I' Ho') as (s' & Hr & Hf). exists s'. split; [|done]. by etrans.
Qed.

(** C36: no wakeup is lost and no completion missed.  The device raises its interrupt
    when it reports a completion and lowers it when the handler acknowledges, and the handler
    runs only when it is raised; whatever the device does between two accesses of the
    handler, a completion the driver has not seen keeps the interrupt raised once
    the handler has left its loop.  So from every reachable state the device, the interrupt
    and the sleeping processes alone can bring all calls to their end. *)
Theorem virtio_drains s : vreach s ->
  (hand s = HOut \/ hand s = HRelease -> used_idx (dk (vs s)) <> used_dev_idx (dk (vs s)) -> istat s <> 0) /\
  exists s', rtc internal s s' /\ Forall (fun c => c = Idle) (procs (vs s')).
Proof.
  intros R. destruct (vreach_MI s R) as (A & U & F & I). split.
  - intros Ho Ne. pose proof I as [V L]. unfold line in L. assert (U <> []) as HU; [|destruct Ho as [Ho|Ho]; rewrite Ho in L; auto].
    intros ->. destruct (vi_used _ _ _ _ V) as [E _]. cbn in E. rewrite Z.add_0_r, wrap_small in E by (apply V; lia). by rewrite E in Ne.
  - destruct (handler_finishes A U F s I) as (U' & F' & s1 & R1 & I1 & H1).
    destruct (drains _ _ _ _ I1 H1) as (s2 & R2 & H2). exists s2. split; [by etrans|done].
Qed.

(** ** Runs *)

#[global] Instance req_eq_dec : EqDecision req.
Proof. solve_decision. Defined.
#[global] Instance pc_eq_dec : EqDecision pc.
Proof. solve_decision. Defined.

#[global] Instance enabled_dec o s : Decision (enabled o s).
Proof. destruct o; cbn; unfold fresh; apply _. Defined.

(** [l] as far as the operations are enabled and return. *)
Fixpoint runs (l : list op) (s : mach) : option mach :=
  match l with
  | [] => Some s
  | o :: l' =>
    if decide (enabled o s) then match perform o s with Ret (_, s') => runs l' s' | _ => None end else None
  end.

Lemma runs_reach l : forall s s', vreach s -> runs l s = Some s' -> vreach s'.
Proof.
  induction l as [|o l IH]; intros s s' R E; cbn in E; [by injection E as <-|].
  destruct (decide (enabled o s)) as [En|]; [|done]. destruct (perform o s) as [[[] s1]| |] eqn:Ep; try done.
  eapply IH, E. by apply (vreach_step o s).
Qed.

Module Sample.
(** Three processes and buffers for blocks 0, 1, ... *)
Definition start : mach := mkMach (mkV init_disk (fun b => mkBuf (Z.of_nat b) false [Z.of_nat b; 1]) [Idle; Idle; Idle]
  (fun k => [k]) 0 []) 0 HOut.
(** Two requests take six descriptors; the third process waits.  The device completes one
    request, and the other while the handler is past its loop. *)
Definition before : list op := [Call 0 3 true; Call 1 4 false; Call 2 5 false; Take; Take; Exec 3].
Definition handling : list op := [Intr; Intr; Intr; Intr; Intr].
Definition late : list op := before ++ handling ++ [Exec 0; Intr].
Definition at_ (l : list op) : mach := default start (runs l start).

Lemma start_reach : vreach start.
Proof. apply vreach_init. split; [done|]. split; [by repeat constructor|done]. Qed.
Lemma at_reach l : is_Some (runs l start) -> vreach (at_ l).
Proof. intros [s E]. unfold at_. rewrite E. exact (runs_reach l start s start_reach E). Qed.
End Sample.
Import Sample.

Ltac ran := split; [apply (bool_decide_unpack _); vm_compute; exact I|vm_compute; reflexivity].

Lemma virtio_safe_witness : exists s', perform Intr (at_ before) = Ret (tt, s') /\ vreach s'.
Proof. apply (virtio_safe (at_ before) Intr); [apply at_reach; vm_compute; by eexists|vm_compute; discriminate]. Defined.

Lemma virtio_drains_witness :
  used_idx (dk (vs (at_ late))) <> used_dev_idx (dk (vs (at_ late))) /\ istat (at_ late) <> 0 /\
  exists s', rtc internal (at_ late) s' /\ Forall (fun c => c = Idle) (procs (vs s')).
Proof.
  assert (vreach (at_ late)) as R by (apply at_reach; vm_compute; by eexists).
  assert (used_idx (dk (vs (at_ late))) <> used_dev_idx (dk (vs (at_ late)))) as N by (vm_compute; discriminate).
  split; [exact N|]. destruct (virtio_drains (at_ late) R) as [H1 H2]. split; [|exact H2]. apply H1; [|exact N]. left. vm_compute. reflexivity.
Defined.

(** The write of process 0 completes while the others come and go. *)
Lemma virtio_rw_correct_witness :
  exists s1 s2 s3, vstep (Call 0 3 true) start s1 /\ rtc (meanwhile 0) s1 s2 /\ vstep (Wake 0) s2 s3 /\
    data (bufs (vs s3) 3) = [3; 1] /\ blk (vs s3) 3 = [3; 1].
Proof.
  pose (s1 := at_ [Call 0 3 true]). pose (hs := handling ++ [Intr]). pose (s2 := at_ ([Call 0 3 true; Take; Exec 0] ++ hs)).
  pose (s3 := at_ ([Call 0 3 true; Take; Exec 0] ++ hs ++ [Wake 0])). exists s1, s2, s3.
  assert (vstep (Call 0 3 true) start s1) as H1 by ran.
  assert (rtc (meanwhile 0) s1 s2) as H2.
  { eapply rtc_l; [exists Take; split; [ran|vm_compute; discriminate]|].
    eapply rtc_l; [exists (Exec 0); split; [ran|vm_compute; discriminate]|].
    do 6 (eapply rtc_l; [exists Intr; split; [ran|vm_compute; discriminate]|]). apply rtc_refl. }
  assert (vstep (Wake 0) s2 s3) as H3 by ran.
  split; [done|]. split; [done|]. split; [done|].
  apply (virtio_rw_correct start (Call 0 3 true) 0 3 true s1 (mkRq 3 true 0 [3; 1]) false s2 s3 start_reach (or_introl eq_refl) H1);
    [by vm_compute|exact H2|exact H3|by vm_compute].
Defined.
