(* ===== verification/VirtioInit.v ===== *)
(** * Initialisation of the disk: [virtio_disk_init] of [kernel/virtio_disk.c]

    The device registers are memory-mapped; the device is a function [reg] from the writes it
    has seen to the value a register reads.  The three pages come from [kalloc]. *)

From S2P Require Import Prelude Virtio VirtioInv VirtioRun.

Definition VIRTIO_MMIO_MAGIC_VALUE : Z := 0x000.
Definition VIRTIO_MMIO_VERSION : Z := 0x004.
Definition VIRTIO_MMIO_DEVICE_ID : Z := 0x008.
Definition VIRTIO_MMIO_VENDOR_ID : Z := 0x00c.
Definition VIRTIO_MMIO_DEVICE_FEATURES : Z := 0x010.
Definition VIRTIO_MMIO_DRIVER_FEATURES : Z := 0x020.
Definition VIRTIO_MMIO_QUEUE_SEL : Z := 0x030.
Definition VIRTIO_MMIO_QUEUE_NUM_MAX : Z := 0x034.
Definition VIRTIO_MMIO_QUEUE_NUM : Z := 0x038.
Definition VIRTIO_MMIO_QUEUE_READY : Z := 0x044.
Definition VIRTIO_MMIO_STATUS : Z := 0x070.
Definition VIRTIO_MMIO_QUEUE_DESC_LOW : Z := 0x080.
Definition VIRTIO_MMIO_QUEUE_DESC_HIGH : Z := 0x084.
Definition VIRTIO_MMIO_DRIVER_DESC_LOW : Z := 0x090.
Definition VIRTIO_MMIO_DRIVER_DESC_HIGH : Z := 0x094.
Definition VIRTIO_MMIO_DEVICE_DESC_LOW : Z := 0x0a0.
Definition VIRTIO_MMIO_DEVICE_DESC_HIGH : Z := 0x0a4.
Definition S_ACKNOWLEDGE : Z := 1.
Definition S_DRIVER : Z := 2.
Definition S_DRIVER_OK : Z := 4.
Definition S_FEATURES_OK : Z := 8.
(** [VIRTIO_BLK_F_RO], [_SCSI], [_CONFIG_WCE], [_MQ], [VIRTIO_F_ANY_LAYOUT],
    [VIRTIO_RING_F_EVENT_IDX], [VIRTIO_RING_F_INDIRECT_DESC], as they are cleared. *)
Definition unwanted : list Z := [5; 7; 11; 12; 27; 29; 28].

(** [features &= ~(1 << bit)]: the [int] is extended to 64 bits. *)
Definition clear_bit (features bit : Z) : Z := Z.land features (u64 (Z.lnot (Z.shiftl 1 bit))).
Definition negotiate (features : Z) : Z := u32 (fold_left clear_bit unwanted features).

(** The memory of [struct disk]; the pages hold what they held before they are zeroed. *)
Record ist := mkI { writes : list (Z * Z); idk : disk }.
Abbreviation I := (M ist).

Section Init.
Context (reg : list (Z * Z) -> Z -> Z) (page1 page2 page3 : option Z).

(** [*R(r)] and [*R(r) = v] *)
Definition rd (r : Z) : I Z := gets (fun s => u32 (reg (writes s) r)).
Definition wr (r v : Z) : I unit := modify (fun s => mkI (writes s ++ [(r, u32 v)]) (idk s)).
Definition on_disk (f : disk -> disk) : I unit := modify (fun s => mkI (writes s) (f (idk s))).

Definition zero_desc d := mkDisk (repeat desc0 NUM) (avail_ring d) (avail_idx d) (used_ring d)
  (used_dev_idx d) (free d) (used_idx d) (info_b d) (info_status d) (ops d).
Definition zero_avail d := set_avail (repeat O NUM) 0 d.
Definition zero_used d := mkDisk (desc d) (avail_ring d) (avail_idx d) (repeat O NUM) 0
  (free d) (used_idx d) (info_b d) (info_status d) (ops d).

Fixpoint all_free (n i : nat) : I unit :=
  match n with
  | O => mret tt
  | S n' => _ ← on_disk (set_free i true); all_free n' (S i)
  end.

(** One address: its low and its high half. *)
Definition wr64 (lo hi a : Z) : I unit := _ ← wr lo (u64 a); wr hi (Z.shiftr (u64 a) 32).

Definition virtio_disk_init : I unit :=
  let status := 0 in
  magic ← rd VIRTIO_MMIO_MAGIC_VALUE;
  version ← rd VIRTIO_MMIO_VERSION;
  device ← rd VIRTIO_MMIO_DEVICE_ID;
  vendor ← rd VIRTIO_MMIO_VENDOR_ID;
  _ ← panic_if (negb (magic =? 0x74726976) || negb (version =? 2) || negb (device =? 2) || negb (vendor =? 0x554d4551))
        "could not find virtio disk";
  _ ← wr VIRTIO_MMIO_STATUS status;
  let status := Z.lor status S_ACKNOWLEDGE in
  _ ← wr VIRTIO_MMIO_STATUS status;
  let status := Z.lor status S_DRIVER in
  _ ← wr VIRTIO_MMIO_STATUS status;
  features ← rd VIRTIO_MMIO_DEVICE_FEATURES;
  _ ← wr VIRTIO_MMIO_DRIVER_FEATURES (negotiate features);
  let status := Z.lor status S_FEATURES_OK in
  _ ← wr VIRTIO_MMIO_STATUS status;
  status ← rd VIRTIO_MMIO_STATUS;
  _ ← panic_if (Z.land status S_FEATURES_OK =? 0) "virtio disk FEATURES_OK unset";
  _ ← wr VIRTIO_MMIO_QUEUE_SEL 0;
  ready ← rd VIRTIO_MMIO_QUEUE_READY;
  _ ← panic_if (c_true ready) "virtio disk should not be ready";
  max ← rd VIRTIO_MMIO_QUEUE_NUM_MAX;
  _ ← panic_if (max =? 0) "virtio disk has no queue 0";
  _ ← panic_if (max <? Z.of_nat NUM) "virtio disk max queue too short";
  match page1, page2, page3 with
  | Some desc, Some avail, Some used =>
    _ ← on_disk zero_desc;
    _ ← on_disk zero_avail;
    _ ← on_disk zero_used;
    _ ← wr VIRTIO_MMIO_QUEUE_NUM (Z.of_nat NUM);
    _ ← wr64 VIRTIO_MMIO_QUEUE_DESC_LOW VIRTIO_MMIO_QUEUE_DESC_HIGH desc;
    _ ← wr64 VIRTIO_MMIO_DRIVER_DESC_LOW VIRTIO_MMIO_DRIVER_DESC_HIGH avail;
    _ ← wr64 VIRTIO_MMIO_DEVICE_DESC_LOW VIRTIO_MMIO_DEVICE_DESC_HIGH used;
    _ ← wr VIRTIO_MMIO_QUEUE_READY 1;
    _ ← all_free NUM 0;
    wr VIRTIO_MMIO_STATUS (Z.lor status S_DRIVER_OK)
  | _, _, _ => panic "virtio disk kalloc"
  end.
End Init.

(** ** The handshake *)

(** A register of a device that answers as the virtio specification asks: [STATUS] reads what
    was last written (the device accepts the features), the queue is not in use. *)
Record good_device (reg : list (Z * Z) -> Z -> Z) (features max : Z) : Prop := {
  gd_magic : forall l, reg l VIRTIO_MMIO_MAGIC_VALUE = 0x74726976 /\ reg l VIRTIO_MMIO_VERSION = 2 /\
    reg l VIRTIO_MMIO_DEVICE_ID = 2 /\ reg l VIRTIO_MMIO_VENDOR_ID = 0x554d4551;
  gd_features : forall l, reg l VIRTIO_MMIO_DEVICE_FEATURES = features;
  gd_status : forall l v, reg (l ++ [(VIRTIO_MMIO_STATUS, v)]) VIRTIO_MMIO_STATUS = v;
  gd_ready : forall l, (VIRTIO_MMIO_QUEUE_READY, 1) ∉ l -> reg l VIRTIO_MMIO_QUEUE_READY = 0;
  gd_max : forall l, reg l VIRTIO_MMIO_QUEUE_NUM_MAX = max
}.

(** What the driver tells the device, in this order: reset, acknowledge, driver, the
    features, features agreed, the queue and its three areas, queue ready, driver ready. *)
Definition handshake (features a1 a2 a3 : Z) : list (Z * Z) :=
  let half a := (u32 (u64 a), u32 (Z.shiftr (u64 a) 32)) in
  [(VIRTIO_MMIO_STATUS, 0); (VIRTIO_MMIO_STATUS, 1); (VIRTIO_MMIO_STATUS, 3);
   (VIRTIO_MMIO_DRIVER_FEATURES, negotiate features); (VIRTIO_MMIO_STATUS, 11); (VIRTIO_MMIO_QUEUE_SEL, 0);
   (VIRTIO_MMIO_QUEUE_NUM, 8);
   (VIRTIO_MMIO_QUEUE_DESC_LOW, (half a1).1); (VIRTIO_MMIO_QUEUE_DESC_HIGH, (half a1).2);
   (VIRTIO_MMIO_DRIVER_DESC_LOW, (half a2).1); (VIRTIO_MMIO_DRIVER_DESC_HIGH, (half a2).2);
   (VIRTIO_MMIO_DEVICE_DESC_LOW, (half a3).1); (VIRTIO_MMIO_DEVICE_DESC_HIGH, (half a3).2);
   (VIRTIO_MMIO_QUEUE_READY, 1); (VIRTIO_MMIO_STATUS, 15)].

(** The static [struct disk] before: all zero; the pages hold anything. *)
Definition boot_disk (l1 : list virtq_desc) (l2 : list nat) (i2 : Z) (l3 : list nat) (i3 : Z) : disk :=
  mkDisk l1 l2 i2 l3 i3 (repeat false NUM) 0 (repeat None NUM) (repeat 0 NUM) (repeat (mkReq 0 0) NUM).

Section Good.
Context (reg : list (Z * Z) -> Z -> Z) (features max a1 a2 a3 : Z) (G : good_device reg features max).
Context (Hmax : 8 <= max < 2 ^ 32) (Hf : 0 <= features < 2 ^ 32).

Lemma rd_run r v s : reg (writes s) r = v -> 0 <= v < 2 ^ 32 -> rd reg r s = Ret (v, s).
Proof. intros E H. unfold rd, gets. by rewrite E, wrap_small. Qed.

Lemma negotiate_range x : 0 <= negotiate x < 2 ^ 32.
Proof. apply wrap_range. lia. Qed.

Lemma not_written x y : (VIRTIO_MMIO_QUEUE_READY, 1) ∉
  [(VIRTIO_MMIO_STATUS, u32 0); (VIRTIO_MMIO_STATUS, u32 1); (VIRTIO_MMIO_STATUS, u32 3); (VIRTIO_MMIO_DRIVER_FEATURES, x);
   (VIRTIO_MMIO_STATUS, y); (VIRTIO_MMIO_QUEUE_SEL, u32 0)].
Proof.
  unfold VIRTIO_MMIO_QUEUE_READY, VIRTIO_MMIO_STATUS, VIRTIO_MMIO_DRIVER_FEATURES, VIRTIO_MMIO_QUEUE_SEL.
  rewrite !not_elem_of_cons. repeat split; try (intros [=]; lia). apply not_elem_of_nil.
Qed.

Lemma init_run l1 l2 i2 l3 i3 :
  virtio_disk_init reg (Some a1) (Some a2) (Some a3) (mkI [] (boot_disk l1 l2 i2 l3 i3)) =
    Ret (tt, mkI (handshake features a1 a2 a3) init_disk).
Proof.
  unfold virtio_disk_init. set (s0 := mkI _ _). destruct (gd_magic _ _ _ G []) as (M1 & M2 & M3 & M4).
  rewrite (M_bind_Ret _ _ s0 _ s0 (rd_run _ _ s0 M1 ltac:(lia))), (M_bind_Ret _ _ s0 _ s0 (rd_run _ _ s0 M2 ltac:(lia))).
  rewrite (M_bind_Ret _ _ s0 _ s0 (rd_run _ _ s0 M3 ltac:(lia))), (M_bind_Ret _ _ s0 _ s0 (rd_run _ _ s0 M4 ltac:(lia))).
  cbn [Z.eqb Pos.eqb negb orb]. do 4 rewrite (M_bind_Ret _ _ _ tt _ eq_refl).
  set (s1 := mkI _ _). rewrite (M_bind_Ret _ _ s1 _ s1 (rd_run _ _ s1 (gd_features _ _ _ G _) Hf)).
  do 2 rewrite (M_bind_Ret _ _ _ tt _ eq_refl). set (s2 := mkI _ _).
  rewrite (M_bind_Ret _ _ s2 11 s2) by (apply rd_run; [apply (gd_status _ _ _ G)|lia]).
  do 2 rewrite (M_bind_Ret _ _ _ tt _ eq_refl). set (s3 := mkI _ _).
  assert (reg (writes s3) VIRTIO_MMIO_QUEUE_READY = 0) as E3 by (apply G; exact (not_written _ _)).
  rewrite (M_bind_Ret _ _ s3 _ s3 (rd_run _ _ s3 E3 ltac:(lia))), (M_bind_Ret _ _ _ tt _ eq_refl).
  rewrite (M_bind_Ret _ _ s3 _ s3 (rd_run _ _ s3 (gd_max _ _ _ G _) ltac:(lia))).
  rewrite (M_bind_Ret _ _ s3 tt s3) by (unfold panic_if; by rewrite (proj2 (Z.eqb_neq _ _)) by lia).
  rewrite (M_bind_Ret _ _ s3 tt s3) by (unfold panic_if; by rewrite (proj2 (Z.ltb_ge _ _)) by (unfold NUM; lia)).
  unfold s3, s2, s1, s0, handshake. rewrite (wrap_small _ (negotiate features)) by apply negotiate_range. reflexivity.
Qed.
End Good.

Lemma feature_bit_spec x k i : 0 <= k < 31 -> 0 <= i < 32 -> Z.testbit (clear_bit x k) i = Z.testbit x i && negb (i =? k).
Proof.
  intros Hk Hi. unfold clear_bit, wrap. rewrite Z.land_spec, Z.mod_pow2_bits_low, Z.lnot_spec, Z.shiftl_spec by lia.
  f_equal. f_equal. destruct (Z.eqb_spec i k) as [->|N]; [by rewrite Z.sub_diag|]. destruct (decide (i < k)).
  - apply Z.testbit_neg_r. lia.
  - apply Z.bits_above_log2; cbn; lia.
Qed.

(** The driver offers the device its own features less the seven it cannot handle. *)
Lemma negotiate_bits x i : 0 <= i < 32 ->
  Z.testbit (negotiate x) i = Z.testbit x i && negb (existsb (Z.eqb i) unwanted).
Proof.
  intros Hi. unfold negotiate, wrap, unwanted. rewrite Z.mod_pow2_bits_low by lia. cbn [fold_left existsb].
  rewrite !feature_bit_spec by lia. rewrite !negb_orb, !andb_assoc, andb_true_r. done.
Qed.

(** With a device that answers as the specification asks and enough memory, [virtio_disk_init]
    returns; it has made the handshake in the prescribed order, has offered no feature it
    cannot handle, and leaves the driver in its initial state. *)
Theorem virtio_init_correct reg features max a1 a2 a3 l1 l2 i2 l3 i3 :
  good_device reg features max -> 8 <= max < 2 ^ 32 -> 0 <= features < 2 ^ 32 ->
  exists s, virtio_disk_init reg (Some a1) (Some a2) (Some a3) (mkI [] (boot_disk l1 l2 i2 l3 i3)) = Ret (tt, s) /\
    writes s = handshake features a1 a2 a3 /\
    (forall i, 0 <= i < 32 -> Z.testbit (negotiate features) i =
       Z.testbit features i && negb (bool_decide (i ∈ [5; 7; 11; 12; 27; 28; 29]))) /\
    forall f n m, vreach (mkMach (mkV (idk s) f (repeat Idle n) m 0 []) 0 HOut).
Proof.
  intros G Hm Hf. eexists. split; [by apply (init_run reg features max)|]. split; [done|]. split.
  - intros i Hi. rewrite negotiate_bits by done. f_equal. f_equal. cbn [existsb unwanted].
    destruct (bool_decide_reflect (i ∈ [5; 7; 11; 12; 27; 28; 29])) as [H|H].
    + rewrite !elem_of_cons, elem_of_nil in H. lia.
    + rewrite !not_elem_of_cons in H. lia.
  - intros f n m. apply vreach_init. split; [done|]. split; [|done]. apply list.Forall_forall. intros c Hc.
    by apply list_elem_of_In, repeat_spec in Hc.
Qed.

(** A device that offers every feature and accepts what it is told. *)
Definition sample_reg (l : list (Z * Z)) (r : Z) : Z :=
  if r =? VIRTIO_MMIO_MAGIC_VALUE then 0x74726976
  else if r =? VIRTIO_MMIO_VERSION then 2
  else if r =? VIRTIO_MMIO_DEVICE_ID then 2
  else if r =? VIRTIO_MMIO_VENDOR_ID then 0x554d4551
  else if r =? VIRTIO_MMIO_DEVICE_FEATURES then 2 ^ 32 - 1
  else if r =? VIRTIO_MMIO_QUEUE_NUM_MAX then 1024
  else if r =? VIRTIO_MMIO_QUEUE_READY then (if bool_decide ((r, 1) ∈ l) then 1 else 0)
  else match list.last (filter (fun w => w.1 = r) l) with Some w => w.2 | None => 0 end.

Lemma sample_good : good_device sample_reg (2 ^ 32 - 1) 1024.
Proof.
  split; try done.
  - intros l v. change (match list.last (filter (fun w => w.1 = VIRTIO_MMIO_STATUS) (l ++ [(VIRTIO_MMIO_STATUS, v)])) with
      Some w => w.2 | None => 0 end = v). by rewrite list.filter_app, list.filter_cons_True, list.filter_nil, last_snoc.
  - intros l Hl. unfold sample_reg. cbn. by rewrite bool_decide_false.
Qed.

Lemma virtio_init_correct_witness :
  exists s, virtio_disk_init sample_reg (Some 0x87ffe000) (Some 0x87ffd000) (Some 0x87ffc000)
      (mkI [] (boot_disk [] [] 7 [] 9)) = Ret (tt, s) /\
    writes s = handshake (2 ^ 32 - 1) 0x87ffe000 0x87ffd000 0x87ffc000.
Proof.
  destruct (virtio_init_correct sample_reg (2 ^ 32 - 1) 1024 0x87ffe000 0x87ffd000 0x87ffc000 [] [] 7 [] 9
    sample_good) as (s & E & W & _); [lia|lia|]. exists s. split; [exact E|exact W].
Defined.
