(* ===== verification/Syscall.v ===== *)
(** * System call arguments, dispatch and [sbrk]: [kernel/syscall.c], [kernel/sysproc.c]

    Arguments come from the registers saved in the trap frame and from user memory, which is
    the byte memory of [Vm].  [growproc] of [proc.c] is here once more, on that memory. *)

From S2P Require Import Prelude Riscv CString Kalloc Vm VmMap VmUser VmSpace.

Definition SBRK_EAGER : Z := 1.
Definition MAXARG : nat := 32.
Definition MAXPATH : Z := 128.

(** The process of the call: its memory, and registers [a0] to [a7]. *)
Record ust := mkU { km : kmem; pagetable : Z; sz : Z; regs : list Z }.
Definition set_km k s := mkU k (pagetable s) (sz s) (regs s).
Definition set_sz z s := mkU (km s) (pagetable s) z (regs s).
Definition set_a0 v s := mkU (km s) (pagetable s) (sz s) (<[0%nat := v]> (regs s)).

Section Syscall.
Context (end_ : Z).
Abbreviation U := (M ust).

Definition onk {A} (m : M kmem A) : U A := fun s =>
  match m (km s) with
  | Ret (a, k) => Ret (a, set_km k s)
  | Panic e => Panic e
  | Undef e => Undef e
  end.

(** ** Arguments *)

(** The eight bytes [copyin] stored at [ip]. *)
Definition word_of (l : list Z) : Z := foldr (fun b r => b + 256 * r) 0 l.

Definition fetchaddr (addr : Z) : U (Z * Z) :=
  s ← get;
  if (sz s <=? addr) || (sz s <? u64 (addr + 8)) then mret (-1, 0)
  else
    r ← onk (copyin end_ (pagetable s) (sz s) (pagetable s) addr 8);
    let '(c, l) := (r : Z * list Z) in
    if c =? 0 then mret (0, word_of l) else mret (-1, 0).

(** The bytes before the first NUL. *)
Fixpoint cstr (l : list Z) : list Z := match l with [] => [] | b :: l' => if b =? 0 then [] else b :: cstr l' end.

(** [fetchstr]: its value and the bytes in [buf]. *)
Definition fetchstr (addr max : Z) : U (Z * list Z) :=
  s ← get;
  r ← onk (copyinstr (pagetable s) addr max);
  let '(c, l) := (r : Z * list Z) in
  if c <? 0 then mret (-1, l) else mret (Z.of_nat (length (cstr l)), l).

Definition argraw (n : nat) : U Z :=
  s ← get;
  if (n <? 6)%nat then mret (nth n (regs s) 0) else panic "argraw".

Definition argint (n : nat) : U Z := x ← argraw n; mret (i32 x).
Definition argaddr (n : nat) : U Z := argraw n.
Definition argstr (n : nat) (max : Z) : U (Z * list Z) := addr ← argaddr n; fetchstr addr max.

(** ** [sbrk] *)

Definition growproc (n : Z) : U Z :=
  s ← get;
  if 0 <? n then
    if TRAPFRAME <? u64 (sz s + n) then mret (-1)
    else
      z ← onk (uvmalloc end_ (pagetable s) (sz s) (u64 (sz s + n)) PTE_W);
      if z =? 0 then mret (-1) else _ ← modify (set_sz z); mret 0
  else if n <? 0 then
    z ← onk (uvmdealloc end_ (pagetable s) (sz s) (u64 (sz s + n)));
    _ ← modify (set_sz z); mret 0
  else _ ← modify (set_sz (sz s)); mret 0.

Definition sys_sbrk : U Z :=
  n ← argint 0;
  t ← argint 1;
  s ← get;
  let addr := sz s in
  if (t =? SBRK_EAGER) || (n <? 0) then
    r ← growproc n;
    if r <? 0 then mret (-1) else mret addr
  else if u64 (addr + n) <? addr then mret (-1)
  else if TRAPFRAME <? u64 (addr + n) then mret (-1)
  else _ ← modify (fun s => set_sz (u64 (sz s + n)) s); mret addr.

(** ** Dispatch *)

Inductive call :=
| Sfork | Sexit | Swait | Spipe | Sread | Skill | Sexec | Sfstat | Schdir | Sdup | Sgetpid
| Ssbrk | Spause | Suptime | Sopen | Swrite | Smknod | Sunlink | Slink | Smkdir | Sclose | Ssync.

(** The table [syscalls], by the numbers of [syscall.h]. *)
Definition syscalls : list (option call) :=
  [None; Some Sfork; Some Sexit; Some Swait; Some Spipe; Some Sread; Some Skill; Some Sexec; Some Sfstat; Some Schdir;
   Some Sdup; Some Sgetpid; Some Ssbrk; Some Spause; Some Suptime; Some Sopen; Some Swrite; Some Smknod; Some Sunlink;
   Some Slink; Some Smkdir; Some Sclose; Some Ssync].

Section Dispatch.
Context (handler : call -> U Z).
Definition syscall : U unit :=
  s ← get;
  let num := i32 (nth 7 (regs s) 0) in
  match (if (0 <? num) && (num <? Z.of_nat (length syscalls)) then nth (Z.to_nat num) syscalls None else None) with
  | Some c => r ← handler c; modify (set_a0 (u64 r))
  | None => modify (set_a0 (u64 (-1)))
  end.
End Dispatch.

(** ** The arguments of [exec] *)

(** [for (i = 0; i < NELEM(argv) && argv\[i\] != 0; i++) kfree(argv\[i\])] *)
Fixpoint free_args (l : list Z) : U unit :=
  match l with [] => mret tt | p :: l' => _ ← onk (kfree end_ p); free_args l' end.

(** The loop that fetches the arguments: the pages taken, and whether all is well.  [n] is how
    many elements of [argv] are left. *)
Fixpoint fetch_args (n : nat) (uargv : Z) (i : Z) (got : list Z) : U (list Z * bool) :=
  match n with
  | O => mret (got, false)
  | S n' =>
    r ← fetchaddr (u64 (uargv + 8 * i));
    let '(c, uarg) := (r : Z * Z) in
    if c <? 0 then mret (got, false)
    else if uarg =? 0 then mret (got, true)
    else
      p ← onk kalloc;
      if p =? 0 then mret (got, false)
      else
        r ← fetchstr uarg PGSIZE;
        let '(c, l) := (r : Z * list Z) in
        _ ← onk (write_bytes p l);
        if c <? 0 then mret (got ++ [p], false) else fetch_args n' uargv (i + 1) (got ++ [p])
  end.

Definition sys_exec (kexec : list Z -> list Z -> U Z) : U Z :=
  uargv ← argaddr 1;
  r ← argstr 0 MAXPATH;
  let '(c, path) := (r : Z * list Z) in
  if c <? 0 then mret (-1)
  else
    r ← fetch_args MAXARG uargv 0 [];
    let '(argv, ok) := (r : list Z * bool) in
    if (ok : bool) then ret ← kexec (cstr path) argv; _ ← free_args argv; mret ret
    else _ ← free_args argv; mret (-1).
End Syscall.

(** ** Strings from user memory *)

Lemma take_str_found s : forall n m p, (forall i b, (s ++ [0]) !! i = Some b -> m (p + Z.of_nat i) = b) ->
  Forall (fun b => b <> 0) s -> (length s < n)%nat -> take_str n m p = (s ++ [0], true).
Proof.
  induction s as [|b s IH]; intros n m p Hm Hs Hn; (destruct n as [|n]; [cbn in Hn; lia|]); cbn [take_str].
  - pose proof (Hm 0%nat 0 eq_refl) as E. rewrite Z.add_0_r in E. by rewrite E.
  - apply list.Forall_cons in Hs as [Hb Hs]. pose proof (Hm 0%nat b eq_refl) as E. rewrite Z.add_0_r in E. rewrite E.
    rewrite (proj2 (Z.eqb_neq b 0)) by done. rewrite (IH n m (p + 1)); [done| |done|cbn in Hn; lia].
    intros i c Hi. rewrite <- (Hm (S i) c Hi). f_equal. lia.
Qed.

Section Strings.
Context (end_ : Z) (k : kmem) (l : list Z) (root : Z) (w : bool).

(** User memory from [va] on holds [s]. *)
Definition holds (va : Z) (s : list Z) : Prop :=
  user_range end_ k l root w va (Z.of_nat (length s)) /\ user_bytes (kmemory k) root va (length s) = s.

Lemma holds_byte va s i b : holds va s -> s !! i = Some b -> kmemory k (phys (kmemory k) root (va + Z.of_nat i)) = b.
Proof.
  intros [_ E] Hi. pose proof (lookup_lt_Some _ _ _ Hi) as Hl. rewrite <- E in Hi. unfold user_bytes in Hi.
  rewrite list_lookup_fmap, lookup_seq_lt in Hi by done. cbn in Hi. by injection Hi.
Qed.

Lemma holds_drop va s n : holds va s -> (n <= length s)%nat -> holds (va + Z.of_nat n) (drop n s).
Proof.
  intros [H E] Hn. split.
  - rewrite length_drop, Nat2Z.inj_sub by done. apply user_range_tail; [done|lia].
  - rewrite length_drop. replace (length s) with (n + (length s - n))%nat in E by lia. rewrite user_bytes_app in E.
    apply (f_equal (drop n)) in E. rewrite drop_app_ge in E by (unfold user_bytes; rewrite length_map, length_seq; lia).
    unfold user_bytes in E at 1. rewrite length_map, length_seq, Nat.sub_diag in E. exact E.
Qed.

Lemma holds_take va s n : holds va s -> holds va (take n s).
Proof.
  intros [[H1 H2 H3] E]. rewrite <- (take_drop n s) in E at 1. rewrite length_app, user_bytes_app in E.
  assert (length (take n s) <= length s)%nat as Hle by (rewrite length_take; lia). split.
  - split; [lia|intros v Hv; apply H2; lia|intros v v' Hv Hv'; apply H3; lia].
  - rewrite <- (take_drop n s) in E at 4. apply app_inj_1 in E as [E _]; [done|]. unfold user_bytes. by rewrite length_map, length_seq.
Qed.

(** The part of [s] on the first page. *)
Lemma page_bytes va s : holds va s -> forall i b, s !! i = Some b -> va mod PGSIZE + Z.of_nat i < PGSIZE ->
  kmemory k (PTE2PA (pteval (kmemory k) root va) + va mod PGSIZE + Z.of_nat i) = b.
Proof. intros H i b Hi Hp. rewrite <- phys_add by lia. by eapply holds_byte. Qed.

Lemma walk_page va s : holds va s -> s <> [] ->
  walkaddr root (PGROUNDDOWN va) k = Ret (PTE2PA (pteval (kmemory k) root va), k) /\ PTE2PA (pteval (kmemory k) root va) <> 0 /\
  va - PGROUNDDOWN va = va mod PGSIZE /\ PGROUNDDOWN va + PGSIZE = va + (PGSIZE - va mod PGSIZE).
Proof.
  intros [[H1 H2 _] _] Hs. assert (0 < Z.of_nat (length s)) as Hl by (destruct s; [done|cbn; lia]).
  destruct (page_base va ltac:(lia)) as (B1 & B2 & B3). destruct (H2 va ltac:(lia)) as (F1 & F2 & _ & ((_ & _ & F3) & _)).
  rewrite walkaddr_spec by done. rewrite (pteval_same _ _ _ _ B2). cbv zeta. rewrite F1, F2. cbn [andb]. split; [done|]. lia.
Qed.

(** [copyinstr] finds the string, across page boundaries. *)
Lemma copyinstr_found fuel : forall va s max got, holds va (s ++ [0]) -> Forall (fun b => b <> 0) s ->
  Z.of_nat (length s) < max <= Z.of_nat fuel ->
  copyinstr_loop fuel root va max got k = Ret ((0, got ++ s ++ [0]), k).
Proof.
  induction fuel as [|fuel IH]; intros va s max got Hh Hs Hm; [lia|]. cbn [copyinstr_loop].
  rewrite (proj2 (Z.ltb_lt 0 max)) by lia. cbv zeta.
  destruct (walk_page va (s ++ [0]) Hh ltac:(by destruct s)) as (Ew & Np & Ed & En). rewrite (M_bind_Ret _ _ _ _ _ Ew).
  rewrite (proj2 (Z.eqb_neq _ _) Np), Ed. pose proof (Z.mod_pos_bound va PGSIZE ltac:(done)) as Hb.
  set (n := Z.min (PGSIZE - va mod PGSIZE) max). set (pa := PTE2PA (pteval (kmemory k) root va)) in *.
  destruct (Z.lt_ge_cases (Z.of_nat (length s)) n) as [Hlt|Hge].
  - rewrite (M_bind_Ret _ _ k (s ++ [0], true) k); [done|]. unfold gets. do 2 f_equal. apply take_str_found; [|done|lia].
    intros i b Hi. apply (page_bytes va (s ++ [0]) Hh i b Hi). apply lookup_lt_Some in Hi. rewrite length_app in Hi. cbn in Hi. lia.
  - set (j := Z.to_nat n). assert (n = PGSIZE - va mod PGSIZE /\ (j <= length s)%nat) as [En' Hj] by lia.
    rewrite (M_bind_Ret _ _ k (take j s, false) k).
    2:{ unfold gets. do 2 f_equal. fold j. replace j with (length (take j s)) at 1 by (rewrite length_take; lia).
        apply take_str_none; [|by apply Forall_take]. intros i b Hi.
        apply lookup_take_Some in Hi as [Hi Hij]. apply (page_bytes va (s ++ [0]) Hh); [by apply lookup_app_l_Some|lia]. }
    replace (PGROUNDDOWN va + PGSIZE) with (va + Z.of_nat j) by lia.
    rewrite (IH (va + Z.of_nat j) (drop j s)); [|..|by apply Forall_drop|rewrite length_drop; lia].
    + f_equal. f_equal. f_equal. by rewrite <- app_assoc, (app_assoc (take j s)), take_drop.
    + rewrite <- drop_app_le by done. apply holds_drop; [done|]. rewrite length_app. lia.
Qed.

(** Without a NUL in the first [max] bytes it fails. *)
Lemma copyinstr_unterminated fuel : forall va s max got, holds va s -> Forall (fun b => b <> 0) s ->
  Z.of_nat (length s) = max -> max <= Z.of_nat fuel ->
  copyinstr_loop fuel root va max got k = Ret ((-1, got ++ s), k).
Proof.
  induction fuel as [|fuel IH]; intros va s max got Hh Hs Hm Hf.
  { assert (s = []) as -> by (destruct s; [done|cbn in Hm; lia]). cbn in Hm. subst max. cbn. by rewrite app_nil_r. }
  cbn [copyinstr_loop]. destruct (Z.ltb_spec 0 max) as [Hpos|Hneg].
  2:{ assert (s = []) as -> by (destruct s; [done|cbn in Hm; lia]). by rewrite app_nil_r. }
  cbv zeta. assert (s <> []) as Hne by (intros ->; cbn in Hm; lia).
  destruct (walk_page va s Hh Hne) as (Ew & Np & Ed & En). rewrite (M_bind_Ret _ _ _ _ _ Ew).
  rewrite (proj2 (Z.eqb_neq _ _) Np), Ed. pose proof (Z.mod_pos_bound va PGSIZE ltac:(done)) as Hb.
  set (n := Z.min (PGSIZE - va mod PGSIZE) max). set (j := Z.to_nat n).
  rewrite (M_bind_Ret _ _ k (take j s, false) k).
  2:{ unfold gets. do 2 f_equal. fold j. replace j with (length (take j s)) at 1 by (rewrite length_take; lia).
      apply take_str_none; [|by apply Forall_take]. intros i b Hi.
      apply lookup_take_Some in Hi as [Hi Hij]. apply (page_bytes va s Hh); [done|lia]. }
  destruct (decide (j = length s)) as [Ej|Nj].
  - rewrite take_ge by lia. replace (max - n) with 0 by lia. destruct fuel; cbn; done.
  - replace (PGROUNDDOWN va + PGSIZE) with (va + Z.of_nat j) by lia.
    rewrite (IH (va + Z.of_nat j) (drop j s)); [|apply holds_drop; [done|lia]|by apply Forall_drop|rewrite length_drop; lia|lia].
    by rewrite <- app_assoc, take_drop.
Qed.
End Strings.

Lemma cstr_found s r : Forall (fun b => b <> 0) s -> cstr (s ++ 0 :: r) = s.
Proof. induction 1 as [|b s Hb _ IH]; [done|]. cbn. rewrite (proj2 (Z.eqb_neq b 0)) by done. by rewrite IH. Qed.

Lemma onk_run {A} (m : M kmem A) s a k : m (km s) = Ret (a, k) -> onk m s = Ret (a, set_km k s).
Proof. intros E. unfold onk. by rewrite E. Qed.
Lemma set_km_id s : set_km (km s) s = s.
Proof. by destruct s. Qed.

(** ** Address spaces of processes *)

(** Below its size a process owns the pages that are mapped, each once; above, up to the trap
    frame, nothing is mapped. *)
Record proc_ok (end_ : Z) (s : ust) (l : list Z) : Prop := {
  po_pt : PT end_ (km s) l (pagetable s);
  po_sz : 0 <= sz s <= TRAPFRAME;
  po_owns : owns end_ (km s) l (pagetable s) 0 (PGROUNDUP (sz s));
  po_above : forall va, PGROUNDUP (sz s) <= va < TRAPFRAME -> has (pteval (kmemory (km s)) (pagetable s) va) PTE_V = false
}.

(** Below [hi] the entries and the contents of the pages are as before. *)
Definition same_below (k k' : kmem) (root hi : Z) : Prop := forall va, 0 <= va < hi ->
  pteval (kmemory k') root va = pteval (kmemory k) root va /\
  (has (pteval (kmemory k) root va) PTE_V = true -> agree (kmemory k) (kmemory k') (PTE2PA (pteval (kmemory k) root va))).

(** Page [x] is mapped below the size of the process. *)
Definition in_memory (s : ust) (x : Z) : Prop := exists va, 0 <= va < PGROUNDUP (sz s) /\
  has (pteval (kmemory (km s)) (pagetable s) va) PTE_V = true /\ PTE2PA (pteval (kmemory (km s)) (pagetable s) va) = x.

(** No page is lost: each that was free, a page table or memory of the process still is one of these. *)
Definition accounted (s s' : ust) (l l' : list Z) : Prop := forall x,
  x ∈ l \/ is_table (kmemory (km s)) (pagetable s) x \/ in_memory s x ->
  x ∈ l' \/ is_table (kmemory (km s')) (pagetable s') x \/ in_memory s' x.

(** The process is as before, except that free pages may have become page tables. *)
Definition undone (end_ : Z) (s s' : ust) (l l' : list Z) : Prop :=
  sz s' = sz s /\ (forall x, x ∈ l' -> x ∈ l) /\
  (forall x, x ∈ l \/ is_table (kmemory (km s)) (pagetable s) x -> x ∈ l' \/ is_table (kmemory (km s')) (pagetable s) x) /\
  (forall va, 0 <= va < TRAPFRAME -> let e := pteval (kmemory (km s)) (pagetable s) va in
     let e' := pteval (kmemory (km s')) (pagetable s) va in has e' PTE_V = has e PTE_V /\ (has e PTE_V = true -> e' = e)) /\
  (forall d, page end_ d -> d ∉ l -> ~ is_table (kmemory (km s)) (pagetable s) d -> agree (kmemory (km s)) (kmemory (km s')) d).

Lemma accounted_refl s l : accounted s s l l.
Proof. by intros x. Qed.
Lemma undone_refl end_ s l : undone end_ s s l l.
Proof. by split_and!. Qed.

(** Page [i] of a range is among its pages. *)
Lemma upages_mem m root n : forall va i, (i < n)%nat -> let v := va + Z.of_nat i * PGSIZE in
  has (pteval m root v) PTE_V = true -> PTE2PA (pteval m root v) ∈ upages m root va n.
Proof.
  induction n as [|n IH]; intros va i Hi v Hv; [lia|]. cbn [upages]. apply elem_of_app. destruct i as [|i].
  - left. unfold v in *. rewrite Z.mul_0_l, Z.add_0_r in *. rewrite Hv. by apply list_elem_of_singleton.
  - right. assert (v = va + PGSIZE + Z.of_nat i * PGSIZE) as Ev by (unfold v; lia). rewrite Ev in *. apply IH; [lia|done].
Qed.

Lemma TRAPFRAME_val : TRAPFRAME = 2 ^ 38 - 2 * PGSIZE.
Proof. reflexivity. Qed.

Lemma round_trapframe x : 0 <= x <= TRAPFRAME -> x <= PGROUNDUP x <= TRAPFRAME /\ PGROUNDUP x mod PGSIZE = 0.
Proof.
  rewrite TRAPFRAME_val. intros H. destruct (PGROUNDUP_spec x ltac:(unfold PGSIZE in *; lia)) as [A B].
  split; [|done]. apply aligned_div in A. unfold PGSIZE in *. lia.
Qed.

Lemma round_mono x y : 0 <= x <= y -> y <= TRAPFRAME -> PGROUNDUP x <= PGROUNDUP y.
Proof.
  intros H Hy. destruct (round_trapframe x ltac:(lia)) as [A1 A2]. destruct (round_trapframe y ltac:(lia)) as [B1 B2].
  rewrite TRAPFRAME_val in *. destruct (PGROUNDUP_spec x ltac:(unfold PGSIZE in *; lia)) as [_ C].
  apply aligned_div in A2, B2. unfold PGSIZE in *. lia.
Qed.

Lemma RWU_range : 0 <= Z.lor (Z.lor PTE_R PTE_U) PTE_W < 1024.
Proof. vm_compute. split; congruence. Qed.

Section Grow.
Context (end_ : Z).

(** Entries and pages below [lo] are kept. *)
Lemma kept_below k k' l l' root lo : owns end_ k l root 0 lo ->
  (forall va, 0 <= va < lo -> pteval (kmemory k') root va = pteval (kmemory k) root va) ->
  (forall va, 0 <= va < lo -> let d := PTE2PA (pteval (kmemory k) root va) in has (pteval (kmemory k) root va) PTE_V = true ->
    data_page end_ k l root d -> data_page end_ k' l' root d /\ agree (kmemory k) (kmemory k') d) ->
  owns end_ k' l' root 0 lo /\ same_below k k' root lo.
Proof.
  intros [O1 O2] Hold Hkeep. split; [split|].
  - intros va Hva e He. unfold e in He |- *. rewrite (Hold va Hva) in He |- *. apply Hkeep; [done..|]. by apply O1.
  - intros va va' Hva Hva'. rewrite (Hold va Hva), (Hold va' Hva'). by apply O2.
  - intros va Hva. split; [by apply Hold|]. intros Hv. apply Hkeep; [done..|]. by apply O1.
Qed.

Lemma grow_ok s l k' l' n : proc_ok end_ s l -> 0 < n -> sz s + n <= TRAPFRAME ->
  grown end_ (km s) k' l l' (pagetable s) (PGROUNDUP (sz s)) (PGROUNDUP (sz s + n)) (Z.lor (Z.lor PTE_R PTE_U) PTE_W) ->
  proc_ok end_ (set_sz (sz s + n) (set_km k' s)) l' /\ same_below (km s) k' (pagetable s) (PGROUNDUP (sz s)) /\
  accounted s (set_sz (sz s + n) (set_km k' s)) l l'.
Proof.
  intros [P1 P2 P3 P4] Hn Ht [G1 G2 G3 G4 [W1 W2] G6 G7]. set (k := km s) in *. set (root := pagetable s) in *.
  destruct (round_trapframe (sz s) P2) as [[R1 R1'] R2]. destruct (round_trapframe (sz s + n) ltac:(lia)) as [[R3 R3'] R4].
  pose proof (round_mono (sz s) (sz s + n) ltac:(lia) ltac:(lia)) as Hmono.
  set (lo := PGROUNDUP (sz s)) in *. set (hi := PGROUNDUP (sz s + n)) in *.
  assert (TRAPFRAME < MAXVA) as Htm by (rewrite TRAPFRAME_val, MAXVA_val; unfold PGSIZE; lia).
  assert (forall va, 0 <= va < lo -> pteval (kmemory k') root va = pteval (kmemory k) root va) as Hold by (intros; apply G3; lia).
  destruct (kept_below k k' l l' root lo P3 Hold) as [[K1 K2] Ks].
  { intros va Hva d Hv Hd. by apply (data_kept end_ k k' l l'). }
  assert (forall va va', 0 <= va < lo -> lo <= va' < hi -> has (pteval (kmemory k) root va) PTE_V = true ->
    PTE2PA (pteval (kmemory k) root va) <> PTE2PA (pteval (kmemory k') root va')) as Hne.
  { intros va va' Hva Hva' Hv. destruct (G4 va' Hva') as (p & Hp & -> & Hd & _).
    rewrite (proj1 (entry_parts end_ p (Z.lor (Z.lor PTE_R PTE_U) PTE_W) (proj1 Hd) RWU_range)). intros E.
    destruct (ow_page _ _ _ _ _ _ P3 va Hva Hv) as (_ & Hn' & _). cbv zeta in Hn'. rewrite E in Hn'. exact (Hn' Hp). }
  split; [split; cbn [km set_sz set_km pagetable sz]; fold root; fold hi; [done|lia| |]|split; [done|]].
  3:{ unfold accounted, in_memory. cbn [km set_sz set_km pagetable sz]. fold root k hi lo. intros x Hx.
      assert (x ∈ l \/ is_table (kmemory k) root x -> x ∈ l' \/ is_table (kmemory k') root x \/
        exists va, 0 <= va < hi /\ has (pteval (kmemory k') root va) PTE_V = true /\ PTE2PA (pteval (kmemory k') root va) = x) as HA.
      { intros [A|[A|(va & Hva & A)]]%G7; [by left|by right; left|]. right; right. exists va.
        split; [lia|]. split; [|done]. destruct (G4 va Hva) as (p & Hp & -> & Hd & _).
        apply (entry_parts end_ p _ (proj1 Hd) RWU_range). }
      destruct Hx as [Hx|[Hx|(va & Hva & Hv & Ex)]]; [by apply HA; left|by apply HA; right|].
      right; right. exists va. rewrite Hold by done. split; [lia|done]. }
  - split; [intros va Hva|intros va va' Hva Hva' V1 V2 E].
    + destruct (Z.lt_ge_cases va lo); [apply K1|apply W1]; lia.
    + destruct (Z.lt_ge_cases va lo) as [A|A], (Z.lt_ge_cases va' lo) as [B|B].
      * apply K2; [lia|lia|done..].
      * rewrite (Hold va) in V1, E by lia. destruct (Hne va va'); [lia|lia|done..].
      * rewrite (Hold va') in V2, E by lia. destruct (Hne va' va); [lia|lia|done|]. by symmetry.
      * apply W2; [lia|lia|done..].
  - intros va Hva. rewrite G3 by lia. apply P4. lia.
Qed.

Lemma restore_ok s l k' l' hi : proc_ok end_ s l -> PGROUNDUP (sz s) <= hi <= TRAPFRAME ->
  restored end_ (km s) k' l l' (pagetable s) (PGROUNDUP (sz s)) hi ->
  proc_ok end_ (set_km k' s) l' /\ same_below (km s) k' (pagetable s) (PGROUNDUP (sz s)) /\
  undone end_ s (set_km k' s) l l'.
Proof.
  intros [P1 P2 P3 P4] Hhi [R1 R2 R3 R4 R5 R6]. destruct (round_trapframe (sz s) P2) as [[A1 A1'] A2].
  assert (TRAPFRAME < MAXVA) as Htm by (rewrite TRAPFRAME_val, MAXVA_val; unfold PGSIZE; lia).
  destruct (kept_below (km s) k' l l' (pagetable s) (PGROUNDUP (sz s)) P3) as [K1 K2].
  - intros va Hva. apply R3; lia.
  - intros va Hva d Hv Hd. by apply (data_kept end_ (km s) k' l l').
  - split; [split|split; [done|]]; try done.
    + cbn [km set_km pagetable sz]. intros va Hva.
      destruct (Z.lt_ge_cases va hi); [apply R4; lia|]. rewrite R3 by lia. apply P4. lia.
    + split; [done|]. split; [done|]. split; [done|]. split; [|intros d D1 D2 D3; by apply R5]. intros va Hva. cbv zeta. cbn [km set_km].
      destruct (Z.lt_ge_cases va (PGROUNDUP (sz s))); [by rewrite R3 by lia|].
      destruct (Z.lt_ge_cases va hi); [|by rewrite R3 by lia]. rewrite (R4 va) by lia. by rewrite (P4 va) by lia.
Qed.

Lemma shrink_ok s l new : proc_ok end_ s l -> 0 <= new < sz s ->
  exists k' l', uvmdealloc end_ (pagetable s) (sz s) new (km s) = Ret (new, k') /\
    proc_ok end_ (set_sz new (set_km k' s)) l' /\ same_below (km s) k' (pagetable s) (PGROUNDUP new) /\
    accounted s (set_sz new (set_km k' s)) l l' /\
    (forall va, PGROUNDUP new <= va < PGROUNDUP (sz s) -> has (pteval (kmemory (km s)) (pagetable s) va) PTE_V = true ->
       PTE2PA (pteval (kmemory (km s)) (pagetable s) va) ∈ l').
Proof.
  intros [P1 P2 P3 P4] Hn. pose proof P3 as [O1 O2]. set (k := km s) in *. set (root := pagetable s) in *.
  destruct (round_trapframe (sz s) P2) as [[R1 R1'] R2]. destruct (round_trapframe new ltac:(lia)) as [[R3 R3'] R4].
  pose proof (round_mono new (sz s) ltac:(lia) ltac:(lia)) as Hmono.
  set (hi := PGROUNDUP (sz s)) in *. set (lo := PGROUNDUP new) in *.
  assert (TRAPFRAME < MAXVA) as Htm by (rewrite TRAPFRAME_val, MAXVA_val; unfold PGSIZE; lia).
  unfold uvmdealloc. rewrite (proj2 (Z.leb_gt _ _)) by lia. fold hi lo. set (n := Z.to_nat ((hi - lo) / PGSIZE)).
  assert (lo + Z.of_nat n * PGSIZE = hi) as En by (apply pages_between; [lia|done|done]).
  destruct (upages_owns end_ k l root n lo R4) as [U1 U2].
  { rewrite En. split; [intros va Hva; apply O1; lia|intros va va' Hva Hva'; apply O2; lia]. }
  destruct (unmap_loop_spec end_ true n k l root lo P1 ltac:(lia) ltac:(lia) R4 U1 U2) as (k2 & E & [V1 V2 V3 V4]).
  set (f := upages (kmemory k) root lo n) in *. exists k2, (rev f ++ l). split.
  { destruct (Z.ltb_spec lo hi) as [Hlt|Hge].
    - unfold uvmunmap. rewrite (proj2 (Z.eqb_eq _ _) R4). cbn [negb].
      rewrite (M_bind_Ret _ _ k tt k2); [done|]. by rewrite (M_bind_Ret _ _ k tt k).
    - assert (n = 0%nat) as En0 by (unfold PGSIZE in *; lia). rewrite En0 in E. by injection E as <-. }
  assert (forall va, 0 <= va < lo -> pteval (kmemory k2) root va = pteval (kmemory k) root va) as Hold.
  { intros va Hva. rewrite V2 by lia. by rewrite (proj2 (Z.leb_gt lo va)) by lia. }
  assert (forall va, 0 <= va < lo -> has (pteval (kmemory k) root va) PTE_V = true ->
    PTE2PA (pteval (kmemory k) root va) ∉ f) as Hnf.
  { intros va Hva Hv Hin. apply upages_elem in Hin as (i & Hi & V & Ei). cbv zeta in *.
    set (va' := lo + Z.of_nat i * PGSIZE) in *. assert (lo <= va' < hi) as Hva' by (unfold va', PGSIZE in *; lia).
    assert (same_page va' va = true) as Es by (apply (O2 va' va); [lia|lia|done..]).
    apply Z.eqb_eq in Es. apply aligned_div in R4. assert (va' / PGSIZE = lo / PGSIZE + Z.of_nat i) as E'.
    { unfold va'. by rewrite Z.div_add. }
    assert (va / PGSIZE < lo / PGSIZE); [|lia]. apply Z.div_lt_upper_bound; [done|]. unfold PGSIZE in *. lia. }
  destruct (kept_below k k2 l (rev f ++ l) root lo) as [K1 K2]; [|done| |].
  - split; [intros va Hva; apply O1; lia|intros va va' Hva Hva'; apply O2; lia].
  - intros va Hva d Hv (D1 & D2 & D3). pose proof (Hnf va Hva Hv) as Hf. split; [|by apply V4].
    split; [done|]. split; [|by rewrite V3]. rewrite elem_of_app. intros [Hx|Hx]; [|done].
    apply Hf. by rewrite list_elem_of_In, <- in_rev, <- list_elem_of_In in Hx.
  - assert (forall va, lo <= va < hi -> has (pteval (kmemory k) root va) PTE_V = true -> PTE2PA (pteval (kmemory k) root va) ∈ rev f ++ l) as Hfr.
    { intros va Hva Hv. apply elem_of_app. left. rewrite list_elem_of_In, <- in_rev, <- list_elem_of_In.
      set (i := Z.to_nat ((va - lo) / PGSIZE)). assert (lo + Z.of_nat i * PGSIZE <= va < lo + Z.of_nat i * PGSIZE + PGSIZE) as Hi.
      { unfold i. rewrite Z2Nat.id by (apply Z.div_pos; [lia|done]). pose proof (Z.div_mod (va - lo) PGSIZE ltac:(done)).
        pose proof (Z.mod_pos_bound (va - lo) PGSIZE ltac:(done)). lia. }
      assert (same_page (lo + Z.of_nat i * PGSIZE) va = true) as Es.
      { apply Z.eqb_eq. apply aligned_div in R4. rewrite Z.div_add by done.
        apply (Z.div_unique va PGSIZE _ (va - (lo + Z.of_nat i * PGSIZE))); unfold PGSIZE in *; lia. }
      rewrite <- (pteval_same _ _ _ _ Es) in Hv |- *. apply upages_mem; [|done]. unfold PGSIZE in *. lia. }
    split; [split; cbn [km set_sz set_km pagetable sz]; fold root; fold lo; [done|lia|done|]|split; [done|]; split; [|done]].
    2:{ unfold accounted, in_memory. cbn [km set_sz set_km pagetable sz]. fold root k hi lo. intros x [Hx|[Hx|(va & Hva & Hv & <-)]].
        - left. apply elem_of_app. by right.
        - right; left. by rewrite V3.
        - destruct (Z.lt_ge_cases va lo); [|left; apply Hfr; [lia|done]]. right; right. exists va. rewrite Hold by lia. split; [lia|done]. }
    intros va Hva. rewrite V2 by lia. rewrite En. destruct (Z.leb_spec lo va), (Z.ltb_spec va hi); cbn [andb]; try lia.
    + by destruct (has (pteval (kmemory k) root va) PTE_V) eqn:Eh.
    + apply P4. lia.
Qed.
End Grow.

(** ** Theorems *)

Section Sbrk.
Context (end_ : Z).

(** What [growproc] does to a process: its value, size and memory afterwards. *)
Definition resized (s s' : ust) (l l' : list Z) : Prop :=
  proc_ok end_ s' l' /\ regs s' = regs s /\ pagetable s' = pagetable s /\
  same_below (km s) (km s') (pagetable s) (PGROUNDUP (Z.min (sz s) (sz s'))).

(** The pages between the two sizes are new, cleared ones. *)
Definition new_pages (s s' : ust) (l : list Z) : Prop :=
  forall va, PGROUNDUP (sz s) <= va < PGROUNDUP (sz s') -> exists p, p ∈ l /\
    pteval (kmemory (km s')) (pagetable s) va = entry p (Z.lor (Z.lor PTE_R PTE_U) PTE_W) /\
    forall a, p <= a < p + PGSIZE -> kmemory (km s') a = 0.

(** The pages above the new size are free. *)
Definition given_back (s s' : ust) (l' : list Z) : Prop :=
  forall va, PGROUNDUP (sz s') <= va < PGROUNDUP (sz s) -> has (pteval (kmemory (km s)) (pagetable s) va) PTE_V = true ->
    PTE2PA (pteval (kmemory (km s)) (pagetable s) va) ∈ l'.

Lemma same_below_refl k root hi : same_below k k root hi.
Proof. by split. Qed.

Lemma resized_refl s l : proc_ok end_ s l -> resized s s l l.
Proof. intros H. split; [done|]. split; [done|]. split; [done|]. apply same_below_refl. Qed.

Lemma growproc_run s l n : proc_ok end_ s l -> -2 ^ 31 <= n < 2 ^ 31 ->
  exists r s' l', growproc end_ n s = Ret (r, s') /\ resized s s' l l' /\
    ((r = -1 /\ 0 < n /\ undone end_ s s' l l' /\ (TRAPFRAME < sz s + n -> s' = s)) \/
     (r = 0 /\ sz s' = (if sz s + n <? 0 then sz s else sz s + n) /\ new_pages s s' l /\ accounted s s' l l' /\
      (0 <= sz s + n -> given_back s s' l'))).
Proof.
  intros HP Hn. pose proof (po_sz _ _ _ HP) as Hs. pose proof TRAPFRAME_val as Et. unfold PGSIZE in Et.
  unfold growproc. rewrite (M_bind_Ret _ _ s s s) by done.
  destruct (Z.ltb_spec 0 n) as [Hpos|Hneg]; [|destruct (Z.ltb_spec n 0) as [Hlt|Hz]].
  - rewrite (wrap_small 64 (sz s + n)) by lia. destruct (Z.ltb_spec TRAPFRAME (sz s + n)) as [Hbig|Hfit].
    { exists (-1), s, l. split; [done|]. split; [by apply resized_refl|]. left. split; [done|]. split; [done|]. split; [apply undone_refl|done]. }
    destruct (uvmalloc_correct end_ (km s) l (pagetable s) (sz s) (sz s + n) PTE_W) as (r & k' & l' & E & Hr);
      [apply HP|lia|lia|apply RWU_range|intros va Hva; apply HP; pose proof (round_trapframe (sz s + n) ltac:(lia)); lia|].
    rewrite (M_bind_Ret _ _ _ _ _ (onk_run _ s _ _ E)). destruct Hr as [(-> & G & _)|(-> & _ & hi & Hhi & R)].
    + rewrite (proj2 (Z.eqb_neq _ _)) by lia. destruct (grow_ok end_ s l k' l' n HP ltac:(lia) ltac:(lia) G) as (K1 & K2 & K3).
      exists 0, (set_sz (sz s + n) (set_km k' s)), l'. split; [done|]. split.
      * split; [done|]. split; [done|]. split; [done|]. cbn [sz set_sz set_km km]. by rewrite Z.min_l by lia.
      * right. split; [done|]. cbn [sz set_sz]. rewrite (proj2 (Z.ltb_ge _ _)) by lia. split; [done|].
        split; [intros va Hva; destruct (gr_new _ _ _ _ _ _ _ _ _ G va Hva) as (p & A & B & _ & C); by exists p|].
        split; [done|]. intros _ va Hva. cbn [sz set_sz] in Hva. pose proof (round_mono (sz s) (sz s + n) ltac:(lia) ltac:(lia)). lia.
    + pose proof (round_trapframe (sz s + n) ltac:(lia)). destruct (restore_ok end_ s l k' l' hi HP ltac:(lia) R) as (K1 & K2 & K3).
      exists (-1), (set_km k' s), l'. split; [done|]. split; [|left; split; [done|]; split; [lia|]; split; [done|lia]]. split; [done|]. split; [done|]. split; [done|].
      cbn [sz set_km km]. by rewrite Z.min_id.
  - destruct (Z.ltb_spec (sz s + n) 0) as [Hun|Hok].
    + exists 0, s, l. assert (u64 (sz s + n) = sz s + n + 2 ^ 64) as ->.
      { unfold wrap. rewrite <- (Z.mod_add _ 1), Z.mul_1_l by lia. apply Z.mod_small. lia. }
      unfold uvmdealloc. rewrite (proj2 (Z.leb_le _ _)) by lia. rewrite (M_bind_Ret _ _ s (sz s) s).
      2:{ rewrite (onk_run _ s (sz s) (km s)) by done. by rewrite set_km_id. }
      split; [by destruct s|]. split; [by apply resized_refl|]. right. split; [done|]. split; [done|].
      split; [intros va Hva; lia|]. split; [apply accounted_refl|lia].
    + rewrite (wrap_small 64 (sz s + n)) by lia. destruct (shrink_ok end_ s l (sz s + n) HP) as (k' & l' & E & K1 & K2 & K3 & K4); [lia|].
      rewrite (M_bind_Ret _ _ _ _ _ (onk_run _ s _ _ E)). exists 0, (set_sz (sz s + n) (set_km k' s)), l'. split; [done|].
      split; [split; [done|]; split; [done|]; split; [done|]; cbn [sz set_sz set_km km]; by rewrite Z.min_r by lia|].
      right. split; [done|]. split; [done|]. split; [|split; [done|intros _; exact K4]]. intros va Hva. cbn [sz set_sz] in Hva.
      pose proof (round_mono (sz s + n) (sz s) ltac:(lia) ltac:(lia)). lia.
  - assert (n = 0) as -> by lia. exists 0, s, l. split; [by destruct s|]. split; [by apply resized_refl|]. right.
    split; [done|]. rewrite Z.add_0_r, (proj2 (Z.ltb_ge _ _)) by lia. split; [done|].
    split; [intros va Hva; lia|]. split; [apply accounted_refl|intros _ va Hva; lia].
Qed.
(** Lazy growth. *)
Lemma lazy_ok s l n : proc_ok end_ s l -> 0 <= n -> sz s + n <= TRAPFRAME -> proc_ok end_ (set_sz (sz s + n) s) l.
Proof.
  intros [P1 P2 [O1 O2] P4] Hn Ht. destruct (round_trapframe (sz s + n) ltac:(lia)) as [[A1 A2] _].
  pose proof (round_mono (sz s) (sz s + n) ltac:(lia) ltac:(lia)) as Hm.
  assert (forall va, 0 <= va < PGROUNDUP (sz s + n) -> has (pteval (kmemory (km s)) (pagetable s) va) PTE_V = true ->
    0 <= va < PGROUNDUP (sz s)) as Hlow.
  { intros va Hva Hv. destruct (Z.lt_ge_cases va (PGROUNDUP (sz s))); [lia|]. by rewrite P4 in Hv by lia. }
  split; cbn [km set_sz pagetable sz]; [done|lia| |intros va Hva; apply P4; lia].
  split; [intros va Hva e He; by apply O1; [apply Hlow|]|].
  intros va va' Hva Hva' V1 V2. apply O2; [by apply Hlow..|done|done].
Qed.
End Sbrk.

Lemma swrap_range w x : 0 < w -> -2 ^ (w - 1) <= swrap w x < 2 ^ (w - 1).
Proof.
  intros Hw. unfold swrap. assert (2 ^ w = 2 * 2 ^ (w - 1)) as E by (rewrite <- Z.pow_succ_r by lia; f_equal; lia).
  pose proof (Z.mod_pos_bound x (2 ^ w) ltac:(lia)). cbv zeta. destruct (Z.ltb_spec (x mod 2 ^ w) (2 ^ (w - 1))); lia.
Qed.

Lemma argraw_run n s x : (n < 6)%nat -> regs s !! n = Some x -> argraw n s = Ret (x, s).
Proof.
  intros H Hx. unfold argraw. rewrite (M_bind_Ret _ _ s s s) by done. rewrite (proj2 (Nat.ltb_lt _ _) H).
  by rewrite (nth_lookup_Some _ _ _ _ Hx).
Qed.

Lemma argint_run n s : (n < 6)%nat -> argint n s = Ret (i32 (nth n (regs s) 0), s).
Proof.
  intros H. unfold argint. rewrite (M_bind_Ret _ _ s (nth n (regs s) 0) s); [done|].
  unfold argraw. rewrite (M_bind_Ret _ _ s s s) by done. by rewrite (proj2 (Nat.ltb_lt _ _) H).
Qed.


(** A process that gives back more than it has keeps all of it, and [sbrk] reports success. *)
Theorem sbrk_overshrinks end_ s l : proc_ok end_ s l -> sz s + i32 (nth 0 (regs s) 0) < 0 -> sys_sbrk end_ s = Ret (sz s, s).
Proof.
  intros HP Hun. pose proof (po_sz _ _ _ HP) as Hs. pose proof TRAPFRAME_val as Et. unfold PGSIZE in Et.
  pose proof (swrap_range 32 (nth 0 (regs s) 0) ltac:(lia)) as Hn. change (2 ^ (32 - 1)) with (2 ^ 31) in Hn. set (n := i32 _) in *.
  unfold sys_sbrk. rewrite (M_bind_Ret _ _ _ _ _ (argint_run 0 s ltac:(lia))).
  rewrite (M_bind_Ret _ _ _ _ _ (argint_run 1 s ltac:(lia))), (M_bind_Ret _ _ s s s) by done. fold n.
  rewrite (proj2 (Z.ltb_lt n 0)), orb_true_r by lia. rewrite (M_bind_Ret _ _ s 0 s); [done|].
  unfold growproc. rewrite (M_bind_Ret _ _ s s s) by done. rewrite (proj2 (Z.ltb_ge 0 n)), (proj2 (Z.ltb_lt n 0)) by lia.
  assert (u64 (sz s + n) = sz s + n + 2 ^ 64) as ->.
  { unfold wrap. rewrite <- (Z.mod_add _ 1), Z.mul_1_l by lia. apply Z.mod_small. lia. }
  rewrite (M_bind_Ret _ _ s (sz s) s); [by destruct s|].
  rewrite (onk_run _ s (sz s) (km s)); [by rewrite set_km_id|]. unfold uvmdealloc. by rewrite (proj2 (Z.leb_le _ _)) by lia.
Qed.

(** ** Arguments from user memory *)

Section Args.
Context (end_ : Z).

(** Memory in use is as it was. *)
Definition in_use_kept (k k' : kmem) (l l' : list Z) (root : Z) : Prop :=
  (forall va, pteval (kmemory k') root va = pteval (kmemory k) root va) /\
  forall d, data_page end_ k l root d -> data_page end_ k' l' root d /\ agree (kmemory k) (kmemory k') d.

Lemma in_use_trans k k1 k2 l l1 l2 root : in_use_kept k k1 l l1 root -> in_use_kept k1 k2 l1 l2 root -> in_use_kept k k2 l l2 root.
Proof.
  intros [A1 A2] [B1 B2]. split; [intros va; by rewrite B1, A1|]. intros d Hd. destruct (A2 d Hd) as [C1 C2].
  destruct (B2 d C1) as [D1 D2]. split; [done|]. intros x Hx. by rewrite D2, C2.
Qed.

Lemma holds_kept k k' l l' root w va str : in_use_kept k k' l l' root -> holds end_ k l root w va str -> holds end_ k' l' root w va str.
Proof.
  intros [Hv Hd] [[H1 H2 H3] E]. split.
  - split; [done| |intros v v'; rewrite !Hv; apply H3]. intros v Hin. cbv zeta. rewrite Hv.
    destruct (H2 v Hin) as (F1 & F2 & F3 & F4). by split_and!; [..|apply Hd].
  - rewrite <- E at 2. unfold user_bytes. apply map_ext_in. intros i Hi%in_seq. unfold phys. rewrite Hv.
    destruct (H2 (va + Z.of_nat i) ltac:(lia)) as (_ & _ & _ & F4). destruct (Hd _ F4) as [_ A]. rewrite A; [done|].
    pose proof (Z.mod_pos_bound (va + Z.of_nat i) PGSIZE ltac:(done)). lia.
Qed.

Lemma fetchstr_found s l w va str max : holds end_ (km s) l (pagetable s) w va (str ++ [0]) -> Forall (fun b => b <> 0) str ->
  Z.of_nat (length str) < max -> fetchstr va max s = Ret ((Z.of_nat (length str), str ++ [0]), s).
Proof.
  intros Hh Hs Hm. unfold fetchstr. rewrite (M_bind_Ret _ _ s s s) by done. rewrite (M_bind_Ret _ _ s (0, str ++ [0]) s).
  - cbn [Z.ltb Z.compare]. by rewrite cstr_found.
  - erewrite onk_run; [by rewrite set_km_id|]. unfold copyinstr. apply (copyinstr_found end_ (km s) l (pagetable s) w _ va str max []); [done|done|lia].
Qed.

Lemma fetchstr_long s l w va str max : holds end_ (km s) l (pagetable s) w va str -> Forall (fun b => b <> 0) str ->
  0 <= max <= Z.of_nat (length str) -> fetchstr va max s = Ret ((-1, take (Z.to_nat max) str), s).
Proof.
  intros Hh Hs Hm. unfold fetchstr. rewrite (M_bind_Ret _ _ s s s) by done.
  rewrite (M_bind_Ret _ _ s (-1, take (Z.to_nat max) str) s); [done|].
  erewrite onk_run; [by rewrite set_km_id|]. unfold copyinstr.
  apply (copyinstr_unterminated end_ (km s) l (pagetable s) w _ va (take (Z.to_nat max) str) max []); [|by apply Forall_take|rewrite length_take; lia|lia].
  by apply holds_take.
Qed.

Lemma fetchaddr_found s l w va bs : holds end_ (km s) l (pagetable s) w va bs -> length bs = 8%nat -> va + 8 <= sz s < 2 ^ 64 ->
  fetchaddr end_ va s = Ret ((0, word_of bs), s).
Proof.
  intros [Hr Hb] Hl Hsz. pose proof (ur_va _ _ _ _ _ _ _ Hr) as Hva. unfold fetchaddr. rewrite (M_bind_Ret _ _ s s s) by done.
  rewrite (wrap_small 64 (va + 8)) by lia. rewrite (proj2 (Z.leb_gt _ _)), (proj2 (Z.ltb_ge _ _)) by lia. cbn [orb].
  rewrite (M_bind_Ret _ _ s (0, bs) s); [done|]. erewrite onk_run; [by rewrite set_km_id|]. unfold copyin.
  rewrite Hl in Hr, Hb. rewrite <- Hb. apply (copyin_loop_spec end_ _ _ _ (km s) l w 8 va 8 []); [lia|done].
Qed.
(** Element [a] of [argv] points to [str]. *)
Definition user_arg (k : kmem) (l : list Z) (root size a : Z) (str : list Z) : Prop :=
  exists bs, holds end_ k l root false a bs /\ length bs = 8%nat /\ a + 8 <= size /\ word_of bs <> 0 /\
    holds end_ k l root false (word_of bs) (str ++ [0]) /\ Forall (fun b => b <> 0) str /\ Z.of_nat (length str) < PGSIZE.

(** Page [p] begins with [str] and a NUL. *)
Definition page_str (k : kmem) (p : Z) (str : list Z) : Prop :=
  forall j b, (str ++ [0]) !! j = Some b -> kmemory k (p + Z.of_nat j) = b.

Lemma user_arg_kept k k' l l' root size a str :
  in_use_kept k k' l l' root -> user_arg k l root size a str -> user_arg k' l' root size a str.
Proof.
  intros Hk (bs & H1 & H2 & H3 & H4 & H5 & H6). exists bs.
  split; [by eapply holds_kept|]. split; [done|]. split; [done|]. split; [done|]. split; [by eapply holds_kept|done].
Qed.

Lemma page_str_kept k k' l l' root p str : in_use_kept k k' l l' root -> data_page end_ k l root p ->
  Z.of_nat (length str) < PGSIZE -> page_str k p str -> page_str k' p str.
Proof.
  intros [_ Hk] Hp Hl H j b Hj. destruct (Hk p Hp) as [_ A]. rewrite A; [by apply H|].
  apply lookup_lt_Some in Hj. rewrite length_app in Hj. cbn [length] in Hj. lia.
Qed.

Lemma fetch_one n uargv i got s p l str : PT end_ (km s) (p :: l) (pagetable s) -> 0 <= sz s < 2 ^ 64 ->
  user_arg (km s) (p :: l) (pagetable s) (sz s) (uargv + 8 * i) str ->
  exists k', fetch_args end_ (S n) uargv i got s = fetch_args end_ n uargv (i + 1) (got ++ [p]) (set_km k' s) /\
    PT end_ k' l (pagetable s) /\ in_use_kept (km s) k' (p :: l) l (pagetable s) /\ data_page end_ k' l (pagetable s) p /\ page_str k' p str.
Proof.
  intros HP Hsz (bs & H1 & H2 & H3 & H4 & H5 & H6 & H7). set (k := km s) in *. set (root := pagetable s) in *.
  destruct (fresh_any end_ k p l root HP) as (k1 & E1 & Hp & Hni & Ag1 & Hfill). pose proof Hp as (_ & _ & Hp0).
  assert (~ is_table (kmemory k) root p) as Hnt.
  { intros Hx. destruct (pt_table _ _ _ _ HP p Hx) as [_ Hx']. apply Hx', elem_of_cons. by left. }
  assert (forall m', (forall a, a < p \/ p + PGSIZE <= a -> m' a = kmemory k1 a) ->
    PT end_ (set_mem m' k1) l root /\ in_use_kept k (set_mem m' k1) (p :: l) l root /\ data_page end_ (set_mem m' k1) l root p) as Hm.
  { intros m' Hm'. destruct (Hfill m' Hm') as (F1 & F2 & F3 & F4). split; [done|]. split.
    - split; [done|]. intros d (D1 & D2 & D3). apply not_elem_of_cons in D2 as [Np D2]. split; [|by apply F4].
      split; [done|]. split; [done|]. cbn [kmemory set_mem]. by rewrite F3.
    - split; [done|]. split; [done|]. cbn [kmemory set_mem]. by rewrite F3. }
  destruct (Hm (kmemory k1) ltac:(done)) as (_ & K1 & _). replace (set_mem (kmemory k1) k1) with k1 in K1 by (by destruct k1).
  cbn [fetch_args]. pose proof (ur_va _ _ _ _ _ _ _ (proj1 H1)) as Hva. rewrite MAXVA_val in Hva.
  rewrite (wrap_small 64 (uargv + 8 * i)) by lia. rewrite (M_bind_Ret _ _ _ _ _ (fetchaddr_found s _ _ _ _ H1 H2 ltac:(lia))).
  cbn [Z.ltb Z.compare]. rewrite (proj2 (Z.eqb_neq _ _) H4), (M_bind_Ret _ _ _ _ _ (onk_run _ s _ _ E1)), (proj2 (Z.eqb_neq p 0)) by lia.
  rewrite (M_bind_Ret _ _ _ _ _ (fetchstr_found (set_km k1 s) l false (word_of bs) str PGSIZE ltac:(by eapply holds_kept) H6 H7)).
  set (m' := fun x => if (p <=? x) && (x <? p + Z.of_nat (length (str ++ [0]))) then nth (Z.to_nat (x - p)) (str ++ [0]) 0 else kmemory k1 x).
  rewrite (M_bind_Ret _ _ (set_km k1 s) tt (set_km (set_mem m' k1) s)) by done.
  rewrite (proj2 (Z.ltb_ge (Z.of_nat _) 0)) by lia. exists (set_mem m' k1). split; [done|].
  assert (length (str ++ [0]) = S (length str)) as Hl by (rewrite length_app; cbn; lia).
  destruct (Hm m') as (F1 & F2 & F3).
  { intros a Ha. unfold m'. destruct (Z.leb_spec p a), (Z.ltb_spec a (p + Z.of_nat (length (str ++ [0])))); cbn [andb]; try done; lia. }
  split; [done|]. split; [done|]. split; [done|]. intros j b Hj. pose proof (lookup_lt_Some _ _ _ Hj). cbn [kmemory set_mem]. unfold m'.
  rewrite (proj2 (Z.leb_le _ _)), (proj2 (Z.ltb_lt _ _)) by lia. cbn [andb]. replace (Z.to_nat (p + Z.of_nat j - p)) with j by lia.
  by apply nth_lookup_Some.
Qed.

Lemma fetch_many strs : forall n uargv i got s l, PT end_ (km s) l (pagetable s) -> 0 <= sz s < 2 ^ 64 ->
  (length strs <= length l)%nat ->
  (forall j str, strs !! j = Some str -> user_arg (km s) l (pagetable s) (sz s) (uargv + 8 * (i + Z.of_nat j)) str) ->
  let pages := take (length strs) l in let l' := drop (length strs) l in
  exists k', fetch_args end_ (length strs + n) uargv i got s = fetch_args end_ n uargv (i + Z.of_nat (length strs)) (got ++ pages) (set_km k' s) /\
    PT end_ k' l' (pagetable s) /\ in_use_kept (km s) k' l l' (pagetable s) /\
    Forall2 (fun p str => data_page end_ k' l' (pagetable s) p /\ page_str k' p str) pages strs /\ NoDup pages.
Proof.
  induction strs as [|str strs IH]; intros n uargv i got s l HP Hsz Hl Ha.
  { exists (km s). cbn. rewrite drop_0, take_0, app_nil_r, Z.add_0_r, set_km_id. split_and!; try done; constructor. }
  destruct l as [|p l]; [cbn in Hl; lia|]. cbn [length take drop Nat.add] in *.
  destruct (fetch_one (length strs + n) uargv i got s p l str HP Hsz) as (k1 & E1 & P1 & K1 & D1 & S1).
  { specialize (Ha 0%nat str eq_refl). by rewrite Z.add_0_r in Ha. }
  destruct (IH n uargv (i + 1) (got ++ [p]) (set_km k1 s) l P1 Hsz ltac:(lia)) as (k2 & E2 & P2 & K2 & F2 & N2).
  { intros j str' Hj. eapply user_arg_kept; [done|]. specialize (Ha (S j) str' Hj).
    by replace (i + Z.of_nat (S j)) with (i + 1 + Z.of_nat j) in Ha by lia. }
  exists k2. cbn [km set_km pagetable] in *. rewrite E1, E2.
  split; [rewrite <- app_assoc; cbn [app]; by replace (i + 1 + Z.of_nat (length strs)) with (i + Z.of_nat (S (length strs))) by lia|].
  split; [done|]. split; [by eapply in_use_trans|]. split.
  - constructor; [|done]. split; [by apply (proj2 K2)|]. specialize (Ha 0%nat str eq_refl) as (_ & _ & _ & _ & _ & _ & _ & Hlen).
    by eapply page_str_kept.
  - constructor; [|done]. intros Hin. apply elem_of_take in Hin as (x & Hx%list_elem_of_lookup_2 & _). by destruct D1 as (_ & ? & _).
Qed.
Lemma free_args_run pages : forall s l, PT end_ (km s) l (pagetable s) -> Forall (data_page end_ (km s) l (pagetable s)) pages -> NoDup pages ->
  exists k', free_args end_ pages s = Ret (tt, set_km k' s) /\ PT end_ k' (rev pages ++ l) (pagetable s) /\
    forall va, pteval (kmemory k') (pagetable s) va = pteval (kmemory (km s)) (pagetable s) va.
Proof.
  induction pages as [|p pages IH]; intros s l HP Hd Hn; [exists (km s); cbn; by rewrite set_km_id|].
  apply list.Forall_cons in Hd as [D Hd]. apply list.NoDup_cons in Hn as [N Hn].
  destruct (free_data end_ (km s) l (pagetable s) p HP D) as (k1 & E1 & P1 & V1 & _ & T1 & A1).
  destruct (IH (set_km k1 s) (p :: l) P1) as (k2 & E2 & P2 & V2); [|done|].
  { apply list.Forall_forall. intros q Hq. destruct (proj1 (list.Forall_forall _ _) Hd q Hq) as (Q1 & Q2 & Q3).
    split; [done|]. split; [|cbn [km set_km]; by rewrite T1]. apply not_elem_of_cons. split; [by intros ->|done]. }
  exists k2. cbn [free_args rev]. rewrite (M_bind_Ret _ _ _ _ _ (onk_run _ s _ _ E1)), E2. cbn [pagetable set_km km] in *.
  split; [done|]. rewrite <- app_assoc. cbn [app]. split; [done|]. intros va. by rewrite V2, V1.
Qed.
End Args.

(** C35: a process calls [exec] with a path and arguments in its memory.  With an end of [argv] after
    fewer than [MAXARG] arguments, each below a page, and pages for them, [kexec] gets the path and,
    on pages of their own, exactly the strings; what the process has mapped is untouched.  When
    [MAXARG] arguments come without an end, the pages are free again and the value is -1. *)
Theorem exec_args_correct end_ kexec s l path strs uargv upath :
  PT end_ (km s) l (pagetable s) -> 0 <= sz s < 2 ^ 64 -> regs s !! 0%nat = Some upath -> regs s !! 1%nat = Some uargv ->
  holds end_ (km s) l (pagetable s) false upath (path ++ [0]) -> Forall (fun b => b <> 0) path -> Z.of_nat (length path) < MAXPATH ->
  (length strs <= length l)%nat ->
  (forall j str, strs !! j = Some str -> user_arg end_ (km s) l (pagetable s) (sz s) (uargv + 8 * Z.of_nat j) str) ->
  let pages := take (length strs) l in let l' := drop (length strs) l in
  let ends := exists bs, length bs = 8%nat /\ word_of bs = 0 /\ uargv + 8 * Z.of_nat (length strs) + 8 <= sz s /\
    holds end_ (km s) l (pagetable s) false (uargv + 8 * Z.of_nat (length strs)) bs in
  ((length strs < MAXARG)%nat -> ends -> exists k',
     sys_exec end_ kexec s = (ret ← kexec path pages; _ ← free_args end_ pages; mret ret) (set_km k' s) /\
     PT end_ k' l' (pagetable s) /\ in_use_kept end_ (km s) k' l l' (pagetable s) /\
     Forall2 (fun p str => data_page end_ k' l' (pagetable s) p /\ page_str k' p str) pages strs /\ NoDup pages) /\
  (length strs = MAXARG -> exists k', sys_exec end_ kexec s = Ret (-1, set_km k' s) /\
     PT end_ k' (rev pages ++ l') (pagetable s) /\
     forall va, pteval (kmemory k') (pagetable s) va = pteval (kmemory (km s)) (pagetable s) va).
Proof.
  intros HP Hsz R0 R1 Hp Hnz Hlen Hl Ha pages l' ends.
  assert (sys_exec end_ kexec s = (r ← fetch_args end_ MAXARG uargv 0 [];
    let '(argv, ok) := (r : list Z * bool) in
    if (ok : bool) then ret ← kexec path argv; _ ← free_args end_ argv; mret ret else _ ← free_args end_ argv; mret (-1)) s) as ->.
  { unfold sys_exec, argstr, argaddr. rewrite (M_bind_Ret _ _ _ _ _ (argraw_run 1 s uargv ltac:(lia) R1)).
    rewrite (M_bind_Ret _ _ s (Z.of_nat (length path), path ++ [0]) s).
    - rewrite (proj2 (Z.ltb_ge (Z.of_nat _) 0)) by lia. by rewrite cstr_found.
    - rewrite (M_bind_Ret _ _ _ _ _ (argraw_run 0 s upath ltac:(lia) R0)). by apply (fetchstr_found end_ s l false). }
  destruct (fetch_many end_ strs (MAXARG - length strs) uargv 0 [] s l HP Hsz Hl Ha) as (k' & E & P & K & F & N).
  fold pages l' in E, P, K, F, N. cbn [app Z.add] in E. split.
  - intros Hm (bs & B1 & B2 & B3 & B4). exists k'. split; [|done].
    replace (length strs + (MAXARG - length strs))%nat with MAXARG in E by lia.
    rewrite (M_bind_Ret _ _ s (pages, true) (set_km k' s)); [done|]. rewrite E.
    destruct (MAXARG - length strs)%nat as [|n] eqn:En; [lia|]. cbn [fetch_args].
    pose proof (ur_va _ _ _ _ _ _ _ (proj1 B4)) as Hva. rewrite MAXVA_val in Hva. rewrite (wrap_small 64) by lia.
    rewrite (M_bind_Ret _ _ _ _ _ (fetchaddr_found end_ (set_km k' s) l' _ _ _ ltac:(by eapply holds_kept) B1 ltac:(cbn [sz set_km]; lia))).
    by rewrite B2.
  - intros Hm. rewrite Hm, Nat.sub_diag, Nat.add_0_r in E. rewrite (M_bind_Ret _ _ s (pages, false) (set_km k' s)) by (by rewrite E).
    destruct (free_args_run end_ pages (set_km k' s) l' P) as (k2 & E2 & P2 & V2); [|done|].
    { eapply Forall2_Forall_l; [done|]. apply list.Forall_forall. by intros str _ p [? _]. }
    exists k2. rewrite (M_bind_Ret _ _ _ _ _ E2). split; [done|]. split; [done|]. intros va. rewrite V2. apply K.
Qed.

(** ** Witnesses *)

#[local] Opaque Sample.k0 Sample.k1.

Module SysSample.
(** A process that grows from nothing by two pages, eagerly. *)
Definition s0 : ust := mkU Sample.k0 Sample.root 0 [2 * PGSIZE; 1; 0; 0; 0; 0; 0; 12].

Lemma s0_ok : exists l, proc_ok Sample.end_ s0 l.
Proof.
  destruct Sample.table as (l & HP & Hz). exists l. split; [exact HP|vm_compute; split; congruence| |intros va _; cbn [km s0]; by rewrite Hz].
  split; [intros va Hva|intros va va' Hva]; change (PGROUNDUP (sz s0)) with 0 in Hva; lia.
Qed.

(** The path [ls] and [argv] with that string and the end. *)
Definition W : list Z := [108; 115; 0; 0; 0; 0; 0; 0] ++ [0; 16; 0; 0; 0; 0; 0; 0] ++ [0; 0; 0; 0; 0; 0; 0; 0].

Lemma loaded : exists k p l, PT Sample.end_ k (p :: l) Sample.root /\ holds Sample.end_ k (p :: l) Sample.root false PGSIZE W.
Proof.
  destruct Sample.touched as (l0 & l & q & _ & _ & Nq & HF). pose proof HF as [F1 _ _ _].
  assert (0 <= Sample.va < MAXVA) as Hva by (vm_compute; split; congruence).
  destruct (faulted_range Sample.end_ _ _ _ _ _ _ _ Hva HF Nq) as [_ HU].
  change (PGROUNDDOWN Sample.va) with PGSIZE in HU.
  assert (user_range Sample.end_ Sample.k1 l Sample.root true PGSIZE (Z.of_nat (length W))) as HU1.
  { destruct HU as [U1 U2 U3]. change (Z.of_nat (length W)) with 24. unfold PGSIZE in *.
    split; [lia|intros v Hv; apply U2; lia|intros v v' Hv Hv'; apply U3; lia]. }
  destruct (copyout_loop_spec Sample.end_ 0 0 Sample.root (length W) Sample.k1 l PGSIZE W ltac:(lia) F1 HU1) as (m' & _ & HC).
  destruct (copied_range Sample.end_ Sample.k1 l Sample.root true PGSIZE W m' F1 HU1 (length W)) as (HP' & Hv & [U1 U2 U3]).
  { by rewrite firstn_all. }
  destruct l as [|p l].
  { exfalso. pose proof (kalloc_spec Sample.end_ Sample.k1 [] (pt_k _ _ _ _ F1)) as E.
    assert (match kalloc Sample.k1 with Ret (x, _) => x | _ => 0 end <> 0) as Hne; [|rewrite E in Hne; by apply Hne].
    with_strategy transparent [Sample.k0 Sample.k1] (vm_compute; congruence). }
  exists (set_mem m' Sample.k1), p, l. split; [exact HP'|]. split; [|by apply (copied_bytes (kmemory Sample.k1))].
  split; [exact U1| |exact U3]. intros v Hv'. destruct (U2 v Hv') as (A & B & _ & D). by split_and!.
Qed.
End SysSample.


(** [exec] of [ls] with the one argument [ls]; [kexec] returns the number of arguments. *)
Definition count_args (path argv : list Z) : M ust Z := mret (Z.of_nat (length argv)).

Lemma exec_args_correct_witness :
  exists s k p, sys_exec Sample.end_ count_args s =
    (ret ← count_args [108; 115] [p]; _ ← free_args Sample.end_ [p]; mret ret) (set_km k s) /\ page_str k p [108; 115].
Proof.
  destruct SysSample.loaded as (k & p & l & HP & HW). set (s := mkU k Sample.root (2 * PGSIZE) [PGSIZE; PGSIZE + 8]).
  assert (holds Sample.end_ k (p :: l) Sample.root false PGSIZE ([108; 115] ++ [0])) as H1 by apply (holds_take _ _ _ _ _ _ _ 3 HW).
  assert (holds Sample.end_ k (p :: l) Sample.root false (PGSIZE + 8) [0; 16; 0; 0; 0; 0; 0; 0]) as H2.
  { apply (holds_take _ _ _ _ _ _ _ 8 (holds_drop _ _ _ _ _ _ _ 8 HW ltac:(cbn; lia))). }
  assert (holds Sample.end_ k (p :: l) Sample.root false (PGSIZE + 16) [0; 0; 0; 0; 0; 0; 0; 0]) as H3.
  { apply (holds_drop _ _ _ _ _ _ _ 16 HW). cbn. lia. }
  assert (Forall (fun b => b <> 0) [108; 115]) as Hnz by (repeat constructor; discriminate).
  destruct (exec_args_correct Sample.end_ count_args s (p :: l) [108; 115] [[108; 115]] (PGSIZE + 8) PGSIZE) as [Hc _];
    [exact HP|vm_compute; split; congruence|reflexivity|reflexivity|exact H1|exact Hnz|reflexivity|cbn; lia| |].
  - intros [|j] str Hj; [|discriminate]. injection Hj as <-. exists [0; 16; 0; 0; 0; 0; 0; 0].
    split; [exact H2|]. split; [reflexivity|]. split; [vm_compute; congruence|]. split; [discriminate|]. split; [exact H1|]. split; [exact Hnz|reflexivity].
  - destruct Hc as (k' & E & _ & _ & F & _); [unfold MAXARG; cbn [length]; lia| |].
    + exists [0; 0; 0; 0; 0; 0; 0; 0]. split; [reflexivity|]. split; [reflexivity|]. split; [vm_compute; congruence|exact H3].
    + exists s, k', p. split; [exact E|]. inversion F as [|? ? ? ? [_ Hs] _]. exact Hs.
Defined.
