(* ===== verification/Trap.v ===== *)
(** * Traps: [kernel/trap.c]

    [usertrap], [kerneltrap] and what they call, on the control registers of one hart, the process of the trap ([ust] of [Syscall])
    and its trap frame.  What runs elsewhere in between is a parameter: [claim] and [now] are what the PLIC and the clock give; [elsewhere]
    and [insyscall] what [yield] and a system call leave in the registers, another hart's ([tp]) if the process moved; [killed_meanwhile] that another hart kills the process; [exec_entry] the entry point when
    the call was an [exec] that succeeded.  Calls to drivers and the scheduler are recorded in order.  [kexit] does
    not return; the handlers then give [None]. *)

From S2P Require Import Prelude Riscv CString Kalloc Vm VmMap VmUser VmSpace Syscall.

Definition SSTATUS_SPP : Z := Z.shiftl 1 8.
Definition SSTATUS_SPIE : Z := Z.shiftl 1 5.
Definition SSTATUS_SIE : Z := Z.shiftl 1 1.
Definition UART0_IRQ : Z := 10.
Definition VIRTIO0_IRQ : Z := 1.
Definition EXTERNAL : Z := 0x8000000000000009.
Definition TIMER : Z := 0x8000000000000005.
Definition MAKE_SATP (pagetable : Z) : Z := Z.lor (Z.shiftl 8 60) (Z.shiftr pagetable 12).

Record csrs := mkCsr { sstatus : Z; sepc : Z; scause : Z; stval : Z; stvec : Z; satp : Z; stimecmp : Z; tp : Z }.
Definition set_sstatus v c := mkCsr v (sepc c) (scause c) (stval c) (stvec c) (satp c) (stimecmp c) (tp c).
Definition set_sepc v c := mkCsr (sstatus c) v (scause c) (stval c) (stvec c) (satp c) (stimecmp c) (tp c).
Definition set_stvec v c := mkCsr (sstatus c) (sepc c) (scause c) (stval c) v (satp c) (stimecmp c) (tp c).
Definition set_stimecmp v c := mkCsr (sstatus c) (sepc c) (scause c) (stval c) (stvec c) (satp c) v (tp c).

(** What the kernel keeps for itself in the trap frame, and the saved user pc. *)
Record tframe := mkTf { kernel_satp : Z; kernel_sp : Z; kernel_trap : Z; epc : Z; kernel_hartid : Z }.
Definition set_epc e f := mkTf (kernel_satp f) (kernel_sp f) (kernel_trap f) e (kernel_hartid f).

Inductive did := DUart | DDisk | DUnexpected (irq : Z) | DComplete (irq : Z) | DClock (hart : Z) | DSyscall | DYield | DReport.

Record tst := mkTst { csr : csrs; usr : ust; tf : tframe; kstack : Z; killed : bool; did_ : list did }.
Definition on_csr (f : csrs -> csrs) (s : tst) : tst := mkTst (f (csr s)) (usr s) (tf s) (kstack s) (killed s) (did_ s).
Definition set_usr u (s : tst) : tst := mkTst (csr s) u (tf s) (kstack s) (killed s) (did_ s).
Definition set_tf f (s : tst) : tst := mkTst (csr s) (usr s) f (kstack s) (killed s) (did_ s).
Definition set_killed b (s : tst) : tst := mkTst (csr s) (usr s) (tf s) (kstack s) b (did_ s).
Definition note (d : did) (s : tst) : tst := mkTst (csr s) (usr s) (tf s) (kstack s) (killed s) (did_ s ++ [d]).

Section Trap.
Context (end_ : Z) (fifo : bool) (kernelvec usertrap_ trampoline uservec : Z).
Context (handler : call -> M ust Z) (claim now : Z) (elsewhere insyscall : csrs -> csrs) (killed_meanwhile : bool) (exec_entry : option Z).
Abbreviation T := (M tst).

Definition liftu {A} (m : M ust A) : T A := fun s =>
  match m (usr s) with
  | Ret (a, u) => Ret (a, set_usr u s)
  | Panic e => Panic e
  | Undef e => Undef e
  end.

(** The part of [clockintr] that is not in [Proc]. *)
Definition clockintr : T unit :=
  s ← get;
  _ ← modify (note (DClock (tp (csr s))));
  modify (on_csr (set_stimecmp (u64 (now + 1000000)))).

Definition devintr : T Z :=
  s ← get;
  let cause := scause (csr s) in
  if cause =? EXTERNAL then
    let irq := claim in
    _ ← (if irq =? UART0_IRQ then modify (note DUart)
         else if irq =? VIRTIO0_IRQ then modify (note DDisk)
         else if negb (irq =? 0) then modify (note (DUnexpected irq)) else mret tt);
    _ ← (if negb (irq =? 0) then modify (note (DComplete irq)) else mret tt);
    mret 1
  else if cause =? TIMER then _ ← clockintr; mret 2
  else mret 0.

(** [yield]: other processes and interrupts change the control registers. *)
Definition yield : T unit := _ ← modify (note DYield); modify (on_csr elsewhere).

Definition prepare_return : T unit :=
  _ ← modify (on_csr (fun c => set_sstatus (Z.land (sstatus c) (Z.lnot SSTATUS_SIE)) c));
  _ ← modify (on_csr (set_stvec (u64 (TRAMPOLINE + (uservec - trampoline)))));
  _ ← modify (fun s => set_tf (mkTf (satp (csr s)) (u64 (kstack s + PGSIZE)) usertrap_ (epc (tf s)) (tp (csr s))) s);
  s ← get;
  let x := sstatus (csr s) in
  let x := Z.land x (Z.lnot SSTATUS_SPP) in
  let x := Z.lor x SSTATUS_SPIE in
  _ ← modify (on_csr (set_sstatus x));
  modify (on_csr (set_sepc (epc (tf s)))).

(** The page fault of a load or store. *)
Definition page_fault (s : tst) : T bool :=
  if (scause (csr s) =? 15) || (scause (csr s) =? 13) then
    p ← liftu (onk (vmfault end_ (pagetable (usr s)) (sz (usr s)) (pagetable (usr s)) (stval (csr s))));
    mret (negb (p =? 0))
  else mret false.

(** The branches on [scause], with [which_dev]; [None] after [kexit]. *)
Definition trap_cause : T (option Z) :=
  s ← get;
  if scause (csr s) =? 8 then
    if killed s then mret None
    else
      _ ← modify (fun s => set_tf (set_epc (u64 (epc (tf s) + 4)) (tf s)) s);
      _ ← modify (on_csr (fun c => set_sstatus (Z.lor (sstatus c) SSTATUS_SIE) c));
      _ ← modify (note DSyscall);
      _ ← liftu (syscall handler);
      _ ← modify (on_csr insyscall);
      _ ← modify (fun s => match exec_entry with Some e => set_tf (set_epc e (tf s)) s | None => s end);
      mret (Some 0)
  else
    which ← devintr;
    if negb (which =? 0) then mret (Some which)
    else
      ok ← page_fault s;
      if (ok : bool) then mret (Some 0)
      else
        _ ← modify (note DReport);
        _ ← modify (set_killed true);
        mret (Some 0).

Definition usertrap : T (option Z) :=
  s ← get;
  _ ← panic_if (c_true (Z.land (sstatus (csr s)) SSTATUS_SPP)) "usertrap: not from user mode";
  _ ← modify (on_csr (set_stvec kernelvec));
  _ ← modify (fun s => set_tf (set_epc (sepc (csr s)) (tf s)) s);
  r ← trap_cause;
  match r with
  | None => mret None
  | Some which =>
    _ ← modify (fun s => set_killed (killed s || killed_meanwhile) s);
    s ← get;
    if killed s then mret None
    else
      _ ← (if (which =? 2) && negb fifo then yield else mret tt);
      _ ← prepare_return;
      s ← get;
      mret (Some (MAKE_SATP (pagetable (usr s))))
  end.

(** [has_proc] is [myproc() != 0]. *)
Definition kerneltrap (has_proc : bool) : T unit :=
  s ← get;
  let pc := sepc (csr s) in
  let st := sstatus (csr s) in
  _ ← panic_if (negb (c_true (Z.land st SSTATUS_SPP))) "kerneltrap: not from supervisor mode";
  _ ← panic_if (c_true (Z.land (sstatus (csr s)) SSTATUS_SIE)) "kerneltrap: interrupts enabled";
  which ← devintr;
  _ ← (if which =? 0 then _ ← modify (note DReport); panic "kerneltrap" else mret tt);
  _ ← (if (which =? 2) && has_proc && negb fifo then yield else mret tt);
  _ ← modify (on_csr (set_sepc pc));
  modify (on_csr (set_sstatus st)).

(** ** What a trap does *)

(** Runs straight-line code. *)
Ltac unfold_run := cbv [prepare_return clockintr yield mbind M_bind modify get gets mret M_ret negb].

(** The drivers called for an external interrupt: the device that raised it, and the PLIC is told. *)
Definition irq_events : list did :=
  (if claim =? UART0_IRQ then [DUart] else if claim =? VIRTIO0_IRQ then [DDisk] else if negb (claim =? 0) then [DUnexpected claim] else []) ++
  (if negb (claim =? 0) then [DComplete claim] else []).

(** The hart is ready for [sret] to user mode: interrupts off until then, user mode with interrupts on after it, at the saved pc;
    the next trap goes to [uservec], which finds the kernel's page table, stack and entry. *)
Record to_user (s : tst) : Prop := {
  tu_mode : Z.testbit (sstatus (csr s)) 8 = false /\ Z.testbit (sstatus (csr s)) 5 = true /\ Z.testbit (sstatus (csr s)) 1 = false;
  tu_vec : stvec (csr s) = u64 (TRAMPOLINE + (uservec - trampoline));
  tu_pc : sepc (csr s) = epc (tf s);
  tu_frame : kernel_satp (tf s) = satp (csr s) /\ kernel_sp (tf s) = u64 (kstack s + PGSIZE) /\ kernel_trap (tf s) = usertrap_ /\ kernel_hartid (tf s) = tp (csr s)
}.

Lemma user_mode x : let y := Z.lor (Z.land (Z.land x (Z.lnot SSTATUS_SIE)) (Z.lnot SSTATUS_SPP)) SSTATUS_SPIE in
  Z.testbit y 8 = false /\ Z.testbit y 5 = true /\ Z.testbit y 1 = false.
Proof.
  cbv zeta. rewrite !Z.lor_spec, !Z.land_spec, !Z.lnot_spec by lia. split; [|split].
  - change (Z.testbit SSTATUS_SPP 8) with true. change (Z.testbit SSTATUS_SPIE 8) with false. cbn [negb]. by rewrite !andb_false_r.
  - change (Z.testbit SSTATUS_SPIE 5) with true. apply orb_true_r.
  - change (Z.testbit SSTATUS_SIE 1) with true. change (Z.testbit SSTATUS_SPIE 1) with false. cbn [negb]. by rewrite andb_false_r.
Qed.

Lemma prepare_return_run s : exists s', prepare_return s = Ret (tt, s') /\ to_user s' /\ usr s' = usr s /\ killed s' = killed s /\ did_ s' = did_ s /\ epc (tf s') = epc (tf s).
Proof. eexists. split; [unfold_run; reflexivity|]. split; [|done]. split; [apply user_mode|done|done|done]. Qed.

Lemma devintr_run s : exists r s', devintr s = Ret (r, s') /\ usr s' = usr s /\ killed s' = killed s /\ tf s' = tf s /\ kstack s' = kstack s /\
  ((scause (csr s) = EXTERNAL /\ r = 1 /\ did_ s' = did_ s ++ irq_events /\ csr s' = csr s) \/
   (scause (csr s) = TIMER /\ r = 2 /\ did_ s' = did_ s ++ [DClock (tp (csr s))] /\ csr s' = set_stimecmp (u64 (now + 1000000)) (csr s)) \/
   (scause (csr s) <> EXTERNAL /\ scause (csr s) <> TIMER /\ r = 0 /\ s' = s)).
Proof.
  unfold devintr. rewrite (M_bind_Ret _ _ s s s) by done. destruct (Z.eqb_spec (scause (csr s)) EXTERNAL) as [E|N].
  - exists 1. unfold irq_events. destruct (claim =? UART0_IRQ), (claim =? VIRTIO0_IRQ), (claim =? 0); eexists; (split; [unfold_run; reflexivity|]);
      (split; [done|]; split; [done|]; split; [done|]; split; [done|]; left; split; [done|]; split; [done|]; split; [cbn; by rewrite ?app_nil_r, <- ?app_assoc|done]).
  - destruct (Z.eqb_spec (scause (csr s)) TIMER) as [E2|N2].
    + exists 2. eexists. split; [unfold_run; reflexivity|]. split; [done|]. split; [done|]. split; [done|]. split; [done|]. right. left. done.
    + exists 0, s. split; [done|]. split; [done|]. split; [done|]. split; [done|]. split; [done|]. by right; right.
Qed.

(** The page fault: an address below the size that has no page gets one, unless memory is out; any other is refused. *)
Definition fault_handled (l l' : list Z) (u u' : ust) (va : Z) (ok : bool) : Prop :=
  (va < sz u /\ has (pteval (kmemory (km u)) (pagetable u) va) PTE_V = false /\
   exists p, ok = negb (p =? 0) /\ faulted end_ (km u) (km u') l l' (pagetable u) va p /\ (p = 0 -> (length l' <= 1)%nat) /\ u' = set_km (km u') u) \/
  (~ (va < sz u /\ has (pteval (kmemory (km u)) (pagetable u) va) PTE_V = false) /\ ok = false /\ u' = u /\ l' = l).

Lemma vmfault_any k l root psz va : PT end_ k l root -> psz <= MAXVA -> 0 <= va ->
  ~ (va < psz /\ has (pteval (kmemory k) root va) PTE_V = false) -> vmfault end_ root psz root va k = Ret (0, k).
Proof.
  intros HP Hp Hva Hn. unfold vmfault. destruct (Z.leb_spec psz va) as [Hle|Hlt]; [done|].
  destruct (page_base va ltac:(lia)) as (B1 & B2 & _). rewrite (M_bind_Ret _ _ _ _ _ (ismapped_spec k root _ B1)).
  rewrite (pteval_same _ _ _ _ B2). destruct (has (pteval (kmemory k) root va) PTE_V) eqn:E; [done|]. by destruct Hn.
Qed.

Lemma page_fault_run s0 s l : usr s0 = usr s -> PT end_ (km (usr s)) l (pagetable (usr s)) -> 0 <= sz (usr s) <= MAXVA -> 0 <= stval (csr s0) ->
  scause (csr s0) = 13 \/ scause (csr s0) = 15 ->
  exists ok u' l', page_fault s0 s = Ret (ok, set_usr u' s) /\ fault_handled l l' (usr s) u' (stval (csr s0)) ok.
Proof.
  intros Eu HP Hsz Hva Hc. unfold page_fault. rewrite Eu. set (va := stval (csr s0)) in *.
  assert ((scause (csr s0) =? 15) || (scause (csr s0) =? 13) = true) as -> by (destruct Hc as [-> | ->]; done).
  set (u := usr s) in *. destruct (decide (va < sz u /\ has (pteval (kmemory (km u)) (pagetable u) va) PTE_V = false)) as [[D1 D2]|D].
  - destruct (vmfault_run end_ (km u) l (pagetable u) (sz u) va HP ltac:(lia) ltac:(lia) D2) as (p & k' & l' & E & F & Hl).
    exists (negb (p =? 0)), (set_km k' u), l'. split.
    + rewrite (M_bind_Ret _ _ s p (set_usr (set_km k' u) s)); [done|]. unfold liftu. fold u. by rewrite (onk_run _ u _ _ E).
    + left. split; [done|]. split; [done|]. by exists p.
  - exists false, u, l. split; [|by right]. rewrite (M_bind_Ret _ _ s 0 (set_usr u s)); [done|]. unfold liftu. fold u.
    rewrite (onk_run _ u 0 (km u)); [by rewrite set_km_id|]. apply (vmfault_any (km u) l); auto; lia.
Qed.

(** What the branch of the cause does: [w] is [which_dev]. *)
Definition caused (l l' : list Z) (s s' : tst) (w : Z) : Prop :=
  let c := scause (csr s) in
  (c = 8 /\ w = 0 /\ killed s = false /\ syscall handler (usr s) = Ret (tt, usr s') /\ killed s' = false /\ did_ s' = did_ s ++ [DSyscall] /\
   epc (tf s') = match exec_entry with Some e => e | None => u64 (epc (tf s) + 4) end) \/
  (c <> 8 /\ epc (tf s') = epc (tf s) /\
   ((c = EXTERNAL /\ w = 1 /\ usr s' = usr s /\ killed s' = killed s /\ did_ s' = did_ s ++ irq_events) \/
    (c = TIMER /\ w = 2 /\ usr s' = usr s /\ killed s' = killed s /\ did_ s' = did_ s ++ [DClock (tp (csr s))]) \/
    ((c = 13 \/ c = 15) /\ w = 0 /\ exists ok, fault_handled l l' (usr s) (usr s') (stval (csr s)) ok /\
       killed s' = killed s || negb ok /\ did_ s' = did_ s ++ if ok then [] else [DReport]) \/
    (c <> EXTERNAL /\ c <> TIMER /\ c <> 13 /\ c <> 15 /\ w = 0 /\ usr s' = usr s /\ killed s' = true /\ did_ s' = did_ s ++ [DReport]))).

Lemma trap_cause_run s l : PT end_ (km (usr s)) l (pagetable (usr s)) -> 0 <= sz (usr s) <= MAXVA -> 0 <= stval (csr s) ->
  (exists u', syscall handler (usr s) = Ret (tt, u')) ->
  (scause (csr s) = 8 /\ killed s = true /\ trap_cause s = Ret (None, s)) \/
  exists w s' l', trap_cause s = Ret (Some w, s') /\ caused l l' s s' w /\ kstack s' = kstack s.
Proof.
  intros HP Hsz Hva (u' & Eu). unfold trap_cause. rewrite (M_bind_Ret _ _ s s s) by done. destruct (Z.eqb_spec (scause (csr s)) 8) as [E8|N8].
  - destruct (killed s) eqn:Ek; [by left|right]. eexists 0, _, l. split.
    { unfold mbind, M_bind, modify, liftu. cbn [usr set_tf on_csr note set_usr]. rewrite Eu. reflexivity. }
    split; [left|by destruct exec_entry]. by destruct exec_entry.
  - right. destruct (devintr_run s) as (r & s1 & E1 & G1 & G2 & G3 & G4 & Hr). rewrite (M_bind_Ret _ _ _ _ _ E1).
    destruct Hr as [(C & -> & D & _)|[(C & -> & D & _)|(C1 & C2 & -> & ->)]].
    + exists 1, s1, l. split; [done|]. split; [|done]. right. rewrite G3. split; [done|]. split; [done|]. left. done.
    + exists 2, s1, l. split; [done|]. split; [|done]. right. rewrite G3. split; [done|]. split; [done|]. right. left. done.
    + cbn [Z.eqb negb]. destruct (decide (scause (csr s) = 13 \/ scause (csr s) = 15)) as [C3|C3].
      * destruct (page_fault_run s s l eq_refl HP Hsz Hva C3) as (ok & u1 & l1 & E & F). rewrite (M_bind_Ret _ _ _ _ _ E).
        exists 0. destruct ok; eexists _, l1; (split; [reflexivity|]; split; [|done]; right; split; [done|]; split; [done|]; right; right; left; split; [done|]; split; [done|]).
        -- exists true. cbn. by rewrite orb_false_r, app_nil_r.
        -- exists false. cbn. by rewrite orb_true_r.
      * rewrite (M_bind_Ret _ _ s false s).
        2:{ unfold page_fault. destruct (Z.eqb_spec (scause (csr s)) 15), (Z.eqb_spec (scause (csr s)) 13); try done; destruct C3; auto. }
        eexists 0, _, l. split; [reflexivity|]. split; [|done]. right. split; [done|]. split; [done|]. right. right. right. split_and!; try done; auto.
Qed.

(** The state in which the branches on the cause start. *)
Definition entered (s : tst) : tst := set_tf (set_epc (sepc (csr s)) (tf s)) (on_csr (set_stvec kernelvec) s).

(** A trap from user mode.  The branch of its cause is taken: the system call runs and the program goes on after
    the [ecall], or at the entry point of a new program; the device that interrupted is served and the PLIC told; a touched page that was not allocated yet is provided; anything else kills
    the process.  A killed process exits; any other returns to user mode with its own page table, at its saved pc, its trap frame holding the stack and page table of this hart, after
    giving up the hart exactly when the clock interrupted and the scheduler is preemptive. *)
Theorem usertrap_correct s l :
  Z.land (sstatus (csr s)) SSTATUS_SPP = 0 -> PT end_ (km (usr s)) l (pagetable (usr s)) -> 0 <= sz (usr s) <= MAXVA ->
  0 <= stval (csr s) -> (exists u', syscall handler (usr s) = Ret (tt, u')) ->
  (scause (csr s) = 8 /\ killed s = true /\ exists s', usertrap s = Ret (None, s')) \/
  exists w s1 l1 r s', caused l l1 (entered s) s1 w /\ usertrap s = Ret (r, s') /\
    let dead := killed s1 || killed_meanwhile in
    (if dead then r = None else
       r = Some (MAKE_SATP (pagetable (usr s1))) /\ to_user s' /\ usr s' = usr s1 /\ killed s' = false /\
       epc (tf s') = epc (tf s1) /\ did_ s' = did_ s1 ++ if (w =? 2) && negb fifo then [DYield] else []).
Proof.
  intros Hm HP Hsz Hva Hsys. unfold usertrap. rewrite (M_bind_Ret _ _ s s s) by done. unfold c_true. rewrite Hm. cbn [Z.eqb negb].
  rewrite (M_bind_Ret _ _ s tt s), (M_bind_Ret _ _ s tt (on_csr (set_stvec kernelvec) s)) by done.
  rewrite (M_bind_Ret _ _ _ tt (entered s)) by done.
  destruct (trap_cause_run (entered s) l HP Hsz Hva Hsys) as [(C & K & E)|(w & s1 & l1 & E & HC & _)]; rewrite (M_bind_Ret _ _ _ _ _ E).
  { left. split; [done|]. split; [done|]. by eexists. }
  right. exists w, s1, l1. rewrite (M_bind_Ret _ _ _ tt (set_killed (killed s1 || killed_meanwhile) s1)) by done.
  set (s2 := set_killed _ s1). rewrite (M_bind_Ret _ _ s2 s2 s2) by done. change (killed s2) with (killed s1 || killed_meanwhile).
  destruct (killed s1 || killed_meanwhile) eqn:Ek; [exists None, s2; done|].
  assert (exists s3, (if (w =? 2) && negb fifo then yield else mret tt) s2 = Ret (tt, s3) /\ usr s3 = usr s1 /\ killed s3 = false /\ tf s3 = tf s1 /\
    did_ s3 = did_ s1 ++ if (w =? 2) && negb fifo then [DYield] else []) as (s3 & E3 & U3 & K3 & T3 & D3).
  { destruct ((w =? 2) && negb fifo); eexists; (split; [reflexivity|]); [done|]. cbn. by rewrite app_nil_r. }
  rewrite (M_bind_Ret _ _ _ _ _ E3). destruct (prepare_return_run s3) as (s4 & E4 & HU & U4 & K4 & D4 & P4).
  rewrite (M_bind_Ret _ _ _ _ _ E4), (M_bind_Ret _ _ s4 s4 s4) by done. eexists _, s4. split; [done|]. split; [done|]. cbn zeta.
  rewrite U4, U3, K4, D4, P4, T3, D3. done.
Qed.

(** A trap from the kernel: an interrupt is served, and the interrupted code goes on with the same pc and status
    whatever ran in between; anything else panics. *)
Theorem kerneltrap_correct has_proc s :
  Z.land (sstatus (csr s)) SSTATUS_SPP <> 0 -> Z.land (sstatus (csr s)) SSTATUS_SIE = 0 ->
  if decide (scause (csr s) = EXTERNAL \/ scause (csr s) = TIMER) then
    exists s', kerneltrap has_proc s = Ret (tt, s') /\ sepc (csr s') = sepc (csr s) /\ sstatus (csr s') = sstatus (csr s) /\
      usr s' = usr s /\ tf s' = tf s /\
      did_ s' = did_ s ++ if decide (scause (csr s) = EXTERNAL) then irq_events
                         else DClock (tp (csr s)) :: if has_proc && negb fifo then [DYield] else []
  else kerneltrap has_proc s = Panic "kerneltrap".
Proof.
  intros Hm Hi. unfold kerneltrap. rewrite (M_bind_Ret _ _ s s s) by done. unfold c_true. rewrite Hi, (proj2 (Z.eqb_neq _ _) Hm). cbn [Z.eqb negb].
  rewrite !(M_bind_Ret _ _ s tt s) by done. destruct (devintr_run s) as (r & s1 & E1 & U1 & _ & T1 & _ & Hr).
  rewrite (M_bind_Ret _ _ _ _ _ E1). destruct Hr as [(C & -> & D & _)|[(C & -> & D & _)|(C1 & C2 & -> & ->)]].
  - rewrite decide_True by auto. eexists. split; [reflexivity|]. cbn. rewrite decide_True by done. done.
  - assert (scause (csr s) <> EXTERNAL) as N by (rewrite C; vm_compute; congruence).
    rewrite decide_True by auto. rewrite decide_False by done. cbn [Z.eqb Pos.eqb andb].
    destruct (has_proc && negb fifo) eqn:Ey; eexists; (split; [unfold_run; rewrite ?Ey; reflexivity|]); cbn; rewrite D; by rewrite ?app_nil_r, <- ?app_assoc.
  - rewrite decide_False by tauto. done.
Qed.
End Trap.
