(* ===== verification/Mkfs.v ===== *)
(** * The disk image tool: [mkfs/mkfs.c]

    The image file is a sequence of [nsect] sectors of one block; reading past its end and
    every failed [assert] or call of [die] end the tool.  The host is little endian.  Inodes
    are the records of [FsInode], with the fields of [struct dinode] used.  A file
    to add is its name and what the successive calls of [read] return. *)

From S2P Require Import Prelude Mlfq Bio FsBlk Words FsInode FsData FsDir FsTable.

Definition NINODES : Z := 200.
Definition FSSIZE : Z := 2000.
Definition LOGBLOCKS : Z := 30.
Definition FSMAGIC : Z := 0x10203040.
Definition ROOTINO : Z := 1.
Definition T_FILE : Z := 2.

Definition nbitmap : Z := FSSIZE / (1024 * 8) + 1.
Definition ninodeblocks : Z := NINODES / IPB + 1.
Definition nlog_ : Z := LOGBLOCKS + 1.
Definition nmeta : Z := 2 + nlog_ + ninodeblocks + nbitmap.

(** Bytes stored in little-endian order, read by the host. *)
Definition xshort (x : Z) : Z := getle 2 (putle 2 (repeat 0 2) 0 x) 0.
Definition xint (x : Z) : Z := getle 4 (putle 4 (repeat 0 4) 0 x) 0.

Definition sb : superblock :=
  mkSb FSMAGIC (xint FSSIZE) (xint (FSSIZE - nmeta)) (xint NINODES) (xint nlog_) (xint 2) (xint (2 + nlog_)) (xint (2 + nlog_ + ninodeblocks)).

Record mk := mkMk { img : Z -> block; nsect : Z; freeinode : Z; freeblock : Z }.
Definition set_img f n s := mkMk f n (freeinode s) (freeblock s).
Definition set_freeinode i s := mkMk (img s) (nsect s) i (freeblock s).
Definition set_freeblock b s := mkMk (img s) (nsect s) (freeinode s) b.
Abbreviation I := (M mk).

Definition assert (b : bool) : I unit := panic_if (negb b) "assert".
Definition die {A} : I A := panic "die".

(** The sector of file offset [sec * BSIZE], a 32-bit product. *)
Definition sector (sec : Z) : Z := u32 (sec * BSIZE) / BSIZE.
Definition wsect (sec : Z) (d : block) : I unit :=
  modify (fun s => set_img (zset (img s) (sector sec) d) (Z.max (nsect s) (sector sec + 1)) s).
Definition rsect (sec : Z) : I block :=
  s ← get; if sector sec <? nsect s then mret (img s (sector sec)) else die.

Definition no_inode : inode := inode0.
Definition winode (inum : Z) (din : inode) : I unit :=
  let bn := IBLOCK sb inum in
  buf ← rsect bn;
  wsect bn (put_dinode buf (dip_off inum) din).
Definition rinode (inum : Z) : I inode :=
  buf ← rsect (IBLOCK sb inum);
  mret (get_dinode buf (dip_off inum) no_inode).

Definition ialloc (type : Z) : I Z :=
  inum ← gets freeinode;
  _ ← modify (set_freeinode (u32 (inum + 1)));
  _ ← winode inum (mkI 0 0 0 false false (xshort type) 0 0 (xshort 1) (xint 0) (repeat 0 13));
  mret inum.

(** [for (i = 0; i < used; i++)] *)
Definition bitmap (used : Z) : block := foldl mark_bit zeros (map Z.of_nat (seq 0 (Z.to_nat used))).
Definition balloc (used : Z) : I unit :=
  _ ← assert (used <? BPB);
  wsect (bmapstart sb) (bitmap used).

(** [xint(freeblock++)] *)
Definition new_block : I Z :=
  b ← gets freeblock;
  _ ← modify (set_freeblock (u32 (b + 1)));
  mret (xint b).

(** The address of block [fbn]: the inode, changed when an entry of it is new, and [x]. *)
Definition block_of_file (din : inode) (fbn : nat) : I (inode * Z) :=
  if (fbn <? NDIRECT)%nat then
    if nth fbn (i_addrs din) 0 =? 0 then b ← new_block; mret (set_addr fbn b din, b)
    else mret (din, nth fbn (i_addrs din) 0)
  else
    din ← (if nth NDIRECT (i_addrs din) 0 =? 0 then b ← new_block; mret (set_addr NDIRECT b din) else mret din);
    let ind := nth NDIRECT (i_addrs din) 0 in
    indirect ← rsect ind;
    if get32 indirect (fbn - NDIRECT) =? 0 then
      b ← new_block;
      _ ← wsect ind (put32 indirect (fbn - NDIRECT) b);
      mret (din, b)
    else mret (din, get32 indirect (fbn - NDIRECT)).

(** [while (n > 0)]; [p] are the bytes left. *)
Fixpoint append_loop (fuel : nat) (din : inode) (off : Z) (p : list Z) : I (inode * Z) :=
  match p with
  | [] => mret (din, off)
  | _ =>
    match fuel with
    | O => undef "out of fuel"
    | S fuel' =>
      let fbn := off / BSIZE in
      _ ← assert (fbn <? MAXFILE);
      r ← block_of_file din (Z.to_nat fbn);
      let '(din, x) := (r : inode * Z) in
      let n1 := Z.to_nat (Z.min (Z.of_nat (length p)) ((fbn + 1) * BSIZE - off)) in
      buf ← rsect x;
      _ ← wsect x (patch buf (Z.to_nat (off - fbn * BSIZE)) (take n1 p));
      append_loop fuel' din (off + Z.of_nat n1) (drop n1 p)
    end
  end.

Definition iappend (inum : Z) (p : list Z) : I unit :=
  din ← rinode inum;
  r ← append_loop (length p) din (i_size din) p;
  let '(din, off) := (r : inode * Z) in
  winode inum (set_size off din).

(** ** [main] *)

Fixpoint zero_all (n : nat) (i : Z) : I unit :=
  match n with O => mret tt | S n' => _ ← wsect i zeros; zero_all n' (i + 1) end.

(** [memmove(buf, &sb, sizeof(sb))] *)
Definition sb_block : block :=
  patch zeros 0 (concat (map (fun v => putle 4 (repeat 0 4) 0 v)
    [magic sb; sb_size sb; nblocks sb; ninodes sb; nlog sb; logstart sb; inodestart sb; bmapstart sb])).

Definition strip_user (a : list Z) : list Z := if decide (take 5 a = bytes "user/") then drop 5 a else a.
Definition strip_underscore (a : list Z) : list Z := match a with 95 :: a' => a' | _ => a end.

Fixpoint append_all (inum : Z) (chunks : list (list Z)) : I unit :=
  match chunks with [] => mret tt | c :: chunks' => _ ← iappend inum c; append_all inum chunks' end.

(** One argument; [None] when it cannot be opened. *)
Definition add_file (f : list Z * option (list (list Z))) : I unit :=
  let '(arg, data) := f in
  let shortname := strip_user arg in
  _ ← assert (forallb (fun c => negb (c =? 47)) shortname);
  match data with
  | None => die
  | Some chunks =>
    let shortname := strip_underscore shortname in
    _ ← assert (length shortname <=? DIRSIZ)%nat;
    inum ← ialloc T_FILE;
    _ ← iappend ROOTINO (dirent (xshort inum) shortname);
    append_all inum chunks
  end.

Fixpoint add_files (l : list (list Z * option (list (list Z)))) : I unit :=
  match l with [] => mret tt | f :: l' => _ ← add_file f; add_files l' end.

(** [fix size of root inode dir] *)
Definition round_root : I unit :=
  din ← rinode ROOTINO;
  let off := (i_size din / BSIZE + 1) * BSIZE in
  winode ROOTINO (set_size off din).

Definition main (files : list (list Z * option (list (list Z)))) : I unit :=
  _ ← modify (set_freeblock nmeta);
  _ ← zero_all (Z.to_nat FSSIZE) 0;
  _ ← wsect 1 sb_block;
  rootino ← ialloc T_DIR;
  _ ← assert (rootino =? ROOTINO);
  _ ← iappend rootino (dirent (xshort rootino) (bytes "."));
  _ ← iappend rootino (dirent (xshort rootino) (bytes ".."));
  _ ← add_files files;
  _ ← round_root;
  u ← gets freeblock;
  balloc u.

(** The tool as it starts, with the image file truncated. *)
Definition start : mk := mkMk (fun _ => zeros) 0 1 0.

(** ** A file under construction *)

(** Image [f] with the one open inode [x]. *)
Definition view (f : Z -> block) (x : inode) : fs := mkFs f [x].
Definition fb (f : Z -> block) (x : inode) (bn : nat) : Z := fblock (view f x) 0 bn.
Definition ind (x : inode) : Z := nth NDIRECT (i_addrs x) 0.
Definition owned (f : Z -> block) (x : inode) (b : Z) : Prop :=
  nmeta <= b /\ (b = ind x \/ exists bn, (bn < MAXBN)%nat /\ b = fb f x bn).

Lemma fb_val f x bn : fb f x bn =
  if (bn <? NDIRECT)%nat then nth bn (i_addrs x) 0 else if ind x =? 0 then 0 else get32 (f (ind x)) (bn - NDIRECT).
Proof. reflexivity. Qed.

(** The first [nb] blocks of the file are there, between the metadata and [lim], and the file
    holds [c]. *)
Record filed (f : Z -> block) (lim : Z) (x : inode) (nb : nat) (c : list Z) : Prop := {
  fd_len : length (i_addrs x) = 13%nat;
  fd_nb : (nb <= MAXBN)%nat;
  fd_in : forall bn, (bn < nb)%nat -> nmeta <= fb f x bn < lim;
  fd_out : forall bn, (nb <= bn)%nat -> (bn < MAXBN)%nat -> fb f x bn = 0;
  fd_ind : if (NDIRECT <? nb)%nat then nmeta <= ind x < lim else ind x = 0;
  fd_inj : forall bn bn', (bn < nb)%nat -> (bn' < nb)%nat -> fb f x bn = fb f x bn' -> bn = bn';
  fd_ne : forall bn, (bn < nb)%nat -> fb f x bn <> ind x;
  fd_data : forall o, 0 <= o < FILEMAX -> fbyte (view f x) 0 o = nth (Z.to_nat o) c 0
}.

Lemma fb_kept f f' x : (ind x <> 0 -> f' (ind x) = f (ind x)) -> forall bn, fb f' x bn = fb f x bn.
Proof. intros H bn. rewrite !fb_val. destruct (Z.eqb_spec (ind x) 0); [done|]. by rewrite H. Qed.

Lemma filed_ind f lim x nb c : filed f lim x nb c -> ind x <> 0 -> nmeta <= ind x < lim.
Proof. intros H N. pose proof (fd_ind _ _ _ _ _ H). by destruct (NDIRECT <? nb)%nat. Qed.

Lemma filed_block f lim x nb c bn : filed f lim x nb c -> (bn < MAXBN)%nat -> fb f x bn <> 0 -> (bn < nb)%nat /\ nmeta <= fb f x bn < lim.
Proof.
  intros H Hb N. destruct (le_lt_dec nb bn); [by rewrite (fd_out _ _ _ _ _ H) in N|]. split; [done|by apply H].
Qed.

(** A file does not depend on blocks it does not own. *)
Lemma filed_frame f f' lim lim' x nb c : filed f lim x nb c -> lim <= lim' -> (forall b, owned f x b -> f' b = f b) ->
  filed f' lim' x nb c /\ forall b, owned f' x b <-> owned f x b.
Proof.
  intros H Hl Hf. assert (forall bn, fb f' x bn = fb f x bn) as E.
  { apply fb_kept. intros N. apply Hf. pose proof (filed_ind _ _ _ _ _ H N). split; [lia|by left]. }
  pose proof H as [H1 H2 H3 H4 H5 H6 H7 H8]. split.
  - split; [done|done| | | | | |].
    + intros bn Hb. rewrite E. specialize (H3 bn Hb). lia.
    + intros bn. rewrite E. apply H4.
    + destruct (NDIRECT <? nb)%nat; [lia|done].
    + intros bn bn'. rewrite !E. apply H6.
    + intros bn. rewrite E. apply H7.
    + intros o Ho. rewrite <- H8 by done. unfold fbyte, fcontent. set (bn := Z.to_nat (o / BSIZE)).
      change (fblock (view f' x) 0 bn) with (fb f' x bn). change (fblock (view f x) 0 bn) with (fb f x bn). rewrite E.
      destruct (Z.eqb_spec (fb f x bn) 0) as [|N]; [done|]. cbn [fblk view]. rewrite Hf; [done|].
      pose proof (block_of o Ho) as Hb. destruct (filed_block _ _ _ _ _ bn H Hb N). split; [lia|]. right. by exists bn.
  - intros b. unfold owned. by setoid_rewrite E.
Qed.

Lemma nmeta_val : nmeta = 47.
Proof. reflexivity. Qed.
Lemma FSSIZE_val : FSSIZE = 2000.
Proof. reflexivity. Qed.

(** A new zeroed block [b] at the end of the file. *)
Lemma filed_add f f' lim lim' x x' nb c b :
  filed f lim x nb c -> (nb < MAXBN)%nat -> nmeta <= lim <= b -> b < lim' -> length (i_addrs x') = 13%nat -> f' b = zeros ->
  (forall bn, (bn < MAXBN)%nat -> fb f' x' bn = if (bn =? nb)%nat then b else fb f x bn) ->
  (if (NDIRECT <=? nb)%nat then nmeta <= ind x' < lim' /\ ind x' <> b /\ (ind x' = ind x \/ lim <= ind x') else ind x' = ind x) ->
  (forall bn, (bn < nb)%nat -> f' (fb f x bn) = f (fb f x bn)) ->
  filed f' lim' x' (S nb) c /\ forall o, owned f' x' o -> owned f x o \/ lim <= o.
Proof.
  intros H Hn Hl Hb Hlen Hz Hfb Hi Hk. pose proof nmeta_val as Nv. pose proof H as [H1 H2 H3 H4 H5 H6 H7 H8].
  assert (forall bn, (bn < nb)%nat -> fb f' x' bn = fb f x bn) as Hold.
  { intros bn Hx. rewrite Hfb by lia. by rewrite (proj2 (Nat.eqb_neq _ _)) by lia. }
  assert (fb f' x' nb = b) as Hnew by (rewrite Hfb by lia; by rewrite Nat.eqb_refl).
  split.
  - split; [done|lia| | | | | |].
    + intros bn Hx. destruct (decide (bn = nb)) as [->|]; [rewrite Hnew; lia|]. rewrite Hold by lia. specialize (H3 bn ltac:(lia)). lia.
    + intros bn Hx Hm. rewrite Hfb by done. rewrite (proj2 (Nat.eqb_neq _ _)) by lia. apply H4; lia.
    + destruct (Nat.ltb_spec NDIRECT (S nb)), (Nat.leb_spec NDIRECT nb), (Nat.ltb_spec NDIRECT nb); lia.
    + intros bn bn' Hx Hx'. destruct (decide (bn = nb)) as [->|], (decide (bn' = nb)) as [->|]; try done.
      * rewrite Hnew, Hold by lia. specialize (H3 bn' ltac:(lia)). lia.
      * rewrite Hnew, Hold by lia. specialize (H3 bn ltac:(lia)). lia.
      * rewrite !Hold by lia. apply H6; lia.
    + intros bn Hx. destruct (decide (bn = nb)) as [->|].
      * rewrite Hnew. destruct (Nat.leb_spec NDIRECT nb); [lia|]. rewrite Hi. destruct (Nat.ltb_spec NDIRECT nb); lia.
      * rewrite Hold by lia. specialize (H3 bn ltac:(lia)). specialize (H7 bn ltac:(lia)). destruct (Nat.leb_spec NDIRECT nb); [|by rewrite Hi].
        destruct Hi as (_ & _ & [->|]); [done|lia].
    + intros o Ho. rewrite <- H8 by done. unfold fbyte, fcontent. pose proof (block_of o Ho) as Hbn. set (bn := Z.to_nat (o / BSIZE)) in *.
      change (fblock (view f' x') 0 bn) with (fb f' x' bn). change (fblock (view f x) 0 bn) with (fb f x bn).
      destruct (lt_eq_lt_dec bn nb) as [[Hx| ->]|Hx].
      * rewrite Hold by done. destruct (fb f x bn =? 0); [done|]. cbn [fblk view]. by rewrite Hk.
      * rewrite Hnew, (H4 nb) by lia. rewrite (proj2 (Z.eqb_neq b 0)) by lia. cbn [Z.eqb fblk view]. by rewrite Hz.
      * rewrite Hfb by done. rewrite (proj2 (Nat.eqb_neq _ _)) by lia. by rewrite (H4 bn) by lia.
  - intros o [Ho [->|(bn & Hx & ->)]].
    + destruct (NDIRECT <=? nb)%nat; [destruct Hi as (_ & _ & [E|]); [left; split; [lia|by left]|by right]|]. left. split; [done|by left].
    + rewrite Hfb in Ho |- * by done. destruct (bn =? nb)%nat; [right; lia|]. left. split; [done|]. right. by exists bn.
Qed.

(** [l] written after the contents, within the last block. *)
Lemma filed_write f lim x nb c l :
  filed f lim x (S nb) c -> (forall b, bytes_ok (f b)) -> Z.of_nat (length c) / BSIZE = Z.of_nat nb ->
  let o := Z.of_nat (length c) mod BSIZE in o + Z.of_nat (length l) <= BSIZE ->
  let f' := zset f (fb f x nb) (patch (f (fb f x nb)) (Z.to_nat o) l) in
  filed f' lim x (S nb) (c ++ l) /\ forall b, owned f' x b <-> owned f x b.
Proof.
  intros H Hok Hnb o Hl f'. pose proof H as [H1 H2 H3 H4 H5 H6 H7 H8]. pose proof nmeta_val as Nv.
  set (a := fb f x nb) in *. pose proof (H3 nb ltac:(lia)) as Ha. pose proof (H7 nb ltac:(lia)) as Hna. fold a in Ha, Hna.
  assert (forall bn, fb f' x bn = fb f x bn) as E by (apply fb_kept; intros _; by apply zset_ne).
  assert (0 <= Z.of_nat (length c) < FILEMAX) as Hc.
  { unfold FILEMAX, MAXFILE, MAXBN in *. pose proof BSIZE_val. destruct (div_mod_B (Z.of_nat (length c))) as [Ec Rc]. nia. }
  assert (forall k, (k < MAXBN)%nat -> fcontent (view f' x) 0 k =
    if (k =? nb)%nat then patch (f a) (Z.to_nat o) l else fcontent (view f x) 0 k) as Hcont.
  { intros k Hk. unfold fcontent. change (fblock (view f' x) 0 k) with (fb f' x k). change (fblock (view f x) 0 k) with (fb f x k).
    rewrite E. destruct (Nat.eqb_spec k nb) as [->|N].
    - fold a. rewrite (proj2 (Z.eqb_neq a 0)) by lia. cbn [fblk view]. unfold f'. by rewrite zset_eq.
    - destruct (Z.eqb_spec (fb f x k) 0) as [|Nk]; [done|]. cbn [fblk view]. apply zset_ne. intros Ek. apply N.
      destruct (filed_block _ _ _ _ _ k H Hk Nk). symmetry. by apply H6; [lia| |]. }
  split; [|intros b; unfold owned; by setoid_rewrite E]. split; [done|done| | |done| | |].
  - intros bn. rewrite E. apply H3.
  - intros bn. rewrite E. apply H4.
  - intros bn bn'. rewrite !E. apply H6.
  - intros bn. rewrite E. apply H7.
  - intros p Hp. assert (fcontent (view f x) 0 nb = f a) as Ea.
    { unfold fcontent. change (fblock (view f x) 0 nb) with a. by rewrite (proj2 (Z.eqb_neq a 0)) by lia. }
    rewrite (fbyte_patch (view f x) (view f' x) 0 (Z.of_nat (length c)) l Hc Hl).
    + destruct (Z.leb_spec (Z.of_nat (length c)) p) as [Hle|Hlt]; cbn [andb].
      * rewrite app_nth2 by lia. destruct (Z.ltb_spec p (Z.of_nat (length c) + Z.of_nat (length l))).
        -- f_equal. lia.
        -- rewrite H8 by done. rewrite !nth_overflow by lia. done.
      * rewrite app_nth1 by lia. by apply H8.
    + rewrite Hnb, Nat2Z.id, Ea. apply Hok.
    + intros k Hk. rewrite Hnb, Nat2Z.id, Ea. by apply Hcont.
    + done.
Qed.

(** ** The image under construction *)

(** Sectors from [freeblock] on are still zero; the blocks of [keep] are those of [g]. *)
Record world (s : mk) (keep : Z -> Prop) (g : Z -> block) : Prop := {
  w_n : nsect s = FSSIZE;
  w_ok : forall b, bytes_ok (img s b);
  w_lim : nmeta <= freeblock s <= FSSIZE;
  w_zero : forall b, freeblock s <= b -> img s b = zeros;
  w_keep : forall b, keep b -> b < freeblock s /\ img s b = g b
}.

Lemma image_sector_val b : 0 <= b < FSSIZE -> sector b = b.
Proof.
  intros H. unfold sector, FSSIZE in *. rewrite BSIZE_val. rewrite wrap_small by lia. by apply Z.div_mul.
Qed.

Lemma rsect_run s b : nsect s = FSSIZE -> 0 <= b < FSSIZE -> rsect b s = Ret (img s b, s).
Proof.
  intros Hn Hb. unfold rsect. rewrite (M_bind_Ret _ _ s s s) by done. rewrite image_sector_val, Hn by done.
  by rewrite (proj2 (Z.ltb_lt _ _)) by lia.
Qed.

Definition put_img (b : Z) (d : block) (s : mk) : mk := set_img (zset (img s) b d) (nsect s) s.

Lemma wsect_run s b d : nsect s = FSSIZE -> 0 <= b < FSSIZE -> wsect b d s = Ret (tt, put_img b d s).
Proof. intros Hn Hb. unfold wsect, modify, put_img. rewrite image_sector_val by done. by rewrite Z.max_l by lia. Qed.

Lemma xint_val x : 0 <= x < 2 ^ 32 -> xint x = x.
Proof. intros H. unfold xint. rewrite getle_putle by (cbn; lia). by apply Z.mod_small. Qed.

Lemma xshort_val x : 0 <= x < 2 ^ 16 -> xshort x = x.
Proof. intros H. unfold xshort. rewrite getle_putle by (cbn; lia). by apply Z.mod_small. Qed.

Lemma new_block_run s keep g : world s keep g -> freeblock s < FSSIZE ->
  new_block s = Ret (freeblock s, set_freeblock (freeblock s + 1) s) /\ world (set_freeblock (freeblock s + 1) s) keep g.
Proof.
  intros [W1 W2 W3 W4 W5] H. pose proof nmeta_val. pose proof FSSIZE_val. split.
  - unfold new_block. rewrite (M_bind_Ret _ _ s (freeblock s) s) by done. rewrite wrap_small by lia.
    rewrite (M_bind_Ret _ _ s tt (set_freeblock (freeblock s + 1) s)) by done. by rewrite xint_val by lia.
  - split; try done; cbn [freeblock set_freeblock img]; [lia|intros b Hb; apply W4; lia|]. intros b Hb. destruct (W5 b Hb). split; [lia|done].
Qed.

Lemma world_put s keep g b d : world s keep g -> 0 <= b < freeblock s -> ~ keep b -> bytes_ok d -> world (put_img b d s) keep g.
Proof.
  intros [W1 W2 W3 W4 W5] Hb Hk Hd. split; try done; cbn [freeblock put_img set_img img nsect].
  - intros b'. unfold zset. by destruct (b' =? b).
  - intros b' Hb'. rewrite zset_ne by lia. by apply W4.
  - intros b' Hb'. rewrite zset_ne; [by apply W5|]. by intros ->.
Qed.

(** Blocks for [nb] blocks of contents. *)
Definition need (nb : nat) : Z := Z.of_nat nb + (if (NDIRECT <? nb)%nat then 1 else 0).

(** Equal but for the addresses. *)
Definition same_meta (x y : inode) : Prop := y = set_size (i_size y) x \/ exists l, y = set_addrs l x.

Lemma nth_set_addr k b x bn : length (i_addrs x) = 13%nat -> (k < 13)%nat ->
  nth bn (i_addrs (set_addr k b x)) 0 = if (bn =? k)%nat then b else nth bn (i_addrs x) 0.
Proof.
  intros Hl Hk. cbn [set_addr i_addrs]. destruct (Nat.eqb_spec bn k) as [->|N]; [apply nth_insert_eq; lia|by apply nth_insert_ne].
Qed.

Section Block.
Context (keep : Z -> Prop) (g : Z -> block).

(** What [block_of_file] leaves behind. *)
Record extended (s s' : mk) (x x' : inode) (nb fbn : nat) (c : list Z) : Prop := {
  ex_world : world s' keep g;
  ex_filed : filed (img s') (freeblock s') x' (S fbn) c;
  ex_keep : forall b, keep b -> ~ owned (img s') x' b;
  ex_free : freeblock s' = freeblock s + (need (S fbn) - need nb);
  ex_inode : freeinode s' = freeinode s;
  ex_meta : exists l, x' = set_addrs l x
}.

Lemma keep_new s f x f' x' : world s keep g -> (forall b, keep b -> ~ owned f x b) ->
  (forall o, owned f' x' o -> owned f x o \/ freeblock s <= o) -> forall b, keep b -> ~ owned f' x' b.
Proof. intros W Hk Ho b Hb [H|H]%Ho; [by apply (Hk b)|]. destruct (w_keep _ _ _ W b Hb). lia. Qed.

Lemma direct_run s x fbn c : world s keep g -> filed (img s) (freeblock s) x fbn c -> (forall b, keep b -> ~ owned (img s) x b) ->
  (fbn < NDIRECT)%nat -> freeblock s < FSSIZE ->
  exists x' s', block_of_file x fbn s = Ret ((x', fb (img s') x' fbn), s') /\ extended s s' x x' fbn fbn c.
Proof.
  intros W H Hk Hn Hb. destruct (new_block_run s keep g W Hb) as [E W']. pose proof H as [H1 H2 H3 H4 H5 H6 H7 H8].
  pose proof nmeta_val as Nv. unfold NDIRECT, MAXBN in *. pose proof (w_lim _ _ _ W) as Wl.
  set (b := freeblock s) in *. set (s' := set_freeblock (b + 1) s) in *. set (x' := set_addr fbn b x).
  assert (forall bn, nth bn (i_addrs x') 0 = if (bn =? fbn)%nat then b else nth bn (i_addrs x) 0) as En by (intros; apply nth_set_addr; lia).
  assert (ind x' = ind x) as Ei by (unfold ind; rewrite En; by rewrite (proj2 (Nat.eqb_neq _ _)) by (unfold NDIRECT; lia)).
  assert (forall bn, fb (img s') x' bn = if (bn =? fbn)%nat then b else fb (img s) x bn) as Ef.
  { intros bn. rewrite !fb_val, Ei, En. unfold NDIRECT. destruct (Nat.ltb_spec bn 12), (Nat.eqb_spec bn fbn); try done; lia. }
  exists x', s'. split.
  { unfold block_of_file. rewrite (proj2 (Nat.ltb_lt _ _)) by (unfold NDIRECT; lia).
    specialize (H4 fbn ltac:(lia) ltac:(lia)). rewrite fb_val, (proj2 (Nat.ltb_lt _ _)) in H4 by (unfold NDIRECT; lia). rewrite H4. cbn [Z.eqb].
    rewrite (M_bind_Ret _ _ _ _ _ E). by rewrite Ef, Nat.eqb_refl. }
  destruct (filed_add (img s) (img s') b (b + 1) x x' fbn c b H) as [F O]; try done; [unfold MAXBN; lia|lia|lia| | | |].
  - unfold x'. cbn [set_addr i_addrs]. by rewrite length_insert.
  - apply (w_zero _ _ _ W). lia.
  - by rewrite (proj2 (Nat.leb_gt _ _)) by (unfold NDIRECT; lia).
  - split; [done|done|by apply (keep_new s (img s) x)| |done|by exists (<[fbn := b]> (i_addrs x))].
    cbn [freeblock set_freeblock s']. unfold need, NDIRECT. destruct (Nat.ltb_spec 12 (S fbn)), (Nat.ltb_spec 12 fbn); lia.
Qed.
(** The file has an indirect block; its image is as before. *)
Record with_ind (s s1 : mk) (x x1 : inode) (nb : nat) : Prop := {
  wi_world : world s1 keep g;
  wi_img : img s1 = img s;
  wi_free : freeblock s1 = freeblock s + (if (NDIRECT <? nb)%nat then 0 else 1);
  wi_inode : freeinode s1 = freeinode s;
  wi_len : length (i_addrs x1) = 13%nat;
  wi_meta : exists l, x1 = set_addrs l x;
  wi_direct : forall bn, (bn < NDIRECT)%nat -> nth bn (i_addrs x1) 0 = nth bn (i_addrs x) 0;
  wi_ind : nmeta <= ind x1 < freeblock s1 /\ (ind x1 = ind x \/ freeblock s <= ind x1);
  wi_keep : ~ keep (ind x1);
  wi_old : forall bn, (NDIRECT <= bn)%nat -> (bn < MAXBN)%nat -> get32 (img s (ind x1)) (bn - NDIRECT) = fb (img s) x bn
}.

Lemma ind_run s x nb c : world s keep g -> filed (img s) (freeblock s) x nb c -> (forall b, keep b -> ~ owned (img s) x b) ->
  (NDIRECT <= nb)%nat -> freeblock s < FSSIZE ->
  exists x1 s1, (if nth NDIRECT (i_addrs x) 0 =? 0 then b ← new_block; mret (set_addr NDIRECT b x) else mret x) s = Ret (x1, s1) /\
    with_ind s s1 x x1 nb.
Proof.
  intros W H Hk Hn Hb. pose proof H as [H1 H2 H3 H4 H5 H6 H7 H8]. pose proof nmeta_val as Nv. fold (ind x).
  destruct (new_block_run s keep g W Hb) as [E W']. pose proof (w_lim _ _ _ W) as Wl. destruct (Nat.ltb_spec NDIRECT nb) as [Hlt|Hge].
  - rewrite (proj2 (Z.eqb_neq (ind x) 0)) by lia. exists x, s. split; [done|]. split; try done.
    + rewrite (proj2 (Nat.ltb_lt _ _)) by lia. lia.
    + exists (i_addrs x). by destruct x.
    + split; [lia|by left].
    + intros Hx. apply (Hk _ Hx). split; [lia|by left].
    + intros bn B1 B2. rewrite fb_val, (proj2 (Nat.ltb_ge _ _)) by lia. by rewrite (proj2 (Z.eqb_neq (ind x) 0)) by lia.
  - rewrite H5. cbn [Z.eqb]. rewrite (M_bind_Ret _ _ _ _ _ E). set (b := freeblock s) in *.
    exists (set_addr NDIRECT b x), (set_freeblock (b + 1) s). split; [done|].
    assert (ind (set_addr NDIRECT b x) = b) as Ei.
    { unfold ind. rewrite nth_set_addr by (unfold NDIRECT; lia). by rewrite Nat.eqb_refl. }
    split; rewrite ?Ei; try done.
    + rewrite (proj2 (Nat.ltb_ge _ _)) by lia. cbn [freeblock set_freeblock]. lia.
    + cbn [set_addr i_addrs]. by rewrite length_insert.
    + by exists (<[NDIRECT := b]> (i_addrs x)).
    + intros bn Hx. rewrite nth_set_addr by (unfold NDIRECT; lia). by rewrite (proj2 (Nat.eqb_neq _ _)) by lia.
    + cbn [freeblock set_freeblock]. lia.
    + intros Hx. destruct (w_keep _ _ _ W b Hx). unfold b in *. lia.
    + intros bn B1 B2. rewrite (w_zero _ _ _ W) by (unfold b; lia). rewrite get32_zeros. rewrite fb_val, (proj2 (Nat.ltb_ge _ _)) by lia. by rewrite H5.
Qed.

Lemma indirect_run s x fbn c : world s keep g -> filed (img s) (freeblock s) x fbn c -> (forall b, keep b -> ~ owned (img s) x b) ->
  (NDIRECT <= fbn < MAXBN)%nat -> freeblock s + (need (S fbn) - need fbn) <= FSSIZE ->
  exists x' s', block_of_file x fbn s = Ret ((x', fb (img s') x' fbn), s') /\ extended s s' x x' fbn fbn c.
Proof.
  intros W H Hk Hn Hb. pose proof H as [H1 H2 H3 H4 H5 H6 H7 H8]. pose proof nmeta_val as Nv. pose proof FSSIZE_val as Fv.
  pose proof (w_lim _ _ _ W) as Wl.
  assert (need (S fbn) - need fbn = 1 + if (NDIRECT <? fbn)%nat then 0 else 1) as En.
  { unfold need. destruct (Nat.ltb_spec NDIRECT (S fbn)), (Nat.ltb_spec NDIRECT fbn); lia. }
  destruct (ind_run s x fbn c W H Hk ltac:(lia)) as (x1 & s1 & E1 & [I1 I2 I3 I4 I5 I6 I7 I8 I9 I10]); [destruct (NDIRECT <? fbn)%nat; lia|].
  assert (freeblock s1 < FSSIZE) as Hb1 by lia. destruct (new_block_run s1 keep g I1 Hb1) as [E2 W2]. set (b := freeblock s1) in *.
  set (i := ind x1) in *. set (s2 := set_freeblock (b + 1) s1) in *. set (d := img s i) in *. set (k := (fbn - NDIRECT)%nat).
  assert (bytes_ok d) as Hd by apply W. assert (k < 256)%nat as Hk256 by (unfold k, NDIRECT, MAXBN in *; lia).
  assert (length d = Z.to_nat 1024) as Hld by (destruct Hd as [-> _]; by rewrite BSIZE_val).
  set (s3 := put_img i (put32 d k b) s2).
  assert (forall bn, (bn < MAXBN)%nat -> fb (img s3) x1 bn = if (bn =? fbn)%nat then b else fb (img s) x bn) as Ef.
  { intros bn Hbn. rewrite fb_val. fold i. rewrite (proj2 (Z.eqb_neq i 0)) by lia. destruct (Nat.ltb_spec bn NDIRECT) as [Hx|Hx].
    - rewrite (proj2 (Nat.eqb_neq _ _)) by lia. rewrite I7, fb_val, (proj2 (Nat.ltb_lt _ _)) by done. done.
    - cbn [img s3 put_img set_img]. rewrite zset_eq. destruct (Nat.eqb_spec bn fbn) as [->|N].
      + fold k. apply get32_put32; lia.
      + rewrite get32_put32_ne by (unfold k; lia). by apply I10. }
  exists x1, s3. split.
  { unfold block_of_file. rewrite (proj2 (Nat.ltb_ge _ _)) by lia. rewrite (M_bind_Ret _ _ _ _ _ E1). cbv zeta. fold (ind x1). fold i.
    rewrite (M_bind_Ret _ _ s1 d s1) by (rewrite rsect_run by (try apply I1; lia); unfold d; by rewrite I2). fold k.
    unfold k. rewrite I10, H4 by lia. cbn [Z.eqb]. rewrite (M_bind_Ret _ _ _ _ _ E2). fold k.
    rewrite (M_bind_Ret _ _ s2 tt s3) by (apply wsect_run; [apply I1|lia]). rewrite Ef by lia. by rewrite Nat.eqb_refl. }
  assert (forall bn, (bn < fbn)%nat -> fb (img s) x bn <> i) as Hni.
  { intros bn Hbn. specialize (H3 bn Hbn). specialize (H7 bn Hbn). destruct I8 as [_ [->|]]; [done|lia]. }
  assert (freeblock s <= b) as Hsb by (rewrite I3; destruct (NDIRECT <? fbn)%nat; lia).
  destruct (filed_add (img s) (img s3) (freeblock s) (b + 1) x x1 fbn c b H) as [F O]; try done; try lia.
  - cbn [img s3 put_img set_img s2 set_freeblock]. rewrite zset_ne by lia. apply (w_zero _ _ _ I1). lia.
  - fold i. rewrite (proj2 (Nat.leb_le _ _)) by lia. split; [lia|]. split; [lia|apply I8].
  - intros bn Hbn. cbn [img s3 put_img set_img s2 set_freeblock]. rewrite zset_ne by (apply not_eq_sym; auto). by rewrite I2.
  - split; [apply world_put; [done|cbn [freeblock s2 set_freeblock]; lia|done|by apply bytes_ok_put32]|done| |
      cbn [freeblock s3 put_img set_img s2 set_freeblock]; lia|by rewrite <- I4|done].
    by apply (keep_new s (img s) x).
Qed.

Lemma block_of_file_run s x nb fbn c : world s keep g -> filed (img s) (freeblock s) x nb c -> (forall b, keep b -> ~ owned (img s) x b) ->
  (fbn < MAXBN)%nat -> nb = fbn \/ nb = S fbn -> freeblock s + (need (S fbn) - need nb) <= FSSIZE ->
  exists x' s', block_of_file x fbn s = Ret ((x', fb (img s') x' fbn), s') /\ extended s s' x x' nb fbn c.
Proof.
  intros W H Hk Hn [->| ->] Hb.
  - destruct (le_lt_dec NDIRECT fbn); [by apply indirect_run|]. apply direct_run; try done.
    unfold need in Hb. destruct (Nat.ltb_spec NDIRECT (S fbn)), (Nat.ltb_spec NDIRECT fbn); lia.
  - exists x, s. pose proof nmeta_val as Nv. pose proof FSSIZE_val as Fv. pose proof (w_lim _ _ _ W) as Wl.
    split; [|split; [done|done|done|lia|done|exists (i_addrs x); by destruct x]].
    pose proof (fd_in _ _ _ _ _ H fbn ltac:(lia)) as Hf. unfold block_of_file. rewrite fb_val in Hf |- *.
    destruct (Nat.ltb_spec fbn NDIRECT); [by rewrite (proj2 (Z.eqb_neq _ _)) by lia|].
    pose proof (fd_ind _ _ _ _ _ H) as Hi. rewrite (proj2 (Nat.ltb_lt _ _)) in Hi by lia. fold (ind x).
    rewrite (proj2 (Z.eqb_neq (ind x) 0)) in Hf |- * by lia. rewrite (M_bind_Ret _ _ s x s) by done. cbv zeta. fold (ind x).
    rewrite (M_bind_Ret _ _ s (img s (ind x)) s) by (apply rsect_run; [apply W|lia]). by rewrite (proj2 (Z.eqb_neq _ _)) by lia.
Qed.
End Block.

(** Blocks of [n] bytes. *)
Definition nblk (n : nat) : nat := Z.to_nat ((Z.of_nat n + 1023) / BSIZE).

Lemma nblk_val n q r : Z.of_nat n = BSIZE * Z.of_nat q + r -> 0 <= r < BSIZE -> nblk n = if r =? 0 then q else S q.
Proof.
  intros E Hr. unfold nblk. rewrite E. rewrite BSIZE_val in *. destruct (Z.eqb_spec r 0) as [->|N].
  - replace (1024 * Z.of_nat q + 0 + 1023) with (1023 + Z.of_nat q * 1024) by lia. rewrite Z.div_add, Z.div_small by lia. lia.
  - replace (1024 * Z.of_nat q + r + 1023) with (r - 1 + (Z.of_nat q + 1) * 1024) by lia. rewrite Z.div_add, Z.div_small by lia. lia.
Qed.

Lemma nblk_mono n n' : (n <= n')%nat -> (nblk n <= nblk n')%nat.
Proof. intros H. unfold nblk. apply Z2Nat.inj_le; [apply Z.div_pos; [lia|done]..|]. apply Z.div_le_mono; [done|lia]. Qed.

Lemma need_mono a b : (a <= b)%nat -> need a <= need b.
Proof. intros H. unfold need. destruct (Nat.ltb_spec NDIRECT a), (Nat.ltb_spec NDIRECT b); lia. Qed.

Section Append.
Context (keep : Z -> Prop) (g : Z -> block).

(** What appending leaves behind: the inode [x'] with contents [c']. *)
Record appended (s s' : mk) (x x' : inode) (c c' : list Z) : Prop := {
  ap_world : world s' keep g;
  ap_filed : filed (img s') (freeblock s') x' (nblk (length c')) c';
  ap_keep : forall b, keep b -> ~ owned (img s') x' b;
  ap_free : freeblock s' = freeblock s + (need (nblk (length c')) - need (nblk (length c)));
  ap_inode : freeinode s' = freeinode s;
  ap_meta : exists l, x' = set_addrs l x
}.

Lemma write_run s x nb c l a : world s keep g -> filed (img s) (freeblock s) x (S nb) c -> (forall b, keep b -> ~ owned (img s) x b) ->
  a = fb (img s) x nb -> Z.of_nat (length c) / BSIZE = Z.of_nat nb -> Z.of_nat (length c) mod BSIZE + Z.of_nat (length l) <= BSIZE ->
  Forall (fun y => 0 <= y < 256) l ->
  let d := patch (img s a) (Z.to_nat (Z.of_nat (length c) mod BSIZE)) l in let s' := put_img a d s in
  rsect a s = Ret (img s a, s) /\ wsect a d s = Ret (tt, s') /\ world s' keep g /\
  filed (img s') (freeblock s') x (S nb) (c ++ l) /\ forall b, keep b -> ~ owned (img s') x b.
Proof.
  intros W H Hk -> Hnb Hl Hb d s'. pose proof (fd_in _ _ _ _ _ H nb ltac:(lia)) as Ha. pose proof (w_lim _ _ _ W) as Wl.
  pose proof nmeta_val. pose proof (fd_nb _ _ _ _ _ H) as Hm. set (a := fb (img s) x nb) in *.
  destruct (filed_write (img s) (freeblock s) x nb c l H (w_ok _ _ _ W) Hnb Hl) as [F O].
  split; [apply rsect_run; [apply W|lia]|]. split; [apply wsect_run; [apply W|lia]|]. split; [|split; [exact F|]].
  - apply world_put; [done|lia| |].
    + intros Hx. apply (Hk a Hx). split; [lia|]. right. exists nb. split; [lia|done].
    + destruct (w_ok _ _ _ W a) as [L B]. split; [by unfold d; rewrite length_patch|by apply Forall_patch].
  - intros b Hkb Ho. apply (Hk b Hkb), O, Ho.
Qed.

Lemma append_loop_run fuel : forall s x c p, world s keep g -> filed (img s) (freeblock s) x (nblk (length c)) c ->
  (forall b, keep b -> ~ owned (img s) x b) -> Forall (fun y => 0 <= y < 256) p -> Z.of_nat (length c + length p) <= FILEMAX ->
  (length p <= fuel)%nat -> freeblock s + (need (nblk (length (c ++ p))) - need (nblk (length c))) <= FSSIZE ->
  exists x' s', append_loop fuel x (Z.of_nat (length c)) p s = Ret ((x', Z.of_nat (length (c ++ p))), s') /\ appended s s' x x' c (c ++ p).
Proof.
  induction fuel as [|fuel IH]; intros s x c p W H Hk Hp Hmax Hf Hcap;
    (destruct p as [|y p0]; [exists x, s; cbn [append_loop]; rewrite app_nil_r; split; [done|];
      split; [done|done|done|lia|done|exists (i_addrs x); by destruct x]|]); [cbn in Hf; lia|].
  cbn [append_loop]. set (p := y :: p0) in *. assert (0 < length p)%nat as Hp0 by (cbn; lia).
  set (n := Z.of_nat (length c)) in *. set (q := Z.to_nat (n / BSIZE)). destruct (div_mod_B n) as [En Rn].
  assert (0 <= n / BSIZE) as Hq by (apply Z.div_pos; [lia|done]). pose proof BSIZE_val as Bv.
  assert (Z.of_nat q = n / BSIZE) as Eq by (unfold q; lia). rewrite FILEMAX_val in Hmax.
  assert (q < MAXBN)%nat as Hqm by (unfold MAXBN; nia). rewrite (proj2 (Z.ltb_lt (n / BSIZE) MAXFILE)) by (unfold MAXFILE, MAXBN in *; lia).
  rewrite (M_bind_Ret _ _ s tt s) by done. fold q.
  set (n1 := Z.to_nat (Z.min (Z.of_nat (length p)) ((n / BSIZE + 1) * BSIZE - n))).
  assert ((0 < n1)%nat /\ (n1 <= length p)%nat /\ n mod BSIZE + Z.of_nat n1 <= BSIZE) as (Hn1 & Hn1p & Hn1b) by (unfold n1; nia).
  set (l := take n1 p). assert (length l = n1) as Hll by (unfold l; rewrite length_take; lia).
  assert (length (c ++ l) = length c + n1)%nat as Hcl by (rewrite length_app; lia).
  pose proof (nblk_val (length c) q (n mod BSIZE) ltac:(rewrite Eq; exact En) Rn) as Enb.
  assert (nblk (length (c ++ l)) = S q) as Enb'.
  { destruct (Z.eq_dec (n mod BSIZE + Z.of_nat n1) BSIZE) as [Ee|Ne].
    - rewrite (nblk_val _ (S q) 0); [done|lia|lia].
    - rewrite (nblk_val _ q (n mod BSIZE + Z.of_nat n1)); [|lia|lia]. by rewrite (proj2 (Z.eqb_neq _ _)) by lia. }
  assert (need (S q) <= need (nblk (length (c ++ p)))) as Hneed.
  { rewrite <- Enb'. apply need_mono, nblk_mono. rewrite !length_app. lia. }
  destruct (block_of_file_run keep g s x (nblk (length c)) q c W H Hk Hqm) as (x1 & s1 & E1 & [X1 X2 X3 X4 X5 (l1 & X6)]).
  { rewrite Enb. destruct (n mod BSIZE =? 0); [by left|by right]. }
  { lia. }
  rewrite (M_bind_Ret _ _ _ _ _ E1).
  destruct (write_run s1 x1 q c l _ X1 X2 X3 eq_refl ltac:(by rewrite Eq) ltac:(rewrite Hll; exact Hn1b) ltac:(by apply Forall_take)) as (R1 & R2 & R3 & R4 & R5).
  rewrite (M_bind_Ret _ _ _ _ _ R1). replace (n - n / BSIZE * BSIZE) with (n mod BSIZE) by lia. fold l.
  rewrite (M_bind_Ret _ _ _ _ _ R2). set (s2 := put_img _ _ s1) in *. rewrite <- Enb' in R4.
  replace (n + Z.of_nat n1) with (Z.of_nat (length (c ++ l))) by lia.
  assert ((c ++ l) ++ drop n1 p = c ++ p) as Ecat by (rewrite <- app_assoc; unfold l; by rewrite take_drop).
  destruct (IH s2 x1 (c ++ l) (drop n1 p) R3 R4 R5) as (x' & s' & E' & [A1 A2 A3 A4 A5 (l2 & A6)]).
  - by apply Forall_drop.
  - rewrite Hcl, length_drop, FILEMAX_val. lia.
  - rewrite length_drop. lia.
  - rewrite Ecat, Enb'. change (freeblock s2) with (freeblock s1). lia.
  - rewrite Ecat in E', A2, A4. exists x', s'. split; [exact E'|]. split; try done.
    + rewrite A4, Enb'. change (freeblock s2) with (freeblock s1). lia.
    + rewrite A5. change (freeinode s2) with (freeinode s1). done.
    + exists l2. rewrite A6, X6. done.
Qed.
End Append.

(** ** Inodes of the image *)

Definition ino (f : Z -> block) (inum : Z) : inode := get_dinode (f (IBLOCK sb inum)) (dip_off inum) no_inode.

(** The inode numbers that have a place before the bitmap. *)
Definition NINUM : Z := 208.

Lemma IBLOCK_range inum : 0 <= inum < NINUM -> 33 <= IBLOCK sb inum < 46.
Proof.
  intros H. unfold IBLOCK. change (inodestart sb) with 33. unfold IPB, NINUM in *.
  assert (0 <= inum / 16 < 13); [|lia]. split; [apply Z.div_pos; lia|apply Z.div_lt_upper_bound; lia].
Qed.

(** An inode as it is on disk: nothing of the table entry. *)
Definition bare (t size : Z) (l : list Z) : inode := mkI 0 0 0 false false t 0 0 1 size l.

Definition written (inum : Z) (x : inode) (s : mk) : mk :=
  put_img (IBLOCK sb inum) (put_dinode (img s (IBLOCK sb inum)) (dip_off inum) x) s.

Lemma winode_run s inum x : nsect s = FSSIZE -> 0 <= inum < NINUM -> winode inum x s = Ret (tt, written inum x s).
Proof.
  intros Hn Hi. pose proof (IBLOCK_range inum Hi). pose proof FSSIZE_val. unfold winode. cbv zeta.
  rewrite (M_bind_Ret _ _ s (img s (IBLOCK sb inum)) s) by (apply rsect_run; [done|lia]). apply wsect_run; [done|lia].
Qed.

Lemma rinode_run s inum : nsect s = FSSIZE -> 0 <= inum < NINUM -> rinode inum s = Ret (ino (img s) inum, s).
Proof.
  intros Hn Hi. pose proof (IBLOCK_range inum Hi). pose proof FSSIZE_val. unfold rinode.
  by rewrite (M_bind_Ret _ _ s (img s (IBLOCK sb inum)) s) by (apply rsect_run; [done|lia]).
Qed.

Lemma written_facts s inum t size l : (forall b, bytes_ok (img s b)) -> 0 <= inum < NINUM -> inode_range (bare t size l) ->
  let f' := img (written inum (bare t size l) s) in
  (forall b, bytes_ok (f' b)) /\ ino f' inum = bare t size l /\ (forall j, j <> inum -> ino f' j = ino (img s) j) /\
  (forall b, nmeta <= b -> f' b = img s b) /\ f' 1 = img s 1.
Proof.
  intros Hok Hi Hr f'. pose proof (IBLOCK_range inum Hi) as Hb. pose proof nmeta_val.
  assert (forall b, b <> IBLOCK sb inum -> f' b = img s b) as Ho by (intros b N; unfold f'; cbn [img written put_img set_img]; by apply zset_ne).
  assert (f' (IBLOCK sb inum) = put_dinode (img s (IBLOCK sb inum)) (dip_off inum) (bare t size l)) as Ei
    by (unfold f'; cbn [img written put_img set_img]; apply zset_eq).
  split_and!.
  - intros b. destruct (Z.eq_dec b (IBLOCK sb inum)) as [->|N]; [|by rewrite Ho]. rewrite Ei. by apply bytes_ok_put_dinode.
  - unfold ino. rewrite Ei. rewrite get_put_dinode; [done|done|]. rewrite (proj1 (Hok _)). apply dip_off_bound.
  - intros j Nj. unfold ino. destruct (Z.eq_dec (IBLOCK sb j) (IBLOCK sb inum)) as [E|N]; [|by rewrite Ho].
    rewrite E, Ei. apply get_put_dinode_other; [apply Hr|]. by apply (dip_off_apart sb); [|congruence].
  - intros b Hm. apply Ho. lia.
  - apply Ho. lia.
Qed.

Lemma filed_range f lim x nb c t size : filed f lim x nb c -> lim <= FSSIZE -> 0 <= size < 2 ^ 32 -> 0 <= t < 2 ^ 15 ->
  inode_range (bare t size (i_addrs x)).
Proof.
  intros H Hl Hs Ht. pose proof nmeta_val. pose proof FSSIZE_val. split; cbn [bare i_type i_major i_minor i_nlink i_size i_addrs]; try lia; [apply H|].
  apply list.Forall_forall. intros a Ha. apply list_elem_of_lookup in Ha as (k & Hk). pose proof (lookup_lt_Some _ _ _ Hk) as Hlt.
  rewrite (fd_len _ _ _ _ _ H) in Hlt. apply (nth_lookup_Some _ _ 0) in Hk. destruct (decide (k = 12%nat)) as [->|N].
  - change (ind x = a) in Hk. destruct (Z.eq_dec a 0); [lia|]. pose proof (filed_ind _ _ _ _ _ H). lia.
  - assert (fb f x k = a) as Ef by (rewrite fb_val, (proj2 (Nat.ltb_lt _ _)) by (unfold NDIRECT; lia); done).
    destruct (Z.eq_dec a 0); [lia|]. destruct (filed_block _ _ _ _ _ k H) as [_ ?]; [unfold MAXBN; lia|lia|lia].
Qed.

(** ** The files of the image *)

Record file_at (f : Z -> block) (lim inum t : Z) (c : list Z) : Prop := {
  fa_type : 0 <= t < 2 ^ 15;
  fa_bare : ino f inum = bare t (Z.of_nat (length c)) (i_addrs (ino f inum));
  fa_filed : filed f lim (ino f inum) (nblk (length c)) c;
  fa_max : Z.of_nat (length c) <= FILEMAX
}.

Definition total (fl : list (Z * list Z)) : Z := foldr (fun tc r => need (nblk (length (snd tc))) + r) 0 fl.

(** The image holds the files [fl], inode [1 + i] for file [i]; [freeblock] is exactly the
    metadata and what they need. *)
Record built (s : mk) (fl : list (Z * list Z)) : Prop := {
  bu_n : nsect s = FSSIZE;
  bu_ok : forall b, bytes_ok (img s b);
  bu_lim : freeblock s <= FSSIZE;
  bu_zero : forall b, freeblock s <= b -> img s b = zeros;
  bu_ino : freeinode s = 1 + Z.of_nat (length fl);
  bu_free : freeblock s = nmeta + total fl;
  bu_sb : img s 1 = sb_block;
  bu_max : 1 + Z.of_nat (length fl) <= NINUM;
  bu_file : forall i t c, fl !! i = Some (t, c) -> file_at (img s) (freeblock s) (1 + Z.of_nat i) t c;
  bu_disj : forall i j, (i < length fl)%nat -> (j < length fl)%nat -> i <> j ->
    forall b, owned (img s) (ino (img s) (1 + Z.of_nat i)) b -> ~ owned (img s) (ino (img s) (1 + Z.of_nat j)) b
}.

Lemma need_nonneg n : 0 <= need n.
Proof. unfold need. destruct (NDIRECT <? n)%nat; lia. Qed.
Lemma total_nonneg fl : 0 <= total fl.
Proof. induction fl as [|[t c] fl IH]; cbn [total foldr]; [lia|]. pose proof (need_nonneg (nblk (length (snd (t, c))))). unfold total in IH. lia. Qed.
Lemma sizes_app a b : total (a ++ b) = total a + total b.
Proof. unfold total. induction a as [|x a IH]; cbn [app foldr]; [done|]. rewrite IH. lia. Qed.
Lemma total_insert fl i t t' c c' : fl !! i = Some (t, c) ->
  total (<[i := (t', c')]> fl) = total fl + (need (nblk (length c')) - need (nblk (length c))).
Proof.
  revert i. induction fl as [|x fl IH]; intros [|i] H; try done.
  - injection H as ->. unfold total. cbn [list_insert insert foldr snd]. lia.
  - change (<[S i := (t', c')]> (x :: fl)) with (x :: <[i := (t', c')]> fl). unfold total in *. cbn [foldr]. rewrite (IH i H). lia.
Qed.

(** Other files do not see a change of blocks outside theirs. *)
Lemma file_at_frame f f' lim lim' inum t c : file_at f lim inum t c -> lim <= lim' -> ino f' inum = ino f inum ->
  (forall b, owned f (ino f inum) b -> f' b = f b) ->
  file_at f' lim' inum t c /\ forall b, owned f' (ino f' inum) b <-> owned f (ino f inum) b.
Proof.
  intros [F1 F2 F3 F4] Hl Ei Hb. destruct (filed_frame f f' lim lim' (ino f inum) _ c F3 Hl Hb) as [A B].
  split; [split; rewrite ?Ei; done|]. intros b. rewrite Ei. apply B.
Qed.

Lemma empty_filed f lim t : filed f lim (bare t 0 (repeat 0 13)) 0 [].
Proof.
  assert (forall bn, (bn < MAXBN)%nat -> fb f (bare t 0 (repeat 0 13)) bn = 0) as E.
  { intros bn _. rewrite fb_val. destruct (bn <? NDIRECT)%nat; [apply nth_repeat|done]. }
  split; try done; try (intros; lia); [intros bn _; apply E|].
  intros o Ho. unfold fbyte, fcontent. pose proof (block_of o Ho) as Hb. change (fblock (view f ?x) 0 ?n) with (fb f x n).
  rewrite E by done. cbn [Z.eqb]. unfold zeros. rewrite nth_repeat. by destruct (Z.to_nat o).
Qed.

Lemma empty_owned f t b : ~ owned f (bare t 0 (repeat 0 13)) b.
Proof.
  intros [H [->|(bn & Hb & ->)]]; rewrite nmeta_val in H; [by cbn in H|].
  rewrite (fd_out _ _ _ _ _ (empty_filed f 0 t)) in H by lia. lia.
Qed.

Lemma ialloc_run s fl t : built s fl -> 0 <= t < 2 ^ 15 -> 1 + Z.of_nat (length fl) < NINUM ->
  exists s', ialloc t s = Ret (1 + Z.of_nat (length fl), s') /\ built s' (fl ++ [(t, [])]).
Proof.
  intros [B1 B2 B3 B4 B5 B6 B7 B8 B9 B10] Ht Hm. set (inum := 1 + Z.of_nat (length fl)) in *. unfold NINUM in Hm.
  set (s1 := set_freeinode (inum + 1) s). set (x := bare t 0 (repeat 0 13)).
  assert (inode_range x) as Hr by (apply (filed_range (img s) 0 x 0 [] t 0 (empty_filed _ _ _)); unfold FSSIZE; lia).
  destruct (written_facts s1 inum t 0 (repeat 0 13) B2 ltac:(unfold NINUM; lia) Hr) as (W1 & W2 & W3 & W4 & W5).
  exists (written inum x s1). split.
  { unfold ialloc. rewrite (M_bind_Ret _ _ s inum s) by (unfold gets; by rewrite B5). rewrite wrap_small by lia.
    rewrite (M_bind_Ret _ _ s tt s1) by done. rewrite !xshort_val, xint_val by lia.
    by rewrite (M_bind_Ret _ _ _ _ _ (winode_run s1 inum x B1 ltac:(unfold NINUM; lia))). }
  fold x in W1, W2, W3, W4, W5. set (f' := img (written inum x s1)) in *. change (img s1) with (img s) in *.
  assert (forall i t0 c, fl !! i = Some (t0, c) -> file_at f' (freeblock s) (1 + Z.of_nat i) t0 c /\
    forall b, owned f' (ino f' (1 + Z.of_nat i)) b <-> owned (img s) (ino (img s) (1 + Z.of_nat i)) b) as Hold.
  { intros i t0 c Hi. pose proof (lookup_lt_Some _ _ _ Hi). apply file_at_frame with (lim := freeblock s); [by apply B9|lia|apply W3; lia|].
    intros b [Hb _]. by apply W4. }
  assert (forall i, (i < length fl)%nat -> forall b, owned f' (ino f' (1 + Z.of_nat i)) b <-> owned (img s) (ino (img s) (1 + Z.of_nat i)) b) as Hown.
  { intros i Hi. destruct (lookup_lt_is_Some_2 fl i Hi) as [[t0 c] E]. by apply (Hold i t0 c). }
  split; try done; fold f'; cbn [length].
  - intros b Hb. rewrite <- (B4 b Hb). apply W4. pose proof (total_nonneg fl). change (freeblock (written inum x s1)) with (freeblock s) in Hb. lia.
  - change (freeinode (written inum x s1)) with (inum + 1). rewrite length_app. cbn [length]. lia.
  - change (freeblock (written inum x s1)) with (freeblock s). rewrite sizes_app. change (total [(t, [])]) with 0. lia.
  - exact (eq_trans W5 B7).
  - rewrite length_app. cbn [length]. unfold NINUM. lia.
  - intros i t0 c Hi. change (freeblock (written inum x s1)) with (freeblock s). apply lookup_app_Some in Hi as [Hi|[Hge Hi]]; [by apply Hold|].
    apply list_lookup_singleton_Some in Hi as [Hi [= <- <-]]. replace (1 + Z.of_nat i) with inum by lia.
    split; [done|by rewrite W2|rewrite W2; apply empty_filed|done].
  - rewrite length_app. cbn [length]. intros i j Hi Hj N b.
    destruct (decide (i = length fl)) as [->|], (decide (j = length fl)) as [->|]; [done|..].
    + fold inum. rewrite W2. intros Hx. by apply empty_owned in Hx.
    + fold inum. rewrite W2. intros _. apply empty_owned.
    + rewrite !Hown by lia. apply B10; [lia|lia|done].
Qed.

(** Only the addresses of an inode matter. *)
Lemma filed_addrs f lim x y nb c : i_addrs x = i_addrs y -> filed f lim x nb c -> filed f lim y nb c.
Proof.
  intros E [H1 H2 H3 H4 H5 H6 H7 H8]. assert (ind y = ind x) as Ei by (unfold ind; by rewrite E).
  assert (forall bn, fb f y bn = fb f x bn) as Ef by (intros bn; rewrite !fb_val, Ei, E; done).
  split; rewrite ?Ei, <- ?E; try done.
  - intros bn. rewrite Ef. apply H3.
  - intros bn. rewrite Ef. apply H4.
  - intros bn bn'. rewrite !Ef. apply H6.
  - intros bn. rewrite Ef. apply H7.
  - intros o Ho. rewrite <- H8 by done. unfold fbyte, fcontent. change (fblock (view f ?z) 0 ?n) with (fb f z n). by rewrite Ef.
Qed.

Lemma owned_addrs f x y b : i_addrs x = i_addrs y -> owned f y b -> owned f x b.
Proof.
  intros E [H [->|(bn & Hb & ->)]]; (split; [done|]); [left; unfold ind; by rewrite E|]. right. exists bn. split; [done|].
  rewrite !fb_val. unfold ind. by rewrite E.
Qed.

Lemma owned_lim f lim x nb c b : filed f lim x nb c -> owned f x b -> b < lim.
Proof.
  intros H [Hm [->|(bn & Hb & ->)]]; rewrite nmeta_val in Hm.
  - apply (filed_ind _ _ _ _ _ H). lia.
  - apply (filed_block _ _ _ _ _ bn H Hb). lia.
Qed.

Section IAppend.
Context (s : mk) (fl : list (Z * list Z)) (i : nat) (t : Z) (c : list Z) (HB : built s fl) (Hi : fl !! i = Some (t, c)).

(** The blocks [iappend] to file [i] must not touch. *)
Definition others (b : Z) : Prop :=
  b < nmeta \/ exists j, (j < length fl)%nat /\ j <> i /\ owned (img s) (ino (img s) (1 + Z.of_nat j)) b.

Lemma world_start : world s others (img s) /\ forall b, others b -> ~ owned (img s) (ino (img s) (1 + Z.of_nat i)) b.
Proof.
  destruct HB as [B1 B2 B3 B4 B5 B6 B7 B8 B9 B10]. pose proof (total_nonneg fl) as Ht. split.
  - split; try done; [lia|]. intros b [Hb|(j & Hj & _ & Ho)]; (split; [|done]); [lia|].
    destruct (lookup_lt_is_Some_2 fl j Hj) as [[t0 c0] E]. by eapply owned_lim; [apply (B9 j t0 c0 E)|].
  - intros b [Hb|(j & Hj & N & Ho)]; [intros [H _]; lia|]. by apply (B10 j i); [done|by eapply lookup_lt_Some|done|].
Qed.

Lemma iappend_run p : Forall (fun y => 0 <= y < 256) p -> Z.of_nat (length c + length p) <= FILEMAX ->
  nmeta + total (<[i := (t, c ++ p)]> fl) <= FSSIZE ->
  exists s', iappend (1 + Z.of_nat i) p s = Ret (tt, s') /\ built s' (<[i := (t, c ++ p)]> fl).
Proof.
  intros Hp Hmax Hcap. destruct world_start as [W0 K0]. pose proof HB as [B1 B2 B3 B4 B5 B6 B7 B8 B9 B10].
  pose proof (lookup_lt_Some _ _ _ Hi) as Hil. pose proof (B9 i t c Hi) as [F1 F2 F3 F4]. set (inum := 1 + Z.of_nat i) in *.
  assert (0 <= inum < NINUM) as Hin by lia. rewrite (total_insert fl i t t c _ Hi) in Hcap. rewrite FILEMAX_val in *.
  set (x := ino (img s) inum) in *. assert (i_size x = Z.of_nat (length c)) as Esz by (rewrite F2; done).
  destruct (append_loop_run others (img s) (length p) s x c p W0 F3 K0 Hp ltac:(rewrite FILEMAX_val; lia) ltac:(lia) ltac:(lia))
    as (x' & s1 & E1 & [A1 A2 A3 A4 A5 (l & A6)]).
  set (n' := Z.of_nat (length (c ++ p))) in *. assert (n' <= 274432) as Hn' by (unfold n'; rewrite length_app; lia).
  assert (set_size n' x' = bare t n' (i_addrs x')) as Ex by (rewrite A6, F2; done).
  pose proof (filed_range (img s1) (freeblock s1) x' _ _ t n' A2 ltac:(apply A1) ltac:(lia) F1) as Hr.
  destruct (written_facts s1 inum t n' (i_addrs x') (w_ok _ _ _ A1) Hin Hr) as (W1 & W2 & W3 & W4 & W5).
  set (y := bare t n' (i_addrs x')) in *. set (s2 := written inum y s1) in *. exists s2. split.
  { unfold iappend. rewrite (M_bind_Ret _ _ _ _ _ (rinode_run s inum B1 Hin)). fold x. rewrite Esz.
    rewrite (M_bind_Ret _ _ _ _ _ E1). rewrite Ex. apply winode_run; [apply A1|done]. }
  assert (forall b, others b -> img s1 b = img s b) as Hkeep by (intros b Hb; by apply (w_keep _ _ _ A1)).
  assert (freeblock s <= freeblock s1) as Hfb.
  { rewrite A4. assert (need (nblk (length c)) <= need (nblk (length (c ++ p)))); [|lia]. apply need_mono, nblk_mono. rewrite length_app. lia. }
  assert (forall j t0 c0, fl !! j = Some (t0, c0) -> j <> i -> file_at (img s2) (freeblock s1) (1 + Z.of_nat j) t0 c0 /\
    forall b, owned (img s2) (ino (img s2) (1 + Z.of_nat j)) b <-> owned (img s) (ino (img s) (1 + Z.of_nat j)) b) as Hold.
  { intros j t0 c0 Hj Nj. pose proof (lookup_lt_Some _ _ _ Hj) as Hjl. apply file_at_frame with (lim := freeblock s); [by apply B9|done| |].
    - rewrite W3 by lia. unfold ino. rewrite Hkeep; [done|]. left. pose proof (IBLOCK_range (1 + Z.of_nat j)). pose proof nmeta_val. lia.
    - intros b Hb. rewrite W4 by apply Hb. apply Hkeep. right. by exists j. }
  destruct (filed_frame (img s1) (img s2) (freeblock s1) (freeblock s1) y _ (c ++ p) (filed_addrs _ _ x' y _ _ eq_refl A2)
    ltac:(lia) ltac:(intros b [Hb _]; by apply W4)) as [Fy Oy].
  assert (forall j, (j < length fl)%nat -> j <> i -> forall b, owned (img s2) (ino (img s2) (1 + Z.of_nat j)) b ->
    ~ owned (img s2) (ino (img s2) inum) b) as Hdis.
  { intros j Hj Nj b Hb. destruct (lookup_lt_is_Some_2 fl j Hj) as [[t0 c0] E]. apply (Hold j t0 c0 E Nj) in Hb.
    rewrite W2. intros Hx%Oy%(owned_addrs _ x'); [|done]. revert Hx. apply A3. right. by exists j. }
  split; try done; change (freeblock s2) with (freeblock s1); rewrite ?length_insert.
  - apply A1.
  - apply A1.
  - intros b Hb. rewrite W4; [by apply A1|]. pose proof (w_lim _ _ _ A1). lia.
  - change (freeinode s2) with (freeinode s1). by rewrite A5.
  - rewrite A4, (total_insert fl i t t c _ Hi). lia.
  - rewrite W5, Hkeep; [done|]. left. rewrite nmeta_val. lia.
  - done.
  - intros j t0 c0 Hj. destruct (decide (j = i)) as [->|Nj].
    + rewrite list_lookup_insert_eq in Hj by done. injection Hj as <- <-. fold inum.
      split; [done|by rewrite W2|by rewrite W2|rewrite FILEMAX_val; lia].
    + rewrite list_lookup_insert_ne in Hj by done. by apply Hold.
  - intros j k Hj Hk N b. destruct (decide (j = i)) as [->|Nj], (decide (k = i)) as [->|Nk]; [done| | |].
    + fold inum. intros Hx Hy. by apply (Hdis k Hk Nk b).
    + by apply Hdis.
    + destruct (lookup_lt_is_Some_2 fl j Hj) as [[t0 c0] E]. destruct (lookup_lt_is_Some_2 fl k Hk) as [[t1 c1] E'].
      rewrite (proj2 (Hold j t0 c0 E Nj)), (proj2 (Hold k t1 c1 E' Nk)). by apply B10.
Qed.
End IAppend.

(** ** The run of [main] *)

Section Files.
Definition byte_list (l : list Z) : Prop := Forall (fun y => 0 <= y < 256) l.

Lemma append_all_run chunks : forall s fl i t c, built s fl -> fl !! i = Some (t, c) -> Forall byte_list chunks ->
  Z.of_nat (length c + length (concat chunks)) <= FILEMAX -> nmeta + total (<[i := (t, c ++ concat chunks)]> fl) <= FSSIZE ->
  exists s', append_all (1 + Z.of_nat i) chunks s = Ret (tt, s') /\ built s' (<[i := (t, c ++ concat chunks)]> fl).
Proof.
  induction chunks as [|p chunks IH]; intros s fl i t c HB Hi Hb Hmax Hcap; cbn [concat append_all] in *.
  { exists s. rewrite app_nil_r. by rewrite list_insert_id. }
  apply list.Forall_cons in Hb as [Hp Hb]. rewrite length_app in Hmax. pose proof (lookup_lt_Some _ _ _ Hi) as Hl.
  rewrite (total_insert fl i t t c _ Hi) in Hcap.
  assert (need (nblk (length (c ++ p))) <= need (nblk (length (c ++ p ++ concat chunks)))) as Hn.
  { apply need_mono, nblk_mono. rewrite !length_app. lia. }
  destruct (iappend_run s fl i t c HB Hi p Hp ltac:(lia)) as (s1 & E1 & B1).
  { rewrite (total_insert fl i t t c _ Hi). lia. }
  destruct (IH s1 (<[i := (t, c ++ p)]> fl) i t (c ++ p) B1) as (s2 & E2 & B2).
  - by rewrite list_lookup_insert_eq.
  - done.
  - rewrite length_app. lia.
  - rewrite list_insert_insert_eq, <- app_assoc. rewrite (total_insert fl i t t c _ Hi). lia.
  - rewrite list_insert_insert_eq, <- app_assoc in B2. exists s2. by rewrite (M_bind_Ret _ _ _ _ _ E1).
Qed.

(** What an argument becomes: its name and contents. *)
Definition name_of (f : list Z * option (list (list Z))) : list Z := strip_underscore (strip_user (fst f)).
Definition data_of (f : list Z * option (list (list Z))) : list Z := match snd f with Some l => concat l | None => [] end.

Record addable (f : list Z * option (list (list Z))) : Prop := {
  ad_slash : forallb (fun c => negb (c =? 47)) (strip_user (fst f)) = true;
  ad_open : exists l, snd f = Some l /\ Forall byte_list l;
  ad_name : (length (name_of f) <= DIRSIZ)%nat /\ name_ok (name_of f);
  ad_size : Z.of_nat (length (data_of f)) <= FILEMAX
}.

(** The directory entries from inode [k] on, and the files. *)
Fixpoint dirents (k : Z) (l : list (list Z * option (list (list Z)))) : list Z :=
  match l with [] => [] | f :: l' => dirent k (name_of f) ++ dirents (k + 1) l' end.
Definition filelist (l : list (list Z * option (list (list Z)))) : list (Z * list Z) := map (fun f => (T_FILE, data_of f)) l.

Lemma dirent_bytes k name : 0 <= k < 2 ^ 16 -> name_ok name -> byte_list (dirent k name) /\ length (dirent k name) = 16%nat.
Proof.
  intros Hk Hn. destruct (strncpy_spec DIRSIZ name Hn) as (L & _ & B). split.
  - unfold dirent. apply Forall_app. split; [|done]. apply Forall_putle. cbn. repeat constructor; lia.
  - unfold dirent. rewrite length_app, length_putle, L. done.
Qed.

Lemma length_dirents l : forall k, 0 <= k -> k + Z.of_nat (length l) <= 2 ^ 16 -> Forall addable l -> length (dirents k l) = (16 * length l)%nat.
Proof.
  induction l as [|f l IH]; intros k Hk Hl Ha; [done|]. apply list.Forall_cons in Ha as [[_ _ [_ Hn] _] Ha]. cbn [dirents length] in *.
  rewrite length_app, (proj2 (dirent_bytes k _ ltac:(lia) Hn)), IH by (done || lia). lia.
Qed.

Lemma add_file_run s root fs f : built s ((T_DIR, root) :: fs) -> addable f -> 2 + Z.of_nat (length fs) < NINUM ->
  Z.of_nat (length root + 16) <= FILEMAX ->
  let fl := (T_DIR, root ++ dirent (2 + Z.of_nat (length fs)) (name_of f)) :: fs ++ [(T_FILE, data_of f)] in
  nmeta + total fl <= FSSIZE -> exists s', add_file f s = Ret (tt, s') /\ built s' fl.
Proof.
  intros HB [A1 (chunks & Ec & A2) [A3 A4] A5] Hm Hmax fl Hcap. destruct f as [arg data]. cbn [snd] in Ec. subst data.
  unfold add_file. cbn [fst] in A1. rewrite A1. rewrite (M_bind_Ret _ _ s tt s) by done.
  change (strip_underscore (strip_user arg)) with (name_of (arg, Some chunks)). cbv zeta.
  rewrite (proj2 (Nat.leb_le _ _) A3). rewrite (M_bind_Ret _ _ s tt s) by done.
  set (f := (arg, Some chunks)) in *. set (inum := 2 + Z.of_nat (length fs)) in *.
  destruct (ialloc_run s _ T_FILE HB ltac:(unfold T_FILE; lia)) as (s1 & E1 & B1); [cbn [length]; lia|].
  replace (1 + Z.of_nat (length ((T_DIR, root) :: fs))) with inum in E1 by (unfold inum; cbn [length]; lia).
  rewrite (M_bind_Ret _ _ _ _ _ E1). unfold NINUM in Hm. rewrite xshort_val by lia.
  destruct (dirent_bytes inum (name_of f) ltac:(lia) A4) as [D1 D2]. change (data_of f) with (concat chunks) in *.
  unfold fl in Hcap. cbn [total foldr snd] in Hcap. fold (total (fs ++ [(T_FILE, concat chunks)])) in Hcap. rewrite sizes_app in Hcap.
  unfold total in Hcap at 2. cbn [foldr snd] in Hcap.
  assert (need (nblk (length (@nil Z))) = 0) as Hz by reflexivity.
  pose proof (need_nonneg (nblk (length (concat chunks)))) as Hnn.
  destruct (iappend_run s1 _ 0 T_DIR root B1 eq_refl (dirent inum (name_of f)) D1 ltac:(lia)) as (s2 & E2 & B2).
  { change (<[0%nat := ?v]> ((T_DIR, root) :: fs) ++ ?w) with (v :: fs ++ w). cbn [app insert list_insert total foldr snd].
    fold (total (fs ++ [(T_FILE, [])])). rewrite sizes_app. change (total [(T_FILE, [])]) with 0. lia. }
  change (1 + Z.of_nat 0) with ROOTINO in E2. rewrite (M_bind_Ret _ _ _ _ _ E2).
  cbn [app insert list_insert] in B2. set (root' := root ++ dirent inum (name_of f)) in *.
  assert (((T_DIR, root') :: fs ++ [(T_FILE, [])]) !! S (length fs) = Some (T_FILE, [])) as Hlk.
  { change ((fs ++ [(T_FILE, [])]) !! length fs = Some (T_FILE, [])). by apply list_lookup_middle. }
  destruct (append_all_run chunks s2 _ (S (length fs)) T_FILE [] B2 Hlk A2) as (s3 & E3 & B3).
  - cbn [length Nat.add]. lia.
  - rewrite (total_insert _ _ T_FILE T_FILE [] _ Hlk). cbn [app total foldr snd]. fold (total (fs ++ [(T_FILE, [])])).
    rewrite sizes_app. change (total [(T_FILE, [])]) with 0. lia.
  - exists s3. replace inum with (1 + Z.of_nat (S (length fs))) by (unfold inum; lia). split; [done|].
    assert (fl = <[S (length fs) := (T_FILE, [] ++ concat chunks)]> ((T_DIR, root') :: fs ++ [(T_FILE, [])])) as ->; [|done].
    unfold fl. change (<[S (length fs) := ?v]> (?x :: ?l)) with (x :: <[length fs := v]> l).
    rewrite insert_app_r_alt by lia. by rewrite Nat.sub_diag.
Qed.
End Files.

Lemma total_cons t c fl : total ((t, c) :: fl) = need (nblk (length c)) + total fl.
Proof. done. Qed.

Lemma need_app_mono (a b : list Z) : need (nblk (length a)) <= need (nblk (length (a ++ b))).
Proof. apply need_mono, nblk_mono. rewrite length_app. lia. Qed.

Lemma add_files_run l : forall s root fs, built s ((T_DIR, root) :: fs) -> Forall addable l ->
  2 + Z.of_nat (length fs + length l) <= NINUM -> Z.of_nat (length root + 16 * length l) <= FILEMAX ->
  let fl := (T_DIR, root ++ dirents (2 + Z.of_nat (length fs)) l) :: fs ++ filelist l in
  nmeta + total fl <= FSSIZE -> exists s', add_files l s = Ret (tt, s') /\ built s' fl.
Proof.
  induction l as [|f l IH]; intros s root fs HB Ha Hm Hmax fl Hcap; cbn [add_files].
  { exists s. split; [done|]. unfold fl. cbn [dirents filelist map]. by rewrite !app_nil_r. }
  apply list.Forall_cons in Ha as [Hf Ha]. unfold fl in Hcap |- *. cbn [dirents filelist map length] in *. fold (filelist l) in *.
  set (k := 2 + Z.of_nat (length fs)) in *. set (de := dirent k (name_of f)) in *.
  assert (length de = 16%nat) as Hde by (apply dirent_bytes; [unfold NINUM in Hm; lia|apply Hf]).
  rewrite total_cons, sizes_app, total_cons in Hcap. pose proof (total_nonneg (filelist l)) as Hn.
  pose proof (need_app_mono (root ++ de) (dirents (k + 1) l)) as Hr. rewrite <- app_assoc in Hr.
  destruct (add_file_run s root fs f HB Hf ltac:(lia) ltac:(lia)) as (s1 & E1 & B1).
  { fold k de. rewrite total_cons, sizes_app, total_cons. change (total []) with 0. lia. }
  fold k de in B1. destruct (IH s1 (root ++ de) (fs ++ [(T_FILE, data_of f)]) B1 Ha) as (s2 & E2 & B2).
  - rewrite length_app. cbn [length]. lia.
  - rewrite length_app, Hde. lia.
  - rewrite length_app. cbn [length]. replace (2 + Z.of_nat (length fs + 1)) with (k + 1) by lia.
    rewrite total_cons, <- !app_assoc, !sizes_app, total_cons. change (total []) with 0. lia.
  - exists s2. rewrite (M_bind_Ret _ _ _ _ _ E1). split; [done|].
    rewrite length_app in B2. cbn [length] in B2. replace (2 + Z.of_nat (length fs + 1)) with (k + 1) in B2 by lia.
    by rewrite <- !app_assoc in B2.
Qed.

Lemma zero_all_run n : forall i s, (forall b, img s b = zeros) -> nsect s = i -> 0 <= i -> i + Z.of_nat n <= FSSIZE ->
  exists s', zero_all n i s = Ret (tt, s') /\ (forall b, img s' b = zeros) /\ nsect s' = i + Z.of_nat n /\
    freeinode s' = freeinode s /\ freeblock s' = freeblock s.
Proof.
  induction n as [|n IH]; intros i s Hz Hn Hi Hm; cbn [zero_all]; [exists s; rewrite Z.add_0_r; done|].
  set (s1 := set_img (zset (img s) i zeros) (i + 1) s).
  rewrite (M_bind_Ret _ _ s tt s1).
  2:{ unfold wsect, modify, s1. rewrite image_sector_val by lia. by rewrite Z.max_r by lia. }
  destruct (IH (i + 1) s1) as (s' & E & A1 & A2 & A3 & A4); [|done|lia|lia|].
  - intros b. cbn [img s1 set_img]. unfold zset. by destruct (b =? i).
  - exists s'. split; [done|]. split; [done|]. split; [lia|done].
Qed.

Lemma sb_block_ok : bytes_ok sb_block.
Proof.
  unfold sb_block. destruct bytes_ok_zeros as [L B]. split; [by rewrite length_patch|]. apply Forall_patch; [done|].
  vm_compute. repeat constructor; discriminate.
Qed.

(** The image before the first inode. *)
Lemma main_start : exists s, built s [] /\ forall (A : Type) (m : I A),
  (_ ← modify (set_freeblock nmeta); _ ← zero_all (Z.to_nat FSSIZE) 0; _ ← wsect 1 sb_block; m) start = m s.
Proof.
  pose proof nmeta_val as Nv. pose proof FSSIZE_val as Fv. set (s0 := set_freeblock nmeta start).
  destruct (zero_all_run (Z.to_nat FSSIZE) 0 s0) as (s1 & E1 & A1 & A2 & A3 & A4); [done|done|lia|lia|].
  assert (nsect s1 = FSSIZE) as En by lia. exists (put_img 1 sb_block s1). split.
  - split; cbn [img put_img set_img nsect freeblock freeinode]; [exact En| | | |by rewrite A3| |by apply zset_eq|done|done|].
    + intros b. unfold zset. destruct (b =? 1); [apply sb_block_ok|]. rewrite A1. apply bytes_ok_zeros.
    + rewrite A4. change (freeblock s0) with nmeta. lia.
    + intros b Hb. rewrite A4 in Hb. change (freeblock s0) with nmeta in Hb. rewrite zset_ne by lia. apply A1.
    + rewrite A4. change (freeblock s0) with nmeta. change (total []) with 0. lia.
    + intros i j Hi. cbn in Hi. lia.
  - intros A m. rewrite (M_bind_Ret _ _ start tt s0) by done. rewrite (M_bind_Ret _ _ _ _ _ E1).
    by rewrite (M_bind_Ret _ _ s1 tt (put_img 1 sb_block s1)) by (apply wsect_run; [done|lia]).
Qed.

(** The files of the image: the root directory, then the arguments. *)
Definition rootdir (l : list (list Z * option (list (list Z)))) : list Z :=
  dirent 1 (bytes ".") ++ dirent 1 (bytes "..") ++ dirents 2 l.
Definition contents (l : list (list Z * option (list (list Z)))) : list (Z * list Z) := (T_DIR, rootdir l) :: filelist l.

Lemma main_files files : Forall addable files -> 2 + Z.of_nat (length files) <= NINODES -> nmeta + total (contents files) <= FSSIZE ->
  exists s, main files start = (_ ← round_root; u ← gets freeblock; balloc u) s /\ built s (contents files).
Proof.
  intros Ha Hm Hcap. destruct main_start as (s0 & B0 & E0). pose proof nmeta_val as Nv. unfold NINODES in Hm.
  assert (forall nm, name_ok nm -> byte_list (dirent 1 nm) /\ length (dirent 1 nm) = 16%nat) as Hd by (intros; by apply dirent_bytes).
  destruct (Hd (bytes ".")) as [D1 L1]; [repeat constructor; done|]. destruct (Hd (bytes "..")) as [D2 L2]; [repeat constructor; done|].
  unfold contents, rootdir in Hcap |- *. rewrite total_cons in Hcap. pose proof (total_nonneg (filelist files)) as Hn.
  set (d1 := dirent 1 (bytes ".")) in *. set (d2 := dirent 1 (bytes "..")) in *.
  pose proof (need_app_mono (d1 ++ d2) (dirents 2 files)) as Hn2. rewrite <- app_assoc in Hn2. pose proof (need_app_mono d1 d2) as Hn1.
  destruct (ialloc_run s0 [] T_DIR B0 ltac:(unfold T_DIR; lia) ltac:(done)) as (s1 & E1 & B1).
  destruct (iappend_run s1 _ 0 T_DIR [] B1 eq_refl d1 D1) as (s2 & E2 & B2).
  { rewrite FILEMAX_val, L1. done. }
  { change (nmeta + total [(T_DIR, d1)] <= FSSIZE). rewrite total_cons. change (total []) with 0. lia. }
  change (built s2 [(T_DIR, d1)]) in B2. destruct (iappend_run s2 _ 0 T_DIR d1 B2 eq_refl d2 D2) as (s3 & E3 & B3).
  { rewrite FILEMAX_val, L1, L2. done. }
  { change (nmeta + total [(T_DIR, d1 ++ d2)] <= FSSIZE). rewrite total_cons. change (total []) with 0. lia. }
  change (built s3 [(T_DIR, d1 ++ d2)]) in B3. destruct (add_files_run files s3 (d1 ++ d2) [] B3 Ha) as (s4 & E4 & B4).
  - cbn [length Nat.add]. unfold NINUM. lia.
  - rewrite length_app, L1, L2, FILEMAX_val. lia.
  - cbn [length app]. change (2 + Z.of_nat 0) with 2. rewrite total_cons, <- app_assoc. lia.
  - cbn [length app] in B4. change (2 + Z.of_nat 0) with 2 in B4. rewrite <- app_assoc in B4. exists s4. split; [|exact B4].
    unfold main. rewrite E0, (M_bind_Ret _ _ _ _ _ E1). change (1 + Z.of_nat (length [])) with ROOTINO. change (xshort ROOTINO) with 1.
    rewrite (M_bind_Ret _ _ s1 tt s1) by done. rewrite (M_bind_Ret _ _ _ _ _ E2), (M_bind_Ret _ _ _ _ _ E3).
    by rewrite (M_bind_Ret _ _ _ _ _ E4).
Qed.
