(* ===== verification/MkfsBoot.v ===== *)
(** * The kernel on the image that [mkfs] wrote

    The last steps of [main], the bitmap, and the finished image as the file system of
    [FsInode], [FsData] and [FsDir] sees it. *)

From S2P Require Import Prelude Mlfq Bio FsBlk Words FsInode FsData FsDir FsTable Mkfs.

(** ** The bitmap *)

Lemma bitmap_spec u : 0 <= u <= BPB -> bytes_ok (bitmap u) /\ forall bi, 0 <= bi -> bit_set (bitmap u) bi = (bi <? u).
Proof.
  intros Hu. unfold bitmap.
  assert (forall n, Z.of_nat n <= BPB -> bytes_ok (foldl mark_bit zeros (map Z.of_nat (seq 0 n))) /\
    forall bi, 0 <= bi -> bit_set (foldl mark_bit zeros (map Z.of_nat (seq 0 n))) bi = (bi <? Z.of_nat n)) as H.
  2:{ destruct (H (Z.to_nat u) ltac:(lia)) as [A B]. split; [done|]. intros bi Hb. rewrite B, Z2Nat.id by lia. done. }
  induction n as [|n IH]; intros Hn.
  - split; [apply bytes_ok_zeros|]. intros bi Hb. rewrite (proj2 (Z.ltb_ge _ _)) by lia. cbn [seq map foldl].
    rewrite bit_set_testbit. unfold zeros. rewrite nth_repeat. apply Z.testbit_0_l.
  - rewrite seq_S, map_app, foldl_app. cbn [map foldl Nat.add]. destruct (IH ltac:(lia)) as [I1 I2].
    split; [by apply bytes_ok_insert|]. intros bi Hb. rewrite mark_bit_spec by (try apply I1; lia). rewrite I2 by done.
    destruct (Z.eqb_spec bi (Z.of_nat n)), (Z.ltb_spec bi (Z.of_nat n)), (Z.ltb_spec bi (Z.of_nat (S n))); try done; lia.
Qed.

(** ** The finished image *)

Lemma mkfs_layout : layout sb.
Proof.
  split; [vm_compute; split; congruence|vm_compute; congruence|]. intros b Hb. change (sb_size sb) with 2000 in Hb. unfold BBLOCK.
  change (bmapstart sb) with 46. change (datastart sb) with 47. rewrite BPB_val, Z.div_small by lia. lia.
Qed.

Definition root_size (root : list Z) : Z := (Z.of_nat (length root) / BSIZE + 1) * BSIZE.

(** The image holds [fl], with the size of the root directory rounded up; the blocks below [lim]
    are in use. *)
Record image (f : Z -> block) (lim : Z) (root : list Z) (fl : list (Z * list Z)) : Prop := {
  im_ok : forall b, bytes_ok (f b);
  im_used : forall b, 0 <= b < FSSIZE -> used sb f b = (b <? lim);
  im_lim : nmeta <= lim <= FSSIZE;
  im_sb : f 1 = sb_block;
  im_root : ino f 1 = bare T_DIR (root_size root) (i_addrs (ino f 1)) /\ filed f lim (ino f 1) (nblk (length root)) root;
  im_file : forall i t c, fl !! i = Some (t, c) -> file_at f lim (2 + Z.of_nat i) t c;
  im_disj : forall i j, 1 <= i <= 1 + Z.of_nat (length fl) -> 1 <= j <= 1 + Z.of_nat (length fl) -> i <> j ->
    forall b, owned f (ino f i) b -> ~ owned f (ino f j) b
}.

Lemma BBLOCK_val b : 0 <= b < FSSIZE -> BBLOCK sb b = 46 /\ b mod BPB = b.
Proof.
  intros H. rewrite FSSIZE_val in H. unfold BBLOCK. change (bmapstart sb) with 46. rewrite BPB_val, Z.div_small, Z.mod_small by lia. lia.
Qed.

Lemma image_done_run s root fl : built s ((T_DIR, root) :: fl) -> Z.of_nat (length root) < 2 ^ 20 ->
  exists s', (_ ← round_root; u ← gets freeblock; balloc u) s = Ret (tt, s') /\ nsect s' = FSSIZE /\
    image (img s') (nmeta + total ((T_DIR, root) :: fl)) root fl.
Proof.
  intros HB Hr. pose proof HB as [B1 B2 B3 B4 B5 B6 B7 B8 B9 B10]. pose proof (B9 0%nat T_DIR root eq_refl) as [F1 F2 F3 F4].
  cbn [length] in *. change (1 + Z.of_nat 0) with 1 in *. set (f := img s) in *. set (lim := freeblock s) in *. pose proof nmeta_val as Nv.
  pose proof FSSIZE_val as Fv. pose proof BSIZE_val as Bv. pose proof (total_nonneg ((T_DIR, root) :: fl)) as Ht.
  assert (0 <= root_size root < 2 ^ 32) as Hs.
  { unfold root_size. destruct (div_mod_B (Z.of_nat (length root))) as [E R]. rewrite Bv in *. lia. }
  destruct (written_facts s 1 T_DIR (root_size root) (i_addrs (ino f 1)) B2 ltac:(unfold NINUM; lia)) as (W1 & W2 & W3 & W4 & W5).
  { apply (filed_range f lim (ino f 1) _ root _ _ F3); [lia|done|done]. }
  set (x := bare T_DIR (root_size root) (i_addrs (ino f 1))) in *. set (s1 := written 1 x s) in *.
  destruct (bitmap_spec lim) as [M1 M2]; [rewrite BPB_val; lia|]. set (s2 := put_img 46 (bitmap lim) s1). exists s2.
  assert (forall b, b <> 46 -> img s2 b = img s1 b) as Hne by (intros b N; cbn [img s2 put_img set_img]; by apply zset_ne).
  assert (forall i, 0 <= i < NINUM -> ino (img s2) i = ino (img s1) i) as Hino.
  { intros i Hi. unfold ino. pose proof (IBLOCK_range i Hi). rewrite Hne by lia. done. }
  split; [|split; [done|]].
  { unfold round_root. rewrite (M_bind_Ret _ _ s tt s1).
    2:{ rewrite (M_bind_Ret _ _ _ _ _ (rinode_run s 1 B1 ltac:(unfold NINUM; lia))). cbv zeta. fold f.
        assert (i_size (ino f 1) = Z.of_nat (length root)) as -> by (rewrite F2; done). fold (root_size root).
        replace (set_size (root_size root) (ino f 1)) with x by (unfold x; rewrite F2 at 2; done). apply winode_run; [done|unfold ROOTINO, NINUM; lia]. }
    rewrite (M_bind_Ret _ _ s1 lim s1) by done. unfold balloc. rewrite (proj2 (Z.ltb_lt _ _)) by (rewrite BPB_val; lia).
    rewrite (M_bind_Ret _ _ s1 tt s1) by done. change (bmapstart sb) with 46. apply wsect_run; [done|lia]. }
  rewrite <- B6. fold lim.
  assert (forall i t c, ((T_DIR, root) :: fl) !! i = Some (t, c) -> i <> 0%nat -> file_at (img s2) lim (1 + Z.of_nat i) t c /\
    forall b, owned (img s2) (ino (img s2) (1 + Z.of_nat i)) b <-> owned f (ino f (1 + Z.of_nat i)) b) as Hfile.
  { intros i t c Hi N. pose proof (lookup_lt_Some _ _ _ Hi) as Hl. cbn [length] in Hl. apply file_at_frame with (lim := lim); [by apply B9|lia| |].
    - rewrite Hino by lia. apply W3. lia.
    - intros b [Hb _]. rewrite Hne by lia. by apply W4. }
  destruct (filed_frame f (img s2) lim lim x _ root (filed_addrs _ _ (ino f 1) x _ _ eq_refl F3) ltac:(lia)) as [Fr Or].
  { intros b [Hb _]. rewrite Hne by lia. by apply W4. }
  assert (ino (img s2) 1 = x) as Ex by (rewrite Hino by (unfold NINUM; lia); exact W2).
  assert (forall i, 1 <= i <= 1 + Z.of_nat (length fl) -> forall b, owned (img s2) (ino (img s2) i) b <-> owned f (ino f i) b) as Hown.
  { intros i Hi b. destruct (Z.eq_dec i 1) as [->|N].
    - rewrite Ex, Or. split; [by apply owned_addrs|by apply owned_addrs].
    - replace i with (1 + Z.of_nat (Z.to_nat (i - 1))) by lia.
      destruct (lookup_lt_is_Some_2 ((T_DIR, root) :: fl) (Z.to_nat (i - 1))) as [[t c] E]; [cbn [length]; lia|]. apply (Hfile _ t c E). lia. }
  split; [|by intros b Hb; unfold used; destruct (BBLOCK_val b Hb) as [-> ->]; cbn [img s2 put_img set_img]; rewrite zset_eq; apply M2; lia
    |lia|rewrite Hne by lia; rewrite W5; done| | |].
  - intros b. destruct (Z.eq_dec b 46) as [->|N]; [|by rewrite Hne]. cbn [img s2 put_img set_img]. by rewrite zset_eq.
  - rewrite Ex. split; [done|exact Fr].
  - intros i t c Hi. replace (2 + Z.of_nat i) with (1 + Z.of_nat (S i)) by lia. by apply (Hfile (S i) t c Hi).
  - intros i j Hi Hj N b. rewrite !Hown by done. replace i with (1 + Z.of_nat (Z.to_nat (i - 1))) by lia.
    replace j with (1 + Z.of_nat (Z.to_nat (j - 1))) by lia. apply B10; lia.
Qed.

(** ** The kernel's view *)

Lemma image_disk f lim root fl : image f lim root fl -> DInv sb f.
Proof.
  intros [I1 I2 I3 _ _ _ _]. split; [done|]. intros b Hb. change (sb_size sb) with FSSIZE in Hb. rewrite I2 by done.
  change (datastart sb) with nmeta. intros Hx%Z.ltb_ge. lia.
Qed.

Lemma view_byte s ip o : fbyte s ip o = fbyte (view (fblk s) (geti s ip)) 0 o.
Proof. reflexivity. Qed.

Lemma mkfs_home inum : 1 <= inum < NINUM -> inode_home sb inum.
Proof.
  intros H. pose proof (IBLOCK_range inum ltac:(lia)) as Hb. split.
  - intros (x & Hx & E). change (sb_size sb) with FSSIZE in Hx. destruct (BBLOCK_val x Hx) as [Ex _]. lia.
  - change (datastart sb) with 47. lia.
Qed.

(** An open file of the image is in good order. *)
Lemma image_file_ok f lim root fl s ip nb c : image f lim root fl -> fblk s = f -> (ip < length (itab s))%nat ->
  filed f lim (geti s ip) nb c -> 0 <= i_size (geti s ip) <= Z.of_nat nb * BSIZE -> 1 <= i_inum (geti s ip) < NINUM -> file_ok sb s ip.
Proof.
  intros HI Ef Hip H Hs Hn. pose proof HI as [I1 I2 I3 _ _ _ _]. pose proof H as [H1 H2 H3 H4 H5 H6 H7 H8]. pose proof nmeta_val as Nv.
  set (x := geti s ip) in *. assert (forall bn, fblock s ip bn = fb f x bn) as Eb by (intros bn; rewrite <- Ef; reflexivity).
  assert (ind_addr s ip = ind x) as Ei by reflexivity.
  assert (forall a, nmeta <= a < lim -> live sb (fblk s) a) as Hlive.
  { intros a Ha. rewrite Ef. split; [unfold data_block; change (datastart sb) with nmeta; change (sb_size sb) with FSSIZE; lia|].
    rewrite I2 by lia. apply Z.ltb_lt. lia. }
  split.
  - rewrite Ef. by eapply image_disk.
  - split; [done|done| | |].
    + rewrite Ei. intros N. by apply Hlive, (filed_ind _ _ _ _ _ H).
    + intros bn Hb. rewrite Eb, Ei. intros N. destruct (filed_block _ _ _ _ _ bn H Hb N). split; [by apply Hlive|by apply H7].
    + intros bn bn' Hb Hb'. rewrite !Eb. intros N E. apply H6; [by eapply filed_block| |done].
      apply (filed_block _ _ _ _ _ bn' H Hb'). congruence.
  - pose proof FILEMAX_val as Fv. rewrite BSIZE_val in Hs. unfold MAXBN in H2. fold x. lia.
  - by apply mkfs_home.
  - intros o Ho. fold x in Ho. rewrite Eb. pose proof (H3 (Z.to_nat (o / BSIZE))) as Hx. rewrite BSIZE_val in *.
    assert (0 <= o / 1024 < Z.of_nat nb) by (split; [apply Z.div_pos; lia|apply Z.div_lt_upper_bound; lia]). lia.
Qed.

(** What [iget] enters in the table. *)
Definition entered (dev inum : Z) : inode := mkI dev inum 1 false false 0 0 0 0 0 (repeat 0 13).
Definition opened (dev inum : Z) (x : inode) : inode :=
  mkI dev inum 1 true true (i_type x) (i_major x) (i_minor x) (i_nlink x) (i_size x) (i_addrs x).

Lemma ilock_image s ip dev inum : (ip < length (itab s))%nat -> geti s ip = entered dev inum -> i_type (ino (fblk s) inum) <> 0 ->
  ilock sb ip s = Ret (tt, mkFs (fblk s) (<[ip := opened dev inum (ino (fblk s) inum)]> (itab s))).
Proof.
  intros Hip Hg Ht. unfold ilock, readip. rewrite (M_bind_Ret _ _ s (entered dev inum) s) by (unfold gets; by rewrite Hg).
  rewrite (M_bind_Ret _ _ s tt s) by done. cbn [entered i_locked i_valid].
  set (s1 := updi ip (set_locked true) s). unfold modi. rewrite (M_bind_Ret _ _ s tt s1) by done. set (d := fblk s (IBLOCK sb inum)).
  unfold readb. rewrite (M_bind_Ret _ _ s1 d s1) by done. set (h := fun y : inode => set_valid true (get_dinode d (dip_off (i_inum y)) y)).
  rewrite (M_bind_Ret _ _ s1 tt (updi ip h s1)) by done.
  assert (geti s1 ip = set_locked true (entered dev inum)) as G1 by (unfold s1; rewrite geti_updi by done; by rewrite Hg).
  assert (updi ip h s1 = mkFs (fblk s) (<[ip := opened dev inum (ino (fblk s) inum)]> (itab s))) as ->.
  { unfold updi. rewrite G1. unfold s1, updi. cbn [fblk itab]. rewrite list_insert_insert_eq. reflexivity. }
  rewrite (M_bind_Ret _ _ _ (i_type (ino (fblk s) inum)) (mkFs (fblk s) (<[ip := opened dev inum (ino (fblk s) inum)]> (itab s)))).
  - by rewrite (proj2 (Z.eqb_neq _ _) Ht).
  - unfold gets, geti. cbn [itab]. by rewrite nth_insert_eq.
Qed.

Lemma fbytes_filed f lim s ip nb c : fblk s = f -> filed f lim (geti s ip) nb c -> Z.of_nat (length c) <= FILEMAX ->
  fbytes s ip 0 (Z.of_nat (length c)) = c.
Proof.
  intros Ef H Hm. unfold fbytes. rewrite Nat2Z.id. apply (nth_ext _ _ 0 0); [by rewrite length_map, length_seq|].
  intros k Hk. rewrite length_map, length_seq in Hk. rewrite (nth_indep _ 0 (fbyte s ip (0 + Z.of_nat 0))) by (by rewrite length_map, length_seq).
  rewrite (map_nth (fun k => fbyte s ip (0 + Z.of_nat k)) (seq 0 (length c)) 0%nat k), seq_nth by done.
  rewrite view_byte, Ef, (fd_data _ _ _ _ _ H) by lia. f_equal. lia.
Qed.

Lemma nblk_cover n : Z.of_nat n <= Z.of_nat (nblk n) * BSIZE.
Proof.
  unfold nblk. rewrite BSIZE_val. pose proof (Z.div_mod (Z.of_nat n + 1023) 1024 ltac:(lia)).
  pose proof (Z.mod_pos_bound (Z.of_nat n + 1023) 1024 ltac:(lia)). lia.
Qed.

(** Reading a whole file. *)
Lemma image_read f lim root fl s ip dev inum t c copyout dst n : image f lim root fl -> fblk s = f -> (ip < length (itab s))%nat ->
  geti s ip = entered dev inum -> file_at f lim inum t c -> t <> 0 -> 1 <= inum < NINUM -> Z.of_nat (length c) <= n < 2 ^ 32 ->
  exists s', (_ ← ilock sb ip; readi copyout sb ip false dst 0 n) s = Ret ((Z.of_nat (length c), c), s') /\ fblk s' = f /\ file_ok sb s' ip.
Proof.
  intros HI Ef Hip Hg [F1 F2 F3 F4] Ht Hn Hlen. set (s' := mkFs (fblk s) (<[ip := opened dev inum (ino (fblk s) inum)]> (itab s))).
  rewrite (M_bind_Ret _ _ s tt s').
  2:{ apply ilock_image; [done|done|]. rewrite Ef, F2. exact Ht. }
  assert (geti s' ip = opened dev inum (ino f inum)) as G by (unfold geti, s'; cbn [itab]; rewrite nth_insert_eq by done; by rewrite Ef).
  assert (filed f lim (geti s' ip) (nblk (length c)) c) as Hf by (rewrite G; by apply (filed_addrs _ _ (ino f inum))).
  assert (i_size (geti s' ip) = Z.of_nat (length c)) as Es by (rewrite G; cbn [opened i_size]; rewrite F2; done).
  assert (file_ok sb s' ip) as Hok.
  { eapply image_file_ok; [done|exact Ef|by unfold s'; cbn [itab]; rewrite length_insert|exact Hf| |by rewrite G].
    rewrite Es. pose proof (nblk_cover (length c)). lia. }
  exists s'. split; [|by split]. destruct (readi_spec sb mkfs_layout copyout s' ip false dst 0 n Hok) as [E|[? _]]; [lia|lia|lia| |done].
  rewrite E, Es, Z.sub_0_r. rewrite Z.max_r, Z.min_r by lia. by rewrite (fbytes_filed f lim s' ip _ c Ef Hf F4).
Qed.

(** ** The root directory *)

Fixpoint direntl (k : Z) (l : list (list Z * option (list (list Z)))) : list (list Z) :=
  match l with [] => [] | f :: l' => dirent k (name_of f) :: direntl (k + 1) l' end.
Definition rootlist (l : list (list Z * option (list (list Z)))) : list (list Z) :=
  dirent 1 (bytes ".") :: dirent 1 (bytes "..") :: direntl 2 l.

Lemma concat_direntl l : forall k, concat (direntl k l) = dirents k l.
Proof. induction l as [|f l IH]; intros k; cbn [direntl concat dirents]; [done|]. by rewrite IH. Qed.

Lemma rootlist_ok l : Forall addable l -> 2 + Z.of_nat (length l) <= NINODES ->
  concat (rootlist l) = rootdir l /\ Forall (fun d => length d = 16%nat) (rootlist l) /\ length (rootlist l) = (2 + length l)%nat.
Proof.
  intros Ha Hm. unfold NINODES in Hm. split; [|split].
  - unfold rootlist, rootdir. cbn [concat]. by rewrite concat_direntl.
  - constructor; [by apply dirent_bytes; [|repeat constructor]|]. constructor; [by apply dirent_bytes; [|repeat constructor]|].
    assert (forall k, 0 <= k -> k + Z.of_nat (length l) <= 2 ^ 16 -> Forall (fun d => length d = 16%nat) (direntl k l)) as H; [|apply H; lia].
    clear Hm. induction Ha as [|f l [_ _ [_ Hn] _] _ IH]; intros k Hk Hl; cbn [direntl length] in *; constructor; [|apply IH; lia].
    apply dirent_bytes; [lia|done].
  - unfold rootlist. cbn [length]. assert (forall k, length (direntl k l) = length l) as ->; [|done].
    clear. induction l as [|f l IH]; intros k; cbn [direntl length]; [done|]. by rewrite IH.
Qed.

Lemma length_rootdir l : Forall addable l -> 2 + Z.of_nat (length l) <= NINODES -> length (rootdir l) = (16 * (2 + length l))%nat.
Proof.
  intros Ha Hm. destruct (rootlist_ok l Ha Hm) as (R1 & R2 & R3). rewrite <- R1, <- R3. clear -R2.
  induction R2 as [|d ds Hd _ IH]; [done|]. cbn [concat length]. rewrite length_app, Hd, IH. lia.
Qed.

Lemma nth_concat16 (ds : list (list Z)) : Forall (fun d => length d = 16%nat) ds -> forall k d j, ds !! k = Some d -> (j < 16)%nat ->
  nth (16 * k + j) (concat ds) 0 = nth j d 0.
Proof.
  induction 1 as [|e ds He _ IH]; intros [|k] d j Hk Hj; try done; cbn [concat].
  - injection Hk as ->. apply app_nth1. lia.
  - rewrite app_nth2 by lia. rewrite <- (IH k d j Hk Hj). f_equal. lia.
Qed.

Lemma entries_take s dp ds nb lim : filed (fblk s) lim (geti s dp) nb (concat ds) -> Forall (fun d => length d = 16%nat) ds ->
  (length ds <= nentries s dp)%nat -> Z.of_nat (16 * length ds) <= FILEMAX -> take (length ds) (entries s dp) = ds.
Proof.
  intros H Hd Hn Hm. unfold entries. rewrite firstn_map, take_seq, Nat.min_l by done. apply list_eq. intros k.
  rewrite list_lookup_fmap. destruct (ds !! k) as [d|] eqn:Ek.
  - pose proof (lookup_lt_Some _ _ _ Ek) as Hk. rewrite lookup_seq_lt by done. cbn [fmap option_fmap option_map Nat.add]. f_equal.
    pose proof (proj1 (list.Forall_forall _ _) Hd d ltac:(by eapply list_elem_of_lookup_2)) as Hl.
    unfold entry, fbytes. change (Z.to_nat 16) with 16%nat. apply (nth_ext _ _ 0 0); [by rewrite length_map, length_seq|].
    intros j Hj. rewrite length_map, length_seq in Hj.
    rewrite (nth_indep _ 0 (fbyte s dp (16 * Z.of_nat k + Z.of_nat 0))) by (by rewrite length_map, length_seq).
    rewrite (map_nth (fun j => fbyte s dp (16 * Z.of_nat k + Z.of_nat j)) (seq 0 16) 0%nat j), seq_nth by done.
    rewrite view_byte, (fd_data _ _ _ _ _ H) by lia. rewrite <- (nth_concat16 ds Hd k d j Ek Hj). f_equal. lia.
  - apply lookup_ge_None_1 in Ek. by rewrite lookup_seq_ge.
Qed.

Lemma find_direntl l : forall k off i f, Forall addable l -> 0 < k -> k + Z.of_nat (length l) <= 2 ^ 16 -> l !! i = Some f ->
  (forall j g, (j < i)%nat -> l !! j = Some g -> name_of g <> name_of f) ->
  find_in (name_of f) (direntl k l) off = Some (k + Z.of_nat i, off + 16 * Z.of_nat i).
Proof.
  induction l as [|e l IH]; intros k off [|i] f Ha Hk Hl Hi Hd; try done; cbn [length] in Hl;
    apply list.Forall_cons in Ha as [[_ _ [N1 N2] _] Ha]; cbn [direntl find_in].
  - injection Hi as ->. rewrite (names_dirent (fun _ _ => true)) by (done || lia). rewrite bool_decide_true by done.
    rewrite (proj1 (proj2 (dirent_spec k (name_of f) ltac:(lia) N2))). do 2 f_equal; lia.
  - pose proof (proj1 (list.Forall_forall _ _) Ha f ltac:(by eapply list_elem_of_lookup_2)) as [_ _ [M1 M2] _].
    rewrite (names_dirent (fun _ _ => true)) by (done || lia). rewrite bool_decide_false.
    + rewrite (IH (k + 1) (off + 16) i f Ha ltac:(lia) ltac:(lia) Hi); [f_equal; f_equal; lia|]. intros j g Hj. apply (Hd (S j)). lia.
    + rewrite !take_ge by done. intros E. by apply (Hd 0%nat e); [lia|done|].
Qed.

(** The root directory, open: a directory in good order unless it fills its last block. *)
Lemma image_root f lim fl files s dev : image f lim (rootdir files) fl -> Forall addable files -> 2 + Z.of_nat (length files) <= NINODES ->
  fblk s = f -> (0 < length (itab s))%nat -> geti s 0 = opened dev 1 (ino f 1) ->
  let last := Z.to_nat (Z.of_nat (length (rootdir files)) / BSIZE) in
  (length (rootdir files) = 16 * (2 + length files))%nat /\ i_size (geti s 0) = (Z.of_nat last + 1) * BSIZE /\
  (((2 + length files) mod 64 <> 0)%nat -> dir_ok sb s 0 /\ take (length (rootlist files)) (entries s 0) = rootlist files) /\
  (((2 + length files) mod 64 = 0)%nat -> fblock s 0 last = 0).
Proof.
  intros HI Ha Hm Ef Hl Hg last. destruct (rootlist_ok files Ha Hm) as (R1 & R2 & R3). pose proof HI as [_ _ _ _ [I1 I2] _ _].
  pose proof (length_rootdir files Ha Hm) as Hlen.
  set (root := rootdir files) in *. pose proof BSIZE_val as Bv. unfold NINODES in Hm.
  assert (Z.of_nat last = Z.of_nat (length root) / BSIZE) as El by (unfold last; rewrite Z2Nat.id; [done|apply Z.div_pos; lia]).
  destruct (div_mod_B (Z.of_nat (length root))) as [Ed Er]. rewrite <- El in Ed.
  pose proof (nblk_val (length root) last _ ltac:(exact Ed) Er) as Enb.
  assert (i_size (geti s 0) = (Z.of_nat last + 1) * BSIZE) as Es.
  { rewrite Hg. cbn [opened i_size]. rewrite I1. cbn [bare i_size]. unfold root_size. by rewrite El. }
  assert (filed f lim (geti s 0) (nblk (length root)) root) as Hf by (rewrite Hg; by apply (filed_addrs _ _ (ino f 1))).
  assert (Z.of_nat (length root) mod BSIZE = 16 * Z.of_nat ((2 + length files) mod 64)) as Em.
  { rewrite Hlen, Bv, !Nat2Z.inj_mul, Nat2Z.inj_mod. change 1024 with (16 * 64) at 1. rewrite <- Z.mul_mod_distr_l by lia. done. }
  split; [done|]. split; [done|]. split.
  - intros N. assert (Z.of_nat (length root) mod BSIZE <> 0) as N' by lia. rewrite (proj2 (Z.eqb_neq _ _) N') in Enb. rewrite Enb in Hf.
    assert (file_ok sb s 0) as Hok.
    { eapply image_file_ok; [exact HI|done|done|exact Hf|rewrite Es, Bv; lia|rewrite Hg; cbn [opened i_inum]; unfold NINUM; lia]. }
    split; [split; [done|by rewrite Hg; cbn [opened i_type]; rewrite I1|]|].
    + rewrite Es, Bv. exists (64 * (Z.of_nat last + 1)). lia.
    + apply (entries_take s 0 _ (S last) lim); [by rewrite Ef, R1|done| |rewrite FILEMAX_val, R3; lia].
      unfold nentries. rewrite Es, R3, Bv. replace ((Z.of_nat last + 1) * 1024) with ((64 * (Z.of_nat last + 1)) * 16) by lia.
      rewrite Z.div_mul by lia. rewrite Hlen, Bv in *. lia.
  - intros E. rewrite E in Em. rewrite Em in Enb. change (16 * Z.of_nat 0 =? 0) with true in Enb.
    change (fblock s 0 last) with (fb (fblk s) (geti s 0) last). rewrite Ef. apply (fd_out _ _ _ _ _ Hf); [lia|].
    rewrite Hlen, Bv in *. unfold MAXBN. lia.
Qed.

(** ** Theorems *)

(** Open the file [name] of the root directory and read it, as [namei] and [fileread] do: entry 0 of the
    inode table is the root, entry 1 is free. *)
Definition read_by_name (copyout : Z -> nat -> bool) (name : list Z) (dst n : Z) : M fs (Z * list Z) :=
  _ ← ilock sb 0;
  r ← dirlookup sb copyout 0 name;
  match r with
  | Some (ip, _) => _ ← ilock sb ip; readi copyout sb ip false dst 0 n
  | None => mret (-1, [])
  end.

(** C38: the kernel reads back what [mkfs] was given.  With names that fit, readable files of at most
    the maximal size and room for all of them, [mkfs] ends normally; the image has the layout the
    kernel assumes and the bitmap marks exactly the blocks used; no block belongs to two inodes.  And looking
    a name up in the root directory and reading the inode it leads to gives the contents of the first
    argument of that name, provided that the directory does not fill its last block. *)
Theorem mkfs_readable files : Forall addable files -> 2 + Z.of_nat (length files) <= NINODES ->
  nmeta + total (contents files) <= FSSIZE ->
  exists s, main files start = Ret (tt, s) /\ nsect s = FSSIZE /\ img s 1 = sb_block /\ layout sb /\ DInv sb (img s) /\
    (forall b, 0 <= b < FSSIZE -> used sb (img s) b = (b <? nmeta + total (contents files))) /\
    (forall i j b, 1 <= i <= 1 + Z.of_nat (length files) -> 1 <= j <= 1 + Z.of_nat (length files) -> i <> j ->
       owned (img s) (ino (img s) i) b -> ~ owned (img s) (ino (img s) j) b) /\
    (((2 + length files) mod 64 <> 0)%nat -> forall i f, files !! i = Some f ->
       name_of f <> bytes "." -> name_of f <> bytes ".." ->
       (forall j g, (j < i)%nat -> files !! j = Some g -> name_of g <> name_of f) ->
       forall dev copyout dst n, Z.of_nat (length (data_of f)) <= n < 2 ^ 32 ->
       exists s', read_by_name copyout (name_of f) dst n (mkFs (img s) [entered dev 1; inode0]) =
         Ret ((Z.of_nat (length (data_of f)), data_of f), s')).
Proof.
  intros Ha Hm Hcap. destruct (main_files files Ha Hm Hcap) as (s0 & E0 & B0). unfold contents in B0.
  pose proof (rootlist_ok files Ha Hm) as (R1 & R2 & R3). pose proof Hm as Hm'. unfold NINODES in Hm'.
  destruct (image_done_run s0 (rootdir files) (filelist files) B0) as (s & E1 & En & HI).
  { rewrite length_rootdir by done. lia. }
  exists s. rewrite E0. split; [done|]. split; [done|]. pose proof HI as [I1 I2 I3 I4 [I5 _] I6 I7]. split; [done|].
  split; [apply mkfs_layout|]. split; [by eapply image_disk|]. split; [done|]. split.
  { intros i j b Hi Hj N. apply I7; [..|done]; unfold filelist; rewrite length_map; done. }
  intros Hmod i f Hf N1 N2 Hfirst dev copyout dst n Hn. set (fi := img s) in *.
  pose proof (proj1 (list.Forall_forall _ _) Ha f ltac:(by eapply list_elem_of_lookup_2)) as [_ _ [F1 F2] F3].
  pose proof (lookup_lt_Some _ _ _ Hf) as Hi.
  set (s1 := mkFs fi [opened dev 1 (ino fi 1); inode0]).
  unfold read_by_name. rewrite (M_bind_Ret _ _ _ tt s1).
  2:{ apply (ilock_image (mkFs fi [entered dev 1; inode0]) 0 dev 1); [cbn; lia|done|]. cbn [fblk]. by rewrite I5. }
  destruct (image_root fi _ _ files s1 dev HI Ha Hm eq_refl ltac:(cbn; lia) eq_refl) as (_ & _ & Hd & _). destruct (Hd Hmod) as [Hdir Hes].
  assert (find_in (name_of f) (entries s1 0) 0 = Some (2 + Z.of_nat i, 32 + 16 * Z.of_nat i)) as Efind.
  { rewrite <- (take_drop (length (rootlist files)) (entries s1 0)), find_in_app, Hes. unfold rootlist. cbn [find_in].
    assert (name_ok (bytes ".") /\ name_ok (bytes "..")) as [O1 O2] by (split; repeat constructor).
    rewrite (names_dirent (fun _ _ => true) 1 (bytes ".") (name_of f) ltac:(lia) O1 F2).
    rewrite (names_dirent (fun _ _ => true) 1 (bytes "..") (name_of f) ltac:(lia) O2 F2).
    rewrite (take_ge (name_of f)) by exact F1. rewrite (bool_decide_false _ N1), (bool_decide_false _ N2).
    by rewrite (find_direntl files 2 _ i f Ha ltac:(lia) ltac:(lia) Hf Hfirst). }
  set (s2 := mkFs fi [opened dev 1 (ino fi 1); entered dev (2 + Z.of_nat i)]).
  rewrite (M_bind_Ret _ _ s1 (Some (1%nat, 32 + 16 * Z.of_nat i)) s2).
  2:{ rewrite (dirlookup_run sb mkfs_layout copyout s1 0 (name_of f) Hdir), Efind. change (i_dev (geti s1 0)) with dev.
      unfold iget. rewrite (M_bind_Ret _ _ s1 s1 s1) by done. cbn [itab s1 iget_scan opened i_ref i_dev i_inum inode0].
      rewrite (proj2 (Z.eqb_neq 1 (2 + Z.of_nat i))) by lia. rewrite andb_false_r. reflexivity. }
  destruct (image_read fi _ _ _ s2 1 dev (2 + Z.of_nat i) T_FILE (data_of f) copyout dst n HI eq_refl ltac:(cbn; lia) eq_refl) as (s' & E & _);
    [|done|unfold NINUM; lia|done|by exists s'].
  apply I6. unfold filelist. by rewrite list_lookup_fmap, Hf.
Qed.

(** When the directory fills its last block, rounding its size up makes the root longer than its
    blocks: the kernel finds a block of the directory that [mkfs] never allocated. *)
Theorem mkfs_root_hole files : Forall addable files -> 2 + Z.of_nat (length files) <= NINODES ->
  nmeta + total (contents files) <= FSSIZE -> ((2 + length files) mod 64 = 0)%nat ->
  exists s, main files start = Ret (tt, s) /\ forall dev,
    let k := mkFs (img s) [opened dev 1 (ino (img s) 1)] in
    exists bn, Z.of_nat bn * BSIZE < i_size (geti k 0) /\ fblock k 0 bn = 0.
Proof.
  intros Ha Hm Hcap Hmod. destruct (main_files files Ha Hm Hcap) as (s0 & E0 & B0). unfold contents in B0. pose proof Hm as Hm'. unfold NINODES in Hm'.
  destruct (image_done_run s0 (rootdir files) (filelist files) B0) as (s & E1 & En & HI).
  { rewrite length_rootdir by done. lia. }
  exists s. rewrite E0. split; [done|]. intros dev k.
  destruct (image_root (img s) _ _ files k dev HI Ha Hm eq_refl ltac:(cbn; lia) eq_refl) as (_ & Es & _ & Hh). eexists. split; [|by apply Hh].
  rewrite Es. pose proof BSIZE_val. lia.
Qed.

(** ** Witnesses *)

Module Small.
Definition files : list (list Z * option (list (list Z))) := [(bytes "user/_cat", Some [[1; 2]; [3]]); (bytes "README", Some [])].
Definition many : list (list Z * option (list (list Z))) := repeat (bytes "user/_f", Some []) 62.

Lemma files_ok : Forall addable files.
Proof.
  repeat constructor; cbn; try reflexivity; try lia; try (by vm_compute).
  - exists [[1; 2]; [3]]. split; [reflexivity|]. repeat constructor; lia.
  - exists []. split; [reflexivity|by apply list.Forall_nil].
Qed.

Lemma many_ok : Forall addable many.
Proof.
  apply list.Forall_forall. intros x Hx. apply list_elem_of_In, repeat_spec in Hx. subst x.
  split; [reflexivity|exists []; split; [reflexivity|by apply list.Forall_nil]|split; [by vm_compute; repeat constructor|repeat constructor]|by vm_compute].
Qed.
End Small.

Lemma mkfs_readable_witness :
  exists s s', main Small.files start = Ret (tt, s) /\
    read_by_name (fun _ _ => true) (bytes "cat") 0 100 (mkFs (img s) [entered 1 1; inode0]) = Ret ((3, [1; 2; 3]), s').
Proof.
  destruct (mkfs_readable Small.files Small.files_ok) as (s & E & _ & _ & _ & _ & _ & _ & H); [vm_compute; congruence|vm_compute; congruence|].
  destruct (H ltac:(vm_compute; congruence) 0%nat (bytes "user/_cat", Some [[1; 2]; [3]]) eq_refl ltac:(vm_compute; congruence) ltac:(vm_compute; congruence)
    ltac:(intros j g Hj; lia) 1 (fun _ _ => true) 0 100) as (s' & Hr); [vm_compute; split; congruence|].
  exists s, s'. split; [exact E|exact Hr].
Defined.

(** Sixty-two files. *)
Lemma mkfs_root_hole_witness : exists s, main Small.many start = Ret (tt, s).
Proof.
  destruct (mkfs_root_hole Small.many Small.many_ok) as (s & E & _); [vm_compute; congruence|vm_compute; congruence|reflexivity|].
  exists s. exact E.
Defined.
