(* ===== verification/Exec.v ===== *)
(** * Program loading: [kernel/exec.c]

    [kexec] on the byte memory of [Vm].  The file is its contents, what [readi] of
    [FsData] delivers from them; [namei], the inode's lock and the transaction are not
    here.  [path] and [argv] are the strings in kernel memory that [kexec] only reads. *)

From S2P Require Import Prelude Riscv CString Kalloc Words Vm VmMap VmUser VmSpace VmFree VmKernel Syscall.

Definition ELF_MAGIC : Z := 0x464C457F.
Definition ELF_PROG_LOAD : Z := 1.
Definition USERSTACK : Z := 1.

(** [struct elfhdr] (64 bytes) and [struct proghdr] (56 bytes): the fields in use. *)
Record elfhdr := mkElf { e_magic : Z; e_entry : Z; e_phoff : Z; e_phnum : Z }.
Record proghdr := mkPh { p_type : Z; p_flags : Z; p_off : Z; p_vaddr : Z; p_filesz : Z; p_memsz : Z }.
Definition elf_of (d : list Z) : elfhdr := mkElf (getle 4 d 0) (getle 8 d 24) (getle 8 d 32) (getle 2 d 56).
Definition ph_of (d : list Z) : proghdr :=
  mkPh (getle 4 d 0) (getle 4 d 4) (getle 8 d 8) (getle 8 d 16) (getle 8 d 32) (getle 8 d 40).

Definition flags2perm (flags : Z) : Z :=
  let perm := if c_true (Z.land flags 1) then PTE_X else 0 in
  if c_true (Z.land flags 2) then Z.lor perm PTE_W else perm.

(** What [readi(ip, 0, _, off, n)] delivers of a file with contents [file]. *)
Definition fread (file : list Z) (off n : Z) : list Z :=
  let size := Z.of_nat (length file) in
  if (size <? off) || (u32 (off + n) <? off) then []
  else take (Z.to_nat (Z.min n (size - off))) (drop (Z.to_nat off) file).

(** The process: kernel memory, its page table and size, the page of its trap frame and what
    [kexec] sets in it, and its name. *)
Record xproc := mkX {
  xkm : kmem; xpt : Z; xsz : Z; xtf : Z; xa1 : Z; xepc : Z; xsp : Z; xname : list Z
}.
Definition set_xkm k s := mkX k (xpt s) (xsz s) (xtf s) (xa1 s) (xepc s) (xsp s) (xname s).

Section Exec.
Context (end_ trampoline : Z).
Abbreviation V := (M kmem).

(** [for (i = 0; i < sz; i += PGSIZE)] *)
Fixpoint loadseg_loop (n : nat) (file : list Z) (pt va offset sz i : Z) : V Z :=
  if i <? sz then
    match n with
    | O => undef "out of fuel"
    | S n' =>
      pa ← walkaddr pt (u64 (va + i));
      _ ← panic_if (pa =? 0) "loadseg: address should exist";
      let m := if sz - i <? PGSIZE then sz - i else PGSIZE in
      let b := fread file (u32 (offset + i)) m in
      _ ← write_bytes pa b;
      if Z.of_nat (length b) =? m then loadseg_loop n' file pt va offset sz (u32 (i + PGSIZE)) else mret (-1)
    end
  else mret 0.
Definition loadseg (file : list Z) (pt va offset sz : Z) : V Z :=
  loadseg_loop (Z.to_nat (sz / PGSIZE + 1)) file pt va (u32 offset) (u32 sz) 0.

(** The program headers: whether all is well, and the size reached. *)
Fixpoint load_loop (n : nat) (file : list Z) (pt off sz : Z) : V (bool * Z) :=
  match n with
  | O => mret (true, sz)
  | S n' =>
    let d := fread file (u32 off) 56 in
    if negb (Z.of_nat (length d) =? 56) then mret (false, sz)
    else
      let ph := ph_of d in
      if negb (p_type ph =? ELF_PROG_LOAD) then load_loop n' file pt (i32 (off + 56)) sz
      else if p_memsz ph <? p_filesz ph then mret (false, sz)
      else if u64 (p_vaddr ph + p_memsz ph) <? p_vaddr ph then mret (false, sz)
      else if negb (p_vaddr ph mod PGSIZE =? 0) then mret (false, sz)
      else
        sz1 ← uvmalloc end_ pt sz (u64 (p_vaddr ph + p_memsz ph)) (flags2perm (p_flags ph));
        if sz1 =? 0 then mret (false, sz)
        else
          r ← loadseg file pt (p_vaddr ph) (p_off ph) (p_filesz ph);
          if r <? 0 then mret (false, sz1) else load_loop n' file pt (i32 (off + 56)) sz1
  end.

(** A [uint64] in memory. *)
Definition le64 (v : Z) : list Z := putle 8 (repeat 0 8) 0 v.

(** The argument strings; [ustack] so far.  [None] when one does not fit. *)
Fixpoint push_args (argv : list (list Z)) (ppt psz pt stackbase sp : Z) (ustack : list Z) : V (option (Z * list Z)) :=
  match argv with
  | [] => mret (Some (sp, ustack))
  | a :: argv' =>
    if (MAXARG <=? length ustack)%nat then mret None
    else
      let sp := u64 (sp - (Z.of_nat (length a) + 1)) in
      let sp := u64 (sp - sp mod 16) in
      if sp <? stackbase then mret None
      else
        r ← copyout end_ ppt psz pt sp (a ++ [0]);
        if r <? 0 then mret None else push_args argv' ppt psz pt stackbase sp (ustack ++ [sp])
  end.

(** The new address space: its table, its size, and on success the stack pointer and the entry. *)
Definition build (file : list Z) (argv : list (list Z)) (ppt psz pt : Z) (elf : elfhdr) : V (Z * option (Z * Z)) :=
  r ← load_loop (Z.to_nat (e_phnum elf)) file pt (i32 (e_phoff elf)) 0;
  let '(ok, sz) := (r : bool * Z) in
  if negb ok then mret (sz, None)
  else
    let sz := PGROUNDUP sz in
    sz1 ← uvmalloc end_ pt sz (u64 (sz + (USERSTACK + 1) * PGSIZE)) PTE_W;
    if sz1 =? 0 then mret (sz, None)
    else
      let sz := sz1 in
      _ ← uvmclear pt (u64 (sz - (USERSTACK + 1) * PGSIZE));
      let stackbase := u64 (sz - USERSTACK * PGSIZE) in
      r ← push_args argv ppt psz pt stackbase sz [];
      match r with
      | None => mret (sz, None)
      | Some (sp, ustack) =>
        if (length ustack =? MAXARG)%nat then undef "ustack overflow"
        else
          let sp := u64 (sp - (Z.of_nat (length ustack) + 1) * 8) in
          let sp := u64 (sp - sp mod 16) in
          if sp <? stackbase then mret (sz, None)
          else
            r ← copyout end_ ppt psz pt sp (concat (map le64 (ustack ++ [0])));
            if r <? 0 then mret (sz, None) else mret (sz, Some (sp, e_entry elf))
      end.

Definition onx {A} (m : V A) : M xproc A := fun s =>
  match m (xkm s) with
  | Ret (a, k) => Ret (a, set_xkm k s)
  | Panic e => Panic e
  | Undef e => Undef e
  end.

(** The part of [path] after the last slash. *)
Fixpoint last_elem (path : list Z) (last : list Z) : list Z :=
  match path with [] => last | c :: path' => last_elem path' (if c =? 47 then path' else last) end.

Definition kexec (file : option (list Z)) (path : list Z) (argv : list (list Z)) : M xproc Z :=
  match file with
  | None => mret (-1)
  | Some file =>
    let d := fread file 0 64 in
    if negb (Z.of_nat (length d) =? 64) then mret (-1)
    else
      let elf := elf_of d in
      if negb (e_magic elf =? ELF_MAGIC) then mret (-1)
      else
        p ← get;
        pt ← onx (proc_pagetable end_ trampoline (xtf p));
        if pt =? 0 then mret (-1)
        else
          r ← onx (build file argv (xpt p) (xsz p) pt elf);
          let '(sz, ok) := (r : Z * option (Z * Z)) in
          match ok with
          | None => _ ← onx (proc_freepagetable end_ pt sz); mret (-1)
          | Some (sp, entry) =>
            _ ← modify (fun s => mkX (xkm s) pt sz (xtf s) sp entry sp (take 15 (last_elem path path)));
            _ ← onx (proc_freepagetable end_ (xpt p) (xsz p));
            mret (Z.of_nat (length argv))
          end
  end.
End Exec.
