(* ===== verification/ExecSpace.v ===== *)
(** * Address spaces under construction

    What [kexec] builds: a page table made from free pages only, with the user pages mapped so far,
    their permissions and their contents.  Each step of [exec.c] that changes memory is
    shown on it. *)

From S2P Require Import Prelude Riscv CString Kalloc Vm VmMap VmUser VmSpace VmFree VmKernel Syscall.

(** There are not more pages than memory below [PHYSTOP] has. *)
Lemma pages_bound end_ ps : NoDup ps -> (forall p, p ∈ ps -> page end_ p) -> Z.of_nat (length ps) * PGSIZE <= PHYSTOP.
Proof.
  intros Hn Hp. set (all := Z.mul PGSIZE <$> seqZ 0 (PHYSTOP / PGSIZE)).
  assert (length ps <= length all)%nat as Hl.
  { apply submseteq_length, NoDup_submseteq; [done|]. intros p (A & B & C)%Hp. apply list_elem_of_fmap. exists (p / PGSIZE).
    apply aligned_div in A. split; [lia|]. apply elem_of_seqZ. change (PHYSTOP / PGSIZE) with 557056. change PHYSTOP with (557056 * 4096) in B.
    unfold PGSIZE in *. lia. }
  unfold all in Hl. rewrite length_fmap, length_seqZ in Hl. change (PHYSTOP / PGSIZE) with 557056 in Hl.
  change PHYSTOP with (557056 * PGSIZE). unfold PGSIZE in *. lia.
Qed.

Lemma upages_full m root n : forall va, (forall v, va <= v < va + Z.of_nat n * PGSIZE -> has (pteval m root v) PTE_V = true) ->
  length (upages m root va n) = n.
Proof.
  induction n as [|n IH]; intros va H; [done|]. cbn [upages]. rewrite H by (unfold PGSIZE; lia). cbn [app length]. f_equal.
  apply IH. intros v Hv. apply H. unfold PGSIZE in *. lia.
Qed.

Section Building.
Context (end_ : Z) (top : Z -> Z) (k0 : kmem) (l0 : list Z).

(** The address space [root] of size [sz], made of pages that were free in [k0], the list [l0]; [l] is
    what is left of them.  [prm] are the permissions of each address, [img] the bytes, [top] the entries
    from the trap frame on. *)
Record space (k : kmem) (l : list Z) (root sz : Z) (prm img : Z -> Z) : Prop := {
  sp_pt : PT end_ k l root;
  sp_sz : 0 <= sz <= TRAPFRAME;
  sp_sub : forall x, x ∈ l -> x ∈ l0;
  sp_keep : forall d, page end_ d -> d ∉ l0 -> agree (kmemory k0) (kmemory k) d /\ ~ is_table (kmemory k) root d;
  sp_page : forall va, 0 <= va < PGROUNDUP sz -> 0 <= prm va < 1024 /\
    exists p, p ∈ l0 /\ pteval (kmemory k) root va = entry p (prm va) /\ data_page end_ k l root p;
  sp_inj : forall va va', 0 <= va < PGROUNDUP sz -> 0 <= va' < PGROUNDUP sz ->
    PTE2PA (pteval (kmemory k) root va) = PTE2PA (pteval (kmemory k) root va') -> same_page va va' = true;
  sp_none : forall va, PGROUNDUP sz <= va < TRAPFRAME -> has (pteval (kmemory k) root va) PTE_V = false;
  sp_top : forall va, TRAPFRAME <= va < MAXVA -> pteval (kmemory k) root va = top va;
  sp_img : forall va, 0 <= va < PGROUNDUP sz -> kmemory k (phys (kmemory k) root va) = img va;
  sp_zero : forall va, PGROUNDUP sz <= va -> img va = 0;
  sp_all : forall x, x ∈ l0 -> x ∈ l \/ is_table (kmemory k) root x \/
    exists va, 0 <= va < PGROUNDUP sz /\ PTE2PA (pteval (kmemory k) root va) = x
}.

Lemma space_entry k l root sz prm img va : space k l root sz prm img -> 0 <= va < PGROUNDUP sz ->
  let e := pteval (kmemory k) root va in
  has e PTE_V = true /\ PTE2PA e ∈ l0 /\ data_page end_ k l root (PTE2PA e) /\
  forall i, 0 < i < 10 -> has e (Z.shiftl 1 i) = Z.testbit (prm va) i.
Proof.
  intros H Hva. destruct (sp_page _ _ _ _ _ _ H va Hva) as (Hr & p & P1 & E & P2). cbv zeta. rewrite E.
  destruct (entry_parts end_ p (prm va) (proj1 P2) Hr) as (-> & A & B). done.
Qed.

Lemma space_owns k l root sz prm img : space k l root sz prm img -> owns end_ k l root 0 (PGROUNDUP sz).
Proof.
  intros H. split; [intros va Hva e _; by apply (space_entry k l root sz prm img va H)|]. intros va va' Hva Hva' _ _. by apply H.
Qed.

(** User pages and free pages together are at most all of memory. *)
Lemma space_count k l root sz prm img : space k l root sz prm img -> PGROUNDUP sz + Z.of_nat (length l) * PGSIZE <= PHYSTOP.
Proof.
  intros H. destruct (round_trapframe sz (sp_sz _ _ _ _ _ _ H)) as [A1 A2]. pose proof (sp_sz _ _ _ _ _ _ H) as Hs.
  set (n := Z.to_nat (PGROUNDUP sz / PGSIZE)). assert (0 + Z.of_nat n * PGSIZE = PGROUNDUP sz) as En.
  { pose proof (pages_between 0 (PGROUNDUP sz) ltac:(lia) eq_refl A2) as E. by rewrite Z.sub_0_r in E. }
  destruct (upages_owns end_ k l root n 0 eq_refl) as [U1 U2]; [rewrite En; by eapply space_owns|].
  assert (length (upages (kmemory k) root 0 n) = n) as Hl.
  { apply upages_full. intros v Hv. rewrite En in Hv. by apply (space_entry k l root sz prm img v H). }
  pose proof (pt_k _ _ _ _ (sp_pt _ _ _ _ _ _ H)) as HK. rewrite list.Forall_forall in U1.
  pose proof (pages_bound end_ (upages (kmemory k) root 0 n ++ l)) as B. rewrite length_app, Hl in B.
  rewrite <- En. assert (Z.of_nat (n + length l) * PGSIZE <= PHYSTOP); [apply B|lia].
  - apply list.NoDup_app. split; [done|]. split; [intros x Hx; by apply U1|apply HK].
  - intros p [Hp|Hp]%elem_of_app; [by apply U1|]. eapply chain_pages; [apply HK|done].
Qed.

(** ** Growing *)

(** What does not touch pages in use keeps the user pages. *)
Lemma space_old k k' l l' root sz prm img : space k l root sz prm img -> (forall x, x ∈ l' -> x ∈ l) -> keeps end_ k k' l root ->
  (forall va, 0 <= va < PGROUNDUP sz -> pteval (kmemory k') root va = pteval (kmemory k) root va) ->
  (forall d, page end_ d -> d ∉ l0 -> agree (kmemory k0) (kmemory k') d /\ ~ is_table (kmemory k') root d) /\
  forall va, 0 <= va < PGROUNDUP sz -> (0 <= prm va < 1024 /\
    exists p, p ∈ l0 /\ pteval (kmemory k') root va = entry p (prm va) /\ data_page end_ k' l' root p) /\
    kmemory k' (phys (kmemory k') root va) = img va.
Proof.
  intros H Hl Hk Hv. split.
  - intros d D1 D2. destruct (sp_keep _ _ _ _ _ _ H d D1 D2) as [A B]. destruct (Hk d D1) as [A' B']; [|done|].
    { intros Hd. by apply D2, (sp_sub _ _ _ _ _ _ H). }
    split; [|done]. intros a Ha. by rewrite A', A.
  - intros va Hva. destruct (sp_page _ _ _ _ _ _ H va Hva) as (Hr & p & P1 & E & P2).
    destruct (data_kept end_ k k' l l' root p Hl Hk P2) as [D1 D2]. rewrite Hv by done. split; [split; [done|by exists p]|].
    rewrite <- (sp_img _ _ _ _ _ _ H va Hva). unfold phys. rewrite Hv, E by done.
    rewrite (proj1 (entry_parts end_ p (prm va) (proj1 P2) Hr)). apply D2.
    pose proof (Z.mod_pos_bound va PGSIZE ltac:(done)). lia.
Qed.

Lemma space_grown k k' l l' root sz nsz prm img perm :
  space k l root sz prm img -> 0 <= perm < 1024 -> sz <= nsz <= TRAPFRAME ->
  grown end_ k k' l l' root (PGROUNDUP sz) (PGROUNDUP nsz) perm ->
  space k' l' root nsz (fun va => if va <? PGROUNDUP sz then prm va else perm) img.
Proof.
  intros H Hperm Hn [G1 G2 G3 G4 G5 G6 G7]. pose proof H as [S1 S2 S3 S4 S5 S6 S7 S8 S9 S10 S11].
  assert (TRAPFRAME < MAXVA) as Htm by done. pose proof (round_mono sz nsz ltac:(lia) ltac:(lia)) as Hm.
  destruct (round_trapframe sz S2) as [A1 _]. destruct (round_trapframe nsz ltac:(lia)) as [B1 _].
  assert (forall va, 0 <= va < PGROUNDUP sz -> pteval (kmemory k') root va = pteval (kmemory k) root va) as Hold by (intros va Hva; apply G3; lia).
  destruct (space_old k k' l l' root sz prm img H G2 G6 Hold) as [O1 O2].
  assert (forall va, PGROUNDUP sz <= va < PGROUNDUP nsz -> exists p, p ∈ l /\ pteval (kmemory k') root va = entry p perm /\
    PTE2PA (pteval (kmemory k') root va) = p /\ data_page end_ k' l' root p /\ kmemory k' (phys (kmemory k') root va) = 0) as Hnew.
  { intros va Hva. destruct (G4 va Hva) as (p & P1 & E & P2 & P3). exists p. unfold phys. rewrite E.
    rewrite (proj1 (entry_parts end_ p perm (proj1 P2) Hperm)). pose proof (Z.mod_pos_bound va PGSIZE ltac:(done)).
    split_and!; try done; try apply P2. apply P3. lia. }
  split; [done|lia|auto|done| | | | | | |].
  - intros va Hva. destruct (Z.ltb_spec va (PGROUNDUP sz)) as [Hlt|Hge]; [apply O2; lia|]. split; [done|].
    destruct (Hnew va ltac:(lia)) as (p & P1 & P2 & _ & P3 & _). exists p. auto.
  - intros va va' Hva Hva' E.
    assert (forall v v', 0 <= v < PGROUNDUP sz -> PGROUNDUP sz <= v' < PGROUNDUP nsz -> PTE2PA (pteval (kmemory k') root v) <> PTE2PA (pteval (kmemory k') root v')) as Hne.
    { intros v v' Hv Hv' Ev. rewrite Hold in Ev by done. destruct (Hnew v' Hv') as (p & P1 & _ & P2 & _). rewrite P2 in Ev.
      destruct (space_entry k l root sz prm img v H Hv) as (_ & _ & (_ & Q & _) & _). by rewrite Ev in Q. }
    destruct (Z.lt_ge_cases va (PGROUNDUP sz)) as [C|C], (Z.lt_ge_cases va' (PGROUNDUP sz)) as [D|D].
    + rewrite !Hold in E by lia. apply S6; [lia|lia|done].
    + by destruct (Hne va va'); [lia|lia|].
    + by destruct (Hne va' va); [lia|lia|].
    + assert (forall v, PGROUNDUP sz <= v < PGROUNDUP nsz -> has (pteval (kmemory k') root v) PTE_V = true) as Hval.
      { intros v Hv. destruct (Hnew v Hv) as (p & _ & -> & _ & P & _). apply (entry_parts end_ p perm (proj1 P) Hperm). }
      apply (ow_inj _ _ _ _ _ _ G5); [lia|lia|apply Hval; lia|apply Hval; lia|done].
  - intros va Hva. rewrite G3 by lia. apply S7. lia.
  - intros va Hva. rewrite G3 by lia. by apply S8.
  - intros va Hva. destruct (Z.lt_ge_cases va (PGROUNDUP sz)) as [C|C]; [apply O2; lia|]. rewrite S10 by done.
    destruct (Hnew va ltac:(lia)) as (p & _ & _ & _ & _ & P). done.
  - intros va Hva. apply S10. lia.
  - intros x Hx. assert (x ∈ l \/ is_table (kmemory k) root x -> x ∈ l' \/ is_table (kmemory k') root x \/
      exists va, 0 <= va < PGROUNDUP nsz /\ PTE2PA (pteval (kmemory k') root va) = x) as Hg.
    { intros [Hg|[Hg|(va & Hva & Hg)]]%G7; [by left|by right; left|right; right]. exists va. split; [lia|done]. }
    destruct (S11 x Hx) as [Ha|[Ha|(va & Hva & Ha)]]; [by apply Hg; left|by apply Hg; right|].
    right. right. exists va. rewrite Hold by done. split; [lia|done].
Qed.

Lemma space_restored k k' l l' root sz hi prm img :
  space k l root sz prm img -> PGROUNDUP sz <= hi <= TRAPFRAME -> restored end_ k k' l l' root (PGROUNDUP sz) hi ->
  space k' l' root sz prm img.
Proof.
  intros H Hhi [R1 R2 R3 R4 R5 R6]. pose proof H as [S1 S2 S3 S4 S5 S6 S7 S8 S9 S10 S11]. assert (TRAPFRAME < MAXVA) as Htm by done.
  assert (forall va, 0 <= va < PGROUNDUP sz -> pteval (kmemory k') root va = pteval (kmemory k) root va) as Hold by (intros va Hva; apply R3; lia).
  destruct (round_trapframe sz S2) as [A1 _]. destruct (space_old k k' l l' root sz prm img H R2 R5 Hold) as [O1 O2].
  split; [done|done|auto|done|by apply O2| | | |by apply O2|done|].
  - intros va va' Hva Hva'. rewrite !Hold by lia. by apply S6.
  - intros va Hva. destruct (Z.lt_ge_cases va hi); [apply R4; lia|]. rewrite R3 by lia. apply S7. lia.
  - intros va Hva. rewrite R3 by lia. by apply S8.
  - intros x Hx. destruct (S11 x Hx) as [Ha|[Ha|(va & Hva & Ha)]].
    + destruct (R6 x (or_introl Ha)) as [|]; [by left|by right; left].
    + destruct (R6 x (or_intror Ha)) as [|]; [by left|by right; left].
    + right. right. exists va. by rewrite Hold by done.
Qed.

(** [uvmalloc] to any size at all.  Three free pages for each page to add are enough. *)
Lemma space_alloc k l root sz nsz xperm prm img :
  let perm := Z.lor (Z.lor PTE_R PTE_U) xperm in
  space k l root sz prm img -> 0 <= perm < 1024 -> 0 <= nsz < 2 ^ 64 ->
  exists r k' l', uvmalloc end_ root sz nsz xperm k = Ret (r, k') /\
    ((r = Z.max sz nsz /\ space k' l' root r (fun va => if va <? PGROUNDUP sz then prm va else perm) img /\
      Z.of_nat (length l) * PGSIZE <= Z.of_nat (length l') * PGSIZE + 3 * (PGROUNDUP r - PGROUNDUP sz)) \/
     (r = 0 /\ space k' l' root sz prm img /\ sz <= nsz /\ (TRAPFRAME < nsz \/ Z.of_nat (length l) * PGSIZE <= 3 * (PGROUNDUP nsz - PGROUNDUP sz)))).
Proof.
  intros perm H Hperm Hn. pose proof H as [S1 S2 _ _ _ _ S7 _ _ _ _]. destruct (Z.lt_ge_cases nsz sz) as [Hlt|Hge].
  { exists sz, k, l. unfold uvmalloc. rewrite (proj2 (Z.ltb_lt _ _)) by lia. split; [done|]. left. split; [lia|]. split; [|lia].
    destruct H. split; try done. intros va Hva. rewrite (proj2 (Z.ltb_lt _ _)) by lia. auto. }
  destruct (round_trapframe sz S2) as [A1 A2]. rewrite Z.max_r by lia. destruct (Z.lt_ge_cases TRAPFRAME nsz) as [Hbig|Hfit].
  - pose proof (space_count k l root sz prm img H) as Hc. unfold uvmalloc. rewrite (proj2 (Z.ltb_ge nsz sz)) by lia.
    destruct (alloc_huge end_ (Z.to_nat ((nsz - PGROUNDUP sz) / PGSIZE + 2)) k k l l root (PGROUNDUP sz) (PGROUNDUP sz) nsz xperm)
      as (k' & l' & hi & E & Hhi & R); try done; try lia.
    + by apply grown_space_refl.
    + rewrite TRAPFRAME_val. change PHYSTOP with (557056 * PGSIZE) in Hc. unfold PGSIZE in *. lia.
    + pose proof (Z.div_mod (nsz - PGROUNDUP sz) PGSIZE ltac:(done)). pose proof (Z.mod_pos_bound (nsz - PGROUNDUP sz) PGSIZE ltac:(done)).
      assert (0 <= (nsz - PGROUNDUP sz) / PGSIZE) by (apply Z.div_pos; [lia|done]). rewrite Z2Nat.id by lia. unfold PGSIZE in *. lia.
    + exists 0, k', l'. split; [done|]. right. split; [done|]. split; [by apply (space_restored k k' l l' root sz hi)|]. split; [lia|by left].
  - destruct (uvmalloc_correct end_ k l root sz nsz xperm S1 ltac:(lia) Hfit Hperm) as (r & k' & l' & E & Hr).
    { intros va Hva. apply S7. pose proof (round_trapframe nsz ltac:(lia)). lia. }
    destruct (round_trapframe nsz ltac:(lia)) as [B1 B2]. pose proof (round_mono sz nsz ltac:(lia) ltac:(lia)) as Hm.
    assert ((PGROUNDUP nsz - PGROUNDUP sz) / PGSIZE * PGSIZE = PGROUNDUP nsz - PGROUNDUP sz) as Hd.
    { symmetry. apply aligned_div. rewrite Zminus_mod, A2, B2. done. }
    exists r, k', l'. split; [done|]. destruct Hr as [(-> & G & N)|(-> & N & hi & Hhi & R)].
    + left. split; [done|]. split; [by apply (space_grown k k' l l' root sz nsz)|]. unfold PGSIZE in *. lia.
    + right. split; [done|]. split; [apply (space_restored k k' l l' root sz hi); [done|lia|done]|]. split; [lia|]. right. unfold PGSIZE in *. lia.
Qed.

(** ** Writing *)

Definition put_bytes (va : Z) (src : list Z) (img : Z -> Z) : Z -> Z := fun x =>
  if (va <=? x) && (x <? va + Z.of_nat (length src)) then nth (Z.to_nat (x - va)) src 0 else img x.

Lemma space_phys_inj k l root sz prm img v v' : space k l root sz prm img -> 0 <= v < PGROUNDUP sz -> 0 <= v' < PGROUNDUP sz ->
  phys (kmemory k) root v = phys (kmemory k) root v' -> v = v'.
Proof.
  intros H Hv Hv' E. destruct (space_entry k l root sz prm img v H Hv) as (_ & _ & (D & _) & _).
  destruct (space_entry k l root sz prm img v' H Hv') as (_ & _ & (D' & _) & _).
  pose proof (Z.mod_pos_bound v PGSIZE ltac:(done)). pose proof (Z.mod_pos_bound v' PGSIZE ltac:(done)). unfold phys in E.
  destruct (Z.eq_dec (PTE2PA (pteval (kmemory k) root v)) (PTE2PA (pteval (kmemory k) root v'))) as [Ep|N].
  - pose proof (sp_inj _ _ _ _ _ _ H v v' Hv Hv' Ep) as Es. apply Z.eqb_eq in Es.
    rewrite (Z.div_mod v PGSIZE), (Z.div_mod v' PGSIZE) by done. rewrite Es. lia.
  - destruct (page_apart end_ _ _ D D' N); lia.
Qed.

Lemma space_write k l root sz prm img va src m' : space k l root sz prm img -> 0 <= va -> va + Z.of_nat (length src) <= PGROUNDUP sz ->
  copied (kmemory k) m' root va src -> space (set_mem m' k) l root sz prm (put_bytes va src img).
Proof.
  intros H Hva Hl [C1 C2]. pose proof H as [S1 S2 S3 S4 S5 S6 S7 S8 S9 S10 S11].
  assert (forall p, page end_ p -> is_table (kmemory k) root p \/ p ∈ l \/ p ∉ l0 -> agree (kmemory k) m' p) as Hag.
  { intros p Hp Hor x Hx. apply C2. intros i Hi ->.
    destruct (space_entry k l root sz prm img (va + Z.of_nat i) H ltac:(lia)) as (_ & D0 & (D1 & D2 & D3) & _).
    pose proof (Z.mod_pos_bound (va + Z.of_nat i) PGSIZE ltac:(done)). unfold phys in Hx. set (q := PTE2PA _) in *.
    destruct (Z.eq_dec p q) as [->|N]; [destruct Hor as [|[|]]; done|]. destruct (page_apart end_ _ _ Hp D1 N); lia. }
  assert (KInv end_ (set_mem m' k) l) as HK.
  { apply KInv_client; [apply S1|]. intros x a Hx Ha. apply (Hag x); [|by right; left|done]. eapply chain_pages; [apply S1|done]. }
  destruct (PT_agree end_ k (set_mem m' k) l l root S1 HK) as (A & B & C).
  { intros p Hp. destruct (pt_table _ _ _ _ S1 p Hp). split; [|done]. apply Hag; [done|by left]. }
  assert (forall v, phys (kmemory (set_mem m' k)) root v = phys (kmemory k) root v) as Hph by (intros v; unfold phys; by rewrite B).
  split; [done|done|done| | | | | | | |].
  - intros d D1 D2. destruct (S4 d D1 D2) as [G N]. rewrite C. split; [|done]. intros a Ha. cbn [kmemory set_mem]. rewrite (Hag d), G by auto. done.
  - intros v Hv. rewrite B. destruct (S5 v Hv) as (Hr & p & P1 & P2 & (P3 & P4 & P5)). split; [done|]. exists p. split_and!; try done.
    unfold data_page. by rewrite C.
  - intros v v' Hv Hv'. rewrite !B. by apply S6.
  - intros v Hv. rewrite B. by apply S7.
  - intros v Hv. rewrite B. by apply S8.
  - intros v Hv. rewrite Hph. cbn [kmemory set_mem]. unfold put_bytes.
    destruct (Z.leb_spec va v), (Z.ltb_spec v (va + Z.of_nat (length src))); cbn [andb].
    1: { replace v with (va + Z.of_nat (Z.to_nat (v - va))) at 1 by lia. apply C1. destruct (nth_lookup_or_length src (Z.to_nat (v - va)) 0) as [E|E]; [done|lia]. }
    all: rewrite <- S9 by done; apply C2; intros i Hi E; apply (space_phys_inj k l root sz prm img) in E; try done; lia.
  - intros v Hv. unfold put_bytes. rewrite (proj2 (Z.ltb_ge v _)), andb_false_r by lia. by apply S10.
  - intros x Hx. rewrite C. destruct (S11 x Hx) as [|[|(v & Hv & E)]]; [by left|by right; left|]. right. right. exists v. by rewrite B.
Qed.

(** [readi] into a page. *)
Lemma page_copied m root va b : va mod PGSIZE = 0 -> Z.of_nat (length b) <= PGSIZE ->
  let pa := PTE2PA (pteval m root va) in
  copied m (fun x => if (pa <=? x) && (x <? pa + Z.of_nat (length b)) then nth (Z.to_nat (x - pa)) b 0 else m x) root va b.
Proof.
  intros Hal Hl pa. assert (forall i, (i < length b)%nat -> phys m root (va + Z.of_nat i) = pa + Z.of_nat i) as Hph.
  { intros i Hi. rewrite phys_add by lia. rewrite Hal. unfold pa. lia. }
  split.
  - intros i c Hi. pose proof (lookup_lt_Some _ _ _ Hi). rewrite Hph by done.
    rewrite (proj2 (Z.leb_le _ _)), (proj2 (Z.ltb_lt _ _)) by lia. cbn [andb]. replace (Z.to_nat (pa + Z.of_nat i - pa)) with i by lia.
    by apply nth_lookup_Some.
  - intros x Hx. destruct (Z.leb_spec pa x), (Z.ltb_spec x (pa + Z.of_nat (length b))); cbn [andb]; try done.
    exfalso. apply (Hx (Z.to_nat (x - pa))); [lia|]. rewrite Hph by lia. lia.
Qed.

Lemma space_range k l root sz prm img va len : space k l root sz prm img -> 0 <= va -> 0 <= len -> va + len <= PGROUNDUP sz ->
  (forall v, va <= v < va + len -> Z.testbit (prm v) 4 = true /\ Z.testbit (prm v) 2 = true) ->
  user_range end_ k l root true va len.
Proof.
  intros H Hva Hl Hs Hp. destruct (round_trapframe sz (sp_sz _ _ _ _ _ _ H)) as [A _]. assert (TRAPFRAME < MAXVA) as Htm by done. split; [lia|..].
  - intros v Hv. destruct (space_entry k l root sz prm img v H ltac:(lia)) as (V & _ & D & F). destruct (Hp v Hv) as [P1 P2].
    split; [done|]. unfold PTE_U, PTE_W. rewrite !F by lia. done.
  - intros v v' Hv Hv'. apply H; lia.
Qed.

(** [copyout] to user pages that can be written never fails. *)
Lemma space_copyout ppt psz k l root sz prm img va src : space k l root sz prm img -> 0 <= va -> va + Z.of_nat (length src) <= PGROUNDUP sz ->
  (forall v, va <= v < va + Z.of_nat (length src) -> Z.testbit (prm v) 4 = true /\ Z.testbit (prm v) 2 = true) ->
  exists k', copyout end_ ppt psz root va src k = Ret (0, k') /\ space k' l root sz prm (put_bytes va src img).
Proof.
  intros H Hva Hs Hp. pose proof (space_range k l root sz prm img va (Z.of_nat (length src)) H Hva (Zle_0_nat _) Hs Hp) as HU.
  destruct (copyout_loop_spec end_ ppt psz root (length src) k l va src ltac:(lia) (sp_pt _ _ _ _ _ _ H) HU) as (m' & E & C).
  exists (set_mem m' k). split; [done|]. by apply space_write.
Qed.
End Building.

(** ** Giving a table back *)

Lemma MAXVA_top : TRAMPOLINE + PGSIZE = MAXVA /\ TRAPFRAME + PGSIZE = TRAMPOLINE /\ TRAMPOLINE mod PGSIZE = 0 /\ TRAPFRAME mod PGSIZE = 0.
Proof. done. Qed.

(** Unmapping one of the two pages at the top, which stay in use. *)
Lemma unmap_top end_ k l root va : PT end_ k l root -> TRAPFRAME <= va -> va + PGSIZE <= MAXVA -> va mod PGSIZE = 0 ->
  exists k', uvmunmap end_ root va 1 false k = Ret (tt, k') /\ PT end_ k' l root /\
    (forall v, 0 <= v < MAXVA -> pteval (kmemory k') root v = if same_page v va && has (pteval (kmemory k) root v) PTE_V then 0 else pteval (kmemory k) root v) /\
    (forall p, is_table (kmemory k') root p <-> is_table (kmemory k) root p) /\
    (forall d, page end_ d -> ~ is_table (kmemory k) root d -> agree (kmemory k) (kmemory k') d).
Proof.
  intros HP Hva Hm Hal. assert (0 < TRAPFRAME) by done.
  destruct (unmap_loop_spec end_ false 1 k l root va HP ltac:(lia) ltac:(lia) Hal) as (k' & E & [U1 U2 U3 U4]); [constructor|constructor|].
  exists k'. split; [|split; [done|split; [|split; [done|]]]].
  - unfold uvmunmap. rewrite (proj2 (Z.eqb_eq _ _) Hal). by rewrite (M_bind_Ret _ _ k tt k).
  - intros v Hv. rewrite U2 by done. change (Z.of_nat 1 * PGSIZE) with PGSIZE. by rewrite page_range.
  - intros d D1 D2. apply U4; [done|by intros ?%elem_of_nil|done].
Qed.

Lemma freepagetable_run end_ k l root sz : PT end_ k l root -> 0 <= sz <= TRAPFRAME -> owns end_ k l root 0 (PGROUNDUP sz) ->
  (forall va, PGROUNDUP sz <= va < TRAPFRAME -> has (pteval (kmemory k) root va) PTE_V = false) ->
  exists k' l', proc_freepagetable end_ root sz k = Ret (tt, k') /\ KInv end_ k' l' /\
    (forall p, p ∈ l' <-> p ∈ l \/ is_table (kmemory k) root p \/
       exists va, 0 <= va < PGROUNDUP sz /\ has (pteval (kmemory k) root va) PTE_V = true /\ PTE2PA (pteval (kmemory k) root va) = p) /\
    forall q, page end_ q -> q ∉ l' -> agree (kmemory k) (kmemory k') q.
Proof.
  intros HP Hsz [O1 O2] Hn. destruct MAXVA_top as (M1 & M2 & M3 & M4). destruct (round_trapframe sz Hsz) as [A1 A2]. assert (0 < PGSIZE) as Hpg by done.
  destruct (unmap_top end_ k l root TRAMPOLINE HP ltac:(lia) ltac:(lia) M3) as (k1 & E1 & P1 & V1 & T1 & G1).
  destruct (unmap_top end_ k1 l root TRAPFRAME P1 ltac:(lia) ltac:(lia) M4) as (k2 & E2 & P2 & V2 & T2 & G2).
  assert (forall v, 0 <= v < TRAPFRAME -> pteval (kmemory k2) root v = pteval (kmemory k) root v) as Hv.
  { intros v Hv. rewrite V2, V1 by lia. rewrite <- !page_range by done. by rewrite !(proj2 (Z.leb_gt _ _)) by lia. }
  assert (forall d, page end_ d -> ~ is_table (kmemory k) root d -> agree (kmemory k) (kmemory k2) d) as G.
  { intros d D1 D2 a Ha. rewrite (G2 d), (G1 d); try done. by rewrite T1. }
  assert (forall v, TRAPFRAME <= v < MAXVA -> has (pteval (kmemory k2) root v) PTE_V = false) as Htop.
  { intros v Hr. rewrite V2, V1 by lia. rewrite <- !page_range by done.
    destruct (Z.leb_spec TRAPFRAME v), (Z.ltb_spec v (TRAPFRAME + PGSIZE)), (Z.leb_spec TRAMPOLINE v), (Z.ltb_spec v (TRAMPOLINE + PGSIZE)); try lia; cbn [andb];
      destruct (has (pteval (kmemory k) root v) PTE_V) eqn:Eh; try done; by rewrite Eh. }
  destruct (uvmfree_correct end_ k2 l root sz P2 ltac:(lia)) as (k3 & l3 & E3 & K3 & L3 & G3).
  - split.
    + intros va Hva. rewrite Hv by lia. cbv zeta. intros He. destruct (O1 va Hva He) as (D1 & D2 & D3). split; [done|]. split; [done|]. by rewrite T2, T1.
    + intros va va' Hva Hva'. rewrite !Hv by lia. by apply O2.
  - intros va Hva. destruct (Z.lt_ge_cases va TRAPFRAME); [rewrite Hv by lia; apply Hn; lia|apply Htop; lia].
  - exists k3, l3. assert (forall p, p ∈ l3 <-> p ∈ l \/ is_table (kmemory k) root p \/
       exists va, 0 <= va < PGROUNDUP sz /\ has (pteval (kmemory k) root va) PTE_V = true /\ PTE2PA (pteval (kmemory k) root va) = p) as HL.
    { intros p. rewrite L3, T2, T1. do 2 (apply or_iff_compat_l). split; intros (va & Hva & H); exists va; (split; [done|]); by rewrite Hv in * by lia. }
    split; [|split; [done|split; [done|]]].
    + unfold proc_freepagetable. rewrite (M_bind_Ret _ _ _ _ _ E1), (M_bind_Ret _ _ _ _ _ E2). exact E3.
    + intros q Q1 Q2 a Ha. rewrite (G3 q), (G q); try done. intros Hq. apply Q2, HL. by right; left.
Qed.

Section Undo.
Context (end_ : Z) (top : Z -> Z) (k0 : kmem) (l0 : list Z).
Abbreviation space := (space end_ top k0 l0).

(** Giving up: everything is free again, and nothing else was touched. *)
Lemma space_freed k l root sz prm img : space k l root sz prm img ->
  exists k' l', proc_freepagetable end_ root sz k = Ret (tt, k') /\ KInv end_ k' l' /\ (forall p, p ∈ l' <-> p ∈ l0) /\
    forall q, page end_ q -> q ∉ l0 -> agree (kmemory k0) (kmemory k') q.
Proof.
  intros H. pose proof H as [S1 S2 S3 S4 S5 S6 S7 S8 S9 S10 S11].
  destruct (freepagetable_run end_ k l root sz S1 S2 (space_owns _ _ _ _ _ _ _ _ _ _ H) S7) as (k' & l' & E & K & L & G).
  assert (forall p, p ∈ l' <-> p ∈ l0) as HL.
  { intros p. rewrite L. split.
    - intros [Hp|[Hp|(va & Hva & _ & <-)]]; [auto| |by apply (space_entry _ _ _ _ _ _ _ _ _ _ va H)].
      destruct (pt_table _ _ _ _ S1 p Hp) as [Hpg _]. destruct (decide (p ∈ l0)) as [|N]; [done|]. by destruct (S4 p Hpg N).
    - intros [Hp|[Hp|(va & Hva & Hp)]]%S11; [by left|by right; left|]. right. right. exists va. split; [done|]. split; [|done].
      by apply (space_entry _ _ _ _ _ _ _ _ _ _ va H). }
  exists k', l'. split; [done|]. split; [done|]. split; [done|]. intros q Q1 Q2 a Ha.
  destruct (S4 q Q1 Q2) as [A _]. rewrite (G q), A; try done. by rewrite HL.
Qed.
End Undo.

(** ** A new table *)

(** The entries [proc_pagetable] makes. *)
Definition top_entries (trampoline tf va : Z) : Z :=
  if same_page va TRAMPOLINE then entry trampoline (Z.lor PTE_R PTE_X)
  else if same_page va TRAPFRAME then entry tf (Z.lor PTE_R PTE_W) else 0.

Section Create.
Context (end_ : Z) (k0 : kmem) (l0 : list Z).

(** A table with the entries [f], made of pages that were free. *)
Record bare (k : kmem) (l : list Z) (root : Z) (f : Z -> Z) : Prop := {
  br_pt : PT end_ k l root;
  br_sub : forall x, x ∈ l -> x ∈ l0;
  br_keep : forall d, page end_ d -> d ∉ l0 -> agree (kmemory k0) (kmemory k) d /\ ~ is_table (kmemory k) root d;
  br_all : forall x, x ∈ l0 -> x ∈ l \/ is_table (kmemory k) root x;
  br_val : forall va, 0 <= va < MAXVA -> pteval (kmemory k) root va = f va
}.

Definition given_back (k : kmem) (l : list Z) : Prop :=
  KInv end_ k l /\ (forall p, p ∈ l <-> p ∈ l0) /\ forall q, page end_ q -> q ∉ l0 -> agree (kmemory k0) (kmemory k) q.

Lemma bare_map k l root f va pa perm : bare k l root f -> 0 <= va < MAXVA -> va mod PGSIZE = 0 -> pa mod PGSIZE = 0 -> 0 <= pa < 2 ^ 55 ->
  0 <= perm < 1024 -> has (f va) PTE_V = false ->
  exists r k' l', mappages root va PGSIZE pa perm k = Ret (r, k') /\ (length l <= length l' + 2)%nat /\
    ((r = 0 /\ bare k' l' root (fun v => if same_page v va then entry pa perm else f v)) \/ (r = -1 /\ l' = [] /\ bare k' l' root f)).
Proof.
  intros [B1 B2 B3 B4 B5] Hva Hal Hpa Hpr Hperm Hf.
  destruct (map_page end_ k l root va pa perm B1 Hva Hal Hpa Hpr Hperm ltac:(by rewrite B5)) as (r & k' & l' & E & P & L & V & D & R & N & A).
  exists r, k', l'. split; [done|]. split; [done|].
  assert (forall f', (forall v, 0 <= v < MAXVA -> f' v = if same_page v va && (r =? 0) then entry pa perm else f v) -> bare k' l' root f') as Hb.
  { intros f' Hf'. split; [done|auto| | |].
    - intros d D1 D2. destruct (B3 d D1 D2) as [G1 G2]. destruct (D d D1) as [G3 G4]; [auto|done|]. split; [|done]. intros a Ha. by rewrite G3, G1.
    - intros x Hx. apply A. auto.
    - intros v Hv. rewrite V, Hf' by done. destruct (same_page v va && (r =? 0)); [done|by apply B5]. }
  destruct R as [->|[-> ->]]; [left|right]; (split; [done|]); try (split; [done|]); apply Hb; intros v Hv; cbn [Z.eqb]; by rewrite ?andb_true_r, ?andb_false_r.
Qed.

Lemma bare_free k l root f : bare k l root f -> (forall va, 0 <= va < MAXVA -> has (f va) PTE_V = false) ->
  exists k' l', uvmfree end_ root 0 k = Ret (tt, k') /\ given_back k' l'.
Proof.
  intros [B1 B2 B3 B4 B5] Hf. change (PGROUNDUP 0) with 0 in *.
  destruct (uvmfree_correct end_ k l root 0 B1) as (k' & l' & E & K & L & G); [split; [lia|done]|split; intros; change (PGROUNDUP 0) with 0 in *; lia| |].
  { intros va Hva. change (PGROUNDUP 0) with 0 in Hva. rewrite B5 by done. by apply Hf. }
  exists k', l'. split; [done|]. assert (forall p, p ∈ l' <-> p ∈ l0) as HL.
  { intros p. rewrite L. split.
    - intros [Hp|[Hp|(va & Hva & _)]]; [auto| |change (PGROUNDUP 0) with 0 in Hva; lia].
      destruct (pt_table _ _ _ _ B1 p Hp) as [Hpg _]. destruct (decide (p ∈ l0)) as [|N]; [done|]. by destruct (B3 p Hpg N).
    - intros [Hp|Hp]%B4; [by left|by right; left]. }
  split; [done|]. split; [done|]. intros q Q1 Q2 a Ha. destruct (B3 q Q1 Q2) as [A _]. rewrite (G q), A; try done. by rewrite HL.
Qed.

Lemma bare_unmap k l root f va : bare k l root f -> TRAPFRAME <= va -> va + PGSIZE <= MAXVA -> va mod PGSIZE = 0 ->
  exists k', uvmunmap end_ root va 1 false k = Ret (tt, k') /\ bare k' l root (fun v => if same_page v va && has (f v) PTE_V then 0 else f v).
Proof.
  intros [B1 B2 B3 B4 B5] Hva Hm Hal. destruct (unmap_top end_ k l root va B1 Hva Hm Hal) as (k' & E & P & V & T & G).
  exists k'. split; [done|]. split; [done|done| | |].
  - intros d D1 D2. destruct (B3 d D1 D2) as [G1 G2]. rewrite T. split; [|done]. intros a Ha. by rewrite (G d), G1.
  - intros x Hx. rewrite T. by apply B4.
  - intros v Hv. rewrite V by done. by rewrite B5 by done.
Qed.

Lemma bare_space k l root f : bare k l root f -> (forall va, 0 <= va < TRAPFRAME -> f va = 0) -> space end_ f k0 l0 k l root 0 (fun _ => 0) (fun _ => 0).
Proof.
  intros [B1 B2 B3 B4 B5] Hf. assert (TRAPFRAME < MAXVA) as Htm by done. change (PGROUNDUP 0) with 0.
  split; change (PGROUNDUP 0) with 0; try done; try (intros; lia).
  - intros va Hva. rewrite B5 by lia. by rewrite Hf.
  - intros va Hva. apply B5. assert (0 < TRAPFRAME) by done. lia.
  - intros x [|]%B4; [by left|by right; left].
Qed.

Lemma uvmcreate_bare : KInv end_ k0 l0 ->
  exists r k' l', uvmcreate k0 = Ret (r, k') /\ ((r = 0 /\ l0 = [] /\ given_back k' l') \/ (r <> 0 /\ (length l0 = S (length l')) /\ bare k' l' r (fun _ => 0))).
Proof.
  intros HK. remember l0 as l1 eqn:El. destruct l1 as [|p l].
  { exists 0, k0, []. unfold uvmcreate. rewrite (M_bind_Ret _ _ _ _ _ (kalloc_spec end_ k0 [] HK)). split; [done|]. left. split; [done|]. split; [done|].
    split; [done|]. split; [by rewrite <- El|]. done. }
  destruct (uvmcreate_spec end_ k0 p l HK) as (k' & E & P & V & T & G). exists p, k', l. split; [done|]. right.
  destruct (pt_table _ _ _ _ P p) as [(Hp1 & Hp2 & Hp3) _]; [by left|]. split; [lia|]. split; [done|]. split; [done| | | |done].
  - intros x Hx. rewrite <- El. apply elem_of_cons. by right.
  - rewrite <- El. intros d D1 [N1 N2]%not_elem_of_cons. split; [by apply G|]. intros ?%T. done.
  - rewrite <- El. intros x [->|Hx]%elem_of_cons; [right; by left|by left].
Qed.

(** [proc_pagetable]: the two pages at the top, or no page is lost. *)
Lemma proc_pagetable_run trampoline tf : KInv end_ k0 l0 -> trampoline mod PGSIZE = 0 -> 0 <= trampoline < 2 ^ 55 -> tf mod PGSIZE = 0 -> 0 <= tf < 2 ^ 55 ->
  exists r k' l', proc_pagetable end_ trampoline tf k0 = Ret (r, k') /\
    ((r <> 0 /\ (length l0 <= length l' + 5)%nat /\ space end_ (top_entries trampoline tf) k0 l0 k' l' r 0 (fun _ => 0) (fun _ => 0)) \/
     (r = 0 /\ (length l0 <= 5)%nat /\ given_back k' l')).
Proof.
  intros HK T1 T2 F1 F2. destruct MAXVA_top as (M1 & M2 & M3 & M4). assert (0 < TRAPFRAME /\ 0 < PGSIZE) as [Ht0 Hpg] by done.
  destruct (uvmcreate_bare HK) as (root & k1 & l1 & E1 & [(-> & E0 & G1)|(Nr & N1 & B1)]).
  { exists 0, k1, l1. unfold proc_pagetable. rewrite (M_bind_Ret _ _ _ _ _ E1). split; [done|]. right. split; [done|]. split; [|done]. rewrite E0. cbn [length]. lia. }
  unfold proc_pagetable. rewrite (M_bind_Ret _ _ _ _ _ E1), (proj2 (Z.eqb_neq root 0)) by done.
  destruct (bare_map k1 l1 root _ TRAMPOLINE trampoline (Z.lor PTE_R PTE_X) B1 ltac:(lia) M3 T1 T2 ltac:(vm_compute; split; congruence) eq_refl)
    as (r & k2 & l2 & E2 & N2 & [(-> & B2)|(-> & -> & B2)]); rewrite (M_bind_Ret _ _ _ _ _ E2); cbn [Z.ltb Z.compare].
  2:{ destruct (bare_free k2 [] root _ B2 ltac:(done)) as (k3 & l3 & E3 & G3). rewrite (M_bind_Ret _ _ _ _ _ E3).
      exists 0, k3, l3. split; [done|]. right. split; [done|]. split; [cbn [length] in N2; lia|done]. }
  assert (forall v, v < TRAMPOLINE -> same_page v TRAMPOLINE = false) as Hs.
  { intros v Hv. rewrite <- page_range by done. by rewrite (proj2 (Z.leb_gt _ _)) by lia. }
  destruct (bare_map k2 l2 root _ TRAPFRAME tf (Z.lor PTE_R PTE_W) B2 ltac:(lia) M4 F1 F2 ltac:(vm_compute; split; congruence) ltac:(cbv beta; rewrite Hs by lia; done))
    as (r & k3 & l3 & E3 & N3 & [(-> & B3)|(-> & -> & B3)]); rewrite (M_bind_Ret _ _ _ _ _ E3); cbn [Z.ltb Z.compare].
  - exists root, k3, l3. split; [done|]. left. split; [done|]. split; [lia|].
    apply bare_space.
    + destruct B3 as [? ? ? ? Bv]. split; try done. intros va Hva. rewrite Bv by done. unfold top_entries.
      destruct (same_page va TRAPFRAME) eqn:Ea, (same_page va TRAMPOLINE) eqn:Eb; try done.
      apply Z.eqb_eq in Ea, Eb. rewrite Eb in Ea. vm_compute in Ea. done.
    + intros va Hva. unfold top_entries. rewrite Hs by lia. rewrite <- page_range by done. by rewrite (proj2 (Z.leb_gt _ _)) by lia.
  - destruct (bare_unmap k3 [] root _ TRAMPOLINE B3 ltac:(lia) ltac:(lia) M3) as (k4 & E4 & B4). rewrite (M_bind_Ret _ _ _ _ _ E4).
    destruct (bare_free k4 [] root _ B4) as (k5 & l5 & E5 & G5).
    { intros va Hva. cbv beta. destruct (same_page va TRAMPOLINE) eqn:Es; cbn [andb]; [|done]. by destruct (has (entry trampoline (Z.lor PTE_R PTE_X)) PTE_V) eqn:Eh. }
    rewrite (M_bind_Ret _ _ _ _ _ E5). exists 0, k5, l5. split; [done|]. right. split; [done|]. split; [cbn [length] in N3; lia|done].
Qed.
End Create.

(** ** The guard page *)

Lemma entry_clear p perm : Z.land (entry p perm) (Z.lnot PTE_U) = entry p (Z.land perm (Z.lnot PTE_U)).
Proof.
  apply Z.bits_inj'. intros n Hn. unfold entry. rewrite !Z.land_spec, !Z.lor_spec, !Z.land_spec. unfold PTE_U, PTE_V.
  rewrite Z.lnot_spec by done. destruct (Z.eq_dec n 4) as [->|N].
  - unfold PA2PTE. rewrite Z.shiftl_spec_low by lia. cbn. by rewrite !andb_false_r.
  - rewrite (Z.shiftl_1_l 4), Z.pow2_bits_false by lia. cbn [negb]. by rewrite !andb_true_r.
Qed.

Section Guard.
Context (end_ : Z) (top : Z -> Z) (k0 : kmem) (l0 : list Z).
Abbreviation space := (space end_ top k0 l0).

Lemma space_clear k l root sz prm img va : space k l root sz prm img -> 0 <= va < PGROUNDUP sz ->
  exists k', uvmclear root va k = Ret (tt, k') /\
    space k' l root sz (fun v => if same_page v va then Z.land (prm va) (Z.lnot PTE_U) else prm v) img.
Proof.
  intros H Hva. pose proof H as [S1 S2 S3 S4 S5 S6 S7 S8 S9 S10 S11]. destruct (round_trapframe sz S2) as [A1 _]. assert (TRAPFRAME < MAXVA) as Htm by done.
  destruct (S5 va Hva) as (Hr & p & P1 & E & P2). unfold uvmclear. rewrite (M_bind_Ret _ _ _ _ _ (walk_found k root va ltac:(lia))).
  assert (exists a, leaf (kmemory k) root va = Some a /\ ld64 (kmemory k) a = entry p (prm va)) as (a & Ea & El).
  { destruct (entry_parts end_ p (prm va) (proj1 P2) Hr) as (_ & Hv & _). rewrite <- E in Hv |- *. unfold pteval in *.
    destruct (leaf (kmemory k) root va) as [a|]; [by exists a|done]. }
  rewrite Ea. unfold ld. rewrite (M_bind_Ret _ _ k (ld64 (kmemory k) a) k) by done. rewrite El, entry_clear.
  set (prm' := fun v => if same_page v va then Z.land (prm va) (Z.lnot PTE_U) else prm v).
  assert (0 <= Z.land (prm va) (Z.lnot PTE_U) < 1024) as Hland.
  { assert (Z.land (prm va) (Z.ones 10) = prm va) as <- by (rewrite Z.land_ones by lia; apply Z.mod_small; lia).
    rewrite <- Z.land_assoc, (Z.land_comm (Z.ones 10)), Z.land_assoc, Z.land_ones by lia. by apply Z.mod_pos_bound. }
  assert (forall v, 0 <= v < PGROUNDUP sz -> 0 <= prm' v < 1024) as Hp' by (intros v Hv; destruct (S5 v Hv) as [? _]; unfold prm'; by destruct (same_page v va)).
  destruct P2 as (P2 & P3 & P4). pose proof P2 as (Q1 & Q2 & Q3). change PHYSTOP with (557056 * 4096) in Q2.
  destruct (set_leaf end_ k l root va a (entry p (Z.land (prm va) (Z.lnot PTE_U))) S1 ltac:(lia) Ea) as [L1 L2 L3 L4].
  { apply leaf_entry; [done|lia|done]. }
  set (k' := set_mem _ k) in *. exists k'. split; [done|].
  assert (forall v, 0 <= v < PGROUNDUP sz -> exists q, q ∈ l0 /\ pteval (kmemory k') root v = entry q (prm' v) /\ data_page end_ k' l root q /\
    PTE2PA (pteval (kmemory k') root v) = q /\ PTE2PA (pteval (kmemory k) root v) = q /\ agree (kmemory k) (kmemory k') q) as Hpg.
  { intros v Hv. destruct (S5 v Hv) as (Rv & q & Q4 & Q5 & (Q6 & Q7 & Q8)). exists q. split; [done|].
    assert (pteval (kmemory k') root v = entry q (prm' v)) as Ev.
    { rewrite L2 by lia. unfold prm'. destruct (same_page v va) eqn:Es; [|done]. rewrite (pteval_same _ _ _ _ Es), E in Q5.
      assert (p = q) as ->. { rewrite <- (proj1 (entry_parts end_ p (prm va) P2 Hr)), Q5. by apply (entry_parts end_ q). }
      done. }
    rewrite Ev, Q5. rewrite (proj1 (entry_parts end_ q _ Q6 (Hp' v Hv))), (proj1 (entry_parts end_ q _ Q6 Rv)).
    split; [done|]. split; [split; [done|]; split; [done|]; by rewrite L3|]. split; [done|]. split; [done|]. by apply L4. }
  assert (forall v, PGROUNDUP sz <= v < MAXVA -> pteval (kmemory k') root v = pteval (kmemory k) root v) as Habove.
  { intros v Hv. rewrite L2 by lia. destruct (same_page v va) eqn:Es; [|done]. exfalso. apply Z.eqb_eq in Es.
    destruct (round_trapframe sz S2) as [_ A2]. apply aligned_div in A2. pose proof (Z.div_mod va PGSIZE ltac:(done)). pose proof (Z.mod_pos_bound va PGSIZE ltac:(done)).
    pose proof (Z.div_mod v PGSIZE ltac:(done)). pose proof (Z.mod_pos_bound v PGSIZE ltac:(done)). unfold PGSIZE in *. lia. }
  split; [done|done|done| | | | | | |done|].
  - intros d D1 D2. destruct (S4 d D1 D2) as [G N]. rewrite L3. split; [|done]. intros x Hx. by rewrite (L4 d), G.
  - intros v Hv. split; [by apply Hp'|]. destruct (Hpg v Hv) as (q & ? & ? & ? & _). by exists q.
  - intros v v' Hv Hv'. destruct (Hpg v Hv) as (q & _ & _ & _ & -> & G & _), (Hpg v' Hv') as (q' & _ & _ & _ & -> & G' & _). rewrite <- G, <- G'. by apply S6.
  - intros v Hv. rewrite Habove by lia. by apply S7.
  - intros v Hv. rewrite Habove by lia. by apply S8.
  - intros v Hv. rewrite <- S9 by done. unfold phys. destruct (Hpg v Hv) as (q & _ & _ & _ & -> & -> & G). apply G.
    pose proof (Z.mod_pos_bound v PGSIZE ltac:(done)). lia.
  - intros x Hx. rewrite L3. destruct (S11 x Hx) as [|[|(v & Hv & Ex)]]; [by left|by right; left|]. right. right. exists v. split; [done|].
    destruct (Hpg v Hv) as (q & _ & _ & _ & -> & G & _). by rewrite <- G.
Qed.
End Guard.

(** ** Taking the place of the old address space *)

(** The pages of an address space: its tables and the user pages. *)
Definition owned (k : kmem) (root sz : Z) : list Z :=
  tables (kmemory k) root ++ upages (kmemory k) root 0 (Z.to_nat (PGROUNDUP sz / PGSIZE)).

Lemma elem_of_owned k root sz p : 0 <= sz <= TRAPFRAME -> p ∈ owned k root sz <-> is_table (kmemory k) root p \/
  exists va, 0 <= va < PGROUNDUP sz /\ has (pteval (kmemory k) root va) PTE_V = true /\ PTE2PA (pteval (kmemory k) root va) = p.
Proof.
  intros H. destruct (round_trapframe sz H) as [A1 A2]. unfold owned. rewrite elem_of_app, elem_of_tables. apply or_iff_compat_l.
  set (n := Z.to_nat _). assert (0 + Z.of_nat n * PGSIZE = PGROUNDUP sz) as En.
  { pose proof (pages_between 0 (PGROUNDUP sz) ltac:(lia) eq_refl A2) as E. by rewrite Z.sub_0_r in E. }
  split.
  - intros (i & Hi & W1 & W2)%upages_elem. exists (0 + Z.of_nat i * PGSIZE). split; [unfold PGSIZE in *; lia|done].
  - intros (va & Hva & W1 & <-). apply upages_in; [done|lia|done].
Qed.

(** What the pages of a process look like to the kernel; [top] entries are not its own. *)
Record user_space (end_ : Z) (k : kmem) (l : list Z) (root sz : Z) : Prop := {
  us_pt : PT end_ k l root;
  us_sz : 0 <= sz <= TRAPFRAME;
  us_owns : owns end_ k l root 0 (PGROUNDUP sz);
  us_none : forall va, PGROUNDUP sz <= va < TRAPFRAME -> has (pteval (kmemory k) root va) PTE_V = false
}.

Section Switch.
Context (end_ : Z) (top : Z -> Z) (k0 : kmem) (l0 : list Z) (old osz : Z).
Context (Hold : user_space end_ k0 l0 old osz).

Lemma owned_not_free p : p ∈ owned k0 old osz -> page end_ p /\ p ∉ l0.
Proof.
  destruct Hold as [O1 O2 [O3 _] _]. rewrite elem_of_owned by done. intros [Hp|(va & Hva & V & <-)]; [by apply (pt_table _ _ _ _ O1)|].
  destruct (O3 va Hva V) as (? & ? & _). done.
Qed.

(** Building the new space has not touched the old one. *)
Lemma old_intact k l root sz prm img : space end_ top k0 l0 k l root sz prm img ->
  user_space end_ k l old osz /\ forall p, p ∈ owned k old osz <-> p ∈ owned k0 old osz.
Proof.
  intros [S1 S2 S3 S4 _ _ _ _ _ _ _]. destruct Hold as [O1 O2 [O3 O4] O5].
  destruct (PT_agree end_ k0 k l0 l old O1 (pt_k _ _ _ _ S1)) as (A & B & C).
  { intros p Hp. destruct (pt_table _ _ _ _ O1 p Hp) as [P1 P2]. destruct (S4 p P1 P2). split; [done|auto]. }
  split; [split; [done|done|split|]|].
  - intros va Hva. rewrite B. cbv zeta. intros V. destruct (O3 va Hva V) as (D1 & D2 & D3). split; [done|]. split; [auto|by rewrite C].
  - intros va va' Hva Hva'. rewrite !B. by apply O4.
  - intros va Hva. rewrite B. by apply O5.
  - intros p. rewrite !elem_of_owned, C by done. split; (intros [H|(va & Hva & H)]; [by left|right; exists va; by rewrite B in *]).
Qed.

Lemma space_switch k l root sz prm img : space end_ top k0 l0 k l root sz prm img ->
  exists k' l', proc_freepagetable end_ old osz k = Ret (tt, k') /\
    space end_ top k0 (l0 ++ owned k0 old osz) k' l' root sz prm img.
Proof.
  intros H. destruct (old_intact _ _ _ _ _ _ H) as [[U1 U2 U3 U4] Ho]. pose proof H as [S1 S2 S3 S4 S5 S6 S7 S8 S9 S10 S11].
  destruct (freepagetable_run end_ k l old osz U1 U2 U3 U4) as (k' & l' & E & K & L & G). exists k', l'. split; [done|].
  assert (forall p, p ∈ l' <-> p ∈ l \/ p ∈ owned k0 old osz) as HL by (intros p; by rewrite L, <- Ho, elem_of_owned).
  assert (forall p, page end_ p -> p ∈ l0 -> p ∉ l -> agree (kmemory k) (kmemory k') p /\ p ∉ l') as Hnew.
  { intros p Hp P1 P2. assert (p ∉ l') as N; [|by split; [apply G|]]. rewrite HL. intros [|Hx]; [done|]. by destruct (owned_not_free p Hx). }
  assert (forall p, is_table (kmemory k) root p -> p ∈ l0) as Htab.
  { intros p Hp. destruct (pt_table _ _ _ _ S1 p Hp) as [P1 _]. destruct (decide (p ∈ l0)) as [|N]; [done|]. by destruct (S4 p P1 N). }
  destruct (PT_agree end_ k k' l l' root S1 K) as (A & B & C).
  { intros p Hp. destruct (pt_table _ _ _ _ S1 p Hp) as [P1 P2]. apply Hnew; auto. }
  split; [done|done| | | | | | | |done|].
  - intros x [Hx|Hx]%HL; apply elem_of_app; auto.
  - intros d D1 [N1 N2]%not_elem_of_app. destruct (S4 d D1 N1) as [G1 G2]. rewrite C. split; [|done]. intros a Ha. rewrite (G d), G1; try done.
    rewrite HL. intros [Hx|Hx]; auto.
  - intros va Hva. rewrite B. destruct (S5 va Hva) as (Hr & p & P1 & P2 & (P3 & P4 & P5)). split; [done|]. exists p.
    split; [apply elem_of_app; by left|]. split; [done|]. split; [done|]. split; [by apply Hnew|by rewrite C].
  - intros va va' Hva Hva'. rewrite !B. by apply S6.
  - intros va Hva. rewrite B. by apply S7.
  - intros va Hva. rewrite B. by apply S8.
  - intros va Hva. rewrite <- S9 by done. unfold phys. rewrite B. destruct (space_entry _ _ _ _ _ _ _ _ _ _ va H Hva) as (_ & D0 & (D1 & D2 & _) & _).
    apply (Hnew _ D1 D0 D2). pose proof (Z.mod_pos_bound va PGSIZE ltac:(done)). lia.
  - intros x [Hx|Hx]%elem_of_app; [|left; apply HL; by right]. rewrite C. destruct (S11 x Hx) as [|[|(va & Hva & Ex)]]; [left; apply HL; by left|by right; left|].
    right. right. exists va. by rewrite B.
Qed.
End Switch.
