(* ===== verification/ExecRun.v ===== *)
(** * What [kexec] does

    The address space an ELF file describes ([exec_image]), the stack its arguments give, and that
    [kexec] builds exactly that or leaves everything as it was. *)

From S2P Require Import Prelude Riscv CString Kalloc Words Vm VmMap VmUser VmSpace VmFree VmKernel Syscall Exec ExecSpace.

(** ** The image *)

(** Size, permissions and bytes of the program's part of the address space. *)
Record image := mkImg { im_sz : Z; im_perm : Z -> Z; im_byte : Z -> Z }.
Definition no_image : image := mkImg 0 (fun _ => 0) (fun _ => 0).

Definition seg_perm (ph : proghdr) : Z := Z.lor (Z.lor PTE_R PTE_U) (flags2perm (p_flags ph)).
Definition seg_bytes (file : list Z) (ph : proghdr) : list Z := take (Z.to_nat (p_filesz ph)) (drop (Z.to_nat (u32 (p_off ph))) file).

(** The segment [ph] on top of [im]: it grows to the end of the segment, the pages added have its
    permissions, the bytes of the file lie at its address, and what was added otherwise is 0. *)
Definition add_seg (file : list Z) (im : image) (ph : proghdr) : image :=
  mkImg (Z.max (im_sz im) (p_vaddr ph + p_memsz ph))
    (fun va => if va <? PGROUNDUP (im_sz im) then im_perm im va else seg_perm ph)
    (put_bytes (p_vaddr ph) (seg_bytes file ph) (im_byte im)).

Definition seg_ok (file : list Z) (im : image) (ph : proghdr) : bool :=
  (p_filesz ph <=? p_memsz ph) && (p_vaddr ph + p_memsz ph <? 2 ^ 64) && (p_vaddr ph mod PGSIZE =? 0) &&
  (0 <? Z.max (im_sz im) (p_vaddr ph + p_memsz ph)) &&
  ((p_filesz ph =? 0) || (u32 (p_off ph) + p_filesz ph <=? Z.of_nat (length file))).

(** [n] program headers from offset [off]. *)
Fixpoint image_of (n : nat) (file : list Z) (off : Z) (im : image) : option image :=
  match n with
  | O => Some im
  | S n' =>
    if Z.of_nat (length file) <? off + 56 then None
    else
      let ph := ph_of (take 56 (drop (Z.to_nat off) file)) in
      if negb (p_type ph =? ELF_PROG_LOAD) then image_of n' file (off + 56) im
      else if seg_ok file im ph then image_of n' file (off + 56) (add_seg file im ph) else None
  end.

Definition elf_header (file : list Z) : elfhdr := elf_of (take 64 file).
Definition exec_image (file : list Z) : option image :=
  let elf := elf_header file in
  if (Z.of_nat (length file) <? 64) || negb (e_magic elf =? ELF_MAGIC) then None
  else image_of (Z.to_nat (e_phnum elf)) file (u32 (e_phoff elf)) no_image.

(** ** The stack *)

Definition down16 (x : Z) : Z := x - x mod 16.
(** Where the strings go, and the last of these addresses. *)
Fixpoint arg_ptrs (sp : Z) (argv : list (list Z)) : list Z :=
  match argv with [] => [] | a :: argv' => let sp := down16 (sp - (Z.of_nat (length a) + 1)) in sp :: arg_ptrs sp argv' end.
Fixpoint args_end (sp : Z) (argv : list (list Z)) : Z :=
  match argv with [] => sp | a :: argv' => args_end (down16 (sp - (Z.of_nat (length a) + 1))) argv' end.
Definition final_sp (sp : Z) (argv : list (list Z)) : Z := down16 (args_end sp argv - (Z.of_nat (length argv) + 1) * 8).

(** ** Reading the file *)

Lemma fread_spec file off m : 0 <= off < 2 ^ 32 -> 0 < m <= PGSIZE -> Z.of_nat (length file) < 2 ^ 31 ->
  let b := fread file off m in
  Z.of_nat (length b) <= m /\ (Z.of_nat (length b) = m <-> off + m <= Z.of_nat (length file)) /\
  (off + m <= Z.of_nat (length file) -> b = take (Z.to_nat m) (drop (Z.to_nat off) file)).
Proof.
  intros Ho Hm Hl. unfold fread. unfold PGSIZE in *. cbv zeta. destruct (Z.ltb_spec (Z.of_nat (length file)) off) as [Hbig|Hin]; cbn [orb].
  { cbn [length]. split; [lia|]. split; [lia|]. lia. }
  rewrite wrap_small by lia. rewrite (proj2 (Z.ltb_ge (off + m) off)) by lia. rewrite length_take, length_drop. split; [lia|]. split; [lia|].
  intros H. by rewrite Z.min_l by lia.
Qed.

Lemma put_bytes_app va a b img x : put_bytes (va + Z.of_nat (length a)) b (put_bytes va a img) x = put_bytes va (a ++ b) img x.
Proof.
  unfold put_bytes. rewrite length_app.
  destruct (Z.leb_spec va x), (Z.leb_spec (va + Z.of_nat (length a)) x), (Z.ltb_spec x (va + Z.of_nat (length a) + Z.of_nat (length b))),
    (Z.ltb_spec x (va + Z.of_nat (length a))), (Z.ltb_spec x (va + Z.of_nat (length a + length b))); cbn [andb]; try lia; try done.
  - rewrite app_nth2 by lia. f_equal. lia.
  - by rewrite app_nth1 by lia.
Qed.

Lemma put_bytes_nil va img x : put_bytes va [] img x = img x.
Proof. unfold put_bytes. cbn [length]. destruct (Z.leb_spec va x), (Z.ltb_spec x (va + Z.of_nat 0)); cbn [andb]; try done. lia. Qed.

Lemma put_bytes_ext va b img img' x : (forall v, img v = img' v) -> put_bytes va b img x = put_bytes va b img' x.
Proof. intros H. unfold put_bytes. by rewrite H. Qed.

Lemma i32_range x : - 2 ^ 31 <= i32 x < 2 ^ 31.
Proof. exact (swrap_range 32 x ltac:(lia)). Qed.

Lemma u32_i32 x : u32 (i32 x) = u32 x.
Proof.
  unfold swrap, wrap. cbv zeta. destruct (x mod 2 ^ 32 <? 2 ^ (32 - 1)); [apply Z.mod_mod; lia|].
  rewrite <- (Z.mod_add (x mod 2 ^ 32 - 2 ^ 32) 1), Z.mul_1_l, Z.sub_add by lia. apply Z.mod_mod. lia.
Qed.

Section Load.
Context (end_ : Z) (top : Z -> Z) (k0 : kmem) (l0 : list Z).
Context (file : list Z) (Hfile : Z.of_nat (length file) < 2 ^ 31) (Hbytes : Forall (fun b => 0 <= b < 256) file).
Abbreviation space := (space end_ top k0 l0).

Lemma space_ext k l root sz prm prm' img img' : (forall va, prm va = prm' va) -> (forall va, img va = img' va) ->
  space k l root sz prm img -> space k l root sz prm' img'.
Proof.
  intros Hp Hi [S1 S2 S3 S4 S5 S6 S7 S8 S9 S10 S11]. split; try done.
  - intros va Hva. rewrite <- Hp. by apply S5.
  - intros va Hva. rewrite <- Hi. by apply S9.
  - intros va Hva. rewrite <- Hi. by apply S10.
Qed.

(** All pages can be reached by the user. *)
Definition open_pages (sz : Z) (prm : Z -> Z) : Prop := forall va, 0 <= va < PGROUNDUP sz -> Z.testbit (prm va) 4 = true.

Lemma loadseg_loop_run root sz prm l va off fsz n : forall i k img,
  space k l root sz prm img -> open_pages sz prm -> 0 <= va -> va mod PGSIZE = 0 -> va + fsz <= PGROUNDUP sz -> 0 <= off < 2 ^ 32 ->
  0 <= i -> i mod PGSIZE = 0 -> (0 < i < fsz -> off + i <= Z.of_nat (length file)) -> fsz - i <= Z.of_nat n * PGSIZE ->
  exists r k' img', loadseg_loop n file root va off fsz i k = Ret (r, k') /\ space k' l root sz prm img' /\
    ((r = 0 /\ (i < fsz -> off + fsz <= Z.of_nat (length file)) /\
      forall x, img' x = put_bytes (va + i) (take (Z.to_nat (fsz - i)) (drop (Z.to_nat (off + i)) file)) img x) \/
     (r = -1 /\ i < fsz /\ Z.of_nat (length file) < off + fsz)).
Proof.
  induction n as [|n IH]; intros i k img H Hu Hva Hal Hsz Hoff Hi Hia Hin Hf; cbn [loadseg_loop];
    (destruct (Z.ltb_spec i fsz) as [Hlt|Hge]; [|exists 0, k, img; split; [done|]; split; [done|]; left; split; [done|]; split; [lia|];
      intros x; rewrite (Z2Nat.nonpos (fsz - i)) by lia; by rewrite put_bytes_nil]); [lia|].
  pose proof (space_count _ _ _ _ _ _ _ _ _ _ H) as Hc. change PHYSTOP with (557056 * PGSIZE) in Hc.
  destruct (round_trapframe sz (sp_sz _ _ _ _ _ _ _ _ _ _ H)) as [A1 _]. assert (TRAPFRAME < MAXVA) as Htm by done.
  rewrite TRAPFRAME_val in *. rewrite MAXVA_val in *. assert ((va + i) mod PGSIZE = 0) as Hal' by (by rewrite Zplus_mod, Hal, Hia).
  rewrite (wrap_small 64 (va + i)) by (unfold PGSIZE in *; lia).
  rewrite (M_bind_Ret _ _ _ _ _ (walkaddr_spec k root (va + i) ltac:(rewrite MAXVA_val; lia))). cbv zeta.
  destruct (space_entry _ _ _ _ _ _ _ _ _ _ (va + i) H ltac:(lia)) as (V & _ & (D & _) & F). pose proof D as (_ & _ & D0).
  rewrite V. unfold PTE_U. rewrite F, Hu by lia. cbn [andb]. set (pa := PTE2PA _) in *. rewrite (proj2 (Z.eqb_neq pa 0)) by lia.
  rewrite (M_bind_Ret _ _ k tt k) by done. set (m := if fsz - i <? PGSIZE then fsz - i else PGSIZE).
  assert (m = Z.min (fsz - i) PGSIZE) as Em by (unfold m; destruct (Z.ltb_spec (fsz - i) PGSIZE); lia). clearbody m.
  assert (0 < PGSIZE) as Hpg by done. assert (u32 (off + i) = off + i) as Eo.
  { apply wrap_small. destruct (Z.eq_dec i 0) as [->|]; [lia|]. specialize (Hin ltac:(lia)). lia. }
  rewrite Eo. assert (0 <= off + i < 2 ^ 32) as Hoi by (rewrite <- Eo; by apply wrap_range).
  destruct (fread_spec file (off + i) m Hoi ltac:(lia) Hfile) as (R1 & R2 & R3). set (b := fread file (off + i) m) in *. clearbody b.
  unfold write_bytes at 1. rewrite (M_bind_Ret _ _ k tt (set_mem (fun x => if (pa <=? x) && (x <? pa + Z.of_nat (length b)) then nth (Z.to_nat (x - pa)) b 0 else kmemory k x) k)) by done.
  set (m1 := (fun x => if (pa <=? x) && _ then _ else _) : mem). assert (space (set_mem m1 k) l root sz prm (put_bytes (va + i) b img)) as H1.
  { apply space_write; [done|lia|lia|]. apply page_copied; [done|lia]. }
  destruct (Z.eqb_spec (Z.of_nat (length b)) m) as [Eb|Nb].
  2:{ exists (-1), (set_mem m1 k), (put_bytes (va + i) b img). split; [done|]. split; [done|]. right. split; [done|]. split; [done|].
      rewrite R2 in Nb. lia. }
  pose proof (proj1 R2 Eb) as Hfit. specialize (R3 Hfit). rewrite (wrap_small 32) by (unfold PGSIZE in *; lia).
  destruct (IH (i + PGSIZE) (set_mem m1 k) (put_bytes (va + i) b img) H1 Hu Hva Hal Hsz Hoff) as (r & k2 & img2 & E2 & H2 & Hr);
    [lia|by rewrite <- Zplus_mod_idemp_l, Hia|lia|lia|]. exists r, k2, img2. split; [done|]. split; [done|].
  destruct Hr as [(-> & G1 & G2)|(-> & G1 & G2)]; [left|right; split; [done|]; split; [lia|done]].
  split; [done|]. split; [intros _; destruct (Z.lt_ge_cases (i + PGSIZE) fsz); [auto|lia]|].
  intros x. rewrite G2. destruct (Z.lt_ge_cases (i + PGSIZE) fsz) as [C|C].
  - assert (m = PGSIZE) as -> by lia.
    replace (Z.to_nat (fsz - i)) with (Z.to_nat PGSIZE + Z.to_nat (fsz - (i + PGSIZE)))%nat by lia.
    rewrite <- take_take_drop, drop_drop, <- R3, <- put_bytes_app, Eb. f_equal; [lia|]. do 2 f_equal. lia.
  - rewrite (Z2Nat.nonpos (fsz - (i + PGSIZE))) by lia. rewrite put_bytes_nil, R3. f_equal. f_equal. lia.
Qed.

(** A segment of a space that has grown to its end. *)
Lemma loadseg_run k l root sz prm img ph : space k l root sz prm img -> open_pages sz prm -> 0 <= p_vaddr ph -> p_vaddr ph mod PGSIZE = 0 ->
  0 <= p_filesz ph -> p_vaddr ph + p_filesz ph <= PGROUNDUP sz ->
  exists r k' img', loadseg file root (p_vaddr ph) (p_off ph) (p_filesz ph) k = Ret (r, k') /\ space k' l root sz prm img' /\
    ((r = 0 /\ (0 < p_filesz ph -> u32 (p_off ph) + p_filesz ph <= Z.of_nat (length file)) /\
      forall x, img' x = put_bytes (p_vaddr ph) (seg_bytes file ph) img x) \/
     (r = -1 /\ 0 < p_filesz ph /\ Z.of_nat (length file) < u32 (p_off ph) + p_filesz ph)).
Proof.
  intros H Hu Hva Hal Hf Hsz. pose proof (space_count _ _ _ _ _ _ _ _ _ _ H) as Hc. change PHYSTOP with (557056 * PGSIZE) in Hc.
  unfold loadseg. rewrite (wrap_small 32 (p_filesz ph)) by (unfold PGSIZE in *; lia).
  destruct (loadseg_loop_run root sz prm l (p_vaddr ph) (u32 (p_off ph)) (p_filesz ph) (Z.to_nat (p_filesz ph / PGSIZE + 1)) 0 k img)
    as (r & k' & img' & E & H' & Hr); try done; [by apply wrap_range|lia| |].
  { assert (0 <= p_filesz ph / PGSIZE) by (apply Z.div_pos; [lia|done]). pose proof (Z.div_mod (p_filesz ph) PGSIZE ltac:(done)).
    pose proof (Z.mod_pos_bound (p_filesz ph) PGSIZE ltac:(done)). unfold PGSIZE in *. lia. }
  exists r, k', img'. split; [done|]. split; [done|]. by rewrite !Z.add_0_r, Z.sub_0_r in Hr.
Qed.

Lemma ph_range d : Forall (fun b => 0 <= b < 256) d -> let ph := ph_of d in
  0 <= p_vaddr ph < 2 ^ 64 /\ 0 <= p_filesz ph < 2 ^ 64 /\ 0 <= p_memsz ph < 2 ^ 64.
Proof. intros H. cbn [ph_of p_vaddr p_filesz p_memsz]. split_and!; by apply getle_range. Qed.

Lemma seg_perm_open ph : 0 <= seg_perm ph < 1024 /\ Z.testbit (seg_perm ph) 4 = true.
Proof. unfold seg_perm, flags2perm. destruct (c_true _), (c_true _); vm_compute; intuition congruence. Qed.

Lemma image_of_grows n : forall off im im', image_of n file off im = Some im' -> im_sz im <= im_sz im'.
Proof.
  induction n as [|n IH]; intros off im im'; cbn [image_of]; [intros [= ->]; lia|]. destruct (_ <? _); [done|].
  destruct (negb _); [apply IH|]. destruct (seg_ok _ _ _); [|done]. intros E%IH. cbn [add_seg im_sz] in E. lia.
Qed.

(** Too few pages for an image of size [sz]; [N] bytes were free. *)
Definition short (N sz : Z) : Prop := TRAPFRAME < sz \/ N <= 3 * PGROUNDUP sz.

Lemma short_mono N sz sz' : 0 <= sz <= sz' -> short N sz -> short N sz'.
Proof.
  intros H [Hs|Hs]; [left; lia|]. destruct (Z.lt_ge_cases TRAPFRAME sz'); [by left|right]. pose proof (round_mono sz sz' ltac:(lia) ltac:(lia)). lia.
Qed.

(** A space that holds the image, with what is left of [N] bytes of free pages. *)
Record holds_image (k : kmem) (l : list Z) (root N : Z) (im : image) : Prop := {
  hi_space : space k l root (im_sz im) (im_perm im) (im_byte im);
  hi_open : open_pages (im_sz im) (im_perm im);
  hi_left : N <= Z.of_nat (length l) * PGSIZE + 3 * PGROUNDUP (im_sz im)
}.

(** One segment. *)
Lemma load_step k l root N im ph : holds_image k l root N im ->
  0 <= p_vaddr ph < 2 ^ 64 -> 0 <= p_filesz ph < 2 ^ 64 -> 0 <= p_memsz ph < 2 ^ 64 ->
  p_filesz ph <= p_memsz ph -> p_vaddr ph + p_memsz ph < 2 ^ 64 -> p_vaddr ph mod PGSIZE = 0 ->
  exists sz1 k1 l1, uvmalloc end_ root (im_sz im) (p_vaddr ph + p_memsz ph) (flags2perm (p_flags ph)) k = Ret (sz1, k1) /\
    ((sz1 = 0 /\ (exists prm img, space k1 l1 root (im_sz im) prm img) /\ (seg_ok file im ph = false \/ short N (p_vaddr ph + p_memsz ph))) \/
     (0 < sz1 /\ exists r k2, loadseg file root (p_vaddr ph) (p_off ph) (p_filesz ph) k1 = Ret (r, k2) /\
        ((r = 0 /\ seg_ok file im ph = true /\ sz1 = im_sz (add_seg file im ph) /\ holds_image k2 l1 root N (add_seg file im ph)) \/
         (r = -1 /\ seg_ok file im ph = false /\ exists prm img, space k2 l1 root sz1 prm img)))).
Proof.
  intros [H Hu Hn] Hv Hf Hm Hfm Hvm Hal. destruct (seg_perm_open ph) as [Hp1 Hp2]. pose proof (sp_sz _ _ _ _ _ _ _ _ _ _ H) as Hsz.
  destruct (space_alloc end_ top k0 l0 k l root (im_sz im) (p_vaddr ph + p_memsz ph) (flags2perm (p_flags ph)) (im_perm im) (im_byte im) H Hp1 ltac:(lia))
    as (r & k1 & l1 & E1 & Hr). fold (seg_perm ph) in Hr. exists r, k1, l1. split; [done|].
  assert (seg_ok file im ph = (0 <? Z.max (im_sz im) (p_vaddr ph + p_memsz ph)) && ((p_filesz ph =? 0) || (u32 (p_off ph) + p_filesz ph <=? Z.of_nat (length file)))) as Eok.
  { unfold seg_ok. rewrite (proj2 (Z.leb_le _ _)), (proj2 (Z.ltb_lt _ (2 ^ 64))), (proj2 (Z.eqb_eq _ 0)) by lia. done. }
  destruct (Z.eq_dec r 0) as [->|Nr].
  { left. split; [done|]. destruct Hr as [(E & H1 & _)|(_ & H1 & Hle & Hs)].
    - split; [exists (fun va => if va <? PGROUNDUP (im_sz im) then im_perm im va else seg_perm ph), (im_byte im); by replace (im_sz im) with 0 at 1 by lia|]. left. rewrite Eok, <- E. done.
    - split; [eauto|]. right. destruct Hs as [Hs|Hs]; [by left|]. right. lia. }
  destruct Hr as [(-> & H1 & Hn1)|(-> & _)]; [|done]. right. split; [lia|]. set (sz1 := Z.max _ _) in *.
  set (prm1 := fun va => if va <? PGROUNDUP (im_sz im) then im_perm im va else seg_perm ph) in *.
  assert (open_pages sz1 prm1) as Hu1.
  { intros va Hva. unfold prm1. destruct (Z.ltb_spec va (PGROUNDUP (im_sz im))); [apply Hu; lia|done]. }
  pose proof (sp_sz _ _ _ _ _ _ _ _ _ _ H1) as Hsz1. destruct (round_trapframe sz1 Hsz1) as [A1 _].
  destruct (loadseg_run k1 l1 root sz1 prm1 (im_byte im) ph H1 Hu1 ltac:(lia) Hal ltac:(lia) ltac:(lia)) as (r & k2 & img2 & E2 & H2 & Hr2).
  exists r, k2. split; [done|]. rewrite (proj2 (Z.ltb_lt 0 sz1)) in Eok by lia. cbn [andb] in Eok. destruct Hr2 as [(-> & G1 & G2)|(-> & G1 & G2)].
  - left. split; [done|]. split; [|split; [done|split]].
    + rewrite Eok. destruct (Z.eqb_spec (p_filesz ph) 0); [done|]. cbn [orb]. apply Z.leb_le, G1. lia.
    + by apply (space_ext k2 l1 root sz1 prm1 _ img2).
    + done.
    + cbn [add_seg im_sz]. fold sz1. lia.
  - right. split; [done|]. split; [|eauto]. rewrite Eok, (proj2 (Z.eqb_neq _ 0)), (proj2 (Z.leb_gt _ _)) by lia. done.
Qed.

Definition load_result (k : kmem) (l : list Z) (root N : Z) (ok : bool) (sz : Z) (o : option image) : Prop :=
  (ok = true /\ exists im, o = Some im /\ sz = im_sz im /\ holds_image k l root N im) \/
  (ok = false /\ (exists prm img, space k l root sz prm img) /\ forall im, o = Some im -> short N (im_sz im)).

(** The program headers.  [coff] is the variable [off], an [int]. *)
Lemma load_loop_run n : forall k l root N im off coff, holds_image k l root N im -> - 2 ^ 31 <= coff < 2 ^ 31 -> u32 coff = off ->
  exists ok sz1 k1 l1, load_loop end_ n file root coff (im_sz im) k = Ret ((ok, sz1), k1) /\
    load_result k1 l1 root N ok sz1 (image_of n file off im).
Proof.
  induction n as [|n IH]; intros k l root N im off coff H Hc <-; cbn [load_loop image_of].
  { exists true, (im_sz im), k, l. split; [done|]. left. split; [done|]. by exists im. }
  pose proof (wrap_range 32 coff ltac:(lia)) as Ho. set (off := u32 coff) in *.
  destruct (fread_spec file off 56 Ho ltac:(unfold PGSIZE; lia) Hfile) as (R1 & R2 & R3). cbv zeta in R1, R2, R3.
  destruct (Z.eqb_spec (Z.of_nat (length (fread file off 56))) 56) as [El|Nl]; cbn [negb].
  2:{ exists false, (im_sz im), k, l. split; [done|]. right. split; [done|]. split; [eexists _, _; apply H|].
      rewrite (proj2 (Z.ltb_lt _ _)) by (rewrite R2 in Nl; lia). done. }
  apply R2 in El. rewrite (proj2 (Z.ltb_ge (Z.of_nat (length file)) (off + 56))), (R3 El) by lia. change (Z.to_nat 56) with 56%nat. set (d := take 56 _).
  destruct (ph_range d) as (Hv & Hf & Hm); [by apply Forall_take, Forall_drop|]. set (ph := ph_of d) in *. clearbody ph.
  assert (coff = off) as Ec.
  { unfold off, wrap in El |- *. destruct (Z.lt_ge_cases coff 0) as [Hneg|]; [|symmetry; apply Z.mod_small; lia].
    rewrite <- (Z.mod_add coff 1), Z.mul_1_l, Z.mod_small in El by lia. lia. }
  assert (i32 (coff + 56) = off + 56) as Ei by (rewrite Ec; apply swrap_small; lia).
  assert (- 2 ^ 31 <= i32 (coff + 56) < 2 ^ 31) as Hi by apply i32_range.
  assert (u32 (i32 (coff + 56)) = off + 56) as Eu by (rewrite Ei; apply wrap_small; lia).
  destruct (negb (p_type ph =? ELF_PROG_LOAD)); [by apply (IH k l)|].
  set (o := if seg_ok file im ph then image_of n file (off + 56) (add_seg file im ph) else None).
  assert (seg_ok file im ph = false -> exists ok sz1 k1 l1, (mret (false, im_sz im) : M kmem (bool * Z)) k = Ret ((ok, sz1), k1) /\ load_result k1 l1 root N ok sz1 o) as Hno.
  { intros Eb. exists false, (im_sz im), k, l. split; [done|]. right. split; [done|]. unfold o. rewrite Eb. split; [eexists _, _; apply H|done]. }
  destruct (Z.ltb_spec (p_memsz ph) (p_filesz ph)) as [B1|B1].
  { apply Hno. unfold seg_ok. by rewrite (proj2 (Z.leb_gt _ _)) by lia. }
  destruct (Z.lt_ge_cases (p_vaddr ph + p_memsz ph) (2 ^ 64)) as [B2|B2].
  2:{ assert (u64 (p_vaddr ph + p_memsz ph) = p_vaddr ph + p_memsz ph - 2 ^ 64) as ->.
      { unfold wrap. rewrite <- (Z.mod_add _ (-1)) by lia. apply Z.mod_small. lia. }
      rewrite (proj2 (Z.ltb_lt _ _)) by lia. apply Hno. unfold seg_ok. rewrite (proj2 (Z.ltb_ge _ (2 ^ 64))) by lia. by rewrite andb_false_r. }
  rewrite (wrap_small 64 (p_vaddr ph + p_memsz ph)) by lia. rewrite (proj2 (Z.ltb_ge (p_vaddr ph + p_memsz ph) _)) by lia.
  destruct (Z.eqb_spec (p_vaddr ph mod PGSIZE) 0) as [B3|B3]; cbn [negb].
  2:{ apply Hno. unfold seg_ok. rewrite (proj2 (Z.eqb_neq _ 0) B3). by rewrite andb_false_r. }
  clear Hno. destruct (load_step k l root N im ph H Hv Hf Hm B1 B2 B3) as (sz1 & k1 & l1 & E1 & [(-> & (prm & img & Hs) & Hr)|(Hs & r & k2 & E2 & Hr)]);
    rewrite (M_bind_Ret _ _ _ _ _ E1).
  - exists false, (im_sz im), k1, l1. split; [done|]. right. split; [done|]. split; [eauto|]. intros im1. unfold o. destruct Hr as [->|Hr]; [done|].
    destruct (seg_ok file im ph); [|done]. intros Eim%image_of_grows. cbn [add_seg im_sz] in Eim. eapply short_mono; [|exact Hr]. lia.
  - rewrite (proj2 (Z.eqb_neq sz1 0)), (M_bind_Ret _ _ _ _ _ E2) by lia. unfold o. destruct Hr as [(-> & -> & -> & H2)|(-> & -> & prm & img & H2)]; cbn [Z.ltb Z.compare].
    + apply (IH k2 l1); [done|done|done].
    + exists false, sz1, k2, l1. split; [done|]. right. split; [done|]. split; [eauto|done].
Qed.
End Load.

(** ** The stack *)

Lemma down16_spec x : down16 x <= x < down16 x + 16 /\ down16 x mod 16 = 0.
Proof.
  unfold down16. pose proof (Z.mod_pos_bound x 16 ltac:(lia)). split; [lia|]. by rewrite Zminus_mod_idemp_r, Z.sub_diag.
Qed.

Lemma args_end_le argv : forall sp, args_end sp argv <= sp.
Proof.
  induction argv as [|a argv IH]; intros sp; cbn [args_end]; [lia|]. etransitivity; [apply IH|].
  pose proof (down16_spec (sp - (Z.of_nat (length a) + 1))). lia.
Qed.

Lemma arg_ptrs_ge argv : forall sp i p, arg_ptrs sp argv !! i = Some p -> args_end sp argv <= p.
Proof.
  induction argv as [|a argv IH]; intros sp i p; cbn [arg_ptrs args_end]; [done|]. destruct i as [|i]; [|apply IH]. intros [= <-]. apply args_end_le.
Qed.

Lemma length_arg_ptrs argv : forall sp, length (arg_ptrs sp argv) = length argv.
Proof. induction argv as [|a argv IH]; intros sp; cbn [arg_ptrs length]; [done|]. by rewrite IH. Qed.

(** The bytes [src] lie at [p]. *)
Definition bytes_at (img : Z -> Z) (p : Z) (src : list Z) : Prop := forall i b, src !! i = Some b -> img (p + Z.of_nat i) = b.

Lemma put_bytes_at p src img : bytes_at (put_bytes p src img) p src.
Proof.
  intros i b Hi. pose proof (lookup_lt_Some _ _ _ Hi). unfold put_bytes.
  rewrite (proj2 (Z.leb_le _ _)), (proj2 (Z.ltb_lt _ _)) by lia. cbn [andb]. replace (Z.to_nat (p + Z.of_nat i - p)) with i by lia.
  by apply nth_lookup_Some.
Qed.

Lemma put_bytes_out p src img x : x < p \/ p + Z.of_nat (length src) <= x -> put_bytes p src img x = img x.
Proof.
  intros H. unfold put_bytes. destruct (Z.leb_spec p x), (Z.ltb_spec x (p + Z.of_nat (length src))); cbn [andb]; try done. lia.
Qed.

Lemma bytes_at_ext img img' p src : (forall x, p <= x < p + Z.of_nat (length src) -> img' x = img x) -> bytes_at img p src -> bytes_at img' p src.
Proof. intros H Hb i b Hi. pose proof (lookup_lt_Some _ _ _ Hi). rewrite H by lia. by apply Hb. Qed.

Section Stack.
Context (end_ : Z) (top : Z -> Z) (k0 : kmem) (l0 : list Z) (ppt psz : Z).
Abbreviation space := (space end_ top k0 l0).

(** The page of the stack can be written. *)
Definition stack_open (base sz : Z) (prm : Z -> Z) : Prop := PGSIZE <= base /\
  forall v, base <= v < PGROUNDUP sz -> Z.testbit (prm v) 4 = true /\ Z.testbit (prm v) 2 = true.

Lemma push_args_run l root sz prm base argv : stack_open base sz prm -> Forall (fun a => Z.of_nat (length a) < PGSIZE) argv ->
  forall k img sp us, space k l root sz prm img -> base <= sp <= PGROUNDUP sz -> (length us + length argv <= MAXARG)%nat ->
  exists o k' img', push_args end_ argv ppt psz root base sp us k = Ret (o, k') /\ space k' l root sz prm img' /\
    ((base <= args_end sp argv /\ o = Some (args_end sp argv, us ++ arg_ptrs sp argv) /\
      (forall i a p, argv !! i = Some a -> arg_ptrs sp argv !! i = Some p -> bytes_at img' p (a ++ [0])) /\
      forall x, x < args_end sp argv \/ sp <= x -> img' x = img x) \/
     (args_end sp argv < base /\ o = None)).
Proof.
  intros [Hb Hw] Hlen. induction Hlen as [|a argv Ha _ IH]; intros k img sp us H Hsp Hus; cbn [push_args args_end arg_ptrs].
  { exists (Some (sp, us)), k, img. split; [done|]. split; [done|]. left. split; [lia|]. split; [by rewrite app_nil_r|]. done. }
  cbn [length] in Hus. rewrite (proj2 (Nat.leb_gt MAXARG (length us))) by lia.
  pose proof (sp_sz _ _ _ _ _ _ _ _ _ _ H) as Hsz. destruct (round_trapframe sz Hsz) as [A1 _]. rewrite TRAPFRAME_val in *.
  assert (0 < PGSIZE) as Hpg by done. set (n := Z.of_nat (length a) + 1) in *. destruct (down16_spec (sp - n)) as [D1 _].
  rewrite (wrap_small 64 (sp - n)) by (unfold PGSIZE in *; lia).
  assert (0 <= down16 (sp - n)) as D0.
  { unfold down16. pose proof (Z.mod_le (sp - n) 16 ltac:(lia) ltac:(lia)). lia. }
  change (sp - n - (sp - n) mod 16) with (down16 (sp - n)). rewrite (wrap_small 64 (down16 _)) by (unfold PGSIZE in *; lia).
  set (sp1 := down16 (sp - n)) in *. pose proof (args_end_le argv sp1) as Hend. destruct (Z.ltb_spec sp1 base) as [Hlow|Hfit].
  { exists None, k, img. split; [done|]. split; [done|]. right. split; [lia|done]. }
  assert (Z.of_nat (length (a ++ [0])) = n) as El by (rewrite length_app; cbn [length]; unfold n; lia).
  destruct (space_copyout end_ top k0 l0 ppt psz k l root sz prm img sp1 (a ++ [0]) H) as (k1 & E1 & H1); [lia|lia|intros v Hv; apply Hw; lia|].
  rewrite (M_bind_Ret _ _ _ _ _ E1). cbn [Z.ltb Z.compare].
  destruct (IH k1 (put_bytes sp1 (a ++ [0]) img) sp1 (us ++ [sp1]) H1) as (o & k2 & img2 & E2 & H2 & Hr);
    [lia|rewrite length_app; cbn [length]; lia|]. exists o, k2, img2. split; [done|]. split; [done|].
  destruct Hr as [(G1 & -> & G2 & G3)|(G1 & ->)]; [left|by right]. split; [done|]. split; [by rewrite <- app_assoc|]. split.
  - intros [|i] b p Hi Hp; [|by apply (G2 i)]. injection Hi as <-. injection Hp as <-.
    apply (bytes_at_ext (put_bytes sp1 (a ++ [0]) img)); [|apply put_bytes_at]. intros x Hx. apply G3. lia.
  - intros x Hx. rewrite G3 by lia. apply put_bytes_out. lia.
Qed.

Lemma space_round k l root sz prm img : space k l root sz prm img -> space k l root (PGROUNDUP sz) prm img.
Proof.
  intros [S1 S2 S3 S4 S5 S6 S7 S8 S9 S10 S11]. destruct (round_trapframe sz S2) as [A1 A2].
  assert (PGROUNDUP (PGROUNDUP sz) = PGROUNDUP sz) as E by (apply PGROUNDUP_aligned; [rewrite TRAPFRAME_val in *; unfold PGSIZE in *; lia|done]).
  split; try done; try (rewrite E; done). lia.
Qed.
End Stack.

(** ** The whole address space *)

Definition stack_top (im : image) : Z := PGROUNDUP (im_sz im) + 2 * PGSIZE.

(** Program, guard page, stack. *)
Definition exec_perm (im : image) (va : Z) : Z :=
  if va <? PGROUNDUP (im_sz im) then im_perm im va
  else if va <? PGROUNDUP (im_sz im) + PGSIZE then Z.lor PTE_R PTE_W else Z.lor (Z.lor PTE_R PTE_U) PTE_W.

(** The program's bytes below the stack; on the stack the strings, and the array of their addresses at [sp]. *)
Record exec_bytes (im : image) (argv : list (list Z)) (img : Z -> Z) : Prop := {
  eb_program : forall va, va < stack_top im - PGSIZE -> img va = im_byte im va;
  eb_strings : forall i a p, argv !! i = Some a -> arg_ptrs (stack_top im) argv !! i = Some p -> bytes_at img p (a ++ [0]);
  eb_array : bytes_at img (final_sp (stack_top im) argv) (concat (map le64 (arg_ptrs (stack_top im) argv ++ [0])))
}.

Lemma length_ptr_array ps : Z.of_nat (length (concat (map le64 ps))) = Z.of_nat (length ps) * 8.
Proof.
  induction ps as [|p ps IH]; [done|]. cbn [map concat]. rewrite length_app. unfold le64 at 1. rewrite length_putle, repeat_length. cbn [length]. lia.
Qed.

Section Build.
Context (end_ : Z) (top : Z -> Z) (k0 : kmem) (l0 : list Z) (ppt psz : Z).
Abbreviation space := (space end_ top k0 l0).

(** Two more pages, the lower one closed. *)
Lemma stack_run k l root N im : holds_image end_ top k0 l0 k l root N im ->
  let sz := PGROUNDUP (im_sz im) in
  exists sz1 k1 l1, uvmalloc end_ root sz (u64 (sz + (USERSTACK + 1) * PGSIZE)) PTE_W k = Ret (sz1, k1) /\
    ((sz1 = 0 /\ (exists prm img, space k1 l1 root sz prm img) /\ short N (stack_top im)) \/
     (sz1 = stack_top im /\ 0 < sz1 /\ exists k2, uvmclear root (u64 (sz1 - (USERSTACK + 1) * PGSIZE)) k1 = Ret (tt, k2) /\
        space k2 l1 root sz1 (exec_perm im) (im_byte im))).
Proof.
  intros [H Hu Hn] sz. pose proof (sp_sz _ _ _ _ _ _ _ _ _ _ H) as Hsz. destruct (round_trapframe (im_sz im) Hsz) as [A1 A2]. fold sz in A1, A2.
  pose proof (space_round end_ top k0 l0 k l root (im_sz im) _ _ H) as H0. fold sz in H0. change ((USERSTACK + 1) * PGSIZE) with (2 * PGSIZE). fold (stack_top im). unfold stack_top. fold sz.
  rewrite TRAPFRAME_val in Hsz, A1. rewrite (wrap_small 64 (sz + 2 * PGSIZE)) by (unfold PGSIZE in *; lia).
  assert (PGROUNDUP sz = sz) as Er by (apply PGROUNDUP_aligned; [unfold PGSIZE in *; lia|done]).
  assert (PGROUNDUP (sz + 2 * PGSIZE) = sz + 2 * PGSIZE) as Er2 by (apply PGROUNDUP_aligned; [unfold PGSIZE in *; lia|by rewrite Z.mod_add]).
  destruct (space_alloc end_ top k0 l0 k l root sz (sz + 2 * PGSIZE) PTE_W _ _ H0 RWU_range ltac:(unfold PGSIZE in *; lia)) as (r & k1 & l1 & E1 & Hr).
  rewrite Er, Z.max_r in Hr by (unfold PGSIZE; lia). assert (0 < PGSIZE) as Hpg by done. exists r, k1, l1. split; [done|].
  destruct Hr as [(-> & H1 & Hn1)|(-> & H1 & _ & Hs)].
  2:{ left. split; [done|]. split; [eauto|]. destruct Hs as [Hs|Hs]; [by left|right]. rewrite Er2 in *. lia. }
  right. split; [done|]. split; [lia|]. rewrite (wrap_small 64) by (unfold PGSIZE in *; lia). replace (sz + 2 * PGSIZE - 2 * PGSIZE) with sz by lia.
  destruct (space_clear end_ top k0 l0 k1 l1 root _ _ _ sz H1) as (k2 & E2 & H2); [rewrite Er2; lia|]. exists k2. split; [done|].
  eapply space_ext; [|done|exact H2]. intros va. cbv beta. rewrite <- page_range, Z.ltb_irrefl by done. unfold exec_perm. fold sz.
  destruct (Z.leb_spec sz va), (Z.ltb_spec va (sz + PGSIZE)), (Z.ltb_spec va sz); cbn [andb]; try lia; done.
Qed.

Context (file : list Z) (Hfile : Z.of_nat (length file) < 2 ^ 31) (Hbytes : Forall (fun b => 0 <= b < 256) file).
Context (argv : list (list Z)) (Hargc : (length argv < MAXARG)%nat) (Hargs : Forall (fun a => Z.of_nat (length a) < PGSIZE) argv).

(** There are not enough pages for the image and the stack. *)
Definition no_room (N : Z) (im : image) : Prop := short N (im_sz im) \/ short N (stack_top im).
(** The arguments do not fit on the stack. *)
Definition args_too_long (im : image) : Prop := final_sp (stack_top im) argv < stack_top im - PGSIZE.

Lemma final_sp_le sp : final_sp sp argv <= args_end sp argv - (Z.of_nat (length argv) + 1) * 8.
Proof. unfold final_sp. pose proof (down16_spec (args_end sp argv - (Z.of_nat (length argv) + 1) * 8)). lia. Qed.

(** The size of the image is one that [space] allows. *)
Lemma stack_facts im : 0 <= im_sz im <= TRAPFRAME -> 2 * PGSIZE <= stack_top im < 2 ^ 39 /\ PGROUNDUP (stack_top im) = stack_top im /\
  u64 (stack_top im - USERSTACK * PGSIZE) = stack_top im - PGSIZE /\ stack_open (stack_top im - PGSIZE) (stack_top im) (exec_perm im).
Proof.
  intros H. destruct (round_trapframe _ H) as [A1 A2]. rewrite TRAPFRAME_val in *. unfold stack_top.
  assert (PGROUNDUP (PGROUNDUP (im_sz im) + 2 * PGSIZE) = PGROUNDUP (im_sz im) + 2 * PGSIZE) as Er
    by (apply PGROUNDUP_aligned; [unfold PGSIZE in *; lia|by rewrite Z.mod_add]).
  assert (0 < PGSIZE) as Hpg by done. change (USERSTACK * PGSIZE) with PGSIZE. split; [unfold PGSIZE in *; lia|]. split; [done|]. split; [apply wrap_small; unfold PGSIZE in *; lia|].
  split; [lia|]. intros v Hv. rewrite Er in Hv. unfold exec_perm.
  rewrite !(proj2 (Z.ltb_ge v _)) by lia. done.
Qed.

Lemma args_run k l root im : space k l root (stack_top im) (exec_perm im) (im_byte im) -> 0 <= im_sz im <= TRAPFRAME ->
  exists o k' img, push_args end_ argv ppt psz root (u64 (stack_top im - USERSTACK * PGSIZE)) (stack_top im) [] k = Ret (o, k') /\
    space k' l root (stack_top im) (exec_perm im) img /\
    ((o = None /\ args_too_long im) \/
     (o = Some (args_end (stack_top im) argv, arg_ptrs (stack_top im) argv) /\ stack_top im - PGSIZE <= args_end (stack_top im) argv /\
      (forall va, va < stack_top im - PGSIZE -> img va = im_byte im va) /\
      forall i a p, argv !! i = Some a -> arg_ptrs (stack_top im) argv !! i = Some p -> bytes_at img p (a ++ [0]))).
Proof.
  intros H Hsz. destruct (stack_facts im Hsz) as (F1 & F2 & -> & F4). assert (0 < PGSIZE) as Hpg by done.
  destruct (push_args_run end_ top k0 l0 ppt psz l root (stack_top im) (exec_perm im) (stack_top im - PGSIZE) argv F4 Hargs k (im_byte im) (stack_top im) [] H)
    as (o & k' & img & E & H' & Hr); [lia|cbn [length]; lia|]. exists o, k', img. split; [done|]. split; [done|].
  pose proof (final_sp_le (stack_top im)) as Hle. destruct Hr as [(G1 & -> & G2 & G3)|(G1 & ->)].
  - right. split; [done|]. split; [done|]. split; [|done]. intros va Hva. apply G3. lia.
  - left. split; [done|]. unfold args_too_long. lia.
Qed.

(** All of [kexec] between the new page table and the decision. *)
Lemma build_run k l root N elf : holds_image end_ top k0 l0 k l root N no_image ->
  exists sz1 o k1 l1, build end_ file argv ppt psz root elf k = Ret ((sz1, o), k1) /\
    let image := image_of (Z.to_nat (e_phnum elf)) file (u32 (e_phoff elf)) no_image in
    ((exists im img, image = Some im /\ ~ args_too_long im /\ o = Some (final_sp (stack_top im) argv, e_entry elf) /\ sz1 = stack_top im /\
        space k1 l1 root sz1 (exec_perm im) img /\ exec_bytes im argv img) \/
     (o = None /\ (exists prm img, space k1 l1 root sz1 prm img) /\
      forall im, image = Some im -> args_too_long im \/ no_room N im)).
Proof.
  intros H. unfold build.
  destruct (load_loop_run end_ top k0 l0 file Hfile Hbytes (Z.to_nat (e_phnum elf)) k l root N no_image (u32 (e_phoff elf)) (i32 (e_phoff elf)) H (i32_range _) (u32_i32 _))
    as (ok & sz1 & k1 & l1 & E1 & Hr). change (im_sz no_image) with 0 in E1. rewrite (M_bind_Ret _ _ _ _ _ E1). destruct Hr as [(-> & im & Eim & -> & H1)|(-> & Hs & Hshort)]; cbn [negb].
  2:{ exists sz1, None, k1, l1. split; [done|]. right. split; [done|]. split; [done|]. intros im Eim. right. left. by apply Hshort. }
  assert (0 <= im_sz im <= TRAPFRAME) as Hsz by apply H1. destruct (stack_facts im Hsz) as (F1 & F2 & F3 & F4). assert (0 < PGSIZE) as Hpg by done.
  destruct (stack_run k1 l1 root N im H1) as (sz2 & k2 & l2 & E2 & [(-> & Hs & Hshort)|(-> & _ & k3 & E3 & H3)]); rewrite (M_bind_Ret _ _ _ _ _ E2).
  { exists (PGROUNDUP (im_sz im)), None, k2, l2. split; [done|]. right. split; [done|]. split; [done|]. rewrite Eim. intros im' [= <-]. right. by right. }
  rewrite (proj2 (Z.eqb_neq (stack_top im) 0)), (M_bind_Ret _ _ _ _ _ E3) by lia.
  destruct (args_run k3 l2 root im H3 Hsz) as (o & k4 & img & E4 & H4 & Hr); rewrite (M_bind_Ret _ _ _ _ _ E4). rewrite Eim.
  destruct Hr as [(-> & Hlong)|(-> & G1 & G2 & G3)].
  { exists (stack_top im), None, k4, l2. split; [done|]. right. split; [done|]. split; [eauto|]. intros im' [= <-]. by left. }
  rewrite length_arg_ptrs, (proj2 (Nat.eqb_neq (length argv) MAXARG)) by lia.
  pose proof (final_sp_le (stack_top im)) as Hle. set (e := args_end (stack_top im) argv) in *. pose proof (args_end_le argv (stack_top im)) as Hend. fold e in Hend.
  assert (0 <= e - (Z.of_nat (length argv) + 1) * 8) as Hpos by (unfold MAXARG in Hargc; unfold PGSIZE in *; lia).
  set (sp := final_sp (stack_top im) argv) in *. rewrite (wrap_small 64 (e - _)) by lia. set (x := e - (Z.of_nat (length argv) + 1) * 8) in *.
  assert (0 <= sp <= x) as Hsp by (split; [unfold sp, final_sp, down16; fold e x; pose proof (Z.mod_le x 16 Hpos ltac:(lia)); lia|exact Hle]).
  change (x - x mod 16) with sp. rewrite (wrap_small 64 sp), F3 by lia. destruct (Z.ltb_spec sp (stack_top im - PGSIZE)) as [Hlow|Hfit].
  { exists (stack_top im), None, k4, l2. split; [done|]. right. split; [done|]. split; [eauto|]. intros im' [= <-]. by left. }
  set (ptrs := concat (map le64 (arg_ptrs (stack_top im) argv ++ [0]))).
  assert (Z.of_nat (length ptrs) = (Z.of_nat (length argv) + 1) * 8) as Elen.
  { unfold ptrs. rewrite length_ptr_array, length_app, length_arg_ptrs. cbn [length]. lia. }
  destruct (space_copyout end_ top k0 l0 ppt psz k4 l2 root (stack_top im) (exec_perm im) img sp ptrs H4) as (k5 & E5 & H5);
    [lia|rewrite F2; lia|intros v Hv; apply F4; rewrite F2; lia|]. rewrite (M_bind_Ret _ _ _ _ _ E5).
  exists (stack_top im), (Some (sp, e_entry elf)), k5, l2. split; [done|]. left. exists im, (put_bytes sp ptrs img). split; [done|].
  split; [unfold args_too_long; fold sp; lia|]. split; [done|]. split; [done|]. split; [done|]. split.
  - intros va Hva. rewrite put_bytes_out by lia. by apply G2.
  - intros i a p Hi Hp. apply (bytes_at_ext img); [|by apply (G3 i)]. intros y Hy. apply put_bytes_out. right.
    pose proof (arg_ptrs_ge argv (stack_top im) i p Hp) as Hge. fold e in Hge. lia.
  - apply put_bytes_at.
Qed.
End Build.

(** ** [kexec] *)

Lemma space_user end_ top k0 l0 k l root sz prm img : space end_ top k0 l0 k l root sz prm img -> user_space end_ k l root sz.
Proof. intros H. pose proof (space_owns _ _ _ _ _ _ _ _ _ _ H). by destruct H. Qed.

Lemma given_back_user end_ k0 l0 k l root sz : user_space end_ k0 l0 root sz -> given_back end_ k0 l0 k l -> user_space end_ k l root sz.
Proof.
  intros [U1 U2 [U3 U4] U5] (K & L & G). destruct (PT_agree end_ k0 k l0 l root U1 K) as (A & B & C).
  { intros p Hp. destruct (pt_table _ _ _ _ U1 p Hp) as [P1 P2]. split; [by apply G|by rewrite L]. }
  split; [done|done|split|].
  - intros va Hva. rewrite B. cbv zeta. intros V. destruct (U3 va Hva V) as (D1 & D2 & D3). split; [done|]. split; [by rewrite L|by rewrite C].
  - intros va va' Hva Hva'. rewrite !B. by apply U4.
  - intros va Hva. rewrite B. by apply U5.
Qed.

Lemma PGROUNDUP_nonneg x : 0 <= PGROUNDUP x.
Proof. unfold PGROUNDUP. apply Z.land_nonneg. left. by apply wrap_range. Qed.

(** The file has no valid header. *)
Lemma exec_image_none file : fread file 0 64 = take 64 file ->
  Z.of_nat (length (fread file 0 64)) <> 64 \/ e_magic (elf_of (fread file 0 64)) <> ELF_MAGIC -> exec_image file = None.
Proof.
  unfold exec_image, elf_header. intros -> H. rewrite length_take in H. destruct (Z.ltb_spec (Z.of_nat (length file)) 64); cbn [orb]; [done|].
  destruct H as [H|H]; [lia|]. by rewrite (proj2 (Z.eqb_neq _ _) H).
Qed.

Lemma fread_header file : Z.of_nat (length file) < 2 ^ 31 -> fread file 0 64 = take 64 file.
Proof.
  intros H. unfold fread. rewrite (proj2 (Z.ltb_ge _ 0)) by lia. rewrite (wrap_small 32) by lia. cbn [orb Z.ltb Z.compare]. rewrite drop_0, Z.sub_0_r.
  destruct (Z.min_spec 64 (Z.of_nat (length file))) as [[_ ->]|[Hle ->]]; [done|]. by rewrite Nat2Z.id, firstn_all, take_ge by lia.
Qed.

(** The name is what follows the last slash. *)
Lemma last_elem_plain n : forall last, 47 ∉ n -> last_elem n last = last.
Proof.
  induction n as [|c n IH]; intros last Hn; [done|]. apply not_elem_of_cons in Hn as [N Hn]. cbn [last_elem]. rewrite (proj2 (Z.eqb_neq c 47)) by done. by apply IH.
Qed.

Lemma last_elem_spec path d n : path = n \/ path = d ++ 47 :: n -> 47 ∉ n -> last_elem path path = n.
Proof.
  intros [->| ->] Hn; [by apply last_elem_plain|]. generalize (d ++ 47 :: n) at 2.
  induction d as [|c d IH]; intros last; cbn [app last_elem]; [by apply last_elem_plain|apply IH].
Qed.

Lemma onx_run {A} (m : M kmem A) s a k : m (xkm s) = Ret (a, k) -> onx m s = Ret (a, set_xkm k s).
Proof. intros E. unfold onx. by rewrite E. Qed.

(** The state after a successful [kexec]. *)
Record executed (end_ trampoline : Z) (file path : list Z) (argv : list (list Z)) (s s' : xproc) (l l' : list Z) (im : image) (img : Z -> Z) : Prop := {
  ex_space : space end_ (top_entries trampoline (xtf s)) (xkm s) (l ++ owned (xkm s) (xpt s) (xsz s)) (xkm s') l' (xpt s') (xsz s') (exec_perm im) img;
  ex_bytes : exec_bytes im argv img;
  ex_sz : xsz s' = stack_top im;
  ex_sp : xsp s' = final_sp (stack_top im) argv /\ stack_top im - PGSIZE <= xsp s' /\ xsp s' mod 16 = 0;
  ex_regs : xa1 s' = xsp s' /\ xepc s' = e_entry (elf_header file) /\ xtf s' = xtf s;
  ex_name : forall d n, path = n \/ path = d ++ 47 :: n -> 47 ∉ n -> xname s' = take 15 n
}.

Section Kexec.
Context (end_ trampoline : Z) (file path : list Z) (argv : list (list Z)).
Context (Htramp : trampoline mod PGSIZE = 0 /\ 0 <= trampoline < 2 ^ 55).
Context (Hfile : Z.of_nat (length file) < 2 ^ 31) (Hbytes : Forall (fun b => 0 <= b < 256) file).
Context (Hargc : (length argv < MAXARG)%nat) (Hargs : Forall (fun a => Z.of_nat (length a) < PGSIZE) argv).

(** Nothing happened, and there is a reason. *)
Definition refused (s s' : xproc) (l l' : list Z) : Prop :=
  s' = set_xkm (xkm s') s /\ given_back end_ (xkm s) l (xkm s') l' /\
  forall im, exec_image file = Some im -> args_too_long argv im \/ no_room ((Z.of_nat (length l) - 5) * PGSIZE) im.

Lemma kexec_run s l : user_space end_ (xkm s) l (xpt s) (xsz s) -> xtf s mod PGSIZE = 0 -> 0 <= xtf s < 2 ^ 55 ->
  exists r s' l', kexec end_ trampoline (Some file) path argv s = Ret (r, s') /\
    ((r = -1 /\ refused s s' l l') \/
     (r = Z.of_nat (length argv) /\ exists im img, exec_image file = Some im /\ executed end_ trampoline file path argv s s' l l' im img)).
Proof.
  intros HU F1 F2. destruct Htramp as [T1 T2]. pose proof (pt_k _ _ _ _ (us_pt _ _ _ _ _ HU)) as HK.
  assert (exec_image file = None -> refused s s l l) as Hbad.
  { intros E. split; [by destruct s|]. split; [|by rewrite E]. split; [done|]. done. }
  pose proof (exec_image_none file (fread_header file Hfile)) as Hnone. unfold kexec.
  destruct (Z.eqb_spec (Z.of_nat (length (fread file 0 64))) 64) as [E64|N64]; cbn [negb]; [|exists (-1), s, l; split; [done|]; left; auto].
  destruct (Z.eqb_spec (e_magic (elf_of (fread file 0 64))) ELF_MAGIC) as [Em|Nm]; cbn [negb]; [|exists (-1), s, l; split; [done|]; left; auto].
  rewrite (fread_header file Hfile) in *. fold (elf_header file) in *. clear Hnone Hbad.
  assert (exec_image file = image_of (Z.to_nat (e_phnum (elf_header file))) file (u32 (e_phoff (elf_header file))) no_image) as Eim.
  { unfold exec_image. rewrite length_take in E64. by rewrite (proj2 (Z.ltb_ge _ 64)), (proj2 (Z.eqb_eq _ _) Em) by lia. }
  rewrite (M_bind_Ret _ _ s s s) by done.
  destruct (proc_pagetable_run end_ (xkm s) l trampoline (xtf s) HK T1 T2 F1 F2) as (pt & k1 & l1 & E1 & Hr).
  rewrite (M_bind_Ret _ _ _ _ _ (onx_run _ s _ _ E1)). destruct Hr as [(Npt & N1 & H1)|(-> & N1 & G1)].
  2:{ exists (-1), (set_xkm k1 s), l1. split; [done|]. left. split; [done|]. split; [done|]. split; [done|]. intros im _. right. left. right.
      pose proof (PGROUNDUP_nonneg (im_sz im)). unfold PGSIZE. lia. }
  rewrite (proj2 (Z.eqb_neq pt 0) Npt). set (N := (Z.of_nat (length l) - 5) * PGSIZE).
  destruct (build_run end_ (top_entries trampoline (xtf s)) (xkm s) l (xpt s) (xsz s) file Hfile Hbytes argv Hargc Hargs k1 l1 pt N (elf_header file))
    as (sz1 & o & k2 & l2 & E2 & Hr).
  { split; [exact H1|intros va Hva; change (PGROUNDUP (im_sz no_image)) with 0 in Hva; lia|]. change (PGROUNDUP (im_sz no_image)) with 0. unfold N, PGSIZE. lia. }
  rewrite (M_bind_Ret _ _ _ _ _ (onx_run _ (set_xkm k1 s) _ _ E2)). rewrite <- Eim in Hr.
  destruct Hr as [(im & img & Ei & Hfit & -> & -> & H2 & HB)|(-> & (prm & img & H2) & Hwhy)].
  - rewrite (M_bind_Ret _ _ (set_xkm k2 (set_xkm k1 s)) tt (mkX k2 pt (stack_top im) (xtf s) (final_sp (stack_top im) argv) (e_entry (elf_header file))
      (final_sp (stack_top im) argv) (take 15 (last_elem path path)))) by done.
    destruct (space_switch end_ _ (xkm s) l (xpt s) (xsz s) HU k2 l2 pt _ _ _ H2) as (k3 & l3 & E3 & H3).
    rewrite (M_bind_Ret _ _ _ _ _ (onx_run _ (mkX k2 _ _ _ _ _ _ _) _ _ E3)). eexists _, _, l3. split; [done|]. right. split; [done|].
    exists im, img. split; [done|]. unfold args_too_long in Hfit. split; try done.
    + cbn [xsp set_xkm]. split; [done|]. split; [lia|]. apply down16_spec.
    + intros d n Hp Hn. cbn [xname set_xkm]. by rewrite (last_elem_spec path d n Hp Hn).
  - destruct (space_freed end_ _ (xkm s) l k2 l2 pt sz1 prm img H2) as (k3 & l3 & E3 & K3 & L3 & G3).
    rewrite (M_bind_Ret _ _ _ _ _ (onx_run _ (set_xkm k2 (set_xkm k1 s)) _ _ E3)).
    exists (-1), (set_xkm k3 s), l3. split; [done|]. left. split; [done|]. split; [done|]. split; [split; [done|split; [done|done]]|done].
Qed.
End Kexec.

(** ** Theorem *)

(** C13: [kexec] on any file, path and arguments as [sys_exec] passes them.  It never panics and returns in a state
    of the same kind.  It gives the number of arguments, and then: the new page table was made of
    free pages, maps exactly the program, a page the user cannot reach and the stack, with the permissions of the
    segments and the trampoline and trap frame on top; the bytes are those of the file, zero beyond, with the argument
    strings and the array of their addresses on the stack; stack pointer, entry point and
    name are set; and free pages and pages of the old address space together are exactly the free pages and
    the pages of the new one.  Or it gives -1, the process is as it was, all pages are free
    again that were, and no other page was written; this happens only if the file is not such an ELF file, the arguments do not fit in
    a page, or there are fewer than five free pages and three for each page of the new address space. *)
Theorem kexec_correct end_ trampoline file path argv s l :
  user_space end_ (xkm s) l (xpt s) (xsz s) -> xtf s mod PGSIZE = 0 -> 0 <= xtf s < 2 ^ 55 ->
  trampoline mod PGSIZE = 0 -> 0 <= trampoline < 2 ^ 55 -> Z.of_nat (length file) < 2 ^ 31 -> Forall (fun b => 0 <= b < 256) file ->
  (length argv < MAXARG)%nat -> Forall (fun a => Z.of_nat (length a) < PGSIZE) argv ->
  exists r s' l', kexec end_ trampoline (Some file) path argv s = Ret (r, s') /\ user_space end_ (xkm s') l' (xpt s') (xsz s') /\
    ((r = -1 /\ refused end_ file argv s s' l l') \/
     (r = Z.of_nat (length argv) /\ exists im img, exec_image file = Some im /\ executed end_ trampoline file path argv s s' l l' im img)).
Proof.
  intros HU F1 F2 T1 T2 Hf Hb Ha Hs.
  destruct (kexec_run end_ trampoline file path argv (conj T1 T2) Hf Hb Ha Hs s l HU F1 F2) as (r & s' & l' & E & Hr).
  exists r, s', l'. split; [done|]. split; [|done]. destruct Hr as [(_ & E' & G & _)|(_ & im & img & _ & [H _ _ _ _ _])].
  - rewrite E'. cbn [xkm xpt xsz set_xkm]. by apply (given_back_user end_ (xkm s) l).
  - by eapply space_user.
Qed.

(** ** Witness *)

#[local] Opaque Sample.k0.

Module ExecSample.
(** An ELF file with one segment: 8 bytes of code for address 0, 16 bytes in memory. *)
Definition header : list Z := putle 2 (putle 8 (putle 8 (putle 4 (repeat 0 64) 0 ELF_MAGIC) 24 4) 32 64) 56 1.
Definition proghdr1 : list Z := putle 8 (putle 8 (putle 8 (putle 4 (putle 4 (repeat 0 56) 0 ELF_PROG_LOAD) 4 5) 8 120) 32 8) 40 16.
Definition file : list Z := header ++ proghdr1 ++ [1; 2; 3; 4; 5; 6; 7; 8].
Definition s : xproc := mkX Sample.k0 Sample.root 0 (PHYSTOP - 2 * PGSIZE) 0 0 0 [].

(** Sixteen pages, one of them the table. *)
Lemma start : exists l, user_space Sample.end_ (xkm s) l (xpt s) (xsz s) /\ (15 <= length l)%nat.
Proof.
  assert (0 < Sample.end_ <= PHYSTOP) as He by (vm_compute; split; congruence).
  destruct (kinit_spec Sample.end_ He (fun _ => 0)) as (k & l & E & HK & Hl).
  assert (16 <= length l)%nat as Hn.
  { change 16%nat with (length ((fun i => PHYSTOP - Z.of_nat i * PGSIZE) <$> seq 1 16)). apply submseteq_length, NoDup_submseteq.
    - apply NoDup_fmap_2_strong; [|apply NoDup_seq]. intros x y _ _ H. unfold PGSIZE in H. lia.
    - intros p (i & -> & Hi%elem_of_seq)%list_elem_of_fmap. apply Hl. unfold page, Sample.end_. change PHYSTOP with (557056 * PGSIZE).
      split; [|unfold PGSIZE in *; lia]. rewrite <- Z.mul_sub_distr_r. by apply Z.mod_mul. }
  destruct l as [|p l]; [cbn in Hn; lia|]. exists l. split; [|cbn in Hn; lia].
  destruct (uvmcreate_spec Sample.end_ k p l HK) as (k' & E' & HP & Hz & _).
  assert (Sample.boot (mkK (fun _ => 0) 0) = Ret (p, k')) as Eb by (unfold Sample.boot; by rewrite (M_bind_Ret _ _ _ _ _ E)).
  assert (Sample.k0 = k') as Ek by (with_strategy transparent [Sample.k0] (unfold Sample.k0); by rewrite Eb).
  assert (match Sample.boot (mkK (fun _ => 0) 0) with Ret (x, _) => x | _ => 0 end = Sample.root) as Er by (vm_compute; reflexivity).
  rewrite Eb in Er. cbn [xkm xpt xsz s]. rewrite Ek, <- Er. split; [done|split; [lia|done]|split; intros; change (PGROUNDUP 0) with 0 in *; lia|].
  intros va _. by rewrite Hz.
Qed.
End ExecSample.

(** The memory of [Sample] is enough: [kexec] of this file with one argument succeeds. *)
Lemma kexec_correct_witness : exists s', kexec Sample.end_ (PHYSTOP - 3 * PGSIZE) (Some ExecSample.file) [47; 97] [[97]] ExecSample.s = Ret (1, s') /\ xsz s' = 3 * PGSIZE.
Proof.
  destruct ExecSample.start as (l & HU & Hn).
  destruct (kexec_correct Sample.end_ (PHYSTOP - 3 * PGSIZE) ExecSample.file [47; 97] [[97]] ExecSample.s l HU) as (r & s' & l' & E & _ & Hr);
    [reflexivity|vm_compute; split; congruence|reflexivity|vm_compute; split; congruence|vm_compute; congruence| |vm_compute; lia|vm_compute; by constructor|].
  { apply list.Forall_forall. intros b Hb. assert (forallb (fun b => (0 <=? b) && (b <? 256)) ExecSample.file = true) as Hall by reflexivity.
    rewrite forallb_forall in Hall. apply list_elem_of_In, Hall in Hb. lia. }
  assert (match exec_image ExecSample.file with Some im => im_sz im | None => 0 end = 16) as Esz by reflexivity.
  destruct Hr as [(-> & _ & _ & Hwhy)|(-> & im & img & Eim & [_ _ Es _ _ _])].
  - exfalso. destruct (exec_image ExecSample.file) as [im|]; [|done]. destruct (Hwhy im eq_refl) as [Hlong|Hroom].
    + unfold args_too_long, stack_top in Hlong. rewrite Esz in Hlong. vm_compute in Hlong. done.
    + unfold no_room, short, stack_top in Hroom. rewrite Esz in Hroom. change (PGROUNDUP 16) with PGSIZE in Hroom.
      change (PGROUNDUP (PGSIZE + 2 * PGSIZE)) with (3 * PGSIZE) in Hroom. rewrite TRAPFRAME_val in Hroom. unfold PGSIZE in Hroom. lia.
  - exists s'. split; [exact E|]. rewrite Es. rewrite Eim in Esz. unfold stack_top. by rewrite Esz.
Defined.
