(* ===== verification/ExecFile.v ===== *)
(** * The file [kexec] reads

    [Exec] takes the executable as its contents.  This is what [readi] of [FsData] delivers of an inode. *)

From S2P Require Import Prelude Mlfq Bio FsBlk Words FsInode FsData.
From S2P Require Exec.

Section File.
Context (sb : superblock) (HL : layout sb).

(** The contents of an inode. *)
Definition contents (s : fs) (ip : nat) : list Z := fbytes s ip 0 (i_size (geti s ip)).

Lemma fbytes_slice s ip off n size : 0 <= off -> 0 <= n -> off + n <= size ->
  fbytes s ip off n = take (Z.to_nat n) (drop (Z.to_nat off) (fbytes s ip 0 size)).
Proof.
  intros Ho Hn Hs. replace size with (off + (n + (size - off - n))) by lia. rewrite !fbytes_app by lia.
  rewrite drop_app_length' by (by rewrite length_fbytes). by rewrite take_app_length' by (by rewrite length_fbytes).
Qed.

(** [readi] into kernel memory reads exactly what [Exec.fread] says, for every request [kexec] makes. *)
Theorem readi_is_fread copyout s ip dst off n : file_ok sb s ip -> 0 <= off < 2 ^ 32 -> 0 <= n < 2 ^ 32 ->
  let b := Exec.fread (contents s ip) off n in
  readi copyout sb ip false dst off n s = Ret ((Z.of_nat (length b), b), s) /\ Z.of_nat (length (contents s ip)) < 2 ^ 31.
Proof.
  intros Hok Ho Hn b. pose proof (fo_size _ _ _ Hok) as Hsz. pose proof FILEMAX_val as HF. set (size := i_size (geti s ip)) in *.
  assert (Z.of_nat (length (contents s ip)) = size) as El by (unfold contents; fold size; rewrite length_fbytes; lia).
  split; [|lia]. unfold b, Exec.fread. rewrite El. destruct (Z.lt_ge_cases (off + n) (2 ^ 32)) as [Hlt|Hge].
  - rewrite (wrap_small 32 (off + n)) by lia. rewrite (proj2 (Z.ltb_ge (off + n) off)), orb_false_r by lia.
    destruct (readi_spec sb HL copyout s ip false dst off n Hok Ho Hn Hlt) as [E|[E _]]; [|done]. fold size in E. rewrite E.
    destruct (Z.ltb_spec size off) as [Hb|Hi]; [by rewrite Z.max_l by lia|]. rewrite Z.max_r by lia.
    rewrite (fbytes_slice s ip off (Z.min n (size - off)) size) by lia. unfold contents. fold size.
    do 3 f_equal. rewrite length_take, length_drop, length_fbytes. lia.
  - assert (u32 (off + n) = off + n - 2 ^ 32) as E.
    { unfold wrap. rewrite <- (Z.mod_add (off + n) (-1)) by lia. apply Z.mod_small. lia. }
    rewrite E, (proj2 (Z.ltb_lt (off + n - 2 ^ 32) off)), orb_true_r by lia. unfold readi, readip.
    rewrite (M_bind_Ret _ _ s size s) by done. rewrite E, (proj2 (Z.ltb_lt (off + n - 2 ^ 32) off)), orb_true_r by lia. done.
Qed.
End File.
